(* ===== verification/_CoqProject ===== *)
-Q . S2P
Prelude.v
Codec.v
LibtdfEncode.v
LibtdfEncodeSpec.v
LibtdfDecode.v
LibtdfRoundtrip.v
ExdsString.v
ExdsError.v
TldNameKey.v
CStdio.v
TldIO.v
ExdsStream.v
ExdsOStream.v
TldIOSpec.v
Interop.v
HashTable.v
TldNames.v
TldRename.v
TldNameTable.v
TldShapes.v
TldShapesSpec.v
TldCapsule.v
TldCapsuleSpec.v
TldWrite.v
TldUsage.v
TldRead.v
TldReadUnits.v
TldReadBack.v
TldLibrary.v
TldResolve.v
TldResolveSpec.v
TldSafeState.v
TldUnitSets.v
TldSafeRead.v
TldSafeLink.v
TldStored.v
TldLinked.v
TldArgs.v
TldArgsSpec.v
TldLibraryWrite.v
TldLibraryBack.v
TldRenameFile.v
TldRenameFileSpec.v
TldRenameFileBack.v
TldUnitFile.v
TldArgParse.v
TldMain.v
TldMainSpec.v
TldLinker.v
TldBuilder.v
TldExtract.v
TldContents.v
TldProgram.v
TldLibrarySafe.v
TldExtractSpec.v
TldContentsSpec.v
TldInputs.v
TldBuilderSafe.v
TldUpdates.v
TldBuilderSpec.v
TldPhases.v
TldLinkerSafe.v
TldLinkerSpec.v
TldProgramSpec.v
TransFlpt.v
TransFlptSpec.v
TransFlptArith.v
TransNumbers.v
TransNumbersSpec.v
TransFlptDiv.v
TransNumbersArray.v
TransInt64.v
TransReader.v
TransReaderSpec.v
TransReaderInts.v
TransReaderPlaces.v
TransFormats.v
TransCapsule.v
TransCapsuleSpec.v
TransLinked.v
