(* ===== verification/Prelude.v ===== *)
(** * TDF bit encodings and the TDF linker

    A model of the parts of TenDRA that produce, read and combine TDF, its
    intermediate representation: the bit-level encoding library libtdf, the
    strings, binary streams and text streams of libexds, the TDF linker
    tld with its other modes, the handling of libraries, and the parts of the
    installers (trans) that read TDF and compute with its numbers.

    How the program works. A producer writes TDF as a string of bits through
    the bitstreams of libtdf; an installer turns it into a program, and reads
    it with a reader of its own.
    The linker reads TDF capsules with readers of its own, built on the binary
    streams of libexds: it enters the external names of every capsule in
    tables (one name table per shape, a shape being a kind of name such as
    tag or token), renames them, decides which capsule defines each name,
    renumbers the identifiers of the units, and writes one capsule. The same
    program builds libraries of capsules, lists them and extracts capsules
    from them. An installer reads the same front part of a capsule, makes a
    table for each kind of name, and then decodes the units; it goes back and
    forth between places of the file and copies of parts of it. Integers that
    do not fit a machine word are floating point numbers of its own, in an
    array of which it hands out elements.

    ** Files

    - [Prelude] (this file): integers at their width, bit strings, a state and
      exception monad, tactics and hint databases.
    - [Codec]: the encodings of the TDF specification as bit strings (integers
      as octal digits in marked nibbles, extended integers, padding), and the
      interfaces [BitWriter] and [BitReader] that any implementation of a bit
      stream can instantiate.
    - [LibtdfEncode], [LibtdfDecode]: libtdf/src/bitstream.c, encode.c and
      decode.c. A bitstream is a chain of 64-byte chunks, partly written to a
      file, with a free list of chunks; [world] holds the free list and the
      files. [LibtdfEncodeSpec] proves each encoder appends its field to what
      the chain stands for; [LibtdfRoundtrip] proves what is encoded is decoded.
    - [ExdsString]: libexds/src/dstring.c, cstring.c and syntax.c. [ExdsError]:
      the severities of libexds/src/error.c.
    - [ExdsStream]: libexds/src/istream.c, text input with escape sequences;
      [ExdsOStream]: ostream.c, text output, read back by the former.
    - [TldNameKey]: tld/src/adt/name-key.c, external names and their syntax.
    - [TldIO]: libexds/src/bistream.c and bostream.c, tld/src/adt/tdf-read.c
      and tdf-write.c; [TldIOSpec] gives each datum a format and proves that
      writers produce it and readers consume it. [Interop] joins the two
      libraries: the linker reads what libtdf wrote.
    - [HashTable]: the chained hash tables the linker has four copies of, over
      the class [HashKey] of their keys, with the laws of a finite map.
    - [TldNames]: tld/src/adt/name-entry.c, name-table.c and the part of
      shape-entry.c that owns a name table. [TldRename] proves that renaming
      computes the end of each chain of renames; [TldNameTable] refines the
      table to a map from names to entries.
    - [TldShapes]: shape-entry.c, shape-table.c, map-entry.c, map-table.c,
      unit-entry.c and unit-table.c; [TldShapesSpec] proves that counts and
      sizes agree with the data they announce.
    - [TldCapsule]: capsule.c, the reader of capsules and the writer of the
      linked capsule; [TldCapsuleSpec] proves the writer produces a
      well-formed capsule; [TldUsage] proves the rule by which a definition
      is chosen for each name.
    - [TldRead], [TldReadUnits]: what each operation of the reader of capsules
      does on the format it expects, as the relation [lreads] between the
      states of the linker before and after; [TldReadBack] concludes that a
      linker reads back what a linker writes.
    - [TldLibrary]: library.c, libraries of capsules and the index of the
      names they define. [TldResolve]: the loop of name-entry.c and
      shape-entry.c that loads the capsules of libraries which define names
      still undefined; [TldResolveSpec] proves that it ends, and that what it
      loads depends on the order of the libraries.
    - [TldSafe], [TldSafeState], [TldSafeRead], [TldSafeLink]: the reader of
      capsules on arbitrary bytes. [TldSafe] has the rules of the readers,
      [TldSafeState] the invariant of the linker's tables and the triple
      [lsafe] with its rules, [TldSafeRead] a lemma for each operation,
      [TldSafeLink] the theorem.
    - [TldUnitSets]: what is relied on of the unit sets, the default ones or
      those of a file. [TldStored]: the bytes of a capsule that are kept are
      all of its input. [TldLinked]: the invariant between the capsules that a
      front end reads, of which the linker and the builder are instances.
    - [TldWrite]: the writer of capsules never stops, whatever the sizes.
    - [TldArgs]: tld/src/file-name.c and adt/arg-data.c, file names and the
      arguments of the program; [TldArgsSpec] proves that its operations keep
      the arguments well formed. [TldRenameFile]: tld/src/rename-file.c, the
      parser of files of renames; [TldRenameFileSpec] proves that it ends on any
      file, [TldRenameFileBack] that it reads back what is printed in its
      syntax. [TldUnitFile]: the files of unit set names of capsule.c.
      [TldArgParse]: tld/src/arg-parse.c, the options of a command line, over
      any handlers; [TldMain]: tld/src/main.c, the modes of the program, the
      options of each and their handlers; [TldMainSpec] proves what the front
      ends are given. [TldLinker]: frontend/linker.c, the phases of
      the linker from its arguments to its output.
    - [TldLibraryWrite], [TldLibraryBack]: what the writer of libraries
      produces, and that the reader finds it all again.
    - [TldLibrarySafe] (the reader of libraries), [TldUpdates] (the changes
      that hiding, keeping and suppressing make to names), [TldPhases] (the
      triple [phase] of a part of the linker) and [TldLinkerSafe] (each phase)
      carry the invariant through linker.c on any input; [TldLinkerSpec]
      composes them into the theorem on [linker_main].
    - [TldBuilder], [TldExtract], [TldContents]: the front ends builder.c,
      extract.c and contents.c with the operations of library.c they call.
      [TldInputs] says what the inputs of the builder are, [TldBuilderSafe]
      that it reads them, [TldBuilderSpec] that its library has them;
      [TldExtractSpec] which files are written, [TldContentsSpec] what is
      printed.
    - [TldProgram]: the function main of main.c, from the command line to the
      exit status; [TldProgramSpec] puts the theorems on its modes together.
    - [TransFlpt]: trans/src/common/flpt/flpt.c, the arithmetic of floating
      point numbers; [TransFlptSpec] has the reference, the exact result
      rounded to eight digits, and [TransFlptArith] proves that each operation
      computes it, but for the division, which is close to it ([TransFlptDiv]). [TransNumbers]: the array of numbers of flpt.c with its
      free list, f64.c and utility/int64.c; [TransNumbersSpec] takes integers
      to numbers and back, [TransNumbersArray] refines the array to a finite
      map, [TransInt64] proves what numbers built from digits are, and the
      arithmetic of 64 bit integers.
    - [TransReader]: trans/src/common/reader/basicread.c, the reader of the
      installers. [TransReaderSpec] says which bits are ahead of it and has the
      relation [ireads], that an operation consumes a format of [TldIOSpec];
      [TransReaderInts] proves it for integers of any size, and that the loops
      end on files that hold anything; [TransFormats] for identifiers and the
      header of a capsule. [TransReaderPlaces] is about places in the file and
      in memory and the bit and byte streams.
    - [TransCapsule]: the front part of a capsule, in main/main.c (translate),
      reader/decoder.c and reader/read_fns.c. [TransCapsuleSpec]
      proves what external names become, [TransLinked] what the tables hold,
      and that the installer reads what the linker writes.

    ** How the model corresponds to the code

    State is passed explicitly. A function that may throw is in [stM], the
    monad of a state and a [result]; a function that may end the program (a
    failed assertion, a fatal error, the use of a null pointer) returns an
    [option], or throws [Stop]. Pointers into the tables of the linker are
    indices into vectors of entries, so that sharing is what it is in the code;
    an array given to a function and changed there is returned. Integers are
    [Z] with wrap-around written out where a type is unsigned ([u8], [u32],
    [u64]); sizes of objects in memory are [nat]. Loops without a structural
    argument take fuel: enough of it is proved to reach the result
    ([de_int_terminates], [tdf_read_int_terminates], [resolve_renames_ok]), or
    is the number of digits of the widest integer (eleven octal digits for 32
    bits, in [count_shift] and [tdf_int_size_loop]; the format theorems prove
    that it suffices). The fuel of the loops of the installers' reader is the
    number of bits that are left to read ([reader_loops_end]); the division of
    numbers makes at most 145 rounds, one for each bit of the divisor and one more.

    A mantissa has eight digits to the base 65536, the size for x86, mips,
    alpha and m68k; the machines with a longer floating point type have ten.
    What a code generator chooses (which tokens are its own, the prefix of
    names, the order of bytes) and what the command line of an installer sets
    are arguments of the definitions. The kinds of entities for diagnostics
    are those of the third of the three diagnostic formats (diag3).

    Memory is never exhausted in the model, and memory that is not yet written
    has arbitrary contents, the argument [junk] of the definitions; theorems
    hold for any. The messages of tld are not modelled, but for whether a
    serious error was reported: that it gives up after the twentieth of them
    (shared/src/error.c) is not modelled. Debugging output is left out.

    ** Theorems

    Round trips: [capsule_read_accepts_written], [libtdf_roundtrip],
    [library_read_accepts_written], [linker_reads_libtdf], [tdf_io_roundtrip],
    [rename_file_roundtrip], [escaped_text_back],
    [name_key_string_roundtrip]. Functional correctness of the encoders and
    decoders on every path: [enc_bits_appends_field], [enc_long_bits_field],
    [enc_extn_encodes], [join_bitstreams_concat],
    [enc_bitstream_length_prefixed], [de_bits_reads], [de_eof_exact]. Bounds
    and termination: [tdf_read_int_exact], [cstring_to_unsigned_exact],
    [de_int_terminates], [tdf_read_int_terminates], [rename_file_parse_ends],
    [unit_set_file_checked]. The command line: [main_init_well_formed].
    Text input: [istream_delivers]. Data structures against
    their specification: [dstring_builds], [nstring_compare_lex],
    [name_key_lists_are_sets], [shape_table_is_map], [name_table_refines_map],
    [renames_lead_to_targets], [names_identified_by_target]. The linker:
    [linker_main_ends] (on any arguments, unit sets and files the linker ends, and unless
    it has reported an error it writes a capsule that it accepts),
    [capsule_read_safe] (on arbitrary bytes the reader of capsules keeps its
    invariant and only reports errors), [resolve_undefined_terminates],
    [usages_choose_definition], [tld_unit_size_exact],
    [capsule_write_well_formed]. The other modes: [builder_main_ends] (what
    the builder writes is a library from which the extraction gives back
    exactly the inputs), [extract_main_ends], [contents_main_ends]. The program:
    [tld_ends] (on any command line it ends with a status, a message when it
    fails, and a crash only in listed cases).

    The installers: [installer_reads_linked] (the front part of a capsule that
    the linker writes makes the tables that its shapes describe), [d_bitstream_exact],
    [bytestream_exact] (what is passed over, and where the reader is
    afterwards), [d_tdfint_exact], [initreader_versions] (which headers are
    refused), [reader_loops_end]. Their numbers: [flt_mul_rounded],
    [flt_add_rounded], [flt_round_nearest] (results are the exact ones,
    rounded), [flt_div_close] (how close the quotient is, and that the division
    uses memory outside an array where that has nine elements), [flt_cmp_order], [floatrep_integer], [flptnos_refines_map],
    [f64_roundtrip], [INT64_arithmetic], [INT64_division].

    Defects of the code, shown on the model:
    [de_bits_uninitialised], [de_eof_loses_buffer] (in LibtdfDecode),
    [name_key_unique_never_parsed], [name_key_hex_escape_wrong] (in TldNameKey),
    [resolve_undefined_order_dependent], [linker_goes_on_after_errors]; where a
    theorem needs the defect out of the way it says so in its hypotheses (the
    decoder's theorems start [de_bits] with the size of the buffer in the
    variable it leaves uninitialised).

    ** Not modelled

    In the linker: debugging and help output, the text of messages, and the
    twenty errors after which the shared error routine exits. In libexds: bit
    vectors and lists, the exception and allocation machinery.

    In the installers: the scaling of numbers by powers of
    ten and their conversion to the formats of machines; the units of capsules, whose
    constructs are decoded by generated code; tokens and their
    application; the transformations of the intermediate code and the
    generators of machine code.

    The other programs of the tree (producers, tnc, disp, and the generators
    sid, lexi, tspec, make_tdf, ...) only share the encodings. *)
From stdpp Require Import base list list_numbers gmap numbers.
From Stdlib Require Import ZArith Lia.

#[global] Open Scope Z_scope.

Declare Scope tendra_scope.
Delimit Scope tendra_scope with tendra.
#[global] Open Scope tendra_scope.

(** ** Machine integers *)

(** [unsigned] is 32 bits and [unsigned long] is 64 bits wide (LP64), the
    widths of the hosts the tree builds on today; arithmetic is modulo. *)
Definition UINT_BITS : Z := 32.
Definition ULONG_BITS : Z := 64.
Definition UINT_MAX : Z := 2 ^ UINT_BITS - 1.

Definition wrap (w v : Z) : Z := v mod 2 ^ w.
Definition u32 (v : Z) : Z := wrap UINT_BITS v.
Definition u64 (v : Z) : Z := wrap ULONG_BITS v.
Definition u8 (v : Z) : Z := wrap 8 v.

(** The conversion of a value to a signed type of [w] bits (two's complement). *)
Definition swrap (w v : Z) : Z :=
  (v + 2 ^ (w - 1)) mod 2 ^ w - 2 ^ (w - 1).

Definition is_byte (b : Z) : Prop := 0 <= b < 256.
#[export] Instance is_byte_dec (b : Z) : Decision (is_byte b).
Proof. unfold is_byte. apply _. Defined.

(** ** Tactics *)

(** Splits every conjunction, existential and pair equation of the context. *)
Ltac destr_all :=
  repeat match goal with
  | H : _ /\ _ |- _ => destruct H
  | H : exists _, _ |- _ => destruct H
  | H : (_, _) = (_, _) |- _ => injection H as; subst
  end.

(** Case analysis on the scrutinee of a match in the goal or a hypothesis. *)
Ltac case_on :=
  match goal with
  | |- context [match ?x with _ => _ end] => destruct x eqn:?
  | H : context [match ?x with _ => _ end] |- _ => destruct x eqn:?
  end.

(** Turns the boolean comparisons of the context into propositions. *)
Ltac bool_to_prop :=
  repeat match goal with
  | H : (_ <? _)%nat = true |- _ => apply Nat.ltb_lt in H
  | H : (_ <? _)%nat = false |- _ => apply Nat.ltb_ge in H
  | H : (_ <=? _)%nat = true |- _ => apply Nat.leb_le in H
  | H : (_ <=? _)%nat = false |- _ => apply Nat.leb_gt in H
  | H : (_ =? _)%nat = true |- _ => apply Nat.eqb_eq in H
  | H : (_ =? _)%nat = false |- _ => apply Nat.eqb_neq in H
  | H : (_ <? _) = true |- _ => apply Z.ltb_lt in H
  | H : (_ <? _) = false |- _ => apply Z.ltb_ge in H
  | H : (_ <=? _) = true |- _ => apply Z.leb_le in H
  | H : (_ <=? _) = false |- _ => apply Z.leb_gt in H
  | H : (_ =? _) = true |- _ => apply Z.eqb_eq in H
  | H : (_ =? _) = false |- _ => apply Z.eqb_neq in H
  | H : negb _ = true |- _ => apply negb_true_iff in H
  | H : negb _ = false |- _ => apply negb_false_iff in H
  | H : andb _ _ = true |- _ => apply andb_true_iff in H as [? ?]
  | H : orb _ _ = false |- _ => apply orb_false_iff in H as [? ?]
  end.

Create Rewrite HintDb bits.
Create HintDb tendra.

(** ** Machine integer lemmas *)

Lemma wrap_small w v : 0 <= v < 2 ^ w -> wrap w v = v.
Proof. intros H. apply Z.mod_small, H. Qed.

Lemma u32_small v : 0 <= v < 4294967296 -> u32 v = v.
Proof. intros H. apply wrap_small, H. Qed.

Lemma u64_small v : 0 <= v < 18446744073709551616 -> u64 v = v.
Proof. intros H. apply wrap_small, H. Qed.

Lemma u8_small v : is_byte v -> u8 v = v.
Proof. intros H. apply wrap_small, H. Qed.

Lemma u8_byte v : is_byte (u8 v).
Proof. apply Z.mod_pos_bound. reflexivity. Qed.

Lemma u8_land v : u8 v = Z.land v 255.
Proof.
  change 255 with (Z.ones 8).
  rewrite Z.land_ones by lia. reflexivity.
Qed.

#[export] Hint Resolve u8_byte : tendra.

(** A byte tested at or above bit 8 is clear. *)
Lemma testbit_small v n i : 0 <= v < 2 ^ n -> n <= i -> Z.testbit v i = false.
Proof.
  intros Hv Hi.
  destruct (decide (v = 0)) as [->|]; [apply Z.bits_0|].
  apply Z.bits_above_log2; [lia|].
  apply Z.lt_le_trans with n; [|lia].
  apply Z.log2_lt_pow2; lia.
Qed.

Lemma lor_bound n a b :
  0 <= n -> 0 <= a < 2 ^ n -> 0 <= b < 2 ^ n -> 0 <= Z.lor a b < 2 ^ n.
Proof.
  intros Hn Ha Hb.
  assert (Z.lor a b = Z.lor a b mod 2 ^ n) as ->; [|apply Z.mod_pos_bound; lia].
  apply Z.bits_inj'. intros i Hi. destruct (Z.lt_ge_cases i n).
  - rewrite Z.mod_pow2_bits_low by lia. reflexivity.
  - rewrite Z.mod_pow2_bits_high, Z.lor_spec by lia.
    rewrite !(testbit_small _ n) by lia. reflexivity.
Qed.

Lemma shiftl_bound n k a : 0 <= k -> 0 <= a < 2 ^ n -> 0 <= n -> 0 <= Z.shiftl a k < 2 ^ (n + k).
Proof. intros Hk Ha Hn. rewrite Z.shiftl_mul_pow2, Z.pow_add_r by lia. nia. Qed.

(** Or-ing in a field below a shifted value is addition. *)
Lemma lor_shiftl n a c :
  0 <= n -> 0 <= c < 2 ^ n -> Z.lor (Z.shiftl a n) c = a * 2 ^ n + c.
Proof.
  intros Hn Hc. rewrite Z.shiftl_mul_pow2 by lia.
  assert (Z.land (a * 2 ^ n) c = 0) as E.
  { apply Z.bits_inj'. intros i Hi. rewrite Z.bits_0, Z.land_spec.
    destruct (Z.lt_ge_cases i n).
    - rewrite Z.mul_pow2_bits_low by lia. reflexivity.
    - rewrite (testbit_small c n) by lia. apply andb_false_r. }
  rewrite Z.add_nocarry_lxor, Z.lxor_lor by exact E. reflexivity.
Qed.

(** ** Bit strings

    A bit string is a [list bool], most significant bit first, the order in
    which every bitstream of the system stores and transmits bits. *)

Fixpoint bits_of_Z (n : nat) (v : Z) : list bool :=
  match n with
  | O => []
  | S n' => Z.testbit v (Z.of_nat n') :: bits_of_Z n' v
  end.

Definition Z_of_bits (l : list bool) : Z :=
  fold_left (fun a (b : bool) => 2 * a + Z.b2z b) l 0.

Definition bytes_bits (bs : list Z) : list bool := flat_map (bits_of_Z 8) bs.

Lemma length_bits_of_Z n v : length (bits_of_Z n v) = n.
Proof. induction n; cbn; congruence. Qed.

Lemma bits_of_Z_add n m v :
  bits_of_Z (n + m) v = bits_of_Z n (Z.shiftr v (Z.of_nat m)) ++ bits_of_Z m v.
Proof.
  induction n as [|n IH]; cbn; [reflexivity|].
  rewrite IH, Z.shiftr_spec by lia. do 2 f_equal. lia.
Qed.

Lemma bits_of_Z_ext n v w :
  (forall i, (i < n)%nat -> Z.testbit v (Z.of_nat i) = Z.testbit w (Z.of_nat i)) ->
  bits_of_Z n v = bits_of_Z n w.
Proof.
  intros H. induction n as [|n IH]; cbn; [reflexivity|].
  rewrite IH, H by auto with lia. reflexivity.
Qed.

(** Bits above the ones written do not matter. *)
Lemma bits_of_Z_mod n m v :
  (n <= m)%nat -> bits_of_Z n (v mod 2 ^ Z.of_nat m) = bits_of_Z n v.
Proof.
  intros H. apply bits_of_Z_ext. intros i Hi.
  rewrite Z.mod_pow2_bits_low by lia. reflexivity.
Qed.

Lemma bits_of_Z_land_ones n k v :
  (n <= k)%nat -> bits_of_Z n (Z.land v (Z.ones (Z.of_nat k))) = bits_of_Z n v.
Proof. intros H. rewrite Z.land_ones by lia. apply bits_of_Z_mod, H. Qed.

(** Concatenating two fields by shift and or is concatenating bit strings. *)
Lemma bits_of_Z_lor n m v w :
  0 <= w < 2 ^ Z.of_nat m ->
  bits_of_Z (n + m) (Z.lor (Z.shiftl v (Z.of_nat m)) w)
  = bits_of_Z n v ++ bits_of_Z m w.
Proof.
  intros Hw. rewrite bits_of_Z_add. f_equal.
  - apply bits_of_Z_ext. intros i Hi.
    rewrite Z.shiftr_spec, Z.lor_spec, Z.shiftl_spec by lia.
    rewrite (testbit_small w (Z.of_nat m)) by lia.
    rewrite orb_false_r. f_equal. lia.
  - apply bits_of_Z_ext. intros i Hi.
    rewrite Z.lor_spec, Z.shiftl_spec by lia.
    rewrite Z.testbit_neg_r by lia. reflexivity.
Qed.

Lemma bits_of_Z_shiftl n m v :
  bits_of_Z (n + m) (Z.shiftl v (Z.of_nat m)) = bits_of_Z n v ++ bits_of_Z m 0.
Proof.
  rewrite <- (bits_of_Z_lor n m v 0), Z.lor_0_r by lia. reflexivity.
Qed.

Lemma bits_of_Z_0 n : bits_of_Z n 0 = replicate n false.
Proof. induction n as [|n IH]; cbn [bits_of_Z replicate]; [reflexivity|]. rewrite IH, Z.bits_0. reflexivity. Qed.

Lemma fold_bits_acc l a :
  fold_left (fun a (b : bool) => 2 * a + Z.b2z b) l a
  = a * 2 ^ Z.of_nat (length l) + Z_of_bits l.
Proof.
  unfold Z_of_bits. revert a. induction l as [|b l IH]; intros a; cbn [fold_left length].
  - cbn. lia.
  - rewrite IH, (IH (2 * 0 + Z.b2z b)).
    rewrite Nat2Z.inj_succ, Z.pow_succ_r by lia. ring.
Qed.

Lemma Z_of_bits_cons b l :
  Z_of_bits (b :: l) = Z.b2z b * 2 ^ Z.of_nat (length l) + Z_of_bits l.
Proof. unfold Z_of_bits at 1. cbn. rewrite fold_bits_acc. f_equal. Qed.

Lemma Z_of_bits_app l1 l2 :
  Z_of_bits (l1 ++ l2) = Z_of_bits l1 * 2 ^ Z.of_nat (length l2) + Z_of_bits l2.
Proof. unfold Z_of_bits at 1. rewrite fold_left_app. apply fold_bits_acc. Qed.

Lemma Z_of_bits_bound l : 0 <= Z_of_bits l < 2 ^ Z.of_nat (length l).
Proof.
  induction l as [|b l IH]; [cbn; lia|].
  rewrite Z_of_bits_cons. cbn [length]. rewrite Nat2Z.inj_succ, Z.pow_succ_r by lia.
  destruct b; cbn [Z.b2z]; lia.
Qed.

Lemma Z_of_bits_of_Z n v : Z_of_bits (bits_of_Z n v) = v mod 2 ^ Z.of_nat n.
Proof.
  induction n as [|n IH]; cbn [bits_of_Z].
  - cbn. rewrite Z.mod_1_r. reflexivity.
  - rewrite Z_of_bits_cons, IH, length_bits_of_Z.
    rewrite Nat2Z.inj_succ, Z.pow_succ_r by lia.
    rewrite (Z.mul_comm 2), (Z.rem_mul_r v) by lia.
    rewrite Z.testbit_spec' by lia. lia.
Qed.

Lemma Z_of_bits_of_Z_small n v :
  0 <= v < 2 ^ Z.of_nat n -> Z_of_bits (bits_of_Z n v) = v.
Proof. intros H. rewrite Z_of_bits_of_Z. apply Z.mod_small, H. Qed.

Lemma testbit_Z_of_bits_cons b l :
  Z.testbit (Z_of_bits (b :: l)) (Z.of_nat (length l)) = b.
Proof.
  rewrite Z_of_bits_cons. pose proof (Z_of_bits_bound l).
  rewrite Z.testbit_odd, Z.shiftr_div_pow2 by lia.
  rewrite Z.div_add_l, (Z.div_small (Z_of_bits l)), Z.add_0_r by lia.
  destruct b; reflexivity.
Qed.

Lemma bits_of_Z_of_bits l : bits_of_Z (length l) (Z_of_bits l) = l.
Proof.
  induction l as [|b l IH]; [reflexivity|].
  cbn [length bits_of_Z]. rewrite testbit_Z_of_bits_cons. f_equal.
  transitivity (bits_of_Z (length l) (Z_of_bits l)); [|exact IH].
  rewrite Z_of_bits_cons.
  rewrite <- (bits_of_Z_mod (length l) (length l)
    (Z.b2z b * 2 ^ Z.of_nat (length l) + Z_of_bits l)) by lia.
  rewrite (Z.add_comm (Z.b2z b * _)), Z_mod_plus_full, bits_of_Z_mod by lia.
  reflexivity.
Qed.

Lemma bits_of_Z_inj n v w :
  0 <= v < 2 ^ Z.of_nat n -> 0 <= w < 2 ^ Z.of_nat n ->
  bits_of_Z n v = bits_of_Z n w -> v = w.
Proof.
  intros Hv Hw H. rewrite <- (Z_of_bits_of_Z_small n v Hv), H.
  apply Z_of_bits_of_Z_small, Hw.
Qed.

Lemma length_bytes_bits bs : length (bytes_bits bs) = (8 * length bs)%nat.
Proof.
  induction bs as [|b bs IH]; [reflexivity|].
  unfold bytes_bits in *. cbn [flat_map]. rewrite length_app, length_bits_of_Z, IH. cbn. lia.
Qed.

Lemma bytes_bits_app l1 l2 : bytes_bits (l1 ++ l2) = bytes_bits l1 ++ bytes_bits l2.
Proof. apply flat_map_app. Qed.

Lemma bytes_bits_cons b l : bytes_bits (b :: l) = bits_of_Z 8 b ++ bytes_bits l.
Proof. reflexivity. Qed.

Lemma bytes_bits_take n bs : take (8 * n) (bytes_bits bs) = bytes_bits (take n bs).
Proof.
  revert n. induction bs as [|b bs IH]; intros [|n]; try reflexivity.
  - rewrite bytes_bits_cons. cbn [take]. rewrite bytes_bits_cons, <- IH.
    replace (8 * S n)%nat with (length (bits_of_Z 8 b) + 8 * n)%nat
      by (rewrite length_bits_of_Z; lia).
    apply take_app_add.
Qed.

Lemma bytes_bits_drop n bs : drop (8 * n) (bytes_bits bs) = bytes_bits (drop n bs).
Proof.
  revert n. induction bs as [|b bs IH]; intros [|n]; try reflexivity.
  - rewrite bytes_bits_cons. cbn [drop]. rewrite <- IH.
    replace (8 * S n)%nat with (length (bits_of_Z 8 b) + 8 * n)%nat
      by (rewrite length_bits_of_Z; lia).
    apply drop_app_add.
Qed.

Lemma bytes_bits_inj l1 l2 :
  Forall is_byte l1 -> Forall is_byte l2 -> bytes_bits l1 = bytes_bits l2 -> l1 = l2.
Proof.
  revert l2. induction l1 as [|b l1 IH]; intros [|c l2] H1 H2 H.
  - reflexivity.
  - apply (f_equal length) in H. rewrite !length_bytes_bits in H. cbn in H. lia.
  - apply (f_equal length) in H. rewrite !length_bytes_bits in H. cbn in H. lia.
  - inversion H1; inversion H2; subst. rewrite !bytes_bits_cons in H.
    apply app_inj_1 in H as [Hb Ht]; [|rewrite !length_bits_of_Z; reflexivity].
    f_equal; [|by apply IH].
    by apply (bits_of_Z_inj 8).
Qed.

#[export] Hint Rewrite length_bits_of_Z length_bytes_bits @length_app @length_take
  @length_drop @length_replicate @length_insert : bits.

(** ** Strings *)

(** What precedes and what follows the last occurrence of [c], as [strrchr]
    finds it. *)
Fixpoint split_last (c : Z) (s : list Z) : option (list Z * list Z) :=
  match s with
  | [] => None
  | x :: s =>
      match split_last c s with
      | Some (before, after) => Some (x :: before, after)
      | None => if x =? c then Some ([], s) else None
      end
  end.

(** ** State and exceptions

    Code that throws: the state reached and either a value or the exception. *)
Inductive result (E A : Type) :=
| Ok (a : A)
| Throw (e : E).
Arguments Ok {E A} a.
Arguments Throw {E A} e.

Definition stM (S E A : Type) : Type := S -> S * result E A.

Definition st_throw {S E A} (e : E) : stM S E A := fun s => (s, Throw e).
Definition st_get {S E} : stM S E S := fun s => (s, Ok s).
Definition st_put {S E} (s : S) : stM S E unit := fun _ => (s, Ok tt).

#[export] Instance stM_ret S E : MRet (stM S E) := fun A a s => (s, Ok a).
#[export] Instance stM_bind S E : MBind (stM S E) := fun A B f m s =>
  match m s with
  | (s, Ok a) => f a s
  | (s, Throw e) => (s, Throw e)
  end.

(** Runs [m] on a component of the state. *)
Definition st_zoom {S T E A} (get : S -> T) (set : T -> S -> S) (m : stM T E A) : stM S E A :=
  fun s => let '(t, r) := m (get s) in (set t s, r).

Lemma stM_bind_ok {S E A B} (m : stM S E A) (f : A -> stM S E B) s s' a :
  m s = (s', Ok a) -> (m ≫= f) s = f a s'.
Proof. intros H. unfold mbind, stM_bind. rewrite H. reflexivity. Qed.

Lemma stM_bind_throw {S E A B} (m : stM S E A) (f : A -> stM S E B) s s' e :
  m s = (s', Throw e) -> (m ≫= f) s = (s', Throw e).
Proof. intros H. unfold mbind, stM_bind. rewrite H. reflexivity. Qed.

(** ** Programs that may run out of fuel *)

Definition runM (S E A : Type) : Type := S -> option (S * result E A).

#[export] Instance runM_ret S E : MRet (runM S E) := fun A a s => Some (s, Ok a).
#[export] Instance runM_bind S E : MBind (runM S E) := fun A B f m s =>
  match m s with
  | Some (s, Ok a) => f a s
  | Some (s, Throw e) => Some (s, Throw e)
  | None => None
  end.

Definition out_of_fuel {S E A} : runM S E A := fun _ => None.

Definition lift {S E A} (m : stM S E A) : runM S E A := fun s => Some (m s).
