(* ===== verification/Codec.v ===== *)
(** * Codec: the TDF wire format and the bit-stream interfaces

    The abstract specification that every bit-stream reader and writer of the
    tree implements (tdf specification, "The TDF encoding"): integers are
    written as octal digits in four-bit packets, most significant first, with
    the top bit of the packet set on the last digit; "extended" fields of [n]
    bits write one all-zero packet for each multiple of 2^n - 1.

    [BitWriter] and [BitReader] are the interfaces between the programs' low
    level bit I/O (instances: libtdf, tnc, disp, trans) and the integer
    encoders and decoders, whose theorems are proved once against them. *)
From stdpp Require Import base list list_numbers numbers.
From Stdlib Require Import ZArith Lia.
From S2P Require Import Prelude.

(** ** Octal digits *)

Fixpoint octal_aux (fuel : nat) (n : Z) : list Z :=
  match fuel with
  | O => []
  | S f => (if 8 <=? n then octal_aux f (Z.shiftr n 3) else []) ++ [Z.land n 7]
  end.

(** Enough for any [n]: each step drops three bits. *)
Definition octal_fuel (n : Z) : nat := S (Z.to_nat (Z.log2 n)).

Definition octal_digits (n : Z) : list Z := octal_aux (octal_fuel n) n.

(** The digits before the last one. *)
Definition octal_init (n : Z) : list Z :=
  if 8 <=? n then octal_digits (Z.shiftr n 3) else [].

Definition octal_value (ds : list Z) : Z := fold_left (fun a d => 8 * a + d) ds 0.

Definition is_digit (d : Z) : Prop := 0 <= d < 8.

(** The packets of an encoded integer, and the bits they are written as. *)
Definition tdfint_nibbles (n : Z) : list Z :=
  octal_init n ++ [Z.lor (Z.land n 7) 8].

Definition nibble_bits (l : list Z) : list bool := flat_map (bits_of_Z 4) l.

Definition tdfint_bits (n : Z) : list bool := nibble_bits (tdfint_nibbles n).

(** An [n]-bit extended field. *)
Definition extn_bits (n : nat) (d : Z) : list bool :=
  let e := 2 ^ Z.of_nat n - 1 in
  let k := (d - 1) / e in
  replicate (n * Z.to_nat k) false ++ bits_of_Z n (d - k * e).

(** Zero padding up to the next multiple of eight bits. *)
Definition pad_bits (len : nat) : list bool :=
  replicate ((8 - len mod 8) mod 8) false.

Lemma pad_bits_mod8 m n : (m mod 8 = 0)%nat -> pad_bits (m + n) = pad_bits n.
Proof.
  intros H. unfold pad_bits. rewrite Nat.Div0.add_mod, H. cbn [Nat.add].
  rewrite Nat.Div0.mod_mod. reflexivity.
Qed.

Lemma pad_aligned n : ((n + length (pad_bits n)) mod 8 = 0)%nat.
Proof.
  unfold pad_bits. rewrite length_replicate, Nat.Div0.add_mod_idemp_r.
  pose proof (Nat.mod_upper_bound n 8). pose proof (Nat.div_mod_eq n 8).
  replace (n + (8 - n mod 8))%nat with ((n / 8 + 1) * 8)%nat by lia.
  apply Nat.Div0.mod_mul.
Qed.

Lemma length_nibble_bits l : length (nibble_bits l) = (4 * length l)%nat.
Proof.
  unfold nibble_bits. induction l as [|d l IH]; [reflexivity|].
  cbn [flat_map length]. rewrite length_app, length_bits_of_Z, IH. lia.
Qed.

Lemma land7 n : Z.land n 7 = n mod 8.
Proof. change 7 with (Z.ones 3). rewrite Z.land_ones by lia. reflexivity. Qed.

Lemma land7_digit n : is_digit (Z.land n 7).
Proof. rewrite land7. apply Z.mod_pos_bound. reflexivity. Qed.

Lemma lor8 d : is_digit d -> Z.lor d 8 = d + 8.
Proof.
  unfold is_digit. intros H.
  assert (d = 0 \/ d = 1 \/ d = 2 \/ d = 3 \/ d = 4 \/ d = 5 \/ d = 6 \/ d = 7)
    as Hd by lia.
  repeat destruct Hd as [->|Hd]; subst; reflexivity.
Qed.

Lemma shiftr3 n : Z.shiftr n 3 = n / 8.
Proof. rewrite Z.shiftr_div_pow2 by lia. reflexivity. Qed.

Lemma log2_shiftr3 n : 8 <= n -> Z.log2 (Z.shiftr n 3) = Z.log2 n - 3.
Proof. intros H. rewrite Z.log2_shiftr by lia. pose proof (Z.log2_le_mono 8 n). cbn in *. lia. Qed.

Lemma octal_aux_fuel f1 f2 n :
  0 <= n -> (octal_fuel n <= f1)%nat -> (octal_fuel n <= f2)%nat ->
  octal_aux f1 n = octal_aux f2 n.
Proof.
  unfold octal_fuel. revert f2 n.
  induction f1 as [|f1 IH]; intros f2 n Hn H1 H2; [lia|].
  destruct f2 as [|f2]; [lia|]. cbn [octal_aux].
  destruct (Z.leb_spec 8 n); [|reflexivity].
  rewrite (IH f2); [reflexivity| | |]; rewrite ?log2_shiftr3 by lia.
  - apply Z.shiftr_nonneg. lia.
  - pose proof (Z.log2_le_mono 8 n). cbn in *. lia.
  - pose proof (Z.log2_le_mono 8 n). cbn in *. lia.
Qed.

Lemma octal_digits_eq n :
  0 <= n -> octal_digits n = octal_init n ++ [Z.land n 7].
Proof.
  intros Hn. unfold octal_init, octal_digits at 1, octal_fuel. cbn [octal_aux].
  destruct (Z.leb_spec 8 n); [|reflexivity].
  rewrite (octal_aux_fuel _ (octal_fuel (Z.shiftr n 3))); try reflexivity.
  - apply Z.shiftr_nonneg. lia.
  - unfold octal_fuel. rewrite log2_shiftr3 by lia.
    pose proof (Z.log2_le_mono 8 n). cbn in *. lia.
Qed.

(** Induction along the digits. *)
Lemma octal_ind (P : Z -> Prop) :
  (forall n, 0 <= n < 8 -> P n) ->
  (forall n, 8 <= n -> P (Z.shiftr n 3) -> P n) ->
  forall n, 0 <= n -> P n.
Proof.
  intros H0 H1 n Hn. revert H0 H1.
  induction n as [n IH] using (well_founded_induction (Z.lt_wf 0)). intros H0 H1.
  destruct (Z.lt_ge_cases n 8); [apply H0; lia|].
  apply H1; [lia|]. apply IH; auto.
  - rewrite shiftr3. Z.div_mod_to_equations. lia.
  - apply Z.shiftr_nonneg. lia.
Qed.

Lemma octal_digits_Forall n : 0 <= n -> Forall is_digit (octal_digits n).
Proof.
  intros Hn. pattern n; apply octal_ind; [| |exact Hn]; clear n Hn; [intros n Hs|intros n Hs IH].
  - rewrite octal_digits_eq by lia. unfold octal_init.
    replace (8 <=? n) with false by lia. constructor; [apply land7_digit|constructor].
  - rewrite octal_digits_eq by lia. unfold octal_init.
    replace (8 <=? n) with true by lia. apply Forall_app. split; [exact IH|].
    constructor; [apply land7_digit|constructor].
Qed.

Lemma octal_init_Forall n : 0 <= n -> Forall is_digit (octal_init n).
Proof.
  intros Hn. pose proof (octal_digits_Forall n Hn) as H.
  rewrite octal_digits_eq in H by lia. apply Forall_app in H. tauto.
Qed.

Lemma octal_value_app l d : octal_value (l ++ [d]) = 8 * octal_value l + d.
Proof. unfold octal_value. rewrite fold_left_app. reflexivity. Qed.

Lemma octal_value_digits n : 0 <= n -> octal_value (octal_digits n) = n.
Proof.
  intros Hn. pattern n; apply octal_ind; [| |exact Hn]; clear n Hn; [intros n Hs|intros n Hs IH];
    rewrite octal_digits_eq, octal_value_app, land7 by lia; unfold octal_init.
  - replace (8 <=? n) with false by lia. cbn. apply Z.mod_small. lia.
  - replace (8 <=? n) with true by lia.
    rewrite IH by (apply Z.shiftr_nonneg; lia).
    rewrite shiftr3. Z.div_mod_to_equations. lia.
Qed.

(** No superfluous leading zero digit. *)
Lemma octal_digits_head n d l :
  8 <= n -> octal_digits n = d :: l -> 0 < d.
Proof.
  intros Hn. assert (0 <= n) as H0 by lia. revert d l Hn.
  pattern n; apply octal_ind; [lia| |exact H0]; clear n H0; intros n Hs IH.
  intros d l _ Hd. rewrite octal_digits_eq in Hd by lia. unfold octal_init in Hd.
  replace (8 <=? n) with true in Hd by lia.
  destruct (Z.le_gt_cases 8 (Z.shiftr n 3)) as [H8|H8].
  - destruct (octal_digits (Z.shiftr n 3)) as [|d' l'] eqn:E.
    + rewrite octal_digits_eq in E by lia. destruct (octal_init _); discriminate.
    + cbn in Hd. injection Hd as -> _. eapply IH; [exact H8|reflexivity].
  - rewrite octal_digits_eq in Hd by (apply Z.shiftr_nonneg; lia).
    unfold octal_init in Hd. replace (8 <=? Z.shiftr n 3) with false in Hd by lia.
    cbn [app] in Hd. injection Hd as <- _.
    rewrite land7, shiftr3 in *. Z.div_mod_to_equations. lia.
Qed.

Lemma length_octal_digits n : 0 <= n ->
  Z.of_nat (length (octal_digits n)) = Z.log2 n / 3 + 1.
Proof.
  intros Hn. pattern n; apply octal_ind; [| |exact Hn]; clear n Hn; [intros n Hs|intros n Hs IH];
    rewrite octal_digits_eq, length_app by lia; unfold octal_init; cbn [length].
  - replace (8 <=? n) with false by lia.
    assert (Z.log2 n <= Z.log2 7) by (apply Z.log2_le_mono; lia).
    pose proof (Z.log2_nonneg n). change (Z.log2 7) with 2 in *.
    rewrite Z.div_small by lia. reflexivity.
  - replace (8 <=? n) with true by lia.
    rewrite Nat2Z.inj_add, IH, log2_shiftr3 by (try apply Z.shiftr_nonneg; lia).
    Z.div_mod_to_equations. lia.
Qed.

(** ** Fields of a bit string *)

Lemma take_bits_app n v rest :
  take n (bits_of_Z n v ++ rest) = bits_of_Z n v.
Proof. rewrite <- (length_bits_of_Z n v) at 1. apply take_app_length. Qed.

Lemma drop_bits_app n v rest : drop n (bits_of_Z n v ++ rest) = rest.
Proof. rewrite <- (length_bits_of_Z n v) at 1. apply drop_app_length. Qed.

#[export] Hint Rewrite take_bits_app drop_bits_app : bits.

(** ** Writers *)

Class BitWriter (W : Type) := {
  wr_ok : W -> Prop;
  wr_bits : W -> list bool;
  wr_put : nat -> Z -> W -> W;
  wr_width : nat -> Prop;
  wr_width_4 : wr_width 4;
  wr_put_spec w n v :
    wr_ok w -> wr_width n -> 0 <= v < 2 ^ Z.of_nat n ->
    wr_ok (wr_put n v w) /\ wr_bits (wr_put n v w) = wr_bits w ++ bits_of_Z n v
}.

Section Writer.
Context {W : Type} `{BitWriter W}.

Fixpoint put_nibbles (l : list Z) (w : W) : W :=
  match l with
  | [] => w
  | d :: l => put_nibbles l (wr_put 4 d w)
  end.

Lemma put_nibbles_app l1 l2 w :
  put_nibbles (l1 ++ l2) w = put_nibbles l2 (put_nibbles l1 w).
Proof. revert w. induction l1; cbn; auto. Qed.

Lemma put_nibbles_spec l w :
  wr_ok w -> Forall (fun d => 0 <= d < 16) l ->
  wr_ok (put_nibbles l w) /\ wr_bits (put_nibbles l w) = wr_bits w ++ nibble_bits l.
Proof.
  intros Hw Hl. revert w Hw. induction Hl as [|d l Hd Hl IH]; intros w Hw; cbn.
  - rewrite app_nil_r. auto.
  - destruct (wr_put_spec w 4 d) as [Hok Hbits]; [auto|apply wr_width_4|auto|].
    destruct (IH _ Hok) as [Hok' Hbits']. split; [exact Hok'|].
    rewrite Hbits', Hbits, <- app_assoc. reflexivity.
Qed.

Lemma digits_nibbles l : Forall is_digit l -> Forall (fun d => 0 <= d < 16) l.
Proof. apply Forall_impl. unfold is_digit. lia. Qed.

Lemma tdfint_nibbles_bound n :
  0 <= n -> Forall (fun d => 0 <= d < 16) (tdfint_nibbles n).
Proof.
  intros Hn. apply Forall_app. split.
  - apply digits_nibbles, octal_init_Forall, Hn.
  - constructor; [|constructor]. pose proof (land7_digit n) as Hd.
    rewrite lor8 by exact Hd. unfold is_digit in Hd. lia.
Qed.

(** Any writer that puts the packets of [n] appends [tdfint_bits n]. *)
Lemma put_tdfint w n :
  wr_ok w -> 0 <= n ->
  wr_ok (put_nibbles (tdfint_nibbles n) w) /\
  wr_bits (put_nibbles (tdfint_nibbles n) w) = wr_bits w ++ tdfint_bits n.
Proof. intros Hw Hn. apply put_nibbles_spec; [exact Hw|]. by apply tdfint_nibbles_bound. Qed.

(** [k] zero packets. *)
Fixpoint put_zeros (n k : nat) (w : W) : W :=
  match k with
  | O => w
  | S k => put_zeros n k (wr_put n 0 w)
  end.

Lemma put_zeros_spec n k w :
  wr_ok w -> wr_width n ->
  wr_ok (put_zeros n k w) /\
  wr_bits (put_zeros n k w) = wr_bits w ++ replicate (n * k) false.
Proof.
  intros Hw Hn. revert w Hw. induction k as [|k IH]; intros w Hw; cbn [put_zeros].
  - rewrite Nat.mul_0_r. cbn. rewrite app_nil_r. auto.
  - destruct (wr_put_spec w n 0) as [Hok Hbits]; [auto|auto|lia|].
    destruct (IH _ Hok) as [Hok' Hbits']. split; [exact Hok'|].
    rewrite Hbits', Hbits, bits_of_Z_0, <- app_assoc, <- replicate_add.
    do 2 f_equal. lia.
Qed.
End Writer.

(** ** Readers *)

Class BitReader (R : Type) := {
  rd_ok : R -> Prop;
  rd_rest : R -> list bool;
  rd_fetch : nat -> R -> Z * R;
  rd_width : nat -> Prop;
  rd_width_4 : rd_width 4;
  rd_fetch_spec r n :
    rd_ok r -> rd_width n -> (n <= length (rd_rest r))%nat ->
    (rd_fetch n r).1 = Z_of_bits (take n (rd_rest r)) /\
    rd_ok (rd_fetch n r).2 /\
    rd_rest (rd_fetch n r).2 = drop n (rd_rest r)
}.

Section Reader.
Context {R : Type} `{BitReader R}.

(** The digits of the next integer; [None] when [fuel] packets hold no
    marked one. *)
Fixpoint read_digits (fuel : nat) (r : R) : option (list Z * R) :=
  match fuel with
  | O => None
  | S f =>
      let '(d, r) := rd_fetch 4 r in
      if Z.land d 8 =? 0
      then '(ds, r) ← read_digits f r; Some (Z.land d 7 :: ds, r)
      else Some ([Z.land d 7], r)
  end.

Lemma rd_field r n v rest :
  rd_ok r -> rd_width n -> 0 <= v < 2 ^ Z.of_nat n ->
  rd_rest r = bits_of_Z n v ++ rest ->
  exists r', rd_fetch n r = (v, r') /\ rd_ok r' /\ rd_rest r' = rest.
Proof.
  intros Hr Hn Hv Hrest.
  destruct (rd_fetch_spec r n) as (Hval & Hok & Hdrop); [auto|auto| |].
  { rewrite Hrest, length_app, length_bits_of_Z. lia. }
  rewrite Hrest in Hval, Hdrop. autorewrite with bits in Hval, Hdrop.
  rewrite Z_of_bits_of_Z_small in Hval by exact Hv.
  exists (rd_fetch n r).2. rewrite <- Hval, <- surjective_pairing. auto.
Qed.

Lemma unmarked_digit d : 0 <= d < 16 -> Z.land d 8 = 0 -> Z.land d 7 = d.
Proof.
  intros Hd. assert (d = 0 \/ d = 1 \/ d = 2 \/ d = 3 \/ d = 4 \/ d = 5 \/ d = 6 \/ d = 7 \/
    8 <= d) as Hd' by lia.
  repeat destruct Hd' as [->|Hd']; try reflexivity.
  assert (Z.land d 8 = 8); [|lia]. replace d with (Z.lor (d - 8) 8).
  - rewrite Z.land_lor_distr_l. change (Z.land 8 8) with 8.
    apply Z.bits_inj'. intros i Hi. rewrite Z.lor_spec, Z.land_spec.
    destruct (Z.testbit 8 i); [apply orb_true_r|]. rewrite andb_false_r. reflexivity.
  - rewrite lor8; unfold is_digit; lia.
Qed.

Lemma read_digits_unmarked l r fuel rest :
  Forall is_digit l -> rd_ok r -> rd_rest r = nibble_bits l ++ rest ->
  exists r', rd_ok r' /\ rd_rest r' = rest /\
    read_digits (length l + fuel) r
    = ('(ds, r) ← read_digits fuel r'; Some (l ++ ds, r)).
Proof.
  intros Hl. revert r. induction Hl as [|d l Hd Hl IH]; intros r Hr Hrest.
  - exists r. split_and!; auto. cbn. by destruct (read_digits fuel r) as [[? ?]|].
  - unfold nibble_bits in Hrest. cbn [flat_map] in Hrest.
    rewrite <- app_assoc in Hrest. unfold is_digit in Hd.
    destruct (rd_field r 4 d _ Hr rd_width_4 ltac:(lia) Hrest) as (r1 & Hf & Hok & Hrest1).
    destruct (IH r1 Hok Hrest1) as (r2 & Hok2 & Hrest2 & Heq).
    exists r2. split_and!; auto. cbn [length Nat.add read_digits].
    rewrite Hf, Heq.
    assert (Z.land d 8 = 0 /\ Z.land d 7 = d) as [-> ->].
    { rewrite land7, Z.mod_small by lia. split; [|reflexivity].
      assert (d = 0 \/ d = 1 \/ d = 2 \/ d = 3 \/ d = 4 \/ d = 5 \/ d = 6 \/ d = 7)
        as Hd' by lia.
      repeat destruct Hd' as [->|Hd']; subst; reflexivity. }
    cbn. by destruct (read_digits fuel r2) as [[? ?]|].
Qed.

(** Reading back an encoded integer gives its digits. *)
Lemma read_digits_tdfint n r fuel rest :
  0 <= n -> rd_ok r -> rd_rest r = tdfint_bits n ++ rest ->
  (length (octal_digits n) <= fuel)%nat ->
  exists r', read_digits fuel r = Some (octal_digits n, r') /\
    rd_ok r' /\ rd_rest r' = rest.
Proof.
  intros Hn Hr Hrest Hfuel. rewrite octal_digits_eq in Hfuel by lia.
  rewrite length_app in Hfuel. cbn in Hfuel.
  unfold tdfint_bits, tdfint_nibbles, nibble_bits in Hrest.
  rewrite flat_map_app, <- app_assoc in Hrest.
  replace fuel with (length (octal_init n) + S (fuel - length (octal_init n) - 1))%nat by lia.
  edestruct (read_digits_unmarked (octal_init n) r) as (r1 & Hok & Hrest1 & ->);
    [by apply octal_init_Forall|exact Hr|exact Hrest|].
  cbn [flat_map] in Hrest1. rewrite app_nil_r in Hrest1.
  pose proof (land7_digit n) as Hd. rewrite lor8 in Hrest1 by exact Hd.
  unfold is_digit in Hd.
  edestruct (rd_field r1 4) as (r2 & Hf & Hok2 & Hrest2);
    [exact Hok|apply rd_width_4| |exact Hrest1|]; [cbn; lia|].
  exists r2. split_and!; auto. cbn [read_digits]. rewrite Hf.
  assert ((Z.land (Z.land n 7 + 8) 8 =? 0) = false) as ->.
  { apply Z.eqb_neq. rewrite <- lor8 by exact Hd.
    rewrite Z.land_lor_distr_l. change (Z.land 8 8) with 8.
    intros E%Z.lor_eq_0_iff. lia. }
  assert (Z.land (Z.land n 7 + 8) 7 = Z.land n 7) as ->.
  { rewrite !land7. rewrite <- Zplus_mod_idemp_r. cbn. rewrite Z.add_0_r.
    apply Z.mod_mod. lia. }
  cbn. rewrite <- octal_digits_eq by lia. reflexivity.
Qed.
End Reader.

(** ** Accumulating digits in a machine word of [w] bits *)

Definition acc_digit (w a d : Z) : Z := Z.lor (wrap w (Z.shiftl a 3)) d.

Lemma acc_digit_value w m d :
  3 <= w -> is_digit d -> acc_digit w (wrap w m) d = wrap w (8 * m + d).
Proof.
  unfold is_digit, acc_digit, wrap. intros Hw Hd.
  assert (2 ^ w = 2 ^ (w - 3) * 8) as Hp
    by (change 8 with (2 ^ 3); rewrite <- Z.pow_add_r by lia; f_equal; lia).
  assert (0 < 2 ^ (w - 3)) by (apply Z.pow_pos_nonneg; lia).
  assert (Z.shiftl (m mod 2 ^ w) 3 mod 2 ^ w = Z.shiftl (m mod 2 ^ (w - 3)) 3) as ->.
  { rewrite !Z.shiftl_mul_pow2 by lia. change (2 ^ 3) with 8. rewrite Z.mul_mod_idemp_l by lia.
    rewrite Hp. rewrite Z.mul_mod_distr_r by lia. reflexivity. }
  rewrite lor_shiftl by lia. change (2 ^ 3) with 8.
  rewrite (Z.mul_comm 8 m), Hp, (Z.mul_comm (2 ^ (w - 3))), Z.rem_mul_r by lia.
  rewrite Z.add_comm, (Z.add_comm (m * 8)), Z_mod_plus_full, Z_div_plus_full by lia.
  rewrite (Z.div_small d), (Z.mod_small d) by lia. rewrite Z.add_0_l. lia.
Qed.

Lemma acc_digits_value w ds m :
  3 <= w -> Forall is_digit ds ->
  fold_left (acc_digit w) ds (wrap w m)
  = wrap w (fold_left (fun a d => 8 * a + d) ds m).
Proof.
  intros Hw Hds. revert m. induction Hds as [|d ds Hd Hds IH]; intros m; [reflexivity|].
  cbn [fold_left]. rewrite acc_digit_value by assumption. apply IH.
Qed.

(** Accumulated from zero, the digits of [n] give [n] modulo 2^w. *)
Lemma acc_digits_int w n :
  3 <= w -> 0 <= n -> fold_left (acc_digit w) (octal_digits n) 0 = wrap w n.
Proof.
  intros Hw Hn. replace 0 with (wrap w 0) by (apply Z.mod_0_l; lia).
  rewrite acc_digits_value by (auto using octal_digits_Forall).
  f_equal. apply octal_value_digits, Hn.
Qed.

(** Two integers with the same encoding, up to what follows, are equal: the
    encoding is prefix-free and injective. *)
Lemma tdfint_nibbles_inj n m l1 l2 :
  0 <= n -> 0 <= m -> tdfint_nibbles n ++ l1 = tdfint_nibbles m ++ l2 -> n = m /\ l1 = l2.
Proof.
  intros Hn Hm. unfold tdfint_nibbles.
  assert (forall a b x y, is_digit x -> is_digit y -> Forall is_digit a -> Forall is_digit b ->
    (a ++ [Z.lor x 8]) ++ l1 = (b ++ [Z.lor y 8]) ++ l2 -> a ++ [x] = b ++ [y] /\ l1 = l2) as Haux.
  { induction a as [|d a IH]; intros [|e b] x y Hx Hy Ha Hb Heq; cbn in Heq;
      rewrite ?lor8 in Heq by assumption; injection Heq as E1 E2.
    - split; [|exact E2]. cbn. f_equal. lia.
    - inversion Hb as [|? ? He]; subst. unfold is_digit in *. lia.
    - inversion Ha as [|? ? He]; subst. unfold is_digit in *. lia.
    - inversion Ha; inversion Hb; subst.
      rewrite <- !lor8 in E2 by assumption.
      destruct (IH b x y) as [E3 ->]; auto. cbn. rewrite E3. auto. }
  intros Heq. apply Haux in Heq as [Heq ->]; auto using land7_digit, octal_init_Forall.
  rewrite <- !octal_digits_eq in Heq by assumption. split; [|reflexivity].
  rewrite <- (octal_value_digits n), Heq by lia. by apply octal_value_digits.
Qed.

#[export] Hint Resolve land7_digit octal_digits_Forall octal_init_Forall : tendra.
