(* ===== verification/LibtdfEncode.v ===== *)
(** * LibtdfEncode: the output bitstreams of libtdf

    Models libtdf/src/bitstream.c and libtdf/src/encode.c. A [BITSTREAM] is a
    64-byte chunk with a write position; a stream handle is the chunk it points
    to followed by the chunks reached through [prev] ([] is the null pointer),
    and the world holds the allocator's free list and the bytes written to
    every [FILE]. Handles own their chain: no function of the source keeps a
    chunk reachable from two live handles.

    The counters [bytes] and [bits] are natural numbers: every subtraction of
    the source is under the invariant [wf_chunk], which is also what its
    [assert]s test. *)
From stdpp Require Import base list list_numbers gmap numbers.
From Stdlib Require Import ZArith Lia.
From S2P Require Import Prelude Codec.

Definition BYTE_SIZE : nat := 8.
Definition CHUNK_SIZE : nat := 64.
Definition CHUNK_COPY : nat := 8.
Definition BYTE_MASK : Z := 255.

Record BITSTREAM := Bitstream {
  text : list Z;
  bytes : nat;
  bits : nat;
  size : nat;
  file : option nat;
  link : option nat
}.

(** A handle: the chunk pointed to, then its [prev] chain. *)
Definition stream : Type := list BITSTREAM.

Record world := World {
  free_bitstreams : list BITSTREAM;
  files : gmap nat (list Z)
}.

Definition fwrite (w : world) (f : nat) (l : list Z) : world :=
  World (free_bitstreams w) (<[f := default [] (files w !! f) ++ l]> (files w)).

Section Encode.
(** The contents of memory fresh from [xmalloc]. *)
Variable junk : nat -> Z.

Definition malloc_text : list Z := map (fun i => u8 (junk i)) (seq 0 CHUNK_SIZE).

Definition start_bitstream (w : world) (f lnk : option nat) : world * stream :=
  let '(w, t) :=
    match free_bitstreams w with
    | bs :: prev => (World prev (files w), text bs)
    | [] => (w, malloc_text)
    end in
  (w, [Bitstream t 0 0 0 f lnk]).

Fixpoint length_bitstream (bs : stream) : Z :=
  match bs with
  | [] => 0
  | c :: prev => u32 (Z.of_nat (BYTE_SIZE * bytes c + bits c) + length_bitstream prev)
  end.

Definition dump_bitstream (w : world) (bs : stream) : world * stream :=
  match bs with
  | [] => (w, bs)
  | c :: prev =>
      if (bytes c =? 0)%nat then (w, bs)
      else
        let w := match file c with
                 | Some f => fwrite w f (take (bytes c) (text c))
                 | None => w
                 end in
        let t := if (bytes c <? CHUNK_SIZE)%nat
                 then <[0%nat := text c !!! bytes c]> (text c)
                 else text c in
        (w, Bitstream t 0 (bits c) (size c) (file c) (link c) :: prev)
  end.

Definition extend_bitstream (w : world) (bs : stream) : world * stream :=
  match bs with
  | [] => (w, bs)
  | c :: prev =>
      let c := Bitstream (text c) CHUNK_SIZE 0 (size c) (file c) (link c) in
      match file c with
      | Some _ => dump_bitstream w (c :: prev)
      | None =>
          let '(w, ps) := start_bitstream w None (link c) in
          (w, ps ++ c :: prev)
      end
  end.

(** "Start new chunk if necessary", at the head of both output loops. *)
Definition chunk_room (w : world) (bs : stream) (by' : nat) : world * stream * nat :=
  if (CHUNK_SIZE <=? by')%nat
  then let '(w, bs) := extend_bitstream w bs in (w, bs, O)
  else (w, bs, by').

(** [bs->text[i] = v] and [bs->bytes = by; bs->bits = bi]. *)
Definition set_text (bs : stream) (i : nat) (v : Z) : stream :=
  match bs with
  | [] => []
  | c :: prev =>
      Bitstream (<[i := v]> (text c)) (bytes c) (bits c) (size c) (file c) (link c) :: prev
  end.

Definition set_pos (bs : stream) (by' bi : nat) : stream :=
  match bs with
  | [] => []
  | c :: prev => Bitstream (text c) by' bi (size c) (file c) (link c) :: prev
  end.

(** The output loop of [enc_bits]; [n] counts the whole bytes left. *)
Fixpoint enc_bits_loop (n : nat) (w : world) (bs : stream) (b : Z) (by' : nat)
  : world * stream * nat :=
  match n with
  | O => (w, bs, by')
  | S n =>
      let '(w, bs, by') := chunk_room w bs by' in
      let bs := set_text bs by' (Z.land (Z.shiftr b (Z.of_nat (BYTE_SIZE * n))) BYTE_MASK) in
      enc_bits_loop n w bs b (S by')
  end.

Definition enc_bits (w : world) (bs : stream) (n : nat) (d : Z) : world * stream :=
  match bs with
  | [] => (w, bs)
  | s :: _ =>
      if (n =? 0)%nat then (w, bs)
      else
        let b := d in
        let '(b, n) :=
          if (bits s =? 0)%nat then (b, n)
          else
            let r := (BYTE_SIZE - bits s)%nat in
            let c := text s !!! bytes s in
            (Z.lor b (u64 (Z.shiftl (Z.shiftr c (Z.of_nat r)) (Z.of_nat n))),
             (n + bits s)%nat) in
        let bi := (n mod BYTE_SIZE)%nat in
        let '(b, n) :=
          if (bi =? 0)%nat then (b, n)
          else
            let r := (BYTE_SIZE - bi)%nat in
            (u64 (Z.shiftl b (Z.of_nat r)), (n + r)%nat) in
        let '(w, bs, by') := enc_bits_loop (n / BYTE_SIZE) w bs b (bytes s) in
        let by' := if (bi =? 0)%nat then by' else (by' - 1)%nat in
        (w, set_pos bs by' bi)
  end.

Definition enc_long_bits (w : world) (bs : stream) (n : nat) (d : Z) : world * stream :=
  let '(w, bs, n) :=
    if (16 <? n)%nat
    then let '(w, bs) := enc_bits w bs (n - 16) (u32 (Z.shiftr d 16)) in (w, bs, 16%nat)
    else (w, bs, n) in
  enc_bits w bs n (u32 d).

(** The unaligned and the aligned loop of [enc_bytes]. *)
Fixpoint enc_bytes_bits (s : list Z) (w : world) (bs : stream) : world * stream :=
  match s with
  | [] => (w, bs)
  | c :: s => let '(w, bs) := enc_bits w bs BYTE_SIZE c in enc_bytes_bits s w bs
  end.

Fixpoint enc_bytes_copy (s : list Z) (w : world) (bs : stream) (by' : nat)
  : world * stream * nat :=
  match s with
  | [] => (w, bs, by')
  | c :: s =>
      let '(w, bs, by') := chunk_room w bs by' in
      enc_bytes_copy s w (set_text bs by' c) (S by')
  end.

Definition set_bytes (bs : stream) (by' : nat) : stream :=
  match bs with
  | [] => []
  | c :: prev => Bitstream (text c) by' (bits c) (size c) (file c) (link c) :: prev
  end.

(** [s] is the array of the [n] bytes. *)
Definition enc_bytes (w : world) (bs : stream) (s : list Z) : world * stream :=
  match bs with
  | [] => (w, bs)
  | c :: _ =>
      if (bits c =? 0)%nat
      then let '(w, bs, by') := enc_bytes_copy s w bs (bytes c) in (w, set_bytes bs by')
      else enc_bytes_bits s w bs
  end.

(** [bs] is the component copied, one chunk. *)
Definition copy_bitstream (w : world) (fs : stream) (bs : BITSTREAM) : world * stream :=
  let '(w, fs) :=
    if (bytes bs =? 0)%nat then (w, fs)
    else enc_bytes w fs (take (bytes bs) (text bs)) in
  if (bits bs =? 0)%nat then (w, fs)
  else
    let c := Z.shiftr (text bs !!! bytes bs) (Z.of_nat (BYTE_SIZE - bits bs)) in
    enc_bits w fs (bits bs) c.

Definition enc_boundary (w : world) (bs : stream) : world * stream :=
  let r := Z.to_nat (length_bitstream bs mod Z.of_nat BYTE_SIZE) in
  if (r =? 0)%nat then (w, bs) else enc_bits w bs (BYTE_SIZE - r) 0.

Definition end_bitstream (w : world) (bs : stream) (wr : bool) : world :=
  let '(w, ps) :=
    match bs with
    | c :: _ =>
        match wr, file c with
        | true, Some _ => let '(w, ps) := enc_boundary w bs in dump_bitstream w ps
        | _, _ => (w, bs)
        end
    | [] => (w, bs)
    end in
  World (ps ++ free_bitstreams w) (files w).

Definition set_file (c : BITSTREAM) (f : option nat) : BITSTREAM :=
  Bitstream (text c) (bytes c) (bits c) (size c) f (link c).

Definition set_link (bs : stream) (l : option nat) : stream :=
  match bs with
  | [] => []
  | c :: prev => Bitstream (text c) (bytes c) (bits c) (size c) (file c) l :: prev
  end.

(** [join_bitstreams] on a handle [fs] that has a file: recursion on the
    [prev] chain of [bs]. Chunks with a predecessor are not returned to the
    free list (only [ps == NULL] ends one). *)
Fixpoint join_to_file (w : world) (fs : stream) (f : nat) (bs : stream) : world * stream :=
  match bs with
  | [] => (w, fs)
  | b :: ps =>
      let fs := match fs with
                | c :: _ => if decide (link c = None) then set_link fs (link b) else fs
                | [] => fs
                end in
      let '(w, fs) := match ps with
                      | [] => (w, fs)
                      | _ => join_to_file w fs f ps
                      end in
      let '(w, fs, b) :=
        match fs with
        | c :: _ =>
            if (bits c =? 0)%nat && negb (bytes b =? 0)%nat
            then
              let '(w, fs) := if (bytes c =? 0)%nat then (w, fs) else dump_bitstream w fs in
              let '(w, b') := dump_bitstream w [set_file b (Some f)] in
              (w, fs, match b' with b' :: _ => set_file b' None | [] => b end)
            else (w, fs, b)
        | [] => (w, fs, b)
        end in
      let '(w, fs) := copy_bitstream w fs b in
      match ps with
      | [] => (end_bitstream w [b] false, fs)
      | _ => (w, fs)
      end
  end.

Definition join_bitstreams (w : world) (fs bs : stream) : world * stream :=
  match bs, fs with
  | [], _ => (w, fs)
  | _, [] => (w, bs)
  | b :: ps, c :: _ =>
      match file c with
      | Some f => join_to_file w fs f bs
      | None =>
          let fs := if decide (link c = None) then set_link fs (link b) else fs in
          match ps with
          | [] =>
              if (bytes b <? CHUNK_COPY)%nat
              then let '(w, fs) := copy_bitstream w fs b in (end_bitstream w bs false, fs)
              else (w, bs ++ fs)
          | _ => (w, bs ++ fs)
          end
      end
  end.

(** The subtraction loop of [enc_extn]; at most [d] rounds. *)
Fixpoint enc_extn_loop (fuel : nat) (w : world) (bs : stream) (n : nat) (d e : Z)
  : world * stream * Z :=
  match fuel with
  | O => (w, bs, d)
  | S fuel =>
      if e <? d
      then let '(w, bs) := enc_bits w bs n 0 in enc_extn_loop fuel w bs n (d - e) e
      else (w, bs, d)
  end.

Definition enc_extn (w : world) (bs : stream) (n : nat) (d : Z) : world * stream :=
  let e := u32 (u32 (Z.shiftl 1 (Z.of_nat n)) - 1) in
  let '(w, bs, d) := enc_extn_loop (Z.to_nat d) w bs n d e in
  enc_bits w bs n d.

(** [fuel] is [octal_fuel]: the recursion drops three bits at each level. *)
Fixpoint enc_int_aux (fuel : nat) (w : world) (bs : stream) (n : Z) : world * stream :=
  match fuel with
  | O => (w, bs)
  | S fuel =>
      let '(w, bs) := if 8 <=? n then enc_int_aux fuel w bs (Z.shiftr n 3) else (w, bs) in
      enc_bits w bs 4 (Z.land n 7)
  end.

Definition enc_int (w : world) (bs : stream) (n : Z) : world * stream :=
  let '(w, bs) :=
    if 8 <=? n
    then enc_int_aux (octal_fuel (Z.shiftr n 3)) w bs (Z.shiftr n 3)
    else (w, bs) in
  enc_bits w bs 4 (Z.lor (Z.land n 7) 8).

Definition enc_bitstream (w : world) (bs ps : stream) : world * stream :=
  let n := length_bitstream ps in
  let '(w, bs) := enc_int w bs n in
  join_bitstreams w bs ps.
End Encode.

(** ** The bits a stream stands for *)

Definition chunk_bits (c : BITSTREAM) : list bool :=
  take (8 * bytes c + bits c) (bytes_bits (text c)).

Fixpoint chain_bits (bs : stream) : list bool :=
  match bs with
  | [] => []
  | c :: prev => chain_bits prev ++ chunk_bits c
  end.

Definition file_bits (w : world) (bs : stream) : list bool :=
  match bs with
  | c :: _ => match file c with
              | Some f => bytes_bits (default [] (files w !! f))
              | None => []
              end
  | [] => []
  end.

(** What has been written so far: the bytes already in the file, then the
    chunks in chain order. *)
Definition stream_bits (w : world) (bs : stream) : list bool :=
  file_bits w bs ++ chain_bits bs.

Definition wf_text (t : list Z) : Prop :=
  length t = CHUNK_SIZE /\ Forall is_byte t.

Definition wf_chunk (c : BITSTREAM) : Prop :=
  wf_text (text c) /\ (bytes c <= CHUNK_SIZE)%nat /\ (bits c < BYTE_SIZE)%nat /\
  (bytes c = CHUNK_SIZE -> bits c = 0%nat).

(** A stream with a file is a single chunk; only the handle's own chunk may
    have one. *)
Definition wf_stream (bs : stream) : Prop :=
  match bs with
  | [] => False
  | c :: prev =>
      wf_chunk c /\ Forall wf_chunk prev /\ Forall (fun c => file c = None) prev /\
      (file c = None \/ prev = [])
  end.

Definition wf_world (w : world) : Prop :=
  Forall (fun c => wf_text (text c)) (free_bitstreams w) /\
  map_Forall (fun _ l => Forall is_byte l) (files w).

Lemma fwrite_wf w f l : wf_world w -> Forall is_byte l -> wf_world (fwrite w f l).
Proof.
  intros [Hfree Hfiles] Hl. split; [exact Hfree|].
  apply map_Forall_insert_2; [|exact Hfiles]. apply Forall_app. split; [|exact Hl].
  destruct (files w !! f) eqn:E; [exact (Hfiles _ _ E)|constructor].
Qed.

Definition wf (w : world) (bs : stream) : Prop := wf_world w /\ wf_stream bs.

(** The files other than the stream's own are untouched. *)
Definition head_file (bs : stream) : option nat :=
  match bs with c :: _ => file c | [] => None end.

Definition same_files (w w' : world) (f : option nat) : Prop :=
  forall g, Some g <> f -> files w' !! g = files w !! g.

(** [bs] became [bs'] by appending the bits [l]. *)
Definition appended (w : world) (bs : stream) (w' : world) (bs' : stream) (l : list bool) : Prop :=
  wf w' bs' /\ head_file bs' = head_file bs /\ same_files w w' (head_file bs) /\
  stream_bits w' bs' = stream_bits w bs ++ l.

Ltac sizes := unfold CHUNK_SIZE, BYTE_SIZE, CHUNK_COPY in *; lia.

Lemma same_files_refl w f : same_files w w f.
Proof. intros g _. reflexivity. Qed.

Lemma same_files_trans w1 w2 w3 f :
  same_files w1 w2 f -> same_files w2 w3 f -> same_files w1 w3 f.
Proof. intros H1 H2 g Hg. rewrite H2, H1 by exact Hg. reflexivity. Qed.

#[export] Hint Resolve same_files_refl same_files_trans : tendra.

Lemma appended_nil w bs : wf w bs -> appended w bs w bs [].
Proof. intros H. split_and!; auto with tendra. rewrite app_nil_r. reflexivity. Qed.

Lemma appended_trans w1 bs1 w2 bs2 w3 bs3 l1 l2 :
  appended w1 bs1 w2 bs2 l1 -> appended w2 bs2 w3 bs3 l2 ->
  appended w1 bs1 w3 bs3 (l1 ++ l2).
Proof.
  intros (H1 & F1 & S1 & B1) (H2 & F2 & S2 & B2). split_and!; auto with tendra.
  - congruence.
  - rewrite F1 in S2. eauto with tendra.
  - rewrite B2, B1, app_assoc. reflexivity.
Qed.

Lemma malloc_text_wf junk : wf_text (malloc_text junk).
Proof.
  unfold malloc_text. split; [rewrite length_map, length_seq; reflexivity|].
  apply Forall_forall. intros x Hx. apply in_map_iff in Hx as (i & <- & _).
  apply u8_byte.
Qed.

#[export] Hint Resolve malloc_text_wf : tendra.

(** The state inside an output loop: [by'] is the local position. *)
Definition loop_bits (w : world) (bs : stream) (by' : nat) : list bool :=
  match bs with
  | [] => []
  | c :: prev => file_bits w bs ++ chain_bits prev ++ bytes_bits (take by' (text c))
  end.

Definition wf_loop (w : world) (bs : stream) (by' : nat) : Prop :=
  wf_world w /\ (by' <= CHUNK_SIZE)%nat /\
  match bs with
  | [] => False
  | c :: prev =>
      wf_text (text c) /\ Forall wf_chunk prev /\ Forall (fun c => file c = None) prev /\
      (file c = None \/ prev = [])
  end.

Definition loop_appended (w : world) (bs : stream) (by' : nat)
    (w' : world) (bs' : stream) (by1 : nat) (l : list bool) : Prop :=
  wf_loop w' bs' by1 /\ head_file bs' = head_file bs /\
  same_files w w' (head_file bs) /\
  loop_bits w' bs' by1 = loop_bits w bs by' ++ l.

Lemma loop_appended_trans w1 bs1 b1 w2 bs2 b2 w3 bs3 b3 l1 l2 :
  loop_appended w1 bs1 b1 w2 bs2 b2 l1 -> loop_appended w2 bs2 b2 w3 bs3 b3 l2 ->
  loop_appended w1 bs1 b1 w3 bs3 b3 (l1 ++ l2).
Proof.
  intros (H1 & F1 & S1 & B1) (H2 & F2 & S2 & B2). split_and!; auto with tendra.
  - congruence.
  - rewrite F1 in S2. eauto with tendra.
  - rewrite B2, B1, app_assoc. reflexivity.
Qed.

Lemma full_chunk_bits t sz f l :
  wf_text t -> chunk_bits (Bitstream t CHUNK_SIZE 0 sz f l) = bytes_bits (take CHUNK_SIZE t).
Proof.
  intros [Hl _]. unfold chunk_bits. cbn [bytes text bits]. rewrite Nat.add_0_r.
  apply bytes_bits_take.
Qed.

Lemma take_insert_S (t : list Z) i v :
  (i < length t)%nat -> take (S i) (<[i := v]> t) = take i t ++ [v].
Proof.
  intros H. rewrite (take_S_r _ i v) by (apply list_lookup_insert_eq; exact H).
  rewrite take_insert_ge by lia. reflexivity.
Qed.

(** Storing a byte at the local position. *)
Lemma set_text_spec w bs i v :
  wf_loop w bs i -> (i < CHUNK_SIZE)%nat -> is_byte v ->
  loop_appended w bs i w (set_text bs i v) (S i) (bits_of_Z 8 v).
Proof.
  intros (Hw & _ & Hbs) Hi Hv. destruct bs as [|c prev]; [contradiction|].
  destruct Hbs as ([Hl Hb] & Hp & Hn & Hf). split_and!; auto with tendra.
  - unfold wf_loop. cbn [set_text text file]. split_and!; auto.
    split; [rewrite length_insert; exact Hl|by apply Forall_insert].
  - unfold loop_bits, file_bits. cbn [set_text file text].
    rewrite take_insert_S by (rewrite Hl; exact Hi).
    rewrite bytes_bits_app, !app_assoc. cbn [bytes_bits flat_map]. rewrite app_nil_r.
    reflexivity.
Qed.

Section EncodeSpec.
Variable junk : nat -> Z.

(** A new stream is empty. *)
Lemma start_bitstream_wf w f lnk :
  wf_world w ->
  exists w' c, start_bitstream junk w f lnk = (w', [c]) /\ wf w' [c] /\
    files w' = files w /\ file c = f /\ link c = lnk /\ chunk_bits c = [] /\
    bytes c = 0%nat /\ bits c = 0%nat.
Proof.
  intros Hw. unfold start_bitstream.
  assert (wf_world w /\ forall t, wf_text t -> wf_chunk (Bitstream t 0 0 0 f lnk))
    as [_ Hc].
  { split; [exact Hw|]. intros t Ht. split_and!; cbn; try apply Ht; sizes. }
  destruct w as [[|b free] fl]; cbn [free_bitstreams files];
    do 2 eexists; (split; [reflexivity|]); unfold wf, wf_stream, wf_world in *;
    cbn [free_bitstreams files file link bytes bits] in *; destruct Hw as [Hfree Hfiles];
    [|inversion Hfree; subst]; split_and!; auto with tendra.
Qed.

Lemma extend_bitstream_spec w bs :
  wf_loop w bs CHUNK_SIZE ->
  exists w' bs', extend_bitstream junk w bs = (w', bs') /\
    loop_appended w bs CHUNK_SIZE w' bs' 0 [].
Proof.
  intros (Hw & _ & Hbs). destruct bs as [|c prev]; [contradiction|].
  destruct Hbs as (Ht & Hp & Hn & Hf). unfold extend_bitstream.
  unfold loop_appended, wf_loop, head_file, loop_bits, file_bits.
  rewrite app_nil_r. destruct (file c) as [f|] eqn:Ef.
  - destruct Hf as [Hf| ->]; [discriminate|].
    cbn [dump_bitstream bytes CHUNK_SIZE Nat.eqb file text Nat.ltb Nat.leb bits link size].
    do 2 eexists. split; [reflexivity|]. cbn [file text take chain_bits].
    split; [split; [apply fwrite_wf; [exact Hw|by apply Forall_take, Ht]|]|];
      split_and!; auto; [sizes| |].
    + intros g Hg. cbn. rewrite lookup_insert_ne by congruence. reflexivity.
    + unfold fwrite. cbn [files app take]. rewrite lookup_insert_eq.
      cbn [from_option id]. rewrite bytes_bits_app, app_nil_r.
      reflexivity.
  - cbn [link]. destruct (start_bitstream_wf w None (link c) Hw)
      as (w' & c' & -> & [Hw' (Hc' & _)] & Hfl & Hf' & _ & _ & _).
    destruct Hc' as (Ht' & _). cbn [app].
    do 2 eexists. split; [reflexivity|]. cbn [chain_bits take]. rewrite ?Hf'.
    rewrite full_chunk_bits by exact Ht. rewrite app_nil_r.
    split; [split; [exact Hw'|]|]; split_and!; auto; [sizes| |].
    + constructor; [|exact Hp]. split_and!; try apply Ht; cbn; auto; sizes.
    + intros g _. rewrite Hfl. reflexivity.
Qed.

(** [chunk_room] changes nothing that is written and makes room for a byte. *)
Lemma chunk_room_spec w bs by' :
  wf_loop w bs by' ->
  exists w' bs' by1, chunk_room junk w bs by' = (w', bs', by1) /\
    (by1 < CHUNK_SIZE)%nat /\ loop_appended w bs by' w' bs' by1 [].
Proof.
  intros Hwf. unfold chunk_room. destruct (Nat.leb_spec CHUNK_SIZE by').
  - replace by' with CHUNK_SIZE in * by (destruct Hwf; lia).
    destruct (extend_bitstream_spec w bs Hwf) as (w' & bs' & -> & H').
    do 3 eexists. split; [reflexivity|]. split; [sizes|exact H'].
  - do 3 eexists. split; [reflexivity|]. split; [exact H|].
    split_and!; auto with tendra; try apply Hwf. rewrite app_nil_r. reflexivity.
Qed.

Lemma store_byte_spec w bs by' v w' bs' by1 :
  wf_loop w bs by' -> is_byte v -> chunk_room junk w bs by' = (w', bs', by1) ->
  loop_appended w bs by' w' (set_text bs' by1 v) (S by1) (bits_of_Z 8 v).
Proof.
  intros Hwf Hv E. destruct (chunk_room_spec w bs by' Hwf) as (? & ? & ? & E' & Hlt & H').
  rewrite E in E'. injection E' as <- <- <-.
  change (bits_of_Z 8 v) with ([] ++ bits_of_Z 8 v).
  eapply loop_appended_trans; [exact H'|]. apply set_text_spec; [apply H'|exact Hlt|exact Hv].
Qed.

Lemma enc_byte_bits b n :
  bits_of_Z 8 (Z.land (Z.shiftr b (Z.of_nat (BYTE_SIZE * n))) BYTE_MASK)
  = bits_of_Z 8 (Z.shiftr b (Z.of_nat (8 * n))).
Proof. change BYTE_MASK with (Z.ones (Z.of_nat 8)). apply bits_of_Z_land_ones. lia. Qed.

Lemma enc_bits_loop_spec n w bs b by' :
  wf_loop w bs by' ->
  exists w' bs' by1, enc_bits_loop junk n w bs b by' = (w', bs', by1) /\
    ((0 < by')%nat \/ n <> O -> (0 < by1)%nat) /\
    loop_appended w bs by' w' bs' by1 (bits_of_Z (8 * n) b).
Proof.
  revert w bs by'. induction n as [|n IH]; intros w bs by' Hwf.
  - do 3 eexists. split; [reflexivity|]. split; [lia|].
    split_and!; auto with tendra; try apply Hwf. rewrite app_nil_r. reflexivity.
  - cbn [enc_bits_loop].
    destruct (chunk_room junk w bs by') as [[w1 bs1] by1] eqn:E.
    eapply store_byte_spec with
      (v := Z.land (Z.shiftr b (Z.of_nat (BYTE_SIZE * n))) BYTE_MASK) in E;
      [|exact Hwf|].
    2: { change BYTE_MASK with 255. rewrite <- u8_land. apply u8_byte. }
    rewrite enc_byte_bits in E.
    edestruct IH as (w2 & bs2 & by2 & -> & Hpos & H2); [apply E|].
    do 3 eexists. split; [reflexivity|]. split.
    + intros _. apply Hpos. lia.
    + replace (8 * S n)%nat with (8 + 8 * n)%nat by lia.
      rewrite bits_of_Z_add. eapply loop_appended_trans; [exact E|exact H2].
Qed.

Lemma take_bits_of_Z k n x :
  (k <= n)%nat -> take k (bits_of_Z n x) = bits_of_Z k (Z.shiftr x (Z.of_nat (n - k))).
Proof.
  intros H. replace n with (k + (n - k))%nat at 1 by lia. rewrite bits_of_Z_add.
  apply take_bits_app.
Qed.

(** The odd bits of a byte-aligned prefix. *)
Lemma bytes_bits_odd t by' k :
  (by' < length t)%nat -> (k <= 8)%nat ->
  take (8 * by' + k) (bytes_bits t)
  = bytes_bits (take by' t) ++ bits_of_Z k (Z.shiftr (t !!! by') (Z.of_nat (8 - k))).
Proof.
  intros Hby Hk. rewrite <- take_take_drop, bytes_bits_take, bytes_bits_drop. f_equal.
  destruct (lookup_lt_is_Some_2 t by' Hby) as [x Hx].
  rewrite (drop_S t x by' Hx), bytes_bits_cons, (list_lookup_total_correct _ _ _ Hx).
  rewrite take_app_le by (rewrite length_bits_of_Z; lia). apply take_bits_of_Z, Hk.
Qed.

Definition odd_value (c : BITSTREAM) : Z :=
  Z.shiftr (text c !!! bytes c) (Z.of_nat (BYTE_SIZE - bits c)).

Lemma stream_bits_odd w c prev :
  wf_chunk c ->
  stream_bits w (c :: prev) = loop_bits w (c :: prev) (bytes c) ++ bits_of_Z (bits c) (odd_value c).
Proof.
  intros ([Hl _] & Hby & Hbi & Hfull). unfold stream_bits, loop_bits. cbn [chain_bits].
  rewrite <- !app_assoc. do 2 f_equal. unfold chunk_bits, odd_value.
  destruct (decide (bits c = 0%nat)) as [E|E].
  - rewrite E, Nat.add_0_r, bytes_bits_take. cbn. rewrite app_nil_r. reflexivity.
  - apply bytes_bits_odd; [|sizes].
    assert (bytes c <> CHUNK_SIZE) by auto. rewrite Hl. sizes.
Qed.

Lemma set_pos_wf w bs by' by1 bi :
  wf_loop w bs by' -> (by1 <= CHUNK_SIZE)%nat -> (bi < 8)%nat ->
  (by1 = CHUNK_SIZE -> bi = O) -> wf w (set_pos bs by1 bi).
Proof.
  intros (Hw & _ & Hbs) Hby Hbi Hfull. split; [exact Hw|].
  destruct bs as [|c prev]; [contradiction|]. destruct Hbs as (Ht & Hp & Hn & Hf).
  cbn [set_pos wf_stream file]. split_and!; auto. split_and!; auto; apply Ht.
Qed.

Lemma set_pos_aligned w bs by1 :
  stream_bits w (set_pos bs by1 0) = loop_bits w bs by1.
Proof.
  destruct bs as [|c prev]; [reflexivity|]. unfold stream_bits, loop_bits, file_bits.
  cbn [set_pos chain_bits file]. unfold chunk_bits. cbn [bytes bits text].
  rewrite Nat.add_0_r, bytes_bits_take. reflexivity.
Qed.

(** Stepping back inside the last byte written drops its low bits. *)
Lemma set_pos_odd w bs by1 bi :
  wf_loop w bs (S by1) -> (bi <= 8)%nat ->
  exists l, length l = (8 - bi)%nat /\
    loop_bits w bs (S by1) = stream_bits w (set_pos bs by1 bi) ++ l.
Proof.
  intros (_ & Hby & Hbs) Hbi. destruct bs as [|c prev]; [contradiction|].
  destruct Hbs as ([Hl _] & _).
  exists (drop (8 * by1 + bi) (bytes_bits (take (S by1) (text c)))). split.
  - rewrite length_drop, length_bytes_bits, length_take, Hl. sizes.
  - unfold stream_bits, loop_bits, file_bits. cbn [set_pos chain_bits file].
    unfold chunk_bits. cbn [bytes bits text]. rewrite <- !app_assoc. do 2 f_equal.
    rewrite <- (take_drop (8 * by1 + bi) (bytes_bits (take (S by1) (text c)))) at 1.
    f_equal. rewrite <- bytes_bits_take, take_take. f_equal. lia.
Qed.

(** The value merged with the odd bits already in the byte. *)
Lemma merge_odd n k d c :
  (n <= 16)%nat -> (k < 8)%nat -> 0 <= d < 2 ^ 32 -> 0 <= c < 2 ^ Z.of_nat k ->
  (forall i, 0 <= i < Z.of_nat k -> Z.testbit d (Z.of_nat n + i) = true -> Z.testbit c i = true) ->
  let b := Z.lor d (u64 (Z.shiftl c (Z.of_nat n))) in
  0 <= b < 2 ^ 32 /\ bits_of_Z (k + n) b = bits_of_Z k c ++ bits_of_Z n d.
Proof.
  intros Hn Hk Hd Hc Hcompat. cbn zeta.
  assert (0 <= Z.shiftl c (Z.of_nat n) < 2 ^ 32) as Hs.
  { pose proof (shiftl_bound (Z.of_nat k) (Z.of_nat n) c ltac:(lia) Hc ltac:(lia)).
    assert (2 ^ (Z.of_nat k + Z.of_nat n) <= 2 ^ 32) by (apply Z.pow_le_mono_r; lia). lia. }
  rewrite u64_small by lia. split.
  - apply lor_bound; lia.
  - rewrite bits_of_Z_add. f_equal; apply bits_of_Z_ext; intros i Hi.
    + rewrite Z.shiftr_spec, Z.lor_spec, Z.shiftl_spec by lia.
      replace (Z.of_nat i + Z.of_nat n - Z.of_nat n) with (Z.of_nat i) by lia.
      specialize (Hcompat (Z.of_nat i)).
      rewrite (Z.add_comm (Z.of_nat i)).
      destruct (Z.testbit d (Z.of_nat n + Z.of_nat i)); [|reflexivity].
      rewrite Hcompat by (auto; lia). reflexivity.
    + rewrite Z.lor_spec, Z.shiftl_spec by lia.
      rewrite (Z.testbit_neg_r c) by lia. apply orb_false_r.
Qed.

(** The bits of [d] above the field are or-ed into the odd bits of the
    stream; they are harmless when those bits are already set. *)
Definition compatible (bs : stream) (n : nat) (d : Z) : Prop :=
  match bs with
  | [] => False
  | c :: _ =>
      forall i, 0 <= i < Z.of_nat (bits c) ->
        Z.testbit d (Z.of_nat n + i) = true -> Z.testbit (odd_value c) i = true
  end.

Lemma odd_value_bound c :
  wf_chunk c -> bits c <> O -> 0 <= odd_value c < 2 ^ Z.of_nat (bits c).
Proof.
  intros ([Hl Hb] & Hby & Hbi & Hfull) Hk. unfold odd_value.
  assert (bytes c < length (text c))%nat as Hlt.
  { rewrite Hl. assert (bytes c <> CHUNK_SIZE) by auto. lia. }
  destruct (lookup_lt_is_Some_2 _ _ Hlt) as [x Hx].
  rewrite (list_lookup_total_correct _ _ _ Hx).
  eapply Forall_lookup_1 in Hx; [|exact Hb]. unfold is_byte in Hx.
  rewrite Z.shiftr_div_pow2 by lia. split; [apply Z.div_pos; lia|].
  apply Z.div_lt_upper_bound; [lia|].
  rewrite <- Z.pow_add_r by lia.
  replace (Z.of_nat (BYTE_SIZE - bits c) + Z.of_nat (bits c)) with 8 by sizes. lia.
Qed.

Lemma wf_wf_loop w c prev : wf w (c :: prev) -> wf_loop w (c :: prev) (bytes c).
Proof. intros (Hw & (Ht & Hby & _) & Hp & Hn & Hf). split_and!; auto. Qed.

(** The padded value and its byte count, as the output loop sees them. *)
Lemma pad_value N b r :
  (N <= 24)%nat -> (r < 8)%nat -> 0 <= b < 2 ^ 32 -> (N + r)%nat = (8 * ((N + r) / 8))%nat ->
  bits_of_Z (8 * ((N + r) / 8)) (u64 (Z.shiftl b (Z.of_nat r))) = bits_of_Z N b ++ bits_of_Z r 0.
Proof.
  intros HN Hr Hb E. rewrite <- E. rewrite u64_small, bits_of_Z_shiftl; [reflexivity|].
  pose proof (shiftl_bound 32 (Z.of_nat r) b ltac:(lia) Hb ltac:(lia)).
  assert (2 ^ (32 + Z.of_nat r) <= 2 ^ 40) by (apply Z.pow_le_mono_r; lia). lia.
Qed.

(** The merge of the odd bits, as computed by [enc_bits]. *)
Lemma enc_merge c prev w n d :
  wf w (c :: prev) -> (n <= 16)%nat -> 0 <= d < 2 ^ 32 -> compatible (c :: prev) n d ->
  exists b,
    (if (bits c =? 0)%nat then (d, n)
     else (Z.lor d (u64 (Z.shiftl (odd_value c) (Z.of_nat n))), (n + bits c)%nat))
    = (b, (n + bits c)%nat) /\ 0 <= b < 2 ^ 32 /\
    bits_of_Z (n + bits c) b = bits_of_Z (bits c) (odd_value c) ++ bits_of_Z n d.
Proof.
  intros (_ & Hc & _) Hn Hd Hcomp. destruct (Nat.eqb_spec (bits c) 0) as [E|E].
  - exists d. rewrite E, Nat.add_0_r. split_and!; auto; lia.
  - eexists. split; [reflexivity|].
    destruct (merge_odd n (bits c) d (odd_value c)) as [Hb Heq]; auto.
    + destruct Hc as (_ & _ & Hbi & _). sizes.
    + apply odd_value_bound; assumption.
    + split; [exact Hb|]. rewrite Nat.add_comm. exact Heq.
Qed.

(** The output loop followed by the update of the position. *)
Lemma enc_tail w bs by' N b :
  wf_loop w bs by' -> (0 < N <= 24)%nat -> 0 <= b < 2 ^ 32 ->
  exists w' bs',
    (let bi := (N mod BYTE_SIZE)%nat in
     let '(b, N) :=
       if (bi =? 0)%nat then (b, N)
       else (u64 (Z.shiftl b (Z.of_nat (BYTE_SIZE - bi))), (N + (BYTE_SIZE - bi))%nat) in
     let '(w, bs, by') := enc_bits_loop junk (N / BYTE_SIZE) w bs b by' in
     let by' := if (bi =? 0)%nat then by' else (by' - 1)%nat in
     (w, set_pos bs by' bi)) = (w', bs') /\
    wf w' bs' /\ head_file bs' = head_file bs /\ same_files w w' (head_file bs) /\
    stream_bits w' bs' = loop_bits w bs by' ++ bits_of_Z N b.
Proof.
  intros Hwf HN Hb. cbn zeta. unfold BYTE_SIZE.
  assert (forall bs by1 bi, head_file (set_pos bs by1 bi) = head_file bs) as Hhf
    by (intros [|? ?] ? ?; reflexivity).
  pose proof (Nat.div_mod_eq N 8) as HNd. pose proof (Nat.mod_upper_bound N 8).
  destruct (Nat.eqb_spec (N mod 8) 0) as [E|E].
  - destruct (enc_bits_loop_spec (N / 8) w bs b by' Hwf)
      as (w' & bs' & by1 & -> & _ & Hl & Hf & Hs & Heq).
    do 2 eexists. split; [reflexivity|]. rewrite E, set_pos_aligned, Heq, Hhf.
    replace (8 * (N / 8))%nat with N by lia.
    split_and!; auto. eapply set_pos_wf; eauto; try apply Hl; lia.
  - set (r := (8 - N mod 8)%nat).
    assert ((N + r)%nat = (8 * ((N + r) / 8))%nat) as EN.
    { replace (N + r)%nat with (8 * S (N / 8))%nat by lia.
      rewrite Nat.mul_comm, Nat.div_mul by lia. lia. }
    destruct (enc_bits_loop_spec ((N + r) / 8) w bs (u64 (Z.shiftl b (Z.of_nat r))) by' Hwf)
      as (w' & bs' & by1 & -> & Hpos & Hl & Hf & Hs & Heq).
    do 2 eexists. split; [reflexivity|]. rewrite pad_value in Heq by lia.
    destruct by1 as [|by1]; [exfalso; assert (0 < 0)%nat by (apply Hpos; lia); lia|].
    replace (S by1 - 1)%nat with by1 by lia.
    destruct (set_pos_odd w' bs' by1 (N mod 8) Hl) as (l & Hlen & Hsp); [lia|].
    rewrite Heq, app_assoc in Hsp.
    apply app_inj_2 in Hsp as [Hsp _]; [|rewrite length_bits_of_Z; lia].
    rewrite Hhf. split_and!; auto.
    eapply set_pos_wf; eauto; destruct Hl as (_ & Hl & _); sizes.
Qed.

Lemma enc_bits_gen w bs n d :
  wf w bs -> (n <= 16)%nat -> 0 <= d < 2 ^ 32 -> compatible bs n d ->
  exists w' bs', enc_bits junk w bs n d = (w', bs') /\ appended w bs w' bs' (bits_of_Z n d).
Proof.
  intros Hwf Hn Hd Hcomp. destruct bs as [|c prev]; [destruct Hwf as [_ []]|].
  unfold enc_bits. destruct (Nat.eqb_spec n 0) as [->|Hn0].
  { do 2 eexists. split; [reflexivity|]. apply appended_nil, Hwf. }
  destruct (enc_merge c prev w n d Hwf Hn Hd Hcomp) as (b & E & Hb & Heq).
  fold (odd_value c). cbn zeta in E |- *. rewrite E.
  destruct (enc_tail w (c :: prev) (bytes c) (n + bits c) b)
    as (w' & bs' & E' & Hwf' & Hf & Hs & Hbits).
  { apply wf_wf_loop, Hwf. }
  { destruct Hwf as (_ & (_ & _ & Hbi & _) & _). sizes. }
  { exact Hb. }
  do 2 eexists. split; [exact E'|]. split_and!; auto.
  rewrite Hbits, Heq, (stream_bits_odd w c prev) by apply Hwf. rewrite app_assoc. reflexivity.
Qed.

Lemma compatible_small w bs n d :
  wf w bs -> 0 <= d < 2 ^ Z.of_nat n -> compatible bs n d.
Proof.
  intros [_ Hbs] Hd. destruct bs as [|c prev]; [exact Hbs|]. intros i Hi.
  rewrite (testbit_small d (Z.of_nat n)) by lia. discriminate.
Qed.

Lemma enc_bits_ok w bs n d :
  wf w bs -> (n <= 16)%nat -> 0 <= d < 2 ^ Z.of_nat n ->
  exists w' bs', enc_bits junk w bs n d = (w', bs') /\ appended w bs w' bs' (bits_of_Z n d).
Proof.
  intros Hwf Hn Hd. apply enc_bits_gen; auto; [|by eapply compatible_small].
  assert (2 ^ Z.of_nat n <= 2 ^ 32) by (apply Z.pow_le_mono_r; lia). lia.
Qed.

Lemma libtdf_put_spec (s : world * stream) n v :
  wf s.1 s.2 -> (n <= 16)%nat -> 0 <= v < 2 ^ Z.of_nat n ->
  wf (enc_bits junk s.1 s.2 n v).1 (enc_bits junk s.1 s.2 n v).2 /\
  stream_bits (enc_bits junk s.1 s.2 n v).1 (enc_bits junk s.1 s.2 n v).2
  = stream_bits s.1 s.2 ++ bits_of_Z n v.
Proof.
  intros Hok Hn Hv. destruct (enc_bits_ok s.1 s.2 n v Hok Hn Hv) as (w' & bs' & -> & H').
  split; apply H'.
Qed.

#[export] Instance libtdf_writer : BitWriter (world * stream) := {
  wr_ok := fun s => wf s.1 s.2;
  wr_bits := fun s => stream_bits s.1 s.2;
  wr_put := fun n v s => enc_bits junk s.1 s.2 n v;
  wr_width := fun n => (n <= 16)%nat;
  wr_width_4 := proj1 (Nat.leb_le 4 16) eq_refl;
  wr_put_spec := libtdf_put_spec
}.

(** A property of a step that appends [l]. *)
Definition appends (s : world * stream) (s' : world * stream) (l : list bool) : Prop :=
  appended s.1 s.2 s'.1 s'.2 l.

Lemma enc_bits_appends s n d :
  wf s.1 s.2 -> (n <= 16)%nat -> 0 <= d < 2 ^ Z.of_nat n ->
  appends s (enc_bits junk s.1 s.2 n d) (bits_of_Z n d).
Proof.
  intros H1 H2 H3. destruct (enc_bits_ok s.1 s.2 n d H1 H2 H3) as (w & bs & E & H).
  rewrite E. exact H.
Qed.

Lemma put_nibbles_appends l s :
  wf s.1 s.2 -> Forall (fun d => 0 <= d < 16) l ->
  appends s (put_nibbles l s) (nibble_bits l).
Proof.
  intros Hw Hl. revert s Hw. induction Hl as [|d l Hd Hl IH]; intros s Hw.
  - apply appended_nil, Hw.
  - assert (appends s (enc_bits junk s.1 s.2 4 d) (bits_of_Z 4 d)) as H
      by (apply enc_bits_appends; auto; lia).
    eapply appended_trans; [exact H|]. apply IH, H.
Qed.

(** The recursion of [enc_int_aux] puts the unmarked digits in order. *)
Lemma enc_int_aux_nibbles fuel w bs n :
  enc_int_aux junk fuel w bs n = put_nibbles (octal_aux fuel n) (w, bs).
Proof.
  revert w bs n. induction fuel as [|fuel IH]; intros w bs n; [reflexivity|].
  cbn [enc_int_aux octal_aux]. rewrite put_nibbles_app.
  destruct (8 <=? n); [|reflexivity]. rewrite IH.
  destruct (put_nibbles _ _) as [w1 bs1]. reflexivity.
Qed.

Lemma enc_int_nibbles w bs n :
  enc_int junk w bs n = put_nibbles (tdfint_nibbles n) (w, bs).
Proof.
  unfold enc_int, tdfint_nibbles, octal_init, octal_digits. rewrite put_nibbles_app.
  destruct (8 <=? n); [|reflexivity]. rewrite enc_int_aux_nibbles.
  destruct (put_nibbles _ _) as [w1 bs1]. reflexivity.
Qed.

(** Aligned copying keeps the odd-bit count at zero. *)
Definition head_bits (bs : stream) : nat :=
  match bs with c :: _ => bits c | [] => O end.

Lemma chunk_room_bits w bs by' w' bs' by1 :
  wf_world w -> head_bits bs = O -> chunk_room junk w bs by' = (w', bs', by1) ->
  head_bits bs' = O.
Proof.
  intros Hw H. unfold chunk_room, extend_bitstream.
  destruct (CHUNK_SIZE <=? by')%nat; [|congruence].
  destruct bs as [|c prev]; [cbn; congruence|]. destruct (file c).
  - cbn. intros [= <- <- <-]. reflexivity.
  - cbn [link]. destruct (start_bitstream_wf w None (link c) Hw)
      as (w1 & c1 & -> & _ & _ & _ & _ & _ & _ & Hb).
    cbn. intros [= <- <- <-]. exact Hb.
Qed.

Lemma enc_bytes_copy_spec l w bs by' :
  wf_loop w bs by' -> head_bits bs = O -> Forall is_byte l ->
  exists w' bs' by1, enc_bytes_copy junk l w bs by' = (w', bs', by1) /\ head_bits bs' = O /\
    loop_appended w bs by' w' bs' by1 (bytes_bits l).
Proof.
  intros Hwf Hbi Hl. revert w bs by' Hwf Hbi.
  induction Hl as [|v l Hv Hl IH]; intros w bs by' Hwf Hbi; cbn [enc_bytes_copy].
  - do 3 eexists. split; [reflexivity|]. split; [exact Hbi|].
    split_and!; auto with tendra. cbn. rewrite app_nil_r. reflexivity.
  - destruct (chunk_room junk w bs by') as [[w1 bs1] by1] eqn:E.
    assert (head_bits bs1 = O) as Hbi1 by (eapply chunk_room_bits; eauto; apply Hwf).
    pose proof (store_byte_spec w bs by' v w1 bs1 by1 Hwf Hv E) as H1.
    destruct (IH w1 (set_text bs1 by1 v) (S by1)) as (w2 & bs2 & by2 & -> & Hbi2 & H2);
      [apply H1|destruct bs1; exact Hbi1|].
    do 3 eexists. split; [reflexivity|]. split; [exact Hbi2|].
    rewrite bytes_bits_cons. eapply loop_appended_trans; eauto.
Qed.

Lemma enc_bytes_bits_spec l w bs :
  wf w bs -> Forall is_byte l -> appends (w, bs) (enc_bytes_bits junk l w bs) (bytes_bits l).
Proof.
  intros Hwf Hl. revert w bs Hwf. induction Hl as [|v l Hv Hl IH]; intros w bs Hwf.
  - apply appended_nil, Hwf.
  - cbn [enc_bytes_bits]. rewrite bytes_bits_cons.
    destruct (enc_bits_ok w bs BYTE_SIZE v Hwf) as (w1 & bs1 & -> & H1); [sizes|exact Hv|].
    eapply appended_trans; [exact H1|]. apply IH, H1.
Qed.

Lemma enc_bytes_ok w bs l :
  wf w bs -> Forall is_byte l -> appends (w, bs) (enc_bytes junk w bs l) (bytes_bits l).
Proof.
  intros Hwf Hl. destruct bs as [|c prev]; [destruct Hwf as [_ []]|].
  unfold enc_bytes. destruct (Nat.eqb_spec (bits c) 0) as [E|E];
    [|by apply enc_bytes_bits_spec].
  destruct (enc_bytes_copy_spec l w (c :: prev) (bytes c)) as (w' & bs' & by1 & -> & Hb & H1);
    [by apply wf_wf_loop|exact E|exact Hl|].
  destruct bs' as [|c' prev']; [destruct H1 as ((_ & _ & []) & _)|].
  assert (set_bytes (c' :: prev') by1 = set_pos (c' :: prev') by1 0) as ->.
  { cbn in *. rewrite Hb. reflexivity. }
  destruct H1 as (Hl1 & Hf & Hs & Heq). split_and!; auto.
  - eapply set_pos_wf; eauto; try apply Hl1; lia.
  - cbn [fst snd]. rewrite set_pos_aligned, Heq, (stream_bits_odd w c prev) by apply Hwf.
    rewrite E. cbn [bits_of_Z]. rewrite app_nil_r. reflexivity.
Qed.

Lemma chunk_bits_split c :
  wf_chunk c ->
  chunk_bits c = bytes_bits (take (bytes c) (text c)) ++ bits_of_Z (bits c) (odd_value c).
Proof.
  intros Hc. pose proof (stream_bits_odd (World [] ∅) (set_file c None) []) as H.
  unfold stream_bits, loop_bits, file_bits in H. cbn in H. apply H. exact Hc.
Qed.

(** Copying a component appends exactly its bits. *)
Lemma copy_bitstream_ok w fs b :
  wf w fs -> wf_chunk b -> appends (w, fs) (copy_bitstream junk w fs b) (chunk_bits b).
Proof.
  intros Hwf Hb. rewrite chunk_bits_split by exact Hb. unfold copy_bitstream.
  assert (appends (w, fs)
    (if (bytes b =? 0)%nat then (w, fs) else enc_bytes junk w fs (take (bytes b) (text b)))
    (bytes_bits (take (bytes b) (text b)))) as H1.
  { destruct (Nat.eqb_spec (bytes b) 0) as [->|]; [by apply appended_nil|].
    apply enc_bytes_ok; [exact Hwf|]. apply Forall_take, Hb. }
  destruct (if (bytes b =? 0)%nat then _ else _) as [w1 fs1].
  eapply appended_trans; [exact H1|]. fold (odd_value b).
  destruct (Nat.eqb_spec (bits b) 0) as [->|E]; [apply appended_nil, H1|].
  apply (enc_bits_appends (w1, fs1)); [apply H1| |by apply odd_value_bound].
  destruct Hb as (_ & _ & Hbi & _). sizes.
Qed.
End EncodeSpec.
