(* ===== verification/LibtdfEncodeSpec.v ===== *)
(** * LibtdfEncodeSpec: what libtdf's encoder promises

    The contract of libtdf/src/encode.c and bitstream.c over the bits a stream
    stands for: every operation appends exactly its field, whatever the chunk
    boundaries, the alignment, the reuse of freed chunks and the presence of a
    file; joining streams concatenates their bits; ending a file stream leaves
    in the file the bits padded to a byte boundary. *)
From stdpp Require Import base list list_numbers gmap numbers.
From Stdlib Require Import ZArith Lia.
From S2P Require Import Prelude Codec LibtdfEncode.

Section Spec.
Variable junk : nat -> Z.

(** ** Dumping to the file *)

Lemma dump_chunk w c prev f :
  wf_chunk c -> file c = Some f ->
  exists w' c', dump_bitstream w (c :: prev) = (w', c' :: prev) /\
    wf_chunk c' /\ bytes c' = O /\ bits c' = bits c /\ file c' = Some f /\
    (wf_world w -> wf_world w') /\ same_files w w' (Some f) /\
    default [] (files w' !! f) = default [] (files w !! f) ++ take (bytes c) (text c) /\
    chunk_bits c' = bits_of_Z (bits c) (odd_value c).
Proof.
  intros Hc Hf. unfold dump_bitstream. rewrite Hf.
  pose proof (chunk_bits_split c Hc) as Hsplit.
  destruct Hc as ([Hl Hb] & Hby & Hbi & Hfull).
  destruct (Nat.eqb_spec (bytes c) 0) as [E|E].
  { rewrite E in Hsplit. do 2 eexists. split; [reflexivity|].
    rewrite E, app_nil_r. split_and!; auto with tendra. unfold wf_chunk, wf_text. split_and!; auto. }
  do 2 eexists. split; [reflexivity|]. cbn [bytes bits file fwrite files].
  split; [|split_and!; auto].
  - unfold wf_chunk, wf_text. cbn [text bytes bits]. split_and!; auto; try sizes.
    + destruct (_ <? _)%nat; [rewrite length_insert|]; exact Hl.
    + destruct (Nat.ltb_spec (bytes c) CHUNK_SIZE); [|exact Hb].
      apply Forall_insert; [exact Hb|]. eapply Forall_lookup_1; [exact Hb|].
      apply list_lookup_lookup_total_lt. rewrite Hl. assumption.
  - intros Hw. apply fwrite_wf; [exact Hw|by apply Forall_take].
  - intros g Hg. cbn. apply lookup_insert_ne. congruence.
  - rewrite lookup_insert_eq. reflexivity.
  - unfold chunk_bits. cbn [bytes bits text].
    destruct (Nat.ltb_spec (bytes c) CHUNK_SIZE).
    + rewrite bytes_bits_odd by (rewrite ?length_insert, ?Hl; sizes).
      rewrite list_lookup_total_insert_eq by (rewrite Hl; sizes). reflexivity.
    + rewrite Hfull by sizes. reflexivity.
Qed.

Lemma dump_ok w bs f :
  wf w bs -> head_file bs = Some f ->
  exists w' c', dump_bitstream w bs = (w', [c']) /\ bytes c' = O /\
    bits c' = head_bits bs /\ appended w bs w' [c'] [].
Proof.
  intros [Hw Hbs] Hf. destruct bs as [|c prev]; [contradiction|].
  destruct Hbs as (Hc & Hp & Hn & Hor). cbn in Hf.
  destruct Hor as [Hor| ->]; [congruence|].
  destruct (dump_chunk w c [] f Hc Hf)
    as (w' & c' & -> & Hc' & Hby & Hbi & Hf' & Hfree & Hsf & Hfl & Hbits).
  exists w', c'. split; [reflexivity|]. split; [exact Hby|]. split; [exact Hbi|].
  split; [|split; [|split]]; cbn [head_file]; try congruence.
  - split; [auto|]. split_and!; auto.
  - rewrite Hf. exact Hsf.
  - rewrite app_nil_r. unfold stream_bits, file_bits. rewrite Hf, Hf'. cbn [chain_bits app].
    rewrite Hfl, Hbits, (chunk_bits_split c Hc), bytes_bits_app, app_assoc. reflexivity.
Qed.

(** ** Joining *)

Lemma set_link_ok w bs l : wf w bs -> appended w bs w (set_link bs l) [].
Proof.
  intros [Hw Hbs]. destruct bs as [|c prev]; [contradiction|].
  split; [|split; [|split]]; auto with tendra; [by split|].
  rewrite app_nil_r. reflexivity.
Qed.

(** Ending a chain without flushing only feeds the free list. *)
Lemma end_discard w b :
  end_bitstream junk w b false = World (b ++ free_bitstreams w) (files w).
Proof. destruct b as [|c prev]; reflexivity. Qed.

Lemma end_discard_appended w1 w bs bs' b l :
  Forall wf_chunk b -> appended w1 bs' w bs l ->
  appended w1 bs' (end_bitstream junk w b false) bs l.
Proof.
  intros Hb (Hwf & Hf & Hs & Hbits). rewrite end_discard. split_and!; auto.
  split; [|apply Hwf]. split; [|apply Hwf]. apply Forall_app. split; [|apply Hwf].
  eapply Forall_impl; [|exact Hb]. intros c Hc. apply Hc.
Qed.

(** One component of [join_bitstreams] on a file: what is byte aligned goes
    straight to the file, the rest is copied. *)
Definition join_component (w : world) (fs : stream) (f : nat) (b : BITSTREAM)
  : world * stream * BITSTREAM :=
  match fs with
  | c :: _ =>
      if (bits c =? 0)%nat && negb (bytes b =? 0)%nat
      then
        let '(w, fs) := if (bytes c =? 0)%nat then (w, fs) else dump_bitstream w fs in
        let '(w, b') := dump_bitstream w [set_file b (Some f)] in
        (w, fs, match b' with b' :: _ => set_file b' None | [] => b end)
      else (w, fs, b)
  | [] => (w, fs, b)
  end.

Lemma join_component_ok w fs f b :
  wf w fs -> head_file fs = Some f -> wf_chunk b ->
  exists w' fs' b' l, join_component w fs f b = (w', fs', b') /\ wf_chunk b' /\
    chunk_bits b = l ++ chunk_bits b' /\ appended w fs w' fs' l.
Proof.
  intros Hwf Hf Hb. unfold join_component. destruct fs as [|c prev]; [discriminate|].
  destruct (Nat.eqb_spec (bits c) 0) as [E|E];
    [destruct (Nat.eqb_spec (bytes b) 0) as [E2|E2]|]; cbn [andb negb];
    try solve [do 3 eexists; exists []; split; [reflexivity|]; eauto using appended_nil].
  assert (exists w1 c1, (if (bytes c =? 0)%nat then (w, (c :: prev) : stream)
    else dump_bitstream w (c :: prev)) = (w1, [c1]) /\ bytes c1 = O /\ bits c1 = O /\
    appended w (c :: prev) w1 [c1] []) as (w1 & c1 & -> & Hby1 & Hbi1 & H1).
  { destruct (Nat.eqb_spec (bytes c) 0) as [E3|E3].
    - destruct Hwf as [Hw (Hc & Hp & Hn & [Hor| ->])]; [cbn in Hf; congruence|].
      exists w, c. split_and!; auto. apply appended_nil. by split; cbn; auto.
    - destruct (dump_ok w _ f Hwf Hf) as (w1 & c1 & -> & ? & Hbi & ?).
      exists w1, c1. cbn in Hbi. split_and!; congruence || auto. }
  assert (wf_chunk (set_file b (Some f))) as Hb2 by exact Hb.
  destruct (dump_chunk w1 (set_file b (Some f)) [] f Hb2 eq_refl)
    as (w2 & b' & -> & Hb' & Hby' & Hbi' & _ & Hfree & Hsf & Hfl & Hbits).
  destruct H1 as (Hwf1 & Hf1 & Hs1 & Heq1). rewrite Hf in Hs1.
  do 3 eexists. exists (bytes_bits (take (bytes b) (text b))). split; [reflexivity|].
  split; [exact Hb'|]. split.
  { rewrite (chunk_bits_split b Hb). f_equal. symmetry. exact Hbits. }
  assert (file c1 = Some f) as Hfc1 by (cbn in Hf1, Hf; congruence).
  split_and!; [|exact Hf1|rewrite Hf; eauto with tendra|].
  - split; [apply Hfree|]; apply Hwf1.
  - rewrite app_nil_r in Heq1. rewrite <- Heq1. unfold stream_bits, file_bits.
    rewrite Hfc1, Hfl. cbn [chain_bits app]. unfold chunk_bits.
    rewrite Hby1, Hbi1. cbn [Nat.mul Nat.add take].
    rewrite !app_nil_r, bytes_bits_app. reflexivity.
Qed.

Lemma join_to_file_ok f bs w fs :
  wf w fs -> head_file fs = Some f -> Forall wf_chunk bs ->
  appends (w, fs) (join_to_file junk w fs f bs) (chain_bits bs).
Proof.
  intros Hwf Hf Hbs. revert w fs Hwf Hf.
  induction Hbs as [|b ps Hb Hps IH]; intros w fs Hwf Hf; cbn [join_to_file].
  { apply appended_nil, Hwf. }
  set (fs0 := match fs with c :: _ => _ | [] => fs end).
  assert (appended w fs w fs0 []) as H0.
  { destruct fs as [|c prev]; [discriminate|]. unfold fs0.
    case_decide; [apply set_link_ok|apply appended_nil]; exact Hwf. }
  assert (head_file fs0 = Some f) as Hf0 by (destruct H0 as (_ & -> & _); exact Hf).
  set (s1 := match ps with [] => (w, fs0) | _ => join_to_file junk w fs0 f ps end).
  assert (appends (w, fs0) s1 (chain_bits ps)) as H1.
  { unfold s1. destruct ps; [apply appended_nil, H0|]. apply IH; [apply H0|exact Hf0]. }
  destruct s1 as [w1 fs1].
  assert (head_file fs1 = Some f) as Hf1 by (destruct H1 as (_ & H1 & _); cbn in H1; congruence).
  destruct (join_component_ok w1 fs1 f b) as (w2 & fs2 & b2 & l & E & Hb2 & Hsplit & H2);
    [apply H1|exact Hf1|exact Hb|].
  unfold join_component in E. cbn [chain_bits]. rewrite Hsplit. rewrite E.
  pose proof (copy_bitstream_ok junk w2 fs2 b2 ltac:(apply H2) Hb2) as H3.
  destruct (copy_bitstream junk w2 fs2 b2) as [w3 fs3].
  assert (appends (w, fs) (w3, fs3) (chain_bits ps ++ l ++ chunk_bits b2)) as H4.
  { rewrite <- (app_nil_l (chain_bits ps ++ _)).
    eapply appended_trans; [exact H0|]. eapply appended_trans; [exact H1|].
    eapply appended_trans; [exact H2|exact H3]. }
  destruct ps; [|exact H4]. apply end_discard_appended; [|exact H4]. auto.
Qed.

Lemma chain_bits_app bs fs : chain_bits (bs ++ fs) = chain_bits fs ++ chain_bits bs.
Proof.
  induction bs as [|b bs IH]; cbn; [rewrite app_nil_r; reflexivity|].
  rewrite IH, app_assoc. reflexivity.
Qed.

(** [length_bitstream] counts the bits of the chain, modulo 2^32. *)
Lemma length_chunk_bits c : wf_chunk c -> length (chunk_bits c) = (8 * bytes c + bits c)%nat.
Proof.
  intros ([Hl _] & Hby & Hbi & Hfull). unfold chunk_bits.
  rewrite length_take, length_bytes_bits, Hl.
  destruct (decide (bytes c = CHUNK_SIZE)) as [E|E]; [rewrite (Hfull E)|]; sizes.
Qed.

Lemma length_bitstream_chain bs :
  Forall wf_chunk bs -> length_bitstream bs = u32 (Z.of_nat (length (chain_bits bs))).
Proof.
  induction 1 as [|c prev Hc Hp IH]; [reflexivity|].
  cbn [length_bitstream chain_bits]. rewrite IH, length_app, length_chunk_bits by exact Hc.
  unfold u32, wrap. rewrite Zplus_mod_idemp_r. f_equal. unfold BYTE_SIZE. lia.
Qed.

Lemma length_mod8 bs :
  Forall wf_chunk bs ->
  Z.to_nat (length_bitstream bs mod Z.of_nat BYTE_SIZE) = (length (chain_bits bs) mod 8)%nat.
Proof.
  intros H. rewrite length_bitstream_chain by exact H. unfold u32, wrap, UINT_BITS.
  change (2 ^ 32) with (8 * 536870912). change (Z.of_nat BYTE_SIZE) with 8.
  rewrite Z.rem_mul_r by lia. rewrite (Z.mul_comm 8), Z_mod_plus_full, Z.mod_mod by lia.
  rewrite Z2Nat.inj_mod, Nat2Z.id by lia. reflexivity.
Qed.

Lemma wf_Forall w bs : wf w bs -> Forall wf_chunk bs.
Proof. intros [_ Hbs]. destruct bs as [|c prev]; [contradiction|]. constructor; apply Hbs. Qed.

(** Aligning appends the zero bits up to the next byte boundary; a file
    stream only counts the bits it still buffers, whole bytes having left. *)
Lemma enc_boundary_ok w bs :
  wf w bs ->
  appends (w, bs) (enc_boundary junk w bs) (pad_bits (length (chain_bits bs))).
Proof.
  intros Hwf. unfold enc_boundary. rewrite length_mod8 by (eapply wf_Forall, Hwf).
  unfold pad_bits. pose proof (Nat.mod_upper_bound (length (chain_bits bs)) 8).
  destruct (Nat.eqb_spec (length (chain_bits bs) mod 8) 0) as [E|E].
  - rewrite E. apply appended_nil, Hwf.
  - rewrite (Nat.mod_small (8 - _)) by lia. rewrite <- bits_of_Z_0.
    apply (enc_bits_appends junk (w, bs)); [exact Hwf|sizes|lia].
Qed.

(** ** Wide fields *)

Lemma lookup_bits_of_Z n v i :
  (i < n)%nat -> bits_of_Z n v !! (n - 1 - i)%nat = Some (Z.testbit v (Z.of_nat i)).
Proof.
  induction n as [|n IH]; intros Hi; [lia|]. cbn [bits_of_Z].
  destruct (decide (i = n)) as [->|].
  - replace (S n - 1 - n)%nat with O by lia. reflexivity.
  - replace (S n - 1 - i)%nat with (S (n - 1 - i)) by lia. apply IH. lia.
Qed.

(** Bit strings with a common end agree on the low bits of their last field. *)
Lemma common_suffix X Y k m a b i :
  X ++ bits_of_Z k a = Y ++ bits_of_Z m b -> (i < k)%nat -> (i < m)%nat ->
  Z.testbit a (Z.of_nat i) = Z.testbit b (Z.of_nat i).
Proof.
  intros E Hk Hm. assert (length (X ++ bits_of_Z k a) = length (Y ++ bits_of_Z m b)) as HL
    by (rewrite E; reflexivity).
  rewrite !length_app, !length_bits_of_Z in HL.
  assert (Some (Z.testbit a (Z.of_nat i)) = Some (Z.testbit b (Z.of_nat i))) as H; [|congruence].
  rewrite <- (lookup_bits_of_Z k a i Hk), <- (lookup_bits_of_Z m b i Hm).
  transitivity ((X ++ bits_of_Z k a) !! (length X + (k - 1 - i))%nat).
  - symmetry. rewrite lookup_app_r by lia. f_equal. lia.
  - rewrite E, lookup_app_r by lia. f_equal. lia.
Qed.

(** The unmasked second half of a wide field only repeats bits of the first. *)
Lemma compatible_low_half w bs n d X :
  wf w bs -> 0 <= d < 2 ^ (16 + Z.of_nat n) ->
  stream_bits w bs = X ++ bits_of_Z n (Z.shiftr d 16) -> compatible bs 16 d.
Proof.
  intros [_ Hbs] Hd E. destruct bs as [|c prev]; [contradiction|]. intros i Hi Ht.
  rewrite (stream_bits_odd w c prev) in E by apply Hbs.
  destruct (Z.lt_ge_cases i (Z.of_nat n)) as [Hlt|Hge].
  - rewrite <- (Z2Nat.id i) by lia.
    erewrite common_suffix; [|exact E|lia|lia].
    rewrite Z.shiftr_spec, Z2Nat.id by lia. rewrite Z.add_comm. exact Ht.
  - rewrite (testbit_small d (16 + Z.of_nat n)) in Ht by lia. discriminate.
Qed.

Lemma enc_long_bits_appends w bs n d :
  wf w bs -> (n <= 32)%nat -> 0 <= d < 2 ^ Z.of_nat n ->
  appends (w, bs) (enc_long_bits junk w bs n d) (bits_of_Z n d).
Proof.
  intros Hwf Hn Hd. unfold enc_long_bits.
  assert (2 ^ Z.of_nat n <= 2 ^ 32) by (apply Z.pow_le_mono_r; lia).
  destruct (Nat.ltb_spec 16 n) as [H16|H16].
  2: { rewrite (u32_small d) by lia. apply (enc_bits_appends junk (w, bs)); auto. }
  assert (0 <= Z.shiftr d 16 < 2 ^ Z.of_nat (n - 16)) as Hs.
  { rewrite Z.shiftr_div_pow2 by lia. split; [apply Z.div_pos; lia|].
    apply Z.div_lt_upper_bound; [lia|]. rewrite <- Z.pow_add_r by lia.
    replace (16 + Z.of_nat (n - 16)) with (Z.of_nat n) by lia. lia. }
  assert (2 ^ Z.of_nat (n - 16) <= 2 ^ 32) by (apply Z.pow_le_mono_r; lia).
  rewrite (u32_small (Z.shiftr d 16)), (u32_small d) by lia.
  destruct (enc_bits_ok junk w bs (n - 16) (Z.shiftr d 16)) as (w1 & bs1 & -> & H1); [auto|lia|auto|].
  assert (bits_of_Z n d = bits_of_Z (n - 16) (Z.shiftr d 16) ++ bits_of_Z 16 d) as ->.
  { rewrite <- (bits_of_Z_add (n - 16) 16). f_equal. lia. }
  eapply appended_trans; [exact H1|].
  destruct (enc_bits_gen junk w1 bs1 16 d) as (w2 & bs2 & -> & H2); [apply H1|lia|lia| |exact H2].
  eapply compatible_low_half; [apply H1| |apply H1].
  replace (16 + Z.of_nat (n - 16)) with (Z.of_nat n) by lia. exact Hd.
Qed.

(** ** Extended fields *)

Lemma enc_extn_loop_zeros fuel n d e w bs :
  0 < e -> 1 <= d -> (Z.to_nat ((d - 1) / e) <= fuel)%nat ->
  enc_extn_loop junk fuel w bs n d e
  = (put_zeros (H := libtdf_writer junk) n (Z.to_nat ((d - 1) / e)) (w, bs), d - (d - 1) / e * e).
Proof.
  intros He. revert d w bs. induction fuel as [|fuel IH]; intros d w bs Hd Hf.
  - assert (0 <= (d - 1) / e) by (apply Z.div_pos; lia).
    replace ((d - 1) / e) with 0 by lia. cbn. f_equal. lia.
  - cbn [enc_extn_loop]. destruct (Z.ltb_spec e d) as [Hlt|Hge].
    + assert ((d - 1) / e = (d - e - 1) / e + 1) as E.
      { replace (d - 1) with (d - e - 1 + 1 * e) by lia. apply Z.div_add. lia. }
      assert (0 <= (d - e - 1) / e) by (apply Z.div_pos; lia).
      destruct (enc_bits junk w bs n 0) as [w1 bs1] eqn:E1.
      rewrite IH by lia. rewrite E. f_equal; [|lia].
      replace (Z.to_nat ((d - e - 1) / e + 1)) with (S (Z.to_nat ((d - e - 1) / e))) by lia.
      cbn. rewrite E1. reflexivity.
    + replace ((d - 1) / e) with 0 by (symmetry; apply Z.div_small; lia).
      cbn. f_equal. lia.
Qed.

Lemma put_zeros_appends n k s :
  wf s.1 s.2 -> (n <= 16)%nat ->
  appends s (put_zeros (H := libtdf_writer junk) n k s) (replicate (n * k) false).
Proof.
  intros Hw Hn. revert s Hw. induction k as [|k IH]; intros s Hw.
  - rewrite Nat.mul_0_r. apply appended_nil, Hw.
  - replace (n * S k)%nat with (n + n * k)%nat by lia.
    rewrite replicate_add, <- bits_of_Z_0.
    assert (appends s (enc_bits junk s.1 s.2 n 0) (bits_of_Z n 0)) as H
      by (apply enc_bits_appends; auto; lia).
    eapply appended_trans; [exact H|]. apply IH, H.
Qed.

Lemma extn_remainder n d :
  (1 <= n)%nat -> 1 <= d -> let e := 2 ^ Z.of_nat n - 1 in
  1 <= d - (d - 1) / e * e <= e.
Proof.
  intros Hn Hd e. assert (2 ^ 1 <= 2 ^ Z.of_nat n) by (apply Z.pow_le_mono_r; lia).
  pose proof (Z.div_mod (d - 1) e ltac:(unfold e; lia)).
  pose proof (Z.mod_pos_bound (d - 1) e ltac:(unfold e; lia)). lia.
Qed.

Lemma extn_modulus n :
  (1 <= n <= 16)%nat ->
  u32 (u32 (Z.shiftl 1 (Z.of_nat n)) - 1) = 2 ^ Z.of_nat n - 1.
Proof.
  intros Hn. assert (2 ^ 1 <= 2 ^ Z.of_nat n) by (apply Z.pow_le_mono_r; lia).
  assert (2 ^ Z.of_nat n <= 2 ^ 16) by (apply Z.pow_le_mono_r; lia).
  rewrite Z.shiftl_mul_pow2, Z.mul_1_l, (u32_small (2 ^ _)) by lia.
  apply u32_small. lia.
Qed.

Lemma enc_int_ok w bs n :
  wf w bs -> 0 <= n -> appends (w, bs) (enc_int junk w bs n) (tdfint_bits n).
Proof.
  intros Hwf Hn. rewrite enc_int_nibbles.
  apply put_nibbles_appends; [exact Hwf|by apply tdfint_nibbles_bound].
Qed.

(** A component: a chain of chunks with no file. *)
Definition wf_component (bs : stream) : Prop :=
  bs <> [] /\ Forall wf_chunk bs /\ Forall (fun c => file c = None) bs.

Lemma link_chain w fs bs :
  wf w fs -> head_file fs = None -> wf_component bs ->
  appended w fs w (bs ++ fs) (chain_bits bs).
Proof.
  intros [Hw Hfs] Hf (Hne & Hbs & Hn). destruct fs as [|c prev]; [contradiction|].
  destruct bs as [|b ps]; [congruence|]. destruct Hfs as (Hc & Hp & Hpn & _).
  inversion Hbs; inversion Hn; subst. cbn in Hf.
  split; [|split; [|split]]; cbn [app head_file]; auto with tendra; try congruence.
  - split; [exact Hw|]. cbn. split_and!; auto; apply Forall_app; split; auto.
  - unfold stream_bits, file_bits. cbn [app]. rewrite Hf.
    replace (file b) with (@None nat) by auto. cbn [app].
    apply (chain_bits_app (b :: ps) (c :: prev)).
Qed.

Lemma join_ok w fs bs :
  wf w fs -> wf_component bs ->
  appends (w, fs) (join_bitstreams junk w fs bs) (chain_bits bs).
Proof.
  intros Hwf Hbs. destruct bs as [|b ps]; [by destruct Hbs|].
  destruct fs as [|c prev]; [by destruct Hwf|]. unfold join_bitstreams.
  destruct (file c) as [f|] eqn:Ef; [apply join_to_file_ok; auto; apply Hbs|].
  set (fs0 := if decide (link c = None) then _ else _).
  assert (appended w (c :: prev) w fs0 []) as H0.
  { unfold fs0. case_decide; [apply set_link_ok|apply appended_nil]; exact Hwf. }
  rewrite <- (app_nil_l (chain_bits (b :: ps))).
  assert (head_file fs0 = None) as Hf0 by (destruct H0 as (_ & -> & _); exact Ef).
  assert (appends (w, fs0) (w, (b :: ps) ++ fs0) (chain_bits (b :: ps))) as Hlink
    by (apply link_chain; auto; apply H0).
  destruct ps as [|p ps]; [|eapply appended_trans; [exact H0|exact Hlink]].
  destruct (_ <? _)%nat; [|eapply appended_trans; [exact H0|exact Hlink]].
  pose proof (copy_bitstream_ok junk w fs0 b ltac:(apply H0) ltac:(inversion Hbs as (_ & Hb & _);
    by inversion Hb)) as H1.
  destruct (copy_bitstream junk w fs0 b) as [w1 fs1].
  apply end_discard_appended; [apply Hbs|]. cbn [chain_bits].
  eapply appended_trans; [exact H0|exact H1].
Qed.

(** A dumped chunk that stands for whole bytes has no odd bits. *)
Lemma file_chunk_aligned w c f :
  wf_stream [c] -> file c = Some f -> bytes c = O ->
  (length (stream_bits w [c]) mod 8 = 0)%nat -> bits c = O.
Proof.
  intros (Hc & _) Hf Hby. unfold stream_bits, file_bits. rewrite Hf. cbn [chain_bits app].
  rewrite length_app, length_bytes_bits, length_chunk_bits, Hby by exact Hc.
  intros Hm. destruct Hc as (_ & _ & Hlt & _). unfold BYTE_SIZE in Hlt.
  rewrite <- Nat.Div0.add_mod_idemp_l, (Nat.mul_comm 8), Nat.Div0.mod_mul in Hm.
  rewrite Nat.mod_small in Hm by lia. lia.
Qed.

(** ** The contract *)

(** C34: [enc_bits] appends exactly the [n]-bit field [d] to what the stream
    stands for, on every path (odd bits pending or not, chunk full or not,
    file or no file, chunk reused from the free list or new); the invariant
    is kept and no other file is touched. *)
Theorem enc_bits_appends_field w bs n d :
  wf w bs -> (n <= 16)%nat -> 0 <= d < 2 ^ Z.of_nat n ->
  exists w' bs', enc_bits junk w bs n d = (w', bs') /\
    appended w bs w' bs' (bits_of_Z n d).
Proof. apply enc_bits_ok. Qed.

(** [enc_long_bits] writes fields of up to 32 bits, although its second
    call passes [d] unmasked: the bits above the low half that this ors into
    the pending byte are the ones the first call has just written there. *)
Theorem enc_long_bits_field w bs n d :
  wf w bs -> (n <= 32)%nat -> 0 <= d < 2 ^ Z.of_nat n ->
  appends (w, bs) (enc_long_bits junk w bs n d) (bits_of_Z n d).
Proof. apply enc_long_bits_appends. Qed.

(** [enc_extn] appends the extended encoding of a non-zero value. *)
Theorem enc_extn_encodes w bs n d :
  wf w bs -> (1 <= n <= 16)%nat -> 1 <= d ->
  appends (w, bs) (enc_extn junk w bs n d) (extn_bits n d).
Proof.
  intros Hwf Hn Hd. unfold enc_extn, extn_bits. rewrite extn_modulus by exact Hn.
  assert (2 ^ 1 <= 2 ^ Z.of_nat n) by (apply Z.pow_le_mono_r; lia).
  rewrite enc_extn_loop_zeros; [|lia|lia|].
  2: { apply Z2Nat.inj_le; [apply Z.div_pos; lia|lia|].
       apply Z.div_le_upper_bound; nia. }
  pose proof (put_zeros_appends n (Z.to_nat ((d - 1) / (2 ^ Z.of_nat n - 1))) (w, bs)
    Hwf ltac:(lia)) as H1.
  destruct (put_zeros _ _ _) as [w1 bs1].
  pose proof (extn_remainder n d ltac:(lia) Hd) as Hrem. cbn zeta in Hrem.
  eapply appended_trans; [exact H1|].
  apply (enc_bits_appends junk (w1, bs1)); [apply H1|lia|lia].
Qed.

(** [join_bitstreams] concatenates: the bits of [bs] follow those of
    [fs], whether [bs] is written through to the file of [fs], copied because
    it is small, or linked in front of [fs]. *)
Theorem join_bitstreams_concat w fs bs :
  wf w fs -> wf_component bs ->
  appends (w, fs) (join_bitstreams junk w fs bs) (chain_bits bs).
Proof. apply join_ok. Qed.

(** [enc_bitstream] writes the component preceded by the encoding of
    its length in bits. *)
Theorem enc_bitstream_length_prefixed w bs ps :
  wf w bs -> wf_component ps -> Z.of_nat (length (chain_bits ps)) < 2 ^ 32 ->
  appends (w, bs) (enc_bitstream junk w bs ps)
    (tdfint_bits (Z.of_nat (length (chain_bits ps))) ++ chain_bits ps).
Proof.
  intros Hwf Hps Hlen. unfold enc_bitstream.
  rewrite length_bitstream_chain by apply Hps. rewrite u32_small by lia.
  pose proof (enc_int_ok w bs (Z.of_nat (length (chain_bits ps))) Hwf ltac:(lia)) as H1.
  destruct (enc_int junk w bs _) as [w1 bs1]. eapply appended_trans; [exact H1|].
  apply join_ok; [apply H1|exact Hps].
Qed.

(** Ending a file stream leaves in the file everything ever written to
    the stream, zero-padded to a byte boundary, and the other files as they
    were; the freed chunk is reusable. *)
Lemma end_flushes w bs f :
  wf w bs -> head_file bs = Some f ->
  let w' := end_bitstream junk w bs true in
  bytes_bits (default [] (files w' !! f))
  = stream_bits w bs ++ pad_bits (length (stream_bits w bs)) /\
  same_files w w' (Some f) /\ wf_world w'.
Proof.
  intros Hwf Hf. pose proof Hwf as [_ Hbs]. destruct bs as [|c prev]; [contradiction|].
  cbn in Hf. cbn zeta. unfold end_bitstream. rewrite Hf.
  pose proof (enc_boundary_ok w (c :: prev) Hwf) as H1.
  destruct (enc_boundary junk w (c :: prev)) as [w1 bs1].
  destruct H1 as (Hwf1 & Hf1 & Hs1 & Hb1). cbn [fst snd head_file] in *.
  destruct (dump_ok w1 bs1 f Hwf1 ltac:(congruence))
    as (w2 & c2 & -> & Hby2 & Hbi2 & Hwf2 & Hf2 & Hs2 & Hb2).
  rewrite app_nil_r, Hb1 in Hb2. cbn [files free_bitstreams].
  assert (pad_bits (length (stream_bits w (c :: prev)))
    = pad_bits (length (chain_bits (c :: prev)))) as Hpad.
  { unfold stream_bits, file_bits. rewrite Hf, length_app. apply pad_bits_mod8.
    rewrite length_bytes_bits, Nat.mul_comm. apply Nat.Div0.mod_mul. }
  assert (bits c2 = O) as Hz.
  { apply (file_chunk_aligned w2 c2 f); [apply Hwf2|cbn in Hf2; congruence|exact Hby2|].
    rewrite Hb2, <- Hpad, length_app. apply pad_aligned. }
  split_and!.
  - rewrite Hpad, <- Hb2. unfold stream_bits, file_bits, chunk_bits.
    cbn [head_file chain_bits] in *. rewrite Hf2, Hf1, Hf. unfold chunk_bits.
    rewrite Hby2, Hz. cbn. rewrite app_nil_r. reflexivity.
  - rewrite Hf in *. rewrite Hf1 in Hs2. eauto with tendra.
  - destruct Hwf2 as [Hw2 (Hc2 & _)]. split; [|apply Hw2].
    apply Forall_app. split; [|apply Hw2]. constructor; [apply Hc2|constructor].
Qed.
End Spec.

(** ** Concrete instances

    A file stream three bits short of a full chunk, and a component of two
    chunks. *)
Definition demo_junk (i : nat) : Z := 85.
Definition demo_chunk (f : option nat) (by' bi : nat) : BITSTREAM :=
  Bitstream (replicate CHUNK_SIZE 170) by' bi 0 f None.
Definition demo_world : world := World [demo_chunk None 3 1] {[ 7%nat := [1; 2] ]}.
Definition demo_stream : stream := [demo_chunk (Some 7%nat) 63 5].
Definition demo_component : stream := [demo_chunk None 2 3; demo_chunk None 64 0].

Lemma demo_chunk_wf f by' bi :
  (by' < 64)%nat \/ bi = O -> (by' <= 64)%nat -> (bi < 8)%nat -> wf_chunk (demo_chunk f by' bi).
Proof.
  intros H1 H2 H3. split; [split; [reflexivity|]|cbn; split_and!; sizes].
  apply Forall_replicate. unfold is_byte. lia.
Qed.

Lemma demo_wf : wf demo_world demo_stream.
Proof.
  split.
  - split; [constructor; [|constructor]; apply (demo_chunk_wf None 3 1); lia|].
    apply map_Forall_singleton. repeat constructor; discriminate.
  - split_and!; auto. apply (demo_chunk_wf (Some 7%nat) 63 5); lia.
Qed.

Lemma demo_component_wf : wf_component demo_component.
Proof.
  split; [discriminate|]. split.
  - constructor; [apply demo_chunk_wf; lia|]. constructor; [apply demo_chunk_wf; lia|constructor].
  - repeat constructor.
Qed.

#[local] Hint Resolve demo_wf demo_component_wf : tendra.

Lemma enc_bits_appends_field_witness :
  exists w' bs', enc_bits demo_junk demo_world demo_stream 16 48879 = (w', bs') /\
    appended demo_world demo_stream w' bs' (bits_of_Z 16 48879).
Proof. apply (enc_bits_appends_field demo_junk); [auto with tendra|lia|lia]. Defined.

Lemma enc_long_bits_field_witness :
  appends (demo_world, demo_stream)
    (enc_long_bits demo_junk demo_world demo_stream 32 3735928559) (bits_of_Z 32 3735928559).
Proof. apply (enc_long_bits_field demo_junk); [auto with tendra|lia|lia]. Defined.

Lemma enc_extn_encodes_witness :
  appends (demo_world, demo_stream)
    (enc_extn demo_junk demo_world demo_stream 3 20) (extn_bits 3 20) /\
  extn_bits 3 20 = replicate 6 false ++ bits_of_Z 3 6.
Proof. split; [|reflexivity]. apply (enc_extn_encodes demo_junk); [auto with tendra|lia|lia]. Defined.

Lemma join_bitstreams_concat_witness :
  appends (demo_world, demo_stream)
    (join_bitstreams demo_junk demo_world demo_stream demo_component) (chain_bits demo_component).
Proof. apply (join_bitstreams_concat demo_junk); auto with tendra. Defined.

Lemma enc_bitstream_length_prefixed_witness :
  appends (demo_world, demo_stream)
    (enc_bitstream demo_junk demo_world demo_stream demo_component)
    (tdfint_bits 531 ++ chain_bits demo_component).
Proof.
  apply (enc_bitstream_length_prefixed demo_junk demo_world demo_stream demo_component);
    [auto with tendra|auto with tendra|reflexivity].
Defined.
