(* ===== verification/LibtdfDecode.v ===== *)
(** * LibtdfDecode: the input bitstreams of libtdf

    Models libtdf/src/decode.c. An input stream is one [BITSTREAM] whose
    [text] buffers up to 64 bytes of its file; [d_in] is what is left of the
    file. [link] is non-null once the end of the file has been hit, from where
    on the stream reads as ones.

    [de_bits] tests its local [sz] before anything has set it. [sz_init] is the
    value found there, as a function of the stream; the theorems about correct
    decoding have the hypothesis that it is the size of the buffer, the value
    the test needs, and [de_bits_uninitialised] shows what happens when it is
    not. *)
From stdpp Require Import base list list_numbers numbers.
From Stdlib Require Import ZArith Lia.
From S2P Require Import Prelude Codec LibtdfEncode.

Record istream := Istream { d_bs : BITSTREAM; d_in : list Z }.

Definition fill_bitstream (s : istream) : istream * nat :=
  let bs := d_bs s in
  let sz := length (take CHUNK_SIZE (d_in s)) in
  let t := take CHUNK_SIZE (d_in s) ++ drop sz (text bs) in
  let '(t, sz, lnk) :=
    if (sz =? 0)%nat
    then (replicate CHUNK_SIZE BYTE_MASK, CHUNK_SIZE, Some 0%nat)
    else (t, sz, link bs) in
  (Istream (Bitstream t (bytes bs) (bits bs) sz (file bs) lnk) (drop CHUNK_SIZE (d_in s)), sz).

Definition de_eof (s : istream) : istream * bool :=
  match link (d_bs s) with
  | Some _ => (s, false)
  | None =>
      if (size (d_bs s) <=? bytes (d_bs s))%nat
      then
        let '(s, _) := fill_bitstream s in
        (s, match link (d_bs s) with Some _ => true | None => false end)
      else (s, false)
  end.

Definition bit_mask : list Z :=
  [0; 1; 3; 7; 15; 31; 63; 127; 255; 511; 1023; 2047; 4095; 8191; 16383; 32767; 65535].

(** The [while (m)] loop; every round takes at least one bit off [m], so [m]
    is fuel enough. *)
Fixpoint de_bits_loop (fuel : nat) (s : istream) (sz bytes bits m : nat) (d : Z)
  : istream * nat * nat * Z :=
  match fuel with
  | O => (s, bytes, bits, d)
  | S fuel =>
      if (m =? 0)%nat then (s, bytes, bits, d)
      else
        let '(s, sz, bytes, bits) :=
          if (sz <=? bytes)%nat
          then let '(s, sz) := fill_bitstream s in (s, sz, O, O)
          else (s, sz, bytes, bits) in
        let c := text (d_bs s) !!! bytes in
        let d := Z.lor (u64 (Z.shiftl d (Z.of_nat BYTE_SIZE))) c in
        let b := (BYTE_SIZE - bits)%nat in
        let '(d, bits, m) :=
          if (m <? b)%nat
          then (Z.shiftr d (Z.of_nat (b - m)), (bits + m)%nat, O)
          else (d, (bits + b)%nat, (m - b)%nat) in
        let '(bits, bytes) :=
          if (bits =? BYTE_SIZE)%nat then (O, S bytes) else (bits, bytes) in
        de_bits_loop fuel s sz bytes bits m d
  end.

Section Decode.
Variable sz_init : BITSTREAM -> nat.

Definition de_bits (s : istream) (n : nat) : istream * Z :=
  let bs := d_bs s in
  let m := (n + bits bs)%nat in
  let '(s, bytes', bits', d) := de_bits_loop m s (sz_init bs) (bytes bs) 0 m 0 in
  let bs := d_bs s in
  (Istream (Bitstream (text bs) bytes' bits' (size bs) (file bs) (link bs)) (d_in s),
   u32 (Z.land d (bit_mask !!! n))).

Definition de_long_bits (s : istream) (n : nat) : istream * Z :=
  let '(s, a, n) :=
    if (16 <? n)%nat
    then let '(s, a) := de_bits s (n - 16) in (s, a, 16%nat)
    else (s, 0, n) in
  let '(s, b) := de_bits s n in
  (s, Z.lor (u64 (Z.shiftl a 16)) b).

(** The [for (;;)] loop; [None] when [fuel] packets hold no marked one. *)
Fixpoint de_int_loop (fuel : nat) (s : istream) (n : Z) : option (istream * Z) :=
  match fuel with
  | O => None
  | S fuel =>
      let '(s, d) := de_bits s 4 in
      if Z.land d 8 =? 0
      then de_int_loop fuel s (Z.lor (u64 (Z.shiftl n 3)) d)
      else Some (s, Z.lor (u64 (Z.shiftl n 3)) (Z.land d 7))
  end.

Definition de_int (fuel : nat) (s : istream) : option (istream * Z) := de_int_loop fuel s 0.

Definition de_boundary (s : istream) : istream :=
  if (bits (d_bs s) =? 0)%nat then s
  else (de_bits s (BYTE_SIZE - bits (d_bs s))).1.
End Decode.

(** ** What a stream still has to deliver *)

Definition bytes_at (s : istream) (sz by' : nat) : list Z :=
  drop by' (take sz (text (d_bs s))) ++ d_in s.

Definition i_rest (s : istream) : list bool :=
  drop (bits (d_bs s)) (bytes_bits (bytes_at s (size (d_bs s)) (bytes (d_bs s)))).

(** The buffer invariant, at a local position. *)
Definition wf_buf (s : istream) (sz by' : nat) : Prop :=
  wf_text (text (d_bs s)) /\ Forall is_byte (d_in s) /\ (by' <= sz <= CHUNK_SIZE)%nat /\
  size (d_bs s) = sz.

Definition wf_istream (s : istream) : Prop :=
  wf_buf s (size (d_bs s)) (bytes (d_bs s)) /\ (bits (d_bs s) < 8)%nat /\
  (bits (d_bs s) <> O -> (bytes (d_bs s) < size (d_bs s))%nat).

Lemma fill_bitstream_spec s :
  wf_text (text (d_bs s)) -> Forall is_byte (d_in s) -> d_in s <> [] ->
  exists s' sz, fill_bitstream s = (s', sz) /\ wf_buf s' sz 0 /\ (0 < sz)%nat /\
    bytes_at s' sz 0 = d_in s /\ link (d_bs s') = link (d_bs s).
Proof.
  intros [Hl Hb] Hin Hne. unfold fill_bitstream.
  set (sz := length (take CHUNK_SIZE (d_in s))).
  assert (0 < sz <= CHUNK_SIZE)%nat as Hsz.
  { unfold sz. rewrite length_take. destruct (d_in s); [congruence|]. cbn [length]. sizes. }
  replace (sz =? 0)%nat with false by (symmetry; apply Nat.eqb_neq; lia).
  do 2 eexists. split; [reflexivity|]. unfold wf_buf, bytes_at. cbn [d_bs text d_in size bytes link].
  split_and!; auto; try lia.
  - split; [rewrite length_app, length_drop, Hl; fold sz; lia|].
    apply Forall_app. split; [by apply Forall_take|by apply Forall_drop].
  - by apply Forall_drop.
  - rewrite take_app_le, (take_ge (take _ _)) by (unfold sz; lia).
    cbn [drop]. apply take_drop.
Qed.

(** At the end of the file the buffer becomes all ones. *)
Lemma fill_bitstream_eof s :
  d_in s = [] ->
  exists s', fill_bitstream s = (s', CHUNK_SIZE) /\ wf_buf s' CHUNK_SIZE 0 /\
    text (d_bs s') = replicate CHUNK_SIZE 255 /\ d_in s' = [] /\ link (d_bs s') = Some 0%nat.
Proof.
  intros E. unfold fill_bitstream. rewrite E. cbn [take length Nat.eqb].
  eexists. split; [reflexivity|]. cbn [d_bs text d_in link]. split_and!; auto.
  split; [|cbn; split_and!; auto; lia].
  split; [reflexivity|]. apply Forall_replicate. unfold is_byte, BYTE_MASK. lia.
Qed.

Lemma bytes_at_end s sz : bytes_at s sz sz = d_in s.
Proof. unfold bytes_at. rewrite drop_ge; [reflexivity|]. rewrite length_take. lia. Qed.

Lemma bytes_at_cons s sz by' :
  wf_buf s sz by' -> (by' < sz)%nat ->
  bytes_at s sz by' = text (d_bs s) !!! by' :: bytes_at s sz (S by').
Proof.
  intros ([Hl _] & _ & Hle & _) Hlt. unfold bytes_at.
  assert (by' < length (text (d_bs s)))%nat as Hlen by (rewrite Hl; lia).
  destruct (lookup_lt_is_Some_2 _ _ Hlen) as [x Hx].
  rewrite (drop_S _ x by'), (list_lookup_total_correct _ _ _ Hx); [reflexivity|].
  rewrite lookup_take_lt by lia. exact Hx.
Qed.

Lemma bytes_at_Forall s sz by' : wf_buf s sz by' -> Forall is_byte (bytes_at s sz by').
Proof.
  intros ([_ Ht] & Hin & _). apply Forall_app. split; [|exact Hin].
  by apply Forall_drop, Forall_take.
Qed.

(** The refill at the head of a round, when there is a byte to be had. *)
Lemma refill_spec s sz by' c R :
  wf_buf s sz by' -> bytes_at s sz by' = c :: R ->
  exists s' sz' by1,
    (if (sz <=? by')%nat
     then let '(s, sz) := fill_bitstream s in (s, sz, O, O)
     else (s, sz, by', O)) = (s', sz', by1, O) /\
    wf_buf s' sz' by1 /\ (by1 < sz')%nat /\ text (d_bs s') !!! by1 = c /\
    bytes_at s' sz' (S by1) = R /\ link (d_bs s') = link (d_bs s).
Proof.
  intros Hwf HR. pose proof Hwf as (Ht & Hin & Hle & Hsz).
  destruct (Nat.leb_spec sz by') as [E|E].
  - replace by' with sz in HR by lia. rewrite bytes_at_end in HR.
    destruct (fill_bitstream_spec s Ht Hin) as (s' & sz' & -> & Hwf' & Hpos & Hat & Hlk);
      [congruence|].
    do 3 eexists. split; [reflexivity|]. rewrite (bytes_at_cons _ _ _ Hwf' Hpos), HR in Hat.
    injection Hat as Hc HR'. split_and!; auto; apply Hwf'.
  - do 3 eexists. split; [reflexivity|]. rewrite (bytes_at_cons _ _ _ Hwf E) in HR.
    injection HR as Hc HR'. split_and!; auto; apply Hwf.
Qed.

(** Taking one more byte into the accumulator. *)
Lemma accumulate d k c :
  0 <= d < 2 ^ k -> 0 <= k <= 48 -> is_byte c ->
  Z.lor (u64 (Z.shiftl d (Z.of_nat BYTE_SIZE))) c = d * 2 ^ 8 + c.
Proof.
  intros Hd Hk Hc. unfold is_byte in Hc. change (Z.of_nat BYTE_SIZE) with 8.
  pose proof (shiftl_bound k 8 d ltac:(lia) Hd ltac:(lia)).
  assert (2 ^ (k + 8) <= 2 ^ 56) by (apply Z.pow_le_mono_r; lia).
  rewrite u64_small by lia. apply lor_shiftl; lia.
Qed.

Lemma Z_of_bits_take_byte m c :
  (m <= 8)%nat -> is_byte c -> Z_of_bits (take m (bits_of_Z 8 c)) = Z.shiftr c (Z.of_nat (8 - m)).
Proof.
  intros Hm Hc. rewrite take_bits_of_Z by exact Hm. apply Z_of_bits_of_Z_small.
  unfold is_byte in Hc. rewrite Z.shiftr_div_pow2 by lia. split; [apply Z.div_pos; lia|].
  apply Z.div_lt_upper_bound; [lia|]. rewrite <- Z.pow_add_r by lia.
  replace (Z.of_nat (8 - m) + Z.of_nat m) with 8 by lia. lia.
Qed.

(** The outcome of a read loop that stops [m] bits further into the bytes [R]. *)
Definition reads_to (s : istream) (R : list Z) (m : nat) (d : Z)
    (r : istream * nat * nat * Z) : Prop :=
  let '(s', by', bi, d') := r in
  wf_buf s' (size (d_bs s')) by' /\ (bi < 8)%nat /\
  (bi <> O -> (by' < size (d_bs s'))%nat) /\ link (d_bs s') = link (d_bs s) /\
  drop bi (bytes_bits (bytes_at s' (size (d_bs s')) by')) = drop m (bytes_bits R) /\
  d' = d * 2 ^ Z.of_nat m + Z_of_bits (take m (bytes_bits R)).

Lemma de_bits_loop_done fuel s sz by' bi d :
  de_bits_loop fuel s sz by' bi 0 d = (s, by', bi, d).
Proof. destruct fuel; reflexivity. Qed.

Lemma reads_to_0 s sz by' d R :
  wf_buf s sz by' -> bytes_at s sz by' = R -> reads_to s R 0 d (s, by', O, d).
Proof.
  intros Hwf HR. pose proof Hwf as (_ & _ & _ & E). cbn [reads_to]. rewrite E, HR.
  split; [exact Hwf|]. split_and!; auto; [lia|done|]. change (Z_of_bits _) with 0. lia.
Qed.

Lemma de_bits_loop_spec fuel s sz by' m d k R :
  wf_buf s sz by' -> bytes_at s sz by' = R -> (m <= 8 * length R)%nat -> (m <= fuel)%nat ->
  0 <= d < 2 ^ k -> 0 <= k -> k + Z.of_nat m <= 48 ->
  reads_to s R m d (de_bits_loop fuel s sz by' 0 m d).
Proof.
  revert s sz by' m d k R.
  induction fuel as [|fuel IH]; intros s sz by' m d k R Hwf HR Hm Hf Hd Hk Hkm.
  { replace m with O by lia. by eapply reads_to_0. }
  cbn [de_bits_loop]. destruct (Nat.eqb_spec m 0) as [->|Hm0]; [by eapply reads_to_0|].
  destruct R as [|c R]; [cbn in Hm; lia|].
  assert (is_byte c) as Hc by (pose proof (bytes_at_Forall _ _ _ Hwf) as H; rewrite HR in H; by inversion H).
  destruct (refill_spec s sz by' c R Hwf HR) as (s1 & sz1 & by1 & -> & Hwf1 & Hlt & Htc & HR1 & Hlk).
  rewrite Htc, (accumulate d k c) by (auto; lia). unfold BYTE_SIZE.
  assert (2 ^ (k + 8) = 2 ^ k * 2 ^ 8) as Hpow by (apply Z.pow_add_r; lia).
  unfold is_byte in Hc. cbn [length] in Hm.
  pose proof Hwf1 as (_ & _ & Hle1 & Hsz1). destruct (Nat.ltb_spec m (8 - 0)) as [H8|H8].
  - rewrite (proj2 (Nat.eqb_neq (0 + m) 8)) by lia. rewrite de_bits_loop_done.
    cbn [reads_to Nat.add]. rewrite Hsz1, (bytes_bits_cons c R).
    split; [exact Hwf1|]. split_and!; auto; try lia.
    + by rewrite (bytes_at_cons s1 sz1 by1 Hwf1 Hlt), bytes_bits_cons, Htc, HR1.
    + rewrite take_app_le by (rewrite length_bits_of_Z; lia).
      rewrite Z_of_bits_take_byte by (unfold is_byte; lia).
      rewrite !Z.shiftr_div_pow2 by lia.
      assert (2 ^ 8 = 2 ^ Z.of_nat m * 2 ^ Z.of_nat (8 - m)) as E8
        by (rewrite <- Z.pow_add_r by lia; f_equal; lia).
      rewrite E8, Z.mul_assoc, Nat.sub_0_r, Z.div_add_l by lia. reflexivity.
  - cbn [Nat.sub Nat.add Nat.eqb].
    assert (wf_buf s1 sz1 (S by1)) as Hwf2 by (unfold wf_buf in *; intuition lia).
    specialize (IH s1 sz1 (S by1) (m - 8)%nat (d * 2 ^ 8 + c) (k + 8) R
      Hwf2 HR1 ltac:(lia) ltac:(lia) ltac:(lia) ltac:(lia) ltac:(lia)).
    destruct (de_bits_loop _ _ _ _ _ _ _) as [[[s2 by2] bi2] d2]. cbn [reads_to] in *.
    rewrite (bytes_bits_cons c R).
    destruct IH as (? & ? & ? & Hlk2 & Hdrop & Hval). rewrite Hlk in Hlk2. split_and!; auto.
    + rewrite Hdrop, drop_app_ge by (rewrite length_bits_of_Z; lia).
      rewrite length_bits_of_Z. reflexivity.
    + rewrite Hval, take_app_ge by (rewrite length_bits_of_Z; lia).
      rewrite length_bits_of_Z, Z_of_bits_app, Z_of_bits_of_Z_small by (cbn; lia).
      rewrite length_take, length_bytes_bits, Nat.min_l by lia.
      assert (2 ^ Z.of_nat m = 2 ^ 8 * 2 ^ Z.of_nat (m - 8)) as ->
        by (rewrite <- Z.pow_add_r by lia; f_equal; lia). ring.
Qed.

Lemma bytes_bits_ones k : bytes_bits (replicate k 255) = replicate (8 * k) true.
Proof.
  induction k as [|k IH]; [reflexivity|].
  replace (8 * S k)%nat with (8 + 8 * k)%nat by lia. rewrite replicate_add, <- IH. reflexivity.
Qed.

(** A loop that runs past the end of the file leaves a stream of ones. *)
Definition reads_past (r : istream * nat * nat * Z) : Prop :=
  let '(s', by', bi, _) := r in
  wf_buf s' (size (d_bs s')) by' /\ (bi < 8)%nat /\
  (bi <> O -> (by' < size (d_bs s'))%nat) /\ link (d_bs s') <> None /\
  exists k, (480 <= k)%nat /\
    drop bi (bytes_bits (bytes_at s' (size (d_bs s')) by')) = replicate k true.

Lemma de_bits_loop_at_eof fuel s sz m d :
  d_in s = [] -> (0 < m <= 24)%nat -> (m <= fuel)%nat -> 0 <= d < 2 ^ 24 ->
  reads_past (de_bits_loop fuel s sz sz 0 m d).
Proof.
  intros Hin Hm Hf Hd. destruct (fill_bitstream_eof s Hin) as (s1 & E & Hwf & Ht & Hin1 & Hlk).
  destruct fuel as [|fuel]; [lia|].
  assert (de_bits_loop (S fuel) s sz sz 0 m d = de_bits_loop (S fuel) s1 CHUNK_SIZE 0 0 m d) as ->.
  { cbn [de_bits_loop]. rewrite (proj2 (Nat.eqb_neq m 0)), Nat.leb_refl, E by lia. reflexivity. }
  assert (bytes_at s1 CHUNK_SIZE 0 = replicate 64 255) as HR
    by (unfold bytes_at; rewrite Ht, Hin1; reflexivity).
  pose proof (de_bits_loop_spec (S fuel) s1 CHUNK_SIZE 0 m d 24 _ Hwf HR ltac:(cbn [length replicate]; lia)
    Hf Hd ltac:(lia) ltac:(lia)) as H.
  destruct (de_bits_loop _ _ _ _ _ _ _) as [[[s' by'] bi] d'].
  destruct H as (H1 & H2 & H3 & H4 & H5 & _). cbn [reads_past]. split_and!; auto; [congruence|].
  exists (512 - m)%nat. split; [lia|]. rewrite H5, bytes_bits_ones, drop_replicate. reflexivity.
Qed.

Lemma de_bits_loop_past fuel s sz by' m d k R :
  wf_buf s sz by' -> bytes_at s sz by' = R -> (8 * length R < m)%nat -> (m <= fuel)%nat ->
  0 <= d < 2 ^ k -> 0 <= k -> k + Z.of_nat m <= 24 ->
  reads_past (de_bits_loop fuel s sz by' 0 m d).
Proof.
  revert s sz by' m d k R.
  induction fuel as [|fuel IH]; intros s sz by' m d k R Hwf HR Hm Hf Hd Hk Hkm; [lia|].
  assert (2 ^ k <= 2 ^ 24) by (apply Z.pow_le_mono_r; lia).
  destruct R as [|c R].
  { pose proof Hwf as ([Hl _] & _ & Hle & Hsz). unfold bytes_at in HR.
    apply app_eq_nil in HR as [Hd0 Hin].
    assert (by' = sz) as ->; [|apply de_bits_loop_at_eof; auto; lia].
    apply (f_equal length) in Hd0. rewrite length_drop, length_take, Hl in Hd0. cbn in Hd0. sizes. }
  assert (is_byte c) as Hc by (pose proof (bytes_at_Forall _ _ _ Hwf) as Hb; rewrite HR in Hb; by inversion Hb).
  cbn [de_bits_loop length] in *. rewrite (proj2 (Nat.eqb_neq m 0)) by lia.
  destruct (refill_spec s sz by' c R Hwf HR) as (s1 & sz1 & by1 & -> & Hwf1 & Hlt & Htc & HR1 & Hlk).
  rewrite Htc, (accumulate d k c) by (auto; lia). unfold BYTE_SIZE.
  assert (2 ^ (k + 8) = 2 ^ k * 2 ^ 8) as Hpow by (apply Z.pow_add_r; lia).
  unfold is_byte in Hc. rewrite (proj2 (Nat.ltb_ge m (8 - 0))) by lia.
  cbn [Nat.sub Nat.add Nat.eqb].
  apply (IH s1 sz1 (S by1) (m - 8)%nat _ (k + 8) R); auto; try lia.
  pose proof Hwf1 as (_ & _ & Hle1 & Hsz1). unfold wf_buf in *. intuition lia.
Qed.

Lemma bit_mask_ones n : (n <= 16)%nat -> bit_mask !!! n = Z.ones (Z.of_nat n).
Proof. intros H. do 17 (destruct n as [|n]; [reflexivity|]). lia. Qed.

(** Masking keeps the last field. *)
Lemma mask_take n k l :
  (n <= 16)%nat -> (k + n <= length l)%nat ->
  u32 (Z.land (0 * 2 ^ Z.of_nat (n + k) + Z_of_bits (take (n + k) l)) (bit_mask !!! n))
  = Z_of_bits (take n (drop k l)).
Proof.
  intros Hn Hl. rewrite Z.mul_0_l, Z.add_0_l, bit_mask_ones, Z.land_ones by lia.
  rewrite (Nat.add_comm n k), <- take_take_drop, Z_of_bits_app.
  assert (length (take n (drop k l)) = n) as E by (rewrite length_take, length_drop; lia).
  pose proof (Z_of_bits_bound (take n (drop k l))) as Hb. rewrite E in Hb |- *.
  rewrite Z.add_comm, Z_mod_plus_full, Z.mod_small by exact Hb. apply u32_small.
  assert (2 ^ Z.of_nat n <= 2 ^ 16) by (apply Z.pow_le_mono_r; lia). lia.
Qed.

Section DecodeSpec.
Variable sz_init : BITSTREAM -> nat.
Hypothesis sz_init_size : forall bs, sz_init bs = size bs.

Lemma length_i_rest s :
  length (i_rest s)
  = (8 * length (bytes_at s (size (d_bs s)) (bytes (d_bs s))) - bits (d_bs s))%nat.
Proof. unfold i_rest. rewrite length_drop, length_bytes_bits. reflexivity. Qed.

(** The buffered odd bits are available. *)
Lemma odd_available s :
  wf_istream s ->
  (bits (d_bs s) <= 8 * length (bytes_at s (size (d_bs s)) (bytes (d_bs s))))%nat.
Proof.
  intros (Hwf & Hb & Hodd). destruct (decide (bits (d_bs s) = O)) as [->|E]; [lia|].
  rewrite (bytes_at_cons _ _ _ Hwf) by auto. cbn [length]. lia.
Qed.

Lemma de_bits_ok s n :
  wf_istream s -> (n <= 16)%nat -> (n <= length (i_rest s))%nat ->
  exists s', de_bits sz_init s n = (s', Z_of_bits (take n (i_rest s))) /\ wf_istream s' /\
    i_rest s' = drop n (i_rest s) /\ link (d_bs s') = link (d_bs s).
Proof.
  intros Hs Hn Hlen. pose proof (odd_available s Hs) as Hav. rewrite length_i_rest in Hlen.
  destruct Hs as (Hwf & Hb & Hodd). unfold de_bits. rewrite sz_init_size.
  pose proof (de_bits_loop_spec (n + bits (d_bs s)) s (size (d_bs s)) (bytes (d_bs s))
    (n + bits (d_bs s)) 0 0 _ Hwf eq_refl ltac:(lia) ltac:(lia) ltac:(lia) ltac:(lia) ltac:(lia)) as H.
  destruct (de_bits_loop _ _ _ _ _ _ _) as [[[s' by'] bi] d]. cbn [reads_to] in H.
  destruct H as (Hwf' & Hbi & Hodd' & Hlk & Hdrop & ->).
  eexists. split; [|split; [|split]].
  - f_equal. unfold i_rest. apply mask_take; [exact Hn|].
    rewrite length_bytes_bits. lia.
  - unfold wf_istream. cbn [d_bs size bytes bits]. split_and!; auto; exact Hwf'.
  - unfold i_rest. cbn [d_bs size bytes bits]. rewrite drop_drop.
    etransitivity; [exact Hdrop|]. f_equal. lia.
  - exact Hlk.
Qed.

Lemma de_bits_past s n :
  wf_istream s -> (n <= 16)%nat -> (length (i_rest s) < n)%nat ->
  exists s' v k, de_bits sz_init s n = (s', v) /\ wf_istream s' /\
    (480 <= k)%nat /\ i_rest s' = replicate k true.
Proof.
  intros Hs Hn Hlen. pose proof (odd_available s Hs) as Hav. rewrite length_i_rest in Hlen.
  destruct Hs as (Hwf & Hb & Hodd). unfold de_bits. rewrite sz_init_size.
  pose proof (de_bits_loop_past (n + bits (d_bs s)) s (size (d_bs s)) (bytes (d_bs s))
    (n + bits (d_bs s)) 0 0 _ Hwf eq_refl ltac:(lia) ltac:(lia) ltac:(lia) ltac:(lia) ltac:(lia)) as H.
  destruct (de_bits_loop _ _ _ _ _ _ _) as [[[s' by'] bi] d]. cbn [reads_past] in H.
  destruct H as (Hwf' & Hbi & Hodd' & _ & k & Hk & Hdrop).
  do 2 eexists. exists k. split; [reflexivity|]. split; [|split]; [|exact Hk|exact Hdrop].
  unfold wf_istream. cbn [d_bs size bytes bits]. split_and!; auto; exact Hwf'.
Qed.

Lemma libtdf_fetch_spec s n :
  wf_istream s -> (n <= 16)%nat -> (n <= length (i_rest s))%nat ->
  (let '(s, v) := de_bits sz_init s n in (v, s)).1 = Z_of_bits (take n (i_rest s)) /\
  wf_istream (let '(s, v) := de_bits sz_init s n in (v, s)).2 /\
  i_rest (let '(s, v) := de_bits sz_init s n in (v, s)).2 = drop n (i_rest s).
Proof.
  intros H1 H2 H3. destruct (de_bits_ok s n H1 H2 H3) as (s' & -> & ? & ? & _). auto.
Qed.

#[export] Instance libtdf_reader : BitReader istream := {
  rd_ok := wf_istream;
  rd_rest := i_rest;
  rd_fetch := fun n s => let '(s, v) := de_bits sz_init s n in (v, s);
  rd_width := fun n => (n <= 16)%nat;
  rd_width_4 := proj1 (Nat.leb_le 4 16) eq_refl;
  rd_fetch_spec := libtdf_fetch_spec
}.

(** ** Integers *)

Lemma de_bits_range s n :
  (n <= 16)%nat -> 0 <= (de_bits sz_init s n).2 < 2 ^ Z.of_nat n.
Proof.
  intros Hn. unfold de_bits. destruct (de_bits_loop _ _ _ _ _ _ _) as [[[s' by'] bi] d].
  cbn [snd]. rewrite bit_mask_ones, Z.land_ones by lia.
  pose proof (Z.mod_pos_bound d (2 ^ Z.of_nat n) ltac:(lia)).
  assert (2 ^ Z.of_nat n <= 2 ^ 16) by (apply Z.pow_le_mono_r; lia).
  rewrite u32_small by lia. lia.
Qed.

(** The loop of [de_int] is the reading of digits, accumulated modulo 2^64. *)
Lemma de_int_loop_digits fuel s n :
  de_int_loop sz_init fuel s n
  = '(ds, s') ← read_digits (H := libtdf_reader) fuel s;
    Some (s', fold_left (acc_digit 64) ds n).
Proof.
  revert s n. induction fuel as [|fuel IH]; intros s n; [reflexivity|].
  cbn [de_int_loop read_digits rd_fetch libtdf_reader].
  pose proof (de_bits_range s 4 ltac:(lia)) as Hd.
  destruct (de_bits sz_init s 4) as [s' d]. cbn [snd] in Hd.
  destruct (Z.eqb_spec (Z.land d 8) 0) as [E|E]; [|reflexivity].
  rewrite IH, (unmarked_digit d) by (cbn in Hd; lia).
  by destruct (read_digits fuel s') as [[? ?]|].
Qed.

Lemma de_int_ok fuel s n rest :
  wf_istream s -> 0 <= n -> i_rest s = tdfint_bits n ++ rest ->
  (length (octal_digits n) <= fuel)%nat ->
  exists s', de_int sz_init fuel s = Some (s', u64 n) /\ wf_istream s' /\ i_rest s' = rest.
Proof.
  intros Hs Hn Hrest Hf. unfold de_int. rewrite de_int_loop_digits.
  destruct (read_digits_tdfint (H := libtdf_reader) n s fuel rest Hn Hs Hrest Hf)
    as (s' & -> & Hok & Hr).
  exists s'. split_and!; auto.
  change (Some (s', fold_left (acc_digit 64) (octal_digits n) 0) = Some (s', u64 n)).
  rewrite acc_digits_int by lia. reflexivity.
Qed.

(** The first packet of a run of ones is marked. *)
Lemma de_int_ones fuel s n k :
  wf_istream s -> (4 <= k)%nat -> i_rest s = replicate k true ->
  exists s' v, de_int_loop sz_init (S fuel) s n = Some (s', v).
Proof.
  intros Hs Hk Hr. cbn [de_int_loop].
  destruct (de_bits_ok s 4 Hs ltac:(lia)) as (s' & -> & _).
  { rewrite Hr, length_replicate. lia. }
  rewrite Hr, take_replicate, Nat.min_l by lia. cbn. eauto.
Qed.

Lemma de_int_loop_terminates k s n fuel :
  wf_istream s -> (length (i_rest s) < 4 * S k)%nat -> (k + 2 <= fuel)%nat ->
  exists s' v, de_int_loop sz_init fuel s n = Some (s', v).
Proof.
  revert s n fuel. induction k as [|k IH]; intros s n fuel Hs Hlen Hf;
    (destruct fuel as [|fuel]; [lia|]); destruct (decide (4 <= length (i_rest s))%nat) as [H4|H4];
    try lia.
  1, 3: destruct (de_bits_past s 4 Hs ltac:(lia) ltac:(lia)) as (s' & v & j & E & Hs' & Hj & Hr);
    cbn [de_int_loop]; rewrite E; destruct (_ =? 0); [|eauto];
    (destruct fuel as [|fuel]; [lia|]); apply de_int_ones with j; auto; lia.
  cbn [de_int_loop]. destruct (de_bits_ok s 4 Hs ltac:(lia) H4) as (s' & -> & Hs' & Hr & _).
  destruct (_ =? 0); [|eauto]. apply IH; [exact Hs'| |lia].
  rewrite Hr, length_drop. lia.
Qed.

(** Enough packets for any input: one for each four bits left, then one of
    the ones that follow. *)
Definition de_int_fuel (s : istream) : nat := (length (i_rest s) / 4 + 2)%nat.

(** A position from which [de_eof] may refill: inside the buffer, or before
    the first byte has been read. *)
Definition eof_safe (s : istream) : Prop :=
  (bytes (d_bs s) < size (d_bs s))%nat \/ bytes (d_bs s) = O.

Lemma rest_at_end s :
  wf_istream s -> (size (d_bs s) <= bytes (d_bs s))%nat ->
  bits (d_bs s) = O /\ i_rest s = bytes_bits (d_in s).
Proof.
  intros ((_ & _ & Hle & _) & Hb & Hodd) E.
  assert (bits (d_bs s) = O) as Hz by (destruct (decide (bits (d_bs s) = O)); [auto|lia]).
  split; [exact Hz|]. unfold i_rest. rewrite Hz.
  replace (bytes (d_bs s)) with (size (d_bs s)) by lia. rewrite bytes_at_end. reflexivity.
Qed.

Lemma rest_inside s :
  wf_istream s -> (bytes (d_bs s) < size (d_bs s))%nat -> i_rest s <> [].
Proof.
  intros (Hwf & Hb & _) E H. apply (f_equal length) in H.
  rewrite length_i_rest, (bytes_at_cons _ _ _ Hwf E) in H. cbn [length] in H. lia.
Qed.

Lemma fill_position s s' sz :
  fill_bitstream s = (s', sz) ->
  bytes (d_bs s') = bytes (d_bs s) /\ bits (d_bs s') = bits (d_bs s) /\ size (d_bs s') = sz.
Proof. unfold fill_bitstream. destruct (_ =? 0)%nat; intros [= <- <-]; auto. Qed.

Lemma bytes_bits_nil l : bytes_bits l = [] <-> l = [].
Proof.
  split; [|intros ->; reflexivity]. intros H. apply (f_equal length) in H.
  rewrite length_bytes_bits in H. destruct l; [reflexivity|cbn in H; lia].
Qed.

(** ** Properties *)


(** [de_int] returns on every input, also on a file that ends inside an
    integer: the ones delivered past the end mark the last digit. *)
Theorem de_int_terminates s fuel :
  wf_istream s -> (de_int_fuel s <= fuel)%nat ->
  exists s' v, de_int sz_init fuel s = Some (s', v).
Proof.
  intros Hs Hf. unfold de_int_fuel in Hf.
  apply (de_int_loop_terminates (length (i_rest s) / 4) s); [exact Hs| |exact Hf].
  pose proof (Nat.div_mod_eq (length (i_rest s)) 4).
  pose proof (Nat.mod_upper_bound (length (i_rest s)) 4). lia.
Qed.

(** [de_eof] answers true exactly when nothing is left to read, and the
    answer false leaves the stream as it was when the position is inside the
    buffer or the buffer is still unused. *)
Theorem de_eof_exact s :
  wf_istream s -> link (d_bs s) = None ->
  ((de_eof s).2 = true <-> i_rest s = []) /\
  (eof_safe s -> (de_eof s).2 = false ->
   wf_istream (de_eof s).1 /\ i_rest (de_eof s).1 = i_rest s).
Proof.
  intros Hs Hlk. unfold de_eof. rewrite Hlk.
  destruct (Nat.leb_spec (size (d_bs s)) (bytes (d_bs s))) as [E|E].
  2: { split; [|auto]. split; [discriminate|]. intros H. by apply rest_inside in H. }
  destruct (rest_at_end s Hs E) as [Hz Hrest]. rewrite Hrest, bytes_bits_nil.
  destruct (decide (d_in s = [])) as [Hn|Hn].
  - destruct (fill_bitstream_eof s Hn) as (s' & -> & _ & _ & _ & ->). cbn. split; [tauto|discriminate].
  - pose proof Hs as ((Ht & Hin & _) & _).
    destruct (fill_bitstream_spec s Ht Hin Hn) as (s' & sz & E' & Hwf & Hpos & Hat & Hlk').
    destruct (fill_position _ _ _ E') as (Hby & Hbi & Hsz). rewrite E', Hlk', Hlk. cbn [fst snd].
    split; [split; [discriminate|contradiction]|]. intros [Hsafe|Hsafe] _; [lia|].
    unfold wf_istream, i_rest. rewrite Hby, Hbi, Hz, Hsz, Hsafe, Hat.
    split; [split; [exact Hwf|split; [lia|congruence]]|reflexivity].
Qed.
End DecodeSpec.

(** ** Concrete instances *)

Definition demo_file (n : nat) : list Z := map (fun i => Z.of_nat i) (seq 0 n).

(** A reader as [start_bitstream] leaves it. *)
Definition open_istream (t : list Z) (l : list Z) : istream :=
  Istream (Bitstream t 0 0 0 (Some 0%nat) None) l.

Lemma open_istream_wf t l :
  wf_text t -> Forall is_byte l ->
  wf_istream (open_istream t l) /\ i_rest (open_istream t l) = bytes_bits l.
Proof.
  intros Ht Hl. split; [|reflexivity].
  split; [|cbn; split; [lia|congruence]]. split_and!; auto; cbn; lia.
Qed.

Definition demo_in : istream := open_istream (replicate CHUNK_SIZE 0) (demo_file 70).

Lemma demo_file_bytes n : (n <= 256)%nat -> Forall is_byte (demo_file n).
Proof.
  intros Hn. apply Forall_forall. intros x Hx. apply in_map_iff in Hx as (i & <- & Hi).
  apply in_seq in Hi. unfold is_byte. lia.
Qed.

Lemma demo_in_wf : wf_istream demo_in.
Proof.
  apply open_istream_wf; [|apply demo_file_bytes; lia].
  split; [reflexivity|]. apply Forall_replicate. unfold is_byte. lia.
Qed.


Lemma de_int_terminates_witness :
  exists s' v, de_int size 200 (open_istream (replicate CHUNK_SIZE 0) (replicate 50 0)) = Some (s', v).
Proof.
  apply (de_int_terminates size (fun _ => eq_refl)).
  - apply open_istream_wf; [split; [reflexivity|]|]; apply Forall_replicate; unfold is_byte; lia.
  - apply Nat.leb_le. vm_compute. reflexivity.
Defined.

Lemma de_eof_exact_witness :
  ((de_eof demo_in).2 = true <-> i_rest demo_in = []) /\
  (eof_safe demo_in -> (de_eof demo_in).2 = false ->
   wf_istream (de_eof demo_in).1 /\ i_rest (de_eof demo_in).1 = i_rest demo_in).
Proof. apply (de_eof_exact demo_in demo_in_wf). reflexivity. Defined.

(** ** Where the code departs from its contract *)

(** The test of the uninitialised [sz] matters: with a zero found there,
    the second of two reads refills the buffer and the byte it should have
    delivered is lost (the file holds 0, 1, 2, ... and the second byte reads as
    64). *)
Theorem de_bits_uninitialised :
  let s := (de_bits (fun _ => O) demo_in 8).1 in
  take 8 (i_rest s) = bits_of_Z 8 1 /\
  (de_bits size s 8).2 = 1 /\ (de_bits (fun _ => O) s 8).2 = 64.
Proof. vm_compute. auto. Qed.

(** Eight-bit reads, as many as [n]. *)
Fixpoint read_bytes (n : nat) (s : istream) : istream :=
  match n with
  | O => s
  | S n => read_bytes n (de_bits size s 8).1
  end.

(** [de_eof] refills the buffer without resetting the position in it:
    asked at the end of a full buffer with more of the file to come, it
    answers false, as it should, but the next byte is no longer the one that
    follows. *)
Theorem de_eof_loses_buffer :
  let s := read_bytes 64 demo_in in
  link (d_bs s) = None /\ (de_eof s).2 = false /\
  (de_bits size s 8).2 = 64 /\ (de_bits size (de_eof s).1 8).2 = 255.
Proof. vm_compute. auto. Qed.
