(* ===== verification/LibtdfRoundtrip.v ===== *)
(** * LibtdfRoundtrip: what libtdf writes it reads back

    A sequence of fields is written to a new file stream with the operations
    of libtdf/src/encode.c, the stream is ended, and the file is read with the
    operations of libtdf/src/decode.c in the same sequence. *)
From stdpp Require Import base list list_numbers gmap numbers.
From Stdlib Require Import ZArith Lia.
From S2P Require Import Prelude Codec LibtdfEncode LibtdfEncodeSpec LibtdfDecode.

Inductive field :=
| FBits (n : nat) (d : Z)
| FLong (n : nat) (d : Z)
| FInt (n : Z)
| FAlign.

Definition wf_field (f : field) : Prop :=
  match f with
  | FBits n d => (n <= 16)%nat /\ 0 <= d < 2 ^ Z.of_nat n
  | FLong n d => (n <= 32)%nat /\ 0 <= d < 2 ^ Z.of_nat n
  | FInt n => 0 <= n < 2 ^ 64
  | FAlign => True
  end.

(** The bits of a sequence of fields that starts at bit [pos] of the file. *)
Fixpoint fields_bits (pos : nat) (fs : list field) : list bool :=
  match fs with
  | [] => []
  | f :: fs =>
      let l := match f with
               | FBits n d | FLong n d => bits_of_Z n d
               | FInt n => tdfint_bits n
               | FAlign => pad_bits pos
               end in
      l ++ fields_bits (pos + length l) fs
  end.

Section Roundtrip.
Variable junk : nat -> Z.
Variable sz_init : BITSTREAM -> nat.
Hypothesis sz_init_size : forall bs, sz_init bs = size bs.

Definition write_field (s : world * stream) (f : field) : world * stream :=
  match f with
  | FBits n d => enc_bits junk s.1 s.2 n d
  | FLong n d => enc_long_bits junk s.1 s.2 n d
  | FInt n => enc_int junk s.1 s.2 n
  | FAlign => enc_boundary junk s.1 s.2
  end.

(** The whole file: open, write the fields, close. *)
Definition write_file (w : world) (f : nat) (fs : list field) : world :=
  let '(w, bs) := fold_left write_field fs (start_bitstream junk w (Some f) None) in
  end_bitstream junk w bs true.

(** Reading a field of the same kind; the value read replaces the one given. *)
Definition read_field (s : istream) (f : field) : option (istream * field) :=
  match f with
  | FBits n _ => let '(s, d) := de_bits sz_init s n in Some (s, FBits n d)
  | FLong n _ => let '(s, d) := de_long_bits sz_init s n in Some (s, FLong n d)
  | FInt _ => '(s, n) ← de_int sz_init (de_int_fuel s) s; Some (s, FInt n)
  | FAlign => Some (de_boundary sz_init s, FAlign)
  end.

Fixpoint read_fields (s : istream) (fs : list field) : option (list field) :=
  match fs with
  | [] => Some []
  | f :: fs => '(s, f) ← read_field s f; fs ← read_fields s fs; Some (f :: fs)
  end.

(** ** Writing *)

Lemma file_pad w bs f :
  head_file bs = Some f -> pad_bits (length (stream_bits w bs)) = pad_bits (length (chain_bits bs)).
Proof.
  intros Hf. destruct bs as [|c prev]; [discriminate|]. cbn in Hf.
  unfold stream_bits, file_bits. rewrite Hf, length_app. apply pad_bits_mod8.
  rewrite length_bytes_bits, Nat.mul_comm. apply Nat.Div0.mod_mul.
Qed.

Lemma write_fields_ok fs f s :
  wf s.1 s.2 -> head_file s.2 = Some f -> Forall wf_field fs ->
  appends s (fold_left write_field fs s)
    (fields_bits (length (stream_bits s.1 s.2)) fs).
Proof.
  intros Hwf Hf Hfs. revert s Hwf Hf. induction Hfs as [|x fs Hx Hfs IH]; intros s Hwf Hf.
  { apply appended_nil, Hwf. }
  cbn [fold_left fields_bits]. set (l := match x with FBits n d | FLong n d => _ | _ => _ end).
  assert (appends s (write_field s x) l) as H1.
  { destruct s as [w bs]. destruct x; cbn [write_field] in *; unfold l.
    - apply (enc_bits_appends junk (w, bs)); [exact Hwf|apply Hx|apply Hx].
    - apply enc_long_bits_appends; [exact Hwf|apply Hx|apply Hx].
    - apply enc_int_ok; [exact Hwf|apply Hx].
    - cbn [fst snd]. rewrite (file_pad w bs f) by exact Hf. by apply enc_boundary_ok. }
  eapply appended_trans; [exact H1|].
  destruct H1 as (Hwf1 & Hf1 & _ & Hb1). rewrite <- length_app, <- Hb1.
  apply IH; [exact Hwf1|congruence].
Qed.

(** ** Reading *)

(** The reader's odd bits are its position in the file modulo eight. *)
Definition at_pos (s : istream) (pos : nat) : Prop :=
  ((pos + length (i_rest s)) mod 8 = 0)%nat.

Lemma at_pos_bits s pos :
  wf_istream s -> at_pos s pos -> bits (d_bs s) = (pos mod 8)%nat.
Proof.
  intros Hs Hp. unfold at_pos in Hp. pose proof (odd_available s Hs).
  rewrite length_i_rest in Hp. destruct Hs as (_ & Hb & _).
  set (L := length _) in *. set (b := bits (d_bs s)) in *.
  pose proof (Nat.div_mod_eq (pos + (8 * L - b)) 8). rewrite Hp in *.
  pose proof (Nat.div_mod_eq pos 8). pose proof (Nat.mod_upper_bound pos 8). lia.
Qed.

Lemma read_align s pos rest :
  wf_istream s -> at_pos s pos -> i_rest s = pad_bits pos ++ rest ->
  wf_istream (de_boundary sz_init s) /\ i_rest (de_boundary sz_init s) = rest.
Proof.
  intros Hs Hp Hr. pose proof (at_pos_bits s pos Hs Hp) as Hb.
  unfold de_boundary. unfold pad_bits in Hr. pose proof (Nat.mod_upper_bound pos 8).
  destruct (Nat.eqb_spec (bits (d_bs s)) 0) as [E|E].
  - rewrite <- Hb, E in Hr. auto.
  - rewrite <- Hb, Nat.mod_small in Hr by lia.
    destruct (de_bits_ok sz_init sz_init_size s (BYTE_SIZE - bits (d_bs s)) Hs)
      as (s' & -> & Hs' & Hr' & _); [sizes| |].
    + rewrite Hr, length_app, length_replicate. sizes.
    + split; [exact Hs'|]. cbn [fst]. rewrite Hr', Hr, drop_app_le, drop_ge;
        rewrite ?length_replicate; auto; sizes.
Qed.

Lemma de_field s n v rest :
  wf_istream s -> (n <= 16)%nat -> 0 <= v < 2 ^ Z.of_nat n -> i_rest s = bits_of_Z n v ++ rest ->
  exists s', de_bits sz_init s n = (s', v) /\ wf_istream s' /\ i_rest s' = rest.
Proof.
  intros Hs Hn Hv Hr.
  destruct (rd_field (H := libtdf_reader sz_init sz_init_size) s n v rest Hs Hn Hv Hr)
    as (s' & E & Hs' & Hr'). cbn in E, Hs', Hr'.
  destruct (de_bits sz_init s n) as [s1 v1]. injection E as -> ->. eauto.
Qed.

Lemma de_long_field s n v rest :
  wf_istream s -> (n <= 32)%nat -> 0 <= v < 2 ^ Z.of_nat n -> i_rest s = bits_of_Z n v ++ rest ->
  exists s', de_long_bits sz_init s n = (s', v) /\ wf_istream s' /\ i_rest s' = rest.
Proof.
  intros Hs Hn Hv Hr. unfold de_long_bits. destruct (Nat.ltb_spec 16 n) as [H16|H16].
  2: { destruct (de_field s n v rest Hs H16 Hv Hr) as (s' & -> & ?). eauto. }
  replace n with ((n - 16) + 16)%nat in Hr by lia.
  rewrite bits_of_Z_add, <- app_assoc in Hr. change (Z.of_nat 16) with 16 in Hr.
  assert (v = v / 2 ^ 16 * 2 ^ 16 + v mod 2 ^ 16) as Ev by (rewrite Z.mul_comm; apply Z.div_mod; lia).
  assert (0 <= Z.shiftr v 16 < 2 ^ Z.of_nat (n - 16)) as Hs1.
  { rewrite Z.shiftr_div_pow2 by lia. split; [apply Z.div_pos; lia|].
    apply Z.div_lt_upper_bound; [lia|]. rewrite <- Z.pow_add_r by lia.
    replace (16 + Z.of_nat (n - 16)) with (Z.of_nat n) by lia. lia. }
  destruct (de_field s (n - 16) _ _ Hs ltac:(lia) Hs1 Hr) as (s1 & -> & Hs1' & Hr1).
  rewrite <- (bits_of_Z_mod 16 16) in Hr1 by lia. change (Z.of_nat 16) with 16 in Hr1.
  destruct (de_field s1 16 _ _ Hs1' ltac:(lia) (Z.mod_pos_bound v (2 ^ 16) ltac:(lia)) Hr1)
    as (s2 & -> & Hs2 & Hr2).
  exists s2. split_and!; auto. f_equal.
  assert (0 <= Z.shiftl (Z.shiftr v 16) 16 < 2 ^ (Z.of_nat (n - 16) + 16)) as Hb
    by (apply shiftl_bound; lia).
  assert (2 ^ (Z.of_nat (n - 16) + 16) <= 2 ^ 32) by (apply Z.pow_le_mono_r; lia).
  rewrite u64_small, lor_shiftl, Z.shiftr_div_pow2 by (try apply Z.mod_pos_bound; lia). lia.
Qed.

Lemma read_field_ok s x pos rest :
  wf_istream s -> wf_field x -> at_pos s pos ->
  i_rest s = match x with
             | FBits n d | FLong n d => bits_of_Z n d
             | FInt n => tdfint_bits n
             | FAlign => pad_bits pos
             end ++ rest ->
  exists s', read_field s x = Some (s', x) /\ wf_istream s' /\ i_rest s' = rest.
Proof.
  intros Hs Hx Hp Hr. destruct x; cbn [read_field wf_field] in *.
  - destruct (de_field s n d rest) as (s' & -> & ?); try tauto. eauto.
  - destruct (de_long_field s n d rest) as (s' & -> & ?); try tauto. eauto.
  - destruct (de_int_ok sz_init sz_init_size (de_int_fuel s) s n rest) as (s' & -> & ?); auto.
    + lia.
    + unfold de_int_fuel. rewrite Hr, length_app. unfold tdfint_bits.
      rewrite octal_digits_eq by lia. unfold tdfint_nibbles.
      rewrite length_nibble_bits, !length_app. cbn [length].
      pose proof (Nat.div_mod_eq (4 * (length (octal_init n) + 1) + length rest) 4).
      pose proof (Nat.mod_upper_bound (4 * (length (octal_init n) + 1) + length rest) 4). lia.
    + exists s'. rewrite u64_small by lia. auto.
  - destruct (read_align s pos rest Hs Hp Hr) as [? ?]. eauto.
Qed.

Lemma read_fields_ok fs pos s rest :
  Forall wf_field fs -> wf_istream s -> at_pos s pos ->
  i_rest s = fields_bits pos fs ++ rest -> read_fields s fs = Some fs.
Proof.
  intros Hfs. revert pos s. induction Hfs as [|x fs Hx Hfs IH]; intros pos s Hs Hp Hr; [reflexivity|].
  cbn [fields_bits] in Hr. set (l := match x with FBits n d | FLong n d => _ | _ => _ end) in Hr.
  rewrite <- app_assoc in Hr. cbn [read_fields].
  destruct (read_field_ok s x pos _ Hs Hx Hp Hr) as (s' & -> & Hs' & Hr'). cbn.
  rewrite (IH (pos + length l)%nat s'); [reflexivity|exact Hs'| |exact Hr'].
  unfold at_pos in *. rewrite Hr' , <- Nat.add_assoc, <- length_app, <- Hr. exact Hp.
Qed.

(** The bytes of the file: the fields, padded. *)
Lemma write_file_contents w f fs :
  wf_world w -> files w !! f = None -> Forall wf_field fs ->
  let contents := default [] (files (write_file w f fs) !! f) in
  Forall is_byte contents /\
  bytes_bits contents = fields_bits 0 fs ++ pad_bits (length (fields_bits 0 fs)).
Proof.
  intros Hw Hf Hfs. unfold write_file.
  destruct (start_bitstream_wf junk w (Some f) None Hw)
    as (w0 & c & -> & Hwf & Hfl & Hfc & _ & Hcb & _).
  assert (head_file [c] = Some f) as Hhf by exact Hfc.
  assert (stream_bits w0 [c] = []) as Hempty.
  { unfold stream_bits, file_bits. rewrite Hfc, Hfl, Hf. cbn. exact Hcb. }
  pose proof (write_fields_ok fs f (w0, [c]) Hwf Hhf Hfs) as H1.
  destruct (fold_left write_field fs (w0, [c])) as [w1 bs1].
  destruct H1 as (Hwf1 & Hf1 & _ & Hb1). cbn [fst snd] in *. rewrite Hempty in Hb1. cbn in Hb1.
  destruct (end_flushes junk w1 bs1 f Hwf1 ltac:(congruence)) as (Hfile & _ & Hw').
  rewrite Hb1 in Hfile. cbn zeta. set (w' := end_bitstream junk w1 bs1 true) in *.
  split; [|exact Hfile].
  destruct (files w' !! f) eqn:E; [exact (proj2 Hw' _ _ E)|constructor].
Qed.

End Roundtrip.

