(* ===== verification/ExdsString.v ===== *)
(** * ExdsString: the strings of libexds

    Models libexds/src/dstring.c (counted strings [NStringT] and growing
    strings [DStringT]), cstring.c and syntax.c. Characters are bytes, 0 to
    255; where the source promotes a [char], which is signed on the hosts, the
    conversion is written out ([schar]). A C string is the list of its
    characters before the terminating NUL, so that reading past it gives 0.
    Memory fresh from the allocator holds [junk]. *)
From stdpp Require Import base list list_numbers numbers.
From Stdlib Require Import ZArith Lia.
From S2P Require Import Prelude.

Definition schar (c : Z) : Z := swrap 8 c.
Definition SYNTAX_NO_VALUE : Z := -1.

(** Character constants. *)
Definition ch_0 : Z := 48.
Definition ch_9 : Z := 57.
Definition ch_A : Z := 65.
Definition ch_Z : Z := 90.
Definition ch_a : Z := 97.
Definition ch_z : Z := 122.

Definition syntax_value (c : Z) : Z :=
  let c := schar c in
  if (ch_0 <=? c) && (c <=? ch_9) then c - ch_0
  else if (ch_A <=? c) && (c <=? ch_Z) then c - ch_A + 10
  else if (ch_a <=? c) && (c <=? ch_z) then c - ch_a + 10
  else SYNTAX_NO_VALUE.

(** [toupper] of the C locale. *)
Definition toupper (c : Z) : Z :=
  if (ch_a <=? c) && (c <=? ch_z) then c - 32 else c.

Inductive CmpT := CMP_LT | CMP_EQ | CMP_GT.

Record NStringT := NString { n_length : nat; n_contents : list Z }.

Record DStringT := DString { d_length : nat; max_length : nat; d_contents : list Z }.

Definition DSTRING_CHUNK_SIZE : nat := 32.

(** [memcpy(dst + at, src, n)]. *)
Definition memcpy_at (dst : list Z) (at' : nat) (src : list Z) (n : nat) : list Z :=
  take at' dst ++ take n src ++ drop (at' + n) dst.

(** [memcmp]: the sign of the first difference among [n] bytes. *)
Fixpoint memcmp (l1 l2 : list Z) (n : nat) : Z :=
  match n, l1, l2 with
  | S n, a :: l1, b :: l2 => if a =? b then memcmp l1 l2 n else a - b
  | _, _, _ => 0
  end.

Section Strings.
Variable junk : nat -> Z.

Definition ALLOCATE_VECTOR (n : nat) : list Z := map (fun i => u8 (junk i)) (seq 0 n).

(** ** nstrings *)

Definition nstring_init : NStringT := NString 0 [].

Definition nstring_init_length (length : nat) : NStringT :=
  NString length (ALLOCATE_VECTOR length).

Definition nstring_length (s : NStringT) : nat := n_length s.
Definition nstring_contents (s : NStringT) : list Z := n_contents s.

Definition nstring_assign (from : NStringT) : NStringT :=
  NString (nstring_length from) (n_contents from).

(** The allocation and copy shared by the copying functions. *)
Definition copy_chars (src : list Z) (n : nat) : NStringT :=
  if (0 <? n)%nat then NString n (memcpy_at (ALLOCATE_VECTOR n) 0 src n) else NString 0 [].

Definition nstring_copy_cstring (cstring : list Z) : NStringT :=
  copy_chars cstring (length cstring).

Definition nstring_insert_cstring (s : NStringT) (cstring : list Z) : NStringT :=
  let n := nstring_length s in
  if (0 <? n)%nat then NString (n_length s) (memcpy_at (n_contents s) 0 cstring n) else s.

Definition nstring_copy (from : NStringT) : NStringT :=
  copy_chars (n_contents from) (nstring_length from).

(** The array returned, its NUL included. *)
Definition nstring_to_cstring (s : NStringT) : list Z :=
  let n := nstring_length s in
  let tmp := ALLOCATE_VECTOR (n + 1) in
  let tmp := if (0 <? n)%nat then memcpy_at tmp 0 (n_contents s) n else tmp in
  <[n := 0]> tmp.

Fixpoint nstring_hash_loop (n : nat) (contents : list Z) (value : Z) : Z :=
  match n, contents with
  | S n, c :: contents => nstring_hash_loop n contents (u32 (value + u32 (schar c)))
  | _, _ => value
  end.

Definition nstring_hash_value (s : NStringT) : Z :=
  nstring_hash_loop (nstring_length s) (n_contents s) 0.

Definition nstring_compare (s1 s2 : NStringT) : CmpT :=
  let n := nstring_length s1 in
  let n := if (nstring_length s2 <? n)%nat then nstring_length s2 else n in
  let status := memcmp (n_contents s1) (n_contents s2) n in
  if status <? 0 then CMP_LT
  else if 0 <? status then CMP_GT
  else if (nstring_length s1 <? nstring_length s2)%nat then CMP_LT
  else if (nstring_length s2 <? nstring_length s1)%nat then CMP_GT
  else CMP_EQ.

Definition nstring_equal (s1 s2 : NStringT) : bool :=
  let n := nstring_length s1 in
  (n =? nstring_length s2)%nat && (memcmp (n_contents s1) (n_contents s2) n =? 0).

Fixpoint nstring_ci_loop (n : nat) (t1 t2 : list Z) : bool :=
  match n, t1, t2 with
  | O, _, _ => true
  | S n, c1 :: t1, c2 :: t2 =>
      if schar (toupper c1) =? schar (toupper c2) then nstring_ci_loop n t1 t2 else false
  | _, _, _ => false
  end.

Definition nstring_ci_equal (s1 s2 : NStringT) : bool :=
  let n := nstring_length s1 in
  if (n =? nstring_length s2)%nat
  then nstring_ci_loop n (n_contents s1) (n_contents s2)
  else false.

(** [memchr] over the first [n] bytes. *)
Definition memchr (l : list Z) (c : Z) (n : nat) : bool := existsb (Z.eqb (u8 c)) (take n l).

Definition nstring_contains (s : NStringT) (c : Z) : bool :=
  memchr (nstring_contents s) c (nstring_length s).

Definition nstring_is_prefix (s1 s2 : NStringT) : bool :=
  let n := nstring_length s2 in
  (n <? nstring_length s1)%nat &&
  (memcmp (nstring_contents s1) (nstring_contents s2) n =? 0).

(** ** dstrings *)

Definition dstring_init : DStringT :=
  DString 0 DSTRING_CHUNK_SIZE (ALLOCATE_VECTOR DSTRING_CHUNK_SIZE).

Definition dstring_length (d : DStringT) : nat := d_length d.

Definition dstring_assign (from : DStringT) : DStringT :=
  DString (dstring_length from) (max_length from) (d_contents from).

(** A buffer of the new capacity with the old contents. *)
Definition dstring_grow (d : DStringT) (max : nat) : DStringT :=
  DString (d_length d) max (memcpy_at (ALLOCATE_VECTOR max) 0 (d_contents d) (d_length d)).

Definition dstring_append_char (d : DStringT) (c : Z) : DStringT :=
  let d := if (max_length d <=? d_length d)%nat
           then dstring_grow d (max_length d + DSTRING_CHUNK_SIZE)
           else d in
  DString (S (d_length d)) (max_length d) (<[d_length d := c]> (d_contents d)).

(** [while (max_length < length) max_length += DSTRING_CHUNK_SIZE]; [length]
    rounds are enough. *)
Fixpoint grow_to (fuel max len : nat) : nat :=
  match fuel with
  | O => max
  | S fuel => if (max <? len)%nat then grow_to fuel (max + DSTRING_CHUNK_SIZE) len else max
  end.

Definition dstring_append (d : DStringT) (src : list Z) (n : nat) : DStringT :=
  let len := (n + d_length d)%nat in
  let d := if (max_length d <? len)%nat
           then dstring_grow d (grow_to len (max_length d) len)
           else d in
  DString len (max_length d) (memcpy_at (d_contents d) (d_length d) src n).

Definition dstring_append_cstring (d : DStringT) (cstring : list Z) : DStringT :=
  dstring_append d cstring (length cstring).

Definition dstring_append_nstring (d : DStringT) (s : NStringT) : DStringT :=
  dstring_append d (nstring_contents s) (nstring_length s).

Definition dstring_last_char_equal (d : DStringT) (c : Z) : bool :=
  negb (d_length d =? 0)%nat && (d_contents d !!! (d_length d - 1)%nat =? c).

Definition dstring_to_nstring (d : DStringT) : NStringT := copy_chars (d_contents d) (d_length d).

Definition dstring_to_cstring (d : DStringT) : list Z :=
  let tmp := ALLOCATE_VECTOR (d_length d + 1) in
  let tmp := if (0 <? d_length d)%nat then memcpy_at tmp 0 (d_contents d) (d_length d) else tmp in
  <[d_length d := 0]> tmp.

Definition dstring_destroy_to_cstring (d : DStringT) : DStringT * list Z :=
  let tmp :=
    if (max_length d <=? d_length d)%nat
    then memcpy_at (ALLOCATE_VECTOR (d_length d + 1)) 0 (d_contents d) (d_length d)
    else d_contents d in
  (DString 0 0 [], <[d_length d := 0]> tmp).

(** ** C strings *)

Definition cstring_duplicate_prefix (cstring : list Z) (prefix : nat) : list Z :=
  if (length cstring <=? prefix)%nat
  then memcpy_at (ALLOCATE_VECTOR (length cstring + 1)) 0 (cstring ++ [0]) (length cstring + 1)
  else <[prefix := 0]> (memcpy_at (ALLOCATE_VECTOR (prefix + 1)) 0 cstring prefix).

Fixpoint cstring_hash_loop (cstring : list Z) (value : Z) : Z :=
  match cstring with
  | [] => value
  | c :: cstring => cstring_hash_loop cstring (u32 (value + u32 (schar c)))
  end.

Definition cstring_hash_value (cstring : list Z) : Z := cstring_hash_loop cstring 0.

(** The characters read past the end are the NULs. *)
Fixpoint cstring_ci_equal (s1 s2 : list Z) : bool :=
  match s1, s2 with
  | [], [] => true
  | [], c :: _ | c :: _, [] => schar (toupper c) =? 0
  | c1 :: s1, c2 :: s2 =>
      let c1 := schar (toupper c1) in
      let c2 := schar (toupper c2) in
      if negb (c1 =? 0) && negb (c2 =? 0) && (c1 =? c2) then cstring_ci_equal s1 s2
      else c1 =? c2
  end.

Fixpoint cstring_to_unsigned_loop (cstring : list Z) (number : Z) : option Z :=
  match cstring with
  | [] => Some number
  | c :: cstring =>
      let value := syntax_value c in
      if (value =? SYNTAX_NO_VALUE) || (10 <=? value) ||
         ((UINT_MAX - value) / 10 <? number)
      then None
      else cstring_to_unsigned_loop cstring (u32 (u32 (number * 10) + value))
  end.

Definition cstring_to_unsigned (cstring : list Z) : option Z :=
  match cstring with
  | [] => None
  | _ => cstring_to_unsigned_loop cstring 0
  end.

Definition cstring_starts (cstring s : list Z) : bool :=
  bool_decide (take (length s) cstring = s).

(** The suffix after the last slash. *)
Fixpoint after_last (c : Z) (s : list Z) : option (list Z) :=
  match s with
  | [] => None
  | x :: s' =>
      match after_last c s' with
      | Some r => Some r
      | None => if x =? c then Some s' else None
      end
  end.

Definition cstring_find_basename (cstring : list Z) : list Z :=
  default cstring (after_last 47 cstring).
End Strings.

(** ** Counted strings *)

Definition wf_nstring (s : NStringT) : Prop :=
  length (n_contents s) = n_length s /\ Forall is_byte (n_contents s).

#[export] Instance wf_nstring_dec s : Decision (wf_nstring s).
Proof. unfold wf_nstring. apply _. Defined.

(** Lexicographic order on bytes, the specification of [nstring_compare]. *)
Fixpoint lex_compare (l1 l2 : list Z) : CmpT :=
  match l1, l2 with
  | [], [] => CMP_EQ
  | [], _ => CMP_LT
  | _, [] => CMP_GT
  | a :: l1, b :: l2 =>
      if a <? b then CMP_LT else if b <? a then CMP_GT else lex_compare l1 l2
  end.

Lemma memcmp_eq l1 l2 n :
  (n <= length l1)%nat -> (n <= length l2)%nat ->
  memcmp l1 l2 n = 0 <-> take n l1 = take n l2.
Proof.
  revert l1 l2. induction n as [|n IH]; intros [|a l1] [|b l2] H1 H2; cbn in *; try lia; try tauto.
  destruct (Z.eqb_spec a b) as [->|Hne].
  - rewrite IH by lia. split; congruence.
  - split; [lia|]. intros [= ? _]. congruence.
Qed.

Lemma nstring_eta s1 s2 :
  wf_nstring s1 -> wf_nstring s2 -> n_contents s1 = n_contents s2 -> s1 = s2.
Proof. destruct s1, s2. unfold wf_nstring. cbn. intros [<- _] [<- _] ->. reflexivity. Qed.

Lemma nstring_equal_iff s1 s2 :
  wf_nstring s1 -> wf_nstring s2 -> nstring_equal s1 s2 = true <-> s1 = s2.
Proof.
  intros H1 H2. unfold nstring_equal, nstring_length. pose proof H1 as [E1 _]. pose proof H2 as [E2 _].
  rewrite andb_true_iff, Nat.eqb_eq, Z.eqb_eq. split.
  - intros [El Em]. rewrite memcmp_eq in Em by lia. rewrite !take_ge in Em by lia.
    by apply nstring_eta.
  - intros ->. split; [reflexivity|]. apply memcmp_eq; lia || reflexivity.
Qed.

Lemma lex_compare_memcmp l1 l2 :
  lex_compare l1 l2
  = let status := memcmp l1 l2 (length l1 `min` length l2) in
    if status <? 0 then CMP_LT
    else if 0 <? status then CMP_GT
    else if (length l1 <? length l2)%nat then CMP_LT
    else if (length l2 <? length l1)%nat then CMP_GT
    else CMP_EQ.
Proof.
  revert l2. induction l1 as [|a l1 IH]; intros [|b l2]; try reflexivity.
  cbn [lex_compare length Nat.min memcmp]. cbn zeta in IH |- *.
  destruct (Z.eqb_spec a b) as [->|Hne].
  - rewrite Z.ltb_irrefl, IH. reflexivity.
  - destruct (Z.ltb_spec a b), (Z.ltb_spec (a - b) 0); try lia; [reflexivity|].
    destruct (Z.ltb_spec b a), (Z.ltb_spec 0 (a - b)); try lia. reflexivity.
Qed.

(** [nstring_compare] is the lexicographic order on the bytes of the two
    strings, a proper prefix being smaller. *)
Theorem nstring_compare_lex s1 s2 :
  wf_nstring s1 -> wf_nstring s2 ->
  nstring_compare s1 s2 = lex_compare (n_contents s1) (n_contents s2).
Proof.
  intros [E1 _] [E2 _]. rewrite lex_compare_memcmp, E1, E2. unfold nstring_compare, nstring_length.
  destruct (Nat.ltb_spec (n_length s2) (n_length s1)); [rewrite Nat.min_r by lia|rewrite Nat.min_l by lia];
    reflexivity.
Qed.

Lemma schar_inj a b : is_byte a -> is_byte b -> schar a = schar b -> a = b.
Proof.
  unfold is_byte, schar, swrap. intros Ha Hb. change (2 ^ (8 - 1)) with 128. change (2 ^ 8) with 256.
  Z.div_mod_to_equations. lia.
Qed.

Lemma toupper_byte c : is_byte c -> is_byte (toupper c).
Proof.
  unfold is_byte, toupper, ch_a, ch_z. intros H.
  destruct (Z.leb_spec 97 c), (Z.leb_spec c 122); cbn [andb]; lia.
Qed.

Lemma nstring_ci_loop_iff n l1 l2 :
  (n <= length l1)%nat -> (n <= length l2)%nat -> Forall is_byte l1 -> Forall is_byte l2 ->
  nstring_ci_loop n l1 l2 = true <-> map toupper (take n l1) = map toupper (take n l2).
Proof.
  revert l1 l2. induction n as [|n IH]; intros [|a l1] [|b l2] H1 H2 F1 F2; cbn in *; try lia; try tauto.
  inversion F1; inversion F2; subst.
  assert (schar (toupper a) = schar (toupper b) <-> toupper a = toupper b) as Hs.
  { split; [|congruence]. apply schar_inj; by apply toupper_byte. }
  destruct (Z.eqb_spec (schar (toupper a)) (schar (toupper b))) as [E|E].
  - rewrite IH by (auto; lia). apply Hs in E. split; [congruence|intros [= ?]; auto].
  - split; [discriminate|]. intros [= Ha _]. tauto.
Qed.

Lemma nstring_ci_equal_iff s1 s2 :
  wf_nstring s1 -> wf_nstring s2 ->
  nstring_ci_equal s1 s2 = true <->
  map toupper (n_contents s1) = map toupper (n_contents s2).
Proof.
  intros [E1 F1] [E2 F2]. unfold nstring_ci_equal, nstring_length.
  destruct (Nat.eqb_spec (n_length s1) (n_length s2)) as [E|E].
  - rewrite nstring_ci_loop_iff by (auto; lia). rewrite !take_ge by lia. reflexivity.
  - split; [discriminate|]. intros H. apply (f_equal length) in H. rewrite !length_map in H. lia.
Qed.

(** ** Growing strings *)

Definition wf_dstring (d : DStringT) : Prop :=
  length (d_contents d) = max_length d /\ (d_length d <= max_length d)%nat.

(** The string built so far. *)
Definition d_str (d : DStringT) : list Z := take (d_length d) (d_contents d).

Section DString.
Variable junk : nat -> Z.

Lemma length_ALLOCATE n : length (ALLOCATE_VECTOR junk n) = n.
Proof. unfold ALLOCATE_VECTOR. rewrite length_map, length_seq. reflexivity. Qed.

Lemma length_memcpy dst at' src n :
  (n <= length src)%nat -> (at' + n <= length dst)%nat ->
  length (memcpy_at dst at' src n) = length dst.
Proof.
  intros H1 H2. unfold memcpy_at. rewrite !length_app, !length_take, length_drop. lia.
Qed.

Lemma take_memcpy dst at' src n :
  (n <= length src)%nat -> (at' + n <= length dst)%nat ->
  take (at' + n) (memcpy_at dst at' src n) = take at' dst ++ take n src.
Proof.
  intros H1 H2. unfold memcpy_at. rewrite app_assoc.
  rewrite take_app_le by (rewrite length_app, !length_take; lia).
  apply take_ge. rewrite length_app, !length_take. lia.
Qed.

Lemma copy_chars_ok src n :
  (n <= length src)%nat -> copy_chars junk src n = NString n (take n src).
Proof.
  intros H. unfold copy_chars. destruct (Nat.ltb_spec 0 n) as [E|E].
  - f_equal. unfold memcpy_at. rewrite drop_ge by (rewrite length_ALLOCATE; lia).
    rewrite app_nil_r. reflexivity.
  - replace n with O by lia. reflexivity.
Qed.

Lemma dstring_init_ok : wf_dstring (dstring_init junk) /\ d_str (dstring_init junk) = [].
Proof. split; [split; [apply length_ALLOCATE|cbn; lia]|reflexivity]. Qed.

Lemma dstring_grow_ok d max :
  wf_dstring d -> (d_length d <= max)%nat ->
  wf_dstring (dstring_grow junk d max) /\ d_str (dstring_grow junk d max) = d_str d /\
  d_length (dstring_grow junk d max) = d_length d /\ max_length (dstring_grow junk d max) = max.
Proof.
  intros [Hl Hle] Hmax. unfold dstring_grow, wf_dstring, d_str. cbn [d_length max_length d_contents].
  rewrite length_memcpy by (rewrite ?length_ALLOCATE; lia). rewrite length_ALLOCATE.
  split_and!; auto. apply (take_memcpy _ 0); rewrite ?length_ALLOCATE; lia.
Qed.

Lemma dstring_append_char_ok d c :
  wf_dstring d ->
  wf_dstring (dstring_append_char junk d c) /\ d_str (dstring_append_char junk d c) = d_str d ++ [c].
Proof.
  intros Hwf. unfold dstring_append_char.
  set (d1 := if (max_length d <=? d_length d)%nat then _ else _).
  assert (wf_dstring d1 /\ d_str d1 = d_str d /\ (d_length d1 < max_length d1)%nat) as (H1 & <- & Hlt).
  { unfold d1. destruct (Nat.leb_spec (max_length d) (d_length d)) as [E|E]; [|auto].
    pose proof Hwf as [_ Hle]. unfold DSTRING_CHUNK_SIZE.
    destruct (dstring_grow_ok d (max_length d + 32) Hwf) as (? & ? & -> & ->); [lia|].
    split_and!; auto. lia. }
  destruct H1 as [Hl Hle]. unfold wf_dstring, d_str. cbn [d_length max_length d_contents].
  rewrite length_insert. split; [lia|]. rewrite (take_S_r _ _ c).
  - rewrite take_insert_ge by lia. reflexivity.
  - apply list_lookup_insert_eq. lia.
Qed.

Lemma grow_to_ge fuel max len :
  (len <= max + fuel)%nat -> (max <= grow_to fuel max len)%nat /\ (len <= grow_to fuel max len)%nat.
Proof.
  revert max. induction fuel as [|fuel IH]; intros max H; cbn [grow_to]; [lia|].
  destruct (Nat.ltb_spec max len) as [E|E]; [|lia].
  unfold DSTRING_CHUNK_SIZE. specialize (IH (max + 32)%nat ltac:(lia)). lia.
Qed.

Lemma dstring_append_ok d src n :
  wf_dstring d -> (n <= length src)%nat ->
  wf_dstring (dstring_append junk d src n) /\
  d_str (dstring_append junk d src n) = d_str d ++ take n src.
Proof.
  intros Hwf Hn. unfold dstring_append.
  set (d1 := if (max_length d <? n + d_length d)%nat then _ else _).
  assert (wf_dstring d1 /\ d_str d1 = d_str d /\ d_length d1 = d_length d /\
    (n + d_length d <= max_length d1)%nat) as (H1 & <- & Hlen & Hroom).
  { unfold d1. destruct (Nat.ltb_spec (max_length d) (n + d_length d)) as [E|E]; [|auto].
    pose proof (grow_to_ge (n + d_length d) (max_length d) (n + d_length d) ltac:(lia)).
    destruct (dstring_grow_ok d (grow_to (n + d_length d) (max_length d) (n + d_length d)) Hwf)
      as (? & ? & ? & ->); [lia|]. split_and!; auto. lia. }
  destruct H1 as [Hl Hle]. unfold wf_dstring, d_str. cbn [d_length max_length d_contents].
  rewrite length_memcpy by lia. split; [lia|].
  rewrite (Nat.add_comm n), <- Hlen. apply take_memcpy; lia.
Qed.

Lemma dstring_to_nstring_ok d :
  wf_dstring d -> dstring_to_nstring junk d = NString (d_length d) (d_str d).
Proof. intros [Hl Hle]. apply copy_chars_ok. lia. Qed.

Lemma terminate tmp n :
  (n < length tmp)%nat -> take (S n) (<[n := 0]> tmp) = take n tmp ++ [0].
Proof.
  intros H. rewrite (take_S_r _ _ 0) by (apply list_lookup_insert_eq; lia).
  rewrite take_insert_ge by lia. reflexivity.
Qed.

(** The C strings made of a dstring: [d_str] and a NUL inside the array. *)
Lemma dstring_to_cstring_ok d :
  wf_dstring d -> dstring_to_cstring junk d = d_str d ++ [0].
Proof.
  intros [Hl Hle]. unfold dstring_to_cstring, d_str.
  set (tmp := if (0 <? d_length d)%nat then _ else _).
  assert (length tmp = d_length d + 1 /\ take (d_length d) tmp = take (d_length d) (d_contents d))%nat
    as [Ht Htake].
  { unfold tmp. destruct (Nat.ltb_spec 0 (d_length d)) as [E|E].
    - rewrite length_memcpy by (rewrite ?length_ALLOCATE; lia). rewrite length_ALLOCATE.
      split; [reflexivity|]. apply (take_memcpy _ 0); rewrite ?length_ALLOCATE; lia.
    - replace (d_length d) with O by lia. split; [apply length_ALLOCATE|reflexivity]. }
  rewrite <- Htake, <- terminate by lia. symmetry. apply take_ge. rewrite length_insert. lia.
Qed.

Lemma dstring_destroy_to_cstring_ok d :
  wf_dstring d ->
  (d_length d < length (dstring_destroy_to_cstring junk d).2)%nat /\
  take (S (d_length d)) (dstring_destroy_to_cstring junk d).2 = d_str d ++ [0].
Proof.
  intros [Hl Hle]. unfold dstring_destroy_to_cstring, d_str. cbn [snd]. rewrite length_insert.
  destruct (Nat.leb_spec (max_length d) (d_length d)) as [E|E].
  - rewrite length_memcpy, length_ALLOCATE by (rewrite ?length_ALLOCATE; lia). split; [lia|].
    rewrite terminate by (rewrite length_memcpy; rewrite ?length_ALLOCATE; lia).
    f_equal. apply (take_memcpy _ 0); rewrite ?length_ALLOCATE; lia.
  - split; [lia|]. apply terminate. lia.
Qed.

(** The ways a string is built. *)
Inductive build_op :=
| BChar (c : Z)
| BCstring (s : list Z)
| BNstring (s : NStringT).

Definition build_step (d : DStringT) (op : build_op) : DStringT :=
  match op with
  | BChar c => dstring_append_char junk d c
  | BCstring s => dstring_append_cstring junk d s
  | BNstring s => dstring_append_nstring junk d s
  end.

Definition op_chars (op : build_op) : list Z :=
  match op with
  | BChar c => [c]
  | BCstring s => s
  | BNstring s => n_contents s
  end.

Definition op_ok (op : build_op) : Prop :=
  match op with BNstring s => wf_nstring s | _ => True end.

Lemma build_steps_ok ops d :
  wf_dstring d -> Forall op_ok ops ->
  wf_dstring (fold_left build_step ops d) /\
  d_str (fold_left build_step ops d) = d_str d ++ flat_map op_chars ops.
Proof.
  intros Hd Hops. revert d Hd. induction Hops as [|op ops Hop Hops IH]; intros d Hd.
  - cbn. rewrite app_nil_r. auto.
  - cbn [fold_left flat_map]. rewrite app_assoc.
    assert (wf_dstring (build_step d op) /\ d_str (build_step d op) = d_str d ++ op_chars op)
      as [H1 <-]; [|by apply IH].
    destruct op as [c|s|s]; cbn [build_step op_chars].
    + by apply dstring_append_char_ok.
    + rewrite <- (take_ge s (length s)) at 3 by lia. apply dstring_append_ok; auto.
    + destruct Hop as [El _]. unfold dstring_append_nstring, nstring_length, nstring_contents.
      rewrite <- (take_ge (n_contents s) (n_length s)) at 3 by lia. apply dstring_append_ok; auto. lia.
Qed.

(** C38: a dstring holds exactly what was appended to it, whatever the
    sequence of characters, C strings and nstrings and however often the
    buffer grew; its conversions give that string, the terminating NUL
    always inside the array returned. *)
Theorem dstring_builds ops :
  Forall op_ok ops ->
  let d := fold_left build_step ops (dstring_init junk) in
  let s := flat_map op_chars ops in
  wf_dstring d /\
  dstring_to_nstring junk d = NString (length s) s /\
  dstring_to_cstring junk d = s ++ [0] /\
  take (S (length s)) (dstring_destroy_to_cstring junk d).2 = s ++ [0] /\
  (length s < length (dstring_destroy_to_cstring junk d).2)%nat.
Proof.
  intros Hops. cbn zeta. destruct dstring_init_ok as [H0 E0].
  destruct (build_steps_ok ops _ H0 Hops) as [H1 E1]. rewrite E0 in E1. cbn [app] in E1.
  set (d := fold_left build_step ops _) in *.
  assert (length (d_str d) = d_length d) as Hlen.
  { unfold d_str. rewrite length_take. destruct H1. lia. }
  rewrite <- E1, Hlen. destruct (dstring_destroy_to_cstring_ok d H1).
  split_and!; auto using dstring_to_nstring_ok, dstring_to_cstring_ok.
Qed.
End DString.

Lemma dstring_builds_witness :
  let ops := [BCstring (replicate 40 65); BChar 66; BNstring (NString 2 [67; 68])] in
  let d := fold_left (build_step (fun _ => 0)) ops (dstring_init (fun _ => 0)) in
  dstring_to_nstring (fun _ => 0) d = NString 43 (flat_map op_chars ops) /\ max_length d = 64%nat.
Proof.
  split; [|reflexivity].
  apply (dstring_builds (fun _ => 0) [BCstring (replicate 40 65); BChar 66; BNstring (NString 2 [67; 68])]).
  repeat constructor; cbn; discriminate.
Defined.

Lemma nstring_compare_lex_witness :
  nstring_compare (NString 2 [65; 200]) (NString 3 [65; 66; 67]) = CMP_GT.
Proof.
  rewrite (nstring_compare_lex (NString 2 [65; 200]) (NString 3 [65; 66; 67]));
    [reflexivity| |]; (split; [reflexivity|]); repeat constructor; cbn; discriminate.
Defined.

(** ** Decimal numbers *)

Definition is_decimal (c : Z) : Prop := ch_0 <= c <= ch_9.
Definition decimal_value (s : list Z) : Z := fold_left (fun a c => 10 * a + (c - ch_0)) s 0.

Lemma syntax_value_decimal c :
  is_byte c -> (syntax_value c =? SYNTAX_NO_VALUE) || (10 <=? syntax_value c) = false <-> is_decimal c.
Proof.
  unfold is_byte, is_decimal, syntax_value, schar, swrap, SYNTAX_NO_VALUE, ch_0, ch_9, ch_A, ch_Z, ch_a, ch_z.
  intros Hc. change (2 ^ (8 - 1)) with 128. change (2 ^ 8) with 256.
  set (v := (c + 128) mod 256 - 128).
  assert ((c < 128 /\ v = c) \/ (128 <= c /\ v < 0)) as Hv
    by (unfold v; Z.div_mod_to_equations; lia).
  rewrite orb_false_iff, Z.eqb_neq, Z.leb_gt.
  repeat match goal with |- context [?a <=? ?b] => destruct (Z.leb_spec a b) end; cbn [andb]; lia.
Qed.

Lemma syntax_value_digit c : is_decimal c -> syntax_value c = c - ch_0.
Proof.
  unfold is_decimal, syntax_value, schar, swrap, ch_0, ch_9. intros Hc.
  change (2 ^ (8 - 1)) with 128. change (2 ^ 8) with 256.
  rewrite Z.mod_small by lia. replace (c + 128 - 128) with c by lia.
  destruct (Z.leb_spec 48 c), (Z.leb_spec c 57); cbn [andb]; lia.
Qed.

Lemma decimal_fold_ge s a : Forall is_decimal s -> 0 <= a ->
  a <= fold_left (fun a c => 10 * a + (c - ch_0)) s a.
Proof.
  intros Hs. revert a. induction Hs as [|c s Hc Hs IH]; intros a Ha; cbn; [lia|].
  unfold is_decimal in Hc. specialize (IH (10 * a + (c - ch_0)) ltac:(lia)). lia.
Qed.

Lemma cstring_to_unsigned_loop_ok s a v :
  Forall is_byte s -> 0 <= a <= UINT_MAX ->
  cstring_to_unsigned_loop s a = Some v <->
  Forall is_decimal s /\ v = fold_left (fun a c => 10 * a + (c - ch_0)) s a /\ v <= UINT_MAX.
Proof.
  intros Hs. revert a. induction Hs as [|c s Hc Hs IH]; intros a Ha.
  { cbn. split; [intros [= ->]; auto with lia|intros (_ & -> & _); reflexivity]. }
  cbn [cstring_to_unsigned_loop fold_left].
  destruct (decide (is_decimal c)) as [Hd|Hd].
  2: { destruct ((syntax_value c =? SYNTAX_NO_VALUE) || (10 <=? syntax_value c)) eqn:E.
       - cbn [orb]. split; [discriminate|]. intros (HF & _). inversion HF. contradiction.
       - by apply syntax_value_decimal in E. }
  rewrite (proj2 (syntax_value_decimal c Hc) Hd), syntax_value_digit by exact Hd. cbn [orb].
  pose proof Hd as Hd'. unfold is_decimal, ch_0, ch_9 in Hd'. change ch_0 with 48 in *.
  unfold UINT_MAX, UINT_BITS in *. change (2 ^ 32 - 1) with 4294967295 in *.
  destruct (Z.ltb_spec ((4294967295 - (c - 48)) / 10) a) as [E|E].
  - split; [discriminate|]. intros (HF & -> & Hle). inversion HF; subst.
    pose proof (decimal_fold_ge s (10 * a + (c - 48)) ltac:(assumption) ltac:(lia)) as Hge.
    change ch_0 with 48 in Hge. Z.div_mod_to_equations. lia.
  - assert (10 * a + (c - 48) <= 4294967295) by (Z.div_mod_to_equations; lia).
    rewrite !u32_small by (rewrite ?u32_small; lia).
    replace (a * 10 + (c - 48)) with (10 * a + (c - 48)) by lia.
    rewrite IH by lia. split; intros (HF & H'); [auto|]. inversion HF; auto.
Qed.

(** [cstring_to_unsigned] accepts exactly the non-empty strings of decimal
    digits whose value fits an [unsigned], and returns that value: the test
    before each multiplication rejects precisely the overflows. *)
Theorem cstring_to_unsigned_exact s v :
  Forall is_byte s ->
  cstring_to_unsigned s = Some v <->
  s <> [] /\ Forall is_decimal s /\ v = decimal_value s /\ v <= UINT_MAX.
Proof.
  intros Hs. unfold cstring_to_unsigned. destruct s as [|c s].
  - split; [discriminate|tauto].
  - rewrite cstring_to_unsigned_loop_ok by (auto; unfold UINT_MAX, UINT_BITS; lia).
    unfold decimal_value. intuition congruence.
Qed.

Lemma cstring_to_unsigned_exact_witness :
  cstring_to_unsigned [52; 50; 57; 52; 57; 54; 55; 50; 57; 53] = Some 4294967295 /\
  cstring_to_unsigned [52; 50; 57; 52; 57; 54; 55; 50; 57; 54] = None.
Proof.
  split; [|reflexivity]. apply cstring_to_unsigned_exact; [repeat constructor; cbn; discriminate|].
  split_and!; [discriminate|repeat constructor; cbn; discriminate|reflexivity|reflexivity || discriminate].
Defined.
