(* ===== verification/ExdsError.v ===== *)
(** * ExdsError: the errors that were reported

    Models the part of libexds/src/error.c that decides whether a program goes
    on: the least severity that is shown and the highest one that was
    reported; and the counting of errors of shared/src/error.c, which ends the
    program at the twentieth serious one. The text of the messages is not
    modelled. *)
From stdpp Require Import base numbers.
From Stdlib Require Import ZArith Lia.
From S2P Require Import Prelude.
#[local] Open Scope Z_scope.

Inductive ESeverityT :=
  | ERROR_SEVERITY_INFORMATION
  | ERROR_SEVERITY_WARNING
  | ERROR_SEVERITY_ERROR
  | ERROR_SEVERITY_FATAL
  | ERROR_SEVERITY_INTERNAL.

(** The value of the enumeration constant. *)
Definition severity_value (s : ESeverityT) : Z :=
  match s with
  | ERROR_SEVERITY_INFORMATION => 0
  | ERROR_SEVERITY_WARNING => 1
  | ERROR_SEVERITY_ERROR => 2
  | ERROR_SEVERITY_FATAL => 3
  | ERROR_SEVERITY_INTERNAL => 4
  end.

Definition severity_ge (s1 s2 : ESeverityT) : bool := severity_value s2 <=? severity_value s1.

(** The static variables. *)
Record ErrorsT := Errors { min_severity : ESeverityT; max_reported : ESeverityT }.

Definition initial_errors : ErrorsT := Errors ERROR_SEVERITY_ERROR ERROR_SEVERITY_INFORMATION.

(** How [error_report] ends. *)
Inductive reported := Reported (shown : bool) (e : ErrorsT) | Exited | Aborted.

Definition error_report (severity : ESeverityT) (e : ErrorsT) : reported :=
  let shown := severity_ge severity (min_severity e) in
  let e := if severity_ge (max_reported e) severity then e else Errors (min_severity e) severity in
  if severity_ge severity ERROR_SEVERITY_FATAL then
    match severity with ERROR_SEVERITY_INTERNAL => Aborted | _ => Exited end
  else Reported shown e.

Definition error_set_min_report_severity (severity : ESeverityT) (e : ErrorsT) : ErrorsT := Errors severity (max_reported e).

Definition error_get_min_report_severity (e : ErrorsT) : ESeverityT := min_severity e.

Definition error_max_reported_severity (e : ErrorsT) : ESeverityT := max_reported e.

(** ** shared/src/error.c *)

Definition maximum_errors : nat := 20.

(** The static variables of both files: [number_errors] is the one of
    shared/src/error.c, whose [error] and [error_posn] are those the linker
    calls; [severities] those of libexds. *)
Record ReportsT := Reports { number_errors : nat; severities : ErrorsT }.

Definition initial_reports : ReportsT := Reports 0 initial_errors.

(** [error(ERR_SERIOUS, ...)]: [true] when it does not return, because it is
    one error too many and a fatal one follows. *)
Definition serious_error (r : ReportsT) : ReportsT * bool :=
  let n := S (number_errors r) in
  (Reports n (severities r), (maximum_errors <=? n)%nat && negb (maximum_errors =? 0)%nat).

(** An operation that reports at most one error. *)
Definition report_if (err : bool) (r : ReportsT) : ReportsT * bool := if err then serious_error r else (r, false).

(** Whether a serious error was reported. *)
Definition any_error (r : ReportsT) : bool := negb (number_errors r =? 0)%nat.

(** The errors later on: none is forgotten, and the severities of libexds are
    not touched. *)
Definition later_reports (r r' : ReportsT) : Prop :=
  (number_errors r <= number_errors r')%nat /\ severities r' = severities r.

#[export] Instance later_reports_preorder : PreOrder later_reports.
Proof. split; [intros r; split; [lia|reflexivity]|]. intros r1 r2 r3 [H1 E1] [H2 E2]. split; [lia|congruence]. Qed.

Lemma later_any_error r r' : later_reports r r' -> any_error r = true -> any_error r' = true.
Proof. intros [H _]. unfold any_error. destruct (Nat.eqb_spec (number_errors r) 0), (Nat.eqb_spec (number_errors r') 0); auto; lia. Qed.

(** Too many errors: the program has ended. *)
Definition too_many (r : ReportsT) : Prop := (maximum_errors <= number_errors r)%nat.

Lemma serious_error_later r : later_reports r (serious_error r).1.
Proof. split; [cbn; lia|reflexivity]. Qed.

Lemma serious_error_any r : any_error (serious_error r).1 = true.
Proof. reflexivity. Qed.

Lemma serious_error_ends r : (serious_error r).2 = true <-> too_many (serious_error r).1.
Proof. unfold too_many, maximum_errors, serious_error. cbn [fst snd number_errors]. rewrite andb_true_r. apply Nat.leb_le. Qed.

Lemma report_if_later err r : later_reports r (report_if err r).1.
Proof. destruct err; [apply serious_error_later|reflexivity]. Qed.

Lemma report_if_ends err r : (report_if err r).2 = true -> too_many (report_if err r).1.
Proof. destruct err; [apply serious_error_ends|discriminate]. Qed.

(** [n] errors more, when there is room for them. *)
Definition add_errors (n : nat) (r : ReportsT) : ReportsT := Reports (n + number_errors r) (severities r).

Definition room_for (n : nat) (r : ReportsT) : Prop := (n + number_errors r < maximum_errors)%nat.

Lemma serious_error_room r : room_for 1 r -> serious_error r = (add_errors 1 r, false).
Proof. unfold room_for, serious_error, add_errors, maximum_errors. intros H. f_equal. rewrite andb_true_r. apply Nat.leb_gt. lia. Qed.

Lemma serious_error_cases r :
  (room_for 1 r /\ serious_error r = (add_errors 1 r, false)) \/ (too_many (add_errors 1 r) /\ serious_error r = (add_errors 1 r, true)).
Proof.
  unfold room_for, too_many, serious_error, add_errors, maximum_errors. cbn [number_errors]. rewrite andb_true_r. change (1 + number_errors r)%nat with (S (number_errors r)).
  destruct (Nat.leb_spec 20 (S (number_errors r))); [right|left]; by split; [lia|].
Qed.

Lemma add_errors_0 r : add_errors 0 r = r.
Proof. by destruct r. Qed.

Lemma add_errors_add m n r : add_errors m (add_errors n r) = add_errors (m + n) r.
Proof. unfold add_errors. cbn. by rewrite Nat.add_assoc. Qed.

(** No error of libexds that would end the phase was reported. *)
Definition quiet (r : ReportsT) : Prop := severity_ge (error_max_reported_severity (severities r)) ERROR_SEVERITY_ERROR = false.

Lemma quiet_later r r' : later_reports r r' -> quiet r -> quiet r'.
Proof. unfold quiet. by intros [_ ->]. Qed.

#[global] Arguments serious_error : simpl never.
