(* ===== verification/TldNameKey.v ===== *)
(** * TldNameKey: external name keys of the TDF linker

    Models tld/src/adt/name-key.c. A key is a simple name or a unique name, a
    sequence of components. A [char *] into a C string is the suffix it points
    to, with the terminating NUL: reading or stepping through it is [Overrun]
    once the suffix is empty, an access past the array. *)
From stdpp Require Import base list list_numbers numbers.
From Stdlib Require Import ZArith Lia.
From S2P Require Import Prelude ExdsString.

Inductive NameKeyT :=
| KT_STRING (string : NStringT)
| KT_UNIQUE (components : list NStringT).

(** The outcome of a parsing function: a value, [false], or an access out of
    bounds. *)
Inductive parsed (A : Type) :=
| Parsed (a : A)
| Rejected
| Overrun.
Arguments Parsed {A} a.
Arguments Rejected {A}.
Arguments Overrun {A}.

Definition parsed_bind {A B} (m : parsed A) (f : A -> parsed B) : parsed B :=
  match m with
  | Parsed a => f a
  | Rejected => Rejected
  | Overrun => Overrun
  end.

Notation "'let^' x := m 'in' k" := (parsed_bind m (fun x => k))
  (at level 10, x pattern, m at level 100, k at level 200) : tendra_scope.

(** Dereferencing. *)
Definition deref (p : list Z) : parsed (Z * list Z) :=
  match p with
  | c :: p => Parsed (c, p)
  | [] => Overrun
  end.

Definition ch_dot : Z := 46.
Definition ch_open : Z := 91.
Definition ch_backslash : Z := 92.
Definition ch_close : Z := 93.

Definition name_key_parse_hex_char (name : list Z) : parsed Z :=
  let^ (c, next) := deref name in
  let value := syntax_value c in
  if value =? SYNTAX_NO_VALUE then Rejected
  else
    let result := u8 (Z.shiftl value 4) in
    let^ (c, _) := deref next in
    let value := syntax_value c in
    if value =? SYNTAX_NO_VALUE then Rejected else Parsed (Z.lor result (u8 value)).

(** [name] points to the backslash; the character and the new pointer. *)
Definition name_key_parse_escaped (name : list Z) : parsed (Z * list Z) :=
  let^ (_, name) := deref name in
  let^ (c, next) := deref name in
  if (c =? 120) || (c =? 88) then                                (* x X *)
    let^ c := name_key_parse_hex_char name in
    Parsed (c, drop 3 name)
  else if (c =? 110) || (c =? 78) then Parsed (10, next)         (* n N *)
  else if (c =? 114) || (c =? 82) then Parsed (13, next)         (* r R *)
  else if (c =? 116) || (c =? 84) then Parsed (9, next)          (* t T *)
  else if c =? ch_0 then Parsed (0, next)
  else if (c =? ch_backslash) || (c =? ch_dot) || (c =? ch_open) || (c =? ch_close)
  then Parsed (c, next)
  else Rejected.

Section NameKey.
Variable junk : nat -> Z.
(** The components of a vector fresh from the allocator. *)
Variable junk_nstring : nat -> NStringT.

Definition name_key_init_string (string : NStringT) : NameKeyT :=
  KT_STRING (nstring_assign string).

Definition name_key_init_unique (components : nat) : NameKeyT :=
  KT_UNIQUE (map junk_nstring (seq 0 components)).

(** [None] is a failed assertion. *)
Definition name_key_set_component (key : NameKeyT) (component : nat) (string : NStringT)
  : option NameKeyT :=
  match key with
  | KT_UNIQUE components =>
      if (component <? length components)%nat
      then Some (KT_UNIQUE (<[component := nstring_assign string]> components))
      else None
  | KT_STRING _ => None
  end.

Definition name_key_components (key : NameKeyT) : option nat :=
  match key with KT_UNIQUE components => Some (length components) | KT_STRING _ => None end.

Definition name_key_get_component (key : NameKeyT) (component : nat) : option NStringT :=
  match key with KT_UNIQUE components => components !! component | KT_STRING _ => None end.

Definition name_key_string (key : NameKeyT) : option NStringT :=
  match key with KT_STRING s => Some s | KT_UNIQUE _ => None end.

(** The inner loop: one component, up to a dot or a closing bracket. *)
Fixpoint unique_component (fuel : nat) (name : list Z) (d : DStringT)
  : parsed (DStringT * list Z) :=
  match fuel with
  | O => Overrun
  | S fuel =>
      let^ (c, next) := deref name in
      if (c =? ch_dot) || (c =? ch_close) then Parsed (d, name)
      else if (c =? 0) || (c =? ch_open) then Rejected
      else if c =? ch_backslash then
        let^ (c, name) := name_key_parse_escaped name in
        unique_component fuel name (dstring_append_char junk d c)
      else unique_component fuel next (dstring_append_char junk d c)
  end.

(** The outer loop; [components] is filled from the front, [length] is how
    far. *)
Fixpoint unique_loop (fuel : nat) (name : list Z) (components : list NStringT) (length : nat)
  : parsed (list NStringT * nat * list Z) :=
  match fuel with
  | O => Overrun
  | S fuel =>
      let^ (_, name) := deref name in
      let^ (d, name) := unique_component (List.length name) name (dstring_init junk) in
      if (List.length components <=? length)%nat then Overrun
      else
        let components := <[length := dstring_to_nstring junk d]> components in
        let length := S length in
        let^ (c, _) := deref name in
        if c =? ch_close then Parsed (components, length, name)
        else unique_loop fuel name components length
  end.

Fixpoint set_components (key : NameKeyT) (i : nat) (components : list NStringT) : option NameKeyT :=
  match components with
  | [] => Some key
  | s :: components =>
      key ← name_key_set_component key i s; set_components key (S i) components
  end.

Definition name_key_parse_cstring_unique (name : list Z) : parsed NameKeyT :=
  let dots := count_occ Z.eq_dec (drop 1 name) ch_dot in
  let components := map junk_nstring (seq 0 (S dots)) in
  let^ (components, length, name) := unique_loop (List.length name) name components 0 in
  let^ (c, _) := deref name in
  if negb (c =? 0) then Rejected
  else
    match set_components (name_key_init_unique length) 0 (take length components) with
    | Some key => Parsed key
    | None => Overrun
    end.

Fixpoint string_loop (fuel : nat) (name : list Z) (d : DStringT) : parsed DStringT :=
  match fuel with
  | O => Overrun
  | S fuel =>
      let^ (c, next) := deref name in
      if c =? 0 then Parsed d
      else if (c =? ch_open) || (c =? ch_close) || (c =? ch_dot) then Rejected
      else if c =? ch_backslash then
        let^ (c, name) := name_key_parse_escaped name in
        string_loop fuel name (dstring_append_char junk d c)
      else string_loop fuel next (dstring_append_char junk d c)
  end.

Definition name_key_parse_cstring_string (name : list Z) : parsed NameKeyT :=
  let^ d := string_loop (List.length name) name (dstring_init junk) in
  Parsed (name_key_init_string (dstring_to_nstring junk d)).

Definition name_key_parse_cstring (name : list Z) : parsed NameKeyT :=
  let^ (c, _) := deref name in
  if c =? ch_open then name_key_parse_cstring_unique name
  else name_key_parse_cstring_string name.

(** ** Printing: the characters sent to the stream *)

Fixpoint write_name_key_1 (bytes : list Z) : list Z :=
  match bytes with
  | [] => []
  | c :: bytes =>
      (if (c =? ch_open) || (c =? ch_close) || (c =? ch_dot) || (c =? ch_backslash)
       then [ch_backslash] else []) ++ c :: write_name_key_1 bytes
  end.

Fixpoint write_components (sep : Z) (components : list NStringT) : list Z :=
  match components with
  | [] => []
  | s :: components =>
      sep :: write_name_key_1 (take (nstring_length s) (nstring_contents s))
      ++ write_components ch_dot components
  end.

Definition write_name_key (key : NameKeyT) : list Z :=
  match key with
  | KT_STRING s => write_name_key_1 (take (nstring_length s) (nstring_contents s))
  | KT_UNIQUE components => write_components ch_open components ++ [ch_close]
  end.

(** ** Comparison, hashing, copying *)

Definition name_key_hash_value (key : NameKeyT) : Z :=
  match key with
  | KT_STRING s => nstring_hash_value s
  | KT_UNIQUE components =>
      fold_left (fun h s => u32 (h + nstring_hash_value s)) components
        (u32 (Z.of_nat (length components)))
  end.

Fixpoint components_equal (l1 l2 : list NStringT) : bool :=
  match l1, l2 with
  | s1 :: l1, s2 :: l2 => if nstring_equal s1 s2 then components_equal l1 l2 else false
  | _, _ => true
  end.

Definition name_key_equal (key1 key2 : NameKeyT) : bool :=
  match key1, key2 with
  | KT_STRING s1, KT_STRING s2 => nstring_equal s1 s2
  | KT_UNIQUE l1, KT_UNIQUE l2 =>
      if (length l1 =? length l2)%nat then components_equal l1 l2 else false
  | _, _ => false
  end.

Definition name_key_assign (from : NameKeyT) : NameKeyT :=
  match from with
  | KT_STRING s => KT_STRING (nstring_assign s)
  | KT_UNIQUE components => KT_UNIQUE components
  end.

Definition name_key_copy (from : NameKeyT) : NameKeyT :=
  match from with
  | KT_STRING s => KT_STRING (nstring_copy junk s)
  | KT_UNIQUE components => KT_UNIQUE (map (nstring_copy junk) components)
  end.

(** ** Lists of keys *)

Fixpoint name_key_list_mem (ks : list NameKeyT) (key : NameKeyT) : bool :=
  match ks with
  | [] => false
  | k :: ks => if name_key_equal key k then true else name_key_list_mem ks key
  end.

Definition name_key_list_add (ks : list NameKeyT) (key : NameKeyT) : list NameKeyT :=
  if name_key_list_mem ks key then ks else name_key_assign key :: ks.

Fixpoint name_key_pair_list_mem (ps : list (NameKeyT * NameKeyT)) (from : NameKeyT) : bool :=
  match ps with
  | [] => false
  | (k, _) :: ps => if name_key_equal from k then true else name_key_pair_list_mem ps from
  end.

Definition name_key_pair_list_add (ps : list (NameKeyT * NameKeyT)) (from to : NameKeyT)
  : bool * list (NameKeyT * NameKeyT) :=
  if name_key_pair_list_mem ps from then (false, ps)
  else (true, (name_key_assign from, name_key_assign to) :: ps).
End NameKey.

(** ** Equality *)

Definition wf_key (key : NameKeyT) : Prop :=
  match key with
  | KT_STRING s => wf_nstring s
  | KT_UNIQUE components => Forall wf_nstring components
  end.

#[export] Instance wf_key_dec key : Decision (wf_key key).
Proof. destruct key; cbn; apply _. Defined.

Lemma components_equal_iff l1 l2 :
  Forall wf_nstring l1 -> Forall wf_nstring l2 -> length l1 = length l2 ->
  components_equal l1 l2 = true <-> l1 = l2.
Proof.
  intros H1. revert l2. induction H1 as [|s1 l1 Hs1 H1 IH]; intros [|s2 l2] H2 Hl; cbn in *;
    try discriminate; [tauto|]. inversion H2; subst.
  destruct (nstring_equal s1 s2) eqn:E.
  - apply nstring_equal_iff in E as ->; auto. rewrite IH by auto. split; congruence.
  - split; [discriminate|]. intros [= <- _].
    rewrite (proj2 (nstring_equal_iff s1 s1 Hs1 Hs1)) in E by reflexivity. discriminate.
Qed.

Lemma name_key_equal_iff k1 k2 :
  wf_key k1 -> wf_key k2 -> name_key_equal k1 k2 = true <-> k1 = k2.
Proof.
  intros H1 H2. destruct k1 as [s1|l1], k2 as [s2|l2]; cbn in *; try (split; discriminate).
  - rewrite nstring_equal_iff by auto. split; congruence.
  - destruct (Nat.eqb_spec (length l1) (length l2)) as [E|E].
    + rewrite components_equal_iff by auto. split; congruence.
    + split; [discriminate|]. intros [= ->]. contradiction.
Qed.

Lemma name_key_equal_false k1 k2 :
  wf_key k1 -> wf_key k2 -> name_key_equal k1 k2 = false <-> k1 <> k2.
Proof.
  intros H1 H2. rewrite <- not_true_iff_false, name_key_equal_iff by auto. tauto.
Qed.

Lemma name_key_assign_id k : name_key_assign k = k.
Proof. destruct k as [[]|]; reflexivity. Qed.

Lemma nstring_copy_id junk s : wf_nstring s -> nstring_copy junk s = s.
Proof.
  destruct s as [n l]. intros [Hl _]. cbn in Hl. unfold nstring_copy, nstring_length.
  cbn [n_contents n_length]. rewrite copy_chars_ok, take_ge by lia. reflexivity.
Qed.

Lemma name_key_copy_id junk k : wf_key k -> name_key_copy junk k = k.
Proof.
  destruct k as [s|l]; cbn; intros H; [by rewrite nstring_copy_id|].
  f_equal. induction H as [|s l Hs H IH]; [reflexivity|]. cbn. rewrite IH, nstring_copy_id; auto.
Qed.

#[export] Hint Resolve name_key_equal_iff name_key_equal_false : tendra.

Lemma pair_list_mem_iff ps key :
  Forall (fun p => wf_key p.1) ps -> wf_key key -> name_key_pair_list_mem ps key = true <-> key ∈ (ps.*1).
Proof.
  intros Hps Hkey. induction Hps as [|[k t] ps Hk Hps IH]; cbn; [split; [discriminate|inversion 1]|].
  rewrite elem_of_cons, <- IH. cbn in Hk. destruct (name_key_equal key k) eqn:E.
  - apply name_key_equal_iff in E; tauto.
  - apply name_key_equal_false in E; tauto.
Qed.

(** Adding to a key list keeps it a duplicate-free set: the key is in it
    afterwards, nothing is lost and nothing else appears; adding to a pair
    list refuses exactly the keys that already have an image. *)
Theorem name_key_lists_are_sets ks ps key to :
  Forall wf_key ks -> NoDup ks -> Forall (fun p => wf_key p.1) ps -> NoDup (ps.*1) -> wf_key key ->
  (NoDup (name_key_list_add ks key) /\
   forall k, k ∈ name_key_list_add ks key <-> k = key \/ k ∈ ks) /\
  (if (name_key_pair_list_add ps key to).1
   then (key ∉ ps.*1) /\ (name_key_pair_list_add ps key to).2 = (key, to) :: ps
   else (key ∈ ps.*1) /\ (name_key_pair_list_add ps key to).2 = ps).
Proof.
  intros Hks Hnd Hps Hndp Hkey. split.
  - assert (name_key_list_mem ks key = true <-> key ∈ ks) as Hmem.
    { clear Hnd. induction Hks as [|k ks Hk Hks IH]; cbn; [split; [discriminate|inversion 1]|].
      rewrite elem_of_cons, <- IH. destruct (name_key_equal key k) eqn:E.
      - apply name_key_equal_iff in E; tauto.
      - apply name_key_equal_false in E; tauto. }
    unfold name_key_list_add. rewrite name_key_assign_id. destruct (name_key_list_mem ks key) eqn:E.
    + split; [exact Hnd|]. intros k. split; [tauto|]. intros [->|]; tauto.
    + assert (key ∉ ks) by (rewrite <- Hmem; discriminate).
      split; [by constructor|]. intros k. apply elem_of_cons.
  - pose proof (pair_list_mem_iff ps key Hps Hkey) as Hmem.
    unfold name_key_pair_list_add. rewrite !name_key_assign_id.
    destruct (name_key_pair_list_mem ps key) eqn:E; cbn; [tauto|].
    split; [|reflexivity]. rewrite <- Hmem. discriminate.
Qed.

(** ** Round trip *)

Section Parse.
Variable junk : nat -> Z.
Variable junk_nstring : nat -> NStringT.

Definition is_special (c : Z) : bool :=
  (c =? ch_open) || (c =? ch_close) || (c =? ch_dot) || (c =? ch_backslash).

Lemma parse_special c rest :
  is_special c = true -> name_key_parse_escaped (ch_backslash :: c :: rest) = Parsed (c, rest).
Proof.
  unfold is_special. rewrite !orb_true_iff, !Z.eqb_eq. intros [[[->| ->]| ->]| ->]; reflexivity.
Qed.

Lemma string_loop_ok l fuel d :
  wf_dstring d -> Forall (fun c => c <> 0) l -> (length (write_name_key_1 l) < fuel)%nat ->
  exists d', string_loop junk fuel (write_name_key_1 l ++ [0]) d = Parsed d' /\
    wf_dstring d' /\ d_str d' = d_str d ++ l.
Proof.
  intros Hd Hl. revert fuel d Hd. induction Hl as [|c l Hc Hl IH]; intros fuel d Hd Hf;
    (destruct fuel as [|fuel]; [cbn in Hf; lia|]).
  { exists d. rewrite app_nil_r. auto. }
  destruct (dstring_append_char_ok junk d c Hd) as [Hd1 E1].
  cbn [write_name_key_1] in *. fold (is_special c) in *.
  destruct (is_special c) eqn:Es; cbn [app length] in *.
  - cbn [string_loop deref parsed_bind].
    rewrite (parse_special c _ Es). cbn [parsed_bind].
    destruct (IH fuel _ Hd1 ltac:(lia)) as (d' & -> & Hd' & E').
    exists d'. split_and!; auto. rewrite E', E1, <- app_assoc. reflexivity.
  - cbn [string_loop deref parsed_bind]. rewrite (proj2 (Z.eqb_neq c 0) Hc).
    unfold is_special in Es. rewrite !orb_false_iff in Es. destruct Es as [[[-> ->] ->] ->]. cbn [orb].
    destruct (IH fuel _ Hd1 ltac:(lia)) as (d' & -> & Hd' & E').
    exists d'. split_and!; auto. rewrite E', E1, <- app_assoc. reflexivity.
Qed.

Lemma write_not_open l rest :
  exists c t, write_name_key_1 l ++ 0 :: rest = c :: t /\ (c =? ch_open) = false.
Proof.
  destruct l as [|c l]; [by do 2 eexists|]. cbn [write_name_key_1]. fold (is_special c).
  destruct (is_special c) eqn:E; cbn [app]; do 2 eexists; (split; [reflexivity|]); [reflexivity|].
  unfold is_special in E. rewrite !orb_false_iff in E. tauto.
Qed.

(** A simple name that is printed and parsed again is the same name,
    whatever special characters it contains (a NUL excepted, which ends the
    C string). *)
Theorem name_key_string_roundtrip s :
  wf_nstring s -> Forall (fun c => c <> 0) (n_contents s) ->
  name_key_parse_cstring junk junk_nstring (write_name_key (KT_STRING s) ++ [0])
  = Parsed (KT_STRING s).
Proof.
  intros [Hlen _] Hnz. cbn [write_name_key]. unfold nstring_length, nstring_contents.
  rewrite take_ge by lia. unfold name_key_parse_cstring.
  destruct (write_not_open (n_contents s) []) as (c & t & E & Ec).
  rewrite E. cbn [deref parsed_bind]. rewrite Ec, <- E. unfold name_key_parse_cstring_string.
  destruct (dstring_init_ok junk) as [H0 E0].
  destruct (string_loop_ok (n_contents s) (length (write_name_key_1 (n_contents s) ++ [0]))
    _ H0 Hnz) as (d & -> & Hd & Ed); [rewrite length_app; cbn; lia|].
  rewrite E0 in Ed. cbn [app] in Ed. cbn [parsed_bind]. unfold name_key_init_string, nstring_assign.
  rewrite dstring_to_nstring_ok, Ed by exact Hd. unfold nstring_length. cbn [n_length n_contents].
  assert (length (d_str d) = d_length d) as Hl by (unfold d_str; rewrite length_take; destruct Hd; lia).
  rewrite Ed, Hlen in Hl. rewrite <- Hl. destruct s. reflexivity.
Qed.

Lemma unique_never_parsed name key :
  name_key_parse_cstring junk junk_nstring (ch_open :: name) <> Parsed key.
Proof.
  assert (forall fuel name components length r,
    unique_loop junk fuel name components length = Parsed r -> exists t, r.2 = ch_close :: t) as Hloop.
  { induction fuel as [|fuel IH]; intros p cs n r; cbn [unique_loop]; [discriminate|].
    destruct p as [|c p]; [discriminate|]. cbn [deref parsed_bind].
    destruct (unique_component _ _ _ _) as [[d p']| |]; try discriminate. cbn [parsed_bind].
    destruct (_ <=? _)%nat; [discriminate|]. destruct p' as [|c' p']; [discriminate|].
    cbn [deref parsed_bind]. destruct (Z.eqb_spec c' ch_close) as [->|_]; [|apply IH].
    intros [= <-]. eexists. reflexivity. }
  unfold name_key_parse_cstring. cbn [deref parsed_bind]. change (ch_open =? ch_open) with true.
  unfold name_key_parse_cstring_unique.
  destruct (unique_loop _ _ _ _ _) as [[[cs n] p]| |] eqn:E; try discriminate. cbn [parsed_bind].
  apply Hloop in E as [t E]. cbn in E. subst p. discriminate.
Qed.
(** No unique name is ever accepted: the loop that reads the components
    stops on the closing bracket, which the test for the end of the string
    then rejects. *)
Theorem name_key_unique_never_parsed name key :
  name_key_parse_cstring junk junk_nstring (ch_open :: name) <> Parsed key.
Proof. apply unique_never_parsed. Qed.
End Parse.

(** The hexadecimal escape decodes the letter x as its first digit: the
    result is 16 or-ed with the first digit given, and the second digit is
    skipped unread, even when it is the end of the string, which is then run
    past. *)
Theorem name_key_hex_escape_wrong d1 d2 rest :
  syntax_value d1 <> SYNTAX_NO_VALUE ->
  name_key_parse_escaped (ch_backslash :: 120 :: d1 :: d2 :: rest)
  = Parsed (Z.lor 16 (u8 (syntax_value d1)), rest) /\
  forall junk junk_nstring,
    name_key_parse_cstring junk junk_nstring [ch_backslash; 120; d1; 0] = Overrun.
Proof.
  intros H.
  assert (forall rest, name_key_parse_escaped (ch_backslash :: 120 :: d1 :: rest)
    = Parsed (Z.lor 16 (u8 (syntax_value d1)), drop 1 rest)) as Hesc.
  { intros r. unfold name_key_parse_escaped, name_key_parse_hex_char.
    cbn [deref parsed_bind]. change ((120 =? 120) || (120 =? 88)) with true. cbn iota.
    change (syntax_value 120 =? SYNTAX_NO_VALUE) with false. cbn iota.
    rewrite (proj2 (Z.eqb_neq _ _) H). reflexivity. }
  split; [apply Hesc|]. intros junk junk_nstring.
  unfold name_key_parse_cstring, name_key_parse_cstring_string.
  cbn [deref parsed_bind length string_loop]. rewrite Hesc. reflexivity.
Qed.

Lemma name_key_lists_are_sets_witness :
  let a := KT_STRING (NString 1 [97]) in
  let u := KT_UNIQUE [NString 1 [98]; NString 0 []] in
  (NoDup (name_key_list_add [a] u) /\ forall k, k ∈ name_key_list_add [a] u <-> k = u \/ k ∈ [a]) /\
  name_key_pair_list_add [(a, u)] a u = (false, [(a, u)]).
Proof.
  split; [|reflexivity].
  apply (name_key_lists_are_sets [KT_STRING (NString 1 [97])] []
    (KT_UNIQUE [NString 1 [98]; NString 0 []]) (KT_STRING (NString 1 [97]))).
  - repeat constructor; cbn; discriminate.
  - apply NoDup_singleton.
  - constructor.
  - constructor.
  - repeat constructor; cbn; discriminate.
Defined.

Lemma name_key_string_roundtrip_witness :
  name_key_parse_cstring (fun _ => 0) (fun _ => nstring_init)
    (write_name_key (KT_STRING (NString 4 [91; 97; 92; 46])) ++ [0])
  = Parsed (KT_STRING (NString 4 [91; 97; 92; 46])).
Proof.
  apply (name_key_string_roundtrip (fun _ => 0) (fun _ => nstring_init)).
  - split; [reflexivity|]. repeat constructor; cbn; discriminate.
  - repeat constructor; discriminate.
Defined.

Lemma name_key_hex_escape_wrong_witness :
  name_key_parse_escaped [ch_backslash; 120; 52; 49; 0] = Parsed (20, [0]).
Proof. apply (name_key_hex_escape_wrong 52 49 [0]). discriminate. Defined.
