(* ===== verification/CStdio.v ===== *)
(** * CStdio: output files of the C library

    What the programs rely on of [FILE]s that are written: libexds writes to
    them in bostream.c and ostream.c. The library collects the characters in a
    buffer and passes them on to the device later: when, depends on the kind of
    buffering and on the library, and is a part of the device here. A device
    takes a limited number of characters, or all of them. What does not fit is
    noticed when it is passed on, which may be as late as the closing of the
    file; the end of the program by [exit] closes the files, whatever becomes
    of what is still in the buffers. *)
From stdpp Require Import base list list_numbers numbers.
From Stdlib Require Import ZArith Lia.
From S2P Require Import Prelude.

(** [d_room]: how many characters the device takes; [None] is no limit.
    [d_sends before sent new]: when [before] has been written, of which the
    first [sent] characters were passed on, and [new] is written, how many
    have been passed on then. *)
Record DeviceT := Device {
  d_room : option nat;
  d_sends : list Z -> nat -> list Z -> nat
}.

(** [f_chars]: all that was written; [f_sent]: how much of it was passed on to
    the device, which took the part it had room for; [f_failed] is the error
    indicator. *)
Record FileT := File {
  f_device : DeviceT;
  f_chars : list Z;
  f_sent : nat;
  f_failed : bool
}.

Definition fopen (d : DeviceT) : FileT := File d [] 0 false.

(** The part of [l] that a device takes. *)
Definition taken (d : DeviceT) (l : list Z) : list Z :=
  match d_room d with Some r => take r l | None => l end.

Definition fits_on (d : DeviceT) (l : list Z) : Prop :=
  match d_room d with Some r => (length l <= r)%nat | None => True end.

#[export] Instance fits_on_dec d l : Decision (fits_on d l).
Proof. unfold fits_on. destruct (d_room d); apply _. Defined.

(** What is in the file by now. *)
Definition on_device (f : FileT) : list Z := taken (f_device f) (take (f_sent f) (f_chars f)).

(** The first [n] characters are passed on; whether that fails. *)
Definition transmit (n : nat) (f : FileT) : FileT * bool :=
  let n := (f_sent f `max` (n `min` length (f_chars f)))%nat in
  let fails := (f_sent f <? n)%nat && negb (bool_decide (fits_on (f_device f) (take n (f_chars f)))) in
  (File (f_device f) (f_chars f) n (f_failed f || fails), fails).

(** [fwrite], and [fputs] and [fputc], for which the result is not looked at;
    [true] when not all was written, which is so when passing it on failed. *)
Definition fwrite (chars : list Z) (f : FileT) : FileT * bool :=
  match chars with
  | [] => (f, false)
  | _ =>
      transmit (d_sends (f_device f) (f_chars f) (f_sent f) chars)
        (File (f_device f) (f_chars f ++ chars) (f_sent f) (f_failed f))
  end.

Definition ferror (f : FileT) : bool := f_failed f.

(** [true] when it fails. *)
Definition fflush (f : FileT) : FileT * bool := transmit (length (f_chars f)) f.

(** The errors of earlier writes are reported again. *)
Definition fclose (f : FileT) : FileT * bool :=
  let '(f, fails) := fflush f in (f, fails || f_failed f).

(** What is in the file after [exit], which closes it. *)
Definition at_exit (f : FileT) : list Z := on_device (fclose f).1.

(** A device that takes all there is. *)
Definition takes_all (sends : list Z -> nat -> list Z -> nat) : DeviceT := Device None sends.

(** Nothing is passed on before the file is closed. *)
Definition at_close (before : list Z) (sent : nat) (new : list Z) : nat := O.

(** ** A file that was only written to *)

(** The error indicator tells whether all that was passed on had room. *)
Record file_ok (f : FileT) : Prop := {
  fo_sent : (f_sent f <= length (f_chars f))%nat;
  fo_failed : f_failed f = negb (bool_decide (fits_on (f_device f) (take (f_sent f) (f_chars f))))
}.

Lemma fopen_ok d : file_ok (fopen d).
Proof. split; [done|]. cbn. rewrite bool_decide_eq_true_2; [done|]. unfold fits_on. destruct (d_room d); [cbn; lia|done]. Qed.

Lemma fits_on_take d l n m : (n <= m)%nat -> fits_on d (take m l) -> fits_on d (take n l).
Proof. unfold fits_on. destruct (d_room d); [|done]. rewrite !length_take. lia. Qed.

Lemma fits_on_app_l d l l' : fits_on d (l ++ l') -> fits_on d l.
Proof. unfold fits_on. destruct (d_room d); [|done]. rewrite length_app. lia. Qed.

Lemma taken_all d l : fits_on d l -> taken d l = l.
Proof. unfold fits_on, taken. destruct (d_room d); [|done]. intros H. by apply take_ge. Qed.

Lemma taken_app d l l' : ~ fits_on d l -> taken d (l ++ l') = taken d l.
Proof. unfold fits_on, taken. destruct (d_room d); [|tauto]. intros H. apply take_app_le. lia. Qed.

Lemma taken_prefix d l n : ~ fits_on d (take n l) -> taken d (take n l) = taken d l.
Proof. intros H. rewrite <- (take_drop n l) at 2. by rewrite taken_app. Qed.

Lemma transmit_ok n f : file_ok f -> let f' := (transmit n f).1 in
  file_ok f' /\ f_device f' = f_device f /\ f_chars f' = f_chars f /\ (f_sent f <= f_sent f')%nat /\ f_failed f' = f_failed f || (transmit n f).2.
Proof.
  intros [Hs Hf]. unfold transmit. cbn [fst snd f_device f_chars f_sent f_failed]. set (m := (_ `max` _)%nat).
  assert (f_sent f <= m <= length (f_chars f))%nat as Hm by lia. split_and!; try done; [|lia].
  split; cbn [f_device f_chars f_sent f_failed]; [lia|]. rewrite Hf.
  destruct (Nat.ltb_spec (f_sent f) m) as [Hlt|Hge]; cbn [andb].
  - repeat case_bool_decide; try done. exfalso. match goal with H : ~ _ |- _ => apply H end. eapply fits_on_take; [|eassumption]. lia.
  - by replace m with (f_sent f) by lia; rewrite orb_false_r.
Qed.

Lemma fwrite_ok chars f : file_ok f -> let f' := (fwrite chars f).1 in
  file_ok f' /\ f_device f' = f_device f /\ f_chars f' = f_chars f ++ chars /\ (f_sent f <= f_sent f')%nat /\ f_failed f' = f_failed f || (fwrite chars f).2.
Proof.
  intros [Hs Hf]. destruct chars as [|c chars]; [rewrite app_nil_r, orb_false_r; by split_and!|].
  unfold fwrite. set (f0 := File _ _ _ _). assert (file_ok f0) as H0.
  { split; cbn; [rewrite length_app; lia|]. by rewrite take_app_le by lia. }
  apply (transmit_ok _ f0 H0).
Qed.

Lemma fclose_ok f : file_ok f -> let f' := (fclose f).1 in
  file_ok f' /\ f_device f' = f_device f /\ f_chars f' = f_chars f /\ f_sent f' = length (f_chars f) /\
  (fclose f).2 = negb (bool_decide (fits_on (f_device f) (f_chars f))).
Proof.
  intros H. unfold fclose, fflush. pose proof (transmit_ok (length (f_chars f)) f H) as (H1 & H2 & H3 & _ & H5).
  assert (f_sent (transmit (length (f_chars f)) f).1 = length (f_chars f)) as H4 by (pose proof (fo_sent _ H); cbn; lia).
  destruct (transmit _ f) as [f' fails]. cbn in *. split_and!; auto. rewrite (fo_failed _ H1), H2, H3, H4, firstn_all in *.
  by destruct fails, (f_failed f), (bool_decide _).
Qed.

(** At the end the device has all it had room for. *)
Lemma at_exit_ok f : file_ok f -> at_exit f = taken (f_device f) (f_chars f).
Proof. intros H. destruct (fclose_ok f H) as (_ & H2 & H3 & H4 & _). unfold at_exit, on_device. by rewrite H2, H3, H4, firstn_all. Qed.

Lemma at_exit_nothing d : at_exit (fopen d) = [].
Proof. rewrite (at_exit_ok _ (fopen_ok d)). unfold taken. cbn. destruct (d_room d); [apply take_nil|reflexivity]. Qed.

(** An error was noticed: the device is full. *)
Lemma failed_full f : file_ok f -> f_failed f = true -> ~ fits_on (f_device f) (f_chars f) /\ on_device f = taken (f_device f) (f_chars f).
Proof.
  intros [Hs Hf] E. rewrite E in Hf. symmetry in Hf. apply negb_true_iff, bool_decide_eq_false_1 in Hf.
  split; [|by apply taken_prefix]. intros H. apply Hf. apply (fits_on_take _ _ _ (length (f_chars f))); [lia|by rewrite firstn_all].
Qed.

(** Nothing is passed on while no more than [n] characters are written, as
    with a buffer of more than that. *)
Definition buffers (d : DeviceT) (n : nat) : Prop :=
  forall before sent new, (length before + length new <= n)%nat -> d_sends d before sent new = O.

(** A file that was neither flushed nor closed. *)
Record being_written (f : FileT) : Prop := {
  bw_ok : file_ok f;
  bw_buffers n : buffers (f_device f) n -> (length (f_chars f) <= n)%nat -> f_sent f = O
}.

Lemma fopen_being_written d : being_written (fopen d).
Proof. split; [apply fopen_ok|done]. Qed.

Lemma fwrite_being_written chars f : being_written f -> being_written (fwrite chars f).1.
Proof.
  intros [Hf Hb]. pose proof (fwrite_ok chars f Hf) as (H1 & H2 & H3 & _ & _). split; [exact H1|]. intros n Hn Hl.
  rewrite H2 in Hn. rewrite H3, length_app in Hl. specialize (Hb n Hn ltac:(lia)). destruct chars as [|c chars]; [exact Hb|].
  unfold fwrite, transmit. cbn [fst f_sent f_chars f_device]. rewrite Hn by lia. lia.
Qed.

(** An error that is noticed before the file is closed. *)
Lemma noticed_late f n : being_written f -> f_failed f = true -> buffers (f_device f) n -> (n < length (f_chars f))%nat.
Proof.
  intros [Hf Hb] E Hn. destruct (Nat.lt_ge_cases n (length (f_chars f))) as [Hlt|Hge]; [exact Hlt|]. exfalso.
  rewrite (fo_failed _ Hf), (Hb n Hn Hge), bool_decide_eq_true_2 in E; [discriminate|].
  rewrite take_0. unfold fits_on. destruct (d_room (f_device f)) as [r|]; [apply Nat.le_0_l|exact I].
Qed.
