(* ===== verification/TldIO.v ===== *)
(** * TldIO: the TDF readers and writers of the linker

    Models tld/src/adt/tdf-read.c and tdf-write.c over the binary streams of
    libexds/src/bistream.c and bostream.c. A file that is read is the list of
    its bytes, an entry [None] standing for a place where the device fails to
    read; the files that are written are those of CStdio. Exceptions are values:
    every operation returns the state it reached and a result or the exception
    thrown. The diagnostics sent to [error] are not modelled. *)
From stdpp Require Import base list list_numbers numbers.
From Stdlib Require Import ZArith Lia.
From S2P Require Import Prelude Codec ExdsString CStdio TldNameKey.

Inductive exn :=
| XX_tdf_read_error
| XX_bistream_read_error (name : list Z)
| XX_bostream_write_error (name : list Z).

(** ** Binary input streams *)

Record BIStreamT := BIStream {
  bi_data : list (option Z);
  bi_pos : nat;
  bi_bytes : nat;
  bi_name : option (list Z)
}.

Definition bistream_fail : BIStreamT -> exn := fun b => XX_bistream_read_error (default [] (bi_name b)).

(** [fread]: the bytes up to [n], the end of the file or a failure. *)
Fixpoint fread (data : list (option Z)) (n : nat) : list Z :=
  match n, data with
  | S n, Some c :: data => c :: fread data n
  | _, _ => []
  end.

Definition bistream_read_chars (length : nat) : stM BIStreamT exn (list Z) := fun b =>
  let chars := fread (drop (bi_pos b) (bi_data b)) length in
  let bytes_read := List.length chars in
  let b' := BIStream (bi_data b) (bi_pos b + bytes_read) (bi_bytes b + bytes_read) (bi_name b) in
  if (bytes_read =? 0)%nat && (0 <? length)%nat &&
     bool_decide (bi_data b !! bi_pos b = Some None)
  then (b, Throw (bistream_fail b))
  else (b', Ok chars).

(** [false] at the end of the file is [None]. *)
Definition bistream_read_byte : stM BIStreamT exn (option Z) := fun b =>
  match bi_data b !! bi_pos b with
  | Some (Some byte) =>
      (BIStream (bi_data b) (S (bi_pos b)) (S (bi_bytes b)) (bi_name b), Ok (Some byte))
  | Some None => (b, Throw (bistream_fail b))
  | None => (b, Ok None)
  end.

Definition bistream_rewind : stM BIStreamT exn unit := fun b =>
  (BIStream (bi_data b) 0 (bi_bytes b) (bi_name b), Ok tt).

Definition bistream_open (data : list (option Z)) (name : list Z) : BIStreamT :=
  BIStream data 0 0 (Some name).

Definition bistream_close : stM BIStreamT exn unit := fun b =>
  (BIStream (bi_data b) (bi_pos b) (bi_bytes b) None, Ok tt).

(** ** Binary output streams *)

Record BOStreamT := BOStream { bo_file : FileT; bo_name : option (list Z) }.

Definition bo_write_error {A} (b : BOStreamT) : result exn A := Throw (XX_bostream_write_error (default [] (bo_name b))).

Definition bostream_write_chars (chars : list Z) : stM BOStreamT exn unit := fun b =>
  let '(file, short) := fwrite chars (bo_file b) in
  (BOStream file (bo_name b), if short && ferror file then bo_write_error b else Ok tt).

Definition bostream_write_byte (byte : Z) : stM BOStreamT exn unit := fun b =>
  let '(file, short) := fwrite [u8 byte] (bo_file b) in
  (BOStream file (bo_name b), if short && ferror file then bo_write_error b else Ok tt).

(** Of a file that can be opened. *)
Definition bostream_open (device : DeviceT) (name : list Z) : BOStreamT := BOStream (fopen device) (Some name).

Definition bostream_close : stM BOStreamT exn unit := fun b =>
  let '(file, fails) := fclose (bo_file b) in
  if fails then (BOStream file (bo_name b), bo_write_error b) else (BOStream file None, Ok tt).

(** ** Readers *)

Record string_source := StringSource {
  s_contents : list Z;
  s_current : nat;
  s_limit : nat;
  s_name : list Z;
  s_byte : nat
}.

Inductive reader_source :=
| RT_STREAM (bistream : BIStreamT)
| RT_STRING (string : string_source).

Record TDFReaderT := TDFReader { r_source : reader_source; r_byte : Z; r_new_byte : bool }.

Definition reader := stM TDFReaderT exn.

(** An operation on the stream of a reader. *)
Definition on_bistream {A} (b : BIStreamT) (m : stM BIStreamT exn A) : reader A := fun r =>
  let '(b, x) := m b in (TDFReader (RT_STREAM b) (r_byte r) (r_new_byte r), x).

Definition set_byte (byte : Z) (new_byte : bool) : reader unit := fun r =>
  (TDFReader (r_source r) byte new_byte, Ok tt).

Definition set_source (s : reader_source) : reader unit := fun r =>
  (TDFReader s (r_byte r) (r_new_byte r), Ok tt).

Definition tdf_read_nibble : reader Z := fun r =>
  if r_new_byte r then
    match r_source r with
    | RT_STREAM b =>
        (byte ← on_bistream b bistream_read_byte;
         match byte with
         | Some byte => _ ← set_byte byte false; mret (Z.land (Z.shiftr byte 4) 15)
         | None => st_throw XX_tdf_read_error
         end) r
    | RT_STRING s =>
        if (s_current s <? s_limit s)%nat then
          let byte := u8 (s_contents s !!! s_current s) in
          (TDFReader
             (RT_STRING (StringSource (s_contents s) (S (s_current s)) (s_limit s) (s_name s) (S (s_byte s))))
             byte false,
           Ok (Z.land (Z.shiftr byte 4) 15))
        else (r, Throw XX_tdf_read_error)
    end
  else (TDFReader (r_source r) (r_byte r) true, Ok (Z.land (r_byte r) 15)).

Definition tdf_reader_open (data : list (option Z)) (name : list Z) (byte : Z) : TDFReaderT :=
  TDFReader (RT_STREAM (bistream_open data name)) byte true.

Definition tdf_reader_open_string (name : list Z) (bytes : NStringT) (byte : Z) : TDFReaderT :=
  TDFReader (RT_STRING (StringSource (nstring_contents bytes) 0 (nstring_length bytes) name 0)) byte true.

Definition tdf_reader_byte (r : TDFReaderT) : nat :=
  match r_source r with
  | RT_STREAM b => bi_bytes b
  | RT_STRING s => s_byte s
  end.

(** The bytes not yet taken from the source. *)
Definition source_left (r : TDFReaderT) : nat :=
  match r_source r with
  | RT_STREAM b => (length (bi_data b) - bi_pos b)%nat
  | RT_STRING s => (s_limit s - s_current s)%nat
  end.

(** Enough nibbles to reach the end of the source. *)
Definition reader_fuel (r : TDFReaderT) : nat := (2 * source_left r + 2)%nat.

Fixpoint tdf_read_int_loop (fuel : nat) (value : Z) : reader Z :=
  match fuel with
  | O => st_throw XX_tdf_read_error
  | S fuel =>
      nibble ← tdf_read_nibble;
      let limit := Z.shiftr UINT_MAX 3 in
      if limit <? value then st_throw XX_tdf_read_error
      else
        let value := Z.lor (u32 (Z.shiftl value 3)) (Z.land nibble 7) in
        if Z.land nibble 8 =? 0 then tdf_read_int_loop fuel value else mret value
  end.

Definition tdf_read_int : reader Z := fun r => tdf_read_int_loop (reader_fuel r) 0 r.

Definition tdf_read_align : reader unit := fun r => (TDFReader (r_source r) (r_byte r) true, Ok tt).

Definition tdf_read_bytes (nstring : NStringT) : reader NStringT := fun r =>
  let length := nstring_length nstring in
  let '(r, _) := tdf_read_align r in
  match r_source r with
  | RT_STREAM b =>
      (chars ← on_bistream b (bistream_read_chars length);
       if (List.length chars =? length)%nat
       then mret (NString (n_length nstring) (memcpy_at (n_contents nstring) 0 chars length))
       else st_throw XX_tdf_read_error) r
  | RT_STRING s =>
      if (s_limit s <? s_current s + length)%nat then (r, Throw XX_tdf_read_error)
      else
        let nstring := nstring_insert_cstring nstring (drop (s_current s) (s_contents s)) in
        (TDFReader
           (RT_STRING (StringSource (s_contents s) (s_current s + length) (s_limit s) (s_name s)
                         (s_byte s + length)))
           (r_byte r) (r_new_byte r),
         Ok nstring)
  end.

Section IO.
Variable junk : nat -> Z.
Variable junk_nstring : nat -> NStringT.

Definition tdf_read_string : reader NStringT :=
  size ← tdf_read_int;
  if negb (size =? 8) then st_throw XX_tdf_read_error
  else
    length ← tdf_read_int;
    tdf_read_bytes (nstring_init_length junk (Z.to_nat length)).

(** The loop over the components; a failed assertion cannot happen, as
    [i < components]. *)
Fixpoint tdf_read_components (n i : nat) (name : NameKeyT) : reader NameKeyT :=
  match n with
  | O => mret name
  | S n =>
      nstring ← tdf_read_string;
      match name_key_set_component name i nstring with
      | Some name => tdf_read_components n (S i) name
      | None => st_throw XX_tdf_read_error
      end
  end.

Definition tdf_read_name : reader NameKeyT :=
  nibble ← tdf_read_nibble;
  let type := Z.land (Z.shiftr nibble 2) 3 in
  _ ← tdf_read_align;
  if type =? 1 then
    nstring ← tdf_read_string; mret (name_key_init_string nstring)
  else if type =? 2 then
    components ← tdf_read_int;
    tdf_read_components (Z.to_nat components) 0
      (name_key_init_unique junk_nstring (Z.to_nat components))
  else st_throw XX_tdf_read_error.

Definition tdf_read_eof : reader unit := fun r =>
  match r_source r with
  | RT_STREAM b =>
      (byte ← on_bistream b bistream_read_byte;
       match byte with
       | Some _ => st_throw XX_tdf_read_error
       | None => mret tt
       end) r
  | RT_STRING s =>
      if (s_current s <? s_limit s)%nat then (r, Throw XX_tdf_read_error) else (r, Ok tt)
  end.

Definition tdf_reader_rewind : reader unit := fun r =>
  match r_source r with
  | RT_STREAM b => on_bistream b bistream_rewind r
  | RT_STRING s =>
      set_source (RT_STRING (StringSource (s_contents s) 0 (s_limit s) (s_name s) (s_byte s))) r
  end.

Definition tdf_reader_close : reader unit := fun r =>
  match r_source r with
  | RT_STREAM b => on_bistream b bistream_close r
  | RT_STRING _ => (r, Ok tt)
  end.
End IO.

(** ** Writers *)

Record TDFWriterT := TDFWriter { w_bostream : BOStreamT; w_byte : Z; w_new_byte : bool }.

Definition writer := stM TDFWriterT exn.

Definition on_bostream {A} (m : stM BOStreamT exn A) : writer A :=
  st_zoom w_bostream (fun b w => TDFWriter b (w_byte w) (w_new_byte w)) m.

Definition set_wbyte (byte : Z) (new_byte : bool) : writer unit := fun w =>
  (TDFWriter (w_bostream w) byte new_byte, Ok tt).

Definition tdf_write_nibble (nibble : Z) : writer unit := fun w =>
  if w_new_byte w then set_wbyte (u8 (Z.shiftl (Z.land nibble 15) 4)) false w
  else
    let byte := Z.lor (w_byte w) (u8 (Z.land nibble 15)) in
    (_ ← set_wbyte byte true; on_bostream (bostream_write_byte byte)) w.

Definition tdf_writer_open (device : DeviceT) (name : list Z) (byte : Z) : TDFWriterT :=
  TDFWriter (bostream_open device name) byte true.

(** What is in the file by now. *)
Definition bytes_in_file (w : TDFWriterT) : list Z := on_device (bo_file (w_bostream w)).

(** The first loop of [tdf_write_int]: the number of digits before the last.
    Eleven rounds empty 32 bits. *)
Fixpoint count_shift (fuel : nat) (tmp : Z) (shift : nat) : nat :=
  match fuel with
  | O => shift
  | S fuel =>
      if Z.land tmp (u32 (Z.lnot 7)) =? 0 then shift
      else count_shift fuel (Z.shiftr tmp 3) (S shift)
  end.

Fixpoint write_digits (shift : nat) (value : Z) : writer unit :=
  match shift with
  | O => mret tt
  | S shift' =>
      let tmp := Z.land (Z.shiftr value (3 * Z.of_nat shift)) 7 in
      _ ← tdf_write_nibble tmp; write_digits shift' value
  end.

Definition tdf_write_int (value : Z) : writer unit :=
  let shift := count_shift 11 value 0 in
  _ ← write_digits shift value;
  tdf_write_nibble (Z.lor (Z.land value 7) 8).

Definition tdf_write_align : writer unit := fun w =>
  if w_new_byte w then (w, Ok tt)
  else (_ ← on_bostream (bostream_write_byte (w_byte w)); set_wbyte (w_byte w) true) w.

Definition tdf_write_bytes (nstring : NStringT) : writer unit :=
  _ ← tdf_write_align;
  on_bostream (bostream_write_chars (take (nstring_length nstring) (nstring_contents nstring))).

Definition tdf_write_string (nstring : NStringT) : writer unit :=
  _ ← tdf_write_int 8;
  _ ← tdf_write_int (u32 (Z.of_nat (nstring_length nstring)));
  tdf_write_bytes nstring.

Fixpoint tdf_write_components (components : list NStringT) : writer unit :=
  match components with
  | [] => mret tt
  | nstring :: components => _ ← tdf_write_string nstring; tdf_write_components components
  end.

Definition tdf_write_name (name : NameKeyT) : writer unit :=
  match name with
  | KT_STRING s =>
      _ ← tdf_write_nibble (Z.shiftl 1 2); _ ← tdf_write_align; tdf_write_string s
  | KT_UNIQUE components =>
      _ ← tdf_write_nibble (Z.shiftl 2 2); _ ← tdf_write_align;
      _ ← tdf_write_int (u32 (Z.of_nat (length components)));
      tdf_write_components components
  end.

Definition tdf_writer_close : writer unit :=
  _ ← tdf_write_align; on_bostream bostream_close.
