(* ===== verification/ExdsStream.v ===== *)
(** * ExdsStream: text input streams

    Models libexds/src/istream.c, the buffered reader of text with escape
    sequences, and the macros of exds/istream.h. The characters in the buffer
    are followed by a NUL; reading a NUL, the program asks whether it is that
    one ([ISTREAM_HANDLE_NULL]), and then fills the buffer again if it is full
    and takes the end of a shorter buffer for the end of the file. A file is
    the list of its bytes, an entry [None] standing for a place where the
    device fails to read. *)
From stdpp Require Import base list list_numbers numbers.
From Stdlib Require Import ZArith Lia.
From S2P Require Import Prelude Codec ExdsString TldNameKey TldIO.

Definition ISTREAM_BUFSIZE : Z := 8193.

(** [IStop] is a read beyond the buffer. *)
Inductive istream_exn := XX_istream_read_error (name : list Z) | IStop.

Inductive IStreamStatusT := ISTREAM_STAT_READ_CHAR | ISTREAM_STAT_NO_CHAR | ISTREAM_STAT_SYNTAX_ERROR.

(** [is_buffer]: the buffer up to [end], that is, with the NUL that ends it;
    [is_current] is a position in it. *)
Record IStreamT := IStream {
  is_file : list (option Z);
  is_buffer : list Z;
  is_current : nat;
  is_line : Z;
  is_name : option (list Z);
  read_last : bool
}.

Definition is_end (s : IStreamT) : nat := length (is_buffer s).
Definition is_full (s : IStreamT) : bool := Z.of_nat (is_end s) =? ISTREAM_BUFSIZE.

Definition istream (A : Type) : Type := stM IStreamT istream_exn A.

Definition set_current (n : nat) (s : IStreamT) : IStreamT :=
  IStream (is_file s) (is_buffer s) n (is_line s) (is_name s) (read_last s).
Definition set_read_last (b : bool) (s : IStreamT) : IStreamT :=
  IStream (is_file s) (is_buffer s) (is_current s) (is_line s) (is_name s) b.

Definition istream_fill_buffer : istream unit := fun s =>
  let chars := fread (is_file s) (Z.to_nat (ISTREAM_BUFSIZE - 1)) in
  if bool_decide (chars = []) && bool_decide (head (is_file s) = Some None)
  then (s, Throw (XX_istream_read_error (default [] (is_name s))))
  else (IStream (drop (length chars) (is_file s)) (chars ++ [0]) 0 (is_line s) (is_name s) false, Ok tt).

(** The character at the current position. *)
Definition istream_here : istream Z := fun s =>
  match is_buffer s !! is_current s with
  | Some c => (s, Ok c)
  | None => (s, Throw IStop)
  end.

Definition ISTREAM_READ_CHAR : istream Z :=
  s ← st_get;
  _ ← st_put (set_read_last true s);
  c ← istream_here;
  _ ← st_put (set_current (S (is_current s)) (set_read_last true s));
  mret c.

Definition ISTREAM_PEEK_CHAR : istream Z :=
  s ← st_get;
  _ ← st_put (set_read_last false s);
  istream_here.

(** What follows a NUL: it is a character, the buffer was filled again and the
    character is to be read again, or it is the end. *)
Inductive null_case := NullChar | NullRedo | NullEof.

Definition ISTREAM_HANDLE_NULL : istream null_case :=
  s ← st_get;
  if read_last s then
    if (is_current s =? is_end s)%nat then
      if is_full s then _ ← istream_fill_buffer; mret NullRedo
      else _ ← st_put (set_current (pred (is_current s)) s); mret NullEof
    else mret NullChar
  else if (is_current s =? pred (is_end s))%nat then
    if is_full s then _ ← istream_fill_buffer; mret NullRedo
    else mret NullEof
  else mret NullChar.

(** The loop of the labels [redo] and [eof]: [None] at the end of the file.
    It goes round once, to the start of a buffer that was just filled. *)
Fixpoint istream_redo (rounds : nat) (read : istream Z) : istream (option Z) :=
  match rounds with
  | O => st_throw IStop
  | S rounds =>
      c ← read;
      if c =? 0 then
        k ← ISTREAM_HANDLE_NULL;
        match k with
        | NullChar => mret (Some c)
        | NullRedo => istream_redo rounds read
        | NullEof => mret None
        end
      else mret (Some c)
  end.

Definition istream_getc : istream (option Z) := istream_redo 2 ISTREAM_READ_CHAR.

Definition istream_inc_line : istream unit := fun s =>
  (IStream (is_file s) (is_buffer s) (is_current s) (u32 (is_line s + 1)) (is_name s) (read_last s), Ok tt).

Definition istream_line (s : IStreamT) : Z := is_line s.

Definition ch_newline : Z := 10.

(** [None] where the source returns [false]. *)
Definition istream_read_char : istream (option Z) :=
  o ← istream_getc;
  match o with
  | Some c => _ ← (if c =? ch_newline then istream_inc_line else mret tt); mret (Some c)
  | None => mret None
  end.

Definition istream_peek_char : istream (option Z) := istream_redo 2 ISTREAM_PEEK_CHAR.

(** A hexadecimal digit; [None] where the source reports a syntax error. *)
Definition istream_read_hex_digit : istream (option Z) :=
  o ← istream_getc;
  match o with
  | None => mret None
  | Some c =>
      if c =? 0 then mret None
      else if c =? ch_newline then _ ← istream_inc_line; mret None
      else
        let value := syntax_value c in
        mret (if (value =? SYNTAX_NO_VALUE) || (16 <=? value) then None else Some value)
  end.

(** The status, and the character when there is one. *)
Definition istream_read_hex_char : istream (IStreamStatusT * Z) :=
  tmp ← istream_read_hex_digit;
  match tmp with
  | None => mret (ISTREAM_STAT_SYNTAX_ERROR, 0)
  | Some tmp =>
      value ← istream_read_hex_digit;
      match value with
      | None => mret (ISTREAM_STAT_SYNTAX_ERROR, 0)
      | Some value => mret (ISTREAM_STAT_READ_CHAR, u8 (tmp * 16 + value))
      end
  end.

Definition istream_read_escaped_char : istream (IStreamStatusT * Z) :=
  o ← istream_getc;
  match o with
  | None => mret (ISTREAM_STAT_SYNTAX_ERROR, 0)
  | Some c =>
      if c =? ch_newline then _ ← istream_inc_line; mret (ISTREAM_STAT_NO_CHAR, 0)
      else if c =? ch_0 then mret (ISTREAM_STAT_READ_CHAR, 0)
      else if (c =? 102) || (c =? 70) then mret (ISTREAM_STAT_READ_CHAR, 12)     (* f F *)
      else if (c =? 110) || (c =? 78) then mret (ISTREAM_STAT_READ_CHAR, 10)     (* n N *)
      else if (c =? 114) || (c =? 82) then mret (ISTREAM_STAT_READ_CHAR, 13)     (* r R *)
      else if (c =? 116) || (c =? 84) then mret (ISTREAM_STAT_READ_CHAR, 9)      (* t T *)
      else if (c =? 120) || (c =? 88) then istream_read_hex_char                 (* x X *)
      else mret (ISTREAM_STAT_READ_CHAR, c)
  end.

(** [data]: what can be read of the file. *)
Definition istream_open (data : list (option Z)) (name : list Z) : IStreamT * result istream_exn unit :=
  istream_fill_buffer (IStream data [] 0 1 (Some name) false).

Definition istream_is_open (s : IStreamT) : bool := match is_name s with Some _ => true | None => false end.

Definition istream_close : istream unit := fun s =>
  (IStream (is_file s) (is_buffer s) (is_current s) (is_line s) None (read_last s), Ok tt).

(** ** What a stream delivers *)

(** The characters before the end or the first failure of the device. *)
Fixpoint text (f : list (option Z)) : list Z :=
  match f with
  | Some c :: f => c :: text f
  | _ => []
  end.

(** Whether the failure is noticed: it is when it comes at the start of a
    buffer; otherwise the buffer is short, like the last one of a file. *)
Definition fails (f : list (option Z)) : bool :=
  bool_decide (f !! length (text f) = Some None) && (Z.of_nat (length (text f)) mod (ISTREAM_BUFSIZE - 1) =? 0).

(** The stream is about to deliver [l], then to fail or to end. *)
Definition stream_at (s : IStreamT) (l : list Z) (b : bool) : Prop := exists bs,
  is_buffer s = bs ++ [0] /\ (length bs <= Z.to_nat (ISTREAM_BUFSIZE - 1))%nat /\ (is_current s <= length bs)%nat /\
  l = drop (is_current s) bs ++ (if is_full s then text (is_file s) else []) /\
  b = is_full s && fails (is_file s).

Lemma fread_text f n : fread f n = take n (text f).
Proof.
  revert f. induction n as [|n IH]; intros [|[c|] f]; cbn [fread text]; [..|by rewrite IH|]; by rewrite ?take_nil.
Qed.

Lemma text_length f : (length (text f) <= length f)%nat.
Proof. induction f as [|[c|] f IH]; cbn; lia. Qed.

Lemma text_drop f n : (n <= length (text f))%nat -> text (drop n f) = drop n (text f).
Proof.
  revert f. induction n as [|n IH]; intros f Hn; [by rewrite !drop_0|]. destruct f as [|[c|] f]; cbn in *; try lia. apply IH. lia.
Qed.

Lemma fails_drop f : (Z.to_nat (ISTREAM_BUFSIZE - 1) <= length (text f))%nat -> fails (drop (Z.to_nat (ISTREAM_BUFSIZE - 1)) f) = fails f.
Proof.
  intros Hn. unfold fails. rewrite text_drop, length_drop, lookup_drop by exact Hn.
  rewrite (Nat.add_comm (Z.to_nat _)), Nat.sub_add by exact Hn. f_equal.
  change (ISTREAM_BUFSIZE - 1) with 8192 in *. rewrite Nat2Z.inj_sub, Z2Nat.id by lia.
  rewrite <- (Z_mod_plus_full (Z.of_nat (length (text f)) - 8192) 1 8192). f_equal. f_equal. lia.
Qed.

(** Filling the buffer at its end. *)
Lemma fill_ok s :
  if bool_decide (text (is_file s) = []) && bool_decide (head (is_file s) = Some None)
  then istream_fill_buffer s = (s, Throw (XX_istream_read_error (default [] (is_name s)))) /\ fails (is_file s) = true
  else exists s', istream_fill_buffer s = (s', Ok tt) /\ stream_at s' (text (is_file s)) (fails (is_file s)) /\
    is_line s' = is_line s /\ is_name s' = is_name s /\ is_current s' = 0%nat.
Proof.
  unfold istream_fill_buffer. rewrite fread_text. set (f := is_file s). set (n := Z.to_nat (ISTREAM_BUFSIZE - 1)).
  assert (bool_decide (take n (text f) = []) = bool_decide (text f = [])) as ->.
  { apply bool_decide_ext. destruct (text f); [by rewrite take_nil|]. done. }
  destruct (bool_decide (text f = []) && bool_decide (head f = Some None)) eqn:E.
  - apply andb_true_iff in E as [E1 E2]. split; [reflexivity|]. unfold fails. apply bool_decide_eq_true_1 in E1. rewrite E1.
    cbn. rewrite andb_true_r. apply bool_decide_eq_true_1 in E2. apply bool_decide_eq_true. by destruct f as [|x f].
  - eexists. split; [reflexivity|]. split; [|by split_and!]. exists (take n (text f)). cbn [is_buffer is_current is_file].
    rewrite length_take. split; [reflexivity|]. split; [fold n; lia|]. split; [lia|]. rewrite drop_0.
    unfold is_full, is_end. cbn [is_buffer]. rewrite length_app, length_take. cbn [length].
    destruct (Nat.le_gt_cases n (length (text f))) as [Hn|Hn].
    + rewrite Nat.min_l by exact Hn. replace (Z.of_nat (n + 1) =? ISTREAM_BUFSIZE) with true by (vm_compute; reflexivity).
      rewrite text_drop by exact Hn. split; [by rewrite take_drop|]. cbn [andb]. symmetry. by apply fails_drop.
    + rewrite Nat.min_r by lia. replace (Z.of_nat (length (text f) + 1) =? ISTREAM_BUFSIZE) with false.
      2: { symmetry. apply Z.eqb_neq. unfold n, ISTREAM_BUFSIZE in *. lia. }
      rewrite app_nil_r, take_ge by lia. split; [reflexivity|]. cbn [andb]. unfold fails.
      destruct (bool_decide (f !! length (text f) = Some None)) eqn:E3; [|reflexivity]. cbn [andb]. apply Z.eqb_neq.
      apply bool_decide_eq_true_1 in E3. rewrite Z.mod_small by (unfold n, ISTREAM_BUFSIZE in *; lia).
      destruct (text f) eqn:Et; [|cbn; lia]. exfalso. cbn in E3, E. destruct f as [|x f']; [discriminate|]. cbn in E3, E.
      injection E3 as ->. discriminate.
Qed.

(** The position and the name of a stream. *)
Definition same_place (s s' : IStreamT) : Prop := is_line s' = is_line s /\ is_name s' = is_name s.

#[export] Instance same_place_preorder : PreOrder same_place.
Proof. split; [by intros s|]. intros s1 s2 s3 [A1 A2] [B1 B2]. split; congruence. Qed.

Lemma is_end_app s bs : is_buffer s = bs ++ [0] -> is_end s = S (length bs).
Proof. intros E. unfold is_end. rewrite E, length_app. cbn. lia. Qed.

(** The state after a character was read. *)
Definition advance (s : IStreamT) : IStreamT := set_current (S (is_current s)) (set_read_last true s).

Lemma read_char_eq s c : is_buffer s !! is_current s = Some c -> ISTREAM_READ_CHAR s = (advance s, Ok c).
Proof.
  intros E. unfold ISTREAM_READ_CHAR, istream_here, mbind, stM_bind, st_get, st_put.
  change (is_buffer (set_read_last true s)) with (is_buffer s). change (is_current (set_read_last true s)) with (is_current s).
  by rewrite E.
Qed.

Lemma redo_eq n s c : is_buffer s !! is_current s = Some c ->
  istream_redo (S n) ISTREAM_READ_CHAR s =
    if c =? 0 then
      (k ← ISTREAM_HANDLE_NULL;
       match k with
       | NullChar => mret (Some c)
       | NullRedo => istream_redo n ISTREAM_READ_CHAR
       | NullEof => mret None
       end) (advance s)
    else (advance s, Ok (Some c)).
Proof. intros E. cbn [istream_redo]. rewrite (stM_bind_ok _ _ _ _ _ (read_char_eq s c E)). by destruct (c =? 0). Qed.

(** After a NUL was read. *)
Lemma handle_null_eq s : ISTREAM_HANDLE_NULL (advance s) =
  if (S (is_current s) =? is_end s)%nat then
    if is_full s then (_ ← istream_fill_buffer; mret NullRedo) (advance s)
    else (set_current (is_current s) (advance s), Ok NullEof)
  else (advance s, Ok NullChar).
Proof.
  unfold ISTREAM_HANDLE_NULL, mbind, stM_bind, st_get. change (read_last (advance s)) with true.
  change (is_current (advance s)) with (S (is_current s)). change (is_end (advance s)) with (is_end s).
  change (is_full (advance s)) with (is_full s). destruct (_ =? _)%nat; [|reflexivity]. by destruct (is_full s).
Qed.

(** A character before the end of the buffer. *)
Lemma redo_inside n s bs c :
  is_buffer s = bs ++ [0] -> bs !! is_current s = Some c ->
  istream_redo (S n) ISTREAM_READ_CHAR s = (advance s, Ok (Some c)).
Proof.
  intros E Ec. pose proof (lookup_lt_Some _ _ _ Ec) as Hlt.
  rewrite (redo_eq n s c) by (by rewrite E; apply lookup_app_l_Some). destruct (c =? 0); [|reflexivity].
  unfold mbind, stM_bind. rewrite handle_null_eq, (is_end_app s bs E).
  by rewrite (proj2 (Nat.eqb_neq (S (is_current s)) _)) by lia.
Qed.

(** The end of the buffer. *)
Lemma redo_end n s bs :
  is_buffer s = bs ++ [0] -> is_current s = length bs ->
  istream_redo (S n) ISTREAM_READ_CHAR s =
    if is_full s then (_ ← istream_fill_buffer; istream_redo n ISTREAM_READ_CHAR) (advance s)
    else (set_current (is_current s) (advance s), Ok None).
Proof.
  intros E Ec. rewrite (redo_eq n s 0) by (by rewrite E, Ec; apply list_lookup_middle).
  change (0 =? 0) with true. cbn iota. unfold mbind, stM_bind.
  rewrite handle_null_eq, (is_end_app s bs E), Ec, Nat.eqb_refl. destruct (is_full s); [|reflexivity].
  unfold mbind, stM_bind. by destruct (istream_fill_buffer (advance s)) as [s2 [[]|e]].
Qed.

Lemma stream_next s bs c :
  is_buffer s = bs ++ [0] -> bs !! is_current s = Some c -> stream_at s (c :: drop (S (is_current s)) bs ++
    (if is_full s then text (is_file s) else [])) (is_full s && fails (is_file s)) ->
  stream_at (advance s) (drop (S (is_current s)) bs ++
    (if is_full s then text (is_file s) else [])) (is_full s && fails (is_file s)).
Proof.
  intros E Ec (bs' & E' & H1 & _). rewrite E in E'. apply app_inj_2 in E' as [<- _]; [|reflexivity].
  exists bs. pose proof (lookup_lt_Some _ _ _ Ec). split_and!; auto; cbn; lia.
Qed.

(** The first character, the failure or the end. *)
Lemma getc_ok s l b : stream_at s l b ->
  match l with
  | c :: l => exists s', istream_getc s = (s', Ok (Some c)) /\ stream_at s' l b /\ same_place s s'
  | [] => if b then exists s', istream_getc s = (s', Throw (XX_istream_read_error (default [] (is_name s))))
          else exists s', istream_getc s = (s', Ok None) /\ stream_at s' [] false /\ same_place s s'
  end.
Proof.
  intros Hs. pose proof Hs as (bs & E & Hlen & Hcur & El & Eb). unfold istream_getc.
  destruct (decide (is_current s < length bs)%nat) as [Hlt|Hge].
  - destruct (lookup_lt_is_Some_2 bs (is_current s) Hlt) as [c Ec]. rewrite (drop_S _ _ _ Ec) in El. cbn in El. subst l b.
    eexists. split; [by apply (redo_inside 1 s bs)|]. split; [by apply (stream_next s bs c)|]. by split.
  - rewrite drop_ge in El by lia. cbn in El. assert (is_current s = length bs) as Ecur by lia.
    set (s1 := advance s). rewrite (redo_end 1 s bs E Ecur). fold s1.
    destruct (is_full s) eqn:Ef; cycle 1.
    { subst l b. cbn [andb]. eexists. split; [reflexivity|]. split; [|by split]. exists bs.
      change (is_full (set_current _ _)) with (is_full s). rewrite Ef. cbn. rewrite drop_ge by lia. split_and!; auto; lia. }
    cbn [andb] in Eb. pose proof (fill_ok s1) as H. change (is_file s1) with (is_file s) in H. change (is_name s1) with (is_name s) in H.
    rewrite <- El, <- Eb in H. unfold mbind, stM_bind.
    destruct (bool_decide (l = []) && _) eqn:Ebad.
    + destruct H as [-> ->]. apply andb_true_iff in Ebad as [Ebad _]. apply bool_decide_eq_true_1 in Ebad. clear El. subst l. by eexists.
    + destruct H as (s2 & -> & H2 & Hline & Hname & Hcur2). pose proof H2 as (bs2 & E2 & Hlen2 & _ & El2 & Eb2).
      rewrite Hcur2, drop_0 in El2. destruct bs2 as [|c bs2].
      * cbn in El2. assert (is_full s2 = false) as Ef2 by (unfold is_full, is_end; by rewrite E2). rewrite Ef2 in El2, Eb2.
        clear El. subst l. cbn in Eb2. rewrite Eb2, (redo_end 0 s2 [] E2 Hcur2), Ef2. eexists. split; [reflexivity|].
        split; [|by split]. exists []. cbn. change (is_full (set_current _ _)) with (is_full s2). rewrite E2, Ef2, Hcur2. split_and!; auto; apply Nat.le_0_l.
      * cbn in El2. clear El. subst l. assert ((c :: bs2) !! is_current s2 = Some c) as Ec by (by rewrite Hcur2).
        eexists. split; [by apply (redo_inside 0 s2 (c :: bs2))|]. split; [|by split].
        pose proof (stream_next s2 (c :: bs2) c E2 Ec) as Hn. rewrite Hcur2 in Hn. cbn [drop] in Hn. rewrite <- Eb2 in Hn.
        by apply Hn.
Qed.

Lemma open_ok data name :
  if bool_decide (text data = []) && bool_decide (head data = Some None)
  then exists s, istream_open data name = (s, Throw (XX_istream_read_error name)) /\ fails data = true
  else exists s, istream_open data name = (s, Ok tt) /\ stream_at s (text data) (fails data) /\ is_line s = 1 /\ is_name s = Some name.
Proof.
  unfold istream_open. pose proof (fill_ok (IStream data [] 0 1 (Some name) false)) as H. cbn [is_file is_name is_line default] in H.
  destruct (_ && _).
  - destruct H as [-> H]. eauto.
  - destruct H as (s & -> & H1 & H2 & H3 & _). exists s. by split_and!.
Qed.

(** ** Reading a whole file *)

Fixpoint read_all (fuel : nat) (s : IStreamT) : list Z * IStreamT * result istream_exn unit :=
  match fuel with
  | O => ([], s, Ok tt)
  | S fuel =>
      match istream_read_char s with
      | (s, Ok (Some c)) => let '(l, s, r) := read_all fuel s in (c :: l, s, r)
      | (s, Ok None) => ([], s, Ok tt)
      | (s, Throw e) => ([], s, Throw e)
      end
  end.

Definition newlines (l : list Z) : Z := Z.of_nat (length (filter (fun c => c = ch_newline) l)).

Lemma read_char_ok s l b : stream_at s l b ->
  match l with
  | c :: l => exists s', istream_read_char s = (s', Ok (Some c)) /\ stream_at s' l b /\ is_name s' = is_name s /\
      is_line s' = if c =? ch_newline then u32 (is_line s + 1) else is_line s
  | [] => if b then exists s', istream_read_char s = (s', Throw (XX_istream_read_error (default [] (is_name s))))
          else exists s', istream_read_char s = (s', Ok None) /\ stream_at s' [] false /\ same_place s s'
  end.
Proof.
  intros H. pose proof (getc_ok s l b H) as Hg. unfold istream_read_char, mbind, stM_bind. destruct l as [|c l].
  - destruct b.
    + destruct Hg as (s' & ->). eauto.
    + destruct Hg as (s' & -> & H1 & H2). eauto.
  - destruct Hg as (s' & -> & H1 & H2 & H3). destruct (c =? ch_newline).
    + eexists. split; [reflexivity|]. split; [exact H1|]. split; [exact H3|]. cbn. by rewrite H2.
    + eexists. split; [reflexivity|]. by split_and!.
Qed.

Lemma read_all_ok l b : forall s fuel,
  stream_at s l b -> (length l < fuel)%nat -> 0 <= is_line s < 2 ^ 32 ->
  exists s', read_all fuel s = (l, s', if b then Throw (XX_istream_read_error (default [] (is_name s))) else Ok tt) /\
    (b = false -> is_line s' = u32 (is_line s + newlines l)).
Proof.
  induction l as [|c l IH]; intros s fuel Hs Hf Hline; (destruct fuel as [|fuel]; [cbn in Hf; lia|]); cbn [read_all];
    pose proof (read_char_ok s _ b Hs) as H.
  - destruct b.
    + destruct H as (s' & ->). exists s'. by split.
    + destruct H as (s' & -> & _ & H & _). exists s'. split; [reflexivity|]. intros _. rewrite H. unfold newlines. cbn.
      rewrite Z.add_0_r. symmetry. apply wrap_small. exact Hline.
  - destruct H as (s1 & -> & H1 & Hn & Hl1). cbn in Hf.
    assert (0 <= is_line s1 < 2 ^ 32) as Hu.
    { rewrite Hl1. destruct (c =? ch_newline); [apply Z.mod_pos_bound; reflexivity|exact Hline]. }
    destruct (IH s1 fuel H1 ltac:(lia) Hu) as (s' & -> & H2). exists s'. rewrite Hn. split; [reflexivity|]. intros Hb.
    rewrite (H2 Hb), Hl1. unfold newlines. rewrite filter_cons. destruct (Z.eqb_spec c ch_newline) as [E|E].
    + rewrite decide_True by exact E. cbn [length]. unfold u32, wrap. rewrite Zplus_mod_idemp_l. f_equal. lia.
    + by rewrite decide_False by exact E.
Qed.

(** C36: a text stream delivers the characters of the file in order, NULs and
    buffers of 8192 characters included, and counts its lines. A failure of
    the device is thrown only when it comes where a buffer starts: after the
    first characters of a buffer it is taken for the end of the file. *)
Theorem istream_delivers data name :
  if bool_decide (head data = Some None) then exists s, istream_open data name = (s, Throw (XX_istream_read_error name))
  else exists s s', istream_open data name = (s, Ok tt) /\
    read_all (S (length (text data))) s =
      (text data, s', if bool_decide (data !! length (text data) = Some None) && (Z.of_nat (length (text data)) mod 8192 =? 0)
                      then Throw (XX_istream_read_error name) else Ok tt) /\
    (data !! length (text data) <> Some None -> is_line s' = u32 (1 + newlines (text data))).
Proof.
  pose proof (open_ok data name) as H. destruct (bool_decide (head data = Some None)) eqn:Eh.
  - apply bool_decide_eq_true_1 in Eh. destruct data as [|[c|] data]; [discriminate|discriminate|]. cbn in H. destruct H as (s & H & _). eauto.
  - rewrite andb_false_r in H. destruct H as (s & Ho & Hs & Hline & Hname).
    destruct (read_all_ok (text data) (fails data) s (S (length (text data))) Hs (Nat.lt_succ_diag_r _)) as (s' & Hr & Hl).
    { rewrite Hline. lia. }
    rewrite Hname in Hr. exists s, s'. split; [exact Ho|]. split; [exact Hr|]. intros Hne. rewrite Hl, Hline; [reflexivity|].
    unfold fails. by rewrite bool_decide_eq_false_2.
Qed.
