(* ===== verification/ExdsOStream.v ===== *)
(** * ExdsOStream: text output streams

    Models libexds/src/ostream.c: streams of text to files, with their line
    numbers and with escaped characters. The files are those of CStdio, whose
    error indicator every operation looks at when it has written. The buffering
    is that of the device: [ostream_open] asks for a full one, and no program
    calls [ostream_buffer] or [ostream_unbuffer]. The messages of the system and
    the representation of pointers are left out. *)
From stdpp Require Import base list list_numbers numbers.
From Stdlib Require Import ZArith Lia.
From S2P Require Import Prelude Codec ExdsString CStdio ExdsStream.

Inductive ostream_exn := XX_ostream_write_error (name : list Z).

(** [os_name] is [None] for the null pointer. *)
Record OStreamT := OStream {
  os_file : FileT;
  os_name : option (list Z);
  os_gen_name : list Z;
  os_no : Z;
  os_line : Z
}.

Definition ostream (A : Type) : Type := stM OStreamT ostream_exn A.

(** ** The C library *)

(** On the file of a stream, which says whether it fails. *)
Definition on_file (m : FileT -> FileT * bool) : ostream bool := fun s =>
  let '(file, fails) := m (os_file s) in
  (OStream file (os_name s) (os_gen_name s) (os_no s) (os_line s), Ok fails).

(** [fputs], [putc] and [fprintf], whose results are not looked at. *)
Definition fputs (chars : list Z) : ostream unit := _ ← on_file (fwrite chars); mret tt.

(** The decimal digits of [%u], the last ones first found. *)
Fixpoint decimal_loop (fuel : nat) (n : Z) (digits : list Z) : list Z :=
  match fuel with
  | O => digits
  | S fuel =>
      let digits := (48 + n mod 10) :: digits in
      if n / 10 =? 0 then digits else decimal_loop fuel (n / 10) digits
  end.

Definition decimal (n : Z) : list Z := decimal_loop 10 n [].

(** [%d] *)
Definition signed_decimal (n : Z) : list Z := if n <? 0 then 45 :: decimal (- n) else decimal n.

Definition hex_char (n : Z) : Z := if n <? 10 then 48 + n else 87 + n.

(** [isprint] of the C locale. *)
Definition isprint (c : Z) : bool := (32 <=? c) && (c <? 127).

(** ** ostream.c *)

Definition write_error : ostream unit := fun s => (s, Throw (XX_ostream_write_error (default [] (os_name s)))).

Definition OSTREAM_WRITE_ERROR_CHECK : ostream unit := fun s =>
  (if ferror (os_file s) then write_error else mret tt) s.

Definition add_lines (n : Z) : ostream unit := fun s =>
  (OStream (os_file s) (os_name s) (os_gen_name s) (os_no s) (u32 (os_line s + n)), Ok tt).

Definition chars_stdout : list Z := [60; 115; 116; 100; 111; 117; 116; 62].

(** The standard output, when [ostream_setup] has set its file. *)
Definition ostream_setup (device : DeviceT) : OStreamT :=
  OStream (fopen device) (Some chars_stdout) chars_stdout 0 1.

Definition ostream_init (s : OStreamT) : OStreamT :=
  OStream (os_file s) None (os_gen_name s) (os_no s) (os_line s).

Definition ch_at : Z := 64.

(** The name of the file: the number of the stream takes the place of the last
    [@]. [can_open] gives the device of a file that can be opened, with its full
    buffering. *)
Definition ostream_open (can_open : list Z -> option DeviceT) (name : list Z) (s : OStreamT) : OStreamT * bool :=
  let '(oname, no) :=
    match split_last ch_at name with
    | Some (before, after) => (before ++ signed_decimal (os_no s + 1) ++ after, os_no s + 1)
    | None => (name, os_no s)
    end in
  match can_open oname with
  | None => (OStream (os_file s) (os_name s) (os_gen_name s) no (os_line s), false)
  | Some device => (OStream (fopen device) (Some oname) name no 1, true)
  end.

Definition ostream_is_open (s : OStreamT) : bool := match os_name s with Some _ => true | None => false end.

Definition ostream_close : ostream unit :=
  fails ← on_file fclose;
  _ ← (if (fails : bool) then write_error else mret tt);
  s ← st_get;
  st_put (ostream_init s).

Definition ostream_flush : ostream unit :=
  fails ← on_file fflush;
  if (fails : bool) then write_error else mret tt.

Definition ostream_name (s : OStreamT) : option (list Z) := os_name s.
Definition ostream_gen_name (s : OStreamT) : list Z := os_gen_name s.
Definition ostream_line (s : OStreamT) : Z := os_line s.

Definition write_newline : ostream unit :=
  _ ← add_lines 1; _ ← fputs [ch_newline]; OSTREAM_WRITE_ERROR_CHECK.

Definition ch_tab : Z := 9.

Definition write_tab : ostream unit := _ ← fputs [ch_tab]; OSTREAM_WRITE_ERROR_CHECK.

Definition write_char (c : Z) : ostream unit :=
  _ ← (if c =? ch_newline then add_lines 1 else mret tt);
  _ ← fputs [c]; OSTREAM_WRITE_ERROR_CHECK.

(** The characters after the switch of [write_escaped_char]; 92 is the
    backslash, 120 the letter x. *)
Definition escape (c : Z) : list Z :=
  if c =? 0 then [92; 48]
  else if c =? 12 then [92; 102]
  else if c =? ch_newline then [c]
  else if c =? 13 then [92; 114]
  else if c =? ch_tab then [c]
  else if c =? 92 then [92; 92]
  else if isprint c then [c]
  else [92; 120; hex_char (c / 16); hex_char (c mod 16)].

Definition write_escaped_char (c : Z) : ostream unit :=
  _ ← (if c =? ch_newline then add_lines 1 else mret tt);
  _ ← fputs (escape c); OSTREAM_WRITE_ERROR_CHECK.

Definition write_int (i : Z) : ostream unit := _ ← fputs (signed_decimal i); OSTREAM_WRITE_ERROR_CHECK.

Definition write_unsigned (i : Z) : ostream unit := _ ← fputs (decimal i); OSTREAM_WRITE_ERROR_CHECK.

(** The characters of the string, without its terminator. *)
Definition write_cstring (cstring : list Z) : ostream unit :=
  _ ← add_lines (newlines cstring);
  _ ← fputs cstring; OSTREAM_WRITE_ERROR_CHECK.

Fixpoint write_chars (chars : list Z) : ostream unit :=
  match chars with
  | [] => mret tt
  | c :: chars => _ ← write_char c; write_chars chars
  end.

Fixpoint write_escaped_chars (chars : list Z) : ostream unit :=
  match chars with
  | [] => mret tt
  | c :: chars => _ ← write_escaped_char c; write_escaped_chars chars
  end.

(** *** dstring.c *)

Definition write_nstring (nstring : NStringT) : ostream unit :=
  write_chars (take (nstring_length nstring) (nstring_contents nstring)).

(** ** What is written *)

(** What was written, be it in the file or in the buffer. *)
Definition os_chars (s : OStreamT) : list Z := f_chars (os_file s).

Definition os_device (s : OStreamT) : DeviceT := f_device (os_file s).

(** The stream is in order. *)
Record open_stream_ok (s : OStreamT) : Prop := {
  oo_file : being_written (os_file s);
  oo_failed : f_failed (os_file s) = false;
  oo_line : 0 <= os_line s < 2 ^ 32
}.

(** From [s] to [s'] [text] was written: every line is counted. *)
Record wrote (text : list Z) (s s' : OStreamT) : Prop := {
  wr_ok : open_stream_ok s';
  wr_device : os_device s' = os_device s;
  wr_chars : os_chars s' = os_chars s ++ text;
  wr_name : os_name s' = os_name s;
  wr_line : os_line s' = u32 (os_line s + newlines text)
}.

(** A beginning of [text] was written, and the error indicator is set. *)
Record cut_short (text : list Z) (s s' : OStreamT) : Prop := {
  cs_file : being_written (os_file s');
  cs_failed : f_failed (os_file s') = true;
  cs_device : os_device s' = os_device s;
  cs_chars : exists text' rest, text = text' ++ rest /\ os_chars s' = os_chars s ++ text'
}.

(** An operation that writes [text], or throws when passing on a beginning of
    it fails. *)
Definition prints (m : ostream unit) (text : list Z) : Prop := forall s, open_stream_ok s ->
  match m s with
  | (s', Ok _) => wrote text s s'
  | (s', Throw e) => e = XX_ostream_write_error (default [] (os_name s)) /\ cut_short text s s'
  end.

Lemma newlines_app l l' : newlines (l ++ l') = newlines l + newlines l'.
Proof. unfold newlines. rewrite list.filter_app, length_app. lia. Qed.

Lemma u32_add a b : u32 (u32 a + b) = u32 (a + b).
Proof. unfold u32, wrap. by rewrite Zplus_mod_idemp_l. Qed.

Lemma u32_range a : 0 <= u32 a < 2 ^ 32.
Proof. unfold u32, wrap, UINT_BITS. apply Z.mod_pos_bound. lia. Qed.

Lemma ostream_setup_ok device : open_stream_ok (ostream_setup device).
Proof. split; [apply fopen_being_written|reflexivity|by cbn]. Qed.

Lemma wrote_app text text' s s1 s2 : wrote text s s1 -> wrote text' s1 s2 -> wrote (text ++ text') s s2.
Proof.
  intros [H1 D1 C1 N1 L1] [H2 D2 C2 N2 L2]. split; [exact H2|congruence|by rewrite C2, C1, app_assoc|congruence|].
  by rewrite L2, L1, u32_add, newlines_app, Z.add_assoc.
Qed.

Lemma wrote_cut text text' s s1 s2 : wrote text s s1 -> cut_short text' s1 s2 -> cut_short (text ++ text') s s2.
Proof.
  intros [H1 D1 C1 N1 L1] [H2 F2 D2 (t & r & E & C2)]. split; [exact H2|exact F2|congruence|].
  exists (text ++ t), r. split; [by rewrite E, app_assoc|by rewrite C2, C1, app_assoc].
Qed.

Lemma cut_more text text' s s' : cut_short text s s' -> cut_short (text ++ text') s s'.
Proof.
  intros [H1 H2 H3 (t & r & -> & H4)]. split; [exact H1|exact H2|exact H3|]. exists t, (r ++ text'). by rewrite app_assoc.
Qed.

(** The device got all it had room for. *)
Lemma cut_full text s s' : cut_short text s s' ->
  ~ fits_on (os_device s) (os_chars s ++ text) /\ on_device (os_file s') = taken (os_device s) (os_chars s ++ text) /\
  forall n, buffers (os_device s) n -> (n < length (os_chars s ++ text))%nat.
Proof.
  intros [H1 H2 H3 (t & r & -> & H4)]. unfold os_device, os_chars in *. destruct (failed_full _ (bw_ok _ H1) H2) as [Hn Hd].
  rewrite H3, H4 in Hn, Hd. rewrite app_assoc. split; [|split].
  - intros Hx. apply Hn. eapply fits_on_app_l, Hx.
  - rewrite Hd. symmetry. by apply taken_app.
  - intros n Hb. rewrite <- H3 in Hb. pose proof (noticed_late _ n H1 H2 Hb) as Hl. rewrite H4 in Hl. rewrite length_app. lia.
Qed.

Lemma prints_bind m k text text' : prints m text -> prints k text' -> prints (_ ← m; k) (text ++ text').
Proof.
  intros Hm Hk s Hs. specialize (Hm s Hs). unfold mbind, stM_bind. destruct (m s) as [s1 [u|e]].
  - specialize (Hk s1 (wr_ok _ _ _ Hm)). destruct (k s1) as [s2 [u'|e]]; [by eapply wrote_app|].
    destruct Hk as [-> Hk]. split; [by rewrite (wr_name _ _ _ Hm)|by eapply wrote_cut].
  - destruct Hm as [-> Hm]. split; [reflexivity|by apply cut_more].
Qed.

Lemma prints_nothing : prints (mret tt) [].
Proof.
  intros s Hs. split; try done; [by rewrite app_nil_r|]. unfold newlines. cbn. rewrite Z.add_0_r, u32_small; [reflexivity|apply Hs].
Qed.

(** The lines are counted before the text is written. *)
Lemma prints_lines (m : ostream unit) text :
  (forall s, open_stream_ok s -> m s =
    (OStream (os_file s) (os_name s) (os_gen_name s) (os_no s) (u32 (os_line s + newlines text)), Ok tt)) ->
  prints (_ ← m; _ ← fputs text; OSTREAM_WRITE_ERROR_CHECK) text.
Proof.
  intros Hm s Hs. unfold mbind, stM_bind. rewrite (Hm s Hs). destruct Hs as [Hf Hs Hl].
  unfold fputs, on_file, mbind, stM_bind. cbn [os_file os_name os_gen_name os_no os_line].
  pose proof (fwrite_being_written text _ Hf) as H1. pose proof (fwrite_ok text _ (bw_ok _ Hf)) as (_ & H2 & H3 & _ & _).
  destruct (fwrite text (os_file s)) as [file short]. cbn [fst snd mret stM_ret] in *. unfold OSTREAM_WRITE_ERROR_CHECK, ferror. cbn [os_file].
  destruct (f_failed file) eqn:E.
  - split; [reflexivity|]. split; [exact H1|exact E|exact H2|]. exists text, []. by rewrite app_nil_r.
  - split; [split; [exact H1|exact E|apply u32_range]|exact H2|exact H3|reflexivity|reflexivity].
Qed.

Lemma no_lines s : open_stream_ok s ->
  s = OStream (os_file s) (os_name s) (os_gen_name s) (os_no s) (u32 (os_line s + 0)).
Proof. intros [_ _ Hl]. rewrite Z.add_0_r, u32_small by exact Hl. by destruct s. Qed.

Lemma newlines_cons c l : newlines (c :: l) = (if c =? ch_newline then 1 else 0) + newlines l.
Proof.
  unfold newlines. rewrite filter_cons. destruct (Z.eqb_spec c ch_newline) as [->|Hne].
  - rewrite decide_True by reflexivity. cbn [length]. lia.
  - rewrite decide_False by exact Hne. lia.
Qed.

(** The count of lines for one character. *)
Lemma prints_char_lines c text : newlines text = (if c =? ch_newline then 1 else 0) ->
  prints (_ ← (if c =? ch_newline then add_lines 1 else mret tt); _ ← fputs text; OSTREAM_WRITE_ERROR_CHECK) text.
Proof.
  intros Hc. apply prints_lines. intros s Hs. rewrite Hc. destruct (c =? ch_newline); [reflexivity|]. by rewrite <- no_lines.
Qed.

Lemma prints_no_lines text : newlines text = 0 -> prints (_ ← fputs text; OSTREAM_WRITE_ERROR_CHECK) text.
Proof.
  intros Hc. assert (prints (_ ← mret tt; _ ← fputs text; OSTREAM_WRITE_ERROR_CHECK) text) as H; [|exact H].
  apply prints_lines. intros s Hs. by rewrite Hc, <- no_lines.
Qed.

(** Closing the file, whatever was noticed until then. *)
Lemma ostream_close_ok s : open_stream_ok s ->
  exists s', on_device (os_file s') = taken (os_device s) (os_chars s) /\ ostream_line s' = os_line s /\
  ostream_close s = (s', if bool_decide (fits_on (os_device s) (os_chars s)) then Ok tt
                         else Throw (XX_ostream_write_error (default [] (os_name s)))).
Proof.
  intros [Hf Hs Hl]. pose proof (fclose_ok _ (bw_ok _ Hf)) as (_ & H2 & H3 & H4 & H5). unfold ostream_close, on_file, mbind, stM_bind.
  destruct (fclose (os_file s)) as [file fails]. cbn [fst snd] in *. assert (on_device file = taken (os_device s) (os_chars s)) as Hd.
  { unfold on_device. by rewrite H2, H3, H4, firstn_all. }
  rewrite H5. unfold os_device, os_chars. destruct (bool_decide _); cbn [negb]; eexists; (split; [|split; [|reflexivity]]); by cbn.
Qed.

Lemma write_char_prints c : prints (write_char c) [c].
Proof. apply prints_char_lines. rewrite newlines_cons. unfold newlines. cbn. lia. Qed.

Lemma write_newline_prints : prints write_newline [ch_newline].
Proof. by apply prints_lines. Qed.

Lemma write_chars_prints l : prints (write_chars l) l.
Proof.
  induction l as [|c l IH]; [apply prints_nothing|]. apply (prints_bind _ _ [c] l); [apply write_char_prints|exact IH].
Qed.

Lemma write_nstring_prints n : prints (write_nstring n) (take (nstring_length n) (nstring_contents n)).
Proof. apply write_chars_prints. Qed.

Lemma write_cstring_prints l : prints (write_cstring l) l.
Proof. by apply prints_lines. Qed.

(** *** Numbers *)

Lemma decimal_loop_ok fuel : forall n digits, 0 <= n < 10 ^ Z.of_nat fuel ->
  exists ds, decimal_loop fuel n digits = ds ++ digits /\ Forall (fun d => 48 <= d < 58) ds /\
    foldl (fun v d => v * 10 + (d - 48)) 0 ds = n.
Proof.
  induction fuel as [|fuel IH]; intros n digits Hn; cbn [decimal_loop]; [exists []; cbn in Hn; split_and!; [done..|cbn; lia]|].
  pose proof (Z.mod_pos_bound n 10 ltac:(lia)) as Hm. destruct (Z.eqb_spec (n / 10) 0) as [E|E].
  - exists [48 + n mod 10]. split; [reflexivity|]. split; [by repeat constructor; lia|]. cbn. pose proof (Z.div_mod n 10). lia.
  - destruct (IH (n / 10) ((48 + n mod 10) :: digits)) as (ds & -> & Hd & Hv).
    { rewrite Nat2Z.inj_succ, Z.pow_succ_r in Hn by lia. split; [by apply Z.div_pos; lia|apply Z.div_lt_upper_bound; lia]. }
    exists (ds ++ [48 + n mod 10]). rewrite <- app_assoc. split; [reflexivity|]. split; [apply Forall_app; split; [exact Hd|by repeat constructor; lia]|].
    rewrite foldl_app, Hv. cbn. pose proof (Z.div_mod n 10). lia.
Qed.

(** The digits of an [unsigned] stand for it. *)
Lemma decimal_ok n : 0 <= n < 2 ^ 32 -> Forall (fun d => 48 <= d < 58) (decimal n) /\ foldl (fun v d => v * 10 + (d - 48)) 0 (decimal n) = n.
Proof.
  intros Hn. destruct (decimal_loop_ok 10 n [] ltac:(cbn; lia)) as (ds & E & Hd & Hv). unfold decimal. rewrite E, app_nil_r. by split.
Qed.

Lemma decimal_loop_lines fuel : forall n digits, newlines (decimal_loop fuel n digits) = newlines digits.
Proof.
  induction fuel as [|fuel IH]; intros n digits; cbn [decimal_loop]; [reflexivity|].
  assert (newlines ((48 + n mod 10) :: digits) = newlines digits) as E.
  { rewrite newlines_cons. pose proof (Z.mod_pos_bound n 10 ltac:(lia)). rewrite (proj2 (Z.eqb_neq _ _)) by (unfold ch_newline; lia). reflexivity. }
  destruct (n / 10 =? 0); [exact E|]. by rewrite IH.
Qed.

Lemma write_unsigned_prints n : prints (write_unsigned n) (decimal n).
Proof. apply prints_no_lines, decimal_loop_lines. Qed.

(** ** Reading back escaped text *)

(** A character as the readers of strings take it: with the escape sequence
    after a backslash. *)
Definition read_text_char : istream (option Z) :=
  o ← istream_read_char;
  match o with
  | Some c =>
      if c =? 92 then
        '(status, c) ← istream_read_escaped_char;
        mret (match status with ISTREAM_STAT_READ_CHAR => Some c | _ => None end)
      else mret (Some c)
  | None => mret None
  end.

Fixpoint read_text (fuel : nat) (s : IStreamT) : list Z * IStreamT * result istream_exn unit :=
  match fuel with
  | O => ([], s, Ok tt)
  | S fuel =>
      match read_text_char s with
      | (s, Ok (Some c)) => let '(l, s, r) := read_text fuel s in (c :: l, s, r)
      | (s, Ok None) => ([], s, Ok tt)
      | (s, Throw e) => ([], s, Throw e)
      end
  end.

Lemma hex_char_value n : 0 <= n < 16 ->
  syntax_value (hex_char n) = n /\ hex_char n <> 0 /\ hex_char n <> ch_newline /\ hex_char n <> 92.
Proof.
  intros Hn. assert (Forall (fun n => syntax_value (hex_char n) = n /\ hex_char n <> 0 /\ hex_char n <> ch_newline /\ hex_char n <> 92) (seqZ 0 16)) as H.
  { apply (bool_decide_eq_true_1 _). vm_compute. reflexivity. }
  rewrite Forall_forall in H. apply H, list_elem_of_In, elem_of_seqZ. lia.
Qed.

Lemma hex_digit_back s n l b : stream_at s (hex_char n :: l) b -> 0 <= n < 16 ->
  exists s', istream_read_hex_digit s = (s', Ok (Some n)) /\ stream_at s' l b /\ same_place s s'.
Proof.
  intros Hs Hn. destruct (getc_ok s _ b Hs) as (s' & E & Hs' & Hp). destruct (hex_char_value n Hn) as (Ev & H0 & H1 & _).
  exists s'. split; [|by split]. unfold istream_read_hex_digit, mbind, stM_bind. rewrite E.
  rewrite (proj2 (Z.eqb_neq _ _) H0), (proj2 (Z.eqb_neq _ _) H1), Ev.
  assert ((n =? SYNTAX_NO_VALUE) || (16 <=? n) = false) as ->; [|reflexivity].
  unfold SYNTAX_NO_VALUE. apply orb_false_iff. rewrite Z.eqb_neq, Z.leb_gt. lia.
Qed.

(** The line a character is on. *)
Definition line_after (c line : Z) : Z := if c =? ch_newline then u32 (line + 1) else line.

Lemma escaped_back s c l b : is_byte c -> c <> ch_newline -> stream_at s (drop 1 (escape c) ++ l) b -> hd 0 (escape c) = 92 ->
  exists s', istream_read_escaped_char s = (s', Ok (ISTREAM_STAT_READ_CHAR, c)) /\ stream_at s' l b /\ same_place s s'.
Proof.
  intros Hc Hnl Hs Hh. unfold escape in Hs, Hh.
  assert (forall x, stream_at s (x :: l) b -> x <> ch_newline -> (forall s', (if x =? ch_newline then _ ← istream_inc_line; mret (ISTREAM_STAT_NO_CHAR, 0)
      else if x =? ch_0 then mret (ISTREAM_STAT_READ_CHAR, 0)
      else if (x =? 102) || (x =? 70) then mret (ISTREAM_STAT_READ_CHAR, 12)
      else if (x =? 110) || (x =? 78) then mret (ISTREAM_STAT_READ_CHAR, 10)
      else if (x =? 114) || (x =? 82) then mret (ISTREAM_STAT_READ_CHAR, 13)
      else if (x =? 116) || (x =? 84) then mret (ISTREAM_STAT_READ_CHAR, 9)
      else if (x =? 120) || (x =? 88) then istream_read_hex_char
      else mret (ISTREAM_STAT_READ_CHAR, x)) s' = (s', Ok (ISTREAM_STAT_READ_CHAR, c))) ->
    exists s', istream_read_escaped_char s = (s', Ok (ISTREAM_STAT_READ_CHAR, c)) /\ stream_at s' l b /\ same_place s s') as Hone.
  { intros x Hx _ Hr. destruct (getc_ok s _ b Hx) as (s' & E & Hs' & Hp). exists s'. split; [|by split].
    unfold istream_read_escaped_char, mbind, stM_bind. rewrite E. apply Hr. }
  destruct (Z.eqb_spec c 0) as [->|]; [by apply (Hone 48)|].
  destruct (Z.eqb_spec c 12) as [->|]; [by apply (Hone 102)|].
  rewrite (proj2 (Z.eqb_neq _ _) Hnl) in Hs, Hh. destruct (Z.eqb_spec c 13) as [->|]; [by apply (Hone 114)|].
  destruct (Z.eqb_spec c ch_tab) as [->|]; [discriminate|]. destruct (Z.eqb_spec c 92) as [->|Hbs]; [by apply (Hone 92)|].
  destruct (isprint c); [by destruct (Hbs Hh)|]. cbn [drop app] in Hs. unfold is_byte in Hc.
  destruct (getc_ok s _ b Hs) as (s1 & E1 & Hs1 & Hp1).
  destruct (hex_digit_back s1 (c / 16) _ b Hs1) as (s2 & E2 & Hs2 & Hp2); [split; [by apply Z.div_pos; lia|apply Z.div_lt_upper_bound; lia]|].
  destruct (hex_digit_back s2 (c mod 16) l b Hs2) as (s3 & E3 & Hs3 & Hp3); [apply Z.mod_pos_bound; lia|].
  exists s3. unfold istream_read_escaped_char, istream_read_hex_char, mbind, stM_bind. rewrite E1.
  change (120 =? ch_newline) with false. change (120 =? ch_0) with false. cbn -[istream_read_hex_digit]. rewrite E2, E3. cbn -[istream_read_hex_digit].
  assert (u8 (c / 16 * 16 + c mod 16) = c) as ->.
  { rewrite u8_small; pose proof (Z.div_mod c 16); unfold is_byte; lia. }
  split; [reflexivity|]. split; [exact Hs3|]. destruct Hp1, Hp2, Hp3. split; congruence.
Qed.

Lemma text_char_back s c l b : is_byte c -> stream_at s (escape c ++ l) b ->
  exists s', read_text_char s = (s', Ok (Some c)) /\ stream_at s' l b /\ is_line s' = line_after c (is_line s).
Proof.
  intros Hc Hs. unfold read_text_char, mbind, stM_bind. destruct (decide (hd 0 (escape c) = 92)) as [Hh|Hh].
  - assert (c <> ch_newline) as Hnl by (by intros ->).
    assert (escape c = 92 :: drop 1 (escape c)) as Ee by (destruct (escape c); [discriminate|cbn in *; by subst]).
    rewrite Ee in Hs. cbn [app] in Hs. destruct (read_char_ok s _ b Hs) as (s1 & -> & Hs1 & _ & Hl1). cbn in Hl1.
    change (92 =? 92) with true. cbn iota. destruct (escaped_back s1 c l b Hc Hnl Hs1 Hh) as (s2 & -> & Hs2 & Hl2 & _).
    exists s2. split; [reflexivity|]. split; [exact Hs2|]. unfold line_after. rewrite (proj2 (Z.eqb_neq _ _) Hnl). congruence.
  - assert (escape c = [c] /\ c <> 92) as [Ee Hbs].
    { unfold escape in *. repeat match goal with |- context [if ?x then _ else _] => destruct x eqn:?; cbn in Hh; try (by destruct Hh) end;
        (split; [reflexivity|intros ->; discriminate]). }
    rewrite Ee in Hs. destruct (read_char_ok s _ b Hs) as (s1 & -> & Hs1 & _ & Hl1). rewrite (proj2 (Z.eqb_neq _ _) Hbs).
    exists s1. by split_and!.
Qed.

(** *** A whole text *)

Definition escaped (l : list Z) : list Z := flat_map escape l.

Lemma escape_lines c : is_byte c -> newlines (escape c) = if c =? ch_newline then 1 else 0.
Proof.
  intros Hc. unfold escape. destruct (Z.eqb_spec c 0) as [->|]; [reflexivity|]. destruct (Z.eqb_spec c 12) as [->|]; [reflexivity|].
  destruct (Z.eqb_spec c ch_newline) as [->|Hn]; [reflexivity|]. destruct (c =? 13); [reflexivity|].
  assert (newlines [c] = 0) as Hone by (rewrite newlines_cons, (proj2 (Z.eqb_neq _ _) Hn); reflexivity).
  destruct (c =? ch_tab); [exact Hone|]. destruct (c =? 92); [reflexivity|]. destruct (isprint c); [exact Hone|].
  unfold is_byte in Hc. pose proof (Z.mod_pos_bound c 16 ltac:(lia)).
  destruct (hex_char_value (c / 16)) as (_ & _ & H1 & _); [split; [by apply Z.div_pos; lia|apply Z.div_lt_upper_bound; lia]|].
  destruct (hex_char_value (c mod 16)) as (_ & _ & H2 & _); [lia|].
  rewrite !newlines_cons, (proj2 (Z.eqb_neq _ _) H1), (proj2 (Z.eqb_neq _ _) H2). reflexivity.
Qed.

Lemma write_escaped_chars_prints l : Forall is_byte l -> prints (write_escaped_chars l) (escaped l).
Proof.
  induction 1 as [|c l Hc Hl IH]; [apply prints_nothing|]. apply (prints_bind _ _ (escape c) (escaped l)); [|exact IH].
  by apply prints_char_lines, escape_lines.
Qed.

Lemma escaped_lines l : Forall is_byte l -> newlines (escaped l) = newlines l.
Proof.
  induction 1 as [|c l Hc Hl IH]; [reflexivity|]. cbn [escaped flat_map]. rewrite newlines_app, escape_lines by exact Hc.
  rewrite newlines_cons. unfold escaped in IH. lia.
Qed.

Lemma read_text_ok l : Forall is_byte l -> forall s, stream_at s (escaped l) false -> 0 <= is_line s < 2 ^ 32 ->
  exists s', read_text (S (length l)) s = (l, s', Ok tt) /\ is_line s' = u32 (is_line s + newlines l).
Proof.
  induction 1 as [|c l Hc Hl IH]; intros s Hs Hline.
  - destruct (read_char_ok s [] false Hs) as (s' & E & _ & H & _). exists s'.
    cbn [read_text length]. unfold read_text_char, mbind, stM_bind. rewrite E. split; [reflexivity|]. rewrite H.
    unfold newlines. cbn. by rewrite Z.add_0_r, u32_small.
  - destruct (text_char_back s c (escaped l) false Hc Hs) as (s1 & E & H1 & Hl1). cbn [length].
    assert (0 <= is_line s1 < 2 ^ 32) as Hu by (rewrite Hl1; unfold line_after; destruct (c =? ch_newline); [apply u32_range|exact Hline]).
    destruct (IH s1 H1 Hu) as (s' & Er & Hl'). exists s'. cbn [read_text] in Er |- *. rewrite E. cbn [read_text]. rewrite Er.
    split; [reflexivity|]. rewrite Hl', Hl1, newlines_cons. unfold line_after.
    destruct (c =? ch_newline); [by rewrite u32_add, Z.add_assoc|reflexivity].
Qed.

Lemma text_chars l : text (map Some l) = l.
Proof. induction l as [|c l IH]; [reflexivity|]. cbn. by rewrite IH. Qed.

Lemma fails_chars l : fails (map Some l) = false.
Proof.
  unfold fails. rewrite bool_decide_eq_false_2; [reflexivity|]. rewrite text_chars, lookup_ge_None_2; [done|]. by rewrite length_map.
Qed.

(** C37: text that is written with escapes to a file, which is then closed, is
    read back, character for character, NULs, backslashes and what cannot be
    printed included, and the two streams agree about the number of lines. If
    the device has no room for the text it gets the part it has room for, and
    the error is thrown with the name of the file: by a write, when the C
    library passes on too much before the file is closed, which it does not
    while the text fits its buffer, or else by the closing. *)
Theorem escaped_text_back can_open name s l : Forall is_byte l ->
  forall s', ostream_open can_open name s = (s', true) ->
  exists oname device, can_open oname = Some device /\
  match write_escaped_chars l s' with
  | (s1, Ok _) => exists s2, on_device (os_file s2) = taken device (escaped l) /\
      if bool_decide (fits_on device (escaped l)) then
        ostream_close s1 = (s2, Ok tt) /\
        exists i i', istream_open (map Some (on_device (os_file s2))) oname = (i, Ok tt) /\
          read_text (S (length l)) i = (l, i', Ok tt) /\ istream_line i' = ostream_line s2
      else ostream_close s1 = (s2, Throw (XX_ostream_write_error oname))
  | (s1, Throw e) => e = XX_ostream_write_error oname /\ ~ fits_on device (escaped l) /\
      on_device (os_file s1) = taken device (escaped l) /\ forall n, buffers device n -> (n < length (escaped l))%nat
  end.
Proof.
  intros Hl s' Ho. unfold ostream_open in Ho.
  destruct (match split_last ch_at name with Some _ => _ | None => _ end) as [oname no].
  destruct (can_open oname) as [device|] eqn:Eo; [|discriminate]. injection Ho as <-. exists oname, device. split; [exact Eo|].
  pose proof (write_escaped_chars_prints l Hl (OStream (fopen device) (Some oname) name no 1)) as H.
  specialize (H ltac:(split; [apply fopen_being_written|reflexivity|by cbn])).
  destruct (write_escaped_chars l _) as [s1 [u|e]]; [|by destruct H as [-> (H1 & H2 & H3)%cut_full]].
  destruct H as [H1 D1 C1 N1 L1]. change (os_chars s1 = escaped l) in C1. change (os_device s1 = device) in D1.
  destruct (ostream_close_ok s1 H1) as (s2 & Hd & Hline & Hc). rewrite D1, C1, N1 in *. exists s2. split; [exact Hd|].
  destruct (bool_decide_reflect (fits_on device (escaped l))) as [Hfits|_]; [|exact Hc]. split; [exact Hc|].
  rewrite Hd, (taken_all _ _ Hfits). pose proof (open_ok (map Some (escaped l)) oname) as H. rewrite fails_chars, text_chars in H.
  assert (bool_decide (head (map Some (escaped l)) = Some None) = false) as Eh by (by destruct (escaped l)).
  rewrite Eh, andb_false_r in H. destruct H as (i & Hi & Hs & Hiline & _).
  destruct (read_text_ok l Hl i Hs ltac:(rewrite Hiline; lia)) as (i' & Hr & Hl'). exists i, i'. split; [exact Hi|]. split; [exact Hr|].
  unfold istream_line. rewrite Hl', Hiline, Hline, L1. cbn. by rewrite escaped_lines.
Qed.

(** The file named after the stream's number, and a line of strange
    characters, on a device with room for three: the closing notices it. *)
Lemma escaped_text_back_witness : let l := [97; 0; 92; 10; 200; 9; 13] in let device := Device (Some 3%nat) at_close in
  exists s', ostream_open (fun _ => Some device) [116; 64; 46; 99] (ostream_setup (takes_all at_close)) = (s', true) /\
  (exists s1, write_escaped_chars l s' = (s1, Ok tt)) /\
  exists oname device', Some device = Some device' /\
  match write_escaped_chars l s' with
  | (s1, Ok _) => exists s2, on_device (os_file s2) = taken device' (escaped l) /\
      if bool_decide (fits_on device' (escaped l)) then
        ostream_close s1 = (s2, Ok tt) /\
        exists i i', istream_open (map Some (on_device (os_file s2))) oname = (i, Ok tt) /\
          read_text (S (length l)) i = (l, i', Ok tt) /\ istream_line i' = ostream_line s2
      else ostream_close s1 = (s2, Throw (XX_ostream_write_error oname))
  | (s1, Throw e) => e = XX_ostream_write_error oname /\ ~ fits_on device' (escaped l) /\
      on_device (os_file s1) = taken device' (escaped l) /\ forall n, buffers device' n -> (n < length (escaped l))%nat
  end.
Proof.
  intros l device. eexists. split; [reflexivity|]. split; [eexists; vm_compute; reflexivity|].
  apply (escaped_text_back (fun _ => Some device) [116; 64; 46; 99] (ostream_setup (takes_all at_close)) l); [|reflexivity].
  unfold l, is_byte. repeat constructor; lia.
Defined.
