(* ===== verification/TldIOSpec.v ===== *)
(** * TldIOSpec: the linker's TDF readers and writers agree on the format

    A format is the bit string of a datum as a function of the bit position it
    starts at (the position decides the padding). [writes m f] and [reads m f a]
    say that a writing operation produces, and a reading operation consumes,
    the format [f]; both compose along the monadic binds of the operations. *)
From stdpp Require Import base list list_numbers numbers.
From Stdlib Require Import ZArith Lia.
From S2P Require Import Prelude Codec ExdsString CStdio TldNameKey TldIO.

Definition format : Type := nat -> list bool.

Definition fmt_nil : format := fun _ => [].
Definition fmt_seq (f1 f2 : format) : format := fun pos => f1 pos ++ f2 (pos + length (f1 pos))%nat.
Definition fmt_nibble (v : Z) : format := fun _ => bits_of_Z 4 v.
Definition fmt_int (n : Z) : format := fun _ => tdfint_bits n.
Definition fmt_align : format := pad_bits.
Definition fmt_raw (l : list Z) : format := fun _ => bytes_bits l.
Definition fmt_bytes (l : list Z) : format := fmt_seq fmt_align (fmt_raw l).
Definition fmt_string (l : list Z) : format :=
  fmt_seq (fmt_int 8) (fmt_seq (fmt_int (Z.of_nat (length l))) (fmt_bytes l)).
Definition fmt_list {A} (f : A -> format) (l : list A) : format :=
  foldr (fun a g => fmt_seq (f a) g) fmt_nil l.
Definition fmt_name (k : NameKeyT) : format :=
  match k with
  | KT_STRING s =>
      fmt_seq (fmt_nibble 4) (fmt_seq fmt_align (fmt_string (n_contents s)))
  | KT_UNIQUE l =>
      fmt_seq (fmt_nibble 8) (fmt_seq fmt_align
        (fmt_seq (fmt_int (Z.of_nat (length l))) (fmt_list (fun s => fmt_string (n_contents s)) l)))
  end.

(** ** Writers *)

(** What was written, be it in the file or in the buffer. *)
Definition bo_data (b : BOStreamT) : list Z := f_chars (bo_file b).

Definition w_bits (w : TDFWriterT) : list bool :=
  bytes_bits (bo_data (w_bostream w)) ++
  (if w_new_byte w then [] else bits_of_Z 4 (Z.shiftr (w_byte w) 4)).

Definition unlimited (b : BOStreamT) : Prop := file_ok (bo_file b) /\ d_room (f_device (bo_file b)) = None.

Definition wf_writer (w : TDFWriterT) : Prop :=
  unlimited (w_bostream w) /\ Forall is_byte (bo_data (w_bostream w)) /\
  (w_new_byte w = false -> exists d, 0 <= d < 16 /\ w_byte w = d * 16).

Definition writes (m : writer unit) (f : format) : Prop :=
  forall w, wf_writer w ->
    exists w', m w = (w', Ok tt) /\ wf_writer w' /\
      w_bits w' = w_bits w ++ f (length (w_bits w)).

Lemma writes_bind (m1 : writer unit) (m2 : writer unit) f1 f2 :
  writes m1 f1 -> writes m2 f2 -> writes (_ ← m1; m2) (fmt_seq f1 f2).
Proof.
  intros H1 H2 w Hw. destruct (H1 w Hw) as (w1 & E1 & Hw1 & B1).
  destruct (H2 w1 Hw1) as (w2 & E2 & Hw2 & B2). exists w2.
  rewrite (stM_bind_ok _ _ _ _ _ E1). split_and!; auto.
  rewrite B2, B1, <- app_assoc, length_app. reflexivity.
Qed.

Lemma writes_ret : writes (mret tt) fmt_nil.
Proof. intros w Hw. exists w. split_and!; try apply Hw; auto. rewrite app_nil_r. reflexivity. Qed.

Lemma writes_ext (m : writer unit) f g : (forall pos, f pos = g pos) -> writes m f -> writes m g.
Proof. intros E H w Hw. destruct (H w Hw) as (w' & ?). exists w'. rewrite <- E. auto. Qed.

Lemma land15 v : Z.land v 15 = v mod 16.
Proof. change 15 with (Z.ones 4). rewrite Z.land_ones by lia. reflexivity. Qed.

(** Writing to a device without limit. *)
Lemma unlimited_write l b : unlimited b -> let '(file, short) := fwrite l (bo_file b) in
  short = false /\ unlimited (BOStream file (bo_name b)) /\ f_chars file = bo_data b ++ l.
Proof.
  intros [Hf Hd]. pose proof (fwrite_ok l (bo_file b) Hf) as (H1 & H2 & H3 & _ & H5). destruct (fwrite l (bo_file b)) as [file short].
  cbn [fst snd] in *. split_and!; [|split; [exact H1|cbn; congruence]|exact H3].
  rewrite (fo_failed _ H1), bool_decide_eq_true_2 in H5 by (unfold fits_on; by rewrite H2, Hd). by destruct (f_failed _), short.
Qed.

Lemma bostream_chars_ok l b : unlimited b ->
  exists b', bostream_write_chars l b = (b', Ok tt) /\ unlimited b' /\ bo_data b' = bo_data b ++ l.
Proof.
  intros H. pose proof (unlimited_write l b H) as H'. unfold bostream_write_chars. destruct (fwrite l (bo_file b)) as [file short].
  destruct H' as (-> & H1 & H2). by eexists.
Qed.

Lemma bostream_byte_ok byte b : unlimited b ->
  exists b', bostream_write_byte byte b = (b', Ok tt) /\ unlimited b' /\ bo_data b' = bo_data b ++ [u8 byte].
Proof. apply bostream_chars_ok. Qed.

Lemma bostream_close_ok b : unlimited b ->
  exists b', bostream_close b = (b', Ok tt) /\ unlimited b' /\ bo_data b' = bo_data b /\ on_device (bo_file b') = bo_data b.
Proof.
  intros [Hf Hd]. pose proof (fclose_ok (bo_file b) Hf) as (H1 & H2 & H3 & H4 & H5). unfold bostream_close.
  destruct (fclose (bo_file b)) as [file fails]. cbn [fst snd] in *. rewrite bool_decide_eq_true_2 in H5 by (unfold fits_on; by rewrite Hd).
  subst fails. eexists. split; [reflexivity|]. split; [split; [exact H1|cbn; congruence]|]. split; [exact H3|].
  unfold on_device, taken, bo_data. cbn. by rewrite H2, Hd, H3, H4, firstn_all.
Qed.

Lemma tdf_write_nibble_ok v : 0 <= v < 16 -> writes (tdf_write_nibble v) (fmt_nibble v).
Proof.
  intros Hv w (Hroom & Hdata & Hodd). unfold tdf_write_nibble, fmt_nibble.
  assert (Z.land v 15 = v) as Ev by (rewrite land15; apply Z.mod_small; lia). rewrite Ev.
  destruct w as [b byte new]. cbn [w_bostream w_byte w_new_byte] in *. destruct new.
  - eexists. split; [reflexivity|]. unfold w_bits, wf_writer. cbn [w_bostream w_byte w_new_byte].
    rewrite Z.shiftl_mul_pow2 by lia. change (2 ^ 4) with 16. rewrite u8_small by (unfold is_byte; lia).
    split_and!; auto; [eauto|]. rewrite app_nil_r. do 2 f_equal.
    rewrite Z.shiftr_div_pow2 by lia. apply Z.div_mul. lia.
  - destruct (Hodd eq_refl) as (d & Hd & ->).
    assert (Z.lor (d * 16) (u8 v) = d * 16 + v) as Eb.
    { rewrite u8_small by (unfold is_byte; lia).
      pose proof (lor_shiftl 4 d v ltac:(lia) ltac:(lia)) as El.
      rewrite Z.shiftl_mul_pow2 in El by lia. exact El. }
    rewrite Eb. unfold mbind, stM_bind, set_wbyte, on_bostream, st_zoom.
    cbn [w_bostream w_byte w_new_byte]. destruct (bostream_byte_ok (d * 16 + v) b Hroom) as (b' & -> & Hu & Hbd).
    eexists. split; [reflexivity|]. unfold w_bits, wf_writer. cbn [w_bostream w_byte w_new_byte]. rewrite Hbd.
    rewrite u8_small by (unfold is_byte; lia). split; [split; [exact Hu|split; [|discriminate]]|].
    + apply Forall_app. split; [exact Hdata|]. repeat constructor; unfold is_byte; lia.
    + rewrite bytes_bits_app, app_nil_r, <- app_assoc. f_equal.
      rewrite Z.shiftr_div_pow2 by lia. change (2 ^ 4) with 16. rewrite Z.div_mul by lia.
      rewrite <- bits_of_Z_lor by (cbn; lia). change (Z.of_nat 4) with 4.
      rewrite (lor_shiftl 4) by lia. cbn [bytes_bits flat_map]. rewrite app_nil_r. reflexivity.
Qed.

Lemma length_w_bits w : (length (w_bits w) mod 8 = if w_new_byte w then 0 else 4)%nat.
Proof.
  unfold w_bits. rewrite length_app, length_bytes_bits, Nat.add_comm, Nat.mul_comm, Nat.Div0.mod_add.
  destruct (w_new_byte w); reflexivity.
Qed.

Lemma tdf_write_align_ok : writes tdf_write_align fmt_align.
Proof.
  intros w (Hroom & Hdata & Hodd). unfold tdf_write_align, fmt_align, pad_bits.
  rewrite length_w_bits. destruct w as [b byte new]. cbn [w_bostream w_byte w_new_byte] in *.
  destruct new.
  - eexists. split; [reflexivity|]. split; [split_and!; auto|]. cbn. rewrite app_nil_r. reflexivity.
  - destruct (Hodd eq_refl) as (d & Hd & ->).
    unfold mbind, stM_bind, set_wbyte, on_bostream, st_zoom. cbn [w_bostream w_byte w_new_byte].
    destruct (bostream_byte_ok (d * 16) b Hroom) as (b' & -> & Hu & Hbd). eexists. split; [reflexivity|].
    unfold w_bits, wf_writer. cbn [w_bostream w_byte w_new_byte]. rewrite Hbd.
    rewrite u8_small by (unfold is_byte; lia). split; [split; [exact Hu|split; [|discriminate]]|].
    + apply Forall_app. split; [exact Hdata|]. repeat constructor; unfold is_byte; lia.
    + rewrite bytes_bits_app, app_nil_r, <- app_assoc. f_equal.
      rewrite Z.shiftr_div_pow2 by lia. change (2 ^ 4) with 16. rewrite Z.div_mul by lia.
      change (replicate _ false) with (bits_of_Z 4 0). rewrite <- (bits_of_Z_shiftl 4 4 d).
      rewrite Z.shiftl_mul_pow2 by lia. cbn [bytes_bits flat_map]. rewrite app_nil_r. reflexivity.
Qed.

Lemma writes_chars l :
  Forall is_byte l ->
  forall w, wf_writer w -> w_new_byte w = true ->
    exists w', on_bostream (bostream_write_chars l) w = (w', Ok tt) /\ wf_writer w' /\
      w_bits w' = w_bits w ++ bytes_bits l.
Proof.
  intros Hl w (Hroom & Hdata & _) Hnew. unfold on_bostream, st_zoom. destruct (bostream_chars_ok l _ Hroom) as (b' & -> & Hu & Hbd).
  eexists. split; [reflexivity|]. unfold wf_writer, w_bits. cbn [w_bostream w_new_byte]. rewrite Hnew, Hbd, !app_nil_r.
  split; [split; [exact Hu|split; [|discriminate]]|apply bytes_bits_app].
  apply Forall_app; auto.
Qed.

Lemma tdf_write_bytes_ok s : wf_nstring s -> writes (tdf_write_bytes s) (fmt_bytes (n_contents s)).
Proof.
  intros [Hlen Hb] w Hw. destruct (tdf_write_align_ok w Hw) as (w1 & E1 & Hw1 & B1).
  unfold tdf_write_bytes. rewrite (stM_bind_ok _ _ _ _ _ E1).
  assert (w_new_byte w1 = true) as Hnew.
  { clear -E1. unfold tdf_write_align in E1. destruct w as [b byte []]; cbn in E1.
    - injection E1 as <-. reflexivity.
    - unfold mbind, stM_bind in E1. destruct (on_bostream _ _) as [w [|]]; [|discriminate].
      injection E1 as <-. reflexivity. }
  unfold nstring_length, nstring_contents. rewrite take_ge by lia.
  destruct (writes_chars _ Hb w1 Hw1 Hnew) as (w2 & E2 & Hw2 & B2).
  exists w2. split_and!; auto. rewrite B2, B1, <- app_assoc. reflexivity.
Qed.

(** ** Integers *)

Lemma high_digits tmp : 0 <= tmp < 2 ^ 32 -> (Z.land tmp (u32 (Z.lnot 7)) =? 0) = (tmp <? 8).
Proof.
  intros H. change (u32 (Z.lnot 7)) with (Z.shiftl (Z.ones 29) 3).
  assert (Z.land tmp (Z.shiftl (Z.ones 29) 3) = Z.shiftl (Z.shiftr tmp 3) 3) as ->.
  { apply Z.bits_inj'. intros i Hi. rewrite Z.land_spec, !Z.shiftl_spec by lia.
    destruct (Z.lt_ge_cases i 3).
    - rewrite !(Z.testbit_neg_r _ (i - 3)) by lia. apply andb_false_r.
    - rewrite Z.shiftr_spec by lia. replace (i - 3 + 3) with i by lia.
      destruct (Z.lt_ge_cases i 32).
      + rewrite Z.ones_spec_low by lia. apply andb_true_r.
      + rewrite (testbit_small tmp 32) by lia. reflexivity. }
  rewrite shiftr3, Z.shiftl_mul_pow2 by lia. change (2 ^ 3) with 8.
  destruct (Z.ltb_spec tmp 8); [apply Z.eqb_eq|apply Z.eqb_neq]; Z.div_mod_to_equations; lia.
Qed.

Lemma octal_init_8 n : 8 <= n -> octal_init n = octal_init (Z.shiftr n 3) ++ [Z.land (Z.shiftr n 3) 7].
Proof.
  intros H. unfold octal_init at 1. replace (8 <=? n) with true by lia.
  apply octal_digits_eq. apply Z.shiftr_nonneg. lia.
Qed.

Lemma count_shift_length fuel n k :
  0 <= n < 2 ^ 32 -> n < 8 * 8 ^ Z.of_nat fuel ->
  count_shift fuel n k = (k + length (octal_init n))%nat.
Proof.
  revert n k. induction fuel as [|fuel IH]; intros n k Hn Hf; cbn [count_shift].
  - unfold octal_init. cbn in Hf. replace (8 <=? n) with false by lia. cbn. lia.
  - rewrite high_digits by lia. destruct (Z.ltb_spec n 8).
    + unfold octal_init. replace (8 <=? n) with false by lia. cbn. lia.
    + rewrite Nat2Z.inj_succ, Z.pow_succ_r in Hf by lia.
      rewrite IH, (octal_init_8 n), length_app by
        (rewrite ?shiftr3; try (split; [apply Z.div_pos; lia|]); Z.div_mod_to_equations; lia).
      cbn [length]. lia.
Qed.

(** The digits before the last one, by their shifts. *)
Lemma octal_init_shifts n :
  0 <= n ->
  octal_init n = map (fun k => Z.land (Z.shiftr n (3 * Z.of_nat k)) 7)
    (rev (seq 1 (length (octal_init n)))).
Proof.
  intros Hn. pattern n; apply octal_ind; [| |exact Hn]; clear n Hn.
  - intros n Hn. unfold octal_init. replace (8 <=? n) with false by lia. reflexivity.
  - intros n Hn IH. rewrite (octal_init_8 n Hn), length_app. cbn [length].
    rewrite Nat.add_1_r. cbn [seq rev]. rewrite map_app. f_equal.
    rewrite IH at 1. rewrite <- (seq_shift _ 1), <- map_rev, map_map.
    apply map_ext. intros k. rewrite Z.shiftr_shiftr by lia. do 2 f_equal. lia.
Qed.

Lemma write_digits_ok k n :
  writes (write_digits k n)
    (fun _ => nibble_bits (map (fun k => Z.land (Z.shiftr n (3 * Z.of_nat k)) 7) (rev (seq 1 k)))).
Proof.
  induction k as [|k IH]; [apply writes_ret|]. cbn [write_digits].
  rewrite seq_S, rev_app_distr. cbn [rev app map Nat.add].
  eapply writes_ext; [|apply writes_bind; [apply tdf_write_nibble_ok|exact IH]].
  - intros pos. unfold fmt_seq, fmt_nibble. reflexivity.
  - pose proof (land7_digit (Z.shiftr n (3 * Z.of_nat (S k)))) as H. unfold is_digit in H. lia.
Qed.

Lemma tdf_write_int_ok n : 0 <= n < 2 ^ 32 -> writes (tdf_write_int n) (fmt_int n).
Proof.
  intros Hn. unfold tdf_write_int. rewrite count_shift_length by (cbn; lia). cbn [Nat.add].
  pose proof (land7_digit n) as Hd.
  eapply writes_ext; [|apply writes_bind; [apply write_digits_ok|apply tdf_write_nibble_ok]].
  - intros pos. unfold fmt_seq, fmt_nibble, fmt_int, tdfint_bits, tdfint_nibbles.
    rewrite <- octal_init_shifts by lia. unfold nibble_bits. rewrite flat_map_app.
    cbn [flat_map]. rewrite app_nil_r. reflexivity.
  - rewrite lor8 by exact Hd. unfold is_digit in Hd. lia.
Qed.

(** A string whose length fits the [unsigned] it is written as. *)
Definition ok_nstring (s : NStringT) : Prop := wf_nstring s /\ Z.of_nat (n_length s) < 2 ^ 32.

Definition ok_key (k : NameKeyT) : Prop :=
  match k with
  | KT_STRING s => ok_nstring s
  | KT_UNIQUE l => Forall ok_nstring l /\ Z.of_nat (length l) < 2 ^ 32
  end.

Lemma ok_key_wf k : ok_key k -> wf_key k.
Proof.
  destruct k as [x|x]; cbn; [by intros [H _]|]. intros [H _]. eapply Forall_impl; [|exact H]. intros y. apply proj1.
Qed.

Lemma tdf_write_string_ok s : ok_nstring s -> writes (tdf_write_string s) (fmt_string (n_contents s)).
Proof.
  intros [Hs Hlen]. pose proof Hs as [El _]. unfold tdf_write_string, fmt_string, nstring_length.
  rewrite u32_small, El by lia.
  apply writes_bind; [apply tdf_write_int_ok; lia|]. apply writes_bind; [apply tdf_write_int_ok; lia|].
  by apply tdf_write_bytes_ok.
Qed.

Lemma tdf_write_components_ok l :
  Forall ok_nstring l ->
  writes (tdf_write_components l) (fmt_list (fun s => fmt_string (n_contents s)) l).
Proof.
  induction 1 as [|s l Hs Hl IH]; [apply writes_ret|].
  apply writes_bind; [by apply tdf_write_string_ok|exact IH].
Qed.

Lemma tdf_write_name_ok k : ok_key k -> writes (tdf_write_name k) (fmt_name k).
Proof.
  destruct k as [s|l]; cbn [ok_key tdf_write_name fmt_name].
  - intros Hs. apply writes_bind; [apply tdf_write_nibble_ok; cbn; lia|].
    apply writes_bind; [apply tdf_write_align_ok|by apply tdf_write_string_ok].
  - intros [Hl Hlen]. rewrite u32_small by lia.
    apply writes_bind; [apply tdf_write_nibble_ok; cbn; lia|].
    apply writes_bind; [apply tdf_write_align_ok|].
    apply writes_bind; [apply tdf_write_int_ok; lia|by apply tdf_write_components_ok].
Qed.

(** ** Readers *)

Definition source_bytes (s : reader_source) : list Z :=
  match s with
  | RT_STREAM b => fread (drop (bi_pos b) (bi_data b)) (length (bi_data b))
  | RT_STRING s => take (s_limit s - s_current s) (drop (s_current s) (s_contents s))
  end.

(** No device failure lies ahead; the limit is inside the string. *)
Definition wf_source (s : reader_source) : Prop :=
  Forall is_byte (source_bytes s) /\
  match s with
  | RT_STREAM b => drop (bi_pos b) (bi_data b) = map Some (source_bytes s)
  | RT_STRING s => (s_current s <= s_limit s <= length (s_contents s))%nat
  end.

Definition r_rest (r : TDFReaderT) : list bool :=
  (if r_new_byte r then [] else bits_of_Z 4 (r_byte r)) ++ bytes_bits (source_bytes (r_source r)).

Definition wf_reader (r : TDFReaderT) : Prop :=
  wf_source (r_source r) /\ (r_new_byte r = false -> is_byte (r_byte r)).

(** The reader is at bit [pos] of a file of whole bytes. *)
Definition r_at (r : TDFReaderT) (pos : nat) : Prop := ((pos + length (r_rest r)) mod 8 = 0)%nat.

Definition reads {A} (m : reader A) (f : format) (a : A) : Prop :=
  forall r pos rest, wf_reader r -> r_at r pos -> r_rest r = f pos ++ rest ->
    exists r', m r = (r', Ok a) /\ wf_reader r' /\ r_rest r' = rest.

Lemma r_at_step r r' pos l rest :
  r_at r pos -> r_rest r = l ++ rest -> r_rest r' = rest -> r_at r' (pos + length l).
Proof.
  unfold r_at. intros H E ->. rewrite E, length_app in H.
  rewrite <- Nat.add_assoc. exact H.
Qed.

Lemma reads_bind {A B} (m : reader A) (k : A -> reader B) f1 f2 a b :
  reads m f1 a -> reads (k a) f2 b -> reads (m ≫= k) (fmt_seq f1 f2) b.
Proof.
  intros H1 H2 r pos rest Hr Hp E. unfold fmt_seq in E. rewrite <- app_assoc in E.
  destruct (H1 r pos _ Hr Hp E) as (r1 & E1 & Hr1 & R1).
  rewrite (stM_bind_ok _ _ _ _ _ E1).
  apply (H2 r1 (pos + length (f1 pos))%nat); auto. by eapply r_at_step.
Qed.

Lemma reads_ret {A} (a : A) : reads (mret a) fmt_nil a.
Proof. intros r pos rest Hr Hp E. exists r. auto. Qed.

Lemma fread_map_Some l n : (length l <= n)%nat -> fread (map Some l) n = l.
Proof.
  revert n. induction l as [|c l IH]; intros [|n] H; cbn in *; try lia; try reflexivity.
  rewrite IH by lia. reflexivity.
Qed.

Lemma fread_take l n : fread (map Some l) n = take n l.
Proof. revert n. induction l as [|c l IH]; intros [|n]; cbn; try reflexivity. rewrite IH. reflexivity. Qed.

(** Advancing a stream by [n] available bytes. *)
Lemma stream_advance b n :
  wf_source (RT_STREAM b) -> (n <= length (source_bytes (RT_STREAM b)))%nat ->
  forall bytes name,
  let s' := RT_STREAM (BIStream (bi_data b) (bi_pos b + n) bytes name) in
  wf_source s' /\ source_bytes s' = drop n (source_bytes (RT_STREAM b)).
Proof.
  intros [Hb E] Hn bytes name s'.
  assert (drop (bi_pos b + n) (bi_data b) = map Some (drop n (source_bytes (RT_STREAM b)))) as E'.
  { rewrite <- drop_drop, E, <- fmap_drop. reflexivity. }
  assert (source_bytes s' = drop n (source_bytes (RT_STREAM b))) as Es.
  { unfold s'. cbn [source_bytes bi_data bi_pos]. rewrite E'. apply fread_map_Some.
    rewrite length_drop. apply (f_equal length) in E. rewrite length_drop, length_map in E.
    cbn [source_bytes] in *. lia. }
  split; [|exact Es]. split.
  - rewrite Es. by apply Forall_drop.
  - rewrite Es. exact E'.
Qed.

Lemma stream_head b c l :
  wf_source (RT_STREAM b) -> source_bytes (RT_STREAM b) = c :: l ->
  bi_data b !! bi_pos b = Some (Some c).
Proof.
  intros [_ E] Hs. rewrite Hs in E. cbn in E.
  rewrite <- (Nat.add_0_r (bi_pos b)), <- lookup_drop, E. reflexivity.
Qed.

Lemma string_advance s n :
  wf_source (RT_STRING s) -> (n <= length (source_bytes (RT_STRING s)))%nat ->
  forall byte,
  let s' := RT_STRING (StringSource (s_contents s) (s_current s + n) (s_limit s) (s_name s) byte) in
  wf_source s' /\ source_bytes s' = drop n (source_bytes (RT_STRING s)).
Proof.
  intros [Hb Hlim] Hn byte s'. cbn [source_bytes] in *. rewrite length_take, length_drop in Hn.
  assert (source_bytes s' = drop n (source_bytes (RT_STRING s))) as Es.
  { unfold s'. cbn [source_bytes s_limit s_current s_contents].
    rewrite skipn_firstn_comm, drop_drop. f_equal; lia. }
  split; [|exact Es]. split.
  - rewrite Es. by apply Forall_drop.
  - cbn. lia.
Qed.

(** Taking a byte, whatever the source. *)
Lemma tdf_read_nibble_new s byte c l :
  wf_source s -> source_bytes s = c :: l ->
  exists s', tdf_read_nibble (TDFReader s byte true)
      = (TDFReader s' c false, Ok (Z.land (Z.shiftr c 4) 15)) /\
    wf_source s' /\ source_bytes s' = l.
Proof.
  intros Hs E. unfold tdf_read_nibble. cbn [r_new_byte r_source]. destruct s as [b|s].
  - destruct (stream_advance b 1 Hs ltac:(rewrite E; cbn; lia) (S (bi_bytes b)) (bi_name b)) as [Hs' E'].
    eexists. split; [|split; [exact Hs'|rewrite E', E; reflexivity]].
    unfold mbind, stM_bind, on_bistream, bistream_read_byte. rewrite (stream_head b c l Hs E).
    rewrite Nat.add_1_r. reflexivity.
  - destruct (string_advance s 1 Hs ltac:(rewrite E; cbn; lia) (S (s_byte s))) as [Hs' E'].
    pose proof Hs as [Hb Hlim]. cbn [source_bytes] in *.
    assert (s_current s < s_limit s)%nat as Hlt.
    { apply (f_equal length) in E. rewrite length_take, length_drop in E. cbn in E. lia. }
    assert (s_contents s !!! s_current s = c) as Hc.
    { apply list_lookup_total_correct. rewrite <- (Nat.add_0_r (s_current s)), <- lookup_drop.
      rewrite <- (lookup_take_lt _ (s_limit s - s_current s)) by lia. rewrite E. reflexivity. }
    rewrite (proj2 (Nat.ltb_lt _ _) Hlt), Hc, u8_small by (rewrite E in Hb; by inversion Hb).
    rewrite Nat.add_1_r in Hs', E'.
    eexists. split; [reflexivity|]. split; [exact Hs'|]. etransitivity; [exact E'|]. rewrite E. reflexivity.
Qed.

Lemma split_byte c : bits_of_Z 8 c = bits_of_Z 4 (Z.land (Z.shiftr c 4) 15) ++ bits_of_Z 4 (Z.land c 15).
Proof.
  rewrite (bits_of_Z_add 4 4). change 15 with (Z.ones (Z.of_nat 4)). rewrite !bits_of_Z_land_ones by lia.
  reflexivity.
Qed.

Lemma land15_bound v : 0 <= Z.land v 15 < 2 ^ Z.of_nat 4.
Proof. rewrite land15. apply Z.mod_pos_bound. lia. Qed.

Lemma bits4_app_inj v w l1 l2 :
  0 <= v < 16 -> 0 <= w < 16 -> bits_of_Z 4 v ++ l1 = bits_of_Z 4 w ++ l2 -> v = w /\ l1 = l2.
Proof.
  intros Hv Hw E. apply app_inj_1 in E as [E1 ->]; [|by rewrite !length_bits_of_Z].
  split; [|reflexivity]. apply (bits_of_Z_inj 4); auto.
Qed.

Lemma nibble_step v r rest :
  0 <= v < 16 -> wf_reader r -> r_rest r = bits_of_Z 4 v ++ rest ->
  exists r', tdf_read_nibble r = (r', Ok v) /\ wf_reader r' /\ r_rest r' = rest.
Proof.
  intros Hv. destruct r as [s byte new]. intros [Hs Hodd]. unfold r_rest.
  cbn [r_new_byte r_byte r_source] in *. destruct new; cbn [app]; intros E.
  - destruct (source_bytes s) as [|c l] eqn:Es.
    { apply (f_equal length) in E. rewrite length_app, length_bits_of_Z in E. cbn in E. lia. }
    assert (is_byte c) by (pose proof Hs as [Hb _]; rewrite Es in Hb; by inversion Hb).
    destruct (tdf_read_nibble_new s byte c l Hs Es) as (s' & -> & Hs' & Es').
    rewrite bytes_bits_cons, split_byte, <- app_assoc in E.
    pose proof (land15_bound (Z.shiftr c 4)).
    apply bits4_app_inj in E as [<- <-]; [|cbn in *; lia|exact Hv].
    eexists. split; [reflexivity|]. unfold wf_reader. cbn [r_new_byte r_byte r_source].
    split; [split; auto|]. rewrite Es'. f_equal. change 15 with (Z.ones (Z.of_nat 4)).
    symmetry. apply bits_of_Z_land_ones. lia.
  - unfold tdf_read_nibble. cbn [r_new_byte r_byte r_source].
    rewrite <- (bits_of_Z_land_ones 4 4) in E by lia. change (Z.ones (Z.of_nat 4)) with 15 in E.
    pose proof (land15_bound byte).
    apply bits4_app_inj in E as [-> <-]; [|cbn in *; lia|exact Hv].
    eexists. split; [reflexivity|]. split; [split; [exact Hs|discriminate]|reflexivity].
Qed.

Lemma tdf_read_nibble_ok v : 0 <= v < 16 -> reads tdf_read_nibble (fmt_nibble v) v.
Proof. intros Hv r pos rest Hr _. by apply nibble_step. Qed.

Lemma length_r_rest r :
  length (r_rest r) = ((if r_new_byte r then 0 else 4) + 8 * length (source_bytes (r_source r)))%nat.
Proof. unfold r_rest. rewrite length_app, length_bytes_bits. destruct (r_new_byte r); reflexivity. Qed.

Lemma r_at_new r pos : r_at r pos -> (pos mod 8 = if r_new_byte r then 0 else 4)%nat.
Proof.
  unfold r_at. rewrite length_r_rest. intros H.
  set (x := if r_new_byte r then 0%nat else 4%nat) in *.
  assert (x = 0 \/ x = 4)%nat as Hx by (unfold x; destruct (r_new_byte r); auto).
  pose proof (Nat.div_mod_eq (pos + (x + 8 * length (source_bytes (r_source r)))) 8).
  pose proof (Nat.div_mod_eq pos 8). pose proof (Nat.mod_upper_bound pos 8). lia.
Qed.

Lemma tdf_read_align_new r pos rest :
  wf_reader r -> r_at r pos -> r_rest r = pad_bits pos ++ rest ->
  exists r', tdf_read_align r = (r', Ok tt) /\ wf_reader r' /\ r_rest r' = rest /\ r_new_byte r' = true.
Proof.
  intros [Hs Hodd] Hp E. apply r_at_new in Hp. unfold pad_bits in E. rewrite Hp in E.
  eexists. split; [reflexivity|]. unfold wf_reader, r_rest in *. cbn [r_new_byte r_byte r_source].
  split; [split; [exact Hs|discriminate]|]. split; [|reflexivity]. cbn [app].
  destruct (r_new_byte r); [exact E|].
  apply app_inj_1 in E as [_ E]; [exact E|]. rewrite length_bits_of_Z. reflexivity.
Qed.

Lemma tdf_read_align_ok : reads tdf_read_align fmt_align tt.
Proof.
  intros r pos rest Hr Hp E. destruct (tdf_read_align_new r pos rest Hr Hp E) as (r' & ? & ? & ? & _). eauto.
Qed.

Lemma fold_digits_ge l v : Forall is_digit l -> 0 <= v -> v <= fold_left (fun a d => 8 * a + d) l v.
Proof.
  intros Hl. revert v. induction Hl as [|d l Hd Hl IH]; intros v Hv; cbn [fold_left]; [lia|].
  unfold is_digit in Hd. specialize (IH (8 * v + d) ltac:(lia)). lia.
Qed.

(** One digit: the overflow test is exact. *)
Lemma digit_step v x d :
  is_digit d -> 0 <= v <= UINT_MAX -> Z.land x 7 = d ->
  (Z.shiftr UINT_MAX 3 <? v) = (UINT_MAX <? 8 * v + d) /\
  (8 * v + d <= UINT_MAX -> Z.lor (u32 (Z.shiftl v 3)) (Z.land x 7) = 8 * v + d).
Proof.
  unfold is_digit, UINT_MAX, UINT_BITS. intros Hd Hv Hx. change (2 ^ 32 - 1) with 4294967295 in *.
  split.
  - change (Z.shiftr 4294967295 3) with 536870911.
    destruct (Z.ltb_spec 536870911 v), (Z.ltb_spec 4294967295 (8 * v + d)); lia.
  - intros Hle. rewrite Hx, u32_small by (rewrite Z.shiftl_mul_pow2 by lia; lia).
    rewrite lor_shiftl; lia.
Qed.

Lemma marked_digit d : is_digit d -> Z.land (Z.lor d 8) 7 = d /\ (Z.land (Z.lor d 8) 8 =? 0) = false.
Proof.
  unfold is_digit. intros H.
  assert (d = 0 \/ d = 1 \/ d = 2 \/ d = 3 \/ d = 4 \/ d = 5 \/ d = 6 \/ d = 7) as Hd by lia.
  repeat destruct Hd as [->|Hd]; subst; split; reflexivity.
Qed.

Lemma plain_digit d : is_digit d -> Z.land d 7 = d /\ (Z.land d 8 =? 0) = true.
Proof.
  unfold is_digit. intros H.
  assert (d = 0 \/ d = 1 \/ d = 2 \/ d = 3 \/ d = 4 \/ d = 5 \/ d = 6 \/ d = 7) as Hd by lia.
  repeat destruct Hd as [->|Hd]; subst; split; reflexivity.
Qed.

Lemma tdf_read_int_loop_ok l d fuel v r rest :
  Forall is_digit l -> is_digit d -> wf_reader r ->
  r_rest r = nibble_bits (l ++ [Z.lor d 8]) ++ rest -> 0 <= v <= UINT_MAX -> (length l < fuel)%nat ->
  let total := fold_left (fun a d => 8 * a + d) (l ++ [d]) v in
  if UINT_MAX <? total
  then exists r', tdf_read_int_loop fuel v r = (r', Throw XX_tdf_read_error)
  else exists r', tdf_read_int_loop fuel v r = (r', Ok total) /\ wf_reader r' /\ r_rest r' = rest.
Proof.
  intros Hl Hd. revert fuel v r. induction Hl as [|x l Hx Hl IH]; intros fuel v r Hr E Hv Hf;
    (destruct fuel as [|fuel]; [cbn in Hf; lia|]); cbn zeta.
  - cbn [app nibble_bits flat_map] in E. rewrite app_nil_r in E.
    assert (0 <= Z.lor d 8 < 16) by (rewrite lor8 by exact Hd; unfold is_digit in Hd; lia).
    destruct (nibble_step _ r rest ltac:(eassumption) Hr E) as (r' & E1 & Hr' & R').
    cbn [app fold_left tdf_read_int_loop]. rewrite (stM_bind_ok _ _ _ _ _ E1).
    destruct (marked_digit d Hd) as [E7 E8].
    destruct (digit_step v _ d Hd Hv E7) as [-> Hval]. rewrite E8.
    destruct (Z.ltb_spec UINT_MAX (8 * v + d)); [by eexists|].
    rewrite Hval by lia. eauto.
  - unfold nibble_bits in E. cbn [app flat_map] in E. rewrite <- app_assoc in E.
    pose proof Hx as Hx'. unfold is_digit in Hx'.
    destruct (nibble_step x r _ ltac:(lia) Hr E) as (r' & E1 & Hr' & R').
    cbn [app fold_left tdf_read_int_loop]. rewrite (stM_bind_ok _ _ _ _ _ E1).
    destruct (plain_digit x Hx) as [E7 E8].
    destruct (digit_step v _ x Hx Hv E7) as [-> Hval]. rewrite E8.
    destruct (Z.ltb_spec UINT_MAX (8 * v + x)) as [Hbig|Hsmall].
    + pose proof (fold_digits_ge (l ++ [d]) (8 * v + x)
        ltac:(apply Forall_app; auto) ltac:(lia)).
      rewrite (proj2 (Z.ltb_lt _ _)) by lia. by eexists.
    + rewrite Hval by lia. cbn [length] in Hf. apply (IH fuel _ r'); auto; lia.
Qed.

Lemma source_left_bytes r : wf_reader r -> length (source_bytes (r_source r)) = source_left r.
Proof.
  intros [[_ H] _]. unfold source_left. destruct (r_source r) as [b|s].
  - apply (f_equal length) in H. rewrite length_drop, length_map in H. lia.
  - cbn [source_bytes]. rewrite length_take, length_drop. lia.
Qed.

Lemma tdf_read_int_cases n r rest :
  0 <= n -> wf_reader r -> r_rest r = tdfint_bits n ++ rest ->
  if UINT_MAX <? n
  then exists r', tdf_read_int r = (r', Throw XX_tdf_read_error)
  else exists r', tdf_read_int r = (r', Ok n) /\ wf_reader r' /\ r_rest r' = rest.
Proof.
  intros Hn Hr E. pose proof (source_left_bytes r Hr) as Hleft.
  assert (length (octal_init n) < reader_fuel r)%nat as Hf.
  { apply (f_equal length) in E. rewrite length_r_rest, length_app in E.
    unfold tdfint_bits, tdfint_nibbles in E. rewrite length_nibble_bits, length_app in E.
    cbn [length] in E. unfold reader_fuel. destruct (r_new_byte r); lia. }
  pose proof (tdf_read_int_loop_ok (octal_init n) (Z.land n 7) (reader_fuel r) 0 r rest
    (octal_init_Forall n Hn) (land7_digit n) Hr E ltac:(unfold UINT_MAX, UINT_BITS; lia) Hf) as H.
  rewrite <- octal_digits_eq in H by exact Hn. change (fold_left _ _ 0) with (octal_value (octal_digits n)) in H.
  rewrite octal_value_digits in H by exact Hn. exact H.
Qed.

Lemma tdf_read_int_ok n : 0 <= n <= UINT_MAX -> reads tdf_read_int (fmt_int n) n.
Proof.
  intros Hn r pos rest Hr _ E. pose proof (tdf_read_int_cases n r rest ltac:(lia) Hr E) as H.
  destruct (Z.ltb_spec UINT_MAX n); [lia|exact H].
Qed.

Lemma memcpy_all dst src n :
  length dst = n -> length src = n -> memcpy_at dst 0 src n = src.
Proof.
  intros <- H. unfold memcpy_at. rewrite take_0, drop_ge, app_nil_r, take_ge by lia. reflexivity.
Qed.

Lemma nstring_insert_ok nstring src :
  length (n_contents nstring) = n_length nstring -> (n_length nstring <= length src)%nat ->
  nstring_insert_cstring nstring src = NString (n_length nstring) (take (n_length nstring) src).
Proof.
  intros Hc Hle. unfold nstring_insert_cstring, nstring_length.
  destruct (Nat.ltb_spec 0 (n_length nstring)) as [Hpos|Hz].
  - f_equal. unfold memcpy_at. rewrite take_0, (drop_ge (n_contents nstring)), app_nil_r by lia. reflexivity.
  - destruct nstring as [n c]. cbn in *. destruct n; [|lia]. destruct c; [reflexivity|discriminate].
Qed.

(** Whole bytes, at a byte boundary. *)
Lemma read_raw_bytes r nstring l rest :
  wf_reader r -> r_new_byte r = true -> r_rest r = bytes_bits l ++ rest ->
  Forall is_byte l -> length (n_contents nstring) = length l -> n_length nstring = length l ->
  exists r', tdf_read_bytes nstring r = (r', Ok (NString (length l) l)) /\ wf_reader r' /\ r_rest r' = rest.
Proof.
  intros [Hs _] Hnew E Hl Hc Hn. unfold r_rest in E. rewrite Hnew in E. cbn [app] in E.
  assert (exists l', source_bytes (r_source r) = l ++ l' /\ rest = bytes_bits l') as (l' & Es & ->).
  { exists (drop (length l) (source_bytes (r_source r))).
    pose proof E as E'. apply (f_equal (take (8 * length l))) in E. apply (f_equal (drop (8 * length l))) in E'.
    rewrite (take_app_le (bytes_bits l)), (take_ge (bytes_bits l)), bytes_bits_take in E by (rewrite length_bytes_bits; lia).
    rewrite (drop_app_ge (bytes_bits l)), length_bytes_bits, Nat.sub_diag, bytes_bits_drop in E'
      by (rewrite length_bytes_bits; lia).
    apply bytes_bits_inj in E; [|apply Forall_take, Hs|exact Hl]. split; [|symmetry; exact E'].
    rewrite <- E at 1. symmetry. apply take_drop. }
  unfold tdf_read_bytes, tdf_read_align, nstring_length. rewrite Hn. cbn [r_source].
  destruct (r_source r) as [b|s].
  - destruct (stream_advance b (length l) Hs ltac:(rewrite Es, length_app; lia)
      (bi_bytes b + length l)%nat (bi_name b)) as [Hs' Es'].
    assert (fread (drop (bi_pos b) (bi_data b)) (length l) = l) as Hf.
    { destruct Hs as [_ Hd]. rewrite Hd, fread_take, Es, take_app_length. reflexivity. }
    assert (forall A (x y : A), (if (length l =? 0)%nat && (0 <? length l)%nat &&
      bool_decide (bi_data b !! bi_pos b = Some None) then x else y) = y) as Hif
      by (intros; destruct (length l); reflexivity).
    unfold mbind, stM_bind, on_bistream, bistream_read_chars. rewrite Hf, Hif.
    rewrite Nat.eqb_refl, memcpy_all by auto. eexists. split; [reflexivity|].
    split; [split; [exact Hs'|discriminate]|]. unfold r_rest. cbn [r_new_byte r_source app].
    rewrite Es', Es, drop_app_length. reflexivity.
  - destruct (string_advance s (length l) Hs ltac:(rewrite Es, length_app; lia)
      (s_byte s + length l)%nat) as [Hs' Es'].
    rewrite Es, drop_app_length in Es'.
    pose proof Hs as [_ Hlim]. cbn [source_bytes] in Es.
    assert (length l <= s_limit s - s_current s)%nat as Hle.
    { apply (f_equal length) in Es. rewrite length_take, length_drop, length_app in Es. lia. }
    rewrite (proj2 (Nat.ltb_ge _ _)) by lia.
    eexists. split.
    { repeat f_equal. rewrite nstring_insert_ok by (rewrite ?length_drop; lia). rewrite Hn. f_equal.
      apply (f_equal (take (length l))) in Es.
      rewrite take_take, Nat.min_l, take_app_length in Es by lia. exact Es. }
    split; [split; [exact Hs'|discriminate]|]. unfold r_rest. cbn [r_new_byte r_source app].
    f_equal. exact Es'.
Qed.

Lemma tdf_read_bytes_align nstring r r' :
  tdf_read_align r = (r', Ok tt) -> tdf_read_bytes nstring r = tdf_read_bytes nstring r'.
Proof. unfold tdf_read_align. intros [= <-]. reflexivity. Qed.

Lemma tdf_read_bytes_ok nstring l :
  Forall is_byte l -> length (n_contents nstring) = length l -> n_length nstring = length l ->
  reads (tdf_read_bytes nstring) (fmt_bytes l) (NString (length l) l).
Proof.
  intros Hl Hc Hn r pos rest Hr Hp E. unfold fmt_bytes, fmt_seq, fmt_align, fmt_raw in E.
  rewrite <- app_assoc in E.
  destruct (tdf_read_align_new r pos _ Hr Hp E) as (r1 & E1 & Hr1 & R1 & Hnew).
  rewrite (tdf_read_bytes_align _ _ _ E1). by apply read_raw_bytes.
Qed.

Section ReadNames.
Variable junk : nat -> Z.
Variable junk_nstring : nat -> NStringT.

Lemma tdf_read_string_ok s :
  ok_nstring s -> reads (tdf_read_string junk) (fmt_string (n_contents s)) s.
Proof.
  intros [[Hlen Hb] H32]. unfold tdf_read_string, fmt_string.
  apply reads_bind with 8; [apply tdf_read_int_ok; unfold UINT_MAX, UINT_BITS; lia|].
  change (negb (8 =? 8)) with false. cbn iota.
  apply reads_bind with (Z.of_nat (length (n_contents s)));
    [apply tdf_read_int_ok; unfold UINT_MAX, UINT_BITS; lia|].
  rewrite Nat2Z.id. destruct s as [n l]. cbn [n_contents n_length] in *. subst n.
  apply tdf_read_bytes_ok; [exact Hb|apply length_ALLOCATE|reflexivity].
Qed.

(** Filling the components from [i] on. *)
Lemma tdf_read_components_ok l done rest :
  Forall ok_nstring l -> length rest = length l ->
  reads (tdf_read_components junk (length l) (length done) (KT_UNIQUE (done ++ rest)))
    (fmt_list (fun s => fmt_string (n_contents s)) l) (KT_UNIQUE (done ++ l)).
Proof.
  intros Hl. revert done rest. induction Hl as [|s l Hs Hl IH]; intros done rest Hr.
  - destruct rest; [|discriminate]. apply reads_ret.
  - destruct rest as [|x rest]; [discriminate|]. cbn [length tdf_read_components] in *.
    apply reads_bind with s; [by apply tdf_read_string_ok|].
    cbn [name_key_set_component]. rewrite (proj2 (Nat.ltb_lt _ _)) by (rewrite length_app; cbn; lia).
    rewrite insert_app_r_alt by lia. rewrite Nat.sub_diag. cbn [insert list_insert].
    replace (nstring_assign s) with s by (destruct s; reflexivity).
    specialize (IH (done ++ [s]) rest ltac:(lia)).
    rewrite length_app, <- !app_assoc in IH. cbn [app length] in IH. rewrite Nat.add_1_r in IH. exact IH.
Qed.

Lemma tdf_read_name_ok k : ok_key k -> reads (tdf_read_name junk junk_nstring) (fmt_name k) k.
Proof.
  intros Hk. unfold tdf_read_name, fmt_name. destruct k as [s|l]; cbn [ok_key] in Hk.
  - apply reads_bind with 4; [apply tdf_read_nibble_ok; lia|].
    apply reads_bind with tt; [apply tdf_read_align_ok|].
    change (Z.land (Z.shiftr 4 2) 3 =? 1) with true. cbn iota.
    assert (reads (nstring ← tdf_read_string junk; mret (name_key_init_string nstring))
      (fmt_seq (fmt_string (n_contents s)) fmt_nil) (KT_STRING s)) as H.
    { apply reads_bind with s; [by apply tdf_read_string_ok|].
      replace (name_key_init_string s) with (KT_STRING s) by (destruct s; reflexivity). apply reads_ret. }
    intros r pos rest Hr Hp E. apply (H r pos); auto. unfold fmt_seq, fmt_nil. by rewrite app_nil_r.
  - destruct Hk as [Hl Hlen]. apply reads_bind with 8; [apply tdf_read_nibble_ok; lia|].
    apply reads_bind with tt; [apply tdf_read_align_ok|].
    change (Z.land (Z.shiftr 8 2) 3 =? 1) with false. change (Z.land (Z.shiftr 8 2) 3 =? 2) with true.
    cbn iota. apply reads_bind with (Z.of_nat (length l));
      [apply tdf_read_int_ok; unfold UINT_MAX, UINT_BITS; lia|].
    rewrite Nat2Z.id. unfold name_key_init_unique.
    apply (tdf_read_components_ok l [] (map junk_nstring (seq 0 (length l)))); [exact Hl|]. rewrite length_map, length_seq. reflexivity.
Qed.
End ReadNames.

(** ** Whole files *)

(** A reader at the start of the bytes [data]. *)
Definition opens (r : TDFReaderT) (data : list Z) : Prop :=
  wf_reader r /\ r_new_byte r = true /\ source_bytes (r_source r) = data.

Lemma open_stream_reads data name byte :
  Forall is_byte data -> opens (tdf_reader_open (map Some data) name byte) data.
Proof.
  intros Hb. assert (source_bytes (RT_STREAM (bistream_open (map Some data) name)) = data) as E.
  { cbn [source_bytes bistream_open bi_data bi_pos drop]. apply fread_map_Some. rewrite length_map. lia. }
  split; [|split; [reflexivity|exact E]]. split; [|discriminate]. split.
  - cbn [tdf_reader_open r_source]. rewrite E. exact Hb.
  - cbn [tdf_reader_open r_source]. cbn [bistream_open bi_data bi_pos drop].
    change (map Some data = map Some (source_bytes (RT_STREAM (bistream_open (map Some data) name)))).
    rewrite E. reflexivity.
Qed.

Lemma open_string_reads data name byte :
  Forall is_byte data -> opens (tdf_reader_open_string name (NString (length data) data) byte) data.
Proof.
  intros Hb. assert (source_bytes (r_source (tdf_reader_open_string name (NString (length data) data) byte))
    = data) as E.
  { cbn. rewrite Nat.sub_0_r. apply take_ge. lia. }
  split; [|split; [reflexivity|exact E]]. split; [|discriminate]. split.
  - rewrite E. exact Hb.
  - cbn. lia.
Qed.

(** Fewer than eight bits left are the low half of the last byte. *)
Lemma tdf_read_eof_ok r : wf_reader r -> (length (r_rest r) < 8)%nat -> (tdf_read_eof r).2 = Ok tt.
Proof.
  intros [[_ Hs] _] Hlen. rewrite length_r_rest in Hlen. unfold tdf_read_eof.
  assert (source_bytes (r_source r) = []) as E by (destruct (source_bytes (r_source r)); [auto|cbn in Hlen; lia]).
  destruct (r_source r) as [b|s].
  - rewrite E in Hs. unfold mbind, stM_bind, on_bistream, bistream_read_byte.
    assert (bi_data b !! bi_pos b = None) as ->; [|reflexivity].
    rewrite <- (Nat.add_0_r (bi_pos b)), <- lookup_drop, Hs. reflexivity.
  - cbn [source_bytes] in E. apply (f_equal length) in E. rewrite length_take, length_drop in E. cbn in E.
    rewrite (proj2 (Nat.ltb_ge _ _)) by lia. reflexivity.
Qed.

(** Reading back a padded file from its start. *)
Lemma file_read_back {A} (m : reader A) f a r data :
  reads m f a -> opens r data -> bytes_bits data = f 0%nat ++ pad_bits (length (f 0%nat)) ->
  exists r', m r = (r', Ok a) /\ (tdf_read_eof r').2 = Ok tt.
Proof.
  intros Hm (Hr & Hnew & Hs) E.
  assert (r_rest r = bytes_bits data) as Hrest by (unfold r_rest; rewrite Hnew, Hs; reflexivity).
  destruct (Hm r 0%nat (pad_bits (length (f 0%nat))) Hr) as (r' & E1 & Hr' & R').
  - unfold r_at. rewrite Hrest, length_bytes_bits, Nat.add_0_l, Nat.mul_comm. apply Nat.Div0.mod_mul.
  - rewrite Hrest. exact E.
  - exists r'. split; [exact E1|]. apply tdf_read_eof_ok; [exact Hr'|]. rewrite R'.
    unfold pad_bits. rewrite length_replicate. apply Nat.mod_upper_bound. lia.
Qed.

Inductive item :=
| IInt (n : Z)
| IString (s : NStringT)
| IName (k : NameKeyT)
| IBytes (s : NStringT)
| IAlign.

Definition ok_item (i : item) : Prop :=
  match i with
  | IInt n => 0 <= n <= UINT_MAX
  | IString s => ok_nstring s
  | IName k => ok_key k
  | IBytes s => wf_nstring s
  | IAlign => True
  end.

Definition fmt_item (i : item) : format :=
  match i with
  | IInt n => fmt_int n
  | IString s => fmt_string (n_contents s)
  | IName k => fmt_name k
  | IBytes s => fmt_bytes (n_contents s)
  | IAlign => fmt_align
  end.

Definition write_item (i : item) : writer unit :=
  match i with
  | IInt n => tdf_write_int n
  | IString s => tdf_write_string s
  | IName k => tdf_write_name k
  | IBytes s => tdf_write_bytes s
  | IAlign => tdf_write_align
  end.

Fixpoint write_items (l : list item) : writer unit :=
  match l with
  | [] => mret tt
  | i :: l => _ ← write_item i; write_items l
  end.

Section Files.
Variable junk : nat -> Z.
Variable junk_nstring : nat -> NStringT.

(** Reads an item of the kind of [i]; the length of raw bytes is known to
    the reader. *)
Definition read_item (i : item) : reader item :=
  match i with
  | IInt _ => n ← tdf_read_int; mret (IInt n)
  | IString _ => s ← tdf_read_string junk; mret (IString s)
  | IName _ => k ← tdf_read_name junk junk_nstring; mret (IName k)
  | IBytes s => s ← tdf_read_bytes (nstring_init_length junk (n_length s)); mret (IBytes s)
  | IAlign => _ ← tdf_read_align; mret IAlign
  end.

Fixpoint read_items (l : list item) : reader (list item) :=
  match l with
  | [] => mret []
  | i :: l => i ← read_item i; l ← read_items l; mret (i :: l)
  end.

Lemma reads_map {A B} (m : reader A) f a (g : A -> B) :
  reads m f a -> reads (x ← m; mret (g x)) f (g a).
Proof.
  intros H r pos rest Hr Hp E. destruct (H r pos rest Hr Hp E) as (r' & E1 & ?).
  exists r'. rewrite (stM_bind_ok _ _ _ _ _ E1). auto.
Qed.

Lemma read_item_ok i : ok_item i -> reads (read_item i) (fmt_item i) i.
Proof.
  destruct i as [n|s|k|s|]; cbn [ok_item read_item fmt_item]; intros H.
  - apply reads_map, tdf_read_int_ok, H.
  - apply reads_map, tdf_read_string_ok, H.
  - apply reads_map, tdf_read_name_ok, H.
  - destruct H as [Hl Hb]. destruct s as [n l]. cbn [n_length n_contents] in *. subst n.
    apply reads_map, tdf_read_bytes_ok; [exact Hb|apply length_ALLOCATE|reflexivity].
  - apply (reads_map _ _ tt (fun _ => IAlign)), tdf_read_align_ok.
Qed.

Lemma read_items_ok l : Forall ok_item l -> reads (read_items l) (fmt_list fmt_item l) l.
Proof.
  induction 1 as [|i l Hi Hl IH]; [apply reads_ret|]. cbn [read_items fmt_list foldr].
  apply reads_bind with i; [by apply read_item_ok|]. by apply (reads_map _ _ l (cons i)).
Qed.

Lemma write_item_ok i : ok_item i -> writes (write_item i) (fmt_item i).
Proof.
  destruct i as [n|s|k|s|]; cbn [ok_item write_item fmt_item]; intros H.
  - apply tdf_write_int_ok. unfold UINT_MAX, UINT_BITS in H. lia.
  - by apply tdf_write_string_ok.
  - by apply tdf_write_name_ok.
  - by apply tdf_write_bytes_ok.
  - apply tdf_write_align_ok.
Qed.

Lemma write_items_ok l : Forall ok_item l -> writes (write_items l) (fmt_list fmt_item l).
Proof.
  induction 1 as [|i l Hi Hl IH]; [apply writes_ret|]. apply writes_bind; [by apply write_item_ok|exact IH].
Qed.

(** A file: open, write, close. *)
Definition write_tdf (l : list item) (device : DeviceT) (name : list Z) (byte : Z) : TDFWriterT * result exn unit :=
  (_ ← write_items l; tdf_writer_close) (tdf_writer_open device name byte).

Lemma open_writer_wf sends name byte : wf_writer (tdf_writer_open (takes_all sends) name byte).
Proof. split_and!; [split; [apply fopen_ok|reflexivity]|constructor|discriminate]. Qed.

Lemma written_file_ok m f sends name byte :
  writes m f ->
  exists w, (_ ← m; tdf_writer_close) (tdf_writer_open (takes_all sends) name byte) = (w, Ok tt) /\
    Forall is_byte (bytes_in_file w) /\
    bytes_bits (bytes_in_file w) = f 0%nat ++ pad_bits (length (f 0%nat)).
Proof.
  intros Hm. unfold tdf_writer_close.
  destruct (Hm _ (open_writer_wf sends name byte)) as (w1 & E1 & Hw1 & B1).
  rewrite (stM_bind_ok _ _ _ _ _ E1).
  destruct (tdf_write_align_ok w1 Hw1) as (w2 & E2 & Hw2 & B2).
  rewrite (stM_bind_ok _ _ _ _ _ E2).
  unfold on_bostream, st_zoom. destruct (bostream_close_ok _ (proj1 Hw2)) as (b & -> & _ & _ & Eb).
  eexists. split; [reflexivity|]. unfold bytes_in_file. cbn [w_bostream]. rewrite Eb. split; [apply Hw2|].
  rewrite B1 in B2. change (w_bits (tdf_writer_open (takes_all sends) name byte)) with (@nil bool) in B2. cbn [app length] in B2.
  unfold w_bits in B2.
  assert (w_new_byte w2 = true) as Hnew.
  { pose proof (length_w_bits w2) as Hl. unfold w_bits in Hl. rewrite B2, length_app in Hl.
    unfold fmt_align in Hl. rewrite pad_aligned in Hl. destruct (w_new_byte w2); [reflexivity|discriminate]. }
  rewrite Hnew, app_nil_r in B2. exact B2.
Qed.

Lemma write_tdf_ok l sends name byte :
  Forall ok_item l ->
  exists w, write_tdf l (takes_all sends) name byte = (w, Ok tt) /\ Forall is_byte (bytes_in_file w) /\
    bytes_bits (bytes_in_file w)
    = fmt_list fmt_item l 0%nat ++ pad_bits (length (fmt_list fmt_item l 0%nat)).
Proof. intros Hl. by apply written_file_ok, write_items_ok. Qed.

(** C17: whatever sequence of integers, strings, external names, raw bytes
    and alignments the linker's writer puts in a file, its reader gives back
    the same sequence, from a file or from a string, and then finds the end
    of the file. *)
Theorem tdf_io_roundtrip l sends name byte byte' :
  Forall ok_item l ->
  exists w, write_tdf l (takes_all sends) name byte = (w, Ok tt) /\
  let data := bytes_in_file w in
  (exists r, read_items l (tdf_reader_open (map Some data) name byte') = (r, Ok l) /\
     (tdf_read_eof r).2 = Ok tt) /\
  (exists r, read_items l (tdf_reader_open_string name (NString (length data) data) byte') = (r, Ok l) /\
     (tdf_read_eof r).2 = Ok tt).
Proof.
  intros Hl. destruct (write_tdf_ok l sends name byte Hl) as (w & E & Hb & B).
  exists w. split; [exact E|]. cbn zeta. set (data := bytes_in_file w) in *.
  split; eapply file_read_back; eauto using read_items_ok.
  - apply open_stream_reads, Hb.
  - apply open_string_reads, Hb.
Qed.
End Files.

(** [tdf_read_int] returns the encoded integer when it fits an [unsigned]
    and throws, without wrapping around, when it does not. *)
Theorem tdf_read_int_exact n r rest :
  0 <= n -> wf_reader r -> r_rest r = tdfint_bits n ++ rest ->
  if UINT_MAX <? n
  then exists r', tdf_read_int r = (r', Throw XX_tdf_read_error)
  else exists r', tdf_read_int r = (r', Ok n) /\ wf_reader r' /\ r_rest r' = rest.
Proof. apply tdf_read_int_cases. Qed.

(** The nibbles left. *)
Definition nibbles_left (r : TDFReaderT) : nat :=
  (2 * source_left r + (if r_new_byte r then 0 else 1))%nat.

Lemma tdf_read_nibble_decreases r r' v :
  tdf_read_nibble r = (r', Ok v) -> (nibbles_left r' < nibbles_left r)%nat.
Proof.
  destruct r as [s byte new]. unfold tdf_read_nibble, nibbles_left, source_left.
  cbn [r_new_byte r_source r_byte]. destruct new; [|intros [= <- _]; cbn; lia].
  destruct s as [b|s].
  - unfold mbind, stM_bind, on_bistream, bistream_read_byte.
    destruct (bi_data b !! bi_pos b) as [[c|]|] eqn:E; try discriminate.
    intros [= <- _]. apply lookup_lt_Some in E. cbn. lia.
  - destruct (Nat.ltb_spec (s_current s) (s_limit s)); [|discriminate]. intros [= <- _]. cbn. lia.
Qed.

Lemma tdf_read_int_loop_fuel f1 f2 v r :
  (nibbles_left r < f1)%nat -> (nibbles_left r < f2)%nat ->
  tdf_read_int_loop f1 v r = tdf_read_int_loop f2 v r.
Proof.
  revert f2 v r. induction f1 as [|f1 IH]; intros [|f2] v r H1 H2; try lia.
  cbn [tdf_read_int_loop]. unfold mbind, stM_bind.
  destruct (tdf_read_nibble r) as [r' [x|e]] eqn:E; [|reflexivity].
  apply tdf_read_nibble_decreases in E. destruct (_ <? _); [reflexivity|].
  destruct (_ =? 0); [|reflexivity]. apply IH; lia.
Qed.

(** The loop of [tdf_read_int] ends on every reader, sound or not: more
    rounds than the nibbles left in its source never change the outcome. *)
Theorem tdf_read_int_terminates r fuel :
  (reader_fuel r <= fuel)%nat -> tdf_read_int_loop fuel 0 r = tdf_read_int r.
Proof.
  intros H. apply tdf_read_int_loop_fuel; unfold nibbles_left, reader_fuel in *;
    destruct (r_new_byte r); lia.
Qed.

(** ** Concrete instances *)

Definition demo_items : list item :=
  [IInt 4294967295; IName (KT_UNIQUE [NString 2 [97; 98]; NString 0 []]); IInt 5; IAlign;
   IString (NString 3 [1; 2; 3]); IBytes (NString 1 [255]); IName (KT_STRING (NString 1 [46]))].

Lemma demo_items_ok : Forall ok_item demo_items.
Proof. repeat (constructor; cbn; try lia; try done). Qed.

Lemma tdf_io_roundtrip_witness :
  exists w, write_tdf demo_items (takes_all at_close) [102] 0 = (w, Ok tt) /\
  let data := bytes_in_file w in
  (exists r, read_items (fun _ => 0) (fun _ => nstring_init) demo_items
      (tdf_reader_open (map Some data) [102] 0) = (r, Ok demo_items) /\ (tdf_read_eof r).2 = Ok tt) /\
  (exists r, read_items (fun _ => 0) (fun _ => nstring_init) demo_items
      (tdf_reader_open_string [102] (NString (length data) data) 0) = (r, Ok demo_items) /\
    (tdf_read_eof r).2 = Ok tt).
Proof. apply (tdf_io_roundtrip (fun _ => 0) (fun _ => nstring_init) demo_items at_close [102] 0 0 demo_items_ok). Defined.

Lemma tdf_read_int_exact_witness :
  let r := TDFReader (RT_STRING (StringSource [64; 0; 0; 0; 0; 8] 0 6 [] 0)) 0 true in
  exists r', tdf_read_int r = (r', Throw XX_tdf_read_error).
Proof.
  apply (tdf_read_int_exact (2 ^ 35) _ []); [lia| |vm_compute; reflexivity].
  repeat constructor; cbn; try lia; discriminate.
Defined.

Lemma tdf_read_int_terminates_witness :
  let r := TDFReader (RT_STREAM (BIStream [Some 0; Some 1; None] 0 0 None)) 0 true in
  tdf_read_int_loop 100 0 r = tdf_read_int r.
Proof. apply tdf_read_int_terminates. cbn. lia. Defined.
