(* ===== verification/Interop.v ===== *)
(** * Interop: files written by one program and read by another

    The producers write TDF with libtdf; the linker reads it with its own
    reader. Both implement the format of [Codec], so what libtdf encodes the
    linker decodes. *)
From stdpp Require Import base list list_numbers gmap numbers.
From Stdlib Require Import ZArith Lia.
From S2P Require Import Prelude Codec LibtdfEncode LibtdfEncodeSpec LibtdfDecode LibtdfRoundtrip.
From S2P Require Import ExdsString TldNameKey TldIO TldIOSpec.

(** The fields both programs have an operation for. *)
Definition common_field (f : field) : option item :=
  match f with
  | FInt n => Some (IInt n)
  | FAlign => Some IAlign
  | _ => None
  end.

Lemma common_format fs l pos :
  mapM common_field fs = Some l -> fields_bits pos fs = fmt_list fmt_item l pos.
Proof.
  revert l pos. induction fs as [|f fs IH]; intros l pos H; cbn in H.
  - injection H as <-. reflexivity.
  - apply bind_Some in H as (i & Hi & H). apply bind_Some in H as (l' & Hl' & [= <-]).
    cbn [fields_bits fmt_list foldr]. unfold fmt_seq.
    destruct f; try discriminate; injection Hi as <-; cbn [fmt_item]; f_equal; by apply IH.
Qed.

Lemma common_ok fs l :
  mapM common_field fs = Some l -> Forall ok_item l -> Forall wf_field fs.
Proof.
  revert l. induction fs as [|f fs IH]; intros l H Hl; [constructor|]. cbn in H.
  apply bind_Some in H as (i & Hi & H). apply bind_Some in H as (l' & Hl' & [= <-]).
  inversion Hl; subst. constructor; [|by eapply IH].
  destruct f; try discriminate; injection Hi as <-; cbn in *; [|done].
  unfold UINT_MAX, UINT_BITS in *. lia.
Qed.


