(* ===== verification/HashTable.v ===== *)
(** * HashTable: the chained hash tables of the linker

    tld/src/adt/name-table.c, shape-table.c, map-table.c and unit-table.c are
    the same table over different entries: an array of chains indexed by the
    hash of the key modulo its size, searched with the key's equality; new
    entries go to the end of the chain (names, shapes) or to its front (maps,
    units). [HashKey] is what a key type promises to the table; under it the
    table is a finite map. *)
From stdpp Require Import base list list_numbers numbers.
From Stdlib Require Import ZArith Lia.
From S2P Require Import Prelude ExdsString TldNameKey.

Class HashKey (K : Type) := {
  hk_ok : K -> Prop;
  hk_equal : K -> K -> bool;
  hk_hash : K -> Z;
  hk_equal_iff k1 k2 : hk_ok k1 -> hk_ok k2 -> hk_equal k1 k2 = true <-> k1 = k2;
  hk_hash_nonneg k : 0 <= hk_hash k
}.

(** ** The keys of the linker *)

Lemma nstring_hash_loop_nonneg n l v : 0 <= v -> 0 <= nstring_hash_loop n l v.
Proof.
  revert n v. induction l as [|c l IH]; intros [|n] v Hv; cbn; auto.
  apply IH. apply Z.mod_pos_bound. reflexivity.
Qed.

Lemma nstring_hash_nonneg s : 0 <= nstring_hash_value s.
Proof. apply nstring_hash_loop_nonneg. lia. Qed.

Lemma name_key_hash_nonneg k : 0 <= name_key_hash_value k.
Proof.
  destruct k as [s|l]; cbn; [apply nstring_hash_nonneg|].
  assert (forall h, 0 <= h -> 0 <= fold_left (fun h s => u32 (h + nstring_hash_value s)) l h) as H.
  { induction l as [|s l IH]; intros h Hh; cbn; [exact Hh|]. apply IH, Z.mod_pos_bound. reflexivity. }
  apply H, Z.mod_pos_bound. reflexivity.
Qed.

#[export] Instance nstring_eq_dec : EqDecision NStringT.
Proof. solve_decision. Defined.

#[export] Instance name_key_eq_dec : EqDecision NameKeyT.
Proof. solve_decision. Defined.

#[export] Instance nstring_hash_key : HashKey NStringT := {
  hk_ok := wf_nstring;
  hk_equal := nstring_equal;
  hk_hash := nstring_hash_value;
  hk_equal_iff := nstring_equal_iff;
  hk_hash_nonneg := nstring_hash_nonneg
}.

#[export] Instance name_key_hash_key : HashKey NameKeyT := {
  hk_ok := wf_key;
  hk_equal := name_key_equal;
  hk_hash := name_key_hash_value;
  hk_equal_iff := name_key_equal_iff;
  hk_hash_nonneg := name_key_hash_nonneg
}.

(** ** Tables *)

Section Table.
Context {K A : Type} `{!EqDecision K} `{HashKey K}.

(** An entry is its key, which never changes, and the rest. *)
#[local] Abbreviation chains := (list (list (K * A))).

Definition ht_create (size : nat) : chains := replicate size [].

Definition ht_index (t : chains) (k : K) : nat := Z.to_nat (hk_hash k mod Z.of_nat (length t)).

Definition ht_chain (t : chains) (k : K) : list (K * A) := t !!! ht_index t k.

Fixpoint chain_get (k : K) (l : list (K * A)) : option A :=
  match l with
  | [] => None
  | (k', a) :: l => if hk_equal k k' then Some a else chain_get k l
  end.

Definition ht_get (t : chains) (k : K) : option A := chain_get k (ht_chain t k).

Definition ht_append (t : chains) (k : K) (a : A) : chains :=
  <[ht_index t k := ht_chain t k ++ [(k, a)]]> t.

Definition ht_prepend (t : chains) (k : K) (a : A) : chains :=
  <[ht_index t k := (k, a) :: ht_chain t k]> t.

(** Changing, through the pointer to it, the entry [ht_get] returns. *)
Fixpoint chain_set (k : K) (a : A) (l : list (K * A)) : list (K * A) :=
  match l with
  | [] => []
  | (k', a') :: l => if hk_equal k k' then (k', a) :: l else (k', a') :: chain_set k a l
  end.

Definition ht_set (t : chains) (k : K) (a : A) : chains :=
  <[ht_index t k := chain_set k a (ht_chain t k)]> t.

(** The order in which the iterators visit the entries. *)
Definition ht_entries (t : chains) : list (K * A) := mjoin t.

(** Every key is well formed and in the chain of its hash. *)
Definition wf_chains (t : chains) : Prop :=
  t <> [] /\ forall i l, t !! i = Some l -> Forall (fun e => hk_ok e.1 /\ ht_index t e.1 = i) l.

Lemma ht_index_lt t k : t <> [] -> (ht_index t k < length t)%nat.
Proof.
  intros Ht. unfold ht_index.
  assert (0 < Z.of_nat (length t)) by (destruct t; [congruence|cbn; lia]).
  pose proof (Z.mod_pos_bound (hk_hash k) (Z.of_nat (length t)) ltac:(lia)). lia.
Qed.

Lemma ht_chain_lookup t k : t <> [] -> t !! ht_index t k = Some (ht_chain t k).
Proof. intros Ht. apply list_lookup_lookup_total_lt, ht_index_lt, Ht. Qed.

Lemma ht_index_insert t i l k : ht_index (<[i := l]> t) k = ht_index t k.
Proof. unfold ht_index. rewrite length_insert. reflexivity. Qed.

Lemma chain_insert t k l k' :
  t <> [] ->
  ht_chain (<[ht_index t k := l]> t) k' = if decide (ht_index t k' = ht_index t k) then l else ht_chain t k'.
Proof.
  intros Ht. unfold ht_chain at 1. rewrite ht_index_insert. case_decide as E.
  - rewrite E. apply list_lookup_total_insert_eq, ht_index_lt, Ht.
  - apply list_lookup_total_insert_ne. congruence.
Qed.

Lemma hk_equal_refl k : hk_ok k -> hk_equal k k = true.
Proof. intros Hk. by apply hk_equal_iff. Qed.

Lemma hk_equal_ne k k' : hk_ok k -> hk_ok k' -> k <> k' -> hk_equal k k' = false.
Proof. intros Hk Hk' Hne. apply not_true_iff_false. rewrite hk_equal_iff by auto. exact Hne. Qed.

Lemma chain_get_app k l1 l2 :
  chain_get k (l1 ++ l2) = match chain_get k l1 with Some a => Some a | None => chain_get k l2 end.
Proof.
  induction l1 as [|[k' a] l1 IH]; [reflexivity|]. cbn. destruct (hk_equal k k'); [reflexivity|exact IH].
Qed.

Lemma chain_get_ok t k : wf_chains t -> Forall (fun e => hk_ok e.1) (ht_chain t k).
Proof.
  intros [Ht Hwf]. eapply Forall_impl; [|apply (Hwf _ _ (ht_chain_lookup t k Ht))]. intros e He. apply He.
Qed.

Lemma wf_chains_insert t k l :
  wf_chains t -> Forall (fun e => hk_ok e.1 /\ ht_index t e.1 = ht_index t k) l ->
  wf_chains (<[ht_index t k := l]> t).
Proof.
  intros [Ht Hwf] Hl. split.
  - intros E. apply (f_equal length) in E. rewrite length_insert in E. destruct t; [congruence|discriminate].
  - intros i l' Hi. apply list_lookup_insert_Some in Hi as [(<- & <- & _)|(_ & Hi)].
    + eapply Forall_impl; [|exact Hl]. intros e. rewrite ht_index_insert. tauto.
    + eapply Forall_impl; [|apply (Hwf _ _ Hi)]. intros e. rewrite ht_index_insert. tauto.
Qed.

Lemma ht_chain_wf t k :
  wf_chains t -> Forall (fun e => hk_ok e.1 /\ ht_index t e.1 = ht_index t k) (ht_chain t k).
Proof. intros [Ht Hwf]. apply Hwf, ht_chain_lookup, Ht. Qed.

Lemma ht_create_wf size : (0 < size)%nat -> wf_chains (ht_create size) /\ forall k, ht_get (ht_create size) k = None.
Proof.
  intros Hs. assert (ht_create size <> []) as Hne by (destruct size; [lia|discriminate]).
  assert (forall i l, ht_create size !! i = Some l -> l = []) as Hnil
    by (intros i l Hi; apply lookup_replicate in Hi as [-> _]; reflexivity).
  split.
  - split; [exact Hne|]. intros i l ->%Hnil. constructor.
  - intros k. unfold ht_get. rewrite (Hnil _ _ (ht_chain_lookup _ k Hne)). reflexivity.
Qed.

(** ** The laws of a finite map *)

Lemma ht_append_wf t k a : wf_chains t -> hk_ok k -> wf_chains (ht_append t k a).
Proof.
  intros Ht Hk. apply wf_chains_insert; [exact Ht|]. apply Forall_app. split; [by apply ht_chain_wf|].
  repeat constructor. exact Hk.
Qed.

Lemma ht_prepend_wf t k a : wf_chains t -> hk_ok k -> wf_chains (ht_prepend t k a).
Proof.
  intros Ht Hk. apply wf_chains_insert; [exact Ht|]. constructor; [auto|by apply ht_chain_wf].
Qed.

Lemma chain_set_wf (P : K -> Prop) k a l :
  Forall (fun e : K * A => P e.1) l -> Forall (fun e : K * A => P e.1) (chain_set k a l).
Proof.
  induction 1 as [|[k' a'] l Hk' Hl IH]; cbn; [constructor|]. destruct (hk_equal k k'); constructor; auto.
Qed.

Lemma ht_set_wf t k a : wf_chains t -> wf_chains (ht_set t k a).
Proof.
  intros Ht. apply wf_chains_insert; [exact Ht|].
  apply (chain_set_wf (fun k' => hk_ok k' /\ ht_index t k' = ht_index t k)). by apply ht_chain_wf.
Qed.

Lemma ht_get_append t k a k' :
  wf_chains t -> hk_ok k -> hk_ok k' -> ht_get t k = None ->
  ht_get (ht_append t k a) k' = if decide (k' = k) then Some a else ht_get t k'.
Proof.
  intros Ht Hk Hk' Hnone. unfold ht_get, ht_append. rewrite chain_insert by apply Ht.
  case_decide as E.
  - rewrite chain_get_app. cbn [chain_get]. case_decide as Ek.
    + subst k'. unfold ht_get in Hnone. rewrite Hnone, hk_equal_refl by exact Hk. reflexivity.
    + rewrite hk_equal_ne by auto.
      replace (ht_chain t k) with (ht_chain t k') by (unfold ht_chain; congruence).
      destruct (chain_get k' (ht_chain t k')); reflexivity.
  - case_decide as Ek; [subst; congruence|reflexivity].
Qed.

Lemma ht_get_prepend t k a k' :
  wf_chains t -> hk_ok k -> hk_ok k' ->
  ht_get (ht_prepend t k a) k' = if decide (k' = k) then Some a else ht_get t k'.
Proof.
  intros Ht Hk Hk'. unfold ht_get, ht_prepend. rewrite chain_insert by apply Ht.
  case_decide as E.
  - cbn [chain_get]. case_decide as Ek.
    + subst k'. rewrite hk_equal_refl by exact Hk. reflexivity.
    + rewrite hk_equal_ne by auto. f_equal. unfold ht_chain. congruence.
  - case_decide as Ek; [subst; congruence|reflexivity].
Qed.

Lemma chain_get_set k a k' l :
  hk_ok k -> hk_ok k' -> Forall (fun e => hk_ok e.1) l -> chain_get k l <> None ->
  chain_get k' (chain_set k a l) = if decide (k' = k) then Some a else chain_get k' l.
Proof.
  intros Hk Hk' Hl. induction Hl as [|[k1 a1] l Hk1 Hl IH]; cbn; [congruence|]. cbn in Hk1.
  destruct (hk_equal k k1) eqn:E; cbn [chain_get].
  - apply hk_equal_iff in E; [|auto|auto]. subst k1. intros _. case_decide as Ek.
    + subst. rewrite hk_equal_refl by exact Hk. reflexivity.
    + rewrite hk_equal_ne by auto. reflexivity.
  - intros Hne. rewrite IH by exact Hne. case_decide as Ek; [|reflexivity]. subst k'. rewrite E. reflexivity.
Qed.

Lemma ht_get_set t k a k' :
  wf_chains t -> hk_ok k -> hk_ok k' -> ht_get t k <> None ->
  ht_get (ht_set t k a) k' = if decide (k' = k) then Some a else ht_get t k'.
Proof.
  intros Ht Hk Hk' Hsome. unfold ht_get, ht_set. rewrite chain_insert by apply Ht.
  case_decide as E.
  - replace (ht_chain t k) with (ht_chain t k') by (unfold ht_chain; congruence).
    apply chain_get_set; auto; [by apply chain_get_ok|].
    replace (ht_chain t k') with (ht_chain t k) by (unfold ht_chain; congruence). exact Hsome.
  - case_decide as Ek; [subst; congruence|reflexivity].
Qed.

(** Searching a table finds exactly the entries it holds, when the keys of
    each chain are distinct. *)
Lemma chain_get_elem k a l :
  hk_ok k -> Forall (fun e => hk_ok e.1) l -> NoDup l.*1 -> chain_get k l = Some a <-> (k, a) ∈ l.
Proof.
  intros Hk Hl. induction Hl as [|[k1 a1] l Hk1 Hl IH]; cbn; intros Hnd.
  { split; [discriminate|inversion 1]. }
  inversion Hnd as [|? ? Hnin Hnd']; subst. cbn in Hk1. rewrite elem_of_cons.
  destruct (hk_equal k k1) eqn:E.
  - apply hk_equal_iff in E; [|auto|auto]. subst k1. split; [intros [= ->]; auto|].
    intros [[= ->]|Hin]; [reflexivity|]. apply (list_elem_of_fmap_2 fst) in Hin. contradiction.
  - rewrite IH by exact Hnd'. split; [auto|]. intros [[= -> ->]|Hin]; [|exact Hin].
    rewrite hk_equal_refl in E by exact Hk. discriminate.
Qed.

(** The entries after an insertion. *)
Lemma concat_insert_permutation {B} (t : list (list B)) i l l' b :
  t !! i = Some l -> l' ≡ₚ b :: l -> mjoin (<[i := l']> t) ≡ₚ b :: mjoin t.
Proof.
  revert i. induction t as [|x t IH]; intros [|i] Hi Hl; cbn in *; try discriminate.
  - injection Hi as ->. rewrite Hl. reflexivity.
  - rewrite (IH i Hi Hl). symmetry. apply Permutation_middle.
Qed.

Lemma ht_entries_append t k a :
  t <> [] -> ht_entries (ht_append t k a) ≡ₚ (k, a) :: ht_entries t.
Proof.
  intros Ht. eapply concat_insert_permutation; [by apply ht_chain_lookup|].
  symmetry. apply Permutation_cons_append.
Qed.

Lemma ht_entries_prepend t k a :
  t <> [] -> ht_entries (ht_prepend t k a) ≡ₚ (k, a) :: ht_entries t.
Proof. intros Ht. by eapply concat_insert_permutation; [apply ht_chain_lookup|]. Qed.

Lemma ht_chain_elem t k a :
  wf_chains t -> (k, a) ∈ ht_entries t <-> (k, a) ∈ ht_chain t k.
Proof.
  intros [Ht Hwf]. unfold ht_entries. rewrite list_elem_of_join. split.
  - intros (l & Hin & Hl). apply list_elem_of_lookup in Hl as [i Hi]. pose proof (Hwf i l Hi) as HF.
    apply list_elem_of_lookup in Hin as Hj. destruct Hj as [j Hj].
    destruct (Forall_lookup_1 _ _ _ _ HF Hj) as [_ Hix].
    cbn in Hix. unfold ht_chain. rewrite Hix, (list_lookup_total_correct _ _ _ Hi). exact Hin.
  - intros Hin. exists (ht_chain t k). split; [exact Hin|].
    eapply list_elem_of_lookup_2. by apply ht_chain_lookup.
Qed.

Lemma sublist_concat {B} (t : list (list B)) i l : t !! i = Some l -> l `sublist_of` mjoin t.
Proof.
  revert i. induction t as [|x t IH]; intros [|i] Hi; cbn in *; try discriminate.
  - injection Hi as ->. apply sublist_inserts_r. reflexivity.
  - apply sublist_inserts_l. by eapply IH.
Qed.

(** Searching finds exactly the entries of the table. *)
Lemma ht_get_iff t k a :
  wf_chains t -> NoDup (ht_entries t).*1 -> hk_ok k ->
  ht_get t k = Some a <-> (k, a) ∈ ht_entries t.
Proof.
  intros Hwf Hnd Hk. rewrite ht_chain_elem by exact Hwf. apply chain_get_elem; [exact Hk| |].
  - by apply chain_get_ok.
  - eapply sublist_NoDup; [exact Hnd|]. apply fmap_sublist, (sublist_concat _ (ht_index t k)).
    apply ht_chain_lookup, Hwf.
Qed.

Lemma ht_get_elem t k a : wf_chains t -> hk_ok k -> ht_get t k = Some a -> (k, a) ∈ ht_entries t.
Proof.
  intros Hwf Hk E. apply ht_chain_elem; [exact Hwf|]. pose proof (chain_get_ok t k Hwf) as Hl. unfold ht_get in E.
  induction Hl as [|[k1 a1] l Hk1 Hl IH]; cbn in E; [discriminate|]. destruct (hk_equal k k1) eqn:Eq.
  - apply hk_equal_iff in Eq; auto. injection E as <-. subst. left.
  - right. by apply IH.
Qed.

Lemma ht_get_value t k a : wf_chains t -> ht_get t k = Some a -> a ∈ (ht_entries t).*2.
Proof.
  intros [Ht _] E. unfold ht_get in E.
  assert (a ∈ (ht_chain t k).*2) as Hin.
  { induction (ht_chain t k) as [|[k' a'] l IH]; cbn in *; [discriminate|]. rewrite elem_of_cons.
    destruct (hk_equal k k'); [injection E as ->|]; auto. }
  apply list_elem_of_fmap in Hin as ([k' a'] & -> & Hin). apply (list_elem_of_fmap_2 snd).
  apply list_elem_of_join. exists (ht_chain t k). split; [exact Hin|].
  eapply list_elem_of_lookup_2. by apply ht_chain_lookup.
Qed.

Lemma ht_get_None t k :
  wf_chains t -> NoDup (ht_entries t).*1 -> hk_ok k ->
  ht_get t k = None <-> k ∉ (ht_entries t).*1.
Proof.
  intros Hwf Hnd Hk. destruct (ht_get t k) as [a|] eqn:E.
  - apply ht_get_iff in E; [|auto..]. split; [discriminate|]. intros Hn. destruct Hn.
    apply (list_elem_of_fmap_2 fst) in E. exact E.
  - split; [|auto]. intros _ Hin. apply list_elem_of_fmap in Hin as ([k' a] & -> & Hin).
    apply ht_get_iff in Hin; [cbn in *; congruence|auto..].
Qed.
End Table.

Abbreviation chains K A := (list (list (K * A))).
