(* ===== verification/TldNames.v ===== *)
(** * TldNames: the name tables of the linker

    Models tld/src/adt/name-entry.c and name-table.c, with the parts of
    shape-entry.c that own a name table. A name entry is reached by pointer
    from its chain, from the list of its shape and from the entries renamed to
    it, so entries live in a vector, [nt_entries], and a pointer is an index
    into it (a null pointer is [None]).

    [None] as the outcome of an operation is the end of the program: a failed
    assertion, a fatal error or the use of a null pointer. Capsules and library
    capsules are known here by their number only. *)
From stdpp Require Import base list list_numbers numbers.
From Stdlib Require Import ZArith Lia.
From S2P Require Import Prelude Codec ExdsString TldNameKey TldIO HashTable.

Definition U_USED : Z := 1.
Definition U_DECD : Z := 2.
Definition U_DEFD : Z := 4.
Definition U_MULT : Z := 8.
Definition U_HIDE : Z := 16.

Definition NAME_TABLE_SIZE : nat := 31.

Record DirectT := Direct {
  id : Z;
  use : Z;
  definition : option nat;
  lib_definition : option nat
}.

Inductive NameEntryTypeT :=
| NT_INDIRECT (indirect : option nat)
| NT_INDIRECT_CYCLING (indirect : option nat)
| NT_INDIRECT_DONE (indirect : option nat)
| NT_DIRECT (direct : DirectT)
| NT_PLACEHOLDER.

Record NameEntryT := NameEntry { ne_key : NameKeyT; ne_type : NameEntryTypeT }.

Record NameTableT := NameTable {
  nt_contents : chains NameKeyT nat;
  nt_entries : list NameEntryT
}.

Record ShapeEntryT := ShapeEntry {
  se_key : NStringT;
  se_names : NameTableT;
  id_count : Z;
  non_empty : bool;
  se_list : list nat;
  num_lib_names : Z
}.

Definition name_table_create : NameTableT := NameTable (ht_create NAME_TABLE_SIZE) [].

Section Names.
Variable junk : nat -> Z.

Definition shape_entry_create (key : NStringT) : ShapeEntryT :=
  ShapeEntry (nstring_copy junk key) name_table_create 0 false [] 0.

(** ** Entries *)

(** The entry a pointer refers to, and assignment through it. *)
Definition entry_type (t : NameTableT) (p : nat) : option NameEntryTypeT := ne_type <$> nt_entries t !! p.

Definition set_type (t : NameTableT) (p : nat) (ty : NameEntryTypeT) : NameTableT :=
  NameTable (nt_contents t)
    (alter (fun e => NameEntry (ne_key e) ty) p (nt_entries t)).

Definition name_entry_key (t : NameTableT) (p : nat) : option NameKeyT := ne_key <$> nt_entries t !! p.

Definition name_entry_is_direct (ty : NameEntryTypeT) : bool :=
  match ty with NT_DIRECT _ => true | _ => false end.

Definition name_entry_is_indirect (ty : NameEntryTypeT) : bool :=
  match ty with
  | NT_INDIRECT _ | NT_INDIRECT_CYCLING _ | NT_INDIRECT_DONE _ => true
  | _ => false
  end.

Definition name_entry_is_place (ty : NameEntryTypeT) : bool :=
  match ty with NT_PLACEHOLDER => true | _ => false end.

(** [entry->u.indirect], when the assertion holds. *)
Definition name_entry_get_indirect (ty : NameEntryTypeT) : option (option nat) :=
  match ty with
  | NT_INDIRECT p | NT_INDIRECT_CYCLING p | NT_INDIRECT_DONE p => Some p
  | _ => None
  end.

(** A new entry at the end of the chain of its key. *)
Definition add_entry (t : NameTableT) (key : NameKeyT) (ty : NameEntryTypeT) : NameTableT * nat :=
  let p := length (nt_entries t) in
  let key := name_key_copy junk key in
  (NameTable (ht_append (nt_contents t) key p) (nt_entries t ++ [NameEntry key ty]), p).

Definition name_entry_create_place (t : NameTableT) (key : NameKeyT) : NameTableT * nat :=
  add_entry t key NT_PLACEHOLDER.

Definition name_entry_create_indirect (t : NameTableT) (key : NameKeyT) (indirect : nat)
  : NameTableT * nat :=
  add_entry t key (NT_INDIRECT (Some indirect)).

Definition name_entry_make_indirect (t : NameTableT) (p indirect : nat) : option NameTableT :=
  ty ← entry_type t p;
  if name_entry_is_place ty then Some (set_type t p (NT_INDIRECT (Some indirect))) else None.

(** ** Identifiers and the list of a shape *)

Definition set_names (s : ShapeEntryT) (t : NameTableT) : ShapeEntryT :=
  ShapeEntry (se_key s) t (id_count s) (non_empty s) (se_list s) (num_lib_names s).

(** "too many identifiers for this implementation" is fatal. *)
Definition shape_entry_next_id (s : ShapeEntryT) : option (Z * ShapeEntryT) :=
  if id_count s =? UINT_MAX then None
  else Some (id_count s,
             ShapeEntry (se_key s) (se_names s) (id_count s + 1) (non_empty s) (se_list s)
               (num_lib_names s)).

Definition shape_entry_set_non_empty (s : ShapeEntryT) : ShapeEntryT :=
  ShapeEntry (se_key s) (se_names s) (id_count s) true (se_list s) (num_lib_names s).

Definition shape_entry_add_to_list (s : ShapeEntryT) (p : nat) : ShapeEntryT :=
  ShapeEntry (se_key s) (se_names s) (id_count s) (non_empty s) (se_list s ++ [p]) (num_lib_names s).

Definition shape_entry_get_from_list (s : ShapeEntryT) : option nat * ShapeEntryT :=
  match se_list s with
  | [] => (None, s)
  | p :: l =>
      (Some p, ShapeEntry (se_key s) (se_names s) (id_count s) (non_empty s) l (num_lib_names s))
  end.

Definition name_entry_create_direct (s : ShapeEntryT) (key : NameKeyT) : option (ShapeEntryT * nat) :=
  '(i, s) ← shape_entry_next_id s;
  let '(t, p) := add_entry (se_names s) key (NT_DIRECT (Direct i 0 None None)) in
  Some (shape_entry_add_to_list (set_names s t) p, p).

Definition name_entry_make_direct (s : ShapeEntryT) (p : nat) : option ShapeEntryT :=
  ty ← entry_type (se_names s) p;
  if name_entry_is_place ty then
    '(i, s) ← shape_entry_next_id s;
    Some (shape_entry_add_to_list
            (set_names s (set_type (se_names s) p (NT_DIRECT (Direct i 0 None None)))) p)
  else None.

(** ** Renaming *)

Definition name_table_add_rename (t : NameTableT) (from to : NameKeyT) : option NameTableT :=
  let '(t, to_entry) :=
    match ht_get (nt_contents t) to with
    | Some p => (t, p)
    | None => name_entry_create_place t to
    end in
  match ht_get (nt_contents t) from with
  | Some from_entry => name_entry_make_indirect t from_entry to_entry
  | None => Some (name_entry_create_indirect t from to_entry).1
  end.

(** The entry to use, the keys reported as part of a cycle; the depth of the
    recursion is bounded by the number of entries still [NT_INDIRECT]. *)
Fixpoint name_entry_resolve_renames (fuel : nat) (t : NameTableT) (p : nat) (report : bool)
  : option (NameTableT * option nat * list NameKeyT) :=
  match fuel with
  | O => None
  | S fuel =>
      e ← nt_entries t !! p;
      match ne_type e with
      | NT_PLACEHOLDER | NT_DIRECT _ => Some (t, Some p, [])
      | NT_INDIRECT_DONE q => Some (t, q, [])
      | NT_INDIRECT_CYCLING _ => Some (t, None, if report then [ne_key e] else [])
      | NT_INDIRECT q =>
          let t := set_type t p (NT_INDIRECT_CYCLING q) in
          q ← q;
          '(t, r, errs) ← name_entry_resolve_renames fuel t q report;
          Some (set_type t p (NT_INDIRECT_DONE r), r, errs)
      end
  end.

Fixpoint resolve_all (t : NameTableT) (ps : list nat) (report : bool)
  : option (NameTableT * list NameKeyT) :=
  match ps with
  | [] => Some (t, [])
  | p :: ps =>
      '(t, _, errs) ← name_entry_resolve_renames (S (length (nt_entries t))) t p report;
      '(t, errs') ← resolve_all t ps report;
      Some (t, errs ++ errs')
  end.

Definition name_table_resolve_renames (t : NameTableT) (report : bool)
  : option (NameTableT * list NameKeyT) :=
  resolve_all t (snd <$> ht_entries (nt_contents t)) report.

(** ** Adding and finding names *)

Definition name_table_add (s : ShapeEntryT) (key : NameKeyT) : option (ShapeEntryT * nat) :=
  match ht_get (nt_contents (se_names s)) key with
  | Some entry =>
      ty ← entry_type (se_names s) entry;
      entry ← (if name_entry_is_indirect ty
               then q ← name_entry_get_indirect ty; q
               else Some entry);
      ty ← entry_type (se_names s) entry;
      if name_entry_is_place ty
      then s ← name_entry_make_direct s entry; Some (s, entry)
      else Some (s, entry)
  | None => name_entry_create_direct s key
  end.

(** [Some None] is the null result. *)
Definition name_table_get (t : NameTableT) (key : NameKeyT) : option (option nat) :=
  match ht_get (nt_contents t) key with
  | Some entry =>
      ty ← entry_type t entry;
      entry ← (if name_entry_is_indirect ty
               then q ← name_entry_get_indirect ty; q
               else Some entry);
      ty ← entry_type t entry;
      Some (if name_entry_is_place ty then None else Some entry)
  | None => Some None
  end.

(** The entries [name_table_iter] calls its procedure on, in order. *)
Definition name_table_iter (t : NameTableT) : list nat :=
  filter (fun p => from_option name_entry_is_direct false (entry_type t p) = true)
    (snd <$> ht_entries (nt_contents t)).

(** ** Attributes of a name *)

Definition get_direct (t : NameTableT) (p : nat) : option DirectT :=
  ty ← entry_type t p; match ty with NT_DIRECT d => Some d | _ => None end.

Definition update_direct (t : NameTableT) (p : nat) (f : DirectT -> DirectT) : option NameTableT :=
  d ← get_direct t p; Some (set_type t p (NT_DIRECT (f d))).

Definition set_use (f : Z -> Z) (d : DirectT) : DirectT :=
  Direct (id d) (f (use d)) (definition d) (lib_definition d).

Definition name_entry_merge_use (t : NameTableT) (p : nat) (u : Z) : option NameTableT :=
  update_direct t p (set_use (fun v => Z.lor v u)).

Definition get_use (d : DirectT) : Z :=
  Z.land (use d) (Z.lor (Z.lor (Z.lor U_DEFD U_DECD) U_MULT) U_USED).

Definition name_entry_get_use (t : NameTableT) (p : nat) : option Z := get_use <$> get_direct t p.

Definition name_entry_hide (t : NameTableT) (p : nat) : option NameTableT :=
  update_direct t p (set_use (fun v => Z.lor v U_HIDE)).

Definition name_entry_unhide (t : NameTableT) (p : nat) : option NameTableT :=
  update_direct t p (set_use (fun v => Z.land v (u32 (Z.lnot U_HIDE)))).

Definition is_hidden (d : DirectT) : bool := Z.land (use d) U_HIDE =? U_HIDE.

Definition name_entry_is_hidden (t : NameTableT) (p : nat) : option bool := is_hidden <$> get_direct t p.

Definition name_entry_set_definition (t : NameTableT) (p : nat) (capsule : option nat) : option NameTableT :=
  update_direct t p (fun d => Direct (id d) (use d) capsule (lib_definition d)).

Definition name_entry_set_lib_definition (t : NameTableT) (p : nat) (capsule : option nat)
  : option NameTableT :=
  update_direct t p (fun d => Direct (id d) (use d) (definition d) capsule).

(** ** Procedures applied by the iterators *)

Definition name_entry_suppress (t : NameTableT) (p : nat) : option NameTableT :=
  name_entry_set_lib_definition t p None.

Definition name_entry_builder_suppress (t : NameTableT) (p : nat) : option NameTableT :=
  name_entry_set_definition t p None.

Definition name_entry_hide_defd (t : NameTableT) (p : nat) : option NameTableT :=
  u ← name_entry_get_use t p;
  if Z.land u U_DEFD =? 0 then Some t else name_entry_hide t p.

Definition name_entry_keep (t : NameTableT) (p : nat) : option NameTableT := name_entry_unhide t p.

Definition only_mult (u : Z) : bool := Z.land u (Z.lor U_DEFD U_MULT) =? U_MULT.

Definition name_entry_suppress_mult (t : NameTableT) (p : nat) : option NameTableT :=
  u ← name_entry_get_use t p;
  if only_mult u then name_entry_set_definition t p None else Some t.

Definition name_entry_lib_suppress_mult (t : NameTableT) (p : nat) : option NameTableT :=
  u ← name_entry_get_use t p;
  if only_mult u then name_entry_set_lib_definition t p None else Some t.

(** A name reported for want of a single definition. *)
Definition name_entry_check_multi_defs (t : NameTableT) (p : nat) : option bool :=
  d ← get_direct t p;
  Some (negb (Z.land (get_use d) U_MULT =? 0) && bool_decide (definition d = None)).

Definition name_entry_do_count (t : NameTableT) (count : Z) (p : nat) : option Z :=
  h ← name_entry_is_hidden t p; Some (if (h : bool) then count else u32 (count + 1)).

Definition name_entry_do_lib_count (t : NameTableT) (count : Z) (p : nat) : option Z :=
  d ← get_direct t p; Some (if decide (definition d = None) then count else u32 (count + 1)).

(** Eleven octal digits hold any [unsigned]. *)
Fixpoint tdf_int_size_loop (fuel : nat) (value : Z) (size : nat) : nat :=
  match fuel with
  | O => size
  | S fuel =>
      let value := Z.shiftr value 3 in
      if value =? 0 then size else tdf_int_size_loop fuel value (S size)
  end.

Definition tdf_int_size (value : Z) : nat := tdf_int_size_loop 11 value 1.

Definition name_entry_compute_tld_size (t : NameTableT) (size : nat) (p : nat) : option nat :=
  d ← get_direct t p;
  Some (if is_hidden d then size else (size + tdf_int_size (get_use d))%nat).

(** ** Writing *)

(** Stops the program when [None]: only on pointers the iterators never give. *)
Definition name_entry_write_name (t : NameTableT) (p : nat) : option (writer unit) :=
  d ← get_direct t p;
  key ← name_entry_key t p;
  Some (if is_hidden d then (mret tt : writer unit)
        else _ ← tdf_write_int (id d); tdf_write_name key).

Definition name_entry_write_tld (t : NameTableT) (p : nat) : option (writer unit) :=
  d ← get_direct t p;
  Some (if is_hidden d then (mret tt : writer unit) else tdf_write_int (get_use d)).

(** [capsule_index] is [capsule_get_index]. *)
Definition name_entry_do_lib_write (capsule_index : nat -> Z) (t : NameTableT) (p : nat)
  : option (writer unit) :=
  d ← get_direct t p;
  key ← name_entry_key t p;
  Some (match definition d return writer unit with
        | None => (mret tt : writer unit)
        | Some capsule =>
            _ ← tdf_write_name key;
            _ ← tdf_write_int (get_use d);
            tdf_write_int (capsule_index capsule)
        end).
End Names.

(** [name_table_iter] with a procedure that changes the entries, and with one
    that accumulates. *)
Definition iter_update (f : NameTableT -> nat -> option NameTableT) (t : NameTableT) : option NameTableT :=
  foldl (fun t p => t ← t; f t p) (Some t) (name_table_iter t).

Definition iter_count {A} (f : A -> nat -> option A) (a : A) (t : NameTableT) : option A :=
  foldl (fun a p => a ← a; f a p) (Some a) (name_table_iter t).

Definition iter_write (f : nat -> option (writer unit)) (t : NameTableT) : option (writer unit) :=
  foldr (fun p k => m ← f p; k ← k; Some (_ ← m; k)) (Some (mret tt : writer unit)) (name_table_iter t).
