(* ===== verification/TldRename.v ===== *)
(** * TldRename: renaming in the name tables is correct

    [name_table_resolve_renames] (tld/src/adt/name-table.c, with the recursion
    in name-entry.c) against its specification: the renames of a table are a
    graph in which every name has at most one successor; a name stands for the
    end of its chain of renames, and has no meaning when the chain has no end. *)
From stdpp Require Import base list list_numbers numbers.
From Stdlib Require Import ZArith Lia.
From S2P Require Import Prelude ExdsString TldNameKey HashTable TldNames.

(** ** Well-formed tables *)

Definition wf_table (t : NameTableT) : Prop :=
  wf_chains (nt_contents t) /\ NoDup (ht_entries (nt_contents t)).*1 /\
  (ht_entries (nt_contents t)).*2 ≡ₚ seq 0 (length (nt_entries t)) /\
  forall k p, (k, p) ∈ ht_entries (nt_contents t) -> name_entry_key t p = Some k.

Lemma name_table_create_wf : wf_table name_table_create.
Proof.
  destruct (ht_create_wf (K := NameKeyT) (A := nat) NAME_TABLE_SIZE) as [Hwf _]; [unfold NAME_TABLE_SIZE; lia|].
  assert (forall n, ht_entries (K := NameKeyT) (A := nat) (ht_create n) = []) as E.
  { induction n as [|n IH]; [reflexivity|]. exact IH. }
  unfold wf_table. cbn [nt_contents nt_entries name_table_create]. rewrite E. split_and!; auto.
  - constructor.
  - intros k p Hin. inversion Hin.
Qed.

(** Changing the type of an entry keeps the table. *)
Lemma set_type_keys t p ty q : name_entry_key (set_type t p ty) q = name_entry_key t q.
Proof.
  unfold name_entry_key, set_type. cbn [nt_entries]. destruct (decide (p = q)) as [->|Hne].
  - rewrite list_lookup_alter_eq. by destruct (nt_entries t !! q).
  - rewrite list_lookup_alter_ne by exact Hne. reflexivity.
Qed.

Lemma set_type_length t p ty : length (nt_entries (set_type t p ty)) = length (nt_entries t).
Proof. unfold set_type. cbn. apply length_alter. Qed.

Lemma set_type_wf t p ty : wf_table t -> wf_table (set_type t p ty).
Proof.
  intros (Hc & Hnd & Hp & Hk). unfold wf_table. rewrite set_type_length. cbn [nt_contents set_type].
  split_and!; auto. intros k q Hin. rewrite set_type_keys. auto.
Qed.

Lemma entry_type_set t p ty q :
  (p < length (nt_entries t))%nat ->
  entry_type (set_type t p ty) q = if decide (p = q) then Some ty else entry_type t q.
Proof.
  intros Hp. unfold entry_type, set_type. cbn [nt_entries]. case_decide as E.
  - subst. rewrite list_lookup_alter_eq. destruct (lookup_lt_is_Some_2 _ _ Hp) as [e ->]. reflexivity.
  - rewrite list_lookup_alter_ne by exact E. reflexivity.
Qed.

(** ** The graph of renames *)

Definition succ (t : NameTableT) (p : nat) : option nat :=
  match entry_type t p with
  | Some (NT_INDIRECT q) => q
  | _ => None
  end.

Section Graph.
Context {A : Type}.
Variable g : A -> option A.

Fixpoint walk (n : nat) (p : A) : option A :=
  match n with
  | O => Some p
  | S n => q ← g p; walk n q
  end.

(** The end of the chain from [p]; [None] when it has no end. *)
Definition stands_for (p : A) (r : option A) : Prop :=
  match r with
  | Some q => (exists n, walk n p = Some q) /\ g q = None
  | None => forall n, walk n p <> None
  end.

Lemma walk_add n m p : walk (n + m) p = q ← walk n p; walk m q.
Proof.
  revert p. induction n as [|n IH]; intros p; cbn; [reflexivity|].
  destruct (g p); cbn; [apply IH|reflexivity].
Qed.

Lemma walk_loop n p : walk (S n) p = Some p -> stands_for p None.
Proof.
  intros H k Hk.
  assert (forall j, walk (j * S n) p = Some p) as Hj.
  { induction j as [|j IH]; [reflexivity|]. cbn [Nat.mul]. rewrite walk_add, H. exact IH. }
  assert (walk (k + (k * S n - k)) p = None) as Hn by (rewrite walk_add, Hk; reflexivity).
  replace (k + (k * S n - k))%nat with (k * S n)%nat in Hn by nia. rewrite Hj in Hn. discriminate.
Qed.

Lemma stands_for_step p q r : g p = Some q -> stands_for q r -> stands_for p r.
Proof.
  intros Hg. destruct r as [t|]; cbn [stands_for].
  - intros ((n & Hn) & Ht). split; [|exact Ht]. exists (S n). cbn. rewrite Hg. exact Hn.
  - intros Hq [|n]; cbn; [discriminate|]. rewrite Hg. apply Hq.
Qed.

Lemma stands_for_end p : g p = None -> stands_for p (Some p).
Proof. intros H. split; [by exists O|exact H]. Qed.

(** A name stands for one thing. *)
Lemma stands_for_unique p r1 r2 : stands_for p r1 -> stands_for p r2 -> r1 = r2.
Proof.
  assert (forall n q, walk n p = Some q -> g q = None -> walk (S n) p = None) as Hend.
  { intros n q Hn Hq. rewrite <- Nat.add_1_r, walk_add, Hn. cbn. rewrite Hq. reflexivity. }
  assert (forall n m q q', walk n p = Some q -> g q = None -> walk m p = Some q' -> (m <= n)%nat) as Hle.
  { intros n m q q' Hn Hq Hm. destruct (Nat.le_gt_cases m n) as [|Hlt]; [assumption|].
    replace m with (S n + (m - S n))%nat in Hm by lia. rewrite walk_add, (Hend n q Hn Hq) in Hm. discriminate. }
  destruct r1 as [q1|], r2 as [q2|]; cbn.
  - intros ((n1 & H1) & E1) ((n2 & H2) & E2).
    pose proof (Hle _ _ _ _ H1 E1 H2). pose proof (Hle _ _ _ _ H2 E2 H1).
    replace n2 with n1 in H2 by lia. congruence.
  - intros ((n & Hn) & E) H. destruct (H (S n)). by eapply Hend.
  - intros H ((n & Hn) & E). destruct (H (S n)). by eapply Hend.
  - reflexivity.
Qed.
End Graph.

(** ** The recursion *)

Section Resolve.
Variable t0 : NameTableT.
Variable report : bool.
#[local] Abbreviation g := (succ t0).

(** The table the recursion starts from: renames are not resolved yet and
    point to entries. *)
Definition fresh_renames (t : NameTableT) : Prop :=
  forall p ty, entry_type t p = Some ty ->
    match ty with
    | NT_INDIRECT q => exists r, q = Some r /\ (r < length (nt_entries t))%nat
    | NT_INDIRECT_CYCLING _ | NT_INDIRECT_DONE _ => False
    | _ => True
    end.

(** The state of an entry while [path] is being followed. *)
Definition entry_ok (path : list nat) (t : NameTableT) (p : nat) : Prop :=
  match g p, entry_type t p with
  | None, ty => ty = entry_type t0 p
  | Some q, Some (NT_INDIRECT q') => q' = Some q
  | Some q, Some (NT_INDIRECT_CYCLING _) => p ∈ path
  | Some q, Some (NT_INDIRECT_DONE r) => stands_for g p r
  | _, _ => False
  end.

Definition table_ok (path : list nat) (t : NameTableT) : Prop :=
  length (nt_entries t) = length (nt_entries t0) /\
  (forall p, name_entry_key t p = name_entry_key t0 p) /\ nt_contents t = nt_contents t0 /\
  (forall p, entry_ok path t p) /\
  forall p, p ∈ path -> exists q, entry_type t p = Some (NT_INDIRECT_CYCLING q).

Definition is_pending (e : NameEntryT) : bool :=
  match ne_type e with NT_INDIRECT _ => true | _ => false end.

Definition pending (t : NameTableT) : nat := length (filter (fun e => is_pending e = true) (nt_entries t)).

Definition unreported (t : NameTableT) : Prop :=
  exists p, entry_type t p = Some (NT_INDIRECT_DONE None).

Lemma pending_alter (l : list NameEntryT) p e ty :
  l !! p = Some e -> is_pending (NameEntry (ne_key e) ty) = false ->
  length (filter (fun e => is_pending e = true) (alter (fun e => NameEntry (ne_key e) ty) p l))
  = (length (filter (fun e => is_pending e = true) l) - (if is_pending e then 1 else 0))%nat.
Proof.
  revert p. induction l as [|x l IH]; intros [|p] Hp Hty; cbn in Hp; try discriminate.
  - injection Hp as ->. cbn [alter list_alter]. rewrite !filter_cons.
    destruct (decide (is_pending (NameEntry (ne_key e) ty) = true)); [congruence|].
    destruct (decide (is_pending e = true)) as [E|E].
    + rewrite E. cbn. lia.
    + destruct (is_pending e); [congruence|]. lia.
  - set (f := fun e : NameEntryT => NameEntry (ne_key e) ty) in *.
    change (alter f (S p) (x :: l)) with (x :: alter f p l). rewrite !filter_cons.
    specialize (IH p Hp Hty).
    assert (is_pending e = true -> (0 < length (filter (fun e => is_pending e = true) l))%nat) as Hpos.
    { intros He. apply list_elem_of_lookup_2 in Hp.
      assert (e ∈ filter (fun e => is_pending e = true) l) as Hin by (apply list_elem_of_filter; auto).
      destruct (filter _ l); [inversion Hin|cbn; lia]. }
    destruct (decide (is_pending x = true)); [|exact IH]. cbn [length]. rewrite IH.
    destruct (is_pending e); [|lia]. specialize (Hpos eq_refl). lia.
Qed.

Lemma pending_set t p e ty :
  nt_entries t !! p = Some e -> (match ty with NT_INDIRECT _ => False | _ => True end) ->
  pending (set_type t p ty) = (pending t - (if is_pending e then 1 else 0))%nat.
Proof.
  intros He Hty. unfold pending, set_type. cbn [nt_entries]. apply pending_alter; [exact He|].
  destruct ty; [contradiction|reflexivity..].
Qed.

Lemma pending_pos t p e : nt_entries t !! p = Some e -> is_pending e = true -> (0 < pending t)%nat.
Proof.
  intros Hp He. unfold pending. apply list_elem_of_lookup_2 in Hp.
  assert (e ∈ filter (fun e => is_pending e = true) (nt_entries t)) as Hin by (apply list_elem_of_filter; auto).
  destruct (filter _ _); [inversion Hin|cbn; lia].
Qed.

Lemma table_ok_set path path' t p ty :
  table_ok path t -> (p < length (nt_entries t))%nat ->
  entry_ok path' (set_type t p ty) p ->
  (forall q, q <> p -> q ∈ path <-> q ∈ path') ->
  (p ∈ path' -> exists q, ty = NT_INDIRECT_CYCLING q) -> table_ok path' (set_type t p ty).
Proof.
  intros (Hl & Hk & Hc & He & Hcyc) Hp Hnew Hpath Hty. split_and!; auto.
  - rewrite set_type_length. exact Hl.
  - intros q. rewrite set_type_keys. apply Hk.
  - intros q. destruct (decide (p = q)) as [<-|Hne]; [exact Hnew|].
    specialize (He q). unfold entry_ok in *. rewrite entry_type_set by exact Hp.
    rewrite decide_False by exact Hne. destruct (g q); [|exact He].
    destruct (entry_type t q) as [[]|]; auto. apply Hpath; auto.
  - intros q Hq. rewrite entry_type_set by exact Hp. case_decide as E; [subst|].
    + destruct (Hty Hq) as [q' ->]. eauto.
    + apply Hcyc, Hpath; auto.
Qed.

(** What one call establishes. *)
Definition resolved (path : list nat) (t : NameTableT) (p : nat)
    (out : option (NameTableT * option nat * list NameKeyT)) : Prop :=
  exists t' r errs, out = Some (t', r, errs) /\ table_ok path t' /\ stands_for g p r /\
    (pending t' <= pending t)%nat /\
    (forall q, q ∈ path -> entry_type t' q = entry_type t q) /\
    (forall q q', entry_type t' q = Some (NT_INDIRECT q') -> q <> p /\ entry_type t q = Some (NT_INDIRECT q')) /\
    (report = true -> r = None \/ unreported t' -> errs <> [] \/ unreported t) /\
    (errs <> [] -> exists q, (q < length (nt_entries t0))%nat /\ stands_for g q None).

Lemma resolve_done path t p r :
  table_ok path t -> stands_for g p r -> (forall q, entry_type t p <> Some (NT_INDIRECT q)) ->
  (r = None -> unreported t) -> resolved path t p (Some (t, r, [])).
Proof.
  intros Ht Hr Hp Hun. exists t, r, []. split_and!; auto; try lia.
  - intros q q' Hq. split; [|exact Hq]. intros ->. by eapply Hp.
  - intros _ [Hn|Hn]; auto.
  - congruence.
Qed.

(** Following a pending rename: [out] is the outcome of the recursive call. *)
Lemma resolve_indirect path t p q out :
  table_ok path t -> (p < length (nt_entries t0))%nat -> g p = Some q ->
  entry_type t p = Some (NT_INDIRECT (Some q)) ->
  resolved (p :: path) (set_type t p (NT_INDIRECT_CYCLING (Some q))) q out ->
  resolved path t p ('(t, r, errs) ← out; Some (set_type t p (NT_INDIRECT_DONE r), r, errs)).
Proof.
  intros Ht Hp Eg Hty (t2 & r & errs & -> & Ht2 & Hr & Hpend & Hsame & Hind & Hrep & Herr).
  pose proof Ht as (Hlen & _ & _ & _ & Hcyc).
  assert (p ∉ path) as Hnp.
  { intros Hin. destruct (Hcyc p Hin) as [q' Hq']. rewrite Hty in Hq'. discriminate. }
  cbn [mbind option_bind]. set (t3 := set_type t2 p (NT_INDIRECT_DONE r)).
  assert (p < length (nt_entries t))%nat as Hp' by lia.
  assert (p < length (nt_entries t2))%nat as Hp2 by (destruct Ht2 as (-> & _); exact Hp).
  set (t1 := set_type t p (NT_INDIRECT_CYCLING (Some q))) in *.
  assert (forall x, entry_type t1 x = if decide (p = x) then Some (NT_INDIRECT_CYCLING (Some q))
    else entry_type t x) as E1 by (intros x; apply entry_type_set, Hp').
  assert (forall x, entry_type t3 x = if decide (p = x) then Some (NT_INDIRECT_DONE r)
    else entry_type t2 x) as E3 by (intros x; apply entry_type_set, Hp2).
  destruct (lookup_lt_is_Some_2 _ _ Hp') as [e He]. destruct (lookup_lt_is_Some_2 _ _ Hp2) as [e2 He2].
  exists t3, r, errs. split; [reflexivity|]. split; [|split_and!]; auto.
  - apply table_ok_set with (p :: path); auto; [|intros x Hx; rewrite elem_of_cons; tauto|contradiction].
    unfold entry_ok. rewrite Eg. fold t3. rewrite E3, decide_True by reflexivity.
    by eapply stands_for_step.
  - by eapply stands_for_step.
  - unfold t3, t1 in *. rewrite (pending_set t2 p e2) by auto. rewrite (pending_set t p e) in Hpend by auto. lia.
  - intros x Hx. rewrite E3, decide_False by congruence.
    rewrite (Hsame x) by (right; exact Hx). rewrite E1, decide_False by congruence. reflexivity.
  - intros x q'. rewrite E3. case_decide as E; [discriminate|]. intros Hx.
    destruct (Hind x q' Hx) as [_ Hx']. rewrite E1, decide_False in Hx' by exact E. auto.
  - intros Hreport Hcase. destruct (Hrep Hreport) as [He'|(x & Hx)]; auto.
    + destruct Hcase as [->|(x & Hx)]; [auto|]. rewrite E3 in Hx. case_decide; [left; congruence|].
      right. by exists x.
    + rewrite E1 in Hx. case_decide; [discriminate|]. right. by exists x.
Qed.

(** An entry that is not a rename stands for itself. *)
Lemma fresh_end p ty :
  fresh_renames t0 -> g p = None -> entry_type t0 p = Some ty ->
  match ty with NT_PLACEHOLDER | NT_DIRECT _ => True | _ => False end.
Proof.
  intros Hfresh Hg Hty. specialize (Hfresh p ty Hty). unfold succ in Hg. rewrite Hty in Hg.
  destruct ty; auto. destruct Hfresh as (r & -> & _). discriminate.
Qed.

Lemma fresh_next p q : fresh_renames t0 -> g p = Some q -> (q < length (nt_entries t0))%nat.
Proof.
  intros Hfresh Hg. unfold succ in Hg. destruct (entry_type t0 p) as [ty|] eqn:E; [|discriminate].
  specialize (Hfresh p ty E). destruct ty; try discriminate. destruct Hfresh as (r & -> & Hr). congruence.
Qed.

Lemma resolve_renames_ok fuel path t p :
  table_ok path t -> (p < length (nt_entries t0))%nat ->
  (forall q, q ∈ path -> exists n, walk g (S n) q = Some p) ->
  fresh_renames t0 -> (pending t < fuel)%nat ->
  resolved path t p (name_entry_resolve_renames fuel t p report).
Proof.
  revert path t p. induction fuel as [|fuel IH]; intros path t p Ht Hp Hpath Hfresh Hf; [lia|].
  pose proof Ht as (Hlen & Hkeys & Hcont & Hok & Hcyc). cbn [name_entry_resolve_renames].
  assert (p < length (nt_entries t))%nat as Hp' by lia.
  destruct (lookup_lt_is_Some_2 _ _ Hp') as [e He]. rewrite He. cbn [mbind option_bind].
  assert (entry_type t p = Some (ne_type e)) as Hty by (unfold entry_type; rewrite He; reflexivity).
  pose proof (Hok p) as Hokp. unfold entry_ok in Hokp. rewrite Hty in Hokp.
  destruct (g p) as [q|] eqn:Eg.
  2: { pose proof (fresh_end p _ Hfresh Eg (eq_sym Hokp)) as Hend.
       destruct (ne_type e) eqn:Ee; try contradiction;
         (apply resolve_done; auto; [by apply stands_for_end|intros q'; rewrite Hty; discriminate|discriminate]). }
  destruct (ne_type e) as [q'|q'|r|d|] eqn:Ee; try contradiction.
  - subst q'. cbn [mbind option_bind]. apply resolve_indirect with q; auto. apply IH; auto.
    + apply table_ok_set with path; auto; [|intros x Hx; rewrite elem_of_cons; tauto|eauto].
      unfold entry_ok. rewrite Eg, entry_type_set, decide_True by auto. left.
    + by eapply fresh_next.
    + intros x [->|Hx]%elem_of_cons; [exists O; cbn; rewrite Eg; reflexivity|].
      destruct (Hpath x Hx) as [n Hn]. exists (S n).
      rewrite <- (Nat.add_1_r (S n)), walk_add, Hn. cbn. rewrite Eg. reflexivity.
    + assert (is_pending e = true) as Hpe by (unfold is_pending; rewrite Ee; reflexivity).
      pose proof (pending_pos t p e He Hpe). rewrite (pending_set t p e), Hpe by auto. lia.
  - assert (stands_for g p None) as Hs by (destruct (Hpath p Hokp) as [n Hn]; by eapply walk_loop).
    exists t, None, (if report then [ne_key e] else []). split_and!; auto.
    + intros x q'' Hx. split; [|exact Hx]. intros ->. rewrite Hty in Hx. discriminate.
    + intros -> _. left. discriminate.
    + intros _. eauto.
  - apply resolve_done; auto; [intros q'; rewrite Hty; discriminate|].
    intros ->. exists p. exact Hty.
Qed.

(** ** The whole table *)

Lemma pending_le t : (pending t <= length (nt_entries t))%nat.
Proof. unfold pending. apply length_filter. Qed.

Lemma resolve_all_ok ps t :
  table_ok [] t -> fresh_renames t0 -> Forall (fun p => (p < length (nt_entries t0))%nat) ps ->
  exists t' errs, resolve_all t ps report = Some (t', errs) /\ table_ok [] t' /\
    (forall q q', entry_type t' q = Some (NT_INDIRECT q') ->
       (q ∉ ps) /\ entry_type t q = Some (NT_INDIRECT q')) /\
    (report = true -> unreported t' -> errs <> [] \/ unreported t) /\
    (errs <> [] -> exists q, (q < length (nt_entries t0))%nat /\ stands_for g q None).
Proof.
  intros Ht Hfresh Hps. revert t Ht. induction Hps as [|p ps Hp Hps IH]; intros t Ht; cbn [resolve_all].
  { exists t, []. split_and!; auto; [|congruence]. intros q q' Hq. split; [inversion 1|exact Hq]. }
  pose proof (pending_le t).
  destruct (resolve_renames_ok (S (length (nt_entries t))) [] t p Ht Hp) as
    (t1 & r & errs & -> & Ht1 & Hr & _ & _ & Hind & Hrep & Herr); [inversion 1|exact Hfresh|lia|].
  cbn [mbind option_bind]. destruct (IH t1 Ht1) as (t2 & errs' & -> & Ht2 & Hind' & Hrep' & Herr'). cbn [mbind option_bind].
  exists t2, (errs ++ errs'). split_and!; auto.
  - intros q q' Hq. destruct (Hind' q q' Hq) as [Hni Hq1]. destruct (Hind q q' Hq1) as [Hne Hq0].
    split; [|exact Hq0]. rewrite elem_of_cons. tauto.
  - intros Hreport Hu. destruct (Hrep' Hreport Hu) as [He|Hu1].
    + left. intros E. apply app_eq_nil in E as [_ E]. contradiction.
    + destruct (Hrep Hreport (or_intror Hu1)) as [He|Hu0]; [left|right; exact Hu0].
      intros E. apply app_eq_nil in E as [E _]. contradiction.
  - intros He. destruct errs; [apply Herr'; exact He|apply Herr; discriminate].
Qed.
End Resolve.

Lemma fresh_table_ok t : fresh_renames t -> table_ok t [] t.
Proof.
  intros Hf. split_and!; auto; [|inversion 1]. intros p. unfold entry_ok, succ.
  destruct (entry_type t p) as [ty|] eqn:E; [|reflexivity]. specialize (Hf p ty E).
  destruct ty; try contradiction; try reflexivity. destruct Hf as (r & -> & _). reflexivity.
Qed.

Lemma chain_pointers t : wf_table t -> forall p, p ∈ (ht_entries (nt_contents t)).*2 <-> (p < length (nt_entries t))%nat.
Proof. intros (_ & _ & Hp & _) p. rewrite Hp, elem_of_seq. lia. Qed.

Lemma resolve_correct t :
  wf_table t -> fresh_renames t ->
  exists t' errs, name_table_resolve_renames t true = Some (t', errs) /\ wf_table t' /\
    nt_contents t' = nt_contents t /\
    (forall p, (p < length (nt_entries t))%nat ->
       match succ t p with
       | None => entry_type t' p = entry_type t p
       | Some _ => exists r, entry_type t' p = Some (NT_INDIRECT_DONE r) /\ stands_for (succ t) p r
       end) /\
    (errs = [] <-> forall p, (p < length (nt_entries t))%nat -> exists q, stands_for (succ t) p (Some q)).
Proof.
  intros Hwf Hfresh. pose proof Hwf as (Hc & Hnd & Hperm & Hkey).
  destruct (resolve_all_ok t true (ht_entries (nt_contents t)).*2 t (fresh_table_ok t Hfresh) Hfresh)
    as (t' & errs & E & (Hlen & Hkeys & Hcont & Hok & _) & Hind & Hrep & Herr).
  { apply Forall_forall. intros p Hp%list_elem_of_In. by apply chain_pointers. }
  assert (forall p, (p < length (nt_entries t))%nat ->
    match succ t p with
    | None => entry_type t' p = entry_type t p
    | Some _ => exists r, entry_type t' p = Some (NT_INDIRECT_DONE r) /\ stands_for (succ t) p r
    end) as Hres.
  { intros p Hp. specialize (Hok p). unfold entry_ok in Hok. destruct (succ t p); [|exact Hok].
    destruct (entry_type t' p) as [[q|q|r|d|]|] eqn:Et; try contradiction; [| |eauto].
    - destruct (Hind p q Et) as [Hni _]. destruct Hni. by apply chain_pointers.
    - inversion Hok. }
  exists t', errs. split; [exact E|]. split_and!; auto.
  - unfold wf_table. rewrite Hcont, Hlen. split_and!; auto. intros k p Hin. rewrite Hkeys. auto.
  - split.
    + intros -> p Hp. specialize (Hres p Hp). destruct (succ t p) as [q|] eqn:Es.
      * destruct Hres as ([r|] & Hty & Hs); [by exists r|].
        destruct (Hrep eq_refl) as [He|(x & Hx)]; [by exists p|congruence|].
        specialize (Hfresh x _ Hx). contradiction.
      * exists p. by apply stands_for_end.
    + intros Hall. destruct errs as [|k errs]; [reflexivity|].
      destruct Herr as (q & Hq & Hs); [discriminate|]. destruct (Hall q Hq) as [r Hr].
      pose proof (stands_for_unique _ _ _ _ Hs Hr). discriminate.
Qed.

(** ** Building the table *)

(** The entry [p] is the one of the name [k]. *)
Definition named (t : NameTableT) (k : NameKeyT) (p : nat) : Prop := (k, p) ∈ ht_entries (nt_contents t).

Lemma named_get t k p : wf_table t -> wf_key k -> ht_get (nt_contents t) k = Some p <-> named t k p.
Proof. intros (Hc & Hnd & _) Hk. by apply ht_get_iff. Qed.

Lemma named_key t k p : wf_table t -> named t k p -> name_entry_key t p = Some k.
Proof. intros (_ & _ & _ & H). apply H. Qed.

Lemma named_ok t k p : wf_table t -> named t k p -> wf_key k /\ (p < length (nt_entries t))%nat.
Proof.
  intros Ht Hn. split.
  - pose proof Ht as (Hc & _). unfold named in Hn. rewrite ht_chain_elem in Hn by exact Hc.
    pose proof (chain_get_ok (nt_contents t) k Hc) as HF. apply list_elem_of_lookup in Hn as [i Hi].
    apply (Forall_lookup_1 _ _ _ _ HF Hi).
  - apply chain_pointers; [exact Ht|]. apply (list_elem_of_fmap_2 snd) in Hn. exact Hn.
Qed.

Lemma named_inj t k k' p : wf_table t -> named t k p -> named t k' p -> k = k'.
Proof. intros Ht H H'. apply named_key in H, H'; auto. congruence. Qed.

Lemma named_fun t k p p' : wf_table t -> named t k p -> named t k p' -> p = p'.
Proof.
  intros Ht H H'. destruct (named_ok t k p Ht H) as [Hk _].
  apply named_get in H; auto. apply named_get in H'; auto. congruence.
Qed.

Lemma named_exists t p : wf_table t -> (p < length (nt_entries t))%nat -> exists k, named t k p.
Proof.
  intros Ht Hp. apply chain_pointers in Hp; [|exact Ht].
  apply list_elem_of_fmap in Hp as ([k q] & -> & Hin). by exists k.
Qed.

Section Build.
Variable junk : nat -> Z.

Lemma add_entry_ok t key ty :
  wf_table t -> wf_key key -> (forall p, ~ named t key p) ->
  exists t', add_entry junk t key ty = (t', length (nt_entries t)) /\ wf_table t' /\
    (forall k p, named t' k p <-> (k = key /\ p = length (nt_entries t)) \/ named t k p) /\
    (forall p, entry_type t' p = if decide (p = length (nt_entries t)) then Some ty else entry_type t p).
Proof.
  intros Ht Hk Hnone. pose proof Ht as (Hc & Hnd & Hperm & Hkeys).
  unfold add_entry. rewrite name_key_copy_id by exact Hk. eexists. split; [reflexivity|].
  set (n := length (nt_entries t)) in *.
  assert (ht_get (nt_contents t) key = None) as Hget.
  { destruct (ht_get _ key) as [p|] eqn:E; [|reflexivity]. apply named_get in E; auto. by destruct (Hnone p). }
  assert (ht_entries (ht_append (nt_contents t) key n) ≡ₚ (key, n) :: ht_entries (nt_contents t)) as Hent
    by (apply ht_entries_append, Hc).
  assert (forall k p, (k, p) ∈ ht_entries (ht_append (nt_contents t) key n) <->
    (k = key /\ p = n) \/ named t k p) as Hnamed.
  { intros k p. rewrite Hent, elem_of_cons. unfold named. split; intros [E|E]; auto.
    - left. by injection E.
    - left. destruct E as [-> ->]. reflexivity. }
  split; [|split; [exact Hnamed|]].
  - unfold wf_table. cbn [nt_contents nt_entries]. split_and!.
    + by apply ht_append_wf.
    + rewrite Hent. cbn. apply NoDup_cons_2; [|exact Hnd]. by apply ht_get_None.
    + rewrite Hent. cbn. rewrite Hperm, length_app. cbn [length]. rewrite Nat.add_1_r, seq_S. cbn.
      apply Permutation_cons_append.
    + intros k p. rewrite Hnamed. unfold name_entry_key. cbn [nt_entries]. intros [[-> ->]|Hn].
      * rewrite lookup_app_r by lia. fold n. rewrite Nat.sub_diag. reflexivity.
      * destruct (named_ok t k p Ht Hn) as [_ Hp]. rewrite lookup_app_l by exact Hp. by apply Hkeys.
  - intros p. unfold entry_type. cbn [nt_entries]. case_decide as E.
    + subst p. rewrite lookup_app_r by lia. fold n. rewrite Nat.sub_diag. reflexivity.
    + destruct (Nat.lt_ge_cases p n) as [Hlt|Hge]; [rewrite lookup_app_l by exact Hlt; reflexivity|].
      rewrite !lookup_ge_None_2; [reflexivity| |].
      * exact Hge.
      * rewrite length_app. cbn. fold n. lia.
Qed.

(** The table holds exactly the renames [rs]. *)
Definition holds_renames (t : NameTableT) (rs : list (NameKeyT * NameKeyT)) : Prop :=
  wf_table t /\
  (forall p ty, entry_type t p = Some ty ->
     ty = NT_PLACEHOLDER \/ exists q, ty = NT_INDIRECT (Some q)) /\
  (forall p q, entry_type t p = Some (NT_INDIRECT (Some q)) <->
     exists from to, (from, to) ∈ rs /\ named t from p /\ named t to q) /\
  (forall from to, (from, to) ∈ rs -> (exists p, named t from p) /\ (exists q, named t to q)).

Lemma entry_type_lt t p : (p < length (nt_entries t))%nat <-> exists ty, entry_type t p = Some ty.
Proof.
  unfold entry_type. split.
  - intros H. destruct (lookup_lt_is_Some_2 _ _ H) as [e ->]. eauto.
  - intros [ty H]. destruct (nt_entries t !! p) eqn:E; [|discriminate]. by eapply lookup_lt_Some.
Qed.

Lemma not_named_get t key : wf_table t -> wf_key key -> ht_get (nt_contents t) key = None -> forall p, ~ named t key p.
Proof. intros Ht Hk Hg p Hp. apply named_get in Hp; auto. congruence. Qed.

(** Making sure a name has an entry. *)
Lemma ensure_entry t rs key :
  holds_renames t rs -> wf_key key ->
  exists t' p, (match ht_get (nt_contents t) key with
     | Some p => (t, p)
     | None => name_entry_create_place junk t key
     end) = (t', p) /\ holds_renames t' rs /\ named t' key p.
Proof.
  intros (Ht & Hty & Hrs & Hdom) Hk. destruct (ht_get (nt_contents t) key) as [p|] eqn:E.
  { exists t, p. apply named_get in E; auto. split; [reflexivity|]. split; [by split_and!|exact E]. }
  pose proof (not_named_get t key Ht Hk E) as Hnone.
  destruct (add_entry_ok t key NT_PLACEHOLDER Ht Hk Hnone) as (t' & Eadd & Ht' & Hn & He).
  set (n := length (nt_entries t)) in *.
  assert (forall from to, (from, to) ∈ rs -> from <> key /\ to <> key) as Hne.
  { intros from to Hin. destruct (Hdom from to Hin) as [(p & Hp) (q & Hq)].
    split; intros ->; by eapply Hnone. }
  exists t', n. split; [exact Eadd|]. split; [|apply Hn; auto]. split; [exact Ht'|]. split_and!.
  - intros p ty. rewrite He. case_decide; [intros [= <-]; auto|apply Hty].
  - intros p q. rewrite He. case_decide as Ep.
    + split; [discriminate|]. intros (from & to & Hin & Hf & _). subst p.
      destruct (Hne from to Hin). apply Hn in Hf as [[-> _]|Hf]; [contradiction|].
      destruct (named_ok t from n Ht Hf). lia.
    + rewrite Hrs. split; intros (from & to & Hin & Hf & Hq); exists from, to; rewrite ?Hn in *; [auto|].
      destruct (Hne from to Hin). split_and!; auto; intuition congruence.
  - intros from to Hin. destruct (Hdom from to Hin) as [(p & Hp) (q & Hq)].
    split; [exists p|exists q]; apply Hn; auto.
Qed.

(** Recording one more rename in the entry [pf]. *)
Lemma holds_renames_add t t' rs from to pf pt :
  holds_renames t rs -> wf_table t' -> (forall to', (from, to') ∉ rs) -> named t to pt ->
  (forall k p, named t' k p <-> (k = from /\ p = pf) \/ named t k p) ->
  (forall p, entry_type t' p = if decide (p = pf) then Some (NT_INDIRECT (Some pt)) else entry_type t p) ->
  holds_renames t' ((from, to) :: rs).
Proof.
  intros (Ht & Hty & Hrs & Hdom) Ht' Hnr Hpt Hn He.
  assert (named t' from pf) as Hpf by (apply Hn; auto).
  split; [exact Ht'|]. split_and!.
  - intros p ty. rewrite He. case_decide; [intros [= <-]; eauto|apply Hty].
  - intros p q. rewrite He. case_decide as Ep.
    + subst p. split.
      * intros [= <-]. exists from, to. split_and!; auto; [left|]. apply Hn. auto.
      * intros (f' & to' & Hin & Hf' & Hq). rewrite (named_inj t' f' from pf Ht' Hf' Hpf) in Hin.
        apply elem_of_cons in Hin as [[= ->]|Hin]; [|by destruct (Hnr to')].
        rewrite (named_fun t' to q pt Ht' Hq); [reflexivity|]. apply Hn. auto.
    + rewrite Hrs. split; intros (f' & to' & Hin & Hf' & Hq); exists f', to'.
      * rewrite !Hn. split_and!; auto. by right.
      * apply elem_of_cons in Hin as [[= -> ->]|Hin]; [by destruct Ep; apply (named_fun t' from)|].
        destruct (Hdom f' to' Hin) as [(p0 & Hp0) (q0 & Hq0)].
        rewrite (named_fun t' f' p p0 Ht' Hf'), (named_fun t' to' q q0 Ht' Hq); rewrite ?Hn; auto.
  - intros f' to' [[= -> ->]|Hin]%elem_of_cons.
    + split; [by exists pf|]. exists pt. apply Hn. auto.
    + destruct (Hdom f' to' Hin) as [(p & Hp) (q & Hq)]. split; [exists p|exists q]; apply Hn; auto.
Qed.

Lemma add_rename_ok t rs from to :
  holds_renames t rs -> wf_key from -> wf_key to -> from ∉ rs.*1 ->
  exists t', name_table_add_rename junk t from to = Some t' /\ holds_renames t' ((from, to) :: rs).
Proof.
  intros Hh Hf Hto Hnew. unfold name_table_add_rename.
  destruct (ensure_entry t rs to Hh Hto) as (t1 & pt & -> & Hh1 & Hpt).
  pose proof Hh1 as (Ht & Hty & Hrs & _).
  assert (forall to', (from, to') ∉ rs) as Hnr.
  { intros to' Hin. apply Hnew. apply (list_elem_of_fmap_2 fst) in Hin. exact Hin. }
  destruct (ht_get (nt_contents t1) from) as [pf|] eqn:E.
  - apply named_get in E; auto. destruct (named_ok t1 from pf Ht E) as [_ Hlt].
    unfold name_entry_make_indirect. destruct (proj1 (entry_type_lt t1 pf) Hlt) as [ty Ety]. rewrite Ety.
    assert (ty = NT_PLACEHOLDER) as ->.
    { destruct (Hty pf ty Ety) as [|(q & ->)]; [assumption|]. apply Hrs in Ety as (f' & to' & Hin & Hf' & _).
      rewrite (named_inj t1 f' from pf Ht Hf' E) in Hin. by destruct (Hnr to'). }
    cbn [mbind option_bind name_entry_is_place]. eexists. split; [reflexivity|].
    apply (holds_renames_add t1 _ rs from to pf pt); auto; [by apply set_type_wf| |].
    + intros k p. change (named t1 k p <-> (k = from /\ p = pf) \/ named t1 k p).
      split; [auto|]. intros [[-> ->]|]; auto.
    + intros p. rewrite entry_type_set by exact Hlt.
      destruct (decide (pf = p)), (decide (p = pf)); congruence || reflexivity.
  - pose proof (not_named_get t1 from Ht Hf E) as Hnone. unfold name_entry_create_indirect.
    destruct (add_entry_ok t1 from (NT_INDIRECT (Some pt)) Ht Hf Hnone) as (t2 & -> & Ht2 & Hn & He).
    eexists. split; [reflexivity|]. by apply (holds_renames_add t1 t2 rs from to (length (nt_entries t1)) pt).
Qed.

(** All the renames of a list, in order. *)
Fixpoint add_renames (t : NameTableT) (rs : list (NameKeyT * NameKeyT)) : option NameTableT :=
  match rs with
  | [] => Some t
  | (from, to) :: rs => t ← name_table_add_rename junk t from to; add_renames t rs
  end.

Lemma add_renames_ok rs t done :
  holds_renames t done -> Forall (fun r => wf_key r.1 /\ wf_key r.2) rs ->
  NoDup ((rs ++ done).*1) ->
  exists t' l, add_renames t rs = Some t' /\ l ≡ₚ rs ++ done /\ holds_renames t' l.
Proof.
  intros Hh Hrs. revert t done Hh. induction Hrs as [|[from to] rs [Hf Hto] Hrs IH]; intros t done Hh Hnd.
  { exists t, done. auto. }
  cbn in Hnd. inversion Hnd as [|? ? Hni Hnd']; subst. cbn in Hf, Hto. rewrite fmap_app in Hni.
  destruct (add_rename_ok t done from to Hh Hf Hto) as (t1 & E1 & Hh1);
    [rewrite elem_of_app in Hni; tauto|].
  cbn [add_renames]. rewrite E1. cbn [mbind option_bind].
  destruct (IH t1 ((from, to) :: done) Hh1) as (t2 & l & E2 & Hl & Hh2).
  { rewrite fmap_app. cbn. rewrite <- Permutation_middle. constructor; [exact Hni|by rewrite <- fmap_app]. }
  exists t2, l. split_and!; auto. rewrite Hl. symmetry. apply Permutation_middle.
Qed.

Lemma holds_nothing : holds_renames name_table_create [].
Proof.
  split; [apply name_table_create_wf|]. split_and!.
  - intros p ty H. unfold entry_type in H. cbn in H. discriminate.
  - intros p q. split; [intros H; unfold entry_type in H; cbn in H; discriminate|].
    intros (f & to & Hin & _). inversion Hin.
  - intros f to Hin. inversion Hin.
Qed.

Lemma holds_fresh t rs : holds_renames t rs -> fresh_renames t.
Proof.
  intros (Ht & Hty & Hrs & _) p ty E. destruct (Hty p ty E) as [->|(q & ->)]; [exact I|].
  exists q. split; [reflexivity|]. apply Hrs in E as (f & to & _ & _ & Hq). apply (named_ok t to q Ht Hq).
Qed.
End Build.

(** ** Names and their targets *)

(** The new name given to [k] by the renames [rs]. *)
Fixpoint rename_of (rs : list (NameKeyT * NameKeyT)) (k : NameKeyT) : option NameKeyT :=
  match rs with
  | [] => None
  | (from, to) :: rs => if decide (k = from) then Some to else rename_of rs k
  end.

Lemma rename_of_elem rs k to : NoDup rs.*1 -> rename_of rs k = Some to <-> (k, to) ∈ rs.
Proof.
  induction rs as [|[from to'] rs IH]; intros Hnd; cbn; [split; [discriminate|inversion 1]|].
  inversion Hnd as [|? ? Hni Hnd']; subst. rewrite elem_of_cons. case_decide as E.
  - subst. split; [intros [= ->]; auto|]. intros [[= ->]|Hin]; [reflexivity|].
    apply (list_elem_of_fmap_2 fst) in Hin. contradiction.
  - rewrite IH by exact Hnd'. split; [auto|]. intros [[= -> ->]|]; [congruence|assumption].
Qed.

Lemma rename_of_perm rs rs' k : NoDup rs.*1 -> rs ≡ₚ rs' -> rename_of rs k = rename_of rs' k.
Proof.
  intros Hnd Hp. assert (NoDup rs'.*1) as Hnd' by (by rewrite <- Hp).
  destruct (rename_of rs k) as [to|] eqn:E.
  - apply rename_of_elem in E; auto. symmetry. apply rename_of_elem; auto. by rewrite <- Hp.
  - destruct (rename_of rs' k) as [to|] eqn:E'; [|reflexivity].
    apply rename_of_elem in E'; auto. rewrite <- Hp in E'. apply rename_of_elem in E'; auto. congruence.
Qed.

(** [k] means [k'] after all renames. *)
Definition target (rs : list (NameKeyT * NameKeyT)) (k k' : NameKeyT) : Prop :=
  stands_for (rename_of rs) k (Some k').

Section Keys.
Variable t : NameTableT.
Variable rs : list (NameKeyT * NameKeyT).
Hypothesis Hholds : holds_renames t rs.
Hypothesis Hnodup : NoDup rs.*1.

Lemma succ_named p q : succ t p = Some q <-> entry_type t p = Some (NT_INDIRECT (Some q)).
Proof.
  unfold succ. destruct (entry_type t p) as [ty|] eqn:E; [|split; discriminate].
  destruct ty; split; try discriminate; congruence.
Qed.

Lemma rename_step k p :
  named t k p ->
  match rename_of rs k with
  | Some k' => exists q, named t k' q /\ succ t p = Some q
  | None => succ t p = None
  end.
Proof.
  intros Hn. pose proof Hholds as (Ht & Hty & Hrs & Hdom). destruct (rename_of rs k) as [k'|] eqn:E.
  - apply rename_of_elem in E; [|exact Hnodup]. destruct (Hdom k k' E) as [_ (q & Hq)].
    exists q. split; [exact Hq|]. apply succ_named, Hrs. eauto.
  - destruct (succ t p) as [q|] eqn:Es; [|reflexivity]. apply succ_named, Hrs in Es as (f & to & Hin & Hf & _).
    rewrite (named_inj t f k p Ht Hf Hn) in Hin. apply rename_of_elem in Hin; [|exact Hnodup]. congruence.
Qed.

Lemma walk_named n k p :
  named t k p ->
  match walk (rename_of rs) n k with
  | Some k' => exists q, named t k' q /\ walk (succ t) n p = Some q
  | None => walk (succ t) n p = None
  end.
Proof.
  revert k p. induction n as [|n IH]; intros k p Hn; cbn [walk]; [eauto|].
  pose proof (rename_step k p Hn) as Hs. destruct (rename_of rs k) as [k1|]; cbn.
  - destruct Hs as (q & Hq & ->). cbn. by apply IH.
  - rewrite Hs. reflexivity.
Qed.

(** Chains of entries and chains of names correspond. *)
Lemma stands_for_named k p r :
  named t k p -> stands_for (succ t) p r ->
  match r with
  | Some q => exists k', named t k' q /\ target rs k k'
  | None => stands_for (rename_of rs) k None
  end.
Proof.
  intros Hn. destruct r as [q|]; cbn [stands_for].
  - intros ((n & Hw) & Hq). pose proof (walk_named n k p Hn) as H.
    destruct (walk (rename_of rs) n k) as [k'|] eqn:E; [|congruence].
    destruct H as (q' & Hq' & Hw'). replace q' with q in Hq' by congruence.
    exists k'. split; [exact Hq'|]. split; [by exists n|].
    pose proof (rename_step k' q Hq') as Hs. destruct (rename_of rs k'); [|reflexivity].
    destruct Hs as (q'' & _ & Hs). congruence.
  - intros Hall n. pose proof (walk_named n k p Hn) as H. specialize (Hall n).
    destruct (walk (rename_of rs) n k); [discriminate|congruence].
Qed.
End Keys.

(** The table after renaming: every name of [rs] leads to its target. *)
Definition renames_done (rs : list (NameKeyT * NameKeyT)) (t : NameTableT) : Prop :=
  wf_table t /\
  (forall p ty, entry_type t p = Some ty ->
     match ty with
     | NT_PLACEHOLDER | NT_DIRECT _ => forall k, named t k p -> rename_of rs k = None
     | NT_INDIRECT_DONE (Some q) => forall k, named t k p ->
         rename_of rs k <> None /\ exists k', target rs k k' /\ named t k' q
     | _ => False
     end) /\
  (forall k, rename_of rs k <> None -> exists p, named t k p).

Lemma renames_done_intro t t' l :
  holds_renames t l -> NoDup l.*1 -> wf_table t' -> nt_contents t' = nt_contents t ->
  (forall p, (p < length (nt_entries t))%nat -> exists q, stands_for (succ t) p (Some q)) ->
  (forall p, (p < length (nt_entries t))%nat ->
     match succ t p with
     | None => entry_type t' p = entry_type t p
     | Some _ => exists r, entry_type t' p = Some (NT_INDIRECT_DONE r) /\ stands_for (succ t) p r
     end) ->
  renames_done l t'.
Proof.
  intros Hh Hnd Ht' Hc Hall Hres. pose proof Hh as (Ht & Hty & _ & Hdom).
  assert (forall k p, named t' k p <-> named t k p) as Hn by (intros k p; unfold named; rewrite Hc; reflexivity).
  split; [exact Ht'|]. split.
  - intros p ty Ety.
    assert (p < length (nt_entries t'))%nat as Hp' by (apply entry_type_lt; eauto).
    destruct (named_exists t' p Ht' Hp') as [k0 Hk0]. rewrite Hn in Hk0.
    destruct (named_ok t k0 p Ht Hk0) as [_ Hp]. specialize (Hres p Hp).
    destruct (succ t p) as [s|] eqn:Es.
    + destruct Hres as (r & Er & Hr). destruct (Hall p Hp) as [q Hq].
      pose proof (stands_for_unique _ _ _ _ Hr Hq) as ->. rewrite Er in Ety. injection Ety as <-.
      intros k Hk. rewrite Hn in Hk. destruct (stands_for_named t l Hh Hnd k p _ Hk Hq) as (k' & Hk' & Htg).
      split; [|exists k'; rewrite Hn; auto].
      pose proof (rename_step t l Hh Hnd k p Hk) as Hstep. destruct (rename_of l k); congruence.
    + rewrite Hres in Ety. destruct (Hty p ty Ety) as [->|(q & ->)].
      * intros k Hk. rewrite Hn in Hk. pose proof (rename_step t l Hh Hnd k p Hk) as Hs.
        destruct (rename_of l k); [|reflexivity]. destruct Hs as (q & _ & Hs). congruence.
      * apply succ_named in Ety. congruence.
  - intros k Hk. destruct (rename_of l k) as [to|] eqn:E; [|congruence].
    apply rename_of_elem in E; [|exact Hnd]. destruct (Hdom k to E) as [(p & Hp) _]. exists p. by rewrite Hn.
Qed.

(** Only the renames as a function matter. *)
Lemma stands_for_ext {A} (g g' : A -> option A) p r :
  (forall x, g x = g' x) -> stands_for g p r <-> stands_for g' p r.
Proof.
  intros Hg. assert (forall n p, walk g n p = walk g' n p) as Hw.
  { induction n as [|n IH]; intros x; cbn; [reflexivity|]. rewrite Hg. destruct (g' x); cbn; auto. }
  destruct r as [q|]; cbn; [rewrite Hg|]; by setoid_rewrite Hw.
Qed.

Lemma renames_done_ext rs rs' t :
  (forall k, rename_of rs k = rename_of rs' k) -> renames_done rs t -> renames_done rs' t.
Proof.
  intros Hr (Ht & Hty & Hdom). split; [exact Ht|]. split.
  - intros p ty E. specialize (Hty p ty E). destruct ty as [| |[q|]| |]; auto.
    + intros k Hk. destruct (Hty k Hk) as (Hne & k' & Htg & Hk'). rewrite <- Hr.
      split; [exact Hne|]. exists k'. split; [|exact Hk'].
      unfold target in *. by rewrite <- (stands_for_ext (rename_of rs)).
    + intros k Hk. rewrite <- Hr. auto.
    + intros k Hk. rewrite <- Hr. auto.
  - intros k Hk. apply Hdom. by rewrite Hr.
Qed.

Lemma no_direct t t' :
  (forall p ty, entry_type t p = Some ty -> ty = NT_PLACEHOLDER \/ exists q, ty = NT_INDIRECT (Some q)) ->
  wf_table t' -> nt_contents t' = nt_contents t -> wf_table t ->
  (forall p, (p < length (nt_entries t))%nat ->
     match succ t p with
     | None => entry_type t' p = entry_type t p
     | Some _ => exists r, entry_type t' p = Some (NT_INDIRECT_DONE r) /\ stands_for (succ t) p r
     end) ->
  forall p, get_direct t' p = None.
Proof.
  intros Hty Ht' Hc Ht Hres p. unfold get_direct. destruct (entry_type t' p) as [ty|] eqn:E; [|reflexivity].
  assert (p < length (nt_entries t))%nat as Hp.
  { apply (chain_pointers t Ht). rewrite <- Hc. apply (chain_pointers t' Ht'). apply entry_type_lt. eauto. }
  specialize (Hres p Hp). destruct (succ t p).
  - destruct Hres as (r & Er & _). rewrite E in Er. injection Er as ->. reflexivity.
  - rewrite E in Hres. symmetry in Hres. destruct (Hty p ty Hres) as [->|(q & ->)]; reflexivity.
Qed.

Lemma stands_for_inj {A} (g : A -> option A) p q q' :
  stands_for g p (Some q) -> stands_for g p (Some q') -> q = q'.
Proof. intros H H'. pose proof (stands_for_unique g p _ _ H H'). congruence. Qed.

Lemma renames_table junk rs :
  Forall (fun r => wf_key r.1 /\ wf_key r.2) rs -> NoDup rs.*1 ->
  exists t t' errs, add_renames junk name_table_create rs = Some t /\
    name_table_resolve_renames t true = Some (t', errs) /\
    (errs = [] <-> forall k, exists k', target rs k k') /\
    (errs = [] -> renames_done rs t') /\ (forall p, get_direct t' p = None) /\
    wf_table t /\ wf_table t' /\ nt_contents t' = nt_contents t.
Proof.
  intros Hrs Hnd. destruct (add_renames_ok junk rs name_table_create [] holds_nothing Hrs) as (t & l & E & Hl & Hh);
    [by rewrite app_nil_r|]. rewrite app_nil_r in Hl.
  assert (NoDup l.*1) as Hndl by (by rewrite Hl).
  assert (forall k, rename_of l k = rename_of rs k) as Hren by (intros k; by apply rename_of_perm).
  assert (forall k r, stands_for (rename_of l) k r <-> stands_for (rename_of rs) k r) as Hst
    by (intros; by apply stands_for_ext).
  pose proof Hh as (Ht & Hty & Hex & Hdom).
  destruct (resolve_correct t Ht (holds_fresh t l Hh)) as (t' & errs & Er & Ht' & Hc & Hres & Herr).
  exists t, t', errs. split_and!; auto; [| |by apply (no_direct t t')].
  - rewrite Herr. split.
    + intros Hall k. destruct (rename_of rs k) as [k1|] eqn:Ek.
      2: { exists k. by apply stands_for_end. }
      rewrite <- Hren in Ek. apply rename_of_elem in Ek; [|exact Hndl]. destruct (Hdom k k1 Ek) as [(p & Hp) _].
      destruct (named_ok t k p Ht Hp) as [_ Hlt]. destruct (Hall p Hlt) as [q Hq].
      destruct (stands_for_named t l Hh Hndl k p _ Hp Hq) as (k' & _ & Hk'). exists k'. by apply Hst.
    + intros Hall p Hp. destruct (named_exists t p Ht Hp) as [k Hk]. destruct (Hall k) as [k' Hk'].
      specialize (Hres p Hp). destruct (succ t p) eqn:Es; [|exists p; by apply stands_for_end].
      destruct Hres as ([r|] & _ & Hr); [by exists r|].
      apply (stands_for_named t l Hh Hndl k p _ Hk) in Hr. apply Hst in Hr.
      pose proof (stands_for_unique _ _ _ _ Hr Hk'). discriminate.
  - intros He. apply (renames_done_ext l rs t' Hren). apply (renames_done_intro t t' l); auto. by apply Herr.
Qed.

(** C24: building a name table from a list of renames (each name renamed at
    most once) always succeeds, and resolving it reports nothing exactly when
    every name has a target; each renamed name then leads, in one step, to the
    entry of its target. *)
Theorem renames_lead_to_targets junk rs :
  Forall (fun r => wf_key r.1 /\ wf_key r.2) rs -> NoDup rs.*1 ->
  exists t t' errs, add_renames junk name_table_create rs = Some t /\
    name_table_resolve_renames t true = Some (t', errs) /\
    (errs = [] <-> forall k, exists k', target rs k k') /\
    (errs = [] -> renames_done rs t').
Proof.
  intros Hrs Hnd. destruct (renames_table junk rs Hrs Hnd) as (t & t' & errs & H). exists t, t', errs. intuition.
Qed.

Lemma renames_lead_to_targets_witness :
  let rs := [(KT_STRING (NString 1 [97]), KT_STRING (NString 1 [98]));
             (KT_STRING (NString 1 [98]), KT_UNIQUE [NString 1 [99]; NString 0 []])] in
  exists t t' errs, add_renames (fun _ => 0) name_table_create rs = Some t /\
    name_table_resolve_renames t true = Some (t', errs) /\
    (errs = [] <-> forall k, exists k', target rs k k') /\ (errs = [] -> renames_done rs t').
Proof.
  apply renames_lead_to_targets.
  - apply (bool_decide_eq_true_1 _). vm_compute. reflexivity.
  - apply (bool_decide_eq_true_1 _). vm_compute. reflexivity.
Defined.
