(* ===== verification/TldNameTable.v ===== *)
(** * TldNameTable: a name table is a map from names to entries, modulo renames

    The contract of tld/src/adt/name-table.c: once the renames are resolved,
    [name_table_get] and [name_table_add] look up and insert in a finite map
    from names to direct entries, at the target of the name they are given;
    new entries get consecutive identifiers and join the list of the shape. *)
From stdpp Require Import base list list_numbers numbers.
From Stdlib Require Import ZArith Lia.
From S2P Require Import Prelude ExdsString TldNameKey HashTable TldNames TldRename.

(** The map. *)
Definition direct_of (t : NameTableT) (k : NameKeyT) : option nat :=
  p ← ht_get (nt_contents t) k;
  if from_option name_entry_is_direct false (entry_type t p) then Some p else None.

Definition ids_ok (s : ShapeEntryT) : Prop :=
  (forall p d, get_direct (se_names s) p = Some d -> 0 <= id d < id_count s) /\
  (forall p p' d d', get_direct (se_names s) p = Some d -> get_direct (se_names s) p' = Some d' ->
     id d = id d' -> p = p') /\
  Forall (fun p => get_direct (se_names s) p <> None) (se_list s).

Definition shape_ok (rs : list (NameKeyT * NameKeyT)) (s : ShapeEntryT) : Prop :=
  renames_done rs (se_names s) /\ ids_ok s /\ 0 <= id_count s <= UINT_MAX.

Lemma target_end rs k k' : target rs k k' -> rename_of rs k = None -> k' = k.
Proof.
  intros Ht Hk. assert (stands_for (rename_of rs) k (Some k)) as He by (by apply stands_for_end).
  pose proof (stands_for_unique _ _ _ _ Ht He). congruence.
Qed.

(** The entry an operation on the name [k] works on. *)
Inductive entry_for (t : NameTableT) (k' : NameKeyT) : option nat -> Prop :=
| entry_for_place p : named t k' p -> entry_type t p = Some NT_PLACEHOLDER -> entry_for t k' (Some p)
| entry_for_direct p d : named t k' p -> entry_type t p = Some (NT_DIRECT d) -> entry_for t k' (Some p)
| entry_for_none : (forall p, ~ named t k' p) -> entry_for t k' None.

(** The search of both operations: the chain, then the indirection. *)
Definition find_entry (t : NameTableT) (key : NameKeyT) : option (option nat) :=
  match ht_get (nt_contents t) key with
  | Some entry =>
      ty ← entry_type t entry;
      entry ← (if name_entry_is_indirect ty
               then q ← name_entry_get_indirect ty; q
               else Some entry);
      Some (Some entry)
  | None => Some None
  end.

Lemma find_entry_ok rs t k k' :
  renames_done rs t -> wf_key k -> target rs k k' ->
  exists o, find_entry t k = Some o /\ entry_for t k' o /\ (o = None -> k' = k).
Proof.
  intros (Ht & Hty & Hdom) Hk Htg. unfold find_entry.
  destruct (ht_get (nt_contents t) k) as [p|] eqn:E.
  2: { assert (k' = k) as ->.
       { apply (target_end rs); [exact Htg|]. destruct (rename_of rs k) eqn:Er; [|reflexivity].
         destruct (Hdom k ltac:(congruence)) as [p Hp]. apply named_get in Hp; auto. congruence. }
       exists None. split_and!; auto. constructor. by apply not_named_get. }
  apply named_get in E; auto. destruct (named_ok t k p Ht E) as [_ Hp].
  destruct (proj1 (entry_type_lt t p) Hp) as [ty Ety]. rewrite Ety. cbn [mbind option_bind].
  specialize (Hty p ty Ety) as Hcase. destruct ty as [| |[q|]|d|]; try contradiction; cbn.
  - destruct (Hcase k E) as (_ & k2 & Htg2 & Hk2).
    assert (k2 = k') as -> by (pose proof (stands_for_unique _ _ _ _ Htg Htg2); congruence).
    exists (Some q). split; [reflexivity|]. split; [|discriminate].
    destruct (named_ok t k' q Ht Hk2) as [_ Hq]. destruct (proj1 (entry_type_lt t q) Hq) as [ty2 E2].
    specialize (Hty q ty2 E2). destruct Htg as [_ Hend].
    destruct ty2 as [| |[q2|]|d2|]; try contradiction.
    + destruct (Hty k' Hk2). contradiction.
    + by eapply entry_for_direct.
    + by apply entry_for_place.
  - rewrite (target_end rs k k' Htg (Hcase k E)). exists (Some p). split; [reflexivity|]. split; [|discriminate].
    by eapply entry_for_direct.
  - rewrite (target_end rs k k' Htg (Hcase k E)). exists (Some p). split; [reflexivity|]. split; [|discriminate].
    by apply entry_for_place.
Qed.

Lemma direct_of_named t k p :
  wf_table t -> named t k p ->
  direct_of t k = if from_option name_entry_is_direct false (entry_type t p) then Some p else None.
Proof.
  intros Ht Hn. destruct (named_ok t k p Ht Hn) as [Hk _]. unfold direct_of.
  apply named_get in Hn; auto. rewrite Hn. reflexivity.
Qed.

Lemma direct_of_unnamed t k : wf_table t -> wf_key k -> (forall p, ~ named t k p) -> direct_of t k = None.
Proof.
  intros Ht Hk Hn. unfold direct_of. destruct (ht_get _ k) as [p|] eqn:E; [|reflexivity].
  apply named_get in E; auto. by destruct (Hn p).
Qed.

Lemma entry_for_direct_of t k o :
  wf_table t -> wf_key k -> entry_for t k o ->
  direct_of t k = p ← o; if from_option name_entry_is_direct false (entry_type t p) then Some p else None.
Proof.
  intros Ht Hk H. destruct H; cbn; [by apply direct_of_named..|by apply direct_of_unnamed].
Qed.

Lemma entry_for_wf t k k' o : wf_table t -> wf_key k -> entry_for t k' o -> (o = None -> k' = k) -> wf_key k'.
Proof. intros Ht Hk [p Hn _|p d Hn _|_] Hnone; [apply (named_ok t k' p Ht Hn)..|]. by rewrite Hnone. Qed.

Lemma name_table_get_ok rs t k k' :
  renames_done rs t -> wf_key k -> target rs k k' -> name_table_get t k = Some (direct_of t k').
Proof.
  intros Hr Hk Htg. destruct (find_entry_ok rs t k k' Hr Hk Htg) as (o & E & Ho & Hnone).
  pose proof Hr as (Ht & _). pose proof (entry_for_wf t k k' o Ht Hk Ho Hnone) as Hk'.
  rewrite (entry_for_direct_of t k' o Ht Hk' Ho). unfold name_table_get, find_entry in *.
  destruct (ht_get (nt_contents t) k) as [p|]; [|injection E as <-; reflexivity].
  destruct (entry_type t p) as [ty|]; [|discriminate]. cbn [mbind option_bind] in *.
  destruct (if name_entry_is_indirect ty then _ else _) as [q|]; [|discriminate].
  cbn [mbind option_bind] in *. injection E as <-.
  inversion Ho as [? Hn Hty|? d Hn Hty|]; subst; cbn [mbind option_bind]; rewrite Hty; reflexivity.
Qed.

(** ** Adding *)

(** The entry [p] of the name [k'] becomes the direct entry [d]. *)
Section Added.
Variables (rs : list (NameKeyT * NameKeyT)) (t t' : NameTableT) (k' : NameKeyT) (p : nat) (d : DirectT).
Hypothesis Hdone : renames_done rs t.
Hypothesis Hend : rename_of rs k' = None.
Hypothesis Hwf' : wf_table t'.
Hypothesis Hwas : entry_type t p = Some NT_PLACEHOLDER \/ entry_type t p = None.
Hypothesis Hnamed : forall k q, named t' k q <-> (k = k' /\ q = p) \/ named t k q.
Hypothesis Htype : forall q, entry_type t' q = if decide (q = p) then Some (NT_DIRECT d) else entry_type t q.

Lemma added_named : named t' k' p.
Proof. apply Hnamed. auto. Qed.

Lemma added_done : renames_done rs t'.
Proof.
  destruct Hdone as (Ht & Hty & Hdom). split; [exact Hwf'|]. split.
  - intros q ty. rewrite Htype. case_decide as E.
    + intros [= <-] k Hk. subst q. rewrite (named_inj t' k k' p Hwf' Hk added_named). exact Hend.
    + intros Hq. specialize (Hty q ty Hq).
      assert (forall k, named t' k q -> named t k q) as Hback by (intros k [[_ ->]|H]%Hnamed; [congruence|exact H]).
      destruct ty as [| |[r|]| |]; auto. intros k Hk. destruct (Hty k (Hback k Hk)) as (Hne & k2 & Htg & Hk2).
      split; [exact Hne|]. exists k2. split; [exact Htg|]. apply Hnamed. auto.
  - intros k Hk. destruct (Hdom k Hk) as [q Hq]. exists q. apply Hnamed. auto.
Qed.

Lemma added_direct_of k : wf_key k -> direct_of t' k = if decide (k = k') then Some p else direct_of t k.
Proof.
  intros Hk. pose proof Hdone as (Ht & _). case_decide as E.
  - subst k. rewrite (direct_of_named t' k' p Hwf' added_named), Htype, decide_True by reflexivity. reflexivity.
  - destruct (ht_get (nt_contents t) k) as [q|] eqn:Eq.
    + apply named_get in Eq; auto. assert (named t' k q) as Hq by (apply Hnamed; auto).
      rewrite (direct_of_named t' k q Hwf' Hq), (direct_of_named t k q Ht Eq), Htype.
      rewrite decide_False; [reflexivity|]. intros ->. apply E. exact (named_inj t' k k' p Hwf' Hq added_named).
    + pose proof (not_named_get t k Ht Hk Eq) as Hn.
      rewrite (direct_of_unnamed t k Ht Hk Hn). apply direct_of_unnamed; auto.
      intros q [[? _]|Hq]%Hnamed; [contradiction|]. exact (Hn q Hq).
Qed.

Lemma added_get_direct q : get_direct t' q = if decide (q = p) then Some d else get_direct t q.
Proof. unfold get_direct. rewrite Htype. case_decide; reflexivity. Qed.

Lemma added_was : get_direct t p = None.
Proof. unfold get_direct. destruct Hwas as [->| ->]; reflexivity. Qed.
End Added.

(** The state after a name got the next identifier. *)
Definition names_added (rs : list (NameKeyT * NameKeyT)) (s : ShapeEntryT) (k' : NameKeyT) (s' : ShapeEntryT) (p : nat) : Prop :=
  shape_ok rs s' /\
  (forall k, wf_key k -> direct_of (se_names s') k = if decide (k = k') then Some p else direct_of (se_names s) k) /\
  get_direct (se_names s) p = None /\
  (forall q, get_direct (se_names s') q =
     if decide (q = p) then Some (Direct (id_count s) 0 None None) else get_direct (se_names s) q) /\
  id_count s' = id_count s + 1 /\ se_list s' = se_list s ++ [p].

Lemma names_added_intro rs s k' t' p :
  shape_ok rs s -> rename_of rs k' = None -> wf_table t' -> id_count s < UINT_MAX ->
  entry_type (se_names s) p = Some NT_PLACEHOLDER \/ entry_type (se_names s) p = None ->
  (forall k q, named t' k q <-> (k = k' /\ q = p) \/ named (se_names s) k q) ->
  (forall q, entry_type t' q = if decide (q = p) then Some (NT_DIRECT (Direct (id_count s) 0 None None))
     else entry_type (se_names s) q) ->
  names_added rs s k'
    (ShapeEntry (se_key s) t' (id_count s + 1) (non_empty s) (se_list s ++ [p]) (num_lib_names s)) p.
Proof.
  intros (Hdone & (Hlt & Hinj & Hlist) & Hcount) Hend Hwf' Hmax Hwas Hn Hty.
  set (d := Direct (id_count s) 0 None None) in *.
  pose proof (added_get_direct _ _ p d Hty) as Hgd. pose proof (added_was _ p Hwas) as Hnd.
  unfold names_added, shape_ok. cbn [se_names id_count se_list]. split_and!; auto; try lia.
  - by apply (added_done rs (se_names s) t' k' p d).
  - unfold ids_ok. cbn [se_names id_count se_list]. split_and!.
    + intros q d'. rewrite Hgd. case_decide; [intros [= <-]; cbn; lia|]. intros Hq. specialize (Hlt q d' Hq). lia.
    + intros q q' e e'. rewrite !Hgd. repeat case_decide; subst; auto.
      * intros [= <-] Hq' Hid. specialize (Hlt q' e' Hq'). cbn in Hid. lia.
      * intros Hq [= <-] Hid. specialize (Hlt q e Hq). cbn in Hid. lia.
      * intros Hq Hq' Hid. by eapply Hinj.
    + apply Forall_app. split.
      * eapply Forall_impl; [|exact Hlist]. intros q Hq. rewrite Hgd. case_decide; [discriminate|exact Hq].
      * repeat constructor. rewrite Hgd, decide_True by reflexivity. discriminate.
  - intros k Hk. by apply (added_direct_of rs (se_names s) t' k' p d).
Qed.

Section Add.
Variable junk : nat -> Z.

Lemma create_direct_ok rs s k :
  shape_ok rs s -> wf_key k -> rename_of rs k = None -> (forall p, ~ named (se_names s) k p) ->
  id_count s <> UINT_MAX ->
  exists s' p, name_entry_create_direct junk s k = Some (s', p) /\ names_added rs s k s' p.
Proof.
  intros Hs Hk Hend Hnone Hmax. pose proof Hs as ((Ht & _) & _ & Hc). unfold name_entry_create_direct, shape_entry_next_id.
  rewrite (proj2 (Z.eqb_neq _ _) Hmax). cbn [mbind option_bind se_names].
  destruct (add_entry_ok junk (se_names s) k (NT_DIRECT (Direct (id_count s) 0 None None)) Ht Hk Hnone)
    as (t' & -> & Ht' & Hn & Hty).
  eexists _, _. split; [reflexivity|].
  apply (names_added_intro rs s k t'); auto; [lia|].
  right. destruct (entry_type _ _) as [ty|] eqn:E; [|reflexivity].
  assert (length (nt_entries (se_names s)) < length (nt_entries (se_names s)))%nat by (apply entry_type_lt; eauto). lia.
Qed.

Lemma make_direct_ok rs s k p :
  shape_ok rs s -> rename_of rs k = None -> named (se_names s) k p ->
  entry_type (se_names s) p = Some NT_PLACEHOLDER -> id_count s <> UINT_MAX ->
  exists s', name_entry_make_direct s p = Some s' /\ names_added rs s k s' p.
Proof.
  intros Hs Hend Hn Hty Hmax. pose proof Hs as ((Ht & _) & _ & Hc).
  unfold name_entry_make_direct, shape_entry_next_id. rewrite Hty. cbn [mbind option_bind name_entry_is_place].
  rewrite (proj2 (Z.eqb_neq _ _) Hmax). cbn [mbind option_bind se_names]. eexists. split; [reflexivity|].
  destruct (named_ok _ _ _ Ht Hn) as [_ Hlt].
  apply (names_added_intro rs s k (set_type (se_names s) p _)); auto; [by apply set_type_wf|lia| |].
  - intros k2 q. change (named (se_names s) k2 q <-> (k2 = k /\ q = p) \/ named (se_names s) k2 q).
    split; [auto|]. intros [[-> ->]|]; auto.
  - intros q. rewrite entry_type_set by exact Hlt. repeat case_decide; congruence || reflexivity.
Qed.

(** What adding the name [k], of target [k'], does. *)
Lemma name_table_add_ok rs s k k' :
  shape_ok rs s -> wf_key k -> target rs k k' ->
  match direct_of (se_names s) k' with
  | Some p => name_table_add junk s k = Some (s, p)
  | None =>
      if id_count s =? UINT_MAX then name_table_add junk s k = None
      else exists s' p, name_table_add junk s k = Some (s', p) /\ names_added rs s k' s' p
  end.
Proof.
  intros Hs Hk Htg. pose proof Hs as (Hdone & _ & _). pose proof Hdone as (Ht & _).
  destruct (find_entry_ok rs (se_names s) k k' Hdone Hk Htg) as (o & E & Ho & Hnone).
  pose proof (entry_for_wf _ k k' o Ht Hk Ho Hnone) as Hk'.
  rewrite (entry_for_direct_of _ k' o Ht Hk' Ho). pose proof (proj2 Htg) as Hend.
  unfold name_table_add, find_entry in *.
  destruct (ht_get (nt_contents (se_names s)) k) as [p|].
  - destruct (entry_type (se_names s) p) as [ty|]; [|discriminate]. cbn [mbind option_bind] in *.
    destruct (if name_entry_is_indirect ty then _ else _) as [q|]; [|discriminate].
    cbn [mbind option_bind] in *. injection E as <-.
    inversion Ho as [? Hn Hty|? d Hn Hty|]; subst; cbn [mbind option_bind]; rewrite Hty; cbn -[name_entry_make_direct]; [|reflexivity].
    destruct (id_count s =? UINT_MAX) eqn:Em.
    + unfold name_entry_make_direct, shape_entry_next_id. rewrite Hty. cbn. rewrite Em. reflexivity.
    + apply Z.eqb_neq in Em. destruct (make_direct_ok rs s k' q Hs Hend Hn Hty Em) as (s' & -> & Hadd).
      exists s', q. auto.
  - injection E as <-. cbn [mbind option_bind]. rewrite (Hnone eq_refl) in *.
    inversion Ho; subst. destruct (id_count s =? UINT_MAX) eqn:Em.
    + unfold name_entry_create_direct, shape_entry_next_id. rewrite Em. reflexivity.
    + apply Z.eqb_neq in Em. by apply create_direct_ok.
Qed.
End Add.

(** A shape whose renames have just been resolved. *)
Lemma renamed_shape_ok rs key t :
  renames_done rs t -> (forall p, get_direct t p = None) ->
  shape_ok rs (ShapeEntry key t 0 false [] 0).
Proof.
  intros Hd Hn. split; [exact Hd|]. split; [|split; vm_compute; discriminate].
  unfold ids_ok. cbn [se_names id_count se_list]. split_and!; [| |constructor].
  - intros p d H. rewrite Hn in H. discriminate.
  - intros p p' d d' H. rewrite Hn in H. discriminate.
Qed.

(** Adding a list of names in order. *)
Fixpoint add_names (junk : nat -> Z) (s : ShapeEntryT) (ks : list NameKeyT) : option (ShapeEntryT * list nat) :=
  match ks with
  | [] => Some (s, [])
  | k :: ks =>
      '(s, p) ← name_table_add junk s k;
      '(s, ps) ← add_names junk s ks;
      Some (s, p :: ps)
  end.

Lemma direct_of_named_inv t k p : wf_table t -> wf_key k -> direct_of t k = Some p -> named t k p.
Proof.
  intros Ht Hk. unfold direct_of. destruct (ht_get _ k) as [q|] eqn:E; [|discriminate]. cbn [mbind option_bind].
  destruct (from_option _ _ _); [|discriminate]. intros [= <-]. by apply named_get.
Qed.

Lemma target_wf rs k k' : Forall (fun r => wf_key r.1 /\ wf_key r.2) rs -> wf_key k -> target rs k k' -> wf_key k'.
Proof.
  intros Hrs Hk ((n & Hn) & _). revert k Hk Hn. induction n as [|n IH]; intros k Hk; cbn.
  { intros [= <-]. exact Hk. }
  destruct (rename_of rs k) as [k1|] eqn:E; [|discriminate]. apply IH.
  clear -Hrs E. induction Hrs as [|[f to] rs [_ Hto] Hrs IH]; cbn in E; [discriminate|].
  case_decide; [injection E as <-; exact Hto|auto].
Qed.

Lemma add_names_ok junk rs ks s :
  Forall (fun r => wf_key r.1 /\ wf_key r.2) rs -> (forall k, exists k', target rs k k') ->
  shape_ok rs s -> Forall wf_key ks -> id_count s + Z.of_nat (length ks) <= UINT_MAX ->
  exists s' ps, add_names junk s ks = Some (s', ps) /\ shape_ok rs s' /\ length ps = length ks /\
    (forall k p, wf_key k -> direct_of (se_names s) k = Some p -> direct_of (se_names s') k = Some p) /\
    (forall i k k' p, ks !! i = Some k -> ps !! i = Some p -> target rs k k' ->
       direct_of (se_names s') k' = Some p).
Proof.
  intros Hrs Hall Hs Hks. revert s Hs. induction Hks as [|k ks Hk Hks IH]; intros s Hs Hmax; cbn [add_names].
  { exists s, []. split_and!; auto. intros i k k' p Hi. discriminate. }
  destruct (Hall k) as [k' Htg]. pose proof (target_wf rs k k' Hrs Hk Htg) as Hk'.
  pose proof (name_table_add_ok junk rs s k k' Hs Hk Htg) as Hadd. cbn [length] in Hmax.
  assert (exists s1 p, name_table_add junk s k = Some (s1, p) /\ shape_ok rs s1 /\
    direct_of (se_names s1) k' = Some p /\ id_count s1 <= id_count s + 1 /\
    (forall k p, wf_key k -> direct_of (se_names s) k = Some p -> direct_of (se_names s1) k = Some p))
    as (s1 & p & -> & Hs1 & Hd1 & Hc1 & Hkeep).
  { destruct (direct_of (se_names s) k') as [p|] eqn:Ed; [exists s, p; split_and!; auto; lia|].
    rewrite (proj2 (Z.eqb_neq _ _)) in Hadd by lia. destruct Hadd as (s1 & p & -> & Hs1 & Hd & _ & _ & Hc & _).
    exists s1, p. split; [reflexivity|]. split; [exact Hs1|]. split; [|split; [lia|]].
    - rewrite Hd, decide_True by auto. reflexivity.
    - intros k2 q Hk2 Hq. rewrite Hd by exact Hk2. case_decide; [congruence|exact Hq]. }
  cbn [mbind option_bind]. destruct (IH s1 Hs1) as (s' & ps & -> & Hs' & Hlen & Hkeep' & Hps); [lia|].
  exists s', (p :: ps). cbn [mbind option_bind length]. split; [reflexivity|]. split; [exact Hs'|]. split; [lia|]. split; [auto|].
  intros [|i] k2 k2' q; cbn [lookup list_lookup].
  - intros [= <-] [= <-] Htg2. rewrite <- (stands_for_inj _ _ _ _ Htg Htg2).
    cbn. by apply Hkeep'.
  - intros Hi Hj Htg2. by eapply Hps.
Qed.

(** A new shape with its renames resolved. *)
Lemma resolved_shape_ok junk key rs t t' :
  Forall (fun r => wf_key r.1 /\ wf_key r.2) rs -> NoDup rs.*1 ->
  add_renames junk (se_names (shape_entry_create junk key)) rs = Some t ->
  name_table_resolve_renames t true = Some (t', []) ->
  shape_ok rs (set_names (shape_entry_create junk key) t') /\ forall k, exists k', target rs k k'.
Proof.
  intros Hrs Hnd Hadd Hres.
  destruct (renames_table junk rs Hrs Hnd) as (t1 & t1' & errs & E1 & E2 & Herr & Hdone & Hplain & _).
  cbn [se_names shape_entry_create] in Hadd. rewrite E1 in Hadd. injection Hadd as ->.
  rewrite E2 in Hres. injection Hres as -> ->. split; [apply renamed_shape_ok; auto|by apply Herr].
Qed.

(** C23: with the renames resolved, [name_table_get] is lookup in the map from
    names to direct entries at the target of the name, and [name_table_add]
    returns the entry of the target, unchanged when there is one; otherwise it
    inserts, at the target only, a new direct entry with the next identifier,
    which also ends the list of the shape, or stops the program when the
    identifiers are exhausted. Identifiers stay distinct and below the count. *)
Theorem name_table_refines_map junk rs s k k' :
  shape_ok rs s -> wf_key k -> target rs k k' ->
  name_table_get (se_names s) k = Some (direct_of (se_names s) k') /\
  match direct_of (se_names s) k' with
  | Some p => name_table_add junk s k = Some (s, p)
  | None =>
      if id_count s =? UINT_MAX then name_table_add junk s k = None
      else exists s' p, name_table_add junk s k = Some (s', p) /\ names_added rs s k' s' p
  end.
Proof.
  intros Hs Hk Htg. split; [|by apply name_table_add_ok]. apply (name_table_get_ok rs); auto. apply Hs.
Qed.

(** C25: a shape built from renames without a cycle and then given names gets
    an entry for each of them, and two names get the same entry exactly when
    the renames lead them to the same name. *)
Theorem names_identified_by_target junk key rs t t' ks :
  Forall (fun r => wf_key r.1 /\ wf_key r.2) rs -> NoDup rs.*1 -> Forall wf_key ks ->
  Z.of_nat (length ks) <= UINT_MAX ->
  add_renames junk (se_names (shape_entry_create junk key)) rs = Some t ->
  name_table_resolve_renames t true = Some (t', []) ->
  exists s ps, add_names junk (set_names (shape_entry_create junk key) t') ks = Some (s, ps) /\
    length ps = length ks /\ ids_ok s /\
    forall i j k1 k2 p q, ks !! i = Some k1 -> ks !! j = Some k2 -> ps !! i = Some p -> ps !! j = Some q ->
      p = q <-> exists k', target rs k1 k' /\ target rs k2 k'.
Proof.
  intros Hrs Hnd Hks Hlen Hadd Hres.
  destruct (resolved_shape_ok junk key rs t t' Hrs Hnd Hadd Hres) as [Hs0 Hall].
  destruct (add_names_ok junk rs ks (set_names (shape_entry_create junk key) t')) as (s & ps & E & Hs & Hl & _ & Hps);
    auto.
  exists s, ps. split; [exact E|]. split; [exact Hl|]. split; [apply Hs|].
  intros i j k1 k2 p q Hi Hj Hp Hq. destruct (Hall k1) as [k1' H1]. destruct (Hall k2) as [k2' H2].
  pose proof (Hps i k1 k1' p Hi Hp H1) as D1. pose proof (Hps j k2 k2' q Hj Hq H2) as D2.
  assert (wf_key k1') as W1 by (eapply target_wf; [exact Hrs| |exact H1]; exact (Forall_lookup_1 _ _ _ _ Hks Hi)).
  assert (wf_key k2') as W2 by (eapply target_wf; [exact Hrs| |exact H2]; exact (Forall_lookup_1 _ _ _ _ Hks Hj)).
  pose proof Hs as ((Ht & _) & _). split.
  - intros <-. apply direct_of_named_inv in D1, D2; auto. rewrite (named_inj _ _ _ _ Ht D2 D1) in H2. eauto.
  - intros (k' & T1 & T2). rewrite <- (stands_for_inj _ _ _ _ T1 H1) in D1.
    rewrite <- (stands_for_inj _ _ _ _ T2 H2) in D2. congruence.
Qed.

(** Two names renamed to a third; the table after resolution. *)
Definition ex_a : NameKeyT := KT_STRING (NString 1 [97]).
Definition ex_b : NameKeyT := KT_STRING (NString 1 [98]).
Definition ex_c : NameKeyT := KT_UNIQUE [NString 1 [99]; NString 0 []].
Definition ex_renames : list (NameKeyT * NameKeyT) := [(ex_a, ex_b); (ex_b, ex_c)].
Definition ex_table : NameTableT := default name_table_create (add_renames (fun _ => 0) name_table_create ex_renames).
Definition ex_resolved : NameTableT :=
  (default (name_table_create, []) (name_table_resolve_renames ex_table true)).1.
Definition ex_shape : ShapeEntryT :=
  set_names (shape_entry_create (fun _ => 0) (NString 3 [116; 97; 103])) ex_resolved.

Lemma ex_shape_ok : shape_ok ex_renames ex_shape.
Proof.
  apply (resolved_shape_ok (fun _ => 0) (NString 3 [116; 97; 103]) ex_renames ex_table ex_resolved);
    [apply (bool_decide_eq_true_1 _); vm_compute; reflexivity..| |]; vm_compute; reflexivity.
Qed.

Lemma name_table_refines_map_witness :
  name_table_get (se_names ex_shape) ex_a = Some None /\
  exists s' p, name_table_add (fun _ => 0) ex_shape ex_a = Some (s', p) /\ names_added ex_renames ex_shape ex_c s' p.
Proof.
  destruct (name_table_refines_map (fun _ => 0) ex_renames ex_shape ex_a ex_c) as [Hget Hadd].
  - exact ex_shape_ok.
  - apply (bool_decide_eq_true_1 _). vm_compute. reflexivity.
  - split; [|reflexivity]. exists 2%nat. reflexivity.
  - split; [vm_compute; reflexivity|exact Hadd].
Defined.

Lemma names_identified_by_target_witness :
  exists s ps, add_names (fun _ => 0) ex_shape [ex_a; ex_b; ex_c] = Some (s, ps) /\
    length ps = 3%nat /\ ids_ok s /\
    forall i j k1 k2 p q, [ex_a; ex_b; ex_c] !! i = Some k1 -> [ex_a; ex_b; ex_c] !! j = Some k2 ->
      ps !! i = Some p -> ps !! j = Some q ->
      p = q <-> exists k', target ex_renames k1 k' /\ target ex_renames k2 k'.
Proof.
  apply (names_identified_by_target (fun _ => 0) (NString 3 [116; 97; 103]) ex_renames ex_table ex_resolved);
    [apply (bool_decide_eq_true_1 _); vm_compute; reflexivity..|vm_compute; discriminate| |]; vm_compute; reflexivity.
Defined.
