(* ===== verification/TldShapes.v ===== *)
(** * TldShapes: the shape, map and unit tables of the linker

    Models tld/src/adt/shape-entry.c and shape-table.c (with the writing of a
    shape), map-entry.c, map-table.c, unit-entry.c and unit-table.c. As for the
    name tables, the entries of a table live in a vector and a pointer to an
    entry is its index; the chains hold the pointers. Memory comes zeroed
    ([calloc]). [None] is the end of the program: a failed assertion, a fatal
    error or the use of a null pointer. *)
From stdpp Require Import base list list_numbers numbers.
From Stdlib Require Import ZArith Lia.
From S2P Require Import Prelude Codec ExdsString TldNameKey TldIO HashTable TldNames.

Definition MAP_TABLE_SIZE : nat := 11.
Definition SHAPE_TABLE_SIZE : nat := 11.
Definition UNIT_TABLE_SIZE : nat := 11.

(** ** Map tables *)

Record MapLinkT := MapLink { internal : Z; external : Z }.

Record MapEntryT := MapEntry {
  me_key : NStringT;
  count : Z;
  num_links : Z;
  links : list MapLinkT
}.

Record MapTableT := MapTable {
  mt_contents : chains NStringT nat;
  mt_entries : list MapEntryT
}.

(** ** Shape tables *)

Record ShapeTableT := ShapeTable {
  st_contents : chains NStringT nat;
  st_entries : list ShapeEntryT;
  token_entry : option nat;
  tag_entry : option nat
}.

(** ** Unit tables *)

Record UnitT := UnitOf { map_table : option MapTableT; u_contents : NStringT }.

Record UnitEntryT := UnitEntry { ue_key : NStringT; order : Z; ue_units : list UnitT }.

Record UnitTableT := UnitTable {
  ut_contents : chains NStringT nat;
  ut_entries : list UnitEntryT
}.

(** Writing in a program that may stop. *)
Definition wseq (o1 o2 : option (writer unit)) : option (writer unit) :=
  m1 ← o1; m2 ← o2; Some (_ ← m1; m2).

Definition wskip : option (writer unit) := Some (mret tt : writer unit).

Fixpoint wlist {A} (f : A -> option (writer unit)) (l : list A) : option (writer unit) :=
  match l with
  | [] => wskip
  | a :: l => wseq (f a) (wlist f l)
  end.

Definition token_name : NStringT := NString 5 [116; 111; 107; 101; 110].
Definition tag_name : NStringT := NString 3 [116; 97; 103].

Section Tables.
Variable junk : nat -> Z.

(** ** map-entry.c *)

Definition map_entry_create (key : NStringT) (count : Z) : MapEntryT :=
  MapEntry (nstring_copy junk key) count 0 [].

Definition map_entry_set_num_links (entry : MapEntryT) (num_links : Z) : MapEntryT :=
  MapEntry (me_key entry) (count entry) num_links (replicate (Z.to_nat num_links) (MapLink 0 0)).

Definition map_entry_set_link (entry : MapEntryT) (link internal external : Z) : option MapEntryT :=
  if link <? num_links entry then
    Some (MapEntry (me_key entry) (count entry) (num_links entry)
            (<[Z.to_nat link := MapLink internal external]> (links entry)))
  else None.

Definition map_entry_get_count (entry : MapEntryT) : Z := count entry.

Definition map_entry_get_num_links (entry : MapEntryT) : Z := num_links entry.

Definition map_entry_get_link (entry : MapEntryT) (link : Z) : option MapLinkT :=
  if link <? num_links entry then links entry !! Z.to_nat link else None.

(** ** map-table.c *)

Definition map_table_create : MapTableT := MapTable (ht_create MAP_TABLE_SIZE) [].

Definition map_table_add (t : MapTableT) (key : NStringT) (count : Z) : MapTableT * nat :=
  let p := length (mt_entries t) in
  let entry := map_entry_create key count in
  (MapTable (ht_prepend (mt_contents t) (me_key entry) p) (mt_entries t ++ [entry]), p).

Definition map_table_get (t : MapTableT) (key : NStringT) : option nat := ht_get (mt_contents t) key.

Definition map_table_iter (t : MapTableT) : list nat := snd <$> ht_entries (mt_contents t).

(** ** shape-table.c *)

Definition shape_table_create : ShapeTableT := ShapeTable (ht_create SHAPE_TABLE_SIZE) [] None None.

Definition shape_table_add (t : ShapeTableT) (key : NStringT) : ShapeTableT * nat :=
  match ht_get (st_contents t) key with
  | Some p => (t, p)
  | None =>
      let p := length (st_entries t) in
      let entry := shape_entry_create junk key in
      (ShapeTable (ht_append (st_contents t) (se_key entry) p) (st_entries t ++ [entry])
         (token_entry t) (tag_entry t), p)
  end.

Definition shape_table_get (t : ShapeTableT) (key : NStringT) : option nat := ht_get (st_contents t) key.

Definition shape_table_get_token_entry (t : ShapeTableT) : ShapeTableT * option nat :=
  match token_entry t with
  | Some p => (t, Some p)
  | None =>
      let r := shape_table_get t token_name in
      (ShapeTable (st_contents t) (st_entries t) r (tag_entry t), r)
  end.

Definition shape_table_get_tag_entry (t : ShapeTableT) : ShapeTableT * option nat :=
  match tag_entry t with
  | Some p => (t, Some p)
  | None =>
      let r := shape_table_get t tag_name in
      (ShapeTable (st_contents t) (st_entries t) (token_entry t) r, r)
  end.

(** The pointers in the order of the iterator, and the iterator for
    procedures that change the entry and accumulate, and for those that write. *)
Definition shape_table_iter (t : ShapeTableT) : list nat := snd <$> ht_entries (st_contents t).

Definition set_shape (t : ShapeTableT) (p : nat) (s : ShapeEntryT) : ShapeTableT :=
  ShapeTable (st_contents t) (<[p := s]> (st_entries t)) (token_entry t) (tag_entry t).

Fixpoint shape_iter {A} (f : ShapeEntryT -> A -> option (ShapeEntryT * A)) (ps : list nat)
    (t : ShapeTableT) (a : A) : option (ShapeTableT * A) :=
  match ps with
  | [] => Some (t, a)
  | p :: ps =>
      s ← st_entries t !! p;
      '(s, a) ← f s a;
      shape_iter f ps (set_shape t p s) a
  end.

Definition shape_iter_write (f : ShapeEntryT -> option (writer unit)) (t : ShapeTableT) : option (writer unit) :=
  wlist (fun p => s ← st_entries t !! p; f s) (shape_table_iter t).

(** An entry of a map table with identifiers makes its shape not empty. *)
Definition map_entry_check_non_empty (entry : MapEntryT) (table : ShapeTableT) : option ShapeTableT :=
  if 0 <? count entry then
    p ← shape_table_get table (me_key entry);
    s ← st_entries table !! p;
    Some (set_shape table p (shape_entry_set_non_empty s))
  else Some table.

(** ** shape-entry.c *)

Definition shape_entry_do_count (s : ShapeEntryT) (count : Z) : option (ShapeEntryT * Z) :=
  Some (if (0 <? id_count s) || non_empty s
        then (shape_entry_set_non_empty s, u32 (count + 1)) else (s, count)).

Definition shape_entry_write_shape (s : ShapeEntryT) : option (writer unit) :=
  if non_empty s then
    Some (_ ← tdf_write_string (se_key s); tdf_write_int (id_count s))
  else wskip.

Definition shape_entry_write_externs (s : ShapeEntryT) : option (writer unit) :=
  if non_empty s then
    let table := se_names s in
    num_externs ← iter_count (name_entry_do_count table) 0 table;
    wseq (Some (tdf_write_int num_externs)) (iter_write (name_entry_write_name table) table)
  else wskip.

Definition shape_entry_compute_tld_size (s : ShapeEntryT) (size : nat) : option nat :=
  if non_empty s then iter_count (name_entry_compute_tld_size (se_names s)) size (se_names s)
  else Some size.

Definition shape_entry_write_tld (s : ShapeEntryT) : option (writer unit) :=
  if non_empty s then iter_write (name_entry_write_tld (se_names s)) (se_names s) else wskip.

Definition shape_entry_write_count (table : MapTableT) (s : ShapeEntryT) : option (writer unit) :=
  if non_empty s then
    count ← match map_table_get table (se_key s) with
            | Some p => map_entry_get_count <$> mt_entries table !! p
            | None => Some 0
            end;
    Some (tdf_write_int count)
  else wskip.

Definition shape_entry_write_links (table : MapTableT) (s : ShapeEntryT) : option (writer unit) :=
  if non_empty s then
    match map_table_get table (se_key s) with
    | Some p =>
        map_entry ← mt_entries table !! p;
        let num_links := map_entry_get_num_links map_entry in
        wseq (Some (tdf_write_int num_links))
          (wlist (fun i =>
             link ← map_entry_get_link map_entry (Z.of_nat i);
             Some (_ ← tdf_write_int (internal link); tdf_write_int (external link)))
           (seq 0 (Z.to_nat num_links)))
    | None => Some (tdf_write_int 0)
    end
  else wskip.

(** The names the check reports, in order. *)
Definition shape_entry_check_multi_defs (s : ShapeEntryT) : option (list nat) :=
  iter_count (fun l p => b ← name_entry_check_multi_defs (se_names s) p; Some (if (b : bool) then l ++ [p] else l))
    [] (se_names s).

Definition set_num_lib_names (s : ShapeEntryT) (n : Z) : ShapeEntryT :=
  ShapeEntry (se_key s) (se_names s) (id_count s) (non_empty s) (se_list s) n.

Definition shape_entry_do_lib_count (s : ShapeEntryT) (num_shapes : Z) : option (ShapeEntryT * Z) :=
  num_names ← iter_count (name_entry_do_lib_count (se_names s)) 0 (se_names s);
  Some (set_num_lib_names s num_names, if 0 <? num_names then u32 (num_shapes + 1) else num_shapes).

Definition shape_entry_do_lib_write (capsule_index : nat -> Z) (s : ShapeEntryT) : option (writer unit) :=
  if 0 <? num_lib_names s then
    wseq (Some (_ ← tdf_write_string (se_key s); tdf_write_int (num_lib_names s)))
      (iter_write (name_entry_do_lib_write capsule_index (se_names s)) (se_names s))
  else wskip.

Definition shape_entry_hide_all_defd (s : ShapeEntryT) : option ShapeEntryT :=
  t ← iter_update name_entry_hide_defd (se_names s); Some (set_names s t).

Definition shape_entry_suppress_mult (s : ShapeEntryT) : option ShapeEntryT :=
  t ← iter_update name_entry_suppress_mult (se_names s); Some (set_names s t).

Definition shape_entry_lib_suppress_mult (s : ShapeEntryT) : option ShapeEntryT :=
  t ← iter_update name_entry_lib_suppress_mult (se_names s); Some (set_names s t).

(** ** unit-entry.c *)

Definition unit_entry_create (key : NStringT) (order : Z) : UnitEntryT :=
  UnitEntry (nstring_copy junk key) order [].

Definition unit_set_contents (u : UnitT) (nstring : NStringT) : UnitT := UnitOf (map_table u) (nstring_assign nstring).

(** The new unit ends the list of the entry. *)
Definition unit_entry_add_unit (entry : UnitEntryT) (num_counts : Z) : UnitEntryT :=
  let u := UnitOf (if negb (num_counts =? 0) then Some map_table_create else None) nstring_init in
  UnitEntry (ue_key entry) (order entry) (ue_units entry ++ [u]).

Fixpoint check_units (units : list UnitT) (shapes : ShapeTableT) : option ShapeTableT :=
  match units with
  | [] => Some shapes
  | u :: units =>
      shapes ← match map_table u with
               | Some table =>
                   foldl (fun o p => shapes ← o; e ← mt_entries table !! p; map_entry_check_non_empty e shapes)
                     (Some shapes) (map_table_iter table)
               | None => Some shapes
               end;
      check_units units shapes
  end.

Definition unit_entry_do_count (entry : UnitEntryT) (num_unit_sets : Z) (shapes : ShapeTableT)
  : option (Z * ShapeTableT) :=
  if decide (ue_units entry = []) then Some (num_unit_sets, shapes)
  else shapes ← check_units (ue_units entry) shapes; Some (u32 (num_unit_sets + 1), shapes).

(** [is_tld] is [entry == tld_entry]. *)
Definition unit_entry_write_unit_set (entry : UnitEntryT) (is_tld : bool) : option (writer unit) :=
  if negb (bool_decide (ue_units entry = [])) || is_tld then Some (tdf_write_string (ue_key entry)) else wskip.

Definition unit_write (u : UnitT) (shapes : ShapeTableT) (num_shapes : Z) : option (writer unit) :=
  let length := nstring_length (u_contents u) in
  wseq
    (match map_table u with
     | Some table =>
         wseq (Some (tdf_write_int num_shapes))
           (wseq (shape_iter_write (shape_entry_write_count table) shapes)
              (wseq (Some (tdf_write_int num_shapes)) (shape_iter_write (shape_entry_write_links table) shapes)))
     | None => Some (_ ← tdf_write_int 0; tdf_write_int 0)
     end)
    (Some (_ ← tdf_write_int (u32 (Z.of_nat length)); tdf_write_bytes (u_contents u))).

Definition tld_size (shapes : ShapeTableT) : option nat :=
  foldl (fun o p => size ← o; s ← st_entries shapes !! p; shape_entry_compute_tld_size s size)
    (Some (tdf_int_size 1 + 1)%nat) (shape_table_iter shapes).

Definition unit_entry_write_tld_unit (entry : UnitEntryT) (shapes : ShapeTableT) : option (writer unit) :=
  size ← tld_size shapes;
  let size := (size / 2)%nat in
  wseq (Some (_ ← tdf_write_int 1; _ ← tdf_write_int 0; _ ← tdf_write_int 0;
              _ ← tdf_write_int (u32 (Z.of_nat size)); _ ← tdf_write_align; tdf_write_int 1))
    (wseq (shape_iter_write shape_entry_write_tld shapes) (Some tdf_write_align)).

Definition unit_entry_write_units (entry : UnitEntryT) (shapes : ShapeTableT) (num_shapes : Z)
  : option (writer unit) :=
  let num_units := u32 (Z.of_nat (length (ue_units entry))) in
  if 0 <? num_units then
    wseq (Some (tdf_write_int num_units)) (wlist (fun u => unit_write u shapes num_shapes) (ue_units entry))
  else wskip.

(** ** unit-table.c *)

Definition unit_table_create : UnitTableT := UnitTable (ht_create UNIT_TABLE_SIZE) [].

Definition unit_table_add (t : UnitTableT) (key : NStringT) (order : Z) : UnitTableT * nat :=
  let p := length (ut_entries t) in
  let entry := unit_entry_create key order in
  (UnitTable (ht_prepend (ut_contents t) (ue_key entry) p) (ut_entries t ++ [entry]), p).

Definition unit_table_get (t : UnitTableT) (key : NStringT) : option nat := ht_get (ut_contents t) key.

Definition unit_table_iter (t : UnitTableT) : list nat := snd <$> ht_entries (ut_contents t).
End Tables.
