(* ===== verification/TldShapesSpec.v ===== *)
(** * TldShapesSpec: what the linker writes for its shapes, names and units

    The counts and sizes that shape-entry.c and unit-entry.c write ahead of the
    data agree with the data that follows. *)
From stdpp Require Import base list list_numbers numbers.
From Stdlib Require Import ZArith Lia.
From S2P Require Import Prelude Codec ExdsString TldNameKey TldIO TldIOSpec HashTable TldNames TldShapes.

(** ** Writing in a program that may stop *)

Definition owrites (o : option (writer unit)) (f : format) : Prop := exists m, o = Some m /\ writes m f.

Definition fmt_eq (f g : format) : Prop := forall pos, f pos = g pos.

#[export] Instance fmt_eq_equiv : Equivalence fmt_eq.
Proof. split; [intros f pos; reflexivity|intros f g H pos; symmetry; apply H|intros f g h H1 H2 pos; by rewrite H1]. Qed.

#[export] Instance fmt_seq_proper : Proper (fmt_eq ==> fmt_eq ==> fmt_eq) fmt_seq.
Proof. intros f f' Hf g g' Hg pos. unfold fmt_seq. rewrite Hf, Hg. reflexivity. Qed.

#[export] Instance writes_proper : Proper (eq ==> fmt_eq ==> iff) writes.
Proof. intros m ? <- f g H. split; apply writes_ext; [exact H|intros pos; symmetry; apply H]. Qed.

#[export] Instance owrites_proper : Proper (eq ==> fmt_eq ==> iff) owrites.
Proof. intros o ? <- f g H. unfold owrites. by setoid_rewrite H. Qed.

Lemma fmt_seq_nil_l f : fmt_eq (fmt_seq fmt_nil f) f.
Proof. intros pos. unfold fmt_seq, fmt_nil. cbn. rewrite Nat.add_0_r. reflexivity. Qed.

Lemma fmt_seq_assoc f g h : fmt_eq (fmt_seq (fmt_seq f g) h) (fmt_seq f (fmt_seq g h)).
Proof. intros pos. unfold fmt_seq. rewrite length_app, Nat.add_assoc, app_assoc. reflexivity. Qed.

Lemma owrites_seq o1 o2 f1 f2 : owrites o1 f1 -> owrites o2 f2 -> owrites (wseq o1 o2) (fmt_seq f1 f2).
Proof.
  intros (m1 & -> & H1) (m2 & -> & H2). eexists. split; [reflexivity|]. by apply writes_bind.
Qed.

Lemma owrites_some m f : writes m f -> owrites (Some m) f.
Proof. intros H. by exists m. Qed.

Lemma owrites_skip : owrites wskip fmt_nil.
Proof. apply owrites_some, writes_ret. Qed.

Lemma owrites_list {A} (f : A -> option (writer unit)) (F : A -> format) l :
  (forall a, a ∈ l -> owrites (f a) (F a)) -> owrites (wlist f l) (fmt_list F l).
Proof.
  induction l as [|a l IH]; intros H; cbn; [apply owrites_skip|].
  apply owrites_seq; [apply H; left|]. apply IH. intros b Hb. apply H. by right.
Qed.

Create HintDb fmt.
#[export] Hint Resolve writes_bind writes_ret tdf_write_align_ok owrites_some owrites_seq owrites_skip : fmt.

(** Data that is skipped. *)
Lemma fmt_list_filter {A} (P : A -> Prop) `{!forall a, Decision (P a)} (F : A -> format) l :
  fmt_eq (fmt_list (fun a => if decide (P a) then F a else fmt_nil) l) (fmt_list F (filter P l)).
Proof.
  induction l as [|a l IH]; [reflexivity|]. rewrite filter_cons. cbn [fmt_list foldr]. rewrite IH.
  destruct (decide (P a)); [reflexivity|]. apply fmt_seq_nil_l.
Qed.

Lemma fmt_list_fmap {A B} (F : B -> format) (g : A -> B) l : fmt_list F (g <$> l) = fmt_list (fun a => F (g a)) l.
Proof. induction l as [|a l IH]; [reflexivity|]. cbn. f_equal. exact IH. Qed.

(** ** The names of a shape *)

Definition name_view (t : NameTableT) (p : nat) : option (NameKeyT * DirectT) :=
  d ← get_direct t p; k ← name_entry_key t p; Some (k, d).

(** The names in the order of the iterator. *)
Definition names_of (t : NameTableT) : list (NameKeyT * DirectT) := omap (name_view t) (name_table_iter t).

Definition shown (v : NameKeyT * DirectT) : Prop := is_hidden v.2 = false.
#[export] Instance shown_dec v : Decision (shown v).
Proof. unfold shown. apply _. Defined.

Definition visible (t : NameTableT) : list (NameKeyT * DirectT) := filter shown (names_of t).

Lemma iter_view t p : p ∈ name_table_iter t -> exists v, name_view t p = Some v.
Proof.
  unfold name_table_iter, name_view, get_direct, name_entry_key, entry_type.
  rewrite list_elem_of_filter. intros [H _]. destruct (nt_entries t !! p) as [e|]; [|discriminate]. cbn in *.
  destruct (ne_type e); try discriminate. cbn. eauto.
Qed.

Lemma foldl_view {A} (f : A -> nat -> option A) (g : A -> NameKeyT * DirectT -> A) t ps a :
  (forall a p v, name_view t p = Some v -> f a p = Some (g a v)) ->
  (forall p, p ∈ ps -> exists v, name_view t p = Some v) ->
  foldl (fun a p => a ← a; f a p) (Some a) ps = Some (foldl g a (omap (name_view t) ps)).
Proof.
  intros Hf. revert a. induction ps as [|p ps IH]; intros a Hv; [reflexivity|].
  destruct (Hv p) as [v E]; [left|]. cbn. rewrite E, (Hf a p v E). cbn. apply IH. intros q Hq. apply Hv. by right.
Qed.

Lemma iter_count_view {A} (f : A -> nat -> option A) (g : A -> NameKeyT * DirectT -> A) a t :
  (forall a p v, name_view t p = Some v -> f a p = Some (g a v)) ->
  iter_count f a t = Some (foldl g a (names_of t)).
Proof. intros Hf. apply foldl_view; [exact Hf|apply iter_view]. Qed.

Lemma iter_write_view f (F : NameKeyT * DirectT -> format) t :
  (forall p v, v ∈ names_of t -> name_view t p = Some v -> owrites (f p) (F v)) ->
  owrites (iter_write f t) (fmt_list F (names_of t)).
Proof.
  unfold iter_write, names_of. generalize (iter_view t). generalize (name_table_iter t) as ps.
  induction ps as [|p ps IH]; intros Hv Hf; [apply owrites_skip|].
  destruct (Hv p) as [v E]; [left|]. cbn [omap list_omap foldr] in *. rewrite E in *.
  apply (owrites_seq (f p)).
  - apply Hf; [left|exact E].
  - apply IH; [intros q Hq; apply Hv; by right|]. intros q w Hw. apply Hf. by right.
Qed.

Lemma name_view_inv t p k d : name_view t p = Some (k, d) -> get_direct t p = Some d /\ name_entry_key t p = Some k.
Proof.
  unfold name_view. destruct (get_direct t p); [|discriminate]. destruct (name_entry_key t p); [|discriminate].
  cbn. intros [= -> ->]. auto.
Qed.

(** ** Counting and measuring *)

Lemma count_shown n l :
  0 <= n -> n + Z.of_nat (length (filter shown l)) < 2 ^ 32 ->
  foldl (fun c v => if is_hidden v.2 then c else u32 (c + 1)) n l = n + Z.of_nat (length (filter shown l)).
Proof.
  revert n. induction l as [|v l IH]; intros n Hn Hl; cbn [foldl]; [cbn; lia|].
  rewrite filter_cons in *. destruct (decide (shown v)) as [E|E]; unfold shown in E.
  - rewrite E. cbn [length] in *. rewrite u32_small by lia. rewrite IH; lia.
  - destruct (is_hidden v.2); [|congruence]. by apply IH.
Qed.

(** The [names_of] a table are as many as its direct entries. *)
Lemma do_count_names t :
  Z.of_nat (length (visible t)) < 2 ^ 32 ->
  iter_count (name_entry_do_count t) 0 t = Some (Z.of_nat (length (visible t))).
Proof.
  intros Hl. rewrite (iter_count_view _ (fun c v => if is_hidden v.2 then c else u32 (c + 1))).
  - rewrite count_shown; [reflexivity|lia|exact Hl].
  - intros a p [k d] E. apply name_view_inv in E as [E _]. unfold name_entry_do_count, name_entry_is_hidden.
    rewrite E. reflexivity.
Qed.

Definition name_nibbles (v : NameKeyT * DirectT) : nat := length (tdfint_nibbles (get_use v.2)).

Lemma tdf_int_size_loop_ok fuel n k :
  0 <= n < 8 ^ Z.of_nat fuel -> tdf_int_size_loop fuel n k = (k + length (octal_init n))%nat.
Proof.
  revert n k. induction fuel as [|fuel IH]; intros n k Hn.
  - replace n with 0 by (cbn in Hn; lia). cbn. lia.
  - cbn [tdf_int_size_loop]. rewrite Nat2Z.inj_succ, Z.pow_succ_r in Hn by lia.
    assert (Z.shiftr n 3 = n / 8) as E by (rewrite Z.shiftr_div_pow2 by lia; reflexivity).
    unfold octal_init. destruct (Z.leb_spec 8 n) as [H8|H8].
    + assert (1 <= n / 8) by (apply Z.div_le_lower_bound; lia).
      rewrite (proj2 (Z.eqb_neq _ _)) by lia.
      rewrite IH by (rewrite E; split; [lia|apply Z.div_lt_upper_bound; lia]).
      rewrite octal_digits_eq by lia. rewrite length_app. cbn. lia.
    + rewrite E, Z.div_small by lia. cbn. lia.
Qed.

Lemma tdf_int_size_ok n : 0 <= n < 2 ^ 32 -> tdf_int_size n = length (tdfint_nibbles n).
Proof.
  intros Hn. unfold tdf_int_size, tdfint_nibbles. rewrite tdf_int_size_loop_ok by (cbn; lia).
  rewrite length_app. cbn. lia.
Qed.

Lemma get_use_range d : 0 <= get_use d < 16.
Proof.
  unfold get_use. change (Z.lor _ U_USED) with (Z.ones 4). rewrite Z.land_ones by lia.
  apply Z.mod_pos_bound. reflexivity.
Qed.

Lemma compute_size_names t n :
  iter_count (name_entry_compute_tld_size t) n t = Some (n + sum_list_with name_nibbles (visible t))%nat.
Proof.
  rewrite (iter_count_view _ (fun c v => if is_hidden v.2 then c else (c + name_nibbles v)%nat)).
  - f_equal. unfold visible. generalize (names_of t) as l. intros l. revert n.
    induction l as [|v l IH]; intros n; cbn [foldl]; [cbn; lia|]. rewrite IH, filter_cons.
    destruct (decide (shown v)) as [E|E]; unfold shown in E.
    + rewrite E. cbn. lia.
    + destruct (is_hidden v.2); [reflexivity|congruence].
  - intros a p [k d] E. apply name_view_inv in E as [E _]. unfold name_entry_compute_tld_size. rewrite E.
    cbn [mbind option_bind snd]. destruct (is_hidden d); [reflexivity|]. pose proof (get_use_range d). rewrite tdf_int_size_ok by lia. reflexivity.
Qed.

(** ** Writing a shape *)

(** What fits the fields of a capsule. *)
Definition ok_name (v : NameKeyT * DirectT) : Prop := ok_key v.1 /\ 0 <= id v.2 <= UINT_MAX.

Record ok_shape (s : ShapeEntryT) : Prop := {
  ok_shape_key : ok_nstring (se_key s);
  ok_shape_ids : 0 <= id_count s <= UINT_MAX;
  ok_shape_names : Forall ok_name (names_of (se_names s));
  ok_shape_count : Z.of_nat (length (visible (se_names s))) < 2 ^ 32
}.

Definition fmt_shape (s : ShapeEntryT) : format := fmt_seq (fmt_string (n_contents (se_key s))) (fmt_int (id_count s)).

Definition fmt_extern (v : NameKeyT * DirectT) : format := fmt_seq (fmt_int (id v.2)) (fmt_name v.1).

Definition fmt_externs (s : ShapeEntryT) : format :=
  fmt_seq (fmt_int (Z.of_nat (length (visible (se_names s))))) (fmt_list fmt_extern (visible (se_names s))).

Definition fmt_use (v : NameKeyT * DirectT) : format := fmt_int (get_use v.2).

Definition fmt_usage (s : ShapeEntryT) : format := fmt_list fmt_use (visible (se_names s)).

Lemma write_visible f (F : NameKeyT * DirectT -> format) t :
  (forall p v, v ∈ names_of t -> name_view t p = Some v ->
     if is_hidden v.2 then f p = wskip else owrites (f p) (F v)) ->
  owrites (iter_write f t) (fmt_list F (visible t)).
Proof.
  intros H. unfold visible. rewrite <- fmt_list_filter. apply iter_write_view. intros p v Hin Hv.
  specialize (H p v Hin Hv). destruct (decide (shown v)) as [E|E]; unfold shown in E.
  - rewrite E in H. exact H.
  - destruct (is_hidden v.2); [|congruence]. rewrite H. apply owrites_skip.
Qed.

Lemma write_shape_ok s : ok_shape s -> non_empty s = true -> owrites (shape_entry_write_shape s) (fmt_shape s).
Proof.
  intros Hs Hn. unfold shape_entry_write_shape. rewrite Hn. apply owrites_some, writes_bind.
  - apply tdf_write_string_ok, Hs.
  - apply tdf_write_int_ok. pose proof (ok_shape_ids s Hs). unfold UINT_MAX, UINT_BITS in *. lia.
Qed.

Lemma write_externs_ok s : ok_shape s -> non_empty s = true -> owrites (shape_entry_write_externs s) (fmt_externs s).
Proof.
  intros Hs Hn. unfold shape_entry_write_externs, fmt_externs. rewrite Hn.
  pose proof (ok_shape_count s Hs). rewrite do_count_names by exact (ok_shape_count s Hs). cbn [mbind option_bind].
  apply owrites_seq; [apply owrites_some, tdf_write_int_ok; lia|].
  apply write_visible. intros p [k d] Hin E.
  pose proof (proj1 (Forall_forall _ _) (ok_shape_names s Hs) (k, d) (proj1 (list_elem_of_In _ _) Hin)) as [Hk Hid].
  apply name_view_inv in E as [Ed Ek]. unfold name_entry_write_name. rewrite Ed, Ek.
  cbn [mbind option_bind fst snd] in *.
  destruct (is_hidden d); [reflexivity|]. apply owrites_some, writes_bind; [|by apply tdf_write_name_ok].
  apply tdf_write_int_ok. cbn. unfold UINT_MAX, UINT_BITS in *. lia.
Qed.

Lemma write_tld_ok s : non_empty s = true -> owrites (shape_entry_write_tld s) (fmt_usage s).
Proof.
  intros Hn. unfold shape_entry_write_tld. rewrite Hn. apply write_visible. intros p [k d] _ E.
  apply name_view_inv in E as [Ed _]. unfold name_entry_write_tld. rewrite Ed. cbn [mbind option_bind snd].
  destruct (is_hidden d); [reflexivity|]. apply owrites_some, tdf_write_int_ok. pose proof (get_use_range d). lia.
Qed.

(** ** The shapes of a table *)

Definition shapes_of (t : ShapeTableT) : list ShapeEntryT := omap (fun p => st_entries t !! p) (shape_table_iter t).

Definition is_live (s : ShapeEntryT) : Prop := non_empty s = true.
#[export] Instance is_live_dec s : Decision (is_live s).
Proof. unfold is_live. apply _. Defined.

(** The shapes that are written, in order. *)
Definition live (t : ShapeTableT) : list ShapeEntryT := filter is_live (shapes_of t).

Definition wf_shapes (t : ShapeTableT) : Prop :=
  wf_chains (st_contents t) /\ NoDup (ht_entries (st_contents t)).*1 /\
  (ht_entries (st_contents t)).*2 ≡ₚ seq 0 (length (st_entries t)) /\
  forall k p, (k, p) ∈ ht_entries (st_contents t) -> se_key <$> st_entries t !! p = Some k.

Lemma shape_table_iter_lookup t p : wf_shapes t -> p ∈ shape_table_iter t -> exists s, st_entries t !! p = Some s.
Proof.
  intros (_ & _ & Hp & _) Hin. unfold shape_table_iter in Hin. rewrite Hp, elem_of_seq in Hin.
  apply lookup_lt_is_Some_2. lia.
Qed.

Lemma shape_iter_write_ok f (F : ShapeEntryT -> format) t :
  wf_shapes t ->
  (forall s, s ∈ shapes_of t -> if non_empty s then owrites (f s) (F s) else f s = wskip) ->
  owrites (shape_iter_write f t) (fmt_list F (live t)).
Proof.
  intros Ht. unfold live. rewrite <- fmt_list_filter. unfold shape_iter_write, shapes_of.
  generalize (fun p => shape_table_iter_lookup t p Ht). generalize (shape_table_iter t) as ps.
  induction ps as [|p ps IH]; intros Hp Hf; [apply owrites_skip|].
  destruct (Hp p) as [s E]; [left|]. cbn [wlist omap list_omap fmt_list foldr] in *. rewrite E in *.
  cbn [fmt_list foldr mbind option_bind]. apply owrites_seq.
  - specialize (Hf s). destruct (decide (is_live s)) as [H|H]; unfold is_live in H.
    + rewrite H in Hf. apply Hf. left.
    + destruct (non_empty s); [congruence|]. rewrite Hf by left. apply owrites_skip.
  - apply IH; [intros q Hq; apply Hp; by right|]. intros x Hx. apply Hf. by right.
Qed.

Definition ok_shapes (t : ShapeTableT) : Prop := wf_shapes t /\ Forall ok_shape (shapes_of t).

Lemma ok_shapes_elem t s : ok_shapes t -> s ∈ shapes_of t -> ok_shape s.
Proof. intros [_ H] Hs. rewrite Forall_forall in H. by apply H, list_elem_of_In. Qed.

Lemma write_shapes_ok t : ok_shapes t -> owrites (shape_iter_write shape_entry_write_shape t) (fmt_list fmt_shape (live t)).
Proof.
  intros Ht. apply shape_iter_write_ok; [apply Ht|]. intros s Hs. destruct (non_empty s) eqn:E.
  - apply write_shape_ok; [by apply (ok_shapes_elem t)|exact E].
  - unfold shape_entry_write_shape. rewrite E. reflexivity.
Qed.

Lemma write_all_externs_ok t :
  ok_shapes t -> owrites (shape_iter_write shape_entry_write_externs t) (fmt_list fmt_externs (live t)).
Proof.
  intros Ht. apply shape_iter_write_ok; [apply Ht|]. intros s Hs. destruct (non_empty s) eqn:E.
  - apply write_externs_ok; [by apply (ok_shapes_elem t)|exact E].
  - unfold shape_entry_write_externs. rewrite E. reflexivity.
Qed.

Lemma write_all_tld_ok t :
  wf_shapes t -> owrites (shape_iter_write shape_entry_write_tld t) (fmt_list fmt_usage (live t)).
Proof.
  intros Ht. apply shape_iter_write_ok; [exact Ht|]. intros s Hs. destruct (non_empty s) eqn:E.
  - by apply write_tld_ok.
  - unfold shape_entry_write_tld. rewrite E. reflexivity.
Qed.

(** ** The size of the linker information unit *)

Definition usage_nibbles (t : ShapeTableT) : nat :=
  sum_list_with (fun s => sum_list_with name_nibbles (visible (se_names s))) (live t).

Lemma tld_size_ok t : wf_shapes t -> tld_size t = Some (2 + usage_nibbles t)%nat.
Proof.
  intros Ht. unfold tld_size, usage_nibbles, live, shapes_of. change (tdf_int_size 1 + 1)%nat with 2%nat.
  generalize 2%nat as n. generalize (fun p => shape_table_iter_lookup t p Ht). generalize (shape_table_iter t) as ps.
  induction ps as [|p ps IH]; intros Hp n; [cbn; f_equal; lia|].
  destruct (Hp p) as [s E]; [left|]. cbn [foldl omap list_omap mbind option_bind]. rewrite E. cbn [mbind option_bind].
  unfold shape_entry_compute_tld_size. rewrite filter_cons. rewrite compute_size_names.
  destruct (decide (is_live s)) as [H|H]; unfold is_live in H.
  - rewrite H, IH by (intros q Hq; apply Hp; by right). cbn [sum_list_with]. f_equal. lia.
  - destruct (non_empty s); [congruence|]. apply IH. intros q Hq. apply Hp. by right.
Qed.

Lemma fmt_uses_length l pos : length (fmt_list fmt_use l pos) = (4 * sum_list_with name_nibbles l)%nat.
Proof.
  revert pos. induction l as [|v l IH]; intros pos; [reflexivity|]. cbn [fmt_list foldr sum_list_with].
  unfold fmt_seq. rewrite length_app. change (foldr _ fmt_nil l) with (fmt_list fmt_use l). rewrite IH.
  unfold fmt_use, fmt_int, tdfint_bits, name_nibbles. rewrite length_nibble_bits. lia.
Qed.

Lemma fmt_usages_length l pos :
  length (fmt_list fmt_usage l pos) = (4 * sum_list_with (fun s => sum_list_with name_nibbles (visible (se_names s))) l)%nat.
Proof.
  revert pos. induction l as [|s l IH]; intros pos; [reflexivity|]. cbn [fmt_list foldr sum_list_with].
  unfold fmt_seq. rewrite length_app. change (foldr _ fmt_nil l) with (fmt_list fmt_usage l). rewrite IH.
  unfold fmt_usage. rewrite fmt_uses_length. lia.
Qed.

(** The usages of the names, after the version number. *)
Definition fmt_tld_body (t : ShapeTableT) : format :=
  fmt_seq (fmt_int 1) (fmt_seq (fmt_list fmt_usage (live t)) fmt_align).

Definition tld_bytes (t : ShapeTableT) : nat := ((2 + usage_nibbles t) / 2)%nat.

Definition fmt_tld_unit (t : ShapeTableT) : format :=
  fmt_seq (fmt_int 1) (fmt_seq (fmt_int 0) (fmt_seq (fmt_int 0)
    (fmt_seq (fmt_int (Z.of_nat (tld_bytes t))) (fmt_seq fmt_align (fmt_tld_body t))))).

Lemma tld_body_length t pos : (pos mod 8 = 0)%nat -> length (fmt_tld_body t pos) = (8 * tld_bytes t)%nat.
Proof.
  intros Hpos. unfold fmt_tld_body, fmt_seq. rewrite !length_app, fmt_usages_length. fold (usage_nibbles t).
  change (length (fmt_int 1 pos)) with 4%nat. unfold tld_bytes, fmt_align.
  pose proof (pad_aligned (pos + 4 + 4 * usage_nibbles t)) as Hpad. unfold pad_bits in *.
  rewrite length_replicate in *. set (k := ((8 - (pos + 4 + 4 * usage_nibbles t) mod 8) mod 8)%nat) in *.
  assert (k < 8)%nat by (apply Nat.mod_upper_bound; lia).
  assert ((4 * (1 + usage_nibbles t) + k) mod 8 = 0)%nat as Hm.
  { replace (pos + 4 + 4 * usage_nibbles t + k)%nat with (pos + (4 * (1 + usage_nibbles t) + k))%nat in Hpad by lia.
    rewrite Nat.Div0.add_mod, Hpos, Nat.add_0_l, Nat.Div0.mod_mod in Hpad. exact Hpad. }
  pose proof (Nat.div_mod_eq (4 * (1 + usage_nibbles t) + k) 8).
  pose proof (Nat.div_mod_eq (2 + usage_nibbles t) 2). pose proof (Nat.mod_upper_bound (2 + usage_nibbles t) 2). lia.
Qed.

Lemma write_tld_unit_ok entry t :
  wf_shapes t -> Z.of_nat (tld_bytes t) < 2 ^ 32 -> owrites (unit_entry_write_tld_unit entry t) (fmt_tld_unit t).
Proof.
  intros Ht Hsize. unfold unit_entry_write_tld_unit. rewrite tld_size_ok by exact Ht. cbn [mbind option_bind].
  fold (tld_bytes t). rewrite u32_small by lia.
  assert (fmt_eq (fmt_tld_unit t)
    (fmt_seq (fmt_seq (fmt_int 1) (fmt_seq (fmt_int 0) (fmt_seq (fmt_int 0)
       (fmt_seq (fmt_int (Z.of_nat (tld_bytes t))) (fmt_seq fmt_align (fmt_int 1))))))
       (fmt_seq (fmt_list fmt_usage (live t)) fmt_align))) as ->
    by (unfold fmt_tld_unit, fmt_tld_body; rewrite !fmt_seq_assoc; reflexivity).
  apply owrites_seq; [|apply owrites_seq; [by apply write_all_tld_ok|apply owrites_some, tdf_write_align_ok]].
  apply owrites_some.
  repeat (apply writes_bind; [first [apply tdf_write_align_ok|apply tdf_write_int_ok; lia]|]).
  apply tdf_write_int_ok. lia.
Qed.

(** ** Units *)

Definition map_find (table : MapTableT) (key : NStringT) : option MapEntryT :=
  p ← map_table_get table key; mt_entries table !! p.

Definition map_links (table : MapTableT) (key : NStringT) : list MapLinkT :=
  from_option links [] (map_find table key).

Definition fmt_count (table : MapTableT) (s : ShapeEntryT) : format :=
  fmt_int (from_option count 0 (map_find table (se_key s))).

Definition fmt_link (l : MapLinkT) : format := fmt_seq (fmt_int (internal l)) (fmt_int (external l)).

Definition fmt_links (table : MapTableT) (s : ShapeEntryT) : format :=
  fmt_seq (fmt_int (Z.of_nat (length (map_links table (se_key s)))))
    (fmt_list fmt_link (map_links table (se_key s))).

Definition is_unsigned (v : Z) : Prop := 0 <= v < 2 ^ 32.

Definition ok_link (l : MapLinkT) : Prop := is_unsigned (internal l) /\ is_unsigned (external l).

Definition ok_map_entry (e : MapEntryT) : Prop :=
  is_unsigned (count e) /\ is_unsigned (num_links e) /\ Z.of_nat (length (links e)) = num_links e /\
  Forall ok_link (links e).

Definition ok_map (table : MapTableT) : Prop :=
  Forall ok_map_entry (mt_entries table) /\
  forall k p, map_table_get table k = Some p -> (p < length (mt_entries table))%nat.

Lemma map_find_ok table k p :
  ok_map table -> map_table_get table k = Some p ->
  exists e, mt_entries table !! p = Some e /\ map_find table k = Some e /\ ok_map_entry e.
Proof.
  intros [He Hp] E. destruct (lookup_lt_is_Some_2 _ _ (Hp k p E)) as [e Ee]. exists e.
  unfold map_find. rewrite E. split_and!; auto. exact (Forall_lookup_1 _ _ _ _ He Ee).
Qed.

Lemma write_count_ok table s :
  ok_map table -> non_empty s = true -> owrites (shape_entry_write_count table s) (fmt_count table s).
Proof.
  intros Ht Hn. unfold shape_entry_write_count, fmt_count. rewrite Hn.
  destruct (map_table_get table (se_key s)) as [p|] eqn:E.
  - destruct (map_find_ok table _ p Ht E) as (e & Ee & Ef & He). rewrite Ee, Ef. cbn [fmap option_fmap option_map mbind option_bind from_option].
    apply owrites_some, tdf_write_int_ok, He.
  - unfold map_find. rewrite E. cbn [mbind option_bind from_option]. apply owrites_some, tdf_write_int_ok. lia.
Qed.

Lemma fmt_list_ext {A} (F G : A -> format) l : (forall a, a ∈ l -> fmt_eq (F a) (G a)) -> fmt_eq (fmt_list F l) (fmt_list G l).
Proof.
  induction l as [|a l IH]; intros H; [reflexivity|]. cbn. rewrite (H a) by left.
  rewrite IH; [reflexivity|]. intros b Hb. apply H. by right.
Qed.

Lemma fmt_list_seq {A} (F : A -> format) (l : list A) :
  fmt_eq (fmt_list (fun i => from_option F fmt_nil (l !! i)) (seq 0 (length l))) (fmt_list F l).
Proof.
  assert (l = omap (fun i => l !! i) (seq 0 (length l))) as E.
  { clear. induction l as [|a l IH]; [reflexivity|]. cbn [length seq omap list_omap lookup list_lookup].
    f_equal. rewrite IH at 1. rewrite <- fmap_S_seq. generalize (seq 0 (length l)) as s.
    induction s as [|i s IHs]; [reflexivity|]. cbn. destruct (l !! i); [f_equal|]; exact IHs. }
  transitivity (fmt_list F (omap (fun i => l !! i) (seq 0 (length l)))); [|rewrite <- E; reflexivity].
  generalize (seq 0 (length l)) as s. induction s as [|i s IH]; [reflexivity|].
  cbn [fmt_list foldr omap list_omap]. rewrite IH. destruct (l !! i); cbn; [reflexivity|apply fmt_seq_nil_l].
Qed.

Lemma write_links_ok table s :
  ok_map table -> non_empty s = true -> owrites (shape_entry_write_links table s) (fmt_links table s).
Proof.
  intros Ht Hn. unfold shape_entry_write_links, fmt_links, map_links. rewrite Hn.
  destruct (map_table_get table (se_key s)) as [p|] eqn:E.
  - destruct (map_find_ok table _ p Ht E) as (e & Ee & Ef & (_ & Hnl & Hlen & Hl)). rewrite Ee, Ef.
    cbn [mbind option_bind from_option]. unfold map_entry_get_num_links. rewrite Hlen.
    apply owrites_seq; [by apply owrites_some, tdf_write_int_ok|].
    rewrite <- fmt_list_seq. replace (length (links e)) with (Z.to_nat (num_links e)) by lia.
    apply owrites_list. intros i Hi. apply elem_of_seq in Hi. unfold map_entry_get_link.
    rewrite (proj2 (Z.ltb_lt _ _)) by lia. rewrite Nat2Z.id.
    destruct (lookup_lt_is_Some_2 (links e) i) as [l El]; [lia|]. rewrite El. cbn [mbind option_bind from_option].
    destruct (Forall_lookup_1 _ _ _ _ Hl El). apply owrites_some, writes_bind; by apply tdf_write_int_ok.
  - unfold map_find. rewrite E. cbn [mbind option_bind from_option length fmt_list foldr].
    exists (tdf_write_int 0). split; [reflexivity|]. apply (writes_ext _ (fmt_int 0)).
    + intros pos. unfold fmt_seq, fmt_nil. rewrite app_nil_r. reflexivity.
    + apply tdf_write_int_ok. lia.
Qed.

Definition ok_unit (u : UnitT) : Prop :=
  ok_nstring (u_contents u) /\ match map_table u with Some table => ok_map table | None => True end.

Definition fmt_maps (o : option MapTableT) (t : ShapeTableT) : format :=
  match o with
  | Some table =>
      fmt_seq (fmt_int (Z.of_nat (length (live t)))) (fmt_seq (fmt_list (fmt_count table) (live t))
        (fmt_seq (fmt_int (Z.of_nat (length (live t)))) (fmt_list (fmt_links table) (live t))))
  | None => fmt_seq (fmt_int 0) (fmt_int 0)
  end.

Definition fmt_unit (t : ShapeTableT) (u : UnitT) : format :=
  fmt_seq (fmt_maps (map_table u) t)
    (fmt_seq (fmt_int (Z.of_nat (length (n_contents (u_contents u))))) (fmt_bytes (n_contents (u_contents u)))).

Lemma unit_write_ok u t :
  wf_shapes t -> ok_unit u -> is_unsigned (Z.of_nat (length (live t))) ->
  owrites (unit_write u t (Z.of_nat (length (live t)))) (fmt_unit t u).
Proof.
  intros Ht [[[Hlen Hc] Hl] Hm] Hn. unfold unit_write, fmt_unit. apply owrites_seq.
  - destruct (map_table u) as [table|]; cbn [fmt_maps].
    + apply owrites_seq; [by apply owrites_some, tdf_write_int_ok|]. apply owrites_seq.
      { apply shape_iter_write_ok; [exact Ht|]. intros s Hs. destruct (non_empty s) eqn:E; [by apply write_count_ok|].
        unfold shape_entry_write_count. rewrite E. reflexivity. }
      apply owrites_seq; [by apply owrites_some, tdf_write_int_ok|].
      apply shape_iter_write_ok; [exact Ht|]. intros s Hs. destruct (non_empty s) eqn:E; [by apply write_links_ok|].
      unfold shape_entry_write_links. rewrite E. reflexivity.
    + apply owrites_some, writes_bind; apply tdf_write_int_ok; lia.
  - unfold nstring_length. rewrite u32_small, Hlen by lia.
    apply owrites_some, writes_bind; [apply tdf_write_int_ok; lia|]. by apply tdf_write_bytes_ok.
Qed.

Definition fmt_units (t : ShapeTableT) (entry : UnitEntryT) : format :=
  if decide (ue_units entry = []) then fmt_nil
  else fmt_seq (fmt_int (Z.of_nat (length (ue_units entry)))) (fmt_list (fmt_unit t) (ue_units entry)).

Lemma write_units_ok entry t :
  wf_shapes t -> Forall ok_unit (ue_units entry) -> is_unsigned (Z.of_nat (length (live t))) ->
  is_unsigned (Z.of_nat (length (ue_units entry))) ->
  owrites (unit_entry_write_units entry t (Z.of_nat (length (live t)))) (fmt_units t entry).
Proof.
  intros Ht Hu Hn Hl. unfold unit_entry_write_units, fmt_units. rewrite u32_small by exact Hl.
  case_decide as E; [rewrite E; apply owrites_skip|].
  rewrite (proj2 (Z.ltb_lt _ _)) by (destruct (ue_units entry); [congruence|cbn; lia]).
  apply owrites_seq; [by apply owrites_some, tdf_write_int_ok|]. apply owrites_list. intros u Hin.
  apply unit_write_ok; auto. rewrite Forall_forall in Hu. by apply Hu, list_elem_of_In.
Qed.

(** ** Shape tables are maps *)

Lemma shape_table_create_wf : wf_shapes shape_table_create.
Proof.
  destruct (ht_create_wf (K := NStringT) (A := nat) SHAPE_TABLE_SIZE) as [Hwf _]; [unfold SHAPE_TABLE_SIZE; lia|].
  assert (forall n, ht_entries (K := NStringT) (A := nat) (ht_create n) = []) as E.
  { induction n as [|n IH]; [reflexivity|]. exact IH. }
  unfold wf_shapes. cbn [st_contents st_entries shape_table_create]. rewrite E. split_and!; auto; [constructor|].
  intros k p Hin. inversion Hin.
Qed.

Lemma shape_get_entry t k p :
  wf_shapes t -> wf_nstring k -> shape_table_get t k = Some p <->
  exists s, st_entries t !! p = Some s /\ se_key s = k.
Proof.
  intros (Hc & Hnd & Hp & Hkey) Hk. unfold shape_table_get. rewrite ht_get_iff by auto. split.
  - intros Hin. specialize (Hkey k p Hin). destruct (st_entries t !! p) as [s|]; [|discriminate].
    injection Hkey as <-. eauto.
  - intros (s & E & Es). assert (p ∈ (ht_entries (st_contents t)).*2) as Hin.
    { rewrite Hp, elem_of_seq. apply lookup_lt_Some in E. lia. }
    apply list_elem_of_fmap in Hin as ([k' q] & -> & Hin). cbn in *. specialize (Hkey k' q Hin).
    rewrite E in Hkey. injection Hkey as <-. by rewrite Es in Hin.
Qed.

Lemma shape_table_add_new junk t k :
  wf_shapes t -> wf_nstring k -> shape_table_get t k = None ->
  let p := length (st_entries t) in
  let t' := (shape_table_add junk t k).1 in
  shape_table_add junk t k = (t', p) /\ wf_shapes t' /\ shape_table_get t' k = Some p /\
  st_entries t' = st_entries t ++ [shape_entry_create junk k] /\
  forall k', wf_nstring k' -> k' <> k -> shape_table_get t' k' = shape_table_get t k'.
Proof.
  intros Ht Hk E p. pose proof Ht as (Hc & Hnd & Hp & Hkey). unfold shape_table_add, shape_table_get in *. rewrite E.
  cbn [fst]. assert (se_key (shape_entry_create junk k) = k) as Ek by (cbn; by rewrite nstring_copy_id). rewrite Ek.
  assert (ht_entries (ht_append (st_contents t) k p) ≡ₚ (k, p) :: ht_entries (st_contents t)) as Hent
    by (apply ht_entries_append, Hc).
  cbn [st_contents st_entries]. split; [reflexivity|]. split.
  - unfold wf_shapes. cbn [st_contents st_entries]. split_and!.
    + by apply ht_append_wf.
    + fold p. rewrite Hent. cbn. apply NoDup_cons_2; [|exact Hnd]. by apply ht_get_None.
    + fold p. rewrite Hent. cbn. rewrite Hp, length_app. cbn [length]. rewrite Nat.add_1_r, seq_S. cbn.
      apply Permutation_cons_append.
    + intros k' q Hin. fold p in Hin. rewrite Hent, elem_of_cons in Hin. destruct Hin as [[= -> ->]|Hin].
      * unfold p. rewrite lookup_app_r, Nat.sub_diag by lia. cbn. by rewrite nstring_copy_id.
      * specialize (Hkey k' q Hin). destruct (st_entries t !! q) eqn:Eq; [|discriminate].
        rewrite (lookup_app_l_Some _ _ _ _ Eq). exact Hkey.
  - split; [|split; [reflexivity|]].
    + rewrite ht_get_append, decide_True by auto. reflexivity.
    + intros k' Hk' Hne. rewrite ht_get_append, decide_False by auto. reflexivity.
Qed.

(** Changing a shape through its pointer. *)
Lemma set_shape_wf t p s s' :
  wf_shapes t -> st_entries t !! p = Some s -> se_key s' = se_key s -> wf_shapes (set_shape t p s').
Proof.
  intros (Hc & Hnd & Hp & Hk) E Ek. unfold wf_shapes. cbn [st_contents st_entries set_shape]. rewrite length_insert.
  split_and!; auto. intros k q Hin. specialize (Hk k q Hin). destruct (decide (p = q)) as [<-|Hne].
  - rewrite list_lookup_insert_eq by (by eapply lookup_lt_Some). rewrite E in Hk. cbn in *. congruence.
  - rewrite list_lookup_insert_ne by exact Hne. exact Hk.
Qed.

(** Decidability of what fits a capsule, for concrete tables. *)
#[export] Instance ok_nstring_dec s : Decision (ok_nstring s).
Proof. unfold ok_nstring. apply _. Defined.
#[export] Instance ok_key_dec k : Decision (ok_key k).
Proof. destruct k; cbn; apply _. Defined.
#[export] Instance ok_name_dec v : Decision (ok_name v).
Proof. unfold ok_name. apply _. Defined.
#[export] Instance ok_shape_dec s : Decision (ok_shape s).
Proof.
  assert (Decision (ok_nstring (se_key s) /\ 0 <= id_count s <= UINT_MAX /\
    Forall ok_name (names_of (se_names s)) /\ Z.of_nat (length (visible (se_names s))) < 2 ^ 32)) as [H|H] by apply _.
  - left. constructor; apply H.
  - right. intros [? ? ? ?]. apply H. auto.
Defined.
#[export] Instance is_unsigned_dec v : Decision (is_unsigned v).
Proof. unfold is_unsigned. apply _. Defined.
#[export] Instance ok_link_dec l : Decision (ok_link l).
Proof. unfold ok_link. apply _. Defined.
#[export] Instance ok_map_entry_dec e : Decision (ok_map_entry e).
Proof. unfold ok_map_entry. apply _. Defined.

(** A shape table is a finite map from names to shapes: [shape_table_add]
    returns the shape of the name, and makes a new one, with no name and no
    identifier, exactly when there is none; no other name is affected. *)
Theorem shape_table_is_map junk t k :
  wf_shapes t -> wf_nstring k ->
  let '(t', p) := shape_table_add junk t k in
  wf_shapes t' /\ shape_table_get t' k = Some p /\
  (exists s, st_entries t' !! p = Some s /\ se_key s = k) /\
  (forall k', wf_nstring k' -> k' <> k -> shape_table_get t' k' = shape_table_get t k') /\
  match shape_table_get t k with
  | Some q => t' = t /\ p = q
  | None => st_entries t' = st_entries t ++ [shape_entry_create junk k]
  end.
Proof.
  intros Ht Hk. destruct (shape_table_get t k) as [q|] eqn:E.
  - pose proof (proj1 (shape_get_entry t k q Ht Hk) E) as Hs. unfold shape_table_add, shape_table_get in *.
    rewrite E. split_and!; auto.
  - pose proof (shape_table_add_new junk t k Ht Hk E) as (Ea & Ht' & Hg & He & Ho). rewrite Ea.
    split_and!; auto. by apply shape_get_entry.
Qed.

(** The linker information unit declares its size exactly: the unit
    written starts with the number of bytes its body has, whatever the names
    and their usages. *)
Theorem tld_unit_size_exact entry t :
  wf_shapes t -> Z.of_nat (tld_bytes t) < 2 ^ 32 ->
  exists m, unit_entry_write_tld_unit entry t = Some m /\ writes m
    (fmt_seq (fmt_int 1) (fmt_seq (fmt_int 0) (fmt_seq (fmt_int 0)
      (fmt_seq (fmt_int (Z.of_nat (tld_bytes t))) (fmt_seq fmt_align (fmt_tld_body t)))))) /\
  forall pos, (pos mod 8 = 0)%nat -> length (fmt_tld_body t pos) = (8 * tld_bytes t)%nat.
Proof.
  intros Ht Hs. destruct (write_tld_unit_ok entry t Ht Hs) as (m & E & Hm). exists m.
  split; [exact E|]. split; [exact Hm|]. intros pos. apply tld_body_length.
Qed.

(** ** An example *)

(** A shape with three names: one used, one hidden, one with a long usage. *)
Definition ex_tag : NStringT := NString 3 [116; 97; 103].
Definition ex_names : NameTableT :=
  NameTable (ht_append (ht_append (ht_append (ht_create NAME_TABLE_SIZE) (KT_STRING ex_tag) 0%nat)
               (KT_STRING (NString 1 [97])) 1%nat) (KT_UNIQUE [ex_tag; NString 0 []]) 2%nat)
    [NameEntry (KT_STRING ex_tag) (NT_DIRECT (Direct 0 7 None None));
     NameEntry (KT_STRING (NString 1 [97])) (NT_DIRECT (Direct 1 22 None None));
     NameEntry (KT_UNIQUE [ex_tag; NString 0 []]) (NT_DIRECT (Direct 2 10 None None))].
Definition ex_entry : ShapeEntryT := ShapeEntry ex_tag ex_names 3 true [0%nat; 1%nat; 2%nat] 0.
Definition ex_shapes : ShapeTableT :=
  set_shape (shape_table_add (fun _ => 0) shape_table_create ex_tag).1 0 ex_entry.

Lemma ex_tag_wf : wf_nstring ex_tag.
Proof. apply (bool_decide_eq_true_1 _). vm_compute. reflexivity. Qed.

Lemma ex_shapes_wf : wf_shapes ex_shapes.
Proof.
  destruct (shape_table_add_new (fun _ => 0) shape_table_create ex_tag shape_table_create_wf ex_tag_wf eq_refl)
    as (_ & Hwf & _).
  by eapply (set_shape_wf _ 0); [exact Hwf|reflexivity|].
Qed.

Lemma shape_table_is_map_witness :
  let '(t', p) := shape_table_add (fun _ => 0) ex_shapes token_name in
  wf_shapes t' /\ shape_table_get t' token_name = Some p.
Proof.
  pose proof (shape_table_is_map (fun _ => 0) ex_shapes token_name ex_shapes_wf
    (bool_decide_eq_true_1 (wf_nstring token_name) eq_refl)) as H.
  destruct (shape_table_add (fun _ => 0) ex_shapes token_name) as [t' p]. destruct H as (Hwf & Hget & _).
  split; [exact Hwf|exact Hget].
Defined.

Lemma tld_unit_size_exact_witness :
  exists m, unit_entry_write_tld_unit (UnitEntry ex_tag 0 []) ex_shapes = Some m /\ writes m
    (fmt_seq (fmt_int 1) (fmt_seq (fmt_int 0) (fmt_seq (fmt_int 0)
      (fmt_seq (fmt_int (Z.of_nat (tld_bytes ex_shapes))) (fmt_seq fmt_align (fmt_tld_body ex_shapes)))))) /\
  forall pos, (pos mod 8 = 0)%nat -> length (fmt_tld_body ex_shapes pos) = (8 * tld_bytes ex_shapes)%nat.
Proof.
  apply (tld_unit_size_exact (UnitEntry ex_tag 0 []) ex_shapes ex_shapes_wf). vm_compute. reflexivity.
Defined.
