(* ===== verification/TldCapsule.v ===== *)
(** * TldCapsule: reading and writing capsules

    Models tld/src/adt/capsule.c: the static state of the file, the reader of
    a capsule into the unit and shape tables of the linker, and the writer of
    the linked capsule. An exception is a value ([XX_capsule_error], or one of
    the TDF reader); [Stop] is the end of the program: identifiers running out,
    a failed assertion or the use of a null pointer. The text of the
    diagnostics is not modelled, but the serious errors are counted: the
    twentieth ends the program. The file of unit sets, which
    replaces the default ones, is read in TldUnitFile. *)
From stdpp Require Import base list list_numbers numbers.
From Stdlib Require Import ZArith Lia String Ascii.
From S2P Require Import Prelude Codec ExdsString ExdsError TldNameKey TldIO HashTable TldNames TldShapes.

(** The bytes of a string constant. *)
Definition chars (s : string) : list Z := map (fun c => Z.of_N (N_of_ascii c)) (list_ascii_of_string s).

Definition nstring_const (s : string) : NStringT := NString (String.length s) (chars s).

Definition MAGIC_NUMBER : string := "TDFC".

Definition NUM_DEFAULT_UNIT_SETS : nat := 12.

Definition capsule_default_unit_set_names : list string :=
  ["tld"; "tld2"; "versions"; "tokdec"; "tokdef"; "aldef"; "diagtype"; "tagdec"; "diagdef"; "dgcompunit";
   "tagdef"; "linkinfo"]%string.

Record UnitSetT := UnitSet { us_name : NStringT; us_entry : option nat }.

(** The static variables; [None] for the index of [tld2] is [UINT_MAX]. *)
Record StaticsT := Statics {
  capsule_unit_sets : option (list UnitSetT);
  capsule_tld_index : nat;
  capsule_tld2_index : option nat;
  capsule_major_version : Z;
  capsule_minor_version : Z;
  need_setup : bool
}.

Definition initial_statics : StaticsT := Statics None 0 (Some 1%nat) 0 0 true.

Record ShapeDataT := ShapeData { sd_entry : nat; sd_num_ids : Z; sd_id_maps : list Z }.

Definition capsule_magic : NStringT := nstring_const MAGIC_NUMBER.

Section Capsule.
Variable junk : nat -> Z.
Variable junk_nstring : nat -> NStringT.

Definition capsule_setup_defaults (g : StaticsT) : StaticsT :=
  match capsule_unit_sets g with
  | Some _ => g
  | None =>
      Statics (Some (map (fun s => UnitSet (nstring_copy_cstring junk (chars s)) None) capsule_default_unit_set_names))
        (capsule_tld_index g) (capsule_tld2_index g) (capsule_major_version g) (capsule_minor_version g) (need_setup g)
  end.

(** The unit sets from number [i] on get their entries. *)
Fixpoint setup_loop (sets : list UnitSetT) (i : Z) (units : UnitTableT) : list UnitSetT * UnitTableT :=
  match sets with
  | [] => ([], units)
  | u :: sets =>
      let '(units, p) := unit_table_add junk units (us_name u) i in
      let '(sets, units) := setup_loop sets (i + 1) units in
      (UnitSet (us_name u) (Some p) :: sets, units)
  end.

Definition capsule_setup (g : StaticsT) (units : UnitTableT) : StaticsT * UnitTableT :=
  if need_setup g then
    let g := capsule_setup_defaults g in
    let '(sets, units) := setup_loop (default [] (capsule_unit_sets g)) 0 units in
    (Statics (Some sets) (capsule_tld_index g) (capsule_tld2_index g) (capsule_major_version g)
       (capsule_minor_version g) false, units)
  else (g, units).

(** [capsule_unit_sets[i].entry]. *)
Definition set_entry (g : StaticsT) (i : nat) : option nat :=
  sets ← capsule_unit_sets g; u ← sets !! i; us_entry u.

Definition tld_entry_of (g : StaticsT) : option nat := set_entry g (capsule_tld_index g).

Definition tld2_entry_of (g : StaticsT) : option nat := i ← capsule_tld2_index g; set_entry g i.

(** ** Writing *)

Definition capsule_write_header (g : StaticsT) : option (writer unit) :=
  if 4 <=? capsule_major_version g then
    Some (_ ← tdf_write_bytes capsule_magic;
          _ ← tdf_write_int (capsule_major_version g);
          _ ← tdf_write_int (capsule_minor_version g);
          tdf_write_align)
  else None.

(** [unit_table_iter] with [unit_entry_do_count]. *)
Fixpoint count_unit_sets (units : UnitTableT) (ps : list nat) (n : Z) (shapes : ShapeTableT)
  : option (Z * ShapeTableT) :=
  match ps with
  | [] => Some (n, shapes)
  | p :: ps =>
      entry ← ut_entries units !! p;
      '(n, shapes) ← unit_entry_do_count entry n shapes;
      count_unit_sets units ps n shapes
  end.

(** The entry of a unit set, with whether it is the one of [tld]. *)
Definition set_entries (g : StaticsT) (units : UnitTableT) : option (list (UnitEntryT * bool)) :=
  sets ← capsule_unit_sets g;
  mapM (fun u => p ← us_entry u; e ← ut_entries units !! p;
          Some (e, bool_decide (us_entry u = tld_entry_of g))) sets.

(** The tables the counting leaves, and the writing. *)
Definition capsule_write (g : StaticsT) (units : UnitTableT) (shapes : ShapeTableT)
  : option (ShapeTableT * writer unit) :=
  sets ← set_entries g units;
  '(num_unit_sets, shapes) ← count_unit_sets units (unit_table_iter units) 1 shapes;
  '(shapes, num_shapes) ← shape_iter shape_entry_do_count (shape_table_iter shapes) shapes 0;
  m ← wseq (capsule_write_header g)
       (wseq (Some (tdf_write_int num_unit_sets))
         (wseq (wlist (fun '(e, is_tld) => unit_entry_write_unit_set e is_tld) sets)
           (wseq (Some (tdf_write_int num_shapes))
             (wseq (shape_iter_write shape_entry_write_shape shapes)
               (wseq (Some (tdf_write_int num_shapes))
                 (wseq (shape_iter_write shape_entry_write_externs shapes)
                   (wseq (Some (tdf_write_int num_unit_sets))
                     (wlist (fun '(e, is_tld) =>
                        if (is_tld : bool) then unit_entry_write_tld_unit e shapes
                        else unit_entry_write_units e shapes num_shapes) sets))))))));
  Some (shapes, m).

(** ** Reading *)

(** [XX_library_error] is the one of library.c; [Exit] is the exit of a front
    end, the errors having been reported, and [Fatal_error] the exit of
    [error] after the message of a fatal error. *)
Inductive capsule_exn := XX_capsule_error | XX_library_error | XX_tdf (e : exn) | Exit | Fatal_error | Stop.

(** [l_errors]: the errors reported so far. *)
Record LinkT := Link {
  l_reader : TDFReaderT;
  l_statics : StaticsT;
  l_units : UnitTableT;
  l_shapes : ShapeTableT;
  l_errors : ReportsT
}.

(** A serious error has been reported. *)
Definition l_serious (l : LinkT) : bool := any_error (l_errors l).

Definition link := stM LinkT capsule_exn.

Definition with_errors (e : ReportsT) (l : LinkT) : LinkT := Link (l_reader l) (l_statics l) (l_units l) (l_shapes l) e.

(** [error(ERR_SERIOUS, ...)], followed or not by [THROW]. *)
Definition serious : link unit := fun l =>
  let '(e, ends) := serious_error (l_errors l) in
  (with_errors e l, if ends then Throw Fatal_error else Ok tt).

(** [n] times. *)
Fixpoint serious_times (n : nat) : link unit :=
  match n with O => mret tt | S n => _ ← serious; serious_times n end.

(** The reader reports an error before it throws [XX_tdf_read_error]. *)
Definition rd {A} (m : reader A) : link A := fun l =>
  let '(r, x) := m (l_reader l) in
  let l := Link r (l_statics l) (l_units l) (l_shapes l) (l_errors l) in
  match x with
  | Ok a => (l, Ok a)
  | Throw XX_tdf_read_error => (_ ← serious; st_throw (XX_tdf XX_tdf_read_error)) l
  | Throw e => (l, Throw (XX_tdf e))
  end.

Definition set_statics (g : StaticsT) : link unit := fun l =>
  (Link (l_reader l) g (l_units l) (l_shapes l) (l_errors l), Ok tt).

Definition put_units (units : UnitTableT) : link unit := fun l =>
  (Link (l_reader l) (l_statics l) units (l_shapes l) (l_errors l), Ok tt).

Definition put_shapes (shapes : ShapeTableT) : link unit := fun l =>
  (Link (l_reader l) (l_statics l) (l_units l) shapes (l_errors l), Ok tt).

Definition fail {A} : link A := _ ← serious; st_throw XX_capsule_error.

(** A value the program needs to go on. *)
Definition need {A} (o : option A) : link A :=
  match o with Some a => mret a | None => st_throw Stop end.

Definition get_shape (p : nat) : link ShapeEntryT := l ← st_get; need (st_entries (l_shapes l) !! p).

Definition put_shape (p : nat) (s : ShapeEntryT) : link unit := l ← st_get; put_shapes (set_shape (l_shapes l) p s).

Definition get_unit_entry (p : nat) : link UnitEntryT := l ← st_get; need (ut_entries (l_units l) !! p).

Definition put_unit_entry (p : nat) (e : UnitEntryT) : link unit :=
  l ← st_get; put_units (UnitTable (ut_contents (l_units l)) (<[p := e]> (ut_entries (l_units l)))).

Definition capsule_read_header : link unit :=
  magic ← rd (tdf_read_bytes (nstring_init_length junk 4));
  if negb (nstring_equal magic capsule_magic) then fail
  else
    major ← rd tdf_read_int;
    minor ← rd tdf_read_int;
    l ← st_get;
    let g := l_statics l in
    let set major minor :=
      set_statics (Statics (capsule_unit_sets g) (capsule_tld_index g) (capsule_tld2_index g) major minor (need_setup g)) in
    _ ← (if major <? 4 then fail
         else if capsule_major_version g =? 0 then set major minor
         else if negb (capsule_major_version g =? major) then fail
         else if capsule_minor_version g <? minor then set (capsule_major_version g) minor
         else mret tt);
    rd tdf_read_align.

(** The unit set [entry] repeats or precedes one of [units_vec]. *)
Definition misplaced (units : UnitTableT) (entry : nat) (units_vec : list nat) : bool :=
  existsb (fun v => (entry =? v)%nat ||
    (from_option order 0 (ut_entries units !! entry) <? from_option order 0 (ut_entries units !! v))) units_vec.

Fixpoint unit_set_names_loop (n : nat) (units_vec : list nat) (has_tld_unit : bool) : link (list nat) :=
  match n with
  | O => mret units_vec
  | S n =>
      nstring ← rd (tdf_read_string junk);
      l ← st_get;
      match unit_table_get (l_units l) nstring with
      | None => fail
      | Some entry =>
          if misplaced (l_units l) entry units_vec then fail
          else
            let is_tld := bool_decide (Some entry = tld_entry_of (l_statics l)) in
            let is_tld2 := bool_decide (Some entry = tld2_entry_of (l_statics l)) in
            _ ← (if is_tld2 then serious else mret tt);
            if (is_tld || is_tld2) && has_tld_unit then fail
            else unit_set_names_loop n (units_vec ++ [entry]) (has_tld_unit || is_tld || is_tld2)
      end
  end.

Definition capsule_read_unit_set_names : link (list nat) :=
  num_unit_sets ← rd tdf_read_int;
  unit_set_names_loop (Z.to_nat num_unit_sets) [] false.

Fixpoint read_shapes_loop (n : nat) (shapes_vec : list ShapeDataT) : link (list ShapeDataT) :=
  match n with
  | O => mret shapes_vec
  | S n =>
      nstring ← rd (tdf_read_string junk);
      num_ids ← rd tdf_read_int;
      l ← st_get;
      let '(shapes, entry) := shape_table_add junk (l_shapes l) nstring in
      _ ← put_shapes shapes;
      if existsb (fun d => (entry =? sd_entry d)%nat) shapes_vec then fail
      else read_shapes_loop n
             (shapes_vec ++ [ShapeData entry num_ids (replicate (Z.to_nat num_ids) UINT_MAX)])
  end.

Definition capsule_read_shapes : link (list ShapeDataT) :=
  num_shapes ← rd tdf_read_int;
  read_shapes_loop (Z.to_nat num_shapes) [].

Fixpoint external_names_loop (n : nat) (shape : ShapeDataT) (names_vec : list nat) : link (ShapeDataT * list nat) :=
  match n with
  | O => mret (shape, names_vec)
  | S n =>
      i ← rd tdf_read_int;
      name ← rd (tdf_read_name junk junk_nstring);
      if sd_num_ids shape <=? i then fail
      else
        s ← get_shape (sd_entry shape);
        '(s, name_entry) ← need (name_table_add junk s name);
        _ ← put_shape (sd_entry shape) s;
        old ← need (sd_id_maps shape !! Z.to_nat i);
        if negb (old =? UINT_MAX) then fail
        else
          d ← need (get_direct (se_names s) name_entry);
          external_names_loop n
            (ShapeData (sd_entry shape) (sd_num_ids shape) (<[Z.to_nat i := id d]> (sd_id_maps shape)))
            (names_vec ++ [name_entry])
  end.

Definition capsule_read_external_names_1 (shape : ShapeDataT) : link (ShapeDataT * list nat) :=
  num_this_shape ← rd tdf_read_int;
  external_names_loop (Z.to_nat num_this_shape) shape [].

Fixpoint external_names_shapes (shapes_vec : list ShapeDataT) : link (list ShapeDataT * list (list nat)) :=
  match shapes_vec with
  | [] => mret ([], [])
  | shape :: shapes_vec =>
      '(shape, names) ← capsule_read_external_names_1 shape;
      '(shapes_vec, names_vec_vec) ← external_names_shapes shapes_vec;
      mret (shape :: shapes_vec, names :: names_vec_vec)
  end.

Definition capsule_read_external_names (shapes_vec : list ShapeDataT)
  : link (list ShapeDataT * list (list nat)) :=
  num_names ← rd tdf_read_int;
  if negb (num_names =? Z.of_nat (List.length shapes_vec)) then fail else external_names_shapes shapes_vec.

(** The position of the shape in the vector; [None] is [UINT_MAX]. *)
Fixpoint shape_index (entry : option nat) (shapes_vec : list ShapeDataT) : option nat :=
  match shapes_vec with
  | [] => None
  | d :: shapes_vec =>
      if decide (Some (sd_entry d) = entry) then Some O else S <$> shape_index entry shapes_vec
  end.

Definition capsule_get_token_index (shapes_vec : list ShapeDataT) : link (option nat) :=
  l ← st_get;
  let '(shapes, entry) := shape_table_get_token_entry (l_shapes l) in
  _ ← put_shapes shapes;
  mret (shape_index entry shapes_vec).

Definition capsule_get_tag_index (shapes_vec : list ShapeDataT) : link (option nat) :=
  l ← st_get;
  let '(shapes, entry) := shape_table_get_tag_entry (l_shapes l) in
  _ ← put_shapes shapes;
  mret (shape_index entry shapes_vec).

Definition has (u bits : Z) : bool := negb (Z.land u bits =? 0).

(** A usage the capsule may not give to a name. *)
Definition bad_usage (use : Z) (need_dec no_mult : bool) : bool :=
  has use (u32 (Z.lnot (Z.lor (Z.lor (Z.lor U_USED U_DECD) U_DEFD) U_MULT))) ||
  (no_mult && has use U_MULT) ||
  (need_dec && ((Z.land use (Z.lor U_DEFD U_DECD) =? U_DEFD) || (Z.land use (Z.lor U_MULT U_DECD) =? U_MULT))).

(** What the usage does to the definition of a name with usage [name_use]. *)
Inductive usage_action := Redefined | Forget | Define | Nothing.

Definition usage_of (use name_use : Z) : usage_action :=
  if has use U_DEFD && has name_use U_DEFD then Redefined
  else if has use U_MULT && has name_use U_MULT && negb (has use U_DEFD) && negb (has name_use U_DEFD) then Forget
  else if has use U_DEFD || (has use U_MULT && negb (has name_use (Z.lor U_MULT U_DEFD))) then Define
  else Nothing.

(** The name [p] of the table [t] gets the usage [use] from [capsule], a
    capsule known by its number; [true] when the name had a definition already,
    which is an error whose report needs the name of that definition. *)
Definition merge_usage (capsule : nat) (t : NameTableT) (p : nat) (use : Z) : option (NameTableT * bool) :=
  name_use ← name_entry_get_use t p;
  '(t, again) ← match usage_of use name_use with
                | Redefined => d ← get_direct t p; _ ← definition d; Some (t, true)
                | Forget => t ← name_entry_set_definition t p None; Some (t, false)
                | Define => t ← name_entry_set_definition t p (Some capsule); Some (t, false)
                | Nothing => Some (t, false)
                end;
  t ← name_entry_merge_use t p use;
  Some (t, again).

Fixpoint capsule_read_usage (capsule entry : nat) (names_vec : list nat) (need_dec no_mult : bool) : link unit :=
  match names_vec with
  | [] => mret tt
  | p :: names_vec =>
      use ← rd tdf_read_int;
      s ← get_shape entry;
      if bad_usage use need_dec no_mult then fail
      else
        '(t, again) ← need (merge_usage capsule (se_names s) p use);
        _ ← (if (again : bool) then serious else mret tt);
        _ ← put_shape entry (set_names s t);
        capsule_read_usage capsule entry names_vec need_dec no_mult
  end.

Definition read_usage_at (capsule : nat) (shapes_vec : list ShapeDataT) (names_vec_vec : list (list nat))
    (i : option nat) (need_dec no_mult : bool) : link unit :=
  match i with
  | None => mret tt
  | Some i =>
      d ← need (shapes_vec !! i);
      names ← need (names_vec_vec !! i);
      capsule_read_usage capsule (sd_entry d) names need_dec no_mult
  end.

Definition capsule_read_tld_type_0_unit (capsule : nat) (shapes_vec : list ShapeDataT)
    (names_vec_vec : list (list nat)) : link unit :=
  i ← capsule_get_token_index shapes_vec;
  _ ← read_usage_at capsule shapes_vec names_vec_vec i false true;
  i ← capsule_get_tag_index shapes_vec;
  read_usage_at capsule shapes_vec names_vec_vec i true false.

Fixpoint read_usages (capsule : nat) (shapes_vec : list ShapeDataT) (names_vec_vec : list (list nat)) (i : nat)
    (tag token : option nat) : link unit :=
  match shapes_vec, names_vec_vec with
  | d :: shapes_vec, names :: names_vec_vec =>
      _ ← capsule_read_usage capsule (sd_entry d) names (bool_decide (Some i = tag)) (bool_decide (Some i = token));
      read_usages capsule shapes_vec names_vec_vec (S i) tag token
  | _, _ => mret tt
  end.

Definition capsule_read_tld_type_1_unit (capsule : nat) (shapes_vec : list ShapeDataT)
    (names_vec_vec : list (list nat)) : link unit :=
  token ← capsule_get_token_index shapes_vec;
  tag ← capsule_get_tag_index shapes_vec;
  read_usages capsule shapes_vec names_vec_vec 0 tag token.

(** The length of the unit and where it starts. *)
Definition capsule_read_tld_unit_header : link (nat * nat) :=
  n ← rd tdf_read_int;
  if negb (n =? 1) then fail
  else
    n ← rd tdf_read_int;
    if negb (n =? 0) then fail
    else
      n ← rd tdf_read_int;
      if negb (n =? 0) then fail
      else
        capsule_unit_length ← rd tdf_read_int;
        _ ← rd tdf_read_align;
        l ← st_get;
        mret (Z.to_nat capsule_unit_length, tdf_reader_byte (l_reader l)).

Definition capsule_read_tld_unit_trailer (unit_length unit_offset : nat) : link unit :=
  l ← st_get;
  let offset := tdf_reader_byte (l_reader l) in
  let correct := (unit_offset + unit_length)%nat in
  _ ← rd tdf_read_align;
  if negb (correct =? offset)%nat then fail else mret tt.

Definition capsule_read_tld2_units (capsule : nat) (shapes_vec : list ShapeDataT)
    (names_vec_vec : list (list nat)) : link unit :=
  '(unit_length, unit_offset) ← capsule_read_tld_unit_header;
  _ ← capsule_read_tld_type_0_unit capsule shapes_vec names_vec_vec;
  capsule_read_tld_unit_trailer unit_length unit_offset.

Definition capsule_read_tld_units (capsule : nat) (shapes_vec : list ShapeDataT)
    (names_vec_vec : list (list nat)) : link unit :=
  '(unit_length, unit_offset) ← capsule_read_tld_unit_header;
  unit_type ← rd tdf_read_int;
  _ ← (if unit_type =? 0 then capsule_read_tld_type_0_unit capsule shapes_vec names_vec_vec
       else if unit_type =? 1 then capsule_read_tld_type_1_unit capsule shapes_vec names_vec_vec
       else fail);
  capsule_read_tld_unit_trailer unit_length unit_offset.

(** ** Units *)

(** The unit number [i] of the entry [p]. *)
Definition update_unit (p i : nat) (f : UnitT -> option UnitT) : link unit :=
  e ← get_unit_entry p;
  u ← need (ue_units e !! i);
  u ← need (f u);
  put_unit_entry p (UnitEntry (ue_key e) (order e) (<[i := u]> (ue_units e))).

Definition update_map (f : MapTableT -> option MapTableT) (u : UnitT) : option UnitT :=
  t ← map_table u; t ← f t; Some (UnitOf (Some t) (u_contents u)).

Definition update_map_entry (m : nat) (f : MapEntryT -> option MapEntryT) (t : MapTableT) : option MapTableT :=
  e ← mt_entries t !! m; e ← f e; Some (MapTable (mt_contents t) (<[m := e]> (mt_entries t))).

(** The entries of the map table of a unit, which starts empty, are numbered
    in the order of the shapes. *)
Fixpoint unit_counts_loop (p i : nat) (shapes_vec : list ShapeDataT) : link unit :=
  match shapes_vec with
  | [] => mret tt
  | d :: shapes_vec =>
      count ← rd tdf_read_int;
      s ← get_shape (sd_entry d);
      _ ← update_unit p i (update_map (fun t => Some (map_table_add junk t (se_key s) count).1));
      unit_counts_loop p i shapes_vec
  end.

Definition capsule_read_unit_counts (shapes_vec : list ShapeDataT) (num_counts : Z) (p i : nat) : link unit :=
  if negb (num_counts =? 0) && negb (num_counts =? Z.of_nat (List.length shapes_vec)) then fail
  else if negb (num_counts =? 0) then unit_counts_loop p i shapes_vec
  else mret tt.

Fixpoint unit_links_loop (n : nat) (j : Z) (p i m : nat) (d : ShapeDataT) : link ShapeDataT :=
  match n with
  | O => mret d
  | S n =>
      internal ← rd tdf_read_int;
      external ← rd tdf_read_int;
      if sd_num_ids d <=? external then fail
      else
        old ← need (sd_id_maps d !! Z.to_nat external);
        d ← (if old =? UINT_MAX then
               s ← get_shape (sd_entry d);
               '(id, s) ← need (shape_entry_next_id s);
               _ ← put_shape (sd_entry d) s;
               mret (ShapeData (sd_entry d) (sd_num_ids d) (<[Z.to_nat external := id]> (sd_id_maps d)))
             else mret d);
        external ← need (sd_id_maps d !! Z.to_nat external);
        _ ← update_unit p i (update_map (update_map_entry m (fun e => map_entry_set_link e j internal external)));
        unit_links_loop n (j + 1) p i m d
  end.

Fixpoint unit_maps_loop (p i m : nat) (shapes_vec : list ShapeDataT) : link (list ShapeDataT) :=
  match shapes_vec with
  | [] => mret []
  | d :: shapes_vec =>
      num_links ← rd tdf_read_int;
      _ ← update_unit p i (update_map (update_map_entry m (fun e => Some (map_entry_set_num_links e num_links))));
      d ← unit_links_loop (Z.to_nat num_links) 0 p i m d;
      shapes_vec ← unit_maps_loop p i (S m) shapes_vec;
      mret (d :: shapes_vec)
  end.

Definition capsule_read_unit_maps (num_counts : Z) (shapes_vec : list ShapeDataT) (p i : nat)
  : link (list ShapeDataT) :=
  num_link_shapes ← rd tdf_read_int;
  if negb (num_link_shapes =? num_counts) then fail
  else if num_link_shapes =? 0 then mret shapes_vec
  else unit_maps_loop p i 0 shapes_vec.

Definition capsule_read_unit (shapes_vec : list ShapeDataT) (p : nat) : link (list ShapeDataT) :=
  num_counts ← rd tdf_read_int;
  e ← get_unit_entry p;
  let i := List.length (ue_units e) in
  _ ← put_unit_entry p (unit_entry_add_unit e num_counts);
  _ ← capsule_read_unit_counts shapes_vec num_counts p i;
  shapes_vec ← capsule_read_unit_maps num_counts shapes_vec p i;
  size ← rd tdf_read_int;
  nstring ← rd (tdf_read_bytes (nstring_init_length junk (Z.to_nat size)));
  _ ← update_unit p i (fun u => Some (unit_set_contents u nstring));
  mret shapes_vec.

Fixpoint read_units_loop (n : nat) (shapes_vec : list ShapeDataT) (p : nat) : link (list ShapeDataT) :=
  match n with
  | O => mret shapes_vec
  | S n => shapes_vec ← capsule_read_unit shapes_vec p; read_units_loop n shapes_vec p
  end.

Definition capsule_read_units (shapes_vec : list ShapeDataT) (p : nat) : link (list ShapeDataT) :=
  num_units ← rd tdf_read_int;
  read_units_loop (Z.to_nat num_units) shapes_vec p.

Fixpoint unit_sets_loop (capsule : nat) (units_vec : list nat) (shapes_vec : list ShapeDataT)
    (names_vec_vec : list (list nat)) : link unit :=
  match units_vec with
  | [] => mret tt
  | p :: units_vec =>
      l ← st_get;
      shapes_vec ←
        (if decide (Some p = tld_entry_of (l_statics l)) then
           _ ← capsule_read_tld_units capsule shapes_vec names_vec_vec; mret shapes_vec
         else if decide (Some p = tld2_entry_of (l_statics l)) then
           _ ← capsule_read_tld2_units capsule shapes_vec names_vec_vec; mret shapes_vec
         else capsule_read_units shapes_vec p);
      unit_sets_loop capsule units_vec shapes_vec names_vec_vec
  end.

Definition capsule_read_unit_sets (capsule : nat) (units_vec : list nat) (shapes_vec : list ShapeDataT)
    (names_vec_vec : list (list nat)) : link unit :=
  num_units ← rd tdf_read_int;
  if negb (num_units =? Z.of_nat (List.length units_vec)) then fail
  else unit_sets_loop capsule units_vec shapes_vec names_vec_vec.

(** The part of [capsule_read] under the exception handler. *)
Definition capsule_read_body (capsule : nat) : link unit :=
  _ ← capsule_read_header;
  units_vec ← capsule_read_unit_set_names;
  shapes_vec ← capsule_read_shapes;
  '(shapes_vec, names_vec_vec) ← capsule_read_external_names shapes_vec;
  _ ← capsule_read_unit_sets capsule units_vec shapes_vec names_vec_vec;
  rd tdf_read_eof.

(** [true] when the capsule is complete. *)
Definition capsule_read (capsule : nat) : link bool := fun l =>
  let '(g, units) := capsule_setup (l_statics l) (l_units l) in
  let l := Link (l_reader l) g units (l_shapes l) (l_errors l) in
  match capsule_read_body capsule l with
  | (l, Ok _) => (l, Ok true)
  | (l, Throw XX_capsule_error) | (l, Throw (XX_tdf XX_tdf_read_error)) => (l, Ok false)
  | (l, Throw e) => (l, Throw e)
  end.

(** The bytes of a capsule read completely. *)
Definition capsule_store_contents : reader NStringT :=
  r ← st_get;
  let length := tdf_reader_byte r in
  _ ← tdf_reader_rewind;
  nstring ← tdf_read_bytes (nstring_init_length junk length);
  _ ← tdf_read_eof;
  mret nstring.
End Capsule.
