(* ===== verification/TldCapsuleSpec.v ===== *)
(** * TldCapsuleSpec: the capsules the linker writes

    [capsule_write] (tld/src/adt/capsule.c) writes a well-formed capsule: the
    counts of unit sets, shapes, names, units and links agree with what
    follows them, and the two lists of unit sets agree. *)
From stdpp Require Import base list list_numbers numbers.
From Stdlib Require Import ZArith Lia.
From S2P Require Import Prelude Codec ExdsString TldNameKey TldIO TldIOSpec HashTable TldNames TldShapes.
From S2P Require Import TldShapesSpec TldCapsule.

(** ** Counting leaves the shapes as they are but for [non_empty] *)

Definition same_shape (s s' : ShapeEntryT) : Prop :=
  se_key s' = se_key s /\ se_names s' = se_names s /\ id_count s' = id_count s /\
  (non_empty s = true -> non_empty s' = true).

Definition same_shapes (t t' : ShapeTableT) : Prop :=
  st_contents t' = st_contents t /\ Forall2 same_shape (st_entries t) (st_entries t').

#[export] Instance same_shape_preorder : PreOrder same_shape.
Proof.
  split; [intros s; by split_and!|]. intros s1 s2 s3 (E1 & E2 & E3 & E4) (F1 & F2 & F3 & F4).
  split_and!; [congruence..|auto].
Qed.

#[export] Instance same_shapes_preorder : PreOrder same_shapes.
Proof.
  split; [intros t; split; reflexivity|]. intros t1 t2 t3 [E1 E2] [F1 F2].
  split; [congruence|]. by transitivity (st_entries t2).
Qed.

Lemma ok_shape_same s s' : same_shape s s' -> ok_shape s -> ok_shape s'.
Proof.
  intros (E1 & E2 & E3 & _) [H1 H2 H3 H4]. constructor; rewrite ?E1, ?E2, ?E3; assumption.
Qed.

Lemma wf_shapes_same t t' : same_shapes t t' -> wf_shapes t -> wf_shapes t'.
Proof.
  intros [Ec Ef] (Hc & Hnd & Hp & Hk). unfold wf_shapes. rewrite Ec, <- (Forall2_length Ef).
  split_and!; auto. intros k p Hin. specialize (Hk k p Hin).
  destruct (st_entries t !! p) as [s|] eqn:E; [|discriminate].
  destruct (Forall2_lookup_l _ _ _ _ _ Ef E) as (s' & -> & (Es & _)). cbn in *. congruence.
Qed.

Lemma shapes_of_same t t' : same_shapes t t' -> Forall2 same_shape (shapes_of t) (shapes_of t').
Proof.
  intros [Ec Ef]. unfold shapes_of, shape_table_iter. rewrite Ec.
  induction ((ht_entries (st_contents t)).*2) as [|p ps IH]; cbn; [constructor|].
  destruct (st_entries t !! p) as [s|] eqn:E.
  - destruct (Forall2_lookup_l _ _ _ _ _ Ef E) as (s' & -> & Hs). by constructor.
  - destruct (st_entries t' !! p) as [s'|] eqn:E'; [|exact IH].
    destruct (Forall2_lookup_r _ _ _ _ _ Ef E') as (s & Es & _). congruence.
Qed.

Lemma ok_shapes_same t t' : same_shapes t t' -> ok_shapes t -> ok_shapes t'.
Proof.
  intros H [Ht Hs]. split; [by eapply wf_shapes_same|]. apply shapes_of_same in H.
  induction H as [|s s' l l' Es H IH]; [constructor|]. inversion Hs; subst.
  constructor; [by eapply ok_shape_same|auto].
Qed.

Lemma set_shape_same t p s s' :
  st_entries t !! p = Some s -> same_shape s s' -> same_shapes t (set_shape t p s').
Proof.
  intros E Hs. split; [reflexivity|]. cbn. rewrite <- (list_insert_id (st_entries t) p s E) at 1.
  apply Forall2_insert; [reflexivity|exact Hs].
Qed.

Lemma set_non_empty_same s : same_shape s (shape_entry_set_non_empty s).
Proof. by split_and!. Qed.

(** ** Counting the shapes *)

Lemma count_shapes_ok ps t a :
  NoDup ps -> (forall p, p ∈ ps -> (p < length (st_entries t))%nat) ->
  0 <= a -> a + Z.of_nat (length ps) < 2 ^ 32 ->
  exists t', shape_iter shape_entry_do_count ps t a
      = Some (t', a + Z.of_nat (length (filter is_live (omap (fun p => st_entries t' !! p) ps)))) /\
    same_shapes t t' /\
    (forall q, q ∉ ps -> st_entries t' !! q = st_entries t !! q) /\
    (forall q s, q ∈ ps -> st_entries t' !! q = Some s -> non_empty s = true <-> 0 < id_count s \/
       exists s0, st_entries t !! q = Some s0 /\ non_empty s0 = true).
Proof.
  intros Hnd. revert t a. induction Hnd as [|p ps Hni Hnd IH]; intros t a Hp Ha Hmax.
  { exists t. cbn. split; [f_equal; f_equal; lia|]. split; [reflexivity|]. split; [auto|]. intros q s Hq. inversion Hq. }
  destruct (lookup_lt_is_Some_2 (st_entries t) p) as [s E]; [apply Hp; left|].
  cbn [shape_iter]. rewrite E. cbn [mbind option_bind shape_entry_do_count].
  set (b := (0 <? id_count s) || non_empty s).
  set (s1 := if b then shape_entry_set_non_empty s else s). set (a1 := if b then a + 1 else a).
  cbn [length] in Hmax.
  assert ((if b then (shape_entry_set_non_empty s, u32 (a + 1)) else (s, a)) = (s1, a1)) as ->.
  { unfold s1, a1. destruct b; [|reflexivity]. rewrite u32_small by lia. reflexivity. }
  assert (same_shape s s1) as Hs1 by (unfold s1; destruct b; [apply set_non_empty_same|reflexivity]).
  pose proof (set_shape_same t p s s1 E Hs1) as Hsame.
  destruct (IH (set_shape t p s1) a1) as (t' & Eiter & Ht' & Hother & Hlive).
  { intros q Hq. cbn. rewrite length_insert. apply Hp. by right. }
  { unfold a1. destruct b; lia. }
  { unfold a1. destruct b; lia. }
  assert (st_entries t' !! p = Some s1) as Ep.
  { rewrite Hother by exact Hni. cbn. apply list_lookup_insert_eq. by eapply lookup_lt_Some. }
  exists t'. rewrite Eiter. split; [|split; [by etransitivity|split]].
  - f_equal. f_equal. cbn [omap list_omap]. rewrite Ep, filter_cons. unfold is_live at 2.
    assert (non_empty s1 = b) as Eb by (unfold s1, b; destruct (0 <? id_count s); destruct (non_empty s) eqn:En; auto).
    unfold a1. destruct (decide (non_empty s1 = true)) as [H|H].
    + rewrite Eb in H. rewrite H. cbn [length]. lia.
    + rewrite Eb in H. destruct b; [congruence|]. lia.
  - intros q Hq. rewrite Hother by (intros H; apply Hq; by right). cbn. apply list_lookup_insert_ne.
    intros ->. apply Hq. left.
  - intros q x Hq Ex. apply elem_of_cons in Hq as [->|Hq].
    + rewrite Ep in Ex. injection Ex as <-. rewrite E. unfold s1, b.
      destruct (Z.ltb_spec 0 (id_count s)); cbn; [tauto|]. destruct (non_empty s) eqn:En; cbn.
      * split; [eauto|reflexivity].
      * rewrite En. split; [discriminate|]. intros [?|(s0 & [= <-] & ?)]; [lia|congruence].
    + rewrite (Hlive q x Hq Ex). cbn. rewrite list_lookup_insert_ne by congruence. reflexivity.
Qed.

(** ** Counting the unit sets *)

(** Every shape a unit has identifiers of is in the table. *)
Definition known_map (shapes : ShapeTableT) (table : MapTableT) : Prop :=
  forall p, p ∈ map_table_iter table -> exists e, mt_entries table !! p = Some e /\
    (0 < count e -> shape_table_get shapes (me_key e) <> None).

Definition known_unit (shapes : ShapeTableT) (u : UnitT) : Prop :=
  match map_table u with Some table => known_map shapes table | None => True end.

Lemma shape_get_same t t' k : same_shapes t t' -> shape_table_get t' k = shape_table_get t k.
Proof. intros [E _]. unfold shape_table_get. by rewrite E. Qed.

Lemma check_non_empty_ok e t :
  wf_shapes t -> (0 < count e -> shape_table_get t (me_key e) <> None) ->
  exists t', map_entry_check_non_empty e t = Some t' /\ same_shapes t t'.
Proof.
  intros Ht Hk. unfold map_entry_check_non_empty. destruct (Z.ltb_spec 0 (count e)) as [H|H]; [|by exists t].
  destruct (shape_table_get t (me_key e)) as [p|] eqn:E; [|by destruct (Hk H)]. cbn [mbind option_bind].
  pose proof Ht as (Hc & _ & Hp & _). pose proof (ht_get_value _ _ _ Hc E) as Hin. rewrite Hp, elem_of_seq in Hin.
  destruct (lookup_lt_is_Some_2 (st_entries t) p) as [s Es]; [lia|]. rewrite Es. eexists. split; [reflexivity|].
  eapply set_shape_same; [exact Es|apply set_non_empty_same].
Qed.

Lemma check_map_ok table ps t :
  wf_shapes t -> (forall p, p ∈ ps -> exists e, mt_entries table !! p = Some e /\
    (0 < count e -> shape_table_get t (me_key e) <> None)) ->
  exists t', foldl (fun o p => shapes ← o; e ← mt_entries table !! p; map_entry_check_non_empty e shapes)
      (Some t) ps = Some t' /\ same_shapes t t'.
Proof.
  revert t. induction ps as [|p ps IH]; intros t Ht Hp; cbn [foldl]; [by exists t|].
  destruct (Hp p) as (e & Ee & Hk); [left|]. cbn [mbind option_bind]. rewrite Ee. cbn [mbind option_bind].
  destruct (check_non_empty_ok e t Ht Hk) as (t1 & -> & H1).
  destruct (IH t1) as (t2 & -> & H2); [by eapply wf_shapes_same| |exists t2; split; [reflexivity|by etransitivity]].
  intros q Hq. destruct (Hp q) as (e' & Ee' & Hk'); [by right|].
  exists e'. rewrite (shape_get_same t t1) by exact H1. auto.
Qed.

Lemma known_unit_same t t' u : same_shapes t t' -> known_unit t u -> known_unit t' u.
Proof.
  intros H. unfold known_unit. destruct (map_table u); [|auto]. intros Hu p Hp.
  destruct (Hu p Hp) as (e & Ee & Hk). exists e. rewrite (shape_get_same t t') by exact H. auto.
Qed.

Lemma check_units_ok us t :
  wf_shapes t -> Forall (known_unit t) us -> exists t', check_units us t = Some t' /\ same_shapes t t'.
Proof.
  revert t. induction us as [|u us IH]; intros t Ht Hus; cbn [check_units]; [by exists t|].
  inversion Hus as [|? ? Hu Hus']; subst.
  assert (exists t1, match map_table u with
    | Some table => foldl (fun o p => shapes ← o; e ← mt_entries table !! p; map_entry_check_non_empty e shapes)
                      (Some t) (map_table_iter table)
    | None => Some t end = Some t1 /\ same_shapes t t1) as (t1 & E1 & H1).
  { unfold known_unit in Hu. destruct (map_table u); [by apply check_map_ok|by exists t]. }
  setoid_rewrite E1. cbn [mbind option_bind].
  destruct (IH t1) as (t2 & E2 & H2); [by eapply wf_shapes_same| |].
  { eapply Forall_impl; [|exact Hus']. intros x. by apply known_unit_same. }
  exists t2. split; [exact E2|by etransitivity].
Qed.

Definition has_units (e : UnitEntryT) : Prop := ue_units e <> [].
#[export] Instance has_units_dec e : Decision (has_units e).
Proof. unfold has_units. destruct (ue_units e); [right; congruence|by left]. Defined.

Lemma count_unit_sets_ok units ps n t :
  wf_shapes t ->
  (forall p, p ∈ ps -> exists e, ut_entries units !! p = Some e /\ Forall (known_unit t) (ue_units e)) ->
  0 <= n -> n + Z.of_nat (length ps) < 2 ^ 32 ->
  exists t', count_unit_sets units ps n t
    = Some (n + Z.of_nat (length (filter has_units (omap (fun p => ut_entries units !! p) ps))), t') /\
    same_shapes t t'.
Proof.
  revert n t. induction ps as [|p ps IH]; intros n t Ht Hp Hn Hmax; cbn [count_unit_sets].
  { exists t. cbn. split; [f_equal; f_equal; lia|reflexivity]. }
  destruct (Hp p) as (e & Ee & Hk); [left|]. rewrite Ee. cbn [mbind option_bind omap list_omap length] in *. rewrite Ee.
  unfold unit_entry_do_count. rewrite filter_cons.
  assert (forall t1, same_shapes t t1 -> forall q, q ∈ ps ->
    exists e', ut_entries units !! q = Some e' /\ Forall (known_unit t1) (ue_units e')) as Hnext.
  { intros t1 H1 q Hq. destruct (Hp q) as (e' & Ee' & Hk'); [by right|]. exists e'. split; [exact Ee'|].
    eapply Forall_impl; [|exact Hk']. intros u. by apply known_unit_same. }
  destruct (decide (has_units e)) as [Hu|Hu]; unfold has_units in Hu.
  - rewrite decide_False by exact Hu. destruct (check_units_ok (ue_units e) t Ht Hk) as (t1 & -> & H1).
    cbn [mbind option_bind]. rewrite u32_small by lia.
    destruct (IH (n + 1) t1) as (t2 & -> & H2); [by eapply wf_shapes_same|by apply Hnext|lia|lia|].
    exists t2. split; [f_equal; f_equal; cbn [length]; lia|by etransitivity].
  - rewrite decide_True by (destruct (ue_units e); [reflexivity|destruct Hu; discriminate]).
    cbn [mbind option_bind]. apply IH; auto; [by apply Hnext|lia].
Qed.

(** ** The unit sets *)

(** The entries of the unit sets, in order. *)
Definition entry_at (units : UnitTableT) (p : nat) : UnitEntryT :=
  default (UnitEntry nstring_init 0 []) (ut_entries units !! p).

Definition unit_entries (units : UnitTableT) (tld : nat) (ps : list nat) : list (UnitEntryT * bool) :=
  (fun p => (entry_at units p, bool_decide (p = tld))) <$> ps.

Definition written (e : UnitEntryT * bool) : Prop := has_units e.1 \/ e.2 = true.
#[export] Instance written_dec e : Decision (written e).
Proof. unfold written. apply _. Defined.

Lemma set_entries_ok g units sets ps tld :
  capsule_unit_sets g = Some sets -> us_entry <$> sets = Some <$> ps -> tld_entry_of g = Some tld ->
  (forall p, p ∈ ps -> (p < length (ut_entries units))%nat) ->
  set_entries g units = Some (unit_entries units tld ps).
Proof.
  intros Hs Hps Ht Hlt. unfold set_entries. rewrite Hs, Ht. cbn [mbind option_bind].
  revert ps Hps Hlt. clear. induction sets as [|u sets IH]; intros [|p ps] Hps Hlt; try discriminate; [reflexivity|].
  cbn in Hps. injection Hps as Hu Hps. cbn [mapM]. rewrite Hu. cbn [mbind option_bind].
  destruct (lookup_lt_is_Some_2 (ut_entries units) p) as [e Ee]; [apply Hlt; left|]. rewrite Ee. cbn [mbind option_bind].
  rewrite (IH ps Hps) by (intros q Hq; apply Hlt; by right). cbn. unfold entry_at. rewrite Ee. cbn.
  repeat f_equal. apply bool_decide_ext. split; congruence.
Qed.

Lemma omap_entries units (ps : list nat) :
  (forall p, p ∈ ps -> (p < length (ut_entries units))%nat) ->
  omap (fun p => ut_entries units !! p) ps = entry_at units <$> ps.
Proof.
  induction ps as [|p ps IH]; intros Hlt; [reflexivity|]. cbn. unfold entry_at at 1.
  destruct (lookup_lt_is_Some_2 (ut_entries units) p) as [e ->]; [apply Hlt; left|]. cbn. f_equal.
  apply IH. intros q Hq. apply Hlt. by right.
Qed.

Lemma count_written units tld ps :
  NoDup ps -> ue_units (entry_at units tld) = [] ->
  length (filter written (unit_entries units tld ps))
  = (length (filter has_units (entry_at units <$> ps)) + (if decide (tld ∈ ps) then 1 else 0))%nat.
Proof.
  intros Hnd Htld. induction Hnd as [|p ps Hni Hnd IH]; [reflexivity|].
  cbn [unit_entries fmap list_fmap]. rewrite !filter_cons. fold (unit_entries units tld ps).
  change (list_fmap _ _ (entry_at units) ps) with (entry_at units <$> ps).
  destruct (decide (tld = p)) as [<-|Hne].
  - rewrite decide_True by (right; cbn; by apply bool_decide_eq_true_2).
    rewrite (decide_False (P := has_units _)) by (unfold has_units; congruence).
    rewrite (decide_True (P := tld ∈ tld :: ps)) by left. cbn [length]. rewrite IH, decide_False by exact Hni. lia.
  - replace (if decide (tld ∈ p :: ps) then 1%nat else 0%nat) with (if decide (tld ∈ ps) then 1%nat else 0%nat).
    2: { destruct (decide (tld ∈ ps)) as [Hi|Hi]; [rewrite decide_True by (by right); reflexivity|].
         rewrite decide_False; [reflexivity|]. rewrite elem_of_cons. tauto. }
    destruct (decide (has_units (entry_at units p))) as [Hu|Hu].
    + rewrite decide_True by (by left). cbn [length]. rewrite IH. lia.
    + rewrite decide_False; [exact IH|]. intros [Hw|Hw]; [contradiction|].
      cbn in Hw. apply bool_decide_eq_true_1 in Hw. congruence.
Qed.

(** ** The capsule *)

Definition fmt_header (g : StaticsT) : format :=
  fmt_seq (fmt_bytes (n_contents capsule_magic)) (fmt_seq (fmt_int (capsule_major_version g))
    (fmt_seq (fmt_int (capsule_minor_version g)) fmt_align)).

Definition fmt_unit_set (t : ShapeTableT) (e : UnitEntryT * bool) : format :=
  if e.2 then fmt_tld_unit t else fmt_units t e.1.

(** [es]: the unit sets; [t]: the shapes. *)
Definition fmt_capsule (g : StaticsT) (es : list (UnitEntryT * bool)) (t : ShapeTableT) : format :=
  let sets := filter written es in
  fmt_seq (fmt_header g)
  (fmt_seq (fmt_int (Z.of_nat (length sets)))
  (fmt_seq (fmt_list (fun e => fmt_string (n_contents (ue_key e.1))) sets)
  (fmt_seq (fmt_int (Z.of_nat (length (live t))))
  (fmt_seq (fmt_list fmt_shape (live t))
  (fmt_seq (fmt_int (Z.of_nat (length (live t))))
  (fmt_seq (fmt_list fmt_externs (live t))
  (fmt_seq (fmt_int (Z.of_nat (length sets)))
           (fmt_list (fmt_unit_set t) sets)))))))).

(** The state of the linker when it writes: [ps] are the entries of the unit
    sets, [tld] the one of the linker information. *)
Record ready (g : StaticsT) (units : UnitTableT) (shapes : ShapeTableT) (ps : list nat) (tld : nat) : Prop := {
  ready_version : 4 <= capsule_major_version g <= UINT_MAX /\ is_unsigned (capsule_minor_version g);
  ready_shapes : ok_shapes shapes /\ Z.of_nat (length (st_entries shapes)) < 2 ^ 32;
  ready_size : Z.of_nat (2 + sum_list_with (fun s => sum_list_with name_nibbles (visible (se_names s))) (shapes_of shapes)) < 2 ^ 32;
  ready_sets : exists sets, capsule_unit_sets g = Some sets /\ us_entry <$> sets = Some <$> ps;
  ready_tld : tld_entry_of g = Some tld /\ tld ∈ ps /\ ue_units (entry_at units tld) = [];
  ready_ps : NoDup ps /\ ps ≡ₚ unit_table_iter units /\ Z.of_nat (length ps) + 1 < 2 ^ 32;
  ready_entries p : p ∈ ps -> exists e, ut_entries units !! p = Some e /\ ok_nstring (ue_key e) /\
    Forall ok_unit (ue_units e) /\ Forall (known_unit shapes) (ue_units e) /\
    is_unsigned (Z.of_nat (length (ue_units e)))
}.

Lemma write_header_ok g :
  4 <= capsule_major_version g <= UINT_MAX -> is_unsigned (capsule_minor_version g) ->
  owrites (capsule_write_header g) (fmt_header g).
Proof.
  intros Hma Hmi. unfold capsule_write_header. rewrite (proj2 (Z.leb_le _ _)) by lia. apply owrites_some.
  apply writes_bind; [apply tdf_write_bytes_ok, (bool_decide_eq_true_1 _); vm_compute; reflexivity|].
  apply writes_bind; [apply tdf_write_int_ok; unfold UINT_MAX, UINT_BITS in *; lia|].
  apply writes_bind; [by apply tdf_write_int_ok|apply tdf_write_align_ok].
Qed.

Lemma usage_nibbles_le t : (usage_nibbles t <=
  sum_list_with (fun s => sum_list_with name_nibbles (visible (se_names s))) (shapes_of t))%nat.
Proof.
  unfold usage_nibbles, live. induction (shapes_of t) as [|s l IH]; [reflexivity|].
  rewrite filter_cons. case_decide; cbn; lia.
Qed.

Lemma sum_same (f : ShapeEntryT -> nat) l l' :
  Forall2 same_shape l l' -> (forall s s', same_shape s s' -> f s' = f s) -> sum_list_with f l' = sum_list_with f l.
Proof. intros H Hf. induction H as [|s s' l l' Hs H IH]; [reflexivity|]. cbn. rewrite IH, (Hf s s') by exact Hs. reflexivity. Qed.

Lemma tld_bytes_small t t' :
  same_shapes t t' ->
  Z.of_nat (2 + sum_list_with (fun s => sum_list_with name_nibbles (visible (se_names s))) (shapes_of t)) < 2 ^ 32 ->
  Z.of_nat (tld_bytes t') < 2 ^ 32.
Proof.
  intros Hs Hb. pose proof (usage_nibbles_le t') as Hle.
  rewrite (sum_same _ _ _ (shapes_of_same t t' Hs)) in Hle by (intros s s' (_ & -> & _); reflexivity).
  unfold tld_bytes. pose proof (Nat.Div0.div_le_mono (2 + usage_nibbles t')
    (2 + sum_list_with (fun s => sum_list_with name_nibbles (visible (se_names s))) (shapes_of t)) 2 ltac:(lia)).
  pose proof (Nat.Div0.div_le_upper_bound (2 + usage_nibbles t') 2 (2 + usage_nibbles t') ltac:(lia)). lia.
Qed.

Lemma shapes_of_length t : wf_shapes t -> (length (shapes_of t) <= length (st_entries t))%nat.
Proof.
  intros (_ & _ & Hp & _). unfold shapes_of. transitivity (length (shape_table_iter t)).
  - induction (shape_table_iter t) as [|p ps IH]; [reflexivity|]. cbn. destruct (st_entries t !! p); cbn; lia.
  - unfold shape_table_iter. rewrite Hp, length_seq. reflexivity.
Qed.

Lemma live_length t : wf_shapes t -> (length (live t) <= length (st_entries t))%nat.
Proof. intros Ht. etransitivity; [apply length_filter|by apply shapes_of_length]. Qed.

(** The writing of the unit sets, in both lists. *)
Lemma write_unit_names_ok es :
  (forall e, e ∈ es -> ok_nstring (ue_key e.1)) ->
  owrites (wlist (fun '(e, is_tld) => unit_entry_write_unit_set e is_tld) es)
    (fmt_list (fun e => fmt_string (n_contents (ue_key e.1))) (filter written es)).
Proof.
  intros Hk. rewrite <- fmt_list_filter. apply owrites_list. intros [e b] Hin. specialize (Hk _ Hin). cbn in Hk.
  unfold unit_entry_write_unit_set. destruct (decide (written (e, b))) as [H|H].
  - replace (negb (bool_decide (ue_units e = [])) || b) with true; [by apply owrites_some, tdf_write_string_ok|].
    destruct H as [H|H]; cbn in H; [rewrite bool_decide_eq_false_2 by exact H; reflexivity|].
    rewrite H. by destruct (bool_decide _).
  - replace (negb (bool_decide (ue_units e = [])) || b) with false; [apply owrites_skip|].
    destruct (bool_decide (ue_units e = [])) eqn:Eb; [|destruct H; left; by apply bool_decide_eq_false_1 in Eb].
    destruct b; [destruct H; by right|reflexivity].
Qed.

Lemma write_unit_sets_ok es t :
  wf_shapes t -> Z.of_nat (tld_bytes t) < 2 ^ 32 -> is_unsigned (Z.of_nat (length (live t))) ->
  (forall e, e ∈ es -> Forall ok_unit (ue_units e.1) /\ is_unsigned (Z.of_nat (length (ue_units e.1)))) ->
  owrites (wlist (fun '(e, is_tld) => if (is_tld : bool) then unit_entry_write_tld_unit e t
                    else unit_entry_write_units e t (Z.of_nat (length (live t)))) es)
    (fmt_list (fmt_unit_set t) (filter written es)).
Proof.
  intros Ht Hs Hl He. rewrite <- fmt_list_filter. apply owrites_list. intros [e b] Hin.
  destruct (He _ Hin) as [Hu Hn]. cbn in Hu, Hn. unfold fmt_unit_set. cbn [fst snd]. destruct b.
  - rewrite decide_True by (by right). by apply write_tld_unit_ok.
  - pose proof (write_units_ok e t Ht Hu Hl Hn) as Hw. case_decide as H; [exact Hw|].
    unfold fmt_units in Hw. rewrite decide_True in Hw; [exact Hw|].
    destruct (ue_units e) eqn:E; [reflexivity|]. destruct H. left. unfold has_units. cbn. congruence.
Qed.

Lemma shape_pointers t : wf_shapes t -> NoDup (shape_table_iter t) /\
  (forall p, p ∈ shape_table_iter t <-> (p < length (st_entries t))%nat) /\
  length (shape_table_iter t) = length (st_entries t).
Proof.
  intros (_ & _ & Hp & _). unfold shape_table_iter. split; [|split].
  - rewrite Hp. apply NoDup_seq.
  - intros p. rewrite Hp, elem_of_seq. lia.
  - rewrite Hp, length_seq. reflexivity.
Qed.

(** The two countings of [capsule_write]. *)
Lemma capsule_counts_ok g units shapes ps tld :
  ready g units shapes ps tld ->
  exists t1 t2,
    count_unit_sets units (unit_table_iter units) 1 shapes
      = Some (Z.of_nat (length (filter written (unit_entries units tld ps))), t1) /\
    shape_iter shape_entry_do_count (shape_table_iter t1) t1 0 = Some (t2, Z.of_nat (length (live t2))) /\
    same_shapes shapes t2 /\
    (forall s, s ∈ shapes_of t2 -> 0 < id_count s -> non_empty s = true).
Proof.
  intros [_ [Hsh Hns] _ _ (_ & Htld & Hnu) (Hnd & Hperm & Hlen) Hent]. pose proof Hsh as [Hwf _].
  assert (forall p, p ∈ ps -> (p < length (ut_entries units))%nat) as Hlt.
  { intros p Hp. destruct (Hent p Hp) as (e & Ee & _). by eapply lookup_lt_Some. }
  destruct (count_unit_sets_ok units (unit_table_iter units) 1 shapes Hwf) as (t1 & E1 & H1); [|lia| |].
  { intros p Hp. rewrite <- Hperm in Hp. destruct (Hent p Hp) as (e & Ee & _ & _ & Hk & _). eauto. }
  { rewrite <- Hperm. lia. }
  rewrite omap_entries in E1 by (intros p Hp; apply Hlt; by rewrite Hperm).
  assert (wf_shapes t1) as Hwf1 by (by eapply wf_shapes_same).
  destruct (shape_pointers t1 Hwf1) as (Hnd1 & Hp1 & Hl1).
  pose proof (Forall2_length (proj2 H1)) as Hlen1.
  destruct (count_shapes_ok (shape_table_iter t1) t1 0 Hnd1) as (t2 & E2 & H2 & _ & Hlive); [by apply Hp1|lia|lia|].
  exists t1, t2. split; [|split; [|split; [by etransitivity|]]].
  - rewrite E1, count_written, decide_True by auto. f_equal. f_equal.
    rewrite <- Hperm. lia.
  - rewrite E2, Z.add_0_l. unfold live, shapes_of, shape_table_iter. destruct H2 as [-> _]. reflexivity.
  - intros s Hs Hid. unfold shapes_of in Hs. apply list_elem_of_omap in Hs as (p & Hp & Es).
    unfold shape_table_iter in Hp. destruct H2 as [Hc _]. rewrite Hc in Hp. apply (Hlive p s Hp Es). auto.
Qed.

Lemma capsule_write_ok g units shapes ps tld :
  ready g units shapes ps tld ->
  exists t m, capsule_write g units shapes = Some (t, m) /\
    writes m (fmt_capsule g (unit_entries units tld ps) t) /\
    same_shapes shapes t /\ (forall s, s ∈ shapes_of t -> 0 < id_count s -> s ∈ live t).
Proof.
  intros Hr. destruct (capsule_counts_ok _ _ _ _ _ Hr) as (t1 & t & E1 & E2 & Hsame & Hlive).
  destruct Hr as [[Hma Hmi] [Hsh Hns] Hsize (sets & Hsets & Hse) (Htld & Hin & _) (Hnd & Hperm & Hlen) Hent].
  assert (forall p, p ∈ ps -> (p < length (ut_entries units))%nat) as Hlt.
  { intros p Hp. destruct (Hent p Hp) as (e & Ee & _). by eapply lookup_lt_Some. }
  unfold capsule_write. rewrite (set_entries_ok g units sets ps tld) by auto. cbn [mbind option_bind].
  rewrite E1. cbn [mbind option_bind]. rewrite E2. cbn [mbind option_bind].
  pose proof (ok_shapes_same shapes t Hsame Hsh) as Hok. pose proof Hok as [Hwf _].
  pose proof (live_length t Hwf) as Hll. rewrite <- (Forall2_length (proj2 Hsame)) in Hll.
  assert (is_unsigned (Z.of_nat (length (live t)))) as Hul by (unfold is_unsigned; lia).
  set (es := unit_entries units tld ps).
  assert (is_unsigned (Z.of_nat (length (filter written es)))) as Hus.
  { pose proof (length_filter written es). unfold es, unit_entries in *. rewrite length_fmap in *. unfold is_unsigned. lia. }
  assert (forall e, e ∈ es -> ok_nstring (ue_key e.1) /\ Forall ok_unit (ue_units e.1) /\
    is_unsigned (Z.of_nat (length (ue_units e.1)))) as He.
  { intros e Hine. unfold es, unit_entries in Hine. apply list_elem_of_fmap in Hine as (p & -> & Hp).
    destruct (Hent p Hp) as (x & Ex & Hk & Hu & _ & Hn). cbn. unfold entry_at. rewrite Ex. cbn. auto. }
  match goal with |- context [m ← ?o; _] => assert (owrites o (fmt_capsule g es t)) as (m & -> & Hm) end.
  { unfold fmt_capsule.
    apply owrites_seq; [by apply write_header_ok|]. apply owrites_seq; [by apply owrites_some, tdf_write_int_ok|].
    apply owrites_seq; [apply write_unit_names_ok; intros e Hine; apply (He e Hine)|].
    apply owrites_seq; [by apply owrites_some, tdf_write_int_ok|]. apply owrites_seq; [by apply write_shapes_ok|].
    apply owrites_seq; [by apply owrites_some, tdf_write_int_ok|]. apply owrites_seq; [by apply write_all_externs_ok|].
    apply owrites_seq; [by apply owrites_some, tdf_write_int_ok|].
    apply write_unit_sets_ok; auto; [by eapply tld_bytes_small|]. intros e Hine. apply (He e Hine). }
  exists t, m. cbn [mbind option_bind]. split; [reflexivity|]. split; [exact Hm|]. split; [exact Hsame|].
  intros s Hs Hid. unfold live. apply list_elem_of_filter. split; [by apply Hlive|exact Hs].
Qed.

(** C22: from any state of the linker that fits the format, [capsule_write]
    writes a well-formed capsule: the header, the unit sets that have units
    and the linker information, each listed once before and once with its
    units under the same count, the shapes in use with their names under the
    same count, and every count equal to the number of items that follow; no
    shape with identifiers is left out. *)
Theorem capsule_write_well_formed g units shapes ps tld :
  ready g units shapes ps tld ->
  exists t m, capsule_write g units shapes = Some (t, m) /\
    writes m (fmt_capsule g (unit_entries units tld ps) t) /\
    same_shapes shapes t /\ (forall s, s ∈ shapes_of t -> 0 < id_count s -> s ∈ live t).
Proof. apply capsule_write_ok. Qed.

(** ** An example: one shape and one unit *)

Definition ex_map : MapTableT :=
  MapTable (ht_prepend (ht_create MAP_TABLE_SIZE) ex_tag 0%nat) [MapEntry ex_tag 3 1 [MapLink 2 0]].
Definition ex_setup : StaticsT * UnitTableT := Eval vm_compute in capsule_setup (fun _ => 0) initial_statics unit_table_create.
Definition ex_statics : StaticsT :=
  Statics (capsule_unit_sets ex_setup.1) 0 (Some 1%nat) 4 1 false.
Definition ex_unit : UnitT := UnitOf (Some ex_map) (NString 2 [1; 255]).
Definition ex_units : UnitTableT := Eval vm_compute in
  UnitTable (ut_contents ex_setup.2)
    (alter (fun e => UnitEntry (ue_key e) (order e) [ex_unit; UnitOf None ex_tag]) 10%nat (ut_entries ex_setup.2)).

Lemma ex_map_wf : wf_chains (mt_contents ex_map).
Proof. apply ht_prepend_wf; [apply ht_create_wf; unfold MAP_TABLE_SIZE; lia|exact ex_tag_wf]. Qed.

Lemma ex_map_ok : ok_map ex_map.
Proof.
  split; [apply (bool_decide_eq_true_1 _); vm_compute; reflexivity|].
  intros k p Hk. apply (ht_get_value _ _ _ ex_map_wf) in Hk. apply list_elem_of_singleton in Hk. subst. cbn. lia.
Qed.

Lemma ex_unit_ok : Forall ok_unit [ex_unit; UnitOf None ex_tag].
Proof.
  constructor; [|constructor; [|constructor]]; split; try exact I; try exact ex_map_ok;
    apply (bool_decide_eq_true_1 _); vm_compute; reflexivity.
Qed.

Lemma ex_unit_known : Forall (known_unit ex_shapes) [ex_unit; UnitOf None ex_tag].
Proof.
  repeat constructor. intros p Hp. apply list_elem_of_singleton in Hp. subst. eexists. split; [reflexivity|].
  intros _. vm_compute. discriminate.
Qed.

Lemma ex_ready : ready ex_statics ex_units ex_shapes (seq 0 12) 0.
Proof.
  constructor.
  - split; [split|split]; vm_compute; congruence.
  - split; [split; [exact ex_shapes_wf|]|reflexivity]. apply (bool_decide_eq_true_1 _). vm_compute. reflexivity.
  - vm_compute. reflexivity.
  - eexists. split; reflexivity.
  - split; [reflexivity|]. split; [left|reflexivity].
  - split; [apply NoDup_seq|]. split; [|vm_compute; reflexivity]. apply (bool_decide_eq_true_1 _). vm_compute. reflexivity.
  - intros p Hp. apply elem_of_seq in Hp. destruct (decide (p = 10%nat)) as [->|Hne].
    { eexists. split; [reflexivity|]. split; [apply (bool_decide_eq_true_1 _); vm_compute; reflexivity|].
      split; [exact ex_unit_ok|]. split; [exact ex_unit_known|]. split; vm_compute; congruence. }
    do 12 (destruct p as [|p]; [first [congruence|eexists; split; [reflexivity|]; split;
      [apply (bool_decide_eq_true_1 _); vm_compute; reflexivity|]; split; [apply Forall_nil_2|]; split; [apply Forall_nil_2|];
      split; vm_compute; congruence]|]). lia.
Qed.

Lemma capsule_write_well_formed_witness :
  exists t m, capsule_write ex_statics ex_units ex_shapes = Some (t, m) /\
    writes m (fmt_capsule ex_statics (unit_entries ex_units 0 (seq 0 12)) t) /\
    same_shapes ex_shapes t /\ (forall s, s ∈ shapes_of t -> 0 < id_count s -> s ∈ live t).
Proof. exact (capsule_write_well_formed _ _ _ _ _ ex_ready). Defined.
