(* ===== verification/TldWrite.v ===== *)
(** * TldWrite: the writer of capsules never stops

    [capsule_write] (tld/src/adt/capsule.c) on any tables in order, also when
    their sizes go beyond what the format can announce: every count may wrap,
    but no assertion fails and no null pointer is used. *)
From stdpp Require Import base list list_numbers numbers.
From Stdlib Require Import ZArith Lia.
From S2P Require Import Prelude Codec ExdsString TldNameKey TldIO TldIOSpec HashTable TldNames.
From S2P Require Import TldShapes TldShapesSpec TldCapsule TldCapsuleSpec.

Lemma some_bind {A B} (o : option A) (k : A -> option B) :
  is_Some o -> (forall a, o = Some a -> is_Some (k a)) -> is_Some (o ≫= k).
Proof. intros [a ->] H. by apply H. Qed.

Lemma some_wseq o1 o2 : is_Some o1 -> is_Some o2 -> is_Some (wseq o1 o2).
Proof. intros H1 H2. apply some_bind; [exact H1|]. intros m1 _. apply some_bind; [exact H2|]. eauto. Qed.

Lemma some_wskip : is_Some wskip.
Proof. unfold wskip. eauto. Qed.

Create HintDb total.
#[export] Hint Resolve some_wseq some_wskip : total.
#[export] Hint Extern 1 (is_Some (Some _)) => eexists; reflexivity : total.

Lemma some_wlist {A} (f : A -> option (writer unit)) l : (forall a, a ∈ l -> is_Some (f a)) -> is_Some (wlist f l).
Proof.
  induction l as [|a l IH]; intros H; cbn [wlist]; [apply some_wskip|].
  apply some_wseq; [apply H; left|]. apply IH. intros b Hb. apply H. by right.
Qed.

(** ** Names *)

Lemma iter_entry t p : p ∈ name_table_iter t -> (exists d, get_direct t p = Some d) /\ is_Some (name_entry_key t p).
Proof.
  intros Hp. apply list_elem_of_filter in Hp as [Hd _]. unfold get_direct, name_entry_key, entry_type in *.
  destruct (nt_entries t !! p) as [e|]; [|discriminate]. cbn in *. destruct (ne_type e); try discriminate. eauto.
Qed.

Lemma foldl_some {A} (f : A -> nat -> option A) ps : forall a,
  (forall a p, p ∈ ps -> is_Some (f a p)) -> is_Some (foldl (fun a p => a ← a; f a p) (Some a) ps).
Proof.
  induction ps as [|p ps IH]; intros a H; cbn [foldl]; [eauto|]. cbn [mbind option_bind].
  destruct (H a p ltac:(left)) as [a' ->]. apply IH. intros b q Hq. apply H. by right.
Qed.

Lemma some_iter_count {A} (f : A -> nat -> option A) a t :
  (forall a p d, get_direct t p = Some d -> is_Some (f a p)) -> is_Some (iter_count f a t).
Proof. intros H. apply foldl_some. intros b p Hp. destruct (iter_entry t p Hp) as [[d Hd] _]. by eapply H. Qed.

Lemma some_iter_write (f : nat -> option (writer unit)) t :
  (forall p d, get_direct t p = Some d -> is_Some (name_entry_key t p) -> is_Some (f p)) -> is_Some (iter_write f t).
Proof.
  intros H. unfold iter_write. assert (forall p, p ∈ name_table_iter t -> is_Some (f p)) as Hf.
  { intros p Hp. destruct (iter_entry t p Hp) as [[d Hd] Hk]. by eapply H. }
  induction (name_table_iter t) as [|p ps IH]; cbn [foldr]; [eauto|].
  apply some_bind; [apply Hf; left|]. intros m _. apply some_bind; [|eauto]. apply IH. intros q Hq. apply Hf. by right.
Qed.

(** ** Shapes *)

Lemma some_shape_iter_write f t : wf_shapes t -> (forall s, is_Some (f s)) -> is_Some (shape_iter_write f t).
Proof.
  intros Ht Hf. apply some_wlist. intros p Hp. destruct (shape_table_iter_lookup t p Ht Hp) as [s ->]. apply Hf.
Qed.

Lemma some_write_shape s : is_Some (shape_entry_write_shape s).
Proof. unfold shape_entry_write_shape. destruct (non_empty s); auto with total. Qed.

Lemma some_write_externs s : is_Some (shape_entry_write_externs s).
Proof.
  unfold shape_entry_write_externs. destruct (non_empty s); [|auto with total]. apply some_bind.
  - apply some_iter_count. intros a p d E. unfold name_entry_do_count, name_entry_is_hidden. rewrite E. cbn. eauto.
  - intros n _. apply some_wseq; [auto with total|]. apply some_iter_write. intros p d E [k Ek].
    unfold name_entry_write_name. rewrite E, Ek. cbn. eauto.
Qed.

Lemma some_write_tld s : is_Some (shape_entry_write_tld s).
Proof.
  unfold shape_entry_write_tld. destruct (non_empty s); [|auto with total]. apply some_iter_write. intros p d E _.
  unfold name_entry_write_tld. rewrite E. cbn. eauto.
Qed.

Lemma some_tld_size t : wf_shapes t -> is_Some (tld_size t).
Proof.
  intros Ht. apply foldl_some. intros size p Hp. destruct (shape_table_iter_lookup t p Ht Hp) as [s ->].
  cbn [mbind option_bind]. unfold shape_entry_compute_tld_size. destruct (non_empty s); [|eauto].
  apply some_iter_count. intros a q d E. unfold name_entry_compute_tld_size. rewrite E. cbn. eauto.
Qed.

Lemma shape_iter_total {A} (f : ShapeEntryT -> A -> option (ShapeEntryT * A)) ps :
  (forall s a, exists s' a', f s a = Some (s', a') /\ same_shape s s') -> forall t a,
  (forall p, p ∈ ps -> (p < length (st_entries t))%nat) ->
  exists t' n, shape_iter f ps t a = Some (t', n) /\ same_shapes t t'.
Proof.
  intros Hf. induction ps as [|p ps IH]; intros t a Hp; [exists t, a; by split|].
  destruct (lookup_lt_is_Some_2 (st_entries t) p) as [s Es]; [apply Hp; left|].
  destruct (Hf s a) as (s' & a' & E & Hs). cbn [shape_iter]. rewrite Es. cbn [mbind option_bind]. rewrite E. cbn [mbind option_bind].
  destruct (IH (set_shape t p s') a') as (t' & n & E' & Hs').
  { intros q Hq. cbn. rewrite length_insert. apply Hp. by right. }
  exists t', n. split; [exact E'|]. etransitivity; [by eapply set_shape_same|exact Hs'].
Qed.

Lemma do_count_total s a : exists s' a', shape_entry_do_count s a = Some (s', a') /\ same_shape s s'.
Proof.
  unfold shape_entry_do_count. destruct (_ || _); eexists _, _; (split; [reflexivity|]); [apply set_non_empty_same|reflexivity].
Qed.

(** ** Units *)

Lemma some_write_count table s : ok_map table -> is_Some (shape_entry_write_count table s).
Proof.
  intros [_ Hlt]. unfold shape_entry_write_count. destruct (non_empty s); [|auto with total]. apply some_bind; [|auto with total].
  destruct (map_table_get table (se_key s)) as [p|] eqn:E; [|eauto].
  destruct (lookup_lt_is_Some_2 (mt_entries table) p) as [e ->]; [by eapply Hlt|]. cbn. eauto.
Qed.

Lemma some_write_links table s : ok_map table -> is_Some (shape_entry_write_links table s).
Proof.
  intros [He Hlt]. unfold shape_entry_write_links. destruct (non_empty s); [|auto with total].
  destruct (map_table_get table (se_key s)) as [p|] eqn:E; [|auto with total].
  destruct (lookup_lt_is_Some_2 (mt_entries table) p) as [e Ee]; [by eapply Hlt|]. rewrite Ee. cbn [mbind option_bind].
  destruct (Forall_lookup_1 _ _ _ _ He Ee) as (_ & Hn & Hlen & _). apply some_wseq; [auto with total|].
  apply some_wlist. intros i Hi. apply elem_of_seq in Hi. unfold map_entry_get_num_links, map_entry_get_link in *.
  unfold is_unsigned in Hn. rewrite (proj2 (Z.ltb_lt _ _)), Nat2Z.id by lia.
  destruct (lookup_lt_is_Some_2 (links e) i) as [k ->]; [lia|]. cbn. eauto.
Qed.

Lemma some_unit_write u t n : wf_shapes t -> ok_unit u -> is_Some (unit_write u t n).
Proof.
  intros Ht [_ Hm]. unfold unit_write. apply some_wseq; [|auto with total]. destruct (map_table u) as [table|]; [|auto with total].
  apply some_wseq; [auto with total|]. apply some_wseq; [apply some_shape_iter_write; [exact Ht|intros s; by apply some_write_count]|].
  apply some_wseq; [auto with total|]. apply some_shape_iter_write; [exact Ht|]. intros s. by apply some_write_links.
Qed.

Lemma some_write_unit_set e b t n :
  wf_shapes t -> Forall ok_unit (ue_units e) ->
  is_Some (if (b : bool) then unit_entry_write_tld_unit e t else unit_entry_write_units e t n).
Proof.
  intros Ht Hu. destruct b.
  - unfold unit_entry_write_tld_unit. apply some_bind; [by apply some_tld_size|]. intros size _.
    apply some_wseq; [auto with total|]. apply some_wseq; [|auto with total].
    apply some_shape_iter_write; [exact Ht|apply some_write_tld].
  - unfold unit_entry_write_units. cbn zeta. destruct (0 <? _); [|auto with total]. apply some_wseq; [auto with total|].
    apply some_wlist. intros u Hin. apply some_unit_write; [exact Ht|]. rewrite Forall_forall in Hu. apply Hu. by apply list_elem_of_In.
Qed.

(** ** The capsule *)

Lemma capsule_write_total g units shapes sets ps tld :
  4 <= capsule_major_version g -> wf_shapes shapes -> capsule_unit_sets g = Some sets -> us_entry <$> sets = Some <$> ps ->
  tld_entry_of g = Some tld -> ps ≡ₚ unit_table_iter units -> Z.of_nat (length ps) + 1 < 2 ^ 32 ->
  (forall p, p ∈ ps -> exists e, ut_entries units !! p = Some e /\ Forall ok_unit (ue_units e) /\ Forall (known_unit shapes) (ue_units e)) ->
  exists t m, capsule_write g units shapes = Some (t, m) /\ same_shapes shapes t.
Proof.
  intros Hv Hwf Hsets Hse Htld Hperm Hlen Hent.
  assert (forall p, p ∈ ps -> (p < length (ut_entries units))%nat) as Hlt.
  { intros p Hp. destruct (Hent p Hp) as (e & Ee & _). by eapply lookup_lt_Some. }
  destruct (count_unit_sets_ok units (unit_table_iter units) 1 shapes Hwf) as (t1 & E1 & H1); [|lia|by rewrite <- Hperm; lia|].
  { intros p Hp. rewrite <- Hperm in Hp. destruct (Hent p Hp) as (e & Ee & _ & Hk). eauto. }
  assert (wf_shapes t1) as Hwf1 by (by eapply wf_shapes_same).
  destruct (shape_iter_total _ (shape_table_iter t1) do_count_total t1 0) as (t & n & E2 & H2); [by intros p; apply shape_pointers|].
  assert (wf_shapes t) as Hwf2 by (by eapply wf_shapes_same).
  unfold capsule_write. rewrite (set_entries_ok g units sets ps tld) by auto. cbn [mbind option_bind].
  rewrite E1. cbn [mbind option_bind]. rewrite E2. cbn [mbind option_bind].
  match goal with |- context [m ← ?o; _] => assert (is_Some o) as [m ->] end.
  2: { exists t, m. split; [reflexivity|]. by transitivity t1. }
  apply some_wseq; [unfold capsule_write_header; rewrite (proj2 (Z.leb_le _ _)) by exact Hv; auto with total|].
  apply some_wseq; [auto with total|]. apply some_wseq.
  { apply some_wlist. intros [e b] _. unfold unit_entry_write_unit_set. destruct (_ || _); auto with total. }
  apply some_wseq; [auto with total|]. apply some_wseq; [apply some_shape_iter_write; [exact Hwf2|apply some_write_shape]|].
  apply some_wseq; [auto with total|]. apply some_wseq; [apply some_shape_iter_write; [exact Hwf2|apply some_write_externs]|].
  apply some_wseq; [auto with total|]. apply some_wlist. intros [e b] Hin. apply some_write_unit_set; [exact Hwf2|].
  unfold unit_entries in Hin. apply list_elem_of_fmap in Hin as (p & [= -> _] & Hp). destruct (Hent p Hp) as (x & Ex & Hu & _).
  unfold entry_at. rewrite Ex. exact Hu.
Qed.
