(* ===== verification/TldUsage.v ===== *)
(** * TldUsage: which capsule defines a name

    The rule by which [capsule_read_usage] (tld/src/adt/capsule.c) chooses the
    definition of a name from the usages the capsules declare, against its
    specification: the first capsule that defines the name; without one, the
    only capsule that defines it tentatively ([U_MULT]); otherwise none. *)
From stdpp Require Import base list list_numbers numbers.
From Stdlib Require Import ZArith Lia.
From S2P Require Import Prelude ExdsString TldNameKey TldIO HashTable TldNames TldRename TldShapes TldCapsule.

Definition defines (u : nat * Z) : Prop := has u.2 U_DEFD = true.
Definition tentative (u : nat * Z) : Prop := has u.2 U_MULT = true.
#[export] Instance defines_dec u : Decision (defines u).
Proof. unfold defines. apply _. Defined.
#[export] Instance tentative_dec u : Decision (tentative u).
Proof. unfold tentative. apply _. Defined.

(** The specification: the usages of a name, in the order they are read. *)
Definition definition_of (l : list (nat * Z)) : option nat :=
  match filter defines l with
  | (c, _) :: _ => Some c
  | [] => match filter tentative l with [(c, _)] => Some c | _ => None end
  end.

Definition use_of (l : list (nat * Z)) : Z := foldl (fun v u => Z.lor v u.2) 0 l.

(** The number of times a redefinition is reported. *)
Definition redefinitions (l : list (nat * Z)) : nat := pred (length (filter defines l)).

(** Merging a list of usages. *)
Fixpoint merge_usages (t : NameTableT) (p : nat) (l : list (nat * Z)) : option (NameTableT * nat) :=
  match l with
  | [] => Some (t, O)
  | (capsule, u) :: l =>
      '(t, again) ← merge_usage capsule t p u;
      '(t, n) ← merge_usages t p l;
      Some (t, ((if (again : bool) then 1 else 0) + n)%nat)
  end.

Definition is_usage (u : Z) : Prop := 0 <= u < 16.

(** ** Bits *)

Lemma has_bit u k : 0 <= k -> has u (2 ^ k) = Z.testbit u k.
Proof.
  intros Hk. unfold has. destruct (Z.testbit u k) eqn:E.
  - rewrite (proj2 (Z.eqb_neq _ _)); [reflexivity|]. intros H.
    apply (f_equal (fun x => Z.testbit x k)) in H. rewrite Z.land_spec, E, Z.pow2_bits_true, Z.bits_0 in H by lia. discriminate.
  - rewrite (proj2 (Z.eqb_eq _ _)); [reflexivity|]. apply Z.bits_inj'. intros n Hn.
    rewrite Z.land_spec, Z.bits_0. destruct (Z.eq_dec n k) as [->|Hne]; [rewrite E; reflexivity|].
    rewrite Z.pow2_bits_false by lia. apply andb_false_r.
Qed.

Lemma has_lor u v bits : has (Z.lor u v) bits = has u bits || has v bits.
Proof.
  unfold has. rewrite Z.land_lor_distr_l. destruct (Z.land u bits =? 0) eqn:E1, (Z.land v bits =? 0) eqn:E2;
    rewrite ?Z.eqb_eq, ?Z.eqb_neq in *; cbn; rewrite ?Z.eqb_eq, ?Z.eqb_neq; try (rewrite E1, E2; reflexivity);
    apply negb_true_iff, Z.eqb_neq; rewrite Z.lor_eq_0_iff; tauto.
Qed.

Lemma has_two u a b : has u (Z.lor a b) = has u a || has u b.
Proof.
  unfold has. rewrite Z.land_lor_distr_r. destruct (Z.land u a =? 0) eqn:E1, (Z.land u b =? 0) eqn:E2;
    rewrite ?Z.eqb_eq, ?Z.eqb_neq in *; cbn; try (rewrite E1, E2; reflexivity);
    apply negb_true_iff, Z.eqb_neq; rewrite Z.lor_eq_0_iff; tauto.
Qed.

Lemma get_use_has d bits :
  0 <= bits < 16 -> has (get_use d) bits = has (use d) bits.
Proof.
  intros Hb. unfold has, get_use. change (Z.lor _ U_USED) with (Z.ones 4). rewrite <- Z.land_assoc.
  rewrite (Z.land_comm (Z.ones 4)), Z.land_ones, Z.mod_small by lia. reflexivity.
Qed.

(** ** One usage more *)

Lemma use_of_snoc l u : use_of (l ++ [u]) = Z.lor (use_of l) u.2.
Proof. unfold use_of. rewrite foldl_snoc. reflexivity. Qed.

Lemma has_use_of l bits (P : nat * Z -> Prop) `{!forall u, Decision (P u)} :
  (forall u, P u <-> has u.2 bits = true) -> has (use_of l) bits = true <-> filter P l <> [].
Proof.
  intros HP. induction l as [|u l IH] using rev_ind.
  - cbn. unfold has. rewrite Z.land_0_l. cbn. split; [discriminate|congruence].
  - rewrite use_of_snoc, has_lor, orb_true_iff, IH, list.filter_app, filter_cons, filter_nil.
    destruct (decide (P u)) as [Hp|Hp]; rewrite HP in Hp.
    + split; [intros _; destruct (filter P l); discriminate|auto].
    + rewrite app_nil_r. tauto.
Qed.

Lemma defined_use l : has (use_of l) U_DEFD = true <-> filter defines l <> [].
Proof. apply has_use_of. reflexivity. Qed.

Lemma tentative_use l : has (use_of l) U_MULT = true <-> filter tentative l <> [].
Proof. apply has_use_of. reflexivity. Qed.

Lemma filter_snoc l c u bits (P : nat * Z -> Prop) `{!forall u, Decision (P u)} :
  (forall u, P u <-> has u.2 bits = true) ->
  filter P (l ++ [(c, u)]) = filter P l ++ (if has u bits then [(c, u)] else []).
Proof.
  intros HP. rewrite list.filter_app, filter_cons, filter_nil.
  destruct (decide (P (c, u))) as [Hp|Hp]; rewrite HP in Hp; cbn in Hp.
  - rewrite Hp. reflexivity.
  - destruct (has u bits); [congruence|reflexivity].
Qed.

(** The action the code takes is the one that keeps the specification. *)
Lemma usage_of_spec l c u d :
  use d = use_of l ->
  match usage_of u (get_use d) with
  | Redefined => definition_of (l ++ [(c, u)]) = definition_of l /\ definition_of l <> None /\
                 redefinitions (l ++ [(c, u)]) = S (redefinitions l)
  | Forget => definition_of (l ++ [(c, u)]) = None /\ redefinitions (l ++ [(c, u)]) = redefinitions l
  | Define => definition_of (l ++ [(c, u)]) = Some c /\ redefinitions (l ++ [(c, u)]) = redefinitions l
  | Nothing => definition_of (l ++ [(c, u)]) = definition_of l /\ redefinitions (l ++ [(c, u)]) = redefinitions l
  end.
Proof.
  intros Hu. unfold usage_of. rewrite has_two, !get_use_has, Hu by (unfold U_DEFD, U_MULT; lia).
  pose proof (defined_use l) as HD. pose proof (tentative_use l) as HM. unfold definition_of, redefinitions.
  rewrite (filter_snoc l c u U_DEFD defines), (filter_snoc l c u U_MULT tentative) by reflexivity.
  generalize dependent (filter defines l). generalize dependent (filter tentative l). intros T HM D HD.
  destruct (has u U_DEFD), (has (use_of l) U_DEFD), (has u U_MULT), (has (use_of l) U_MULT); cbn [andb orb negb];
    destruct D as [|[c1 u1] D]; try (by destruct (proj1 HD)); try discriminate (proj2 HD ltac:(discriminate));
    destruct T as [|[c2 u2] [|[c3 u3] T]]; try (by destruct (proj1 HM)); try discriminate (proj2 HM ltac:(discriminate));
    cbn; rewrite ?app_nil_r, ?length_app; cbn; split_and!; try discriminate; try lia; reflexivity.
Qed.

Lemma get_direct_set t p d : get_direct t p <> None -> get_direct (set_type t p (NT_DIRECT d)) p = Some d.
Proof.
  unfold get_direct. destruct (entry_type t p) eqn:E; [|contradiction]. intros _.
  rewrite entry_type_set, decide_True; [reflexivity..|]. apply entry_type_lt. eauto.
Qed.

Lemma update_direct_ok t p f d :
  get_direct t p = Some d -> update_direct t p f = Some (set_type t p (NT_DIRECT (f d))) /\
  get_direct (set_type t p (NT_DIRECT (f d))) p = Some (f d).
Proof.
  intros E. unfold update_direct. rewrite E. split; [reflexivity|]. apply get_direct_set. congruence.
Qed.

Lemma merge_usage_ok t p d l c u :
  get_direct t p = Some d -> use d = use_of l -> definition d = definition_of l ->
  exists t' d' again, merge_usage c t p u = Some (t', again) /\ get_direct t' p = Some d' /\
    use d' = use_of (l ++ [(c, u)]) /\ definition d' = definition_of (l ++ [(c, u)]) /\ id d' = id d /\
    redefinitions (l ++ [(c, u)]) = ((if again then 1 else 0) + redefinitions l)%nat.
Proof.
  intros E Hu Hd. pose proof (usage_of_spec l c u d Hu) as Hspec. unfold merge_usage, name_entry_get_use.
  rewrite E. cbn [fmap option_fmap option_map mbind option_bind]. rewrite use_of_snoc. cbn [snd].
  unfold name_entry_set_definition, name_entry_merge_use.
  assert (forall t0 d0 (again : bool), get_direct t0 p = Some d0 -> use d0 = use d -> id d0 = id d ->
    definition d0 = definition_of (l ++ [(c, u)]) ->
    redefinitions (l ++ [(c, u)]) = ((if again then 1 else 0) + redefinitions l)%nat ->
    exists t' d' again', (t1 ← update_direct t0 p (set_use (fun v => Z.lor v u)); Some (t1, again)) = Some (t', again') /\
      get_direct t' p = Some d' /\ use d' = Z.lor (use_of l) u /\ definition d' = definition_of (l ++ [(c, u)]) /\
      id d' = id d /\ redefinitions (l ++ [(c, u)]) = ((if (again' : bool) then 1 else 0) + redefinitions l)%nat) as Hfin.
  { intros t0 d0 again E0 Eu Ei Ed Er. destruct (update_direct_ok t0 p (set_use (fun v => Z.lor v u)) d0 E0) as [-> Hg].
    eexists _, _, again. split; [reflexivity|]. split; [exact Hg|]. cbn. rewrite Eu, Hu, Ei, Ed. auto. }
  destruct (usage_of u (get_use d)); cbn [mbind option_bind].
  - destruct Hspec as (E1 & E2 & E3). destruct (definition d) as [c0|] eqn:Ed0; [|congruence]. cbn [mbind option_bind].
    apply (Hfin t d true); auto. congruence.
  - destruct (update_direct_ok t p (fun d => Direct (id d) (use d) None (lib_definition d)) d E) as [-> Hg].
    cbn [mbind option_bind]. apply (Hfin _ _ false Hg); auto; [|apply Hspec]. cbn. symmetry. apply Hspec.
  - destruct (update_direct_ok t p (fun d => Direct (id d) (use d) (Some c) (lib_definition d)) d E) as [-> Hg].
    cbn [mbind option_bind]. apply (Hfin _ _ false Hg); auto; [|apply Hspec]. cbn. symmetry. apply Hspec.
  - apply (Hfin t d false); auto; [|apply Hspec]. rewrite Hd. symmetry. apply Hspec.
Qed.

Lemma merge_usages_ok l t p d done :
  get_direct t p = Some d -> use d = use_of done -> definition d = definition_of done ->
  exists t' d' n, merge_usages t p l = Some (t', n) /\ get_direct t' p = Some d' /\
    use d' = use_of (done ++ l) /\ definition d' = definition_of (done ++ l) /\ id d' = id d /\
    redefinitions (done ++ l) = (n + redefinitions done)%nat.
Proof.
  revert t d done. induction l as [|[c u] l IH]; intros t d done E Hu Hd; cbn [merge_usages].
  { exists t, d, O. rewrite app_nil_r. auto 10. }
  destruct (merge_usage_ok t p d done c u E Hu Hd) as (t1 & d1 & again & -> & E1 & Hu1 & Hd1 & Hi1 & Hr1).
  cbn [mbind option_bind]. destruct (IH t1 d1 (done ++ [(c, u)]) E1 Hu1 Hd1) as (t2 & d2 & n & -> & E2 & Hu2 & Hd2 & Hi2 & Hr2).
  cbn [mbind option_bind]. rewrite <- app_assoc in *. cbn [app] in *.
  eexists t2, d2, _. split; [reflexivity|]. split; [exact E2|]. split; [exact Hu2|]. split; [exact Hd2|].
  split; [congruence|]. rewrite Hr2, Hr1. lia.
Qed.

(** C26: merging the usages capsules declare for a new name never stops the
    program; the name ends up with the definition of the specification (the
    first capsule that defines it, else the only one that defines it
    tentatively, else none), each further definition is reported once, and
    the final check reports the name exactly when it is only defined
    tentatively, by several capsules. *)
Theorem usages_choose_definition t p i lib l :
  get_direct t p = Some (Direct i 0 None lib) ->
  exists t' d, merge_usages t p l = Some (t', redefinitions l) /\ get_direct t' p = Some d /\
    id d = i /\ definition d = definition_of l /\ use d = use_of l /\
    name_entry_check_multi_defs t' p =
      Some (bool_decide (filter defines l = [] /\ (2 <= length (filter tentative l))%nat)).
Proof.
  intros E. destruct (merge_usages_ok l t p _ [] E eq_refl eq_refl) as (t' & d & n & Em & Ed & Hu & Hd & Hi & Hr).
  cbn [app] in *. exists t', d. rewrite Em, Hr. split; [f_equal; f_equal; cbn; lia|].
  split; [exact Ed|]. split; [exact Hi|]. split; [exact Hd|]. split; [exact Hu|].
  unfold name_entry_check_multi_defs. rewrite Ed. cbn [mbind option_bind]. f_equal.
  change (negb (Z.land (get_use d) U_MULT =? 0)) with (has (get_use d) U_MULT).
  rewrite get_use_has, Hu, Hd by (unfold U_MULT; lia). pose proof (tentative_use l) as HM.
  unfold definition_of. destruct (has (use_of l) U_MULT).
  - pose proof (proj1 HM eq_refl). destruct (filter defines l) as [|[c1 u1] r1], (filter tentative l) as [|[c2 u2] [|? ?]];
      try congruence; cbn [andb]; symmetry.
    + apply bool_decide_eq_false_2. intros [_ H2]. cbn in H2. lia.
    + apply bool_decide_eq_true_2. split; [reflexivity|cbn; lia].
    + apply bool_decide_eq_false_2. intros [H2 _]. discriminate.
    + apply bool_decide_eq_false_2. intros [H2 _]. discriminate.
  - symmetry. apply bool_decide_eq_false_2. intros [_ H2]. destruct (filter tentative l); [cbn in H2; lia|].
    discriminate (proj2 HM ltac:(discriminate)).
Qed.

Lemma usages_choose_definition_witness :
  let t := NameTable [[(KT_STRING (NString 1 [97]), O)]]
    [NameEntry (KT_STRING (NString 1 [97])) (NT_DIRECT (Direct 5 0 None None))] in
  exists t' d, merge_usages t 0 [(7%nat, 10); (8%nat, 11)] = Some (t', O) /\ get_direct t' 0 = Some d /\
    id d = 5 /\ definition d = None /\ use d = 11 /\ name_entry_check_multi_defs t' 0 = Some true.
Proof.
  exact (usages_choose_definition (NameTable [[(KT_STRING (NString 1 [97]), O)]]
    [NameEntry (KT_STRING (NString 1 [97])) (NT_DIRECT (Direct 5 0 None None))]) 0 5 None
    [(7%nat, 10); (8%nat, 11)] eq_refl).
Defined.
