(* ===== verification/TldRead.v ===== *)
(** * TldRead: reasoning about the reader of capsules

    [lreads m f l a l'] says that the operation [m] of the reader of capsules
    (tld/src/adt/capsule.c) consumes the format [f], returns [a], and takes
    the linker from the state [l] to [l'] (the readers of both being left out
    of account); it also keeps the number of bytes read in step with the
    source, on which the check of the size of the linker information depends. *)
From stdpp Require Import base list list_numbers numbers.
From Stdlib Require Import ZArith Lia Sorted.
From S2P Require Import Prelude Codec ExdsString ExdsError TldNameKey TldIO TldIOSpec HashTable TldNames.
From S2P Require Import TldRename TldNameTable TldShapes TldShapesSpec TldCapsule TldUsage.

(** ** The number of bytes read *)

Definition byte_total (r : TDFReaderT) : nat := (tdf_reader_byte r + source_left r)%nat.

Definition keeps {A} (m : reader A) : Prop := forall r, byte_total (m r).1 = byte_total r.

Lemma keeps_bind {A B} (m : reader A) (k : A -> reader B) : keeps m -> (forall a, keeps (k a)) -> keeps (m ≫= k).
Proof.
  intros Hm Hk r. unfold mbind, stM_bind. specialize (Hm r). destruct (m r) as [r1 [a|e]]; cbn in *; [|exact Hm].
  rewrite (Hk a r1). exact Hm.
Qed.

Lemma keeps_ret {A} (a : A) : keeps (mret a).
Proof. intros r. reflexivity. Qed.

Lemma keeps_throw {A} e : keeps (st_throw e : reader A).
Proof. intros r. reflexivity. Qed.

Create HintDb keeps.
#[export] Hint Resolve keeps_bind keeps_ret keeps_throw : keeps.

Lemma fread_length data n : (length (fread data n) <= length data)%nat.
Proof. revert data. induction n as [|n IH]; intros [|[c|] data]; cbn; try lia. specialize (IH data). lia. Qed.

Lemma tdf_read_nibble_keeps : keeps tdf_read_nibble.
Proof.
  intros r. unfold tdf_read_nibble. destruct (r_new_byte r); [|reflexivity].
  destruct r as [[b|s] y n]; cbn [r_source].
  - unfold mbind, stM_bind, on_bistream, bistream_read_byte. destruct (bi_data b !! bi_pos b) as [[c|]|] eqn:E; try reflexivity.
    apply lookup_lt_Some in E. unfold byte_total. cbn. lia.
  - destruct (Nat.ltb_spec (s_current s) (s_limit s)); [|reflexivity]. unfold byte_total. cbn. lia.
Qed.

Lemma tdf_read_align_keeps : keeps tdf_read_align.
Proof. intros r. reflexivity. Qed.

#[export] Hint Resolve tdf_read_nibble_keeps tdf_read_align_keeps : keeps.

Lemma tdf_read_int_keeps : keeps tdf_read_int.
Proof.
  intros r. unfold tdf_read_int. generalize (reader_fuel r) as fuel. intros fuel. generalize 0 as v.
  revert r. induction fuel as [|fuel IH]; intros r v; [reflexivity|].
  apply (keeps_bind tdf_read_nibble); [apply tdf_read_nibble_keeps|]. intros d r'. cbn zeta.
  destruct (_ <? _); [reflexivity|]. destruct (_ =? 0); [apply IH|reflexivity].
Qed.

Lemma tdf_read_bytes_keeps n : keeps (tdf_read_bytes n).
Proof.
  intros r. unfold tdf_read_bytes, tdf_read_align. destruct r as [[b|s] y nb]; cbn [r_source].
  - unfold mbind, stM_bind, on_bistream, bistream_read_chars.
    pose proof (fread_length (drop (bi_pos b) (bi_data b)) (nstring_length n)) as Hl. rewrite length_drop in Hl.
    set (c := fread _ _) in *. destruct (_ && _); [reflexivity|].
    assert (byte_total (TDFReader (RT_STREAM (BIStream (bi_data b) (bi_pos b + length c) (bi_bytes b + length c) (bi_name b))) y true)
      = byte_total (TDFReader (RT_STREAM b) y nb)) as E by (unfold byte_total; cbn; lia).
    destruct (length c =? nstring_length n)%nat; exact E.
  - destruct (Nat.ltb_spec (s_limit s) (s_current s + nstring_length n)); [reflexivity|]. unfold byte_total. cbn. lia.
Qed.

#[export] Hint Resolve tdf_read_int_keeps tdf_read_bytes_keeps : keeps.

Section Keeps.
Variable junk : nat -> Z.
Variable junk_nstring : nat -> NStringT.

Lemma tdf_read_string_keeps : keeps (tdf_read_string junk).
Proof.
  apply keeps_bind; [auto with keeps|]. intros size. destruct (negb _); [auto with keeps|].
  apply keeps_bind; auto with keeps.
Qed.

Lemma tdf_read_components_keeps n i k : keeps (tdf_read_components junk n i k).
Proof.
  revert i k. induction n as [|n IH]; intros i k; cbn; [auto with keeps|].
  apply keeps_bind; [apply tdf_read_string_keeps|]. intros s. destruct (name_key_set_component k i s); [apply IH|auto with keeps].
Qed.

Lemma tdf_read_name_keeps : keeps (tdf_read_name junk junk_nstring).
Proof.
  apply keeps_bind; [auto with keeps|]. intros d. cbn zeta. apply keeps_bind; [auto with keeps|]. intros _.
  destruct (_ =? 1); [apply keeps_bind; [apply tdf_read_string_keeps|auto with keeps]|].
  destruct (_ =? 2); [|auto with keeps]. apply keeps_bind; [auto with keeps|]. intros c. apply tdf_read_components_keeps.
Qed.
End Keeps.

(** ** The reader of capsules *)

Definition with_reader (r : TDFReaderT) (l : LinkT) : LinkT :=
  Link r (l_statics l) (l_units l) (l_shapes l) (l_errors l).

Definition lreads {A} (m : link A) (f : format) (l : LinkT) (a : A) (l' : LinkT) : Prop :=
  forall r pos rest, wf_reader r -> r_at r pos -> r_rest r = f pos ++ rest ->
    exists r', m (with_reader r l) = (with_reader r' l', Ok a) /\ wf_reader r' /\ r_rest r' = rest /\
      byte_total r' = byte_total r.

Lemma lreads_bind {A B} (m : link A) (k : A -> link B) f1 f2 l a l1 b l2 :
  lreads m f1 l a l1 -> lreads (k a) f2 l1 b l2 -> lreads (m ≫= k) (fmt_seq f1 f2) l b l2.
Proof.
  intros H1 H2 r pos rest Hr Hp E. unfold fmt_seq in E. rewrite <- app_assoc in E.
  destruct (H1 r pos _ Hr Hp E) as (r1 & E1 & Hr1 & R1 & T1). rewrite (stM_bind_ok _ _ _ _ _ E1).
  destruct (H2 r1 (pos + length (f1 pos))%nat rest Hr1) as (r2 & E2 & Hr2 & R2 & T2);
    [by eapply r_at_step|exact R1|]. exists r2. split_and!; auto. congruence.
Qed.

Lemma lreads_ret {A} (a : A) l : lreads (mret a) fmt_nil l a l.
Proof. intros r pos rest Hr Hp E. exists r. auto. Qed.

Lemma lreads_ext {A} (m : link A) f g l a l' : fmt_eq f g -> lreads m f l a l' -> lreads m g l a l'.
Proof. intros E H r pos rest Hr Hp Er. rewrite <- E in Er. eauto. Qed.

#[export] Instance lreads_proper {A} : Proper (eq ==> fmt_eq ==> eq ==> eq ==> eq ==> iff) (@lreads A).
Proof.
  intros m ? <- f g E l ? <- a ? <- l' ? <-. split; apply lreads_ext; [exact E|symmetry; exact E].
Qed.

(** An operation that reads nothing before the rest. *)
Lemma lreads_step {A B} (m : link A) (k : A -> link B) f l a l1 b l2 :
  (forall r, m (with_reader r l) = (with_reader r l1, Ok a)) -> lreads (k a) f l1 b l2 -> lreads (m ≫= k) f l b l2.
Proof.
  intros H1 H2 r pos rest Hr Hp E. rewrite (stM_bind_ok _ _ _ _ _ (H1 r)). by eapply H2.
Qed.

Lemma lreads_get {A} (k : LinkT -> link A) f l a l' :
  (forall r, lreads (k (with_reader r l)) f l a l') -> lreads (st_get ≫= k) f l a l'.
Proof. intros H r pos rest Hr Hp E. cbn. by eapply H. Qed.

Lemma lreads_rd {A} (m : reader A) f a l : reads m f a -> keeps m -> lreads (rd m) f l a l.
Proof.
  intros Hm Hk r pos rest Hr Hp E. destruct (Hm r pos rest Hr Hp E) as (r' & E1 & Hr' & R').
  exists r'. unfold rd. cbn [l_reader with_reader]. rewrite E1. cbn [l_statics l_units l_shapes l_errors]. split; [reflexivity|]. split; [exact Hr'|]. split; [exact R'|].
  specialize (Hk r). rewrite E1 in Hk. exact Hk.
Qed.

Lemma lreads_rd_bind {A B} (m : reader A) (k : A -> link B) f1 f2 a l b l' :
  reads m f1 a -> keeps m -> lreads (k a) f2 l b l' -> lreads (rd m ≫= k) (fmt_seq f1 f2) l b l'.
Proof. intros Hm Hk H. eapply lreads_bind; [by apply lreads_rd|exact H]. Qed.

Lemma need_step {A B} (o : option A) (k : A -> link B) f l a b l' :
  o = Some a -> lreads (k a) f l b l' -> lreads (need o ≫= k) f l b l'.
Proof. intros -> H. eapply lreads_step; [|exact H]. reflexivity. Qed.

(** An [unsigned] read by the linker. *)
Lemma lreads_int {A} n (k : Z -> link A) f l a l' :
  is_unsigned n -> lreads (k n) f l a l' -> lreads (rd tdf_read_int ≫= k) (fmt_seq (fmt_int n) f) l a l'.
Proof.
  intros Hn H. apply (lreads_rd_bind _ _ _ _ n); [|apply tdf_read_int_keeps|exact H].
  apply tdf_read_int_ok. unfold is_unsigned, UINT_MAX, UINT_BITS in *. lia.
Qed.

Lemma lreads_seq_nil {A} (m : link A) f l a l' : lreads m (fmt_seq f fmt_nil) l a l' <-> lreads m f l a l'.
Proof.
  assert (fmt_eq (fmt_seq f fmt_nil) f) as -> by (intros pos; unfold fmt_seq, fmt_nil; by rewrite app_nil_r).
  reflexivity.
Qed.

(** ** The state *)

Definition with_statics (g : StaticsT) (l : LinkT) : LinkT := Link (l_reader l) g (l_units l) (l_shapes l) (l_errors l).
Definition with_units (u : UnitTableT) (l : LinkT) : LinkT := Link (l_reader l) (l_statics l) u (l_shapes l) (l_errors l).
Definition with_shapes (t : ShapeTableT) (l : LinkT) : LinkT := Link (l_reader l) (l_statics l) (l_units l) t (l_errors l).

Section Steps.
Context {B : Type} (f : format) (l l' : LinkT) (b : B).

Lemma get_shape_step p s (k : ShapeEntryT -> link B) :
  st_entries (l_shapes l) !! p = Some s -> lreads (k s) f l b l' -> lreads (get_shape p ≫= k) f l b l'.
Proof. intros E. apply lreads_step. intros r. unfold get_shape, mbind, stM_bind, st_get, need. cbn. rewrite E. reflexivity. Qed.

Lemma put_shapes_step t (k : unit -> link B) :
  lreads (k tt) f (with_shapes t l) b l' -> lreads (put_shapes t ≫= k) f l b l'.
Proof. by apply lreads_step. Qed.

Lemma put_shape_step p s (k : unit -> link B) :
  lreads (k tt) f (with_shapes (set_shape (l_shapes l) p s) l) b l' -> lreads (put_shape p s ≫= k) f l b l'.
Proof. by apply lreads_step. Qed.

Lemma get_unit_entry_step p e (k : UnitEntryT -> link B) :
  ut_entries (l_units l) !! p = Some e -> lreads (k e) f l b l' -> lreads (get_unit_entry p ≫= k) f l b l'.
Proof. intros E. apply lreads_step. intros r. unfold get_unit_entry, mbind, stM_bind, st_get, need. cbn. rewrite E. reflexivity. Qed.

Lemma put_unit_entry_step p e (k : unit -> link B) :
  lreads (k tt) f (with_units (UnitTable (ut_contents (l_units l)) (<[p := e]> (ut_entries (l_units l)))) l) b l' ->
  lreads (put_unit_entry p e ≫= k) f l b l'.
Proof. by apply lreads_step. Qed.

Lemma set_statics_step g (k : unit -> link B) :
  lreads (k tt) f (with_statics g l) b l' -> lreads (set_statics g ≫= k) f l b l'.
Proof. by apply lreads_step. Qed.
End Steps.

(** ** The header *)

(** A later version of the same static state. *)
Definition same_sets (g g' : StaticsT) : Prop :=
  capsule_unit_sets g' = capsule_unit_sets g /\ capsule_tld_index g' = capsule_tld_index g /\
  capsule_tld2_index g' = capsule_tld2_index g.

Section Reading.
Variable junk : nat -> Z.
Variable junk_nstring : nat -> NStringT.

Definition fmt_versions (major minor : Z) : format :=
  fmt_seq (fmt_bytes (n_contents capsule_magic)) (fmt_seq (fmt_int major) (fmt_seq (fmt_int minor) fmt_align)).

Lemma read_header_ok l major minor :
  4 <= major <= UINT_MAX -> is_unsigned minor ->
  capsule_major_version (l_statics l) = 0 \/ capsule_major_version (l_statics l) = major ->
  exists g, lreads (capsule_read_header junk) (fmt_versions major minor) l tt (with_statics g l) /\
    same_sets (l_statics l) g /\ capsule_major_version g = major.
Proof.
  intros Hma Hmi Hv.
  assert (exists g, (forall r, (if major <? 4 then @fail unit
      else if capsule_major_version (l_statics l) =? 0
           then set_statics (Statics (capsule_unit_sets (l_statics l)) (capsule_tld_index (l_statics l))
                  (capsule_tld2_index (l_statics l)) major minor (need_setup (l_statics l)))
      else if negb (capsule_major_version (l_statics l) =? major) then fail
      else if capsule_minor_version (l_statics l) <? minor
           then set_statics (Statics (capsule_unit_sets (l_statics l)) (capsule_tld_index (l_statics l))
                  (capsule_tld2_index (l_statics l)) (capsule_major_version (l_statics l)) minor (need_setup (l_statics l)))
      else mret tt) (with_reader r l) = (with_reader r (with_statics g l), Ok tt)) /\
    same_sets (l_statics l) g /\ capsule_major_version g = major) as (g & Hg & Hs & Hmaj).
  { destruct (Z.ltb_spec major 4); [lia|]. destruct (Z.eqb_spec (capsule_major_version (l_statics l)) 0) as [E|E].
    { eexists. split; [reflexivity|]. by split_and!. }
    destruct Hv as [?|Hv]; [contradiction|]. rewrite Hv, Z.eqb_refl. cbn [negb].
    destruct (_ <? minor).
    - eexists. split; [reflexivity|]. by split_and!.
    - exists (l_statics l). split; [reflexivity|]. by split_and!. }
  exists g. split; [|auto]. unfold capsule_read_header, fmt_versions.
  apply (lreads_rd_bind _ _ _ _ capsule_magic); [|apply tdf_read_bytes_keeps|].
  { apply (tdf_read_bytes_ok _ (n_contents capsule_magic)); [|reflexivity..].
    apply (bool_decide_eq_true_1 _). vm_compute. reflexivity. }
  change (negb (nstring_equal capsule_magic capsule_magic)) with false. cbn iota.
  apply lreads_int; [unfold is_unsigned, UINT_MAX, UINT_BITS in *; lia|]. apply lreads_int; [exact Hmi|].
  apply lreads_get. intros r. cbn zeta. cbn [l_statics with_reader].
  eapply lreads_step; [exact Hg|]. apply lreads_rd; [apply tdf_read_align_ok|apply tdf_read_align_keeps].
Qed.

(** ** The names of the unit sets *)

Definition order_of (u : UnitTableT) (p : nat) : Z := from_option order 0 (ut_entries u !! p).

Definition before (u : UnitTableT) (p q : nat) : Prop := order_of u p < order_of u q.

(** The unit sets [ss] are known to the linker, as [qs] and in their order,
    and the old form of the linker information is not among them. *)
Definition known_sets (g : StaticsT) (u : UnitTableT) (ss : list NStringT) (qs : list nat) : Prop :=
  Forall2 (fun s q => ok_nstring s /\ unit_table_get u s = Some q /\ Some q <> tld2_entry_of g) ss qs /\
  StronglySorted (before u) qs.

Lemma not_misplaced u q acc qs :
  StronglySorted (before u) (acc ++ q :: qs) -> misplaced u q acc = false.
Proof.
  intros Hs. unfold misplaced. destruct (existsb _ acc) eqn:E; [|reflexivity].
  apply existsb_exists in E as (v & Hv & Hb). apply list_elem_of_In in Hv.
  assert (before u v q) as Hlt.
  { clear Hb. induction acc as [|a acc IH]; [inversion Hv|]. cbn in Hs. inversion Hs as [|? ? Hs' Hall]; subst.
    apply elem_of_cons in Hv as [->|Hv]; [|by apply IH].
    rewrite Forall_forall in Hall. apply Hall, list_elem_of_In, elem_of_app. right. left. }
  unfold before, order_of in Hlt. apply orb_true_iff in Hb as [Hb|Hb]; [apply Nat.eqb_eq in Hb; subst; lia|].
  apply Z.ltb_lt in Hb. lia.
Qed.

Lemma unit_set_names_loop_ok l ss qs acc has :
  Forall2 (fun s q => ok_nstring s /\ unit_table_get (l_units l) s = Some q /\ Some q <> tld2_entry_of (l_statics l)) ss qs ->
  StronglySorted (before (l_units l)) (acc ++ qs) ->
  (has = true -> exists q, q ∈ acc /\ Some q = tld_entry_of (l_statics l)) ->
  lreads (unit_set_names_loop junk (length ss) acc has) (fmt_list (fun s => fmt_string (n_contents s)) ss) l (acc ++ qs) l.
Proof.
  intros Hf. revert acc has. induction Hf as [|s q ss qs (Hs & Hq & H2) Hf IH]; intros acc has Hsort Hhas.
  { rewrite app_nil_r. apply lreads_ret. }
  cbn [length unit_set_names_loop fmt_list foldr].
  eapply lreads_rd_bind; [by apply tdf_read_string_ok|apply tdf_read_string_keeps|].
  apply lreads_get. intros r. cbn [l_units l_statics with_reader]. rewrite Hq, (not_misplaced _ _ _ _ Hsort).
  cbn zeta. rewrite (bool_decide_eq_false_2 _ H2). eapply lreads_step; [intros; reflexivity|].
  rewrite !orb_false_r.
  assert (bool_decide (Some q = tld_entry_of (l_statics l)) && has = false) as ->.
  { destruct has; [|apply andb_false_r]. rewrite andb_true_r. apply bool_decide_eq_false_2. intros E.
    destruct (Hhas eq_refl) as (v & Hv & Ev). rewrite <- E in Ev. injection Ev as ->.
    pose proof (not_misplaced _ _ _ _ Hsort) as Hm. unfold misplaced in Hm.
    assert (existsb (fun v => (q =? v)%nat || (from_option order 0 (ut_entries (l_units l) !! q) <?
      from_option order 0 (ut_entries (l_units l) !! v))) acc = true) as Ht; [|congruence].
    apply existsb_exists. exists q. rewrite Nat.eqb_refl. split; [by apply list_elem_of_In|reflexivity]. }
  specialize (IH (acc ++ [q]) (has || bool_decide (Some q = tld_entry_of (l_statics l)))).
  rewrite <- app_assoc in IH. cbn [app] in IH. apply IH; [exact Hsort|].
  intros Hor. apply orb_true_iff in Hor as [Hor|Hor].
  - destruct (Hhas Hor) as (v & Hv & Ev). exists v. rewrite elem_of_app. auto.
  - exists q. split; [apply elem_of_app; right; left|]. by apply bool_decide_eq_true_1 in Hor.
Qed.

Lemma read_unit_set_names_ok l ss qs :
  known_sets (l_statics l) (l_units l) ss qs -> is_unsigned (Z.of_nat (length ss)) ->
  lreads (capsule_read_unit_set_names junk)
    (fmt_seq (fmt_int (Z.of_nat (length ss))) (fmt_list (fun s => fmt_string (n_contents s)) ss)) l qs l.
Proof.
  intros [Hf Hsort] Hn. unfold capsule_read_unit_set_names. apply lreads_int; [exact Hn|]. rewrite Nat2Z.id.
  apply (unit_set_names_loop_ok l ss qs []); [exact Hf|exact Hsort|discriminate].
Qed.

(** ** Shapes *)

(** What the reader needs of a shape: its renames lead somewhere, and a name
    that counts as defined has a definition. *)
Definition defined_ok (def : DirectT -> option nat) (t : NameTableT) : Prop :=
  forall p d, get_direct t p = Some d -> has (use d) U_DEFD = true -> def d <> None.

Definition good_shape (def : DirectT -> option nat) (s : ShapeEntryT) : Prop :=
  (exists rs, shape_ok rs s /\ forall k, wf_key k -> exists k', target rs k k') /\ defined_ok def (se_names s).

(** The tables of the linker between operations; the cached pointers are right. *)
Record good_shapes (def : DirectT -> option nat) (t : ShapeTableT) : Prop := {
  gs_wf : wf_shapes t;
  gs_all p s : st_entries t !! p = Some s -> good_shape def s;
  gs_token p : token_entry t = Some p -> shape_table_get t token_name = Some p;
  gs_tag p : tag_entry t = Some p -> shape_table_get t tag_name = Some p
}.

Definition free_ids (m : list Z) : nat := length (filter (fun v => v = UINT_MAX) m).

(** The data of a shape of the capsule, [ss] in the linker that wrote it:
    there are identifiers left for the ones not yet mapped. *)
Definition slots_ok (d : ShapeDataT) (ss s : ShapeEntryT) : Prop :=
  se_key s = se_key ss /\
  sd_num_ids d = id_count ss /\ Z.of_nat (length (sd_id_maps d)) = id_count ss /\
  Forall (fun v => 0 <= v <= UINT_MAX) (sd_id_maps d) /\
  id_count s + Z.of_nat (free_ids (sd_id_maps d)) <= UINT_MAX.

Definition data_ok (t : ShapeTableT) (d : ShapeDataT) (ss : ShapeEntryT) : Prop :=
  exists s, st_entries t !! sd_entry d = Some s /\ slots_ok d ss s.

Definition fresh_slots (d : ShapeDataT) : Prop := Forall (fun v => v = UINT_MAX) (sd_id_maps d).

(** Room in the table for the identifiers of the capsule. *)
Definition room (t : ShapeTableT) (ss : ShapeEntryT) : Prop :=
  id_count ss <= UINT_MAX /\
  forall s, s ∈ st_entries t -> se_key s = se_key ss -> id_count s + id_count ss <= UINT_MAX.

Lemma good_shape_new def key : good_shape def (shape_entry_create junk key).
Proof.
  assert (forall p, get_direct name_table_create p = None) as Hn by reflexivity.
  split.
  - exists []. split; [|intros k _; exists k; by apply stands_for_end].
    apply renamed_shape_ok; [|exact Hn]. split; [apply name_table_create_wf|]. split; [|intros k Hk; contradiction].
    intros p ty E. unfold entry_type in E. cbn in E. discriminate.
  - intros p d E. cbn [se_names shape_entry_create] in E. rewrite Hn in E. discriminate.
Qed.

Lemma free_ids_replicate n : free_ids (replicate n UINT_MAX) = n.
Proof.
  unfold free_ids. induction n as [|n IH]; [reflexivity|]. cbn [replicate]. rewrite filter_cons, decide_True by reflexivity.
  cbn. by rewrite IH.
Qed.

Lemma data_ok_new t p s ss :
  st_entries t !! p = Some s -> se_key s = se_key ss -> 0 <= id_count ss -> id_count s + id_count ss <= UINT_MAX ->
  data_ok t (ShapeData p (id_count ss) (replicate (Z.to_nat (id_count ss)) UINT_MAX)) ss.
Proof.
  intros E Ek Hid Hroom. exists s. unfold slots_ok. cbn [sd_entry sd_num_ids sd_id_maps]. rewrite length_replicate, free_ids_replicate, Z2Nat.id by exact Hid.
  split_and!; auto. apply Forall_replicate. split; [vm_compute; discriminate|reflexivity].
Qed.

Lemma data_ok_app t t' d ss l :
  st_entries t' = st_entries t ++ l -> data_ok t d ss -> data_ok t' d ss.
Proof. intros E (s & Es & H). exists s. rewrite E, (lookup_app_l_Some _ _ _ _ Es). auto. Qed.

(** The entries of the shapes read so far are those of their names. *)
Lemma data_fresh t vec done key p :
  good_shapes definition t -> Forall2 (data_ok t) vec done -> wf_nstring key -> (key ∉ se_key <$> done) ->
  (exists s, st_entries t !! p = Some s /\ se_key s = key) ->
  (p ∉ sd_entry <$> vec) /\ existsb (fun d => (p =? sd_entry d)%nat) vec = false.
Proof.
  intros Ht Hf Hk Hni (s & Es & Ek).
  assert (p ∉ sd_entry <$> vec) as Hp.
  { induction Hf as [|d ss vec done (s' & Es' & Ek' & _) Hf IH]; [inversion 1|]. cbn in *.
    intros Hin. apply elem_of_cons in Hin as [->|Hin]; [|apply IH; [intros Hn; apply Hni; by right|exact Hin]].
    rewrite Es in Es'. injection Es' as <-. apply Hni. replace key with (se_key ss) by congruence. left. }
  split; [exact Hp|]. destruct (existsb _ vec) eqn:E; [|reflexivity].
  apply existsb_exists in E as (d & Hd & Hb). apply Nat.eqb_eq in Hb. subst p.
  destruct Hp. apply list_elem_of_fmap_2. by apply list_elem_of_In.
Qed.

(** Adding the shape of a capsule to the table. *)
Lemma add_shape_ok def t ss :
  good_shapes def t -> wf_nstring (se_key ss) ->
  exists t' p s, shape_table_add junk t (se_key ss) = (t', p) /\ good_shapes def t' /\
    st_entries t' !! p = Some s /\ se_key s = se_key ss /\ (id_count s = 0 \/ s ∈ st_entries t) /\
    exists l, st_entries t' = st_entries t ++ l /\ forall x, x ∈ l -> se_key x = se_key ss.
Proof.
  intros Ht Hk. pose proof Ht as [Hwf Hall Htok Htag]. destruct (shape_table_get t (se_key ss)) as [p|] eqn:E.
  - destruct (proj1 (shape_get_entry t _ p Hwf Hk) E) as (s & Es & Ek).
    unfold shape_table_get in E. exists t, p, s. unfold shape_table_add. rewrite E. split_and!; auto.
    + right. by eapply list_elem_of_lookup_2.
    + exists []. rewrite app_nil_r. split; [reflexivity|]. intros x Hx. inversion Hx.
  - destruct (shape_table_add_new junk t _ Hwf Hk E) as (Ea & Hwf' & Hg & He & Ho). rewrite Ea.
    set (t' := (shape_table_add junk t (se_key ss)).1) in *.
    assert (token_entry t' = token_entry t /\ tag_entry t' = tag_entry t) as [Et Eg].
    { unfold t', shape_table_add. unfold shape_table_get in E. rewrite E. auto. }
    assert (forall k q, wf_nstring k -> shape_table_get t k = Some q -> shape_table_get t' k = Some q) as Hkeep.
    { intros k q Hk' Hq. rewrite Ho; [exact Hq|exact Hk'|congruence]. }
    exists t', (length (st_entries t)), (shape_entry_create junk (se_key ss)). split_and!; auto.
    + constructor; [exact Hwf'| | |].
      * intros q s. rewrite He. intros Hq. apply lookup_app_Some in Hq as [Hq|[_ Hq]]; [by eapply Hall|].
        apply list_lookup_singleton_Some in Hq as [_ <-]. apply good_shape_new.
      * intros q. rewrite Et. intros Hq. apply Hkeep; [apply (bool_decide_eq_true_1 _); reflexivity|auto].
      * intros q. rewrite Eg. intros Hq. apply Hkeep; [apply (bool_decide_eq_true_1 _); reflexivity|auto].
    + rewrite He, lookup_app_r, Nat.sub_diag by lia. reflexivity.
    + cbn. by apply nstring_copy_id.
    + eexists. split; [exact He|]. intros x ->%list_elem_of_singleton. cbn. by apply nstring_copy_id.
Qed.

(** The table has the shapes it had, and new ones without names. *)
Definition shapes_added (t t' : ShapeTableT) : Prop :=
  (forall p s, st_entries t !! p = Some s -> st_entries t' !! p = Some s) /\
  forall p s', st_entries t' !! p = Some s' ->
    st_entries t !! p = Some s' \/ se_names s' = name_table_create /\ forall q s, st_entries t !! q = Some s -> se_key s <> se_key s'.

#[export] Instance shapes_added_preorder : PreOrder shapes_added.
Proof.
  split; [intros t; split; auto|]. intros t1 t2 t3 [H1 G1] [H2 G2]. split; [auto|]. intros p s' E.
  destruct (G2 p s' E) as [E2|[En Ek]]; [by apply G1|]. right. split; [exact En|]. intros q s Eq. eapply Ek. by apply H1.
Qed.

Lemma add_shape_added def t key : good_shapes def t -> wf_nstring key -> shapes_added t (shape_table_add junk t key).1.
Proof.
  intros [Hwf _ _ _] Hk. destruct (shape_table_get t key) as [p|] eqn:E.
  - unfold shape_table_get in E. unfold shape_table_add. rewrite E. reflexivity.
  - destruct (shape_table_add_new junk t _ Hwf Hk E) as (_ & _ & _ & He & _). split.
    + intros p s Es. rewrite He. by apply lookup_app_l_Some.
    + intros p s'. rewrite He. intros [Hp|[_ Hp]]%lookup_app_Some; [by left|right].
      apply list_lookup_singleton_Some in Hp as [_ <-]. split; [reflexivity|]. intros q s Es Ek. cbn in Ek. rewrite nstring_copy_id in Ek by exact Hk.
      assert (shape_table_get t key = Some q); [|congruence]. apply shape_get_entry; eauto.
Qed.

Lemma read_shapes_loop_ok ss l vec done :
  good_shapes definition (l_shapes l) -> Forall2 (data_ok (l_shapes l)) vec done ->
  NoDup (se_key <$> done ++ ss) -> NoDup (sd_entry <$> vec) -> Forall fresh_slots vec ->
  Forall (fun s => ok_nstring (se_key s) /\ 0 <= id_count s) ss -> Forall (room (l_shapes l)) ss ->
  exists t' vec', lreads (read_shapes_loop junk (length ss) vec) (fmt_list fmt_shape ss) l vec' (with_shapes t' l) /\
    good_shapes definition t' /\ Forall2 (data_ok t') vec' (done ++ ss) /\ NoDup (sd_entry <$> vec') /\ Forall fresh_slots vec' /\
    shapes_added (l_shapes l) t'.
Proof.
  revert l vec done. induction ss as [|s0 ss IH]; intros l vec done Ht Hf Hnd Hnde Hfr Hok Hroom.
  { exists (l_shapes l), vec. rewrite app_nil_r. destruct l. split; [apply lreads_ret|]. split_and!; auto. reflexivity. }
  inversion Hok as [|? ? [Hk Hid] Hok']; subst. inversion Hroom as [|? ? [Hmax Hroom0] Hroom']; subst.
  destruct (add_shape_ok _ (l_shapes l) s0 Ht (proj1 Hk)) as (t1 & p & s & Ea & Ht1 & Es & Ek & Hs & x & Ex & Hx).
  assert (Forall2 (data_ok t1) vec done) as Hf1.
  { eapply Forall2_impl; [|exact Hf]. intros d y. by eapply data_ok_app. }
  assert (se_key s0 ∉ se_key <$> done) as Hni.
  { rewrite fmap_app in Hnd. apply list.NoDup_app in Hnd as (_ & Hd & _). intros Hin. apply (Hd _ Hin). left. }
  destruct (data_fresh t1 vec done (se_key s0) p Ht1 Hf1 (proj1 Hk) Hni (ex_intro _ s (conj Es Ek))) as [Hp Hex].
  assert (id_count s + id_count s0 <= UINT_MAX) as Hr.
  { destruct Hs as [->|Hs]; [lia|]. apply Hroom0; [exact Hs|exact Ek]. }
  assert (data_ok t1 (ShapeData p (id_count s0) (replicate (Z.to_nat (id_count s0)) UINT_MAX)) s0) as Hd
    by (by apply data_ok_new with s).
  destruct (IH (with_shapes t1 l) (vec ++ [ShapeData p (id_count s0) (replicate (Z.to_nat (id_count s0)) UINT_MAX)])
    (done ++ [s0])) as (t' & vec' & Hl & Ht' & Hf' & Hnde' & Hfr' & Hadd); auto.
  - apply Forall2_app; [exact Hf1|]. by constructor.
  - by rewrite <- app_assoc.
  - rewrite fmap_app. apply list.NoDup_app. split; [exact Hnde|]. split; [|apply NoDup_singleton].
    intros q Hq ->%list_elem_of_singleton. contradiction.
  - apply Forall_app. split; [exact Hfr|]. repeat constructor. apply Forall_replicate. reflexivity.
  - apply Forall_forall. intros s1 Hs1%list_elem_of_In. rewrite Forall_forall in Hroom'.
    destruct (Hroom' s1 (proj1 (list_elem_of_In _ _) Hs1)) as [Hm1 Hr1]. split; [exact Hm1|].
    cbn [l_shapes with_shapes]. rewrite Ex. intros y Hy Ey. apply elem_of_app in Hy as [Hy|Hy]; [by apply Hr1|].
    rewrite (Hx y Hy) in Ey. exfalso. rewrite fmap_app in Hnd. apply list.NoDup_app in Hnd as (_ & _ & Hnd).
    cbn in Hnd. inversion Hnd as [|? ? Hni' _]; subst. apply Hni'. rewrite Ey. by apply list_elem_of_fmap_2.
  - exists t', vec'. rewrite <- app_assoc in Hf'. split; [|split_and!; auto].
    2: { transitivity t1; [|exact Hadd]. pose proof (add_shape_added definition (l_shapes l) (se_key s0) Ht (proj1 Hk)) as Ha. by rewrite Ea in Ha. }
    cbn [length read_shapes_loop fmt_list foldr]. unfold fmt_shape at 1. rewrite fmt_seq_assoc.
    eapply lreads_rd_bind; [by apply tdf_read_string_ok|apply tdf_read_string_keeps|].
    apply lreads_int; [unfold is_unsigned, UINT_MAX, UINT_BITS in *; lia|].
    apply lreads_get. intros r. cbn [l_shapes with_reader]. rewrite Ea. apply put_shapes_step. rewrite Hex. exact Hl.
Qed.

(** ** External names *)

Lemma name_table_add_key s k s' p : name_table_add junk s k = Some (s', p) -> se_key s' = se_key s.
Proof.
  assert (forall s s' i, shape_entry_next_id s = Some (i, s') -> se_key s' = se_key s) as Hid.
  { intros x x' i. unfold shape_entry_next_id. destruct (_ =? _); [discriminate|]. by intros [= _ <-]. }
  unfold name_table_add. destruct (ht_get _ k) as [e|].
  - destruct (entry_type _ e) as [ty|]; [|discriminate]. cbn [mbind option_bind].
    destruct (if name_entry_is_indirect ty then _ else _) as [q|]; [|discriminate]. cbn [mbind option_bind].
    destruct (entry_type _ q) as [ty'|] eqn:Eq; [|discriminate]. cbn [mbind option_bind].
    destruct (name_entry_is_place ty'); [|by intros [= <- _]]. unfold name_entry_make_direct. rewrite Eq.
    cbn [mbind option_bind]. destruct (name_entry_is_place ty'); [|discriminate].
    destruct (shape_entry_next_id s) as [[i s1]|] eqn:E; [|discriminate]. cbn. intros [= <- _]. cbn. by eapply Hid.
  - unfold name_entry_create_direct. destruct (shape_entry_next_id s) as [[i s1]|] eqn:E; [|discriminate].
    cbn [mbind option_bind]. destruct (add_entry _ _ _ _) as [t q]. intros [= <- _]. cbn. by eapply Hid.
Qed.

Lemma direct_of_direct t k p : direct_of t k = Some p -> exists d, get_direct t p = Some d.
Proof.
  unfold direct_of, get_direct. destruct (ht_get _ k) as [q|]; [|discriminate]. cbn [mbind option_bind].
  destruct (entry_type t q) as [ty|] eqn:E; [|discriminate]. cbn [from_option].
  destruct ty; try discriminate. cbn. intros [= <-]. rewrite E. cbn. eauto.
Qed.

(** What later reading keeps: the direct entries, and where names lead. *)
Definition grows (s s' : ShapeEntryT) : Prop :=
  se_key s' = se_key s /\ (forall q, get_direct (se_names s) q <> None -> get_direct (se_names s') q <> None) /\
  (forall k q e, wf_key k -> name_table_get (se_names s) k = Some (Some q) -> get_direct (se_names s) q = Some e ->
     name_table_get (se_names s') k = Some (Some q) /\ exists e', get_direct (se_names s') q = Some e' /\ id e' = id e).

#[export] Instance grows_preorder : PreOrder grows.
Proof.
  split; [intros s; split; [reflexivity|]; split; [auto|]; eauto|].
  intros s1 s2 s3 (E1 & H1 & N1) (E2 & H2 & N2). split; [congruence|]. split; [auto|].
  intros k q e Hk Hn He. destruct (N1 k q e Hk Hn He) as (Hn' & e' & He' & Ei).
  destruct (N2 k q e' Hk Hn' He') as (Hn'' & e'' & He'' & Ei'). split; [exact Hn''|]. exists e''. split; [exact He''|congruence].
Qed.

Lemma target_key_wf rs t k k' : renames_done rs t -> wf_key k -> target rs k k' -> wf_key k'.
Proof.
  intros Hd Hk Ht. destruct (find_entry_ok rs t k k' Hd Hk Ht) as (o & _ & Ho & Hnone). pose proof Hd as (Hw & _).
  by apply (entry_for_wf t k k' o).
Qed.

Lemma added_grows rs s k' s' p :
  shape_ok rs s -> (forall k, wf_key k -> exists k0, target rs k k0) -> direct_of (se_names s) k' = None ->
  se_key s' = se_key s -> names_added rs s k' s' p -> grows s s'.
Proof.
  intros (Hd & _) Hall Hnone Ek ((Hd' & _) & Hdo & Hp & Hg & _). split; [exact Ek|]. split.
  - intros q Hq. rewrite Hg. case_decide; [discriminate|exact Hq].
  - intros k q e Hk Hn He. destruct (Hall k Hk) as [k0 Ht]. pose proof (target_key_wf _ _ _ _ Hd Hk Ht) as Hk0.
    rewrite (name_table_get_ok rs _ k k0 Hd Hk Ht) in Hn. rewrite (name_table_get_ok rs _ k k0 Hd' Hk Ht), Hdo by exact Hk0.
    assert (q <> p) as Hqp by congruence. injection Hn as Hn. split.
    + case_decide; [congruence|by rewrite Hn].
    + exists e. rewrite Hg, decide_False by exact Hqp. auto.
Qed.

Lemma add_name_ok def s k :
  good_shape def s -> wf_key k -> id_count s < UINT_MAX ->
  exists s' p d, name_table_add junk s k = Some (s', p) /\ good_shape def s' /\ grows s s' /\
    name_table_get (se_names s') k = Some (Some p) /\
    get_direct (se_names s') p = Some d /\ 0 <= id d < id_count s' /\ id_count s' <= id_count s + 1.
Proof.
  intros [(rs & Hs & Hall) Hdef] Hk Hmax. destruct (Hall k Hk) as [k' Htg]. pose proof Hs as (Hdone & _).
  pose proof (name_table_add_ok junk rs s k k' Hs Hk Htg) as Ha. pose proof (target_key_wf _ _ _ _ Hdone Hk Htg) as Hk'.
  destruct (direct_of (se_names s) k') as [p|] eqn:Ed.
  - destruct (direct_of_direct _ _ _ Ed) as [d Hd]. exists s, p, d.
    pose proof Hs as (_ & (Hlt & _) & _). split_and!; auto; try reflexivity; try (by apply (Hlt p)); [| |lia].
    + split; [eauto|exact Hdef].
    + rewrite (name_table_get_ok rs _ k k' Hdone Hk Htg). by rewrite Ed.
  - rewrite (proj2 (Z.eqb_neq _ _)) in Ha by lia. destruct Ha as (s' & p & E & Hadd).
    pose proof Hadd as (Hs' & Hdo & Hp & Hg & Hc & _).
    assert (get_direct (se_names s') p = Some (Direct (id_count s) 0 None None)) as Hgp
      by (rewrite Hg, decide_True by reflexivity; reflexivity).
    exists s', p, (Direct (id_count s) 0 None None). pose proof Hs as (_ & _ & H0).
    split; [exact E|]. split; [|split; [|split; [|split; [exact Hgp|cbn; lia]]]].
    + split; [eauto|]. intros q d. rewrite Hg. case_decide; [|apply Hdef]. by intros [= <-].
    + eapply added_grows; eauto. by eapply name_table_add_key.
    + pose proof Hs' as (Hdone' & _). rewrite (name_table_get_ok rs _ k k' Hdone' Hk Htg), Hdo, decide_True by auto. reflexivity.
Qed.

(** *** What is defined *)

(** The entry [p] has a definition. *)
Definition defd_at (t : NameTableT) (p : nat) : bool := from_option (fun d => has (use d) U_DEFD) false (get_direct t p).

(** The name [k] leads to an entry with a definition. *)
Definition name_defined (t : NameTableT) (k : NameKeyT) : bool :=
  match name_table_get t k with Some (Some p) => defd_at t p | _ => false end.

(** The name that [k] is renamed to. *)
Definition renamed (t : NameTableT) (k : NameKeyT) : NameKeyT :=
  match find_entry t k with Some (Some p) => default k (name_entry_key t p) | _ => k end.

Definition renames_ok (rs : list (NameKeyT * NameKeyT)) (s : ShapeEntryT) : Prop :=
  shape_ok rs s /\ forall k, wf_key k -> exists k', target rs k k'.

Lemma renamed_ok rs t k k' : renames_done rs t -> wf_key k -> target rs k k' -> renamed t k = k'.
Proof.
  intros Hd Hk Ht. destruct (find_entry_ok rs t k k' Hd Hk Ht) as (o & E & Ho & Hn). unfold renamed. rewrite E.
  pose proof Hd as (Hw & _). destruct o as [p|]; [|symmetry; by apply Hn].
  assert (named t k' p) as Hnm by (by inversion Ho). by rewrite (named_key t k' p Hw Hnm).
Qed.

Lemma name_defined_ok rs t k k' : renames_done rs t -> wf_key k -> target rs k k' ->
  name_defined t k = match direct_of t k' with Some p => defd_at t p | None => false end.
Proof. intros Hd Hk Ht. unfold name_defined. by rewrite (name_table_get_ok rs t k k'). Qed.

(** The same names are defined, and renames are as they were. *)
Definition same_defs (s s' : ShapeEntryT) : Prop :=
  forall rs, renames_ok rs s -> renames_ok rs s' /\ forall k, wf_key k -> name_defined (se_names s') k = name_defined (se_names s) k.

#[export] Instance same_defs_preorder : PreOrder same_defs.
Proof.
  split; [intros s rs H; by split|]. intros s1 s2 s3 H1 H2 rs H. destruct (H1 rs H) as [H' E1]. destruct (H2 rs H') as [H'' E2].
  split; [exact H''|]. intros k Hk. rewrite E2 by exact Hk. by apply E1.
Qed.

Lemma add_name_defs s k s' p : wf_key k -> name_table_add junk s k = Some (s', p) -> same_defs s s'.
Proof.
  intros Hk E rs [Hs Hall]. destruct (Hall k Hk) as [k' Ht]. pose proof (name_table_add_ok junk rs s k k' Hs Hk Ht) as Ha. rewrite E in Ha.
  pose proof Hs as (Hdone & _). pose proof (target_key_wf _ _ _ _ Hdone Hk Ht) as Hk'.
  destruct (direct_of (se_names s) k') as [q|] eqn:Ed; [injection Ha as -> ->; by split|].
  destruct (_ =? _); [discriminate|]. destruct Ha as (s1 & q & [= <- <-] & (Hs1 & Hdo & Hp & Hg & _)).
  split; [by split|]. intros k2 Hk2. destruct (Hall k2 Hk2) as [k2' Ht2]. pose proof (target_key_wf _ _ _ _ Hdone Hk2 Ht2) as Hk2'.
  pose proof Hs1 as (Hdone1 & _). rewrite (name_defined_ok rs _ k2 k2'), (name_defined_ok rs (se_names s) k2 k2'), Hdo by assumption.
  case_decide as Ek; [|destruct (direct_of (se_names s) k2') as [q|] eqn:Eq; [|reflexivity]]; unfold defd_at; rewrite Hg.
  - rewrite decide_True, Ek, Ed by reflexivity. reflexivity.
  - rewrite decide_False; [reflexivity|]. intros ->. destruct (direct_of_direct _ _ _ Eq) as [d Hd]. congruence.
Qed.

(** The errors when the definitions among the names [vs] of a capsule meet
    those of the table; [seen] are the names defined on the way. *)
Fixpoint redefined (t : NameTableT) (seen : list NameKeyT) (vs : list (NameKeyT * DirectT)) : nat :=
  match vs with
  | [] => O
  | v :: vs =>
      if has (get_use v.2) U_DEFD then
        let k := renamed t v.1 in
        ((if name_defined t v.1 || bool_decide (k ∈ seen) then 1 else 0) + redefined t (k :: seen) vs)%nat
      else redefined t seen vs
  end.

(** The slots filled stay as they are. *)
Definition fills (d d' : ShapeDataT) : Prop :=
  sd_entry d' = sd_entry d /\
  forall i v, sd_id_maps d !! i = Some v -> v <> UINT_MAX -> sd_id_maps d' !! i = Some v.

#[export] Instance fills_preorder : PreOrder fills.
Proof. split; [by split|]. intros d1 d2 d3 [E1 H1] [E2 H2]. split; [congruence|auto]. Qed.

Lemma fills_insert d i v :
  sd_id_maps d !! i = Some UINT_MAX -> fills d (ShapeData (sd_entry d) (sd_num_ids d) (<[i := v]> (sd_id_maps d))).
Proof.
  intros Hi. split; [reflexivity|]. intros j w Hw Hne. cbn. destruct (decide (j = i)) as [->|Hj]; [congruence|].
  by rewrite list_lookup_insert_ne.
Qed.

(** The name [v] of the capsule leads to an entry of the linker, and its
    identifier in the capsule is mapped to the one of that entry. *)
Definition name_mapped (d : ShapeDataT) (s : ShapeEntryT) (v : NameKeyT * DirectT) : Prop :=
  exists p e, name_table_get (se_names s) v.1 = Some (Some p) /\ get_direct (se_names s) p = Some e /\
    sd_id_maps d !! Z.to_nat (id v.2) = Some (id e) /\ id e <> UINT_MAX.

Lemma name_mapped_grows d d' s s' v :
  wf_key v.1 -> fills d d' -> grows s s' -> name_mapped d s v -> name_mapped d' s' v.
Proof.
  intros Hk [_ Hf] (_ & _ & Hn) (p & e & H1 & H2 & H3 & H4). destruct (Hn _ _ _ Hk H1 H2) as (H1' & e' & H2' & Ei).
  exists p, e'. rewrite Ei. auto.
Qed.

Lemma free_ids_insert m i v :
  m !! i = Some UINT_MAX -> v <> UINT_MAX -> free_ids m = S (free_ids (<[i := v]> m)).
Proof.
  unfold free_ids. revert i. induction m as [|x m IH]; intros [|i] Hi Hv; cbn in Hi; try discriminate.
  - injection Hi as ->. cbn [insert list_insert]. rewrite !filter_cons, decide_True, decide_False by auto. reflexivity.
  - change (<[S i:=v]> (x :: m)) with (x :: <[i := v]> m). rewrite !filter_cons.
    case_decide; cbn [length]; by rewrite (IH i Hi Hv).
Qed.

Lemma slots_fill d ss s s' i v :
  slots_ok d ss s -> sd_id_maps d !! i = Some UINT_MAX -> 0 <= v < id_count s' ->
  se_key s' = se_key s -> id_count s' <= id_count s + 1 ->
  slots_ok (ShapeData (sd_entry d) (sd_num_ids d) (<[i := v]> (sd_id_maps d))) ss s'.
Proof.
  intros (Ek & En & Hl & Hr & Hb) Hi Hv Ek' Hc.
  assert (free_ids (sd_id_maps d) > 0)%nat as Hpos.
  { unfold free_ids. apply list_elem_of_lookup_2 in Hi.
    assert (UINT_MAX ∈ filter (fun v => v = UINT_MAX) (sd_id_maps d)) as Hin by (by apply list_elem_of_filter).
    destruct (filter _ _); [inversion Hin|cbn; lia]. }
  unfold slots_ok. cbn [sd_entry sd_num_ids sd_id_maps]. rewrite length_insert.
  pose proof (free_ids_insert (sd_id_maps d) i v Hi ltac:(lia)) as Hf. split_and!; [congruence|exact En|exact Hl| |lia].
  apply Forall_insert; [exact Hr|lia].
Qed.

Lemma set_shape_twice t p s s' : set_shape (set_shape t p s) p s' = set_shape t p s'.
Proof. unfold set_shape. cbn. by rewrite list_insert_insert_eq. Qed.

Lemma set_shape_id t p s : st_entries t !! p = Some s -> set_shape t p s = t.
Proof. intros E. unfold set_shape. rewrite list_insert_id by exact E. by destruct t. Qed.

Lemma set_shape_lookup t p s x : st_entries t !! p = Some x -> st_entries (set_shape t p s) !! p = Some s.
Proof. intros E. cbn. apply list_lookup_insert_eq. by eapply lookup_lt_Some. Qed.

Lemma with_shapes_id l t : l_shapes l = t -> with_shapes t l = l.
Proof. intros <-. by destruct l. Qed.

Lemma redefined_same rs s s' vs : forall seen,
  same_defs s s' -> renames_ok rs s -> Forall (fun v => wf_key v.1) vs -> redefined (se_names s') seen vs = redefined (se_names s) seen vs.
Proof.
  intros seen Hsd Hrs. destruct (Hsd rs Hrs) as [Hrs' E]. revert seen. induction vs as [|v vs IH]; intros seen Hvs; [reflexivity|].
  inversion Hvs as [|? ? Hv Hvs']; subst. cbn [redefined]. rewrite E by exact Hv.
  destruct (proj2 Hrs v.1 Hv) as [k' Ht]. rewrite (renamed_ok rs (se_names s') v.1 k'), (renamed_ok rs (se_names s) v.1 k') by (apply Hrs || apply Hrs' || assumption).
  rewrite !IH by exact Hvs'. reflexivity.
Qed.

(** The number of errors when the entries [names] get the usages [us]; [seen]
    are those that were defined on the way. *)
Fixpoint reports (t : NameTableT) (seen names : list nat) (us : list Z) : nat :=
  match names, us with
  | p :: names, u :: us =>
      if has u U_DEFD then
        ((if defd_at t p || bool_decide (p ∈ seen) then 1 else 0) + reports t (p :: seen) names us)%nat
      else reports t seen names us
  | _, _ => O
  end.

Definition usages (vs : list (NameKeyT * DirectT)) : list Z := (fun v => get_use v.2) <$> vs.

(** The name of the capsule leads to the entry [p]. *)
Definition leads (s : ShapeEntryT) (v : NameKeyT * DirectT) (p : nat) : Prop := name_table_get (se_names s) v.1 = Some (Some p).

(** The errors by entries are those by names. *)
Lemma reports_redefined rs s vs : forall names seen_p seen,
  renames_ok rs s -> Forall (fun v => wf_key v.1) vs -> Forall2 (leads s) vs names ->
  (forall k' p, wf_key k' -> direct_of (se_names s) k' = Some p -> p ∈ seen_p <-> k' ∈ seen) ->
  reports (se_names s) seen_p names (usages vs) = redefined (se_names s) seen vs.
Proof.
  intros names seen_p seen [Hs Hall]. revert names seen_p seen. pose proof Hs as (Hdone & _). pose proof Hdone as (Hw & _).
  induction vs as [|v vs IH]; intros names seen_p seen Hvs Hl Hseen; inversion Hl as [|? p ? names' Hp Hl']; subst; [reflexivity|].
  inversion Hvs as [|? ? Hv Hvs']; subst. destruct (Hall v.1 Hv) as [k' Ht]. pose proof (target_key_wf _ _ _ _ Hdone Hv Ht) as Hk'.
  change (usages (v :: vs)) with (get_use v.2 :: usages vs). cbn [reports redefined].
  destruct (has (get_use v.2) U_DEFD); [|by apply IH]. rewrite (renamed_ok rs _ v.1 k') by assumption.
  unfold leads in Hp. pose proof Hp as Ed. rewrite (name_table_get_ok rs _ v.1 k') in Ed by assumption. injection Ed as Ed.
  unfold name_defined. rewrite Hp. rewrite (bool_decide_ext _ _ (Hseen k' p Hk' Ed)). f_equal. apply IH; [exact Hvs'|exact Hl'|].
  intros k2 q Hk2 Eq. rewrite !elem_of_cons, (Hseen k2 q Hk2 Eq). split; (intros [E|E]; [left|by right]); subst.
  - apply direct_of_named_inv in Ed, Eq; auto. exact (named_inj _ _ _ _ Hw Eq Ed).
  - congruence.
Qed.

(** The errors the usages of the capsule cause, shape by shape. *)
Fixpoint usage_reports (t : ShapeTableT) (entries : list nat) (namess : list (list nat)) (sss : list ShapeEntryT) : nat :=
  match entries, namess, sss with
  | p :: entries, names :: namess, ss :: sss =>
      (from_option (fun s => reports (se_names s) [] names (usages (visible (se_names ss)))) O (st_entries t !! p) +
       usage_reports t entries namess sss)%nat
  | _, _, _ => O
  end.

Lemma usage_reports_same t t' entries : forall namess sss,
  (forall q, q ∈ entries -> st_entries t' !! q = st_entries t !! q) -> usage_reports t' entries namess sss = usage_reports t entries namess sss.
Proof.
  induction entries as [|p entries IH]; intros [|names namess] [|ss sss] H; cbn [usage_reports]; try reflexivity.
  rewrite (H p) by left. f_equal. apply IH. intros q Hq. apply H. by right.
Qed.

(** The same by names; [t]: the table before the names were read. *)
Fixpoint redefinitions_at (t : ShapeTableT) (entries : list nat) (sss : list ShapeEntryT) : nat :=
  match entries, sss with
  | p :: entries, ss :: sss =>
      (from_option (fun s => redefined (se_names s) [] (visible (se_names ss))) O (st_entries t !! p) + redefinitions_at t entries sss)%nat
  | _, _ => O
  end.

Lemma redefinitions_at_same t t' entries : forall sss,
  (forall q, q ∈ entries -> st_entries t' !! q = st_entries t !! q) -> redefinitions_at t' entries sss = redefinitions_at t entries sss.
Proof.
  induction entries as [|p entries IH]; intros [|ss sss] H; cbn [redefinitions_at]; try reflexivity.
  rewrite (H p) by left. f_equal. apply IH. intros q Hq. apply H. by right.
Qed.

Lemma external_names_loop_ok vs : forall l ss s d names,
  st_entries (l_shapes l) !! sd_entry d = Some s -> good_shape definition s -> slots_ok d ss s -> id_count ss <= UINT_MAX ->
  Forall (fun v => ok_key v.1 /\ 0 <= id v.2 < id_count ss) vs -> NoDup ((fun v => id v.2) <$> vs) ->
  (forall v, v ∈ vs -> sd_id_maps d !! Z.to_nat (id v.2) = Some UINT_MAX) ->
  (forall p, p ∈ names -> get_direct (se_names s) p <> None) ->
  exists s' d' names', lreads (external_names_loop junk junk_nstring (length vs) d names) (fmt_list fmt_extern vs) l
      (d', names') (with_shapes (set_shape (l_shapes l) (sd_entry d) s') l) /\
    good_shape definition s' /\ grows s s' /\ slots_ok d' ss s' /\ sd_entry d' = sd_entry d /\
    length names' = (length names + length vs)%nat /\
    (forall p, p ∈ names' -> get_direct (se_names s') p <> None) /\ fills d d' /\ Forall (name_mapped d' s') vs /\
    same_defs s s' /\ exists new, names' = names ++ new /\ Forall2 (leads s') vs new.
Proof.
  induction vs as [|[k dv] vs IH]; intros l ss s d names Es Hs Hd Hss Hok Hnd Hfree Hn.
  { exists s, d, names. rewrite set_shape_id, with_shapes_id by auto. split; [apply lreads_ret|].
    split; [exact Hs|]. split; [reflexivity|]. split; [exact Hd|]. split; [reflexivity|].
    split; [cbn; lia|]. split; [exact Hn|]. split; [reflexivity|]. split; [constructor|]. split; [reflexivity|].
    exists []. rewrite app_nil_r. split; [reflexivity|constructor]. }
  inversion Hok as [|? ? [Hk Hid] Hok']; subst. cbn in Hk, Hid. inversion Hnd as [|? ? Hni Hnd']; subst.
  pose proof (Hfree (k, dv) ltac:(left)) as Hi. cbn in Hi. pose proof Hd as (Ek & En & Hl & Hr & Hb).
  pose proof (ok_key_wf k Hk) as Hwk.
  assert (id_count s < UINT_MAX) as Hmax.
  { pose proof (free_ids_insert _ _ 0 Hi ltac:(vm_compute; discriminate)). lia. }
  destruct (add_name_ok _ s k Hs Hwk Hmax) as (s1 & p & dp & Ea & Hs1 & Hg1 & Hget & Edp & Hidp & Hc1).
  set (d1 := ShapeData (sd_entry d) (sd_num_ids d) (<[Z.to_nat (id dv) := id dp]> (sd_id_maps d))).
  set (l1 := with_shapes (set_shape (l_shapes l) (sd_entry d) s1) l).
  pose proof (set_shape_lookup (l_shapes l) (sd_entry d) s1 s Es) as Es1.
  destruct (IH l1 ss s1 d1 (names ++ [p])) as (s' & d' & names' & Hl' & Hs' & Hg' & Hd' & Ed' & Hlen & Hn' & Hf' & Hmap & Hsd & new & -> & Hnew); auto.
  - eapply slots_fill; [exact Hd|exact Hi|exact Hidp|apply Hg1|exact Hc1].
  - intros v Hv. cbn [sd_id_maps d1]. rewrite list_lookup_insert_ne; [apply Hfree; by right|].
    intros E. apply Hni. rewrite Forall_forall in Hok'. destruct (Hok' v (proj1 (list_elem_of_In _ _) Hv)) as [_ Hv'].
    assert (id dv = id v.2) as Eid by lia. cbn. rewrite Eid. exact (list_elem_of_fmap_2 (fun v => id v.2) _ _ Hv).
  - intros q Hq. apply elem_of_app in Hq as [Hq|Hq]; [apply Hg1; auto|].
    apply list_elem_of_singleton in Hq as ->. congruence.
  - exists s', d', ((names ++ [p]) ++ new). cbn [l_shapes with_shapes l1] in Hl'. cbn [sd_entry d1] in Hl'. rewrite set_shape_twice in Hl'.
    split; [|split; [exact Hs'|split; [by transitivity s1|split; [exact Hd'|split; [exact Ed'|split; [|split; [exact Hn'|split; [|split; [|split]]]]]]]]].
    2: { rewrite Hlen, length_app. cbn. lia. }
    2: { transitivity d1; [by apply fills_insert|exact Hf']. }
    2: { constructor; [|exact Hmap]. apply (name_mapped_grows d1 d' s1 s'); auto. exists p, dp.
         pose proof (proj1 Hs1) as (rs & (_ & _ & Hmax1) & _). split; [exact Hget|]. split; [exact Edp|]. split; [|lia].
         cbn. apply list_lookup_insert_eq. by eapply lookup_lt_Some. }
    2: { transitivity s1; [by eapply add_name_defs|exact Hsd]. }
    2: { exists (p :: new). split; [by rewrite <- app_assoc|]. constructor; [|exact Hnew]. unfold leads.
         exact (proj1 (proj2 (proj2 Hg') k p dp Hwk Hget Edp)). }
    cbn [length external_names_loop fmt_list foldr]. unfold fmt_extern at 1. cbn [fst snd]. rewrite fmt_seq_assoc.
    apply lreads_int; [unfold is_unsigned, UINT_MAX, UINT_BITS in *; lia|].
    eapply lreads_rd_bind; [by apply tdf_read_name_ok|apply tdf_read_name_keeps|].
    rewrite (proj2 (Z.leb_gt _ _)) by lia. eapply get_shape_step; [exact Es|].
    eapply need_step; [exact Ea|]. cbn iota. apply put_shape_step.
    eapply need_step; [exact Hi|]. rewrite Z.eqb_refl. cbn [negb]. eapply need_step; [exact Edp|]. exact Hl'.
Qed.

(** What the reader accepts of a written shape: identifiers below the count
    and each given to one name, and usages that mean something. *)
Definition legal_use (key : NStringT) (v : NameKeyT * DirectT) : Prop :=
  bad_usage (get_use v.2) (bool_decide (key = tag_name)) (bool_decide (key = token_name)) = false.

Record readable (ss : ShapeEntryT) : Prop := {
  rb_key : ok_nstring (se_key ss);
  rb_ids : 0 <= id_count ss <= UINT_MAX;
  rb_names : Forall (fun v => ok_key v.1 /\ 0 <= id v.2 < id_count ss) (visible (se_names ss));
  rb_nodup : NoDup ((fun v => id v.2) <$> visible (se_names ss));
  rb_count : is_unsigned (Z.of_nat (length (visible (se_names ss))));
  rb_uses : Forall (legal_use (se_key ss)) (visible (se_names ss))
}.

Lemma mapped_grows ss d d' s s' :
  readable ss -> fills d d' -> grows s s' ->
  Forall (name_mapped d s) (visible (se_names ss)) -> Forall (name_mapped d' s') (visible (se_names ss)).
Proof.
  intros Hss Hf Hg H. apply Forall_forall. intros v Hv. pose proof (rb_names _ Hss) as Hn. rewrite Forall_forall in Hn.
  rewrite Forall_forall in H. apply (name_mapped_grows d d' s s'); auto. by apply ok_key_wf, Hn.
Qed.

Lemma set_shape_good def t p s s' :
  good_shapes def t -> st_entries t !! p = Some s -> se_key s' = se_key s -> good_shape def s' -> good_shapes def (set_shape t p s').
Proof.
  intros [Hwf Hall Htok Htag] E Ek Hs'. constructor; [by eapply set_shape_wf| |exact Htok|exact Htag].
  intros q x Hq. cbn in Hq. apply list_lookup_insert_Some in Hq as [(<- & <- & _)|(_ & Hq)]; [exact Hs'|by eapply Hall].
Qed.

Lemma data_ok_other t p s d ss : sd_entry d <> p -> data_ok t d ss -> data_ok (set_shape t p s) d ss.
Proof. intros Hne (x & Ex & H). exists x. cbn. rewrite list_lookup_insert_ne by congruence. auto. Qed.

(** The names of a shape of the capsule, as entries of the linker's table. *)
Definition names_ok (t : ShapeTableT) (d : ShapeDataT) (names : list nat) (ss : ShapeEntryT) : Prop :=
  length names = length (visible (se_names ss)) /\
  exists s, st_entries t !! sd_entry d = Some s /\ (forall p, p ∈ names -> get_direct (se_names s) p <> None) /\
    Forall (name_mapped d s) (visible (se_names ss)).

(** All that is known of a shape of the capsule once its names are read. *)
Definition shape_read (t : ShapeTableT) (d : ShapeDataT) (names : list nat) (ss : ShapeEntryT) : Prop :=
  data_ok t d ss /\ names_ok t d names ss.

Inductive all_read (t : ShapeTableT) : list ShapeDataT -> list (list nat) -> list ShapeEntryT -> Prop :=
| all_read_nil : all_read t [] [] []
| all_read_cons d vec names namess ss sss :
    shape_read t d names ss -> all_read t vec namess sss -> all_read t (d :: vec) (names :: namess) (ss :: sss).

Lemma shape_read_same t t' d names ss :
  st_entries t' !! sd_entry d = st_entries t !! sd_entry d -> shape_read t d names ss -> shape_read t' d names ss.
Proof.
  intros E [(s & Es & Hs) (Hl & s' & Es' & Hn)]. split; [exists s; by rewrite E|].
  split; [exact Hl|]. exists s'. by rewrite E.
Qed.

(** The names of the shape [key]. *)
Definition names_in (t : ShapeTableT) (key : NStringT) : NameTableT :=
  default name_table_create (p ← shape_table_get t key; se_names <$> st_entries t !! p).

(** The errors when the definitions of a capsule with the shapes [sss] meet
    those of the linker: for every definition of a name that is defined
    already, by the linker or by the capsule itself. *)
Definition redefinitions (t : ShapeTableT) (sss : list ShapeEntryT) : nat :=
  sum_list ((fun ss => redefined (names_in t (se_key ss)) [] (visible (se_names ss))) <$> sss).

Lemma redefinitions_at_names t t' vec sss :
  good_shapes definition t -> shapes_added t t' -> Forall2 (data_ok t') vec sss -> Forall (fun ss => wf_nstring (se_key ss)) sss ->
  redefinitions_at t' (sd_entry <$> vec) sss = redefinitions t sss.
Proof.
  intros Ht [Hold Hnew] Hf Hk. induction Hf as [|d ss vec sss (s & Es & Ek & _) Hf IH]; [reflexivity|].
  inversion Hk as [|? ? Hkey Hk']; subst. cbn [fmap list_fmap redefinitions_at]. rewrite IH, Es by exact Hk'. cbn [from_option].
  assert (se_names s = names_in t (se_key ss)) as ->; [|reflexivity]. unfold names_in. rewrite <- Ek in *. destruct (Hnew _ _ Es) as [E|[En Hne]].
  - assert (shape_table_get t (se_key s) = Some (sd_entry d)) as -> by (apply shape_get_entry; [apply Ht|exact Hkey|eauto]).
    cbn. by rewrite E.
  - assert (shape_table_get t (se_key s) = None) as ->; [|exact En]. destruct (shape_table_get t (se_key s)) as [q|] eqn:Eq; [|reflexivity].
    apply shape_get_entry in Eq as (x & Ex & Ekx); [by destruct (Hne q x Ex)|apply Ht|exact Hkey].
Qed.

Lemma external_names_shapes_ok vec : forall l sss,
  good_shapes definition (l_shapes l) -> Forall2 (data_ok (l_shapes l)) vec sss -> NoDup (sd_entry <$> vec) ->
  Forall fresh_slots vec -> Forall readable sss ->
  exists t' vec' namess, lreads (external_names_shapes junk junk_nstring vec) (fmt_list fmt_externs sss) l
      (vec', namess) (with_shapes t' l) /\
    good_shapes definition t' /\ all_read t' vec' namess sss /\ sd_entry <$> vec' = sd_entry <$> vec /\
    (forall q, q ∉ sd_entry <$> vec -> st_entries t' !! q = st_entries (l_shapes l) !! q) /\
    usage_reports t' (sd_entry <$> vec') namess sss = redefinitions_at (l_shapes l) (sd_entry <$> vec) sss.
Proof.
  induction vec as [|d vec IH]; intros l sss Ht Hf Hnd Hfr Hrd; inversion Hf as [|? ss ? sss' Hd Hf']; subst.
  { exists (l_shapes l), [], []. rewrite with_shapes_id by reflexivity. split; [apply lreads_ret|].
    split; [exact Ht|]. split; [constructor|]. auto. }
  cbn in Hnd. apply list.NoDup_cons in Hnd as [Hni Hnd']. inversion Hfr as [|? ? Hfd Hfr']; subst.
  inversion Hrd as [|? ? Hss Hrd']; subst. destruct Hss as [Hkey Hids Hnames Hnodup Hcount _].
  destruct Hd as (s & Es & Hd). pose proof Hd as (Ek & _ & Hl & _).
  destruct (external_names_loop_ok (visible (se_names ss)) l ss s d [] Es (gs_all _ _ Ht _ _ Es) Hd (proj2 Hids) Hnames Hnodup)
    as (s1 & d1 & names & Hl1 & Hs1 & Hg1 & Hd1 & Ed1 & Hlen & Hn1 & _ & Hmap & Hsd & new & Enew & Hnew).
  { intros v Hv. rewrite Forall_forall in Hnames. destruct (Hnames v (proj1 (list_elem_of_In _ _) Hv)) as [_ Hid].
    destruct (lookup_lt_is_Some_2 (sd_id_maps d) (Z.to_nat (id v.2))) as [x Ex]; [lia|].
    rewrite Ex. f_equal. exact (Forall_lookup_1 _ _ _ _ Hfd Ex). }
  { intros p Hp. inversion Hp. }
  cbn [app] in Enew. subst new.
  set (t1 := set_shape (l_shapes l) (sd_entry d) s1) in *.
  assert (good_shapes definition t1) as Ht1 by (apply (set_shape_good _ _ _ s); auto; apply Hg1).
  destruct (IH (with_shapes t1 l) sss' Ht1) as (t2 & vec2 & namess & Hl2 & Ht2 & Hr2 & Ee2 & Ho2 & Hrep); auto.
  { clear -Hf' Hni. induction Hf' as [|x ? y ? Hx Hf' IH]; constructor.
    - apply data_ok_other; [|exact Hx]. intros E. apply Hni. rewrite <- E. left.
    - apply IH. intros Hin. apply Hni. by right. }
  exists t2, (d1 :: vec2), (names :: namess). split; [|split; [exact Ht2|split; [|split; [|split]]]].
  - cbn [external_names_shapes fmt_list foldr]. eapply lreads_bind.
    + unfold capsule_read_external_names_1, fmt_externs. apply lreads_int; [exact Hcount|]. rewrite Nat2Z.id. exact Hl1.
    + cbn iota. fold t1. apply lreads_seq_nil. eapply lreads_bind; [exact Hl2|]. apply lreads_ret.
  - constructor; [|exact Hr2]. apply (shape_read_same t1).
    + rewrite Ed1. apply Ho2. exact Hni.
    + assert (st_entries t1 !! sd_entry d1 = Some s1) as E1 by (rewrite Ed1; by eapply set_shape_lookup).
      split; [by exists s1|]. split; [exact Hlen|]. by exists s1.
  - cbn. by rewrite Ed1, Ee2.
  - intros q Hq. cbn in Hq. rewrite Ho2 by (intros Hin; apply Hq; by right). cbn.
    apply list_lookup_insert_ne. intros <-. apply Hq. left.
  - cbn [fmap list_fmap usage_reports redefinitions_at]. rewrite Ed1, (Ho2 (sd_entry d)) by exact Hni. cbn [l_shapes with_shapes].
    unfold t1 at 1. rewrite (set_shape_lookup _ _ _ _ Es), Es. cbn [from_option]. cbn [l_shapes with_shapes] in Hrep. rewrite Hrep.
    rewrite (redefinitions_at_same (l_shapes l) t1) by (intros q Hq; cbn; apply list_lookup_insert_ne; intros <-; contradiction).
    f_equal. destruct (gs_all _ _ Ht _ _ Es) as [(rs & Hrs) _].
    assert (Forall (fun v => wf_key v.1) (visible (se_names ss))) as Hwk by (eapply Forall_impl; [|exact Hnames]; intros v [Hv _]; by apply ok_key_wf).
    rewrite <- (redefined_same rs s s1) by assumption. apply (reports_redefined rs); auto; [by apply Hsd|].
    intros k' p _ _. split; intros X; inversion X.
Qed.

Lemma read_external_names_ok l vec sss :
  good_shapes definition (l_shapes l) -> Forall2 (data_ok (l_shapes l)) vec sss -> NoDup (sd_entry <$> vec) ->
  Forall fresh_slots vec -> Forall readable sss -> is_unsigned (Z.of_nat (length sss)) ->
  exists t' vec' namess, lreads (capsule_read_external_names junk junk_nstring vec)
      (fmt_seq (fmt_int (Z.of_nat (length sss))) (fmt_list fmt_externs sss)) l (vec', namess) (with_shapes t' l) /\
    good_shapes definition t' /\ all_read t' vec' namess sss /\ NoDup (sd_entry <$> vec') /\
    usage_reports t' (sd_entry <$> vec') namess sss = redefinitions_at (l_shapes l) (sd_entry <$> vec) sss.
Proof.
  intros Ht Hf Hnd Hfr Hrd Hn. destruct (external_names_shapes_ok vec l sss Ht Hf Hnd Hfr Hrd)
    as (t' & vec' & namess & Hl & Ht' & Hr & Ee & _ & Hrep).
  exists t', vec', namess. rewrite Ee in Hrep |- *. split; [|auto]. unfold capsule_read_external_names. apply lreads_int; [exact Hn|].
  rewrite (Forall2_length Hf), Z.eqb_refl. exact Hl.
Qed.

(** ** Usages *)

(** The direct entry [p] changes to [d]. *)
Definition direct_set (p : nat) (d : DirectT) (t t' : NameTableT) : Prop :=
  nt_contents t' = nt_contents t /\ (forall q, name_entry_key t' q = name_entry_key t q) /\
  length (nt_entries t') = length (nt_entries t) /\
  forall q, entry_type t' q = if decide (q = p) then Some (NT_DIRECT d) else entry_type t q.

Lemma get_direct_type t p d : get_direct t p = Some d <-> entry_type t p = Some (NT_DIRECT d).
Proof.
  unfold get_direct. destruct (entry_type t p) as [ty|]; [|split; discriminate]. cbn [mbind option_bind].
  destruct ty; split; congruence.
Qed.

Lemma direct_set_get p d t t' q : direct_set p d t t' -> get_direct t' q = if decide (q = p) then Some d else get_direct t q.
Proof. intros (_ & _ & _ & H). unfold get_direct. rewrite H. case_decide; reflexivity. Qed.

Lemma direct_set_trans p d1 d2 t t1 t2 : direct_set p d1 t t1 -> direct_set p d2 t1 t2 -> direct_set p d2 t t2.
Proof.
  intros (E1 & K1 & L1 & H1) (E2 & K2 & L2 & H2). split_and!; [congruence| |congruence|].
  - intros q. by rewrite K2.
  - intros q. rewrite H2. case_decide; [reflexivity|]. rewrite H1, decide_False by assumption. reflexivity.
Qed.

Lemma update_direct_set t p f d :
  get_direct t p = Some d -> exists t', update_direct t p f = Some t' /\ direct_set p (f d) t t'.
Proof.
  intros E. destruct (update_direct_ok t p f d E) as [-> _]. eexists. split; [reflexivity|].
  apply get_direct_type in E. assert (p < length (nt_entries t))%nat as Hlt by (apply entry_type_lt; eauto).
  split_and!; [reflexivity|intros q; apply set_type_keys|apply set_type_length|].
  intros q. rewrite entry_type_set by exact Hlt. repeat case_decide; congruence || reflexivity.
Qed.

Lemma merge_usage_set capsule t p u d :
  get_direct t p = Some d -> (has (use d) U_DEFD = true -> definition d <> None) ->
  exists t' again d', merge_usage capsule t p u = Some (t', again) /\ direct_set p d' t t' /\ id d' = id d /\
    (has (use d') U_DEFD = true -> definition d' <> None) /\ use d' = Z.lor (use d) u /\
    (definition d' = definition d \/ definition d' = None \/ definition d' = Some capsule /\ has u U_DEFD || has u U_MULT = true).
Proof.
  intros E Hdef. unfold merge_usage, name_entry_get_use. rewrite E. cbn [fmap option_fmap option_map mbind option_bind].
  assert (forall t0 d0 (again : bool), direct_set p d0 t t0 -> id d0 = id d -> use d0 = use d ->
    (has (Z.lor (use d) u) U_DEFD = true -> definition d0 <> None) ->
    (definition d0 = definition d \/ definition d0 = None \/ definition d0 = Some capsule /\ has u U_DEFD || has u U_MULT = true) ->
    exists t' again' d', (t1 ← name_entry_merge_use t0 p u; Some (t1, again)) = Some (t', again') /\
      direct_set p d' t t' /\ id d' = id d /\ (has (use d') U_DEFD = true -> definition d' <> None) /\ use d' = Z.lor (use d) u /\
      (definition d' = definition d \/ definition d' = None \/ definition d' = Some capsule /\ has u U_DEFD || has u U_MULT = true)) as Hfin.
  { intros t0 d0 again H0 Ei Eu Hd Hdd. unfold name_entry_merge_use.
    destruct (update_direct_set t0 p (set_use (fun v => Z.lor v u)) d0) as (t1 & -> & H1).
    { rewrite (direct_set_get _ _ _ _ _ H0), decide_True by reflexivity. reflexivity. }
    eexists _, again, _. split; [reflexivity|]. split; [by eapply direct_set_trans|]. cbn. rewrite Eu. auto. }
  assert (direct_set p d t t) as Hrefl.
  { split_and!; auto. intros q. case_decide; [subst; by apply get_direct_type|reflexivity]. }
  unfold usage_of. rewrite has_two, !get_use_has by (unfold U_DEFD, U_MULT; lia). rewrite has_lor in Hfin.
  unfold name_entry_set_definition.
  destruct (has u U_DEFD) eqn:Hu; destruct (has (use d) U_DEFD) eqn:Hd; cbn [andb orb negb];
    rewrite ?andb_false_r, ?orb_true_r, ?orb_false_r; cbn [andb orb negb].
  - destruct (definition d) as [c|] eqn:Ec; [|by destruct (Hdef eq_refl)]. cbn [mbind option_bind].
    apply (Hfin t d true); auto. congruence.
  - destruct (update_direct_set t p (fun d => Direct (id d) (use d) (Some capsule) (lib_definition d)) d E) as (t1 & -> & H1).
    cbn [mbind option_bind]. apply (Hfin t1 _ false H1); auto.
  - cbn [negb]. rewrite ?andb_false_r. cbn [mbind option_bind]. apply (Hfin t d false); auto.
  - destruct (has u U_MULT) eqn:Hm; [|cbn [andb mbind option_bind]; by apply (Hfin t d false); auto].
    destruct (has (use d) U_MULT); cbn [andb orb negb mbind option_bind].
    + destruct (update_direct_set t p (fun d => Direct (id d) (use d) None (lib_definition d)) d E) as (t1 & -> & H1).
      cbn [mbind option_bind]. apply (Hfin t1 _ false H1); auto.
    + destruct (update_direct_set t p (fun d => Direct (id d) (use d) (Some capsule) (lib_definition d)) d E) as (t1 & -> & H1).
      cbn [mbind option_bind]. apply (Hfin t1 _ false H1); auto.
Qed.

Lemma direct_set_wf p d t t' : direct_set p d t t' -> wf_table t -> wf_table t'.
Proof.
  intros (Ec & Ek & El & _) (Hc & Hnd & Hp & Hk). unfold wf_table. rewrite Ec, El. split_and!; auto.
  intros k q Hin. rewrite Ek. auto.
Qed.

Lemma direct_set_name p d d' t t' k :
  get_direct t p = Some d -> direct_set p d' t t' -> name_table_get t' k = name_table_get t k.
Proof.
  intros Ed (Ec & _ & _ & Ht). unfold name_table_get. rewrite Ec. destruct (ht_get (nt_contents t) k) as [q|]; [|reflexivity].
  apply get_direct_type in Ed.
  assert (forall q, entry_type t' q = entry_type t q \/ q = p /\ entry_type t' q = Some (NT_DIRECT d')) as Hq.
  { intros x. rewrite Ht. case_decide; auto. }
  destruct (Hq q) as [->|[-> ->]].
  - destruct (entry_type t q) as [ty|]; [|reflexivity]. cbn [mbind option_bind].
    destruct (if name_entry_is_indirect ty then _ else _) as [x|]; [|reflexivity]. cbn [mbind option_bind].
    destruct (Hq x) as [->|[-> ->]]; [reflexivity|]. by rewrite Ed.
  - rewrite Ed. cbn [mbind option_bind name_entry_is_indirect].
    destruct (Hq p) as [->|[_ ->]]; by rewrite ?Ed.
Qed.

Lemma direct_set_shape_ok rs s p d d' t' :
  shape_ok rs s -> get_direct (se_names s) p = Some d -> direct_set p d' (se_names s) t' -> id d' = id d ->
  shape_ok rs (set_names s t') /\ forall q, get_direct t' q = None <-> get_direct (se_names s) q = None.
Proof.
  intros (Hdone & (Hlt & Hinj & Hlist) & Hc) Ed Hset Eid.
  pose proof (fun q => direct_set_get p d' (se_names s) t' q Hset) as Hget.
  assert (forall q, get_direct t' q = None <-> get_direct (se_names s) q = None) as Hnone.
  { intros q. rewrite Hget. case_decide; [subst; split; congruence|reflexivity]. }
  split; [|exact Hnone]. split; [|split; [|exact Hc]].
  - destruct Hdone as (Ht & Hty & Hdom). cbn [se_names set_names]. pose proof (direct_set_wf _ _ _ _ Hset Ht) as Ht'.
    destruct Hset as (Ec & _ & _ & He). assert (forall k q, named t' k q <-> named (se_names s) k q) as Hn
      by (intros; unfold named; rewrite Ec; reflexivity).
    split; [exact Ht'|]. split.
    + intros q ty. rewrite He. case_decide as Eq; [intros [= <-]; subst q; apply get_direct_type in Ed; specialize (Hty p _ Ed);
        intros k Hk; apply Hty; by apply Hn|]. intros E. specialize (Hty q ty E).
      destruct ty as [| |[r|]| |]; auto; intros k Hk; rewrite Hn in Hk; auto.
      destruct (Hty k Hk) as (H1 & k' & H2 & H3). split; [exact H1|]. exists k'. rewrite Hn. auto.
    + intros k Hk. destruct (Hdom k Hk) as [q Hq]. exists q. by apply Hn.
  - unfold ids_ok. cbn [se_names set_names id_count se_list]. split_and!.
    + intros q e. rewrite Hget. case_decide; [intros [= <-]; rewrite Eid; by apply (Hlt p)|apply Hlt].
    + intros q q' e e'. rewrite !Hget. repeat case_decide; subst; auto.
      * intros [= <-] E' Ei. rewrite Eid in Ei. by apply (Hinj p q' d e').
      * intros E' [= <-] Ei. rewrite Eid in Ei. by apply (Hinj q p e d).
      * apply Hinj.
    + eapply Forall_impl; [|exact Hlist]. intros q. cbn. rewrite Hnone. auto.
Qed.

Lemma direct_set_good def s p d d' t' :
  good_shape def s -> get_direct (se_names s) p = Some d -> direct_set p d' (se_names s) t' -> id d' = id d ->
  (has (use d') U_DEFD = true -> def d' <> None) ->
  good_shape def (set_names s t') /\ grows s (set_names s t').
Proof.
  intros [(rs & Hok & Hall) Hdef] Ed Hset Eid Hd'. destruct (direct_set_shape_ok rs s p d d' t' Hok Ed Hset Eid) as [Hok' Hnone].
  pose proof (fun q => direct_set_get p d' (se_names s) t' q Hset) as Hget. split; [split|].
  - exists rs. by split.
  - intros q e. cbn [se_names set_names]. rewrite Hget. case_decide; [intros [= <-]; exact Hd'|apply Hdef].
  - split; [reflexivity|]. split; [intros q; cbn [se_names set_names]; rewrite Hnone; auto|].
    intros k q e Hk Hn He. cbn [se_names set_names]. rewrite (direct_set_name _ _ _ _ _ k Ed Hset). split; [exact Hn|].
    rewrite Hget. case_decide; [subst; exists d'; split; [reflexivity|congruence]|eauto].
Qed.

(** *** Definitions that are there already *)

Lemma reports_ext t t' names : forall us seen seen',
  (forall p, defd_at t' p || bool_decide (p ∈ seen') = defd_at t p || bool_decide (p ∈ seen)) ->
  reports t' seen' names us = reports t seen names us.
Proof.
  induction names as [|p names IH]; intros [|u us] seen seen' H; cbn [reports]; try reflexivity. rewrite H.
  destruct (has u U_DEFD); [|by apply IH]. f_equal. apply IH. intros q. specialize (H q).
  destruct (decide (q = p)) as [->|Hq].
  - rewrite (bool_decide_eq_true_2 (p ∈ p :: seen')), (bool_decide_eq_true_2 (p ∈ p :: seen)) by left. by rewrite !orb_true_r.
  - rewrite (bool_decide_ext (q ∈ p :: seen') (q ∈ seen')), (bool_decide_ext (q ∈ p :: seen) (q ∈ seen)); [exact H|rewrite elem_of_cons; (split; [intros [E|E]; [contradiction|exact E]|by right])..].
Qed.

(** The first usage is merged, the others follow. *)
Lemma reports_merged t t' p d d' u names us :
  get_direct t p = Some d -> direct_set p d' t t' -> use d' = Z.lor (use d) u ->
  reports t [] (p :: names) (u :: us) = ((if has u U_DEFD && has (use d) U_DEFD then 1 else 0) + reports t' [] names us)%nat.
Proof.
  intros Ed Hset Eu. cbn [reports]. assert (defd_at t p = has (use d) U_DEFD) as Ep by (unfold defd_at; by rewrite Ed).
  rewrite Ep, bool_decide_eq_false_2 by (intros H; inversion H). rewrite orb_false_r.
  assert (forall q, defd_at t' q = defd_at t q || bool_decide (q = p) && has u U_DEFD) as H.
  { intros q. unfold defd_at. rewrite (direct_set_get _ _ _ _ _ Hset). case_decide as Eq; [|rewrite bool_decide_eq_false_2, orb_false_r by exact Eq; reflexivity].
    subst q. rewrite bool_decide_eq_true_2, Ed by reflexivity. cbn. by rewrite Eu, has_lor. }
  destruct (has u U_DEFD); cbn [andb].
  - f_equal. symmetry. apply reports_ext. intros q. rewrite H, andb_true_r. rewrite (bool_decide_eq_false_2 (q ∈ [])) by (intros X; inversion X).
    rewrite orb_false_r. f_equal. apply bool_decide_ext. by rewrite list_elem_of_singleton.
  - symmetry. apply reports_ext. intros q. rewrite H, andb_false_r, orb_false_r. reflexivity.
Qed.

Lemma merge_usage_again capsule t p u d t' again :
  get_direct t p = Some d -> merge_usage capsule t p u = Some (t', again) -> again = has u U_DEFD && has (use d) U_DEFD.
Proof.
  intros E. unfold merge_usage, name_entry_get_use. rewrite E. cbn [fmap option_fmap option_map mbind option_bind].
  unfold usage_of. rewrite !get_use_has by (unfold U_DEFD; lia). destruct (has u U_DEFD && has (use d) U_DEFD).
  - destruct (definition d); [|discriminate]. cbn [mbind option_bind]. destruct (name_entry_merge_use _ _ _); [|discriminate]. cbn. by intros [= _ <-].
  - destruct (_ && _ && _ && _); [|destruct (_ || _)]; cbn [mbind option_bind].
    + destruct (name_entry_set_definition _ _ _); [|discriminate]. cbn [mbind option_bind]. destruct (name_entry_merge_use _ _ _); [|discriminate]. cbn. by intros [= _ <-].
    + destruct (name_entry_set_definition _ _ _); [|discriminate]. cbn [mbind option_bind]. destruct (name_entry_merge_use _ _ _); [|discriminate]. cbn. by intros [= _ <-].
    + destruct (name_entry_merge_use _ _ _); [|discriminate]. cbn. by intros [= _ <-].
Qed.

(** The operation reads the format and reports [n] errors, if the program
    does not end because of them. *)
Definition lreads_n {A} (m : link A) (f : format) (l : LinkT) (a : A) (n : nat) (l' : LinkT) : Prop :=
  room_for n (l_errors l) -> lreads m f l a (with_errors (add_errors n (l_errors l)) l').

Lemma with_no_errors l : with_errors (add_errors 0 (l_errors l)) l = l.
Proof. rewrite add_errors_0. by destruct l. Qed.

Lemma lreads_no_errors {A} (m : link A) f l a l' : l_errors l' = l_errors l -> lreads m f l a l' -> lreads_n m f l a 0 l'.
Proof. intros E H _. rewrite <- E, with_no_errors. exact H. Qed.

Lemma serious_step {A} (again : bool) (k : unit -> link A) f l a l' :
  room_for (if again then 1 else 0) (l_errors l) ->
  lreads (k tt) f (with_errors (add_errors (if again then 1 else 0) (l_errors l)) l) a l' ->
  lreads ((if again then serious else mret tt) ≫= k) f l a l'.
Proof.
  intros Hr. apply lreads_step. intros r. destruct again.
  - unfold serious. cbn [l_errors with_reader]. by rewrite serious_error_room.
  - rewrite with_no_errors. reflexivity.
Qed.

Lemma read_usage_ok capsule need_dec no_mult vs : forall l e s names,
  st_entries (l_shapes l) !! e = Some s -> good_shape definition s -> length names = length vs ->
  (forall p, p ∈ names -> get_direct (se_names s) p <> None) ->
  Forall (fun v => bad_usage (get_use v.2) need_dec no_mult = false) vs ->
  exists s', lreads_n (capsule_read_usage capsule e names need_dec no_mult) (fmt_list fmt_use vs) l tt
      (reports (se_names s) [] names (usages vs)) (with_shapes (set_shape (l_shapes l) e s') l) /\
    good_shape definition s' /\ grows s s' /\ id_count s' = id_count s.
Proof.
  induction vs as [|v vs IH]; intros l e s names Es Hs Hlen Hn Hlegal; destruct names as [|p names]; try discriminate.
  { exists s. rewrite set_shape_id, with_shapes_id by auto. split; [apply lreads_no_errors; [reflexivity|apply lreads_ret]|].
    split; [exact Hs|]. by split. }
  inversion Hlegal as [|? ? Hbad Hlegal']; subst.
  destruct (get_direct (se_names s) p) as [d|] eqn:Ed; [|by destruct (Hn p ltac:(left))].
  destruct (merge_usage_set capsule (se_names s) p (get_use v.2) d Ed (proj2 Hs p d Ed)) as (t & again & d' & Em & Hset & Eid & Hd' & Eu & _).
  destruct (direct_set_good _ s p d d' t Hs Ed Hset Eid Hd') as [Hs1 Hg1].
  pose proof (merge_usage_again _ _ _ _ _ _ _ Ed Em) as Ea.
  set (s1 := set_names s t) in *. set (k := (if again then 1 else 0)%nat). set (l0 := with_errors (add_errors k (l_errors l)) l).
  set (l1 := with_shapes (set_shape (l_shapes l) e s1) l0).
  destruct (IH l1 e s1 names) as (s' & Hl & Hs' & Hg' & Ec'); auto.
  { by eapply set_shape_lookup. }
  { intros q Hq. apply Hg1, Hn. by right. }
  exists s'. split; [|split; [exact Hs'|split; [by transitivity s1|rewrite Ec'; reflexivity]]].
  change (usages (v :: vs)) with (get_use v.2 :: usages vs).
  rewrite (reports_merged _ t p d d' (get_use v.2) names (usages vs) Ed Hset Eu), <- Ea. fold k.
  intros Hroom. assert (room_for (reports t [] names (usages vs)) (l_errors l1)) as Hroom1.
  { unfold room_for, l1, l0 in *. cbn. lia. }
  specialize (Hl Hroom1). cbn [capsule_read_usage fmt_list foldr]. pose proof (get_use_range v.2).
  apply lreads_int; [unfold is_unsigned; lia|]. eapply get_shape_step; [exact Es|]. rewrite Hbad.
  eapply need_step; [exact Em|]. cbn iota. apply serious_step; fold k; [unfold room_for in *; lia|]. fold l0.
  apply put_shape_step. fold s1. change (l_shapes l0) with (l_shapes l). fold l1.
  cbn [l1 l_shapes with_shapes] in Hl. rewrite set_shape_twice in Hl. rewrite Nat.add_comm.
  rewrite <- add_errors_add. exact Hl.
Qed.

(** The position of the shape called [key]. *)
Definition index_of (vec : list ShapeDataT) (sss : list ShapeEntryT) (key : NStringT) (o : option nat) : Prop :=
  forall j d ss, vec !! j = Some d -> sss !! j = Some ss -> Some j = o <-> se_key ss = key.

Lemma shape_index_iff vec entry j d :
  NoDup (sd_entry <$> vec) -> vec !! j = Some d -> Some j = shape_index entry vec <-> entry = Some (sd_entry d).
Proof.
  revert j. induction vec as [|x vec IH]; intros j Hnd Hj; [discriminate|]. cbn in Hnd. apply list.NoDup_cons in Hnd as [Hni Hnd].
  cbn [shape_index]. destruct j as [|j]; cbn in Hj.
  - injection Hj as ->. case_decide as E; [by subst|]. split; [|congruence].
    destruct (shape_index entry vec); discriminate.
  - case_decide as E.
    + split; [discriminate|]. intros ->. injection E as E. destruct Hni. rewrite E.
      apply list_elem_of_fmap_2. by eapply list_elem_of_lookup_2.
    + rewrite <- (IH j Hnd Hj). destruct (shape_index entry vec); cbn; split; congruence.
Qed.

Lemma all_read_lookup t vec namess sss j d ss :
  all_read t vec namess sss -> vec !! j = Some d -> sss !! j = Some ss -> data_ok t d ss.
Proof.
  intros H. revert j. induction H as [|d0 vec names namess ss0 sss Hr H IH]; intros [|j]; cbn; try discriminate.
  - intros [= <-] [= <-]. apply Hr.
  - apply IH.
Qed.

Lemma index_of_entry t vec namess sss key :
  good_shapes definition t -> wf_nstring key -> all_read t vec namess sss -> NoDup (sd_entry <$> vec) ->
  index_of vec sss key (shape_index (shape_table_get t key) vec).
Proof.
  intros Ht Hk Hr Hnd j d ss Hj Hs. rewrite (shape_index_iff vec _ j d Hnd Hj).
  destruct (all_read_lookup _ _ _ _ _ _ _ Hr Hj Hs) as (s & Es & Ek & _).
  rewrite (shape_get_entry t key _ (gs_wf _ _ Ht) Hk). split.
  - intros (s' & Es' & Ek'). congruence.
  - intros E. exists s. split; [exact Es|congruence].
Qed.

(** The pointer the token and tag functions cache. *)
Lemma token_entry_ok def t :
  good_shapes def t -> exists t', shape_table_get_token_entry t = (t', shape_table_get t token_name) /\
    good_shapes def t' /\ st_contents t' = st_contents t /\ st_entries t' = st_entries t.
Proof.
  intros Ht. pose proof Ht as [Hwf Hall Htok Htag]. unfold shape_table_get_token_entry.
  destruct (token_entry t) as [p|] eqn:E; [exists t; rewrite (Htok p eq_refl); auto|].
  eexists. split; [reflexivity|]. split; [|auto]. constructor; [exact Hwf|exact Hall| |exact Htag].
  intros q. cbn. auto.
Qed.

Lemma tag_entry_ok def t :
  good_shapes def t -> exists t', shape_table_get_tag_entry t = (t', shape_table_get t tag_name) /\
    good_shapes def t' /\ st_contents t' = st_contents t /\ st_entries t' = st_entries t.
Proof.
  intros Ht. pose proof Ht as [Hwf Hall Htok Htag]. unfold shape_table_get_tag_entry.
  destruct (tag_entry t) as [p|] eqn:E; [exists t; rewrite (Htag p eq_refl); auto|].
  eexists. split; [reflexivity|]. split; [|auto]. constructor; [exact Hwf|exact Hall|exact Htok|].
  intros q. cbn. auto.
Qed.

Lemma all_read_same t t' vec namess sss :
  (forall q, q ∈ sd_entry <$> vec -> st_entries t' !! q = st_entries t !! q) ->
  all_read t vec namess sss -> all_read t' vec namess sss.
Proof.
  intros E H. induction H as [|d vec names namess ss sss Hr H IH]; constructor.
  - eapply shape_read_same; [|exact Hr]. apply E. left.
  - apply IH. intros q Hq. apply E. by right.
Qed.

Lemma read_usages_ok capsule tag token vec : forall l namess sss i,
  good_shapes definition (l_shapes l) -> all_read (l_shapes l) vec namess sss -> NoDup (sd_entry <$> vec) -> Forall readable sss ->
  (forall j d ss, vec !! j = Some d -> sss !! j = Some ss -> Some (i + j)%nat = tag <-> se_key ss = tag_name) ->
  (forall j d ss, vec !! j = Some d -> sss !! j = Some ss -> Some (i + j)%nat = token <-> se_key ss = token_name) ->
  exists t', lreads_n (read_usages capsule vec namess i tag token) (fmt_list fmt_usage sss) l tt
      (usage_reports (l_shapes l) (sd_entry <$> vec) namess sss) (with_shapes t' l) /\
    good_shapes definition t' /\ all_read t' vec namess sss /\
    (forall q, q ∉ sd_entry <$> vec -> st_entries t' !! q = st_entries (l_shapes l) !! q).
Proof.
  induction vec as [|d vec IH]; intros l namess sss i Ht Hr Hnd Hrd Htag Htok; inversion Hr as [|? ? names namess' ss sss' Hd Hr']; subst.
  { exists (l_shapes l). rewrite with_shapes_id by reflexivity. split; [|auto]. apply lreads_no_errors; [reflexivity|apply lreads_ret]. }
  cbn in Hnd. apply list.NoDup_cons in Hnd as [Hni Hnd']. inversion Hrd as [|? ? Hss Hrd']; subst.
  destruct Hd as [(s & Es & Hslots) (Hlen & s0 & Es0 & Hn & Hmap)]. rewrite Es in Es0. injection Es0 as <-.
  assert (bool_decide (Some i = tag) = bool_decide (se_key ss = tag_name)) as Etag.
  { apply bool_decide_ext. rewrite <- (Htag 0%nat d ss eq_refl eq_refl), Nat.add_0_r. reflexivity. }
  assert (bool_decide (Some i = token) = bool_decide (se_key ss = token_name)) as Etok.
  { apply bool_decide_ext. rewrite <- (Htok 0%nat d ss eq_refl eq_refl), Nat.add_0_r. reflexivity. }
  destruct (read_usage_ok capsule (bool_decide (Some i = tag)) (bool_decide (Some i = token)) (visible (se_names ss))
    l (sd_entry d) s names Es (gs_all _ _ Ht _ _ Es) Hlen Hn) as (s1 & Hl1 & Hs1 & Hg1 & Ec1).
  { rewrite Etag, Etok. apply (rb_uses _ Hss). }
  set (t1 := set_shape (l_shapes l) (sd_entry d) s1) in *. set (n1 := reports (se_names s) [] names _) in *.
  set (l1 := with_errors (add_errors n1 (l_errors l)) (with_shapes t1 l)).
  assert (good_shapes definition t1) as Ht1 by (apply (set_shape_good _ _ _ s); auto; apply Hg1).
  destruct (IH l1 namess' sss' (S i) Ht1) as (t2 & Hl2 & Ht2 & Hr2 & Ho2); auto.
  { eapply all_read_same; [|exact Hr']. intros q Hq. cbn. apply list_lookup_insert_ne. intros <-. contradiction. }
  { intros j x y Hj Hy. rewrite Nat.add_succ_l, <- Nat.add_succ_r. by apply (Htag (S j) x y). }
  { intros j x y Hj Hy. rewrite Nat.add_succ_l, <- Nat.add_succ_r. by apply (Htok (S j) x y). }
  exists t2. split; [|split; [exact Ht2|split]].
  - cbn [fmap list_fmap usage_reports]. rewrite Es. cbn [from_option]. fold n1.
    rewrite <- (usage_reports_same (l_shapes l) t1) by (intros q Hq; cbn; apply list_lookup_insert_ne; intros <-; contradiction).
    set (n2 := usage_reports t1 _ _ _). change (usage_reports (l_shapes l1) (sd_entry <$> vec) namess' sss') with n2 in Hl2.
    intros Hroom. assert (room_for n2 (l_errors l1) /\ room_for n1 (l_errors l)) as [Hroom2 Hroom1].
    { unfold room_for, l1 in *. cbn. lia. }
    cbn [read_usages fmt_list foldr]. eapply lreads_bind; [by apply Hl1|]. fold l1. specialize (Hl2 Hroom2).
    rewrite Nat.add_comm, <- add_errors_add. exact Hl2.
  - constructor; [|exact Hr2]. apply (shape_read_same t1); [by apply Ho2|].
    assert (st_entries t1 !! sd_entry d = Some s1) as E1 by (by eapply set_shape_lookup).
    split; [|split; [exact Hlen|]].
    + exists s1. split; [exact E1|]. destruct Hslots as (Ek & En & El & Hrg & Hb).
      split_and!; auto; [|lia]. rewrite <- Ek. apply Hg1.
    + exists s1. split; [exact E1|]. split; [intros p Hp; by apply Hg1, Hn|].
      eapply mapped_grows; [exact Hss|reflexivity|exact Hg1|exact Hmap].
  - intros q Hq. cbn in Hq. rewrite Ho2 by (intros Hin; apply Hq; by right). cbn.
    apply list_lookup_insert_ne. intros <-. apply Hq. left.
Qed.
End Reading.
