(* ===== verification/TldReadUnits.v ===== *)
(** * TldReadUnits: the linker information and the units of a capsule

    Goes on with the reader of capsules (tld/src/adt/capsule.c) where TldRead
    stops: the unit with the usages of the names, whose size the reader
    checks, and the units of the other unit sets, whose links it turns into
    identifiers of the linker. *)
From stdpp Require Import base list list_numbers numbers.
From Stdlib Require Import ZArith Lia Sorted.
From S2P Require Import Prelude Codec ExdsString ExdsError TldNameKey TldIO TldIOSpec HashTable TldNames.
From S2P Require Import TldRename TldNameTable TldShapes TldShapesSpec TldCapsule TldCapsuleSpec TldUsage TldRead.

(** ** The unit the reader is filling *)

Definition unit_of (t : UnitTableT) (p i : nat) : option UnitT := e ← ut_entries t !! p; ue_units e !! i.

Definition set_unit (p i : nat) (u : UnitT) (t : UnitTableT) : UnitTableT :=
  UnitTable (ut_contents t)
    (alter (fun e => UnitEntry (ue_key e) (order e) (<[i := u]> (ue_units e))) p (ut_entries t)).

Lemma with_units_id l t : l_units l = t -> with_units t l = l.
Proof. intros <-. by destruct l. Qed.

Lemma set_unit_twice p i u u' t : set_unit p i u (set_unit p i u' t) = set_unit p i u t.
Proof.
  unfold set_unit. cbn. f_equal. rewrite list_alter_alter_eq. apply list_alter_ext; [|reflexivity].
  intros e _. cbn. by rewrite list_insert_insert_eq.
Qed.

Lemma set_unit_id p i u t : unit_of t p i = Some u -> set_unit p i u t = t.
Proof.
  unfold unit_of, set_unit. destruct t as [c es]. cbn. intros Eu. f_equal. apply list_eq. intros q.
  destruct (decide (q = p)) as [->|Hq]; [|by rewrite list_lookup_alter_ne].
  rewrite list_lookup_alter_eq. destruct (es !! p) as [e|]; [|reflexivity]. cbn in *. rewrite list_insert_id by exact Eu.
  by destruct e.
Qed.

Lemma unit_of_set p i u u0 t : unit_of t p i = Some u0 -> unit_of (set_unit p i u t) p i = Some u.
Proof.
  unfold unit_of, set_unit. cbn [ut_entries]. rewrite list_lookup_alter_eq.
  destruct (ut_entries t !! p) as [e|]; [|discriminate]. cbn. intros E. apply list_lookup_insert_eq. by eapply lookup_lt_Some.
Qed.

(** The units [us] after the ones of the entry [p]. *)
Definition add_units (p : nat) (us : list UnitT) (t : UnitTableT) : UnitTableT :=
  UnitTable (ut_contents t) (alter (fun e => UnitEntry (ue_key e) (order e) (ue_units e ++ us)) p (ut_entries t)).

Lemma add_units_entry p us t e :
  ut_entries t !! p = Some e -> ut_entries (add_units p us t) !! p = Some (UnitEntry (ue_key e) (order e) (ue_units e ++ us)).
Proof. intros E. cbn. rewrite list_lookup_alter_eq, E. reflexivity. Qed.

Lemma add_units_app p us us' t : add_units p us' (add_units p us t) = add_units p (us ++ us') t.
Proof.
  unfold add_units. cbn. f_equal. rewrite list_alter_alter_eq. apply list_alter_ext; [|reflexivity].
  intros e _. cbn. by rewrite app_assoc.
Qed.

Lemma add_units_nil p t : add_units p [] t = t.
Proof.
  unfold add_units. rewrite list_alter_id; [by destruct t|]. intros e. rewrite app_nil_r. by destruct e.
Qed.

Lemma set_added_unit p i u u0 t e :
  ut_entries t !! p = Some e -> i = length (ue_units e) -> set_unit p i u (add_units p [u0] t) = add_units p [u] t.
Proof.
  intros E ->. unfold set_unit, add_units. cbn. f_equal. rewrite list_alter_alter_eq. apply list_alter_ext; [|reflexivity].
  intros x. rewrite E. intros [= <-]. cbn. rewrite insert_app_r_alt, Nat.sub_diag by lia. reflexivity.
Qed.

Lemma added_unit_of p u t e :
  ut_entries t !! p = Some e -> unit_of (add_units p [u] t) p (length (ue_units e)) = Some u.
Proof.
  intros E. unfold unit_of. rewrite (add_units_entry _ _ _ _ E). cbn. rewrite lookup_app_r, Nat.sub_diag by lia. reflexivity.
Qed.

Lemma update_unit_eq p i f u u' l :
  unit_of (l_units l) p i = Some u -> f u = Some u' ->
  update_unit p i f l = (with_units (set_unit p i u' (l_units l)) l, Ok tt).
Proof.
  unfold unit_of. intros Eu Ef. destruct (ut_entries (l_units l) !! p) as [e|] eqn:E; [|discriminate].
  cbn [mbind option_bind] in Eu.
  unfold update_unit, get_unit_entry, put_unit_entry, mbind, stM_bind, st_get, need. cbn. rewrite E. cbn.
  rewrite Eu. cbn. rewrite Ef. cbn.
  assert (<[p := UnitEntry (ue_key e) (order e) (<[i := u']> (ue_units e))]> (ut_entries (l_units l)) =
    ut_entries (set_unit p i u' (l_units l))) as ->; [|reflexivity].
  rewrite list_insert_alter. apply list_alter_ext; [|reflexivity]. intros x. rewrite E. by intros [= <-].
Qed.

Lemma update_unit_step {A} p i f u u' (k : unit -> link A) fm l a l' :
  unit_of (l_units l) p i = Some u -> f u = Some u' ->
  lreads (k tt) fm (with_units (set_unit p i u' (l_units l)) l) a l' -> lreads (update_unit p i f ≫= k) fm l a l'.
Proof. intros Eu Ef. apply lreads_step. intros r. exact (update_unit_eq p i f u u' (with_reader r l) Eu Ef). Qed.

(** ** The linker information *)

Lemma all_read_entries t t' vec namess sss :
  st_entries t' = st_entries t -> all_read t vec namess sss -> all_read t' vec namess sss.
Proof. intros E. apply all_read_same. intros q _. by rewrite E. Qed.

Section ReadUnits.
Variable junk : nat -> Z.
Variable junk_nstring : nat -> NStringT.

Lemma token_index_step {A} vec l t' (k : option nat -> link A) f a l' :
  shape_table_get_token_entry (l_shapes l) = (t', shape_table_get (l_shapes l) token_name) ->
  lreads (k (shape_index (shape_table_get (l_shapes l) token_name) vec)) f (with_shapes t' l) a l' ->
  lreads (capsule_get_token_index vec ≫= k) f l a l'.
Proof.
  intros E. apply lreads_step. intros r. unfold capsule_get_token_index, mbind, stM_bind, st_get.
  cbn [l_shapes with_reader]. rewrite E. reflexivity.
Qed.

Lemma tag_index_step {A} vec l t' (k : option nat -> link A) f a l' :
  shape_table_get_tag_entry (l_shapes l) = (t', shape_table_get (l_shapes l) tag_name) ->
  lreads (k (shape_index (shape_table_get (l_shapes l) tag_name) vec)) f (with_shapes t' l) a l' ->
  lreads (capsule_get_tag_index vec ≫= k) f l a l'.
Proof.
  intros E. apply lreads_step. intros r. unfold capsule_get_tag_index, mbind, stM_bind, st_get.
  cbn [l_shapes with_reader]. rewrite E. reflexivity.
Qed.

Lemma read_type_1_ok capsule vec l namess sss :
  good_shapes definition (l_shapes l) -> all_read (l_shapes l) vec namess sss -> NoDup (sd_entry <$> vec) -> Forall readable sss ->
  exists t', lreads_n (capsule_read_tld_type_1_unit capsule vec namess) (fmt_list fmt_usage sss) l tt
      (usage_reports (l_shapes l) (sd_entry <$> vec) namess sss) (with_shapes t' l) /\
    good_shapes definition t' /\ all_read t' vec namess sss.
Proof.
  intros Ht Hr Hnd Hrd. destruct (token_entry_ok _ _ Ht) as (t1 & E1 & Ht1 & Ec1 & Ee1).
  destruct (tag_entry_ok _ _ Ht1) as (t2 & E2 & Ht2 & Ec2 & Ee2).
  pose proof (all_read_entries _ _ _ _ _ Ee1 Hr) as Hr1. pose proof (all_read_entries _ _ _ _ _ Ee2 Hr1) as Hr2.
  destruct (read_usages_ok capsule (shape_index (shape_table_get t1 tag_name) vec)
    (shape_index (shape_table_get (l_shapes l) token_name) vec) vec (with_shapes t2 l) namess sss 0 Ht2 Hr2 Hnd Hrd)
    as (t' & Hl & Ht' & Hr' & _).
  - apply (index_of_entry t1 vec namess sss tag_name Ht1); auto. apply (bool_decide_eq_true_1 _). reflexivity.
  - apply (index_of_entry (l_shapes l) vec namess sss token_name Ht); auto. apply (bool_decide_eq_true_1 _). reflexivity.
  - exists t'. split; [|auto]. intros Hroom. unfold capsule_read_tld_type_1_unit.
    eapply token_index_step; [exact E1|]. eapply tag_index_step; [exact E2|].
    rewrite <- (usage_reports_same (l_shapes l) t2) in Hroom |- * by (intros q _; by rewrite Ee2, Ee1). exact (Hl Hroom).
Qed.

(** *** Its size *)

Lemma unsigned_0 : is_unsigned 0.
Proof. unfold is_unsigned. lia. Qed.

Lemma unsigned_1 : is_unsigned 1.
Proof. unfold is_unsigned. lia. Qed.

(** One integer, with the reader it leaves. *)
Lemma int_step n r pos f rest l :
  is_unsigned n -> wf_reader r -> r_at r pos -> r_rest r = fmt_seq (fmt_int n) f pos ++ rest ->
  exists r', (forall A (k : Z -> link A), (rd tdf_read_int ≫= k) (with_reader r l) = k n (with_reader r' l)) /\
    wf_reader r' /\ r_at r' (pos + length (fmt_int n pos)) /\ r_rest r' = f (pos + length (fmt_int n pos))%nat ++ rest /\
    byte_total r' = byte_total r.
Proof.
  intros Hn Hr Hp E. unfold fmt_seq in E. rewrite <- app_assoc in E.
  assert (lreads (rd tdf_read_int) (fmt_int n) l n l) as H.
  { apply lreads_rd; [|apply tdf_read_int_keeps]. apply tdf_read_int_ok. unfold is_unsigned, UINT_MAX, UINT_BITS in *. lia. }
  destruct (H r pos _ Hr Hp E) as (r' & E1 & Hr' & R' & T'). exists r'.
  split; [intros A k; by rewrite (stM_bind_ok _ _ _ _ _ E1)|]. split_and!; auto. by eapply r_at_step.
Qed.

Definition fmt_tld_head (n : Z) : format :=
  fmt_seq (fmt_int 1) (fmt_seq (fmt_int 0) (fmt_seq (fmt_int 0) (fmt_seq (fmt_int n) fmt_align))).

Lemma tld_header_ok n l r pos rest :
  is_unsigned n -> wf_reader r -> r_at r pos -> r_rest r = fmt_tld_head n pos ++ rest ->
  exists r', capsule_read_tld_unit_header (with_reader r l) = (with_reader r' l, Ok (Z.to_nat n, tdf_reader_byte r')) /\
    wf_reader r' /\ r_rest r' = rest /\ byte_total r' = byte_total r /\ r_new_byte r' = true.
Proof.
  intros Hn Hr Hp E. unfold capsule_read_tld_unit_header, fmt_tld_head in *.
  destruct (int_step 1 _ _ _ _ l unsigned_1 Hr Hp E) as (r1 & E1 & Hr1 & Hp1 & R1 & T1). rewrite E1. cbn [negb Z.eqb Pos.eqb].
  destruct (int_step 0 _ _ _ _ l unsigned_0 Hr1 Hp1 R1) as (r2 & E2 & Hr2 & Hp2 & R2 & T2). rewrite E2. cbn [negb Z.eqb Pos.eqb].
  destruct (int_step 0 _ _ _ _ l unsigned_0 Hr2 Hp2 R2) as (r3 & E3 & Hr3 & Hp3 & R3 & T3). rewrite E3. cbn [negb Z.eqb Pos.eqb].
  destruct (int_step _ _ _ _ _ l Hn Hr3 Hp3 R3) as (r4 & E4 & Hr4 & Hp4 & R4 & T4). rewrite E4.
  destruct (tdf_read_align_new r4 _ rest Hr4 Hp4 R4) as (r5 & E5 & Hr5 & R5 & N5).
  assert (byte_total r5 = byte_total r4) as T5 by (pose proof (tdf_read_align_keeps r4) as K; rewrite E5 in K; exact K).
  exists r5. split; [|split_and!; auto; congruence].
  unfold mbind, stM_bind, rd. cbn [l_reader with_reader]. rewrite E5. reflexivity.
Qed.

(** The bytes between two positions at the start of a byte, or half a byte. *)
Lemma bytes_between r r' n :
  wf_reader r -> wf_reader r' -> byte_total r' = byte_total r -> r_new_byte r = true ->
  length (r_rest r) = (n + length (r_rest r'))%nat -> tdf_reader_byte r' = (tdf_reader_byte r + (n + 4) / 8)%nat.
Proof.
  intros Hr Hr' Ht Hnew Hl. rewrite !length_r_rest, !source_left_bytes, Hnew in Hl by assumption. unfold byte_total in Ht.
  destruct (r_new_byte r').
  - assert (n + 4 = 4 + (source_left r - source_left r') * 8)%nat as -> by lia. rewrite Nat.div_add by lia. cbn. lia.
  - assert (n + 4 = 0 + (source_left r - source_left r') * 8)%nat as -> by lia. rewrite Nat.div_add by lia. cbn. lia.
Qed.

Lemma tld_bytes_bits t : tld_bytes t = ((4 * (1 + usage_nibbles t) + 4) / 8)%nat.
Proof.
  unfold tld_bytes. replace (4 * (1 + usage_nibbles t) + 4)%nat with (4 * (2 + usage_nibbles t))%nat by lia.
  change 8%nat with (4 * 2)%nat. by rewrite Nat.Div0.div_mul_cancel_l.
Qed.

Lemma read_tld_units_ok capsule tw vec l namess :
  good_shapes definition (l_shapes l) -> all_read (l_shapes l) vec namess (live tw) -> NoDup (sd_entry <$> vec) ->
  Forall readable (live tw) -> Z.of_nat (tld_bytes tw) < 2 ^ 32 ->
  exists t', lreads_n (capsule_read_tld_units capsule vec namess) (fmt_tld_unit tw) l tt
      (usage_reports (l_shapes l) (sd_entry <$> vec) namess (live tw)) (with_shapes t' l) /\
    good_shapes definition t' /\ all_read t' vec namess (live tw).
Proof.
  intros Ht Hr Hnd Hrd Hsz. destruct (read_type_1_ok capsule vec l namess (live tw) Ht Hr Hnd Hrd) as (t' & Hl & Ht' & Hr').
  exists t'. split; [|auto]. intros Hroom r pos rest Wr Pr E. specialize (Hl Hroom).
  set (l' := with_errors _ (with_shapes t' l)) in *.
  assert (fmt_eq (fmt_tld_unit tw) (fmt_seq (fmt_tld_head (Z.of_nat (tld_bytes tw))) (fmt_tld_body tw))) as Ef.
  { unfold fmt_tld_unit, fmt_tld_head. rewrite !fmt_seq_assoc. reflexivity. }
  rewrite Ef in E. unfold fmt_seq at 1 in E. rewrite <- app_assoc in E. unfold capsule_read_tld_units.
  destruct (tld_header_ok (Z.of_nat (tld_bytes tw)) l r pos _ ltac:(unfold is_unsigned; lia) Wr Pr E) as (r1 & E1 & W1 & R1 & T1 & N1).
  rewrite (stM_bind_ok _ _ _ _ _ E1), Nat2Z.id.
  pose proof (r_at_step _ _ _ _ _ Pr E R1) as P1. set (p1 := (pos + _)%nat) in *.
  unfold fmt_tld_body in R1.
  destruct (int_step 1 r1 p1 _ rest l unsigned_1 W1 P1 R1) as (r2 & E2 & W2 & P2 & R2 & T2).
  rewrite E2. cbn [Z.eqb Pos.eqb]. change (length (fmt_int 1 p1)) with 4%nat in *. unfold fmt_seq in R2. rewrite <- app_assoc in R2.
  destruct (Hl r2 _ _ W2 P2 R2) as (r3 & E3 & W3 & R3 & T3). rewrite (stM_bind_ok _ _ _ _ _ E3).
  pose proof (r_at_step _ _ _ _ _ P2 R2 R3) as P3.
  assert (tdf_reader_byte r3 = (tdf_reader_byte r1 + tld_bytes tw)%nat) as Eb.
  { rewrite tld_bytes_bits. apply bytes_between; auto; [congruence|]. rewrite R1, R3. unfold fmt_seq.
    assert (length (fmt_int 1 p1) = 4%nat) as E4 by reflexivity. rewrite !length_app, !fmt_usages_length. fold (usage_nibbles tw). rewrite E4. lia. }
  destruct (lreads_rd _ _ _ l' tdf_read_align_ok tdf_read_align_keeps r3 _ rest W3 P3 R3)
    as (r4 & E4 & W4 & R4 & T4).
  exists r4. split; [|split_and!; auto; congruence]. unfold capsule_read_tld_unit_trailer.
  transitivity ((_ ← rd tdf_read_align; if negb (tdf_reader_byte r1 + tld_bytes tw =? tdf_reader_byte r3)%nat
    then fail else mret tt) (with_reader r3 l')); [reflexivity|].
  rewrite (stM_bind_ok _ _ _ _ _ E4), Eb, Nat.eqb_refl. reflexivity.
Qed.

(** ** Links *)

(** The link [k] of the capsule, as the linker keeps it. *)
Definition linked_link (d : ShapeDataT) (k k' : MapLinkT) : Prop :=
  internal k' = internal k /\ sd_id_maps d !! Z.to_nat (external k) = Some (external k') /\ external k' <> UINT_MAX.

Lemma linked_link_fills d d' k k' : fills d d' -> linked_link d k k' -> linked_link d' k k'.
Proof. intros [_ H] (E1 & E2 & E3). split_and!; auto. Qed.

Lemma slots_room d ss s i : slots_ok d ss s -> sd_id_maps d !! i = Some UINT_MAX -> id_count s < UINT_MAX.
Proof. intros (_ & _ & _ & _ & Hb) Hi. pose proof (free_ids_insert _ _ 0 Hi ltac:(vm_compute; discriminate)). lia. Qed.

Lemma good_next_id def s :
  good_shape def s -> id_count s < UINT_MAX ->
  exists s', shape_entry_next_id s = Some (id_count s, s') /\ good_shape def s' /\ se_names s' = se_names s /\
    se_key s' = se_key s /\ id_count s' = id_count s + 1.
Proof.
  intros [(rs & (Hd & (Hlt & Hinj & Hl) & Hc) & Hall) Hdef] Hmax. unfold shape_entry_next_id.
  rewrite (proj2 (Z.eqb_neq _ _)) by lia. eexists. split; [reflexivity|]. split; [|by split_and!].
  split; [|exact Hdef]. exists rs. split; [|exact Hall]. split; [exact Hd|]. split; [|cbn; lia].
  split; [|split; [exact Hinj|exact Hl]]. intros q d Hq. cbn. specialize (Hlt q d Hq). lia.
Qed.

(** The names of every shape are as they were: only identifiers are given out. *)
Definition same_names (t t' : ShapeTableT) : Prop := forall q, se_names <$> st_entries t' !! q = se_names <$> st_entries t !! q.

#[export] Instance same_names_preorder : PreOrder same_names.
Proof. split; [intros t q; reflexivity|]. intros t1 t2 t3 H1 H2 q. by rewrite H2. Qed.

Lemma set_shape_same_names t p s s' : st_entries t !! p = Some s -> se_names s' = se_names s -> same_names t (set_shape t p s').
Proof.
  intros E En q. cbn. destruct (decide (p = q)) as [<-|Hq].
  - rewrite list_lookup_insert_eq by (by eapply lookup_lt_Some). rewrite E. cbn. by rewrite En.
  - by rewrite list_lookup_insert_ne.
Qed.

Lemma usage_reports_names t t' entries : forall namess sss,
  same_names t t' -> usage_reports t' entries namess sss = usage_reports t entries namess sss.
Proof.
  intros namess sss H. revert namess sss. induction entries as [|p entries IH]; intros [|names namess] [|ss sss]; cbn [usage_reports]; try reflexivity.
  rewrite IH. f_equal. specialize (H p). destruct (st_entries t' !! p), (st_entries t !! p); cbn in *; congruence.
Qed.

(** The slot of an external identifier, filled if it has to be. *)
Lemma slot_step {A} d ss s l ext (k : ShapeDataT -> link A) fm :
  st_entries (l_shapes l) !! sd_entry d = Some s -> good_shape definition s -> slots_ok d ss s -> 0 <= ext < id_count ss ->
  exists s' d' v, good_shape definition s' /\ slots_ok d' ss s' /\ fills d d' /\ se_names s' = se_names s /\ se_key s' = se_key s /\
    sd_id_maps d' !! Z.to_nat ext = Some v /\ v <> UINT_MAX /\
    forall a l', lreads (k d') fm (with_shapes (set_shape (l_shapes l) (sd_entry d) s') l) a l' ->
      lreads (old ← need (sd_id_maps d !! Z.to_nat ext);
              d ← (if old =? UINT_MAX then
                     s ← get_shape (sd_entry d);
                     '(id, s) ← need (shape_entry_next_id s);
                     _ ← put_shape (sd_entry d) s;
                     mret (ShapeData (sd_entry d) (sd_num_ids d) (<[Z.to_nat ext := id]> (sd_id_maps d)))
                   else mret d);
              k d) fm l a l'.
Proof.
  intros Es Hs Hd Hext. pose proof Hd as (Ek & En & Hl & Hr & _).
  destruct (lookup_lt_is_Some_2 (sd_id_maps d) (Z.to_nat ext)) as [v Ev]; [lia|].
  destruct (decide (v = UINT_MAX)) as [->|Hv].
  - pose proof (slots_room _ _ _ _ Hd Ev) as Hmax. destruct (good_next_id _ s Hs Hmax) as (s' & Ei & Hs' & Enm & Ek' & Ec).
    pose proof (proj1 Hs) as (rs & (_ & _ & Hc) & _).
    exists s', (ShapeData (sd_entry d) (sd_num_ids d) (<[Z.to_nat ext := id_count s]> (sd_id_maps d))), (id_count s).
    split; [exact Hs'|]. split; [eapply slots_fill; eauto; lia|].
    split; [|split; [exact Enm|split; [exact Ek'|split; [|split; [lia|]]]]].
    + split; [reflexivity|]. intros i w Hw Hne. cbn. destruct (decide (i = Z.to_nat ext)) as [->|Hi]; [congruence|].
      by rewrite list_lookup_insert_ne.
    + cbn. apply list_lookup_insert_eq. by eapply lookup_lt_Some.
    + intros a l' Hk. eapply need_step; [exact Ev|]. rewrite Z.eqb_refl.
      apply (lreads_step _ _ _ _ _ (with_shapes (set_shape (l_shapes l) (sd_entry d) s') l)) with (2 := Hk).
      intros r. unfold get_shape, mbind, stM_bind, st_get, need. cbn. rewrite Es. cbn. rewrite Ei. reflexivity.
  - exists s, d, v. split; [exact Hs|]. split; [exact Hd|]. split; [reflexivity|]. split; [reflexivity|]. split; [reflexivity|].
    split; [exact Ev|]. split; [exact Hv|]. intros a l' Hk. eapply need_step; [exact Ev|].
    rewrite (proj2 (Z.eqb_neq _ _)) by exact Hv. rewrite set_shape_id, with_shapes_id in Hk by auto.
    eapply lreads_step; [|exact Hk]. reflexivity.
Qed.

(** *** The links of a shape *)

Definition map_with (u : UnitT) (mt : MapTableT) : UnitT := UnitOf (Some mt) (u_contents u).

Definition set_map_entry (m : nat) (e : MapEntryT) (mt : MapTableT) : MapTableT :=
  MapTable (mt_contents mt) (<[m := e]> (mt_entries mt)).

Lemma update_entry_step {A} p i m f u mt e e' (k : unit -> link A) fm l a l' :
  unit_of (l_units l) p i = Some (map_with u mt) -> mt_entries mt !! m = Some e -> f e = Some e' ->
  lreads (k tt) fm (with_units (set_unit p i (map_with u (set_map_entry m e' mt)) (l_units l)) l) a l' ->
  lreads (update_unit p i (update_map (update_map_entry m f)) ≫= k) fm l a l'.
Proof.
  intros Eu Ee Ef. apply (update_unit_step _ _ _ _ _ _ _ _ _ _ Eu). unfold update_map, update_map_entry, map_with. cbn. rewrite Ee. cbn. rewrite Ef. reflexivity.
Qed.

(** The entry [e] with the first [j] links, and the ones of [ls] after them. *)
Definition links_set (d : ShapeDataT) (j : nat) (ls : list MapLinkT) (e e' : MapEntryT) : Prop :=
  me_key e' = me_key e /\ count e' = count e /\ num_links e' = num_links e /\ length (links e') = length (links e) /\
  take j (links e') = take j (links e) /\ Forall2 (linked_link d) ls (drop j (links e')).

Lemma links_set_step d0 d j k ls e e0 e' v :
  length (links e) = (j + S (length ls))%nat -> fills d0 d ->
  e0 = MapEntry (me_key e) (count e) (num_links e) (<[j := MapLink (internal k) v]> (links e)) ->
  sd_id_maps d0 !! Z.to_nat (external k) = Some v -> v <> UINT_MAX ->
  links_set d (S j) ls e0 e' -> links_set d j (k :: ls) e e'.
Proof.
  intros Hlen Hf -> Ev Hv (Ek & Ec & En & El & Et & Hfa). cbn [me_key count num_links links] in *. rewrite length_insert in El.
  assert (links e' !! j = Some (MapLink (internal k) v)) as Ej.
  { assert (take (S j) (links e') !! j = Some (MapLink (internal k) v)) as E; [|by apply lookup_take_Some in E as [? _]].
    rewrite Et, lookup_take_lt by lia. apply list_lookup_insert_eq. lia. }
  split_and!; auto.
  - apply (f_equal (take j)) in Et. rewrite !take_take, !Nat.min_l in Et by lia. rewrite Et. apply take_insert_ge. lia.
  - rewrite (drop_S _ _ _ Ej). constructor; [|exact Hfa]. split; [reflexivity|]. split; [by apply Hf|exact Hv].
Qed.

Lemma unit_links_ok p i m u ls : forall l ss s d mt e j,
  st_entries (l_shapes l) !! sd_entry d = Some s -> good_shape definition s -> slots_ok d ss s ->
  unit_of (l_units l) p i = Some (map_with u mt) -> mt_entries mt !! m = Some e ->
  num_links e = Z.of_nat (j + length ls) -> length (links e) = (j + length ls)%nat ->
  Forall (fun k => ok_link k /\ external k < id_count ss) ls ->
  exists s' d' e', lreads (unit_links_loop (length ls) (Z.of_nat j) p i m d) (fmt_list fmt_link ls) l d'
      (with_units (set_unit p i (map_with u (set_map_entry m e' mt)) (l_units l))
        (with_shapes (set_shape (l_shapes l) (sd_entry d) s') l)) /\
    good_shape definition s' /\ slots_ok d' ss s' /\ fills d d' /\ se_names s' = se_names s /\ se_key s' = se_key s /\
    links_set d' j ls e e'.
Proof.
  induction ls as [|k ls IH]; intros l ss s d mt e j Es Hs Hd Eu Ee En El Hls.
  { exists s, d, e. rewrite set_shape_id, with_shapes_id by auto. cbn [length] in *.
    assert (with_units (set_unit p i (map_with u (set_map_entry m e mt)) (l_units l)) l = l) as ->.
    { unfold set_map_entry. rewrite list_insert_id by exact Ee. destruct mt as [c es]. cbn [mt_contents mt_entries] in *.
      rewrite set_unit_id by exact Eu. by destruct l. }
    split; [apply lreads_ret|]. split_and!; auto; try reflexivity. unfold links_set. rewrite drop_ge by lia. by split_and!. }
  cbn [length] in *. inversion Hls as [|? ? [[Hki Hke] Hkc] Hls']; subst.
  destruct (slot_step d ss s l (external k) (fun d =>
     external0 ← need (sd_id_maps d !! Z.to_nat (external k));
     _ ← update_unit p i (update_map (update_map_entry m (fun e => map_entry_set_link e (Z.of_nat j) (internal k) external0)));
     unit_links_loop (length ls) (Z.of_nat j + 1) p i m d) (fmt_list fmt_link ls) Es Hs Hd)
    as (s1 & d1 & v & Hs1 & Hd1 & Hf1 & Enm1 & Ek1 & Ev & Hv & Hstep); [unfold is_unsigned in Hke; lia|].
  set (e0 := MapEntry (me_key e) (count e) (num_links e) (<[j := MapLink (internal k) v]> (links e))).
  set (t1 := set_shape (l_shapes l) (sd_entry d) s1) in *.
  set (l1 := with_units (set_unit p i (map_with u (set_map_entry m e0 mt)) (l_units l)) (with_shapes t1 l)).
  destruct (IH l1 ss s1 d1 (set_map_entry m e0 mt) e0 (S j)) as (s' & d' & e' & Hl & Hs' & Hd' & Hf' & Enm' & Ek' & Hset); auto.
  { rewrite (proj1 Hf1). cbn. by eapply set_shape_lookup. }
  { cbn. by eapply unit_of_set. }
  { cbn. apply list_lookup_insert_eq. by eapply lookup_lt_Some. }
  { cbn. lia. }
  { cbn. rewrite length_insert. lia. }
  exists s', d', e'. split; [|split; [exact Hs'|split; [exact Hd'|split; [by transitivity d1|split; [congruence|split; [congruence|]]]]]].
  2: { eapply links_set_step; [|exact Hf'|reflexivity|exact Ev|exact Hv|exact Hset]. lia. }
  cbn [unit_links_loop fmt_list foldr]. unfold fmt_link at 1. rewrite fmt_seq_assoc.
  apply lreads_int; [exact Hki|]. apply lreads_int; [exact Hke|].
  assert ((sd_num_ids d <=? external k) = false) as -> by (pose proof Hd as (_ & -> & _); lia). apply Hstep. eapply need_step; [exact Ev|].
  eapply update_entry_step; [exact Eu|exact Ee|unfold map_entry_set_link; rewrite (proj2 (Z.ltb_lt _ _)) by lia; rewrite Nat2Z.id; reflexivity|].
  fold e0. replace (Z.of_nat j + 1) with (Z.of_nat (S j)) by lia.
  unfold l1 in Hl at 2 3 4. cbn [l_units l_shapes with_units with_shapes] in Hl.
  rewrite set_unit_twice, (proj1 Hf1) in Hl. unfold t1 in Hl. rewrite set_shape_twice in Hl.
  unfold set_map_entry in Hl. cbn [mt_contents mt_entries] in Hl. rewrite list_insert_insert_eq in Hl.
  exact Hl.
Qed.

(** *** The counts *)

Definition count_of (table : MapTableT) (ss : ShapeEntryT) : Z := from_option count 0 (map_find table (se_key ss)).

Definition blank_entry (table : MapTableT) (ss : ShapeEntryT) : MapEntryT :=
  MapEntry (se_key ss) (count_of table ss) 0 [].

Lemma count_of_unsigned table ss : ok_map table -> is_unsigned (count_of table ss).
Proof.
  intros Ht. unfold count_of, map_find. destruct (map_table_get table (se_key ss)) as [p|] eqn:E; [|apply unsigned_0].
  destruct (map_find_ok table _ p Ht E) as (e & Ee & _ & He). cbn. rewrite Ee. apply He.
Qed.

Lemma unit_counts_ok table p i u vec : forall l namess sss mt,
  ok_map table -> all_read (l_shapes l) vec namess sss -> Forall readable sss ->
  unit_of (l_units l) p i = Some (map_with u mt) ->
  exists mt', lreads (unit_counts_loop junk p i vec) (fmt_list (fmt_count table) sss) l tt
      (with_units (set_unit p i (map_with u mt') (l_units l)) l) /\
    mt_entries mt' = mt_entries mt ++ (blank_entry table <$> sss).
Proof.
  induction vec as [|d vec IH]; intros l namess sss mt Ht Hr Hrd Eu; inversion Hr as [|? ? names namess' ss sss' Hd Hr']; subst.
  { exists mt. rewrite set_unit_id by exact Eu. rewrite app_nil_r. split; [|reflexivity]. destruct l. apply lreads_ret. }
  inversion Hrd as [|? ? Hss Hrd']; subst. destruct Hd as [(s & Es & Ek & _) _].
  set (mt1 := (map_table_add junk mt (se_key s) (count_of table ss)).1).
  destruct (IH (with_units (set_unit p i (map_with u mt1) (l_units l)) l) namess' sss' mt1) as (mt' & Hl & Ee); auto.
  { cbn. by eapply unit_of_set. }
  exists mt'. cbn [l_units with_units] in Hl. rewrite set_unit_twice in Hl. split.
  - cbn [unit_counts_loop fmt_list foldr]. apply lreads_int; [by apply count_of_unsigned|].
    eapply get_shape_step; [exact Es|]. eapply update_unit_step; [exact Eu|reflexivity|]. exact Hl.
  - rewrite Ee. cbn [mt1 map_table_add fst mt_entries]. rewrite <- app_assoc. unfold map_entry_create, blank_entry.
    rewrite nstring_copy_id by (rewrite Ek; apply (rb_key _ Hss)). by rewrite Ek.
Qed.

(** *** All the links of a unit *)

(** The entry of the map table for a shape of the capsule. *)
Definition linked_entry (table : MapTableT) (d : ShapeDataT) (ss : ShapeEntryT) (e : MapEntryT) : Prop :=
  me_key e = se_key ss /\ count e = count_of table ss /\
  num_links e = Z.of_nat (length (map_links table (se_key ss))) /\
  Forall2 (linked_link d) (map_links table (se_key ss)) (links e).

Definition legal_links (table : MapTableT) (ss : ShapeEntryT) : Prop :=
  Forall (fun k => external k < id_count ss) (map_links table (se_key ss)).

Lemma map_links_ok table ss :
  ok_map table -> Forall ok_link (map_links table (se_key ss)) /\
  is_unsigned (Z.of_nat (length (map_links table (se_key ss)))).
Proof.
  intros Ht. unfold map_links, map_find. destruct (map_table_get table (se_key ss)) as [p|] eqn:E; cbn; [|by split; [|apply unsigned_0]].
  destruct (map_find_ok table _ p Ht E) as (e & Ee & _ & (_ & Hn & Hl & Hk)). rewrite Ee. cbn. rewrite Hl. auto.
Qed.

(** One shape of a unit. *)
Lemma unit_map_ok table p i m u l ss d names mt :
  good_shapes definition (l_shapes l) -> shape_read (l_shapes l) d names ss -> ok_map table -> legal_links table ss ->
  unit_of (l_units l) p i = Some (map_with u mt) -> mt_entries mt !! m = Some (blank_entry table ss) ->
  exists s' d' e', let t' := set_shape (l_shapes l) (sd_entry d) s' in
    (forall (A : Type) (k : ShapeDataT -> link A) f a l',
      lreads (k d') f (with_units (set_unit p i (map_with u (set_map_entry m e' mt)) (l_units l)) (with_shapes t' l)) a l' ->
      lreads (num_links ← rd tdf_read_int;
              _ ← update_unit p i (update_map (update_map_entry m (fun e => Some (map_entry_set_num_links e num_links))));
              d ← unit_links_loop (Z.to_nat num_links) 0 p i m d;
              k d) (fmt_seq (fmt_links table ss) f) l a l') /\
    good_shapes definition t' /\ shape_read t' d' names ss /\ fills d d' /\ linked_entry table d' ss e' /\ same_names (l_shapes l) t'.
Proof.
  intros Ht [(s & Es & Hd) (Hlen & s0 & Es0 & Hn & Hmap)] Hm Hlg Eu Ee. rewrite Es in Es0. injection Es0 as <-.
  destruct (map_links_ok table ss Hm) as [Hok Hu]. set (ls := map_links table (se_key ss)) in *.
  set (e0 := map_entry_set_num_links (blank_entry table ss) (Z.of_nat (length ls))).
  set (l0 := with_units (set_unit p i (map_with u (set_map_entry m e0 mt)) (l_units l)) l).
  destruct (unit_links_ok p i m u ls l0 ss s d (set_map_entry m e0 mt) e0 0) as
    (s' & d' & e' & Hl & Hs' & Hd' & Hf & Enm & Ek & Hset); auto.
  { by apply (gs_all _ _ Ht (sd_entry d)). }
  { cbn. by eapply unit_of_set. }
  { cbn. apply list_lookup_insert_eq. by eapply lookup_lt_Some. }
  { cbn. rewrite length_replicate. lia. }
  { by apply Forall_and. }
  unfold l0 in Hl at 2 3 4. cbn [l_units l_shapes with_units] in Hl. rewrite set_unit_twice in Hl.
  unfold set_map_entry in Hl. cbn [mt_contents mt_entries] in Hl. rewrite list_insert_insert_eq in Hl.
  exists s', d', e'. cbn zeta. split; [|split; [|split; [|split; [|split]]]].
  - intros A k f a l' Hk. unfold fmt_links. fold ls. rewrite fmt_seq_assoc. apply lreads_int; [exact Hu|].
    eapply update_entry_step; [exact Eu|exact Ee|reflexivity|]. fold e0 l0. rewrite Nat2Z.id.
    eapply lreads_bind; [exact Hl|exact Hk].
  - eapply set_shape_good; eauto.
  - assert (st_entries (set_shape (l_shapes l) (sd_entry d) s') !! sd_entry d' = Some s') as E
      by (rewrite (proj1 Hf); by eapply set_shape_lookup).
    split; [by exists s'|]. split; [exact Hlen|]. exists s'. split; [exact E|]. rewrite Enm. split; [exact Hn|].
    eapply Forall_impl; [|exact Hmap]. intros v (q & e & H1 & H2 & H3 & H4). exists q, e. rewrite Enm. split_and!; auto. by apply Hf.
  - exact Hf.
  - destruct Hset as (E1 & E2 & E3 & _ & _ & Hfa). split_and!; auto.
  - by eapply set_shape_same_names.
Qed.

Lemma unit_maps_ok table p i u vec : forall l namess sss m mt,
  good_shapes definition (l_shapes l) -> all_read (l_shapes l) vec namess sss -> NoDup (sd_entry <$> vec) ->
  ok_map table -> Forall (legal_links table) sss ->
  unit_of (l_units l) p i = Some (map_with u mt) -> drop m (mt_entries mt) = blank_entry table <$> sss ->
  exists t' vec' mt' es, lreads (unit_maps_loop p i m vec) (fmt_list (fmt_links table) sss) l vec'
      (with_units (set_unit p i (map_with u mt') (l_units l)) (with_shapes t' l)) /\
    good_shapes definition t' /\ all_read t' vec' namess sss /\ Forall2 fills vec vec' /\
    (forall q, q ∉ sd_entry <$> vec -> st_entries t' !! q = st_entries (l_shapes l) !! q) /\
    mt_entries mt' = take m (mt_entries mt) ++ es /\ Forall3 (linked_entry table) vec' sss es /\ same_names (l_shapes l) t'.
Proof.
  induction vec as [|d vec IH]; intros l namess sss m mt Ht Hr Hnd Hm Hlg Eu Eb; inversion Hr as [|? ? names namess' ss sss' Hd Hr']; subst.
  { exists (l_shapes l), [], mt, []. rewrite set_unit_id, with_shapes_id by auto. split; [destruct l; apply lreads_ret|].
    split; [exact Ht|]. split; [exact Hr|]. split; [constructor|]. split; [auto|]. split; [|by split; [constructor|]].
    rewrite app_nil_r, <- (take_drop m (mt_entries mt)) at 1. rewrite Eb. apply app_nil_r. }
  cbn in Hnd. apply list.NoDup_cons in Hnd as [Hni Hnd']. inversion Hlg as [|? ? Hl0 Hlg']; subst.
  assert (mt_entries mt !! m = Some (blank_entry table ss)) as Ee.
  { rewrite <- (Nat.add_0_r m), <- lookup_drop, Eb. reflexivity. }
  destruct (unit_map_ok table p i m u l ss d names mt Ht Hd Hm Hl0 Eu Ee) as (s1 & d1 & e1 & Hstep & Ht1 & Hd1 & Hf1 & He1 & Hsn1).
  cbn zeta in *. set (t1 := set_shape (l_shapes l) (sd_entry d) s1) in *. set (mt1 := set_map_entry m e1 mt) in *.
  set (l1 := with_units (set_unit p i (map_with u mt1) (l_units l)) (with_shapes t1 l)) in *.
  destruct (IH l1 namess' sss' (S m) mt1) as (t' & vec' & mt' & es & Hl & Ht' & Hr1 & Hfs & Ho & Em & H3 & Hsn); auto.
  { eapply all_read_same; [|exact Hr']. intros q Hq. cbn. apply list_lookup_insert_ne. intros <-. contradiction. }
  { cbn. by eapply unit_of_set. }
  { cbn. rewrite drop_insert_lt by lia. apply (f_equal (drop 1)) in Eb. rewrite drop_drop, Nat.add_1_r in Eb. exact Eb. }
  exists t', (d1 :: vec'), mt', (e1 :: es). unfold l1 in Hl at 2 3. cbn [l_units with_units] in Hl. rewrite set_unit_twice in Hl.
  split; [|split; [exact Ht'|split; [|split; [by constructor|split; [|split; [|split; [by constructor|by transitivity t1]]]]]]].
  - cbn [unit_maps_loop fmt_list foldr]. apply Hstep. apply lreads_seq_nil. eapply lreads_bind; [exact Hl|]. apply lreads_ret.
  - constructor; [|exact Hr1]. eapply shape_read_same; [|exact Hd1]. apply Ho. by rewrite (proj1 Hf1).
  - intros q Hq. cbn in Hq. rewrite Ho by (intros Hin; apply Hq; by right). cbn.
    apply list_lookup_insert_ne. intros <-. apply Hq. left.
  - rewrite Em. cbn [mt1 set_map_entry mt_entries]. rewrite (take_S_r _ m e1), <- app_assoc.
    + rewrite take_insert_ge by lia. reflexivity.
    + apply list_lookup_insert_eq. by eapply lookup_lt_Some.
Qed.

(** ** A unit *)

(** The map table of a unit of the capsule, as the linker keeps it: the same
    counts, and the links turned into identifiers of the linker. A unit of a
    capsule without shapes loses the table it cannot use. *)
Definition linked_maps (vec : list ShapeDataT) (sss : list ShapeEntryT) (o o' : option MapTableT) : Prop :=
  match o with
  | Some table => sss <> [] -> exists table', o' = Some table' /\ Forall3 (linked_entry table) vec sss (mt_entries table')
  | None => o' = None
  end.

Definition linked_unit (vec : list ShapeDataT) (sss : list ShapeEntryT) (u u' : UnitT) : Prop :=
  u_contents u' = u_contents u /\ linked_maps vec sss (map_table u) (map_table u').

Definition legal_unit (sss : list ShapeEntryT) (u : UnitT) : Prop :=
  ok_unit u /\ match map_table u with Some table => Forall (legal_links table) sss | None => True end.

Definition maps_count (o : option MapTableT) (t : ShapeTableT) : Z :=
  match o with Some _ => Z.of_nat (length (live t)) | None => 0 end.

Definition fmt_maps_rest (o : option MapTableT) (t : ShapeTableT) : format :=
  match o with
  | Some table => fmt_seq (fmt_list (fmt_count table) (live t))
      (fmt_seq (fmt_int (maps_count o t)) (fmt_list (fmt_links table) (live t)))
  | None => fmt_int 0
  end.

Lemma Forall2_fills_refl vec : Forall2 fills vec vec.
Proof. induction vec; by constructor. Qed.

Lemma all_read_length t vec namess sss : all_read t vec namess sss -> length vec = length sss.
Proof. induction 1; cbn; congruence. Qed.

(** The maps of the unit number [i], which are empty. *)
Lemma read_maps_ok tw o p i l vec namess c :
  let n := maps_count o tw in
  good_shapes definition (l_shapes l) -> all_read (l_shapes l) vec namess (live tw) -> NoDup (sd_entry <$> vec) ->
  Forall readable (live tw) -> is_unsigned n ->
  match o with Some table => ok_map table /\ Forall (legal_links table) (live tw) | None => True end ->
  unit_of (l_units l) p i = Some (UnitOf (if negb (n =? 0) then Some map_table_create else None) c) ->
  exists t' vec' o', (forall (A : Type) (k : list ShapeDataT -> link A) f a l',
      lreads (k vec') f (with_units (set_unit p i (UnitOf o' c) (l_units l)) (with_shapes t' l)) a l' ->
      lreads (_ ← capsule_read_unit_counts junk vec n p i; vec ← capsule_read_unit_maps n vec p i; k vec)
        (fmt_seq (fmt_maps_rest o tw) f) l a l') /\
    good_shapes definition t' /\ all_read t' vec' namess (live tw) /\ Forall2 fills vec vec' /\ linked_maps vec' (live tw) o o' /\ same_names (l_shapes l) t'.
Proof.
  intros n Ht Hr Hnd Hrd Hn Ho Eu. destruct (decide (n = 0)) as [E0|E0].
  - exists (l_shapes l), vec, None. rewrite E0 in Eu. cbn in Eu. split; [|split_and!; auto; [apply Forall2_fills_refl| |reflexivity]].
    2: { destruct o; [|reflexivity]. cbn in *. intros Hl. destruct (live tw); [congruence|discriminate]. }
    intros A k f a l' Hk. rewrite set_unit_id, with_shapes_id, with_units_id in Hk by auto.
    assert (fmt_eq (fmt_maps_rest o tw) (fmt_int 0)) as ->.
    { destruct o; [|reflexivity]. unfold fmt_maps_rest. fold n. rewrite E0. cbn in n. destruct (live tw); [|discriminate].
      cbn. intros pos. unfold fmt_seq, fmt_nil. cbn [app length]. by rewrite app_nil_r, Nat.add_0_r. }
    unfold capsule_read_unit_counts, capsule_read_unit_maps. rewrite E0. cbn [Z.eqb negb andb].
    eapply lreads_step; [intros; reflexivity|]. eapply lreads_bind; [|exact Hk].
    unfold capsule_read_unit_maps. rewrite <- lreads_seq_nil. apply lreads_int; [apply unsigned_0|]. apply lreads_ret.
  - destruct o as [table|]; [|by destruct E0]. cbn in n. destruct Ho as [Hm Hlg].
    rewrite (proj2 (Z.eqb_neq _ _)) in Eu by exact E0. cbn [negb] in Eu.
    destruct (unit_counts_ok table p i (UnitOf None c) vec l namess (live tw) map_table_create Hm Hr Hrd Eu) as (mt & Hl1 & Em).
    set (l1 := with_units (set_unit p i (map_with (UnitOf None c) mt) (l_units l)) l) in *.
    destruct (unit_maps_ok table p i (UnitOf None c) vec l1 namess (live tw) 0 mt) as
      (t' & vec' & mt' & es & Hl & Ht' & Hr' & Hf & _ & Em' & H3 & Hsn); auto.
    { cbn. by eapply unit_of_set. }
    exists t', vec', (Some mt'). split; [|split_and!; auto].
    2: { intros _. exists mt'. by rewrite Em'. }
    intros A k f a l' Hk.
    unfold fmt_maps_rest, maps_count. fold n. rewrite fmt_seq_assoc. eapply lreads_bind.
    + unfold capsule_read_unit_counts. rewrite (all_read_length _ _ _ _ Hr). fold n.
      rewrite (proj2 (Z.eqb_neq _ _)), Z.eqb_refl by exact E0. exact Hl1.
    + fold l1. eapply lreads_bind.
      * unfold capsule_read_unit_maps. apply lreads_int; [exact Hn|]. rewrite Z.eqb_refl, (proj2 (Z.eqb_neq _ _)) by exact E0.
        exact Hl.
      * unfold l1. cbn [l_units with_units]. rewrite set_unit_twice. exact Hk.
Qed.

Lemma fmt_maps_split o tw : fmt_eq (fmt_maps o tw) (fmt_seq (fmt_int (maps_count o tw)) (fmt_maps_rest o tw)).
Proof. by destruct o. Qed.

Lemma read_unit_ok tw u p l vec namess e :
  ut_entries (l_units l) !! p = Some e ->
  good_shapes definition (l_shapes l) -> all_read (l_shapes l) vec namess (live tw) -> NoDup (sd_entry <$> vec) ->
  Forall readable (live tw) -> is_unsigned (Z.of_nat (length (live tw))) -> legal_unit (live tw) u ->
  exists t' vec' u', lreads (capsule_read_unit junk vec p) (fmt_unit tw u) l vec'
      (with_units (add_units p [u'] (l_units l)) (with_shapes t' l)) /\
    good_shapes definition t' /\ all_read t' vec' namess (live tw) /\ Forall2 fills vec vec' /\ linked_unit vec' (live tw) u u' /\
    same_names (l_shapes l) t'.
Proof.
  intros Ee Ht Hr Hnd Hrd Hn [[[[Hlen Hbytes] Hl] Hmap] Hlg]. set (n := maps_count (map_table u) tw).
  assert (is_unsigned n) as Hun by (unfold n, maps_count; destruct (map_table u); [exact Hn|apply unsigned_0]).
  set (u0 := UnitOf (if negb (n =? 0) then Some map_table_create else None) nstring_init).
  set (l0 := with_units (add_units p [u0] (l_units l)) l).
  destruct (read_maps_ok tw (map_table u) p (length (ue_units e)) l0 vec namess nstring_init) as
    (t' & vec' & o' & Hstep & Ht' & Hr' & Hf & Hlm & Hsn); auto.
  { destruct (map_table u); auto. }
  { cbn [l_units l0 with_units]. by apply added_unit_of. }
  exists t', vec', (UnitOf o' (u_contents u)). split; [|split_and!; auto; by split].
  unfold fmt_unit. rewrite fmt_maps_split, fmt_seq_assoc. fold n. unfold capsule_read_unit. apply lreads_int; [exact Hun|].
  eapply get_unit_entry_step; [exact Ee|]. cbn zeta. apply put_unit_entry_step.
  match goal with |- lreads _ _ ?x _ _ => assert (x = l0) as -> end.
  { unfold l0, add_units. do 2 f_equal. rewrite list_insert_alter. apply list_alter_ext; [|reflexivity].
    intros x. rewrite Ee. by intros [= <-]. }
  apply Hstep. apply lreads_int; [unfold is_unsigned; rewrite Hlen; lia|]. rewrite <- lreads_seq_nil.
  eapply lreads_rd_bind; [|apply tdf_read_bytes_keeps|].
  { apply tdf_read_bytes_ok; [exact Hbytes|cbn; rewrite Nat2Z.id; unfold ALLOCATE_VECTOR; by rewrite length_map, length_seq|cbn; by rewrite Nat2Z.id]. }
  unfold l0. cbn [l_units with_units]. rewrite (set_added_unit _ _ _ _ _ e) by auto.
  eapply update_unit_step; [cbn [l_units with_units]; by apply added_unit_of|reflexivity|].
  cbn [l_units with_units]. rewrite (set_added_unit _ _ _ _ _ e) by auto.
  assert (unit_set_contents (UnitOf o' nstring_init) (NString (length (n_contents (u_contents u))) (n_contents (u_contents u)))
    = UnitOf o' (u_contents u)) as ->.
  { unfold unit_set_contents, nstring_assign. cbn. rewrite Hlen. by destruct (u_contents u). }
  apply lreads_ret.
Qed.

(** ** The units of a unit set *)

Lemma fills_entries vec vec' : Forall2 fills vec vec' -> sd_entry <$> vec' = sd_entry <$> vec.
Proof. induction 1 as [|d d' vec vec' [E _] _ IH]; cbn; congruence. Qed.

Lemma fills_trans vec1 vec2 vec3 : Forall2 fills vec1 vec2 -> Forall2 fills vec2 vec3 -> Forall2 fills vec1 vec3.
Proof.
  intros H. revert vec3. induction H as [|d1 d2 vec1 vec2 Hd H IH]; intros vec3 H'; inversion H'; subst; constructor; auto.
  by transitivity d2.
Qed.

Lemma linked_unit_fills vec vec' sss u u' :
  Forall2 fills vec vec' -> linked_unit vec sss u u' -> linked_unit vec' sss u u'.
Proof.
  intros Hf [Hc Hm]. split; [exact Hc|]. unfold linked_maps in *. destruct (map_table u) as [table|]; [|exact Hm].
  intros Hne. destruct (Hm Hne) as (table' & E & H3). exists table'. split; [exact E|]. clear -Hf H3. revert vec' Hf.
  induction H3 as [|d ss e vec sss es (E1 & E2 & E3 & E4) H3 IH]; intros vec' Hf; inversion Hf; subst; constructor; auto.
  split_and!; auto. eapply Forall2_impl; [|exact E4]. intros k k'. by apply linked_link_fills.
Qed.

Section Sets.
Variable tw : ShapeTableT.
Variable namess : list (list nat).
Hypothesis Hrd : Forall readable (live tw).
Hypothesis Hn : is_unsigned (Z.of_nat (length (live tw))).

Lemma read_units_ok us p : forall l vec e,
  ut_entries (l_units l) !! p = Some e ->
  good_shapes definition (l_shapes l) -> all_read (l_shapes l) vec namess (live tw) -> NoDup (sd_entry <$> vec) ->
  Forall (legal_unit (live tw)) us ->
  exists t' vec' us', lreads (read_units_loop junk (length us) vec p) (fmt_list (fmt_unit tw) us) l vec'
      (with_units (add_units p us' (l_units l)) (with_shapes t' l)) /\
    good_shapes definition t' /\ all_read t' vec' namess (live tw) /\ Forall2 fills vec vec' /\
    Forall2 (linked_unit vec' (live tw)) us us' /\ same_names (l_shapes l) t'.
Proof.
  induction us as [|u us IH]; intros l vec e Ee Ht Hr Hnd Hus.
  { exists (l_shapes l), vec, []. rewrite add_units_nil, with_shapes_id, with_units_id by reflexivity.
    split; [apply lreads_ret|]. split_and!; auto; [apply Forall2_fills_refl|reflexivity]. }
  inversion Hus as [|? ? Hu Hus']; subst.
  destruct (read_unit_ok tw u p l vec namess e Ee Ht Hr Hnd Hrd Hn Hu) as (t1 & vec1 & u' & Hl1 & Ht1 & Hr1 & Hf1 & Hu' & Hsn1).
  set (l1 := with_units (add_units p [u'] (l_units l)) (with_shapes t1 l)) in *.
  destruct (IH l1 vec1 (UnitEntry (ue_key e) (order e) (ue_units e ++ [u']))) as (t' & vec' & us' & Hl & Ht' & Hr' & Hf & Hus'' & Hsn); auto.
  { cbn [l1 l_units with_units]. by apply add_units_entry. }
  { by rewrite (fills_entries _ _ Hf1). }
  exists t', vec', (u' :: us'). unfold l1 in Hl at 2 3. cbn [l_units with_units] in Hl. rewrite add_units_app in Hl.
  split; [|split; [exact Ht'|split; [exact Hr'|split; [by eapply fills_trans|split; [|by transitivity t1]]]]].
  - cbn [length read_units_loop fmt_list foldr]. eapply lreads_bind; [exact Hl1|exact Hl].
  - constructor; [by eapply linked_unit_fills|exact Hus''].
Qed.

(** What the reading of the unit set [e] does to the entry [q]. *)
Definition unit_set_read (vec : list ShapeDataT) (ut ut' : UnitTableT) (q : nat) (e : UnitEntryT * bool) : Prop :=
  exists x, ut_entries ut !! q = Some x /\
    if e.2 then ut_entries ut' !! q = Some x
    else exists us', ut_entries ut' !! q = Some (UnitEntry (ue_key x) (order x) (ue_units x ++ us')) /\
      Forall2 (linked_unit vec (live tw)) (ue_units e.1) us'.

Hypothesis Hsz : Z.of_nat (tld_bytes tw) < 2 ^ 32.

(** A unit set the capsule may give for the entry [q] of the linker. *)
Definition legal_set (l : LinkT) (q : nat) (e : UnitEntryT * bool) : Prop :=
  (e.2 = true <-> Some q = tld_entry_of (l_statics l)) /\ Some q <> tld2_entry_of (l_statics l) /\
  is_Some (ut_entries (l_units l) !! q) /\
  (e.2 = false -> ue_units e.1 <> [] /\ is_unsigned (Z.of_nat (length (ue_units e.1))) /\
     Forall (legal_unit (live tw)) (ue_units e.1)).

(** The errors the reading of a unit set causes: only the linker information
    has usages. *)
Definition set_reports (t : ShapeTableT) (vec : list ShapeDataT) (e : UnitEntryT * bool) : nat :=
  if e.2 then usage_reports t (sd_entry <$> vec) namess (live tw) else O.

Definition sets_reports (t : ShapeTableT) (vec : list ShapeDataT) (es : list (UnitEntryT * bool)) : nat :=
  sum_list (set_reports t vec <$> es).

Lemma unit_set_ok capsule q e l vec :
  legal_set l q e -> good_shapes definition (l_shapes l) -> all_read (l_shapes l) vec namess (live tw) -> NoDup (sd_entry <$> vec) ->
  let n := set_reports (l_shapes l) vec e in
  exists ut' t' vec',
    (room_for n (l_errors l) -> forall A (k : list ShapeDataT -> link A) f a l',
      lreads (k vec') f (with_errors (add_errors n (l_errors l)) (with_units ut' (with_shapes t' l))) a l' ->
      lreads (l ← st_get;
              vec ← (if decide (Some q = tld_entry_of (l_statics l)) then
                       _ ← capsule_read_tld_units capsule vec namess; mret vec
                     else if decide (Some q = tld2_entry_of (l_statics l)) then
                       _ ← capsule_read_tld2_units capsule vec namess; mret vec
                     else capsule_read_units junk vec q);
              k vec) (fmt_seq (fmt_unit_set tw e) f) l a l') /\
    good_shapes definition t' /\ all_read t' vec' namess (live tw) /\ Forall2 fills vec vec' /\
    unit_set_read vec' (l_units l) ut' q e /\ ut_contents ut' = ut_contents (l_units l) /\
    (forall p, p <> q -> ut_entries ut' !! p = ut_entries (l_units l) !! p) /\ (e.2 = false -> same_names (l_shapes l) t').
Proof.
  intros (Htld & Ht2 & [x Ex] & He) Ht Hr Hnd n. destruct e as [e tld]. cbn [fst snd] in *. destruct tld.
  - destruct (read_tld_units_ok capsule tw vec l namess Ht Hr Hnd Hrd Hsz) as (t' & Hl & Ht' & Hr').
    exists (l_units l), t', vec. rewrite with_units_id by reflexivity.
    split; [|split_and!; auto; [apply Forall2_fills_refl|by exists x|discriminate]].
    intros Hroom A k f a l' Hk. apply lreads_get. intros r. cbn [l_statics with_reader]. rewrite decide_True by (by apply Htld).
    eapply lreads_bind; [|exact Hk]. unfold fmt_unit_set. cbn [snd]. apply lreads_seq_nil.
    eapply lreads_bind; [exact (Hl Hroom)|apply lreads_ret].
  - destruct (He eq_refl) as (Hne & Hu & Hus).
    destruct (read_units_ok (ue_units e) q l vec x Ex Ht Hr Hnd Hus) as (t' & vec' & us' & Hl & Ht' & Hr' & Hf & Hus' & Hsn).
    exists (add_units q us' (l_units l)), t', vec'.
    split; [|split; [exact Ht'|split; [exact Hr'|split; [exact Hf|split; [|split; [reflexivity|split; [|auto]]]]]]].
    + intros _ A k f a l' Hk. rewrite add_errors_0 in Hk. apply lreads_get. intros r. cbn [l_statics with_reader].
      rewrite decide_False by (intros E; apply Htld in E; discriminate). rewrite decide_False by exact Ht2.
      eapply lreads_bind; [|exact Hk]. unfold fmt_unit_set, fmt_units. cbn [fst snd]. rewrite decide_False by exact Hne.
      unfold capsule_read_units. apply lreads_int; [exact Hu|]. rewrite Nat2Z.id. exact Hl.
    + exists x. split; [exact Ex|]. cbn. exists us'. split; [by apply add_units_entry|exact Hus'].
    + intros p Hp. cbn. by rewrite list_lookup_alter_ne.
Qed.

Lemma unit_set_read_fills vec vec' ut ut' q e :
  Forall2 fills vec vec' -> unit_set_read vec ut ut' q e -> unit_set_read vec' ut ut' q e.
Proof.
  intros Hf (x & Ex & H). exists x. split; [exact Ex|]. destruct e as [e []]; cbn in *; [exact H|].
  destruct H as (us' & E & Hus). exists us'. split; [exact E|]. eapply Forall2_impl; [|exact Hus].
  intros u u'. by apply linked_unit_fills.
Qed.

Lemma unit_sets_ok capsule qs : forall es l vec,
  Forall2 (legal_set l) qs es -> NoDup qs ->
  good_shapes definition (l_shapes l) -> all_read (l_shapes l) vec namess (live tw) -> NoDup (sd_entry <$> vec) ->
  exists ut' t' vec', lreads_n (unit_sets_loop junk capsule qs vec namess) (fmt_list (fmt_unit_set tw) es) l tt
      (sets_reports (l_shapes l) vec es) (with_units ut' (with_shapes t' l)) /\
    good_shapes definition t' /\ all_read t' vec' namess (live tw) /\ Forall2 fills vec vec' /\
    Forall2 (unit_set_read vec' (l_units l) ut') qs es /\ ut_contents ut' = ut_contents (l_units l) /\
    (forall q, q ∉ qs -> ut_entries ut' !! q = ut_entries (l_units l) !! q).
Proof.
  induction qs as [|q qs IH]; intros es l vec Hqs Hnq Ht Hr Hnd; inversion Hqs as [|? e ? es' He Hqs']; subst.
  { exists (l_units l), (l_shapes l), vec. rewrite with_shapes_id, with_units_id by reflexivity.
    split; [apply lreads_no_errors; [reflexivity|apply lreads_ret]|]. split_and!; auto. apply Forall2_fills_refl. }
  apply list.NoDup_cons in Hnq as [Hniq Hnq].
  destruct (unit_set_ok capsule q e l vec He Ht Hr Hnd) as (ut1 & t1 & vec1 & Hstep & Ht1 & Hr1 & Hf1 & Hq & Hc1 & Ho1 & Hsn1).
  cbn zeta in Hstep. set (n1 := set_reports (l_shapes l) vec e) in *.
  set (l1 := with_errors (add_errors n1 (l_errors l)) (with_units ut1 (with_shapes t1 l))) in *.
  destruct (IH es' l1 vec1) as (ut' & t' & vec' & Hl & Ht' & Hr' & Hf & Hall & Hc & Ho); auto.
  { clear -Hqs' Ho1 Hniq. induction Hqs' as [|p y qs es' (H1 & H2 & H3 & H4) Hqs' IH]; constructor.
    - split; [exact H1|]. split; [exact H2|]. split; [|exact H4]. cbn. rewrite Ho1; [exact H3|]. intros ->. apply Hniq. left.
    - apply IH. intros Hin. apply Hniq. by right. }
  { by rewrite (fills_entries _ _ Hf1). }
  exists ut', t', vec'. split; [|split; [exact Ht'|split; [exact Hr'|split; [by eapply fills_trans|split; [|split; [by rewrite Hc|]]]]]].
  - assert (sets_reports (l_shapes l1) vec1 es' = sets_reports (l_shapes l) vec es') as E.
    { unfold sets_reports. destruct e.2 eqn:Ee.
      - (* the linker information comes once *)
        assert (forall v, set_reports (l_shapes l1) vec1 v = set_reports (l_shapes l) vec v \/ v ∉ es') as H.
        { intros v. destruct v as [v []]; [right|by left]. intros Hin. apply list_elem_of_lookup in Hin as [i Hi].
          destruct (Forall2_lookup_r _ _ _ _ _ Hqs' Hi) as (p & Hp & Hv & _). apply Hniq.
          assert (Some p = Some q) as [= <-]; [|by eapply list_elem_of_lookup_2].
          rewrite (proj1 Hv eq_refl). symmetry. by apply (proj1 He). }
        f_equal. apply list_fmap_ext. intros i v Hv. destruct (H v) as [Ev|Hn']; [exact Ev|]. destruct Hn'. by eapply list_elem_of_lookup_2.
      - f_equal. apply list_fmap_ext. intros i v _. unfold set_reports. destruct v.2; [|reflexivity].
        rewrite (fills_entries _ _ Hf1). by apply usage_reports_names, Hsn1. }
    rewrite E in Hl. set (n2 := sets_reports (l_shapes l) vec es') in *.
    assert (sets_reports (l_shapes l) vec (e :: es') = n1 + n2)%nat as -> by reflexivity. intros Hroom.
    assert (room_for n2 (l_errors l1) /\ room_for n1 (l_errors l)) as [Hroom2 Hroom1].
    { unfold room_for, l1 in *. cbn. lia. }
    cbn [unit_sets_loop fmt_list foldr]. apply (Hstep Hroom1). fold l1. rewrite Nat.add_comm, <- add_errors_add. exact (Hl Hroom2).
  - constructor.
    + apply (unit_set_read_fills _ vec') in Hq; [|exact Hf]. destruct Hq as (x & Ex & H). exists x. split; [exact Ex|].
      by rewrite Ho by exact Hniq.
    + clear -Hall Ho1 Hniq. cbn in Hall. induction Hall as [|p y qs es' (x & Ex & H) Hall IH]; constructor.
      * exists x. split; [|exact H]. rewrite <- Ho1; [exact Ex|]. intros ->. apply Hniq. left.
      * apply IH. intros Hin. apply Hniq. by right.
  - intros p Hp. rewrite Ho by (intros Hin; apply Hp; by right). apply Ho1. intros ->. apply Hp. left.
Qed.
End Sets.
End ReadUnits.
