(* ===== verification/TldReadBack.v ===== *)
(** * TldReadBack: a linker reads the capsules a linker writes

    The reader of capsules (tld/src/adt/capsule.c) accepts every capsule its
    writer writes, and what the linker then has are the names, the links and
    the units of that capsule. *)
From stdpp Require Import base list list_numbers numbers.
From Stdlib Require Import ZArith Lia Sorted.
From S2P Require Import Prelude Codec ExdsString CStdio ExdsError TldNameKey TldIO TldIOSpec HashTable TldNames.
From S2P Require Import TldRename TldNameTable TldShapes TldShapesSpec TldCapsule TldCapsuleSpec TldUsage TldRead TldReadUnits.

(** ** From the tables of the writer to what it writes *)

Lemma shapes_of_keys t : wf_shapes t -> se_key <$> shapes_of t = (ht_entries (st_contents t)).*1.
Proof.
  intros (_ & _ & _ & Hk). unfold shapes_of, shape_table_iter.
  induction (ht_entries (st_contents t)) as [|[k p] l IH]; [reflexivity|]. cbn.
  pose proof (Hk k p ltac:(left)) as E. destruct (st_entries t !! p) as [s|]; [|discriminate].
  injection E as E. cbn. rewrite E. f_equal. apply IH. intros k' p' Hin. apply Hk. by right.
Qed.

Lemma live_keys t : wf_shapes t -> NoDup (se_key <$> live t).
Proof.
  intros Ht. apply (sublist_NoDup _ (se_key <$> shapes_of t)).
  - rewrite shapes_of_keys by exact Ht. apply Ht.
  - apply fmap_sublist, sublist_filter.
Qed.

Lemma Forall_live (P : ShapeEntryT -> Prop) t t' :
  (forall s s', same_shape s s' -> P s -> P s') -> same_shapes t t' -> Forall P (shapes_of t) -> Forall P (live t').
Proof.
  intros HP Hs H. unfold live. apply shapes_of_same in Hs.
  induction Hs as [|s s' l l' E Hs IH]; [constructor|]. inversion H; subst. rewrite filter_cons.
  case_decide; [constructor|]; eauto.
Qed.

Lemma readable_same s s' : same_shape s s' -> readable s -> readable s'.
Proof.
  intros (E1 & E2 & E3 & _) [H1 H2 H3 H4 H5 H6]. constructor; rewrite ?E1, ?E2, ?E3; assumption.
Qed.

Lemma legal_unit_same t t' u : same_shapes t t' -> legal_unit (shapes_of t) u -> legal_unit (live t') u.
Proof.
  intros Hs [Hu Hl]. split; [exact Hu|]. destruct (map_table u) as [table|]; [|exact I].
  apply (Forall_live _ t t'); [|exact Hs|exact Hl]. intros s s' (E1 & _ & E3 & _). unfold legal_links. by rewrite E1, E3.
Qed.

Lemma room_same t s s' : same_shape s s' -> room t s -> room t s'.
Proof. intros (E1 & _ & E3 & _) [H1 H2]. unfold room. rewrite E1, E3. split; [exact H1|exact H2]. Qed.

(** ** Reading *)

(** The operation [m] reads the format and goes on as [m']. *)
Definition lthen {A} (m : link A) (f : format) (l : LinkT) (m' : link A) (l' : LinkT) : Prop :=
  forall r pos rest, wf_reader r -> r_at r pos -> r_rest r = f pos ++ rest ->
    exists r', m (with_reader r l) = m' (with_reader r' l') /\ wf_reader r' /\ r_rest r' = rest.

#[local] Instance lthen_proper {A} : Proper (eq ==> fmt_eq ==> eq ==> eq ==> eq ==> iff) (@lthen A).
Proof.
  intros m ? <- f g E l ? <- m' ? <- l' ? <-. split; intros H r pos rest Hr Hp Er; apply (H r pos rest Hr Hp); [rewrite E|rewrite <- E]; exact Er.
Qed.

Lemma lthen_bind {A B} (m : link A) (k : A -> link B) f1 f2 l a l1 m' l' :
  lreads m f1 l a l1 -> lthen (k a) f2 l1 m' l' -> lthen (m ≫= k) (fmt_seq f1 f2) l m' l'.
Proof.
  intros H1 H2 r pos rest Hr Hp E. unfold fmt_seq in E. rewrite <- app_assoc in E.
  destruct (H1 r pos _ Hr Hp E) as (r1 & E1 & Hr1 & R1 & _). rewrite (stM_bind_ok _ _ _ _ _ E1).
  apply (H2 r1 (pos + length (f1 pos))%nat); auto. by eapply r_at_step.
Qed.

Lemma lthen_end {A B} (m : link A) (k : A -> link B) f l a l' :
  lreads m f l a l' -> lthen (m ≫= k) f l (k a) l'.
Proof.
  intros H r pos rest Hr Hp E. destruct (H r pos rest Hr Hp E) as (r1 & E1 & Hr1 & R1 & _).
  rewrite (stM_bind_ok _ _ _ _ _ E1). eauto.
Qed.

Section ReadBack.
Variable junk : nat -> Z.
Variable junk_nstring : nat -> NStringT.

(** The linker once it has set up its unit sets. *)
Definition setup (l : LinkT) : LinkT :=
  let '(g, units) := capsule_setup junk (l_statics l) (l_units l) in
  Link (l_reader l) g units (l_shapes l) (l_errors l).

(** The linker can take in the unit sets [es], which it knows as [qs], and
    names of the shapes [sss]. *)
Record accepts (l : LinkT) (major : Z) (es : list (UnitEntryT * bool)) (qs : list nat) (sss : list ShapeEntryT) : Prop := {
  acc_version : capsule_major_version (l_statics l) = 0 \/ capsule_major_version (l_statics l) = major;
  acc_sets : known_sets (l_statics l) (l_units l) ((fun e => ue_key e.1) <$> es) qs;
  acc_tld : Forall2 (fun q e => (e.2 = true <-> Some q = tld_entry_of (l_statics l)) /\
    is_Some (ut_entries (l_units l) !! q)) qs es;
  acc_shapes : good_shapes definition (l_shapes l);
  acc_room : Forall (room (l_shapes l)) sss
}.

(** What the reader checks of a capsule and the writer takes for granted. *)
Record readable_state (units : UnitTableT) (shapes : ShapeTableT) (ps : list nat) : Prop := {
  rs_shapes : Forall readable (shapes_of shapes);
  rs_units p : p ∈ ps -> Forall (legal_unit (shapes_of shapes)) (ue_units (entry_at units p))
}.

Lemma read_shapes_ok l sss :
  good_shapes definition (l_shapes l) -> NoDup (se_key <$> sss) -> Forall readable sss -> Forall (room (l_shapes l)) sss ->
  is_unsigned (Z.of_nat (length sss)) ->
  exists t' vec, lreads (capsule_read_shapes junk) (fmt_seq (fmt_int (Z.of_nat (length sss))) (fmt_list fmt_shape sss))
      l vec (with_shapes t' l) /\
    good_shapes definition t' /\ Forall2 (data_ok t') vec sss /\ NoDup (sd_entry <$> vec) /\ Forall fresh_slots vec /\
    redefinitions_at t' (sd_entry <$> vec) sss = redefinitions (l_shapes l) sss.
Proof.
  intros Ht Hnd Hrd Hroom Hn.
  destruct (read_shapes_loop_ok junk sss l [] [] Ht) as (t' & vec & Hl & Ht' & Hf & Hnv & Hfr & Hadd); auto; try constructor.
  { eapply Forall_impl; [|exact Hrd]. intros s [H1 [H2 _] _ _ _ _]. auto. }
  exists t', vec. split; [|split_and!; auto; apply redefinitions_at_names; auto; eapply Forall_impl; [|exact Hrd]; intros s Hs; apply (rb_key s Hs)]. unfold capsule_read_shapes. apply lreads_int; [exact Hn|]. rewrite Nat2Z.id. exact Hl.
Qed.

Lemma StronglySorted_NoDup (u : UnitTableT) qs : StronglySorted (before u) qs -> NoDup qs.
Proof.
  induction 1 as [|q qs Hs IH Hall]; constructor; [|exact IH]. intros Hin. rewrite Forall_forall in Hall.
  apply list_elem_of_In, Hall in Hin. unfold before in Hin. lia.
Qed.

Lemma same_sets_entries g g' : same_sets g g' -> tld_entry_of g' = tld_entry_of g /\ tld2_entry_of g' = tld2_entry_of g.
Proof. intros (E1 & E2 & E3). unfold tld_entry_of, tld2_entry_of, set_entry. by rewrite E1, E2, E3. Qed.

(** What the linker knows after the reading. *)
Definition linked_in (ut : UnitTableT) (l' : LinkT) (tw : ShapeTableT) (qs : list nat) (es : list (UnitEntryT * bool)) : Prop :=
  exists vec namess, good_shapes definition (l_shapes l') /\ all_read (l_shapes l') vec namess (live tw) /\ NoDup (sd_entry <$> vec) /\
    Forall2 (unit_set_read tw vec ut (l_units l')) qs es /\
    (forall q, q ∉ qs -> ut_entries (l_units l') !! q = ut_entries ut !! q).

(** The sizes of a capsule fit. *)
Record sizes_ok (g : StaticsT) (es : list (UnitEntryT * bool)) (tw : ShapeTableT) : Prop := {
  sz_major : 4 <= capsule_major_version g <= UINT_MAX;
  sz_minor : is_unsigned (capsule_minor_version g);
  sz_sets : is_unsigned (Z.of_nat (length es));
  sz_live : is_unsigned (Z.of_nat (length (live tw)));
  sz_tld : Z.of_nat (tld_bytes tw) < 2 ^ 32;
  sz_units e : e ∈ es -> e.2 = false -> ue_units e.1 <> [] /\ is_unsigned (Z.of_nat (length (ue_units e.1)))
}.

Lemma read_body_ok capsule g es tw l qs :
  let sets := filter written es in
  accepts l (capsule_major_version g) sets qs (live tw) -> sizes_ok g sets tw -> NoDup (se_key <$> live tw) ->
  Forall readable (live tw) -> (forall e, e ∈ sets -> e.2 = false -> Forall (legal_unit (live tw)) (ue_units e.1)) ->
  (forall t vec namess, sets_reports tw namess t vec sets = usage_reports t (sd_entry <$> vec) namess (live tw)) ->
  let n := redefinitions (l_shapes l) (live tw) in room_for n (l_errors l) ->
  exists l', lthen (capsule_read_body junk junk_nstring capsule) (fmt_capsule g es tw) l (rd tdf_read_eof) l' /\
    l_errors l' = add_errors n (l_errors l) /\ linked_in (l_units l) l' tw qs sets.
Proof.
  intros sets [Hv Hks Htld Hsh Hroom] [Hma Hmi Hns Hnl Hsz Hne] Hnd Hrd Hlg Hone n Hnroom.
  destruct (read_header_ok junk l (capsule_major_version g) (capsule_minor_version g) Hma Hmi Hv) as (g' & Hl0 & Hsame & _).
  set (l1 := with_statics g' l) in *. destruct (same_sets_entries _ _ Hsame) as [Et Et2].
  assert (known_sets (l_statics l1) (l_units l1) ((fun e => ue_key e.1) <$> sets) qs) as Hks1.
  { destruct Hks as [Hf Hs]. split; [|exact Hs]. eapply Forall2_impl; [|exact Hf]. intros s q H. cbn in H |- *. by rewrite Et2. }
  pose proof (read_unit_set_names_ok junk l1 _ qs Hks1) as Hl1. rewrite length_fmap in Hl1. specialize (Hl1 Hns).
  destruct (read_shapes_ok l1 (live tw) Hsh Hnd Hrd Hroom Hnl) as (t1 & vec1 & Hl2 & Ht1 & Hd1 & Hn1 & Hf1 & Hr1).
  set (l2 := with_shapes t1 l1) in *.
  destruct (read_external_names_ok junk junk_nstring l2 vec1 (live tw) Ht1 Hd1 Hn1 Hf1 Hrd Hnl) as (t2 & vec2 & namess & Hl3 & Ht2 & Hr2 & Hn2 & Hu2).
  set (l3 := with_shapes t2 l2) in *.
  assert (Forall2 (legal_set tw l3) qs sets) as Hls.
  { destruct Hks as [Hf _]. clear -Htld Hf Hne Hlg Et Et2. revert Hf Hne Hlg. generalize sets Htld. clear sets Htld. intros sets Htld.
    induction Htld as [|q e qs sets [H1 H2] Htld IH]; intros Hf Hne Hlg; [constructor|].
    inversion Hf as [|? ? ? ? (_ & _ & H3) Hf']; subst. constructor.
    - split; [cbn; rewrite Et; exact H1|]. split; [cbn; rewrite Et2; exact H3|]. split; [exact H2|].
      intros He. destruct (Hne e ltac:(left) He) as [Hx Hy]. split; [exact Hx|]. split; [exact Hy|]. apply Hlg; [left|exact He].
    - apply IH; [exact Hf'| |]; intros x Hx; [apply Hne|apply Hlg]; by right. }
  destruct (unit_sets_ok junk tw namess Hrd Hnl Hsz capsule qs sets l3 vec2 Hls) as
    (ut' & t' & vec' & Hl4 & Ht' & Hr' & Hf & Hall & _ & Ho); auto.
  { eapply StronglySorted_NoDup, Hks. }
  rewrite Hone in Hl4. change (l_shapes l3) with t2 in Hl4. rewrite Hu2 in Hl4. change (l_shapes l2) with t1 in Hl4.
  rewrite Hr1 in Hl4. change (l_shapes l1) with (l_shapes l) in Hl4. fold n in Hl4. specialize (Hl4 Hnroom).
  exists (with_errors (add_errors n (l_errors l)) (with_units ut' (with_shapes t' l3))). split; [|split; [reflexivity|]].
  - unfold capsule_read_body, fmt_capsule. fold sets. eapply lthen_bind; [exact Hl0|].
    rewrite <- fmt_seq_assoc. eapply lthen_bind; [rewrite fmt_list_fmap in Hl1; exact Hl1|].
    rewrite <- fmt_seq_assoc. eapply lthen_bind; [exact Hl2|].
    rewrite <- fmt_seq_assoc. eapply lthen_bind; [exact Hl3|]. cbn iota.
    apply (lthen_end _ (fun _ => rd tdf_read_eof) _ _ tt).
    unfold capsule_read_unit_sets. apply lreads_int; [exact Hns|].
    rewrite (Forall2_length Htld), Z.eqb_refl. exact Hl4.
  - exists vec', namess. rewrite (fills_entries _ _ Hf). split_and!; auto.
Qed.

(** ** The theorem *)

Lemma written_sizes g units shapes ps tld t :
  ready g units shapes ps tld -> same_shapes shapes t -> sizes_ok g (filter written (unit_entries units tld ps)) t.
Proof.
  intros [[Hma Hmi] [[Hwf _] Hns] Hsize _ _ (Hnd & _ & Hlen) Hent] Hs. constructor; auto.
  - pose proof (length_filter written (unit_entries units tld ps)) as Hl. unfold unit_entries in *.
    rewrite length_fmap in Hl. unfold is_unsigned. lia.
  - pose proof (live_length t (wf_shapes_same _ _ Hs Hwf)) as Hl. rewrite <- (Forall2_length (proj2 Hs)) in Hl.
    unfold is_unsigned. lia.
  - by eapply tld_bytes_small.
  - intros e He Htld. apply list_elem_of_filter in He as [Hw He]. split.
    + destruct Hw as [Hw|Hw]; [exact Hw|congruence].
    + unfold unit_entries in He. apply list_elem_of_fmap in He as (p & -> & Hp).
      destruct (Hent p Hp) as (x & Ex & _ & _ & _ & Hn). cbn. unfold entry_at. by rewrite Ex.
Qed.

Lemma written_legal units shapes ps tld t e :
  readable_state units shapes ps -> same_shapes shapes t -> e ∈ filter written (unit_entries units tld ps) ->
  Forall (legal_unit (live t)) (ue_units e.1).
Proof.
  intros [_ Hu] Hs He. apply list_elem_of_filter in He as [_ He]. unfold unit_entries in He.
  apply list_elem_of_fmap in He as (p & -> & Hp). cbn. eapply Forall_impl; [|exact (Hu p Hp)].
  intros u. by apply legal_unit_same.
Qed.

Lemma rd_eof_ok r l : wf_reader r -> (length (r_rest r) < 8)%nat ->
  exists r', rd tdf_read_eof (with_reader r l) = (with_reader r' l, Ok tt).
Proof.
  intros Hr Hl. pose proof (tdf_read_eof_ok r Hr Hl) as E. unfold rd. cbn [l_reader with_reader].
  destruct (tdf_read_eof r) as [r' x]. cbn in E. subst x. by exists r'.
Qed.

(** The linker information is written once. *)
Lemma written_once units ps tld tw namess t vec :
  NoDup ps -> tld ∈ ps ->
  sets_reports tw namess t vec (filter written (unit_entries units tld ps)) = usage_reports t (sd_entry <$> vec) namess (live tw).
Proof.
  assert (forall ps, NoDup ps -> sets_reports tw namess t vec (filter written (unit_entries units tld ps)) =
    if decide (tld ∈ ps) then usage_reports t (sd_entry <$> vec) namess (live tw) else O) as H.
  2: { intros Hnd Hin. rewrite H by exact Hnd. by rewrite decide_True. }
  clear ps. intros ps. induction ps as [|p ps IH]; intros Hnd.
  { rewrite decide_False by (intros X; inversion X). reflexivity. }
  apply list.NoDup_cons in Hnd as [Hni Hnd]. specialize (IH Hnd). unfold unit_entries in *. cbn [fmap list_fmap]. rewrite filter_cons.
  set (rest := filter written _) in *. destruct (decide (p = tld)) as [->|Hp].
  - rewrite decide_True by (right; by apply bool_decide_eq_true_2). rewrite decide_False in IH by exact Hni. rewrite decide_True by left.
    unfold sets_reports in *. cbn [fmap list_fmap]. unfold set_reports at 1. cbn [snd]. rewrite bool_decide_eq_true_2 by reflexivity.
    change (sum_list (?x :: ?l)) with (x + sum_list l)%nat. rewrite IH. apply Nat.add_0_r.
  - assert (sets_reports tw namess t vec rest = if decide (tld ∈ p :: ps) then usage_reports t (sd_entry <$> vec) namess (live tw) else O) as E.
    { rewrite IH. assert (tld ∈ p :: ps <-> tld ∈ ps) as Ein by (rewrite elem_of_cons; split; [intros [E|E]; [congruence|exact E]|by right]).
      destruct (decide (tld ∈ ps)); [rewrite decide_True by tauto|rewrite decide_False by tauto]; reflexivity. }
    destruct (decide (written _)); [|exact E]. rewrite <- E. unfold sets_reports. cbn [fmap list_fmap]. unfold set_reports at 1. cbn [snd].
    rewrite bool_decide_eq_false_2 by exact Hp. reflexivity.
Qed.

(** Shapes that are not written have no names. *)
Lemma live_redefinitions t0 shapes t :
  same_shapes shapes t -> Forall readable (shapes_of shapes) -> (forall s, s ∈ shapes_of t -> 0 < id_count s -> s ∈ live t) ->
  redefinitions t0 (live t) = redefinitions t0 (shapes_of shapes).
Proof.
  intros Hs Hrd Hlive. unfold redefinitions, live in *. apply shapes_of_same in Hs.
  assert (forall s, s ∈ shapes_of t -> 0 < id_count s -> is_live s) as Hl.
  { intros s Hin Hc. by destruct (proj1 (list_elem_of_filter _ _ _) (Hlive s Hin Hc)). }
  clear Hlive. induction Hs as [|s s' l l' (E1 & E2 & E3 & _) Hs IH]; [reflexivity|]. inversion Hrd as [|? ? Hr Hrd']; subst.
  specialize (IH Hrd' ltac:(intros x Hx; apply Hl; by right)). rewrite filter_cons. destruct (decide (is_live s')) as [Hy|Hn].
  - cbn [fmap list_fmap]. change (sum_list (?x :: ?l)) with (x + sum_list l)%nat. by rewrite IH, E1, E2.
  - cbn [fmap list_fmap]. change (sum_list (?x :: ?l)) with (x + sum_list l)%nat. rewrite IH.
    assert (visible (se_names s) = []) as ->; [|reflexivity]. destruct (visible (se_names s)) as [|v vs] eqn:Ev; [reflexivity|].
    destruct Hn. apply Hl; [left|]. pose proof (rb_names _ Hr) as Hnm. rewrite Ev in Hnm. inversion Hnm as [|? ? [_ Hid] _]; subst. lia.
Qed.

Lemma setup_errors l : l_errors (setup l) = l_errors l.
Proof. unfold setup. by destruct (capsule_setup _ _ _). Qed.

Lemma setup_shapes_same l : l_shapes (setup l) = l_shapes l.
Proof. unfold setup. by destruct (capsule_setup _ _ _). Qed.

Lemma capsule_reads_back capsule g units shapes ps tld sends name byte name' byte' l qs :
  let sets := filter written (unit_entries units tld ps) in
  ready g units shapes ps tld -> readable_state units shapes ps ->
  accepts (setup l) (capsule_major_version g) sets qs (shapes_of shapes) ->
  let n := redefinitions (l_shapes l) (shapes_of shapes) in room_for n (l_errors l) ->
  exists t m w l', capsule_write g units shapes = Some (t, m) /\
    (_ ← m; tdf_writer_close) (tdf_writer_open (takes_all sends) name byte) = (w, Ok tt) /\
    let file := map Some (bytes_in_file w) in
    capsule_read junk junk_nstring capsule (with_reader (tdf_reader_open file name' byte') l) = (l', Ok true) /\
    l_errors l' = add_errors n (l_errors l) /\ linked_in (l_units (setup l)) l' t qs sets.
Proof.
  intros sets Hready Hrs Hacc n Hroom. destruct (capsule_write_ok _ _ _ _ _ Hready) as (t & m & Ew & Hm & Hsame & Hlive).
  destruct (written_file_ok m _ sends name byte Hm) as (w & Ec & Hb & E). set (data := bytes_in_file w) in *.
  destruct (open_stream_reads data name' byte' Hb) as (Hr & Hnew & Hsrc). set (r := tdf_reader_open _ name' byte') in *.
  assert (wf_shapes t) as Hwf by (eapply wf_shapes_same; [exact Hsame|apply Hready]).
  destruct (read_body_ok capsule g (unit_entries units tld ps) t (setup l) qs) as (l' & Hthen & Herr & Hlink).
  { destruct Hacc as [H1 H2 H3 H4 H5]. constructor; auto. eapply Forall_live; [|exact Hsame|exact H5]. intros. by eapply room_same. }
  { by eapply written_sizes. }
  { by apply live_keys. }
  { eapply Forall_live; [apply readable_same|exact Hsame|apply Hrs]. }
  { intros e He _. by eapply written_legal. }
  { intros t0 vec namess. apply written_once; apply Hready. }
  { rewrite (live_redefinitions _ shapes t) by (assumption || apply Hrs). by rewrite setup_errors, setup_shapes_same. }
  rewrite (live_redefinitions _ shapes t), setup_errors, setup_shapes_same in Herr by (assumption || apply Hrs). fold n in Herr.
  assert (r_rest r = bytes_bits data) as Hrest by (unfold r_rest; rewrite Hnew, Hsrc; reflexivity).
  destruct (Hthen r 0%nat (pad_bits (length (fmt_capsule g (unit_entries units tld ps) t 0%nat))) Hr) as (r1 & E1 & Hr1 & R1).
  { unfold r_at. rewrite Hrest, length_bytes_bits, Nat.add_0_l, Nat.mul_comm. apply Nat.Div0.mod_mul. }
  { rewrite Hrest. exact E. }
  destruct (rd_eof_ok r1 l' Hr1) as (r2 & E2).
  { rewrite R1. unfold pad_bits. rewrite length_replicate. apply Nat.mod_upper_bound. lia. }
  exists t, m, w, (with_reader r2 l'). split; [exact Ew|]. split; [exact Ec|]. split; [|split; [exact Herr|exact Hlink]].
  unfold capsule_read. unfold setup in E1. cbn [l_statics l_units with_reader].
  destruct (capsule_setup junk (l_statics l) (l_units l)) as [g1 u1]. unfold with_reader at 1 in E1. cbn in E1. cbn.
  fold data r. rewrite E1, E2. reflexivity.
Qed.

End ReadBack.

(** ** An example: the capsule of TldCapsuleSpec, read by a fresh linker *)

Lemma good_shapes_create : good_shapes definition shape_table_create.
Proof. constructor; [apply shape_table_create_wf|intros p s E; destruct p; discriminate|discriminate..]. Qed.

Definition ex_linker : LinkT :=
  Link (tdf_reader_open [] [] 0) initial_statics unit_table_create shape_table_create initial_reports.

Lemma ex_links_legal : Forall (legal_links ex_map) (shapes_of ex_shapes).
Proof.
  assert (shapes_of ex_shapes = [ex_entry]) as -> by (vm_compute; reflexivity).
  assert (map_links ex_map (se_key ex_entry) = [MapLink 2 0]) as E by (vm_compute; reflexivity).
  constructor; [|constructor]. unfold legal_links. rewrite E. constructor; [|constructor]. reflexivity.
Qed.

Lemma ex_readable : readable_state ex_units ex_shapes (seq 0 12).
Proof.
  constructor.
  - constructor; [|constructor]. constructor.
    + apply (bool_decide_eq_true_1 _). vm_compute. reflexivity.
    + split; vm_compute; congruence.
    + change (visible (se_names ex_entry)) with
        [(KT_STRING ex_tag, Direct 0 7 None None); (KT_UNIQUE [ex_tag; NString 0 []], Direct 2 10 None None)].
      apply (bool_decide_eq_true_1 _). vm_compute. reflexivity.
    + apply (bool_decide_eq_true_1 _). vm_compute. reflexivity.
    + split; vm_compute; congruence.
    + change (visible (se_names ex_entry)) with
        [(KT_STRING ex_tag, Direct 0 7 None None); (KT_UNIQUE [ex_tag; NString 0 []], Direct 2 10 None None)].
      constructor; [|constructor; [|constructor]]; reflexivity.
  - intros p Hp. apply elem_of_seq in Hp. destruct (decide (p = 10%nat)) as [->|Hne].
    + change (Forall (legal_unit (shapes_of ex_shapes)) [ex_unit; UnitOf None ex_tag]).
      pose proof ex_unit_ok as Hok. inversion Hok as [|? ? H1 Hok']; subst. inversion Hok' as [|? ? H2 _]; subst.
      constructor; [split; [exact H1|exact ex_links_legal]|constructor; [split; [exact H2|exact I]|constructor]].
    + assert (ue_units (entry_at ex_units p) = []) as ->; [|constructor].
      do 12 (destruct p as [|p]; [first [reflexivity|congruence]|]). lia.
Qed.

Lemma ex_accepts :
  accepts (setup (fun _ => 0) ex_linker) 4 (filter written (unit_entries ex_units 0 (seq 0 12))) [0%nat; 10%nat]
    (shapes_of ex_shapes).
Proof.
  constructor.
  - left. reflexivity.
  - split.
    + change ((fun e => ue_key e.1) <$> filter written (unit_entries ex_units 0 (seq 0 12))) with
        [ue_key (entry_at ex_units 0); ue_key (entry_at ex_units 10)].
      constructor; [|constructor; [|constructor]]; (split; [apply (bool_decide_eq_true_1 _); vm_compute; reflexivity|]);
        split; vm_compute; congruence.
    + constructor; [|constructor; [reflexivity|constructor]]. constructor; [constructor|constructor].
  - change (filter written (unit_entries ex_units 0 (seq 0 12))) with
      [(entry_at ex_units 0, true); (entry_at ex_units 10, false)].
    constructor; [|constructor; [|constructor]]; (split; [|eexists; reflexivity]); split; vm_compute; congruence.
  - apply good_shapes_create.
  - constructor; [|constructor]. split; [vm_compute; congruence|]. intros s Hs. inversion Hs.
Qed.

