(* ===== verification/TldLibrary.v ===== *)
(** * TldLibrary: libraries of capsules, and the loading of their capsules

    Models tld/src/adt/library.c: reading and writing a library (its capsules
    and the index of the names they define), and, in name-entry.c,
    shape-entry.c and frontend/linker.c, the loop that loads the capsules of
    libraries which define names that are still undefined.

    The capsules of all libraries live in one vector; the pointer a name of
    the library index has to the capsule that defines it is its position. The
    functions that read a library run in the monad of the reader of capsules,
    the shapes being those of the library index; the fields of the library
    come back as the result. *)
From stdpp Require Import base list list_numbers numbers.
From Stdlib Require Import ZArith Lia String Ascii.
From S2P Require Import Prelude Codec ExdsString TldNameKey TldIO HashTable TldNames TldShapes TldCapsule.

Definition MAGIC_LINK_NUMBER : string := "TDFL".

Definition library_magic : NStringT := nstring_const MAGIC_LINK_NUMBER.

Definition LIBRARY_TYPE_JUMP_TABLE_SIZE : Z := 1.

(** [lc_library]: the name of the library; [lc_name]: a C string. *)
Record LibCapsuleT := LibCapsule {
  lc_library : list Z;
  lc_name : list Z;
  lc_contents : NStringT;
  loaded : bool
}.

(** The position of the first capsule is known to the caller. *)
Record LibraryT := Library {
  lib_name : list Z;
  lib_capsules : list LibCapsuleT;
  lib_major : Z;
  lib_minor : Z;
  lib_complete : bool
}.

Definition num_capsules (library : LibraryT) : nat := List.length (lib_capsules library).

(** The characters of a C string, up to its terminator. *)
Fixpoint c_chars (l : list Z) : list Z :=
  match l with
  | [] => []
  | c :: l => if c =? 0 then [] else c :: c_chars l
  end.

Definition lib_capsule_name (c : LibCapsuleT) : list Z := lc_name c.

Definition lib_capsule_full_name (c : LibCapsuleT) : list Z :=
  lc_library c ++ [40] ++ c_chars (lib_capsule_name c) ++ [41; 0].

Definition lib_capsule_contents (c : LibCapsuleT) : NStringT := lc_contents c.

Definition lib_capsule_is_loaded (c : LibCapsuleT) : bool := loaded c.

Definition lib_capsule_loaded (c : LibCapsuleT) : LibCapsuleT :=
  LibCapsule (lc_library c) (lc_name c) (lc_contents c) true.

Definition library_get_capsule (library : LibraryT) (capsule_index : nat) : option LibCapsuleT :=
  lib_capsules library !! capsule_index.

Section Library.
Variable junk : nat -> Z.
Variable junk_nstring : nat -> NStringT.

(** ** Reading *)

Definition lib_fail {A} : link A := _ ← serious; st_throw XX_library_error.

Definition library_read_header : link (Z * Z) :=
  magic ← rd (tdf_read_bytes (nstring_init_length junk 4));
  if negb (nstring_equal magic library_magic) then lib_fail
  else
    major ← rd tdf_read_int;
    minor ← rd tdf_read_int;
    l ← st_get;
    let g := l_statics l in
    _ ← (if major <? 4 then lib_fail
         else if capsule_major_version g =? 0 then
           set_statics (Statics (capsule_unit_sets g) (capsule_tld_index g) (capsule_tld2_index g) major
             (capsule_minor_version g) (need_setup g))
         else if negb (capsule_major_version g =? major) then lib_fail
         else mret tt);
    _ ← rd tdf_read_align;
    mret (major, minor).

Fixpoint lib_capsules_loop (library : list Z) (n : nat) : link (list LibCapsuleT) :=
  match n with
  | O => mret []
  | S n =>
      nstring ← rd (tdf_read_string junk);
      if nstring_contains nstring 0 then lib_fail
      else
        length ← rd tdf_read_int;
        contents ← rd (tdf_read_bytes (nstring_init_length junk (Z.to_nat length)));
        capsules ← lib_capsules_loop library n;
        mret (LibCapsule library (nstring_to_cstring junk nstring) contents false :: capsules)
  end.

Definition library_read_version_0_capsules (library : list Z) : link (list LibCapsuleT) :=
  num_capsules ← rd tdf_read_int;
  lib_capsules_loop library (Z.to_nat num_capsules).

(** The counterpart of [merge_usage] for the definitions in libraries. *)
Definition merge_lib_usage (lib_capsule : nat) (t : NameTableT) (p : nat) (use : Z) : option (NameTableT * bool) :=
  name_use ← name_entry_get_use t p;
  '(t, again) ← match usage_of use name_use with
                | Redefined => d ← get_direct t p; _ ← lib_definition d; Some (t, true)
                | Forget => t ← name_entry_set_lib_definition t p None; Some (t, false)
                | Define => t ← name_entry_set_lib_definition t p (Some lib_capsule); Some (t, false)
                | Nothing => Some (t, false)
                end;
  t ← name_entry_merge_use t p use;
  Some (t, again).

(** [entry] is the shape. *)
Definition library_check_index_entry (entry : nat) (need_dec no_mult : bool) (key : NameKeyT) (use : Z)
    (lib_capsule : nat) : link unit :=
  s ← get_shape entry;
  '(s, name_entry) ← need (name_table_add junk s key);
  _ ← put_shape entry s;
  if bad_usage use need_dec no_mult then lib_fail
  else
    '(t, again) ← need (merge_lib_usage lib_capsule (se_names s) name_entry use);
    _ ← (if (again : bool) then serious else mret tt);
    put_shape entry (set_names s t).

(** [base]: the position of the first capsule of the library. *)
Fixpoint index_names_loop (base : nat) (num_capsules : Z) (entry : nat) (need_dec no_mult : bool) (n : nat) : link unit :=
  match n with
  | O => mret tt
  | S n =>
      external_name ← rd (tdf_read_name junk junk_nstring);
      use ← rd tdf_read_int;
      capsule_index ← rd tdf_read_int;
      if num_capsules <=? capsule_index then lib_fail
      else
        _ ← library_check_index_entry entry need_dec no_mult external_name use (base + Z.to_nat capsule_index);
        index_names_loop base num_capsules entry need_dec no_mult n
  end.

Fixpoint index_shapes_loop (base : nat) (num_capsules : Z) (token_entry tag_entry : option nat) (n : nat) : link unit :=
  match n with
  | O => mret tt
  | S n =>
      name ← rd (tdf_read_string junk);
      l ← st_get;
      let '(shapes, entry) := shape_table_add junk (l_shapes l) name in
      _ ← put_shapes shapes;
      let need_dec := bool_decide (Some entry = tag_entry) in
      let no_mult := bool_decide (Some entry = token_entry) in
      num_names ← rd tdf_read_int;
      _ ← index_names_loop base num_capsules entry need_dec no_mult (Z.to_nat num_names);
      index_shapes_loop base num_capsules token_entry tag_entry n
  end.

Definition get_token_entry : link (option nat) :=
  l ← st_get;
  let '(shapes, entry) := shape_table_get_token_entry (l_shapes l) in
  _ ← put_shapes shapes;
  mret entry.

Definition get_tag_entry : link (option nat) :=
  l ← st_get;
  let '(shapes, entry) := shape_table_get_tag_entry (l_shapes l) in
  _ ← put_shapes shapes;
  mret entry.

(** [library_read_version_0], which starts by reading the capsules, is in two
    parts: when the second fails, the capsules have been read and the names of
    the index point to them. *)
Definition library_read_version_0_index (base : nat) (library : LibraryT) : link unit :=
  token_entry ← get_token_entry;
  tag_entry ← get_tag_entry;
  num_shapes ← rd tdf_read_int;
  _ ← index_shapes_loop base (Z.of_nat (num_capsules library)) token_entry tag_entry (Z.to_nat num_shapes);
  rd tdf_read_eof.

(** [library_read] up to the index. *)
Definition library_read_capsules (library : list Z) : link LibraryT :=
  '(major, minor) ← library_read_header;
  library_type ← rd tdf_read_int;
  if LIBRARY_TYPE_JUMP_TABLE_SIZE <=? library_type then lib_fail
  else
    capsules ← library_read_version_0_capsules library;
    mret (Library library capsules major minor false).

(** The exception handler of [library_read]. *)
Definition lib_handler {A} (m : link A) (a : A) : link A := fun l =>
  match m l with
  | (l, Throw XX_library_error) | (l, Throw (XX_tdf XX_tdf_read_error)) => (l, Ok a)
  | x => x
  end.

(** A library that fails before its index has capsules that nothing in the
    index points to; they are left out. *)
Definition library_read (library : list Z) (base : nat) : link LibraryT :=
  lib ← lib_handler (lib ← library_read_capsules library; mret (Some lib)) None;
  match lib with
  | None => mret (Library library [] 0 0 false)
  | Some lib =>
      lib_handler (_ ← library_read_version_0_index base lib;
                   mret (Library library (lib_capsules lib) (lib_major lib) (lib_minor lib) true)) lib
  end.

(** ** Writing *)

Definition library_write_header (g : StaticsT) : option (writer unit) :=
  if 4 <=? capsule_major_version g then
    Some (_ ← tdf_write_bytes library_magic;
          _ ← tdf_write_int (capsule_major_version g);
          _ ← tdf_write_int (capsule_minor_version g);
          tdf_write_align)
  else None.

(** A capsule to write: its name and contents. *)
Definition write_lib_capsule (c : list Z * NStringT) : writer unit :=
  _ ← tdf_write_string (nstring_copy_cstring junk c.1);
  _ ← tdf_write_int (u32 (Z.of_nat (nstring_length c.2)));
  tdf_write_bytes c.2.

(** [capsule_index] is [capsule_get_index]. *)
Definition library_write (g : StaticsT) (shapes : ShapeTableT) (capsules : list (list Z * NStringT))
    (capsule_index : nat -> Z) : option (ShapeTableT * writer unit) :=
  '(shapes, num_shapes) ← shape_iter shape_entry_do_lib_count (shape_table_iter shapes) shapes 0;
  m ← wseq (library_write_header g)
       (wseq (Some (_ ← tdf_write_int 0; tdf_write_int (u32 (Z.of_nat (List.length capsules)))))
         (wseq (wlist (fun c => Some (write_lib_capsule c)) capsules)
           (wseq (Some (tdf_write_int num_shapes))
             (shape_iter_write (shape_entry_do_lib_write capsule_index) shapes))));
  Some (shapes, m).
End Library.
