(* ===== verification/TldResolve.v ===== *)
(** * TldResolve: loading the capsules that define what is undefined

    Models [name_entry_resolve_undefined] (tld/src/adt/name-entry.c),
    [shape_entry_resolve_undefined] (shape-entry.c) and
    [linker_resolve_undefined] (frontend/linker.c). Reading a capsule may add
    shapes to the table that is being iterated and names to the list that is
    being emptied, so the iteration follows the chains of the table by
    position, and the list is read again every time. The loops take fuel;
    [resolve_undefined_terminates] proves that there is enough of it
    for any state, because no capsule is loaded twice. *)
From stdpp Require Import base list list_numbers numbers.
From Stdlib Require Import ZArith Lia.
From S2P Require Import Prelude Codec ExdsString ExdsError TldNameKey TldIO HashTable TldNames TldShapes TldCapsule TldLibrary.

(** ** The state *)

(** [rv_link]: the linker, with its units and shapes; [rv_lib_shapes]: the
    index of the libraries; [rv_capsules]: their capsules. *)
Record ResolveT := Resolve {
  rv_link : LinkT;
  rv_lib_shapes : ShapeTableT;
  rv_capsules : list LibCapsuleT;
  did_define : bool
}.

Definition resolve := stM ResolveT capsule_exn.

Definition in_link {A} (m : link A) : resolve A := fun st =>
  let '(l, x) := m (rv_link st) in (Resolve l (rv_lib_shapes st) (rv_capsules st) (did_define st), x).

Definition set_did_define (b : bool) : resolve unit := fun st =>
  (Resolve (rv_link st) (rv_lib_shapes st) (rv_capsules st) b, Ok tt).

Definition set_lib_capsule (c : nat) (lc : LibCapsuleT) : resolve unit := fun st =>
  (Resolve (rv_link st) (rv_lib_shapes st) (<[c := lc]> (rv_capsules st)) (did_define st), Ok tt).

(** [capsule_create_string_input]. *)
Definition open_string (name : list Z) (contents : NStringT) (byte : Z) : link unit := fun l =>
  (Link (tdf_reader_open_string name contents byte) (l_statics l) (l_units l) (l_shapes l) (l_errors l), Ok tt).

(** [if (error_max_reported_severity() >= ERROR_SEVERITY_ERROR) exit]. *)
Definition exit_on_error : link unit := fun l =>
  (l, if severity_ge (error_max_reported_severity (severities (l_errors l))) ERROR_SEVERITY_ERROR then Throw Exit else Ok tt).

Section Resolve.
Variable junk : nat -> Z.
Variable junk_nstring : nat -> NStringT.

(** Capsules are known by numbers: those of libraries come after the [first]
    that are given as files. *)
Variable first : nat.

Definition load_lib_capsule (c : nat) (lib_def : LibCapsuleT) : resolve unit :=
  _ ← in_link (open_string (lib_capsule_full_name lib_def) (lib_capsule_contents lib_def) (u8 (junk 0)));
  _ ← in_link (capsule_read junk junk_nstring (first + c));
  set_lib_capsule c (lib_capsule_loaded lib_def).

(** The definition in a library that the name [key], with usage [use], leads
    to in [table], if it is to be loaded. *)
Definition lib_candidate (table : option NameTableT) (capsules : list LibCapsuleT) (key : NameKeyT) (use : Z)
  : option (option (nat * LibCapsuleT)) :=
  match table with
  | None => Some None
  | Some t =>
      lib_entry ← name_table_get t key;
      match lib_entry with
      | None => Some None
      | Some q =>
          d ← get_direct t q;
          match lib_definition d with
          | None => Some None
          | Some c =>
              lib_def ← capsules !! c;
              Some (if negb (lib_capsule_is_loaded lib_def) && (negb (has use U_MULT) || has (get_use d) U_DEFD)
                    then Some (c, lib_def) else None)
          end
      end
  end.

(** [entry] is the shape, [p] the name. *)
Definition name_entry_resolve_undefined (table : option NameTableT) (entry p : nat) : resolve bool :=
  s ← in_link (get_shape entry);
  use ← in_link (need (name_entry_get_use (se_names s) p));
  key ← in_link (need (name_entry_key (se_names s) p));
  if has use U_DEFD || negb (has use U_USED) then mret false
  else
    st ← st_get;
    o ← in_link (need (lib_candidate table (rv_capsules st) key use));
    match o with
    | Some (c, lib_def) => _ ← load_lib_capsule c lib_def; mret true
    | None => mret false
    end.

(** One round of the loop; [false] when the list is empty. *)
Definition resolve_next (table : option NameTableT) (entry : nat) : resolve bool :=
  s ← in_link (get_shape entry);
  match shape_entry_get_from_list s with
  | (None, _) => mret false
  | (Some p, s) =>
      _ ← in_link (put_shape entry s);
      defined ← name_entry_resolve_undefined table entry p;
      _ ← (if (defined : bool) then set_did_define true else mret tt);
      mret true
  end.

Fixpoint resolve_list (fuel : nat) (table : option NameTableT) (entry : nat) : runM ResolveT capsule_exn unit :=
  match fuel with
  | O => out_of_fuel
  | S fuel =>
      more ← lift (resolve_next table entry);
      if (more : bool) then resolve_list fuel table entry else mret tt
  end.

(** The name table of the shape in the index of the libraries. *)
Definition lib_table (lib_shapes : ShapeTableT) (key : NStringT) : option NameTableT :=
  p ← shape_table_get lib_shapes key; se_names <$> st_entries lib_shapes !! p.

Definition shape_entry_resolve_undefined (fuel entry : nat) : runM ResolveT capsule_exn unit :=
  s ← lift (in_link (get_shape entry));
  st ← lift st_get;
  resolve_list fuel (lib_table (rv_lib_shapes st) (se_key s)) entry.

(** [shape_table_iter], from the entry number [j] of the chain number [i]. *)
Fixpoint resolve_iter (fuel i j : nat) : runM ResolveT capsule_exn unit :=
  match fuel with
  | O => out_of_fuel
  | S fuel' =>
      st ← lift st_get;
      match st_contents (l_shapes (rv_link st)) !! i with
      | None => mret tt
      | Some chain =>
          match chain !! j with
          | None => resolve_iter fuel' (S i) 0
          | Some (_, entry) =>
              _ ← shape_entry_resolve_undefined fuel entry;
              resolve_iter fuel' i (S j)
          end
      end
  end.

Fixpoint resolve_loop (fuel : nat) : runM ResolveT capsule_exn unit :=
  match fuel with
  | O => out_of_fuel
  | S fuel' =>
      _ ← lift (set_did_define false);
      _ ← resolve_iter fuel 0 0;
      st ← lift st_get;
      if did_define st then resolve_loop fuel' else mret tt
  end.

Definition linker_resolve_undefined (fuel : nat) : runM ResolveT capsule_exn unit :=
  _ ← resolve_loop fuel;
  lift (in_link exit_on_error).
End Resolve.
