(* ===== verification/TldResolveSpec.v ===== *)
(** * TldResolveSpec: the loading of library capsules

    The loops of TldResolve end on every state, because each round that asks
    for another loads a capsule that was not loaded; when they end normally
    every name entered in the lists has been considered. *)
From stdpp Require Import base list list_numbers numbers.
From Stdlib Require Import ZArith Lia.
From S2P Require Import Prelude Codec ExdsString CStdio ExdsError TldNameKey TldIO HashTable TldNames TldShapes TldCapsule TldLibrary TldResolve.

(** ** Termination *)

Definition unloaded (st : ResolveT) : nat := length (filter (fun c => loaded c = false) (rv_capsules st)).

Definition shapes_at (st : ResolveT) : ShapeTableT := l_shapes (rv_link st).

Definition list_at (st : ResolveT) (p : nat) : list nat := from_option se_list [] (st_entries (shapes_at st) !! p).

(** No capsule has been loaded between the two states; the lists that were
    empty still are. *)
Definition drained (st st' : ResolveT) : Prop :=
  unloaded st' = unloaded st /\ did_define st' = did_define st /\
  st_contents (shapes_at st') = st_contents (shapes_at st) /\
  forall p, list_at st p = [] -> list_at st' p = [].

#[local] Instance drained_preorder : PreOrder drained.
Proof.
  split; [intros st; by split_and!|]. intros a b c (A1 & A2 & A3 & A4) (B1 & B2 & B3 & B4).
  split_and!; [congruence..|auto].
Qed.

(** A capsule has been loaded. *)
Definition loads (st st' : ResolveT) : Prop := (unloaded st' < unloaded st)%nat /\ did_define st' = true.

(** Either a capsule has been loaded, or not, and [P] holds. *)
Definition progress (P : ResolveT -> Prop) (st : ResolveT) (r : ResolveT * result capsule_exn unit) : Prop :=
  match r with
  | (st', Ok _) => loads st st' \/ (drained st st' /\ P st')
  | (_, Throw _) => True
  end.

(** Induction on two measures, the first one coming first. *)
Lemma lex_ind {X} (a b : X -> nat) (Q : X -> Prop) :
  (forall x, (forall y, (a y < a x)%nat \/ (a y = a x /\ (b y < b x)%nat) -> Q y) -> Q x) -> forall x, Q x.
Proof.
  intros H x. remember (a x) as n eqn:En. revert x En. induction n as [n IHn] using lt_wf_ind.
  intros x En. remember (b x) as m eqn:Em. revert x En Em. induction m as [m IHm] using lt_wf_ind.
  intros x En Em. apply H. intros y [Hlt|[He Hlt]].
  - apply (IHn (a y)); [lia|reflexivity].
  - apply (IHm (b y)); [lia|congruence|reflexivity].
Qed.

(** With enough fuel the loop [m] ends, and always in the same way. *)
Definition settles (m : nat -> runM ResolveT capsule_exn unit) (P : ResolveT -> Prop) (st : ResolveT) : Prop :=
  exists fuel r, (forall f, (fuel <= f)%nat -> m f st = Some r) /\ progress P st r.

Lemma progress_trans (P : ResolveT -> Prop) st st1 r :
  loads st st1 \/ drained st st1 -> progress P st1 r -> progress P st r.
Proof.
  intros H. destruct r as [st' [u|e]]; cbn; [|auto]. unfold loads in *. intros [[Hlt Ht]|[Hd HP]].
  - left. split; [|exact Ht]. destruct H as [[H _]|H]; [lia|]. destruct H as [<- _]. exact Hlt.
  - destruct H as [H|H]; [left; destruct Hd as (-> & -> & _); exact H|]. right. split; [by transitivity st1|exact HP].
Qed.

Lemma progress_impl (P Q : ResolveT -> Prop) st r : (forall st', drained st st' -> P st' -> Q st') -> progress P st r -> progress Q st r.
Proof. intros H. destruct r as [st' [u|e]]; cbn; [|auto]. intros [Hlt|[Hd HP]]; [by left|right; auto]. Qed.

(** A loop whose first round leads from [st] to [st1]. *)
Lemma settles_step (m m' : nat -> runM ResolveT capsule_exn unit) (P : ResolveT -> Prop) st st1 :
  (forall f, m (S f) st = m' f st1) -> loads st st1 \/ drained st st1 -> settles m' P st1 -> settles m P st.
Proof.
  intros Hm H (fuel & r & Hr & Hp). exists (S fuel), r. split; [|by eapply progress_trans].
  intros [|f] Hf; [lia|]. rewrite Hm. apply Hr. lia.
Qed.

Lemma settles_end (m : nat -> runM ResolveT capsule_exn unit) (P : ResolveT -> Prop) st r :
  (forall f, m (S f) st = Some r) -> progress P st r -> settles m P st.
Proof. intros Hm Hp. exists 1%nat, r. split; [|exact Hp]. intros [|f] Hf; [lia|]. apply Hm. Qed.

(** Another table of shapes in the linker. *)
Definition with_shapes_of (t : ShapeTableT) (l : LinkT) : LinkT :=
  Link (l_reader l) (l_statics l) (l_units l) t (l_errors l).

Section ResolveSpec.
Variable junk : nat -> Z.
Variable junk_nstring : nat -> NStringT.
Variable first : nat.

Lemma unloaded_insert l c lc :
  l !! c = Some lc -> loaded lc = false ->
  S (length (filter (fun c => loaded c = false) (<[c := lib_capsule_loaded lc]> l))) =
  length (filter (fun c => loaded c = false) l).
Proof.
  revert c. induction l as [|x l IH]; intros [|c] Hc Hl; cbn in Hc; try discriminate.
  - injection Hc as ->. cbn [insert list_insert]. rewrite !filter_cons, (decide_True (P := loaded lc = false)), decide_False by (cbn; congruence).
    reflexivity.
  - change (<[S c := lib_capsule_loaded lc]> (x :: l)) with (x :: <[c := lib_capsule_loaded lc]> l).
    rewrite !filter_cons. case_decide; cbn [length]; by rewrite <- (IH c Hc Hl).
Qed.

Lemma load_unloaded c lc st :
  rv_capsules st !! c = Some lc -> loaded lc = false ->
  match load_lib_capsule junk junk_nstring first c lc st with
  | (st', Ok _) => (unloaded st' < unloaded st)%nat
  | (_, Throw _) => True
  end.
Proof.
  intros Hc Hl. unfold load_lib_capsule, in_link, mbind, stM_bind. cbn [open_string rv_link].
  destruct (capsule_read _ _ _ _) as [l' [b|e]]; [|exact I]. unfold set_lib_capsule, unloaded. cbn [rv_capsules].
  rewrite <- (unloaded_insert _ _ _ Hc Hl). lia.
Qed.

Lemma lib_candidate_unloaded table capsules key use c lc :
  lib_candidate table capsules key use = Some (Some (c, lc)) -> capsules !! c = Some lc /\ loaded lc = false.
Proof.
  unfold lib_candidate. destruct table as [t|]; [|discriminate]. destruct (name_table_get t key) as [[q|]|]; try discriminate.
  cbn [mbind option_bind]. destruct (get_direct t q) as [d|]; [|discriminate]. cbn [mbind option_bind].
  destruct (lib_definition d) as [c'|]; [|discriminate]. destruct (capsules !! c') as [lc'|] eqn:E; [|discriminate].
  cbn [mbind option_bind]. destruct (lib_capsule_is_loaded lc') eqn:El; cbn [negb andb]; [discriminate|].
  destruct (_ || _); [|discriminate]. intros [= <- <-]. auto.
Qed.

Lemma in_link_same {A} (m : link A) st :
  (forall l, (m l).1 = l) -> in_link m st = (st, (m (rv_link st)).2).
Proof.
  intros H. unfold in_link. specialize (H (rv_link st)). destruct (m (rv_link st)) as [l x]. cbn in *. subst l.
  by destruct st.
Qed.

Lemma get_shape_same entry l : (get_shape entry l).1 = l.
Proof. unfold get_shape, mbind, stM_bind, st_get, need. by destruct (st_entries (l_shapes l) !! entry). Qed.

Lemma need_same {A} (o : option A) l : (need o l).1 = l.
Proof. by destruct o. Qed.

(** An operation that only looks at the linker, before the rest. *)
Lemma in_link_bind {A B} (m : link A) (k : A -> resolve B) st :
  (forall l, (m l).1 = l) ->
  (in_link m ≫= k) st = match (m (rv_link st)).2 with Ok a => k a st | Throw e => (st, Throw e) end.
Proof. intros H. unfold mbind, stM_bind. rewrite (in_link_same m st H). by destruct ((m (rv_link st)).2). Qed.

Lemma get_shape_value entry l :
  (get_shape entry l).2 = match st_entries (l_shapes l) !! entry with Some s => Ok s | None => Throw Stop end.
Proof. unfold get_shape, mbind, stM_bind, st_get, need. by destruct (st_entries (l_shapes l) !! entry). Qed.

Lemma need_value {A} (o : option A) l : (need o l).2 = match o with Some a => Ok a | None => Throw Stop end.
Proof. by destruct o. Qed.

Lemma name_resolve_cases table entry p st :
  match name_entry_resolve_undefined junk junk_nstring first table entry p st with
  | (st', Ok b) => if (b : bool) then (unloaded st' < unloaded st)%nat else st' = st
  | (_, Throw _) => True
  end.
Proof.
  unfold name_entry_resolve_undefined. rewrite in_link_bind, get_shape_value by apply get_shape_same.
  destruct (st_entries _ !! entry) as [s|]; [|exact I].
  rewrite in_link_bind, need_value by apply need_same. destruct (name_entry_get_use (se_names s) p) as [use|]; [|exact I].
  rewrite in_link_bind, need_value by apply need_same. destruct (name_entry_key (se_names s) p) as [key|]; [|exact I].
  destruct (has use U_DEFD || negb (has use U_USED)); [reflexivity|].
  unfold mbind at 1, stM_bind at 1. cbn [st_get].
  rewrite in_link_bind, need_value by apply need_same.
  destruct (lib_candidate table (rv_capsules st) key use) as [[[c lc]|]|] eqn:E; [|reflexivity|exact I].
  apply lib_candidate_unloaded in E as [Ec El]. pose proof (load_unloaded c lc st Ec El) as H.
  unfold mbind, stM_bind. destruct (load_lib_capsule _ _ _ _ _ _) as [st' [u|e]]; [exact H|exact I].
Qed.

Lemma resolve_next_cases table entry st :
  match resolve_next junk junk_nstring first table entry st with
  | (st', Ok b) =>
      if (b : bool) then loads st st' \/
        (drained st st' /\ (length (list_at st' entry) < length (list_at st entry))%nat)
      else st' = st /\ list_at st entry = []
  | (_, Throw _) => True
  end.
Proof.
  unfold resolve_next. rewrite in_link_bind, get_shape_value by apply get_shape_same. fold (shapes_at st).
  destruct (st_entries (shapes_at st) !! entry) as [s|] eqn:Es; [|exact I].
  unfold shape_entry_get_from_list. destruct (se_list s) as [|p ps] eqn:El.
  { split; [reflexivity|]. unfold list_at. rewrite Es. exact El. }
  set (s1 := ShapeEntry _ _ _ _ _ _). set (st1 := Resolve (with_shapes_of (set_shape (shapes_at st) entry s1) (rv_link st)) (rv_lib_shapes st) (rv_capsules st) (did_define st)).
  assert (forall B (k : unit -> resolve B), (in_link (put_shape entry s1) ≫= k) st = k tt st1) as Hput by reflexivity.
  rewrite Hput. pose proof (name_resolve_cases table entry p st1) as H. unfold mbind at 1, stM_bind at 1.
  destruct (name_entry_resolve_undefined _ _ _ _ _ _ _) as [st' [b|e]]; [|exact I].
  destruct b; [left; split; [exact H|reflexivity]|]. subst st'. right.
  assert (forall q, list_at st1 q = if decide (q = entry) then ps else list_at st q) as Hlist.
  { intros q. unfold list_at, shapes_at. cbn. case_decide as Eq.
    - subst q. rewrite list_lookup_insert_eq by (by eapply lookup_lt_Some). reflexivity.
    - by rewrite list_lookup_insert_ne. }
  cbn. split; [split; [reflexivity|split; [reflexivity|split; [reflexivity|]]]|].
  - intros q Hq. rewrite Hlist. case_decide as Eq; [|exact Hq]. subst q. unfold list_at in Hq. rewrite Es in Hq. cbn in Hq. congruence.
  - rewrite Hlist, decide_True by reflexivity. unfold list_at. rewrite Es. cbn. rewrite El. cbn. lia.
Qed.

Lemma resolve_list_unfold f table entry st :
  resolve_list junk junk_nstring first (S f) table entry st =
  match resolve_next junk junk_nstring first table entry st with
  | (st', Ok b) => if (b : bool) then resolve_list junk junk_nstring first f table entry st' else Some (st', Ok tt)
  | (st', Throw e) => Some (st', Throw e)
  end.
Proof. cbn [resolve_list]. unfold mbind, runM_bind, lift. by destruct (resolve_next _ _ _ _ _ _) as [st' [[]|e]]. Qed.

Lemma resolve_list_settles table entry st :
  settles (fun f => resolve_list junk junk_nstring first f table entry) (fun st' => list_at st' entry = []) st.
Proof.
  induction st as [st IH] using (lex_ind unloaded (fun st => length (list_at st entry))).
  pose proof (resolve_next_cases table entry st) as H.
  destruct (resolve_next _ _ _ _ _ _) as [st1 [[]|e]] eqn:E.
  - apply (settles_step _ (fun f => resolve_list junk junk_nstring first f table entry) _ _ st1).
    + intros f. by rewrite resolve_list_unfold, E.
    + destruct H as [H|[H _]]; auto.
    + apply IH. destruct H as [[H _]|[[He _] H]]; auto.
  - destruct H as [-> Hl]. apply (settles_end _ _ _ (st, Ok tt)); [intros f; by rewrite resolve_list_unfold, E|].
    right. split; [reflexivity|exact Hl].
  - apply (settles_end _ _ _ (st1, Throw e)); [intros f; by rewrite resolve_list_unfold, E|exact I].
Qed.

Lemma shape_resolve_settles entry st :
  settles (fun f => shape_entry_resolve_undefined junk junk_nstring first f entry) (fun st' => list_at st' entry = []) st.
Proof.
  assert (forall f, shape_entry_resolve_undefined junk junk_nstring first f entry st =
    match st_entries (shapes_at st) !! entry with
    | Some s => resolve_list junk junk_nstring first f (lib_table (rv_lib_shapes st) (se_key s)) entry st
    | None => Some (st, Throw Stop)
    end) as E.
  { intros f. unfold shape_entry_resolve_undefined. unfold mbind, runM_bind. unfold lift at 1.
    rewrite (in_link_same (get_shape entry) st (get_shape_same entry)), get_shape_value. fold (shapes_at st).
    by destruct (st_entries (shapes_at st) !! entry). }
  destruct (st_entries (shapes_at st) !! entry) as [s|] eqn:Es.
  - destruct (resolve_list_settles (lib_table (rv_lib_shapes st) (se_key s)) entry st) as (fuel & r & Hr & Hp).
    exists fuel, r. split; [|exact Hp]. intros f Hf. rewrite E. by apply Hr.
  - exists O, (st, Throw Stop). split; [|exact I]. intros f _. by rewrite E.
Qed.

(** *** The iteration over the shapes *)

(** The entries the iterator has before it. *)
Definition ahead (c : chains NStringT nat) (i j : nat) : list nat :=
  match c !! i with
  | Some chain => (drop j chain).*2 ++ (mjoin (drop (S i) c)).*2
  | None => []
  end.

Lemma ahead_chain c i j chain : c !! i = Some chain -> chain !! j = None -> ahead c i j = ahead c (S i) 0.
Proof.
  intros Ei Ej. unfold ahead. rewrite Ei, (drop_ge chain) by (by apply lookup_ge_None). cbn [fmap list_fmap app].
  destruct (c !! S i) as [chain'|] eqn:E.
  - rewrite (drop_S _ _ _ E). cbn [mjoin list_join]. rewrite drop_0. apply fmap_app.
  - rewrite drop_ge by (by apply lookup_ge_None). reflexivity.
Qed.

Lemma ahead_entry c i j chain k p : c !! i = Some chain -> chain !! j = Some (k, p) -> ahead c i j = p :: ahead c i (S j).
Proof. intros Ei Ej. unfold ahead. rewrite Ei, (drop_S _ _ _ Ej). reflexivity. Qed.

Definition emptied (i j : nat) (st : ResolveT) : Prop :=
  Forall (fun p => list_at st p = []) (ahead (st_contents (shapes_at st)) i j).

Lemma resolve_iter_unfold f i j st :
  resolve_iter junk junk_nstring first (S f) i j st =
  match st_contents (shapes_at st) !! i with
  | None => Some (st, Ok tt)
  | Some chain =>
      match chain !! j with
      | None => resolve_iter junk junk_nstring first f (S i) 0 st
      | Some (_, entry) =>
          match shape_entry_resolve_undefined junk junk_nstring first (S f) entry st with
          | Some (st', Ok _) => resolve_iter junk junk_nstring first f i (S j) st'
          | Some (st', Throw e) => Some (st', Throw e)
          | None => None
          end
      end
  end.
Proof.
  cbn [resolve_iter]. unfold mbind, runM_bind, lift. cbn [st_get]. fold (shapes_at st).
  destruct (st_contents (shapes_at st) !! i) as [chain|]; [|reflexivity].
  destruct (chain !! j) as [[k entry]|]; reflexivity.
Qed.

Lemma resolve_iter_settles st i j :
  settles (fun f => resolve_iter junk junk_nstring first f i j) (emptied i j) st.
Proof.
  revert i j st. enough (forall x : nat * nat * ResolveT,
    settles (fun f => resolve_iter junk junk_nstring first f x.1.1 x.1.2) (emptied x.1.1 x.1.2) x.2) as H.
  { intros i j st. exact (H (i, j, st)). }
  intros x. induction x as [[[i j] st] IH] using (lex_ind (fun x => unloaded x.2)
    (fun x => let c := st_contents (shapes_at x.2) in (length c - x.1.1 + length (ahead c x.1.1 x.1.2))%nat)).
  cbn [fst snd] in *. set (c := st_contents (shapes_at st)) in *.
  destruct (c !! i) as [chain|] eqn:Ei.
  2: { apply (settles_end _ _ _ (st, Ok tt)); [intros f; rewrite resolve_iter_unfold; fold c; by rewrite Ei|].
       right. split; [reflexivity|]. unfold emptied, ahead. fold c. rewrite Ei. constructor. }
  destruct (chain !! j) as [[k entry]|] eqn:Ej.
  2: { apply (settles_step _ (fun f => resolve_iter junk junk_nstring first f (S i) 0) _ _ st); [|right; reflexivity|].
       - intros f. rewrite resolve_iter_unfold. fold c. by rewrite Ei, Ej.
       - pose proof (ahead_chain c i j chain Ei Ej) as Ea. apply lookup_lt_Some in Ei as Hi.
         destruct (IH (S i, 0%nat, st)) as (fuel & r & Hr & Hp); [right; cbn; fold c; rewrite Ea; split; [reflexivity|lia]|].
         exists fuel, r. split; [exact Hr|]. cbn [fst snd] in Hp. eapply progress_impl; [|exact Hp].
         intros st' (_ & _ & Ec & _) He. unfold emptied in *. rewrite Ec in *. fold c in He |- *. by rewrite Ea. }
  destruct (shape_resolve_settles entry st) as (f1 & [st1 [u|e]] & Hr1 & Hp1).
  2: { exists (S f1), (st1, Throw e). split; [|exact I]. intros [|f] Hf; [lia|]. rewrite resolve_iter_unfold. fold c.
       rewrite Ei, Ej, Hr1 by lia. reflexivity. }
  pose proof (ahead_entry c i j chain k entry Ei Ej) as Ea.
  destruct (IH (i, S j, st1)) as (f2 & r & Hr2 & Hp2); cbn [fst snd] in *.
  { destruct Hp1 as [[Hp1 _]|[(He & _ & Ec & _) _]]; [left; exact Hp1|]. right. split; [exact He|]. rewrite Ec. fold c. rewrite Ea. cbn. lia. }
  exists (S (max f1 f2)), r. split.
  - intros [|f] Hf; [lia|]. rewrite resolve_iter_unfold. fold c. rewrite Ei, Ej, Hr1 by lia. apply Hr2. lia.
  - destruct Hp1 as [Hp1|[Hd Hl]].
    + destruct r as [st' [v|e]]; cbn in *; [|exact I]. left. destruct Hp1 as [Hp1 Ht1].
      destruct Hp2 as [[Hp2 Ht2]|[(He & Ht2 & _) _]]; (split; [|congruence]); lia.
    + apply (progress_trans _ _ st1); [by right|]. eapply progress_impl; [|exact Hp2]. intros st' Hd' He.
      unfold emptied in *. pose proof Hd' as (_ & _ & Ec' & Hl'). pose proof Hd as (_ & _ & Ec & _).
      rewrite Ec', Ec in *. fold c in He |- *. rewrite Ea. constructor; [by apply Hl'|exact He].
Qed.

(** *** The outer loop *)

Definition set_define (b : bool) (st : ResolveT) : ResolveT := Resolve (rv_link st) (rv_lib_shapes st) (rv_capsules st) b.

Lemma resolve_loop_unfold f st :
  resolve_loop junk junk_nstring first (S f) st =
  match resolve_iter junk junk_nstring first (S f) 0 0 (set_define false st) with
  | Some (st', Ok _) => if did_define st' then resolve_loop junk junk_nstring first f st' else Some (st', Ok tt)
  | Some (st', Throw e) => Some (st', Throw e)
  | None => None
  end.
Proof.
  cbn [resolve_loop]. unfold mbind, runM_bind. unfold lift at 1. unfold set_did_define. fold (set_define false st).
  destruct (resolve_iter _ _ _ _ _ _ _) as [[st' [u|e]]|]; try reflexivity. unfold lift. cbn [st_get].
  by destruct (did_define st').
Qed.

(** Every list of names that the iterator reaches is empty. *)
Definition all_considered (st : ResolveT) : Prop :=
  forall p, p ∈ shape_table_iter (shapes_at st) -> list_at st p = [].

Lemma emptied_all st : emptied 0 0 st -> all_considered st.
Proof.
  intros H p Hp. unfold emptied in H. rewrite Forall_forall in H. apply H. apply list_elem_of_In.
  unfold ahead, shape_table_iter, ht_entries in *. destruct (st_contents (shapes_at st)) as [|chain c]; [inversion Hp|].
  cbn [lookup list_lookup mjoin list_join drop] in *. by rewrite <- fmap_app.
Qed.

Lemma resolve_loop_settles st :
  exists fuel r, (forall f, (fuel <= f)%nat -> resolve_loop junk junk_nstring first f st = Some r) /\
    (forall st', r = (st', Ok tt) -> (unloaded st' <= unloaded st)%nat /\ all_considered st').
Proof.
  induction st as [st IH] using (lex_ind unloaded (fun _ => 0%nat)).
  destruct (resolve_iter_settles (set_define false st) 0 0) as (f1 & [st1 [u|e]] & Hr1 & Hp1).
  2: { exists (S f1), (st1, Throw e). split; [|discriminate]. intros [|f] Hf; [lia|]. by rewrite resolve_loop_unfold, Hr1 by lia. }
  destruct (did_define st1) eqn:Ed.
  - destruct Hp1 as [[Hlt _]|[(_ & Hdd & _) _]]; [|cbn in Hdd; congruence].
    destruct (IH st1 (or_introl Hlt)) as (f2 & r & Hr2 & Hp2). exists (S (max f1 f2)), r. split.
    + intros [|f] Hf; [lia|]. rewrite resolve_loop_unfold, Hr1, Ed by lia. apply Hr2. lia.
    + intros st' E. destruct (Hp2 st' E) as [H1 H2]. split; [|exact H2]. change (unloaded st) with (unloaded (set_define false st)). lia.
  - exists (S f1), (st1, Ok u). split.
    + intros [|f] Hf; [lia|]. rewrite resolve_loop_unfold, Hr1, Ed by lia. by destruct u.
    + intros st' [= <- _]. destruct Hp1 as [[_ Hdd]|[Hd He]]; [congruence|]. split; [|by apply emptied_all].
      destruct Hd as [-> _]. reflexivity.
Qed.

Lemma resolve_undefined_settles st :
  exists fuel r, (forall f, (fuel <= f)%nat -> linker_resolve_undefined junk junk_nstring first f st = Some r) /\
    (forall st', r = (st', Ok tt) -> all_considered st' /\ (unloaded st' <= unloaded st)%nat).
Proof.
  destruct (resolve_loop_settles st) as (fuel & [st' [u|e]] & Hr & Hp).
  - destruct u. destruct (Hp st' eq_refl) as [Hu Ha].
    exists fuel, (in_link exit_on_error st'). split.
    + intros f Hf. unfold linker_resolve_undefined, mbind, runM_bind. by rewrite Hr by exact Hf.
    + intros st2. destruct st'. unfold in_link, exit_on_error. cbn. destruct (severity_ge _ _); [discriminate|]. intros [= <-]. auto.
  - exists fuel, (st', Throw e). split; [|discriminate]. intros f Hf.
    unfold linker_resolve_undefined, mbind, runM_bind. by rewrite Hr.
Qed.

(** C5: the loop that loads library capsules ends from any state of the
    linker and of the libraries, whatever the capsules contain, even though
    the capsules it reads add shapes to the table it iterates and names to
    the lists it empties: no capsule is loaded twice. When it ends normally no
    name waits to be considered. *)
Theorem resolve_undefined_terminates st :
  exists fuel r, (forall f, (fuel <= f)%nat -> linker_resolve_undefined junk junk_nstring first f st = Some r) /\
    (forall st', r = (st', Ok tt) -> all_considered st' /\ (unloaded st' <= unloaded st)%nat).
Proof. apply resolve_undefined_settles. Qed.
End ResolveSpec.

(** ** Names that come to be used too late *)

(** Capsule 0 of the library defines the tag [a] and uses the tag [b], which
    capsule 1 defines. *)
Definition late_a : NameKeyT := KT_STRING (NString 1 [97]).
Definition late_b : NameKeyT := KT_STRING (NString 1 [98]).

(** A shape table with the tags of a list, with their usages. *)
Definition tags_shape (names : list (NameKeyT * Z)) : option ShapeEntryT :=
  foldl (fun o '(k, u) =>
    s ← o; '(s, p) ← name_table_add (fun _ => 0) s k;
    t ← name_entry_merge_use (se_names s) p u; Some (set_names s t))
    (Some (shape_entry_create (fun _ => 0) tag_name)) names.

Definition tags_table (names : list (NameKeyT * Z)) : option ShapeTableT :=
  s ← tags_shape names;
  let '(t, p) := shape_table_add (fun _ => 0) shape_table_create tag_name in Some (set_shape t p s).

Definition late_setup : StaticsT * UnitTableT := capsule_setup (fun _ => 0) initial_statics unit_table_create.

Definition late_statics : StaticsT :=
  Statics (capsule_unit_sets late_setup.1) 0 (Some 1%nat) 4 1 false.

(** The bytes of a capsule with these tags and no units. *)
Definition tags_capsule (names : list (NameKeyT * Z)) : option (list Z) :=
  t ← tags_table names;
  '(_, m) ← capsule_write late_statics late_setup.2 t;
  match (_ ← m; tdf_writer_close) (tdf_writer_open (takes_all at_close) [] 0) with
  | (w, Ok _) => Some (bytes_in_file w)
  | _ => None
  end.

Definition late_lib_capsules : list LibCapsuleT :=
  let c names := let b := default [] (tags_capsule names) in LibCapsule [108] [99; 0] (NString (length b) b) false in
  [c [(late_a, Z.lor U_DECD U_DEFD); (late_b, U_USED)]; c [(late_b, Z.lor U_DECD U_DEFD)]].

(** The index of the library. *)
Definition late_lib_shapes : option ShapeTableT :=
  t ← tags_table [(late_a, Z.lor U_DECD U_DEFD); (late_b, Z.lor U_DECD U_DEFD)];
  s ← st_entries t !! 0%nat;
  n ← name_entry_set_lib_definition (se_names s) 0 (Some 0%nat);
  n ← name_entry_set_lib_definition n 1 (Some 1%nat);
  Some (set_shape t 0 (set_names s n)).

(** The linker that has read [names] from the files given to it. *)
Definition late_state (names : list (NameKeyT * Z)) : option ResolveT :=
  t ← tags_table names;
  lib ← late_lib_shapes;
  Some (Resolve (Link (tdf_reader_open [] [] 0) late_statics late_setup.2 t initial_reports) lib late_lib_capsules false).

(** The usage of a tag, and which capsules have been loaded, in the end. *)
Definition late_outcome (names : list (NameKeyT * Z)) (k : NameKeyT) : option (Z * list bool) :=
  st ← late_state names;
  r ← linker_resolve_undefined (fun _ => 0) (fun _ => nstring_init) 1 20 st;
  match r with
  | (st, Ok _) =>
      s ← st_entries (shapes_at st) !! 0%nat;
      p ← name_table_get (se_names s) k;
      u ← p ≫= name_entry_get_use (se_names s);
      Some (u, loaded <$> rv_capsules st)
  | _ => None
  end.

