(* ===== verification/TldSafeState.v ===== *)
(** * TldSafeState: the invariant of the linker

    [safe_link cur l] is what holds of the state of the linker between the
    operations of the reader of capsules (tld/src/adt/capsule.c), whatever is
    read: names, identifiers, usages, units and links are all fit to be
    written. [cur] are the units whose links may not all have been filled: the
    one being read, and those that could not be read to their end. [lsafe c l m c' Q] says what an operation of the reader
    does from such a state on any input.

    [rsafe m Q] says the same of the operation [m] of a TDF reader
    (tld/src/adt/tdf-read.c): it leaves the reader in order, and what it
    returns, if it does not throw, satisfies [Q]. [device] says that the device
    of the input may fail.

    The index of the libraries is a shape table too, whose names have their
    definitions in another field, and it has no units: [table_kind] is what
    the two kinds of tables differ in. *)
From stdpp Require Import base list list_numbers numbers.
From Stdlib Require Import ZArith Lia.
From S2P Require Import Prelude Codec ExdsString ExdsError TldNameKey TldIO TldIOSpec HashTable TldNames.
From S2P Require Import TldRename TldNameTable TldShapes TldShapesSpec TldCapsule TldCapsuleSpec TldUsage TldRead TldReadUnits.

(** ** The readers *)

Section Safe.
Variable device : Prop.

Definition source_ok (s : reader_source) : Prop :=
  match s with
  | RT_STREAM b => Forall (fun o => from_option is_byte device o) (bi_data b)
  | RT_STRING s => Forall is_byte (s_contents s) /\ (s_limit s <= length (s_contents s))%nat
  end.

Definition safe_reader (r : TDFReaderT) : Prop :=
  source_ok (r_source r) /\ (r_new_byte r = false -> is_byte (r_byte r)).

Definition rsafe {A} (m : reader A) (Q : A -> Prop) : Prop :=
  forall r, safe_reader r -> safe_reader (m r).1 /\
    match (m r).2 with
    | Ok a => Q a
    | Throw XX_tdf_read_error => True
    | Throw (XX_bistream_read_error _) => device
    | Throw (XX_bostream_write_error _) => False
    end.

Lemma rsafe_bind {A B} (m : reader A) (k : A -> reader B) Q R :
  rsafe m Q -> (forall a, Q a -> rsafe (k a) R) -> rsafe (m ≫= k) R.
Proof.
  intros Hm Hk r Hr. unfold mbind, stM_bind. destruct (Hm r Hr) as [H1 H2].
  destruct (m r) as [r1 [a|e]]; cbn in *; [|auto]. by apply Hk.
Qed.

Lemma rsafe_ret {A} (a : A) (Q : A -> Prop) : Q a -> rsafe (mret a) Q.
Proof. intros Ha r Hr. split; [exact Hr|exact Ha]. Qed.

Lemma rsafe_throw {A} (Q : A -> Prop) : rsafe (st_throw XX_tdf_read_error) Q.
Proof. intros r Hr. by split. Qed.

Lemma rsafe_impl {A} (m : reader A) (Q R : A -> Prop) : (forall a, Q a -> R a) -> rsafe m Q -> rsafe m R.
Proof. intros H Hm r Hr. destruct (Hm r Hr) as [H1 H2]. split; [exact H1|]. destruct (m r).2 as [a|e]; auto. Qed.


(** ** Nibbles and integers *)

Lemma high_nibble c : is_byte c -> 0 <= Z.land (Z.shiftr c 4) 15 < 16.
Proof. intros _. change 15 with (Z.ones 4). rewrite Z.land_ones by lia. apply Z.mod_pos_bound. lia. Qed.

Lemma low_nibble c : 0 <= Z.land c 15 < 16.
Proof. change 15 with (Z.ones 4). rewrite Z.land_ones by lia. apply Z.mod_pos_bound. lia. Qed.

Lemma tdf_read_nibble_safe : rsafe tdf_read_nibble (fun d => 0 <= d < 16).
Proof.
  intros [[b|s] byte []] [Hs Hb]; unfold tdf_read_nibble; cbn [r_new_byte r_source r_byte] in *.
  - unfold mbind, stM_bind, on_bistream, bistream_read_byte.
    destruct (bi_data b !! bi_pos b) as [[c|]|] eqn:E; cbn;
      [|by split; [split|exact (Forall_lookup_1 _ _ _ _ Hs E)]|by split].
    pose proof (Forall_lookup_1 _ _ _ _ Hs E) as Hc. split; [by split|]. by apply high_nibble.
  - split; [by split|apply low_nibble].
  - destruct Hs as [Hs Hl]. destruct (Nat.ltb_spec (s_current s) (s_limit s)); cbn; [|by split].
    assert (is_byte (u8 (s_contents s !!! s_current s))) as Hc by apply u8_byte. split; [by split|]. by apply high_nibble.
  - split; [by split|apply low_nibble].
Qed.

Lemma tdf_read_align_safe : rsafe tdf_read_align (fun _ => True).
Proof. intros r [Hs _]. split; [|exact I]. by split. Qed.

Lemma octal_step_range v d : 0 <= v <= Z.shiftr UINT_MAX 3 -> 0 <= Z.lor (u32 (Z.shiftl v 3)) (Z.land d 7) <= UINT_MAX.
Proof.
  intros Hv. assert (0 <= Z.land d 7 < 8) as Hd by (change 7 with (Z.ones 3); rewrite Z.land_ones by lia; apply Z.mod_pos_bound; lia).
  assert (0 <= u32 (Z.shiftl v 3) < 2 ^ 32) as Hu by (apply Z.mod_pos_bound; lia).
  assert (0 <= Z.land d 7 < 2 ^ 32) as Hd' by (change (2 ^ 32) with 4294967296; lia).
  pose proof (lor_bound 32 _ _ ltac:(lia) Hu Hd'). unfold UINT_MAX, UINT_BITS. lia.
Qed.

Lemma tdf_read_int_loop_safe fuel v : 0 <= v <= UINT_MAX -> rsafe (tdf_read_int_loop fuel v) is_unsigned.
Proof.
  revert v. induction fuel as [|fuel IH]; intros v Hv; [apply rsafe_throw|].
  apply (rsafe_bind tdf_read_nibble _ (fun d => 0 <= d < 16)); [apply tdf_read_nibble_safe|]. intros d Hd. cbn zeta.
  destruct (Z.ltb_spec (Z.shiftr UINT_MAX 3) v); [apply rsafe_throw|].
  pose proof (octal_step_range v d ltac:(lia)) as Hr. destruct (_ =? 0); [by apply IH|].
  apply rsafe_ret. unfold is_unsigned, UINT_MAX, UINT_BITS in *. lia.
Qed.

Lemma tdf_read_int_safe : rsafe tdf_read_int is_unsigned.
Proof. intros r. apply tdf_read_int_loop_safe. vm_compute. split; discriminate. Qed.

(** ** Bytes, strings and names *)

Lemma memcpy_at_start (dst src : list Z) n :
  length dst = n -> (n <= length src)%nat -> memcpy_at dst 0 src n = take n src.
Proof. intros Hd Hs. unfold memcpy_at. cbn [take app]. rewrite drop_ge by lia. apply app_nil_r. Qed.

Lemma fread_ok data n : Forall (fun o => from_option is_byte device o) data -> Forall is_byte (fread data n).
Proof.
  intros H. revert n. induction H as [|o data Ho H IH]; intros [|n]; cbn; try constructor.
  destruct o as [c|]; constructor; auto.
Qed.

Lemma tdf_read_bytes_safe s : wf_nstring s -> rsafe (tdf_read_bytes s) (fun t => wf_nstring t /\ n_length t = n_length s).
Proof.
  intros [Hl Hb] [[b|src] byte nb] [Hs _]; unfold tdf_read_bytes, tdf_read_align; cbn [r_source r_byte r_new_byte] in *.
  - unfold mbind, stM_bind, on_bistream, bistream_read_chars, nstring_length.
    set (chars := fread _ _). assert (Forall is_byte chars) as Hc by (apply fread_ok, Forall_drop, Hs).
    destruct (_ && bool_decide _) eqn:Ed; cbn.
    { split; [by split|]. apply andb_true_iff in Ed as [_ Ed]. apply bool_decide_eq_true_1 in Ed.
      exact (Forall_lookup_1 _ _ _ _ Hs Ed). } destruct (Nat.eqb_spec (length chars) (n_length s)) as [E|E]; cbn; [|by split].
    split; [by split|]. rewrite memcpy_at_start by lia. rewrite take_ge by lia. by split; [split|].
  - destruct Hs as [Hs Hlim]. unfold nstring_length. destruct (Nat.ltb_spec (s_limit src) (s_current src + n_length s)); cbn; [by split|].
    split; [by split|]. unfold nstring_insert_cstring, nstring_length. destruct (Nat.ltb_spec 0 (n_length s)); [|by split].
    cbn [n_length n_contents]. rewrite memcpy_at_start by (rewrite ?length_drop; lia).
    split; [|reflexivity]. split; [cbn; rewrite length_take, length_drop; lia|]. cbn. by apply Forall_take, Forall_drop.
Qed.

Section Names.
Variable junk : nat -> Z.
Variable junk_nstring : nat -> NStringT.

Lemma init_length_wf n : wf_nstring (nstring_init_length junk n).
Proof.
  unfold nstring_init_length, ALLOCATE_VECTOR. split; cbn; [by rewrite length_map, length_seq|].
  apply Forall_forall. intros c Hc. apply in_map_iff in Hc as (i & <- & _). apply u8_byte.
Qed.

(** A string of a length that was read. *)
Lemma read_length_safe n : is_unsigned n -> rsafe (tdf_read_bytes (nstring_init_length junk (Z.to_nat n))) ok_nstring.
Proof.
  intros Hn. eapply rsafe_impl; [|apply tdf_read_bytes_safe, init_length_wf]. intros s [Hs El]. split; [exact Hs|].
  rewrite El. cbn. unfold is_unsigned in Hn. lia.
Qed.

Lemma tdf_read_string_safe : rsafe (tdf_read_string junk) ok_nstring.
Proof.
  apply (rsafe_bind _ _ is_unsigned); [apply tdf_read_int_safe|]. intros size _. destruct (negb _); [apply rsafe_throw|].
  apply (rsafe_bind _ _ is_unsigned); [apply tdf_read_int_safe|]. intros n Hn. by apply read_length_safe.
Qed.

Lemma tdf_read_components_safe n : forall i k, (forall l, k = KT_UNIQUE l -> length l = (i + n)%nat /\ Forall ok_nstring (take i l)) ->
  (exists l, k = KT_UNIQUE l) -> Z.of_nat (i + n) < 2 ^ 32 -> rsafe (tdf_read_components junk n i k) ok_key.
Proof.
  induction n as [|n IH]; intros i k Hk [l El] Hn; subst k; destruct (Hk l eq_refl) as [Hl Hok]; cbn [tdf_read_components].
  - apply rsafe_ret. cbn. rewrite Nat.add_0_r in Hl. rewrite take_ge in Hok by lia. split; [exact Hok|lia].
  - apply (rsafe_bind _ _ ok_nstring); [apply tdf_read_string_safe|]. intros s Hs. cbn [name_key_set_component].
    rewrite (proj2 (Nat.ltb_lt _ _)) by lia. apply IH; [|eauto|lia]. intros l' [= <-]. rewrite length_insert. split; [lia|].
    rewrite (take_S_r _ _ (nstring_assign s)) by (apply list_lookup_insert_eq; lia). rewrite take_insert_ge by lia.
    apply Forall_app. split; [exact Hok|]. constructor; [|constructor]. exact Hs.
Qed.

Lemma tdf_read_name_safe : rsafe (tdf_read_name junk junk_nstring) ok_key.
Proof.
  apply (rsafe_bind _ _ (fun d => 0 <= d < 16)); [apply tdf_read_nibble_safe|]. intros d _. cbn zeta.
  apply (rsafe_bind _ _ (fun _ => True)); [apply tdf_read_align_safe|]. intros _ _. destruct (_ =? 1).
  { apply (rsafe_bind _ _ ok_nstring); [apply tdf_read_string_safe|]. intros s Hs. by apply rsafe_ret. }
  destruct (_ =? 2); [|apply rsafe_throw]. apply (rsafe_bind _ _ is_unsigned); [apply tdf_read_int_safe|]. intros n Hn.
  unfold is_unsigned in Hn. apply tdf_read_components_safe; [|by eexists|lia].
  intros l [= <-]. rewrite length_map, length_seq. split; [lia|constructor].
Qed.

Lemma tdf_read_eof_safe : rsafe tdf_read_eof (fun _ => True).
Proof.
  intros [[b|s] byte nb] [Hs Hb]; unfold tdf_read_eof; cbn [r_source].
  - unfold mbind, stM_bind, on_bistream, bistream_read_byte. destruct (bi_data b !! bi_pos b) as [[c|]|] eqn:E; cbn; split; try by split.
    exact (Forall_lookup_1 _ _ _ _ Hs E).
  - destruct (_ <? _)%nat; by split.
Qed.
End Names.
End Safe.

(** ** Shapes *)

(** A kind of shape tables: [tk_def] is the field of a name that says where it
    is defined, [tk_legal] what holds of the names of a shape, and [tk_linking]
    that the tables are those of the linker. *)
Record table_kind := {
  tk_def : DirectT -> option nat;
  tk_legal : NStringT -> DirectT -> Prop;
  tk_linking : Prop;
  tk_new key i : tk_legal key (Direct i 0 None None)
}.

Definition names_legal (tk : table_kind) (s : ShapeEntryT) : Prop :=
  forall p d, get_direct (se_names s) p = Some d -> tk_legal tk (se_key s) d.

Record safe_shape (tk : table_kind) (s : ShapeEntryT) : Prop := {
  ss_good : good_shape (tk_def tk) s;
  ss_key : ok_nstring (se_key s);
  ss_keys p k : name_entry_key (se_names s) p = Some k -> ok_key k;
  ss_legal : names_legal tk s
}.

Record safe_shapes (tk : table_kind) (t : ShapeTableT) : Prop := {
  sh_good : good_shapes (tk_def tk) t;
  sh_all p s : st_entries t !! p = Some s -> safe_shape tk s
}.

(** The tables of the linker: usages are legal for their shape, and [known]
    holds of the usage of a name that is defined and of its definition. *)
Definition usage_legal (key : NStringT) (d : DirectT) : Prop :=
  bad_usage (get_use d) (bool_decide (key = tag_name)) (bool_decide (key = token_name)) = false.

Lemma unused_legal key i : usage_legal key (Direct i 0 None None).
Proof. unfold usage_legal. by destruct (bool_decide (key = tag_name)), (bool_decide (key = token_name)). Qed.

Definition linking_legal (known : Z -> nat -> Prop) (key : NStringT) (d : DirectT) : Prop :=
  usage_legal key d /\ forall c, definition d = Some c -> known (use d) c.

Lemma linking_legal_new known key i : linking_legal known key (Direct i 0 None None).
Proof. split; [apply unused_legal|discriminate]. Qed.

Definition linking_tables (known : Z -> nat -> Prop) : table_kind :=
  {| tk_def := definition; tk_legal := linking_legal known; tk_linking := True; tk_new := linking_legal_new known |}.

Definition linker_tables : table_kind := linking_tables (fun _ _ => True).

(** The index of libraries with [n] capsules: usages are not checked against
    a shape that comes with the library itself. *)
Definition library_legal (n : nat) (key : NStringT) (d : DirectT) : Prop :=
  forall c, lib_definition d = Some c -> (c < n)%nat.

Lemma library_legal_new n key i : library_legal n key (Direct i 0 None None).
Proof. discriminate. Qed.

Definition library_tables (n : nat) : table_kind :=
  {| tk_def := lib_definition; tk_legal := library_legal n; tk_linking := False; tk_new := library_legal_new n |}.

(** A shape later on: identifiers are never taken back. *)
Definition later_shape (s s' : ShapeEntryT) : Prop := grows s s' /\ id_count s <= id_count s'.

#[export] Instance later_shape_preorder : PreOrder later_shape.
Proof.
  split; [intros s; split; [reflexivity|lia]|]. intros s1 s2 s3 [G1 H1] [G2 H2]. split; [by transitivity s2|lia].
Qed.

(** A name of the shape gets new attributes. *)
Lemma direct_set_safe tk s p d d' t' :
  safe_shape tk s -> get_direct (se_names s) p = Some d -> direct_set p d' (se_names s) t' -> id d' = id d ->
  (has (use d') U_DEFD = true -> tk_def tk d' <> None) -> tk_legal tk (se_key s) d' ->
  safe_shape tk (set_names s t') /\ later_shape s (set_names s t').
Proof.
  intros [Hg Hkey Hkeys Hlg] Ed Hset Eid Hd' Hlg'. destruct (direct_set_good _ s p d d' t' Hg Ed Hset Eid Hd') as [Hg' Hgr].
  split; [|split; [exact Hgr|cbn; lia]]. constructor; [exact Hg'|exact Hkey| |].
  - intros q k. cbn. rewrite (proj1 (proj2 Hset)). apply Hkeys.
  - intros q e. cbn [se_names set_names se_key]. rewrite (direct_set_get _ _ _ _ _ Hset).
    destruct (decide (q = p)) as [->|_]; [|exact (Hlg q e)]. by intros [= <-].
Qed.

Definition later (t t' : ShapeTableT) : Prop :=
  forall p s, st_entries t !! p = Some s -> exists s', st_entries t' !! p = Some s' /\ later_shape s s'.

#[export] Instance later_preorder : PreOrder later.
Proof.
  split; [intros t p s E; exists s; split; [exact E|reflexivity]|].
  intros t t1 t2 E1 E2 p s E. destruct (E1 p s E) as (s1 & Es1 & H1). destruct (E2 p s1 Es1) as (s2 & Es2 & H2).
  exists s2. split; [exact Es2|by transitivity s1].
Qed.

Definition has_shape (t : ShapeTableT) (key : NStringT) : Prop := exists p s, st_entries t !! p = Some s /\ se_key s = key.

(** ** Units *)

Definition link_legal (t : ShapeTableT) (key : NStringT) (k : MapLinkT) : Prop :=
  forall p s, st_entries t !! p = Some s -> se_key s = key -> external k < id_count s.

Definition entry_legal (t : ShapeTableT) (e : MapEntryT) : Prop := Forall (link_legal t (me_key e)) (links e).

Record safe_map (t : ShapeTableT) (mt : MapTableT) : Prop := {
  sm_chains : wf_chains (mt_contents mt);
  sm_entries : Forall ok_map_entry (mt_entries mt);
  sm_keys k m : (k, m) ∈ ht_entries (mt_contents mt) ->
    exists e, mt_entries mt !! m = Some e /\ me_key e = k;
  sm_known : Forall (fun e => has_shape t (me_key e)) (mt_entries mt)
}.

Definition map_legal (t : ShapeTableT) (mt : MapTableT) : Prop := Forall (entry_legal t) (mt_entries mt).

Definition safe_unit (t : ShapeTableT) (u : UnitT) : Prop :=
  ok_nstring (u_contents u) /\ match map_table u with Some mt => safe_map t mt | None => True end.

Definition unit_legal (t : ShapeTableT) (u : UnitT) : Prop :=
  match map_table u with Some mt => map_legal t mt | None => True end.

(** ** The state *)

Section State.
Variable tk : table_kind.
Variable device : Prop.
Variable ps : list nat.
Variable tld : nat.
Variable tld2 : option nat.

Record safe_units (cur : list (nat * nat)) (t : ShapeTableT) (units : UnitTableT) : Prop := {
  su_chains : wf_chains (ut_contents units);
  su_iter : ps ≡ₚ unit_table_iter units;
  su_tld e : ut_entries units !! tld = Some e -> ue_units e = [];
  su_tld2 p e : tld2 = Some p -> ut_entries units !! p = Some e -> ue_units e = [];
  su_entries p : p ∈ ps -> exists e, ut_entries units !! p = Some e /\ ok_nstring (ue_key e);
  su_units p i u : unit_of units p i = Some u -> safe_unit t u;
  su_legal p i u : unit_of units p i = Some u -> (p, i) ∈ cur \/ unit_legal t u
}.

Record safe_statics (g : StaticsT) : Prop := {
  sg_version : capsule_major_version g = 0 \/ 4 <= capsule_major_version g <= UINT_MAX;
  sg_minor : is_unsigned (capsule_minor_version g);
  sg_setup : tk_linking tk -> need_setup g = false;
  sg_sets : tk_linking tk -> exists sets, capsule_unit_sets g = Some sets /\ us_entry <$> sets = Some <$> ps;
  sg_tld : tk_linking tk -> tld_entry_of g = Some tld;
  sg_tld2 : tk_linking tk -> tld2_entry_of g = tld2
}.

Record safe_link (cur : list (nat * nat)) (l : LinkT) : Prop := {
  sl_reader : safe_reader device (l_reader l);
  sl_statics : safe_statics (l_statics l);
  sl_shapes : safe_shapes tk (l_shapes l);
  sl_units : tk_linking tk -> safe_units cur (l_shapes l) (l_units l);
  sl_quiet : quiet (l_errors l)
}.

(** A shape has given out every identifier. *)
Definition exhausted (l : LinkT) : Prop := exists s, s ∈ st_entries (l_shapes l) /\ id_count s = UINT_MAX.

(** The unit sets are the same. *)
Definition same_setup (g g' : StaticsT) : Prop := same_sets g g' /\ need_setup g' = need_setup g.

(** The entries of the table of unit sets are the same but for their units. *)
Definition same_entries (u u' : UnitTableT) : Prop :=
  ut_contents u' = ut_contents u /\
  (fun e => (ue_key e, order e)) <$> ut_entries u' = (fun e => (ue_key e, order e)) <$> ut_entries u.

(** What never goes back, whatever is read. *)
Definition later_link (l l' : LinkT) : Prop :=
  later (l_shapes l) (l_shapes l') /\ same_setup (l_statics l) (l_statics l') /\ same_entries (l_units l) (l_units l') /\
  (capsule_major_version (l_statics l) <> 0 -> capsule_major_version (l_statics l') <> 0) /\
  later_reports (l_errors l) (l_errors l').

#[export] Instance later_link_preorder : PreOrder later_link.
Proof.
  split; [intros l; by split_and!|].
  intros l1 l2 l3 (H1 & [(E1 & E2 & E3) E4] & [U1 K1] & V1 & S1) (H2 & [(F1 & F2 & F3) F4] & [U2 K2] & V2 & S2).
  split_and!; [by transitivity (l_shapes l2)|split; [split_and!|]; congruence|split; congruence|auto|by transitivity (l_errors l2)].
Qed.

Lemma later_serious l l' : later_link l l' -> l_serious l = true -> l_serious l' = true.
Proof. intros (_ & _ & _ & _ & H). by apply later_any_error. Qed.

(** An operation that throws has reported a serious error, or ends the
    program: the device of the input failed, there are no identifiers, or this
    was one error too many. *)
Definition lsafe {A} (c : list (nat * nat)) (l : LinkT) (m : link A) (c' : list (nat * nat)) (Q : A -> LinkT -> Prop) : Prop :=
  safe_link c l ->
  match m l with
  | (l', Ok a) => safe_link c' l' /\ later_link l l' /\ Q a l'
  | (l', Throw e) =>
      ((exists c1, safe_link c1 l') /\ later_link l l') /\
      match e with
      | Stop => exhausted l'
      | Exit => False
      | Fatal_error => too_many (l_errors l')
      | XX_capsule_error => tk_linking tk /\ l_serious l' = true
      | XX_library_error => ~ tk_linking tk /\ l_serious l' = true
      | XX_tdf XX_tdf_read_error => l_serious l' = true
      | XX_tdf (XX_bistream_read_error _) => device
      | XX_tdf (XX_bostream_write_error _) => False
      end
  end.

(** ** Growing tables *)

(** Shapes have distinct names. *)
Lemma shape_unique t p q s s' :
  safe_shapes tk t -> st_entries t !! p = Some s -> st_entries t !! q = Some s' -> se_key s = se_key s' -> p = q.
Proof.
  intros Ht E E' Ek. pose proof (gs_wf _ _ (sh_good _ _ Ht)) as Hwf.
  pose proof (ss_key _ _ (sh_all _ _ Ht _ _ E)) as [Hk _].
  assert (shape_table_get t (se_key s) = Some p) as H1 by (apply shape_get_entry; eauto).
  assert (shape_table_get t (se_key s) = Some q) as H2 by (apply shape_get_entry; [exact Hwf|exact Hk|eauto]). congruence.
Qed.

Lemma has_shape_later t t' key : later t t' -> has_shape t key -> has_shape t' key.
Proof.
  intros H (p & s & Es & <-). destruct (H p s Es) as (s' & Es' & [[Ek _] _]). exists p, s'. auto.
Qed.

Lemma has_shape_get t key : safe_shapes tk t -> has_shape t key -> shape_table_get t key <> None.
Proof.
  intros Ht (p & s & Es & <-). pose proof (ss_key _ _ (sh_all _ _ Ht _ _ Es)) as [Hk _].
  assert (shape_table_get t (se_key s) = Some p) as ->; [|discriminate].
  apply shape_get_entry; [apply (sh_good _ _ Ht)|exact Hk|eauto].
Qed.

Lemma link_legal_later t t' key k :
  safe_shapes tk t' -> later t t' -> has_shape t key -> link_legal t key k -> link_legal t' key k.
Proof.
  intros Ht' H (p & s & Es & Ek0) Hk q s' Es' Ek. destruct (H p s Es) as (s2 & Es2 & [[Ek2 _] Hc]).
  assert (p = q) as -> by (eapply shape_unique; eauto; congruence). assert (s2 = s') as -> by congruence.
  specialize (Hk q s Es Ek0). lia.
Qed.

Lemma safe_map_later t t' mt : later t t' -> safe_map t mt -> safe_map t' mt.
Proof.
  intros H [H1 H2 H3 H4]. constructor; auto. eapply Forall_impl; [|exact H4]. intros e. by apply has_shape_later.
Qed.

Lemma safe_unit_later t t' u : later t t' -> safe_unit t u -> safe_unit t' u.
Proof. intros H [Hc Hm]. split; [exact Hc|]. destruct (map_table u); [by eapply safe_map_later|exact I]. Qed.

Lemma unit_legal_later t t' u : safe_shapes tk t' -> later t t' -> safe_unit t u -> unit_legal t u -> unit_legal t' u.
Proof.
  intros Ht' H [_ Hm]. unfold unit_legal. destruct (map_table u) as [mt|]; [|auto]. unfold map_legal, entry_legal.
  rewrite !Forall_forall. intros Hl e He. specialize (Hl e He). destruct Hm as [_ _ _ Hk]. rewrite Forall_forall in Hk.
  eapply Forall_impl; [|exact Hl]. intros k. apply link_legal_later; auto.
Qed.

Lemma safe_units_later c t t' units : safe_shapes tk t' -> later t t' -> safe_units c t units -> safe_units c t' units.
Proof.
  intros Ht' H [H1 H2 H3 H7 H4 H5 H6]. constructor; auto.
  - intros p i u Hu. eapply safe_unit_later; eauto.
  - intros p i u Hu. destruct (H6 p i u Hu) as [Hc|Hl]; [by left|]. right. eapply unit_legal_later; eauto.
Qed.

(** ** Rules for operations *)

Lemma lsafe_bind {A B} c l (m : link A) c1 Q (k : A -> link B) c' R :
  lsafe c l m c1 Q -> (forall a l', later (l_shapes l) (l_shapes l') -> Q a l' -> lsafe c1 l' (k a) c' R) ->
  lsafe c l (m ≫= k) c' R.
Proof.
  intros Hm Hk Hl. specialize (Hm Hl). unfold mbind, stM_bind. destruct (m l) as [l1 [a|e]]; [|exact Hm].
  destruct Hm as (H1 & Hlt & Hq). specialize (Hk a l1 (proj1 Hlt) Hq H1).
  destruct (k a l1) as [l2 [b|e]]; [destruct Hk as (H2 & Hlt2 & Hr)|destruct Hk as ((H2 & Hlt2) & Hr)];
    split_and!; auto; by transitivity l1.
Qed.

(** What is known of the state at the start may be used. *)
Lemma lsafe_use {A} c l (m : link A) c' Q : (safe_link c l -> lsafe c l m c' Q) -> lsafe c l m c' Q.
Proof. intros H Hl. by apply H. Qed.

Lemma lsafe_ret {A} c l (a : A) (Q : A -> LinkT -> Prop) : Q a l -> lsafe c l (mret a) c Q.
Proof. intros Ha Hl. split; [exact Hl|]. split; [reflexivity|exact Ha]. Qed.

Lemma lsafe_later {A} c l (m : link A) c' (Q R : A -> LinkT -> Prop) :
  (forall a l', later_link l l' -> Q a l' -> R a l') -> lsafe c l m c' Q -> lsafe c l m c' R.
Proof.
  intros H Hm Hl. specialize (Hm Hl). destruct (m l) as [l' [a|e]]; [|exact Hm]. destruct Hm as (H1 & H2 & H3). auto.
Qed.

Lemma lsafe_impl {A} c l (m : link A) c' (Q R : A -> LinkT -> Prop) :
  (forall a l', later (l_shapes l) (l_shapes l') -> Q a l' -> R a l') -> lsafe c l m c' Q -> lsafe c l m c' R.
Proof. intros H. apply lsafe_later. intros a l' [Hl _]. by apply H. Qed.

Lemma lsafe_get {A} c l (k : LinkT -> link A) c' Q : lsafe c l (k l) c' Q -> lsafe c l (st_get ≫= k) c' Q.
Proof. auto. Qed.

Lemma lsafe_assoc {A B C} c l (m : link A) (f : A -> link B) (g : B -> link C) c' Q :
  lsafe c l ((m ≫= f) ≫= g) c' Q -> lsafe c l (a ← m; f a ≫= g) c' Q.
Proof. unfold lsafe, mbind, stM_bind. destruct (m l) as [l1 [a|e]]; auto. Qed.

(** An operation that ends a program. *)
Lemma lsafe_end {A} c l (m : link A) c' Q : lsafe c l (m ≫= mret) c' Q -> lsafe c l m c' Q.
Proof. unfold lsafe, mbind, stM_bind. by destruct (m l) as [l' [a|e]]. Qed.

(** Only the reader and the record of errors change. *)
Definition same_tables (l l' : LinkT) : Prop :=
  l_statics l' = l_statics l /\ l_units l' = l_units l /\ l_shapes l' = l_shapes l.

Lemma same_tables_later l l' : same_tables l l' -> later_reports (l_errors l) (l_errors l') -> later_link l l'.
Proof.
  intros (E1 & E2 & E3) Hs. unfold later_link. rewrite E1, E2, E3. by split_and!.
Qed.

Lemma safe_link_reader c l l' :
  safe_reader device (l_reader l') -> same_tables l l' -> later_reports (l_errors l) (l_errors l') -> safe_link c l -> safe_link c l'.
Proof. intros Hr (E1 & E2 & E3) He [_ H1 H2 H3 H4]. constructor; rewrite ?E1, ?E2, ?E3; auto. by eapply quiet_later. Qed.

Lemma with_errors_safe c l e : later_reports (l_errors l) e -> safe_link c l -> safe_link c (with_errors e l).
Proof. intros He Hl. apply (safe_link_reader _ l); [apply Hl|by split_and!|exact He|exact Hl]. Qed.

Lemma serious_lsafe c l : lsafe c l serious c (fun _ l' => same_tables l l' /\ l_serious l' = true).
Proof.
  intros Hl. unfold serious. pose proof (serious_error_later (l_errors l)) as Hlt. pose proof (serious_error_ends (l_errors l)) as He.
  destruct (serious_error (l_errors l)) as [e ends] eqn:E. cbn [fst snd] in *.
  assert (safe_link c (with_errors e l)) as Hs by (by apply with_errors_safe).
  assert (later_link l (with_errors e l)) as Hl' by (apply same_tables_later; [by split_and!|exact Hlt]).
  destruct ends; [split; [split; [by exists c|exact Hl']|by apply He]|]. split; [exact Hs|]. split; [exact Hl'|]. split; [by split_and!|].
  unfold l_serious. cbn [l_errors with_errors]. pose proof (serious_error_any (l_errors l)) as Ha. by rewrite E in Ha.
Qed.

(** An error, and the exception [e]. *)
Lemma serious_throw {A} c l e c' (Q : A -> LinkT -> Prop) :
  (forall l', l_serious l' = true -> match e with
    | XX_capsule_error => tk_linking tk
    | XX_library_error => ~ tk_linking tk
    | XX_tdf XX_tdf_read_error => True
    | _ => False
    end) -> lsafe c l (_ ← serious; st_throw e) c' Q.
Proof.
  intros He. eapply lsafe_bind; [apply serious_lsafe|]. intros [] l' _ [_ Hs] Hl. split; [split; [by exists c|reflexivity]|].
  specialize (He l' Hs). destruct e as [| |[| |]| | |]; auto; contradiction.
Qed.

Lemma lsafe_fail {A} c l c' (Q : A -> LinkT -> Prop) : tk_linking tk -> lsafe c l fail c' Q.
Proof. intros Hk. by apply serious_throw. Qed.

Lemma lsafe_fail_bind {A B} c l (k : A -> link B) c' (Q : B -> LinkT -> Prop) :
  tk_linking tk -> lsafe c l (fail ≫= k) c' Q.
Proof. intros Hk. by apply (lsafe_bind c l _ c' (fun _ _ => False)); [apply lsafe_fail|]. Qed.

Lemma lsafe_serious {A} c l (b : bool) (k : unit -> link A) c' Q :
  (forall l', same_tables l l' -> lsafe c l' (k tt) c' Q) -> lsafe c l ((if b then serious else mret tt) ≫= k) c' Q.
Proof.
  intros H. apply (lsafe_bind c l _ c (fun _ l' => same_tables l l')); [|intros [] l' _; apply H].
  destruct b; [|by apply lsafe_ret; split_and!]. eapply lsafe_impl; [|apply serious_lsafe]. by intros [] l' _ [].
Qed.

Lemma rd_lsafe {A} c l (m : reader A) (Q : A -> Prop) :
  rsafe device m Q -> lsafe c l (rd m) c (fun a l' => Q a /\ same_tables l l').
Proof.
  intros Hm Hl. destruct (Hm (l_reader l) (sl_reader _ _ Hl)) as [Hr Hq]. unfold rd.
  destruct (m (l_reader l)) as [r x]. cbn in Hr, Hq. set (l' := Link r _ _ _ _).
  assert (safe_link c l') as Hs by (apply (safe_link_reader _ l); [exact Hr|by split_and!|reflexivity|exact Hl]).
  assert (later_link l l') as Hlt by (apply same_tables_later; [by split_and!|reflexivity]).
  destruct x as [a|[]]; cbn zeta; [by split_and!| | |contradiction].
  - pose proof (serious_throw (A := A) c l' (XX_tdf XX_tdf_read_error) c (fun a l' => Q a /\ same_tables l l') ltac:(auto) Hs) as H.
    destruct (mbind (M := stM LinkT capsule_exn) (A := unit) (B := A) _ serious l') as [l2 [a|e]];
      [destruct H as (H1 & H2 & H3 & H4)|destruct H as ((H1 & H2) & H3)]; split_and!; auto; by transitivity l'.
  - split; [split; [by exists c|exact Hlt]|exact Hq].
Qed.

Lemma lsafe_rd {A B} c l (m : reader A) (Q : A -> Prop) (k : A -> link B) c' R :
  rsafe device m Q -> (forall a l', same_tables l l' -> Q a -> lsafe c l' (k a) c' R) -> lsafe c l (rd m ≫= k) c' R.
Proof. intros Hm Hk. eapply lsafe_bind; [by apply rd_lsafe|]. intros a l' _ [Ha Hs]. by apply Hk. Qed.

Lemma lsafe_int {B} c l (k : Z -> link B) c' R :
  (forall n l', same_tables l l' -> is_unsigned n -> lsafe c l' (k n) c' R) -> lsafe c l (rd tdf_read_int ≫= k) c' R.
Proof. apply lsafe_rd, tdf_read_int_safe. Qed.

Lemma lsafe_need {A B} c l (o : option A) a (k : A -> link B) c' Q :
  o = Some a -> lsafe c l (k a) c' Q -> lsafe c l (need o ≫= k) c' Q.
Proof. by intros ->. Qed.

(** An operation that may find that there are no identifiers left. *)
Lemma lsafe_need_id {A B} c l (o : option A) (k : A -> link B) c' Q :
  (o = None -> exhausted l) -> (forall a, o = Some a -> lsafe c l (k a) c' Q) -> lsafe c l (need o ≫= k) c' Q.
Proof.
  intros Hn Hk Hl. destruct o as [a|]; [by apply Hk|]. split; [|by apply Hn]. split; [by exists c|reflexivity].
Qed.

Lemma lsafe_get_shape {A} c l p s (k : ShapeEntryT -> link A) c' Q :
  st_entries (l_shapes l) !! p = Some s -> lsafe c l (k s) c' Q -> lsafe c l (get_shape p ≫= k) c' Q.
Proof. intros E H. unfold get_shape, lsafe, mbind, stM_bind, st_get, need. cbn. rewrite E. exact H. Qed.

Lemma units_later l u : same_entries (l_units l) u -> later_link l (with_units u l).
Proof. intros H. by split_and!. Qed.

(** Changing an entry, and not its key. *)
Lemma alter_entries u p f :
  (forall e, ue_key (f e) = ue_key e /\ order (f e) = order e) ->
  same_entries u (UnitTable (ut_contents u) (alter f p (ut_entries u))).
Proof.
  intros Hf. split; [reflexivity|]. cbn. apply list_eq. intros i. rewrite !list_lookup_fmap. destruct (decide (i = p)) as [->|Hne].
  - rewrite list_lookup_alter_eq. destruct (ut_entries u !! p) as [e|]; [|reflexivity]. cbn. destruct (Hf e) as [-> ->]. reflexivity.
  - by rewrite list_lookup_alter_ne by congruence.
Qed.

Lemma shapes_later l t : later (l_shapes l) t -> later_link l (with_shapes t l).
Proof. intros H. by split; [|by split_and!]. Qed.

(** ** Changing the version *)

Definition set_version (g : StaticsT) (major minor : Z) : StaticsT :=
  Statics (capsule_unit_sets g) (capsule_tld_index g) (capsule_tld2_index g) major minor (need_setup g).

Lemma set_version_safe g major minor :
  safe_statics g -> 4 <= major <= UINT_MAX -> is_unsigned minor -> safe_statics (set_version g major minor).
Proof. intros [H1 H2 H3 H4 H5 H6] Hma Hmi. constructor; auto. Qed.

Lemma lsafe_set_statics {A} c l g (k : unit -> link A) c' Q :
  (safe_statics (l_statics l) -> safe_statics g) -> same_setup (l_statics l) g -> capsule_major_version g <> 0 ->
  lsafe c (with_statics g l) (k tt) c' Q -> lsafe c l (set_statics g ≫= k) c' Q.
Proof.
  intros Hg Hs Hv Hk. eapply (lsafe_bind c l _ c (fun _ l' => l' = with_statics g l)).
  - intros [H1 H2 H3 H4 H5]. split; [constructor; auto|]. split; [|reflexivity]. split; [reflexivity|]. by split_and!.
  - intros [] l' _ ->. exact Hk.
Qed.

(** ** Changing a shape *)

Lemma set_shape_later t p s s' : st_entries t !! p = Some s -> later_shape s s' -> later t (set_shape t p s').
Proof.
  intros E H q x Eq. cbn. destruct (decide (p = q)) as [<-|Hne].
  - exists s'. split; [apply list_lookup_insert_eq; by eapply lookup_lt_Some|]. congruence.
  - exists x. rewrite list_lookup_insert_ne by exact Hne. split; [exact Eq|reflexivity].
Qed.

Lemma set_shape_safe t p s s' :
  safe_shapes tk t -> st_entries t !! p = Some s -> safe_shape tk s' -> later_shape s s' -> safe_shapes tk (set_shape t p s').
Proof.
  intros Ht E Hs [[Ek _] _]. constructor.
  - eapply set_shape_good; [apply Ht|exact E|exact Ek|apply Hs].
  - intros q x Hq. cbn in Hq. apply list_lookup_insert_Some in Hq as [(<- & <- & _)|(_ & Hq)]; [exact Hs|].
    by eapply (sh_all _ _ Ht).
Qed.

Lemma with_shapes_safe c l t :
  safe_link c l -> safe_shapes tk t -> later (l_shapes l) t -> safe_link c (with_shapes t l).
Proof. intros [H1 H2 H3 H4 H5] Ht Hlt. constructor; auto. intros Hk. eapply safe_units_later; eauto. Qed.

Lemma lsafe_put_shapes {A} c l t (k : unit -> link A) c' Q :
  (safe_shapes tk (l_shapes l) -> safe_shapes tk t /\ later (l_shapes l) t) -> lsafe c (with_shapes t l) (k tt) c' Q -> lsafe c l (put_shapes t ≫= k) c' Q.
Proof.
  intros Ht Hk. eapply (lsafe_bind c l _ c (fun _ l' => l' = with_shapes t l)).
  - intros Hl. destruct (Ht (sl_shapes _ _ Hl)) as [H1 H2]. split; [by apply with_shapes_safe|]. split; [by apply shapes_later|reflexivity].
  - intros [] l' _ ->. exact Hk.
Qed.

Lemma lsafe_put_shape {A} c l p s s' (k : unit -> link A) c' Q :
  st_entries (l_shapes l) !! p = Some s -> (safe_shape tk s -> safe_shape tk s' /\ later_shape s s') ->
  lsafe c (with_shapes (set_shape (l_shapes l) p s') l) (k tt) c' Q -> lsafe c l (put_shape p s' ≫= k) c' Q.
Proof.
  intros E Hs. change (put_shape p s' ≫= k) with (l ← st_get; (put_shapes (set_shape (l_shapes l) p s') ≫= k)).
  intros Hk. apply lsafe_get, lsafe_put_shapes; [|exact Hk]. intros Ht. destruct (Hs (sh_all _ _ Ht _ _ E)) as [H1 H2].
  split; [by eapply set_shape_safe|by eapply set_shape_later].
Qed.

(** ** Changing a unit *)

Lemma unit_of_set_unit units p i u q j :
  unit_of (set_unit p i u units) q j = if decide (q = p /\ j = i) then (_ ← unit_of units p i; Some u) else unit_of units q j.
Proof.
  unfold unit_of, set_unit. cbn [ut_entries]. destruct (decide (q = p)) as [->|Hq].
  - rewrite list_lookup_alter_eq. destruct (ut_entries units !! p) as [e|]; [|by case_decide]. cbn.
    destruct (decide (j = i)) as [->|Hj].
    + rewrite decide_True by auto. destruct (ue_units e !! i) as [x|] eqn:E; cbn.
      * apply list_lookup_insert_eq. by eapply lookup_lt_Some.
      * rewrite list_insert_ge by (by apply lookup_ge_None). exact E.
    + rewrite decide_False by tauto. by apply list_lookup_insert_ne.
  - rewrite decide_False by tauto. rewrite list_lookup_alter_ne by congruence. reflexivity.
Qed.

Lemma set_unit_entry units p i u q e :
  ut_entries (set_unit p i u units) !! q = Some e ->
  exists e0, ut_entries units !! q = Some e0 /\ ue_key e = ue_key e0 /\ (ue_units e0 = [] -> ue_units e = []).
Proof.
  unfold set_unit. cbn. destruct (decide (q = p)) as [->|Hq].
  - rewrite list_lookup_alter_eq. destruct (ut_entries units !! p) as [e0|]; [|discriminate]. cbn. intros [= <-].
    exists e0. split; [reflexivity|]. split; [reflexivity|]. cbn. by intros ->.
  - rewrite list_lookup_alter_ne by congruence. eauto.
Qed.

Lemma set_unit_safe c t units p i u c' :
  safe_units c t units -> safe_unit t u -> ((p, i) ∈ c' \/ unit_legal t u) ->
  c = c' \/ c = (p, i) :: c' -> safe_units c' t (set_unit p i u units).
Proof.
  intros [H1 H2 H3 H7 H4 H5 H6] Hu Hlg Hc. constructor; auto.
  - intros e E. destruct (set_unit_entry _ _ _ _ _ _ E) as (e0 & E0 & _ & Hn). eauto.
  - intros q e Eq E. destruct (set_unit_entry _ _ _ _ _ _ E) as (e0 & E0 & _ & Hn). eauto.
  - intros q Hq. destruct (H4 q Hq) as (e & Ee & Hk). unfold set_unit. cbn. destruct (decide (q = p)) as [->|Hne].
    + rewrite list_lookup_alter_eq, Ee. eexists. split; [reflexivity|exact Hk].
    + rewrite list_lookup_alter_ne by congruence. eauto.
  - intros q j x. rewrite unit_of_set_unit. case_decide as E; [|apply H5].
    destruct (unit_of units p i); [|discriminate]. cbn. by intros [= <-].
  - intros q j x. rewrite unit_of_set_unit. case_decide as E.
    + destruct (unit_of units p i); [|discriminate]. cbn. intros [= <-]. destruct E as [-> ->]. exact Hlg.
    + intros Hx. destruct (H6 q j x Hx) as [E'|Hl]; [|by right]. destruct Hc as [<-|Hc]; [by left|].
      rewrite Hc in E'. apply elem_of_cons in E' as [[= <- <-]|E']; [tauto|by left].
Qed.

Lemma lsafe_update_unit {A} c l p i f u u' (k : unit -> link A) c1 c' Q :
  tk_linking tk -> unit_of (l_units l) p i = Some u -> f u = Some u' ->
  (safe_shapes tk (l_shapes l) -> safe_unit (l_shapes l) u -> safe_unit (l_shapes l) u' /\ ((p, i) ∈ c1 \/ unit_legal (l_shapes l) u')) ->
  c = c1 \/ c = (p, i) :: c1 ->
  lsafe c1 (with_units (set_unit p i u' (l_units l)) l) (k tt) c' Q -> lsafe c l (update_unit p i f ≫= k) c' Q.
Proof.
  intros Hln Eu Ef Hu Hc Hk. eapply (lsafe_bind c l _ c1 (fun _ l' => l' = with_units (set_unit p i u' (l_units l)) l)).
  - intros [H1 H2 H3 H4 H5]. destruct (Hu H3 (su_units _ _ _ (H4 Hln) _ _ _ Eu)) as [Hs Hlg].
    rewrite (update_unit_eq _ _ _ _ _ _ Eu Ef).
    split; [|split; [by apply units_later, alter_entries|reflexivity]]. constructor; auto. intros _. eapply set_unit_safe; eauto.
  - intros [] l' _ ->. exact Hk.
Qed.

(** A unit at the end of the list of an entry is the one being read. *)
Lemma unit_of_added units p e u q j :
  ut_entries units !! p = Some e ->
  unit_of (add_units p [u] units) q j = if decide (q = p /\ j = length (ue_units e)) then Some u else unit_of units q j.
Proof.
  intros E. unfold unit_of. destruct (decide (q = p)) as [->|Hq].
  - rewrite (add_units_entry _ _ _ _ E), E. cbn. destruct (decide (j = length (ue_units e))) as [->|Hj].
    + rewrite decide_True by auto. rewrite lookup_app_r, Nat.sub_diag by lia. reflexivity.
    + rewrite decide_False by tauto. destruct (Nat.lt_ge_cases j (length (ue_units e))) as [H|H].
      * by rewrite lookup_app_l.
      * rewrite !lookup_ge_None_2; [reflexivity|lia|]. rewrite length_app. cbn. lia.
  - rewrite decide_False by tauto. cbn. by rewrite list_lookup_alter_ne by congruence.
Qed.

Lemma add_unit_safe c t units p e u :
  safe_units c t units -> ut_entries units !! p = Some e -> p <> tld -> Some p <> tld2 -> safe_unit t u ->
  safe_units ((p, length (ue_units e)) :: c) t (add_units p [u] units).
Proof.
  intros [H1 H2 H3 H7 H4 H5 H6] E Hp Hp2 Hu. constructor; auto.
  - intros x. cbn. rewrite list_lookup_alter_ne by exact Hp. apply H3.
  - intros q x Eq. cbn. rewrite list_lookup_alter_ne by congruence. by apply H7.
  - intros q Hq. destruct (H4 q Hq) as (x & Ex & Hk). cbn. destruct (decide (q = p)) as [->|Hne].
    + rewrite list_lookup_alter_eq, Ex. eexists. split; [reflexivity|exact Hk].
    + rewrite list_lookup_alter_ne by congruence. eauto.
  - intros q j x. rewrite (unit_of_added _ _ _ _ _ _ E). case_decide; [by intros [= <-]|apply H5].
  - intros q j x. rewrite (unit_of_added _ _ _ _ _ _ E). case_decide as Ed; [destruct Ed as [-> ->]; left; left|].
    intros Hx. destruct (H6 q j x Hx) as [|Hl]; [left; by right|by right].
Qed.

Lemma lsafe_add_unit {A} c l p e n (k : unit -> link A) c' Q :
  tk_linking tk -> ut_entries (l_units l) !! p = Some e -> p <> tld -> Some p <> tld2 ->
  let u := UnitOf (if negb (n =? 0) then Some map_table_create else None) nstring_init in
  lsafe ((p, length (ue_units e)) :: c) (with_units (add_units p [u] (l_units l)) l) (k tt) c' Q ->
  lsafe c l (put_unit_entry p (unit_entry_add_unit e n) ≫= k) c' Q.
Proof.
  intros Hln E Hp Hp2 u Hk. eapply (lsafe_bind c l _ ((p, length (ue_units e)) :: c) (fun _ l' => l' = with_units (add_units p [u] (l_units l)) l)).
  - intros [H1 H2 H3 H4 H5].
    assert (put_unit_entry p (unit_entry_add_unit e n) l = (with_units (add_units p [u] (l_units l)) l, Ok tt)) as ->.
    { assert (<[p := unit_entry_add_unit e n]> (ut_entries (l_units l)) = ut_entries (add_units p [u] (l_units l))) as Ee;
        [|unfold put_unit_entry, put_units, mbind, stM_bind, st_get; by rewrite Ee].
      rewrite list_insert_alter. apply list_alter_ext; [|reflexivity]. intros x. rewrite E. by intros [= <-]. }
    split; [|split; [by apply units_later, alter_entries|reflexivity]]. constructor; auto. intros _. apply (add_unit_safe _ _ _ _ e); auto. unfold u, safe_unit. cbn. split.
    + apply (bool_decide_eq_true_1 _). vm_compute. reflexivity.
    + destruct (negb _); [|exact I]. assert (wf_chains (K := NStringT) (A := nat) (ht_create MAP_TABLE_SIZE)) as Hw
        by (apply ht_create_wf; unfold MAP_TABLE_SIZE; lia).
      constructor; [exact Hw|constructor| |constructor]. intros key m Hin. exfalso. cbn in Hin. inversion Hin.
  - intros [] l' _ ->. exact Hk.
Qed.

(** *** Map tables *)

Section Maps.
Variable junk : nat -> Z.

Lemma map_add_safe t mt key count :
  safe_map t mt -> wf_nstring key -> has_shape t key -> is_unsigned count ->
  let mt' := (map_table_add junk mt key count).1 in
  safe_map t mt' /\ mt_entries mt' = mt_entries mt ++ [MapEntry key count 0 []].
Proof.
  intros [H1 H2 H3 H4] Hk Hs Hc. unfold map_table_add, map_entry_create. rewrite nstring_copy_id by exact Hk. cbn zeta. cbn [fst mt_contents mt_entries me_key].
  split; [|reflexivity]. constructor; cbn [mt_contents mt_entries].
  - by apply ht_prepend_wf.
  - apply Forall_app. split; [exact H2|]. constructor; [|constructor]. unfold ok_map_entry. cbn. split_and!; [exact Hc|unfold is_unsigned; lia|reflexivity|constructor].
  - intros k m. rewrite ht_entries_prepend by apply H1. rewrite elem_of_cons. intros [[= -> ->]|Hin].
    + eexists. split; [by apply list_lookup_middle|reflexivity].
    + destruct (H3 k m Hin) as (e & Ee & Ek). exists e. split; [by apply lookup_app_l_Some|exact Ek].
  - apply Forall_app. split; [exact H4|]. by repeat constructor.
Qed.
End Maps.

Lemma set_map_entry_safe t mt m e e' :
  safe_map t mt -> mt_entries mt !! m = Some e -> me_key e' = me_key e -> ok_map_entry e' -> safe_map t (set_map_entry m e' mt).
Proof.
  intros [H1 H2 H3 H4] E Ek He. constructor; cbn; [exact H1|by apply Forall_insert| |].
  - intros k x Hin. destruct (H3 k x Hin) as (y & Ey & Eky). destruct (decide (m = x)) as [<-|Hne].
    + exists e'. rewrite list_lookup_insert_eq by (by eapply lookup_lt_Some). split; [reflexivity|congruence].
    + exists y. by rewrite list_lookup_insert_ne.
  - apply Forall_insert; [exact H4|]. rewrite Ek. exact (Forall_lookup_1 _ _ _ _ H4 E).
Qed.
End State.
