(* ===== verification/TldUnitSets.v ===== *)
(** * TldUnitSets: the unit sets of the linker

    What the linker relies on of the unit sets it knows (the static variables
    of tld/src/adt/capsule.c), the default ones or those of a file: their
    names are distinct, and the indices are those of [tld] and of [tld2], if
    there is one. [set_up] is the state [capsule_setup] leaves from them. *)
From stdpp Require Import base list list_numbers numbers.
From Stdlib Require Import ZArith Lia Sorted String.
From S2P Require Import Prelude Codec ExdsString TldNameKey TldIO TldIOSpec HashTable TldNames TldShapes TldShapesSpec TldCapsule TldCapsuleSpec.
From S2P Require Import TldRead TldReadUnits TldSafeState.

Definition name_tld : NStringT := nstring_const "tld".
Definition name_tld2 : NStringT := nstring_const "tld2".

Record unit_sets_checked (names : list NStringT) (tld : nat) (tld2 : option nat) : Prop := {
  uc_names : Forall ok_nstring names;
  uc_distinct : NoDup names;
  uc_count : Z.of_nat (List.length names) + 1 < 2 ^ 32;
  uc_tld : names !! tld = Some name_tld;
  uc_tld2 : forall i, tld2 = Some i <-> names !! i = Some name_tld2
}.

(** The default unit sets, or those of a file, before they are set up. *)
Definition known_unit_sets (g : StaticsT) : Prop :=
  g = initial_statics \/
  exists sets tld tld2, g = Statics (Some sets) tld tld2 0 0 true /\ unit_sets_checked (us_name <$> sets) tld tld2.

Definition default_names : list NStringT := nstring_const <$> capsule_default_unit_set_names.

Lemma default_checked : unit_sets_checked default_names 0 (Some 1%nat).
Proof.
  constructor; [apply (bool_decide_eq_true_1 _); vm_compute; reflexivity..|vm_compute; reflexivity|reflexivity|].
  intros i. do 12 (destruct i as [|i]; [vm_compute; split; congruence|]). split; [discriminate|].
  intros E%lookup_lt_Some. change (List.length default_names) with 12%nat in E. lia.
Qed.

(** ** Setting up *)

Definition set_entries_of (k : nat) (names : list NStringT) : list UnitEntryT :=
  imap (fun i n => UnitEntry n (Z.of_nat (k + i)) []) names.

Fixpoint set_contents_of (t : list (list (NStringT * nat))) (k : nat) (names : list NStringT) : list (list (NStringT * nat)) :=
  match names with
  | [] => t
  | n :: names => set_contents_of (ht_prepend t n k) (S k) names
  end.

Definition set_up (names : list NStringT) (tld : nat) (tld2 : option nat) : StaticsT * UnitTableT :=
  (Statics (Some (imap (fun i n => UnitSet n (Some i)) names)) tld tld2 0 0 false,
   UnitTable (set_contents_of (ht_create UNIT_TABLE_SIZE) 0 names) (set_entries_of 0 names)).

Section SetUp.
Variable junk : nat -> Z.

Lemma setup_loop_ok sets : forall k u,
  k = List.length (ut_entries u) -> Forall ok_nstring (us_name <$> sets) ->
  setup_loop junk sets (Z.of_nat k) u =
    (imap (fun i n => UnitSet n (Some (k + i)%nat)) (us_name <$> sets),
     UnitTable (set_contents_of (ut_contents u) k (us_name <$> sets)) (ut_entries u ++ set_entries_of k (us_name <$> sets))).
Proof.
  induction sets as [|s sets IH]; intros k u Ek Hs; cbn [setup_loop].
  { destruct u as [c es]. cbn. by rewrite app_nil_r. }
  cbn [fmap list_fmap] in Hs |- *. inversion Hs as [|? ? [Hn _] Hs']; subst.
  unfold unit_table_add, unit_entry_create. rewrite nstring_copy_id by exact Hn. cbn [ue_key].
  set (u1 := UnitTable _ _). replace (Z.of_nat (List.length (ut_entries u)) + 1) with (Z.of_nat (S (List.length (ut_entries u)))) by lia.
  rewrite (IH (S (List.length (ut_entries u))) u1) by (try exact Hs'; unfold u1; cbn; rewrite length_app; cbn; lia).
  cbn [ut_contents ut_entries u1]. unfold set_entries_of. rewrite !imap_cons, Nat.add_0_r, <- app_assoc. cbn [app set_contents_of].
  f_equal; [f_equal; apply imap_ext; intros i x _; cbn; f_equal; f_equal; lia|].
  f_equal. f_equal. f_equal. apply imap_ext. intros i x _. cbn. f_equal. lia.
Qed.

Lemma defaults_names : us_name <$> map (fun s => UnitSet (nstring_copy_cstring junk (chars s)) None) capsule_default_unit_set_names = default_names.
Proof. reflexivity. Qed.

Lemma setup_names sets tld tld2 : unit_sets_checked (us_name <$> sets) tld tld2 ->
  (let '(sets, units) := setup_loop junk sets 0 unit_table_create in (Statics (Some sets) tld tld2 0 0 false, units)) =
    set_up (us_name <$> sets) tld tld2.
Proof.
  intros Hc. change 0 with (Z.of_nat 0). rewrite (setup_loop_ok sets 0 unit_table_create); [reflexivity|reflexivity|apply Hc].
Qed.

Lemma initial_set_up : capsule_setup junk initial_statics unit_table_create = set_up default_names 0 (Some 1%nat).
Proof. rewrite <- defaults_names. apply setup_names. rewrite defaults_names. apply default_checked. Qed.

End SetUp.

(** Whatever the unit sets, setting them up gives the state [set_up]. *)
Lemma known_set_up g : known_unit_sets g ->
  exists names tld tld2, unit_sets_checked names tld tld2 /\
    forall junk, capsule_setup junk g unit_table_create = set_up names tld tld2.
Proof.
  intros [->|(sets & tld & tld2 & -> & Hc)].
  - exists default_names, 0%nat, (Some 1%nat). split; [apply default_checked|]. intros junk. apply initial_set_up.
  - exists (us_name <$> sets), tld, tld2. split; [exact Hc|]. intros junk. by apply setup_names.
Qed.

Lemma set_entries_lookup k names p :
  set_entries_of k names !! p = (fun n => UnitEntry n (Z.of_nat (k + p)) []) <$> names !! p.
Proof. unfold set_entries_of. by rewrite list_lookup_imap. Qed.

Lemma set_contents_ok names : forall t k,
  wf_chains t -> Forall ok_nstring names -> NoDup names ->
  let t' := set_contents_of t k names in
  wf_chains t' /\ ht_entries t' ≡ₚ ht_entries t ++ imap (fun i n => (n, (k + i)%nat)) names /\
  (forall key, wf_nstring key -> key ∉ names -> ht_get t' key = ht_get t key) /\
  forall i n, names !! i = Some n -> ht_get t' n = Some (k + i)%nat.
Proof.
  induction names as [|n names IH]; intros t k Ht Hn Hnd.
  { cbn. split; [exact Ht|]. split; [by rewrite app_nil_r|]. split; [auto|discriminate]. }
  inversion Hn as [|? ? [Hn1 Hn2] Hn']; subst. apply list.NoDup_cons in Hnd as [Hni Hnd]. cbn [set_contents_of].
  destruct (IH (ht_prepend t n k) (S k) (ht_prepend_wf t n k Ht Hn1) Hn' Hnd) as (H1 & H2 & H3 & H4). clear IH.
  split; [exact H1|]. split; [|split].
  - rewrite H2, ht_entries_prepend by apply Ht.
    rewrite imap_cons, Nat.add_0_r. rewrite <- Permutation_middle. cbn [app]. apply perm_skip, Permutation_app; [reflexivity|].
    assert (forall l l' : list (NStringT * nat), l = l' -> l ≡ₚ l') as Heq by (by intros l l' ->). apply Heq, imap_ext. intros i x _. cbn. f_equal. lia.
  - intros key Hk Hni'. rewrite elem_of_cons in Hni'. rewrite H3, ht_get_prepend by (try exact Hk; tauto).
    by rewrite decide_False by tauto.
  - intros [|i] x; cbn [lookup list_lookup].
    + intros [= <-]. rewrite H3, ht_get_prepend by auto. rewrite decide_True by reflexivity. f_equal. lia.
    + intros Hx. rewrite (H4 i x Hx). f_equal. lia.
Qed.

(** ** The start of the linker *)

Section Checked.
Context {names : list NStringT} {tld : nat} {tld2 : option nat}.
Hypothesis checked : unit_sets_checked names tld tld2.

Abbreviation sets_at := (seq 0 (List.length names)).
Abbreviation start_units := (set_up names tld tld2).2.

Lemma start_contents :
  wf_chains (ut_contents start_units) /\ ht_entries (ut_contents start_units) ≡ₚ imap (fun i n => (n, i)) names /\
  forall i n, names !! i = Some n -> unit_table_get start_units n = Some i.
Proof.
  destruct (ht_create_wf (K := NStringT) (A := nat) UNIT_TABLE_SIZE) as [Hwf _]; [unfold UNIT_TABLE_SIZE; lia|].
  destruct (set_contents_ok names (ht_create UNIT_TABLE_SIZE) 0 Hwf (uc_names _ _ _ checked) (uc_distinct _ _ _ checked)) as (H1 & H2 & _ & H3).
  split; [exact H1|]. split; [exact H2|exact H3].
Qed.

Lemma start_entry p : ut_entries start_units !! p = (fun n => UnitEntry n (Z.of_nat p) []) <$> names !! p.
Proof. apply (set_entries_lookup 0). Qed.

Lemma start_set i : set_entry (set_up names tld tld2).1 i = (fun _ => i) <$> names !! i.
Proof. unfold set_entry. cbn. rewrite list_lookup_imap. by destruct (names !! i). Qed.

Lemma start_statics tk : safe_statics tk sets_at tld tld2 (set_up names tld tld2).1.
Proof.
  constructor; [by left|unfold is_unsigned; cbn; lia|reflexivity|..]; intros _.
  - eexists. split; [reflexivity|]. apply list_eq. intros i. rewrite !list_lookup_fmap, list_lookup_imap.
    destruct (names !! i) eqn:E; cbn.
    + apply lookup_lt_Some in E. by rewrite lookup_seq_lt.
    + apply lookup_ge_None in E. by rewrite lookup_seq_ge.
  - unfold tld_entry_of. rewrite start_set. cbn. by rewrite (uc_tld _ _ _ checked).
  - assert (forall i, tld2 = Some i -> set_entry (set_up names tld tld2).1 i = Some i) as H.
    { intros i Ei. rewrite start_set. by rewrite (proj1 (uc_tld2 _ _ _ checked i) Ei). }
    unfold tld2_entry_of. change (capsule_tld2_index _) with tld2. revert H. generalize (set_up names tld tld2).1 as g. intros g H.
    destruct tld2 as [i|]; [by apply H|reflexivity].
Qed.

Lemma start_unit p i u : unit_of start_units p i = Some u -> False.
Proof. unfold unit_of. rewrite start_entry. by destruct (names !! p). Qed.

Lemma start_units_safe t : safe_units sets_at tld tld2 [] t start_units.
Proof.
  destruct start_contents as (H1 & H2 & H3). constructor.
  - exact H1.
  - unfold unit_table_iter. rewrite H2. rewrite fmap_imap. cbn.
    assert (forall l k, seq k (List.length l) = imap (fun i (_ : NStringT) => (k + i)%nat) l) as Hs.
    { induction l as [|x l IH]; intros k; [reflexivity|]. cbn [List.length seq]. rewrite imap_cons, Nat.add_0_r, IH. f_equal.
      apply imap_ext. intros i y _. cbn. lia. }
    rewrite (Hs names 0%nat). reflexivity.
  - intros e. rewrite start_entry. destruct (names !! tld); [|discriminate]. by intros [= <-].
  - intros p e _. rewrite start_entry. destruct (names !! p); [|discriminate]. by intros [= <-].
  - intros p Hp. apply elem_of_seq in Hp. rewrite start_entry. destruct (lookup_lt_is_Some_2 names p) as [n En]; [lia|].
    rewrite En. eexists. split; [reflexivity|]. exact (Forall_lookup_1 _ _ _ _ (uc_names _ _ _ checked) En).
  - intros p i u Hu. by destruct (start_unit p i u).
  - intros p i u Hu. by destruct (start_unit p i u).
Qed.

Lemma start_order p : (p < List.length names)%nat -> order_of start_units p = Z.of_nat p.
Proof. intros Hp. unfold order_of. rewrite start_entry. by destruct (lookup_lt_is_Some_2 names p Hp) as [n ->]. Qed.

Lemma start_sorted : StronglySorted (before start_units) sets_at.
Proof.
  assert (forall n k, (n + k <= List.length names)%nat -> StronglySorted (before start_units) (seq k n)) as H; [|apply H; lia].
  induction n as [|n IH]; intros k Hk; cbn [seq]; constructor; [apply IH; lia|].
  apply Forall_forall. intros q Hq%list_elem_of_In. apply elem_of_seq in Hq. unfold before. rewrite !start_order by lia. lia.
Qed.

Lemma start_get p e : ut_entries start_units !! p = Some e -> unit_table_get start_units (ue_key e) = Some p.
Proof.
  rewrite start_entry. destruct (names !! p) as [n|] eqn:E; [|discriminate]. intros [= <-]. by apply start_contents.
Qed.

Lemma start_tld : (tld < List.length names)%nat.
Proof. eapply lookup_lt_Some, checked. Qed.
End Checked.

#[global] Arguments set_up : simpl never.
