(* ===== verification/TldSafeRead.v ===== *)
(** * TldSafeRead: reading any input as a capsule

    Whatever the bytes of the input, the reader of capsules
    (tld/src/adt/capsule.c) keeps the invariant of the linker, and ends the
    program only when a shape has no identifiers left or the device of the
    input fails. *)
From stdpp Require Import base list list_numbers numbers.
From Stdlib Require Import ZArith Lia.
From S2P Require Import Prelude Codec ExdsString TldNameKey TldIO TldIOSpec HashTable TldNames.
From S2P Require Import TldRename TldNameTable TldShapes TldShapesSpec TldCapsule TldCapsuleSpec TldUsage TldRead TldReadUnits.
From S2P Require Import TldSafeState.

(** ** What is kept of the shapes of the capsule *)

Definition slot_safe (s : ShapeEntryT) (v : Z) : Prop := v = UINT_MAX \/ 0 <= v < id_count s.

Definition data_safe (t : ShapeTableT) (d : ShapeDataT) : Prop :=
  exists s, st_entries t !! sd_entry d = Some s /\ Z.of_nat (length (sd_id_maps d)) = sd_num_ids d /\
    Forall (slot_safe s) (sd_id_maps d).

Definition names_safe (t : ShapeTableT) (d : ShapeDataT) (names : list nat) : Prop :=
  exists s, st_entries t !! sd_entry d = Some s /\ forall p, p ∈ names -> get_direct (se_names s) p <> None.

Lemma slot_safe_later s s' v : later_shape s s' -> slot_safe s v -> slot_safe s' v.
Proof. intros [_ H] [->|Hv]; [by left|right; lia]. Qed.

Lemma data_safe_later t t' d : later t t' -> data_safe t d -> data_safe t' d.
Proof.
  intros H (s & Es & El & Hs). destruct (H _ _ Es) as (s' & Es' & Hl). exists s'. split; [exact Es'|]. split; [exact El|].
  eapply Forall_impl; [|exact Hs]. intros v. by apply slot_safe_later.
Qed.

Lemma names_safe_later t t' d names : later t t' -> names_safe t d names -> names_safe t' d names.
Proof.
  intros H (s & Es & Hn). destruct (H _ _ Es) as (s' & Es' & [(_ & Hg & _) _]). exists s'. split; [exact Es'|]. auto.
Qed.

(** The shapes of the capsule with the names it gives them. *)
Definition vec_safe (t : ShapeTableT) (vec : list ShapeDataT) (namess : list (list nat)) : Prop :=
  Forall2 (fun d names => data_safe t d /\ names_safe t d names) vec namess.

Lemma Forall_data_later t t' vec : later t t' -> Forall (data_safe t) vec -> Forall (data_safe t') vec.
Proof. intros H Hv. eapply Forall_impl; [|exact Hv]. intros d. by apply data_safe_later. Qed.

Lemma vec_safe_later t t' vec namess : later t t' -> vec_safe t vec namess -> vec_safe t' vec namess.
Proof.
  intros H Hv. eapply Forall2_impl; [|exact Hv]. intros d names [H1 H2].
  split; [by eapply data_safe_later|by eapply names_safe_later].
Qed.

Section SafeRead.
Variable junk : nat -> Z.
Variable junk_nstring : nat -> NStringT.
Variable device : Prop.
Variable ps : list nat.
Variable tld : nat.
Variable tld2 : option nat.

(** What is known of the definitions stays known, and is true of those of the
    capsule that is read. *)
Variable known : Z -> nat -> Prop.
Variable capsule : nat.
Hypothesis known_more : forall u v c, known u c -> known (Z.lor u v) c.
Hypothesis known_new : forall u v, has v U_DEFD || has v U_MULT = true -> known (Z.lor u v) capsule.

Abbreviation tables := (linking_tables known).
Abbreviation lsafe := (lsafe tables device ps tld tld2).
Abbreviation safe_link := (safe_link tables device ps tld tld2).

Lemma rejects {A} c l c' (Q : A -> LinkT -> Prop) : lsafe c l fail c' Q.
Proof. by apply lsafe_fail. Qed.

Lemma rejects_bind {A B} c l (k : A -> link B) c' (Q : B -> LinkT -> Prop) : lsafe c l (fail ≫= k) c' Q.
Proof. by apply lsafe_fail_bind. Qed.

(** ** The header and the names of the unit sets *)

Lemma read_header_safe c l :
  lsafe c l (capsule_read_header junk) c (fun _ l' => capsule_major_version (l_statics l') <> 0).
Proof.
  unfold capsule_read_header. eapply lsafe_rd; [apply tdf_read_bytes_safe, init_length_wf|]. intros magic l1 _ _.
  destruct (negb _); [apply rejects|]. apply lsafe_int. intros major l2 _ Hma. apply lsafe_int. intros minor l3 _ Hmi.
  apply lsafe_get. cbn zeta. apply lsafe_use. intros Hl. pose proof (sl_statics _ _ _ _ _ _ _ Hl) as Hg.
  destruct (Z.ltb_spec major 4) as [|H4]; [apply rejects_bind|].
  assert (4 <= major <= UINT_MAX) as Hm by (unfold is_unsigned, UINT_MAX, UINT_BITS in *; lia).
  assert (forall l', capsule_major_version (l_statics l') <> 0 ->
    lsafe c l' (rd tdf_read_align) c (fun _ l' => capsule_major_version (l_statics l') <> 0)) as Hend.
  { intros l' Hv. eapply lsafe_later; [|apply rd_lsafe, tdf_read_align_safe]. intros [] l2' (_ & _ & _ & H & _) _. auto. }
  destruct (Z.eqb_spec (capsule_major_version (l_statics l3)) 0) as [E|E].
  { apply lsafe_set_statics; [intros _; by apply set_version_safe|by split_and!|cbn; lia|apply Hend; cbn; lia]. }
  destruct (negb _); [apply rejects_bind|].
  assert (4 <= capsule_major_version (l_statics l3) <= UINT_MAX) as Hv by (destruct (sg_version _ _ _ _ _ Hg); [contradiction|assumption]).
  destruct (_ <? minor); [|apply Hend; lia]. apply lsafe_set_statics; [intros _; by apply set_version_safe|by split_and!|cbn; lia|apply Hend; cbn; lia].
Qed.

Lemma unit_set_known c l key p : safe_link c l -> unit_table_get (l_units l) key = Some p -> p ∈ ps.
Proof.
  intros Hl E. destruct (sl_units _ _ _ _ _ _ _ Hl I) as [Hc Hp _ _ _ _ _]. rewrite Hp. unfold unit_table_iter.
  by eapply ht_get_value.
Qed.

Lemma unit_set_names_safe c n : forall l acc has,
  Forall (fun p => p ∈ ps) acc ->
  lsafe c l (unit_set_names_loop junk n acc has) c (fun vec _ => Forall (fun p => p ∈ ps) vec).
Proof.
  induction n as [|n IH]; intros l acc has Hacc; cbn [unit_set_names_loop]; [by apply lsafe_ret|].
  eapply lsafe_rd; [apply tdf_read_string_safe|]. intros key l1 _ _. apply lsafe_get, lsafe_use. intros Hl.
  destruct (unit_table_get (l_units l1) key) as [p|] eqn:E; [|apply rejects].
  destruct (misplaced _ _ _); [apply rejects|]. cbn zeta. apply lsafe_serious. intros l2 _.
  destruct (_ && has); [apply rejects|]. apply IH. apply Forall_app. split; [exact Hacc|]. repeat constructor.
  by eapply unit_set_known.
Qed.

Lemma read_unit_set_names_safe c l :
  lsafe c l (capsule_read_unit_set_names junk) c (fun vec _ => Forall (fun p => p ∈ ps) vec).
Proof. apply lsafe_int. intros n l1 _ _. by apply unit_set_names_safe. Qed.

(** ** Shapes *)

Lemma new_shape_safe tk key : ok_nstring key -> safe_shape tk (shape_entry_create junk key).
Proof.
  intros Hk. constructor.
  - apply good_shape_new.
  - cbn. rewrite nstring_copy_id by apply Hk. exact Hk.
  - intros p k E. discriminate.
  - intros p d E. discriminate.
Qed.

Lemma add_shape_safe tk t key :
  safe_shapes tk t -> ok_nstring key ->
  exists t' p s, shape_table_add junk t key = (t', p) /\ safe_shapes tk t' /\ later t t' /\ st_entries t' !! p = Some s.
Proof.
  intros Ht Hk. set (ss := ShapeEntry key name_table_create 0 false [] 0).
  destruct (add_shape_ok junk _ t ss (sh_good _ _ Ht) (proj1 Hk)) as (t' & p & s & Ea & Ht' & Es & _ & _ & _).
  cbn [se_key ss] in Ea. exists t', p, s. split; [exact Ea|].
  destruct (shape_table_get t key) as [q|] eqn:Eg.
  - unfold shape_table_add in Ea. unfold shape_table_get in Eg. rewrite Eg in Ea. injection Ea as <- <-.
    split; [exact Ht|]. split; [reflexivity|exact Es].
  - destruct (shape_table_add_new junk t key (gs_wf _ _ (sh_good _ _ Ht)) (proj1 Hk) Eg) as (E & _ & _ & He & _).
    rewrite Ea in E, He. cbn [fst] in E, He. split; [|split; [|exact Es]].
    + constructor; [exact Ht'|]. intros q x. rewrite He. intros Hq. apply lookup_app_Some in Hq as [Hq|[_ Hq]]; [by eapply (sh_all _ _ Ht)|].
      apply list_lookup_singleton_Some in Hq as [_ <-]. by apply new_shape_safe.
    + intros q x Hq. exists x. rewrite He. split; [by apply lookup_app_l_Some|reflexivity].
Qed.

Lemma new_data_safe t p s n :
  st_entries t !! p = Some s -> is_unsigned n -> data_safe t (ShapeData p n (replicate (Z.to_nat n) UINT_MAX)).
Proof.
  intros Es Hn. exists s. split; [exact Es|]. cbn [sd_id_maps sd_num_ids]. rewrite length_replicate.
  split; [unfold is_unsigned in Hn; lia|]. apply Forall_replicate. by left.
Qed.

Lemma read_shapes_safe c n : forall l vec,
  Forall (data_safe (l_shapes l)) vec -> NoDup (sd_entry <$> vec) ->
  lsafe c l (read_shapes_loop junk n vec) c
    (fun vec' l' => Forall (data_safe (l_shapes l')) vec' /\ NoDup (sd_entry <$> vec')).
Proof.
  induction n as [|n IH]; intros l vec Hvec Hnd; cbn [read_shapes_loop]; [by apply lsafe_ret|].
  eapply lsafe_rd; [apply tdf_read_string_safe|]. intros key l1 (_ & _ & E1) Hk. apply lsafe_int. intros ids l2 (_ & _ & E2) Hids.
  apply lsafe_get, lsafe_use. intros Hl.
  destruct (add_shape_safe _ (l_shapes l2) key (sl_shapes _ _ _ _ _ _ _ Hl) Hk) as (t' & p & s & Ea & Ht' & Hlt & Es). rewrite Ea.
  apply lsafe_put_shapes; [auto|]. destruct (existsb _ _) eqn:Ex; [apply rejects|]. apply IH; cbn [l_shapes with_shapes].
  - apply Forall_app. split; [|repeat constructor; by eapply new_data_safe].
    eapply Forall_data_later; [exact Hlt|]. by rewrite E2, E1.
  - rewrite fmap_app. apply list.NoDup_app. split; [exact Hnd|]. split; [|apply NoDup_singleton].
    intros q Hq ->%list_elem_of_singleton. cbn in Hq. apply list_elem_of_fmap in Hq as (d & Ed & Hd).
    assert (existsb (fun d => (p =? sd_entry d)%nat) vec = true) as Et; [|congruence].
    apply existsb_exists. exists d. split; [by apply list_elem_of_In|]. rewrite Ed. apply Nat.eqb_refl.
Qed.

(** ** External names *)

Lemma name_table_add_keys s k s' p q k' :
  name_table_add junk s k = Some (s', p) -> name_entry_key (se_names s') q = Some k' ->
  name_entry_key (se_names s) q = Some k' \/ k' = name_key_copy junk k.
Proof.
  unfold name_table_add. destruct (ht_get _ k) as [e|].
  - destruct (entry_type _ e) as [ty|]; [|discriminate]. cbn [mbind option_bind].
    destruct (if name_entry_is_indirect ty then _ else _) as [x|]; [|discriminate]. cbn [mbind option_bind].
    destruct (entry_type _ x) as [ty'|] eqn:Eq; [|discriminate]. cbn [mbind option_bind].
    destruct (name_entry_is_place ty') eqn:Ep; [|intros [= <- _]; auto]. unfold name_entry_make_direct. rewrite Eq.
    cbn [mbind option_bind]. rewrite Ep. unfold shape_entry_next_id.
    destruct (_ =? _); [discriminate|]. cbn. intros [= <- _]. cbn. rewrite set_type_keys. auto.
  - unfold name_entry_create_direct, shape_entry_next_id. destruct (_ =? _); [discriminate|]. cbn. intros [= <- _].
    unfold name_entry_key. cbn. intros H. destruct (nt_entries (se_names s) !! q) as [x|] eqn:E.
    + rewrite (lookup_app_l_Some _ _ _ _ E) in H. auto.
    + right. apply lookup_ge_None in E. rewrite lookup_app_r in H by exact E.
      destruct (q - _)%nat; [|discriminate]. cbn in H. by injection H as <-.
Qed.

Lemma add_name_safe tk s k :
  safe_shape tk s -> ok_key k ->
  match name_table_add junk s k with
  | None => id_count s = UINT_MAX
  | Some (s', p) => safe_shape tk s' /\ later_shape s s' /\ exists d, get_direct (se_names s') p = Some d /\ 0 <= id d < id_count s'
  end.
Proof.
  intros [Hg Hkey Hkeys Hlg] Hk. pose proof (ok_key_wf k Hk) as Hwf. pose proof Hg as [(rs & Hs & Hall) Hdef].
  destruct (Hall k Hwf) as [k' Htg]. pose proof Hs as (Hdone & (Hlt & _) & Hc).
  pose proof (name_table_add_ok junk rs s k k' Hs Hwf Htg) as Ha. destruct (direct_of (se_names s) k') as [p|] eqn:Ed.
  { rewrite Ha. split; [by constructor|]. split; [reflexivity|]. destruct (direct_of_direct _ _ _ Ed) as [d Hd].
    exists d. split; [exact Hd|]. by apply (Hlt p). }
  destruct (Z.eqb_spec (id_count s) UINT_MAX) as [E|E]; [by rewrite Ha|].
  destruct (add_name_ok junk _ s k Hg Hwf ltac:(lia)) as (s1 & p & d & Ea & Hg1 & Hgr & _ & Hd & Hid & Hcnt).
  destruct Ha as (s2 & p2 & Ea2 & Hadd). rewrite Ea in Ea2. injection Ea2 as <- <-. rewrite Ea.
  destruct Hadd as (_ & _ & _ & Hget & Hc' & _). pose proof Hgr as (Ek & _).
  split; [|split; [split; [exact Hgr|lia]|eauto]]. constructor; [exact Hg1|by rewrite Ek| |].
  - intros q x Hq. destruct (name_table_add_keys _ _ _ _ _ _ Ea Hq) as [Hq'| ->]; [eauto|].
    by rewrite name_key_copy_id.
  - intros q e. rewrite Hget, Ek. case_decide; [|apply Hlg]. intros [= <-]. apply tk_new.
Qed.

Lemma external_names_safe c n : forall l d names,
  data_safe (l_shapes l) d -> names_safe (l_shapes l) d names ->
  lsafe c l (external_names_loop junk junk_nstring n d names) c
    (fun r l' => data_safe (l_shapes l') r.1 /\ names_safe (l_shapes l') r.1 r.2 /\ sd_entry r.1 = sd_entry d).
Proof.
  induction n as [|n IH]; intros l d names Hd Hn; cbn [external_names_loop]; [by apply lsafe_ret|].
  apply lsafe_int. intros i l1 (_ & _ & E1) Hi. eapply lsafe_rd; [apply tdf_read_name_safe|]. intros k l2 (_ & _ & E2) Hk.
  destruct (Z.leb_spec (sd_num_ids d) i) as [|Hlt]; [apply rejects|]. rewrite <- E1, <- E2 in Hd, Hn. clear l l1 E1 E2.
  destruct Hd as (s & Es & El & Hsl). destruct Hn as (s0 & Es0 & Hn). rewrite Es in Es0. injection Es0 as <-.
  eapply lsafe_get_shape; [exact Es|]. apply lsafe_use. intros Hl.
  pose proof (sh_all _ _ (sl_shapes _ _ _ _ _ _ _ Hl) _ _ Es) as Hs. pose proof (add_name_safe _ s k Hs Hk) as Ha.
  apply lsafe_need_id.
  { intros E. rewrite E in Ha. exists s. split; [by eapply list_elem_of_lookup_2|exact Ha]. }
  intros [s1 p] E. rewrite E in Ha. destruct Ha as (Hs1 & Hl1 & e & Ee & Hid).
  eapply lsafe_put_shape; [exact Es|auto|].
  destruct (lookup_lt_is_Some_2 (sd_id_maps d) (Z.to_nat i)) as [v Ev]; [unfold is_unsigned in Hi; lia|].
  eapply lsafe_need; [exact Ev|]. destruct (negb _); [apply rejects|]. eapply lsafe_need; [exact Ee|].
  pose proof (set_shape_lookup (l_shapes l2) (sd_entry d) s1 s Es) as Es1.
  eapply lsafe_impl; [|apply (IH _ (ShapeData (sd_entry d) (sd_num_ids d) (<[Z.to_nat i := id e]> (sd_id_maps d))))];
    [by intros r l' _ H| |]; cbn [l_shapes with_shapes].
  - exists s1. split; [exact Es1|]. cbn [sd_id_maps sd_num_ids]. rewrite length_insert. split; [exact El|].
    apply Forall_insert; [|by right]. eapply Forall_impl; [|exact Hsl]. intros x. by apply slot_safe_later.
  - exists s1. split; [exact Es1|]. intros q Hq. apply elem_of_app in Hq as [Hq|Hq].
    + apply Hl1. by apply Hn.
    + apply list_elem_of_singleton in Hq as ->. congruence.
Qed.

Lemma external_names_shapes_safe c vec : forall l,
  Forall (data_safe (l_shapes l)) vec ->
  lsafe c l (external_names_shapes junk junk_nstring vec) c
    (fun r l' => vec_safe (l_shapes l') r.1 r.2 /\ sd_entry <$> r.1 = sd_entry <$> vec).
Proof.
  induction vec as [|d vec IH]; intros l Hv; cbn [external_names_shapes]; [apply lsafe_ret; split; [constructor|reflexivity]|].
  inversion Hv as [|? ? Hd Hv']; subst. eapply lsafe_bind.
  - apply lsafe_int. intros n l1 (_ & _ & E1) _. apply external_names_safe; rewrite E1; [exact Hd|].
    destruct Hd as (s & Es & _). exists s. split; [exact Es|]. intros p Hp. inversion Hp.
  - intros [d' names] l1 Hl1 (H1 & H2 & Ed). cbn [fst snd] in H1, H2, Ed. eapply lsafe_bind; [apply IH; by eapply Forall_data_later|].
    intros [vec' namess] l2 Hl2 [H3 Ev]. cbn [fst snd] in H3, Ev. apply lsafe_ret. cbn. rewrite Ed, Ev. split; [|reflexivity].
    constructor; [|exact H3].
    split; [by eapply data_safe_later|by eapply names_safe_later].
Qed.

Lemma read_external_names_safe c l vec :
  Forall (data_safe (l_shapes l)) vec ->
  lsafe c l (capsule_read_external_names junk junk_nstring vec) c
    (fun r l' => vec_safe (l_shapes l') r.1 r.2 /\ sd_entry <$> r.1 = sd_entry <$> vec).
Proof.
  intros Hv. apply lsafe_int. intros n l1 (_ & _ & E) _. destruct (negb _); [apply rejects|].
  apply external_names_shapes_safe. by rewrite E.
Qed.

(** ** Usages *)

Lemma use_range u b1 b2 : is_unsigned u -> bad_usage u b1 b2 = false -> 0 <= u < 16.
Proof.
  unfold bad_usage, is_unsigned. intros Hu H. apply orb_false_iff in H as [H _]. apply orb_false_iff in H as [H _].
  unfold has in H. apply negb_false_iff, Z.eqb_eq in H. change (u32 _) with 4294967280 in H.
  assert (Z.shiftr u 4 = 0) as Hs.
  { apply Z.bits_inj'. intros n Hn. rewrite Z.bits_0, Z.shiftr_spec by lia. apply (f_equal (fun x => Z.testbit x (n + 4))) in H.
    rewrite Z.land_spec, Z.bits_0 in H. destruct (Z.lt_ge_cases (n + 4) 32) as [Hlt|Hge].
    - change 4294967280 with (Z.shiftl (Z.ones 28) 4) in H. rewrite Z.shiftl_spec, Z.testbit_ones_nonneg in H by lia.
      rewrite (proj2 (Z.ltb_lt _ _)) in H by lia. by rewrite andb_true_r in H.
    - apply Z.bits_above_log2; [lia|]. destruct (Z.eq_dec u 0) as [->|Hne]; [cbn; lia|].
      assert (Z.log2 u < 32) by (apply Z.log2_lt_pow2; lia). lia. }
  rewrite Z.shiftr_div_pow2 in Hs by lia. change (2 ^ 4) with 16 in Hs. Z.div_mod_to_equations. lia.
Qed.

(** Legal usages together make one. *)
Lemma legal_lor_table :
  forallb (fun u => forallb (fun v => forallb (fun b1 => forallb (fun b2 =>
    bad_usage u b1 b2 || bad_usage v b1 b2 || negb (bad_usage (Z.lor u v) b1 b2)) [true; false]) [true; false])
    (seqZ 0 16)) (seqZ 0 16) = true.
Proof. vm_compute. reflexivity. Qed.

Lemma legal_lor u v b1 b2 :
  0 <= u < 16 -> 0 <= v < 16 -> bad_usage u b1 b2 = false -> bad_usage v b1 b2 = false -> bad_usage (Z.lor u v) b1 b2 = false.
Proof.
  intros Hu Hv H1 H2. pose proof legal_lor_table as T. rewrite forallb_forall in T.
  specialize (T u ltac:(apply list_elem_of_In, elem_of_seqZ; lia)). rewrite forallb_forall in T.
  specialize (T v ltac:(apply list_elem_of_In, elem_of_seqZ; lia)). rewrite forallb_forall in T.
  specialize (T b1 ltac:(destruct b1; cbn; auto)). rewrite forallb_forall in T.
  specialize (T b2 ltac:(destruct b2; cbn; auto)). rewrite H1, H2 in T. cbn in T. by apply negb_true_iff.
Qed.

Lemma get_use_lor d u : 0 <= u < 16 -> Z.land (Z.lor (use d) u) 15 = Z.lor (Z.land (use d) 15) u.
Proof.
  intros Hu. rewrite Z.land_lor_distr_l. f_equal. change 15 with (Z.ones 4). rewrite Z.land_ones by lia.
  apply Z.mod_small. change (2 ^ 4) with 16. lia.
Qed.

Lemma merge_usage_safe s p u :
  safe_shape tables s -> get_direct (se_names s) p <> None -> is_unsigned u ->
  bad_usage u (bool_decide (se_key s = tag_name)) (bool_decide (se_key s = token_name)) = false ->
  exists t again, merge_usage capsule (se_names s) p u = Some (t, again) /\ safe_shape tables (set_names s t) /\
    later_shape s (set_names s t).
Proof.
  intros Hs Hp Hu Hbad. destruct (get_direct (se_names s) p) as [d|] eqn:Ed; [|congruence].
  destruct (merge_usage_set capsule (se_names s) p u d Ed (proj2 (ss_good _ _ Hs) p d Ed)) as (t & again & d' & Em & Hset & Eid & Hd' & Eu & Hc).
  destruct (ss_legal _ _ Hs p d Ed) as [Hlg Hkn].
  exists t, again. split; [exact Em|]. apply (direct_set_safe tables s p d d'); auto. split; [hnf|].
  2: { intros c Ec. rewrite Eu. destruct Hc as [Hc|[Hc|[Hc Hm]]]; rewrite Hc in Ec; [by apply known_more, Hkn|discriminate|].
    injection Ec as <-. by apply known_new. } unfold get_use. rewrite Eu. change (Z.lor _ U_USED) with 15. pose proof (use_range u _ _ Hu Hbad).
  rewrite get_use_lor by lia. apply legal_lor; [apply (get_use_range d)|lia|exact Hlg|exact Hbad].
Qed.

Lemma read_usage_safe c e names : forall l nd nm s,
  st_entries (l_shapes l) !! e = Some s -> (forall p, p ∈ names -> get_direct (se_names s) p <> None) ->
  nd = bool_decide (se_key s = tag_name) -> nm = bool_decide (se_key s = token_name) ->
  lsafe c l (capsule_read_usage capsule e names nd nm) c (fun _ _ => True).
Proof.
  induction names as [|p names IH]; intros l nd nm s Es Hn -> ->; cbn [capsule_read_usage]; [by apply lsafe_ret|].
  apply lsafe_int. intros u l1 (_ & _ & E1) Hu. rewrite <- E1 in Es. eapply lsafe_get_shape; [exact Es|].
  destruct (bad_usage _ _ _) eqn:Hbad; [apply rejects|]. apply lsafe_use. intros Hl.
  pose proof (sh_all _ _ (sl_shapes _ _ _ _ _ _ _ Hl) _ _ Es) as Hs.
  destruct (merge_usage_safe s p u Hs (Hn p ltac:(left)) Hu Hbad) as (t & again & Em & Hs' & Hlt).
  eapply lsafe_need; [exact Em|]. cbn iota. apply lsafe_serious. intros l2 (_ & _ & E2). rewrite <- E2 in Es.
  eapply lsafe_put_shape; [exact Es|auto|]. eapply IH; [by eapply set_shape_lookup| |reflexivity|reflexivity].
  intros q Hq. apply Hlt, Hn. by right.
Qed.

(** The token and tag shapes of the capsule. *)
Lemma shape_index_lookup entry vec i : shape_index entry vec = Some i -> exists d, vec !! i = Some d /\ entry = Some (sd_entry d).
Proof.
  revert i. induction vec as [|d vec IH]; intros i; cbn; [discriminate|]. case_decide as E.
  - intros [= <-]. exists d. auto.
  - destruct (shape_index entry vec) as [j|]; [|discriminate]. intros [= <-]. by apply IH.
Qed.

Lemma named_shape t key d s :
  safe_shapes tables t -> wf_nstring key -> st_entries t !! sd_entry d = Some s ->
  shape_table_get t key = Some (sd_entry d) <-> se_key s = key.
Proof.
  intros Ht Hk Es. rewrite (shape_get_entry t key _ (gs_wf _ _ (sh_good _ _ Ht)) Hk). split.
  - intros (s' & Es' & <-). congruence.
  - eauto.
Qed.

Lemma token_wf : wf_nstring token_name.
Proof. apply (bool_decide_eq_true_1 _). reflexivity. Qed.

Lemma tag_wf : wf_nstring tag_name.
Proof. apply (bool_decide_eq_true_1 _). reflexivity. Qed.

Lemma cached_safe tk t t' :
  safe_shapes tk t -> good_shapes (tk_def tk) t' -> st_contents t' = st_contents t -> st_entries t' = st_entries t ->
  safe_shapes tk t' /\ later t t' /\ forall k, shape_table_get t' k = shape_table_get t k.
Proof.
  intros Ht Ht' Ec Ee. split; [|split].
  - constructor; [exact Ht'|]. rewrite Ee. apply (sh_all _ _ Ht).
  - intros p s Es. exists s. rewrite Ee. by split.
  - intros k. unfold shape_table_get. by rewrite Ec.
Qed.

Definition index_is (t : ShapeTableT) (key : NStringT) (vec : list ShapeDataT) (i : option nat) : Prop :=
  i = shape_index (shape_table_get t key) vec.

Lemma token_index_safe c l vec :
  lsafe c l (capsule_get_token_index vec) c
    (fun i l' => index_is (l_shapes l) token_name vec i /\ forall k, shape_table_get (l_shapes l') k = shape_table_get (l_shapes l) k).
Proof.
  unfold capsule_get_token_index. apply lsafe_get, lsafe_use. intros Hl. pose proof (sl_shapes _ _ _ _ _ _ _ Hl) as Ht.
  destruct (token_entry_ok _ _ (sh_good _ _ Ht)) as (t' & E & Ht' & Ec & Ee). rewrite E.
  destruct (cached_safe _ _ _ Ht Ht' Ec Ee) as (Hs & Hlt & Hg). apply lsafe_put_shapes; [auto|]. apply lsafe_ret. split; [reflexivity|exact Hg].
Qed.

Lemma tag_index_safe c l vec :
  lsafe c l (capsule_get_tag_index vec) c
    (fun i l' => index_is (l_shapes l) tag_name vec i /\ forall k, shape_table_get (l_shapes l') k = shape_table_get (l_shapes l) k).
Proof.
  unfold capsule_get_tag_index. apply lsafe_get, lsafe_use. intros Hl. pose proof (sl_shapes _ _ _ _ _ _ _ Hl) as Ht.
  destruct (tag_entry_ok _ _ (sh_good _ _ Ht)) as (t' & E & Ht' & Ec & Ee). rewrite E.
  destruct (cached_safe _ _ _ Ht Ht' Ec Ee) as (Hs & Hlt & Hg). apply lsafe_put_shapes; [auto|]. apply lsafe_ret. split; [reflexivity|exact Hg].
Qed.

Lemma flag_of (P : Prop) `{!Decision P} b : (P <-> b = true) -> b = bool_decide P.
Proof. intros H. case_bool_decide; [by apply H|]. destruct b; [|reflexivity]. tauto. Qed.

Lemma usage_at_safe c l vec namess key i nd nm :
  wf_nstring key -> index_is (l_shapes l) key vec i -> vec_safe (l_shapes l) vec namess ->
  nd = bool_decide (key = tag_name) -> nm = bool_decide (key = token_name) ->
  lsafe c l (read_usage_at capsule vec namess i nd nm) c (fun _ _ => True).
Proof.
  intros Hk Hi Hv -> ->. destruct i as [i|]; [|by apply lsafe_ret]. cbn [read_usage_at]. unfold index_is in Hi. symmetry in Hi.
  destruct (shape_index_lookup _ _ _ Hi) as (d & Ed & Hp). eapply lsafe_need; [exact Ed|].
  destruct (Forall2_lookup_l _ _ _ _ _ Hv Ed) as (names & En & (s & Es & _) & (s' & Es' & Hn)).
  rewrite Es in Es'. injection Es' as <-. eapply lsafe_need; [exact En|]. apply lsafe_use. intros Hl.
  pose proof (proj1 (named_shape _ key d s (sl_shapes _ _ _ _ _ _ _ Hl) Hk Es) Hp) as Ek.
  eapply read_usage_safe; [exact Es|exact Hn|by rewrite Ek|by rewrite Ek].
Qed.

Lemma read_type_0_safe c l vec namess :
  vec_safe (l_shapes l) vec namess ->
  lsafe c l (capsule_read_tld_type_0_unit capsule vec namess) c (fun _ _ => True).
Proof.
  intros Hv. unfold capsule_read_tld_type_0_unit. eapply lsafe_bind; [apply token_index_safe|]. intros i l1 H1 [Hi Hg].
  pose proof (vec_safe_later _ _ _ _ H1 Hv) as Hv1. eapply lsafe_bind.
  { apply (usage_at_safe _ _ _ _ token_name); [apply token_wf| |exact Hv1|reflexivity|reflexivity].
    unfold index_is in *. by rewrite Hg. }
  intros _ l2 H2 _. pose proof (vec_safe_later _ _ _ _ H2 Hv1) as Hv2. eapply lsafe_bind; [apply tag_index_safe|].
  intros j l3 H3 [Hj Hg3]. apply (usage_at_safe _ _ _ _ tag_name); [apply tag_wf| |by eapply vec_safe_later|reflexivity|reflexivity].
  unfold index_is in *. by rewrite Hg3.
Qed.

Lemma index_at t key vec done d s i :
  safe_shapes tables t -> wf_nstring key -> NoDup (sd_entry <$> done ++ d :: vec) ->
  index_is t key (done ++ d :: vec) i -> st_entries t !! sd_entry d = Some s ->
  bool_decide (Some (length done) = i) = bool_decide (se_key s = key).
Proof.
  intros Ht Hk Hnd -> Es. apply bool_decide_ext. rewrite (shape_index_iff _ _ _ d Hnd); [|apply list_lookup_middle; reflexivity].
  by apply named_shape.
Qed.

Lemma read_usages_safe c vec : forall l done namess t tag token,
  safe_shapes tables t -> later t (l_shapes l) -> NoDup (sd_entry <$> done ++ vec) ->
  (forall d, d ∈ vec -> data_safe t d) ->
  index_is t tag_name (done ++ vec) tag -> index_is t token_name (done ++ vec) token ->
  vec_safe (l_shapes l) vec namess ->
  lsafe c l (read_usages capsule vec namess (length done) tag token) c (fun _ _ => True).
Proof.
  induction vec as [|d vec IH]; intros l done namess t tag token Ht Hlt Hnd Hd Htag Htok Hv; inversion Hv as [|? names ? namess' [_ Hn] Hv']; subst;
    cbn [read_usages]; [by apply lsafe_ret|].
  destruct (Hd d ltac:(left)) as (s & Es & _). destruct Hn as (s' & Es' & Hn).
  assert (se_key s' = se_key s) as Ek.
  { destruct (Hlt _ _ Es) as (x & Ex & [[E _] _]). congruence. }
  eapply lsafe_bind.
  - eapply read_usage_safe; [exact Es'|exact Hn| |]; rewrite Ek; eapply index_at; eauto using tag_wf, token_wf.
  - intros _ l1 H1 _. replace (S (length done)) with (length (done ++ [d])) by (rewrite length_app; cbn; lia).
    apply (IH _ _ _ t); rewrite <- ?app_assoc; auto.
    + by transitivity (l_shapes l).
    + intros x Hx. apply Hd. by right.
    + by eapply vec_safe_later.
Qed.

Lemma vec_data t vec namess d : vec_safe t vec namess -> d ∈ vec -> data_safe t d.
Proof.
  intros Hv Hd. apply list_elem_of_lookup in Hd as [i Hi]. by destruct (Forall2_lookup_l _ _ _ _ _ Hv Hi) as (names & _ & H & _).
Qed.

Lemma read_type_1_safe c l vec namess :
  vec_safe (l_shapes l) vec namess -> NoDup (sd_entry <$> vec) ->
  lsafe c l (capsule_read_tld_type_1_unit capsule vec namess) c (fun _ _ => True).
Proof.
  intros Hv Hnd. unfold capsule_read_tld_type_1_unit. eapply lsafe_bind; [apply token_index_safe|]. intros token l1 H1 [Htok Hg].
  pose proof (vec_safe_later _ _ _ _ H1 Hv) as Hv1. eapply lsafe_bind; [apply tag_index_safe|]. intros tag l2 H2 [Htag Hg2].
  pose proof (vec_safe_later _ _ _ _ H2 Hv1) as Hv2. apply lsafe_use. intros Hl.
  apply (read_usages_safe _ _ _ [] _ (l_shapes l2)); auto.
  - apply (sl_shapes _ _ _ _ _ _ _ Hl).
  - reflexivity.
  - intros d. by apply vec_data with namess.
  - unfold index_is in *. cbn [app]. by rewrite Hg2.
  - unfold index_is in *. cbn [app]. by rewrite Hg2, Hg.
Qed.

Lemma tld_header_safe c l : lsafe c l capsule_read_tld_unit_header c (fun _ l' => same_tables l l').
Proof.
  unfold capsule_read_tld_unit_header. apply lsafe_int. intros n1 l1 S1 _. destruct (negb _); [apply rejects|].
  apply lsafe_int. intros n2 l2 S2 _. destruct (negb _); [apply rejects|].
  apply lsafe_int. intros n3 l3 S3 _. destruct (negb _); [apply rejects|].
  apply lsafe_int. intros n4 l4 S4 _. eapply lsafe_rd; [apply tdf_read_align_safe|]. intros _ l5 S5 _.
  apply lsafe_get, lsafe_ret. unfold same_tables in *. intuition congruence.
Qed.

Lemma tld_trailer_safe c l n o : lsafe c l (capsule_read_tld_unit_trailer n o) c (fun _ _ => True).
Proof.
  unfold capsule_read_tld_unit_trailer. apply lsafe_get. cbn zeta. eapply lsafe_rd; [apply tdf_read_align_safe|]. intros _ l1 _ _.
  destruct (negb _); [apply rejects|by apply lsafe_ret].
Qed.

Lemma same_tables_safe l l' vec namess :
  same_tables l l' -> vec_safe (l_shapes l) vec namess -> vec_safe (l_shapes l') vec namess.
Proof. by intros (_ & _ & ->). Qed.

Lemma read_tld_units_safe c l vec namess :
  vec_safe (l_shapes l) vec namess -> NoDup (sd_entry <$> vec) ->
  lsafe c l (capsule_read_tld_units capsule vec namess) c (fun _ _ => True).
Proof.
  intros Hv Hnd. unfold capsule_read_tld_units. eapply lsafe_bind; [apply tld_header_safe|]. intros [n o] l1 _ S1.
  apply lsafe_int. intros ty l2 S2 _. pose proof (same_tables_safe _ _ _ _ S2 (same_tables_safe _ _ _ _ S1 Hv)) as Hv2.
  eapply lsafe_bind; [|intros _ l3 _ _; apply tld_trailer_safe].
  destruct (ty =? 0); [by apply read_type_0_safe|]. destruct (ty =? 1); [by apply read_type_1_safe|apply rejects].
Qed.

Lemma read_tld2_units_safe c l vec namess :
  vec_safe (l_shapes l) vec namess -> lsafe c l (capsule_read_tld2_units capsule vec namess) c (fun _ _ => True).
Proof.
  intros Hv. unfold capsule_read_tld2_units. eapply lsafe_bind; [apply tld_header_safe|]. intros [n o] l1 _ S1.
  eapply lsafe_bind; [|intros _ l3 _ _; apply tld_trailer_safe]. apply read_type_0_safe. by apply (same_tables_safe l).
Qed.

(** ** Units *)

(** The entry of a map table for a shape of the capsule. *)
Definition entry_for_data (t : ShapeTableT) (d : ShapeDataT) (e : MapEntryT) : Prop :=
  exists s, st_entries t !! sd_entry d = Some s /\ me_key e = se_key s.

Lemma entry_for_later t t' d e : later t t' -> entry_for_data t d e -> entry_for_data t' d e.
Proof.
  intros H (s & Es & Ek). destruct (H _ _ Es) as (s' & Es' & [[Ek' _] _]). exists s'. split; [exact Es'|congruence].
Qed.

Lemma entry_for_has_shape t d e : entry_for_data t d e -> has_shape t (me_key e).
Proof. intros (s & Es & Ek). exists (sd_entry d), s. auto. Qed.

Lemma entry_legal_later t t' d e :
  safe_shapes tables t' -> later t t' -> entry_for_data t d e -> entry_legal t e -> entry_legal t' e.
Proof.
  intros Ht' H Hd Hl. eapply Forall_impl; [|exact Hl]. intros k. apply (link_legal_later tables t); auto. by eapply entry_for_has_shape.
Qed.

(** The unit [u], with the map table [mt], is the one being read. *)
Definition reading (p i : nat) (u : UnitT) (l : LinkT) (mt : MapTableT) : Prop :=
  unit_of (l_units l) p i = Some (map_with u mt).

Lemma reading_same p i u l l' mt : l_units l' = l_units l -> reading p i u l mt -> reading p i u l' mt.
Proof. unfold reading. by intros ->. Qed.

Lemma reading_map c p i u l mt : safe_link c l -> reading p i u l mt -> safe_map (l_shapes l) mt.
Proof. intros Hl Hu. by destruct (su_units _ _ _ _ _ _ (sl_units _ _ _ _ _ _ _ Hl I) _ _ _ Hu) as [_ Hm]. Qed.

(** A change of the map table of the unit. *)
Lemma lsafe_update_map {A} c l p i u mt mt' f (k : unit -> link A) c' Q :
  reading p i u l mt -> f mt = Some mt' ->
  (safe_shapes tables (l_shapes l) -> safe_map (l_shapes l) mt -> safe_map (l_shapes l) mt') ->
  (forall l', l_shapes l' = l_shapes l -> reading p i u l' mt' -> lsafe ((p, i) :: c) l' (k tt) c' Q) ->
  lsafe ((p, i) :: c) l (update_unit p i (update_map f) ≫= k) c' Q.
Proof.
  intros Hu Ef Hm Hk. eapply (lsafe_update_unit tables device ps tld tld2 _ _ _ _ _ _ (map_with u mt') _ ((p, i) :: c)); [exact I|exact Hu| | |auto|].
  - unfold update_map. cbn. by rewrite Ef.
  - intros Ht [Hc Hmt]. split; [|left; left]. split; [exact Hc|]. cbn in *. by apply Hm.
  - apply Hk; [reflexivity|]. unfold reading. cbn. by eapply unit_of_set.
Qed.

Lemma unit_counts_safe c p i u vec : forall l mt,
  Forall (data_safe (l_shapes l)) vec -> reading p i u l mt ->
  lsafe ((p, i) :: c) l (unit_counts_loop junk p i vec) ((p, i) :: c)
    (fun _ l' => exists es, reading p i u l' (MapTable (mt_contents es) (mt_entries mt ++ mt_entries es)) /\
       Forall2 (entry_for_data (l_shapes l')) vec (mt_entries es) /\ Forall (fun e => links e = []) (mt_entries es)).
Proof.
  induction vec as [|d vec IH]; intros l mt Hv Hu; cbn [unit_counts_loop].
  { apply lsafe_ret. exists (MapTable (mt_contents mt) []). cbn. rewrite app_nil_r. destruct mt. by split_and!. }
  inversion Hv as [|? ? Hd Hv']; subst. apply lsafe_int. intros n l1 (_ & E1 & E2) Hn. rewrite <- E2 in Hd, Hv'.
  apply (reading_same _ _ _ _ l1 _ E1) in Hu. destruct Hd as (s & Es & _). eapply lsafe_get_shape; [exact Es|].
  apply lsafe_use. intros Hl. pose proof (ss_key _ _ (sh_all _ _ (sl_shapes _ _ _ _ _ _ _ Hl) _ _ Es)) as [Hk _].
  destruct (map_add_safe junk (l_shapes l1) mt (se_key s) n (reading_map _ _ _ _ _ _ Hl Hu) Hk ltac:(by exists (sd_entry d), s) Hn) as [Hm Ee].
  eapply lsafe_update_map; [exact Hu|reflexivity|auto|]. intros l2 E3 Hu2. rewrite <- E3 in Hv', Es.
  eapply lsafe_impl; [|by apply IH]. intros [] l3 Hlt (es & H1 & H2 & H3). rewrite Ee, <- app_assoc in H1. cbn [app] in H1.
  exists (MapTable (mt_contents es) (MapEntry (se_key s) n 0 [] :: mt_entries es)). cbn [mt_contents mt_entries].
  split; [exact H1|]. split; [|by constructor]. constructor; [|exact H2].
  eapply entry_for_later; [exact Hlt|]. by exists s.
Qed.

(** The slot of an external identifier, which is filled if it is empty. *)
Lemma slot_fill_safe {A} c l d ext (k : ShapeDataT -> link A) c' Q :
  data_safe (l_shapes l) d -> is_unsigned ext -> ext < sd_num_ids d ->
  (forall l' d' s v, l_units l' = l_units l -> later (l_shapes l) (l_shapes l') ->
     st_entries (l_shapes l') !! sd_entry d' = Some s -> data_safe (l_shapes l') d' -> sd_entry d' = sd_entry d ->
     sd_id_maps d' !! Z.to_nat ext = Some v -> 0 <= v < id_count s -> lsafe c l' (k d') c' Q) ->
  lsafe c l (old ← need (sd_id_maps d !! Z.to_nat ext);
             d ← (if old =? UINT_MAX then
                    s ← get_shape (sd_entry d);
                    '(id, s) ← need (shape_entry_next_id s);
                    _ ← put_shape (sd_entry d) s;
                    mret (ShapeData (sd_entry d) (sd_num_ids d) (<[Z.to_nat ext := id]> (sd_id_maps d)))
                  else mret d);
             k d) c' Q.
Proof.
  intros (s & Es & El & Hsl) Hu Hext Hk.
  destruct (lookup_lt_is_Some_2 (sd_id_maps d) (Z.to_nat ext)) as [v Ev]; [unfold is_unsigned in Hu; lia|].
  eapply lsafe_need; [exact Ev|]. pose proof (Forall_lookup_1 _ _ _ _ Hsl Ev) as Hv.
  destruct (Z.eqb_spec v UINT_MAX) as [->|Hne].
  2: { apply (Hk l d s v); auto; [reflexivity|by exists s|]. by destruct Hv. }
  eapply (lsafe_bind tables device ps tld tld2 c l _ c (fun d' l' => l_units l' = l_units l /\ later (l_shapes l) (l_shapes l') /\
    exists s', st_entries (l_shapes l') !! sd_entry d = Some s' /\ later_shape s s' /\ 0 <= id_count s < id_count s' /\
      d' = ShapeData (sd_entry d) (sd_num_ids d) (<[Z.to_nat ext := id_count s]> (sd_id_maps d)))).
  - eapply lsafe_get_shape; [exact Es|]. apply lsafe_use. intros Hl.
    pose proof (sh_all _ _ (sl_shapes _ _ _ _ _ _ _ Hl) _ _ Es) as Hs. apply lsafe_need_id.
    { unfold shape_entry_next_id. destruct (Z.eqb_spec (id_count s) UINT_MAX) as [E|]; [|discriminate]. intros _.
      exists s. split; [by eapply list_elem_of_lookup_2|exact E]. }
    intros [j s1]. unfold shape_entry_next_id at 1. destruct (Z.eqb_spec (id_count s) UINT_MAX) as [|E]; [discriminate|].
    pose proof (ss_good _ _ Hs) as [(rs & (_ & _ & Hc) & _) _].
    destruct (good_next_id _ s (ss_good _ _ Hs) ltac:(lia)) as (s2 & E2 & Hg2 & En & Ek & Ec).
    unfold shape_entry_next_id in E2. rewrite (proj2 (Z.eqb_neq _ _) E) in E2. injection E2 as E2. intros [= <- <-]. rewrite E2.
    assert (later_shape s s2) as Hls.
    { split; [|lia]. split; [exact Ek|]. rewrite En. split; [auto|]. intros; eauto. }
    eapply lsafe_put_shape; [exact Es| |].
    + intros _. split; [|exact Hls]. destruct Hs as [_ H2 H3 H4]. constructor; [exact Hg2|by rewrite Ek|by rewrite En|].
      unfold names_legal. by rewrite En, Ek.
    + apply lsafe_ret. cbn [l_units l_shapes with_shapes]. split; [reflexivity|]. split; [by eapply set_shape_later|].
      exists s2. split; [by eapply set_shape_lookup|]. split; [exact Hls|]. split; [lia|reflexivity].
  - intros d' l' _ (Eu & Hlt & s' & Es' & Hls & Hid & ->).
    apply (Hk l' _ s' (id_count s)); auto.
    + exists s'. split; [exact Es'|]. cbn [sd_id_maps sd_num_ids]. rewrite length_insert. split; [exact El|].
      apply Forall_insert; [|by right]. eapply Forall_impl; [|exact Hsl]. intros x. by apply slot_safe_later.
    + cbn. apply list_lookup_insert_eq. by eapply lookup_lt_Some.
Qed.

(** The entry [m] of the table changes to [e]. *)
Definition entry_set (m : nat) (e : MapEntryT) (mt mt' : MapTableT) : Prop :=
  length (mt_entries mt') = length (mt_entries mt) /\ mt_entries mt' !! m = Some e /\
  forall x, x <> m -> mt_entries mt' !! x = mt_entries mt !! x.

Lemma set_map_entry_set m e e0 mt : mt_entries mt !! m = Some e0 -> entry_set m e mt (set_map_entry m e mt).
Proof.
  intros E. split; [apply length_insert|]. split; [apply list_lookup_insert_eq; by eapply lookup_lt_Some|].
  intros x Hx. by apply list_lookup_insert_ne.
Qed.

Lemma entry_set_trans m e1 e2 mt mt1 mt2 : entry_set m e1 mt mt1 -> entry_set m e2 mt1 mt2 -> entry_set m e2 mt mt2.
Proof. intros (L1 & _ & O1) (L2 & E2 & O2). split; [congruence|]. split; [exact E2|]. intros x Hx. by rewrite O2, O1. Qed.

(** The first [j] links are made. *)
Definition links_made (t : ShapeTableT) (d : ShapeDataT) (j : nat) (e : MapEntryT) : Prop :=
  entry_for_data t d e /\ ok_map_entry e /\ (j <= length (links e))%nat /\
  forall x k, (x < j)%nat -> links e !! x = Some k -> link_legal t (me_key e) k.

Lemma links_made_later t t' d j e :
  safe_shapes tables t' -> later t t' -> links_made t d j e -> links_made t' d j e.
Proof.
  intros Ht' H (Hd & Ho & Hj & Hl). split_and!; auto; [by eapply entry_for_later|].
  intros x k Hx Hk. apply (link_legal_later tables t t'); auto; [by eapply entry_for_has_shape|eauto].
Qed.

Lemma links_made_legal t d e : links_made t d (length (links e)) e -> entry_legal t e.
Proof.
  intros (_ & _ & _ & Hl). apply Forall_forall. intros k Hk%list_elem_of_In. apply list_elem_of_lookup in Hk as [x Hx].
  apply (Hl x); [by eapply lookup_lt_Some|exact Hx].
Qed.

Lemma links_made_step t d j e s v n :
  safe_shapes tables t -> st_entries t !! sd_entry d = Some s -> 0 <= v < id_count s -> is_unsigned n -> (j < length (links e))%nat ->
  links_made t d j e -> links_made t d (S j) (MapEntry (me_key e) (count e) (num_links e) (<[j := MapLink n v]> (links e))).
Proof.
  intros Ht Es Hv Hn Hj ((s0 & Es0 & Ek) & (H1 & H2 & H3 & H4) & _ & Hl). rewrite Es in Es0. injection Es0 as <-.
  pose proof (ss_good _ _ (sh_all _ _ Ht _ _ Es)) as [(rs & (_ & _ & Hc) & _) _].
  unfold links_made, ok_map_entry. cbn [me_key count num_links links]. rewrite length_insert. split_and!; auto; try lia.
  - by exists s.
  - apply Forall_insert; [exact H4|]. split; [exact Hn|]. cbn. unfold is_unsigned, UINT_MAX, UINT_BITS in *. lia.
  - intros x k Hx Hk. destruct (decide (x = j)) as [->|Hne].
    + rewrite list_lookup_insert_eq in Hk by exact Hj. injection Hk as <-. intros q s' Es' Ek'. cbn.
      assert (sd_entry d = q) as <- by (eapply shape_unique; eauto; congruence). assert (s' = s) as -> by congruence. lia.
    + rewrite list_lookup_insert_ne in Hk by congruence. apply (Hl x); [lia|exact Hk].
Qed.

Lemma unit_links_safe c p i u m n : forall l d mt e j,
  data_safe (l_shapes l) d -> reading p i u l mt -> mt_entries mt !! m = Some e ->
  links_made (l_shapes l) d j e -> length (links e) = (j + n)%nat ->
  lsafe ((p, i) :: c) l (unit_links_loop n (Z.of_nat j) p i m d) ((p, i) :: c)
    (fun d' l' => data_safe (l_shapes l') d' /\ sd_entry d' = sd_entry d /\
       exists mt' e', reading p i u l' mt' /\ entry_set m e' mt mt' /\ me_key e' = me_key e /\ entry_legal (l_shapes l') e').
Proof.
  induction n as [|n IH]; intros l d mt e j Hd Hu Ee Hj Hlen; cbn [unit_links_loop].
  { apply lsafe_ret. split; [exact Hd|]. split; [reflexivity|]. exists mt, e. split; [exact Hu|].
    split; [by split_and!|]. split; [reflexivity|]. eapply links_made_legal. rewrite Hlen, Nat.add_0_r. exact Hj. }
  apply lsafe_int. intros int l1 (_ & E1 & S1) Hint. apply lsafe_int. intros ext l2 (_ & E2 & S2) Hext.
  destruct (Z.leb_spec (sd_num_ids d) ext) as [|Hlt]; [apply rejects|].
  rewrite <- S1, <- S2 in Hd, Hj. apply (reading_same _ _ _ _ l1 _ E1), (reading_same _ _ _ _ l2 _ E2) in Hu.
  apply slot_fill_safe; [exact Hd|exact Hext|exact Hlt|]. intros l3 d' s v E3 Hlt3 Es Hd' Ed Ev Hv.
  apply (reading_same _ _ _ _ l3 _ E3) in Hu. eapply lsafe_need; [exact Ev|]. apply lsafe_use. intros Hl.
  pose proof (sl_shapes _ _ _ _ _ _ _ Hl) as Ht. pose proof (links_made_later _ _ _ _ _ Ht Hlt3 Hj) as Hj3.
  assert (links_made (l_shapes l3) d' j e) as Hj' by (destruct Hj3 as ((x & Hx) & Hr); split; [exists x; by rewrite Ed|exact Hr]).
  pose proof (links_made_step (l_shapes l3) d' j e s v int Ht Es Hv Hint ltac:(lia) Hj') as Hmade.
  set (e' := MapEntry _ _ _ _) in Hmade. pose proof Hj as (_ & (_ & _ & Hnum & _) & _).
  assert (update_map_entry m (fun e => map_entry_set_link e (Z.of_nat j) int v) mt = Some (set_map_entry m e' mt)) as Ef.
  { unfold update_map_entry, map_entry_set_link. rewrite Ee. cbn [mbind option_bind].
    rewrite (proj2 (Z.ltb_lt _ _)), Nat2Z.id by lia. reflexivity. }
  eapply lsafe_update_map; [exact Hu|exact Ef| |].
  { intros _ Hm. eapply set_map_entry_safe; [exact Hm|exact Ee|reflexivity|apply Hmade]. }
  intros l4 S4 Hu4. pose proof (set_map_entry_set m e' e mt Ee) as Hset.
  replace (Z.of_nat j + 1) with (Z.of_nat (S j)) by lia.
  eapply lsafe_impl; [|apply (IH l4 d' (set_map_entry m e' mt) e' (S j)); rewrite ?S4; auto].
  - intros d2 l5 _ (H1 & H2 & mt' & e2 & H3 & H4 & H5 & H6). split; [exact H1|]. split; [congruence|].
    exists mt', e2. split; [exact H3|]. split; [by eapply entry_set_trans|]. auto.
  - apply Hset.
  - cbn. rewrite length_insert. lia.
Qed.

(** The links of the first [m] shapes are made. *)
Definition maps_made (t : ShapeTableT) (vec : list ShapeDataT) (m : nat) (mt : MapTableT) : Prop :=
  Forall2 (entry_for_data t) vec (mt_entries mt) /\
  forall x e, (x < m)%nat -> mt_entries mt !! x = Some e -> entry_legal t e.

Lemma maps_made_later t t' vec m mt : safe_shapes tables t' -> later t t' -> maps_made t vec m mt -> maps_made t' vec m mt.
Proof.
  intros Ht' H [Hf Hl]. split; [eapply Forall2_impl; [|exact Hf]; intros d e; by apply entry_for_later|].
  intros x e Hx Ee. destruct (Forall2_lookup_r _ _ _ _ _ Hf Ee) as (d & _ & Hd). eapply entry_legal_later; eauto.
Qed.

Lemma maps_made_set t vec m mt mt' e e' :
  maps_made t vec m mt -> mt_entries mt !! m = Some e -> entry_set m e' mt mt' -> me_key e' = me_key e ->
  maps_made t vec m mt' /\ (entry_legal t e' -> maps_made t vec (S m) mt').
Proof.
  intros [Hf Hl] Ee (Elen & Ee' & Ho) Ek.
  assert (Forall2 (entry_for_data t) vec (mt_entries mt')) as Hf'.
  { apply Forall2_same_length_lookup_2; [rewrite Elen; by eapply Forall2_length|]. intros x d y Hd Hy.
    destruct (decide (x = m)) as [->|Hne].
    - assert (y = e') as -> by congruence. destruct (Forall2_lookup_lr _ _ _ _ _ _ Hf Hd Ee) as (s & Es & Eks). exists s. split; [exact Es|congruence].
    - rewrite Ho in Hy by exact Hne. by apply (Forall2_lookup_lr _ _ _ _ _ _ Hf Hd Hy). }
  split; [split; [exact Hf'|]|intros Hlg; split; [exact Hf'|]]; intros x y Hx Hy.
  - rewrite Ho in Hy by lia. by apply (Hl x).
  - destruct (decide (x = m)) as [->|Hne]; [congruence|]. rewrite Ho in Hy by exact Hne. apply (Hl x); [lia|exact Hy].
Qed.

Lemma no_links_made t d e n :
  entry_for_data t d e -> ok_map_entry e -> is_unsigned n -> links_made t d 0 (map_entry_set_num_links e n).
Proof.
  intros Hd (H1 & _) Hn. split; [exact Hd|]. split; [|split; [lia|intros x k Hx; lia]].
  unfold ok_map_entry. cbn. rewrite length_replicate. unfold is_unsigned in *. split_and!; auto; try lia.
  apply Forall_replicate. split; unfold is_unsigned; cbn; lia.
Qed.

Lemma unit_maps_safe c p i u vec : forall l done mt,
  Forall (data_safe (l_shapes l)) vec -> reading p i u l mt -> maps_made (l_shapes l) (done ++ vec) (length done) mt ->
  lsafe ((p, i) :: c) l (unit_maps_loop p i (length done) vec) ((p, i) :: c)
    (fun vec' l' => Forall (data_safe (l_shapes l')) vec' /\ sd_entry <$> vec' = sd_entry <$> vec /\
       exists mt', reading p i u l' mt' /\ map_legal (l_shapes l') mt').
Proof.
  induction vec as [|d vec IH]; intros l done mt Hv Hu Hmade; cbn [unit_maps_loop].
  { apply lsafe_ret. split; [constructor|]. split; [reflexivity|]. exists mt. split; [exact Hu|].
    destruct Hmade as [Hf Hl]. rewrite app_nil_r in Hf. apply Forall_lookup. intros x e Ee. apply (Hl x); [|exact Ee].
    rewrite (Forall2_length Hf). by eapply lookup_lt_Some. }
  inversion Hv as [|? ? Hd Hv']; subst. apply lsafe_int. intros n l1 (_ & E1 & S1) Hn. rewrite <- S1 in Hd, Hv', Hmade.
  apply (reading_same _ _ _ _ l1 _ E1) in Hu. apply lsafe_use. intros Hl.
  assert ((done ++ d :: vec) !! length done = Some d) as Ed by (by apply list_lookup_middle).
  destruct (Forall2_lookup_l _ _ _ _ _ (proj1 Hmade) Ed) as (e & Ee & He).
  pose proof (Forall_lookup_1 _ _ _ _ (sm_entries _ _ (reading_map _ _ _ _ _ _ Hl Hu)) Ee) as Hok.
  set (e1 := map_entry_set_num_links e n). pose proof (no_links_made _ _ _ n He Hok Hn) as H1. fold e1 in H1.
  eapply (lsafe_update_map _ _ _ _ _ _ (set_map_entry (length done) e1 mt)); [exact Hu|unfold update_map_entry; by rewrite Ee| |].
  { intros _ Hm. eapply set_map_entry_safe; [exact Hm|exact Ee|reflexivity|apply H1]. }
  intros l2 S2 Hu2. pose proof (set_map_entry_set (length done) e1 e mt Ee) as Hset.
  destruct (maps_made_set _ _ _ _ _ e e1 Hmade Ee Hset eq_refl) as [Hmade2 _]. rewrite <- S2 in Hd, Hv', Hmade2, H1.
  eapply lsafe_bind.
  { apply (unit_links_safe c p i u (length done) (Z.to_nat n) l2 d (set_map_entry (length done) e1 mt) e1 0); [exact Hd|exact Hu2|apply Hset|exact H1|].
    cbn. by rewrite length_replicate. }
  intros d' l3 H3 (Hd' & Ed' & mt3 & e3 & Hu3 & Hset3 & Ek3 & Hlg3). apply lsafe_use. intros Hl3.
  pose proof (maps_made_later _ _ _ _ _ (sl_shapes _ _ _ _ _ _ _ Hl3) H3 Hmade2) as Hmade3.
  destruct (maps_made_set _ _ _ _ _ e1 e3 Hmade3 ltac:(apply Hset) Hset3 Ek3) as [_ Hnext].
  eapply lsafe_bind.
  { replace (S (length done)) with (length (done ++ [d])) by (rewrite length_app; cbn; lia).
    apply (IH l3 _ mt3); [by eapply Forall_data_later|exact Hu3|]. rewrite <- app_assoc, length_app. cbn. rewrite Nat.add_1_r. by apply Hnext. }
  intros vec' l4 H4 (Hv4 & Ev & Hm4). apply lsafe_ret. split; [|split; [|exact Hm4]].
  - constructor; [by eapply data_safe_later|exact Hv4].
  - cbn. by rewrite Ed', Ev.
Qed.

(** *** A whole unit *)

Definition unit_read (p i : nat) (vec : list ShapeDataT) (vec' : list ShapeDataT) (l : LinkT) : Prop :=
  Forall (data_safe (l_shapes l)) vec' /\ sd_entry <$> vec' = sd_entry <$> vec /\
  exists u, unit_of (l_units l) p i = Some u /\ unit_legal (l_shapes l) u.

Lemma read_maps_safe c p i vec num_counts l :
  unit_of (l_units l) p i = Some (UnitOf (if negb (num_counts =? 0) then Some map_table_create else None) nstring_init) ->
  Forall (data_safe (l_shapes l)) vec ->
  lsafe ((p, i) :: c) l
    (_ ← capsule_read_unit_counts junk vec num_counts p i; capsule_read_unit_maps num_counts vec p i)
    ((p, i) :: c) (unit_read p i vec).
Proof.
  intros Hu Hv. unfold capsule_read_unit_counts, capsule_read_unit_maps. destruct (Z.eqb_spec num_counts 0) as [->|Hn]; cbn [negb andb] in *.
  - change ((_ ← mret tt; ?m)) with (m). apply lsafe_int. intros n l1 (_ & E1 & S1) _.
    destruct (Z.eqb_spec n 0) as [->|]; cbn [negb]; [|apply rejects]. cbn. apply lsafe_ret. split; [by rewrite S1|].
    split; [reflexivity|]. rewrite E1. eexists. split; [exact Hu|exact I].
  - destruct (negb _); [apply rejects_bind|].
    set (u := UnitOf (Some map_table_create) nstring_init) in *.
    eapply lsafe_bind; [apply (unit_counts_safe c p i u vec l map_table_create Hv Hu)|].
    intros _ l1 H1 (es & Hu1 & Hf1 & Hnil). cbn [mt_entries map_table_create app] in Hu1.
    pose proof (Forall_data_later _ _ _ H1 Hv) as Hv1.
    apply lsafe_int. intros n l2 (_ & E2 & S2) _. destruct (negb _); [apply rejects|].
    apply (reading_same _ _ _ _ l2 _ E2) in Hu1. rewrite <- S2 in Hv1, Hf1.
    assert (forall v, Forall (data_safe (l_shapes l2)) vec -> v = MapTable (mt_contents es) (mt_entries es) ->
      map_legal (l_shapes l2) v) as Hlg.
    { intros v _ ->. eapply Forall_impl; [|exact Hnil]. intros e Ee. unfold entry_legal. rewrite Ee. constructor. }
    destruct (n =? 0).
    + apply lsafe_ret. split; [exact Hv1|]. split; [reflexivity|]. eexists. split; [exact Hu1|]. by apply Hlg.
    + eapply lsafe_impl; [|apply (unit_maps_safe c p i u vec l2 [] _ Hv1 Hu1)].
      * intros vec' l3 _ (H3 & H4 & mt & H5 & H6). split; [exact H3|]. split; [exact H4|]. eexists. split; [exact H5|exact H6].
      * split; [exact Hf1|]. intros x e Hx. cbn in Hx. lia.
Qed.

Definition same_data (vec : list ShapeDataT) (vec' : list ShapeDataT) (l : LinkT) : Prop :=
  Forall (data_safe (l_shapes l)) vec' /\ sd_entry <$> vec' = sd_entry <$> vec.

Lemma capsule_read_unit_safe c l vec p :
  p ∈ ps -> p <> tld -> Some p <> tld2 -> Forall (data_safe (l_shapes l)) vec ->
  lsafe c l (capsule_read_unit junk vec p) c (same_data vec).
Proof.
  intros Hp Hne Hne2 Hv. unfold capsule_read_unit. apply lsafe_int. intros n l1 (_ & _ & S1) Hn. apply lsafe_use. intros Hl.
  destruct (su_entries _ _ _ _ _ _ (sl_units _ _ _ _ _ _ _ Hl I) p Hp) as (e & Ee & _).
  assert (forall A (k : UnitEntryT -> link A) c' Q, lsafe c l1 (k e) c' Q -> lsafe c l1 (get_unit_entry p ≫= k) c' Q) as Hget.
  { intros A k c' Q H. unfold get_unit_entry, TldSafeState.lsafe, mbind, stM_bind, st_get, need. cbn. rewrite Ee. exact H. }
  apply Hget. cbn zeta. apply (lsafe_add_unit _ _ _ _ _ _ _ _ e); [exact I|exact Ee|exact Hne|exact Hne2|]. set (i := length (ue_units e)).
  set (l2 := with_units _ l1). apply lsafe_assoc. eapply lsafe_bind.
  { apply read_maps_safe; [cbn; by apply added_unit_of|]. cbn. by rewrite S1. }
  intros vec' l3 _ (Hv3 & Ev & u & Hu & Hlg). apply lsafe_int. intros size l4 (_ & E4 & S4) Hsize.
  eapply lsafe_rd; [by apply read_length_safe|]. intros bytes l5 (_ & E5 & S5) Hb.
  rewrite <- E4, <- E5 in Hu. rewrite <- S4, <- S5 in Hlg, Hv3.
  eapply (lsafe_update_unit tables device ps tld tld2 _ _ _ _ _ _ (unit_set_contents u bytes) _ c); [exact I|exact Hu|reflexivity| |auto|].
  - intros _ [_ Hm]. split; [split; [exact Hb|exact Hm]|]. right. exact Hlg.
  - apply lsafe_ret. by split.
Qed.

Lemma same_data_trans vec1 vec2 vec3 l : sd_entry <$> vec2 = sd_entry <$> vec1 -> same_data vec2 vec3 l -> same_data vec1 vec3 l.
Proof. intros E [H1 H2]. split; [exact H1|congruence]. Qed.

Lemma read_units_safe c n : forall l vec p,
  p ∈ ps -> p <> tld -> Some p <> tld2 -> Forall (data_safe (l_shapes l)) vec ->
  lsafe c l (read_units_loop junk n vec p) c (same_data vec).
Proof.
  induction n as [|n IH]; intros l vec p Hp Hne Hne2 Hv; cbn [read_units_loop]; [by apply lsafe_ret|].
  eapply lsafe_bind; [by apply capsule_read_unit_safe|]. intros vec' l1 _ [Hv1 Ev].
  eapply lsafe_impl; [|by apply IH]. intros vec2 l2 _. by apply same_data_trans.
Qed.

Lemma vec_safe_data t vec vec' namess :
  sd_entry <$> vec' = sd_entry <$> vec -> Forall (data_safe t) vec' -> vec_safe t vec namess -> vec_safe t vec' namess.
Proof.
  intros E Hd Hv. apply Forall2_same_length_lookup_2.
  - rewrite <- (Forall2_length Hv), <- (length_fmap sd_entry vec'), E. apply length_fmap.
  - intros i d' names Hi Hn. split; [exact (Forall_lookup_1 _ _ _ _ Hd Hi)|].
    destruct (Forall2_lookup_r _ _ _ _ _ Hv Hn) as (d & Ed & _ & (s & Es & Hs)).
    assert (sd_entry d' = sd_entry d) as Ee; [|exists s; by rewrite Ee].
    apply (f_equal (fun l => l !! i)) in E. rewrite !list_lookup_fmap, Hi, Ed in E. cbn in E. congruence.
Qed.

Lemma vec_safe_all t vec namess : vec_safe t vec namess -> Forall (data_safe t) vec.
Proof. intros H. induction H as [|d names vec namess [Hd _] H IH]; by constructor. Qed.

Lemma unit_sets_safe c us : forall l vec namess,
  Forall (fun p => p ∈ ps) us -> vec_safe (l_shapes l) vec namess -> NoDup (sd_entry <$> vec) ->
  lsafe c l (unit_sets_loop junk capsule us vec namess) c (fun _ _ => True).
Proof.
  induction us as [|p us IH]; intros l vec namess Hus Hv Hnd; cbn [unit_sets_loop]; [by apply lsafe_ret|].
  inversion Hus as [|? ? Hp Hus']; subst. apply lsafe_get, lsafe_use. intros Hl.
  pose proof (sg_tld _ _ _ _ _ (sl_statics _ _ _ _ _ _ _ Hl) I) as Et. pose proof (sg_tld2 _ _ _ _ _ (sl_statics _ _ _ _ _ _ _ Hl) I) as Et2. pose proof (vec_safe_all _ _ _ Hv) as Hd.
  eapply (lsafe_bind tables device ps tld tld2 c l _ c (fun vec' l' => same_data vec vec' l')).
  - rewrite Et. destruct (decide (Some p = Some tld)) as [E|Hne].
    + eapply lsafe_bind; [by apply read_tld_units_safe|]. intros _ l1 H1 _. apply lsafe_ret. split; [|reflexivity].
      by eapply Forall_data_later.
    + rewrite Et2. destruct (decide (Some p = tld2)) as [E|Hne2].
      * eapply lsafe_bind; [by apply read_tld2_units_safe|]. intros _ l1 H1 _. apply lsafe_ret. split; [|reflexivity].
        by eapply Forall_data_later.
      * apply lsafe_int. intros n l1 (_ & _ & S1) _. apply read_units_safe; [exact Hp|congruence|congruence|by rewrite S1].
  - intros vec' l1 H1 [Hv1 Ev]. apply IH; [exact Hus'| |by rewrite Ev].
    eapply vec_safe_data; [exact Ev|exact Hv1|by eapply vec_safe_later].
Qed.

Lemma capsule_read_body_safe c l :
  lsafe c l (capsule_read_body junk junk_nstring capsule) c (fun _ l' => capsule_major_version (l_statics l') <> 0).
Proof.
  unfold capsule_read_body. eapply lsafe_bind; [apply read_header_safe|]. intros [] l1 _ Hversion.
  eapply (lsafe_later tables device ps tld tld2 _ _ _ _ (fun _ _ => True)); [intros u l' (_ & _ & _ & H & _) Hu; by apply H|].
  eapply lsafe_bind; [apply read_unit_set_names_safe|]. intros us l2 _ Hus.
  eapply (lsafe_bind tables device ps tld tld2 c l2 _ c (fun vec l' => Forall (data_safe (l_shapes l')) vec /\ NoDup (sd_entry <$> vec))).
  { apply lsafe_int. intros n l' _ _. apply read_shapes_safe; constructor. }
  intros vec l3 _ [Hv Hnd]. eapply lsafe_bind; [by apply read_external_names_safe|]. intros [vec' namess] l4 _ [Hv4 Ev].
  cbn [fst snd] in Hv4, Ev. eapply lsafe_bind.
  { apply lsafe_int. intros n l5 (_ & _ & S5) _. destruct (negb _); [apply rejects|].
    apply unit_sets_safe; [exact Hus|by rewrite S5|by rewrite Ev]. }
  intros _ l6 _ _. eapply lsafe_impl; [|apply rd_lsafe, tdf_read_eof_safe]. auto.
Qed.
End SafeRead.
