(* ===== verification/TldSafeLink.v ===== *)
(** * TldSafeLink: what is read can be written

    The end of the argument of TldSafeRead: [capsule_read]
    (tld/src/adt/capsule.c) on any input, and the fact that the states it
    leaves are [ready] for [capsule_write], whose output the linker can read
    again. *)
From stdpp Require Import base list list_numbers numbers.
From Stdlib Require Import ZArith Lia.
From S2P Require Import Prelude Codec ExdsString ExdsError TldNameKey TldIO TldIOSpec HashTable TldNames.
From S2P Require Import TldRename TldNameTable TldShapes TldShapesSpec TldCapsule TldCapsuleSpec TldUsage TldRead TldReadUnits TldReadBack.
From S2P Require Import TldSafeState TldUnitSets TldSafeRead.

Section Link.
Context {known : Z -> nat -> Prop}.
Variable junk : nat -> Z.
Variable junk_nstring : nat -> NStringT.
Variable device : Prop.
Variable ps : list nat.
Variable tld : nat.
Variable tld2 : option nat.

Abbreviation safe_link := (safe_link (linking_tables known) device ps tld tld2).

Lemma capsule_read_ok c capsule l :
  (forall u v c, known u c -> known (Z.lor u v) c) ->
  (forall u v, has v U_DEFD || has v U_MULT = true -> known (Z.lor u v) capsule) ->
  safe_link c (setup junk l) ->
  match capsule_read junk junk_nstring capsule l with
  | (l', Ok complete) => later_link (setup junk l) l' /\
      if (complete : bool) then safe_link c l' /\ capsule_major_version (l_statics l') <> 0
      else l_serious l' = true /\ exists c', safe_link c' l'
  | (l', Throw Stop) => exhausted l'
  | (l', Throw Fatal_error) => too_many (l_errors l')
  | (_, Throw (XX_tdf (XX_bistream_read_error _))) => device
  | (_, Throw _) => False
  end.
Proof.
  intros Hmore Hnew Hl. pose proof (capsule_read_body_safe junk junk_nstring device ps tld tld2 known capsule Hmore Hnew c _ Hl) as H.
  unfold capsule_read, setup in *. destruct (capsule_setup junk (l_statics l) (l_units l)) as [g units].
  destruct (capsule_read_body junk junk_nstring capsule _) as [l' [[]|e]]; [tauto|].
  destruct H as [[Hc Hlt] He]. cbn in He. destruct e as [| |[]| | |]; tauto.
Qed.

(** ** Shapes that can be written, and read again *)

Lemma iter_nodup t : wf_table t -> NoDup (name_table_iter t).
Proof.
  intros (_ & _ & Hp & _). unfold name_table_iter. apply list.NoDup_filter. change (NoDup (ht_entries (nt_contents t)).*2).
  rewrite Hp. apply NoDup_seq.
Qed.

Lemma view_ids_nodup t ps' :
  (forall p p' d d', get_direct t p = Some d -> get_direct t p' = Some d' -> id d = id d' -> p = p') ->
  NoDup ps' -> NoDup ((fun v => id v.2) <$> omap (name_view t) ps').
Proof.
  intros Hinj Hnd. induction Hnd as [|p l Hni Hnd IH]; [constructor|]. cbn.
  destruct (name_view t p) as [[k d]|] eqn:E; [|exact IH]. cbn. constructor; [|exact IH].
  intros Hin. apply list_elem_of_fmap in Hin as ([k' d'] & Eid & Hin). cbn in Eid.
  apply list_elem_of_omap in Hin as (q & Hq & Eq). apply Hni.
  destruct (name_view_inv _ _ _ _ E) as [Hd _]. destruct (name_view_inv _ _ _ _ Eq) as [Hd' _].
  by rewrite (Hinj p q d d' Hd Hd' Eid).
Qed.

Lemma bounded_ids l n : 0 <= n -> NoDup l -> Forall (fun v => 0 <= v < n) l -> Z.of_nat (length l) <= n.
Proof.
  intros Hn Hnd Hl. assert (l ⊆+ seqZ 0 n) as Hsub.
  { apply list.NoDup_submseteq; [exact Hnd|]. intros v Hv. rewrite Forall_forall in Hl. apply elem_of_seqZ. specialize (Hl v (proj1 (list_elem_of_In _ _) Hv)). lia. }
  pose proof (submseteq_length _ _ Hsub) as H. rewrite length_seqZ in H. lia.
Qed.

Lemma sublist_ids_nodup (l l' : list (NameKeyT * DirectT)) :
  l `sublist_of` l' -> NoDup ((fun v => id v.2) <$> l') -> NoDup ((fun v => id v.2) <$> l).
Proof.
  intros H Hnd. assert (((fun v : NameKeyT * DirectT => id v.2) <$> l) `sublist_of` ((fun v => id v.2) <$> l')) as Hs.
  { clear Hnd. induction H; cbn; [apply sublist_nil|by apply sublist_skip|by apply sublist_cons]. }
  by eapply sublist_NoDup.
Qed.

Lemma names_fit tk s : safe_shape tk s ->
  Forall (fun v => ok_key v.1 /\ 0 <= id v.2 < id_count s) (names_of (se_names s)) /\
  Forall (fun v => tk_legal tk (se_key s) v.2) (names_of (se_names s)) /\ NoDup ((fun v => id v.2) <$> names_of (se_names s)).
Proof.
  intros [[(rs & (Hdone & (Hlt & Hinj & _) & _) & _) _] _ Hkeys Hlg]. unfold names_of. split; [|split].
  - apply Forall_forall. intros [k d] Hin%list_elem_of_In. apply list_elem_of_omap in Hin as (p & _ & E).
    destruct (name_view_inv _ _ _ _ E) as [Hd Hk]. split; [by eapply Hkeys|by apply (Hlt p)].
  - apply Forall_forall. intros [k d] Hin%list_elem_of_In. apply list_elem_of_omap in Hin as (p & _ & E).
    destruct (name_view_inv _ _ _ _ E) as [Hd _]. by apply (Hlg p d).
  - apply view_ids_nodup; [exact Hinj|]. apply iter_nodup, Hdone.
Qed.

(** There are no more names than identifiers. *)
Lemma names_count tk s (l : list (NameKeyT * DirectT)) : safe_shape tk s -> l `sublist_of` names_of (se_names s) ->
  0 <= id_count s <= UINT_MAX /\ NoDup ((fun v => id v.2) <$> l) /\ Z.of_nat (length l) <= id_count s.
Proof.
  intros Hs Hsub. destruct (names_fit tk s Hs) as (Hn & _ & Hnd). pose proof (ss_good _ _ Hs) as [(rs & (_ & _ & Hc) & _) _].
  pose proof (sublist_ids_nodup _ _ Hsub Hnd) as Hvn. split; [exact Hc|]. split; [exact Hvn|].
  pose proof (bounded_ids _ (id_count s) ltac:(lia) Hvn) as Hb. rewrite length_fmap in Hb. apply Hb. apply Forall_fmap.
  rewrite Forall_forall in *. intros v Hv. apply Hn, list_elem_of_In. eapply elem_of_sublist, Hsub. by apply list_elem_of_In.
Qed.

Lemma safe_readable s : safe_shape (linking_tables known) s -> readable s.
Proof.
  intros Hs. destruct (names_fit _ s Hs) as (Hn & Hu & _).
  assert (visible (se_names s) `sublist_of` names_of (se_names s)) as Hsub by apply sublist_filter.
  destruct (names_count _ s _ Hs Hsub) as (Hc & Hvn & Hb).
  assert (forall P : NameKeyT * DirectT -> Prop, Forall P (names_of (se_names s)) -> Forall P (visible (se_names s))) as Hall.
  { intros P. rewrite !Forall_forall. intros H v Hv%list_elem_of_In. apply list_elem_of_filter in Hv as [_ Hv].
    by apply H, list_elem_of_In. }
  assert (Forall (fun v => ok_key v.1 /\ 0 <= id v.2 < id_count s) (visible (se_names s))) as Hv.
  { by apply Hall. }
  constructor; [apply Hs|exact Hc|exact Hv|exact Hvn|unfold is_unsigned, UINT_MAX, UINT_BITS in *; lia|].
  apply Hall. eapply Forall_impl; [|exact Hu]. intros v. apply proj1.
Qed.

Lemma safe_ok_shape s : safe_shape (linking_tables known) s -> ok_shape s.
Proof.
  intros Hs. destruct (safe_readable s Hs) as [Hk Hid _ _ Hc _]. destruct (names_fit _ s Hs) as (Hn & _).
  constructor; [exact Hk|exact Hid| |unfold is_unsigned in Hc; lia].
  eapply Forall_impl; [|exact Hn]. intros v [H1 H2]. split; [exact H1|lia].
Qed.

Lemma shapes_of_elem t s : s ∈ shapes_of t -> exists p, st_entries t !! p = Some s.
Proof. intros Hs. apply list_elem_of_omap in Hs as (p & _ & Hp). eauto. Qed.

Lemma safe_shapes_all t (P : ShapeEntryT -> Prop) : safe_shapes (linking_tables known) t -> (forall s, safe_shape (linking_tables known) s -> P s) -> Forall P (shapes_of t).
Proof.
  intros Ht HP. apply Forall_forall. intros s Hs%list_elem_of_In. destruct (shapes_of_elem t s Hs) as [p Hp].
  apply HP. by eapply (sh_all _ _ Ht).
Qed.

(** ** Units *)

Lemma safe_map_ok t mt : safe_map t mt -> ok_map mt.
Proof.
  intros [H1 H2 H3 _]. split; [exact H2|]. intros k m E. apply (ht_get_value _ _ _ H1) in E.
  apply list_elem_of_fmap in E as ([k' m'] & -> & Hin). destruct (H3 k' m' Hin) as (e & Ee & _). by eapply lookup_lt_Some.
Qed.

Lemma safe_unit_ok t u : safe_unit t u -> ok_unit u.
Proof. intros [Hc Hm]. split; [exact Hc|]. destruct (map_table u); [by eapply safe_map_ok|exact I]. Qed.

Lemma safe_unit_known t u : safe_shapes (linking_tables known) t -> safe_unit t u -> known_unit t u.
Proof.
  intros Ht [_ Hm]. unfold known_unit. destruct (map_table u) as [mt|]; [|exact I]. destruct Hm as [_ _ H3 H4].
  intros m Hm. apply list_elem_of_fmap in Hm as ([k m'] & -> & Hin). destruct (H3 k m' Hin) as (e & Ee & _).
  exists e. split; [exact Ee|]. intros _. apply (has_shape_get _ _ _ Ht). exact (Forall_lookup_1 _ _ _ _ H4 Ee).
Qed.

Lemma safe_unit_legal t u : safe_shapes (linking_tables known) t -> safe_unit t u -> unit_legal t u -> legal_unit (shapes_of t) u.
Proof.
  intros Ht Hu Hlg. split; [by eapply safe_unit_ok|]. destruct Hu as [_ Hm]. unfold unit_legal in Hlg.
  destruct (map_table u) as [mt|]; [|exact I]. destruct Hm as [H1 H2 H3 H4]. apply Forall_forall. intros s Hs%list_elem_of_In.
  destruct (shapes_of_elem t s Hs) as [p Hp]. unfold legal_links, map_links, map_find.
  destruct (map_table_get mt (se_key s)) as [m|] eqn:E; [|constructor].
  apply ht_get_elem in E; [|exact H1|apply (ss_key _ _ (sh_all _ _ Ht _ _ Hp))]. destruct (H3 _ _ E) as (e & Ee & Ek).
  cbn [mbind option_bind]. rewrite Ee. cbn. pose proof (Forall_lookup_1 _ _ _ _ Hlg Ee) as He.
  eapply Forall_impl; [|exact He]. intros k Hk. by apply (Hk p s).
Qed.

(** ** The linker when it writes *)

(** What the format bounds: the numbers of shapes and of units, and the size of the linker information. *)
Record fits (l : LinkT) : Prop := {
  fits_shapes : Z.of_nat (length (st_entries (l_shapes l))) < 2 ^ 32;
  fits_size : Z.of_nat (2 + sum_list_with (fun s => sum_list_with name_nibbles (visible (se_names s))) (shapes_of (l_shapes l))) < 2 ^ 32;
  fits_units p e : ut_entries (l_units l) !! p = Some e -> is_unsigned (Z.of_nat (length (ue_units e)))
}.

(** The unit sets. *)
Record sets_fit : Prop := {
  sf_nodup : NoDup ps;
  sf_tld : tld ∈ ps;
  sf_count : Z.of_nat (length ps) + 1 < 2 ^ 32
}.

Lemma units_of_entry units p e u :
  ut_entries units !! p = Some e -> u ∈ ue_units e -> exists i, unit_of units p i = Some u.
Proof. intros E Hu. apply list_elem_of_lookup in Hu as [i Hi]. exists i. unfold unit_of. by rewrite E. Qed.

Lemma safe_link_ready c l :
  sets_fit -> safe_link c l -> capsule_major_version (l_statics l) <> 0 -> fits l ->
  ready (l_statics l) (l_units l) (l_shapes l) ps tld.
Proof.
  intros [Hnd Htld Hcount] [_ [Hv Hmi _ Hsets Het _] Ht Hun] Hver [Hf1 Hf2 Hf3].
  destruct (Hun I) as [_ Hiter Hte _ Hent Hu _]. constructor.
  - split; [|exact Hmi]. destruct Hv; [contradiction|assumption].
  - split; [|exact Hf1]. split; [apply (sh_good _ _ Ht)|]. apply safe_shapes_all; [exact Ht|apply safe_ok_shape].
  - exact Hf2.
  - by apply Hsets.
  - split; [by apply Het|]. split; [exact Htld|]. destruct (Hent tld Htld) as (e & Ee & _). unfold entry_at. rewrite Ee. cbn. by apply Hte.
  - split; [exact Hnd|]. split; [exact Hiter|exact Hcount].
  - intros p Hp. destruct (Hent p Hp) as (e & Ee & Hk). exists e. split; [exact Ee|]. split; [exact Hk|].
    split; [|split; [|by eapply Hf3]]; apply Forall_forall; intros u Hin%list_elem_of_In;
      destruct (units_of_entry _ _ _ _ Ee Hin) as [i Hi].
    + by eapply safe_unit_ok, Hu.
    + eapply safe_unit_known; [exact Ht|by eapply Hu].
Qed.

Lemma safe_link_readable l : safe_link [] l -> readable_state (l_units l) (l_shapes l) ps.
Proof.
  intros [_ _ Ht Hun]. destruct (Hun I) as [_ _ _ _ Hent Hu Hlg]. constructor; [apply safe_shapes_all; [exact Ht|apply safe_readable]|].
  intros p Hp. destruct (Hent p Hp) as (e & Ee & _). unfold entry_at. rewrite Ee. cbn.
  apply Forall_forall. intros u Hin%list_elem_of_In. destruct (units_of_entry _ _ _ _ Ee Hin) as [i Hi].
  apply safe_unit_legal; [exact Ht|by eapply Hu|]. destruct (Hlg p i u Hi) as [H|H]; [inversion H|exact H].
Qed.
End Link.

(** ** The start *)

Lemma start_sets_fit names tld tld2 : unit_sets_checked names tld tld2 -> sets_fit (seq 0 (length names)) tld.
Proof.
  intros Hc. constructor; [apply NoDup_seq| |rewrite length_seq; apply Hc].
  apply elem_of_seq. pose proof (start_tld Hc). lia.
Qed.

(** Before the first capsule is read. *)
Lemma start_link_safe known junk device names tld tld2 g r t b :
  unit_sets_checked names tld tld2 -> capsule_setup junk g unit_table_create = set_up names tld tld2 ->
  safe_reader device r -> safe_shapes (linking_tables known) t -> quiet b ->
  safe_link (linking_tables known) device (seq 0 (length names)) tld tld2 [] (setup junk (Link r g unit_table_create t b)).
Proof.
  intros Hc Eg Hr Ht Hb. unfold setup. cbn [l_statics l_units]. rewrite Eg. destruct (set_up names tld tld2) as [g1 units] eqn:E.
  constructor; cbn [l_reader l_statics l_shapes l_units]; [exact Hr| |exact Ht| |exact Hb].
  - pose proof (start_statics Hc (linking_tables known)) as H. by rewrite E in H.
  - intros _. pose proof (start_units_safe Hc t) as H. by rewrite E in H.
Qed.

Lemma no_shapes_safe tk : safe_shapes tk shape_table_create.
Proof.
  constructor; [constructor; [apply shape_table_create_wf|intros p s H; discriminate|discriminate|discriminate]|].
  intros p s H. discriminate.
Qed.

(** Setting up again changes nothing. *)
Lemma setup_safe known junk device ps tld tld2 c l : safe_link (linking_tables known) device ps tld tld2 c l -> setup junk l = l.
Proof.
  intros [_ [_ _ Hs _ _ _] _ _ _]. unfold setup, capsule_setup. rewrite (Hs I). by destruct l.
Qed.

Lemma open_stream_safe (device : Prop) data name byte :
  Forall (fun o => from_option is_byte device o) data -> safe_reader device (tdf_reader_open data name byte).
Proof. intros H. split; [exact H|discriminate]. Qed.


(** A capsule cut off in its header, from a device that fails. *)
Definition torn_capsule : list (option Z) := Some <$> [84; 68; 70; 67; 68].

Definition torn_linker : LinkT :=
  Link (tdf_reader_open (torn_capsule ++ [None]) [] 0) initial_statics unit_table_create shape_table_create initial_reports.

Lemma torn_linker_safe : safe_link linker_tables True (seq 0 12) 0 (Some 1%nat) [] (setup (fun _ => 0) torn_linker).
Proof.
  apply (start_link_safe _ _ _ default_names); [apply default_checked|apply initial_set_up| |apply no_shapes_safe|reflexivity]. apply open_stream_safe.
  change (torn_capsule ++ [None]) with [Some 84; Some 68; Some 70; Some 67; Some 68; None].
  repeat constructor; unfold is_byte; cbn; lia.
Qed.

