(* ===== verification/TldStored.v ===== *)
(** * TldStored: the contents of a capsule that was read

    The builder keeps the bytes of every capsule it has read
    ([capsule_store_contents] of tld/src/adt/capsule.c): it rewinds the reader
    and reads as many bytes as were read before. They are the whole input:
    whatever [capsule_read] does, the reader counts the bytes it takes, and a
    capsule is complete only when there are none left. *)
From stdpp Require Import base list list_numbers numbers.
From Stdlib Require Import ZArith Lia.
From S2P Require Import Prelude Codec ExdsString ExdsError TldNameKey TldIO TldIOSpec HashTable TldNames TldShapes TldShapesSpec TldCapsule TldRead TldSafeState.

Section Stored.
Variable data : list (option Z).

(** The reader reads [data] from its start, and has counted its bytes. *)
Definition reading (r : TDFReaderT) : Prop :=
  match r_source r with
  | RT_STREAM b => bi_data b = data /\ bi_bytes b = bi_pos b /\ (bi_pos b <= length data)%nat /\ Forall is_Some (take (bi_pos b) data)
  | RT_STRING s => (s_limit s <= length (s_contents s))%nat /\ Some <$> take (s_limit s) (s_contents s) = data /\
      s_byte s = s_current s /\ (s_current s <= s_limit s)%nat
  end.

Definition at_end (r : TDFReaderT) : Prop := reading r /\ tdf_reader_byte r = length data.

(** ** The operations of the reader *)

Definition rkept {A} (m : reader A) : Prop := forall r, reading r -> reading (m r).1.

Lemma rkept_bind {A B} (m : reader A) (k : A -> reader B) : rkept m -> (forall a, rkept (k a)) -> rkept (m ≫= k).
Proof.
  intros Hm Hk r Hr. unfold mbind, stM_bind. specialize (Hm r Hr). destruct (m r) as [r1 [a|e]]; [|exact Hm]. by apply Hk.
Qed.

Lemma rkept_ret {A} (a : A) : rkept (mret a).
Proof. intros r Hr. exact Hr. Qed.

Lemma rkept_throw {A} e : rkept (st_throw e : reader A).
Proof. intros r Hr. exact Hr. Qed.

Lemma rkept_align : rkept tdf_read_align.
Proof. intros r Hr. exact Hr. Qed.

Lemma take_some (l : list (option Z)) p n :
  Forall is_Some (take p l) -> Forall is_Some (take n (drop p l)) -> Forall is_Some (take (p + n) l).
Proof. intros H1 H2. rewrite <- take_take_drop. by apply Forall_app. Qed.

Lemma fread_some (l : list (option Z)) n : Some <$> fread l n = take (length (fread l n)) l.
Proof. revert l. induction n as [|n IH]; intros [|[c|] l]; try reflexivity. cbn. by rewrite <- IH. Qed.

Lemma is_some_fmap (l : list Z) : Forall is_Some (Some <$> l).
Proof. apply Forall_fmap, Forall_true. by eexists. Qed.

Lemma rkept_nibble : rkept tdf_read_nibble.
Proof.
  intros [src byte []] Hr; unfold tdf_read_nibble; cbn [r_new_byte r_source]; [|exact Hr].
  destruct src as [b|s]; unfold reading in Hr; cbn [r_source] in Hr.
  - unfold mbind, stM_bind, on_bistream, bistream_read_byte. destruct Hr as (H1 & H2 & H3 & H4).
    destruct (bi_data b !! bi_pos b) as [[c|]|] eqn:E; [|by split_and!..].
    unfold reading. cbn. rewrite H1 in E. split; [exact H1|]. split; [congruence|]. split; [apply lookup_lt_Some in E; lia|].
    rewrite (take_S_r _ _ _ E). apply Forall_app. split; [exact H4|]. repeat constructor. by eexists.
  - destruct (Nat.ltb_spec (s_current s) (s_limit s)) as [Hlt|]; [|exact Hr]. destruct Hr as (H1 & H2 & H3 & H4).
    unfold reading. cbn. split_and!; [exact H1|exact H2|congruence|lia].
Qed.

Lemma rkept_int : rkept tdf_read_int.
Proof.
  intros r. unfold tdf_read_int. generalize (reader_fuel r) as fuel. intros fuel. generalize 0 as v. revert r.
  induction fuel as [|fuel IH]; intros r v; [by apply rkept_throw|]. apply (rkept_bind tdf_read_nibble); [apply rkept_nibble|].
  intros d r1. cbn zeta. destruct (_ <? _); [apply rkept_throw|]. destruct (_ =? 0); [apply IH|apply rkept_ret].
Qed.

Lemma rkept_bytes n : rkept (tdf_read_bytes n).
Proof.
  intros [src byte nb] Hr. unfold tdf_read_bytes. cbn [tdf_read_align r_source r_byte].
  destruct src as [b|s]; unfold reading in Hr; cbn [r_source] in Hr.
  - unfold mbind, stM_bind, on_bistream, bistream_read_chars. set (chars := fread _ _).
    destruct (_ && bool_decide _); [exact Hr|]. destruct Hr as (H1 & H2 & H3 & H4).
    assert (reading (TDFReader (RT_STREAM (BIStream (bi_data b) (bi_pos b + length chars) (bi_bytes b + length chars) (bi_name b))) byte true)) as H.
    { unfold reading. cbn. pose proof (fread_length (drop (bi_pos b) (bi_data b)) (nstring_length n)) as Hl. fold chars in Hl.
      rewrite length_drop, H1 in Hl. split; [exact H1|]. split; [congruence|]. split; [lia|]. apply take_some; [exact H4|].
      rewrite <- H1. unfold chars. rewrite <- fread_some. apply is_some_fmap. }
    cbn beta iota. by destruct (_ =? _)%nat.
  - destruct (Nat.ltb_spec (s_limit s) (s_current s + nstring_length n)); [exact Hr|]. destruct Hr as (H1 & H2 & H3 & H4).
    unfold reading. cbn. split_and!; [exact H1|exact H2|congruence|lia].
Qed.

Lemma rkept_eof : rkept tdf_read_eof.
Proof.
  intros [src byte nb] Hr. unfold tdf_read_eof. cbn [r_source]. destruct src as [b|s]; unfold reading in Hr; cbn [r_source] in Hr.
  - unfold mbind, stM_bind, on_bistream, bistream_read_byte. destruct Hr as (H1 & H2 & H3 & H4).
    destruct (bi_data b !! bi_pos b) as [[c|]|] eqn:E; [|by split_and!..].
    unfold reading. cbn. rewrite H1 in E. split; [exact H1|]. split; [congruence|]. split; [apply lookup_lt_Some in E; lia|].
    rewrite (take_S_r _ _ _ E). apply Forall_app. split; [exact H4|]. repeat constructor. by eexists.
  - by destruct (_ <? _)%nat.
Qed.

Section Names.
Variable junk : nat -> Z.
Variable junk_nstring : nat -> NStringT.

Lemma rkept_string : rkept (tdf_read_string junk).
Proof.
  apply rkept_bind; [apply rkept_int|]. intros size. destruct (negb _); [apply rkept_throw|].
  apply rkept_bind; [apply rkept_int|]. intros n. apply rkept_bytes.
Qed.

Lemma rkept_components n : forall i k, rkept (tdf_read_components junk n i k).
Proof.
  induction n as [|n IH]; intros i k; cbn [tdf_read_components]; [apply rkept_ret|].
  apply rkept_bind; [apply rkept_string|]. intros s. destruct (name_key_set_component _ _ _); [apply IH|apply rkept_throw].
Qed.

Lemma rkept_name : rkept (tdf_read_name junk junk_nstring).
Proof.
  apply rkept_bind; [apply rkept_nibble|]. intros d. cbn zeta. apply rkept_bind; [apply rkept_align|]. intros _.
  destruct (_ =? 1). { apply rkept_bind; [apply rkept_string|]. intros s. apply rkept_ret. }
  destruct (_ =? 2); [|apply rkept_throw]. apply rkept_bind; [apply rkept_int|]. intros n. apply rkept_components.
Qed.
End Names.

(** ** The operations of the reader of capsules *)

Definition kept {A} (m : link A) : Prop := forall l, reading (l_reader l) -> reading (l_reader (m l).1).

Lemma kept_bind {A B} (m : link A) (k : A -> link B) : kept m -> (forall a, kept (k a)) -> kept (m ≫= k).
Proof.
  intros Hm Hk l Hl. unfold mbind, stM_bind. specialize (Hm l Hl). destruct (m l) as [l1 [a|e]]; [|exact Hm]. by apply Hk.
Qed.

Lemma kept_rd {A} (m : reader A) : rkept m -> kept (rd m).
Proof.
  intros Hm l Hl. unfold rd. specialize (Hm (l_reader l) Hl). destruct (m (l_reader l)) as [r [a|[]]]; cbn in *; try exact Hm.
  unfold mbind, stM_bind, serious. cbn [l_errors]. by destruct (serious_error _) as [e []].
Qed.

(** What does not use the reader. *)
Lemma kept_other {A} (m : link A) : (forall l, l_reader (m l).1 = l_reader l) -> kept m.
Proof. intros Hm l Hl. by rewrite Hm. Qed.

Lemma kept_need {A} (o : option A) : kept (need o).
Proof. apply kept_other. by destruct o. Qed.

Lemma kept_ret {A} (a : A) : kept (mret a).
Proof. by apply kept_other. Qed.
Lemma kept_throw {A} e : kept (st_throw e : link A).
Proof. by apply kept_other. Qed.
Lemma kept_get : kept st_get.
Proof. by apply kept_other. Qed.
Lemma kept_statics g : kept (set_statics g).
Proof. by apply kept_other. Qed.
Lemma kept_units u : kept (put_units u).
Proof. by apply kept_other. Qed.
Lemma kept_shapes t : kept (put_shapes t).
Proof. by apply kept_other. Qed.
Lemma kept_serious : kept serious.
Proof. apply kept_other. intros l. unfold serious. by destruct (serious_error _). Qed.

Create HintDb kept.
#[local] Hint Resolve kept_rd kept_need kept_ret kept_throw kept_get kept_statics kept_units kept_shapes kept_serious : kept.
#[local] Hint Resolve rkept_align rkept_nibble rkept_int rkept_bytes rkept_eof rkept_string rkept_name : kept.

(** Through the binds and the branches of an operation. *)
Ltac kept_step :=
  match goal with
  | |- kept (_ ≫= _) => apply kept_bind; [|intros ?]
  | |- kept (if ?b then _ else _) => destruct b
  | |- kept (match ?x with _ => _ end) => destruct x
  | |- kept (let _ := _ in _) => cbn zeta
  | _ => solve [auto with kept]
  end.
Ltac kept_all := repeat kept_step.

Section Capsule.
Variable junk : nat -> Z.
Variable junk_nstring : nat -> NStringT.

Lemma kept_fail {A} : kept (fail : link A).
Proof. unfold fail. kept_all. Qed.
Lemma kept_get_shape p : kept (get_shape p).
Proof. unfold get_shape. kept_all. Qed.
Lemma kept_put_shape p s : kept (put_shape p s).
Proof. unfold put_shape. kept_all. Qed.
Lemma kept_get_unit_entry p : kept (get_unit_entry p).
Proof. unfold get_unit_entry. kept_all. Qed.
Lemma kept_put_unit_entry p e : kept (put_unit_entry p e).
Proof. unfold put_unit_entry. kept_all. Qed.
#[local] Hint Resolve kept_fail kept_get_shape kept_put_shape kept_get_unit_entry kept_put_unit_entry : kept.

Lemma kept_header : kept (capsule_read_header junk).
Proof. unfold capsule_read_header. kept_all. Qed.

Lemma kept_unit_set_names n : forall us b, kept (unit_set_names_loop junk n us b).
Proof. induction n as [|n IH]; intros us b; cbn [unit_set_names_loop]; kept_all. Qed.

Lemma kept_read_shapes n : forall vec, kept (read_shapes_loop junk n vec).
Proof. induction n as [|n IH]; intros vec; cbn [read_shapes_loop]; kept_all. Qed.

Lemma kept_external_names n : forall d names, kept (external_names_loop junk junk_nstring n d names).
Proof. induction n as [|n IH]; intros d names; cbn [external_names_loop]; kept_all. Qed.
#[local] Hint Resolve kept_unit_set_names kept_read_shapes kept_external_names : kept.

Lemma kept_external_shapes vec : kept (external_names_shapes junk junk_nstring vec).
Proof. induction vec as [|d vec IH]; cbn [external_names_shapes]; unfold capsule_read_external_names_1; kept_all. Qed.
#[local] Hint Resolve kept_external_shapes : kept.

Lemma kept_usage capsule entry names nd nm : kept (capsule_read_usage capsule entry names nd nm).
Proof. induction names as [|p names IH]; cbn [capsule_read_usage]; kept_all. Qed.
#[local] Hint Resolve kept_usage : kept.

Lemma kept_usages capsule vec : forall namess i tag token, kept (read_usages capsule vec namess i tag token).
Proof. induction vec as [|d vec IH]; intros [|names namess] i tag token; cbn [read_usages]; kept_all. Qed.

Lemma kept_usage_at capsule vec namess i nd nm : kept (read_usage_at capsule vec namess i nd nm).
Proof. unfold read_usage_at. kept_all. Qed.

Lemma kept_token_index vec : kept (capsule_get_token_index vec).
Proof. unfold capsule_get_token_index. kept_all. Qed.

Lemma kept_tag_index vec : kept (capsule_get_tag_index vec).
Proof. unfold capsule_get_tag_index. kept_all. Qed.
#[local] Hint Resolve kept_usages kept_usage_at kept_token_index kept_tag_index : kept.

Lemma kept_tld_units capsule vec namess : kept (capsule_read_tld_units capsule vec namess).
Proof.
  unfold capsule_read_tld_units, capsule_read_tld_unit_header, capsule_read_tld_unit_trailer,
    capsule_read_tld_type_0_unit, capsule_read_tld_type_1_unit. kept_all.
Qed.

Lemma kept_tld2_units capsule vec namess : kept (capsule_read_tld2_units capsule vec namess).
Proof.
  unfold capsule_read_tld2_units, capsule_read_tld_unit_header, capsule_read_tld_unit_trailer, capsule_read_tld_type_0_unit. kept_all.
Qed.

Lemma kept_update_unit p i f : kept (update_unit p i f).
Proof. unfold update_unit. kept_all. Qed.
#[local] Hint Resolve kept_tld_units kept_tld2_units kept_update_unit : kept.

Lemma kept_counts p i vec : kept (unit_counts_loop junk p i vec).
Proof. induction vec as [|d vec IH]; cbn [unit_counts_loop]; kept_all. Qed.

Lemma kept_links n : forall j p i m d, kept (unit_links_loop n j p i m d).
Proof. induction n as [|n IH]; intros j p i m d; cbn [unit_links_loop]; kept_all. Qed.
#[local] Hint Resolve kept_counts kept_links : kept.

Lemma kept_maps p i vec : forall m, kept (unit_maps_loop p i m vec).
Proof. induction vec as [|d vec IH]; intros m; cbn [unit_maps_loop]; kept_all. Qed.
#[local] Hint Resolve kept_maps : kept.

Lemma kept_units_loop n : forall vec p, kept (read_units_loop junk n vec p).
Proof.
  induction n as [|n IH]; intros vec p; cbn [read_units_loop];
    unfold capsule_read_unit, capsule_read_unit_counts, capsule_read_unit_maps; kept_all.
Qed.
#[local] Hint Resolve kept_units_loop : kept.

Lemma kept_unit_sets capsule us : forall vec namess, kept (unit_sets_loop junk capsule us vec namess).
Proof. induction us as [|p us IH]; intros vec namess; cbn [unit_sets_loop]; unfold capsule_read_units; kept_all. Qed.
#[local] Hint Resolve kept_unit_sets kept_header : kept.

(** The body of the reader, but for the check of the end. *)
Definition before_eof (capsule : nat) : link unit :=
  _ ← capsule_read_header junk;
  units_vec ← capsule_read_unit_set_names junk;
  shapes_vec ← capsule_read_shapes junk;
  '(shapes_vec, names_vec_vec) ← capsule_read_external_names junk junk_nstring shapes_vec;
  capsule_read_unit_sets junk capsule units_vec shapes_vec names_vec_vec.

Lemma kept_before_eof capsule : kept (before_eof capsule).
Proof.
  unfold before_eof, capsule_read_unit_set_names, capsule_read_shapes, capsule_read_external_names, capsule_read_unit_sets. kept_all.
Qed.

Lemma body_before_eof capsule l :
  capsule_read_body junk junk_nstring capsule l = (_ ← before_eof capsule; rd tdf_read_eof) l.
Proof.
  unfold capsule_read_body, before_eof, mbind, stM_bind. destruct (capsule_read_header junk l) as [l1 [[]|e]]; [|reflexivity].
  destruct (capsule_read_unit_set_names junk l1) as [l2 [us|e]]; [|reflexivity].
  destruct (capsule_read_shapes junk l2) as [l3 [vec|e]]; [|reflexivity].
  destruct (capsule_read_external_names junk junk_nstring vec l3) as [l4 [[vec' namess]|e]]; [|reflexivity].
  by destruct (capsule_read_unit_sets junk capsule us vec' namess l4) as [l5 [[]|e]].
Qed.

Lemma eof_at_end r r' : reading r -> tdf_read_eof r = (r', Ok tt) -> at_end r'.
Proof.
  intros Hr E. assert (reading r') as Hr' by (pose proof (rkept_eof r Hr) as H; by rewrite E in H). split; [exact Hr'|].
  destruct r as [[b|s] byte nb]; unfold reading in Hr; unfold tdf_read_eof in E; cbn [r_source] in *.
  - unfold mbind, stM_bind, on_bistream, bistream_read_byte in E. destruct Hr as (H1 & H2 & H3 & H4).
    destruct (bi_data b !! bi_pos b) as [[c|]|] eqn:Eb; try discriminate. injection E as <-. unfold tdf_reader_byte. cbn.
    apply lookup_ge_None in Eb. rewrite H1 in Eb. lia.
  - destruct (Nat.ltb_spec (s_current s) (s_limit s)); [discriminate|]. injection E as <-. unfold tdf_reader_byte. cbn.
    destruct Hr as (H1 & H2 & H3 & H4). rewrite <- H2, length_fmap, length_take. lia.
Qed.

(** A complete capsule was read to the end of its input. *)
Lemma complete_at_end capsule l l' :
  reading (l_reader l) -> capsule_read junk junk_nstring capsule l = (l', Ok true) -> at_end (l_reader l').
Proof.
  intros Hl. unfold capsule_read. destruct (capsule_setup _ _ _) as [g u]. set (l0 := Link _ _ _ _ _). rewrite body_before_eof.
  assert (reading (l_reader l0)) as H0 by exact Hl. pose proof (kept_before_eof capsule l0 H0) as Hk.
  unfold mbind, stM_bind. destruct (before_eof capsule l0) as [l1 [[]|e]]; [|by destruct e as [| |[]| | |]].
  unfold rd. destruct (tdf_read_eof (l_reader l1)) as [r x] eqn:E. destruct x as [[]|[]]; try done.
  2: { unfold mbind, stM_bind, serious. by destruct (serious_error _) as [? []]. }
  intros [= <-]. cbn. by eapply eof_at_end.
Qed.
End Capsule.

(** ** Storing the contents *)

(** The bytes of an input in which no read fails. *)
Lemma all_bytes (l : list (option Z)) : Forall is_Some l -> Some <$> fread l (length l) = l.
Proof. induction 1 as [|o l [c ->] Hl IH]; [reflexivity|]. cbn. by rewrite IH. Qed.

Lemma bytes_length (l : list (option Z)) bytes : Some <$> bytes = l -> length bytes = length l.
Proof. intros <-. by rewrite length_fmap. Qed.

(** The input is stored, byte for byte. *)
Lemma store_contents_ok junk r :
  at_end r -> exists r' bytes, capsule_store_contents junk r = (r', Ok (NString (length bytes) bytes)) /\ Some <$> bytes = data.
Proof.
  intros [Hr Hn]. unfold capsule_store_contents, mbind, stM_bind, st_get. rewrite Hn. destruct r as [[b|s] byte nb]; unfold reading in Hr; cbn [r_source] in Hr.
  - destruct Hr as (H1 & H2 & H3 & H4). unfold tdf_reader_byte in Hn. cbn [r_source] in Hn.
    assert (Forall is_Some data) as Hsome by (rewrite take_ge in H4 by lia; exact H4).
    pose proof (all_bytes data Hsome) as Hb. pose proof (bytes_length _ _ Hb) as Hl. set (bytes := fread data (length data)) in *.
    unfold tdf_reader_rewind, tdf_read_bytes, on_bistream, bistream_rewind. cbn [r_source tdf_read_align r_byte bi_pos bi_data bi_bytes bi_name].
    unfold mbind, stM_bind, on_bistream, bistream_read_chars. cbn [bi_pos bi_data bi_bytes bi_name nstring_length n_length nstring_init_length].
    rewrite H1, drop_0. fold bytes.
    assert ((length bytes =? 0)%nat && (0 <? length data)%nat = false) as -> by (rewrite Hl; by destruct data).
    cbn [andb]. rewrite Hl, Nat.eqb_refl. cbn beta iota. unfold tdf_read_eof. cbn [r_source mret stM_ret].
    unfold mbind, stM_bind, on_bistream, bistream_read_byte. cbn [bi_pos bi_data]. rewrite lookup_ge_None_2 by lia. cbn.
    eexists _, bytes. split; [|exact Hb]. rewrite (take_ge bytes), drop_ge, app_nil_r, Hl by (rewrite ?length_ALLOCATE; lia). reflexivity.
  - destruct Hr as (H1 & H2 & H3 & H4). set (bytes := take (s_limit s) (s_contents s)) in *. pose proof (bytes_length _ _ H2) as Hl.
    assert (length bytes = s_limit s) as Hlim by (unfold bytes; rewrite length_take; lia).
    unfold tdf_reader_rewind, set_source. cbn [r_source]. unfold tdf_read_bytes. cbn [tdf_read_align r_source r_byte r_new_byte s_current s_limit s_contents s_name s_byte].
    unfold nstring_length. cbn [n_length nstring_init_length].
    destruct (Nat.ltb_spec (s_limit s) (0 + length data)); [lia|]. cbn beta iota. unfold tdf_read_eof. cbn [r_source s_current s_limit].
    destruct (Nat.ltb_spec (0 + length data) (s_limit s)); [lia|]. cbn.
    assert (nstring_insert_cstring (nstring_init_length junk (length data)) (drop 0 (s_contents s)) = NString (length bytes) bytes) as ->;
      [|by eexists _, bytes]. unfold nstring_insert_cstring, nstring_length. cbn [n_length nstring_init_length n_contents].
    destruct (Nat.ltb_spec 0 (length data)).
    + rewrite Hl, memcpy_at_start by (rewrite ?length_ALLOCATE, ?drop_0; lia). unfold bytes. rewrite drop_0. by replace (length data) with (s_limit s) by lia.
    + assert (length data = 0%nat) as E0 by lia. rewrite E0, (nil_length_inv bytes) by lia. reflexivity.
Qed.
End Stored.

(** Storing and closing leave the reader in order. *)
Lemma rewind_safe device : rsafe device tdf_reader_rewind (fun _ => True).
Proof. intros [[b|s] byte nb] [Hs Hb]; by split. Qed.

Lemma close_safe device : rsafe device tdf_reader_close (fun _ => True).
Proof. intros [[b|s] byte nb] [Hs Hb]; by split. Qed.

Lemma store_safe device junk r : safe_reader device r -> safe_reader device (capsule_store_contents junk r).1.
Proof.
  intros Hr. unfold capsule_store_contents. change ((r ← st_get; _) r) with ((_ ← tdf_reader_rewind;
    nstring ← tdf_read_bytes (nstring_init_length junk (tdf_reader_byte r)); _ ← tdf_read_eof; mret nstring) r).
  eapply (rsafe_bind device _ _ _ (fun _ => True)); [apply rewind_safe| |exact Hr]. intros [] _.
  eapply rsafe_bind; [apply tdf_read_bytes_safe, init_length_wf|]. intros n _.
  eapply rsafe_bind; [apply tdf_read_eof_safe|]. intros [] _. by apply rsafe_ret.
Qed.

(** A reader that was just opened. *)
Lemma open_reading data name byte : reading data (tdf_reader_open data name byte).
Proof. unfold reading. cbn. split_and!; [reflexivity|reflexivity|lia|constructor]. Qed.

Lemma open_string_reading name s byte :
  wf_nstring s -> reading (Some <$> n_contents s) (tdf_reader_open_string name s byte).
Proof.
  intros [Hl _]. unfold reading. cbn. unfold nstring_contents, nstring_length. split_and!; [lia| |reflexivity|lia]. by rewrite take_ge by lia.
Qed.
