(* ===== verification/TldLinked.v ===== *)
(** * TldLinked: a program that reads capsules

    The invariant of TldSafeState for a front end of the program that reads
    several capsules, between them: its unit sets are set up, or will be when
    the first capsule is read. [known] is what holds of the usage and the
    definition of a defined name. Both the linker (frontend/linker.c under
    tld/src) and the builder (frontend/builder.c) are instances. *)
From stdpp Require Import base list list_numbers numbers.
From Stdlib Require Import ZArith Lia.
From S2P Require Import Prelude Codec ExdsString ExdsError TldNameKey TldIO TldIOSpec HashTable TldNames.
From S2P Require Import TldRename TldNameTable TldShapes TldShapesSpec TldCapsule TldCapsuleSpec TldUsage TldRead TldReadUnits TldReadBack.
From S2P Require Import TldLibrary TldSafeState TldUnitSets TldSafeRead TldSafeLink.

Section Linked.
Variable known : Z -> nat -> Prop.
Variable junk : nat -> Z.
Variable junk_nstring : nat -> NStringT.
Variable device : Prop.

(** The unit sets the program knows. *)
Context {snames : list NStringT} {tld : nat} {tld2 : option nat}.

Abbreviation sets_at := (seq 0 (length snames)).
Abbreviation start_units := (set_up snames tld tld2).2.
Abbreviation safe_link := (safe_link (linking_tables known) device sets_at tld tld2).

(** The linker once its unit sets are set up; [c]: the units that were not
    read to their end. *)
Definition linked (c : list (nat * nat)) (l : LinkT) : Prop :=
  safe_link c (setup junk l) /\ same_entries start_units (l_units (setup junk l)).

(** Every unit is complete, unless an error was reported. *)
Definition complete (l : LinkT) : Prop := exists c, linked c l /\ (l_serious l = true \/ c = []).

(** A capsule has been read. *)
Definition versioned (l : LinkT) : Prop := capsule_major_version (l_statics l) <> 0 /\ setup junk l = l.

Lemma setup_reader r b l : setup junk (Link r (l_statics l) (l_units l) (l_shapes l) b) =
  Link r (l_statics (setup junk l)) (l_units (setup junk l)) (l_shapes l) b.
Proof. unfold setup. cbn. by destruct (capsule_setup junk (l_statics l) (l_units l)). Qed.

Lemma setup_shapes l : l_shapes (setup junk l) = l_shapes l /\ l_errors (setup junk l) = l_errors l /\ l_reader (setup junk l) = l_reader l.
Proof. unfold setup. by destruct (capsule_setup junk (l_statics l) (l_units l)). Qed.

(** Another reader, and perhaps an error. *)
Lemma linked_reader c l r b :
  linked c l -> safe_reader device r -> later_reports (l_errors l) b -> linked c (Link r (l_statics l) (l_units l) (l_shapes l) b).
Proof.
  intros [Hl Hu] Hr Hb. unfold linked. rewrite setup_reader. cbn [l_units]. split; [|exact Hu].
  destruct (setup_shapes l) as (E & E2 & _). apply (safe_link_reader (linking_tables known) device sets_at tld tld2 _ (setup junk l)); [exact Hr| | |exact Hl].
  - unfold same_tables. cbn. by rewrite E.
  - cbn. by rewrite E2.
Qed.

Lemma complete_reader l r b :
  complete l -> safe_reader device r -> later_reports (l_errors l) b ->
  complete (Link r (l_statics l) (l_units l) (l_shapes l) b).
Proof. intros (c & Hl & Hc) Hr Hb. exists c. split; [by apply linked_reader|]. destruct Hc as [Hc|Hc]; [left; by eapply later_any_error|by right]. Qed.

Lemma start_linked g0 r t b :
  unit_sets_checked snames tld tld2 -> capsule_setup junk g0 unit_table_create = set_up snames tld tld2 ->
  safe_reader device r -> safe_shapes (linking_tables known) t -> quiet b -> linked [] (Link r g0 unit_table_create t b).
Proof.
  intros Hc Hs Hr Ht Hb. split; [by apply start_link_safe|]. unfold setup. cbn [l_statics l_units]. rewrite Hs.
  by destruct (set_up snames tld tld2).
Qed.

Lemma versioned_reader l r b : versioned l -> versioned (Link r (l_statics l) (l_units l) (l_shapes l) b).
Proof. intros [Hv E]. split; [exact Hv|]. by rewrite setup_reader, E. Qed.

(** What the reading of one capsule leaves. *)
Lemma capsule_complete capsule l :
  (forall u v c, known u c -> known (Z.lor u v) c) ->
  (forall u v, has v U_DEFD || has v U_MULT = true -> known (Z.lor u v) capsule) -> complete l ->
  match capsule_read junk junk_nstring capsule l with
  | (l', Ok ok) => complete l' /\ (l_serious l' = true \/ ok = true /\ versioned l') /\ (versioned l -> versioned l') /\
      later (l_shapes l) (l_shapes l') /\ later_reports (l_errors l) (l_errors l')
  | (l', Throw Stop) => exhausted l'
  | (l', Throw Fatal_error) => too_many (l_errors l')
  | (_, Throw (XX_tdf (XX_bistream_read_error _))) => device
  | (_, Throw _) => False
  end.
Proof.
  intros Hmore Hnew (c & [Hl [Hu1 Hu2]] & Hc). pose proof (capsule_read_ok junk junk_nstring device sets_at tld tld2 c capsule l Hmore Hnew Hl) as H.
  destruct (capsule_read junk junk_nstring capsule l) as [l' [b|e]]; [|exact H].
  destruct H as (Hlt & H). pose proof Hlt as (Hlt' & _ & [Hu3 Hu4] & Hv' & Hs). destruct (setup_shapes l) as (Et & Es & _). rewrite Es in Hs. rewrite Et in Hlt'.
  assert (forall c', safe_link c' l' -> linked c' l' /\ setup junk l' = l') as Hlinked.
  { intros c' Hc'. pose proof (setup_safe _ junk _ _ _ _ _ _ Hc') as E. unfold linked. rewrite E. split; [|reflexivity].
    split; [exact Hc'|]. split; congruence. }
  assert (versioned l -> capsule_major_version (l_statics l') <> 0) as Hver.
  { intros [Hv E]. rewrite E in Hv'. by apply Hv'. }
  destruct b.
  - destruct H as [Hl' Hv]. destruct (Hlinked c Hl') as [Hc' E]. split; [exists c; split; [exact Hc'|]; destruct Hc as [Hc|Hc]; [left; by eapply later_any_error|by right]|].
    split; [right; by split|]. split; [|by split]. intros Hvl. split; [by apply Hver|exact E].
  - destruct H as (Hser & c' & Hl'). destruct (Hlinked c' Hl') as [Hc' E]. split; [exists c'; auto|]. split; [by left|]. split; [|by split]. intros Hvl. split; [by apply Hver|exact E].
Qed.

Lemma complete_quiet l : complete l -> quiet (l_errors l).
Proof. intros (c & [Hc _] & _). pose proof (sl_quiet _ _ _ _ _ _ _ Hc) as Hx. by rewrite (proj1 (proj2 (setup_shapes l))) in Hx. Qed.

Lemma complete_safe l : complete l -> safe_reader device (l_reader l).
Proof.
  intros (c & [Hc _] & _). pose proof (sl_reader _ _ _ _ _ _ _ Hc) as Hx. by rewrite (proj2 (proj2 (setup_shapes l))) in Hx.
Qed.

(** The linker, and perhaps an exception. *)
Definition link_ends {A} (x : LinkT * result capsule_exn A) (Q : LinkT -> Prop) : Prop :=
  match x with
  | (l', Ok _) => Q l'
  | (l', Throw Stop) => exhausted l'
  | (l', Throw Fatal_error) => too_many (l_errors l')
  | (_, Throw (XX_tdf (XX_bistream_read_error _))) => device
  | (_, Throw _) => False
  end.

(** The index of the libraries, as the operations on it see it. *)
Definition index_of (l : LinkT) (lib : ShapeTableT) : LinkT := Link (l_reader l) (l_statics l) (l_units l) lib (l_errors l).

(** The linker after an operation on the index. *)
Definition link_of (l l' : LinkT) : LinkT := Link (l_reader l') (l_statics l') (l_units l) (l_shapes l) (l_errors l').

(** Setting up the unit sets does not look at the version. *)
Lemma setup_versions g g' u : same_setup g g' ->
  capsule_setup junk g' u =
    let '(g1, u1) := capsule_setup junk g u in
    (Statics (capsule_unit_sets g1) (capsule_tld_index g1) (capsule_tld2_index g1)
       (capsule_major_version g') (capsule_minor_version g') (need_setup g1), u1).
Proof.
  destruct g as [sets i1 i2 v w b], g' as [sets' i1' i2' v' w' b']. intros [(E1 & E2 & E3) E4]. cbn in E1, E2, E3, E4. subst.
  unfold capsule_setup, capsule_setup_defaults. cbn [need_setup capsule_unit_sets]. destruct b; [|reflexivity].
  destruct sets; cbn [capsule_unit_sets capsule_tld_index capsule_tld2_index capsule_major_version capsule_minor_version];
    by destruct (setup_loop _ _ _ _).
Qed.

Lemma setup_version l :
  capsule_major_version (l_statics (setup junk l)) = capsule_major_version (l_statics l) /\
  capsule_minor_version (l_statics (setup junk l)) = capsule_minor_version (l_statics l).
Proof.
  unfold setup. assert (same_setup (l_statics l) (l_statics l)) as H by by split_and!.
  rewrite (setup_versions _ _ (l_units l) H). by destruct (capsule_setup junk (l_statics l) (l_units l)).
Qed.

Lemma index_safe tk l lib :
  ~ tk_linking tk -> complete l -> safe_shapes tk lib ->
  TldSafeState.safe_link tk device sets_at tld tld2 [] (index_of l lib).
Proof.
  intros Hk (c & [[H1 [H2 H3 _ _ _ _] _ _ H5] _] & _) Hlib. destruct (setup_version l) as [E1 E2].
  rewrite (proj1 (proj2 (setup_shapes l))) in H5.
  rewrite (proj2 (proj2 (setup_shapes l))) in H1. rewrite E1 in H2. rewrite E2 in H3.
  constructor; [exact H1| |exact Hlib|by intros ?|exact H5]. by constructor.
Qed.

Lemma index_back tk c' l lib l' :
  complete l -> TldSafeState.safe_link tk device sets_at tld tld2 c' l' -> later_link (index_of l lib) l' ->
  complete (link_of l l') /\ (versioned l -> versioned (link_of l l')).
Proof.
  intros (c & [Hl Hu] & Hc) [R1 [R2 R3 _ _ _ _] _ _ R5] (_ & S & _ & Hv' & Hs'). cbn in S, Hv', Hs'.
  assert (setup junk (link_of l l') = Link (l_reader l') (Statics (capsule_unit_sets (l_statics (setup junk l)))
    (capsule_tld_index (l_statics (setup junk l))) (capsule_tld2_index (l_statics (setup junk l)))
    (capsule_major_version (l_statics l')) (capsule_minor_version (l_statics l')) (need_setup (l_statics (setup junk l))))
    (l_units (setup junk l)) (l_shapes l) (l_errors l')) as E.
  { unfold setup at 1. cbn [l_statics l_units l_reader l_shapes l_errors link_of]. rewrite (setup_versions _ _ (l_units l) S).
    unfold setup. by destruct (capsule_setup junk (l_statics l) (l_units l)). }
  split.
  - exists c. unfold linked. rewrite E. split; [split; [|exact Hu]|destruct Hc as [Hc|Hc]; [left; exact (later_any_error _ _ Hs' Hc)|by right]].
    destruct Hl as [_ [_ _ G1 G2 G3 G4] H3 H4 _]. rewrite (proj1 (setup_shapes l)) in H3, H4.
    constructor; [exact R1| |exact H3|exact H4|exact R5]. by constructor.
  - intros [Hv E']. split; [by apply Hv'|]. rewrite E, E'. destruct S as [(S1 & S2 & S3) S4]. unfold link_of.
    rewrite <- S1, <- S2, <- S3, <- S4. by destruct (l_statics l').
Qed.

End Linked.

(** Less is asked of the definitions. *)
Lemma complete_known (known known' : Z -> nat -> Prop) junk device snames tld tld2 l :
  (forall u c, known u c -> known' u c) ->
  complete known junk device (snames := snames) (tld := tld) (tld2 := tld2) l ->
  complete known' junk device (snames := snames) (tld := tld) (tld2 := tld2) l.
Proof.
  intros Hk (c & [[H1 [G1 G2 G3 G4 G5 G6] H3 H4 H5] Hu] & Hc). exists c. split; [|exact Hc]. split; [|exact Hu].
  constructor; [exact H1|by constructor| |exact H4|exact H5]. destruct H3 as [[T1 T2 T3 T4] Hs]. constructor; [by constructor|].
  intros p s E. destruct (Hs p s E) as [S1 S2 S3 S4]. constructor; auto. intros q d Ed. destruct (S4 q d Ed) as [L1 L2].
  split; [exact L1|]. intros x Hx. by apply Hk, L2.
Qed.
