(* ===== verification/TldArgs.v ===== *)
(** * TldArgs: file names and the arguments of the linker

    Models tld/src/file-name.c ([file_name_populate] is in TldExtract) and
    tld/src/adt/arg-data.c: what the command line and the rename files ask
    for. What is written to the debugging file is not modelled. A C string is
    the list of its characters, without the terminator; the position of an entry of a
    control list stands for the pointer to it. [None] is the end of the
    program after a fatal error. *)
From stdpp Require Import base list list_numbers numbers.
From Stdlib Require Import ZArith Lia.
From S2P Require Import Prelude Codec ExdsString TldNameKey.

(** ** file-name.c *)

Definition ch_slash : Z := 47.

(** What follows the first occurrence of [c], as [strchr] finds it. *)
Fixpoint after_first (c : Z) (s : list Z) : option (list Z) :=
  match s with
  | [] => None
  | x :: s => if x =? c then Some s else after_first c s
  end.

Definition file_name_basename (path : list Z) : list Z :=
  match split_last ch_slash path with
  | Some (_, last) => last
  | None => path
  end.

Definition file_name_dirname (path : list Z) : list Z :=
  match split_last ch_slash path with
  | Some (dir, _) => dir
  | None => path
  end.

Definition file_name_expand (dir name : list Z) (suffix : option (list Z)) : list Z :=
  (if bool_decide (dir = []) then []
   else if bool_decide (list.last dir = Some ch_slash) then dir else dir ++ [ch_slash])
  ++ name ++ match suffix with Some suffix => 46 :: suffix | None => [] end.

Definition file_name_is_basename (path : list Z) : bool :=
  match after_first ch_slash path with Some _ => false | None => true end.

Definition file_name_is_absolute (path : list Z) : bool :=
  match path with c :: _ => c =? ch_slash | [] => false end.

(** ** Control lists *)

Record ShapeControlEntryT := ShapeControlEntry {
  sc_shape : NStringT;
  sc_all : bool;
  sc_names : list NameKeyT
}.

Record RenameControlEntryT := RenameControlEntry {
  rc_shape : NStringT;
  rc_names : list (NameKeyT * NameKeyT)
}.

Record ArgDataT := ArgData {
  all_hide_defined : bool;
  suppress_mult : bool;
  hides : list ShapeControlEntryT;
  keeps : list ShapeControlEntryT;
  suppresses : list ShapeControlEntryT;
  renames : list RenameControlEntryT;
  extract_all : bool;
  extract_basename : bool;
  extract_match_base : bool;
  content_index : bool;
  content_size : bool;
  content_version : bool;
  missing_definitions : bool;
  debug_file : option (list Z);
  default_output_file : list Z;
  output_file : option (list Z);
  library_files : list (list Z);
  library_paths : list (list Z);
  unit_file : option (list Z);
  files : list (list Z)
}.

Section Args.
Variable junk : nat -> Z.
Variable junk_nstring : nat -> NStringT.

Definition shape_control_init : list ShapeControlEntryT := [].

Fixpoint shape_control_position (control : list ShapeControlEntryT) (shape : NStringT) : option nat :=
  match control with
  | [] => None
  | e :: control => if nstring_equal shape (sc_shape e) then Some O else S <$> shape_control_position control shape
  end.

(** A new entry starts the list. *)
Definition shape_control_find (control : list ShapeControlEntryT) (shape : list Z) : list ShapeControlEntryT * nat :=
  let nstring := nstring_copy_cstring junk shape in
  match shape_control_position control nstring with
  | Some i => (control, i)
  | None => (ShapeControlEntry (nstring_assign nstring) false [] :: control, 0%nat)
  end.

(** With whether an error was reported; the terminator is put back for the
    parser, which never goes past it. *)
Definition shape_control_entry_add_name (entry : ShapeControlEntryT) (name : list Z) : option (ShapeControlEntryT * bool) :=
  match name_key_parse_cstring junk junk_nstring (name ++ [0]) with
  | Parsed key => Some (ShapeControlEntry (sc_shape entry) (sc_all entry) (name_key_list_add (sc_names entry) key), false)
  | Rejected => Some (entry, true)
  | Overrun => None
  end.

Definition shape_control_entry_set (entry : ShapeControlEntryT) : ShapeControlEntryT :=
  ShapeControlEntry (sc_shape entry) true (sc_names entry).

Definition rename_control_init : list RenameControlEntryT := [].

Fixpoint rename_control_position (control : list RenameControlEntryT) (shape : NStringT) : option nat :=
  match control with
  | [] => None
  | e :: control => if nstring_equal shape (rc_shape e) then Some O else S <$> rename_control_position control shape
  end.

Definition rename_control_find (control : list RenameControlEntryT) (shape : NStringT) : list RenameControlEntryT * nat :=
  match rename_control_position control shape with
  | Some i => (control, i)
  | None => (RenameControlEntry (nstring_copy junk shape) [] :: control, 0%nat)
  end.

(** [true] when the name is renamed already, which is reported. *)
Definition rename_control_entry_add (entry : RenameControlEntryT) (from to : NameKeyT) : RenameControlEntryT * bool :=
  let '(added, names) := name_key_pair_list_add (rc_names entry) from to in
  (RenameControlEntry (rc_shape entry) names, negb added).

Definition rename_control_entry_parse_pair (entry : RenameControlEntryT) (from to : list Z)
  : option (RenameControlEntryT * bool) :=
  match name_key_parse_cstring junk junk_nstring (from ++ [0]) with
  | Overrun => None
  | Rejected => Some (entry, true)
  | Parsed from_key =>
      match name_key_parse_cstring junk junk_nstring (to ++ [0]) with
      | Overrun => None
      | Rejected => Some (entry, true)
      | Parsed to_key => Some (rename_control_entry_add entry from_key to_key)
      end
  end.

(** ** arg-data.c *)

Definition arg_data_init (default_output_file : list Z) : ArgDataT :=
  ArgData false false shape_control_init shape_control_init shape_control_init rename_control_init
    false false false false false false false None default_output_file None [] [] None [].

Definition with_hides (a : ArgDataT) (h : list ShapeControlEntryT) : ArgDataT :=
  ArgData (all_hide_defined a) (suppress_mult a) h (keeps a) (suppresses a) (renames a) (extract_all a)
    (extract_basename a) (extract_match_base a) (content_index a) (content_size a) (content_version a)
    (missing_definitions a) (debug_file a) (default_output_file a) (output_file a) (library_files a) (library_paths a) (unit_file a) (files a).

Definition with_keeps (a : ArgDataT) (k : list ShapeControlEntryT) : ArgDataT :=
  ArgData (all_hide_defined a) (suppress_mult a) (hides a) k (suppresses a) (renames a) (extract_all a)
    (extract_basename a) (extract_match_base a) (content_index a) (content_size a) (content_version a)
    (missing_definitions a) (debug_file a) (default_output_file a) (output_file a) (library_files a) (library_paths a) (unit_file a) (files a).

Definition with_suppresses (a : ArgDataT) (s : list ShapeControlEntryT) : ArgDataT :=
  ArgData (all_hide_defined a) (suppress_mult a) (hides a) (keeps a) s (renames a) (extract_all a)
    (extract_basename a) (extract_match_base a) (content_index a) (content_size a) (content_version a)
    (missing_definitions a) (debug_file a) (default_output_file a) (output_file a) (library_files a) (library_paths a) (unit_file a) (files a).

Definition with_renames (a : ArgDataT) (r : list RenameControlEntryT) : ArgDataT :=
  ArgData (all_hide_defined a) (suppress_mult a) (hides a) (keeps a) (suppresses a) r (extract_all a)
    (extract_basename a) (extract_match_base a) (content_index a) (content_size a) (content_version a)
    (missing_definitions a) (debug_file a) (default_output_file a) (output_file a) (library_files a) (library_paths a) (unit_file a) (files a).

Definition arg_data_set_all_hide_defd (a : ArgDataT) (enable : bool) : ArgDataT :=
  ArgData enable (suppress_mult a) (hides a) (keeps a) (suppresses a) (renames a) (extract_all a)
    (extract_basename a) (extract_match_base a) (content_index a) (content_size a) (content_version a)
    (missing_definitions a) (debug_file a) (default_output_file a) (output_file a) (library_files a) (library_paths a) (unit_file a) (files a).

Definition arg_data_get_all_hide_defd (a : ArgDataT) : bool := all_hide_defined a.

Definition arg_data_set_suppress_mult (a : ArgDataT) (enable : bool) : ArgDataT :=
  ArgData (all_hide_defined a) enable (hides a) (keeps a) (suppresses a) (renames a) (extract_all a)
    (extract_basename a) (extract_match_base a) (content_index a) (content_size a) (content_version a)
    (missing_definitions a) (debug_file a) (default_output_file a) (output_file a) (library_files a) (library_paths a) (unit_file a) (files a).

Definition arg_data_get_suppress_mult (a : ArgDataT) : bool := suppress_mult a.

Definition arg_data_set_extract_all (a : ArgDataT) (enable : bool) : ArgDataT :=
  ArgData (all_hide_defined a) (suppress_mult a) (hides a) (keeps a) (suppresses a) (renames a) enable
    (extract_basename a) (extract_match_base a) (content_index a) (content_size a) (content_version a)
    (missing_definitions a) (debug_file a) (default_output_file a) (output_file a) (library_files a) (library_paths a) (unit_file a) (files a).

Definition arg_data_get_extract_all (a : ArgDataT) : bool := extract_all a.

Definition arg_data_set_extract_basename (a : ArgDataT) (enable : bool) : ArgDataT :=
  ArgData (all_hide_defined a) (suppress_mult a) (hides a) (keeps a) (suppresses a) (renames a) (extract_all a)
    enable (extract_match_base a) (content_index a) (content_size a) (content_version a)
    (missing_definitions a) (debug_file a) (default_output_file a) (output_file a) (library_files a) (library_paths a) (unit_file a) (files a).

Definition arg_data_get_extract_basename (a : ArgDataT) : bool := extract_basename a.

Definition arg_data_set_extract_match_base (a : ArgDataT) (enable : bool) : ArgDataT :=
  ArgData (all_hide_defined a) (suppress_mult a) (hides a) (keeps a) (suppresses a) (renames a) (extract_all a)
    (extract_basename a) enable (content_index a) (content_size a) (content_version a)
    (missing_definitions a) (debug_file a) (default_output_file a) (output_file a) (library_files a) (library_paths a) (unit_file a) (files a).

Definition arg_data_get_extract_match_base (a : ArgDataT) : bool := extract_match_base a.

Definition arg_data_set_content_index (a : ArgDataT) (enable : bool) : ArgDataT :=
  ArgData (all_hide_defined a) (suppress_mult a) (hides a) (keeps a) (suppresses a) (renames a) (extract_all a)
    (extract_basename a) (extract_match_base a) enable (content_size a) (content_version a)
    (missing_definitions a) (debug_file a) (default_output_file a) (output_file a) (library_files a) (library_paths a) (unit_file a) (files a).

Definition arg_data_get_content_index (a : ArgDataT) : bool := content_index a.

Definition arg_data_set_content_size (a : ArgDataT) (enable : bool) : ArgDataT :=
  ArgData (all_hide_defined a) (suppress_mult a) (hides a) (keeps a) (suppresses a) (renames a) (extract_all a)
    (extract_basename a) (extract_match_base a) (content_index a) enable (content_version a)
    (missing_definitions a) (debug_file a) (default_output_file a) (output_file a) (library_files a) (library_paths a) (unit_file a) (files a).

Definition arg_data_get_content_size (a : ArgDataT) : bool := content_size a.

Definition arg_data_set_content_version (a : ArgDataT) (enable : bool) : ArgDataT :=
  ArgData (all_hide_defined a) (suppress_mult a) (hides a) (keeps a) (suppresses a) (renames a) (extract_all a)
    (extract_basename a) (extract_match_base a) (content_index a) (content_size a) enable
    (missing_definitions a) (debug_file a) (default_output_file a) (output_file a) (library_files a) (library_paths a) (unit_file a) (files a).

Definition arg_data_get_content_version (a : ArgDataT) : bool := content_version a.

Definition arg_data_set_missing_definitions (a : ArgDataT) (enable : bool) : ArgDataT :=
  ArgData (all_hide_defined a) (suppress_mult a) (hides a) (keeps a) (suppresses a) (renames a) (extract_all a)
    (extract_basename a) (extract_match_base a) (content_index a) (content_size a) (content_version a)
    enable (debug_file a) (default_output_file a) (output_file a) (library_files a) (library_paths a) (unit_file a) (files a).

Definition arg_data_get_missing_definitions (a : ArgDataT) : bool := missing_definitions a.

(** A second debugging file, or one that cannot be opened, is fatal. *)
Definition arg_data_set_debug_file (can_write : list Z -> bool) (a : ArgDataT) (file : list Z) : option ArgDataT :=
  match debug_file a with
  | Some _ => None
  | None =>
      if can_write file then
        Some (
  ArgData (all_hide_defined a) (suppress_mult a) (hides a) (keeps a) (suppresses a) (renames a) (extract_all a)
    (extract_basename a) (extract_match_base a) (content_index a) (content_size a) (content_version a)
    (missing_definitions a) (Some file) (default_output_file a) (output_file a) (library_files a) (library_paths a) (unit_file a) (files a))
      else None
  end.

Definition with_unit_file (a : ArgDataT) (file : list Z) : ArgDataT :=
  ArgData (all_hide_defined a) (suppress_mult a) (hides a) (keeps a) (suppresses a) (renames a) (extract_all a)
    (extract_basename a) (extract_match_base a) (content_index a) (content_size a) (content_version a)
    (missing_definitions a) (debug_file a) (default_output_file a) (output_file a) (library_files a) (library_paths a) (Some file) (files a).

(** The name is added to the entry of the shape. *)
Definition control_add_name (control : list ShapeControlEntryT) (shape name : list Z)
  : option (list ShapeControlEntryT * bool) :=
  let '(control, i) := shape_control_find control shape in
  entry ← control !! i;
  '(entry, err) ← shape_control_entry_add_name entry name;
  Some (<[i := entry]> control, err).

Definition control_set_all (control : list ShapeControlEntryT) (shape : list Z) : option (list ShapeControlEntryT) :=
  let '(control, i) := shape_control_find control shape in
  entry ← control !! i;
  Some (<[i := shape_control_entry_set entry]> control).

Definition arg_data_add_hide (a : ArgDataT) (shape name : list Z) : option (ArgDataT * bool) :=
  '(h, err) ← control_add_name (hides a) shape name; Some (with_hides a h, err).

Definition arg_data_add_hide_defined (a : ArgDataT) (shape : list Z) : option ArgDataT :=
  h ← control_set_all (hides a) shape; Some (with_hides a h).

Definition arg_data_add_keep (a : ArgDataT) (shape name : list Z) : option (ArgDataT * bool) :=
  '(k, err) ← control_add_name (keeps a) shape name; Some (with_keeps a k, err).

Definition arg_data_add_keep_all (a : ArgDataT) (shape : list Z) : option ArgDataT :=
  k ← control_set_all (keeps a) shape; Some (with_keeps a k).

Definition arg_data_add_suppress (a : ArgDataT) (shape name : list Z) : option (ArgDataT * bool) :=
  '(s, err) ← control_add_name (suppresses a) shape name; Some (with_suppresses a s, err).

Definition arg_data_add_suppress_all (a : ArgDataT) (shape : list Z) : option ArgDataT :=
  s ← control_set_all (suppresses a) shape; Some (with_suppresses a s).

Definition arg_data_add_rename (a : ArgDataT) (shape : NStringT) (from to : NameKeyT) : option (ArgDataT * bool) :=
  let '(control, i) := rename_control_find (renames a) shape in
  entry ← control !! i;
  let '(entry, err) := rename_control_entry_add entry from to in
  Some (with_renames a (<[i := entry]> control), err).

Definition arg_data_parse_rename (a : ArgDataT) (shape from to : list Z) : option (ArgDataT * bool) :=
  let '(control, i) := rename_control_find (renames a) (nstring_copy_cstring junk shape) in
  entry ← control !! i;
  '(entry, err) ← rename_control_entry_parse_pair entry from to;
  Some (with_renames a (<[i := entry]> control), err).

(** A second output file is fatal. *)
Definition arg_data_set_output_file (a : ArgDataT) (file : list Z) : option ArgDataT :=
  match output_file a with
  | Some _ => None
  | None =>
      Some (ArgData (all_hide_defined a) (suppress_mult a) (hides a) (keeps a) (suppresses a) (renames a) (extract_all a)
        (extract_basename a) (extract_match_base a) (content_index a) (content_size a) (content_version a)
        (missing_definitions a) (debug_file a) (default_output_file a) (Some file) (library_files a) (library_paths a) (unit_file a) (files a))
  end.

Definition arg_data_get_output_file (a : ArgDataT) : list Z :=
  match output_file a with Some file => file | None => default_output_file a end.

(** A library is listed once; the vectors made of the lists keep their order. *)
Definition arg_data_add_library_file (a : ArgDataT) (file : list Z) : ArgDataT :=
  ArgData (all_hide_defined a) (suppress_mult a) (hides a) (keeps a) (suppresses a) (renames a) (extract_all a)
    (extract_basename a) (extract_match_base a) (content_index a) (content_size a) (content_version a)
    (missing_definitions a) (debug_file a) (default_output_file a) (output_file a)
    (if bool_decide (file ∈ library_files a) then library_files a else library_files a ++ [file])
    (library_paths a) (unit_file a) (files a).

Definition arg_data_add_library_path (a : ArgDataT) (directory : list Z) : ArgDataT :=
  ArgData (all_hide_defined a) (suppress_mult a) (hides a) (keeps a) (suppresses a) (renames a) (extract_all a)
    (extract_basename a) (extract_match_base a) (content_index a) (content_size a) (content_version a)
    (missing_definitions a) (debug_file a) (default_output_file a) (output_file a) (library_files a)
    (library_paths a ++ [directory]) (unit_file a) (files a).

Definition arg_data_set_files (a : ArgDataT) (fs : list (list Z)) : ArgDataT :=
  ArgData (all_hide_defined a) (suppress_mult a) (hides a) (keeps a) (suppresses a) (renames a) (extract_all a)
    (extract_basename a) (extract_match_base a) (content_index a) (content_size a) (content_version a)
    (missing_definitions a) (debug_file a) (default_output_file a) (output_file a) (library_files a) (library_paths a) (unit_file a) fs.
End Args.
