(* ===== verification/TldArgsSpec.v ===== *)
(** * TldArgsSpec: the arguments are well formed

    Whatever names the command line and the rename files give, the operations
    of tld/src/adt/arg-data.c keep the arguments in the form that the linker
    relies on. *)
From stdpp Require Import base list list_numbers numbers.
From Stdlib Require Import ZArith Lia.
From S2P Require Import Prelude Codec ExdsString TldNameKey TldIO TldIOSpec TldArgs.

Definition ok_rename (r : NameKeyT * NameKeyT) : Prop := ok_key r.1 /\ ok_key r.2.

Definition control_ok (r : RenameControlEntryT) : Prop :=
  ok_nstring (rc_shape r) /\ Forall ok_rename (rc_names r) /\ NoDup (rc_names r).*1.

Definition control_names_ok (c : ShapeControlEntryT) : Prop := Forall wf_key (sc_names c).

Record args_ok (args : ArgDataT) : Prop := {
  ao_renames : Forall control_ok (renames args);
  ao_distinct : NoDup (rc_shape <$> renames args);
  ao_hides : Forall control_names_ok (hides args);
  ao_keeps : Forall control_names_ok (keeps args);
  ao_suppresses : Forall control_names_ok (suppresses args)
}.

(** A string of the command line. *)
Definition c_string (s : list Z) : Prop := Forall (fun c => 0 < c < 256) s /\ Z.of_nat (length s) + 1 < 2 ^ 32.

Lemma c_string_bytes s : c_string s -> Forall is_byte s.
Proof. intros [H _]. eapply Forall_impl; [|exact H]. unfold is_byte. intros. lia. Qed.

Section ArgsSpec.
Variable junk : nat -> Z.
Variable junk_nstring : nat -> NStringT.

(** ** Parsing a name *)

Lemma parse_escaped_ok name c rest :
  Forall is_byte name -> name_key_parse_escaped name = Parsed (c, rest) ->
  is_byte c /\ Forall is_byte rest /\ (length rest < length name)%nat.
Proof.
  intros Hb. unfold name_key_parse_escaped. destruct name as [|c0 name]; [discriminate|]. cbn [deref parsed_bind].
  inversion Hb as [|? ? _ Hb']; subst. destruct name as [|c1 name]; [discriminate|]. cbn [deref parsed_bind].
  inversion Hb' as [|? ? Hc1 Hb2]; subst.
  assert (forall d, is_byte d -> Parsed (d, name) = Parsed (c, rest) ->
    is_byte c /\ Forall is_byte rest /\ (length rest < S (S (length name)))%nat) as Hone.
  { intros d Hd [= <- <-]. split_and!; auto; lia. }
  destruct ((c1 =? 120) || (c1 =? 88)).
  { destruct (name_key_parse_hex_char (c1 :: name)) as [d| |] eqn:Eh; cbn [parsed_bind]; try discriminate. intros [= <- <-].
    split; [|split; [by apply Forall_drop|rewrite length_drop; cbn; lia]].
    unfold name_key_parse_hex_char in Eh. cbn [deref parsed_bind] in Eh. destruct (_ =? _); [discriminate|].
    destruct name as [|c2 name]; [discriminate|]. cbn [deref parsed_bind] in Eh. destruct (_ =? _); [discriminate|].
    injection Eh as <-. unfold is_byte. change 256 with (2 ^ 8). apply lor_bound; [lia| |]; apply Z.mod_pos_bound; reflexivity. }
  repeat (match goal with |- context [if ?b then _ else _] => destruct b end; [apply Hone; unfold is_byte in *; lia|]).
  discriminate.
Qed.

Lemma string_loop_bounds fuel : forall name d d',
  Forall is_byte name -> wf_dstring d -> Forall is_byte (d_str d) -> string_loop junk fuel name d = Parsed d' ->
  wf_dstring d' /\ Forall is_byte (d_str d') /\ (length (d_str d') <= length (d_str d) + length name)%nat.
Proof.
  induction fuel as [|fuel IH]; intros name d d' Hn Hd Hb; cbn [string_loop]; [discriminate|].
  destruct name as [|c next]; [discriminate|]. cbn [deref parsed_bind]. inversion Hn; subst.
  destruct (c =? 0); [intros [= <-]; split_and!; auto; lia|]. destruct (_ || _); [discriminate|].
  assert (forall c rest, is_byte c -> Forall is_byte rest -> (length rest <= length next)%nat ->
    string_loop junk fuel rest (dstring_append_char junk d c) = Parsed d' ->
    wf_dstring d' /\ Forall is_byte (d_str d') /\ (length (d_str d') <= length (d_str d) + length (c :: next))%nat) as Hgo.
  { intros c' rest Hc' Hr Hlen E. destruct (dstring_append_char_ok junk d c' Hd) as [Hd1 E1].
    destruct (IH rest _ d' Hr Hd1 ltac:(rewrite E1; apply Forall_app; by split; [|apply Forall_singleton]) E) as (A1 & A2 & A3).
    split_and!; auto. rewrite E1, length_app in A3. cbn in *. lia. }
  destruct (c =? ch_backslash).
  - destruct (name_key_parse_escaped (c :: next)) as [[c' rest]| |] eqn:Ee; cbn [parsed_bind]; try discriminate.
    destruct (parse_escaped_ok _ _ _ Hn Ee) as (A1 & A2 & A3). apply (Hgo c' rest); [exact A1|exact A2|]. cbn in A3. lia.
  - apply (Hgo c next); [assumption|assumption|lia].
Qed.

Lemma parse_cstring_ok name key : c_string name -> name_key_parse_cstring junk junk_nstring (name ++ [0]) = Parsed key -> ok_key key.
Proof.
  intros Hs. pose proof (c_string_bytes name Hs) as Hb. unfold name_key_parse_cstring.
  assert (Forall is_byte (name ++ [0])) as Hb0 by (apply Forall_app; split; [exact Hb|by apply Forall_singleton]).
  assert (length (name ++ [0]) = S (length name)) as Hl0 by (rewrite length_app; cbn; lia).
  destruct (name ++ [0]) as [|c t] eqn:E; [by destruct name|]. cbn [deref parsed_bind]. destruct (Z.eqb_spec c ch_open) as [->|_].
  - intros H. exfalso. apply (unique_never_parsed junk junk_nstring t key). unfold name_key_parse_cstring. cbn [deref parsed_bind].
    by rewrite Z.eqb_refl.
  - unfold name_key_parse_cstring_string. destruct (string_loop _ _ _ _) as [d| |] eqn:El; cbn [parsed_bind]; try discriminate.
    intros [= <-]. destruct (dstring_init_ok junk) as [H0 E0].
    destruct (string_loop_bounds _ _ _ d Hb0 H0
      ltac:(by rewrite E0) El) as (Hd & Hdb & Hlen).
    rewrite E0, Hl0 in Hlen. cbn in Hlen. unfold name_key_init_string, nstring_assign.
    rewrite dstring_to_nstring_ok by exact Hd. unfold nstring_length. cbn [n_length n_contents ok_key].
    assert (length (d_str d) = d_length d) as Hl by (unfold d_str; rewrite length_take; destruct Hd; lia).
    split; [split; [exact Hl|exact Hdb]|]. cbn. destruct Hs as [_ Hs]. rewrite <- Hl. lia.
Qed.

(** ** Control lists *)

Lemma control_add_name_ok control shape name control' err :
  c_string name -> Forall control_names_ok control -> control_add_name junk junk_nstring control shape name = Some (control', err) ->
  Forall control_names_ok control'.
Proof.
  intros Hn Hc. unfold control_add_name.
  assert (Forall control_names_ok (shape_control_find junk control shape).1) as Hc1.
  { unfold shape_control_find. destruct (shape_control_position _ _); [exact Hc|]. constructor; [apply Forall_nil_2|exact Hc]. }
  destruct (shape_control_find junk control shape) as [c1 i]. cbn [fst] in Hc1.
  destruct (c1 !! i) as [e|] eqn:Ei; [|discriminate]. cbn [mbind option_bind]. unfold shape_control_entry_add_name.
  pose proof (Forall_lookup_1 _ _ _ _ Hc1 Ei) as He.
  destruct (name_key_parse_cstring junk junk_nstring (name ++ [0])) as [key| |] eqn:Ep; [| |discriminate]; cbn [mbind option_bind];
    intros [= <- <-]; apply Forall_insert; auto.
  unfold control_names_ok, name_key_list_add in *. cbn [sc_names]. destruct (name_key_list_mem _ _); [exact He|].
  constructor; [|exact He]. rewrite name_key_assign_id. by eapply ok_key_wf, parse_cstring_ok.
Qed.

Lemma control_set_all_ok control shape control' :
  Forall control_names_ok control -> control_set_all junk control shape = Some control' -> Forall control_names_ok control'.
Proof.
  intros Hc. unfold control_set_all.
  assert (Forall control_names_ok (shape_control_find junk control shape).1) as Hc1.
  { unfold shape_control_find. destruct (shape_control_position _ _); [exact Hc|]. constructor; [apply Forall_nil_2|exact Hc]. }
  destruct (shape_control_find junk control shape) as [c1 i]. cbn [fst] in Hc1.
  destruct (c1 !! i) as [e|] eqn:Ei; [|discriminate]. cbn [mbind option_bind]. intros [= <-].
  apply Forall_insert; [exact Hc1|]. exact (Forall_lookup_1 _ _ _ _ Hc1 Ei).
Qed.

(** ** Renames *)

Definition renames_ok (rc : list RenameControlEntryT) : Prop := Forall control_ok rc /\ NoDup (rc_shape <$> rc).

Lemma rename_find_ok rc shape :
  renames_ok rc -> ok_nstring shape ->
  let '(rc', i) := rename_control_find junk rc shape in
  renames_ok rc' /\ exists e, rc' !! i = Some e /\ rc_shape e = shape.
Proof.
  intros [Hrc Hnd] Hs. unfold rename_control_find.
  assert (match rename_control_position rc shape with
    | Some i => exists e, rc !! i = Some e /\ rc_shape e = shape
    | None => shape ∉ (rc_shape <$> rc)
    end) as H.
  { clear Hnd. induction Hrc as [|e rc [He _] Hrc IH]; cbn; [inversion 1|]. destruct (nstring_equal shape (rc_shape e)) eqn:E.
    - apply nstring_equal_iff in E; [by exists e|apply Hs|apply He].
    - destruct (rename_control_position rc shape) as [i|]; cbn; [exact IH|]. rewrite elem_of_cons. intros [->|Hin]; [|by apply IH].
      rewrite (proj2 (nstring_equal_iff _ _ (proj1 He) (proj1 He)) eq_refl) in E. discriminate. }
  destruct (rename_control_position rc shape) as [i|]; [by split|].
  rewrite nstring_copy_id by apply Hs. split; [|eexists; by split]. split; cbn.
  - constructor; [|exact Hrc]. split; [exact Hs|]. split; constructor.
  - by constructor.
Qed.

Lemma rename_set_ok rc i e e' : renames_ok rc -> rc !! i = Some e -> control_ok e' -> rc_shape e' = rc_shape e -> renames_ok (<[i := e']> rc).
Proof.
  intros [Hrc Hnd] Ei He' Es. split; [by apply Forall_insert|]. rewrite list_fmap_insert, list_insert_id; [exact Hnd|].
  by rewrite list_lookup_fmap, Ei, Es.
Qed.

Lemma entry_add_ok e from to : control_ok e -> ok_key from -> ok_key to ->
  control_ok (rename_control_entry_add e from to).1 /\ rc_shape (rename_control_entry_add e from to).1 = rc_shape e.
Proof.
  intros (H1 & H2 & H3) Hf Ht. unfold rename_control_entry_add, name_key_pair_list_add.
  pose proof (pair_list_mem_iff (rc_names e) from) as Hm.
  destruct (name_key_pair_list_mem (rc_names e) from); cbn; [by split; [split|]|]. rewrite !name_key_assign_id.
  split; [|reflexivity]. split; [exact H1|]. split; [by constructor|]. cbn. constructor; [|exact H3].
  rewrite <- Hm; [discriminate| |by apply ok_key_wf]. eapply Forall_impl; [|exact H2]. intros r [Hr _]. by apply ok_key_wf.
Qed.

Lemma add_rename_args_ok a shape from to :
  args_ok a -> ok_nstring shape -> ok_key from -> ok_key to ->
  exists a' err, arg_data_add_rename junk a shape from to = Some (a', err) /\ args_ok a'.
Proof.
  intros [A1 A2 A3 A4 A5] Hs Hf Ht. unfold arg_data_add_rename.
  pose proof (rename_find_ok (renames a) shape (conj A1 A2) Hs) as H. destruct (rename_control_find junk (renames a) shape) as [rc i].
  destruct H as (Hrc & e & Ei & Es). rewrite Ei. cbn [mbind option_bind].
  destruct (entry_add_ok e from to (Forall_lookup_1 _ _ _ _ (proj1 Hrc) Ei) Hf Ht) as [H1 H2].
  destruct (rename_control_entry_add e from to) as [e' err]. cbn in H1, H2. exists (with_renames a (<[i:=e']> rc)), err.
  split; [reflexivity|]. destruct (rename_set_ok rc i e e' Hrc Ei H1 H2). by constructor.
Qed.

(** The arguments are those of [a0], but for the renames. *)
Definition only_renames (a0 a : ArgDataT) : Prop := args_ok a /\ a = with_renames a0 (renames a).

Lemma only_renames_refl a : args_ok a -> only_renames a a.
Proof. intros H. split; [exact H|by destruct a]. Qed.

Lemma add_rename_only a0 a shape from to a' err :
  only_renames a0 a -> args_ok a' -> arg_data_add_rename junk a shape from to = Some (a', err) -> only_renames a0 a'.
Proof.
  intros [_ E] H. unfold arg_data_add_rename. destruct (rename_control_find _ _ _) as [rc i]. destruct (rc !! i) as [e|]; [|discriminate].
  cbn [mbind option_bind]. destruct (rename_control_entry_add e from to) as [e' err']. intros [= <- _]. split; [exact H|]. by rewrite E.
Qed.

Lemma copy_cstring_eq s : nstring_copy_cstring junk s = NString (length s) s.
Proof. unfold nstring_copy_cstring. rewrite copy_chars_ok by lia. by rewrite take_ge by lia. Qed.

Lemma cstring_ok s : c_string s -> ok_nstring (nstring_copy_cstring junk s).
Proof.
  intros Hs. rewrite copy_cstring_eq. destruct Hs as [H1 H2].
  split; [split; [reflexivity|]|cbn; lia]. cbn. eapply Forall_impl; [|exact H1]. unfold is_byte. intros. lia.
Qed.

Lemma parse_rename_args_ok a shape from to a' err :
  args_ok a -> c_string shape -> c_string from -> c_string to ->
  arg_data_parse_rename junk junk_nstring a shape from to = Some (a', err) -> args_ok a'.
Proof.
  intros [A1 A2 A3 A4 A5] Hs Hf Ht. unfold arg_data_parse_rename.
  pose proof (rename_find_ok (renames a) _ (conj A1 A2) (cstring_ok shape Hs)) as H.
  destruct (rename_control_find junk (renames a) _) as [rc i]. destruct H as (Hrc & e & Ei & _). rewrite Ei. cbn [mbind option_bind].
  pose proof (Forall_lookup_1 _ _ _ _ (proj1 Hrc) Ei) as He.
  assert (forall e' err', rename_control_entry_parse_pair junk junk_nstring e from to = Some (e', err') -> control_ok e' /\ rc_shape e' = rc_shape e) as Hp.
  { intros e' err'. unfold rename_control_entry_parse_pair.
    destruct (name_key_parse_cstring junk junk_nstring (from ++ [0])) as [kf| |] eqn:Ef; [|intros [= <- <-]; by split|discriminate].
    destruct (name_key_parse_cstring junk junk_nstring (to ++ [0])) as [kt| |] eqn:Et; [|intros [= <- <-]; by split|discriminate].
    destruct (entry_add_ok e kf kt He (parse_cstring_ok _ _ Hf Ef) (parse_cstring_ok _ _ Ht Et)) as [H1 H2].
    destruct (rename_control_entry_add e kf kt). by intros [= <- <-]. }
  destruct (rename_control_entry_parse_pair _ _ e from to) as [[e' err']|]; [|discriminate]. cbn [mbind option_bind].
  destruct (Hp e' err' eq_refl) as [H1 H2]. intros [= <- <-]. destruct (rename_set_ok rc i e e' Hrc Ei H1 H2). by constructor.
Qed.
End ArgsSpec.
