(* ===== verification/TldLibraryWrite.v ===== *)
(** * TldLibraryWrite: what the writer of libraries writes

    The counterpart of TldCapsuleSpec for [library_write]
    (tld/src/adt/library.c): the capsules, and the index of the names that are
    defined, with counts that agree with what follows. *)
From stdpp Require Import base list list_numbers numbers.
From Stdlib Require Import ZArith Lia.
From S2P Require Import Prelude Codec ExdsString TldNameKey TldIO TldIOSpec HashTable TldNames.
From S2P Require Import TldShapes TldShapesSpec TldCapsule TldCapsuleSpec TldLibrary TldArgs TldArgsSpec.

(** ** The index *)

(** A name of the index: its usage and the capsule that defines it. *)
Definition index_name : Type := NameKeyT * (Z * nat).

Definition to_index (v : NameKeyT * DirectT) : option index_name :=
  c ← definition v.2; Some (v.1, (get_use v.2, c)).

(** The names of a table that are defined. *)
Definition lib_names (t : NameTableT) : list index_name := omap to_index (names_of t).

Definition indexed (s : ShapeEntryT) : Prop := lib_names (se_names s) <> [].
#[export] Instance indexed_dec s : Decision (indexed s).
Proof. unfold indexed. apply _. Defined.

(** The shapes of the index, in order. *)
Definition index_shapes (t : ShapeTableT) : list ShapeEntryT := filter indexed (shapes_of t).

Definition fmt_index_name (capsule_index : nat -> Z) (e : index_name) : format :=
  fmt_seq (fmt_name e.1) (fmt_seq (fmt_int e.2.1) (fmt_int (capsule_index e.2.2))).

Definition fmt_index_shape (capsule_index : nat -> Z) (s : ShapeEntryT) : format :=
  fmt_seq (fmt_string (n_contents (se_key s))) (fmt_seq (fmt_int (Z.of_nat (length (lib_names (se_names s)))))
    (fmt_list (fmt_index_name capsule_index) (lib_names (se_names s)))).

Definition fmt_index (capsule_index : nat -> Z) (t : ShapeTableT) : format :=
  fmt_seq (fmt_int (Z.of_nat (length (index_shapes t)))) (fmt_list (fmt_index_shape capsule_index) (index_shapes t)).

Definition fmt_lib_capsule (c : list Z * NStringT) : format :=
  fmt_seq (fmt_string c.1) (fmt_seq (fmt_int (Z.of_nat (n_length c.2))) (fmt_bytes (n_contents c.2))).

Definition fmt_lib_header (major minor : Z) : format :=
  fmt_seq (fmt_bytes (n_contents library_magic)) (fmt_seq (fmt_int major) (fmt_seq (fmt_int minor) fmt_align)).

(** The capsules up to the index. *)
Definition fmt_lib_capsules (cs : list (list Z * NStringT)) : format :=
  fmt_seq (fmt_int (Z.of_nat (length cs))) (fmt_list fmt_lib_capsule cs).

Definition fmt_library (major minor : Z) (cs : list (list Z * NStringT)) (capsule_index : nat -> Z) (t : ShapeTableT) : format :=
  fmt_seq (fmt_lib_header major minor) (fmt_seq (fmt_int 0) (fmt_seq (fmt_lib_capsules cs) (fmt_index capsule_index t))).

(** ** Counting *)

Lemma count_defined n l :
  0 <= n -> n + Z.of_nat (length (omap to_index l)) < 2 ^ 32 ->
  foldl (fun c v => if decide (definition v.2 = None) then c else u32 (c + 1)) n l = n + Z.of_nat (length (omap to_index l)).
Proof.
  revert n. induction l as [|v l IH]; intros n Hn Hl; cbn [foldl omap list_omap] in *; [cbn; lia|].
  unfold to_index at 1 in Hl. unfold to_index at 1. destruct (definition v.2) as [c|]; cbn [mbind option_bind length] in *.
  - rewrite decide_False by discriminate. rewrite u32_small by lia. rewrite IH; lia.
  - rewrite decide_True by reflexivity. by apply IH.
Qed.

Lemma do_lib_count_names t :
  Z.of_nat (length (lib_names t)) < 2 ^ 32 ->
  iter_count (name_entry_do_lib_count t) 0 t = Some (Z.of_nat (length (lib_names t))).
Proof.
  intros Hl. rewrite (iter_count_view _ (fun c v => if decide (definition v.2 = None) then c else u32 (c + 1))).
  - by rewrite count_defined.
  - intros a p [k d] E. apply name_view_inv in E as [E _]. unfold name_entry_do_lib_count. by rewrite E.
Qed.

(** What is asked of a table for its index to fit the format. *)
Record index_ok (s : ShapeEntryT) : Prop := {
  ix_key : ok_nstring (se_key s);
  ix_names : Forall (fun e => ok_key e.1) (lib_names (se_names s));
  ix_count : Z.of_nat (length (lib_names (se_names s))) < 2 ^ 32
}.

Definition lib_counted (s : ShapeEntryT) : ShapeEntryT := set_num_lib_names s (Z.of_nat (length (lib_names (se_names s)))).

Lemma lib_counted_same s : same_shape s (lib_counted s).
Proof. by split_and!. Qed.

Lemma lib_count_shape s a : Z.of_nat (length (lib_names (se_names s))) < 2 ^ 32 ->
  shape_entry_do_lib_count s a =
    Some (lib_counted s, if 0 <? Z.of_nat (length (lib_names (se_names s))) then u32 (a + 1) else a).
Proof. intros H. unfold shape_entry_do_lib_count. by rewrite do_lib_count_names. Qed.

(** Counting keeps the shapes but for the count. *)
Lemma lib_count_shapes_ok ps : forall t a,
  NoDup ps -> (forall p, p ∈ ps -> exists s, st_entries t !! p = Some s /\ Z.of_nat (length (lib_names (se_names s))) < 2 ^ 32) ->
  0 <= a -> a + Z.of_nat (length ps) < 2 ^ 32 ->
  exists t', shape_iter shape_entry_do_lib_count ps t a =
      Some (t', a + Z.of_nat (length (filter indexed (omap (fun p => st_entries t !! p) ps)))) /\ same_shapes t t' /\
    (forall q, q ∉ ps -> st_entries t' !! q = st_entries t !! q) /\
    (forall q, q ∈ ps -> st_entries t' !! q = lib_counted <$> st_entries t !! q).
Proof.
  induction ps as [|p ps IH]; intros t a Hnd Hp Ha Hmax.
  { exists t. cbn. split; [f_equal; f_equal; lia|]. split; [reflexivity|]. split; [auto|]. intros q Hq. inversion Hq. }
  apply list.NoDup_cons in Hnd as [Hni Hnd]. destruct (Hp p ltac:(left)) as (s & E & Hs). cbn [length] in Hmax.
  cbn [shape_iter omap list_omap]. rewrite E. cbn [mbind option_bind]. rewrite (lib_count_shape s a Hs). cbn [mbind option_bind].
  set (a1 := if 0 <? Z.of_nat (length (lib_names (se_names s))) then u32 (a + 1) else a).
  assert (a1 = a + Z.of_nat (length (filter indexed [s]))) as Ea1.
  { unfold a1. rewrite filter_cons. destruct (decide (indexed s)) as [Hi|Hi]; unfold indexed in Hi.
    - destruct (lib_names (se_names s)); [congruence|]. rewrite (proj2 (Z.ltb_lt _ _)) by (cbn [length]; lia).
      rewrite u32_small by lia. cbn. lia.
    - destruct (lib_names (se_names s)); [symmetry; apply Z.add_0_r|]. by destruct Hi. }
  assert (0 <= a1 /\ a1 <= a + 1) as Hb.
  { rewrite Ea1. pose proof (length_filter indexed [s]) as Hx. change (length [s]) with 1%nat in Hx. lia. }
  pose proof (set_shape_same t p s _ E (lib_counted_same s)) as Hsame.
  assert (forall q, q <> p -> st_entries (set_shape t p (lib_counted s)) !! q = st_entries t !! q) as Hne.
  { intros q Hq. cbn. apply list_lookup_insert_ne. congruence. }
  destruct (IH (set_shape t p (lib_counted s)) a1 Hnd) as (t' & Eiter & Ht' & Hother & Hin); [|lia|lia|].
  { intros q Hq. destruct (Hp q ltac:(by right)) as (x & Ex & Hx). exists x. rewrite Hne; [auto|]. intros ->. contradiction. }
  exists t'. split; [|split; [by etransitivity|split]].
  - rewrite Eiter, Ea1. f_equal. f_equal.
    assert (omap (fun q => st_entries (set_shape t p (lib_counted s)) !! q) ps = omap (fun q => st_entries t !! q) ps) as ->.
    { clear -Hni Hne. induction ps as [|q ps IH]; [reflexivity|]. cbn [omap list_omap].
      rewrite Hne by (intros ->; apply Hni; left). rewrite IH; [reflexivity|]. intros H. apply Hni. by right. }
    rewrite (list.filter_app indexed [s] (omap (fun q => st_entries t !! q) ps) : filter indexed (s :: _) = _), length_app. lia.
  - intros q Hq. rewrite Hother by (intros H; apply Hq; by right). apply Hne. intros ->. apply Hq. left.
  - intros q Hq. apply elem_of_cons in Hq as [->|Hq].
    + rewrite Hother by exact Hni. rewrite E. cbn. apply list_lookup_insert_eq. by eapply lookup_lt_Some.
    + rewrite Hin by exact Hq. rewrite Hne; [reflexivity|]. intros ->. contradiction.
Qed.

(** ** Writing *)

Section Write.
Variable junk : nat -> Z.
Variable capsule_index : nat -> Z.

(** A capsule that fits the format: its name is a C string. *)
Definition lib_capsule_fits (c : list Z * NStringT) : Prop := c_string c.1 /\ ok_nstring c.2.

(** The state of the program when it writes a library. *)
Record lib_ready (g : StaticsT) (shapes : ShapeTableT) (cs : list (list Z * NStringT)) : Prop := {
  lr_version : 4 <= capsule_major_version g <= UINT_MAX /\ is_unsigned (capsule_minor_version g);
  lr_shapes : wf_shapes shapes /\ Z.of_nat (length (st_entries shapes)) < 2 ^ 32;
  lr_index : Forall index_ok (shapes_of shapes);
  lr_capsules : Forall lib_capsule_fits cs /\ Z.of_nat (length cs) < 2 ^ 32;
  lr_numbers : Forall (fun s => Forall (fun e => is_unsigned (capsule_index e.2.2)) (lib_names (se_names s))) (shapes_of shapes)
}.

Lemma write_lib_header_ok g :
  4 <= capsule_major_version g <= UINT_MAX -> is_unsigned (capsule_minor_version g) ->
  owrites (library_write_header g) (fmt_lib_header (capsule_major_version g) (capsule_minor_version g)).
Proof.
  intros Hma Hmi. unfold library_write_header. rewrite (proj2 (Z.leb_le _ _)) by lia. apply owrites_some.
  apply writes_bind; [apply tdf_write_bytes_ok; vm_compute; repeat constructor; discriminate|].
  apply writes_bind; [apply tdf_write_int_ok; unfold UINT_MAX, UINT_BITS in *; lia|].
  apply writes_bind; [apply tdf_write_int_ok; exact Hmi|apply tdf_write_align_ok].
Qed.

Lemma write_lib_capsule_ok c : lib_capsule_fits c -> writes (write_lib_capsule junk c) (fmt_lib_capsule c).
Proof.
  intros [H1 H2]. unfold write_lib_capsule, fmt_lib_capsule. apply writes_bind.
  - pose proof (tdf_write_string_ok _ (cstring_ok junk c.1 H1)) as H. by rewrite copy_cstring_eq in *.
  - destruct H2 as [H2 H3]. unfold nstring_length. rewrite u32_small by lia.
    apply writes_bind; [apply tdf_write_int_ok; lia|by apply tdf_write_bytes_ok].
Qed.

Lemma write_index_name_ok t p v e :
  v ∈ names_of t -> name_view t p = Some v -> to_index v = Some e -> ok_key e.1 -> is_unsigned (capsule_index e.2.2) ->
  owrites (name_entry_do_lib_write capsule_index t p) (fmt_index_name capsule_index e).
Proof.
  intros _ E Ee Hk Hi. destruct v as [k d]. apply name_view_inv in E as [Ed Ek]. unfold name_entry_do_lib_write. rewrite Ed, Ek.
  unfold to_index in Ee. cbn [fst snd mbind option_bind] in *. destruct (definition d) as [c|]; [|discriminate]. injection Ee as <-.
  cbn [fst snd] in *. pose proof (get_use_range d). apply owrites_some, writes_bind; [by apply tdf_write_name_ok|].
  apply writes_bind; apply tdf_write_int_ok; cbn; [lia|exact Hi].
Qed.

Lemma fmt_list_omap {A B} (f : A -> option B) (F : B -> format) l :
  fmt_eq (fmt_list (fun a => from_option F fmt_nil (f a)) l) (fmt_list F (omap f l)).
Proof.
  induction l as [|a l IH]; [reflexivity|]. cbn [fmt_list foldr omap list_omap]. destruct (f a) as [b|]; cbn [from_option].
  - cbn [fmt_list foldr]. intros pos. unfold fmt_seq. f_equal. apply IH.
  - rewrite fmt_seq_nil_l. exact IH.
Qed.

Lemma write_index_shape_ok s :
  index_ok s -> Forall (fun e => is_unsigned (capsule_index e.2.2)) (lib_names (se_names s)) ->
  owrites (shape_entry_do_lib_write capsule_index (lib_counted s))
    (if decide (indexed s) then fmt_index_shape capsule_index s else fmt_nil).
Proof.
  intros [Hk Hn Hc] Hi. unfold shape_entry_do_lib_write, lib_counted. cbn [num_lib_names set_num_lib_names se_names se_key].
  destruct (decide (indexed s)) as [Hx|Hx]; unfold indexed in Hx.
  2: { destruct (lib_names (se_names s)) eqn:E; [|by destruct Hx]. apply owrites_skip. }
  rewrite (proj2 (Z.ltb_lt _ _)) by (destruct (lib_names (se_names s)); [congruence|cbn [length]; lia]).
  unfold fmt_index_shape. rewrite <- fmt_seq_assoc. apply owrites_seq.
  - apply owrites_some, writes_bind; [by apply tdf_write_string_ok|apply tdf_write_int_ok; lia].
  - unfold lib_names at 1. rewrite <- fmt_list_omap. apply iter_write_view. intros p v Hin Hv.
    destruct (to_index v) as [e|] eqn:Ee; cbn [from_option].
    + assert (e ∈ lib_names (se_names s)) as He by (apply list_elem_of_omap; eauto). rewrite Forall_forall in Hn, Hi.
      apply list_elem_of_In in He. by eapply write_index_name_ok; eauto.
    + destruct v as [k d]. apply name_view_inv in Hv as [Ed Ek]. unfold name_entry_do_lib_write. rewrite Ed, Ek.
      unfold to_index in Ee. cbn [snd mbind option_bind] in *. destruct (definition d); [discriminate|]. apply owrites_skip.
Qed.

Lemma write_index_shapes_ok t ps :
  (forall p, p ∈ ps -> exists s, st_entries t !! p = Some s /\ index_ok s /\
     Forall (fun e => is_unsigned (capsule_index e.2.2)) (lib_names (se_names s))) ->
  owrites (wlist (fun p => s ← lib_counted <$> st_entries t !! p; shape_entry_do_lib_write capsule_index s) ps)
    (fmt_list (fmt_index_shape capsule_index) (filter indexed (omap (fun p => st_entries t !! p) ps))).
Proof.
  intros H. rewrite <- fmt_list_filter. induction ps as [|p ps IH]; [apply owrites_skip|].
  destruct (H p ltac:(left)) as (s & E & Hs & Hi). cbn [wlist omap list_omap]. rewrite E.
  cbn [fmap option_fmap option_map mbind option_bind fmt_list foldr]. apply owrites_seq.
  - by apply write_index_shape_ok.
  - apply IH. intros q Hq. apply H. by right.
Qed.

Lemma library_write_ok g shapes cs :
  lib_ready g shapes cs ->
  exists t m, library_write junk g shapes cs capsule_index = Some (t, m) /\ same_shapes shapes t /\
    writes m (fmt_library (capsule_major_version g) (capsule_minor_version g) cs capsule_index shapes).
Proof.
  intros [[Hma Hmi] [Hwf Hn] Hix [Hcs Hnc] Hnum]. destruct (shape_pointers shapes Hwf) as [Hnd Hin].
  assert (forall p, p ∈ shape_table_iter shapes -> exists s, st_entries shapes !! p = Some s /\ index_ok s /\
     Forall (fun e => is_unsigned (capsule_index e.2.2)) (lib_names (se_names s))) as Hall.
  { intros p Hp. destruct (shape_table_iter_lookup shapes p Hwf Hp) as (s & E). exists s. split; [exact E|].
    assert (s ∈ shapes_of shapes) as Hs by (apply list_elem_of_omap; eauto). rewrite Forall_forall in Hix, Hnum.
    apply list_elem_of_In in Hs. auto. }
  destruct (lib_count_shapes_ok (shape_table_iter shapes) shapes 0 Hnd) as (t & Et & Hsame & _ & Ht); [|lia|destruct Hin as [_ ->]; lia|].
  { intros p Hp. destruct (Hall p Hp) as (s & E & Hs & _). exists s. split; [exact E|apply Hs]. }
  unfold library_write. rewrite Et, Z.add_0_l, u32_small by lia. cbn [mbind option_bind].
  match goal with |- context [m ← ?o; _] => assert (owrites o
    (fmt_library (capsule_major_version g) (capsule_minor_version g) cs capsule_index shapes)) as (m & -> & Hm) end.
  { unfold fmt_library, fmt_lib_capsules, fmt_index. apply owrites_seq; [by apply write_lib_header_ok|].
    rewrite (fmt_seq_assoc (fmt_int (Z.of_nat (length cs)))), <- (fmt_seq_assoc (fmt_int 0)). apply owrites_seq.
    { apply owrites_some, writes_bind; apply tdf_write_int_ok; lia. }
    apply owrites_seq; [|apply owrites_seq].
    - apply owrites_list. intros c Hc. apply owrites_some, write_lib_capsule_ok. rewrite Forall_forall in Hcs. by apply Hcs, list_elem_of_In.
    - apply owrites_some, tdf_write_int_ok. pose proof (length_filter indexed (shapes_of shapes)) as Hl.
      pose proof (shapes_of_length shapes Hwf). unfold index_shapes. lia.
    - unfold shape_iter_write. assert (shape_table_iter t = shape_table_iter shapes) as Ei by (unfold shape_table_iter; by rewrite (proj1 Hsame)).
      rewrite Ei. assert (wlist (fun p => s ← st_entries t !! p; shape_entry_do_lib_write capsule_index s) (shape_table_iter shapes) =
        wlist (fun p => s ← lib_counted <$> st_entries shapes !! p; shape_entry_do_lib_write capsule_index s) (shape_table_iter shapes)) as ->.
      { clear -Ht. induction (shape_table_iter shapes) as [|p ps IH]; [reflexivity|]. cbn [wlist]. rewrite (Ht p ltac:(left)).
        rewrite IH; [reflexivity|]. intros q Hq. apply Ht. by right. }
      by apply write_index_shapes_ok. }
  exists t, m. by split_and!.
Qed.
End Write.
