(* ===== verification/TldLibraryBack.v ===== *)
(** * TldLibraryBack: a library, written and read back

    The reader of libraries (tld/src/adt/library.c) accepts every library its
    writer writes: it finds the capsules with their names and contents, and
    its index says of each name which capsule defines it, as the tables of the
    writer do. *)
From stdpp Require Import base list list_numbers numbers.
From Stdlib Require Import ZArith Lia.
From S2P Require Import Prelude Codec ExdsString CStdio TldNameKey TldIO TldIOSpec HashTable TldNames TldRename TldNameTable.
From S2P Require Import TldShapes TldShapesSpec TldCapsule TldCapsuleSpec TldUsage TldRead TldReadUnits TldReadBack TldLibrary TldArgs TldArgsSpec TldLibraryWrite.

(** ** The index as a map *)

(** What a table says of the name [k]. *)
Definition direct_at (t : NameTableT) (k : NameKeyT) : option DirectT := p ← direct_of t k; get_direct t p.

(** The usage of a name in the index, and the capsule that defines it. *)
Definition index_at (t : NameTableT) (k : NameKeyT) : option (Z * option nat) :=
  d ← direct_at t k; Some (use d, lib_definition d).

Definition names_at (t : ShapeTableT) (key : NStringT) : option NameTableT :=
  p ← shape_table_get t key; s ← st_entries t !! p; Some (se_names s).

(** The index of a library that was read, and the one that its writer has in
    mind: the capsules are in the same order, after [base] others. *)
Definition lib_index (t : ShapeTableT) (key : NStringT) (k : NameKeyT) : option (Z * option nat) :=
  t ← names_at t key; index_at t k.

Definition written_index (base : nat) (capsule_index : nat -> Z) (t : ShapeTableT) (key : NStringT) (k : NameKeyT)
  : option (Z * option nat) :=
  t ← names_at t key;
  d ← direct_at t k;
  c ← definition d;
  Some (get_use d, Some (base + Z.to_nat (capsule_index c))%nat).

(** The names of a list of the index. *)
Fixpoint index_find (base : nat) (capsule_index : nat -> Z) (es : list index_name) (k : NameKeyT) : option (Z * option nat) :=
  match es with
  | [] => None
  | e :: es =>
      if decide (e.1 = k) then Some (e.2.1, Some (base + Z.to_nat (capsule_index e.2.2))%nat)
      else index_find base capsule_index es k
  end.

(** ** Adding a name to the index *)

(** A shape without renames. *)
Definition plain (s : ShapeEntryT) : Prop := shape_ok [] s.

Lemma target_plain k : target [] k k.
Proof. by apply stands_for_end. Qed.

Lemma direct_set_of p d d' t t' k : get_direct t p = Some d -> direct_set p d' t t' -> direct_of t' k = direct_of t k.
Proof.
  intros Ed (Ec & _ & _ & Ht). unfold direct_of. rewrite Ec. destruct (ht_get (nt_contents t) k) as [q|]; [|reflexivity].
  cbn [mbind option_bind]. rewrite Ht. case_decide as E; [|reflexivity]. subst q. apply get_direct_type in Ed. by rewrite Ed.
Qed.

(** The usage of the first definition of a name. *)
Lemma merge_lib_usage_first capsule t p u i o :
  get_direct t p = Some (Direct i 0 o None) -> has u U_DEFD || has u U_MULT = true ->
  exists t', merge_lib_usage capsule t p u = Some (t', false) /\ direct_set p (Direct i u o (Some capsule)) t t'.
Proof.
  intros E Hu. unfold merge_lib_usage, name_entry_get_use. rewrite E. cbn [fmap option_fmap option_map mbind option_bind].
  assert (usage_of u (get_use (Direct i 0 o None)) = Define) as ->.
  { unfold usage_of. change (get_use (Direct i 0 o None)) with 0. change (has 0 U_DEFD) with false. change (has 0 U_MULT) with false.
    change (has 0 (Z.lor U_MULT U_DEFD)) with false. rewrite !andb_false_r. cbn [negb andb]. rewrite andb_true_r. by rewrite Hu. }
  unfold name_entry_set_lib_definition.
  destruct (update_direct_set t p (fun d => Direct (id d) (use d) (definition d) (Some capsule)) _ E) as (t1 & -> & H1).
  cbn [mbind option_bind]. unfold name_entry_merge_use.
  destruct (update_direct_set t1 p (set_use (fun v => Z.lor v u)) (Direct i 0 o (Some capsule))) as (t2 & -> & H2).
  { rewrite (direct_set_get _ _ _ _ _ H1), decide_True by reflexivity. reflexivity. }
  exists t2. split; [reflexivity|]. by eapply direct_set_trans.
Qed.

Section ReadIndex.
Variable junk : nat -> Z.
Variable junk_nstring : nat -> NStringT.

(** An entry of the index, for a name the shape does not have. *)
Lemma check_index_entry_new l e s nd nm k u c :
  st_entries (l_shapes l) !! e = Some s -> plain s -> wf_key k -> direct_of (se_names s) k = None -> id_count s < UINT_MAX ->
  bad_usage u nd nm = false -> has u U_DEFD || has u U_MULT = true ->
  exists s', lreads (library_check_index_entry junk e nd nm k u c) fmt_nil l tt (with_shapes (set_shape (l_shapes l) e s') l) /\
    plain s' /\ se_key s' = se_key s /\ id_count s' = id_count s + 1 /\
    (forall k', wf_key k' -> index_at (se_names s') k' = if decide (k' = k) then Some (u, Some c) else index_at (se_names s) k') /\
    forall k', wf_key k' -> k' <> k -> direct_of (se_names s') k' = direct_of (se_names s) k'.
Proof.
  intros Es Hs Hk Hnone Hmax Hbad Hu. pose proof (name_table_add_ok junk [] s k k Hs Hk (target_plain k)) as Ha.
  rewrite Hnone, (proj2 (Z.eqb_neq _ _)) in Ha by lia. destruct Ha as (s1 & p & Ea & Hs1 & Hdo & Hp & Hg & Hc & _).
  assert (get_direct (se_names s1) p = Some (Direct (id_count s) 0 None None)) as Ep by (rewrite Hg, decide_True; reflexivity).
  destruct (merge_lib_usage_first c (se_names s1) p u _ _ Ep Hu) as (t & Em & Hset).
  destruct (direct_set_shape_ok [] s1 p _ _ t Hs1 Ep Hset eq_refl) as [Hs2 _].
  exists (set_names s1 t). split; [|split; [exact Hs2|split; [exact (name_table_add_key junk s k s1 p Ea)|split; [exact Hc|split]]]].
  - unfold library_check_index_entry. eapply get_shape_step; [exact Es|]. eapply need_step; [exact Ea|]. cbn iota.
    apply put_shape_step. rewrite Hbad. eapply need_step; [exact Em|]. cbn iota.
    eapply lreads_step; [intros r; reflexivity|]. cbn [l_shapes with_shapes].
    intros r pos rest Hr Hpos E. exists r. split; [|by split_and!]. unfold put_shape, put_shapes, mbind, stM_bind, st_get.
    cbn. unfold with_shapes, with_reader. cbn. by rewrite set_shape_twice.
  - intros k' Hk'. unfold index_at, direct_at. cbn [se_names set_names]. rewrite (direct_set_of _ _ _ _ _ k' Ep Hset), Hdo by exact Hk'.
    case_decide as E; cbn [mbind option_bind].
    + rewrite (direct_set_get _ _ _ _ _ Hset), decide_True by reflexivity. reflexivity.
    + destruct (direct_of (se_names s) k') as [q|] eqn:Eq; [|reflexivity]. cbn [mbind option_bind].
      assert (q <> p) as Hqp by (intros ->; destruct (direct_of_direct _ _ _ Eq); congruence).
      by rewrite (direct_set_get _ _ _ _ _ Hset), decide_False, Hg, decide_False by exact Hqp.
  - intros k' Hk' Hne. cbn [se_names set_names]. by rewrite (direct_set_of _ _ _ _ _ k' Ep Hset), Hdo, decide_False.
Qed.
(** ** The names of a shape *)

Variable base : nat.
Variable num_capsules : Z.
Variable capsule_index : nat -> Z.

Definition index_name_ok (nd nm : bool) (e : index_name) : Prop :=
  ok_key e.1 /\ is_unsigned e.2.1 /\ bad_usage e.2.1 nd nm = false /\ has e.2.1 U_DEFD || has e.2.1 U_MULT = true /\
  is_unsigned (capsule_index e.2.2) /\ capsule_index e.2.2 < num_capsules.

Lemma index_names_ok nd nm e es : forall l s,
  st_entries (l_shapes l) !! e = Some s -> plain s -> NoDup es.*1 -> Forall (index_name_ok nd nm) es ->
  (forall x, x ∈ es -> direct_of (se_names s) x.1 = None) -> id_count s + Z.of_nat (length es) <= UINT_MAX ->
  exists s', lreads (index_names_loop junk junk_nstring base num_capsules e nd nm (length es))
      (fmt_list (fmt_index_name capsule_index) es) l tt (with_shapes (set_shape (l_shapes l) e s') l) /\
    se_key s' = se_key s /\
    forall k, wf_key k -> index_at (se_names s') k =
      match index_find base capsule_index es k with Some x => Some x | None => index_at (se_names s) k end.
Proof.
  induction es as [|[k [u c]] es IH]; intros l s Es Hs Hnd Hok Hnone Hmax.
  { exists s. rewrite set_shape_id, with_shapes_id by auto. split; [apply lreads_ret|]. by split. }
  inversion Hok as [|? ? (Hk & Hu & Hbad & Hdef & Hc & Hlt) Hok']; subst. cbn [fst snd fmap list_fmap length] in *.
  apply list.NoDup_cons in Hnd as [Hni Hnd]. pose proof (ok_key_wf k Hk) as Hwk.
  destruct (check_index_entry_new l e s nd nm k u (base + Z.to_nat (capsule_index c)) Es Hs Hwk
    (Hnone (k, (u, c)) ltac:(left)) ltac:(lia) Hbad Hdef) as (s1 & Hl1 & Hs1 & Ek1 & Hc1 & Hi1 & Hd1).
  set (l1 := with_shapes (set_shape (l_shapes l) e s1) l) in *.
  destruct (IH l1 s1) as (s' & Hl' & Ek' & Hi'); auto.
  { by eapply set_shape_lookup. }
  { intros x Hx. rewrite Hd1; [apply Hnone; by right|..].
    - rewrite Forall_forall in Hok'. by apply ok_key_wf, Hok', list_elem_of_In.
    - intros E. apply Hni. rewrite <- E. by apply list_elem_of_fmap_2. }
  { lia. }
  cbn [l1 l_shapes with_shapes] in Hl'. rewrite set_shape_twice in Hl'. exists s'. split; [|split; [congruence|]].
  - cbn [index_names_loop fmt_list foldr]. unfold fmt_index_name at 1. cbn [fst snd]. rewrite !fmt_seq_assoc.
    eapply lreads_rd_bind; [by apply tdf_read_name_ok|apply tdf_read_name_keeps|]. apply lreads_int; [exact Hu|].
    apply lreads_int; [exact Hc|]. rewrite (proj2 (Z.leb_gt _ _)) by exact Hlt. rewrite <- fmt_seq_nil_l. eapply lreads_bind; [exact Hl1|exact Hl'].
  - intros k' Hk'. rewrite Hi', Hi1 by exact Hk'. cbn [index_find fst snd]. destruct (decide (k = k')) as [->|Hne].
    + assert (index_find base capsule_index es k' = None) as ->; [|by rewrite decide_True].
      clear -Hni. induction es as [|x es IH]; [reflexivity|]. cbn in *. rewrite decide_False; [apply IH; intros H; apply Hni; by right|].
      intros E. apply Hni. rewrite E. left.
    + destruct (index_find base capsule_index es k'); [reflexivity|]. by rewrite decide_False by congruence.
Qed.

(** ** The shapes *)

Lemma direct_of_create k : direct_of name_table_create k = None.
Proof. unfold direct_of. destruct (ht_get _ k) as [p|]; [|reflexivity]. cbn [mbind option_bind]. unfold entry_type. by destruct p. Qed.

Lemma plain_new key : plain (shape_entry_create junk key).
Proof.
  apply renamed_shape_ok; [|reflexivity]. split; [apply name_table_create_wf|]. split; [|intros k Hk; contradiction].
  intros p ty E. unfold entry_type in E. cbn in E. discriminate.
Qed.

Fixpoint find_shape (sss : list ShapeEntryT) (key : NStringT) : option ShapeEntryT :=
  match sss with
  | [] => None
  | s :: sss => if decide (se_key s = key) then Some s else find_shape sss key
  end.

Record shape_index_ok (s : ShapeEntryT) : Prop := {
  si_key : ok_nstring (se_key s);
  si_names : Forall (index_name_ok false false) (lib_names (se_names s));
  si_nodup : NoDup (lib_names (se_names s)).*1;
  si_count : Z.of_nat (length (lib_names (se_names s))) <= UINT_MAX
}.

Lemma names_at_set t p s key : is_Some (st_entries t !! p) ->
  names_at (set_shape t p s) key = if decide (shape_table_get t key = Some p) then Some (se_names s) else names_at t key.
Proof.
  intros Hp. unfold names_at. change (shape_table_get (set_shape t p s) key) with (shape_table_get t key).
  destruct (shape_table_get t key) as [q|]; cbn [mbind option_bind]; [|reflexivity]. cbn [set_shape st_entries]. case_decide as E.
  - injection E as ->. rewrite list_lookup_insert_eq by (by apply lookup_lt_is_Some_1). reflexivity.
  - rewrite list_lookup_insert_ne by congruence. reflexivity.
Qed.

Lemma index_shapes_ok sss : forall l,
  wf_shapes (l_shapes l) -> NoDup (se_key <$> sss) -> Forall shape_index_ok sss ->
  (forall s, s ∈ sss -> shape_table_get (l_shapes l) (se_key s) = None) ->
  exists t', lreads (index_shapes_loop junk junk_nstring base num_capsules None None (length sss))
      (fmt_list (fmt_index_shape capsule_index) sss) l tt (with_shapes t' l) /\
    forall key k, wf_nstring key -> wf_key k -> lib_index t' key k =
      match find_shape sss key with
      | Some s => index_find base capsule_index (lib_names (se_names s)) k
      | None => lib_index (l_shapes l) key k
      end.
Proof.
  induction sss as [|ss sss IH]; intros l Ht Hnd Hok Hnone.
  { exists (l_shapes l). rewrite with_shapes_id by reflexivity. split; [apply lreads_ret|auto]. }
  cbn [fmap list_fmap] in Hnd. apply list.NoDup_cons in Hnd as [Hni Hnd]. inversion Hok as [|? ? [Hkey Hnames Hdup Hcount] Hok']; subst.
  destruct (shape_table_add_new junk (l_shapes l) (se_key ss) Ht (proj1 Hkey) (Hnone ss ltac:(left))) as (Ea & Ht1 & Hget & He & Ho).
  set (t1 := (shape_table_add junk (l_shapes l) (se_key ss)).1) in *. set (p := length (st_entries (l_shapes l))) in *.
  set (s0 := shape_entry_create junk (se_key ss)) in *. assert (st_entries t1 !! p = Some s0) as Ep by (rewrite He; by apply list_lookup_middle).
  destruct (index_names_ok false false p (lib_names (se_names ss)) (with_shapes t1 l) s0) as (s1 & Hl1 & Ek1 & Hi1); auto.
  { apply plain_new. }
  { intros x _. apply direct_of_create. }
  cbn [l_shapes with_shapes] in Hl1. set (t2 := set_shape t1 p s1) in *.
  assert (se_key s0 = se_key ss) as Ek0 by (unfold s0; cbn; by rewrite nstring_copy_id by apply Hkey).
  assert (wf_shapes t2) as Ht2 by (eapply set_shape_wf; [exact Ht1|exact Ep|exact Ek1]).
  destruct (IH (with_shapes t2 l) Ht2 Hnd Hok') as (t' & Hl' & Hi').
  { intros s Hs. cbn [l_shapes with_shapes]. change (shape_table_get t2 (se_key s)) with (shape_table_get t1 (se_key s)).
    assert (ok_nstring (se_key s)) as Hsk by (rewrite Forall_forall in Hok'; by apply si_key, Hok', list_elem_of_In).
    rewrite Ho; [apply Hnone; by right|apply Hsk|]. intros E. apply Hni. rewrite <- E. by apply list_elem_of_fmap_2. }
  exists t'. split.
  - cbn [length index_shapes_loop fmt_list foldr]. unfold fmt_index_shape at 1. rewrite !fmt_seq_assoc.
    eapply lreads_rd_bind; [by apply tdf_read_string_ok|apply tdf_read_string_keeps|]. apply lreads_get. intros r. cbn [l_shapes with_reader].
    rewrite Ea. apply put_shapes_step. cbn zeta. rewrite !bool_decide_eq_false_2 by discriminate.
    apply lreads_int; [unfold is_unsigned, UINT_MAX, UINT_BITS in *; lia|]. rewrite Nat2Z.id. eapply lreads_bind; [exact Hl1|exact Hl'].
  - intros key k Hk1 Hk2. rewrite Hi' by auto. cbn [find_shape l_shapes with_shapes]. unfold lib_index at 1.
    unfold t2. rewrite names_at_set by eauto. destruct (decide (se_key ss = key)) as [<-|Hne].
    + rewrite decide_True by exact Hget.
      assert (find_shape sss (se_key ss) = None) as ->.
      { clear -Hni. induction sss as [|x sss IH]; [reflexivity|]. cbn in *. rewrite decide_False; [apply IH; intros H; apply Hni; by right|].
        intros E. apply Hni. rewrite E. left. }
      cbn [mbind option_bind]. rewrite Hi1 by exact Hk2.
      assert (index_at (se_names s0) k = None) as -> by (unfold index_at, direct_at; cbn; by rewrite direct_of_create).
      by destruct (index_find _ _ _ k).
    + destruct (find_shape sss key); [reflexivity|]. rewrite decide_False.
      * unfold lib_index, names_at. rewrite Ho by congruence. destruct (shape_table_get (l_shapes l) key) as [q|] eqn:Eq; [|reflexivity].
        cbn [mbind option_bind]. destruct (proj1 (shape_get_entry _ _ _ Ht Hk1) Eq) as (x & Ex & _).
        by rewrite He, (lookup_app_l_Some _ _ _ _ Ex), Ex.
      * rewrite Ho by congruence. intros Eq. destruct (proj1 (shape_get_entry _ _ _ Ht Hk1) Eq) as (x & Ex & _).
        apply lookup_lt_Some in Ex. unfold p in Ex. lia.
Qed.
End ReadIndex.

(** ** What the writer has in its tables *)

Lemma direct_at_view t p k d :
  wf_table t -> wf_key k -> name_view t p = Some (k, d) -> p ∈ name_table_iter t -> direct_at t k = Some d.
Proof.
  intros (Hc & Hnd & _ & Hkey) Hk Hv Hp. destruct (name_view_inv _ _ _ _ Hv) as [Ed Ek].
  apply list_elem_of_filter in Hp as [_ Hp]. apply list_elem_of_fmap in Hp as ([k' q] & -> & Hin). cbn [snd] in *.
  pose proof (Hkey _ _ Hin) as Ek'. replace k' with k in Hin by congruence.
  apply ht_get_iff in Hin; [|exact Hc|exact Hnd|exact Hk]. unfold direct_at, direct_of. rewrite Hin. cbn [mbind option_bind].
  assert (entry_type t q = Some (NT_DIRECT d)) as -> by (unfold get_direct in Ed; destruct (entry_type t q) as [[]|]; try discriminate; cbn in Ed; congruence).
  exact Ed.
Qed.

Lemma direct_at_names t k d : wf_table t -> wf_key k -> (k, d) ∈ names_of t <-> direct_at t k = Some d.
Proof.
  intros Ht Hk. split.
  - intros Hin. apply list_elem_of_omap in Hin as (p & Hp & Hv). by eapply direct_at_view.
  - pose proof Ht as (Hc & _ & _ & Hkey). unfold direct_at, direct_of. destruct (ht_get (nt_contents t) k) as [p|] eqn:Ep; [|discriminate].
    cbn [mbind option_bind]. apply ht_get_elem in Ep; [|exact Hc|exact Hk]. destruct (from_option _ _ _) eqn:Hd; [|discriminate].
    cbn [mbind option_bind]. intros Ed. apply list_elem_of_omap. exists p. split.
    + apply list_elem_of_filter. split; [exact Hd|]. apply list_elem_of_fmap. by exists (k, p).
    + unfold name_view. by rewrite Ed, (Hkey _ _ Ep).
Qed.

(** The keys of a view come from the keys of the table. *)
Lemma view_keys t (es : list (NameKeyT * nat)) :
  (forall k p, (k, p) ∈ es -> name_entry_key t p = Some k) ->
  (omap (name_view t) (filter (fun p => from_option name_entry_is_direct false (entry_type t p) = true) es.*2)).*1 `sublist_of` es.*1.
Proof.
  induction es as [|[k p] es IH]; intros H; [constructor|].
  cbn [fmap list_fmap fst snd]. rewrite filter_cons. specialize (IH (fun k' p' Hin => H k' p' (list_elem_of_further _ _ _ Hin))).
  case_decide; [|by constructor]. cbn [omap list_omap]. destruct (name_view t p) as [[k' d]|] eqn:Ev; [|by constructor].
  destruct (name_view_inv _ _ _ _ Ev) as [_ Ek]. rewrite (H k p ltac:(left)) in Ek. injection Ek as ->.
  cbn [fmap list_fmap fst]. by constructor.
Qed.

Lemma names_of_nodup t : wf_table t -> NoDup (names_of t).*1.
Proof.
  intros (_ & Hnd & _ & Hkey). eapply sublist_NoDup; [exact Hnd|]. apply view_keys. exact Hkey.
Qed.

Lemma lib_names_keys (l : list (NameKeyT * DirectT)) : (omap to_index l).*1 `sublist_of` l.*1.
Proof.
  induction l as [|[k d] l IH]; [constructor|]. cbn [omap list_omap]. unfold to_index at 1. cbn [fst snd].
  destruct (definition d); cbn; by constructor.
Qed.

Lemma lib_names_nodup t : wf_table t -> NoDup (lib_names t).*1.
Proof. intros Ht. eapply sublist_NoDup; [by apply names_of_nodup|apply lib_names_keys]. Qed.

Section Written.
Variable base : nat.
Variable capsule_index : nat -> Z.

Lemma index_find_in es e : NoDup es.*1 -> e ∈ es -> index_find base capsule_index es e.1 = Some (e.2.1, Some (base + Z.to_nat (capsule_index e.2.2))%nat).
Proof.
  induction es as [|x es IH]; cbn; intros Hnd Hin; [inversion Hin|]. apply list.NoDup_cons in Hnd as [Hni Hnd].
  apply elem_of_cons in Hin as [->|Hin]; [by rewrite decide_True|]. rewrite decide_False; [by apply IH|].
  intros E. apply Hni. rewrite E. by apply list_elem_of_fmap_2.
Qed.

Lemma index_find_out es k : k ∉ es.*1 -> index_find base capsule_index es k = None.
Proof.
  induction es as [|x es IH]; cbn; intros Hni; [reflexivity|]. rewrite decide_False; [apply IH|]; intros H; apply Hni; [by right|].
  rewrite H. left.
Qed.

(** The index of a table, as its names have it. *)
Lemma index_find_names t k : wf_table t -> wf_key k ->
  index_find base capsule_index (lib_names t) k =
    (d ← direct_at t k; c ← definition d; Some (get_use d, Some (base + Z.to_nat (capsule_index c))%nat)).
Proof.
  intros Ht Hk. pose proof (lib_names_nodup t Ht) as Hnd. destruct (decide (k ∈ (lib_names t).*1)) as [Hin|Hni].
  - apply list_elem_of_fmap in Hin as ([k' [u c]] & -> & Hin). rewrite index_find_in by auto. cbn [fst snd].
    apply list_elem_of_omap in Hin as ([k d] & Hin & E). unfold to_index in E. cbn [fst snd] in E.
    destruct (definition d) as [c'|] eqn:Ed; [|discriminate]. injection E as <- <- <-.
    rewrite (proj1 (direct_at_names t k d Ht Hk) Hin). cbn. by rewrite Ed.
  - rewrite index_find_out by exact Hni. destruct (direct_at t k) as [d|] eqn:E; [|reflexivity]. cbn.
    destruct (definition d) as [c|] eqn:Ed; [|reflexivity]. exfalso. apply Hni. apply direct_at_names in E; [|exact Ht|exact Hk].
    apply list_elem_of_fmap. exists (k, (get_use d, c)). split; [reflexivity|]. apply list_elem_of_omap. exists (k, d).
    split; [exact E|]. unfold to_index. cbn. by rewrite Ed.
Qed.

Lemma find_shape_in sss s : NoDup (se_key <$> sss) -> s ∈ sss -> find_shape sss (se_key s) = Some s.
Proof.
  induction sss as [|x sss IH]; cbn; intros Hnd Hin; [inversion Hin|]. apply list.NoDup_cons in Hnd as [Hni Hnd].
  apply elem_of_cons in Hin as [->|Hin]; [by rewrite decide_True|]. rewrite decide_False; [by apply IH|].
  intros E. apply Hni. rewrite E. by apply list_elem_of_fmap_2.
Qed.

Lemma find_shape_elem sss key s : find_shape sss key = Some s -> s ∈ sss /\ se_key s = key.
Proof.
  induction sss as [|x sss IH]; cbn; [discriminate|]. case_decide as E; [intros [= ->]; split; [left|exact E]|].
  intros H. destruct (IH H) as [H1 H2]. split; [by right|exact H2].
Qed.

Lemma names_at_shapes t s : wf_shapes t -> wf_nstring (se_key s) -> s ∈ shapes_of t -> names_at t (se_key s) = Some (se_names s).
Proof.
  intros Ht Hk Hin. apply list_elem_of_omap in Hin as (p & Hp & Es). unfold names_at.
  assert (shape_table_get t (se_key s) = Some p) as -> by (apply (shape_get_entry t (se_key s) p Ht Hk); eauto).
  cbn. by rewrite Es.
Qed.

Lemma shapes_names_at t key names : wf_shapes t -> wf_nstring key -> names_at t key = Some names ->
  exists s, s ∈ shapes_of t /\ se_key s = key /\ se_names s = names.
Proof.
  intros Ht Hk. unfold names_at. destruct (shape_table_get t key) as [p|] eqn:Eg; [|discriminate]. cbn [mbind option_bind].
  destruct (proj1 (shape_get_entry t key p Ht Hk) Eg) as (s & Es & Ek). rewrite Es. intros [= <-]. exists s. split; [|by split].
  apply list_elem_of_omap. exists p. split; [|exact Es].
  unfold shape_table_iter. apply list_elem_of_fmap. exists (key, p). split; [reflexivity|]. apply ht_get_elem; [apply Ht|exact Hk|exact Eg].
Qed.

(** The index of the shapes, as the tables of the writer have it. *)
Lemma index_written t key k :
  wf_shapes t -> Forall (fun s => ok_nstring (se_key s) /\ wf_table (se_names s)) (shapes_of t) -> wf_nstring key -> wf_key k ->
  match find_shape (index_shapes t) key with
  | Some s => index_find base capsule_index (lib_names (se_names s)) k
  | None => None
  end = written_index base capsule_index t key k.
Proof.
  intros Ht Hall Hkey Hk. rewrite Forall_forall in Hall. unfold written_index.
  destruct (find_shape (index_shapes t) key) as [s|] eqn:Ef.
  - apply find_shape_elem in Ef as [Hin <-]. apply list_elem_of_filter in Hin as [_ Hin].
    destruct (Hall s) as [H1 H2]; [by apply list_elem_of_In|]. rewrite (names_at_shapes t s Ht Hkey Hin). cbn [mbind option_bind].
    by apply index_find_names.
  - destruct (names_at t key) as [names|] eqn:En; [|reflexivity]. cbn [mbind option_bind].
    destruct (shapes_names_at t key names Ht Hkey En) as (s & Hin & <- & <-). destruct (Hall s) as [H1 H2]; [by apply list_elem_of_In|].
    rewrite <- index_find_names by auto. destruct (decide (indexed s)) as [Hx|Hx].
    + rewrite find_shape_in in Ef; [discriminate| |by apply list_elem_of_filter].
      apply (sublist_NoDup _ (se_key <$> shapes_of t)); [rewrite shapes_of_keys by exact Ht; apply Ht|apply fmap_sublist, sublist_filter].
    + unfold indexed in Hx. destruct (lib_names (se_names s)); [reflexivity|by destruct Hx].
Qed.
End Written.

(** ** The library *)

Section ReadLibrary.
Variable junk : nat -> Z.
Variable junk_nstring : nat -> NStringT.

Lemma lib_header_ok l major minor :
  4 <= major <= UINT_MAX -> is_unsigned minor ->
  capsule_major_version (l_statics l) = 0 \/ capsule_major_version (l_statics l) = major ->
  exists g, lreads (library_read_header junk) (fmt_lib_header major minor) l (major, minor) (with_statics g l).
Proof.
  intros Hma Hmi Hv.
  assert (exists g, forall r, (if major <? 4 then @lib_fail unit
      else if capsule_major_version (l_statics l) =? 0
           then set_statics (Statics (capsule_unit_sets (l_statics l)) (capsule_tld_index (l_statics l))
                  (capsule_tld2_index (l_statics l)) major (capsule_minor_version (l_statics l)) (need_setup (l_statics l)))
      else if negb (capsule_major_version (l_statics l) =? major) then lib_fail
      else mret tt) (with_reader r l) = (with_reader r (with_statics g l), Ok tt)) as (g & Hg).
  { destruct (Z.ltb_spec major 4); [lia|]. destruct (Z.eqb_spec (capsule_major_version (l_statics l)) 0) as [E|E].
    { eexists. intros r. reflexivity. }
    destruct Hv as [?|Hv]; [contradiction|]. rewrite Hv, Z.eqb_refl. exists (l_statics l). intros r. reflexivity. }
  exists g. unfold library_read_header, fmt_lib_header.
  apply (lreads_rd_bind _ _ _ _ library_magic); [|apply tdf_read_bytes_keeps|].
  { apply (tdf_read_bytes_ok _ (n_contents library_magic)); [|reflexivity..].
    apply (bool_decide_eq_true_1 _). vm_compute. reflexivity. }
  change (negb (nstring_equal library_magic library_magic)) with false. cbn iota.
  apply lreads_int; [unfold is_unsigned, UINT_MAX, UINT_BITS in *; lia|]. apply lreads_int; [exact Hmi|].
  apply lreads_get. intros r. cbn zeta. cbn [l_statics with_reader]. eapply lreads_step; [exact Hg|]. rewrite <- lreads_seq_nil.
  eapply lreads_rd_bind; [apply tdf_read_align_ok|apply tdf_read_align_keeps|apply lreads_ret].
Qed.

(** A capsule of the library, as its reader has it. *)
Definition read_capsule (library : list Z) (c : list Z * NStringT) : LibCapsuleT := LibCapsule library (c.1 ++ [0]) c.2 false.

Lemma contains_zero s : c_string s -> nstring_contains (NString (length s) s) 0 = false.
Proof.
  intros [H _]. unfold nstring_contains, memchr, nstring_length, nstring_contents. cbn [n_length n_contents].
  rewrite take_ge by lia. induction H as [|c s Hc _ IH]; [reflexivity|]. cbn [existsb]. rewrite IH.
  rewrite (proj2 (Z.eqb_neq _ _)) by (change (u8 0) with 0; lia). reflexivity.
Qed.

Lemma read_cstring_ok s : nstring_to_cstring junk (NString (length s) s) = s ++ [0].
Proof.
  transitivity (dstring_to_cstring junk (DString (length s) (length s) s)); [reflexivity|].
  rewrite dstring_to_cstring_ok by (split; cbn; lia). unfold d_str. cbn. by rewrite take_ge.
Qed.

Lemma lib_capsules_ok library cs l :
  Forall lib_capsule_fits cs ->
  lreads (lib_capsules_loop junk library (length cs)) (fmt_list fmt_lib_capsule cs) l (read_capsule library <$> cs) l.
Proof.
  induction 1 as [|[name [n contents]] cs [Hn [[Hl Hb] Hc]] _ IH]; [apply lreads_ret|]. cbn [fst snd n_length n_contents] in *. subst n.
  cbn [length lib_capsules_loop fmt_list foldr fmap list_fmap]. unfold fmt_lib_capsule at 1. cbn [fst snd n_length n_contents].
  rewrite !fmt_seq_assoc.
  pose proof (cstring_ok junk name Hn) as Hs. rewrite copy_cstring_eq in Hs.
  eapply lreads_rd_bind; [exact (tdf_read_string_ok junk _ Hs)|apply tdf_read_string_keeps|].
  rewrite contains_zero by exact Hn. apply lreads_int; [unfold is_unsigned, UINT_MAX, UINT_BITS; lia|]. rewrite Nat2Z.id.
  eapply lreads_rd_bind; [|apply tdf_read_bytes_keeps|].
  { apply tdf_read_bytes_ok; [exact Hb|apply length_ALLOCATE|reflexivity]. }
  rewrite <- lreads_seq_nil. eapply lreads_bind; [exact IH|]. rewrite read_cstring_ok. apply lreads_ret.
Qed.

(** *** The index *)

(** What the reader checks of the index of [n] capsules. *)
Definition index_legal (n : nat) (capsule_index : nat -> Z) (s : ShapeEntryT) : Prop :=
  wf_table (se_names s) /\
  Forall (fun e => has e.2.1 U_DEFD || has e.2.1 U_MULT = true /\ 0 <= capsule_index e.2.2 < Z.of_nat n) (lib_names (se_names s)).

Lemma no_bad_usage u : 0 <= u < 16 -> bad_usage u false false = false.
Proof.
  intros Hu. assert (Forall (fun u => bad_usage u false false = false) (seqZ 0 16)) as H by (by repeat constructor).
  rewrite Forall_forall in H. apply H, list_elem_of_In, elem_of_seqZ. lia.
Qed.

Lemma index_shape_legal n capsule_index s :
  Z.of_nat n < 2 ^ 32 -> index_ok s -> index_legal n capsule_index s -> shape_index_ok (Z.of_nat n) capsule_index s.
Proof.
  intros Hn [Hk Hnames Hc] [Ht Hl]. constructor; [exact Hk| |by apply lib_names_nodup|unfold UINT_MAX, UINT_BITS; lia].
  rewrite Forall_forall in Hnames, Hl. apply Forall_forall. intros e He. destruct (Hl e He) as [Hd Hi].
  assert (0 <= e.2.1 < 16) as Hu.
  { apply list_elem_of_In, list_elem_of_omap in He as ([k d] & _ & E). unfold to_index in E. cbn in E.
    destruct (definition d); [|discriminate]. injection E as <-. apply get_use_range. }
  split; [by apply Hnames|]. split; [unfold is_unsigned; lia|]. split; [by apply no_bad_usage|]. split; [exact Hd|].
  split; [unfold is_unsigned|]; lia.
Qed.

Lemma get_of_create key : shape_table_get shape_table_create key = None.
Proof. unfold shape_table_get. by apply (ht_create_wf SHAPE_TABLE_SIZE); unfold SHAPE_TABLE_SIZE; lia. Qed.

Lemma special_entries_none l : l_shapes l = shape_table_create ->
  (forall r, get_token_entry (with_reader r l) = (with_reader r l, Ok None)) /\
  (forall r, get_tag_entry (with_reader r l) = (with_reader r l, Ok None)).
Proof.
  intros El. assert (shape_table_get_token_entry shape_table_create = (shape_table_create, None) /\
    shape_table_get_tag_entry shape_table_create = (shape_table_create, None)) as [E1 E2].
  { unfold shape_table_get_token_entry, shape_table_get_tag_entry. cbn [token_entry tag_entry shape_table_create]. by rewrite !get_of_create. }
  split; intros r; unfold get_token_entry, get_tag_entry, mbind, stM_bind, st_get; cbn [l_shapes with_reader];
    rewrite El; rewrite ?E1, ?E2; cbn; unfold with_reader; destruct l; cbn in *; by subst.
Qed.

Lemma library_index_ok base capsule_index shapes lib l :
  wf_shapes shapes -> Z.of_nat (length (st_entries shapes)) < 2 ^ 32 -> Z.of_nat (num_capsules lib) < 2 ^ 32 ->
  Forall index_ok (shapes_of shapes) -> Forall (index_legal (num_capsules lib) capsule_index) (shapes_of shapes) ->
  l_shapes l = shape_table_create ->
  exists t', lthen (library_read_version_0_index junk junk_nstring base lib) (fmt_index capsule_index shapes) l
      (rd tdf_read_eof) (with_shapes t' l) /\
    forall key k, wf_nstring key -> wf_key k -> lib_index t' key k = written_index base capsule_index shapes key k.
Proof.
  intros Hwf Hlen Hn Hok Hleg El. pose proof (special_entries_none l El) as [Etok Etag].
  rewrite Forall_forall in Hok, Hleg.
  destruct (index_shapes_ok junk junk_nstring base (Z.of_nat (num_capsules lib)) capsule_index (index_shapes shapes) l) as (t' & Hl & Hidx).
  - rewrite El. apply shape_table_create_wf.
  - apply (sublist_NoDup _ (se_key <$> shapes_of shapes)); [rewrite shapes_of_keys by exact Hwf; apply Hwf|apply fmap_sublist, sublist_filter].
  - apply Forall_forall. intros s Hs%list_elem_of_In%list_elem_of_filter. destruct Hs as [_ Hs%list_elem_of_In].
    apply index_shape_legal; auto.
  - intros s _. rewrite El. apply get_of_create.
  - exists t'. split.
    + unfold library_read_version_0_index, fmt_index. intros r pos rest Hr Hp E.
      rewrite (stM_bind_ok _ _ _ _ _ (Etok r)), (stM_bind_ok _ _ _ _ _ (Etag r)).
      revert r pos rest Hr Hp E. change (lthen (num_shapes ← rd tdf_read_int;
        _ ← index_shapes_loop junk junk_nstring base (Z.of_nat (num_capsules lib)) None None (Z.to_nat num_shapes); rd tdf_read_eof)
        (fmt_seq (fmt_int (Z.of_nat (length (index_shapes shapes)))) (fmt_list (fmt_index_shape capsule_index) (index_shapes shapes)))
        l (rd tdf_read_eof) (with_shapes t' l)).
      eapply lthen_bind.
      * apply lreads_rd; [|apply tdf_read_int_keeps]. apply tdf_read_int_ok.
        pose proof (length_filter indexed (shapes_of shapes)). pose proof (shapes_of_length shapes Hwf). unfold index_shapes, UINT_MAX, UINT_BITS. lia.
      * rewrite Nat2Z.id. by apply (lthen_end _ (fun _ => rd tdf_read_eof) _ _ tt).
    + intros key k Hkey Hk. rewrite Hidx by auto.
      transitivity (match find_shape (index_shapes shapes) key with
        | Some s => index_find base capsule_index (lib_names (se_names s)) k | None => None end).
      { destruct (find_shape (index_shapes shapes) key); [reflexivity|]. unfold lib_index, names_at. by rewrite El, get_of_create. }
      apply index_written; auto. apply Forall_forall. intros s Hs. split; [by apply Hok|by apply Hleg].
Qed.

(** *** The theorem *)

(** The index of the writer has definitions, of the capsules it writes. *)
Definition library_legal (cs : list (list Z * NStringT)) (capsule_index : nat -> Z) (shapes : ShapeTableT) : Prop :=
  Forall (index_legal (length cs) capsule_index) (shapes_of shapes).

Lemma library_capsules_ok library major minor cs l :
  4 <= major <= UINT_MAX -> is_unsigned minor ->
  capsule_major_version (l_statics l) = 0 \/ capsule_major_version (l_statics l) = major ->
  Forall lib_capsule_fits cs -> Z.of_nat (length cs) < 2 ^ 32 ->
  exists g, lreads (library_read_capsules junk library)
    (fmt_seq (fmt_lib_header major minor) (fmt_seq (fmt_int 0) (fmt_lib_capsules cs))) l
    (Library library (read_capsule library <$> cs) major minor false) (with_statics g l).
Proof.
  intros Hma Hmi Hv Hcs Hn. destruct (lib_header_ok l major minor Hma Hmi Hv) as (g & Hg). exists g.
  unfold library_read_capsules. eapply lreads_bind; [exact Hg|]. cbn iota beta. apply lreads_int; [exact unsigned_0|].
  change (LIBRARY_TYPE_JUMP_TABLE_SIZE <=? 0) with false. cbn iota. rewrite <- lreads_seq_nil.
  eapply lreads_bind; [|apply lreads_ret]. unfold library_read_version_0_capsules, fmt_lib_capsules.
  apply lreads_int; [unfold is_unsigned, UINT_MAX, UINT_BITS; lia|]. rewrite Nat2Z.id. by apply lib_capsules_ok.
Qed.

Lemma library_reads_back g shapes cs capsule_index library base sends name byte name' byte' l :
  lib_ready capsule_index g shapes cs -> library_legal cs capsule_index shapes ->
  capsule_major_version (l_statics l) = 0 \/ capsule_major_version (l_statics l) = capsule_major_version g ->
  l_shapes l = shape_table_create ->
  exists t m w l', library_write junk g shapes cs capsule_index = Some (t, m) /\
    (_ ← m; tdf_writer_close) (tdf_writer_open (takes_all sends) name byte) = (w, Ok tt) /\
    library_read junk junk_nstring library base
      (with_reader (tdf_reader_open (map Some (bytes_in_file w)) name' byte') l) =
      (l', Ok (Library library (read_capsule library <$> cs) (capsule_major_version g) (capsule_minor_version g) true)) /\
    l_errors l' = l_errors l /\
    forall key k, wf_nstring key -> wf_key k -> lib_index (l_shapes l') key k = written_index base capsule_index shapes key k.
Proof.
  intros Hready Hleg Hv El. unfold library_legal in Hleg. destruct (library_write_ok junk capsule_index g shapes cs Hready) as (t & m & Ew & _ & Hm).
  destruct Hready as [[Hma Hmi] [Hwf Hn] Hix [Hcs Hnc] _].
  destruct (written_file_ok m _ sends name byte Hm) as (w & Ec & Hb & E). set (data := bytes_in_file w) in *.
  destruct (open_stream_reads data name' byte' Hb) as (Hr & Hnew & Hsrc). set (r := tdf_reader_open _ name' byte') in *.
  set (lib := Library library (read_capsule library <$> cs) (capsule_major_version g) (capsule_minor_version g) false).
  destruct (library_capsules_ok library _ _ cs l Hma Hmi Hv Hcs Hnc) as (g1 & Hl1).
  destruct (library_index_ok base capsule_index shapes lib (with_statics g1 l) Hwf Hn) as (t' & Hl2 & Hidx); auto.
  { unfold num_capsules. cbn. by rewrite length_fmap. }
  { unfold num_capsules. cbn. by rewrite length_fmap. }
  assert (r_rest r = bytes_bits data) as Hrest by (unfold r_rest; rewrite Hnew, Hsrc; reflexivity).
  set (f1 := fmt_seq (fmt_lib_header (capsule_major_version g) (capsule_minor_version g)) (fmt_seq (fmt_int 0) (fmt_lib_capsules cs))) in *.
  assert (fmt_eq (fmt_library (capsule_major_version g) (capsule_minor_version g) cs capsule_index shapes)
    (fmt_seq f1 (fmt_index capsule_index shapes))) as Ef by (unfold fmt_library, f1; by rewrite !fmt_seq_assoc).
  rewrite Ef in E. set (pad := pad_bits _) in E. unfold fmt_seq at 1 in E. rewrite <- app_assoc in E.
  assert (r_at r 0) as Hp by (unfold r_at; rewrite Hrest, length_bytes_bits, Nat.add_0_l, Nat.mul_comm; apply Nat.Div0.mod_mul).
  destruct (Hl1 r 0%nat _ Hr Hp (eq_trans Hrest E)) as (r1 & E1 & Hr1 & R1 & _).
  destruct (Hl2 r1 _ pad Hr1 (r_at_step _ _ _ _ _ Hp (eq_trans Hrest E) R1) R1) as (r2 & E2 & Hr2 & R2).
  destruct (rd_eof_ok r2 (with_shapes t' (with_statics g1 l)) Hr2) as (r3 & E3).
  { rewrite R2. unfold pad, pad_bits. rewrite length_replicate. apply Nat.mod_upper_bound. lia. }
  exists t, m, w, (with_reader r3 (with_shapes t' (with_statics g1 l))). split; [exact Ew|]. split; [exact Ec|].
  split; [|split; [reflexivity|exact Hidx]]. unfold library_read, lib_handler, mbind, stM_bind.
  fold data r. rewrite E1. cbv beta iota. fold lib. cbn [mret stM_ret] in E2 |- *. rewrite E2, E3. reflexivity.
Qed.

(** C7: any library the program writes is read back completely: the reader
    finds the capsules under their names, with their contents and in their
    order, the version, and no error; and its index says of a name exactly
    what the tables of the writer do, the capsule that defines it and the
    usage, and nothing of names that are not defined. *)
Theorem library_read_accepts_written g shapes cs capsule_index library base sends name byte name' byte' l :
  lib_ready capsule_index g shapes cs -> library_legal cs capsule_index shapes ->
  capsule_major_version (l_statics l) = 0 \/ capsule_major_version (l_statics l) = capsule_major_version g ->
  l_shapes l = shape_table_create ->
  exists t m w l', library_write junk g shapes cs capsule_index = Some (t, m) /\
    (_ ← m; tdf_writer_close) (tdf_writer_open (takes_all sends) name byte) = (w, Ok tt) /\
    library_read junk junk_nstring library base
      (with_reader (tdf_reader_open (map Some (bytes_in_file w)) name' byte') l) =
      (l', Ok (Library library (read_capsule library <$> cs) (capsule_major_version g) (capsule_minor_version g) true)) /\
    l_errors l' = l_errors l /\
    forall key k, wf_nstring key -> wf_key k -> lib_index (l_shapes l') key k = written_index base capsule_index shapes key k.
Proof. apply library_reads_back. Qed.
End ReadLibrary.

(** ** An example: two capsules, the names of TldShapesSpec *)

Definition ex_lib_names : NameTableT :=
  NameTable (nt_contents ex_names)
    [NameEntry (KT_STRING ex_tag) (NT_DIRECT (Direct 0 7 (Some 1%nat) None));
     NameEntry (KT_STRING (NString 1 [97])) (NT_DIRECT (Direct 1 22 None None));
     NameEntry (KT_UNIQUE [ex_tag; NString 0 []]) (NT_DIRECT (Direct 2 10 (Some 0%nat) None))].
Definition ex_lib_entry : ShapeEntryT := ShapeEntry ex_tag ex_lib_names 3 true [0%nat; 1%nat; 2%nat] 0.
Definition ex_lib_shapes : ShapeTableT :=
  set_shape (shape_table_add (fun _ => 0) shape_table_create ex_tag).1 0 ex_lib_entry.
Definition ex_capsules : list (list Z * NStringT) := [([97; 46; 106], NString 2 [1; 255]); ([98; 46; 106], NString 0 [])].

Lemma ex_lib_names_wf : wf_table ex_lib_names.
Proof.
  split; [|split; [|split]].
  - repeat apply ht_append_wf; [apply ht_create_wf; unfold NAME_TABLE_SIZE; lia|..];
      apply (bool_decide_eq_true_1 (wf_key _)); vm_compute; reflexivity.
  - apply (bool_decide_eq_true_1 _). vm_compute. reflexivity.
  - apply (bool_decide_eq_true_1 _). vm_compute. reflexivity.
  - assert (Forall (fun e => name_entry_key ex_lib_names e.2 = Some e.1) (ht_entries (nt_contents ex_lib_names))) as H.
    { apply (bool_decide_eq_true_1 _). vm_compute. reflexivity. }
    intros k p Hin. rewrite Forall_forall in H. by apply (H (k, p)), list_elem_of_In.
Qed.

Lemma ex_lib_shapes_of : shapes_of ex_lib_shapes = [ex_lib_entry].
Proof. vm_compute. reflexivity. Qed.

Lemma ex_lib_ready : lib_ready Z.of_nat ex_statics ex_lib_shapes ex_capsules.
Proof.
  constructor.
  - split; [split|split]; vm_compute; congruence.
  - split; [|reflexivity]. destruct (shape_table_add_new (fun _ => 0) shape_table_create ex_tag shape_table_create_wf ex_tag_wf eq_refl)
      as (_ & Hwf & _). by eapply (set_shape_wf _ 0); [exact Hwf|reflexivity|].
  - rewrite ex_lib_shapes_of. constructor; [|constructor]. constructor; [| |vm_compute; reflexivity];
      apply (bool_decide_eq_true_1 _); vm_compute; reflexivity.
  - split; [|reflexivity]. apply (bool_decide_eq_true_1 _). vm_compute. reflexivity.
  - rewrite ex_lib_shapes_of. apply (bool_decide_eq_true_1 _). vm_compute. reflexivity.
Qed.

Lemma ex_lib_legal : library_legal ex_capsules Z.of_nat ex_lib_shapes.
Proof.
  unfold library_legal. rewrite ex_lib_shapes_of. constructor; [|constructor]. split; [exact ex_lib_names_wf|].
  apply (bool_decide_eq_true_1 _). vm_compute. reflexivity.
Qed.

Lemma library_read_accepts_written_witness :
  exists t m w l', library_write (fun _ => 0) ex_statics ex_lib_shapes ex_capsules Z.of_nat = Some (t, m) /\
    (_ ← m; tdf_writer_close) (tdf_writer_open (takes_all at_close) [111] 0) = (w, Ok tt) /\
    library_read (fun _ => 0) (fun _ => nstring_init) [108] 3
      (with_reader (tdf_reader_open (map Some (bytes_in_file w)) [111] 0) ex_linker) =
      (l', Ok (Library [108] (read_capsule [108] <$> ex_capsules) 4 1 true)) /\
    l_errors l' = l_errors ex_linker /\
    forall key k, wf_nstring key -> wf_key k -> lib_index (l_shapes l') key k = written_index 3 Z.of_nat ex_lib_shapes key k.
Proof.
  exact (library_read_accepts_written (fun _ => 0) (fun _ => nstring_init) ex_statics ex_lib_shapes ex_capsules Z.of_nat [108] 3
    at_close [111] 0 [111] 0 ex_linker ex_lib_ready ex_lib_legal (or_introl eq_refl) eq_refl).
Defined.
