(* ===== verification/TldRenameFileSpec.v ===== *)
(** * TldRenameFileSpec: reading files of renames

    The parser of rename-file.c ends on any file, gives the linker arguments
    that are well formed, and reads back the renames that a file is made of. *)
From stdpp Require Import base list list_numbers numbers.
From Stdlib Require Import ZArith Lia.
From S2P Require Import Prelude Codec ExdsString ExdsError TldNameKey TldIO ExdsStream TldIOSpec TldCapsule TldArgs TldArgsSpec TldRenameFile.

(** ** Escape sequences, on the text *)

#[export] Instance status_eq_dec : EqDecision IStreamStatusT.
Proof. solve_decision. Defined.

Definition hex_digit (l : list Z) : option Z * list Z :=
  match l with
  | [] => (None, [])
  | c :: l =>
      (if (c =? 0) || (c =? ch_newline) || (syntax_value c =? SYNTAX_NO_VALUE) || (16 <=? syntax_value c) then None
       else Some (syntax_value c), l)
  end.

Definition unescape_hex (l : list Z) : IStreamStatusT * Z * list Z :=
  match hex_digit l with
  | (None, l) => (ISTREAM_STAT_SYNTAX_ERROR, 0, l)
  | (Some d1, l) =>
      match hex_digit l with
      | (None, l) => (ISTREAM_STAT_SYNTAX_ERROR, 0, l)
      | (Some d2, l) => (ISTREAM_STAT_READ_CHAR, u8 (d1 * 16 + d2), l)
      end
  end.

Definition unescape (l : list Z) : IStreamStatusT * Z * list Z :=
  match l with
  | [] => (ISTREAM_STAT_SYNTAX_ERROR, 0, [])
  | c :: l =>
      if c =? ch_newline then (ISTREAM_STAT_NO_CHAR, 0, l)
      else if c =? ch_0 then (ISTREAM_STAT_READ_CHAR, 0, l)
      else if (c =? 102) || (c =? 70) then (ISTREAM_STAT_READ_CHAR, 12, l)
      else if (c =? 110) || (c =? 78) then (ISTREAM_STAT_READ_CHAR, 10, l)
      else if (c =? 114) || (c =? 82) then (ISTREAM_STAT_READ_CHAR, 13, l)
      else if (c =? 116) || (c =? 84) then (ISTREAM_STAT_READ_CHAR, 9, l)
      else if (c =? 120) || (c =? 88) then unescape_hex l
      else (ISTREAM_STAT_READ_CHAR, c, l)
  end.

Lemma hex_digit_ok l : Forall is_byte l -> Forall is_byte (hex_digit l).2 /\ (length (hex_digit l).2 <= length l)%nat.
Proof. intros H. destruct H; cbn; [by split; [constructor|]|]. split; [assumption|lia]. Qed.

(** A character uses up some text. *)
Lemma unescape_ok l status c l' :
  Forall is_byte l -> unescape l = (status, c, l') ->
  is_byte c /\ Forall is_byte l' /\ (length l' + (if decide (status = ISTREAM_STAT_READ_CHAR) then 1 else 0) <= length l)%nat.
Proof.
  intros H. destruct H as [|c0 l Hc Hl]; cbn [unescape length]; [intros [= <- <- <-]; by split_and!|].
  assert (forall st d, is_byte d -> (st, d, l) = (status, c, l') -> is_byte c /\ Forall is_byte l' /\
    (length l' + (if decide (status = ISTREAM_STAT_READ_CHAR) then 1 else 0) <= S (length l))%nat) as Hone.
  { intros st d Hd [= <- <- <-]. split_and!; auto. destruct (decide _); lia. }
  repeat (match goal with |- context [if ?x =? _ then _ else _] => destruct (x =? _) | |- context [if ?x || _ then _ else _] => destruct (x || _) end;
    [try (apply Hone; unfold is_byte; lia)|]); [|by apply Hone].
  unfold unescape_hex. destruct (hex_digit_ok l Hl) as [H1 H2]. destruct (hex_digit l) as [[d1|] l1]; cbn [snd] in H1, H2.
  - destruct (hex_digit_ok l1 H1) as [H3 H4]. destruct (hex_digit l1) as [[d2|] l2]; cbn [snd] in H3, H4; intros [= <- <- <-].
    + split; [apply Z.mod_pos_bound; reflexivity|]. split; [exact H3|]. destruct (decide _); lia.
    + split; [unfold is_byte; lia|]. split; [exact H3|]. destruct (decide _); lia.
  - intros [= <- <- <-]. split; [unfold is_byte; lia|]. split; [exact H1|]. destruct (decide _); lia.
Qed.

Section Parses.
Variable junk : nat -> Z.
Variable junk_nstring : nat -> NStringT.

(** Whether the device fails at the end of the text. *)
Variable b : bool.

(** What holds of the arguments and the errors when the program exits because
    of too many errors. *)
Variable F : ArgDataT -> ReportsT -> Prop.

Abbreviation run A := (runM RenameT rename_exn A).

(** [m] has enough fuel to read from the text [l]: it leaves a state and a
    text that satisfy [Q], or the device fails, or there are too many errors. *)
Definition parses {A} (st : RenameT) (l : list Z) (m : run A) (Q : A -> RenameT -> list Z -> Prop) : Prop :=
  stream_at (rn_stream st) l b ->
  match m st with
  | Some (st', Ok a) => exists l', stream_at (rn_stream st') l' b /\ Q a st' l'
  | Some (_, Throw (XX_istream (XX_istream_read_error _))) => b = true
  | Some (st', Throw Fatal) => F (rn_args st') (rn_errors st')
  | _ => False
  end.

(** One error more from the state [st]: [P] holds of the errors if the program
    goes on. *)
Definition reported (st : RenameT) (P : ReportsT -> Prop) : Prop :=
  let '(e, ends) := serious_error (rn_errors st) in if ends then F (rn_args st) e else P e.

Definition with_stream (s : IStreamT) (st : RenameT) : RenameT := Rename s (rn_args st) (rn_errors st).

Lemma parses_ret {A} st l (a : A) (Q : A -> RenameT -> list Z -> Prop) : Q a st l -> parses st l (mret a) Q.
Proof. intros HQ Hs. by exists l. Qed.

Lemma parses_bind {A B} st l (m : run A) (k : A -> run B) Q R :
  parses st l m Q -> (forall a st' l', Q a st' l' -> parses st' l' (k a) R) -> parses st l (m ≫= k) R.
Proof.
  intros Hm Hk Hs. specialize (Hm Hs). unfold mbind, runM_bind. destruct (m st) as [[st' [a|e]]|]; [|exact Hm|exact Hm].
  destruct Hm as (l' & Hs' & HQ). by apply (Hk a st' l').
Qed.

Lemma parses_impl {A} st l (m : run A) (Q R : A -> RenameT -> list Z -> Prop) :
  (forall a st' l', Q a st' l' -> R a st' l') -> parses st l m Q -> parses st l m R.
Proof.
  intros H Hm Hs. specialize (Hm Hs). destruct (m st) as [[st' [a|e]]|]; auto. destruct Hm as (l' & H1 & H2). eauto.
Qed.

Lemma parses_getc {A} st l (k : option Z -> run A) Q :
  (l = [] -> b = false -> forall s, parses (with_stream s st) [] (k None) Q) ->
  (forall c l', l = c :: l' -> forall s, parses (with_stream s st) l' (k (Some c)) Q) ->
  parses st l (lift (on_stream istream_getc) ≫= k) Q.
Proof.
  intros Hnil Hcons Hs. pose proof (getc_ok _ _ _ Hs) as H. unfold mbind, runM_bind, lift, on_stream. destruct l as [|c l].
  - destruct (decide (b = true)) as [Eb|Eb%not_true_is_false]; rewrite Eb in H.
    + destruct H as (s' & ->). exact Eb.
    + destruct H as (s' & -> & H & _). rewrite <- Eb in H. exact (Hnil eq_refl Eb s' H).
  - destruct H as (s' & -> & H & _). exact (Hcons c l eq_refl s' H).
Qed.

(** The state after errors were reported or lines counted. *)
Definition same_args (st st' : RenameT) : Prop := rn_args st' = rn_args st.

Lemma parses_error {A} st l (k : unit -> run A) Q :
  reported st (fun e => parses (Rename (rn_stream st) (rn_args st) e) l (k tt) Q) -> parses st l (lift error_posn ≫= k) Q.
Proof.
  unfold reported. intros H Hs. unfold lift, mbind, runM_bind, error_posn. destruct (serious_error (rn_errors st)) as [e []]; [exact H|exact (H Hs)].
Qed.

Lemma parses_line {A} st l (k : unit -> run A) Q :
  (forall s, parses (with_stream s st) l (k tt) Q) -> parses st l (lift (on_stream istream_inc_line) ≫= k) Q.
Proof. intros H Hs. eapply (H _). exact Hs. Qed.

Lemma parses_newline {A} st l (k : unit -> run A) Q :
  reported st (fun e => forall s, parses (Rename s (rn_args st) e) l (k tt) Q) -> parses st l (lift unexpected_newline ≫= k) Q.
Proof.
  unfold reported. intros H Hs.
  assert (exists s, lift unexpected_newline st = lift error_posn (with_stream s st) /\ stream_at s l b) as (s & E & Hs') by (eexists; split; [reflexivity|exact Hs]).
  unfold mbind, runM_bind. rewrite E. unfold lift, error_posn. cbn [rn_errors with_stream].
  destruct (serious_error (rn_errors st)) as [e []]; [exact H|exact (H s Hs')].
Qed.

(** ** Escape sequences *)

(** What an operation of the stream does, from the text [l]. *)
Definition scans {A} (s : IStreamT) (l : list Z) (m : istream A) (Q : A -> list Z -> Prop) : Prop :=
  stream_at s l b ->
  match m s with
  | (s', Ok a) => exists l', stream_at s' l' b /\ Q a l'
  | (_, Throw (XX_istream_read_error _)) => b = true
  | _ => False
  end.

Lemma scans_bind {A B} s l (m : istream A) (k : A -> istream B) Q R :
  scans s l m Q -> (forall a s' l', Q a l' -> scans s' l' (k a) R) -> scans s l (m ≫= k) R.
Proof.
  intros Hm Hk Hs. specialize (Hm Hs). unfold mbind, stM_bind. destruct (m s) as [s' [a|e]]; [|exact Hm].
  destruct Hm as (l' & Hs' & HQ). by apply (Hk a s' l').
Qed.

Lemma scans_ret {A} s l (a : A) (Q : A -> list Z -> Prop) : Q a l -> scans s l (mret a) Q.
Proof. intros HQ Hs. by exists l. Qed.

Lemma scans_getc s l : scans s l istream_getc (fun o l' => match l with c :: l1 => o = Some c /\ l' = l1 | [] => o = None /\ l' = [] end).
Proof.
  intros Hs. pose proof (getc_ok _ _ _ Hs) as H. destruct l as [|c l].
  - destruct (decide (b = true)) as [Eb|Eb%not_true_is_false]; rewrite Eb in H; [by destruct H as (s' & ->)|].
    destruct H as (s' & -> & H & _). exists []. by rewrite Eb.
  - destruct H as (s' & -> & H & _). by exists l.
Qed.

Lemma scans_line {A} s l (k : unit -> istream A) Q : (forall s', scans s' l (k tt) Q) -> scans s l (istream_inc_line ≫= k) Q.
Proof. intros H Hs. eapply (H _). exact Hs. Qed.

Lemma scans_hex_digit s l : scans s l istream_read_hex_digit (fun o l' => (o, l') = hex_digit l).
Proof.
  unfold istream_read_hex_digit. eapply scans_bind; [apply scans_getc|]. intros o s' l1 H. destruct l as [|c l].
  - destruct H as [-> ->]. by apply scans_ret.
  - destruct H as [-> ->]. cbn [hex_digit]. destruct (c =? 0); [by apply scans_ret|].
    destruct (c =? ch_newline); [apply scans_line; intros s2; by apply scans_ret|].
    apply scans_ret. cbn [orb]. by destruct (syntax_value c =? SYNTAX_NO_VALUE), (16 <=? syntax_value c).
Qed.

Lemma scans_escape s l : scans s l istream_read_escaped_char (fun r l' => (r.1, r.2, l') = unescape l).
Proof.
  unfold istream_read_escaped_char. eapply scans_bind; [apply scans_getc|]. intros o s' l1 H. destruct l as [|c l].
  { destruct H as [-> ->]. by apply scans_ret. }
  destruct H as [-> ->]. cbn [unescape]. destruct (c =? ch_newline); [apply scans_line; intros s2; by apply scans_ret|].
  repeat (match goal with |- context [if ?x then _ else _] => destruct x end; [try by apply scans_ret|]); [|by apply scans_ret].
  unfold istream_read_hex_char, unescape_hex. eapply scans_bind; [apply scans_hex_digit|]. intros o s2 l2 ->%eq_sym.
  destruct o as [d1|]; [|by apply scans_ret]. eapply scans_bind; [apply scans_hex_digit|]. intros o s3 l3 ->%eq_sym.
  destruct o as [d2|]; by apply scans_ret.
Qed.

(** The escape after a backslash. *)
Lemma parses_escape {A} st l d (k : DStringT -> run A) Q :
  (forall status c l', unescape l = (status, c, l') ->
     let P e := forall s, parses (Rename s (rn_args st) e) l' (k (if decide (status = ISTREAM_STAT_READ_CHAR) then dstring_append_char junk d c else d)) Q in
     if decide (status = ISTREAM_STAT_SYNTAX_ERROR) then reported st P else P (rn_errors st)) ->
  parses st l (lift (read_escape junk d) ≫= k) Q.
Proof.
  intros H Hs. pose proof (scans_escape (rn_stream st) l Hs) as He. unfold read_escape, on_stream, lift, mbind, runM_bind, stM_bind.
  destruct (istream_read_escaped_char (rn_stream st)) as [s' [[status c]|e]]; [|destruct e; [exact He|contradiction]].
  destruct He as (l' & Hs' & He). cbn [fst snd] in He. specialize (H status c l' (eq_sym He)).
  destruct status; [exact (H s' Hs')..|]. change (reported st (fun e => forall s, parses (Rename s (rn_args st) e) l' (k d) Q)) in H.
  unfold error_posn, reported in *. cbn [rn_errors rn_stream rn_args].
  destruct (serious_error (rn_errors st)) as [e []]; [exact H|exact (H s' Hs')].
Qed.

(** ** Tokens of any text *)

Hypothesis Hmany : forall a e, too_many e -> F a e.

Lemma reported_any st (P : ReportsT -> Prop) : (forall e, P e) -> reported st P.
Proof.
  intros H. unfold reported. pose proof (serious_error_ends (rn_errors st)) as He. destruct (serious_error (rn_errors st)) as [e []]; [|apply H].
  by apply Hmany, He.
Qed.

(** The end comes only when the device does not fail. *)
Definition token_ok (t : RenameTokenT) : Prop :=
  match t with
  | RTOK_SHAPE s => ok_nstring s
  | RTOK_NAME k => ok_key k
  | RTOK_SEMI => True
  | RTOK_EOF => b = false
  end.

(** The arguments are kept and some text is left. *)
Definition token_read (st : RenameT) (l : list Z) (t : RenameTokenT) (st' : RenameT) (l' : list Z) : Prop :=
  token_ok t /\ rn_args st' = rn_args st /\ Forall is_byte l' /\ (length l' <= length l)%nat.

Definition text_room (n : nat) (l : list Z) : Prop := Forall is_byte l /\ Z.of_nat (n + length l) < 2 ^ 32.

Definition d_ok (d : DStringT) : Prop := wf_dstring d /\ Forall is_byte (d_str d).

Lemma d_ok_init : d_ok (dstring_init junk) /\ d_str (dstring_init junk) = [].
Proof. destruct (dstring_init_ok junk) as [H1 H2]. split; [split; [exact H1|by rewrite H2]|exact H2]. Qed.

Lemma d_ok_append d c : d_ok d -> is_byte c ->
  d_ok (dstring_append_char junk d c) /\ length (d_str (dstring_append_char junk d c)) = S (length (d_str d)).
Proof.
  intros [H1 H2] Hc. destruct (dstring_append_char_ok junk d c H1) as [H3 H4]. unfold d_ok. rewrite H4, length_app. cbn.
  split; [split; [exact H3|apply Forall_app; by split; [|apply Forall_singleton]]|lia].
Qed.

Lemma d_ok_nstring d : d_ok d -> Z.of_nat (length (d_str d)) < 2 ^ 32 -> ok_nstring (dstring_to_nstring junk d).
Proof.
  intros [H1 H2] Hl. rewrite dstring_to_nstring_ok by exact H1.
  assert (length (d_str d) = d_length d) as E by (unfold d_str; rewrite length_take; destruct H1; lia).
  split; [split; [exact E|exact H2]|]. cbn. by rewrite <- E.
Qed.

Lemma token_read_more st st1 l l1 (m : run RenameTokenT) :
  rn_args st1 = rn_args st -> (length l1 <= length l)%nat -> parses st1 l1 m (token_read st1 l1) -> parses st1 l1 m (token_read st l).
Proof.
  intros Ha Hl. apply parses_impl. intros t st' l' (H1 & H2 & H3 & H4). split_and!; auto; [congruence|lia].
Qed.

(** A loop that collects the characters of a token in [d]. *)
Definition collects (loop : DStringT -> run RenameTokenT) (fuel n : nat) : Prop := forall st l d,
  (length l < fuel)%nat -> d_ok d -> text_room (n + length (d_str d)) l -> parses st l (loop d) (token_read st l).

Section Steps.
Variables (loop : DStringT -> run RenameTokenT) (fuel n : nat) (st : RenameT) (c : Z) (l : list Z) (d : DStringT).
Hypothesis Hloop : collects loop fuel n.
Hypothesis Hfuel : (length l < fuel)%nat.
Hypothesis Hd : d_ok d.
Hypothesis Hroom : text_room (n + length (d_str d)) (c :: l).

Lemma room_less : text_room (n + length (d_str d)) l.
Proof. destruct Hroom as [H1 H2]. inversion H1; subst. split; [assumption|]. cbn in H2. lia. Qed.

Lemma collect_char s e : parses (Rename s (rn_args st) e) l (loop (dstring_append_char junk d c)) (token_read st (c :: l)).
Proof.
  destruct Hroom as [H1 H2]. inversion H1 as [|? ? Hc H3]; subst. destruct (d_ok_append d c Hd Hc) as [H4 H5].
  apply token_read_more; [reflexivity|cbn; lia|]. apply Hloop; [exact Hfuel|exact H4|]. split; [exact H3|]. rewrite H5. cbn in H2. lia.
Qed.

Lemma collect_same s e : parses (Rename s (rn_args st) e) l (loop d) (token_read st (c :: l)).
Proof. apply token_read_more; [reflexivity|cbn; lia|]. apply Hloop; [exact Hfuel|exact Hd|exact room_less]. Qed.

Lemma collect_escape s e : parses (Rename s (rn_args st) e) l (lift (read_escape junk d) ≫= loop) (token_read st (c :: l)).
Proof.
  destruct room_less as [H1 H2]. apply parses_escape. intros status c' l' He.
  destruct (unescape_ok l status c' l' H1 He) as (H3 & H4 & H5). cbn zeta.
  match goal with |- context [reported _ ?P] => assert (forall e0, P e0) as Hall end;
    [|by destruct (decide (status = ISTREAM_STAT_SYNTAX_ERROR)); [apply reported_any|apply Hall]].
  intros e0 s'. apply token_read_more; [reflexivity|cbn; lia|].
  destruct (decide (status = ISTREAM_STAT_READ_CHAR)) as [E|E].
  - destruct (d_ok_append d c' Hd H3) as [H6 H7]. apply Hloop; [lia|exact H6|]. split; [exact H4|]. rewrite H7. lia.
  - apply Hloop; [lia|exact Hd|]. split; [exact H4|]. lia.
Qed.
End Steps.

Lemma token_eof st s : b = false -> parses (with_stream s st) [] (_ ← lift error_posn; mret RTOK_EOF) (token_read st []).
Proof. intros Hb. apply parses_error, reported_any. intros e. apply parses_ret. by split_and!. Qed.

Lemma token_done st s c l t : token_ok t -> Forall is_byte l -> parses (with_stream s st) l (mret t) (token_read st (c :: l)).
Proof. intros Ht Hl. apply parses_ret. split_and!; auto. cbn. lia. Qed.

Lemma room_string n d c l : text_room (n + length (d_str d)) (c :: l) -> d_ok d -> ok_nstring (dstring_to_nstring junk d).
Proof. intros [_ H] Hd. apply d_ok_nstring; [exact Hd|]. cbn in H. lia. Qed.

Lemma read_string_total n fuel : collects (rename_file_read_string junk fuel) fuel n.
Proof.
  induction fuel as [|fuel IH]; intros st l d Hf Hd Hroom; [lia|]. cbn [rename_file_read_string]. apply parses_getc.
  - intros -> Hb0 s. by apply token_eof.
  - intros c l' -> s. cbn in Hf. assert (length l' < fuel)%nat as Hf' by lia. assert (Forall is_byte l') as Hb by (destruct Hroom as [H _]; by inversion H).
    destruct (c =? ch_newline); [apply parses_newline, reported_any; intros e s'; by apply (collect_same (rename_file_read_string junk fuel) fuel n st c l' d)|].
    destruct (c =? ch_dquote); [apply token_done; [by eapply room_string|exact Hb]|].
    destruct (_ || _); [apply parses_error, reported_any; intros e; by apply (collect_same (rename_file_read_string junk fuel) fuel n st c l' d)|].
    destruct (c =? ch_backslash); [by apply (collect_escape (rename_file_read_string junk fuel) fuel n st c l' d)|by apply (collect_char (rename_file_read_string junk fuel) fuel n st c l' d)].
Qed.

Lemma read_shape_total n fuel : collects (rename_file_read_shape junk fuel) fuel n.
Proof.
  induction fuel as [|fuel IH]; intros st l d Hf Hd Hroom; [lia|]. cbn [rename_file_read_shape]. apply parses_getc.
  - intros -> Hb0 s. by apply token_eof.
  - intros c l' -> s. cbn in Hf. assert (length l' < fuel)%nat as Hf' by lia. assert (Forall is_byte l') as Hb by (destruct Hroom as [H _]; by inversion H).
    destruct (c =? ch_newline); [apply parses_newline, reported_any; intros e s'; by apply (collect_same (rename_file_read_shape junk fuel) fuel n st c l' d)|].
    destruct (c =? ch_quote); [apply token_done; [by eapply room_string|exact Hb]|].
    destruct (c =? ch_backslash); [by apply (collect_escape (rename_file_read_shape junk fuel) fuel n st c l' d)|by apply (collect_char (rename_file_read_shape junk fuel) fuel n st c l' d)].
Qed.

Lemma set_components_ok new : forall i cs, length cs = (i + length new)%nat ->
  set_components (KT_UNIQUE cs) i new = Some (KT_UNIQUE (take i cs ++ new)).
Proof.
  induction new as [|x new IH]; intros i cs Hl; cbn [set_components length] in *.
  - rewrite app_nil_r, take_ge by lia. reflexivity.
  - unfold name_key_set_component. rewrite (proj2 (Nat.ltb_lt _ _)) by lia. cbn [mbind option_bind].
    rewrite IH by (rewrite length_insert; lia). f_equal. f_equal. replace (nstring_assign x) with x by (by destruct x).
    rewrite (take_S_r _ _ x) by (apply list_lookup_insert_eq; lia). rewrite take_insert_ge by lia. by rewrite <- app_assoc.
Qed.

Lemma unique_ok list d : set_components (name_key_init_unique junk_nstring (S (length list))) 0 (list ++ [d]) = Some (KT_UNIQUE (list ++ [d])).
Proof.
  unfold name_key_init_unique. rewrite set_components_ok; [reflexivity|]. rewrite length_map, length_seq, length_app. cbn. lia.
Qed.

Lemma read_unique_total fuel : forall list, Forall ok_nstring list ->
  collects (fun d => rename_file_read_unique junk junk_nstring fuel (S (length list)) d list) fuel (length list).
Proof.
  induction fuel as [|fuel IH]; intros list Hlist st l d Hf Hd Hroom; [lia|]. cbn [rename_file_read_unique]. apply parses_getc.
  - intros -> Hb0 s. by apply token_eof.
  - intros c l' -> s. cbn in Hf. assert (length l' < fuel)%nat as Hf' by lia.
    pose proof Hroom as [Hb Hlen]. inversion Hb as [|? ? Hc Hb']; subst. cbn in Hlen.
    set (loop := fun d => rename_file_read_unique junk junk_nstring fuel (S (length list)) d list).
    assert (ok_nstring (dstring_to_nstring junk d)) as Hs by (by eapply room_string).
    destruct (c =? ch_newline); [apply parses_newline, reported_any; intros e s'; by apply (collect_same loop fuel (length list) st c l' d (IH list Hlist))|].
    destruct (c =? ch_close).
    { rewrite unique_ok. apply token_done; [|exact Hb']. split; [apply Forall_app; by split; [|apply Forall_singleton]|].
      rewrite length_app. cbn. lia. }
    destruct (c =? ch_open); [by apply (collect_same loop fuel (length list) st c l' d (IH list Hlist))|].
    destruct (c =? ch_dot).
    { destruct d_ok_init as [H0 E0]. apply token_read_more; [reflexivity|cbn; lia|].
      assert (S (length list) = length (list ++ [dstring_to_nstring junk d])) as E by (rewrite length_app; cbn; lia). rewrite E.
      apply (IH (list ++ [dstring_to_nstring junk d])); [apply Forall_app; by split; [|apply Forall_singleton]|exact Hf'|exact H0|].
      split; [exact Hb'|]. rewrite E0, <- E. cbn. lia. }
    destruct (c =? ch_backslash); [by apply (collect_escape loop fuel (length list) st c l' d (IH list Hlist))|].
    by apply (collect_char loop fuel (length list) st c l' d (IH list Hlist)).
Qed.

(** ** White space *)

(** How many characters [o] stands for. *)
Definition taken (o : option Z) : nat := match o with Some _ => 1 | None => 0 end.

Lemma skip_total fuel : forall st l comment, (length l < fuel)%nat -> Forall is_byte l ->
  parses st l (rename_file_skip_white_space fuel comment)
    (fun o st' l' => rn_args st' = rn_args st /\ Forall is_byte l' /\
       (length l' + taken o <= length l)%nat /\ (o = None -> b = false)).
Proof.
  induction fuel as [|fuel IH]; intros st l comment Hf Hb; [lia|]. cbn [rename_file_skip_white_space]. apply parses_getc.
  - intros -> Hb0 s. apply parses_ret. by split_and!.
  - intros c l' -> s. inversion Hb as [|? ? Hc Hb']; subst. cbn in Hf.
    assert (forall comment s', parses (with_stream s' st) l' (rename_file_skip_white_space fuel comment)
      (fun o st' l2 => rn_args st' = rn_args st /\ Forall is_byte l2 /\ (length l2 + taken o <= S (length l'))%nat /\ (o = None -> b = false))) as Hgo.
    { intros comment' s'. eapply parses_impl; [|apply IH; [lia|exact Hb']]. intros o st' l2 (H1 & H2 & H3 & H4). split_and!; auto. }
    destruct (c =? 0); [apply Hgo|]. destruct (c =? ch_newline); [apply parses_line; intros s'; apply (Hgo false s')|].
    destruct (c =? ch_hash); [apply Hgo|]. destruct (_ && _); [|apply Hgo]. apply parses_ret. split_and!; auto; [cbn; lia|done].
Qed.

Lemma next_token_total fuel : forall st l, (length l < fuel)%nat -> text_room 0 l ->
  parses st l (rename_file_next_token junk junk_nstring fuel)
    (fun t st' l' => token_read st l t st' l' /\ (t = RTOK_EOF \/ length l' < length l)%nat).
Proof.
  induction fuel as [|fuel IH]; intros st l Hf [Hb Hlen]; [lia|]. cbn [rename_file_next_token].
  eapply parses_bind; [by apply skip_total|]. intros [c|] st1 l1 (Ha & Hb1 & Hl1 & Heof); cbn in Hl1.
  2: { apply parses_ret. split; [|by left]. split_and!; [by apply Heof|exact Ha|exact Hb1|lia]. }
  destruct d_ok_init as [H0 E0]. assert (text_room (0 + length (d_str (dstring_init junk))) l1) as Hroom by (split; [exact Hb1|rewrite E0; cbn; lia]).
  assert (forall m, parses st1 l1 m (token_read st1 l1) -> parses st1 l1 m
    (fun t st' l' => token_read st l t st' l' /\ (t = RTOK_EOF \/ length l' < length l)%nat)) as Hgo.
  { intros m. apply parses_impl. intros t st' l' (H1 & H2 & H3 & H4). split; [split_and!; auto; [congruence|lia]|right; lia]. }
  destruct (c =? ch_open); [apply Hgo, (read_unique_total (S fuel) []); [constructor|lia|exact H0|exact Hroom]|].
  destruct (c =? ch_quote); [apply Hgo, (read_shape_total 0 (S fuel)); [lia|exact H0|exact Hroom]|].
  destruct (c =? ch_dquote); [apply Hgo, (read_string_total 0 (S fuel)); [lia|exact H0|exact Hroom]|].
  destruct (c =? ch_semi).
  { apply parses_ret. split; [split_and!; [exact I|exact Ha|exact Hb1|lia]|right; lia]. }
  apply parses_error, reported_any. intros e. eapply parses_impl; [|apply IH; [lia|by split; [|cbn; lia]]].
  intros t st' l' ((H1 & H2 & H3 & H4) & H5). cbn in H2. split; [split_and!; auto; [congruence|lia]|destruct H5; [by left|right; lia]].
Qed.
(** ** The parser, on any text *)

(** What is left to read, once renames may have been added to [a0]. *)
Variable a0 : ArgDataT.

Definition parse_ok (st : RenameT) (l : list Z) : Prop := only_renames a0 (rn_args st) /\ text_room 0 l.

Lemma text_room_less l l' : text_room 0 l -> Forall is_byte l' -> (length l' <= length l)%nat -> text_room 0 l'.
Proof. intros [_ H] Hb Hl. split; [exact Hb|]. cbn in *. lia. Qed.

Lemma parses_token {A} fuel st l (k : RenameTokenT -> run A) Q :
  (length l < fuel)%nat -> parse_ok st l ->
  (forall t st' l', token_ok t -> parse_ok st' l' -> (length l' <= length l)%nat -> t = RTOK_EOF \/ (length l' < length l)%nat ->
     parses st' l' (k t) Q) ->
  parses st l (rename_file_next_token junk junk_nstring fuel ≫= k) Q.
Proof.
  intros Hf [Ha Hr] Hk. eapply parses_bind; [by apply next_token_total|]. intros t st' l' ((H1 & H2 & H3 & H4) & H5).
  apply Hk; auto. split; [by rewrite H2|by eapply text_room_less].
Qed.

Lemma parses_report {A} st l (k : unit -> run A) Q :
  parse_ok st l -> (forall st', parse_ok st' l -> parses st' l (k tt) Q) -> parses st l (lift error_posn ≫= k) Q.
Proof. intros H Hk. apply parses_error, reported_any. intros e. apply Hk. exact H. Qed.

Lemma parses_add {A} st l shape from to (k : unit -> run A) Q :
  ok_nstring shape -> ok_key from -> ok_key to -> parse_ok st l ->
  (forall st', parse_ok st' l -> parses st' l (k tt) Q) -> parses st l (lift (add_rename junk shape from to) ≫= k) Q.
Proof.
  intros Hs Hf Ht [Ha Hr] Hk. destruct (add_rename_args_ok junk _ shape from to (proj1 Ha) Hs Hf Ht) as (a' & err & E & Ha').
  pose proof (add_rename_only junk a0 _ _ _ _ _ _ Ha Ha' E) as Ho.
  intros Hst. unfold add_rename, lift, mbind, runM_bind. rewrite E.
  pose proof (report_if_ends err (rn_errors st)) as He. destruct (report_if err (rn_errors st)) as [e []]; [by apply Hmany, He|].
  exact (Hk (Rename _ a' _) (conj Ho Hr) Hst).
Qed.

Lemma parses_finish {A} st l (a : A) (P : A -> Prop) :
  P a -> parse_ok st l -> parses st l (mret a) (fun a st' l' => P a /\ parse_ok st' l' /\ (length l' <= length l)%nat).
Proof. intros. by apply parses_ret. Qed.

Lemma parses_less {A} st (l l1 : list Z) (m : run A) (P : A -> Prop) : (length l1 <= length l)%nat ->
  parses st l1 m (fun a st' l' => P a /\ parse_ok st' l' /\ (length l' <= length l1)%nat) ->
  parses st l1 m (fun a st' l' => P a /\ parse_ok st' l' /\ (length l' <= length l)%nat).
Proof. intros Hl. apply parses_impl. intros a st' l' (H1 & H2 & H3). split_and!; [exact H1|exact H2|lia]. Qed.

Lemma names_loop_total shape fuel : ok_nstring shape -> forall st l t,
  (length l < fuel)%nat -> token_ok t -> parse_ok st l ->
  parses st l (parse_names_loop junk junk_nstring fuel shape t)
    (fun t st' l' => token_ok t /\ parse_ok st' l' /\ (length l' <= length l)%nat).
Proof.
  intros Hs. induction fuel as [|fuel IH]; intros st l t Hf Ht Hst; [lia|]. cbn [parse_names_loop].
  destruct t as [s|name| |]; try (by apply parses_finish).
  apply parses_token; [exact Hf|exact Hst|]. intros t1 st1 l1 Ht1 Hst1 Hl1 Hless. destruct t1 as [s|to| |].
  - apply parses_report; [exact Hst1|]. intros st2 Hst2. by apply parses_less, parses_finish.
  - destruct Hless as [?|Hless]; [done|]. rewrite !name_key_assign_id. apply parses_add; auto. intros st2 Hst2.
    apply parses_token; [lia|exact Hst2|]. intros t2 st3 l2 Ht2 Hst3 Hl2 _.
    assert (forall st, parse_ok st l2 -> parses st l2 (parse_names_loop junk junk_nstring fuel shape t2)
      (fun t st' l' => token_ok t /\ parse_ok st' l' /\ (length l' <= length l)%nat)) as Hgo.
    { intros st' Hst'. apply parses_less; [lia|]. apply IH; auto. lia. }
    destruct t2; try (by apply parses_report; [exact Hst3|]).
    apply parses_token; [lia|exact Hst3|]. intros t3 st4 l3 Ht3 Hst4 Hl3 _. apply parses_less; [lia|]. apply IH; auto. lia.
  - destruct Hless as [?|Hless]; [done|]. apply parses_report; [exact Hst1|]. intros st2 Hst2.
    apply parses_token; [lia|exact Hst2|]. intros t2 st3 l2 Ht2 Hst3 Hl2 _. apply parses_less; [lia|]. apply IH; auto. lia.
  - apply parses_report; [exact Hst1|]. intros st2 Hst2. by apply parses_less, parses_finish.
Qed.

Lemma parse_names_total shape fuel st l : ok_nstring shape -> (length l < fuel)%nat -> parse_ok st l ->
  parses st l (rename_file_parse_names junk junk_nstring fuel shape)
    (fun t st' l' => token_ok t /\ parse_ok st' l' /\ (t = RTOK_EOF \/ length l' < length l)%nat).
Proof.
  intros Hs Hf Hst. unfold rename_file_parse_names. apply parses_token; [exact Hf|exact Hst|].
  intros t st1 l1 Ht Hst1 Hl1 [->|Hless].
  - destruct fuel as [|fuel]; [lia|]. apply parses_ret. split_and!; [exact Ht|exact Hst1|by left].
  - eapply parses_impl; [|apply names_loop_total; [exact Hs| |exact Ht|exact Hst1]; lia].
    intros t' st' l' (H1 & H2 & H3). split_and!; auto. right. lia.
Qed.

Lemma parse_1_loop_total fuel : forall st l t need,
  (t = RTOK_EOF /\ 0 < fuel \/ S (length l) < fuel)%nat -> token_ok t -> parse_ok st l ->
  parses st l (parse_1_loop junk junk_nstring fuel need t) (fun _ st' _ => only_renames a0 (rn_args st') /\ b = false).
Proof.
  induction fuel as [|fuel IH]; intros st l t need Hf Ht Hst; [lia|]. cbn [parse_1_loop].
  assert (t <> RTOK_EOF -> forall st need, parse_ok st l ->
    parses st l (token ← rename_file_next_token junk junk_nstring (S fuel); parse_1_loop junk junk_nstring fuel need token)
      (fun _ st' _ => only_renames a0 (rn_args st') /\ b = false)) as Hgo.
  { intros Hne st' need' Hst'. destruct Hf as [[? _]|Hf]; [done|]. apply parses_token; [lia|exact Hst'|].
    intros t1 st1 l1 Ht1 Hst1 _ Hless. apply IH; auto. destruct Hless as [->|Hless]; [left; split; [done|lia]|right; lia]. }
  assert (t <> RTOK_EOF -> parses st l (_ ← lift (if need then error_posn else mret tt);
      token ← rename_file_next_token junk junk_nstring (S fuel); parse_1_loop junk junk_nstring fuel false token)
      (fun _ st' _ => only_renames a0 (rn_args st') /\ b = false)) as Hother.
  { intros Hne. destruct need; [apply parses_report; [exact Hst|]; intros st' Hst'; by apply Hgo|].
    intros Hs. exact (Hgo Hne st false Hst Hs). }
  destruct t as [shape|name| |]; [|by apply Hother|by apply Hother|by apply parses_ret; split; [apply Hst|]].
  destruct Hf as [[? _]|Hf]; [done|]. eapply parses_bind; [apply parse_names_total; [exact Ht|lia|exact Hst]|].
  intros t1 st1 l1 (Ht1 & Hst1 & Hless). apply IH; auto. destruct Hless as [->|Hless]; [left; split; [done|lia]|right; lia].
Qed.

Lemma parse_1_total fuel st l : (length l < fuel)%nat -> parse_ok st l ->
  parses st l (rename_file_parse_1 junk junk_nstring fuel) (fun _ st' _ => only_renames a0 (rn_args st') /\ b = false).
Proof.
  intros Hf Hst. apply parses_token; [exact Hf|exact Hst|]. intros t st1 l1 Ht Hst1 _ Hless. apply parse_1_loop_total; auto.
  destruct Hless as [->|Hless]; [left; split; [done|lia]|right; lia].
Qed.
End Parses.

(** ** The errors are counted *)

Definition counted {A} (m : runM RenameT rename_exn A) : Prop :=
  forall st, match m st with Some (st', _) => later_reports (rn_errors st) (rn_errors st') | None => True end.

Lemma counted_bind {A B} (m : runM RenameT rename_exn A) (k : A -> runM RenameT rename_exn B) :
  counted m -> (forall a, counted (k a)) -> counted (m ≫= k).
Proof.
  intros Hm Hk st. specialize (Hm st). unfold mbind, runM_bind. destruct (m st) as [[st1 [a|e]]|]; [|exact Hm|exact I].
  specialize (Hk a st1). destruct (k a st1) as [[st2 x]|]; [|exact I]. by transitivity (rn_errors st1).
Qed.

(** What does not report errors. *)
Lemma counted_other {A} (m : renaming_file A) : (forall st, rn_errors (m st).1 = rn_errors st) -> counted (lift m).
Proof. intros H st. specialize (H st). unfold lift. destruct (m st) as [st' x]. cbn in H. split; [by rewrite H|by rewrite H]. Qed.

Lemma counted_ret {A} (a : A) : counted (mret a).
Proof. intros st. exact (reflexivity (rn_errors st)). Qed.

Lemma counted_stream {A} (m : istream A) : counted (lift (on_stream m)).
Proof. apply counted_other. intros st. unfold on_stream. by destruct (m (rn_stream st)). Qed.

Lemma counted_error : counted (lift error_posn).
Proof.
  intros st. unfold lift, error_posn. pose proof (serious_error_later (rn_errors st)) as H. by destruct (serious_error (rn_errors st)).
Qed.

Lemma counted_newline : counted (lift unexpected_newline).
Proof.
  intros st. apply (counted_error (with_stream (istream_inc_line (rn_stream st)).1 st)).
Qed.

Lemma counted_escape junk d : counted (lift (read_escape junk d)).
Proof.
  intros st. unfold lift, read_escape, mbind, stM_bind, on_stream. destruct (istream_read_escaped_char _) as [s [[status c]|e]]; [|exact (reflexivity (rn_errors st))].
  destruct status; try exact (reflexivity (rn_errors st)). pose proof (counted_error (with_stream s st)) as H. unfold lift, error_posn in *. cbn [rn_errors rn_args rn_stream with_stream] in *.
  destruct (serious_error (rn_errors st)) as [e []]; exact H.
Qed.

Lemma counted_add junk shape from to : counted (lift (add_rename junk shape from to)).
Proof.
  intros st. unfold lift, add_rename. destruct (arg_data_add_rename _ _ _ _ _) as [[a err]|]; [|exact (reflexivity (rn_errors st))].
  pose proof (report_if_later err (rn_errors st)) as H. by destruct (report_if err (rn_errors st)).
Qed.

Lemma counted_fuel {A} : counted (out_of_fuel : runM RenameT rename_exn A).
Proof. intros st. exact I. Qed.

Lemma counted_stop {A} e : counted (lift (st_throw e) : runM RenameT rename_exn A).
Proof. by apply counted_other. Qed.

Lemma counted_lift_ret {A} (a : A) : counted (lift (mret a) : runM RenameT rename_exn A).
Proof. by apply counted_other. Qed.

Create HintDb counted.
#[local] Hint Resolve counted_lift_ret counted_ret counted_stream counted_error counted_newline counted_escape counted_add counted_fuel counted_stop : counted.

Ltac counted_all := repeat match goal with
  | |- counted (_ ≫= _) => apply counted_bind; [|intros ?]
  | |- counted (if ?b then _ else _) => destruct b
  | |- counted (match ?x with _ => _ end) => destruct x
  | |- counted (lift (if ?b then _ else _)) => destruct b
  | _ => solve [auto with counted]
  end.

Section Counted.
Variable junk : nat -> Z.
Variable junk_nstring : nat -> NStringT.

Lemma skip_counted fuel : forall comment, counted (rename_file_skip_white_space fuel comment).
Proof. induction fuel as [|fuel IH]; intros comment; cbn [rename_file_skip_white_space]; counted_all. Qed.

Lemma read_unique_counted fuel : forall n d list, counted (rename_file_read_unique junk junk_nstring fuel n d list).
Proof. induction fuel as [|fuel IH]; intros n d list; cbn [rename_file_read_unique]; counted_all. Qed.

Lemma read_shape_counted fuel : forall d, counted (rename_file_read_shape junk fuel d).
Proof. induction fuel as [|fuel IH]; intros d; cbn [rename_file_read_shape]; counted_all. Qed.

Lemma read_string_counted fuel : forall d, counted (rename_file_read_string junk fuel d).
Proof. induction fuel as [|fuel IH]; intros d; cbn [rename_file_read_string]; counted_all. Qed.
#[local] Hint Resolve skip_counted read_unique_counted read_shape_counted read_string_counted : counted.

Lemma next_token_counted fuel : counted (rename_file_next_token junk junk_nstring fuel).
Proof. induction fuel as [|fuel IH]; cbn [rename_file_next_token]; counted_all. Qed.
#[local] Hint Resolve next_token_counted : counted.

Lemma names_loop_counted fuel : forall shape t, counted (parse_names_loop junk junk_nstring fuel shape t).
Proof. induction fuel as [|fuel IH]; intros shape t; cbn [parse_names_loop]; counted_all. Qed.
#[local] Hint Resolve names_loop_counted : counted.

Lemma parse_1_loop_counted fuel : forall need t, counted (parse_1_loop junk junk_nstring fuel need t).
Proof. induction fuel as [|fuel IH]; intros need t; cbn [parse_1_loop]; unfold rename_file_parse_names; counted_all. Qed.

Lemma parse_1_counted fuel : counted (rename_file_parse_1 junk junk_nstring fuel).
Proof. pose proof parse_1_loop_counted. unfold rename_file_parse_1. counted_all. Qed.
End Counted.

Lemma rename_file_ends junk junk_nstring data name args errors fuel :
  args_ok args -> quiet errors -> Forall is_byte (text data) -> Z.of_nat (length (text data)) < 2 ^ 32 -> (length (text data) < fuel)%nat ->
  exists args' errors' r, rename_file_parse junk junk_nstring fuel (Some data) name args errors = Some (args', errors', r) /\
    later_reports errors errors' /\
    match r with
    | Ok _ => fails data = false /\ only_renames args args'
    | Throw (XX_istream (XX_istream_read_error _)) => fails data = true
    | Throw Fatal => too_many errors'
    | Throw _ => False
    end.
Proof.
  intros Ha Hq Hb Hlen Hf. pose proof (open_ok data name) as H. unfold rename_file_parse. destruct (_ && _).
  { destruct H as (s & -> & H). eexists _, _, _. split; [reflexivity|]. by split. }
  destruct H as (s & -> & Hs & _).
  pose proof (parse_1_total junk junk_nstring (fails data) (fun _ => too_many) ltac:(auto) args fuel (Rename s args errors) (text data) Hf) as H.
  specialize (H ltac:(split; [by apply only_renames_refl|by split]) Hs).
  pose proof (parse_1_counted junk junk_nstring fuel (Rename s args errors)) as Hc. cbn [rn_errors] in Hc.
  destruct (rename_file_parse_1 junk junk_nstring fuel (Rename s args errors)) as [[st [[]|e]]|]; [| |contradiction]; cbn [mbind option_bind].
  - destruct H as (l' & _ & H1 & H2). eexists _, _, _. split; [reflexivity|]. split; [exact Hc|].
    pose proof (quiet_later _ _ Hc Hq) as E. unfold quiet in E. rewrite E. by split.
  - destruct e as [[n|]| |]; try contradiction; eexists _, _, _; (split; [reflexivity|]); by split.
Qed.



(** The arguments of a command line that names no file. *)
Definition no_args : ArgDataT := ArgData false false [] [] [] [] false false false false false false false None [] None [] [] None [].

Lemma no_args_ok : args_ok no_args.
Proof. split; constructor. Qed.

(** A rename without a semi colon, and a string that the file ends. *)
Definition torn_renames : list Z := [39; 97; 39; 32; 34; 98; 34; 91; 99; 93; 32; 34; 100].

