(* ===== verification/TldRenameFileBack.v ===== *)
(** * TldRenameFileBack: a file of renames, written and read back

    A printer of renames in the syntax that the head of rename-file.c
    describes, and the proof that the parser adds, in order, the renames of
    the file to the arguments. *)
From stdpp Require Import base list list_numbers numbers.
From Stdlib Require Import ZArith Lia.
From S2P Require Import Prelude Codec ExdsString ExdsError TldNameKey TldIO ExdsStream TldIOSpec TldCapsule TldArgs TldArgsSpec TldRenameFile TldRenameFileSpec.

(** ** The printer *)

(** The characters that stand for something else in a token. *)
Definition special (c : Z) : bool :=
  (c =? ch_backslash) || (c =? ch_quote) || (c =? ch_dquote) || (c =? ch_open) || (c =? ch_close) || (c =? ch_dot).

Definition print_char (c : Z) : list Z :=
  if c =? ch_newline then [ch_backslash; 110]
  else if special c then [ch_backslash; c]
  else [c].

Definition print_nstring (s : NStringT) : list Z := concat (print_char <$> n_contents s).

Definition print_name (k : NameKeyT) : list Z :=
  match k with
  | KT_STRING s => ch_dquote :: print_nstring s ++ [ch_dquote]
  | KT_UNIQUE [] => []
  | KT_UNIQUE (c :: cs) =>
      ch_open :: print_nstring c ++ concat ((fun c => ch_dot :: print_nstring c) <$> cs) ++ [ch_close]
  end.

Definition ch_space : Z := 32.

(** A line for each rename. *)
Definition print_rename (r : NameKeyT * NameKeyT) : list Z :=
  print_name r.1 ++ [ch_space] ++ print_name r.2 ++ [ch_semi; ch_newline].

(** The renames of a shape. *)
Definition print_group (g : NStringT * list (NameKeyT * NameKeyT)) : list Z :=
  ch_quote :: print_nstring g.1 ++ [ch_quote; ch_newline] ++ concat (print_rename <$> g.2).

Definition print_renames (gs : list (NStringT * list (NameKeyT * NameKeyT))) : list Z := concat (print_group <$> gs).

(** A name that has a notation: an unique has components. *)
Definition printable (k : NameKeyT) : Prop := ok_key k /\ k <> KT_UNIQUE [].

Definition group_ok (g : NStringT * list (NameKeyT * NameKeyT)) : Prop :=
  ok_nstring g.1 /\ Forall (fun r => printable r.1 /\ printable r.2) g.2.

(** ** What the parser is to do *)

Section Back.
Variable junk : nat -> Z.
Variable junk_nstring : nat -> NStringT.

(** The renames of a shape are added one by one; [true] when one of them is an
    error too many, after which nothing is added. *)
Fixpoint add_renames (shape : NStringT) (rs : list (NameKeyT * NameKeyT)) (args : ArgDataT) (errors : ReportsT) : option (ArgDataT * ReportsT * bool) :=
  match rs with
  | [] => Some (args, errors, false)
  | r :: rs =>
      '(args, err) ← arg_data_add_rename junk args shape r.1 r.2;
      let '(errors, ends) := report_if err errors in
      if ends then Some (args, errors, true) else add_renames shape rs args errors
  end.

Fixpoint add_groups (gs : list (NStringT * list (NameKeyT * NameKeyT))) (args : ArgDataT) (errors : ReportsT) : option (ArgDataT * ReportsT * bool) :=
  match gs with
  | [] => Some (args, errors, false)
  | g :: gs =>
      '(args, errors, ends) ← add_renames g.1 g.2 args errors;
      if (ends : bool) then Some (args, errors, true) else add_groups gs args errors
  end.

(** The arguments and the errors at the exit because of too many errors. *)
Variable F : ArgDataT -> ReportsT -> Prop.

Abbreviation parses := (parses false F).

(** The arguments and the errors are kept. *)
Definition undisturbed (st st' : RenameT) : Prop := rn_args st' = rn_args st /\ rn_errors st' = rn_errors st.

#[export] Instance undisturbed_preorder : PreOrder undisturbed.
Proof. split; [by split|]. intros s1 s2 s3 [A1 A2] [B1 B2]. split; congruence. Qed.

(** ** Characters *)

(** A loop that takes a printed character. *)
Definition accepts (loop : nat -> DStringT -> runM RenameT rename_exn RenameTokenT) : Prop :=
  forall fuel st l d c Q,
    (forall st', undisturbed st st' -> parses st' l (loop fuel (dstring_append_char junk d c)) Q) ->
    parses st (print_char c ++ l) (loop (S fuel) d) Q.

Lemma parses_char {A} st c l (k : option Z -> runM RenameT rename_exn A) Q :
  (forall st', undisturbed st st' -> parses st' l (k (Some c)) Q) -> parses st (c :: l) (lift (on_stream istream_getc) ≫= k) Q.
Proof. intros H. apply parses_getc; [done|]. intros c' l' [= -> ->] s. by apply H. Qed.

Lemma parses_escaped {A} st x c l d (k : DStringT -> runM RenameT rename_exn A) Q :
  unescape (x :: l) = (ISTREAM_STAT_READ_CHAR, c, l) ->
  (forall st', undisturbed st st' -> parses st' l (k (dstring_append_char junk d c)) Q) ->
  parses st (x :: l) (lift (read_escape junk d) ≫= k) Q.
Proof. intros E H. apply parses_escape. rewrite E. intros ? ? ? [= <- <- <-] P. rewrite decide_False by done. intros s. by apply H. Qed.

Lemma special_cases c : special c = true ->
  c = ch_backslash \/ c = ch_quote \/ c = ch_dquote \/ c = ch_open \/ c = ch_close \/ c = ch_dot.
Proof. unfold special. rewrite !orb_true_iff, !Z.eqb_eq. tauto. Qed.

Lemma special_not c : special c = false ->
  (c =? ch_backslash) = false /\ (c =? ch_quote) = false /\ (c =? ch_dquote) = false /\
  (c =? ch_open) = false /\ (c =? ch_close) = false /\ (c =? ch_dot) = false.
Proof. unfold special. rewrite !orb_false_iff. tauto. Qed.

(** The three loops differ in their other branches only. *)
Ltac accept_char :=
  intros fuel st l d c Q H; unfold print_char; destruct (Z.eqb_spec c ch_newline) as [->|Hn];
  [cbn [app]; apply parses_char; intros st1 H1; cbn;
   apply (parses_escaped st1 110 ch_newline); [reflexivity|]; intros st2 H2; apply H; by transitivity st1|];
  destruct (special c) eqn:Es;
  [cbn [app]; apply parses_char; intros st1 H1; cbn;
   apply (parses_escaped st1 c c); [by destruct (special_cases c Es) as [->|[->|[->|[->|[->| ->]]]]]|];
   intros st2 H2; apply H; by transitivity st1|];
  cbn [app]; apply parses_char; intros st1 H1; destruct (special_not c Es) as (E1 & E2 & E3 & E4 & E5 & E6);
  rewrite (proj2 (Z.eqb_neq c ch_newline) Hn), ?E1, ?E2, ?E3, ?E4, ?E5, ?E6; by apply H.

Lemma accepts_string : accepts (rename_file_read_string junk).
Proof. accept_char. Qed.

Lemma accepts_shape : accepts (rename_file_read_shape junk).
Proof. accept_char. Qed.

Lemma accepts_unique n list : accepts (fun fuel d => rename_file_read_unique junk junk_nstring fuel n d list).
Proof. accept_char. Qed.

Lemma print_char_length c : (0 < length (print_char c))%nat.
Proof. unfold print_char. destruct (c =? ch_newline), (special c); cbn; lia. Qed.

Lemma accepts_chars loop s : accepts loop -> forall fuel st l d Q,
  wf_dstring d -> (length (concat (print_char <$> s) ++ l) < fuel)%nat ->
  (forall st' d' fuel', undisturbed st st' -> wf_dstring d' -> d_str d' = d_str d ++ s -> (length l < fuel')%nat ->
     parses st' l (loop fuel' d') Q) ->
  parses st (concat (print_char <$> s) ++ l) (loop fuel d) Q.
Proof.
  intros Ha. induction s as [|c s IH]; intros fuel st l d Q Hd Hf H; cbn [fmap list_fmap concat app] in *.
  { apply H; [done|exact Hd|by rewrite app_nil_r|exact Hf]. }
  rewrite <- app_assoc in *. rewrite length_app in Hf. pose proof (print_char_length c).
  destruct fuel as [|fuel]; [lia|]. apply Ha. intros st1 H1. destruct (dstring_append_char_ok junk d c Hd) as [Hd1 E1].
  apply IH; [exact Hd1|lia|]. intros st2 d2 fuel2 H2 Hd2 E2 Hf2. apply H; auto; [by transitivity st1|].
  by rewrite E2, E1, <- app_assoc.
Qed.

(** A whole printed string, from an empty buffer. *)
Lemma accepts_nstring loop s fuel st l Q : accepts loop -> wf_nstring s -> (length (print_nstring s ++ l) < fuel)%nat ->
  (forall st' d' fuel', undisturbed st st' -> dstring_to_nstring junk d' = s -> (length l < fuel')%nat -> parses st' l (loop fuel' d') Q) ->
  parses st (print_nstring s ++ l) (loop fuel (dstring_init junk)) Q.
Proof.
  intros Ha [Hs _] Hf H. destruct (dstring_init_ok junk) as [H0 E0]. apply accepts_chars; [exact Ha|exact H0|exact Hf|].
  intros st' d' fuel' Hq Hd' E Hf'. apply H; auto. rewrite dstring_to_nstring_ok by exact Hd'. rewrite E0 in E. cbn in E.
  assert (length (d_str d') = d_length d') as El by (unfold d_str; rewrite length_take; destruct Hd'; lia).
  rewrite <- El, E. destruct s as [n cs]. cbn in *. by f_equal.
Qed.
(** ** Tokens *)

(** [l] starts with the token [t], and [l'] follows. *)
Definition gives (t : RenameTokenT) (l' : list Z) (st : RenameT) : RenameTokenT -> RenameT -> list Z -> Prop :=
  fun t' st' l2 => t' = t /\ l2 = l' /\ undisturbed st st'.

Lemma gives_ret st st' l t : undisturbed st st' -> parses st' l (mret t) (gives t l st).
Proof. intros H. apply parses_ret. by split_and!. Qed.

(** The character that ends a token is not taken by the loop. *)
Lemma read_string_back s fuel st l : wf_nstring s -> (length (print_nstring s ++ ch_dquote :: l) < fuel)%nat ->
  parses st (print_nstring s ++ ch_dquote :: l) (rename_file_read_string junk fuel (dstring_init junk)) (gives (RTOK_NAME (KT_STRING s)) l st).
Proof.
  intros Hs Hf. apply accepts_nstring; [apply accepts_string|exact Hs|exact Hf|]. intros st1 d fuel1 H1 Ed Hf1.
  destruct fuel1 as [|fuel1]; [lia|]. apply parses_char. intros st2 H2. cbn. rewrite Ed. unfold name_key_init_string.
  replace (nstring_assign s) with s by (by destruct s). apply gives_ret. by transitivity st1.
Qed.

Lemma read_shape_back s fuel st l : wf_nstring s -> (length (print_nstring s ++ ch_quote :: l) < fuel)%nat ->
  parses st (print_nstring s ++ ch_quote :: l) (rename_file_read_shape junk fuel (dstring_init junk)) (gives (RTOK_SHAPE s) l st).
Proof.
  intros Hs Hf. apply accepts_nstring; [apply accepts_shape|exact Hs|exact Hf|]. intros st1 d fuel1 H1 Ed Hf1.
  destruct fuel1 as [|fuel1]; [lia|]. apply parses_char. intros st2 H2. cbn. rewrite Ed. apply gives_ret. by transitivity st1.
Qed.

Definition print_rest (cs : list NStringT) : list Z := concat ((fun c => ch_dot :: print_nstring c) <$> cs) ++ [ch_close].

Lemma print_rest_cons c cs l : print_rest (c :: cs) ++ l = ch_dot :: print_nstring c ++ print_rest cs ++ l.
Proof. unfold print_rest. cbn. by rewrite <- !app_assoc. Qed.

Lemma read_unique_back cs : forall c list fuel st st0 l, Forall wf_nstring (c :: cs) -> undisturbed st0 st ->
  (length (print_nstring c ++ print_rest cs ++ l) < fuel)%nat ->
  parses st (print_nstring c ++ print_rest cs ++ l)
    (rename_file_read_unique junk junk_nstring fuel (S (length list)) (dstring_init junk) list) (gives (RTOK_NAME (KT_UNIQUE (list ++ c :: cs))) l st0).
Proof.
  induction cs as [|c' cs IH]; intros c list fuel st st0 l Hcs H0 Hf; inversion Hcs as [|? ? Hc Hcs']; subst;
    apply (accepts_nstring (fun fuel d => rename_file_read_unique junk junk_nstring fuel (S (length list)) d list));
    [apply accepts_unique|exact Hc|exact Hf| |apply accepts_unique|exact Hc|exact Hf|]; intros st1 d fuel1 H1 Ed Hf1;
    (destruct fuel1 as [|fuel1]; [lia|]).
  - apply parses_char; intros st2 H2. cbn. rewrite Ed. unfold lift, name_key_init_unique.
    rewrite set_components_ok by (rewrite length_map, length_seq, length_app; cbn; lia). apply gives_ret.
    by transitivity st; [|transitivity st1].
  - rewrite print_rest_cons in *. apply parses_char. intros st2 H2. cbn - [length app print_rest print_nstring]. rewrite Ed.
    replace (S (S (length list))) with (S (length (list ++ [c]))) by (rewrite length_app; cbn; lia).
    replace (list ++ c :: c' :: cs) with ((list ++ [c]) ++ c' :: cs) by (by rewrite <- app_assoc).
    apply IH; [exact Hcs'|by transitivity st; [|transitivity st1]|]. cbn [length] in Hf1. lia.
Qed.

(** What follows some white space. *)
Definition white (ws : list Z) : Prop := Forall (fun c => c = ch_space \/ c = ch_newline) ws.

Lemma skip_back ws : white ws -> forall fuel st l st0 c, undisturbed st0 st -> (length (ws ++ c :: l) < fuel)%nat ->
  isspace c = false -> c <> 0 -> c <> ch_hash ->
  parses st (ws ++ c :: l) (rename_file_skip_white_space fuel false) (fun o st' l' => o = Some c /\ l' = l /\ undisturbed st0 st').
Proof.
  intros Hw. induction Hw as [|w ws Hw _ IH]; intros fuel st l st0 c H0 Hf Hc Hz Hh; (destruct fuel as [|fuel]; [cbn in Hf; lia|]);
    cbn [app] in *; apply parses_char; intros st1 H1.
  - assert (c <> ch_newline) as Hn by (intros ->; discriminate).
    rewrite (proj2 (Z.eqb_neq c 0) Hz), (proj2 (Z.eqb_neq c ch_newline) Hn), (proj2 (Z.eqb_neq c ch_hash) Hh), Hc.
    apply parses_ret. split_and!; auto. by transitivity st.
  - cbn [length] in Hf. destruct Hw as [-> | ->]; cbn.
    + apply IH; auto; [by transitivity st|lia].
    + apply parses_line. intros s. apply IH; auto; [|lia]. by transitivity st; [|transitivity st1].
Qed.

Lemma skip_end ws : white ws -> forall fuel st st0, undisturbed st0 st -> (length ws < fuel)%nat ->
  parses st ws (rename_file_skip_white_space fuel false) (fun o st' l' => o = None /\ l' = [] /\ undisturbed st0 st').
Proof.
  intros Hw. induction Hw as [|w ws Hw _ IH]; intros fuel st st0 H0 Hf; (destruct fuel as [|fuel]; [cbn in Hf; lia|]).
  - apply parses_getc; [|done]. intros _ _ s. by apply parses_ret.
  - apply parses_char. intros st1 H1. cbn [length] in Hf. destruct Hw as [-> | ->]; cbn.
    + apply IH; [by transitivity st|lia].
    + apply parses_line. intros s. apply IH; [|lia]. by transitivity st; [|transitivity st1].
Qed.

Definition starts (l : list Z) (t : RenameTokenT) (l' : list Z) : Prop := (length l' <= length l)%nat /\
  forall fuel st, (length l < fuel)%nat -> parses st l (rename_file_next_token junk junk_nstring fuel) (gives t l' st).

Lemma gives_from st st0 l (m : runM RenameT rename_exn RenameTokenT) t l' : undisturbed st0 st -> parses st l m (gives t l' st) -> parses st l m (gives t l' st0).
Proof. intros H. apply parses_impl. intros t' st' l2 (-> & -> & H1). split_and!; auto. by transitivity st. Qed.

(** The next token after white space and its first character [c]. *)
Ltac next_token c :=
  split; [rewrite ?length_app; cbn [length]; rewrite ?length_app; cbn [length]; lia|];
  intros fuel st Hf; destruct fuel as [|fuel]; [lia|]; cbn [rename_file_next_token];
  eapply (parses_bind); [by apply (skip_back _ ltac:(eassumption) (S fuel) st _ st c)|];
  intros ? st1 l1 (-> & -> & H1); rewrite length_app in Hf; cbn [length] in Hf;
  cbn - [rename_file_read_shape rename_file_read_string rename_file_read_unique]; apply (gives_from st1); [exact H1|].

Lemma starts_shape ws s l : white ws -> wf_nstring s -> starts (ws ++ ch_quote :: print_nstring s ++ ch_quote :: l) (RTOK_SHAPE s) l.
Proof. intros Hw Hs. next_token ch_quote. apply (read_shape_back s (S fuel)); [exact Hs|lia]. Qed.

Lemma starts_semi ws l : white ws -> starts (ws ++ ch_semi :: l) RTOK_SEMI l.
Proof. intros Hw. next_token ch_semi. by apply gives_ret. Qed.

Lemma starts_name ws k l : white ws -> printable k -> starts (ws ++ print_name k ++ l) (RTOK_NAME k) l.
Proof.
  intros Hw [Hk Hne]. destruct k as [s|[|c cs]]; [| by destruct Hne|]; cbn [print_name ok_key] in *.
  - cbn [app]. rewrite <- app_assoc. cbn [app]. next_token ch_dquote. apply (read_string_back s (S fuel)); [apply Hk|lia].
  - cbn [app]. rewrite <- app_assoc. change (concat _ ++ [ch_close]) with (print_rest cs). next_token ch_open.
    apply (read_unique_back cs c [] (S fuel)); [|done|lia]. destruct Hk as [Hk _]. eapply Forall_impl; [|exact Hk]. by intros x [Hx _].
Qed.

Lemma starts_eof ws : white ws -> starts ws RTOK_EOF [].
Proof.
  intros Hw. split; [cbn; lia|]. intros fuel st Hf. destruct fuel as [|fuel]; [lia|]. cbn [rename_file_next_token].
  eapply parses_bind; [by apply (skip_end ws Hw (S fuel) st st)|]. intros ? st1 l1 (-> & -> & H1). by apply gives_ret.
Qed.
(** ** Lines and groups *)

Definition lines (rs : list (NameKeyT * NameKeyT)) : list Z := concat (print_rename <$> rs).

Section Lines.
Variable shape : NStringT.
Variables (rest : list Z) (t : RenameTokenT) (l' : list Z).
Hypothesis Hrest : starts (ch_newline :: rest) t l'.
Hypothesis Hname : match t with RTOK_NAME _ => False | _ => True end.

(** The token at the start of the lines [rs], when [rest] follows, and the
    text after it. *)
Definition first_line (rs : list (NameKeyT * NameKeyT)) : RenameTokenT * list Z :=
  match rs with
  | [] => (t, l')
  | r :: rs => (RTOK_NAME r.1, ch_space :: print_name r.2 ++ ch_semi :: ch_newline :: lines rs ++ rest)
  end.

Lemma first_line_ok rs : Forall (fun r => printable r.1 /\ printable r.2) rs ->
  starts (ch_newline :: lines rs ++ rest) (first_line rs).1 (first_line rs).2.
Proof.
  intros Hrs. destruct Hrs as [|r rs [H1 H2] _]; cbn [first_line fst snd]; [exact Hrest|].
  unfold lines. cbn [fmap list_fmap concat]. unfold print_rename at 1. rewrite <- !app_assoc.
  apply (starts_name [ch_newline]); [|exact H1]. constructor; [by right|constructor].
Qed.

Lemma parses_starts {A} fuel st l t1 l1 (k : RenameTokenT -> runM RenameT rename_exn A) Q :
  starts l t1 l1 -> (length l < fuel)%nat -> (forall st', undisturbed st st' -> parses st' l1 (k t1) Q) ->
  parses st l (rename_file_next_token junk junk_nstring fuel ≫= k) Q.
Proof.
  intros [_ H] Hf Hk. eapply parses_bind; [by apply H|]. intros t2 st2 l2 (-> & -> & Hq). by apply Hk.
Qed.

Lemma parses_added {A} st l from to a1 e1 (k : unit -> runM RenameT rename_exn A) Q :
  arg_data_add_rename junk (rn_args st) shape from to = Some (a1, e1) ->
  (let '(errors, ends) := report_if e1 (rn_errors st) in
   if ends then F a1 errors else parses (Rename (rn_stream st) a1 errors) l (k tt) Q) ->
  parses st l (lift (add_rename junk shape from to) ≫= k) Q.
Proof.
  intros E H Hs. unfold add_rename, lift, mbind, runM_bind. rewrite E. destruct (report_if e1 (rn_errors st)) as [errors []]; [exact H|exact (H Hs)].
Qed.

(** The renames of the lines are added, and then the token after them is the
    next one. *)
Lemma lines_back rs : Forall (fun r => printable r.1 /\ printable r.2) rs -> forall fuel st args errors ends,
  (length (first_line rs).2 < fuel)%nat -> add_renames shape rs (rn_args st) (rn_errors st) = Some (args, errors, ends) ->
  (ends = true -> F args errors) ->
  parses st (first_line rs).2 (parse_names_loop junk junk_nstring fuel shape (first_line rs).1)
    (fun t1 st1 l1 => t1 = t /\ l1 = l' /\ rn_args st1 = args /\ rn_errors st1 = errors /\ ends = false).
Proof.
  intros Hrs. induction Hrs as [|[from to] rs [Hk1 Hk2] Hrs IH]; intros fuel st args errors ends Hf E HF;
    (destruct fuel as [|fuel]; [lia|]); cbn [first_line fst snd] in *.
  - injection E as <- <- <-. cbn [parse_names_loop]. destruct t; try contradiction; by apply parses_ret.
  - cbn [add_renames fst snd] in E. cbn [parse_names_loop].
    destruct (arg_data_add_rename junk (rn_args st) shape from to) as [[a1 e1]|] eqn:Ea; [|discriminate]. cbn [mbind option_bind] in E.
    assert (white [ch_space]) as Hw by (constructor; [by left|constructor]).
    assert (white []) as Hw0 by constructor.
    eapply parses_starts; [by apply (starts_name [ch_space] to)|exact Hf|]. intros st1 [Hq1 Hq2]. cbn beta iota.
    rewrite !name_key_assign_id. apply (parses_added st1 _ from to a1 e1); [by rewrite Hq1|]. rewrite Hq2.
    destruct (report_if e1 (rn_errors st)) as [errors1 ends1]. destruct ends1; [injection E as <- <- <-; by apply HF|].
    cbn [length] in Hf. rewrite length_app in Hf. cbn [length] in Hf.
    pose proof (first_line_ok rs Hrs) as Hnext. cbn [length] in *.
    apply (parses_starts (S fuel) (Rename (rn_stream st1) a1 errors1) _ _ _ _ _ (starts_semi [] _ Hw0)); [cbn; lia|].
    intros st2 H2. cbn beta iota. destruct Hnext as [Hlen Hnext].
    eapply parses_starts; [by split|cbn; lia|]. intros st3 H3. apply IH; [cbn in Hlen; lia| |exact HF].
    assert (undisturbed (Rename (rn_stream st1) a1 errors1) st3) as [-> ->] by (by transitivity st2). exact E.
Qed.
End Lines.

(** The token at the start of the groups [gs], and the text after it. *)
Definition first_group (gs : list (NStringT * list (NameKeyT * NameKeyT))) : RenameTokenT * list Z :=
  match gs with
  | [] => (RTOK_EOF, [])
  | g :: gs => (RTOK_SHAPE g.1, ch_newline :: lines g.2 ++ print_renames gs)
  end.

Lemma print_renames_cons g gs :
  print_renames (g :: gs) = ch_quote :: print_nstring g.1 ++ ch_quote :: (first_group (g :: gs)).2.
Proof. unfold print_renames, print_group, lines. cbn. by rewrite <- !app_assoc. Qed.

Lemma first_group_ok ws gs : white ws -> Forall group_ok gs -> starts (ws ++ print_renames gs) (first_group gs).1 (first_group gs).2.
Proof.
  intros Hw Hgs. destruct Hgs as [|g gs [[Hg _] _] _].
  - unfold print_renames. cbn [fmap list_fmap concat]. rewrite app_nil_r. by apply starts_eof.
  - rewrite print_renames_cons. by apply starts_shape.
Qed.

Lemma groups_back gs : Forall group_ok gs -> forall fuel st need args errors ends,
  (gs = [] /\ 0 < fuel \/ S (length (first_group gs).2) < fuel)%nat ->
  add_groups gs (rn_args st) (rn_errors st) = Some (args, errors, ends) -> (ends = true -> F args errors) ->
  parses st (first_group gs).2 (parse_1_loop junk junk_nstring fuel need (first_group gs).1)
    (fun _ st1 _ => rn_args st1 = args /\ rn_errors st1 = errors /\ ends = false).
Proof.
  intros Hgs. induction Hgs as [|[shape rs] gs [Hg Hrs] Hgs IH]; intros fuel st need args errors ends Hf E HF; (destruct fuel as [|fuel]; [lia|]);
    cbn [parse_1_loop first_group add_groups fst snd] in *.
  - injection E as <- <- <-. by apply parses_ret.
  - destruct Hf as [[? _]|Hf]; [done|]. destruct (add_renames shape rs _ _) as [[[a1 e1] ends1]|] eqn:E1; [|discriminate]. cbn [mbind option_bind] in E.
    assert (white [ch_newline]) as Hw by (constructor; [by right|constructor]).
    pose proof (first_group_ok [ch_newline] gs Hw Hgs) as Hrest.
    assert (match (first_group gs).1 with RTOK_NAME _ => False | _ => True end) as Hn by (by destruct gs).
    pose proof (first_line_ok _ _ _ Hrest rs Hrs) as Hl.
    eapply parses_bind; [unfold rename_file_parse_names; eapply parses_starts; [exact Hl|lia|]|].
    + intros st1 [Hq1 Hq2]. replace (nstring_assign shape) with shape by (by destruct shape).
      apply lines_back with (args := a1) (errors := e1) (ends := ends1); [exact Hrest|exact Hn|exact Hrs| |by rewrite Hq1, Hq2|].
      2: { intros ->. injection E as <- <- <-. by apply HF. }
      destruct Hl as [Hl _]. cbn [length] in *. lia.
    + intros t1 st1 l1 (-> & -> & Ha & He & ->). apply IH; [|by rewrite Ha, He|exact HF]. cbn [length] in Hf. rewrite length_app in Hf.
      destruct gs as [|g gs]; [left; split; [done|lia]|right]. rewrite print_renames_cons in Hf. cbn [length] in Hf.
      rewrite length_app in Hf. cbn [length] in Hf. lia.
Qed.

Lemma add_lines_ok shape rs : ok_nstring shape -> Forall (fun r => printable r.1 /\ printable r.2) rs -> forall args errors,
  args_ok args -> exists args' errors' ends, add_renames shape rs args errors = Some (args', errors', ends) /\ args_ok args'.
Proof.
  intros Hs Hrs. induction Hrs as [|r rs [[H1 _] [H2 _]] _ IH]; intros args errors Ha; cbn [add_renames]; [by eauto|].
  destruct (add_rename_args_ok junk args shape r.1 r.2 Ha Hs H1 H2) as (a1 & e1 & -> & Ha1). cbn [mbind option_bind]. destruct (report_if e1 errors) as [errors1 []]; [by eauto|by apply IH].
Qed.

Lemma add_all_groups_ok gs : Forall group_ok gs -> forall args errors,
  args_ok args -> exists args' errors' ends, add_groups gs args errors = Some (args', errors', ends) /\ args_ok args'.
Proof.
  intros Hgs. induction Hgs as [|g gs [Hg Hrs] _ IH]; intros args errors Ha; cbn [add_groups]; [by eauto|].
  destruct (add_lines_ok g.1 g.2 Hg Hrs args errors Ha) as (a1 & e1 & ends1 & -> & Ha1). cbn [mbind option_bind]. destruct ends1; [by eauto|by apply IH].
Qed.
End Back.

Lemma text_some (l : list Z) : text (Some <$> l) = l.
Proof. induction l as [|c l IH]; cbn; by f_equal. Qed.

Lemma fails_some (l : list Z) : fails (Some <$> l) = false.
Proof.
  unfold fails. rewrite text_some, bool_decide_eq_false_2; [reflexivity|]. rewrite list_lookup_fmap, lookup_ge_None_2; [done|lia].
Qed.

(** Adding the renames counts the errors and leaves the severities alone. *)
Lemma add_groups_later junk gs args errors args' errors' ends :
  add_groups junk gs args errors = Some (args', errors', ends) -> later_reports errors errors'.
Proof.
  assert (forall shape rs args errors args' errors' ends, add_renames junk shape rs args errors = Some (args', errors', ends) -> later_reports errors errors') as Hr.
  { intros shape rs. induction rs as [|r rs IH]; intros a e a' e' ends0; cbn [add_renames]; [by intros [= _ <- _]|].
    destruct (arg_data_add_rename _ _ _ _ _) as [[a1 err]|]; [|discriminate]. cbn [mbind option_bind]. pose proof (report_if_later err e) as H1.
    destruct (report_if err e) as [e1 []]; [by intros [= _ <- _]|]. intros E. transitivity e1; [exact H1|by eapply IH]. }
  revert args errors. induction gs as [|g gs IH]; intros args errors; cbn [add_groups]; [by intros [= _ <- _]|].
  destruct (add_renames _ _ _ _ _) as [[[a1 e1] ends1]|] eqn:E1; [|discriminate]. cbn [mbind option_bind]. apply Hr in E1.
  destruct ends1; [by intros [= _ <- _]|]. intros E. transitivity e1; [exact E1|by eapply IH].
Qed.

(** C18: a file of renames that is written in the syntax of the parser, with
    the special characters of names and shapes escaped, is read back: the
    parser adds the renames to the arguments one after the other, in the order
    of the file, and reports no error of its own; it goes on to the end of the
    file unless the renames themselves are one error too many (a name renamed
    twice is an error), where the program exits. *)
Theorem rename_file_roundtrip junk junk_nstring gs name args errors fuel :
  args_ok args -> quiet errors -> Forall group_ok gs -> (S (length (print_renames gs)) < fuel)%nat ->
  exists args' errors' ends, add_groups junk gs args errors = Some (args', errors', ends) /\
    rename_file_parse junk junk_nstring fuel (Some (Some <$> print_renames gs)) name args errors =
      Some (args', errors', if (ends : bool) then Throw Fatal else Ok tt).
Proof.
  intros Ha Hq Hgs Hf. destruct (add_all_groups_ok junk gs Hgs args errors Ha) as (a1 & e1 & ends & E & _). exists a1, e1, ends. split; [exact E|].
  pose proof (open_ok (Some <$> print_renames gs) name) as H. rewrite text_some, fails_some in H.
  unfold rename_file_parse. destruct (_ && _); [by destruct H as (s & _ & H)|]. destruct H as (s & -> & Hs & _).
  set (F := fun a e => ends = true /\ a = a1 /\ e = e1).
  assert (white []) as Hw by constructor. pose proof (first_group_ok junk junk_nstring F [] gs Hw Hgs) as Hst. cbn [app] in Hst.
  assert (parses false F (Rename s args errors) (print_renames gs) (rename_file_parse_1 junk junk_nstring fuel)
    (fun _ st1 _ => rn_args st1 = a1 /\ rn_errors st1 = e1 /\ ends = false)) as Hp.
  { unfold rename_file_parse_1. eapply parses_starts; [exact Hst|lia|]. intros st1 [Hq1 Hq2]. apply groups_back; [exact Hgs| | |].
    - destruct Hst as [Hlen _]. right. lia.
    - by rewrite Hq1, Hq2.
    - by intros ->. }
  specialize (Hp Hs). destruct (rename_file_parse_1 junk junk_nstring fuel (Rename s args errors)) as [[st [[]|e]]|]; [| |contradiction]; cbn [mbind option_bind].
  - destruct Hp as (l' & _ & -> & -> & ->). pose proof (quiet_later _ _ (add_groups_later _ _ _ _ _ _ _ E) Hq) as Hqe. unfold quiet in Hqe. by rewrite Hqe.
  - destruct e as [[n|]| |]; try contradiction; [discriminate|]. by destruct Hp as (-> & -> & ->).
Qed.

(** [a.] renamed to [[x.y]] and a name with a newline renamed to [b], for the
    shape [tag]. *)
Definition ex_groups : list (NStringT * list (NameKeyT * NameKeyT)) :=
  [(NString 3 [116; 97; 103],
    [(KT_STRING (NString 2 [97; 46]), KT_UNIQUE [NString 1 [120]; NString 1 [121]]);
     (KT_STRING (NString 2 [99; 10]), KT_STRING (NString 1 [98]))])].

Lemma ex_groups_ok : Forall group_ok ex_groups.
Proof.
  repeat constructor; try discriminate; vm_compute; try reflexivity; try discriminate.
Qed.

Lemma rename_file_roundtrip_witness :
  print_renames ex_groups =
    [39; 116; 97; 103; 39; 10; 34; 97; 92; 46; 34; 32; 91; 120; 46; 121; 93; 59; 10; 34; 99; 92; 110; 34; 32; 34; 98; 34; 59; 10] /\
  exists args' errors' ends, add_groups (fun _ => 0) ex_groups no_args initial_reports = Some (args', errors', ends) /\
    rename_file_parse (fun _ => 0) (fun _ => nstring_init) 40 (Some (Some <$> print_renames ex_groups)) [114] no_args initial_reports =
      Some (args', errors', if (ends : bool) then Throw Fatal else Ok tt).
Proof.
  split; [vm_compute; reflexivity|].
  apply (rename_file_roundtrip (fun _ => 0) (fun _ => nstring_init) ex_groups [114] no_args initial_reports 40 no_args_ok eq_refl ex_groups_ok).
  vm_compute. lia.
Defined.
