(* ===== verification/TldUnitFile.v ===== *)
(** * TldUnitFile: files of unit set names

    Models the part of tld/src/adt/capsule.c that reads the unit set names
    from a file the user gives ([-u]), in place of the default ones: names
    between double quotes, with escape sequences. Every error in such a file
    is fatal. The loops take fuel; [unit_set_file_checked] proves that the
    length of the file is enough. *)
From stdpp Require Import base list list_numbers numbers.
From Stdlib Require Import ZArith Lia String.
From S2P Require Import Prelude Codec ExdsString TldNameKey TldIO TldIOSpec ExdsStream TldCapsule TldUnitSets TldArgs TldRenameFile TldRenameFileSpec TldArgsSpec.

Section UnitFile.
Variable junk : nat -> Z.

Abbreviation run A := (runM IStreamT rename_exn A).

Definition of_istream {A} (m : istream A) : run A := fun s =>
  let '(s, x) := m s in Some (s, match x with Ok a => Ok a | Throw e => Throw (XX_istream e) end).

Definition unit_fatal {A} : run A := lift (st_throw Fatal).

Fixpoint unit_skip_space (fuel : nat) : run (option Z) :=
  match fuel with
  | O => out_of_fuel
  | S fuel =>
      o ← of_istream istream_read_char;
      match o with
      | None => mret None
      | Some c => if isspace c then unit_skip_space fuel else mret (Some c)
      end
  end.

Fixpoint unit_name_loop (fuel : nat) (dstring : DStringT) : run DStringT :=
  match fuel with
  | O => out_of_fuel
  | S fuel =>
      o ← of_istream istream_read_char;
      match o with
      | None => unit_fatal
      | Some c =>
          if c =? ch_dquote then mret dstring
          else if c =? ch_backslash then
            '(status, c) ← of_istream istream_read_escaped_char;
            match status with
            | ISTREAM_STAT_READ_CHAR => unit_name_loop fuel (dstring_append_char junk dstring c)
            | ISTREAM_STAT_NO_CHAR => unit_name_loop fuel dstring
            | ISTREAM_STAT_SYNTAX_ERROR => unit_fatal
            end
          else unit_name_loop fuel (dstring_append_char junk dstring c)
      end
  end.

(** [None] at the end of the file. *)
Definition capsule_read_unit_set_name (fuel : nat) : run (option DStringT) :=
  o ← unit_skip_space fuel;
  match o with
  | None => mret None
  | Some c =>
      if negb (c =? ch_dquote) then unit_fatal
      else dstring ← unit_name_loop fuel (dstring_init junk); mret (Some dstring)
  end.

(** The loop over the unit sets from number [i] on; [seen]: the names before. *)
Fixpoint check_unit_sets_loop (i : nat) (seen names : list NStringT) (tld tld2 : option nat) : option (option nat * option nat) :=
  match names with
  | [] => Some (tld, tld2)
  | name :: names =>
      if existsb (nstring_equal name) seen then None
      else if nstring_equal name name_tld then check_unit_sets_loop (S i) (seen ++ [name]) names (Some i) tld2
      else if nstring_equal name name_tld2 then check_unit_sets_loop (S i) (seen ++ [name]) names tld (Some i)
      else check_unit_sets_loop (S i) (seen ++ [name]) names tld tld2
  end.

(** The indices of [tld] and [tld2]; [None] is a fatal error. *)
Definition capsule_check_unit_sets (names : list NStringT) : option (nat * option nat) :=
  '(tld, tld2) ← check_unit_sets_loop 0 [] names None None;
  tld ← tld;
  Some (tld, tld2).

Fixpoint unit_names_loop (fuel : nat) (list : list NStringT) : run (Datatypes.list NStringT) :=
  match fuel with
  | O => out_of_fuel
  | S fuel' =>
      o ← capsule_read_unit_set_name fuel;
      match o with
      | None => mret list
      | Some dstring => unit_names_loop fuel' (list ++ [dstring_to_nstring junk dstring])
      end
  end.

Definition capsule_read_unit_set_file_1 (fuel : nat) (g : StaticsT) : run StaticsT :=
  names ← unit_names_loop fuel [];
  let unit_sets := map (fun name => UnitSet (nstring_assign name) None) names in
  match capsule_check_unit_sets (map us_name unit_sets) with
  | None => unit_fatal
  | Some (tld, tld2) =>
      mret (Statics (Some unit_sets) tld tld2 (capsule_major_version g) (capsule_minor_version g) (need_setup g))
  end.

(** [data]: what can be read of the file, when it can be opened. *)
Definition capsule_read_unit_set_file (fuel : nat) (data : option (list (option Z))) (name : list Z) (g : StaticsT)
  : option (result rename_exn StaticsT) :=
  match capsule_unit_sets g, data with
  | Some _, _ => Some (Throw RStop)
  | None, None => Some (Throw Fatal)
  | None, Some data =>
      match istream_open data name with
      | (s, Throw e) => Some (Throw (XX_istream e))
      | (s, Ok _) =>
          '(s, x) ← capsule_read_unit_set_file_1 fuel g s;
          Some x
      end
  end.

(** ** The unit sets are checked *)

Lemma seen_iff name seen :
  wf_nstring name -> Forall wf_nstring seen -> existsb (nstring_equal name) seen = true <-> name ∈ seen.
Proof.
  intros Hn Hs. rewrite existsb_exists. rewrite Forall_forall in Hs. split.
  - intros (x & Hin & E). apply nstring_equal_iff in E; auto. subst. by apply list_elem_of_In.
  - intros Hin%list_elem_of_In. exists name. split; [exact Hin|]. by apply nstring_equal_iff.
Qed.

Lemma tld_names_wf : wf_nstring name_tld /\ wf_nstring name_tld2.
Proof. split; apply (bool_decide_eq_true_1 _); vm_compute; reflexivity. Qed.

Lemma check_loop_ok names : forall seen tld tld2 r1 r2,
  Forall wf_nstring (seen ++ names) -> NoDup seen ->
  (forall i, tld = Some i <-> seen !! i = Some name_tld) -> (forall i, tld2 = Some i <-> seen !! i = Some name_tld2) ->
  check_unit_sets_loop (List.length seen) seen names tld tld2 = Some (r1, r2) ->
  NoDup (seen ++ names) /\ (forall i, r1 = Some i <-> (seen ++ names) !! i = Some name_tld) /\
  (forall i, r2 = Some i <-> (seen ++ names) !! i = Some name_tld2).
Proof.
  destruct tld_names_wf as [W1 W2].
  induction names as [|name names IH]; intros seen tld tld2 r1 r2 Hwf Hnd H1 H2; cbn [check_unit_sets_loop].
  { intros [= <- <-]. rewrite app_nil_r. auto. }
  pose proof Hwf as Hwf'. apply Forall_app in Hwf' as [Hs Hn]. inversion Hn as [|? ? Hname Hn']; subst.
  destruct (existsb (nstring_equal name) seen) eqn:Es; [discriminate|].
  assert (name ∉ seen) as Hni by (rewrite <- seen_iff by auto; congruence).
  assert (forall k o, wf_nstring k -> (forall i, o = Some i <-> seen !! i = Some k) ->
    forall i, (if nstring_equal name k then Some (List.length seen) else o) = Some i <-> (seen ++ [name]) !! i = Some k) as Hstep.
  { intros k o Hk Ho i. destruct (nstring_equal name k) eqn:Ek.
    - apply nstring_equal_iff in Ek; auto. subst k. split; [intros [= <-]; by apply list_lookup_middle|].
      intros [Hi|[Hle Hi]]%lookup_app_Some; [by apply list_elem_of_lookup_2 in Hi|].
      f_equal. destruct (i - List.length seen)%nat as [|n] eqn:En; [lia|by destruct n].
    - rewrite Ho. split; [by apply lookup_app_l_Some|]. intros [Hi|[_ Hi]]%lookup_app_Some; [exact Hi|].
      destruct (i - List.length seen)%nat as [|n]; [|by destruct n]. injection Hi as ->.
      assert (nstring_equal k k = true) by (by apply nstring_equal_iff). congruence. }
  assert (forall a b, (forall i, a = Some i <-> (seen ++ [name]) !! i = Some name_tld) -> (forall i, b = Some i <-> (seen ++ [name]) !! i = Some name_tld2) ->
    check_unit_sets_loop (S (List.length seen)) (seen ++ [name]) names a b = Some (r1, r2) ->
    NoDup (seen ++ name :: names) /\ (forall i, r1 = Some i <-> (seen ++ name :: names) !! i = Some name_tld) /\
    (forall i, r2 = Some i <-> (seen ++ name :: names) !! i = Some name_tld2)) as Hgo.
  { intros a b' Ha Hb E. replace (S (List.length seen)) with (List.length (seen ++ [name])) in E by (rewrite length_app; cbn; lia).
    rewrite (cons_middle name seen names). rewrite (app_assoc seen [name] names). eapply IH; [| |exact Ha|exact Hb|exact E].
    - rewrite <- app_assoc. exact Hwf.
    - apply list.NoDup_app. split; [exact Hnd|]. split; [intros x Hx ->%list_elem_of_singleton; contradiction|apply NoDup_singleton]. }
  pose proof (Hstep name_tld tld W1 H1) as S1. pose proof (Hstep name_tld2 tld2 W2 H2) as S2.
  destruct (nstring_equal name name_tld) eqn:E1.
  - assert (nstring_equal name name_tld2 = false) as E2.
    { apply nstring_equal_iff in E1; auto. by subst name. }
    rewrite E2 in S2. by apply Hgo.
  - destruct (nstring_equal name name_tld2); by apply Hgo.
Qed.

Lemma check_unit_sets_ok names tld tld2 :
  Forall ok_nstring names -> Z.of_nat (List.length names) + 1 < 2 ^ 32 ->
  capsule_check_unit_sets names = Some (tld, tld2) -> unit_sets_checked names tld tld2.
Proof.
  intros Hn Hc. unfold capsule_check_unit_sets.
  destruct (check_unit_sets_loop 0 [] names None None) as [[[r1|] r2]|] eqn:E; [|discriminate..]. cbn. intros [= -> ->].
  destruct (check_loop_ok names [] None None (Some tld) tld2) as (H1 & H2 & H3); auto.
  - eapply Forall_impl; [|exact Hn]. by intros s [H _].
  - constructor.
  - intros i. split; [discriminate|]. by rewrite lookup_nil.
  - intros i. split; [discriminate|]. by rewrite lookup_nil.
  - constructor; auto. by apply H2.
Qed.

(** ** Reading ends *)

(** Whether the device fails at the end of the text. *)
Variable b : bool.

(** [m] has enough fuel for the text [l]: it leaves a text and a result that
    satisfy [Q], or ends the program after an error. *)
Definition consumes {A} (s : IStreamT) (l : list Z) (m : run A) (Q : A -> list Z -> Prop) : Prop :=
  stream_at s l b ->
  match m s with
  | Some (s', Ok a) => exists l', stream_at s' l' b /\ Q a l'
  | Some (_, Throw Fatal) => True
  | Some (_, Throw (XX_istream (XX_istream_read_error _))) => b = true
  | _ => False
  end.

Lemma consumes_bind {A B} s l (m : run A) (k : A -> run B) Q R :
  consumes s l m Q -> (forall a s' l', Q a l' -> consumes s' l' (k a) R) -> consumes s l (m ≫= k) R.
Proof.
  intros Hm Hk Hs. specialize (Hm Hs). unfold mbind, runM_bind. destruct (m s) as [[s' [a|e]]|]; [|exact Hm|exact Hm].
  destruct Hm as (l' & Hs' & HQ). by apply (Hk a s' l').
Qed.

Lemma consumes_impl {A} s l (m : run A) (Q R : A -> list Z -> Prop) :
  (forall a l', Q a l' -> R a l') -> consumes s l m Q -> consumes s l m R.
Proof.
  intros H Hm Hs. specialize (Hm Hs). destruct (m s) as [[s' [a|e]]|]; [|exact Hm|exact Hm].
  destruct Hm as (l' & Hs' & Hq). eauto.
Qed.

Lemma consumes_ret {A} s l (a : A) (Q : A -> list Z -> Prop) : Q a l -> consumes s l (mret a) Q.
Proof. intros HQ Hs. by exists l. Qed.

Lemma consumes_fatal {A} s l (Q : A -> list Z -> Prop) : consumes s l unit_fatal Q.
Proof. intros _. exact I. Qed.

Lemma consumes_scans {A} s l (m : istream A) (Q : A -> list Z -> Prop) : scans b s l m Q -> consumes s l (of_istream m) Q.
Proof.
  intros H Hs. specialize (H Hs). unfold of_istream. destruct (m s) as [s' [a|e]]; [exact H|]. by destruct e.
Qed.

(** The next character, with the text after it. *)
Definition next_char (l : list Z) (o : option Z) (l' : list Z) : Prop :=
  match l with c :: l1 => o = Some c /\ l' = l1 | [] => o = None /\ l' = [] end.

Lemma read_char_consumes s l : consumes s l (of_istream istream_read_char) (next_char l).
Proof.
  apply consumes_scans. unfold istream_read_char. eapply scans_bind; [apply scans_getc|]. intros o s' l' H.
  destruct l as [|c l]; destruct H as [-> ->]; [by apply scans_ret|].
  destruct (c =? ch_newline); [apply scans_line; intros s2|]; by apply scans_ret.
Qed.

Lemma skip_space_ok fuel : forall s l, (List.length l < fuel)%nat -> Forall is_byte l ->
  consumes s l (unit_skip_space fuel) (fun o l' => Forall is_byte l' /\ (List.length l' + taken o <= List.length l)%nat).
Proof.
  induction fuel as [|fuel IH]; intros s l Hf Hl; [lia|]. cbn [unit_skip_space].
  eapply consumes_bind; [apply read_char_consumes|]. intros o s' l' H. destruct l as [|c l]; destruct H as [-> ->].
  - by apply consumes_ret.
  - inversion Hl; subst. cbn in Hf |- *. destruct (isspace c); [|apply consumes_ret; split; [assumption|cbn; lia]].
    intros Hs. specialize (IH s' l ltac:(lia) ltac:(assumption) Hs). destruct (unit_skip_space fuel s') as [[s2 [o|e]]|]; try exact IH.
    destruct IH as (l2 & A1 & A2 & A3). exists l2. split; [exact A1|]. split; [exact A2|lia].
Qed.

Lemma name_loop_ok fuel : forall s l d, (List.length l < fuel)%nat -> text_room (List.length (d_str d)) l -> d_ok d ->
  consumes s l (unit_name_loop fuel d) (fun d' l' => d_ok d' /\ text_room (List.length (d_str d')) l' /\ (List.length l' < List.length l)%nat).
Proof.
  induction fuel as [|fuel IH]; intros s l d Hf [Hb Hl] Hd; [lia|]. cbn [unit_name_loop].
  eapply consumes_bind; [apply read_char_consumes|]. intros o s' l' H. destruct l as [|c l]; destruct H as [-> ->]; [apply consumes_fatal|].
  inversion Hb as [|? ? Hc Hb']; subst. cbn [List.length] in *.
  assert (forall s2 l2 d2, (List.length l2 <= List.length l)%nat -> Forall is_byte l2 -> d_ok d2 ->
    (List.length (d_str d2) + List.length l2 <= List.length (d_str d) + S (List.length l))%nat ->
    consumes s2 l2 (unit_name_loop fuel d2) (fun d' l' => d_ok d' /\ text_room (List.length (d_str d')) l' /\ (List.length l' < S (List.length l))%nat)) as Hgo.
  { intros s2 l2 d2 H1 H2 H3 H4 Hs. specialize (IH s2 l2 d2 ltac:(lia) ltac:(split; [exact H2|lia]) H3 Hs).
    destruct (unit_name_loop fuel d2 s2) as [[s3 [d'|e]]|]; try exact IH. destruct IH as (l3 & A1 & A2 & A3 & A4).
    exists l3. split_and!; auto. lia. }
  destruct (c =? ch_dquote); [apply consumes_ret; split; [exact Hd|]; split; [split; [exact Hb'|lia]|lia]|].
  destruct (c =? ch_backslash).
  - eapply consumes_bind; [apply consumes_scans, scans_escape|]. intros [status c'] s2 l2 E. cbn [fst snd] in E. symmetry in E.
    destruct (unescape_ok _ _ _ _ Hb' E) as (H1 & H2 & H3). destruct status; [| |apply consumes_fatal]; cbn in H3.
    + destruct (d_ok_append junk d c' Hd H1) as [H4 H5]. apply Hgo; [lia|exact H2|exact H4|]. rewrite H5. lia.
    + apply Hgo; [lia|exact H2|exact Hd|lia].
  - destruct (d_ok_append junk d c Hd Hc) as [H4 H5]. apply Hgo; [lia|exact Hb'|exact H4|]. rewrite H5. lia.
Qed.

Lemma names_loop_ok fuel : forall s l list, (List.length l < fuel)%nat -> text_room 0 l -> Forall ok_nstring list ->
  consumes s l (unit_names_loop fuel list) (fun names _ => Forall ok_nstring names /\ (2 * List.length names <= 2 * List.length list + List.length l)%nat).
Proof.
  induction fuel as [|fuel IH]; intros s l list Hf [Hb Hl] Hlist; [lia|]. cbn [unit_names_loop].
  eapply (consumes_bind _ _ _ _ (fun o l' => match o with
    | Some d => d_ok d /\ text_room (List.length (d_str d)) l' /\ (List.length l' + 2 <= List.length l)%nat
    | None => True end)).
  - unfold capsule_read_unit_set_name. eapply consumes_bind; [by apply skip_space_ok|]. intros [c|] s1 l1 [H1 H2]; [|by apply consumes_ret].
    cbn [taken] in H2. destruct (c =? ch_dquote); [|apply consumes_fatal]. cbn [negb]. destruct (d_ok_init junk) as [D1 D2].
    eapply consumes_bind; [apply name_loop_ok; [lia| |exact D1]|].
    { split; [exact H1|]. rewrite D2. cbn. lia. }
    intros d s2 l2 (A1 & A2 & A3). cbn in H2. apply consumes_ret. split_and!; auto. lia.
  - intros [d|] s1 l1 H; [|apply consumes_ret; split; [exact Hlist|lia]]. destruct H as (A1 & [A2 A4] & A3).
    eapply consumes_impl; [|apply IH; [lia|split; [exact A2|lia]|]].
    + cbn beta. intros names l' [N1 N2]. split; [exact N1|]. rewrite length_app in N2. cbn [List.length] in N2. lia.
    + apply Forall_app. split; [exact Hlist|]. apply Forall_singleton, d_ok_nstring; [exact A1|lia].
Qed.
End UnitFile.

Lemma unit_names_id names : map us_name (map (fun name => UnitSet (nstring_assign name) None) names) = names.
Proof. rewrite map_map. induction names as [|[n c] names IH]; [reflexivity|]. cbn. by f_equal. Qed.

Lemma unit_set_file_ok junk data name g fuel :
  capsule_unit_sets g = None -> Forall is_byte (text data) -> Z.of_nat (List.length (text data)) < 2 ^ 32 ->
  (List.length (text data) < fuel)%nat ->
  match capsule_read_unit_set_file junk fuel (Some data) name g with
  | Some (Ok g') => exists sets, capsule_unit_sets g' = Some sets /\
      unit_sets_checked (us_name <$> sets) (capsule_tld_index g') (capsule_tld2_index g') /\
      g' = Statics (Some sets) (capsule_tld_index g') (capsule_tld2_index g') (capsule_major_version g) (capsule_minor_version g) (need_setup g)
  | Some (Throw Fatal) => True
  | Some (Throw (XX_istream (XX_istream_read_error _))) => fails data = true
  | _ => False
  end.
Proof.
  intros Hg Hb Hlen Hf. unfold capsule_read_unit_set_file. rewrite Hg. pose proof (open_ok data name) as Ho.
  destruct (_ && _); [by destruct Ho as (s & -> & H)|]. destruct Ho as (s & -> & Hs & _).
  pose proof (names_loop_ok junk (fails data) fuel s (text data) [] Hf (conj Hb Hlen) (Forall_nil_2 _) Hs) as H.
  unfold capsule_read_unit_set_file_1, mbind, option_bind, runM_bind.
  destruct (unit_names_loop junk fuel [] s) as [[s1 [names|e]]|]; [|destruct e as [[]| |]; exact H|exact H].
  destruct H as (l' & _ & H & Hc).
  assert (map us_name (map (fun name => UnitSet (nstring_assign name) None) names) = names) as ->.
  { apply unit_names_id. }
  destruct (capsule_check_unit_sets names) as [[tld tld2]|] eqn:Ec; [|exact I].
  eexists. split; [reflexivity|]. split; [|reflexivity]. cbn [capsule_tld_index capsule_tld2_index].
  rewrite unit_names_id. apply check_unit_sets_ok; [exact H| |exact Ec]. cbn [List.length] in Hc. lia.
Qed.

(** C21: reading a file of unit set names ends on any file: it ends the
    program after a fatal error, or the device fails, or the unit sets the
    linker then has are checked: their names are distinct, [tld] is among
    them, and the indices the linker keeps are those of [tld] and [tld2]. *)
Theorem unit_set_file_checked junk data name g fuel :
  capsule_unit_sets g = None -> Forall is_byte (text data) -> Z.of_nat (List.length (text data)) < 2 ^ 32 ->
  (List.length (text data) < fuel)%nat ->
  match capsule_read_unit_set_file junk fuel (Some data) name g with
  | Some (Ok g') => exists sets, capsule_unit_sets g' = Some sets /\
      unit_sets_checked (us_name <$> sets) (capsule_tld_index g') (capsule_tld2_index g') /\
      g' = Statics (Some sets) (capsule_tld_index g') (capsule_tld2_index g') (capsule_major_version g) (capsule_minor_version g) (need_setup g)
  | Some (Throw Fatal) => True
  | Some (Throw (XX_istream (XX_istream_read_error _))) => fails data = true
  | _ => False
  end.
Proof. apply unit_set_file_ok. Qed.

(** A file with two names, the second with an escaped quote. *)
Definition ex_unit_file : list Z := [34; 116; 108; 100; 34; 10; 34; 97; 92; 34; 34; 10].

Lemma unit_set_file_checked_witness :
  match capsule_read_unit_set_file (fun _ => 0) 13 (Some (Some <$> ex_unit_file)) [117] initial_statics with
  | Some (Ok g') => capsule_unit_sets g' = Some [UnitSet name_tld None; UnitSet (NString 2 [97; 34]) None]
  | _ => False
  end /\
  match capsule_read_unit_set_file (fun _ => 0) 13 (Some (Some <$> ex_unit_file)) [117] initial_statics with
  | Some (Ok g') => exists sets, capsule_unit_sets g' = Some sets /\
      unit_sets_checked (us_name <$> sets) (capsule_tld_index g') (capsule_tld2_index g') /\
      g' = Statics (Some sets) (capsule_tld_index g') (capsule_tld2_index g') 0 0 true
  | Some (Throw Fatal) => True
  | Some (Throw (XX_istream (XX_istream_read_error _))) => fails (Some <$> ex_unit_file) = true
  | _ => False
  end.
Proof.
  split; [vm_compute; reflexivity|].
  exact (unit_set_file_checked (fun _ => 0) (Some <$> ex_unit_file) [117] initial_statics 13 eq_refl
    (bool_decide_eq_true_1 (Forall is_byte (text (Some <$> ex_unit_file))) eq_refl) eq_refl
    (proj1 (Nat.ltb_lt (List.length (text (Some <$> ex_unit_file))) 13) eq_refl)).
Defined.
