(* ===== verification/TldArgParse.v ===== *)
(** * TldArgParse: options of the command line

    Models tld/src/arg-parse.c: short and long options, which start with a
    minus or a plus, and the procedures that handle them. A string of the
    command line is the list of its characters, without the terminator. The
    arguments that are left are returned in place of the number of those that
    were used. What a procedure does is in a monad that is a parameter; the
    text of the messages and of the summary of the options is not modelled. *)
From stdpp Require Import base list list_numbers numbers.
From Stdlib Require Import ZArith Lia.
From S2P Require Import Prelude.

Definition ch_minus : Z := 45.
Definition ch_plus : Z := 43.

(** The character at a position that is not beyond the terminator. *)
Definition char_at (s : list Z) (i : nat) : Z := default 0 (s !! i).

Section ArgParse.
Context {S E : Type}.

#[local] Abbreviation handler := (stM S E unit).

(** The type of an option, with its procedure; a closure that points to a
    boolean is the procedure that sets it. *)
Inductive ArgTypeT :=
  | AT_SWITCH (closure : bool -> handler)
  | AT_NEG_SWITCH (closure : bool -> handler)
  | AT_PROC_SWITCH (proc : bool -> handler)
  | AT_IMMEDIATE (proc : list Z -> handler)
  | AT_EITHER (proc : list Z -> handler)
  | AT_FOLLOWING (proc : list Z -> handler)
  | AT_EMPTY (proc : handler)
  | AT_FOLLOWING2 (proc : list Z -> list Z -> handler)
  | AT_FOLLOWING3 (proc : list Z -> list Z -> list Z -> handler).

(** [al_short_name] is 0 when there is none. *)
Record ArgListT := ArgList {
  al_name : option (list Z);
  al_short_name : Z;
  al_type : ArgTypeT
}.

(** How the characters of an option compare with the name of an entry: both
    end, the name ends first, or the option does. *)
Inductive name_match := NameEqual | NameEnded (rest : list Z) | OptionEnded | NamesDiffer.

Fixpoint match_name (opt arg : list Z) : name_match :=
  match opt, arg with
  | [], [] => NameEqual
  | [], arg => NameEnded arg
  | _, [] => OptionEnded
  | o :: opt, a :: arg => if o =? a then match_name opt arg else NamesDiffer
  end.

Definition takes_immediate (t : ArgTypeT) : bool :=
  match t with AT_IMMEDIATE _ | AT_EITHER _ => true | _ => false end.

(** The search for a long option: the entry, the number of matches, and the
    argument that is part of the option. *)
Fixpoint long_option (arg_list : list ArgListT) (arg : list Z) (chosen : option ArgListT) (matches : nat)
  : option ArgListT * nat * option (list Z) :=
  match arg_list with
  | [] => (chosen, matches, None)
  | e :: arg_list =>
      match al_name e with
      | None => long_option arg_list arg chosen matches
      | Some opt =>
          match match_name opt arg with
          | NameEqual => (Some e, 1%nat, Some [])
          | NameEnded rest =>
              if takes_immediate (al_type e) then (Some e, 1%nat, Some rest)
              else long_option arg_list arg chosen matches
          | OptionEnded => long_option arg_list arg (Some e) (Datatypes.S matches)
          | NamesDiffer => long_option arg_list arg chosen matches
          end
      end
  end.

Fixpoint short_option (arg_list : list ArgListT) (c : Z) : option ArgListT :=
  match arg_list with
  | [] => None
  | e :: arg_list => if al_short_name e =? c then Some e else short_option arg_list c
  end.

(** The exception a fatal error ends the program with. *)
Variable fatal : E.

#[local] Abbreviation step := (stM S E (list (list Z))).

Definition fail_option : step := st_throw fatal.

(** The options with arguments that follow; [rest] is what comes after the
    option. *)
Definition following1 (proc : list Z -> handler) (rest : list (list Z)) : step :=
  match rest with
  | a :: rest => _ ← proc a; mret rest
  | _ => fail_option
  end.

Definition following2 (proc : list Z -> list Z -> handler) (rest : list (list Z)) : step :=
  match rest with
  | a :: b :: rest => _ ← proc a b; mret rest
  | _ => fail_option
  end.

Definition following3 (proc : list Z -> list Z -> list Z -> handler) (rest : list (list Z)) : step :=
  match rest with
  | a :: b :: c :: rest => _ ← proc a b c; mret rest
  | _ => fail_option
  end.

(** [minus]: whether the option starts with a minus. *)
Definition long_action (minus : bool) (t : ArgTypeT) (immediate : option (list Z)) (rest : list (list Z)) : step :=
  match t with
  | AT_SWITCH closure => _ ← closure minus; mret rest
  | AT_NEG_SWITCH closure => _ ← closure (negb minus); mret rest
  | AT_PROC_SWITCH proc => _ ← proc minus; mret rest
  | AT_IMMEDIATE proc =>
      match immediate with
      | Some immediate => _ ← proc immediate; mret rest
      | None => fail_option
      end
  | AT_EITHER proc =>
      match immediate with
      | Some [] => following1 proc rest
      | Some immediate => _ ← proc immediate; mret rest
      | None => fail_option
      end
  | AT_FOLLOWING proc => following1 proc rest
  | AT_EMPTY proc => _ ← proc; mret rest
  | AT_FOLLOWING2 proc => following2 proc rest
  | AT_FOLLOWING3 proc => following3 proc rest
  end.

(** [arg]: the option after its two first characters. *)
Definition long_step (arg_list : list ArgListT) (minus : bool) (arg : list Z) (rest : list (list Z)) : step :=
  match long_option arg_list arg None 0 with
  | (Some chosen, 1%nat, immediate) => long_action minus (al_type chosen) immediate rest
  | _ => fail_option
  end.

(** The loop over the characters of an option. *)
Fixpoint short_loop (arg_list : list ArgListT) (minus : bool) (opt : list Z) (rest : list (list Z)) : step :=
  match opt with
  | [] => mret rest
  | c :: opt =>
      match short_option arg_list c with
      | None => fail_option
      | Some chosen =>
          match al_type chosen with
          | AT_SWITCH closure => _ ← closure minus; short_loop arg_list minus opt rest
          | AT_NEG_SWITCH closure => _ ← closure (negb minus); short_loop arg_list minus opt rest
          | AT_PROC_SWITCH proc => _ ← proc minus; short_loop arg_list minus opt rest
          | AT_IMMEDIATE proc => _ ← proc opt; mret rest
          | AT_EITHER proc =>
              match opt with
              | [] => following1 proc rest
              | _ => _ ← proc opt; mret rest
              end
          | AT_FOLLOWING proc => rest ← following1 proc rest; short_loop arg_list minus opt rest
          | AT_EMPTY proc => _ ← proc; short_loop arg_list minus opt rest
          | AT_FOLLOWING2 proc => rest ← following2 proc rest; short_loop arg_list minus opt rest
          | AT_FOLLOWING3 proc => rest ← following3 proc rest; short_loop arg_list minus opt rest
          end
      end
  end.

Definition is_sign (c : Z) : bool := (c =? ch_minus) || (c =? ch_plus).

(** What an argument is: the end of the options, one of them, or the first
    argument that is none. *)
Inductive arg_kind := ArgEnd | ArgLong (minus : bool) (arg : list Z) | ArgShort (minus : bool) (opt : list Z) | ArgBad | ArgOther.

Definition classify (option : list Z) : arg_kind :=
  let c := char_at option 0 in
  let c1 := char_at option 1 in
  if is_sign c && (c1 =? c) then
    if char_at option 2 =? 0 then ArgEnd else ArgLong (c =? ch_minus) (drop 2 option)
  else if is_sign c && (is_sign c1 || (c1 =? 0)) then ArgBad
  else if is_sign c then ArgShort (c =? ch_minus) (drop 1 option)
  else ArgOther.

(** Every option uses up an argument. *)
Fixpoint arg_loop (n : nat) (arg_list : list ArgListT) (argv : list (list Z)) : step :=
  match n, argv with
  | Datatypes.S n, option :: rest =>
      match classify option with
      | ArgEnd => mret rest
      | ArgLong minus arg => rest ← long_step arg_list minus arg rest; arg_loop n arg_list rest
      | ArgShort minus opt => rest ← short_loop arg_list minus opt rest; arg_loop n arg_list rest
      | ArgBad => fail_option
      | ArgOther => mret argv
      end
  | _, _ => mret argv
  end.

Definition arg_parse_arguments (arg_list : list ArgListT) (argv : list (list Z)) : step :=
  arg_loop (length argv) arg_list argv.

(** ** What the parser asks of the handlers, and gives *)

(** [inv] is kept by the handlers, [bad] holds of what they throw, and [given]
    of the strings they get. *)
Variable inv : S -> Prop.
Variable bad : E -> Prop.
Variable given : list Z -> Prop.
Hypothesis given_drop : forall n s, given s -> given (drop n s).
Hypothesis bad_fatal : bad fatal.

Definition keeps_inv {A} (m : stM S E A) (Q : A -> Prop) : Prop :=
  forall st, inv st -> match m st with (st', Ok a) => inv st' /\ Q a | (_, Throw e) => bad e end.

Lemma inv_bind {A B} (m : stM S E A) (k : A -> stM S E B) Q R :
  keeps_inv m Q -> (forall a, Q a -> keeps_inv (k a) R) -> keeps_inv (m ≫= k) R.
Proof.
  intros Hm Hk st Hst. specialize (Hm st Hst). unfold mbind, stM_bind. destruct (m st) as [st' [a|e]]; [|exact Hm].
  destruct Hm as [H1 H2]. by apply Hk.
Qed.

Lemma inv_ret {A} (a : A) (Q : A -> Prop) : Q a -> keeps_inv (mret a) Q.
Proof. intros HQ st Hst. by split. Qed.

Lemma inv_throw {A} e (Q : A -> Prop) : bad e -> keeps_inv (st_throw e) Q.
Proof. intros He st _. exact He. Qed.

Definition handler_ok (h : handler) : Prop := keeps_inv h (fun _ => True).

Definition type_ok (t : ArgTypeT) : Prop :=
  match t with
  | AT_SWITCH h | AT_NEG_SWITCH h | AT_PROC_SWITCH h => forall b, handler_ok (h b)
  | AT_IMMEDIATE h | AT_EITHER h | AT_FOLLOWING h => forall a, given a -> handler_ok (h a)
  | AT_EMPTY h => handler_ok h
  | AT_FOLLOWING2 h => forall a b, given a -> given b -> handler_ok (h a b)
  | AT_FOLLOWING3 h => forall a b c, given a -> given b -> given c -> handler_ok (h a b c)
  end.

(** The arguments that are left are some of the last of [rest]. *)
Definition left_of (rest rest' : list (list Z)) : Prop := Forall given rest' /\ (length rest' <= length rest)%nat.

Lemma handled (h : handler) rest rest' :
  handler_ok h -> left_of rest' rest -> keeps_inv (_ ← h; mret rest) (left_of rest').
Proof. intros Hh Hr. eapply inv_bind; [exact Hh|]. intros _ _. by apply inv_ret. Qed.

Lemma following1_ok h rest : type_ok (AT_FOLLOWING h) -> Forall given rest -> keeps_inv (following1 h rest) (left_of rest).
Proof.
  intros Hh Hr. destruct Hr as [|a rest Ha Hr]; [by apply inv_throw|]. apply handled; [by apply Hh|]. split; [exact Hr|cbn; lia].
Qed.

Lemma following2_ok h rest : type_ok (AT_FOLLOWING2 h) -> Forall given rest -> keeps_inv (following2 h rest) (left_of rest).
Proof.
  intros Hh Hr. destruct Hr as [|a rest Ha [|b rest' Hb Hr]]; try by apply inv_throw.
  apply handled; [by apply Hh|]. split; [exact Hr|cbn; lia].
Qed.

Lemma following3_ok h rest : type_ok (AT_FOLLOWING3 h) -> Forall given rest -> keeps_inv (following3 h rest) (left_of rest).
Proof.
  intros Hh Hr. destruct Hr as [|a rest Ha [|b rest' Hb [|c rest'' Hc Hr]]]; try by apply inv_throw.
  apply handled; [by apply Hh|]. split; [exact Hr|cbn; lia].
Qed.

Lemma match_name_given opt arg rest : given arg -> match_name opt arg = NameEnded rest -> given rest.
Proof.
  revert arg. induction opt as [|o opt IH]; intros [|a arg] Hg; cbn; try discriminate.
  - by intros [= <-].
  - destruct (o =? a); [|discriminate]. apply IH. exact (given_drop 1 _ Hg).
Qed.

Lemma long_option_ok arg_list arg : given arg -> Forall (fun e => type_ok (al_type e)) arg_list -> forall chosen matches,
  (forall e, chosen = Some e -> type_ok (al_type e)) ->
  let '(e, _, immediate) := long_option arg_list arg chosen matches in
  (forall x, e = Some x -> type_ok (al_type x)) /\ (forall x, immediate = Some x -> given x).
Proof.
  intros Hg. induction 1 as [|e arg_list He _ IH]; intros chosen matches Hc; cbn; [by split|].
  destruct (al_name e) as [opt|]; [|by apply IH]. destruct (match_name opt arg) as [|rest| |] eqn:Em.
  - split; [by intros x [= <-]|]. intros x [= <-]. rewrite <- (drop_all arg). by apply given_drop.
  - destruct (takes_immediate _); [|by apply IH]. split; [by intros x [= <-]|]. intros x [= <-]. by eapply match_name_given.
  - apply IH. by intros x [= <-].
  - by apply IH.
Qed.

Lemma short_option_ok arg_list c e : Forall (fun e => type_ok (al_type e)) arg_list -> short_option arg_list c = Some e -> type_ok (al_type e).
Proof. induction 1 as [|x l Hx _ IH]; cbn; [discriminate|]. destruct (_ =? c); [by intros [= <-]|exact IH]. Qed.

Lemma left_refl rest : Forall given rest -> left_of rest rest.
Proof. by split. Qed.

Lemma long_action_ok minus t immediate rest :
  type_ok t -> (forall x, immediate = Some x -> given x) -> Forall given rest -> keeps_inv (long_action minus t immediate rest) (left_of rest).
Proof.
  intros Ht Hi Hr. pose proof (left_refl rest Hr) as Hl. destruct t; cbn in Ht |- *.
  - by apply handled. - by apply handled. - by apply handled.
  - destruct immediate; [apply handled; auto|by apply inv_throw].
  - destruct immediate as [[|c s]|]; [by apply following1_ok|apply handled; auto|by apply inv_throw].
  - by apply following1_ok. - by apply handled. - by apply following2_ok. - by apply following3_ok.
Qed.

Lemma long_step_ok arg_list minus arg rest :
  Forall (fun e => type_ok (al_type e)) arg_list -> given arg -> Forall given rest ->
  keeps_inv (long_step arg_list minus arg rest) (left_of rest).
Proof.
  intros Hl Hg Hr. unfold long_step. pose proof (long_option_ok arg_list arg Hg Hl None 0 ltac:(discriminate)) as H.
  destruct (long_option arg_list arg None 0) as [[[e|] matches] immediate]; [|by apply inv_throw]. destruct H as [H1 H2].
  destruct matches as [|[|n]]; [by apply inv_throw| |by apply inv_throw]. apply long_action_ok; auto.
Qed.

Lemma short_loop_ok arg_list minus : Forall (fun e => type_ok (al_type e)) arg_list -> forall opt rest,
  given opt -> Forall given rest -> keeps_inv (short_loop arg_list minus opt rest) (left_of rest).
Proof.
  intros Hl. induction opt as [|c opt IH]; intros rest Hg Hr; cbn [short_loop]; [by apply inv_ret, left_refl|].
  pose proof (given_drop 1 _ Hg) as Hg1. cbn [drop] in Hg1. pose proof (left_refl rest Hr) as Hlr.
  destruct (short_option arg_list c) as [e|] eqn:Ee; [|by apply inv_throw]. pose proof (short_option_ok _ _ _ Hl Ee) as Ht.
  assert (forall (m : step), keeps_inv m (left_of rest) -> keeps_inv (rest ← m; short_loop arg_list minus opt rest) (left_of rest)) as Hgo.
  { intros m Hm. eapply inv_bind; [exact Hm|]. intros rest' [H1 H2] st Hst. specialize (IH rest' Hg1 H1 st Hst).
    destruct (short_loop _ _ _ _ st) as [st' [r|x]]; [|exact IH]. destruct IH as (A1 & A2 & A3). split; [exact A1|]. split; [exact A2|lia]. }
  assert (forall h, handler_ok h -> keeps_inv (_ ← h; short_loop arg_list minus opt rest) (left_of rest)) as Hgo1.
  { intros h Hh. eapply inv_bind; [exact Hh|]. intros _ _. by apply IH. }
  destruct (al_type e); cbn in Ht; auto using following1_ok, following2_ok, following3_ok, handled.
  destruct opt; [by apply following1_ok|by apply handled; [apply Ht|]].
Qed.

(** The fuel of the loop is enough. *)
Lemma arg_loop_ok arg_list : Forall (fun e => type_ok (al_type e)) arg_list -> forall n argv,
  (length argv <= n)%nat -> Forall given argv ->
  keeps_inv (arg_loop n arg_list argv) (left_of argv) /\
  forall st, inv st -> arg_loop n arg_list argv st = arg_parse_arguments arg_list argv st.
Proof.
  intros Hl. unfold arg_parse_arguments. induction n as [n IH] using (well_founded_induction lt_wf).
  intros argv Hn Hg. destruct Hg as [|option rest Ho Hr]; [destruct n; (split; [by apply inv_ret, left_refl|reflexivity])|].
  destruct n as [|n]; cbn [length] in Hn; [lia|]. cbn [length arg_loop].
  assert (forall (m : step), keeps_inv m (left_of rest) ->
    keeps_inv (rest ← m; arg_loop n arg_list rest) (left_of (option :: rest)) /\
    forall st, inv st -> (rest ← m; arg_loop n arg_list rest) st = (rest0 ← m; arg_loop (length rest) arg_list rest0) st) as Hgo.
  { intros m Hm. split.
    - eapply inv_bind; [exact Hm|]. intros rest' [H1 H2] st Hst.
      destruct (IH n ltac:(lia) rest' ltac:(lia) H1) as [H _]. specialize (H st Hst).
      destruct (arg_loop _ _ _ st) as [st' [r|x]]; [|exact H]. destruct H as (A1 & A2 & A3). split; [exact A1|]. split; [exact A2|cbn; lia].
    - intros st Hst. specialize (Hm st Hst). unfold mbind, stM_bind. destruct (m st) as [st' [rest'|x]]; [|reflexivity].
      destruct Hm as (H1 & H2 & H3). rewrite (proj2 (IH n ltac:(lia) rest' ltac:(lia) H2) st' H1).
      by rewrite (proj2 (IH (length rest) ltac:(lia) rest' H3 H2) st' H1). }
  destruct (classify option) as [|minus arg|minus opt| |] eqn:Ec.
  - split; [apply inv_ret; split; [exact Hr|cbn; lia]|reflexivity].
  - apply Hgo, long_step_ok; auto. unfold classify in Ec. repeat (destruct (_ && _) in Ec; [|]); try discriminate.
    all: try (destruct (_ =? _) in Ec; [discriminate|]; injection Ec as <- <-; by apply given_drop).
    all: destruct (is_sign _) in Ec; discriminate.
  - apply Hgo, short_loop_ok; auto. unfold classify in Ec. repeat (destruct (_ && _) in Ec; [|]); try discriminate.
    all: try (destruct (_ =? _) in Ec; discriminate).
    all: destruct (is_sign _) in Ec; [|discriminate]; injection Ec as <- <-; by apply given_drop.
  - split; [by apply inv_throw|reflexivity].
  - split; [apply inv_ret, left_refl; by constructor|reflexivity].
Qed.
End ArgParse.
Arguments ArgTypeT : clear implicits.
Arguments ArgListT : clear implicits.
