(* ===== verification/TldMain.v ===== *)
(** * TldMain: the command line of the linker

    Models tld/src/main.c up to the call of the front end: the modes of the
    program, the options of each with their handlers, and the end of the
    program when there is nothing to do. The static variables of main.c, those
    of capsule.c that a file of unit sets changes, and those of the two files
    error.c are the state. [open_file] gives what can be read of
    a file that can be opened, and [can_write] says whether a file can be
    opened for writing. What the program prints is not modelled. *)
From stdpp Require Import base list list_numbers numbers.
From Stdlib Require Import ZArith Lia String Ascii.
From S2P Require Import Prelude Codec ExdsString ExdsError TldNameKey TldIO ExdsStream TldCapsule TldArgs TldRenameFile TldUnitFile TldArgParse.

Inductive ModeT := MODE_BUILDER | MODE_CONTENTS | MODE_EXTRACT | MODE_LINKER.

(** How the program ends before a front end is called: [MExit] with success,
    [MFatal] after a fatal error, [MRead] for a device that fails, and [MStop]
    for the use of memory that it may not use. *)
Inductive main_exn := MExit | MFatal | MRead (name : list Z) | MStop.

Record MainT := Main {
  main_used_one_off : bool;
  main_used_other : bool;
  main_arg_data : ArgDataT;
  main_statics : StaticsT;
  main_reports : ReportsT
}.

Section Main.
Variable junk : nat -> Z.
Variable junk_nstring : nat -> NStringT.
Variable open_file : list Z -> option (list (option Z)).
Variable can_write : list Z -> bool.

#[local] Abbreviation main A := (stM MainT main_exn A).

Definition of_text_exn (e : rename_exn) : main_exn :=
  match e with
  | XX_istream (XX_istream_read_error name) => MRead name
  | XX_istream IStop => MStop
  | Fatal => MFatal
  | RStop => MStop
  end.

(** A handler that changes the arguments, and may report an error; [None] where
    [arg_data_...] ends the program with [e]. *)
Definition on_args (e : main_exn) (f : ArgDataT -> option (ArgDataT * bool)) : main unit := fun st =>
  match f (main_arg_data st) with
  | Some (a, err) =>
      let '(reports, ends) := report_if err (main_reports st) in
      (Main (main_used_one_off st) true a (main_statics st) reports, if ends then Throw MFatal else Ok tt)
  | None => (st, Throw e)
  end.

Definition no_error {A} (o : option A) : option (A * bool) := a ← o; Some (a, false).

(** A procedure of a switch. *)
Definition set_switch (set : ArgDataT -> bool -> ArgDataT) (enable : bool) : main unit :=
  on_args MStop (fun a => no_error (Some (set a enable))).

Definition main_handle_all := set_switch arg_data_set_extract_all.
Definition main_handle_all_hide_defd := set_switch arg_data_set_all_hide_defd.
Definition main_handle_basename := set_switch arg_data_set_extract_basename.
Definition main_handle_index := set_switch arg_data_set_content_index.
Definition main_handle_match_base := set_switch arg_data_set_extract_match_base.
Definition main_handle_missing_definitions := set_switch arg_data_set_missing_definitions.
Definition main_handle_size := set_switch arg_data_set_content_size.
Definition main_handle_suppress_mult := set_switch arg_data_set_suppress_mult.
Definition main_handle_tdf_version := set_switch arg_data_set_content_version.

Definition main_handle_debug_file (debug_file : list Z) : main unit :=
  on_args MFatal (fun a => no_error (arg_data_set_debug_file can_write a debug_file)).

Definition one_off : main unit := fun st =>
  (Main true (main_used_other st) (main_arg_data st) (main_statics st) (main_reports st), Ok tt).

Definition main_handle_help : main unit := one_off.
Definition main_handle_version : main unit := one_off.

Definition main_handle_hide (shape name : list Z) : main unit :=
  on_args MStop (fun a => arg_data_add_hide junk junk_nstring a shape name).
Definition main_handle_hide_defined (shape : list Z) : main unit :=
  on_args MStop (fun a => no_error (arg_data_add_hide_defined junk a shape)).
Definition main_handle_keep (shape name : list Z) : main unit :=
  on_args MStop (fun a => arg_data_add_keep junk junk_nstring a shape name).
Definition main_handle_keep_all (shape : list Z) : main unit :=
  on_args MStop (fun a => no_error (arg_data_add_keep_all junk a shape)).
Definition main_handle_suppress (shape name : list Z) : main unit :=
  on_args MStop (fun a => arg_data_add_suppress junk junk_nstring a shape name).
Definition main_handle_suppress_all (shape : list Z) : main unit :=
  on_args MStop (fun a => no_error (arg_data_add_suppress_all junk a shape)).
Definition main_handle_rename (shape from to : list Z) : main unit :=
  on_args MStop (fun a => arg_data_parse_rename junk junk_nstring a shape from to).
Definition main_handle_library_file (library_file : list Z) : main unit :=
  on_args MStop (fun a => no_error (Some (arg_data_add_library_file a library_file))).
Definition main_handle_library_path (directory : list Z) : main unit :=
  on_args MStop (fun a => no_error (Some (arg_data_add_library_path a directory))).
Definition main_handle_output_file (output_file : list Z) : main unit :=
  on_args MFatal (fun a => no_error (arg_data_set_output_file a output_file)).

Definition set_min_severity (enabled : ESeverityT) (enable : bool) : main unit := fun st =>
  (Main (main_used_one_off st) true (main_arg_data st) (main_statics st)
     (Reports (number_errors (main_reports st))
        (error_set_min_report_severity (if enable then enabled else ERROR_SEVERITY_ERROR) (severities (main_reports st)))), Ok tt).

Definition main_handle_info := set_min_severity ERROR_SEVERITY_INFORMATION.
Definition main_handle_warning := set_min_severity ERROR_SEVERITY_WARNING.

(** Enough fuel for a file. *)
Definition file_fuel (data : option (list (option Z))) : nat :=
  match data with Some data => S (List.length data) | None => 1 end.

Definition main_handle_rename_file (name : list Z) : main unit := fun st =>
  let data := open_file name in
  match rename_file_parse junk junk_nstring (file_fuel data) data name (main_arg_data st) (main_reports st) with
  | Some (a, reports, x) =>
      (Main (main_used_one_off st) true a (main_statics st) reports,
       match x with Ok _ => Ok tt | Throw e => Throw (of_text_exn e) end)
  | None => (st, Throw MStop)
  end.

Definition arg_data_set_unit_file (file : list Z) : main unit := fun st =>
  match unit_file (main_arg_data st) with
  | Some _ => (st, Throw MFatal)
  | None =>
      let data := open_file file in
      let a := with_unit_file (main_arg_data st) file in
      let with_statics g := Main (main_used_one_off st) true a g (main_reports st) in
      match capsule_read_unit_set_file junk (file_fuel data) data file (main_statics st) with
      | Some (Ok g) => (with_statics g, Ok tt)
      | Some (Throw e) => (with_statics (main_statics st), Throw (of_text_exn e))
      | None => (st, Throw MStop)
      end
  end.

Definition main_handle_unit_file (unit_file : list Z) : main unit := arg_data_set_unit_file unit_file.

(** ** The options of the modes *)

Definition option_entry (name short : string) (t : ArgTypeT MainT main_exn) : ArgListT MainT main_exn :=
  ArgList (if (name =? "")%string then None else Some (chars name)) (default 0 (head (chars short))) t.

Definition main_builder_arg_list : list (ArgListT MainT main_exn) := [
  option_entry "debug-file" "d" (AT_FOLLOWING main_handle_debug_file);
  option_entry "help" "?" (AT_EMPTY main_handle_help);
  option_entry "include-library" "i" (AT_FOLLOWING main_handle_library_file);
  option_entry "output-file" "o" (AT_FOLLOWING main_handle_output_file);
  option_entry "suppress" "s" (AT_FOLLOWING2 main_handle_suppress);
  option_entry "suppress-all" "S" (AT_FOLLOWING main_handle_suppress_all);
  option_entry "suppress-mult" "M" (AT_PROC_SWITCH main_handle_suppress_mult);
  option_entry "unit-file" "u" (AT_FOLLOWING main_handle_unit_file);
  option_entry "version" "v" (AT_EMPTY main_handle_version)].

Definition main_contents_arg_list : list (ArgListT MainT main_exn) := [
  option_entry "debug-file" "d" (AT_FOLLOWING main_handle_debug_file);
  option_entry "help" "?" (AT_EMPTY main_handle_help);
  option_entry "index" "i" (AT_PROC_SWITCH main_handle_index);
  option_entry "size" "s" (AT_PROC_SWITCH main_handle_size);
  option_entry "tdf-version" "t" (AT_PROC_SWITCH main_handle_tdf_version);
  option_entry "version" "v" (AT_EMPTY main_handle_version)].

Definition main_extract_arg_list : list (ArgListT MainT main_exn) := [
  option_entry "all" "a" (AT_PROC_SWITCH main_handle_all);
  option_entry "basename" "b" (AT_PROC_SWITCH main_handle_basename);
  option_entry "debug-file" "d" (AT_FOLLOWING main_handle_debug_file);
  option_entry "help" "?" (AT_EMPTY main_handle_help);
  option_entry "info" "i" (AT_PROC_SWITCH main_handle_info);
  option_entry "match-basename" "m" (AT_PROC_SWITCH main_handle_match_base);
  option_entry "version" "v" (AT_EMPTY main_handle_version)].

Definition main_linker_arg_list : list (ArgListT MainT main_exn) := [
  option_entry "all-hide-defined" "a" (AT_PROC_SWITCH main_handle_all_hide_defd);
  option_entry "debug-file" "d" (AT_FOLLOWING main_handle_debug_file);
  option_entry "help" "?" (AT_EMPTY main_handle_help);
  option_entry "hide" "h" (AT_FOLLOWING2 main_handle_hide);
  option_entry "hide-defined" "H" (AT_FOLLOWING main_handle_hide_defined);
  option_entry "missing-definitions" "i" (AT_PROC_SWITCH main_handle_missing_definitions);
  option_entry "keep" "k" (AT_FOLLOWING2 main_handle_keep);
  option_entry "keep-all" "K" (AT_FOLLOWING main_handle_keep_all);
  option_entry "library" "" (AT_FOLLOWING main_handle_library_file);
  option_entry "" "l" (AT_EITHER main_handle_library_file);
  option_entry "output-file" "o" (AT_FOLLOWING main_handle_output_file);
  option_entry "path" "" (AT_FOLLOWING main_handle_library_path);
  option_entry "" "L" (AT_EITHER main_handle_library_path);
  option_entry "rename" "r" (AT_FOLLOWING3 main_handle_rename);
  option_entry "rename-file" "R" (AT_FOLLOWING main_handle_rename_file);
  option_entry "suppress" "s" (AT_FOLLOWING2 main_handle_suppress);
  option_entry "suppress-all" "S" (AT_FOLLOWING main_handle_suppress_all);
  option_entry "suppress-mult" "M" (AT_PROC_SWITCH main_handle_suppress_mult);
  option_entry "unit-file" "u" (AT_FOLLOWING main_handle_unit_file);
  option_entry "version" "v" (AT_EMPTY main_handle_version);
  option_entry "warnings" "w" (AT_PROC_SWITCH main_handle_warning)].

(** ** main_init *)

Definition mode_arg_list (mode : ModeT) : list (ArgListT MainT main_exn) :=
  match mode with
  | MODE_BUILDER => main_builder_arg_list
  | MODE_CONTENTS => main_contents_arg_list
  | MODE_EXTRACT => main_extract_arg_list
  | MODE_LINKER => main_linker_arg_list
  end.

(** The default output; the modes that write none have a null pointer. *)
Definition init_args (default_output_file : string) : main unit := fun st =>
  (Main (main_used_one_off st) (main_used_other st) (arg_data_init (chars default_output_file)) (main_statics st)
     (main_reports st), Ok tt).

Definition is_mode (option : list Z) : bool := (char_at option 0 =? ch_minus) && (char_at option 1 =? 109).

Definition version_mode : main unit := fun st =>
  (Main true false (main_arg_data st) (main_statics st) (main_reports st), Ok tt).

(** The mode, and the arguments that follow it. The message about an illegal
    mode looks at the third character of the argument after it: there may be
    none, or it may be shorter. *)
Fixpoint main_mode (argv : list (list Z)) : main (ModeT * list (list Z)) :=
  match argv with
  | option :: rest =>
      if is_mode option then
        let c := char_at option 2 in
        if c =? 99 then _ ← init_args "library.tl"; mret (MODE_BUILDER, rest)               (* c *)
        else if c =? 116 then _ ← init_args ""; mret (MODE_CONTENTS, rest)                  (* t *)
        else if c =? 120 then _ ← init_args ""; mret (MODE_EXTRACT, rest)                   (* x *)
        else if c =? 108 then _ ← init_args "capsule.j"; mret (MODE_LINKER, rest)           (* l *)
        else if c =? 118 then _ ← version_mode; main_mode rest                              (* v *)
        else
          match rest with
          | next :: _ => if (List.length next <? 2)%nat then st_throw MStop else st_throw MFatal
          | [] => st_throw MStop
          end
      else _ ← init_args "capsule.j"; mret (MODE_LINKER, argv)
  | [] => _ ← init_args "capsule.j"; mret (MODE_LINKER, argv)
  end.

(** [argv]: the arguments after the name of the program. *)
Definition main_init (argv : list (list Z)) : main ModeT :=
  '(mode, argv) ← main_mode argv;
  argv ← arg_parse_arguments MFatal (mode_arg_list mode) argv;
  st ← st_get;
  match argv with
  | [] => if main_used_one_off st && negb (main_used_other st) then st_throw MExit else st_throw MFatal
  | _ =>
      _ ← st_put (Main (main_used_one_off st) (main_used_other st) (arg_data_set_files (main_arg_data st) argv)
            (main_statics st) (main_reports st));
      mret mode
  end.

(** The program before [main_init]; the arguments are not initialised yet. *)
Definition main_start : MainT := Main false false (arg_data_init []) initial_statics initial_reports.
End Main.
