(* ===== verification/TldMainSpec.v ===== *)
(** * TldMainSpec: what the command line gives the front ends

    On any command line [main_init] (tld/src/main.c) ends, and when it calls a
    front end the arguments and the unit sets are those the front ends rely
    on. *)
From stdpp Require Import base list list_numbers numbers.
From Stdlib Require Import ZArith Lia String Ascii.
From S2P Require Import Prelude Codec ExdsString ExdsError TldNameKey TldIO TldIOSpec ExdsStream TldCapsule TldUnitSets TldArgs TldArgsSpec.
From S2P Require Import TldRenameFile TldRenameFileSpec TldUnitFile TldArgParse TldMain.

Create HintDb handlers.

Section MainSpec.
Variable junk : nat -> Z.
Variable junk_nstring : nat -> NStringT.
Variable device : Prop.
Variable open_file : list Z -> option (list (option Z)).
Variable can_write : list Z -> bool.
Hypothesis files_ok : forall name data, open_file name = Some data ->
  Forall (fun o => from_option is_byte device o) data /\ Z.of_nat (List.length data) < 2 ^ 32.

(** A string of the command line, or the end of one. *)
Variable argv : list (list Z).
Hypothesis argv_ok : Forall c_string argv.

Definition given (s : list Z) : Prop := c_string s /\ exists a n, a ∈ argv /\ s = drop n a.

(** The program may end at once; it reads beyond the end of a name that ends
    in the middle of a hexadecimal escape. *)
Definition overruns (s : list Z) : Prop := name_key_parse_cstring junk junk_nstring (s ++ [0]) = Overrun.

Definition main_bad (e : main_exn) : Prop :=
  match e with
  | MExit | MFatal => True
  | MRead _ => device
  | MStop => exists s, given s /\ overruns s
  end.

Record main_inv (st : MainT) : Prop := {
  mi_args : args_ok (main_arg_data st);
  mi_sets : known_unit_sets (main_statics st);
  mi_unit_file : unit_file (main_arg_data st) = None -> main_statics st = initial_statics;
  mi_quiet : quiet (main_reports st)
}.

Lemma given_suffix n s : given s -> given (drop n s).
Proof.
  intros [[H1 H2] (a & m & Ha & ->)]. split; [split|].
  - by apply Forall_drop.
  - rewrite length_drop. lia.
  - exists a, (m + n)%nat. by rewrite drop_drop.
Qed.

Lemma given_arg a : a ∈ argv -> given a.
Proof. intros Ha. split; [rewrite Forall_forall in argv_ok; by apply argv_ok, list_elem_of_In|]. by exists a, 0%nat. Qed.

#[local] Abbreviation keeps m := (keeps_inv main_inv main_bad m (fun _ => True)).

Lemma on_args_ok e f :
  (forall a, args_ok a -> match f a with Some (a', _) => args_ok a' /\ unit_file a' = unit_file a | None => main_bad e end) ->
  keeps (on_args e f).
Proof.
  intros H st [H1 H2 H3 H4]. unfold on_args. specialize (H _ H1). destruct (f (main_arg_data st)) as [[a err]|]; [|exact H].
  destruct H as [Ha Hu]. pose proof (report_if_later err (main_reports st)) as Hr. destruct (report_if err (main_reports st)) as [reports [|]]; [exact I|].
  split; [|exact I]. constructor; cbn; [exact Ha|exact H2|by rewrite Hu|by eapply quiet_later].
Qed.

Lemma set_switch_ok set b : (forall a, args_ok a -> args_ok (set a b) /\ unit_file (set a b) = unit_file a) -> keeps (set_switch set b).
Proof. intros H. by apply on_args_ok. Qed.

(** *** Names *)

Lemma shape_find_valid control shape :
  let '(control', i) := shape_control_find junk control shape in is_Some (control' !! i).
Proof.
  unfold shape_control_find. generalize (nstring_copy_cstring junk shape) as n. intros n.
  assert (forall i, shape_control_position control n = Some i -> is_Some (control !! i)) as H.
  { induction control as [|e control IH]; cbn; [discriminate|]. intros i. destruct (nstring_equal _ _); [intros [= <-]; by eexists|].
    destruct (shape_control_position control n) as [j|]; [|discriminate]. intros [= <-]. by apply IH. }
  destruct (shape_control_position control n) as [i|]; [by apply H|by eexists].
Qed.

Lemma control_add_name_total control shape name :
  c_string name -> Forall control_names_ok control ->
  match control_add_name junk junk_nstring control shape name with
  | Some (control', _) => Forall control_names_ok control'
  | None => overruns name
  end.
Proof.
  intros Hn Hc. destruct (control_add_name _ _ _ _ _) as [[control' err]|] eqn:E; [by eapply control_add_name_ok|].
  unfold control_add_name in E. pose proof (shape_find_valid control shape) as H.
  destruct (shape_control_find junk control shape) as [c i]. destruct H as [e He]. rewrite He in E. cbn in E.
  unfold shape_control_entry_add_name in E. unfold overruns. by destruct (name_key_parse_cstring _ _ _).
Qed.

Lemma control_set_all_total control shape :
  Forall control_names_ok control -> exists control', control_set_all junk control shape = Some control' /\ Forall control_names_ok control'.
Proof.
  intros Hc. destruct (control_set_all junk control shape) as [control'|] eqn:E; [exists control'; split; [done|by eapply control_set_all_ok]|].
  unfold control_set_all in E. pose proof (shape_find_valid control shape) as H.
  destruct (shape_control_find junk control shape) as [c i]. destruct H as [e He]. by rewrite He in E.
Qed.

(** What is asked of a function that gives a control list a name. *)
Lemma add_name_handler (get : ArgDataT -> list ShapeControlEntryT) (put : ArgDataT -> list ShapeControlEntryT -> ArgDataT) shape name :
  given name -> (forall a, args_ok a -> Forall control_names_ok (get a)) ->
  (forall a c, args_ok a -> Forall control_names_ok c -> args_ok (put a c) /\ unit_file (put a c) = unit_file a) ->
  keeps (on_args MStop (fun a => '(c, err) ← control_add_name junk junk_nstring (get a) shape name; Some (put a c, err))).
Proof.
  intros Hn Hget Hput. apply on_args_ok. intros a Ha. pose proof (control_add_name_total (get a) shape name (proj1 Hn) (Hget a Ha)) as H.
  destruct (control_add_name _ _ _ _ _) as [[c err]|]; cbn; [by apply Hput|by exists name].
Qed.

Lemma set_all_handler (get : ArgDataT -> list ShapeControlEntryT) (put : ArgDataT -> list ShapeControlEntryT -> ArgDataT) shape :
  (forall a, args_ok a -> Forall control_names_ok (get a)) ->
  (forall a c, args_ok a -> Forall control_names_ok c -> args_ok (put a c) /\ unit_file (put a c) = unit_file a) ->
  keeps (on_args MStop (fun a => no_error (c ← control_set_all junk (get a) shape; Some (put a c)))).
Proof.
  intros Hget Hput. apply on_args_ok. intros a Ha. destruct (control_set_all_total (get a) shape (Hget a Ha)) as (c & -> & Hc).
  by apply Hput.
Qed.

Lemma put_hides a c : args_ok a -> Forall control_names_ok c -> args_ok (with_hides a c) /\ unit_file (with_hides a c) = unit_file a.
Proof. intros [] Hc. by split; [constructor|]. Qed.
Lemma put_keeps a c : args_ok a -> Forall control_names_ok c -> args_ok (with_keeps a c) /\ unit_file (with_keeps a c) = unit_file a.
Proof. intros [] Hc. by split; [constructor|]. Qed.
Lemma put_suppresses a c : args_ok a -> Forall control_names_ok c -> args_ok (with_suppresses a c) /\ unit_file (with_suppresses a c) = unit_file a.
Proof. intros [] Hc. by split; [constructor|]. Qed.

Lemma rename_handler_ok shape from to : given shape -> given from -> given to -> keeps (main_handle_rename junk junk_nstring shape from to).
Proof.
  intros [Hs _] Hf Ht. apply on_args_ok. intros a Ha. destruct (arg_data_parse_rename _ _ _ _ _ _) as [[a' err]|] eqn:E.
  - split; [eapply parse_rename_args_ok; [exact Ha|exact Hs|apply Hf|apply Ht|exact E]|].
    unfold arg_data_parse_rename in E. destruct (rename_control_find _ _ _) as [c i]. destruct (c !! i); [|discriminate]. cbn in E.
    destruct (rename_control_entry_parse_pair _ _ _ _ _) as [[e' err']|]; [|discriminate]. cbn in E. by injection E as <- _.
  - unfold arg_data_parse_rename in E. pose proof (rename_find_ok junk (renames a) _ (conj (ao_renames _ Ha) (ao_distinct _ Ha)) (cstring_ok junk shape Hs)) as H.
    destruct (rename_control_find _ _ _) as [c i]. destruct H as (_ & e & He & _). rewrite He in E. cbn in E.
    unfold rename_control_entry_parse_pair in E. cbn.
    destruct (name_key_parse_cstring _ _ (from ++ [0])) eqn:E1; [|discriminate|by exists from].
    destruct (name_key_parse_cstring _ _ (to ++ [0])) eqn:E2; [|discriminate|by exists to].
    by destruct (rename_control_entry_add _ _ _).
Qed.

(** *** Files *)

Lemma file_text name data : open_file name = Some data ->
  Forall is_byte (text data) /\ Z.of_nat (List.length (text data)) < 2 ^ 32 /\ (fails data = true -> device).
Proof.
  intros E. destruct (files_ok name data E) as [Hb Hl]. pose proof (text_length data) as Ht. split; [|split; [lia|]].
  - clear Hl Ht E. induction Hb as [|[c|] l Hc _ IH]; cbn; constructor; auto.
  - unfold fails. intros [Hf _]%andb_true_iff. apply bool_decide_eq_true_1 in Hf. exact (Forall_lookup_1 _ _ _ _ Hb Hf).
Qed.

Lemma rename_file_handler_ok name : keeps (main_handle_rename_file junk junk_nstring open_file name).
Proof.
  intros st [H1 H2 H3 H4]. unfold main_handle_rename_file. destruct (open_file name) as [data|] eqn:Eo; [|exact I].
  destruct (file_text name data Eo) as (Hb & Hl & Hd). cbn [file_fuel].
  destruct (rename_file_ends junk junk_nstring data name (main_arg_data st) (main_reports st) (S (List.length data)) H1 H4 Hb Hl)
    as (a & err & r & -> & Hlater & Hr); [pose proof (text_length data); lia|].
  destruct r as [[]|e].
  - destruct Hr as [_ [Ha Ea]]. split; [|exact I]. constructor; cbn; [exact Ha|exact H2|by rewrite Ea|by eapply quiet_later].
  - destruct e as [[n|]| |]; try contradiction; [by apply Hd|exact I].
Qed.

Lemma unit_file_handler_ok name : keeps (main_handle_unit_file junk open_file name).
Proof.
  intros st [H1 H2 H3 H4]. unfold main_handle_unit_file, arg_data_set_unit_file. destruct (unit_file (main_arg_data st)) as [u|] eqn:Eu; [exact I|].
  specialize (H3 eq_refl). destruct (open_file name) as [data|] eqn:Eo; cbn [file_fuel]; [|by rewrite H3].
  destruct (file_text name data Eo) as (Hb & Hl & Hd). rewrite H3.
  pose proof (unit_set_file_ok junk data name initial_statics (S (List.length data)) eq_refl Hb Hl ltac:(pose proof (text_length data); lia)) as H.
  destruct (capsule_read_unit_set_file _ _ _ _ _) as [[g|e]|]; [|destruct e as [[n|]| |]; try contradiction; [by apply Hd|exact I]|contradiction].
  destruct H as (sets & Es & Hc & Eg). split; [|exact I]. constructor; cbn; [|right|discriminate|exact H4].
  - by destruct H1; constructor.
  - rewrite Eg. by eexists sets, _, _.
Qed.

Lemma debug_file_handler_ok name : keeps (main_handle_debug_file can_write name).
Proof.
  apply on_args_ok. intros a []. unfold arg_data_set_debug_file. destruct (debug_file a); [exact I|].
  destruct (can_write name); [|exact I]. by split; [constructor|].
Qed.

Lemma output_file_handler_ok name : keeps (main_handle_output_file name).
Proof.
  apply on_args_ok. intros a []. unfold arg_data_set_output_file. destruct (output_file a); [exact I|]. by split; [constructor|].
Qed.

Lemma library_file_handler_ok name : keeps (main_handle_library_file name).
Proof. apply on_args_ok. intros a []. by split; [constructor|]. Qed.

Lemma library_path_handler_ok name : keeps (main_handle_library_path name).
Proof. apply on_args_ok. intros a []. by split; [constructor|]. Qed.

Lemma one_off_ok : keeps one_off.
Proof. intros st []. by split; [constructor|]. Qed.

Lemma info_ok b : keeps (main_handle_info b).
Proof. intros st []. by split; [constructor|]. Qed.

Lemma warning_ok b : keeps (main_handle_warning b).
Proof. intros st []. by split; [constructor|]. Qed.

#[local] Hint Resolve rename_file_handler_ok unit_file_handler_ok debug_file_handler_ok output_file_handler_ok library_file_handler_ok
  library_path_handler_ok one_off_ok info_ok warning_ok rename_handler_ok : handlers.

(** *** The options *)

Lemma hide_option_ok shape name : given name -> keeps (main_handle_hide junk junk_nstring shape name).
Proof. intros H. apply (add_name_handler hides with_hides); [exact H|apply ao_hides|apply put_hides]. Qed.
Lemma hide_defined_ok shape : keeps (main_handle_hide_defined junk shape).
Proof. apply (set_all_handler hides with_hides); [apply ao_hides|apply put_hides]. Qed.
Lemma keep_ok shape name : given name -> keeps (main_handle_keep junk junk_nstring shape name).
Proof. intros H. apply (add_name_handler TldArgs.keeps with_keeps); [exact H|apply ao_keeps|apply put_keeps]. Qed.
Lemma keep_all_ok shape : keeps (main_handle_keep_all junk shape).
Proof. apply (set_all_handler TldArgs.keeps with_keeps); [apply ao_keeps|apply put_keeps]. Qed.
Lemma suppress_option_ok shape name : given name -> keeps (main_handle_suppress junk junk_nstring shape name).
Proof. intros H. apply (add_name_handler suppresses with_suppresses); [exact H|apply ao_suppresses|apply put_suppresses]. Qed.
Lemma suppress_all_ok shape : keeps (main_handle_suppress_all junk shape).
Proof. apply (set_all_handler suppresses with_suppresses); [apply ao_suppresses|apply put_suppresses]. Qed.

Ltac switch_ok := intros ?; apply set_switch_ok; intros ? []; by split; [constructor|].

#[local] Hint Resolve hide_option_ok hide_defined_ok keep_ok keep_all_ok suppress_option_ok suppress_all_ok : handlers.
#[local] Hint Extern 2 => switch_ok : handlers.

Lemma mode_options_ok mode :
  Forall (fun e => type_ok main_inv main_bad given (al_type e)) (mode_arg_list junk junk_nstring open_file can_write mode).
Proof. destruct mode; repeat apply Forall_cons_2; try apply Forall_nil_2; cbn; unfold handler_ok; auto with handlers. Qed.

(** *** The whole *)

(** The argument [argv] after the versions is no mode: the message about it
    reads beyond the next argument. *)
Inductive illegal_mode : list (list Z) -> Prop :=
  | illegal_next option rest : is_mode option = true -> Forall (fun c => char_at option 2 <> c) [99; 116; 120; 108; 118] ->
      (List.length (default [] (head rest)) < 2)%nat -> illegal_mode (option :: rest)
  | illegal_later option rest : is_mode option = true -> char_at option 2 = 118 -> illegal_mode rest -> illegal_mode (option :: rest).

Lemma start_inv default_output st :
  main_statics st = initial_statics -> quiet (main_reports st) -> main_inv (init_args default_output st).1.
Proof. intros E Hq. constructor; cbn; [by split; constructor|by left|done|exact Hq]. Qed.

Lemma main_mode_ok args : forall st, main_statics st = initial_statics -> quiet (main_reports st) ->
  match main_mode args st with
  | (st', Ok (mode, rest)) => main_inv st' /\ exists n, rest = drop n args
  | (_, Throw e) => e = MFatal \/ e = MStop /\ illegal_mode args
  end.
Proof.
  induction args as [|option rest IH]; intros st E Hq; [split; [by apply start_inv|by exists 0%nat]|]. cbn [main_mode].
  destruct (is_mode option) eqn:Em; [|split; [by apply start_inv|by exists 0%nat]].
  assert (forall out mode, match (_ ← init_args out; mret (mode, rest) : stM MainT main_exn (ModeT * list (list Z))) st with
    | (st', Ok (mode, rest')) => main_inv st' /\ exists n, rest' = drop n (option :: rest)
    | (_, Throw e) => e = MFatal \/ e = MStop /\ illegal_mode (option :: rest) end) as Hone.
  { intros out mode. split; [by apply start_inv|by exists 1%nat]. }
  destruct (Z.eqb_spec (char_at option 2) 99) as [_|Nc]; [apply Hone|]. destruct (Z.eqb_spec (char_at option 2) 116) as [_|Nt]; [apply Hone|].
  destruct (Z.eqb_spec (char_at option 2) 120) as [_|Nx]; [apply Hone|]. destruct (Z.eqb_spec (char_at option 2) 108) as [_|Nl]; [apply Hone|].
  destruct (Z.eqb_spec (char_at option 2) 118) as [Ev|Ev].
  - unfold mbind at 1, stM_bind at 1, version_mode. specialize (IH (Main true false (main_arg_data st) (main_statics st) (main_reports st)) E Hq).
    destruct (main_mode rest _) as [st' [[mode rest']|e]].
    + destruct IH as [H1 [n ->]]. split; [exact H1|]. by exists (S n).
    + destruct IH as [IH|[IH1 IH2]]; [by left|]. right. split; [exact IH1|]. by apply illegal_later.
  - assert ((List.length (default [] (head rest)) < 2)%nat -> illegal_mode (option :: rest)) as Hill.
    { intros H. apply illegal_next; [exact Em|by repeat apply Forall_cons_2|exact H]. }
    destruct rest as [|next rest]; [right; split; [done|apply Hill; cbn; lia]|].
    destruct (Nat.ltb_spec (List.length next) 2); [right; split; [done|by apply Hill]|by left].
Qed.

Lemma main_init_ok :
  match main_init junk junk_nstring open_file can_write argv main_start with
  | (st, Ok mode) => main_inv st /\ files (main_arg_data st) <> [] /\ Forall given (files (main_arg_data st))
  | (_, Throw MStop) => illegal_mode argv \/ exists s, given s /\ overruns s
  | (_, Throw e) => main_bad e
  end.
Proof.
  unfold main_init. pose proof (main_mode_ok argv main_start eq_refl eq_refl) as H. unfold mbind at 1, stM_bind at 1.
  destruct (main_mode argv main_start) as [st [[mode rest]|e]]; [|destruct H as [->|[-> H]]; [exact I|by left]].
  destruct H as [Hinv [n ->]].
  assert (Forall given (drop n argv)) as Hg by (apply Forall_drop, Forall_forall; intros a Ha%list_elem_of_In; by apply given_arg).
  pose proof (mode_options_ok mode) as Hopts.
  destruct (arg_loop_ok MFatal main_inv main_bad given given_suffix I _ Hopts _ _ (Nat.le_refl _) Hg) as [Hloop _].
  specialize (Hloop st Hinv). unfold mbind at 1, stM_bind at 1, arg_parse_arguments.
  destruct (arg_loop _ _ _ _ st) as [st1 [left_args|e]]; [|destruct e; auto]. destruct Hloop as [H1 [H2 _]].
  unfold mbind, stM_bind, st_get. destruct left_args as [|a left_args]; [by destruct (_ && _)|]. cbn. split; [|done].
  destruct H1 as [A1 A2 A3 A4]. constructor; cbn; [|exact A2|exact A3|exact A4]. by destruct A1; constructor.
Qed.
End MainSpec.

(** C20: on any command line and any files [main_init] ends, and what it gives
    the front end of the mode is well formed: the arguments, at least one
    file, and the unit sets, which are the default ones or the checked ones of
    a file. It ends the program instead when there is nothing to do, after a
    fatal error, when a device fails while a file is read, or, in two cases
    only, by reading beyond the end of an argument: for the message about an
    illegal mode, and in a name that ends within a hexadecimal escape. *)
Theorem main_init_well_formed junk junk_nstring (device : Prop) open_file can_write argv :
  (forall name data, open_file name = Some data ->
     Forall (fun o => from_option is_byte device o) data /\ Z.of_nat (List.length data) < 2 ^ 32) ->
  Forall c_string argv ->
  match main_init junk junk_nstring open_file can_write argv main_start with
  | (st, Ok mode) => args_ok (main_arg_data st) /\ known_unit_sets (main_statics st) /\
      files (main_arg_data st) <> [] /\ Forall c_string (files (main_arg_data st))
  | (_, Throw MStop) => illegal_mode argv \/ exists s, given argv s /\ overruns junk junk_nstring s
  | (_, Throw (MRead _)) => device
  | (_, Throw _) => True
  end.
Proof.
  intros Hf Ha. pose proof (main_init_ok junk junk_nstring device open_file can_write Hf argv Ha) as H.
  destruct (main_init _ _ _ _ _ _) as [st [mode|e]]; [|by destruct e].
  destruct H as ([H1 H2 _ _] & H3 & H4). split_and!; auto. eapply Forall_impl; [|exact H4]. by intros s [Hs _].
Qed.

(** A library of one file is asked for, without the tag [b]. *)
Definition ex_command_line : list (list Z) := chars <$> ["-mc"; "--suppress"; "tag"; "b"; "-Mo"; "out.tl"; "a.j"]%string.

Definition ex_command : MainT * result main_exn ModeT :=
  main_init (fun _ => 0) (fun _ => nstring_init) (fun _ => None) (fun _ => true) ex_command_line main_start.

Lemma main_init_well_formed_witness :
  match ex_command with
  | (st, Ok mode) => mode = MODE_BUILDER /\ files (main_arg_data st) = [chars "a.j"] /\
      arg_data_get_output_file (main_arg_data st) = chars "out.tl" /\ arg_data_get_suppress_mult (main_arg_data st) = true /\
      suppresses (main_arg_data st) = [ShapeControlEntry (nstring_const "tag") false [KT_STRING (nstring_const "b")]]
  | _ => False
  end /\
  match ex_command with
  | (st, Ok mode) => args_ok (main_arg_data st) /\ known_unit_sets (main_statics st) /\
      files (main_arg_data st) <> [] /\ Forall c_string (files (main_arg_data st))
  | (_, Throw MStop) => illegal_mode ex_command_line \/ exists s, given ex_command_line s /\ overruns (fun _ => 0) (fun _ => nstring_init) s
  | (_, Throw (MRead _)) => False
  | (_, Throw _) => True
  end.
Proof.
  split; [vm_compute; by split_and!|].
  exact (main_init_well_formed (fun _ => 0) (fun _ => nstring_init) False (fun _ => None) (fun _ => true) ex_command_line
    (fun name data E => match E with end) (bool_decide_eq_true_1 (Forall c_string ex_command_line) eq_refl)).
Defined.
