(* ===== verification/TldLinker.v ===== *)
(** * TldLinker: the linker's front end

    Models tld/src/frontend/linker.c: the phases of the main mode of the
    program, from the arguments
    (adt/arg-data.c) to the writing of the output. [open_file] gives what can
    be read of a file that can be opened: a byte, or [None] where the device
    fails. The operations run in the monad of TldResolve, whose state has the
    tables of the linker and the index of the libraries; [Exit] is the exit of
    a phase after an error of libexds was reported, and [Fatal_error] the end
    of the program by one error too many. The opening of the output file is in
    TldProgram: the result is the writing into it. *)
From stdpp Require Import base list list_numbers numbers.
From Stdlib Require Import ZArith Lia String Ascii.
From S2P Require Import Prelude Codec ExdsString ExdsError TldNameKey TldIO HashTable TldNames TldShapes TldCapsule TldLibrary TldResolve TldArgs.

Section FrontEnds.
Variable junk : nat -> Z.
Variable junk_nstring : nat -> NStringT.
Variable open_file : list Z -> option (list (option Z)).

(** ** What the phases share *)

(** An operation on the index of the libraries, which is not given the units. *)
Definition in_libraries {A} (m : link A) : resolve A := fun st =>
  let l := rv_link st in
  let '(l', x) := m (Link (l_reader l) (l_statics l) (l_units l) (rv_lib_shapes st) (l_errors l)) in
  (Resolve (Link (l_reader l') (l_statics l') (l_units l) (l_shapes l) (l_errors l')) (l_shapes l')
     (rv_capsules st) (did_define st), x).

Definition add_lib_capsules (cs : list LibCapsuleT) : resolve unit := fun st =>
  (Resolve (rv_link st) (rv_lib_shapes st) (rv_capsules st ++ cs) (did_define st), Ok tt).

Fixpoint mapM_ {S E A} (f : A -> stM S E unit) (l : list A) : stM S E unit :=
  match l with
  | [] => mret tt
  | a :: l => _ ← f a; mapM_ f l
  end.

(** [shape_table_iter] with a procedure that changes the shape. *)
Definition shapes_update (f : ShapeEntryT -> option ShapeEntryT) (t : ShapeTableT) : option ShapeTableT :=
  '(t, _) ← shape_iter (fun s a => s ← f s; Some (s, a)) (shape_table_iter t) t tt;
  Some t.

Definition update_shapes (f : ShapeEntryT -> option ShapeEntryT) : link unit :=
  l ← st_get;
  t ← need (shapes_update f (l_shapes l));
  put_shapes t.

(** [name_table_iter] with a procedure that changes the name. *)
Definition update_names (entry : nat) (f : NameTableT -> nat -> option NameTableT) : link unit :=
  s ← get_shape entry;
  t ← need (iter_update f (se_names s));
  put_shape entry (set_names s t).

(** The name [key] of the shape [entry], and what is done with it. *)
Definition find_name (entry : nat) (key : NameKeyT) : link (option nat) :=
  s ← get_shape entry; need (name_table_get (se_names s) key).

Definition update_name (entry p : nat) (f : NameTableT -> nat -> option NameTableT) : link unit :=
  s ← get_shape entry;
  t ← need (f (se_names s) p);
  put_shape entry (set_names s t).

Definition open_stream (name : list Z) (data : list (option Z)) : link unit := fun l =>
  (Link (tdf_reader_open data name (u8 (junk 0))) (l_statics l) (l_units l) (l_shapes l) (l_errors l), Ok tt).

(** ** linker.c: renaming *)

Fixpoint rename_loop (names : list (NameKeyT * NameKeyT)) (table lib_table : NameTableT) : option (NameTableT * NameTableT) :=
  match names with
  | [] => Some (table, lib_table)
  | (from, to) :: names =>
      table ← name_table_add_rename junk table from to;
      lib_table ← name_table_add_rename junk lib_table from to;
      rename_loop names table lib_table
  end.

Definition linker_rename_1 (r : RenameControlEntryT) : resolve unit :=
  st ← st_get;
  let '(shapes, entry) := shape_table_add junk (l_shapes (rv_link st)) (rc_shape r) in
  let '(lib_shapes, lib_entry) := shape_table_add junk (rv_lib_shapes st) (rc_shape r) in
  _ ← in_link (put_shapes shapes);
  _ ← in_libraries (put_shapes lib_shapes);
  s ← in_link (get_shape entry);
  lib_s ← in_libraries (get_shape lib_entry);
  '(table, lib_table) ← in_link (need (rename_loop (rc_names r) (se_names s) (se_names lib_s)));
  '(table, cycles) ← in_link (need (name_table_resolve_renames table true));
  _ ← in_link (serious_times (List.length cycles));
  _ ← in_link (put_shape entry (set_names s table));
  '(lib_table, _) ← in_link (need (name_table_resolve_renames lib_table false));
  in_libraries (put_shape lib_entry (set_names lib_s lib_table)).

Definition linker_rename (arg_data : ArgDataT) : resolve unit :=
  _ ← mapM_ linker_rename_1 (renames arg_data);
  in_link exit_on_error.

(** ** linker.c: reading the capsules *)

Definition read_capsule_file (i : nat) (name : list Z) : link unit :=
  match open_file name with
  | Some data => _ ← open_stream name data; _ ← capsule_read junk junk_nstring i; mret tt
  | None => serious
  end.

Fixpoint read_capsule_files (i : nat) (names : list (list Z)) : link unit :=
  match names with
  | [] => mret tt
  | name :: names => _ ← read_capsule_file i name; read_capsule_files (S i) names
  end.

Definition linker_read_capsules (arg_data : ArgDataT) : resolve unit :=
  _ ← in_link (read_capsule_files 0 (files arg_data));
  in_link exit_on_error.

(** ** linker.c: loading the libraries *)

Definition tl_suffix : list Z := chars "tl".

(** The first of the directories that has the library, whose name comes with it. *)
Fixpoint find_library (paths : list (list Z)) (file : list Z) : option (list Z * list (option Z)) :=
  match paths with
  | [] => None
  | path :: paths =>
      let name := file_name_expand path file (Some tl_suffix) in
      match open_file name with
      | Some data => Some (name, data)
      | None => find_library paths file
      end
  end.

Definition open_library (paths : list (list Z)) (file : list Z) : option (list Z * list (option Z)) :=
  if file_name_is_basename file then find_library paths file
  else data ← open_file file; Some (file, data).

Definition read_library_file (file : list Z * list (option Z)) : resolve unit :=
  st ← st_get;
  _ ← in_libraries (open_stream file.1 file.2);
  library ← in_libraries (library_read junk junk_nstring file.1 (List.length (rv_capsules st)));
  add_lib_capsules (lib_capsules library).

Definition load_library (paths : list (list Z)) (file : list Z) : resolve unit :=
  match open_library paths file with
  | Some library => read_library_file library
  | None => in_link serious
  end.

Definition linker_load_libraries (arg_data : ArgDataT) : resolve unit :=
  _ ← mapM_ (load_library (library_paths arg_data)) (library_files arg_data);
  in_link exit_on_error.

(** ** linker.c: suppressing definitions of the libraries *)

Definition suppress_name (entry : nat) (key : NameKeyT) : link unit :=
  o ← find_name entry key;
  match o with
  | Some p => update_name entry p (fun t p => name_entry_set_lib_definition t p None)
  | None => mret tt
  end.

Definition linker_suppress_1 (c : ShapeControlEntryT) : link unit :=
  l ← st_get;
  match shape_table_get (l_shapes l) (sc_shape c) with
  | None => mret tt
  | Some entry =>
      _ ← (if sc_all c then update_names entry name_entry_suppress else mret tt);
      mapM_ (suppress_name entry) (sc_names c)
  end.

Definition linker_suppress (arg_data : ArgDataT) : resolve unit :=
  _ ← in_libraries (if arg_data_get_suppress_mult arg_data then update_shapes shape_entry_lib_suppress_mult else mret tt);
  _ ← in_libraries (mapM_ linker_suppress_1 (suppresses arg_data));
  in_link exit_on_error.

(** ** linker.c: hiding and keeping *)

Definition hide_name (entry : nat) (key : NameKeyT) : link unit :=
  o ← find_name entry key;
  match o with
  | None => serious
  | Some p =>
      s ← get_shape entry;
      use ← need (name_entry_get_use (se_names s) p);
      if has use U_DEFD then update_name entry p name_entry_hide else serious
  end.

Definition linker_hide (c : ShapeControlEntryT) : link unit :=
  l ← st_get;
  match shape_table_get (l_shapes l) (sc_shape c) with
  | None => serious
  | Some entry =>
      _ ← (if sc_all c then update_names entry name_entry_hide_defd else mret tt);
      mapM_ (hide_name entry) (sc_names c)
  end.

Definition keep_name (entry : nat) (key : NameKeyT) : link unit :=
  o ← find_name entry key;
  match o with
  | None => serious
  | Some p => update_name entry p name_entry_unhide
  end.

Definition linker_keep (c : ShapeControlEntryT) : link unit :=
  l ← st_get;
  match shape_table_get (l_shapes l) (sc_shape c) with
  | None => serious
  | Some entry =>
      _ ← (if sc_all c then update_names entry name_entry_keep else mret tt);
      mapM_ (keep_name entry) (sc_names c)
  end.

Definition linker_hide_and_keep (arg_data : ArgDataT) : resolve unit :=
  _ ← in_link (if arg_data_get_all_hide_defd arg_data then update_shapes shape_entry_hide_all_defd else mret tt);
  _ ← in_link (mapM_ linker_hide (hides arg_data));
  _ ← in_link (mapM_ linker_keep (keeps arg_data));
  in_link exit_on_error.

(** ** linker.c: the whole *)

Definition linker_write_capsule : resolve (writer unit) :=
  st ← st_get;
  let l := rv_link st in
  '(shapes, m) ← in_link (need (capsule_write (l_statics l) (l_units l) (l_shapes l)));
  _ ← in_link (put_shapes shapes);
  mret m.

(** The tables [linker_main] creates; there is no reader yet. [g]: the static
    variables of capsule.c, whose unit sets may come from a file; [reports]:
    those of the files error.c, which reading the arguments may have changed. *)
Definition linker_start (g : StaticsT) (reports : ReportsT) : ResolveT :=
  Resolve (Link (tdf_reader_open [] [] 0) g unit_table_create shape_table_create reports)
    shape_table_create [] false.

(** What comes before the output. *)
Definition linker_link (fuel : nat) (arg_data : ArgDataT) : runM ResolveT capsule_exn unit :=
  _ ← lift (linker_rename arg_data);
  _ ← lift (linker_read_capsules arg_data);
  _ ← lift (linker_load_libraries arg_data);
  _ ← lift (linker_suppress arg_data);
  _ ← linker_resolve_undefined junk junk_nstring (List.length (files arg_data)) fuel;
  lift (linker_hide_and_keep arg_data).

Definition linker_main (fuel : nat) (arg_data : ArgDataT) : runM ResolveT capsule_exn (writer unit) :=
  _ ← linker_link fuel arg_data;
  lift linker_write_capsule.
End FrontEnds.
