(* ===== verification/TldBuilder.v ===== *)
(** * TldBuilder: the building of libraries

    Models tld/src/frontend/builder.c: the mode of the program that puts the
    capsules of files and of other libraries into one library, with an index
    of the names they define. The capsules are numbered in the order in which
    they are read; the number of a capsule is its place in the library, and
    what the names it defines point to. What is in memory that the program has
    not written is not modelled: its use is [Stop]. The opening of
    the output file is in TldProgram. *)
From stdpp Require Import base list list_numbers numbers.
From Stdlib Require Import ZArith Lia.
From S2P Require Import Prelude Codec ExdsString ExdsError TldNameKey TldIO HashTable TldNames TldShapes TldCapsule TldLibrary TldResolve TldArgs TldLinker.

(** The capsule of an input: its name, and its contents once they are stored,
    which they are when it was read to its end. *)
Record CapsuleT := Capsule { c_name : list Z; c_contents : option NStringT }.

Definition capsule_name (c : CapsuleT) : list Z := c_name c.

(** [streq]: the characters up to the terminator. *)
Definition streq (s s' : list Z) : bool := bool_decide (c_chars s = c_chars s').

Section Builder.
Variable junk : nat -> Z.
Variable junk_nstring : nat -> NStringT.
Variable open_file : list Z -> option (list (option Z)).

(** ** Reading *)

(** An operation on shapes of its own, which are deallocated after it; it is
    not given the units. *)
Definition with_own_shapes {A} (m : link A) : link A := fun l =>
  match m (Link (l_reader l) (l_statics l) (l_units l) shape_table_create (l_errors l)) with
  | (l', Ok a) => (Link (l_reader l') (l_statics l') (l_units l) (l_shapes l) (l_errors l'), Ok a)
  | (l', Throw e) => (l', Throw e)
  end.

(** A library and what it adds to the number of capsules. The version of a
    library that fails before its capsules are read is 0: the number of its
    capsules, or those capsules, were not written. *)
Definition builder_read_library (file : list Z) : link (option LibraryT) :=
  match open_file file with
  | None => _ ← serious; mret None
  | Some data =>
      _ ← open_stream junk file data;
      library ← with_own_shapes (library_read junk junk_nstring file 0);
      _ ← rd tdf_reader_close;
      if lib_major library =? 0 then st_throw Stop else mret (Some library)
  end.

Fixpoint builder_read_libraries (files : list (list Z)) : link (list (option LibraryT) * nat) :=
  match files with
  | [] => mret ([], O)
  | file :: files =>
      library ← builder_read_library file;
      '(libraries, n) ← builder_read_libraries files;
      mret (library :: libraries, (from_option num_capsules O library + n)%nat)
  end.

(** The names of the capsules read before are compared with [name]. *)
Fixpoint check_capsule_names (name : list Z) (capsules : list CapsuleT) : link unit :=
  match capsules with
  | [] => mret tt
  | c :: capsules =>
      _ ← (if streq name (capsule_name c) then serious else mret tt);
      check_capsule_names name capsules
  end.

(** The reader is open; the capsule is the next one of [capsules]. *)
Definition builder_read_capsule (name : list Z) (capsules : list CapsuleT) : link (list CapsuleT) :=
  _ ← check_capsule_names name capsules;
  complete ← capsule_read junk junk_nstring (length capsules);
  contents ← (if (complete : bool) then n ← rd (capsule_store_contents junk); mret (Some n) else mret None);
  _ ← rd tdf_reader_close;
  mret (capsules ++ [Capsule name contents]).

Fixpoint read_lib_capsules (lib_capsules : list LibCapsuleT) (capsules : list CapsuleT) : link (list CapsuleT) :=
  match lib_capsules with
  | [] => mret capsules
  | c :: lib_capsules =>
      _ ← open_string (lib_capsule_name c) (lib_capsule_contents c) (u8 (junk 0));
      capsules ← builder_read_capsule (lib_capsule_name c) capsules;
      read_lib_capsules lib_capsules capsules
  end.

Fixpoint read_libraries (libraries : list (option LibraryT)) (capsules : list CapsuleT) : link (list CapsuleT) :=
  match libraries with
  | [] => mret capsules
  | None :: libraries => read_libraries libraries capsules
  | Some library :: libraries =>
      capsules ← read_lib_capsules (lib_capsules library) capsules;
      read_libraries libraries capsules
  end.

Fixpoint read_input_files (files : list (list Z)) (capsules : list CapsuleT) : link (list CapsuleT) :=
  match files with
  | [] => mret capsules
  | file :: files =>
      capsules ← match open_file file with
                 | Some data => _ ← open_stream junk file data; builder_read_capsule file capsules
                 | None => _ ← serious; mret capsules
                 end;
      read_input_files files capsules
  end.

(** The capsules, and the length of the vector they are in. *)
Definition builder_read_capsules (arg_data : ArgDataT) : link (list CapsuleT * nat) :=
  '(libraries, n) ← builder_read_libraries (library_files arg_data);
  capsules ← read_libraries libraries [];
  capsules ← read_input_files (files arg_data) capsules;
  _ ← exit_on_error;
  mret (capsules, (n + length (files arg_data))%nat).

(** ** Checking and suppressing *)

(** [shape_table_iter] with [shape_entry_check_multi_defs]. *)
Fixpoint check_multi_defs_loop (ps : list nat) : link unit :=
  match ps with
  | [] => mret tt
  | p :: ps =>
      s ← get_shape p;
      errors ← need (shape_entry_check_multi_defs s);
      _ ← serious_times (length errors);
      check_multi_defs_loop ps
  end.

Definition builder_check_multi_defs : link unit :=
  l ← st_get;
  _ ← check_multi_defs_loop (shape_table_iter (l_shapes l));
  exit_on_error.

Definition builder_suppress_name (entry : nat) (key : NameKeyT) : link unit :=
  o ← find_name entry key;
  match o with
  | Some p => update_name entry p (fun t p => name_entry_set_definition t p None)
  | None => mret tt
  end.

Definition builder_suppress_1 (c : ShapeControlEntryT) : link unit :=
  l ← st_get;
  match shape_table_get (l_shapes l) (sc_shape c) with
  | None => mret tt
  | Some entry =>
      _ ← (if sc_all c then update_names entry name_entry_builder_suppress else mret tt);
      mapM_ (builder_suppress_name entry) (sc_names c)
  end.

Definition builder_suppress (arg_data : ArgDataT) : link unit :=
  _ ← (if arg_data_get_suppress_mult arg_data then update_shapes shape_entry_suppress_mult else mret tt);
  _ ← mapM_ builder_suppress_1 (suppresses arg_data);
  exit_on_error.

(** ** Writing *)

(** The capsules to be written; [None] where one of them, or its contents,
    was not written into the vector of [num_capsules]. *)
Definition stored_capsules (num_capsules : nat) (capsules : list CapsuleT) : option (list (list Z * NStringT)) :=
  if (length capsules <? num_capsules)%nat then None
  else mapM (fun c => n ← c_contents c; Some (c_chars (c_name c), n)) capsules.

Definition builder_write_library (num_capsules : nat) (capsules : list CapsuleT) : link (writer unit) :=
  l ← st_get;
  cs ← need (stored_capsules num_capsules capsules);
  '(shapes, m) ← need (library_write junk (l_statics l) (l_shapes l) cs Z.of_nat);
  _ ← put_shapes shapes;
  mret m.

(** The tables [builder_main] creates. [g]: the static variables of
    capsule.c; [reports]: those of the files error.c. *)
Definition builder_start (g : StaticsT) (reports : ReportsT) : LinkT :=
  Link (tdf_reader_open [] [] 0) g unit_table_create shape_table_create reports.

(** What comes before the output. *)
Definition builder_build (arg_data : ArgDataT) : link (list CapsuleT * nat) :=
  x ← builder_read_capsules arg_data;
  _ ← builder_check_multi_defs;
  _ ← builder_suppress arg_data;
  mret x.

Definition builder_main (arg_data : ArgDataT) : link (writer unit) :=
  '(capsules, num_capsules) ← builder_build arg_data;
  builder_write_library num_capsules capsules.
End Builder.
