(* ===== verification/TldExtract.v ===== *)
(** * TldExtract: the extraction of capsules from a library

    Models tld/src/frontend/extract.c, the operations of tld/src/adt/library.c
    it calls ([library_extract], [library_extract_all]) and
    [file_name_populate] of tld/src/file-name.c. The state has, beside what is
    read, the directories the program asks for, in order, and the files it has
    written. [open_file] gives what can be read of a file, [can_write] says
    which files can be opened for writing, and [device] what they are on. A fatal error ends the program: [Fatal_error]. *)
From stdpp Require Import base list list_numbers numbers gmap.
From Stdlib Require Import ZArith Lia.
From S2P Require Import Prelude Codec ExdsString CStdio ExdsError TldNameKey TldIO HashTable TldNames TldShapes TldCapsule TldLibrary TldResolve TldArgs TldLinker TldBuilder.

Record ExtractT := Extract {
  ex_link : LinkT;
  ex_dirs : list (list Z);
  ex_written : gmap (list Z) (list Z)
}.

Definition extract := stM ExtractT capsule_exn.

Definition ex_in_link {A} (m : link A) : extract A := fun st =>
  let '(l, x) := m (ex_link st) in (Extract l (ex_dirs st) (ex_written st), x).

(** [error(ERR_FATAL, ...)]. *)
Definition fatal {A} : extract A := st_throw Fatal_error.

(** ** file-name.c *)

Definition mkdir (path : list Z) : extract unit := fun st =>
  (Extract (ex_link st) (ex_dirs st ++ [path]) (ex_written st), Ok tt).

(** What precedes each separator; whether a directory is made is not asked. *)
Fixpoint populate_loop (before path : list Z) : extract unit :=
  match path with
  | [] => mret tt
  | c :: path => _ ← (if c =? ch_slash then mkdir before else mret tt); populate_loop (before ++ [c]) path
  end.

Definition file_name_populate (path : list Z) : extract unit := populate_loop [] path.

(** ** library.c *)

Section Extract.
Variable junk : nat -> Z.
Variable junk_nstring : nat -> NStringT.
Variable open_file : list Z -> option (list (option Z)).
Variable can_write : list Z -> bool.
Variable device : list Z -> DeviceT.

(** The file [name], from its opening to its closing, or to the end of the
    program: what is in it. *)
Definition file_written (name : list Z) (m : writer unit) : list Z * result exn unit :=
  let '(w, x) := (_ ← m; tdf_writer_close) (tdf_writer_open (device name) name (u8 (junk 0))) in
  (at_exit (bo_file (w_bostream w)), x).

Definition write_file (name : list Z) (m : writer unit) : extract unit := fun st =>
  let '(bytes, x) := file_written name m in
  (Extract (ex_link st) (ex_dirs st) (<[name := bytes]> (ex_written st)), match x with Ok u => Ok u | Throw e => Throw (XX_tdf e) end).

Definition library_extract_1 (use_basename : bool) (capsule : LibCapsuleT) : extract unit :=
  let old_name := c_chars (lib_capsule_name capsule) in
  let name := if use_basename then file_name_basename old_name else old_name in
  _ ← file_name_populate name;
  if can_write name then write_file name (tdf_write_bytes (lib_capsule_contents capsule)) else fatal.

(** The reading both start with, into shapes of their own. *)
Definition read_library (file : list Z) : extract LibraryT :=
  ex_in_link (_ ← put_shapes shape_table_create; library_read junk junk_nstring file 0).

Definition library_extract_all (file : list Z) (use_basename : bool) : extract unit :=
  library ← read_library file;
  if lib_complete library then mapM_ (library_extract_1 use_basename) (lib_capsules library) else mret tt.

Definition extract_matches (match_basename : bool) (file_name : list Z) (capsule : LibCapsuleT) : bool :=
  let lib_name := c_chars (lib_capsule_name capsule) in
  streq file_name lib_name || match_basename && streq file_name (file_name_basename lib_name).

(** The capsules of one name; whether there is one. *)
Fixpoint extract_capsules (use_basename match_basename : bool) (file_name : list Z) (capsules : list LibCapsuleT) (matched : bool) : extract bool :=
  match capsules with
  | [] => mret matched
  | capsule :: capsules =>
      if extract_matches match_basename file_name capsule then
        _ ← library_extract_1 use_basename capsule;
        extract_capsules use_basename match_basename file_name capsules true
      else extract_capsules use_basename match_basename file_name capsules matched
  end.

Definition library_extract (file : list Z) (use_basename match_basename : bool) (files : list (list Z)) : extract unit :=
  library ← read_library file;
  if lib_complete library then
    mapM_ (fun name =>
      matched ← extract_capsules use_basename match_basename name (lib_capsules library) false;
      if (matched : bool) then mret tt else ex_in_link serious) files
  else mret tt.

(** ** extract.c *)

(** Without arguments, which the command line rules out, the program would
    read past their end. *)
Definition extract_main (arg_data : ArgDataT) : extract unit :=
  let all := arg_data_get_extract_all arg_data in
  let use_basename := arg_data_get_extract_basename arg_data in
  let match_basename := arg_data_get_extract_match_base arg_data in
  _ ← (if all && (1 <? length (files arg_data))%nat then fatal
       else if negb all && (length (files arg_data) =? 1)%nat then fatal
       else mret tt);
  match files arg_data with
  | [] => st_throw Stop
  | file :: names =>
      _ ← match open_file file with
          | Some data =>
              _ ← ex_in_link (open_stream junk file data);
              _ ← (if all then library_extract_all file use_basename
                   else library_extract file use_basename match_basename names);
              ex_in_link (rd tdf_reader_close)
          | None => ex_in_link serious
          end;
      ex_in_link exit_on_error
  end.

Definition extract_start (g : StaticsT) (reports : ReportsT) : ExtractT := Extract (builder_start g reports) [] ∅.
End Extract.
