(* ===== verification/TldContents.v ===== *)
(** * TldContents: the contents of a library

    Models tld/src/frontend/contents.c, [library_content] of
    tld/src/adt/library.c, and what it calls to print: in shape-entry.c and
    name-entry.c [..._show_content], and [write_usage] of tdf.c. The state has,
    beside what is read, the standard output. *)
From stdpp Require Import base list list_numbers numbers.
From Stdlib Require Import ZArith Lia String.
From S2P Require Import Prelude Codec ExdsString CStdio ExdsError TldNameKey TldIO HashTable TldNames TldShapes TldCapsule TldLibrary TldResolve TldArgs TldLinker TldBuilder.
From S2P Require Import ExdsOStream.

Inductive contents_exn := CX_link (e : capsule_exn) | CX_output (e : ostream_exn).

Record ContentsT := Contents { co_link : LinkT; co_out : OStreamT }.

Definition contents := stM ContentsT contents_exn.

Definition co_in_link {A} (m : link A) : contents A := fun st =>
  let '(l, x) := m (co_link st) in
  (Contents l (co_out st), match x with Ok a => Ok a | Throw e => Throw (CX_link e) end).

Definition out (m : ostream unit) : contents unit := fun st =>
  let '(o, x) := m (co_out st) in
  (Contents (co_link st) o, match x with Ok a => Ok a | Throw e => Throw (CX_output e) end).

Definition co_need {A} (o : option A) : contents A := co_in_link (need o).

(** ** tdf.c *)

Definition ch_quote : Z := 39.

(** [sep]: what precedes a further word. *)
Definition write_usage (use : Z) : ostream unit :=
  let sep := chars "" in
  _ ← write_char 123;
  sep ← (if has use U_DEFD then _ ← write_cstring (chars "DEFD"); mret (chars ", ") else mret sep);
  sep ← (if has use U_MULT then _ ← write_cstring sep; _ ← write_cstring (chars "MULT"); mret (chars ", ") else mret sep);
  sep ← (if has use U_DECD then _ ← write_cstring sep; _ ← write_cstring (chars "DECD"); mret (chars ", ") else mret sep);
  _ ← (if has use U_USED then _ ← write_cstring sep; write_cstring (chars "USED") else mret tt);
  write_char 125.

(** ** name-entry.c and shape-entry.c *)

(** The name of the capsule is that of a null pointer for a name of the index
    that no capsule defines. *)
Definition name_entry_show_content (capsules : list LibCapsuleT) (t : NameTableT) (p : nat) : contents unit :=
  definition ← co_need (lib_definition <$> get_direct t p);
  _ ← out (write_cstring (chars "  "));
  key ← co_need (name_entry_key t p);
  _ ← out (write_chars (write_name_key key));
  _ ← out (write_char 32);
  use ← co_need (name_entry_get_use t p);
  _ ← out (write_usage use);
  _ ← out (write_cstring (chars " '"));
  capsule ← co_need (c ← definition; capsules !! c);
  _ ← out (write_cstring (c_chars (lib_capsule_name capsule)));
  _ ← out (write_char ch_quote);
  out write_newline.

Definition shape_entry_show_content (capsules : list LibCapsuleT) (s : ShapeEntryT) : contents unit :=
  _ ← out (write_nstring (se_key s));
  _ ← out (write_char 58);
  _ ← out write_newline;
  mapM_ (name_entry_show_content capsules (se_names s)) (name_table_iter (se_names s)).

(** ** library.c *)

Definition show_version (library : LibraryT) : contents unit :=
  _ ← out (write_char 91);
  _ ← out (write_unsigned (lib_major library));
  _ ← out (write_cstring (chars ", "));
  _ ← out (write_unsigned (lib_minor library));
  _ ← out (write_char 93);
  out write_newline.

Definition show_capsule (want_size : bool) (capsule : LibCapsuleT) : contents unit :=
  _ ← out (write_cstring (c_chars (lib_capsule_name capsule)));
  _ ← (if want_size then
         let body := lib_capsule_contents capsule in
         _ ← out (write_cstring (chars " ("));
         _ ← out (write_unsigned (u32 (Z.of_nat (nstring_length body))));
         out (write_char 41)
       else mret tt);
  out write_newline.

Section Contents.
Variable junk : nat -> Z.
Variable junk_nstring : nat -> NStringT.
Variable open_file : list Z -> option (list (option Z)).

Definition library_content (file : list Z) (want_index want_size want_version : bool) : contents unit :=
  library ← co_in_link (_ ← put_shapes shape_table_create; library_read junk junk_nstring file 0);
  st ← st_get;
  let shapes := l_shapes (co_link st) in
  if lib_complete library then
    _ ← (if want_version then show_version library else mret tt);
    _ ← mapM_ (show_capsule want_size) (lib_capsules library);
    if want_index then
      mapM_ (fun p => s ← co_need (st_entries shapes !! p); shape_entry_show_content (lib_capsules library) s) (shape_table_iter shapes)
    else mret tt
  else mret tt.

(** ** contents.c *)

Definition contents_main (arg_data : ArgDataT) : contents unit :=
  let content_index := arg_data_get_content_index arg_data in
  let content_size := arg_data_get_content_size arg_data in
  let content_version := arg_data_get_content_version arg_data in
  match files arg_data with
  | [file] =>
      _ ← match open_file file with
          | Some data =>
              _ ← co_in_link (open_stream junk file data);
              _ ← library_content file content_index content_size content_version;
              co_in_link (rd tdf_reader_close)
          | None => co_in_link serious
          end;
      co_in_link exit_on_error
  | _ => co_in_link (st_throw Fatal_error)
  end.

(** [device]: what the standard output is on. *)
Definition contents_start (g : StaticsT) (reports : ReportsT) (device : DeviceT) : ContentsT :=
  Contents (builder_start g reports) (ostream_setup device).
End Contents.
