(* ===== verification/TldProgram.v ===== *)
(** * TldProgram: the program

    Models [main] of tld/src/main.c: the command line, the front end of the
    mode, the exception handler and the status the program exits with; and the
    opening of the file that the builder and the linker write. What is written
    to a file that cannot be written to its end is in [e_files] too; when the
    program crashes, what is in the file it was writing is not modelled. The
    diagnostic messages and the debug file are not modelled. *)
From Stdlib Require Import ZArith Lia String.
From stdpp Require Import base list list_numbers numbers gmap.
From S2P Require Import Prelude Codec ExdsString CStdio ExdsError TldNameKey TldIO HashTable TldNames TldShapes TldCapsule TldLibrary TldResolve TldArgs TldMain TldLinker TldBuilder TldExtract.
From S2P Require Import ExdsOStream TldContents.

(** [Uncaught]: no handler takes the exception; [Crashed]: an assertion fails,
    or memory is used that may not be used. *)
Inductive StatusT := EXIT_SUCCESS | EXIT_FAILURE | Uncaught | Crashed.

(** [e_reported]: a serious or fatal error was reported; [e_link] and
    [e_libs]: the tables at the end, once there are any; [e_dirs], [e_files]
    and [e_output]: the directories that were asked for, the files, and what is
    on the standard output, which the program neither flushes nor closes. *)
Record EndT := End {
  e_status : StatusT;
  e_reported : bool;
  e_link : option LinkT;
  e_libs : ShapeTableT;
  e_dirs : list (list Z);
  e_files : gmap (list Z) (list Z);
  e_output : list Z
}.

(** The handler of [main] and the messages it ends with. [Exit] has had its
    message. *)
Definition handler (e : capsule_exn) : StatusT * bool :=
  match e with
  | XX_tdf (XX_bistream_read_error _) | XX_tdf (XX_bostream_write_error _) => (EXIT_FAILURE, true)
  | Exit => (EXIT_FAILURE, false)
  | Fatal_error => (EXIT_FAILURE, true)
  | Stop => (Crashed, false)
  | XX_tdf XX_tdf_read_error | XX_capsule_error | XX_library_error => (Uncaught, false)
  end.

(** The check of the front ends for errors when they are done, and the end of
    [main]. *)
Definition final_status (l : LinkT) : StatusT :=
  if severity_ge (error_max_reported_severity (severities (l_errors l))) ERROR_SEVERITY_ERROR then EXIT_FAILURE else EXIT_SUCCESS.

Definition status_of {A} (x : result capsule_exn A) : StatusT * bool :=
  match x with Ok _ => (EXIT_SUCCESS, false) | Throw e => handler e end.

Section Program.
Variable junk : nat -> Z.
Variable junk_nstring : nat -> NStringT.
Variable open_file : list Z -> option (list (option Z)).
Variable can_write : list Z -> bool.
Variable device : list Z -> DeviceT.
Variable stdout_device : DeviceT.

Definition program_end (s : StatusT * bool) (l : LinkT) (libs : ShapeTableT) (dirs : list (list Z)) (written : gmap (list Z) (list Z)) (output : list Z) : EndT :=
  End s.1 (l_serious l || s.2) (Some l) libs dirs written output.

(** [linker_write_capsule] and [builder_write_library] from the opening of the
    output: [write] is what they write. *)
Definition to_output (arg_data : ArgDataT) (write : LinkT * result capsule_exn (writer unit)) (l : LinkT) (libs : ShapeTableT) : EndT :=
  let name := arg_data_get_output_file arg_data in
  if can_write name then
    match write with
    | (l, Ok m) =>
        match file_written junk device name m with
        | (bytes, Ok _) => program_end (final_status l, false) l libs [] {[name := bytes]} []
        | (bytes, Throw e) => program_end (handler (XX_tdf e)) l libs [] {[name := bytes]} []
        end
    | (l, Throw e) => program_end (handler e) l libs [] ∅ []
    end
  else program_end (EXIT_FAILURE, true) l libs [] ∅ [].

Definition run_builder (st : MainT) : EndT :=
  let args := main_arg_data st in
  match builder_build junk junk_nstring open_file args (builder_start (main_statics st) (main_reports st)) with
  | (l, Ok (capsules, num_capsules)) => to_output args (builder_write_library junk num_capsules capsules l) l shape_table_create
  | (l, Throw e) => program_end (handler e) l shape_table_create [] ∅ []
  end.

Definition run_linker (fuel : nat) (st : MainT) : option EndT :=
  let args := main_arg_data st in
  match linker_link junk junk_nstring open_file fuel args (linker_start (main_statics st) (main_reports st)) with
  | Some (rv, Ok _) =>
      let '(rv', x) := linker_write_capsule rv in
      Some (to_output args (rv_link rv', x) (rv_link rv) (rv_lib_shapes rv))
  | Some (rv, Throw e) => Some (program_end (handler e) (rv_link rv) (rv_lib_shapes rv) [] ∅ [])
  | None => None
  end.

Definition run_extract (st : MainT) : EndT :=
  let '(ex, x) := extract_main junk junk_nstring open_file can_write device (main_arg_data st) (extract_start (main_statics st) (main_reports st)) in
  program_end (status_of x) (ex_link ex) shape_table_create (ex_dirs ex) (ex_written ex) [].

(** What is on the standard output, which is closed by [exit] only. *)
Definition stdout_end (s : StatusT) (f : FileT) : list Z :=
  match s with EXIT_SUCCESS | EXIT_FAILURE => at_exit f | Uncaught | Crashed => on_device f end.

Definition contents_status (x : result contents_exn unit) : StatusT * bool :=
  match x with
  | Ok _ => (EXIT_SUCCESS, false)
  | Throw (CX_link e) => handler e
  | Throw (CX_output (XX_ostream_write_error _)) => (EXIT_FAILURE, true)
  end.

Definition run_contents (st : MainT) : EndT :=
  let '(co, x) := contents_main junk junk_nstring open_file (main_arg_data st) (contents_start (main_statics st) (main_reports st) stdout_device) in
  let s := contents_status x in
  program_end s (co_link co) shape_table_create [] ∅ (stdout_end s.1 (os_file (co_out co))).

(** The end within [main_init]. *)
Definition init_end (st : MainT) (e : main_exn) : EndT :=
  let ended s fatal := End s (any_error (main_reports st) || fatal) None shape_table_create [] ∅ [] in
  match e with
  | MExit => ended EXIT_SUCCESS false
  | MFatal | MRead _ => ended EXIT_FAILURE true
  | MStop => ended Crashed false
  end.

(** [argv]: the arguments after the name of the program. *)
Definition main (fuel : nat) (argv : list (list Z)) : option EndT :=
  match main_init junk junk_nstring open_file can_write argv main_start with
  | (st, Ok MODE_BUILDER) => Some (run_builder st)
  | (st, Ok MODE_CONTENTS) => Some (run_contents st)
  | (st, Ok MODE_EXTRACT) => Some (run_extract st)
  | (st, Ok MODE_LINKER) => run_linker fuel st
  | (st, Throw e) => Some (init_end st e)
  end.
End Program.
