(* ===== verification/TldLibrarySafe.v ===== *)
(** * TldLibrarySafe: reading any input as a library

    The counterpart of TldSafeRead for [library_read]
    (tld/src/adt/library.c): whatever bytes a file holds, reading it as a
    library keeps the invariant of the index of the libraries; every
    definition of the index is a capsule that has been read. *)
From stdpp Require Import base list list_numbers numbers.
From Stdlib Require Import ZArith Lia.
From S2P Require Import Prelude Codec ExdsString ExdsError TldNameKey TldIO TldIOSpec HashTable TldNames.
From S2P Require Import TldRename TldNameTable TldShapes TldShapesSpec TldCapsule TldCapsuleSpec TldUsage TldRead TldReadUnits TldLibrary TldResolve.
From S2P Require Import TldSafeState TldSafeRead.

(** What the linker needs of a capsule of a library to read it. *)
Definition lib_capsule_ok (c : LibCapsuleT) : Prop := ok_nstring (lc_contents c) /\ Forall is_byte (lc_name c).

(** ** More capsules *)

Lemma library_shape_le n m s : (n <= m)%nat -> safe_shape (library_tables n) s -> safe_shape (library_tables m) s.
Proof. intros Hn [H1 H2 H3 H4]. constructor; auto. intros p d E c Ec. specialize (H4 p d E c Ec). lia. Qed.

Lemma library_shapes_le n m t : (n <= m)%nat -> safe_shapes (library_tables n) t -> safe_shapes (library_tables m) t.
Proof. intros Hn [H1 H2]. constructor; [exact H1|]. intros p s E. eapply library_shape_le; eauto. Qed.

Section Bound.
Variable device : Prop.
Variable ps : list nat.
Variable tld : nat.
Variable tld2 : option nat.

Lemma library_statics n m g : safe_statics (library_tables n) ps tld tld2 g -> safe_statics (library_tables m) ps tld tld2 g.
Proof. intros [H1 H2 _ _ _]. by constructor. Qed.

Lemma library_link_le n m c l :
  (n <= m)%nat -> safe_link (library_tables n) device ps tld tld2 c l -> safe_link (library_tables m) device ps tld tld2 c l.
Proof.
  intros Hn [H1 H2 H3 _ Hq]. constructor; [exact H1|by eapply library_statics|by eapply library_shapes_le|intros []|exact Hq].
Qed.
End Bound.

(** ** Usages *)

Lemma merge_lib_usage_set capsule t p u d :
  get_direct t p = Some d -> (has (use d) U_DEFD = true -> lib_definition d <> None) ->
  exists t' again d', merge_lib_usage capsule t p u = Some (t', again) /\ direct_set p d' t t' /\ id d' = id d /\
    (has (use d') U_DEFD = true -> lib_definition d' <> None) /\
    (lib_definition d' = lib_definition d \/ lib_definition d' = None \/ lib_definition d' = Some capsule).
Proof.
  intros E Hdef. unfold merge_lib_usage, name_entry_get_use. rewrite E. cbn [fmap option_fmap option_map mbind option_bind].
  set (act := usage_of u (get_use d)).
  assert (exists t0 d0 (again : bool),
    match act with
    | Redefined => _ ← lib_definition d; Some (t, true)
    | Forget => t ← name_entry_set_lib_definition t p None; Some (t, false)
    | Define => t ← name_entry_set_lib_definition t p (Some capsule); Some (t, false)
    | Nothing => Some (t, false)
    end = Some (t0, again) /\ direct_set p d0 t t0 /\ id d0 = id d /\ use d0 = use d /\
    (has (Z.lor (use d) u) U_DEFD = true -> lib_definition d0 <> None) /\
    (lib_definition d0 = lib_definition d \/ lib_definition d0 = None \/ lib_definition d0 = Some capsule))
    as (t0 & d0 & again & -> & H0 & Ei & Eu & Hd & Hb).
  { assert (direct_set p d t t) as Hrefl.
    { split_and!; auto. intros q. case_decide; [subst; by apply get_direct_type|reflexivity]. }
    unfold act, usage_of. rewrite has_two, !get_use_has by (unfold U_DEFD, U_MULT; lia). rewrite has_lor.
    unfold name_entry_set_lib_definition.
    destruct (has u U_DEFD) eqn:Hu; destruct (has (use d) U_DEFD) eqn:Hd; cbn [andb orb negb];
      rewrite ?andb_false_r, ?orb_true_r, ?orb_false_r; cbn [andb orb negb].
    - destruct (lib_definition d) as [c|] eqn:Ec; [|by destruct (Hdef eq_refl)]. cbn [mbind option_bind].
      exists t, d, true. split_and!; auto; congruence.
    - destruct (update_direct_set t p (fun d => Direct (id d) (use d) (definition d) (Some capsule)) d E) as (t1 & -> & H1).
      eexists t1, _, false. split; [reflexivity|]. split; [exact H1|]. by split_and!; auto.
    - exists t, d, false. rewrite ?andb_false_r. cbn [mbind option_bind]. split_and!; auto.
    - destruct (has u U_MULT), (has (use d) U_MULT); cbn [andb negb].
      1: destruct (update_direct_set t p (fun d => Direct (id d) (use d) (definition d) None) d E) as (t1 & -> & H1).
      2: destruct (update_direct_set t p (fun d => Direct (id d) (use d) (definition d) (Some capsule)) d E) as (t1 & -> & H1).
      1,2: eexists t1, _, false; split; [reflexivity|]; split; [exact H1|]; by split_and!; auto.
      all: exists t, d, false; split_and!; auto. }
  cbn [mbind option_bind]. unfold name_entry_merge_use.
  destruct (update_direct_set t0 p (set_use (fun v => Z.lor v u)) d0) as (t1 & -> & H1).
  { rewrite (direct_set_get _ _ _ _ _ H0), decide_True by reflexivity. reflexivity. }
  eexists _, again, _. split; [reflexivity|]. split; [by eapply direct_set_trans|]. cbn. rewrite Eu. auto.
Qed.

Lemma merge_lib_usage_safe n capsule s p u :
  safe_shape (library_tables n) s -> get_direct (se_names s) p <> None -> (capsule < n)%nat ->
  exists t again, merge_lib_usage capsule (se_names s) p u = Some (t, again) /\
    safe_shape (library_tables n) (set_names s t) /\ later_shape s (set_names s t).
Proof.
  intros Hs Hp Hc. destruct (get_direct (se_names s) p) as [d|] eqn:Ed; [|congruence].
  destruct (merge_lib_usage_set capsule (se_names s) p u d Ed (proj2 (ss_good _ _ Hs) p d Ed)) as (t & again & d' & Em & Hset & Eid & Hd' & Hb).
  exists t, again. split; [exact Em|]. apply (direct_set_safe (library_tables n) s p d d'); auto. intros c Ec.
  destruct Hb as [Hb|[Hb|Hb]]; rewrite Hb in Ec; [by apply (ss_legal _ _ Hs p d Ed)|discriminate|]. by injection Ec as <-.
Qed.

(** ** The operations of the reader *)

Section LibraryRead.
Variable junk : nat -> Z.
Variable junk_nstring : nat -> NStringT.
Variable device : Prop.
Variable ps : list nat.
Variable tld : nat.
Variable tld2 : option nat.
Variable n : nat.

Abbreviation lsafe := (lsafe (library_tables n) device ps tld tld2).
Abbreviation safe_link := (safe_link (library_tables n) device ps tld tld2).

Lemma lib_fail_safe {A} c l c' (Q : A -> LinkT -> Prop) : lsafe c l lib_fail c' Q.
Proof. apply serious_throw. by intros l' _ []. Qed.

Lemma lib_fail_bind_safe {A B} c l (k : A -> link B) c' (Q : B -> LinkT -> Prop) : lsafe c l (lib_fail ≫= k) c' Q.
Proof. apply (lsafe_bind _ _ _ _ _ c l _ c' (fun _ _ => False)); [apply lib_fail_safe|by intros ? ? _ []]. Qed.

Lemma library_header_safe c l :
  lsafe c l (library_read_header junk) c (fun v l' => capsule_major_version (l_statics l') <> 0 /\ 4 <= v.1).
Proof.
  unfold library_read_header. eapply lsafe_rd; [apply tdf_read_bytes_safe, init_length_wf|]. intros magic l1 _ _.
  destruct (negb _); [apply lib_fail_safe|]. apply lsafe_int. intros major l2 _ Hma. apply lsafe_int. intros minor l3 _ Hmi.
  apply lsafe_get. cbn zeta. apply lsafe_use. intros Hl. pose proof (sl_statics _ _ _ _ _ _ _ Hl) as Hg.
  destruct (Z.ltb_spec major 4) as [|H4]; [apply lib_fail_bind_safe|].
  assert (4 <= major <= UINT_MAX) as Hm by (unfold is_unsigned, UINT_MAX, UINT_BITS in *; lia).
  assert (forall l', capsule_major_version (l_statics l') <> 0 ->
    lsafe c l' (_ ← rd tdf_read_align; mret (major, minor)) c (fun v l' => capsule_major_version (l_statics l') <> 0 /\ 4 <= v.1)) as Hend.
  { intros l' Hv. eapply lsafe_rd; [apply tdf_read_align_safe|]. intros [] l2' (E & _) _. apply lsafe_ret. rewrite E. by split. }
  destruct (Z.eqb_spec (capsule_major_version (l_statics l3)) 0) as [E|E].
  { apply lsafe_set_statics; [intros _; apply set_version_safe; [exact Hg|exact Hm|apply Hg]|by split_and!|cbn; lia|apply Hend; cbn; lia]. }
  destruct (negb _); [apply lib_fail_bind_safe|]. by apply Hend.
Qed.

Lemma to_cstring_bytes s : Forall is_byte (n_contents s) -> Forall is_byte (nstring_to_cstring junk s).
Proof.
  intros Hs. unfold nstring_to_cstring. cbn zeta. set (k := nstring_length s).
  assert (Forall is_byte (ALLOCATE_VECTOR junk (k + 1))) as Ha.
  { apply Forall_fmap, Forall_true. intros i. apply u8_byte. }
  apply Forall_insert; [|unfold is_byte; lia]. destruct (0 <? k)%nat; [|exact Ha]. unfold memcpy_at.
  repeat (apply Forall_app; split); [by apply Forall_take|by apply Forall_take|by apply Forall_drop].
Qed.

Lemma lib_capsules_safe c library m : forall l,
  lsafe c l (lib_capsules_loop junk library m) c (fun cs _ => Forall lib_capsule_ok cs).
Proof.
  induction m as [|m IH]; intros l; cbn [lib_capsules_loop]; [by apply lsafe_ret|].
  eapply lsafe_rd; [apply tdf_read_string_safe|]. intros name l1 _ [[_ Hname] _]. destruct (nstring_contains _ _); [apply lib_fail_safe|].
  apply lsafe_int. intros len l2 _ Hlen. eapply lsafe_rd; [by apply read_length_safe|]. intros contents l3 _ Hc.
  eapply lsafe_bind; [apply IH|]. intros cs l4 _ Hcs. apply lsafe_ret. constructor; [|exact Hcs]. split; [exact Hc|by apply to_cstring_bytes].
Qed.

Lemma check_index_entry_safe c l entry s nd nm key u capsule :
  st_entries (l_shapes l) !! entry = Some s -> ok_key key -> (capsule < n)%nat ->
  lsafe c l (library_check_index_entry junk entry nd nm key u capsule) c
    (fun _ l' => exists s', st_entries (l_shapes l') !! entry = Some s').
Proof.
  intros Es Hk Hc. unfold library_check_index_entry. eapply lsafe_get_shape; [exact Es|]. apply lsafe_use. intros Hl.
  pose proof (sh_all _ _ (sl_shapes _ _ _ _ _ _ _ Hl) _ _ Es) as Hs. pose proof (add_name_safe junk _ s key Hs Hk) as Ha.
  apply lsafe_need_id.
  { intros E. rewrite E in Ha. exists s. split; [by eapply list_elem_of_lookup_2|exact Ha]. }
  intros [s1 p] E. rewrite E in Ha. destruct Ha as (Hs1 & Hl1 & e & Ee & _).
  eapply lsafe_put_shape; [exact Es|auto|]. destruct (bad_usage _ _ _); [apply lib_fail_safe|].
  destruct (merge_lib_usage_safe n capsule s1 p u Hs1 ltac:(congruence) Hc) as (t & again & Em & Hs2 & Hl2).
  eapply lsafe_need; [exact Em|]. cbn iota. apply lsafe_serious. intros l2 (_ & _ & E2).
  pose proof (set_shape_lookup (l_shapes l) entry s1 s Es) as Es1.
  assert (st_entries (l_shapes l2) !! entry = Some s1) as Es2 by (by rewrite E2).
  apply lsafe_end. eapply lsafe_put_shape; [exact Es2|auto|]. apply lsafe_ret. eexists. by eapply set_shape_lookup.
Qed.

Lemma index_names_safe c base num entry nd nm m : forall l s,
  st_entries (l_shapes l) !! entry = Some s -> Z.of_nat base + num <= Z.of_nat n ->
  lsafe c l (index_names_loop junk junk_nstring base num entry nd nm m) c (fun _ _ => True).
Proof.
  induction m as [|m IH]; intros l s Es Hn; cbn [index_names_loop]; [by apply lsafe_ret|].
  eapply lsafe_rd; [apply tdf_read_name_safe|]. intros key l1 (_ & _ & E1) Hk. apply lsafe_int. intros u l2 (_ & _ & E2) _.
  apply lsafe_int. intros i l3 (_ & _ & E3) Hi. destruct (Z.leb_spec num i) as [|Hlt]; [apply lib_fail_safe|].
  rewrite <- E1, <- E2, <- E3 in Es. eapply lsafe_bind.
  { eapply check_index_entry_safe; [exact Es|exact Hk|]. unfold is_unsigned in Hi. lia. }
  intros _ l4 _ (s' & Es'). by eapply IH.
Qed.

Lemma index_shapes_safe c base num token tag m : forall l,
  Z.of_nat base + num <= Z.of_nat n ->
  lsafe c l (index_shapes_loop junk junk_nstring base num token tag m) c (fun _ _ => True).
Proof.
  induction m as [|m IH]; intros l Hn; cbn [index_shapes_loop]; [by apply lsafe_ret|].
  eapply lsafe_rd; [apply tdf_read_string_safe|]. intros name l1 _ Hname. apply lsafe_get, lsafe_use. intros Hl.
  destruct (add_shape_safe junk _ (l_shapes l1) name (sl_shapes _ _ _ _ _ _ _ Hl) Hname) as (t' & p & s & Ea & Ht' & Hlt & Es).
  rewrite Ea. apply lsafe_put_shapes; [auto|]. cbn zeta. apply lsafe_int. intros k l2 (_ & _ & E2) _.
  eapply lsafe_bind; [|intros _ l3 _ _; by apply IH]. eapply index_names_safe; [by rewrite E2|exact Hn].
Qed.

Lemma get_token_entry_safe c l : lsafe c l get_token_entry c (fun _ _ => True).
Proof.
  unfold get_token_entry. apply lsafe_get, lsafe_use. intros Hl. pose proof (sl_shapes _ _ _ _ _ _ _ Hl) as Ht.
  destruct (token_entry_ok _ _ (sh_good _ _ Ht)) as (t' & E & Ht' & Ec & Ee). rewrite E.
  destruct (cached_safe _ _ _ Ht Ht' Ec Ee) as (Hs & Hlt & _). apply lsafe_put_shapes; [auto|]. by apply lsafe_ret.
Qed.

Lemma get_tag_entry_safe c l : lsafe c l get_tag_entry c (fun _ _ => True).
Proof.
  unfold get_tag_entry. apply lsafe_get, lsafe_use. intros Hl. pose proof (sl_shapes _ _ _ _ _ _ _ Hl) as Ht.
  destruct (tag_entry_ok _ _ (sh_good _ _ Ht)) as (t' & E & Ht' & Ec & Ee). rewrite E.
  destruct (cached_safe _ _ _ Ht Ht' Ec Ee) as (Hs & Hlt & _). apply lsafe_put_shapes; [auto|]. by apply lsafe_ret.
Qed.

Lemma library_capsules_safe c library l :
  lsafe c l (library_read_capsules junk library) c
    (fun lib l' => (Forall lib_capsule_ok (lib_capsules lib) /\ 4 <= lib_major lib) /\ capsule_major_version (l_statics l') <> 0).
Proof.
  unfold library_read_capsules. eapply lsafe_bind; [apply library_header_safe|]. intros [major minor] l1 _ [Hv Hma]. cbn [fst] in Hma.
  eapply lsafe_later; [intros x l' (_ & _ & _ & H & _) Hx; exact (conj Hx (H Hv))|].
  apply lsafe_int. intros ty l2 _ _. destruct (_ <=? ty); [apply lib_fail_safe|].
  eapply lsafe_bind; [apply lsafe_int; intros m l3 _ _; apply lib_capsules_safe|]. intros cs l3 _ Hcs. by apply lsafe_ret.
Qed.

Lemma library_index_safe c base lib l :
  (base + num_capsules lib <= n)%nat ->
  lsafe c l (library_read_version_0_index junk junk_nstring base lib) c (fun _ _ => True).
Proof.
  intros Hn. unfold library_read_version_0_index. eapply lsafe_bind; [apply get_token_entry_safe|]. intros token l1 _ _.
  eapply lsafe_bind; [apply get_tag_entry_safe|]. intros tag l2 _ _. apply lsafe_int. intros m l3 _ _.
  eapply lsafe_bind; [apply index_shapes_safe; lia|]. intros _ l4 _ _.
  apply lsafe_end. eapply lsafe_rd; [apply tdf_read_eof_safe|]. intros u l5 _ _. by apply lsafe_ret.
Qed.
End LibraryRead.

(** Nothing in the program reports an error to libexds: its test never exits. *)
Lemma exit_quiet l : quiet (l_errors l) -> exit_on_error l = (l, Ok tt).
Proof. unfold quiet, exit_on_error. by intros ->. Qed.

(** ** A whole library *)

Section Whole.
Variable junk : nat -> Z.
Variable junk_nstring : nat -> NStringT.
Variable device : Prop.
Variable ps : list nat.
Variable tld : nat.
Variable tld2 : option nat.

(** The index of libraries with [n] capsules. *)
Definition safe_index (n : nat) (l : LinkT) : Prop := exists c, safe_link (library_tables n) device ps tld tld2 c l.

(** The exceptions that the handler does not catch. *)
Definition lib_ends (l' : LinkT) (e : capsule_exn) : Prop :=
  match e with
  | Stop => exhausted l'
  | Fatal_error => too_many (l_errors l')
  | XX_tdf (XX_bistream_read_error _) => device
  | _ => False
  end.

Lemma lib_handler_ok {A} n c l (m : link A) a Q :
  safe_link (library_tables n) device ps tld tld2 c l -> lsafe (library_tables n) device ps tld tld2 c l m c Q ->
  match lib_handler m a l with
  | (l', Ok x) => later_link l l' /\ safe_index n l' /\ (Q x l' \/ x = a /\ l_serious l' = true)
  | (l', Throw e) => lib_ends l' e
  end.
Proof.
  intros Hl H. specialize (H Hl). unfold lib_handler. destruct (m l) as [l' [x|e]].
  - destruct H as (H1 & H2 & H3). split; [exact H2|]. split; [by exists c|by left].
  - destruct H as [[[c1 H1] H2] H3]. cbn in H3. assert (safe_index n l') by (by exists c1).
    destruct e as [| |[]| | |]; cbn; tauto.
Qed.

(** The capsules of a library that has no complete index can be used too. *)
Lemma library_read_ok n library base l :
  safe_index n l -> (base <= n)%nat ->
  match library_read junk junk_nstring library base l with
  | (l', Ok lib) => later_link l l' /\ Forall lib_capsule_ok (lib_capsules lib) /\
      (4 <= lib_major lib \/ lib = Library library [] 0 0 false /\ l_serious l' = true) /\
      (lib_complete lib = true /\ capsule_major_version (l_statics l') <> 0 \/ l_serious l' = true) /\
      safe_index (max n (base + num_capsules lib)) l'
  | (l', Throw e) => lib_ends l' e
  end.
Proof.
  intros [c Hl] Hb. unfold library_read, mbind, stM_bind.
  pose proof (lib_handler_ok n c l (lib ← library_read_capsules junk library; mret (Some lib)) None
    (fun o l' => exists lib, o = Some lib /\ (Forall lib_capsule_ok (lib_capsules lib) /\ 4 <= lib_major lib) /\ capsule_major_version (l_statics l') <> 0) Hl) as H.
  destruct (lib_handler _ None l) as [l1 [o|e]]; cbn beta iota.
  2: { apply H. eapply lsafe_bind; [apply library_capsules_safe|]. intros lib l1' _ Hlib. apply lsafe_ret. eauto. }
  destruct H as (H1 & [c1 H2] & H3).
  { eapply lsafe_bind; [apply library_capsules_safe|]. intros lib l1' _ Hlib. apply lsafe_ret. eauto. }
  destruct H3 as [(lib & -> & [Hcs Hma] & Hv)|[-> Hs]].
  2: { cbn. split; [exact H1|]. split; [constructor|]. split; [by right|]. split; [by right|]. exists c1. unfold num_capsules. cbn.
       by rewrite Nat.add_0_r, Nat.max_l by exact Hb. }
  set (m := max n (base + num_capsules lib)).
  pose proof (lib_handler_ok m c1 l1 (_ ← library_read_version_0_index junk junk_nstring base lib;
    mret (Library library (lib_capsules lib) (lib_major lib) (lib_minor lib) true)) lib
    (fun x _ => lib_complete x = true /\ lib_capsules x = lib_capsules lib /\ lib_major x = lib_major lib) (library_link_le device ps tld tld2 n m c1 l1 ltac:(lia) H2)) as H.
  destruct (lib_handler _ lib l1) as [l2 [x|e]].
  2: { apply H. eapply lsafe_bind; [apply library_index_safe; lia|]. intros _ l3 _ _. by apply lsafe_ret. }
  destruct H as (H4 & H5 & H6); [eapply lsafe_bind; [apply library_index_safe; lia|]; intros _ l3 _ _; by apply lsafe_ret|].
  assert (lib_capsules x = lib_capsules lib /\ lib_major x = lib_major lib) as [Ex Em] by (destruct H6 as [(_ & ? & ?)|[-> _]]; auto).
  unfold num_capsules. rewrite Ex. split; [by transitivity l1|]. split; [exact Hcs|]. split; [left; lia|]. split; [|exact H5].
  destruct H6 as [[? _]|[_ ?]]; [left; split; [assumption|by apply H4]|by right].
Qed.
End Whole.
