(* ===== verification/TldExtractSpec.v ===== *)
(** * TldExtractSpec: what is extracted from a library

    The files and the directories that [extract_main]
    (tld/src/frontend/extract.c) makes of a library that was read completely:
    those of the capsules that are asked for, in their order. *)
From stdpp Require Import base list list_numbers numbers gmap.
From Stdlib Require Import ZArith Lia.
From S2P Require Import Prelude Codec ExdsString CStdio ExdsError TldNameKey TldIO TldIOSpec HashTable TldNames TldShapes TldCapsule TldLibrary TldResolve TldArgs TldLinker TldBuilder TldExtract.
From S2P Require Import TldRead TldShapesSpec TldCapsuleSpec TldLibraryBack TldSafeState TldUnitSets TldSafeLink TldLibrarySafe.

(** ** What is asked for *)

(** The name of the file a capsule is written to. *)
Definition extract_name (use_basename : bool) (c : LibCapsuleT) : list Z :=
  let name := c_chars (lib_capsule_name c) in if use_basename then file_name_basename name else name.

(** The directories above a file: what precedes each separator. *)
Definition parents (path : list Z) : list (list Z) :=
  (fun i => take i path) <$> filter (fun i => path !! i = Some ch_slash) (seq 0 (length path)).

(** The capsules that are asked for: all, or for each name those it matches. *)
Definition selected (all match_basename : bool) (names : list (list Z)) (capsules : list LibCapsuleT) : list LibCapsuleT :=
  if all then capsules
  else concat ((fun name => filter (fun c => extract_matches match_basename name c = true) capsules) <$> names).

(** A name that matches no capsule, and how many there are. *)
Definition unmatched (match_basename : bool) (capsules : list LibCapsuleT) (name : list Z) : bool :=
  negb (existsb (extract_matches match_basename name) capsules).

Definition misses (match_basename : bool) (capsules : list LibCapsuleT) (names : list (list Z)) : nat :=
  length (filter (fun name => unmatched match_basename capsules name = true) names).

(** A later file replaces one of the same name. *)
Definition all_written (use_basename : bool) (cs : list LibCapsuleT) (m : gmap (list Z) (list Z)) : gmap (list Z) (list Z) :=
  foldl (fun m c => <[extract_name use_basename c := n_contents (lib_capsule_contents c)]> m) m cs.

Definition all_parents (use_basename : bool) (cs : list LibCapsuleT) : list (list Z) :=
  concat ((fun c => parents (extract_name use_basename c)) <$> cs).

(** ** The extraction of a list of capsules *)

(** The bytes of a string, written to a file of their own. *)
Lemma bytes_written n d name byte : wf_nstring n -> d_room d = None ->
  exists w, (_ ← tdf_write_bytes n; tdf_writer_close) (tdf_writer_open d name byte) = (w, Ok tt) /\
    at_exit (bo_file (w_bostream w)) = n_contents n.
Proof.
  intros [Hl _] Hd. assert (unlimited (bostream_open d name)) as Hu by (split; [apply fopen_ok|exact Hd]).
  destruct (bostream_chars_ok (n_contents n) _ Hu) as (b1 & E1 & Hu1 & D1). destruct (bostream_close_ok _ Hu1) as (b2 & E2 & Hu2 & D2 & _).
  exists (TDFWriter b2 byte true). split.
  - unfold tdf_write_bytes, tdf_writer_close, tdf_write_align, on_bostream, st_zoom, mbind, stM_bind, nstring_length, nstring_contents.
    cbn [tdf_writer_open w_bostream w_byte w_new_byte mret stM_ret]. rewrite (take_ge (n_contents n)) by lia. rewrite E1.
    cbn [w_bostream w_byte w_new_byte mret stM_ret]. by rewrite E2.
  - cbn. destruct Hu2 as [Hf Hr]. rewrite (at_exit_ok _ Hf). unfold taken. rewrite Hr. unfold bo_data in *. rewrite D2, D1. reflexivity.
Qed.

Lemma populate_loop_eq path : forall before st,
  populate_loop before path st =
    (Extract (ex_link st) (ex_dirs st ++ ((app before) <$> parents path)) (ex_written st), Ok tt).
Proof.
  induction path as [|c path IH]; intros before st; cbn [populate_loop]; [cbn; rewrite app_nil_r; by destruct st|].
  assert (parents (c :: path) = (if c =? ch_slash then [[]] else []) ++ (cons c <$> parents path)) as ->.
  { unfold parents. cbn [length seq]. rewrite <- fmap_S_seq, filter_cons. cbn [lookup list_lookup].
    assert ((fun i => take i (c :: path)) <$> filter (fun i => (c :: path) !! i = Some ch_slash) (S <$> seq 0 (length path)) =
      cons c <$> ((fun i => take i path) <$> filter (fun i => path !! i = Some ch_slash) (seq 0 (length path)))) as E.
    { generalize (seq 0 (length path)) as l. intros l. induction l as [|i l IHl]; [reflexivity|]. cbn [fmap list_fmap].
      rewrite !filter_cons. cbn [lookup list_lookup]. destruct (decide (path !! i = Some ch_slash)); cbn [fmap list_fmap]; rewrite IHl; reflexivity. }
    destruct (Z.eqb_spec c ch_slash) as [->|Hne].
    - rewrite decide_True by reflexivity. cbn [fmap list_fmap take app]. by rewrite E.
    - rewrite decide_False by congruence. exact E. }
  unfold mbind, stM_bind. rewrite fmap_app, <- list_fmap_compose. destruct (c =? ch_slash); cbn.
  - rewrite IH. cbn. rewrite app_nil_r, <- app_assoc. cbn. do 4 f_equal. apply list_fmap_ext. intros i x _. cbn. by rewrite <- app_assoc.
  - rewrite IH. do 3 f_equal. apply list_fmap_ext. intros i x _. cbn. by rewrite <- app_assoc.
Qed.

(** A file that is written once has what was written. *)
Lemma all_written_lookup b cs : forall m name bytes, NoDup (extract_name b <$> cs) ->
  all_written b cs m !! name = Some bytes <->
    (exists c, c ∈ cs /\ extract_name b c = name /\ n_contents (lib_capsule_contents c) = bytes) \/
    ((name ∉ extract_name b <$> cs) /\ m !! name = Some bytes).
Proof.
  induction cs as [|c cs IH]; intros m name bytes Hnd.
  { cbn. split; [intros H; right; split; [apply not_elem_of_nil|exact H]|]. intros [(n & H & _)|[_ H]]; [by apply elem_of_nil in H|exact H]. }
  cbn [fmap list_fmap] in Hnd. apply list.NoDup_cons in Hnd as [Hni Hnd]. unfold all_written. cbn [foldl].
  fold (all_written b cs (<[extract_name b c := n_contents (lib_capsule_contents c)]> m)). rewrite (IH _ _ _ Hnd). cbn [fmap list_fmap]. split.
  - intros [(x & Hin & E)|[Hout E]]; [left; exists x; split; [by right|exact E]|].
    destruct (decide (name = extract_name b c)) as [->|Hne].
    + rewrite lookup_insert_eq in E. injection E as <-. left. exists c. by split_and!; [left|..].
    + rewrite lookup_insert_ne in E by congruence. right. split; [|exact E]. intros [?|?]%elem_of_cons; contradiction.
  - intros [(x & Hin & En & E)|[Hout E]].
    + apply elem_of_cons in Hin as [->|Hin]; [|left; by exists x]. right. subst. split; [exact Hni|]. by rewrite lookup_insert_eq.
    + rewrite elem_of_cons in Hout. right. split; [tauto|]. rewrite lookup_insert_ne by (intros E'; apply Hout; by left). exact E.
Qed.

Section Extraction.
Variable junk : nat -> Z.
Variable junk_nstring : nat -> NStringT.
Variable open_file : list Z -> option (list (option Z)).
Variable can_write : list Z -> bool.
Variable devices : list Z -> DeviceT.
Hypothesis writes_all : forall name, can_write name = true /\ d_room (devices name) = None.

Abbreviation extract_1 := (library_extract_1 junk can_write devices).

(** The state after capsules are extracted. *)
Definition extracted (use_basename : bool) (cs : list LibCapsuleT) (st : ExtractT) : ExtractT :=
  Extract (ex_link st) (ex_dirs st ++ all_parents use_basename cs) (all_written use_basename cs (ex_written st)).

Lemma extracted_nil use_basename st : extracted use_basename [] st = st.
Proof. unfold extracted. cbn. rewrite app_nil_r. by destruct st. Qed.

Lemma extracted_app use_basename cs cs' st :
  extracted use_basename cs' (extracted use_basename cs st) = extracted use_basename (cs ++ cs') st.
Proof.
  unfold extracted, all_written, all_parents. cbn. by rewrite foldl_app, fmap_app, concat_app, app_assoc.
Qed.

Lemma extract_1_eq use_basename c st :
  wf_nstring (lib_capsule_contents c) -> extract_1 use_basename c st = (extracted use_basename [c] st, Ok tt).
Proof.
  intros Hw. unfold library_extract_1, file_name_populate, mbind, stM_bind. fold (extract_name use_basename c).
  rewrite populate_loop_eq. cbn beta iota. destruct (writes_all (extract_name use_basename c)) as [-> Hd]. unfold write_file, file_written.
  destruct (bytes_written (lib_capsule_contents c) _ (extract_name use_basename c) (u8 (junk 0)) Hw Hd) as (w & -> & ->). cbn.
  unfold extracted, all_parents. cbn. rewrite app_nil_r. by rewrite list_fmap_id.
Qed.

Lemma extract_all_eq use_basename cs : forall st,
  Forall (fun c => wf_nstring (lib_capsule_contents c)) cs -> mapM_ (extract_1 use_basename) cs st = (extracted use_basename cs st, Ok tt).
Proof.
  induction cs as [|c cs IH]; intros st Hcs; cbn [mapM_]; [by rewrite extracted_nil|]. inversion Hcs as [|? ? Hc Hcs']; subst.
  unfold mbind, stM_bind. rewrite (extract_1_eq use_basename c st Hc), IH by exact Hcs'. by rewrite (extracted_app _ [c] cs).
Qed.

Lemma extract_capsules_eq use_basename match_basename name cs : forall st b,
  Forall (fun c => wf_nstring (lib_capsule_contents c)) cs ->
  extract_capsules junk can_write devices use_basename match_basename name cs b st =
    (extracted use_basename (filter (fun c => extract_matches match_basename name c = true) cs) st,
     Ok (b || existsb (extract_matches match_basename name) cs)).
Proof.
  induction cs as [|c cs IH]; intros st b Hcs; cbn [extract_capsules existsb]; [rewrite orb_false_r; by rewrite extracted_nil|].
  inversion Hcs as [|? ? Hc Hcs']; subst. rewrite filter_cons. destruct (extract_matches match_basename name c) eqn:E.
  - unfold mbind, stM_bind. rewrite (extract_1_eq use_basename c st Hc), IH by exact Hcs'. rewrite decide_True by reflexivity.
    rewrite (extracted_app _ [c]). by rewrite !orb_true_r.
  - rewrite decide_False by discriminate. by rewrite IH.
Qed.

(** The state after capsules are extracted and [n] names were not found. *)
Definition after_names (use_basename : bool) (cs : list LibCapsuleT) (n : nat) (st st' : ExtractT) : Prop :=
  ex_dirs st' = ex_dirs st ++ all_parents use_basename cs /\ ex_written st' = all_written use_basename cs (ex_written st) /\
  ex_link st' = with_errors (add_errors n (l_errors (ex_link st))) (ex_link st).

Lemma after_names_app use_basename cs cs' n n' st st1 st2 :
  after_names use_basename cs n st st1 -> after_names use_basename cs' n' st1 st2 -> after_names use_basename (cs ++ cs') (n + n') st st2.
Proof.
  intros (D1 & W1 & L1) (D2 & W2 & L2). split; [rewrite D2, D1; unfold all_parents; by rewrite fmap_app, concat_app, app_assoc|].
  split; [rewrite W2, W1; unfold all_written; by rewrite foldl_app|]. rewrite L2, L1. unfold with_errors. cbn.
  by rewrite add_errors_add, (Nat.add_comm n').
Qed.

Lemma selected_cons match_basename name names cs : selected false match_basename (name :: names) cs =
  filter (fun c => extract_matches match_basename name c = true) cs ++ selected false match_basename names cs.
Proof. reflexivity. Qed.

Lemma misses_cons match_basename name names cs : misses match_basename cs (name :: names) =
  ((if unmatched match_basename cs name then 1 else 0) + misses match_basename cs names)%nat.
Proof. unfold misses. rewrite filter_cons. destruct (unmatched match_basename cs name); [by rewrite decide_True|by rewrite decide_False]. Qed.

(** One name. *)
Lemma extract_name_eq use_basename match_basename cs name st :
  Forall (fun c => wf_nstring (lib_capsule_contents c)) cs ->
  exists st', after_names use_basename (filter (fun c => extract_matches match_basename name c = true) cs)
      (if unmatched match_basename cs name then 1 else 0) st st' /\
    (matched ← extract_capsules junk can_write devices use_basename match_basename name cs false;
     if (matched : bool) then mret tt else ex_in_link serious) st =
      (st', if bool_decide (unmatched match_basename cs name = true /\ too_many (l_errors (ex_link st'))) then Throw Fatal_error else Ok tt).
Proof.
  intros Hcs. unfold mbind, stM_bind. rewrite (extract_capsules_eq use_basename match_basename name cs st false Hcs). cbn [orb].
  unfold unmatched. destruct (existsb (extract_matches match_basename name) cs); cbn [negb].
  - eexists. split; [|rewrite bool_decide_eq_false_2 by (by intros []); reflexivity]. split_and!; try reflexivity.
    cbn. rewrite add_errors_0. by destruct (ex_link st).
  - unfold ex_in_link, serious. cbn [ex_link extracted]. destruct (serious_error_cases (l_errors (ex_link st))) as [[Hr ->]|[Ht ->]].
    + eexists. split; [|rewrite bool_decide_eq_false_2; [reflexivity|]]; [by split_and!|]. intros [_ H]. cbn in H. unfold too_many, room_for, add_errors in *. cbn in *. lia.
    + eexists. split; [|rewrite bool_decide_eq_true_2; [reflexivity|]]; by split_and!.
Qed.

(** All names, or those up to the one that is one error too many. *)
Lemma extract_names_eq use_basename match_basename cs names : forall st,
  Forall (fun c => wf_nstring (lib_capsule_contents c)) cs ->
  match mapM_ (fun name =>
      matched ← extract_capsules junk can_write devices use_basename match_basename name cs false;
      if (matched : bool) then mret tt else ex_in_link serious) names st with
  | (st', Ok _) => after_names use_basename (selected false match_basename names cs) (misses match_basename cs names) st st'
  | (st', Throw e) => e = Fatal_error /\ too_many (l_errors (ex_link st')) /\
      exists before name after, names = before ++ name :: after /\ unmatched match_basename cs name = true /\
        after_names use_basename (selected false match_basename before cs) (S (misses match_basename cs before)) st st'
  end.
Proof.
  induction names as [|name names IH]; intros st Hcs; cbn [mapM_].
  { split_and!; [unfold all_parents; cbn; by rewrite app_nil_r|reflexivity|]. cbn. rewrite add_errors_0. by destruct (ex_link st). }
  destruct (extract_name_eq use_basename match_basename cs name st Hcs) as (st1 & H1 & E1). unfold mbind at 1, stM_bind at 1. rewrite E1.
  destruct (bool_decide _) eqn:Eb.
  - apply bool_decide_eq_true_1 in Eb as [Hu Ht]. rewrite Hu in H1. split; [reflexivity|]. split; [exact Ht|]. exists [], name, names.
    split; [reflexivity|]. split; [exact Hu|]. assert (filter (fun c => extract_matches match_basename name c = true) cs = []) as E; [|by rewrite E in H1].
    unfold unmatched in Hu. clear -Hu. induction cs as [|c cs IH]; [reflexivity|]. cbn in Hu. rewrite filter_cons.
    destruct (extract_matches match_basename name c); [discriminate|]. rewrite decide_False by discriminate. by apply IH.
  - specialize (IH st1 Hcs). destruct (mapM_ _ names st1) as [st' [u|e]].
    + rewrite selected_cons, misses_cons. by eapply after_names_app.
    + destruct IH as (-> & Ht & before & name' & after & -> & Hu & H2). split; [reflexivity|]. split; [exact Ht|].
      exists (name :: before), name', after. split; [reflexivity|]. split; [exact Hu|]. rewrite selected_cons, misses_cons, <- Nat.add_succ_r.
      by eapply after_names_app.
Qed.
End Extraction.

(** ** The whole *)

(** Nothing was extracted. *)
Definition nothing_written (st : ExtractT) : Prop := ex_dirs st = [] /\ ex_written st = ∅.

(** The directories, the files and the errors after the capsules that are asked
    for by [names] were extracted, [n] names more having no capsule. *)
Definition extracted_from (use_basename match_basename all : bool) (names : list (list Z)) (n : nat) (capsules : list LibCapsuleT)
    (l : LinkT) (st : ExtractT) : Prop :=
  let cs := selected all match_basename names capsules in
  ex_dirs st = all_parents use_basename cs /\ ex_written st = all_written use_basename cs ∅ /\
  l_errors (ex_link st) = add_errors n (l_errors l).

(** What [extract_main] leaves of the file [file]: [all], [use_basename] and
    [match_basename] are the options, [names] what is asked for. *)
Definition extract_outcome (device : Prop) (junk : nat -> Z) (junk_nstring : nat -> NStringT) (open_file : list Z -> option (list (option Z)))
    (g : StaticsT) (reports : ReportsT) (all use_basename match_basename : bool) (file : list Z) (names : list (list Z))
    (r : ExtractT * result capsule_exn unit) : Prop :=
  let library_is l library := exists data, open_file file = Some data /\
    library_read junk junk_nstring file 0%nat (Link (tdf_reader_open data file (u8 (junk 0%nat))) g unit_table_create shape_table_create reports) =
      (l, Ok library) in
  match r with
  | (st, Ok _) =>
      all = negb (bool_decide (names <> [])) /\
      match open_file file with
      | None => nothing_written st /\ l_errors (ex_link st) = add_errors 1 reports
      | Some _ => exists l library, library_is l library /\
          if lib_complete library then
            extracted_from use_basename match_basename all names (if all then 0 else misses match_basename (lib_capsules library) names)
              (lib_capsules library) l st
          else l_serious l = true /\ extracted_from use_basename match_basename all names 0 [] l st
      end
  | (st, Throw Fatal_error) =>
      nothing_written st /\ (all = bool_decide (names <> []) \/ too_many (l_errors (ex_link st))) \/
      too_many (l_errors (ex_link st)) /\ all = false /\
        exists l library before name after, library_is l library /\ lib_complete library = true /\
          names = before ++ name :: after /\ unmatched match_basename (lib_capsules library) name = true /\
          extracted_from use_basename match_basename all before (S (misses match_basename (lib_capsules library) before))
            (lib_capsules library) l st
  | (st, Throw Stop) => exhausted (ex_link st) /\ nothing_written st
  | (st, Throw (XX_tdf (XX_bistream_read_error _))) => device /\ nothing_written st
  | (_, Throw _) => False
  end.

Lemma start_index device ps tld tld2 g data name byte b :
  known_unit_sets g -> quiet b -> Forall (fun o => from_option is_byte device o) data ->
  safe_index device ps tld tld2 0 (Link (tdf_reader_open data name byte) g unit_table_create shape_table_create b).
Proof.
  intros Hg Hq Hd. exists []. constructor; [by apply open_stream_safe| |apply no_shapes_safe|by intros ?|exact Hq].
  assert (capsule_major_version g = 0 /\ capsule_minor_version g = 0) as [H1 H2] by (by destruct Hg as [->|(sets & t & t2 & -> & _)]).
  constructor; [by left|cbn [l_statics]; rewrite H2; unfold is_unsigned; cbn; lia|by intros ?..].
Qed.

(** What is done with a library that has been read. *)
Definition extract_library (junk : nat -> Z) (can_write : list Z -> bool) (devices : list Z -> DeviceT)
    (all use_basename match_basename : bool) (names : list (list Z)) (library : LibraryT) : extract unit :=
  if lib_complete library then
    if all then mapM_ (library_extract_1 junk can_write devices use_basename) (lib_capsules library)
    else mapM_ (fun name =>
      matched ← extract_capsules junk can_write devices use_basename match_basename name (lib_capsules library) false;
      if (matched : bool) then mret tt else ex_in_link serious) names
  else mret tt.

Lemma extract_reads junk junk_nstring can_write devices (all : bool) use_basename match_basename file names r g u b dirs written :
  (if all then library_extract_all junk junk_nstring can_write devices file use_basename
   else library_extract junk junk_nstring can_write devices file use_basename match_basename names)
    (Extract (Link r g u shape_table_create b) dirs written) =
  let '(l, x) := library_read junk junk_nstring file 0%nat (Link r g u shape_table_create b) in
  match x with
  | Ok library => extract_library junk can_write devices all use_basename match_basename names library (Extract l dirs written)
  | Throw e => (Extract l dirs written, Throw e)
  end.
Proof.
  unfold extract_library, library_extract_all, library_extract, read_library, ex_in_link, mbind, stM_bind.
  destruct all; cbn -[library_read]; destruct (library_read _ _ _ _ _) as [l [library|e]]; try reflexivity; by destruct (lib_complete library).
Qed.

Section Main.
Variable junk : nat -> Z.
Variable junk_nstring : nat -> NStringT.
Variable device : Prop.
Variable open_file : list Z -> option (list (option Z)).
Hypothesis files_ok : forall name data, open_file name = Some data -> Forall (fun o => from_option is_byte device o) data.
Variable can_write : list Z -> bool.
Variable devices : list Z -> DeviceT.
Hypothesis writes_all : forall name, can_write name = true /\ d_room (devices name) = None.

Lemma close_link l : exists r, rd tdf_reader_close l = (with_reader r l, Ok tt).
Proof. unfold rd, tdf_reader_close. destruct (r_source (l_reader l)); [unfold on_bistream|]; cbn; eauto. Qed.

Lemma add_errors_quiet n r : quiet r -> quiet (add_errors n r).
Proof. done. Qed.

(** The end of [extract_main]. *)
Definition extract_close : extract unit := _ ← ex_in_link (rd tdf_reader_close); ex_in_link exit_on_error.

Lemma extract_close_eq st : quiet (l_errors (ex_link st)) ->
  exists r, extract_close st = (Extract (with_reader r (ex_link st)) (ex_dirs st) (ex_written st), Ok tt).
Proof.
  intros Hq. unfold extract_close, ex_in_link, mbind, stM_bind. destruct (close_link (ex_link st)) as (r & ->). cbn [ex_link].
  rewrite exit_quiet by exact Hq. by exists r.
Qed.

(** Reading the library, and what is done with its capsules. *)
Lemma extract_file_ends g reports all use_basename match_basename file names data st :
  known_unit_sets g -> quiet reports -> all = negb (bool_decide (names <> [])) -> open_file file = Some data -> ex_dirs st = [] -> ex_written st = ∅ ->
  ex_link st = Link (tdf_reader_open data file (u8 (junk 0))) g unit_table_create shape_table_create reports ->
  extract_outcome device junk junk_nstring open_file g reports all use_basename match_basename file names
    ((_ ← (if all then library_extract_all junk junk_nstring can_write devices file use_basename
           else library_extract junk junk_nstring can_write devices file use_basename match_basename names);
      extract_close) st).
Proof.
  intros Hg Hq Hall Ho Hd Hw Hl. destruct st as [l0 dirs written]. cbn in Hd, Hw, Hl. subst l0 dirs written.
  pose proof (library_read_ok junk junk_nstring device [] 0 None 0 file 0 _ (start_index device [] 0 None g data file (u8 (junk 0)) reports Hg Hq (files_ok _ _ Ho)) (le_n _)) as H.
  set (l0 := Link (tdf_reader_open data file (u8 (junk 0))) g unit_table_create shape_table_create reports) in *.
  unfold mbind at 1, stM_bind at 1. unfold l0. rewrite extract_reads. fold l0. destruct (library_read junk junk_nstring file 0 l0) as [l [lib|e]] eqn:El.
  2: { unfold extract_outcome. destruct e as [| |[]| | |]; try contradiction; [by split|left; split; [done|by right]|by split]. }
  destruct H as (Hlater & Hcs & _ & Hcomp & _).
  assert (quiet (l_errors l)) as Hql by (eapply quiet_later; [apply Hlater|exact Hq]).
  assert (exists data, open_file file = Some data /\ library_read junk junk_nstring file 0%nat
    (Link (tdf_reader_open data file (u8 (junk 0%nat))) g unit_table_create shape_table_create reports) = (l, Ok lib)) as Hlib by eauto.
  assert (Forall (fun c => wf_nstring (lib_capsule_contents c)) (lib_capsules lib)) as Hwf.
  { eapply Forall_impl; [exact Hcs|]. intros c [[Hc _] _]. exact Hc. }
  assert (forall st1 n caps, lib_complete lib = true -> caps = lib_capsules lib -> n = (if all then 0 else misses match_basename caps names)%nat ->
    after_names use_basename (selected all match_basename names caps) n (Extract l [] ∅) st1 ->
    extract_outcome device junk junk_nstring open_file g reports all use_basename match_basename file names (extract_close st1)) as Hend.
  { intros st1 n caps Hc -> -> H1. pose proof H1 as (_ & _ & E1). destruct (extract_close_eq st1) as (r & ->).
    { rewrite E1. cbn. by apply add_errors_quiet. }
    split; [exact Hall|]. rewrite Ho. rewrite Ho in Hlib. exists l, lib. split; [exact Hlib|]. cbn. rewrite Hc.
    destruct H1 as (H1 & H2 & H3). split; [exact H1|]. split; [exact H2|]. by rewrite H3. }
  unfold extract_library. destruct (lib_complete lib) eqn:Hc; [destruct all eqn:Ea|].
  - rewrite (extract_all_eq junk can_write devices writes_all _ _ _ Hwf). eapply Hend; [done|reflexivity|reflexivity|].
    split_and!; try reflexivity. cbn. rewrite add_errors_0. by destruct l.
  - pose proof (extract_names_eq junk can_write devices writes_all use_basename match_basename (lib_capsules lib) names (Extract l [] ∅) Hwf) as H.
    destruct (mapM_ _ names (Extract l [] ∅)) as [st1 [[]|e]]; [by eapply Hend|].
    destruct H as (-> & Ht & before & name & after & En & Hu & H). right. split; [exact Ht|]. split; [reflexivity|].
    exists l, lib, before, name, after. split; [exact Hlib|]. split; [exact Hc|]. split; [exact En|]. split; [exact Hu|].
    destruct H as (H1 & H2 & H3). split; [exact H1|]. split; [exact H2|]. by rewrite H3.
  - destruct (extract_close_eq (Extract l [] ∅) Hql) as (r & E).     cbn [mret stM_ret]. rewrite E. split; [exact Hall|]. rewrite Ho. rewrite Ho in Hlib. exists l, lib. split; [exact Hlib|]. cbn. rewrite Hc.
    split; [by destruct Hcomp as [[Hcomp _]|Hcomp]|]. unfold extracted_from. assert (selected all match_basename names [] = []) as ->.
    { unfold selected. destruct all; [done|]. clear. by induction names. }
    split_and!; try reflexivity. cbn. by rewrite add_errors_0.
Qed.

Lemma opened_extract (m : extract unit) file data g reports :
  (_ ← (_ ← ex_in_link (open_stream junk file data); _ ← m; ex_in_link (rd tdf_reader_close)); ex_in_link exit_on_error) (extract_start g reports) =
  (_ ← m; extract_close) (Extract (Link (tdf_reader_open data file (u8 (junk 0))) g unit_table_create shape_table_create reports) [] ∅).
Proof.
  unfold extract_close, mbind, stM_bind. change (ex_in_link (open_stream junk file data) (extract_start g reports)) with
    (Extract (Link (tdf_reader_open data file (u8 (junk 0))) g unit_table_create shape_table_create reports) [] ∅, Ok tt : result capsule_exn unit).
  cbn iota beta. destruct (m _) as [st1 [[]|e]]; [|reflexivity]. by destruct (ex_in_link (rd tdf_reader_close) st1) as [st2 [[]|e]].
Qed.

Lemma main_extracts args g reports file names :
  files args = file :: names -> known_unit_sets g -> quiet reports ->
  extract_outcome device junk junk_nstring open_file g reports (extract_all args) (extract_basename args) (extract_match_base args) file names
    (extract_main junk junk_nstring open_file can_write devices args (extract_start g reports)).
Proof.
  intros Hf Hg Hq. unfold extract_main, arg_data_get_extract_all, arg_data_get_extract_basename, arg_data_get_extract_match_base. rewrite Hf.
  generalize (extract_all args) as all, (extract_basename args) as use_basename, (extract_match_base args) as match_basename.
  intros all use_basename match_basename. set (b := bool_decide (names <> [])).
  assert ((length (file :: names) =? 1) = negb b /\ (1 <? length (file :: names)) = b)%nat as [-> ->].
  { unfold b. by destruct names. }
  assert (all = b \/ all = negb b) as [E|Hall] by (destruct all, b; auto).
  { rewrite E. destruct b eqn:Eb; cbn; (left; split; [done|left; by fold b]). }
  assert (forall k : extract unit, (_ ← (if all && b then fatal else if negb all && negb b then fatal else mret tt); k) (extract_start g reports) =
    k (extract_start g reports)) as -> by (intros k; rewrite Hall; by destruct b).
  destruct (open_file file) as [data|] eqn:Ho.
  - pose proof (extract_file_ends g reports all use_basename match_basename file names data
      (Extract (Link (tdf_reader_open data file (u8 (junk 0))) g unit_table_create shape_table_create reports) [] ∅) Hg Hq Hall Ho eq_refl eq_refl eq_refl) as H.
    rewrite (opened_extract _ file data). exact H.
  - unfold mbind, stM_bind, ex_in_link, serious. cbn [extract_start ex_link builder_start l_errors].
    destruct (serious_error_cases reports) as [[_ ->]|[Ht ->]]; [|by left; split; [|right]].
    rewrite exit_quiet by exact Hq. split; [exact Hall|]. rewrite Ho. by split.
Qed.
End Main.


(** A library with the capsules [d/a] and [b], from which [a] is asked for as
    the last part of a name, and [c]. *)
Definition ex_lib_bytes : list Z := Eval vm_compute in
  match library_write (fun _ => 0) ex_statics ex_lib_shapes [([100; 47; 97], NString 2 [1; 255]); ([98], NString 0 [])] Z.of_nat with
  | Some (_, m) => bytes_in_file ((_ ← m; tdf_writer_close) (tdf_writer_open (takes_all at_close) [] 0)).1
  | None => []
  end.

Definition ex_lib_file (name : list Z) : option (list (option Z)) :=
  if bool_decide (name = [108]) then Some (Some <$> ex_lib_bytes) else None.

Definition ex_extract_args : ArgDataT :=
  arg_data_set_files (arg_data_set_extract_match_base (arg_data_init []) true) [[108]; [97]; [99]].

Definition ex_extract : ExtractT * result capsule_exn unit :=
  extract_main (fun _ => 0) (fun _ => nstring_init) ex_lib_file (fun _ => true) (fun _ => takes_all at_close) ex_extract_args (extract_start initial_statics initial_reports).

Lemma ex_lib_file_ok name data : ex_lib_file name = Some data -> Forall (fun o => from_option is_byte False o) data.
Proof.
  unfold ex_lib_file. case_bool_decide; [|discriminate]. intros <-%(inj Some). apply Forall_fmap.
  assert (Forall is_byte ex_lib_bytes) as Hb by (apply (bool_decide_eq_true_1 _); vm_compute; reflexivity). exact Hb.
Qed.

