(* ===== verification/TldContentsSpec.v ===== *)
(** * TldContentsSpec: the listing of a library

    What [contents_main] (tld/src/frontend/contents.c) prints of a library: a
    text that is a function of the library and its index. *)
From Stdlib Require Import ZArith Lia String.
From stdpp Require Import base list list_numbers numbers.
From S2P Require Import Prelude Codec ExdsString CStdio ExdsError TldNameKey TldIO TldIOSpec HashTable TldNames TldShapes TldCapsule TldLibrary TldResolve TldArgs TldLinker TldBuilder TldExtract.
From S2P Require Import ExdsStream ExdsOStream TldContents TldRead TldShapesSpec TldCapsuleSpec TldUsage TldLibraryBack TldSafeState TldUnitSets TldLibrarySafe TldExtractSpec.

(** ** The text *)

(** What is written, and whether the program goes on after it. *)
Definition text : Type := list Z * bool.

Definition then_text (t t' : text) : text := if t.2 then (t.1 ++ t'.1, t'.2) else t.

Definition texts (ts : list text) : text := foldr then_text ([], true) ts.

Definition usage_words (use : Z) : list (list Z) :=
  (fun v => chars v.2) <$> filter (fun v => has use v.1 = true) [(U_DEFD, "DEFD"); (U_MULT, "MULT"); (U_DECD, "DECD"); (U_USED, "USED")]%string.

Definition joined (sep : list Z) (words : list (list Z)) : list Z :=
  match words with
  | [] => []
  | word :: words => word ++ concat (app sep <$> words)
  end.

Definition usage_text (use : Z) : list Z := 123 :: joined (chars ", ") (usage_words use) ++ [125].

(** The listing breaks off at a name that no capsule defines. *)
Definition name_text (capsules : list LibCapsuleT) (v : NameKeyT * DirectT) : text :=
  let before := chars "  " ++ write_name_key v.1 ++ [32] ++ usage_text (get_use v.2) ++ chars " '" in
  match (c ← lib_definition v.2; capsules !! c) : option LibCapsuleT with
  | Some capsule => (before ++ c_chars (lib_capsule_name capsule) ++ [ch_quote; ch_newline], true)
  | None => (before, false)
  end.

Definition shape_text (capsules : list LibCapsuleT) (s : ShapeEntryT) : text :=
  then_text (take (nstring_length (se_key s)) (nstring_contents (se_key s)) ++ [58; ch_newline], true)
    (texts (name_text capsules <$> names_of (se_names s))).

Definition version_text (library : LibraryT) : list Z :=
  [91] ++ decimal (lib_major library) ++ chars ", " ++ decimal (lib_minor library) ++ [93; ch_newline].

Definition capsule_text (want_size : bool) (c : LibCapsuleT) : list Z :=
  c_chars (lib_capsule_name c) ++
  (if want_size then chars " (" ++ decimal (u32 (Z.of_nat (nstring_length (lib_capsule_contents c)))) ++ [41] else []) ++ [ch_newline].

(** The shapes in the order of the iterator. *)
Definition listing (library : LibraryT) (shapes : list ShapeEntryT) (want_index want_size want_version : bool) : text :=
  if lib_complete library then
    then_text ((if want_version then version_text library else []) ++ concat (capsule_text want_size <$> lib_capsules library), true)
      (texts (if want_index then shape_text (lib_capsules library) <$> shapes else []))
  else ([], true).

(** ** Operations that print *)

Definition output_error (o : OStreamT) : contents_exn := CX_output (XX_ostream_write_error (default [] (os_name o))).

(** An operation that prints the text [t] and goes on as it says, or throws when
    passing on a beginning of it fails. *)
Definition shows (m : contents unit) (t : text) : Prop := forall st, open_stream_ok (co_out st) ->
  let '(st', x) := m st in co_link st' = co_link st /\
  (wrote t.1 (co_out st) (co_out st') /\ x = (if t.2 then Ok tt else Throw (CX_link Stop)) \/
   cut_short t.1 (co_out st) (co_out st') /\ x = Throw (output_error (co_out st))).

Lemma shows_bind m k t t' : shows m t -> (t.2 = true -> shows k t') -> shows (_ ← m; k) (then_text t t').
Proof.
  intros Hm Hk st Hs. specialize (Hm st Hs). unfold mbind, stM_bind, then_text. destruct t as [t b]. cbn [fst snd] in *.
  destruct (m st) as [st1 x]. destruct Hm as [El [[Hw ->]|[Hc ->]]].
  - destruct b; [|split; [exact El|by left]]. specialize (Hk eq_refl st1 (wr_ok _ _ _ Hw)).
    destruct (k st1) as [st2 x]. destruct Hk as [El' [[Hw' ->]|[Hc' ->]]]; (split; [congruence|]); cbn [fst snd].
    + left. split; [by eapply wrote_app|reflexivity].
    + right. split; [by eapply wrote_cut|]. unfold output_error. by rewrite (wr_name _ _ _ Hw).
  - split; [exact El|]. right. split; [|reflexivity]. destruct b; [by apply cut_more|exact Hc].
Qed.

Lemma shows_out m t : prints m t -> shows (out m) (t, true).
Proof.
  intros Hm st Hs. specialize (Hm (co_out st) Hs). unfold out. cbn [fst snd]. destruct (m (co_out st)) as [o [[]|e]]; (split; [reflexivity|]).
  - by left.
  - right. by destruct Hm as [-> Hm].
Qed.

Lemma shows_ext m m' t : (forall st, m st = m' st) -> shows m' t -> shows m t.
Proof. intros E H st Hs. rewrite E. by apply H. Qed.

Lemma then_true t t' b : then_text (t, true) (t', b) = (t ++ t', b).
Proof. reflexivity. Qed.

(** A text, then more. *)
Lemma shows_then m k t t' b : prints m t -> shows k (t', b) -> shows (_ ← out m; k) (t ++ t', b).
Proof. intros Hm Hk. rewrite <- then_true. apply shows_bind; [by apply shows_out|by intros _]. Qed.

Lemma shows_nothing : shows (mret tt) ([], true).
Proof. intros st Hs. pose proof (prints_nothing (co_out st) Hs) as H. split; [reflexivity|by left]. Qed.

Lemma shows_list {A} (f : A -> contents unit) (g : A -> text) l : (forall a, a ∈ l -> shows (f a) (g a)) -> shows (mapM_ f l) (texts (g <$> l)).
Proof.
  induction l as [|a l IH]; intros Hf; cbn [mapM_ fmap list_fmap texts foldr]; [apply shows_nothing|].
  apply shows_bind; [apply Hf; left|]. intros _. apply IH. intros b Hb. apply Hf. by right.
Qed.

Lemma texts_plain {A} (f : A -> list Z) l : texts ((fun a => (f a, true)) <$> l) = (concat (f <$> l), true).
Proof. induction l as [|a l IH]; [reflexivity|]. cbn [fmap list_fmap texts foldr]. unfold texts in IH. by rewrite IH. Qed.

Lemma prints_if (b : bool) m t : (b = true -> prints m t) -> prints (if b then m else mret tt) (if b then t else []).
Proof. destruct b; intros H; [by apply H|apply prints_nothing]. Qed.

Lemma prints_value {A} (m : ostream unit) (x : A) (k : A -> ostream unit) t t' :
  prints m t -> prints (k x) t' -> prints (y ← (_ ← m; mret x); k y) (t ++ t').
Proof.
  intros Hm Hk. assert (forall s, (y ← (_ ← m; mret x); k y) s = (_ ← m; k x) s) as E.
  { intros s. unfold mbind, stM_bind. by destruct (m s) as [? [|]]. }
  intros s Hs. rewrite E. by apply (prints_bind m (k x)).
Qed.

(** A word, after what precedes it; [sep'] precedes the next one. *)
Lemma prints_word (b : bool) sep word sep' k t :
  prints (k (if b then sep' else sep)) t ->
  prints (sep ← (if b then _ ← write_cstring sep; _ ← write_cstring word; mret sep' else mret sep); k sep) ((if b then sep ++ word else []) ++ t).
Proof.
  destruct b; intros Hk; [|exact Hk]. rewrite <- app_assoc.
  intros s Hs. change ((sep ← (_ ← write_cstring sep; _ ← write_cstring word; mret sep'); k sep) s) with
    ((sep ← (_ ← write_cstring sep; (_ ← write_cstring word; mret sep')); k sep) s).
  assert ((sep ← (_ ← write_cstring sep; (_ ← write_cstring word; mret sep')); k sep) s =
    (_ ← write_cstring sep; (y ← (_ ← write_cstring word; mret sep'); k y)) s) as ->.
  { unfold mbind, stM_bind. by destruct (write_cstring sep s) as [? [|]]. }
  apply prints_bind; [apply write_cstring_prints| |exact Hs]. by apply prints_value; [apply write_cstring_prints|].
Qed.

Lemma write_usage_prints use : prints (write_usage use) (usage_text use).
Proof.
  unfold write_usage, usage_text. apply (prints_bind _ _ [123]); [apply write_char_prints|].
  assert (joined (chars ", ") (usage_words use) ++ [125] =
    (if has use U_DEFD then chars "DEFD" else []) ++
    (if has use U_MULT then (if has use U_DEFD then chars ", " else []) ++ chars "MULT" else []) ++
    (if has use U_DECD then (if has use U_MULT then chars ", " else if has use U_DEFD then chars ", " else []) ++ chars "DECD" else []) ++
    (if has use U_USED then (if has use U_DECD then chars ", " else if has use U_MULT then chars ", " else if has use U_DEFD then chars ", " else []) ++ chars "USED" else []) ++ [125])
    as ->.
  { unfold usage_words. rewrite !filter_cons. cbn [fst]. change (filter _ []) with (@nil (Z * string)).
    by destruct (has use U_DEFD), (has use U_MULT), (has use U_DECD), (has use U_USED). }
  assert (forall (b : bool) k t, prints (k (if b then chars ", " else chars "")) t ->
    prints (sep ← (if b then _ ← write_cstring (chars "DEFD"); mret (chars ", ") else mret (chars "")); k sep) ((if b then chars "DEFD" else []) ++ t)) as Hfirst.
  { intros [] k t Hk; [by apply prints_value; [apply write_cstring_prints|]|exact Hk]. }
  apply Hfirst. apply prints_word, prints_word. apply prints_bind; [|apply write_char_prints].
  apply prints_if. intros _. apply prints_bind; apply write_cstring_prints.
Qed.

Lemma show_name_shows capsules t p v : name_view t p = Some v -> shows (name_entry_show_content capsules t p) (name_text capsules v).
Proof.
  destruct v as [k d]. intros Hv. apply name_view_inv in Hv as [Ed Ek]. unfold name_entry_show_content, name_entry_get_use. rewrite Ed, Ek.
  set (capsule := fun o : option LibCapsuleT => match o with
    | Some capsule => (c_chars (lib_capsule_name capsule) ++ [ch_quote; ch_newline], true)
    | None => ([], false)
    end : text).
  set (c := (c ← lib_definition d; capsules !! c) : option LibCapsuleT).
  assert (name_text capsules (k, d) = (chars "  " ++ write_name_key k ++ [32] ++ usage_text (get_use d) ++ chars " '" ++ (capsule c).1, (capsule c).2)) as ->.
  { unfold name_text, capsule. cbn [fst snd]. fold c. destruct c; cbn [fst snd]; [by rewrite <- !app_assoc|by rewrite app_nil_r]. }
  apply shows_then; [apply write_cstring_prints|]. apply shows_then; [apply write_chars_prints|]. apply shows_then; [apply write_char_prints|].
  apply shows_then; [apply write_usage_prints|]. apply shows_then; [apply write_cstring_prints|]. cbn [mbind option_bind fmap option_fmap option_map].
  change (c ← lib_definition d; capsules !! c) with c.
  unfold capsule. destruct c as [x|]; cbn [fst snd].
  - rewrite <- (app_nil_r [ch_quote; ch_newline]), app_assoc.
    eapply (shows_ext _ (_ ← out (write_cstring (c_chars (lib_capsule_name x))); _ ← out (write_char ch_quote); out write_newline)).
    { intros []. reflexivity. }
    rewrite <- app_assoc, app_nil_r. change [ch_quote; ch_newline] with ([ch_quote] ++ [ch_newline]).
    apply shows_then; [apply write_cstring_prints|]. apply shows_then; [apply write_char_prints|]. apply shows_out, write_newline_prints.
  - intros st Hs. pose proof (prints_nothing (co_out st) Hs) as H. split; [reflexivity|by left].
Qed.

Lemma show_shape_shows capsules s : shows (shape_entry_show_content capsules s) (shape_text capsules s).
Proof.
  unfold shape_entry_show_content, shape_text. set (ns := texts _). assert (shows (mapM_ (name_entry_show_content capsules (se_names s)) (name_table_iter (se_names s))) ns) as Hns.
  { unfold ns, names_of. clear ns. pose proof (iter_view (se_names s)) as Hv. revert Hv. generalize (name_table_iter (se_names s)) as ps.
    induction ps as [|p ps IH]; intros Hv; [apply shows_nothing|]. cbn [mapM_ omap list_omap].
    destruct (Hv p ltac:(left)) as (v & Ev). rewrite Ev. cbn [fmap list_fmap texts foldr].
    apply shows_bind; [by apply show_name_shows|]. intros _. apply IH. intros q Hq. apply Hv. by right. }
  destruct ns as [ns b]. rewrite then_true, <- app_assoc. apply shows_then; [apply write_nstring_prints|].
  apply (shows_then (write_char 58) _ [58]); [apply write_char_prints|]. apply (shows_then write_newline _ [ch_newline]); [apply write_newline_prints|exact Hns].
Qed.

Lemma show_version_shows library : shows (show_version library) (version_text library, true).
Proof.
  unfold show_version, version_text. apply shows_then; [apply write_char_prints|]. apply shows_then; [apply write_unsigned_prints|].
  apply shows_then; [apply write_cstring_prints|]. apply shows_then; [apply write_unsigned_prints|].
  apply (shows_then (write_char 93) _ [93]); [apply write_char_prints|]. apply shows_out, write_newline_prints.
Qed.

Lemma show_capsule_shows want_size c : shows (show_capsule want_size c) (capsule_text want_size c, true).
Proof.
  unfold show_capsule, capsule_text. apply shows_then; [apply write_cstring_prints|]. rewrite <- then_true. apply shows_bind; [|intros _; apply shows_out, write_newline_prints].
  destruct want_size; [|apply shows_nothing]. apply shows_then; [apply write_cstring_prints|]. apply shows_then; [apply write_unsigned_prints|].
  apply shows_out, write_char_prints.
Qed.

Lemma show_index_shows capsules shapes : wf_shapes shapes ->
  shows (mapM_ (fun p => s ← co_need (st_entries shapes !! p); shape_entry_show_content capsules s) (shape_table_iter shapes))
    (texts (shape_text capsules <$> shapes_of shapes)).
Proof.
  intros Hwf. unfold shapes_of. pose proof (fun p => shape_table_iter_lookup shapes p Hwf) as Hp. revert Hp. generalize (shape_table_iter shapes) as ps.
  induction ps as [|p ps IH]; intros Hp; [apply shows_nothing|]. cbn [mapM_ omap list_omap].
  destruct (Hp p ltac:(left)) as (s & Es). rewrite Es. cbn [fmap list_fmap texts foldr].
  apply shows_bind; [|intros _; apply IH; intros q Hq; apply Hp; by right].
  eapply shows_ext; [|apply show_shape_shows]. by intros [].
Qed.

(** ** The whole *)

(** Some name of the index has no capsule that defines it. *)
Definition undefined_name (shapes : list ShapeEntryT) : Prop :=
  exists s v, s ∈ shapes /\ v ∈ names_of (se_names s) /\ lib_definition v.2 = None.

Lemma texts_break {A} (f : A -> text) l : (texts (f <$> l)).2 = false -> exists a, a ∈ l /\ (f a).2 = false.
Proof.
  induction l as [|a l IH]; [discriminate|]. cbn [fmap list_fmap texts foldr]. unfold then_text. destruct (f a).2 eqn:E.
  - cbn [snd]. intros H. destruct (IH H) as (b & Hb & E'). exists b. split; [by right|exact E'].
  - intros _. exists a. split; [left|exact E].
Qed.

(** The listing breaks off only where a name is not defined. *)
Lemma listing_break library shapes want_index want_size want_version n :
  safe_shapes (library_tables n) shapes -> (n <= num_capsules library)%nat ->
  (listing library (shapes_of shapes) want_index want_size want_version).2 = false -> undefined_name (shapes_of shapes).
Proof.
  intros Hs Hn. unfold listing. destruct (lib_complete library); [|discriminate]. unfold then_text. cbn [snd]. destruct want_index; [|discriminate].
  intros (s & Hin & E)%texts_break. unfold shape_text, then_text in E. cbn [snd] in E. apply texts_break in E as (v & Hv & E).
  exists s, v. split; [exact Hin|]. split; [exact Hv|]. unfold name_text in E. destruct (lib_definition v.2) as [c|] eqn:Ec; [|done]. exfalso.
  cbn [mbind option_bind] in E. destruct (lib_capsules library !! c) as [x|] eqn:Ex; [discriminate|]. apply lookup_ge_None in Ex.
  apply list_elem_of_omap in Hin as (p & _ & Ep). apply list_elem_of_omap in Hv as (q & _ & Eq). destruct v as [k d].
  apply name_view_inv in Eq as [Ed _]. pose proof (ss_legal _ _ (sh_all _ _ Hs _ _ Ep) q d Ed c Ec) as Hc. unfold num_capsules in Hn. cbn in *. lia.
Qed.

(** What [contents_main] does with a library: its listing [t] goes to the
    standard output, [d], which has the part it has room for when [exit] has
    closed it. An output that is full is noticed only when something of it is
    passed on before; and what was not passed on is lost where the program
    crashes. *)
Definition printed (d : DeviceT) (t : text) (st : ContentsT) (x : result contents_exn unit) : Prop :=
  at_exit (os_file (co_out st)) = taken d t.1 /\
  match x with
  | Throw (CX_output e) => e = XX_ostream_write_error chars_stdout /\ ~ fits_on d t.1 /\ forall n, buffers d n -> (n < List.length t.1)%nat
  | _ => x = (if t.2 then Ok tt else Throw (CX_link Stop)) /\ ostream_line (co_out st) = u32 (1 + newlines t.1) /\
      exists n, on_device (os_file (co_out st)) = taken d (take n t.1) /\ (buffers d (List.length t.1) -> n = O)
  end.

Definition contents_outcome (device : Prop) (junk : nat -> Z) (junk_nstring : nat -> NStringT) (open_file : list Z -> option (list (option Z)))
    (g : StaticsT) (reports : ReportsT) (d : DeviceT) (want_index want_size want_version : bool) (file : list Z)
    (r : ContentsT * result contents_exn unit) : Prop :=
  let '(st, x) := r in
  let nothing := at_exit (os_file (co_out st)) = [] in
  match open_file file with
  | None => nothing /\ l_errors (co_link st) = add_errors 1 reports /\
      (x = Ok tt \/ x = Throw (CX_link Fatal_error) /\ too_many (l_errors (co_link st)))
  | Some data =>
      match library_read junk junk_nstring file 0%nat (Link (tdf_reader_open data file (u8 (junk 0%nat))) g unit_table_create shape_table_create reports) with
      | (l, Ok library) =>
          let t := listing library (shapes_of (l_shapes l)) want_index want_size want_version in
          (lib_complete library = true \/ l_serious l = true) /\
          (t.2 = false -> undefined_name (shapes_of (l_shapes l))) /\
          l_errors (co_link st) = l_errors l /\ l_shapes (co_link st) = l_shapes l /\ printed d t st x
      | (_, Throw e) => nothing /\ x = Throw (CX_link e) /\
          match e with
          | Stop => exhausted (co_link st)
          | Fatal_error => too_many (l_errors (co_link st))
          | XX_tdf (XX_bistream_read_error _) => device
          | _ => False
          end
      end
  end.

Section Main.
Variable junk : nat -> Z.
Variable junk_nstring : nat -> NStringT.
Variable device : Prop.
Variable open_file : list Z -> option (list (option Z)).
Hypothesis files_ok : forall name data, open_file name = Some data -> Forall (fun o => from_option is_byte device o) data.

(** What follows the reading of the library. *)
Definition show_library (want_index want_size want_version : bool) (library : LibraryT) (shapes : ShapeTableT) : contents unit :=
  if lib_complete library then
    _ ← (if want_version then show_version library else mret tt);
    _ ← mapM_ (show_capsule want_size) (lib_capsules library);
    if want_index then
      mapM_ (fun p => s ← co_need (st_entries shapes !! p); shape_entry_show_content (lib_capsules library) s) (shape_table_iter shapes)
    else mret tt
  else mret tt.

Lemma show_library_shows want_index want_size want_version library shapes : wf_shapes shapes ->
  shows (show_library want_index want_size want_version library shapes) (listing library (shapes_of shapes) want_index want_size want_version).
Proof.
  intros Hwf. unfold show_library, listing. destruct (lib_complete library); [|apply shows_nothing].
  assert (forall x y z, then_text (x ++ y, true) z = then_text (x, true) (then_text (y, true) z)) as ->.
  { intros x y [z b]. unfold then_text. cbn. by rewrite app_assoc. }
  apply shows_bind; [destruct want_version; [apply show_version_shows|apply shows_nothing]|]. intros _.
  apply shows_bind.
  - rewrite <- texts_plain. apply shows_list. intros c _. apply show_capsule_shows.
  - intros _. destruct want_index; [by apply show_index_shows|apply shows_nothing].
Qed.

(** What was printed, and how that ended. *)
Lemma shows_printed d (t : text) l st x : co_link st = l /\
  (wrote t.1 (ostream_setup d) (co_out st) /\ x = (if t.2 then Ok tt else Throw (CX_link Stop)) \/
   cut_short t.1 (ostream_setup d) (co_out st) /\ x = Throw (output_error (ostream_setup d))) -> printed d t st x.
Proof.
  intros [_ [[Hw ->]|[Hc ->]]].
  - destruct Hw as [[[Hf Hb] _ _] D C N L]. change (os_device (co_out st) = d) in D. change (os_chars (co_out st) = t.1) in C.
    unfold os_device, os_chars in *. split; [by rewrite (at_exit_ok _ Hf), D, C|]. assert (exists n, on_device (os_file (co_out st)) = taken d (take n t.1) /\ (buffers d (List.length t.1) -> n = O)) as Hn.
    { exists (f_sent (os_file (co_out st))). split; [unfold on_device; by rewrite D, C|]. intros Hd. apply (Hb (List.length t.1)); [by rewrite D|by rewrite C]. }
    destruct t.2; by split_and!.
  - pose proof (cut_full _ _ _ Hc) as (H1 & H2 & H3). change (os_chars (ostream_setup d) ++ t.1) with t.1 in *. change (os_device (ostream_setup d)) with d in *.
    destruct Hc as [[Hf _] Hfail Hd (t' & rest & Et & Ec)]. change (os_chars (co_out st) = t') in Ec. change (os_device (co_out st) = d) in Hd.
    unfold os_device, os_chars in *. split; [|by split_and!]. rewrite (at_exit_ok _ Hf), Hd, Ec.
    destruct (failed_full _ Hf Hfail) as [Hn _]. rewrite Hd, Ec in Hn. by rewrite Et, taken_app.
Qed.

Lemma contents_file g reports d want_index want_size want_version file data st :
  known_unit_sets g -> quiet reports -> open_file file = Some data -> co_out st = ostream_setup d ->
  co_link st = Link (tdf_reader_open data file (u8 (junk 0))) g unit_table_create shape_table_create reports ->
  contents_outcome device junk junk_nstring open_file g reports d want_index want_size want_version file
    ((_ ← (_ ← library_content junk junk_nstring file want_index want_size want_version; co_in_link (rd tdf_reader_close)); co_in_link exit_on_error) st).
Proof.
  intros Hg Hq Ho Hout Hl. destruct st as [l0 o]. cbn in Hout, Hl. subst l0 o.
  pose proof (library_read_ok junk junk_nstring device [] 0 None 0 file 0 _ (start_index device [] 0 None g data file (u8 (junk 0)) reports Hg Hq (files_ok _ _ Ho)) (le_n _)) as H.
  unfold contents_outcome. rewrite Ho.
  set (l0 := Link (tdf_reader_open data file (u8 (junk 0))) g unit_table_create shape_table_create reports) in *.
  assert (library_content junk junk_nstring file want_index want_size want_version (Contents l0 (ostream_setup d)) =
    let '(l, x) := library_read junk junk_nstring file 0 l0 in
    match x with
    | Ok lib => show_library want_index want_size want_version lib (l_shapes l) (Contents l (ostream_setup d))
    | Throw e => (Contents l (ostream_setup d), Throw (CX_link e))
    end) as Er.
  { unfold library_content, show_library, co_in_link, mbind, stM_bind. cbn -[library_read].
    change (l_shapes l0) with shape_table_create; unfold l0; cbn -[library_read]; destruct (library_read _ _ _ _ _) as [l [lib|e]]; reflexivity. }
  unfold mbind, stM_bind. rewrite Er. destruct (library_read junk junk_nstring file 0 l0) as [l [lib|e]] eqn:El.
  2: { split; [apply at_exit_nothing|]. split; [reflexivity|]. destruct e as [| |[]| | |]; try contradiction; exact H. }
  destruct H as (Hlater & _ & _ & Hcomp & [c Hc]).
  pose proof (sl_shapes _ _ _ _ _ _ _ Hc) as Hs. cbn [max] in Hs.
  assert (wf_shapes (l_shapes l)) as Hwf by apply Hs.
  pose proof (show_library_shows want_index want_size want_version lib (l_shapes l) Hwf (Contents l (ostream_setup d)) (ostream_setup_ok d)) as Hshow.
  pose proof (listing_break lib (l_shapes l) want_index want_size want_version _ Hs ltac:(lia)) as Hb.
  set (t := listing _ _ _ _ _) in *. cbn [co_out co_link] in Hshow.
  assert (lib_complete lib = true \/ l_serious l = true) as Hcomp' by tauto.
  destruct (show_library _ _ _ _ _ _) as [st x]. pose proof (shows_printed d t l st x Hshow) as Hp. destruct Hshow as [Ek _].
  destruct x as [[]|e]; [|by rewrite Ek; split_and!].
  unfold co_in_link. destruct (close_link (co_link st)) as (r & ->). cbn [co_link]. rewrite exit_quiet.
  - cbn. rewrite Ek. by split_and!.
  - cbn. rewrite Ek. eapply quiet_later; [apply Hlater|exact Hq].
Qed.
End Main.

Lemma contents_main_outcome junk junk_nstring (device : Prop) open_file args g reports d :
  (forall name data, open_file name = Some data -> Forall (fun o => from_option is_byte device o) data) -> known_unit_sets g -> quiet reports ->
  let r := contents_main junk junk_nstring open_file args (contents_start g reports d) in
  (forall file, files args = [file] ->
    contents_outcome device junk junk_nstring open_file g reports d (content_index args) (content_size args) (content_version args) file r) /\
  (List.length (files args) <> 1%nat -> r = (contents_start g reports d, Throw (CX_link Fatal_error))).
Proof.
  intros Hfiles Hg Hq. cbn zeta. unfold contents_main, arg_data_get_content_index, arg_data_get_content_size, arg_data_get_content_version.
  split; [intros file ->|intros Hn; by destruct (files args) as [|? [|]]].
  destruct (open_file file) as [data|] eqn:Ho.
  - exact (contents_file junk junk_nstring device open_file Hfiles g reports d (content_index args) (content_size args) (content_version args) file data
      (Contents (Link (tdf_reader_open data file (u8 (junk 0%nat))) g unit_table_create shape_table_create reports) (ostream_setup d)) Hg Hq Ho eq_refl eq_refl).
  - unfold contents_outcome. rewrite Ho. unfold mbind, stM_bind, co_in_link, serious. cbn [contents_start co_link builder_start l_errors].
    destruct (serious_error_cases reports) as [[_ ->]|[Ht ->]].
    + rewrite exit_quiet by exact Hq. split; [apply at_exit_nothing|]. split; [reflexivity|by left].
    + split; [apply at_exit_nothing|]. split; [reflexivity|by right].
Qed.

(** C9: listing a library ends, whatever its file holds: the version, the
    names and sizes of its capsules and its index, as they are asked for, are
    printed as a function of the library that was read, line by line, and
    nothing is printed of one that is not complete. The program uses a null
    pointer exactly where the listing reaches a name of the index that no
    capsule defines, and what the C library has not passed on by then is lost.
    Otherwise the output has, when the program has ended, as much of the listing
    as it has room for. If that is not all of it, the error is thrown only when
    the C library passes on too much before the program ends, which it does not
    while the listing fits its buffer: then the program does not notice. An
    error too many ends the program, and other than one file is a fatal
    error. *)
Theorem contents_main_ends junk junk_nstring (device : Prop) open_file args g reports d :
  (forall name data, open_file name = Some data -> Forall (fun o => from_option is_byte device o) data) -> known_unit_sets g -> quiet reports ->
  let r := contents_main junk junk_nstring open_file args (contents_start g reports d) in
  (forall file, files args = [file] ->
    contents_outcome device junk junk_nstring open_file g reports d (content_index args) (content_size args) (content_version args) file r) /\
  (List.length (files args) <> 1%nat -> r = (contents_start g reports d, Throw (CX_link Fatal_error))).
Proof. apply contents_main_outcome. Qed.

(** The library of TldExtractSpec; and one whose index has a name that is only
    used, which nothing in a library that is built has. *)
Definition ex_used_bytes : list Z := Eval vm_compute in
  let m := _ ← tdf_write_bytes library_magic; _ ← tdf_write_int 4; _ ← tdf_write_int 1; _ ← tdf_write_align;
    _ ← tdf_write_int 0; _ ← tdf_write_int 1; _ ← write_lib_capsule (fun _ => 0) ([97], NString 1 [7]);
    _ ← tdf_write_int 1; _ ← tdf_write_string tag_name; _ ← tdf_write_int 1;
    _ ← tdf_write_name (KT_STRING (NString 1 [120])); _ ← tdf_write_int U_USED; _ ← tdf_write_int 0; tdf_writer_close in
  bytes_in_file (m (tdf_writer_open (takes_all at_close) [] 0)).1.

Definition ex_lib_files (name : list Z) : option (list (option Z)) :=
  if bool_decide (name = [108]) then Some (Some <$> ex_lib_bytes)
  else if bool_decide (name = [117]) then Some (Some <$> ex_used_bytes) else None.

Lemma ex_lib_files_ok name data : ex_lib_files name = Some data -> Forall (fun o => from_option is_byte False o) data.
Proof.
  unfold ex_lib_files. case_bool_decide; [|case_bool_decide; [|discriminate]]; intros <-%(inj Some); apply Forall_fmap.
  - assert (Forall is_byte ex_lib_bytes) as Hb by (apply (bool_decide_eq_true_1 _); vm_compute; reflexivity). exact Hb.
  - assert (Forall is_byte ex_used_bytes) as Hb by (apply (bool_decide_eq_true_1 _); vm_compute; reflexivity). exact Hb.
Qed.

Definition ex_contents_args (file : list Z) : ArgDataT :=
  arg_data_set_files (arg_data_set_content_size (arg_data_set_content_index (arg_data_set_content_version (arg_data_init []) true) true) true) [file].

Definition ex_contents (d : DeviceT) (file : list Z) : ContentsT * result contents_exn unit :=
  contents_main (fun _ => 0) (fun _ => nstring_init) ex_lib_files (ex_contents_args file) (contents_start initial_statics initial_reports d).

Definition ex_lines (l : list string) : list Z := concat ((fun line => chars line ++ [ch_newline]) <$> l).

(** A device that is full, and one that gets what is written at once. *)
Definition full : DeviceT := Device (Some O) at_close.
Definition unbuffered : DeviceT := Device (Some 3%nat) (fun before _ new => List.length (before ++ new)).

Lemma contents_main_ends_witness :
  contents_outcome False (fun _ => 0) (fun _ => nstring_init) ex_lib_files initial_statics initial_reports full true true true [108]
    (ex_contents full [108]) /\
  at_exit (os_file (co_out (ex_contents (takes_all at_close) [108]).1)) =
    ex_lines ["[4, 1]"; "d/a (2)"; "b (0)"; "tag:"; "  tag {DEFD, DECD, USED} 'b'"; "  [tag.] {MULT, DECD} 'd/a'"]%string /\
  (ex_contents full [108]).2 = Ok tt /\ at_exit (os_file (co_out (ex_contents full [108]).1)) = [] /\
  (ex_contents unbuffered [108]).2 = Throw (CX_output (XX_ostream_write_error chars_stdout)) /\
  os_chars (co_out (ex_contents full [117]).1) = ex_lines ["[4, 1]"; "a (1)"; "tag:"]%string ++ chars "  x {USED} '" /\
  (ex_contents full [117]).2 = Throw (CX_link Stop).
Proof.
  split; [|vm_compute; repeat split].
  exact (proj1 (contents_main_ends (fun _ => 0) (fun _ => nstring_init) False ex_lib_files (ex_contents_args [108]) initial_statics initial_reports full
    ex_lib_files_ok (or_introl eq_refl) eq_refl) [108] eq_refl).
Defined.
