(* ===== verification/TldInputs.v ===== *)
(** * TldInputs: the capsules of a library file

    Which capsules the reader of libraries (tld/src/adt/library.c) finds in a
    file does not depend on what the program has read before: they are what it
    finds in a program that has read nothing. *)
From stdpp Require Import base list list_numbers numbers.
From Stdlib Require Import ZArith Lia.
From S2P Require Import Prelude Codec ExdsString ExdsError TldNameKey TldIO TldIOSpec HashTable TldNames TldShapes TldCapsule TldLibrary TldResolve TldArgs TldLinker TldBuilder.

(** An input of the builder: its name, and what can be read of it. *)
Definition input : Type := list Z * list (option Z).

Definition capsule_input (c : LibCapsuleT) : input := (c_chars (lib_capsule_name c), Some <$> n_contents (lib_capsule_contents c)).

(** ** Operations on the reader *)

(** A value that [m] gives, it gives from any state with the same reader. *)
Definition only_reader {A} (m : link A) : Prop := forall l1 l2 l1' a,
  l_reader l1 = l_reader l2 -> m l1 = (l1', Ok a) ->
  exists l2', m l2 = (l2', Ok a) /\ l_reader l1' = l_reader l2' /\ l_statics l2' = l_statics l2.

Lemma only_bind {A B} (m : link A) (k : A -> link B) : only_reader m -> (forall a, only_reader (k a)) -> only_reader (m ≫= k).
Proof.
  intros Hm Hk l1 l2 l1' b Hr. unfold mbind, stM_bind. destruct (m l1) as [l3 [a|e]] eqn:E; [|discriminate].
  destruct (Hm l1 l2 l3 a Hr E) as (l4 & -> & Hr' & Hg). intros E'. destruct (Hk a l3 l4 l1' b Hr' E') as (l5 & -> & Hr'' & Hg').
  exists l5. split; [reflexivity|]. split; [exact Hr''|congruence].
Qed.

Lemma throws_not {A} (m : link unit) e l l' (a : A) : (_ ← m; st_throw e) l <> (l', Ok a).
Proof. unfold mbind, stM_bind. destruct (m l) as [l1 [u|e']]; discriminate. Qed.

Lemma lib_fail_not {A B} (k : A -> link B) l l' (b : B) : (lib_fail ≫= k) l <> (l', Ok b).
Proof.
  unfold mbind at 1, stM_bind at 1. destruct (lib_fail l) as [l1 [a|e]] eqn:E; [|discriminate]. by apply throws_not in E.
Qed.

Lemma only_rd {A} (m : reader A) : only_reader (rd m).
Proof.
  intros l1 l2 l1' a Hr. unfold rd. rewrite Hr. destruct (m (l_reader l2)) as [r [b|e]].
  - intros [= <- <-]. eexists. by split_and!.
  - destruct e; try discriminate. by intros H%throws_not.
Qed.

Lemma only_ret {A} (a : A) : only_reader (mret a).
Proof. intros l1 l2 l1' b Hr [= <- <-]. exists l2. by split_and!. Qed.

Lemma only_fail {A} : only_reader (lib_fail : link A).
Proof. intros l1 l2 l1' b Hr H. by apply throws_not in H. Qed.

Section Inputs.
Variable junk : nat -> Z.
Variable junk_nstring : nat -> NStringT.

Lemma only_capsules library n : only_reader (lib_capsules_loop junk library n).
Proof.
  induction n as [|n IH]; cbn [lib_capsules_loop]; [apply only_ret|]. apply only_bind; [apply only_rd|]. intros s.
  destruct (nstring_contains s 0); [apply only_fail|]. apply only_bind; [apply only_rd|]. intros k.
  apply only_bind; [apply only_rd|]. intros contents. apply only_bind; [exact IH|]. intros cs. apply only_ret.
Qed.

(** The version is compared with what was read before; at first with nothing. *)
Lemma header_first l1 l2 l1' a :
  l_reader l1 = l_reader l2 -> capsule_major_version (l_statics l2) = 0 -> library_read_header junk l1 = (l1', Ok a) ->
  exists l2', library_read_header junk l2 = (l2', Ok a) /\ l_reader l1' = l_reader l2'.
Proof.
  intros Hr Hv. unfold library_read_header. set (m4 := nstring_init_length junk 4). unfold mbind, stM_bind.
  destruct (rd (tdf_read_bytes m4) l1) as [l3 [magic|e]] eqn:E; [|discriminate].
  destruct (only_rd _ l1 l2 l3 magic Hr E) as (l4 & -> & Hr4 & Hg4). destruct (negb _); [by intros H%throws_not|].
  destruct (rd tdf_read_int l3) as [l5 [major|e]] eqn:E5; [|discriminate].
  destruct (only_rd _ l3 l4 l5 major Hr4 E5) as (l6 & -> & Hr6 & Hg6).
  destruct (rd tdf_read_int l5) as [l7 [minor|e]] eqn:E7; [|discriminate].
  destruct (only_rd _ l5 l6 l7 minor Hr6 E7) as (l8 & -> & Hr8 & Hg8). unfold st_get. cbn beta iota zeta.
  assert (capsule_major_version (l_statics l8) = 0) as -> by congruence. destruct (major <? 4); [by intros H%lib_fail_not|]. cbn [Z.eqb].
  assert (forall l l', l_reader l = l_reader l' ->
    match (match rd tdf_read_align l with (l, Ok _) => (mret (major, minor) : link _) l | (l, Throw e) => (l, Throw e) end) with
    | (l0, Ok x) => exists l0', match rd tdf_read_align l' with (l', Ok _) => (mret (major, minor) : link _) l' | (l', Throw e) => (l', Throw e) end = (l0', Ok x) /\
        l_reader l0 = l_reader l0'
    | _ => True
    end) as Hend.
  { intros l l' Hl. destruct (rd tdf_read_align l) as [l9 [[]|e]] eqn:E9; [|exact I].
    destruct (only_rd _ l l' l9 tt Hl E9) as (l10 & -> & H & _). cbn. eauto. }
  intros E1.
  destruct (capsule_major_version (l_statics l7) =? 0).
  - cbn [set_statics] in *. match type of E1 with context [rd tdf_read_align ?l] => specialize (Hend l) end.
    match goal with |- context [rd tdf_read_align ?l] => specialize (Hend l Hr8) end. rewrite E1 in Hend. exact Hend.
  - destruct (negb _); [by apply lib_fail_not in E1|]. cbn [mret stM_ret set_statics] in *. specialize (Hend l7).
    match goal with |- context [rd tdf_read_align ?l] => specialize (Hend l Hr8) end. rewrite E1 in Hend. exact Hend.
Qed.

Lemma capsules_first library l1 l2 l1' lib :
  l_reader l1 = l_reader l2 -> capsule_major_version (l_statics l2) = 0 -> library_read_capsules junk library l1 = (l1', Ok lib) ->
  exists l2', library_read_capsules junk library l2 = (l2', Ok lib).
Proof.
  intros Hr Hv. unfold library_read_capsules. unfold mbind at 1, stM_bind at 1.
  destruct (library_read_header junk l1) as [l3 [[major minor]|e]] eqn:E; [|discriminate].
  destruct (header_first l1 l2 l3 _ Hr Hv E) as (l4 & E4 & Hr4). intros E1. unfold mbind at 1, stM_bind at 1. rewrite E4.
  match type of E1 with ?m l3 = _ => assert (only_reader m) as Ho end.
  { apply only_bind; [apply only_rd|]. intros ty. destruct (_ <=? ty); [apply only_fail|].
    apply only_bind; [|intros; apply only_ret]. apply only_bind; [apply only_rd|]. intros n. apply only_capsules. }
  destruct (Ho l3 l4 l1' lib Hr4 E1) as (l5 & E5 & _). by exists l5.
Qed.

(** A library that is complete has the capsules read first. *)
Lemma library_read_first library base l l' lib :
  library_read junk junk_nstring library base l = (l', Ok lib) -> lib_complete lib = true ->
  exists l1 lib1, library_read_capsules junk library l = (l1, Ok lib1) /\ lib_capsules lib1 = lib_capsules lib.
Proof.
  unfold library_read, lib_handler, mbind, stM_bind.
  destruct (library_read_capsules junk library l) as [l1 [lib1|e]]; cbn [mret stM_ret].
  2: { destruct e as [| |[]| | |]; try discriminate; by intros [= _ <-]. }
  destruct (library_read_version_0_index junk junk_nstring base lib1 l1) as [l2 [u|e]]; cbn [mret stM_ret].
  - intros [= _ <-] _. eauto.
  - destruct e as [| |[]| | |]; try discriminate; intros [= _ <-] _; eauto.
Qed.

(** ** The inputs of the command line *)

Variable open_file : list Z -> option (list (option Z)).

Definition library_inputs_of (file : list Z) (data : list (option Z)) : list input :=
  match library_read_capsules junk file (Link (tdf_reader_open data file (u8 (junk 0))) initial_statics unit_table_create shape_table_create initial_reports) with
  | (_, Ok library) => capsule_input <$> lib_capsules library
  | _ => []
  end.

Definition library_inputs (file : list Z) : list input := from_option (library_inputs_of file) [] (open_file file).

Definition file_input (file : list Z) : option input := data ← open_file file; Some (c_chars file, data).

(** The capsules of the libraries come before the files. *)
Definition inputs (arg_data : ArgDataT) : list input :=
  concat (library_inputs <$> library_files arg_data) ++ omap file_input (files arg_data).
End Inputs.
