(* ===== verification/TldBuilderSafe.v ===== *)
(** * TldBuilderSafe: the builder's reading of any input

    What [builder_read_capsules] (tld/src/frontend/builder.c) keeps of the
    invariant of TldLinked, on any files and libraries: the names that are
    defined point to the capsules read so far, and unless an error was
    reported these are the inputs of the command line, with their bytes. *)
From stdpp Require Import base list list_numbers numbers.
From Stdlib Require Import ZArith Lia.
From S2P Require Import Prelude Codec ExdsString ExdsError TldNameKey TldIO TldIOSpec HashTable TldNames.
From S2P Require Import TldRename TldNameTable TldShapes TldShapesSpec TldCapsule TldCapsuleSpec TldUsage TldRead TldReadUnits TldLibrary.
From S2P Require Import TldSafeState TldUnitSets TldSafeRead TldSafeLink TldStored TldLinked TldArgs TldLinker TldResolve TldBuilder TldInputs TldLibrarySafe.

(** The capsule holds the input. *)
Definition stored (c : CapsuleT) (i : input) : Prop :=
  c_chars (c_name c) = i.1 /\
  exists bytes, c_contents c = Some (NString (length bytes) bytes) /\ Some <$> bytes = i.2 /\ Forall is_byte bytes.

(** A name is defined by one of [n] capsules, and its usage says so. *)
Definition known (n : nat) (u : Z) (c : nat) : Prop := (c < n)%nat /\ has u U_DEFD || has u U_MULT = true.

Lemma known_more n u v c : known n u c -> known n (Z.lor u v) c.
Proof. intros [H1 H2]. split; [exact H1|]. rewrite !has_lor. by destruct (has u U_DEFD), (has u U_MULT), (has v U_DEFD). Qed.

Lemma known_new n u v : has v U_DEFD || has v U_MULT = true -> known (S n) (Z.lor u v) n.
Proof. intros H. split; [lia|]. rewrite !has_lor. by destruct (has v U_DEFD), (has v U_MULT), (has u U_DEFD), (has u U_MULT). Qed.

Lemma known_le n m u c : (n <= m)%nat -> known n u c -> known m u c.
Proof. intros Hn [H1 H2]. split; [lia|exact H2]. Qed.

(** ** How an operation ends *)

Section Ends.
Variable device : Prop.

(** The program stops when a shape is out of identifiers or an error was one too
    many, or goes on to use what an error left unwritten. *)
Definition builds {A} (m : link A) (l : LinkT) (Q : A -> LinkT -> Prop) : Prop :=
  match m l with
  | (l', Ok a) => Q a l'
  | (l', Throw Stop) => exhausted l' \/ l_serious l' = true
  | (l', Throw Fatal_error) => too_many (l_errors l')
  | (_, Throw (XX_tdf (XX_bistream_read_error _))) => device
  | (_, Throw _) => False
  end.

Lemma builds_bind {A B} (m : link A) (k : A -> link B) l Q R :
  builds m l Q -> (forall a l', Q a l' -> builds (k a) l' R) -> builds (m ≫= k) l R.
Proof. unfold builds, mbind, stM_bind. intros Hm Hk. destruct (m l) as [l1 [a|e]]; [by apply Hk|exact Hm]. Qed.

Lemma builds_assoc {A B C} (m : link A) (f : A -> link B) (g : B -> link C) l Q :
  builds (a ← m; f a ≫= g) l Q -> builds ((m ≫= f) ≫= g) l Q.
Proof. unfold builds, mbind, stM_bind. by destruct (m l) as [l1 [a|e]]. Qed.

Lemma builds_ret {A} (a : A) l (Q : A -> LinkT -> Prop) : Q a l -> builds (mret a) l Q.
Proof. auto. Qed.

Lemma builds_impl {A} (m : link A) l (Q R : A -> LinkT -> Prop) : builds m l Q -> (forall a l', Q a l' -> R a l') -> builds m l R.
Proof. unfold builds. intros H HQ. destruct (m l) as [l1 [a|e]]; auto. Qed.

(** An error, that does not end the program. *)
Definition reported_in (l l' : LinkT) : Prop :=
  exists b, l' = with_errors b l /\ later_reports (l_errors l) b /\ any_error b = true.

Lemma serious_builds l : builds serious l (fun _ => reported_in l).
Proof.
  unfold builds, serious. pose proof (serious_error_later (l_errors l)) as H1. pose proof (serious_error_any (l_errors l)) as H2.
  pose proof (proj1 (serious_error_ends (l_errors l))) as H3. destruct (serious_error (l_errors l)) as [e []]; cbn [fst snd] in *; [by apply H3|].
  by exists e.
Qed.

(** An operation that reads nothing. *)
Lemma builds_eq {A} (m : link A) l l' a (Q : A -> LinkT -> Prop) : m l = (l', Ok a) -> Q a l' -> builds m l Q.
Proof. unfold builds. by intros ->. Qed.
End Ends.

(** ** Reading *)

Section Reading.
Variable junk : nat -> Z.
Variable junk_nstring : nat -> NStringT.
Variable device : Prop.
Variable open_file : list Z -> option (list (option Z)).
Hypothesis files_ok : forall name data, open_file name = Some data -> Forall (fun o => from_option is_byte device o) data.

Context {snames : list NStringT} {tld : nat} {tld2 : option nat}.

Abbreviation complete := (fun n => complete (known n) junk device (snames := snames) (tld := tld) (tld2 := tld2)).
Abbreviation versioned := (versioned junk).
Abbreviation builds := (builds device).

(** The capsules [cs] have been read, from the inputs [ins]. *)
Record built (cs : list CapsuleT) (ins : list input) (l : LinkT) : Prop := {
  bt_link : complete (length cs) l;
  bt_version : l_serious l = true \/ cs = [] \/ versioned l;
  bt_names : Forall (fun c => Forall is_byte (c_name c)) cs;
  bt_inputs : l_serious l = true \/ Forall2 stored cs ins /\ NoDup ins.*1
}.

Lemma complete_le n m l : (n <= m)%nat -> complete n l -> complete m l.
Proof. intros Hn. apply complete_known. intros u c. by apply known_le. Qed.

(** Another reader, and perhaps an error. *)
Lemma built_reader cs ins l r b :
  built cs ins l -> safe_reader device r -> later_reports (l_errors l) b ->
  built cs ins (Link r (l_statics l) (l_units l) (l_shapes l) b).
Proof.
  intros [H1 H2 H3 H4] Hr Hl. pose proof (fun H => later_any_error _ _ Hl H) as Hb. constructor; [by apply complete_reader| |exact H3|].
  - destruct H2 as [H2|[H2|H2]]; [left; by apply Hb|by right; left|right; right; by apply versioned_reader].
  - destruct H4 as [H4|H4]; [left; by apply Hb|by right].
Qed.

Lemma built_safe cs ins l : built cs ins l -> safe_reader device (l_reader l).
Proof. intros H. eapply complete_safe, H. Qed.

Lemma check_names_builds name cs : forall l, builds (check_capsule_names name cs) l (fun _ l' => exists b,
  l' = with_errors b l /\ later_reports (l_errors l) b /\ (any_error b = true \/ Forall (fun c => c_chars name <> c_chars (c_name c)) cs)).
Proof.
  induction cs as [|c cs IH]; intros l; cbn [check_capsule_names].
  { apply builds_ret. exists (l_errors l). split; [by destruct l|]. split; [reflexivity|by right]. }
  unfold streq, capsule_name. destruct (bool_decide_reflect (c_chars name = c_chars (c_name c))) as [E|E].
  - eapply builds_bind; [apply serious_builds|]. intros [] l1 (b & -> & Hb & Ha). eapply builds_impl; [apply IH|].
    intros [] l2 (b2 & -> & Hb2 & _). exists b2. split; [reflexivity|]. split; [by transitivity b|]. left. by eapply later_any_error.
  - eapply builds_bind; [by apply (builds_ret _ tt l (fun _ l' => l' = l))|]. intros [] l1 ->. eapply builds_impl; [apply IH|].
    intros [] l2 (b & -> & Hb & Hn). exists b. split; [reflexivity|]. split; [exact Hb|]. destruct Hn; [by left|right; by constructor].
Qed.

(** Storing the bytes of a capsule that is complete. *)
Lemma store_builds data (ok : bool) l (Q : option NStringT -> LinkT -> Prop) :
  (ok = true -> at_end data (l_reader l)) -> Forall (fun o => from_option is_byte device o) data ->
  (forall r' o, safe_reader device r' ->
    (ok = true -> exists bytes, o = Some (NString (length bytes) bytes) /\ Some <$> bytes = data /\ Forall is_byte bytes) ->
    Q o (Link r' (l_statics l) (l_units l) (l_shapes l) (l_errors l))) -> safe_reader device (l_reader l) ->
  builds (if ok then n ← rd (capsule_store_contents junk); mret (Some n) else mret None) l Q.
Proof.
  intros Hend Hd HQ Hr. destruct ok.
  - destruct (store_contents_ok data junk _ (Hend eq_refl)) as (r' & bytes & E & Hb).
    eapply (builds_eq _ _ _ (Link r' (l_statics l) (l_units l) (l_shapes l) (l_errors l))).
    { unfold rd, mbind, stM_bind. rewrite E. reflexivity. }
    apply HQ; [pose proof (store_safe device junk _ Hr) as H; by rewrite E in H|].
    intros _. exists bytes. split; [reflexivity|]. split; [exact Hb|]. rewrite <- Hb in Hd. exact (proj1 (Forall_fmap _ _ _) Hd).
  - apply builds_ret. destruct l as [r g u t b]. apply (HQ r); [exact Hr|discriminate].
Qed.

Lemma close_eq l : exists r, rd tdf_reader_close l = (Link r (l_statics l) (l_units l) (l_shapes l) (l_errors l), Ok tt) /\
  (safe_reader device (l_reader l) -> safe_reader device r).
Proof.
  unfold rd, tdf_reader_close. destruct (r_source (l_reader l)) as [b|s] eqn:E.
  - eexists. split; [unfold on_bistream; reflexivity|]. intros Hr. pose proof (close_safe device (l_reader l) Hr) as [H _].
    unfold tdf_reader_close in H. rewrite E in H. exact H.
  - eexists. split; [reflexivity|auto].
Qed.

(** What [n] capsules more leave. *)
Definition added (n : nat) (l : LinkT) (cs : list CapsuleT) (ins : list input) (cs' : list CapsuleT) (l' : LinkT) : Prop :=
  built cs' ins l' /\ (l_serious l = true -> l_serious l' = true) /\ length cs' = (length cs + n)%nat.

Lemma added_none l cs ins : built cs ins l -> added O l cs ins cs l.
Proof. intros H. split; [exact H|]. split; [auto|lia]. Qed.

Lemma added_trans n m l cs ins cs1 l1 ins' cs2 l2 :
  added n l cs ins cs1 l1 -> added m l1 cs1 ins' cs2 l2 -> added (n + m) l cs ins' cs2 l2.
Proof. intros (H1 & H2 & H3) (H4 & H5 & H6). split; [exact H4|]. split; [auto|lia]. Qed.

Lemma read_capsule_builds name data cs ins l :
  built cs ins l -> reading data (l_reader l) -> Forall is_byte name -> Forall (fun o => from_option is_byte device o) data ->
  builds (builder_read_capsule junk junk_nstring name cs) l (added 1 l cs (ins ++ [(c_chars name, data)])).
Proof.
  intros Hb Hr Hname Hd. unfold builder_read_capsule.
  eapply builds_bind; [apply check_names_builds|]. intros [] l1' (b & -> & Hlb & Hnew). pose proof (fun H => later_any_error _ _ Hlb H) as Hser.
  set (l1 := with_errors b l). assert (built cs ins l1) as [Hc Hv Hn Hi] by (apply built_reader; [exact Hb|by eapply built_safe|exact Hlb]).
  pose proof (capsule_complete (known (S (length cs))) junk junk_nstring device (length cs) l1 (known_more _) (fun u v => known_new _ u v)
    (complete_le _ _ _ (Nat.le_succ_diag_r _) Hc)) as H.
  pose proof (complete_at_end data junk junk_nstring (length cs) l1) as Hend.
  eapply (builds_bind _ _ _ _ (fun ok l' => complete (S (length cs)) l' /\ (l_serious l' = true \/ ok = true /\ versioned l') /\
    (any_error b = true -> l_serious l' = true) /\ (ok = true -> at_end data (l_reader l')))).
  { unfold TldBuilderSafe.builds. destruct (capsule_read _ _ _ l1) as [l' [ok|e]].
    - destruct H as (H1 & H2 & _ & _ & H3). split; [exact H1|]. split; [exact H2|]. split; [exact (fun Hx => later_any_error _ _ H3 Hx)|]. intros ->. by apply Hend.
    - destruct e as [| |[]| | |]; try contradiction; [exact H|exact H|by left]. }
  clear H Hend. intros ok l2 (Hc2 & Hv2 & Hs2 & Hend). pose proof (complete_safe _ _ _ _ Hc2) as Hr2.
  eapply builds_bind; [apply (store_builds data ok l2 (fun o l' => exists r', safe_reader device r' /\
    l' = Link r' (l_statics l2) (l_units l2) (l_shapes l2) (l_errors l2) /\
    (ok = true -> exists bytes, o = Some (NString (length bytes) bytes) /\ Some <$> bytes = data /\ Forall is_byte bytes))); eauto|].
  intros o l3 (r3 & Hr3 & -> & Ho). destruct (close_eq (Link r3 (l_statics l2) (l_units l2) (l_shapes l2) (l_errors l2))) as (r4 & E4 & Hr4).
  eapply builds_bind; [by eapply (builds_eq _ _ _ _ _ (fun _ l' => l' = _)), eq_refl; exact E4|]. intros [] l4 ->. apply builds_ret.
  cbn [l_statics l_units l_shapes l_errors] in *. split; [|split; [unfold l_serious in *; cbn [l_errors]; auto|by rewrite length_app]]. constructor.
  - rewrite length_app, Nat.add_1_r. apply complete_reader; [exact Hc2|by apply Hr4|reflexivity].
  - destruct Hv2 as [Hv2|[_ Hv2]]; [by left|right; right; by apply versioned_reader].
  - apply Forall_app. split; [exact Hn|by apply Forall_singleton].
  - destruct Hv2 as [Hv2|[Hok _]]; [by left|]. destruct Hi as [Hi|[Hi Hnd]]; [left; by apply Hs2|].
    destruct Hnew as [Hnew|Hnew]; [left; by apply Hs2|]. right. split.
    + apply Forall2_app; [exact Hi|]. constructor; [|constructor]. split; [reflexivity|by apply Ho].
    + rewrite fmap_app. apply list.NoDup_app. split; [exact Hnd|]. split; [|apply NoDup_singleton].
      intros x (i & -> & Hin)%list_elem_of_fmap Hx%list_elem_of_singleton. cbn in Hx.
      apply list_elem_of_lookup in Hin as [k Hk]. destruct (Forall2_lookup_r _ _ _ _ _ Hi Hk) as (c & Ec & [Hcn _]).
      apply (Forall_lookup_1 _ _ _ _ Hnew Ec). congruence.
Qed.

(** ** The libraries *)

Definition lib_caps (o : option LibraryT) : list LibCapsuleT := from_option lib_capsules [] o.

Abbreviation library_inputs := (library_inputs junk open_file).

(** What the reading of libraries leaves: the libraries, and the inputs that
    are in them. *)
Definition libraries_read (l : LinkT) (libraries : list (option LibraryT)) (ins : list input) (l' : LinkT) : Prop :=
  complete O l' /\ (l_serious l = true -> l_serious l' = true) /\ Forall (fun o => Forall lib_capsule_ok (lib_caps o)) libraries /\
  (l_serious l' = true \/ concat ((fun o => capsule_input <$> lib_caps o) <$> libraries) = ins).

Lemma read_library_builds file l :
  complete O l -> builds (builder_read_library junk junk_nstring open_file file) l (fun o => libraries_read l [o] (library_inputs file)).
Proof.
  intros Hc. unfold builder_read_library, libraries_read, TldInputs.library_inputs.
  destruct (open_file file) as [data|] eqn:E; [pose proof (files_ok file data E) as Hd; clear E|].
  2: { eapply builds_bind; [apply serious_builds|]. intros [] l' (b & -> & Hb & Ha). apply builds_ret.
    split; [apply complete_reader; [exact Hc|eapply complete_safe, Hc|exact Hb]|]. split; [by intros _|].
    split; [by repeat constructor|by left]. }
  set (r := tdf_reader_open data file (u8 (junk 0))). set (l1 := Link r (l_statics l) (l_units l) (l_shapes l) (l_errors l)).
  assert (complete O l1) as Hc1 by (apply complete_reader; [exact Hc|by apply open_stream_safe|reflexivity]).
  eapply builds_bind; [by eapply (builds_eq _ _ _ l1 _ (fun _ l' => l' = l1))|]. intros [] l' ->.
  pose proof (library_read_ok junk junk_nstring device (seq 0 (length snames)) tld tld2 O file O (index_of l1 shape_table_create)
    (ex_intro _ [] (index_safe (known O) junk device (library_tables O) l1 _ (fun H => H) Hc1 (no_shapes_safe _))) (le_n _)) as H.
  eapply (builds_bind _ _ _ _ (fun lib l' => complete O l' /\ (l_serious l = true -> l_serious l' = true) /\
    Forall lib_capsule_ok (lib_capsules lib) /\ (lib_major lib = 0 -> l_serious l' = true) /\
    (l_serious l' = true \/ capsule_input <$> lib_capsules lib = library_inputs_of junk file data))).
  { unfold TldBuilderSafe.builds, with_own_shapes. fold (index_of l1 shape_table_create).
    destruct (library_read junk junk_nstring file O (index_of l1 shape_table_create)) as [l' [lib|e]] eqn:E.
    2: { destruct e as [| |[]| | |]; try contradiction; [exact H|exact H|by left]. }
    destruct H as (Hlt & Hcs & Hma & Hcomp & (c' & Hl')).
    destruct (index_back (known O) junk device _ c' l1 _ l' Hc1 Hl' Hlt) as [Hc2 _]. split; [exact Hc2|]. split; [intros Hx; exact (later_serious _ _ Hlt Hx)|].
    split; [exact Hcs|]. split; [intros E0; destruct Hma as [Hma|[_ Hma]]; [lia|exact Hma]|].
    destruct Hcomp as [[Hcomp _]|Hcomp]; [|by left]. right.
    destruct (library_read_first junk junk_nstring file 0 _ l' lib E Hcomp) as (l3 & lib3 & E3 & <-).
    destruct (capsules_first junk file (index_of l1 shape_table_create) (Link r initial_statics unit_table_create shape_table_create initial_reports) l3 lib3 eq_refl eq_refl E3) as (l4 & E4).
    unfold library_inputs_of. fold r. by rewrite E4. }
  clear H. intros lib l2 (Hc2 & Hs2 & Hcs & Hma & Hin). destruct (close_eq l2) as (r3 & E3 & Hr3).
  eapply builds_bind; [by eapply (builds_eq _ _ _ _ _ (fun _ l' => l' = _)), eq_refl; exact E3|]. intros [] l3 ->.
  destruct (Z.eqb_spec (lib_major lib) 0) as [E0|_]; [right; by apply Hma|]. apply builds_ret.
  split; [apply complete_reader; [exact Hc2|eapply Hr3, complete_safe, Hc2|reflexivity]|]. split; [exact Hs2|]. split; [by apply Forall_singleton|].
  destruct Hin as [Hin|Hin]; [by left|right]. cbn. by rewrite app_nil_r.
Qed.

Lemma read_libraries_builds files : forall l,
  complete O l -> builds (builder_read_libraries junk junk_nstring open_file files) l
    (fun x l' => libraries_read l x.1 (concat (library_inputs <$> files)) l' /\ x.2 = length (concat (lib_caps <$> x.1))).
Proof.
  induction files as [|file files IH]; intros l Hl; cbn [builder_read_libraries].
  { apply builds_ret. split; [|reflexivity]. split; [exact Hl|]. split; [auto|]. split; [constructor|by right]. }
  eapply builds_bind; [by apply read_library_builds|]. intros o l1 (H1 & H2 & H3 & H4).
  eapply builds_bind; [by apply IH|]. intros [libraries n] l2 [(H5 & H6 & H7 & H8) Hn]. apply builds_ret. cbn [fst snd] in *. split.
  - split; [exact H5|]. split; [auto|]. split; [apply Forall_app_2 with (l1 := [o]); assumption|].
    destruct H8 as [H8|H8]; [by left|]. destruct H4 as [H4|H4]; [left; by apply H6|right]. cbn in H4 |- *. by rewrite app_nil_r in H4; rewrite H4, H8.
  - cbn [fmap list_fmap concat]. rewrite length_app, Hn. f_equal. by destruct o.
Qed.

(** ** The capsules *)

(** Another reader is opened, on the input that comes next. *)
Lemma next_capsule_builds name data r cs ins l :
  built cs ins l -> safe_reader device r -> reading data r -> Forall is_byte name -> Forall (fun o => from_option is_byte device o) data ->
  builds (fun _ => builder_read_capsule junk junk_nstring name cs (Link r (l_statics l) (l_units l) (l_shapes l) (l_errors l))) l
    (added 1 l cs (ins ++ [(c_chars name, data)])).
Proof.
  intros Hb Hr Hd Hn Hs. pose proof (read_capsule_builds name data cs ins (Link r (l_statics l) (l_units l) (l_shapes l) (l_errors l))) as H.
  unfold TldBuilderSafe.builds in *. unfold added in *. cbn [l_reader] in H. apply H; auto. by apply built_reader.
Qed.

Lemma read_lib_capsules_builds lcs : forall cs ins l,
  built cs ins l -> Forall lib_capsule_ok lcs ->
  builds (read_lib_capsules junk junk_nstring lcs cs) l (added (length lcs) l cs (ins ++ (capsule_input <$> lcs))).
Proof.
  induction lcs as [|c lcs IH]; intros cs ins l Hb Hok; cbn [read_lib_capsules].
  { apply builds_ret. cbn. rewrite app_nil_r. by apply added_none. }
  inversion Hok as [|? ? [[Hwf Hlen] Hname] Hok']; subst. pose proof Hwf as [Hl Hbytes].
  eapply (builds_bind _ _ _ _ (added 1 l cs (ins ++ [capsule_input c]))).
  - apply (next_capsule_builds (lib_capsule_name c) (Some <$> n_contents (lib_capsule_contents c)) (tdf_reader_open_string _ _ _)); auto.
    + split; [|discriminate]. split; [exact Hbytes|]. cbn. unfold nstring_contents, nstring_length, lib_capsule_contents. lia.
    + by apply open_string_reading.
    + apply Forall_fmap. exact Hbytes.
  - intros cs' l' Hb'. cbn [fmap list_fmap length]. rewrite cons_middle, app_assoc.
    eapply builds_impl; [apply IH; [apply Hb'|exact Hok']|]. intros cs2 l2. exact (added_trans 1 _ _ _ _ _ _ _ _ _ Hb').
Qed.

Lemma read_libraries_capsules libraries : forall cs ins l,
  built cs ins l -> Forall (fun o => Forall lib_capsule_ok (lib_caps o)) libraries ->
  builds (read_libraries junk junk_nstring libraries cs) l
    (added (length (concat (lib_caps <$> libraries))) l cs (ins ++ concat ((fun o => capsule_input <$> lib_caps o) <$> libraries))).
Proof.
  induction libraries as [|o libraries IH]; intros cs ins l Hb Hok.
  { apply builds_ret. cbn. rewrite app_nil_r. by apply added_none. }
  inversion Hok as [|? ? H1 H2]; subst. cbn [fmap list_fmap concat]. destruct o as [library|]; cbn [read_libraries]; [|by apply IH].
  eapply builds_bind; [by apply read_lib_capsules_builds|]. intros cs' l' Hb'. rewrite app_assoc, length_app.
  eapply builds_impl; [apply IH; [apply Hb'|exact H2]|]. intros cs2 l2. exact (added_trans _ _ _ _ _ _ _ _ _ _ Hb').
Qed.

(** A file that cannot be opened is reported, and left out. *)
Lemma read_files_builds files : forall cs ins l,
  built cs ins l -> Forall (Forall is_byte) files ->
  builds (read_input_files junk junk_nstring open_file files cs) l (fun cs' l' => built cs' (ins ++ omap (file_input open_file) files) l' /\
    (l_serious l = true -> l_serious l' = true) /\ (l_serious l' = true \/ length cs' = length cs + length files)%nat).
Proof.
  induction files as [|file files IH]; intros cs ins l Hb Hok; cbn [read_input_files].
  { apply builds_ret. cbn. rewrite app_nil_r. split; [exact Hb|]. split; [auto|right; lia]. }
  inversion Hok as [|? ? H1 H2]; subst. unfold file_input at 1. cbn [omap list_omap length].
  destruct (open_file file) as [data|] eqn:E; cbn [mbind option_bind].
  - pose proof (files_ok file data E) as Hd. eapply (builds_bind _ _ _ _ (added 1 l cs (ins ++ [(c_chars file, data)]))).
    + apply (next_capsule_builds file data (tdf_reader_open data file (u8 (junk 0)))); auto; [by apply open_stream_safe|apply open_reading].
    + intros cs' l' (Hb' & Hs & Hl). rewrite cons_middle, app_assoc. eapply builds_impl; [by apply IH|].
      intros cs2 l2 (Hb2 & Hs2 & Hl2). split; [exact Hb2|]. split; [auto|]. destruct Hl2; [by left|right; lia].
  - eapply (builds_bind _ _ _ _ (fun cs' l' => cs' = cs /\ reported_in l l')).
    { eapply builds_bind; [apply serious_builds|]. intros [] l' Hr. by apply builds_ret. }
    intros cs' l' [-> (b & -> & Hlb & Ha)].
    eapply builds_impl; [apply (IH cs ins); [|exact H2]; apply built_reader; [exact Hb|by eapply built_safe|exact Hlb]|].
    intros cs2 l2 (Hb2 & Hs2 & _). split; [exact Hb2|]. split; [intros _; by apply Hs2|left; by apply Hs2].
Qed.

(** All the inputs: the capsules, and the length of their vector. *)
Lemma read_capsules_builds args l :
  complete O l -> files args <> [] -> Forall (Forall is_byte) (files args) ->
  builds (builder_read_capsules junk junk_nstring open_file args) l (fun x l' => built x.1 (inputs junk open_file args) l' /\
    (l_serious l' = true \/ length x.1 = x.2 /\ versioned l')).
Proof.
  intros Hl Hne Hf. unfold builder_read_capsules. eapply builds_bind; [by apply read_libraries_builds|].
  intros [libraries n] l1 [(H1 & H2 & H3 & H4) Hn]. cbn [fst snd] in *.
  assert (built [] [] l1) as Hb.
  { constructor; [exact H1|right; by left|constructor|right]. split; constructor. }
  eapply builds_bind; [by apply (read_libraries_capsules libraries [] [])|]. intros cs l2 (Hb2 & Hs2 & Hl2).
  assert (built cs (concat (library_inputs <$> library_files args)) l2) as Hb2'.
  { destruct H4 as [H4|<-]; [|exact Hb2]. destruct Hb2 as [B1 B2 B3 _]. constructor; auto. }
  eapply builds_bind; [by apply read_files_builds|]. intros cs' l3 (Hb3 & Hs3 & Hl3).
  eapply builds_bind; [apply (builds_eq _ _ _ l3 tt (fun _ l' => l' = l3)); [|reflexivity]; eapply exit_quiet, complete_quiet, Hb3|]. intros [] l4 ->. apply builds_ret. cbn [fst snd].
  split; [exact Hb3|]. destruct Hl3 as [Hl3|Hl3]; [by left|]. cbn [length] in Hl2. rewrite <- Hn in Hl2.
  destruct (bt_version _ _ _ Hb3) as [Hv|[->|Hv]]; [by left| |right; split; [lia|exact Hv]].
  destruct (files args); [congruence|]. cbn in Hl3. lia.
Qed.
End Reading.
