(* ===== verification/TldUpdates.v ===== *)
(** * TldUpdates: operations on the names of the tables

    The phases of the linker (tld/src/frontend/linker.c) hide, keep and
    suppress names, one by one or with the iterators of name-table.c and
    shape-table.c; here is what these operations keep of the invariant of
    TldSafeState. *)
From stdpp Require Import base list list_numbers numbers.
From Stdlib Require Import ZArith Lia.
From S2P Require Import Prelude Codec ExdsString ExdsError TldNameKey TldIO TldIOSpec HashTable TldNames.
From S2P Require Import TldRename TldNameTable TldShapes TldShapesSpec TldCapsule TldCapsuleSpec TldUsage TldRead TldReadUnits TldLibrary.
From S2P Require Import TldSafeState TldSafeRead TldArgs TldArgsSpec TldResolve TldLinker.

(** The index of libraries with [n] capsules, once definitions may have been
    suppressed. *)
Definition suppressed_tables (n : nat) : table_kind :=
  {| tk_def := fun _ => Some 0%nat; tk_legal := library_legal n; tk_linking := False; tk_new := library_legal_new n |}.

Section Updates.
Variable tk : table_kind.
Variable device : Prop.
Variable ps : list nat.
Variable tld : nat.
Variable tld2 : option nat.

Abbreviation lsafe := (lsafe tk device ps tld tld2).
Abbreviation safe_link := (safe_link tk device ps tld tld2).

Lemma times_safe n c : forall l, lsafe c l (serious_times n) c (fun _ l' => same_tables l l').
Proof.
  induction n as [|n IH]; intros l; cbn [serious_times]; [apply lsafe_ret; by split_and!|].
  eapply lsafe_bind; [apply serious_lsafe|]. intros [] l1 _ [(E1 & E2 & E3) _]. eapply lsafe_impl; [|apply IH].
  intros [] l2 _ (F1 & F2 & F3). split_and!; congruence.
Qed.

(** What a procedure given to an iterator does to the shape. *)
Definition changes_shape (s : ShapeEntryT) (o : option NameTableT) : Prop :=
  exists t, o = Some t /\ safe_shape tk (set_names s t) /\ later_shape s (set_names s t).

Definition update_ok (f : NameTableT -> nat -> option NameTableT) : Prop :=
  forall s p d, safe_shape tk s -> get_direct (se_names s) p = Some d -> changes_shape s (f (se_names s) p).

Lemma set_names_id s : set_names s (se_names s) = s.
Proof. by destruct s. Qed.

Lemma no_change s : safe_shape tk s -> changes_shape s (Some (se_names s)).
Proof. intros Hs. exists (se_names s). rewrite set_names_id. by split_and!. Qed.

(** One attribute of a name is changed. *)
Lemma update_direct_changes s p d f :
  safe_shape tk s -> get_direct (se_names s) p = Some d -> id (f d) = id d ->
  (has (use (f d)) U_DEFD = true -> tk_def tk (f d) <> None) -> tk_legal tk (se_key s) (f d) ->
  changes_shape s (update_direct (se_names s) p f).
Proof.
  intros Hs Ed Ei Hd Hlg. destruct (update_direct_set (se_names s) p f d Ed) as (t & -> & Hset).
  exists t. split; [reflexivity|]. by eapply direct_set_safe.
Qed.

Lemma later_direct s s' p d : later_shape s s' -> get_direct (se_names s) p = Some d -> exists d', get_direct (se_names s') p = Some d'.
Proof. intros [(_ & H & _) _] E. specialize (H p). destruct (get_direct (se_names s') p); [eauto|]. destruct H; congruence. Qed.

Lemma update_all f ps' : update_ok f -> forall s, safe_shape tk s -> Forall (fun p => get_direct (se_names s) p <> None) ps' ->
  changes_shape s (foldl (fun t p => t ← t; f t p) (Some (se_names s)) ps').
Proof.
  intros Hf. induction ps' as [|p ps' IH]; intros s Hs Hp; [by apply no_change|]. inversion Hp as [|? ? Hd Hp']; subst.
  destruct (get_direct (se_names s) p) as [d|] eqn:Ed; [|congruence]. destruct (Hf s p d Hs Ed) as (t & E & Ht & Hlt).
  cbn [foldl mbind option_bind]. rewrite E. destruct (IH (set_names s t) Ht) as (t' & E' & Ht' & Hlt').
  { eapply Forall_impl; [|exact Hp']. intros q Hq. by apply Hlt. }
  exists t'. split; [exact E'|]. split; [exact Ht'|]. by transitivity (set_names s t).
Qed.

Lemma iter_direct t : Forall (fun p => get_direct t p <> None) (name_table_iter t).
Proof.
  apply Forall_forall. intros p Hp%list_elem_of_In. apply list_elem_of_filter in Hp as [Hd _]. unfold get_direct.
  destruct (entry_type t p) as [ty|]; [|discriminate]. cbn in *. by destruct ty.
Qed.

Lemma iter_update_changes f s : update_ok f -> safe_shape tk s -> changes_shape s (iter_update f (se_names s)).
Proof. intros Hf Hs. apply update_all; [exact Hf|exact Hs|apply iter_direct]. Qed.

(** ** On the tables of the linker *)

Lemma find_name_ok s key :
  safe_shape tk s -> wf_key key ->
  exists o, name_table_get (se_names s) key = Some o /\ forall p, o = Some p -> exists d, get_direct (se_names s) p = Some d.
Proof.
  intros Hs Hk. destruct (ss_good _ _ Hs) as [(rs & (Hdone & _) & Htg) _]. destruct (Htg key Hk) as [k' Hk'].
  rewrite (name_table_get_ok rs _ key k' Hdone Hk Hk'). eexists. split; [reflexivity|]. intros p Hp. by eapply direct_of_direct.
Qed.

Lemma lsafe_find_name {A} c l entry s key (k : option nat -> link A) c' Q :
  st_entries (l_shapes l) !! entry = Some s -> wf_key key ->
  (forall o, (forall p, o = Some p -> exists d, get_direct (se_names s) p = Some d) -> lsafe c l (k o) c' Q) ->
  lsafe c l (find_name entry key ≫= k) c' Q.
Proof.
  intros Es Hk H. apply lsafe_use. intros Hl. pose proof (sh_all _ _ (sl_shapes _ _ _ _ _ _ _ Hl) _ _ Es) as Hs.
  destruct (find_name_ok s key Hs Hk) as (o & Eo & Ho).
  assert ((find_name entry key ≫= k) l = (k o) l) as E.
  { unfold find_name, get_shape, mbind, stM_bind, st_get, need. cbn. rewrite Es. cbn. by rewrite Eo. }
  unfold TldSafeState.lsafe. rewrite E. by apply H.
Qed.

Lemma update_name_safe c l entry s p d f :
  st_entries (l_shapes l) !! entry = Some s -> get_direct (se_names s) p = Some d -> update_ok f ->
  lsafe c l (update_name entry p f) c (fun _ _ => True).
Proof.
  intros Es Ed Hf. unfold update_name. eapply lsafe_get_shape; [exact Es|]. apply lsafe_use. intros Hl.
  pose proof (sh_all _ _ (sl_shapes _ _ _ _ _ _ _ Hl) _ _ Es) as Hs. destruct (Hf s p d Hs Ed) as (t & E & Ht & Hlt).
  eapply lsafe_need; [exact E|]. apply lsafe_end. eapply lsafe_put_shape; [exact Es|auto|]. by apply lsafe_ret.
Qed.

Lemma update_names_safe c l entry s f :
  st_entries (l_shapes l) !! entry = Some s -> update_ok f -> lsafe c l (update_names entry f) c (fun _ _ => True).
Proof.
  intros Es Hf. unfold update_names. eapply lsafe_get_shape; [exact Es|]. apply lsafe_use. intros Hl.
  pose proof (sh_all _ _ (sl_shapes _ _ _ _ _ _ _ Hl) _ _ Es) as Hs. destruct (iter_update_changes f s Hf Hs) as (t & E & Ht & Hlt).
  eapply lsafe_need; [exact E|]. apply lsafe_end. eapply lsafe_put_shape; [exact Es|auto|]. by apply lsafe_ret.
Qed.

Definition shape_update_ok (f : ShapeEntryT -> option ShapeEntryT) : Prop :=
  forall s, safe_shape tk s -> exists s', f s = Some s' /\ safe_shape tk s' /\ later_shape s s'.

Lemma shape_update_names f : update_ok f -> shape_update_ok (fun s => t ← iter_update f (se_names s); Some (set_names s t)).
Proof.
  intros Hf s Hs. destruct (iter_update_changes f s Hf Hs) as (t & E & Ht & Hlt). exists (set_names s t).
  cbn beta. rewrite E. auto.
Qed.

Lemma shapes_update_ok f ps' : shape_update_ok f -> forall t, safe_shapes tk t ->
  (forall p, p ∈ ps' -> (p < length (st_entries t))%nat) ->
  exists t', shape_iter (fun s a => s ← f s; Some (s, a)) ps' t tt = Some (t', tt) /\ safe_shapes tk t' /\ later t t'.
Proof.
  intros Hf. induction ps' as [|p ps' IH]; intros t Ht Hp; [by exists t|].
  destruct (lookup_lt_is_Some_2 (st_entries t) p) as [s Es]; [apply Hp; left|].
  destruct (Hf s (sh_all _ _ Ht _ _ Es)) as (s' & Ef & Hs' & Hlt). cbn [shape_iter]. rewrite Es. cbn [mbind option_bind].
  rewrite Ef. cbn [mbind option_bind]. destruct (IH (set_shape t p s')) as (t' & E & Ht' & Hlt').
  - by eapply set_shape_safe.
  - intros q Hq. cbn. rewrite length_insert. apply Hp. by right.
  - exists t'. split; [exact E|]. split; [exact Ht'|]. etransitivity; [by eapply set_shape_later|exact Hlt'].
Qed.

Lemma update_shapes_safe c l f : shape_update_ok f -> lsafe c l (update_shapes f) c (fun _ _ => True).
Proof.
  intros Hf. unfold update_shapes. apply lsafe_get, lsafe_use. intros Hl. pose proof (sl_shapes _ _ _ _ _ _ _ Hl) as Ht.
  destruct (shapes_update_ok f (shape_table_iter (l_shapes l)) Hf _ Ht) as (t & E & Ht' & Hlt).
  { intros p. by apply (shape_pointers _ (gs_wf _ _ (sh_good _ _ Ht))). }
  eapply lsafe_need; [unfold shapes_update; by rewrite E|]. apply lsafe_end, lsafe_put_shapes; [auto|]. by apply lsafe_ret.
Qed.

Lemma lsafe_mapM {A} (f : A -> link unit) (P : A -> Prop) (R : LinkT -> Prop) c xs : forall l,
  Forall P xs -> R l -> (forall a l', P a -> R l' -> lsafe c l' (f a) c (fun _ l'' => R l'')) ->
  lsafe c l (mapM_ f xs) c (fun _ l' => R l').
Proof.
  induction xs as [|a xs IH]; intros l Hxs Hl Hf; cbn [mapM_]; [by apply lsafe_ret|]. inversion Hxs; subst.
  eapply lsafe_bind; [by apply Hf|]. intros [] l' _ Hl'. by apply IH.
Qed.

(** A shape that is found is in the table, and stays there. *)
Lemma found_shape t key p : safe_shapes tk t -> shape_table_get t key = Some p -> exists s, st_entries t !! p = Some s.
Proof.
  intros Ht E. pose proof (gs_wf _ _ (sh_good _ _ Ht)) as Hwf. pose proof Hwf as (Hc & _ & Hp & _).
  pose proof (ht_get_value _ _ _ Hc E) as Hin. rewrite Hp, elem_of_seq in Hin. apply lookup_lt_is_Some_2. lia.
Qed.
End Updates.

Section Procedures.
Variable n : nat.

Lemma suppress_ok : update_ok (suppressed_tables n) name_entry_suppress.
Proof. intros s p d Hs Ed. eapply update_direct_changes; [exact Hs|exact Ed|reflexivity|discriminate|discriminate]. Qed.

Lemma lib_suppress_mult_ok : update_ok (suppressed_tables n) name_entry_lib_suppress_mult.
Proof.
  intros s p d Hs Ed. unfold name_entry_lib_suppress_mult, name_entry_get_use. rewrite Ed. cbn [fmap option_fmap option_map mbind option_bind].
  destruct (only_mult _); [by eapply suppress_ok|by apply no_change].
Qed.

Lemma hide_ok : update_ok linker_tables name_entry_hide.
Proof.
  intros s p d Hs Ed. pose proof (proj2 (ss_good _ _ Hs) p d Ed) as Hd. pose proof (ss_legal _ _ Hs p d Ed) as Hlg.
  eapply update_direct_changes; [exact Hs|exact Ed|reflexivity| |].
  - cbn. rewrite has_lor. unfold has at 2. cbn. rewrite orb_false_r. exact Hd.
  - split; [|done]. apply proj1 in Hlg. hnf in *. replace (get_use (set_use (fun v => Z.lor v U_HIDE) d)) with (get_use d); [exact Hlg|].
    unfold get_use. cbn. rewrite Z.land_lor_distr_l. cbn. by rewrite Z.lor_0_r.
Qed.

Lemma unhide_ok : update_ok linker_tables name_entry_unhide.
Proof.
  intros s p d Hs Ed. pose proof (proj2 (ss_good _ _ Hs) p d Ed) as Hd. pose proof (ss_legal _ _ Hs p d Ed) as Hlg.
  eapply update_direct_changes; [exact Hs|exact Ed|reflexivity| |].
  - cbn. unfold has in *. rewrite <- Z.land_assoc. change (Z.land _ U_DEFD) with U_DEFD. exact Hd.
  - split; [|done]. apply proj1 in Hlg. hnf in *. replace (get_use (set_use _ d)) with (get_use d); [exact Hlg|].
    unfold get_use. cbn [use set_use]. rewrite <- Z.land_assoc. reflexivity.
Qed.

Lemma hide_defd_ok : update_ok linker_tables name_entry_hide_defd.
Proof.
  intros s p d Hs Ed. unfold name_entry_hide_defd, name_entry_get_use. rewrite Ed. cbn [fmap option_fmap option_map mbind option_bind].
  destruct (_ =? 0); [by apply no_change|by eapply hide_ok].
Qed.
End Procedures.

(** Definitions are no longer asked for, and less of what there is. *)
Lemma weaker_shapes tk tk' t :
  (forall d, tk_def tk' d <> None) -> (forall key d, tk_legal tk key d -> tk_legal tk' key d) -> safe_shapes tk t -> safe_shapes tk' t.
Proof.
  intros Hd Hlg. assert (forall s, good_shape (tk_def tk) s -> good_shape (tk_def tk') s) as Hg.
  { intros s [Hs _]. split; [exact Hs|]. intros p d _ _. apply Hd. }
  intros [[G1 G2 G3 G4] Hs]. constructor.
  - constructor; [exact G1| |exact G3|exact G4]. intros p s E. by apply Hg, (G2 p).
  - intros p s E. destruct (Hs p s E) as [H1 H2 H3 H4]. constructor; auto. intros q d Ed. by apply Hlg, (H4 q d Ed).
Qed.

Lemma suppressed_shapes n t : safe_shapes (library_tables n) t -> safe_shapes (suppressed_tables n) t.
Proof. by apply weaker_shapes. Qed.

(** ** Operations that read nothing

    They change the shapes, may report errors, stop the program or end it by an
    error too many, and do not look at anything else. *)

Definition stops {A} (m : link A) : Prop := forall t b, exists t' b' x,
  (forall r g u, m (Link r g u t b) = (Link r g u t' b', x)) /\
  match x with Throw e => e = Stop \/ e = Fatal_error /\ too_many b' | Ok _ => True end.

Lemma stops_bind {A B} (m : link A) (k : A -> link B) : stops m -> (forall a, stops (k a)) -> stops (m ≫= k).
Proof.
  intros Hm Hk t b. destruct (Hm t b) as (t1 & b1 & [a|e] & E1 & H1).
  - destruct (Hk a t1 b1) as (t2 & b2 & x & E2 & H2). exists t2, b2, x. split; [|exact H2].
    intros r g u. unfold mbind, stM_bind. by rewrite E1, E2.
  - exists t1, b1, (Throw e). split; [|exact H1]. intros r g u. unfold mbind, stM_bind. by rewrite E1.
Qed.

Lemma stops_ret {A} (a : A) : stops (mret a).
Proof. intros t b. by exists t, b, (Ok a). Qed.

(** Only the shapes are asked for. *)
Lemma stops_get {A} (k : ShapeTableT -> link A) : (forall t, stops (k t)) -> stops (l ← st_get; k (l_shapes l)).
Proof. intros Hk t b. exact (Hk t t b). Qed.

Lemma stops_need {A} (o : option A) : stops (need o).
Proof. intros t b. destruct o as [a|]; [by exists t, b, (Ok a)|exists t, b, (Throw Stop); split; [reflexivity|by left]]. Qed.

Lemma stops_put t : stops (put_shapes t).
Proof. intros t' b. by exists t, b, (Ok tt). Qed.

Lemma stops_serious : stops serious.
Proof.
  intros t b. exists t, (serious_error b).1, (if (serious_error b).2 then Throw Fatal_error else Ok tt). split.
  - intros r g u. unfold serious. cbn [l_errors]. by destruct (serious_error b).
  - pose proof (proj1 (serious_error_ends b)) as H. destruct (serious_error b) as [e []]; [right; by split; [|apply H]|exact I].
Qed.

Lemma stops_throws {A} (m : link A) l : stops m ->
  match m l with (l', Throw e) => e = Stop \/ e = Fatal_error /\ too_many (l_errors l') | _ => True end.
Proof. intros H. destruct l as [r g u t b]. destruct (H t b) as (t' & b' & x & E & Hx). by rewrite E; destruct x. Qed.

Create HintDb stops.
#[export] Hint Resolve stops_bind stops_ret stops_need stops_put stops_serious : stops.

Lemma stops_times n : stops (serious_times n).
Proof. induction n as [|n IH]; cbn [serious_times]; auto with stops. Qed.

#[export] Hint Resolve stops_times : stops.

Lemma stops_get_shape p : stops (get_shape p).
Proof. apply (stops_get (fun t => need (st_entries t !! p))). auto with stops. Qed.

Lemma stops_put_shape p s : stops (put_shape p s).
Proof. apply (stops_get (fun t => put_shapes (set_shape t p s))). auto with stops. Qed.

#[export] Hint Resolve stops_get_shape stops_put_shape : stops.

Lemma stops_find_name entry key : stops (find_name entry key).
Proof. apply stops_bind; auto with stops. Qed.

Lemma stops_update_name entry p f : stops (update_name entry p f).
Proof. apply stops_bind; [auto with stops|]. intros s. apply stops_bind; auto with stops. Qed.

Lemma stops_update_names entry f : stops (update_names entry f).
Proof. apply stops_bind; [auto with stops|]. intros s. apply stops_bind; auto with stops. Qed.

Lemma stops_update_shapes f : stops (update_shapes f).
Proof. apply (stops_get (fun t => t' ← need (shapes_update f t); put_shapes t')). intros t. apply stops_bind; auto with stops. Qed.

#[export] Hint Resolve stops_find_name stops_update_name stops_update_names stops_update_shapes : stops.

Lemma stops_mapM {A} (f : A -> link unit) xs : (forall a, stops (f a)) -> stops (mapM_ f xs).
Proof. intros Hf. induction xs as [|a xs IH]; cbn [mapM_]; [apply stops_ret|]. by apply stops_bind. Qed.

#[export] Hint Resolve stops_mapM : stops.

(** What the three control lists do with their shape. *)
Lemma stops_control key (m : nat -> link unit) (other : link unit) :
  (forall entry, stops (m entry)) -> stops other ->
  stops (l ← st_get; match shape_table_get (l_shapes l) key with None => other | Some entry => m entry end).
Proof.
  intros Hm Ho. apply (stops_get (fun t => match shape_table_get t key with None => other | Some entry => m entry end)).
  intros t. by destruct (shape_table_get t key).
Qed.

(** ** Suppressing, hiding and keeping *)

Section Controls.
Variable device : Prop.
Variable ps : list nat.
Variable tld : nat.
Variable tld2 : option nat.

Definition has_entry (entry : nat) (l : LinkT) : Prop := exists s, st_entries (l_shapes l) !! entry = Some s.

Lemma has_entry_later tk c l entry (m : link unit) c' :
  has_entry entry l -> lsafe tk device ps tld tld2 c l m c' (fun _ _ => True) ->
  lsafe tk device ps tld tld2 c l m c' (fun _ => has_entry entry).
Proof.
  intros (s & Es) H. eapply lsafe_impl; [|exact H]. intros [] l' Hlt _. destruct (Hlt _ _ Es) as (s' & Es' & _). by exists s'.
Qed.

(** All the control lists are gone through by the same loop. *)
Lemma control_safe tk f g other cur c l :
  update_ok tk f -> control_names_ok c ->
  (forall l, lsafe tk device ps tld tld2 cur l other cur (fun _ _ => True)) ->
  (forall l entry s key, st_entries (l_shapes l) !! entry = Some s -> wf_key key ->
    lsafe tk device ps tld tld2 cur l (g entry key) cur (fun _ _ => True)) ->
  lsafe tk device ps tld tld2 cur l (l ← st_get;
    match shape_table_get (l_shapes l) (sc_shape c) with
    | None => other
    | Some entry => _ ← (if sc_all c then update_names entry f else mret tt); mapM_ (g entry) (sc_names c)
    end) cur (fun _ _ => True).
Proof.
  intros Hf Hc Ho Hg. apply lsafe_get, lsafe_use. intros Hl.
  destruct (shape_table_get (l_shapes l) (sc_shape c)) as [entry|] eqn:E; [|apply Ho].
  destruct (found_shape _ _ _ _ (sl_shapes _ _ _ _ _ _ _ Hl) E) as [s Es]. eapply lsafe_bind.
  - apply (has_entry_later _ _ _ entry); [by exists s|]. destruct (sc_all c); [|by apply lsafe_ret].
    eapply update_names_safe; [exact Es|exact Hf].
  - intros [] l1 _ Hl1. eapply lsafe_impl; [|apply (lsafe_mapM _ _ _ _ _ (g entry) wf_key (has_entry entry)); [exact Hc|exact Hl1|]]; [done|].
    intros key l2 Hk Hl2. apply has_entry_later; [exact Hl2|]. destruct Hl2 as [s2 Es2]. by eapply Hg.
Qed.

Section Index.
Variable n : nat.
Abbreviation lsafe := (lsafe (suppressed_tables n) device ps tld tld2).

Lemma suppress_name_stops entry key : stops (suppress_name entry key).
Proof. apply stops_bind; [auto with stops|]. intros [p|]; auto with stops. Qed.

Lemma suppress_stops c : stops (linker_suppress_1 c).
Proof.
  apply stops_control; [|auto with stops]. intros entry.
  apply stops_bind; [destruct (sc_all c); auto with stops|]. intros _. apply stops_mapM, suppress_name_stops.
Qed.

Lemma suppress_name_safe cur l entry s key :
  st_entries (l_shapes l) !! entry = Some s -> wf_key key -> lsafe cur l (suppress_name entry key) cur (fun _ _ => True).
Proof.
  intros Es Hk. eapply lsafe_find_name; [exact Es|exact Hk|]. intros [p|] Ho; [|by apply lsafe_ret].
  destruct (Ho p eq_refl) as [d Ed]. eapply update_name_safe; [exact Es|exact Ed|apply suppress_ok].
Qed.

Lemma suppress_1_safe cur c l : control_names_ok c -> lsafe cur l (linker_suppress_1 c) cur (fun _ _ => True).
Proof.
  intros Hc. apply control_safe; [apply suppress_ok|exact Hc|intros l'; by apply lsafe_ret|intros l'; apply suppress_name_safe].
Qed.

Lemma suppress_all_safe cur cs l : Forall control_names_ok cs -> lsafe cur l (mapM_ linker_suppress_1 cs) cur (fun _ _ => True).
Proof. intros H. by apply (lsafe_mapM _ _ _ _ _ _ control_names_ok (fun _ => True)); [..|intros; apply suppress_1_safe]. Qed.

Lemma suppress_mult_safe cur (b : bool) l :
  lsafe cur l (if b then update_shapes shape_entry_lib_suppress_mult else mret tt) cur (fun _ _ => True).
Proof.
  destruct b; [|by apply lsafe_ret]. apply update_shapes_safe. unfold shape_entry_lib_suppress_mult.
  apply shape_update_names, lib_suppress_mult_ok.
Qed.
End Index.

Abbreviation lsafe := (lsafe linker_tables device ps tld tld2).

Lemma hide_name_stops entry key : stops (hide_name entry key).
Proof.
  apply stops_bind; [auto with stops|]. intros [p|]; [|auto with stops]. apply stops_bind; [auto with stops|]. intros s.
  apply stops_bind; [auto with stops|]. intros use. destruct (has use U_DEFD); auto with stops.
Qed.

Lemma hide_stops c : stops (linker_hide c).
Proof.
  apply stops_control; [|auto with stops]. intros entry.
  apply stops_bind; [destruct (sc_all c); auto with stops|]. intros _. apply stops_mapM, hide_name_stops.
Qed.

Lemma keep_name_stops entry key : stops (keep_name entry key).
Proof. apply stops_bind; [auto with stops|]. intros [p|]; auto with stops. Qed.

Lemma keep_stops c : stops (linker_keep c).
Proof.
  apply stops_control; [|auto with stops]. intros entry.
  apply stops_bind; [destruct (sc_all c); auto with stops|]. intros _. apply stops_mapM, keep_name_stops.
Qed.

Lemma serious_ends c l : lsafe c l serious c (fun _ _ => True).
Proof. eapply lsafe_impl; [|apply serious_lsafe]. auto. Qed.

Lemma hide_name_safe cur l entry s key :
  st_entries (l_shapes l) !! entry = Some s -> wf_key key -> lsafe cur l (hide_name entry key) cur (fun _ _ => True).
Proof.
  intros Es Hk. eapply lsafe_find_name; [exact Es|exact Hk|]. intros [p|] Ho; [|apply serious_ends].
  destruct (Ho p eq_refl) as [d Ed]. eapply lsafe_get_shape; [exact Es|].
  eapply lsafe_need; [unfold name_entry_get_use; by rewrite Ed|]. destruct (has _ _); [|apply serious_ends].
  eapply update_name_safe; [exact Es|exact Ed|apply hide_ok].
Qed.

Lemma keep_name_safe cur l entry s key :
  st_entries (l_shapes l) !! entry = Some s -> wf_key key -> lsafe cur l (keep_name entry key) cur (fun _ _ => True).
Proof.
  intros Es Hk. eapply lsafe_find_name; [exact Es|exact Hk|]. intros [p|] Ho; [|apply serious_ends].
  destruct (Ho p eq_refl) as [d Ed]. eapply update_name_safe; [exact Es|exact Ed|apply unhide_ok].
Qed.

Lemma hide_all_safe cur cs l : Forall control_names_ok cs -> lsafe cur l (mapM_ linker_hide cs) cur (fun _ _ => True).
Proof.
  intros H. apply (lsafe_mapM _ _ _ _ _ _ control_names_ok (fun _ => True)); [exact H|exact I|]. intros c l' Hc _.
  apply control_safe; [apply hide_defd_ok|exact Hc|apply serious_ends|apply hide_name_safe].
Qed.

Lemma keep_all_safe cur cs l : Forall control_names_ok cs -> lsafe cur l (mapM_ linker_keep cs) cur (fun _ _ => True).
Proof.
  intros H. apply (lsafe_mapM _ _ _ _ _ _ control_names_ok (fun _ => True)); [exact H|exact I|]. intros c l' Hc _.
  apply control_safe; [apply unhide_ok|exact Hc|apply serious_ends|apply keep_name_safe].
Qed.

Lemma hide_all_defd_safe cur (b : bool) l :
  lsafe cur l (if b then update_shapes shape_entry_hide_all_defd else mret tt) cur (fun _ _ => True).
Proof.
  destruct b; [|by apply lsafe_ret]. apply update_shapes_safe. unfold shape_entry_hide_all_defd. apply shape_update_names, hide_defd_ok.
Qed.
End Controls.
