(* ===== verification/TldBuilderSpec.v ===== *)
(** * TldBuilderSpec: the builder from its arguments to its output

    The checks, the suppressing of definitions and the writing of
    [builder_main] (tld/src/frontend/builder.c), after the reading of
    TldBuilderSafe; and what [extract_main] (frontend/extract.c) makes of the
    library that is written. *)
From stdpp Require Import base list list_numbers numbers gmap.
From Stdlib Require Import ZArith Lia.
From S2P Require Import Prelude Codec ExdsString CStdio ExdsError TldNameKey TldIO TldIOSpec HashTable TldNames.
From S2P Require Import TldRename TldNameTable TldShapes TldShapesSpec TldCapsule TldCapsuleSpec TldWrite TldUsage TldRead TldReadUnits TldReadBack TldLibrary.
From S2P Require Import TldSafeState TldUnitSets TldSafeRead TldSafeLink TldStored TldLinked TldArgs TldArgsSpec TldLinker TldResolve TldResolveSpec TldBuilder TldExtract TldInputs TldLibrarySafe TldExtractSpec TldBuilderSafe TldUpdates.
From S2P Require Import TldLibraryWrite TldLibraryBack.

(** ** The tables once everything is read *)

(** The definitions are in the field of the linker, but may be suppressed. *)
Definition builder_legal (n : nat) (key : NStringT) (d : DirectT) : Prop :=
  forall c, definition d = Some c -> known n (use d) c.

Lemma builder_legal_new n key i : builder_legal n key (Direct i 0 None None).
Proof. discriminate. Qed.

Definition builder_tables (n : nat) : table_kind :=
  {| tk_def := fun _ => Some 0%nat; tk_legal := builder_legal n; tk_linking := False; tk_new := builder_legal_new n |}.

Lemma builder_shapes n t : safe_shapes (linking_tables (known n)) t -> safe_shapes (builder_tables n) t.
Proof. apply weaker_shapes; [done|]. intros key d [_ H]. exact H. Qed.

Section Phases.
Variable device : Prop.
Variable ps : list nat.
Variable tld : nat.
Variable tld2 : option nat.
Variable n : nat.

Abbreviation lsafe := (lsafe (builder_tables n) device ps tld tld2).
Abbreviation safe_link := (safe_link (builder_tables n) device ps tld tld2).
Abbreviation builds := (builds device).

(** An operation that reads nothing. *)
Lemma phase_builds (m : link unit) c l :
  safe_link c l -> stops m -> lsafe c l m c (fun _ _ => True) -> builds m l (fun _ l' => safe_link c l' /\ later_link l l').
Proof.
  intros Hl Hst Hm. specialize (Hm Hl). pose proof (stops_throws m l Hst) as Hs. unfold TldBuilderSafe.builds.
  destruct (m l) as [l' [u|e]]; [by split; apply Hm|]. destruct Hs as [->|[-> Hs]]; [left; apply Hm|exact Hs].
Qed.

Lemma multi_defs_total s : is_Some (shape_entry_check_multi_defs s).
Proof. apply some_iter_count. intros a p d E. unfold name_entry_check_multi_defs. rewrite E. cbn. eauto. Qed.

Lemma check_loop_safe c qs : forall l,
  (forall p, p ∈ qs -> has_entry p l) -> lsafe c l (check_multi_defs_loop qs) c (fun _ _ => True).
Proof.
  induction qs as [|p qs IH]; intros l Hq; cbn [check_multi_defs_loop]; [by apply lsafe_ret|].
  destruct (Hq p ltac:(left)) as [s Es]. eapply lsafe_get_shape; [exact Es|]. destruct (multi_defs_total s) as [errs E].
  eapply lsafe_need; [exact E|].
  eapply lsafe_bind; [apply times_safe|]. intros [] l' _ (_ & _ & E'). apply IH. intros q Hin. unfold has_entry. rewrite E'. apply Hq. by right.
Qed.

Lemma check_loop_stops qs : stops (check_multi_defs_loop qs).
Proof.
  induction qs as [|p qs IH]; cbn [check_multi_defs_loop]; [auto with stops|]. apply stops_bind; [auto with stops|]. intros s.
  apply stops_bind; [auto with stops|]. intros errs. apply stops_bind; auto with stops.
Qed.

Lemma exit_builds c l (Q : unit -> LinkT -> Prop) : safe_link c l -> Q tt l -> builds exit_on_error l Q.
Proof. intros Hl HQ. eapply builds_eq; [apply exit_quiet, Hl|exact HQ]. Qed.

Lemma check_builds c l : safe_link c l -> builds builder_check_multi_defs l (fun _ l' => safe_link c l' /\ later_link l l').
Proof.
  intros Hl. unfold builder_check_multi_defs. eapply builds_bind; [by apply (builds_eq _ _ _ l l (fun a l' => a = l /\ l' = l))|].
  intros a l' [-> ->]. eapply (builds_bind _ _ _ _ (fun _ l' => safe_link c l' /\ later_link l l')); [|intros [] l' H; eapply exit_builds; [apply H|exact H]]. apply phase_builds; [exact Hl|apply check_loop_stops|].
  apply check_loop_safe. intros p Hp. pose proof (gs_wf _ _ (sh_good _ _ (sl_shapes _ _ _ _ _ _ _ Hl))) as Hwf.
  exact (shape_table_iter_lookup _ p Hwf Hp).
Qed.

(** ** Suppressing *)

Lemma builder_suppress_ok : update_ok (builder_tables n) name_entry_builder_suppress.
Proof. intros s p d Hs Ed. eapply update_direct_changes; [exact Hs|exact Ed|reflexivity|discriminate|discriminate]. Qed.

Lemma suppress_mult_ok : update_ok (builder_tables n) name_entry_suppress_mult.
Proof.
  intros s p d Hs Ed. unfold name_entry_suppress_mult, name_entry_get_use. rewrite Ed. cbn [fmap option_fmap option_map mbind option_bind].
  destruct (only_mult _); [by eapply builder_suppress_ok|by apply no_change].
Qed.

Lemma builder_name_stops entry key : stops (builder_suppress_name entry key).
Proof. apply stops_bind; [auto with stops|]. intros [p|]; auto with stops. Qed.

Lemma builder_1_stops c : stops (builder_suppress_1 c).
Proof.
  apply stops_control; [|auto with stops]. intros entry.
  apply stops_bind; [destruct (sc_all c); auto with stops|]. intros _. apply stops_mapM, builder_name_stops.
Qed.

Lemma builder_name_safe cur l entry s key :
  st_entries (l_shapes l) !! entry = Some s -> wf_key key -> lsafe cur l (builder_suppress_name entry key) cur (fun _ _ => True).
Proof.
  intros Es Hk. eapply lsafe_find_name; [exact Es|exact Hk|]. intros [p|] Ho; [|by apply lsafe_ret].
  destruct (Ho p eq_refl) as [d Ed]. eapply update_name_safe; [exact Es|exact Ed|apply builder_suppress_ok].
Qed.

Lemma suppress_builds args c l :
  Forall control_names_ok (suppresses args) -> safe_link c l ->
  builds (builder_suppress args) l (fun _ l' => safe_link c l' /\ later_link l l').
Proof.
  intros Ha Hl. unfold builder_suppress. eapply builds_bind.
  - apply (phase_builds _ c); [exact Hl|destruct (arg_data_get_suppress_mult args); auto with stops|].
    destruct (arg_data_get_suppress_mult args); [|by apply lsafe_ret]. apply update_shapes_safe, shape_update_names, suppress_mult_ok.
  - intros [] l1 [Hl1 Hlt1]. eapply builds_bind.
    + apply (phase_builds _ c); [exact Hl1|apply stops_mapM, builder_1_stops|].
      apply (lsafe_mapM _ _ _ _ _ _ control_names_ok (fun _ => True)); [exact Ha|exact I|]. intros k l2 Hk _.
      apply control_safe; [apply builder_suppress_ok|exact Hk|intros l'; by apply lsafe_ret|intros l'; apply builder_name_safe].
    + intros [] l2 [Hl2 Hlt2]. eapply exit_builds; [exact Hl2|]. split; [exact Hl2|by transitivity l1].
Qed.
End Phases.

(** ** Writing *)

(** What is known of an input that is written. *)
Definition holds (c : list Z * NStringT) (i : input) : Prop :=
  c.1 = i.1 /\ wf_nstring c.2 /\ Some <$> n_contents c.2 = i.2.

(** The inputs fit the counts of the format. *)
Definition inputs_fit (ins : list input) : Prop :=
  Z.of_nat (length ins) < 2 ^ 32 /\
  Forall (fun i => Z.of_nat (length i.1) + 1 < 2 ^ 32 /\ Z.of_nat (length i.2) < 2 ^ 32) ins.

Lemma stored_all cs ins : Forall2 stored cs ins ->
  exists cs', mapM (fun c => n ← c_contents c; Some (c_chars (c_name c), n)) cs = Some cs' /\ Forall2 holds cs' ins /\
    cs'.*1 = (fun c => c_chars (c_name c)) <$> cs.
Proof.
  induction 1 as [|c i cs ins (Hn & bytes & Ec & Hb & Hby) Hcs (cs' & E & Hcs' & Hk)]; [exists []; by repeat constructor|].
  exists ((c_chars (c_name c), NString (length bytes) bytes) :: cs'). cbn [mapM]. rewrite Ec. cbn [mbind option_bind]. rewrite E. cbn.
  split; [reflexivity|]. split; [|by rewrite Hk]. constructor; [|exact Hcs']. split; [exact Hn|]. split; [by split|exact Hb].
Qed.

Lemma c_chars_string s : Forall is_byte s -> Forall (fun c => 0 < c < 256) (c_chars s).
Proof.
  induction 1 as [|c s Hc Hs IH]; cbn [c_chars]; [constructor|]. destruct (Z.eqb_spec c 0); constructor; [|exact IH]. unfold is_byte in Hc. lia.
Qed.

Lemma c_chars_terminated s : Forall (fun c => 0 < c < 256) s -> c_chars (s ++ [0]) = s.
Proof.
  induction 1 as [|c s Hc Hs IH]; [reflexivity|]. cbn [c_chars app]. destruct (Z.eqb_spec c 0); [lia|]. by rewrite IH.
Qed.

Lemma holds_fits cs ins cs' :
  Forall2 holds cs ins -> inputs_fit ins -> cs.*1 = cs' -> Forall (Forall (fun c => 0 < c < 256)) cs' ->
  Forall lib_capsule_fits cs /\ Z.of_nat (length cs) < 2 ^ 32.
Proof.
  intros Hcs [Hn Hi] <- Hb. split; [|by rewrite (Forall2_length _ _ _ Hcs)]. clear Hn.
  induction Hcs as [|c i cs ins (H1 & H2 & H3) Hcs IH]; constructor.
  - cbn in Hb. inversion Hb; subst. inversion Hi as [|? ? [Hi1 Hi2] ?]; subst. split; [split; [assumption|by rewrite H1]|].
    split; [exact H2|]. rewrite <- (proj1 H2). rewrite <- H3, length_fmap in Hi2. exact Hi2.
  - apply IH; [by inversion Hi|by inversion Hb].
Qed.

(** *** The index *)

Lemma lib_names_elem s e : e ∈ lib_names (se_names s) ->
  exists v c, v ∈ names_of (se_names s) /\ definition v.2 = Some c /\ e = (v.1, (get_use v.2, c)).
Proof.
  intros (v & Hv & E)%list_elem_of_omap. unfold to_index in E. destruct (definition v.2) as [c|] eqn:Ec; [|discriminate].
  injection E as <-. eauto.
Qed.

Lemma builder_shape_ok n s : safe_shape (builder_tables n) s ->
  index_ok s /\ (Forall (fun e => (e.2.2 < n)%nat) (lib_names (se_names s))) /\ index_legal n Z.of_nat s.
Proof.
  intros Hs. destruct (names_fit _ s Hs) as (Hn & Hl & _). destruct (names_count _ s _ Hs (reflexivity _)) as (Hid & _ & Hc).
  rewrite Forall_forall in Hn, Hl.
  assert (forall e, e ∈ lib_names (se_names s) -> ok_key e.1 /\ (e.2.2 < n)%nat /\ has e.2.1 U_DEFD || has e.2.1 U_MULT = true) as He.
  { intros e (v & c & Hv & Ec & ->)%lib_names_elem. destruct (Hl v Hv c Ec) as [Hlt Hu]. cbn [fst snd].
    split; [by apply Hn|]. split; [exact Hlt|]. by rewrite !get_use_has by (unfold U_DEFD, U_MULT; lia). }
  split; [|split].
  - constructor; [apply Hs| |].
    + apply Forall_forall. intros e He'. by apply He.
    + assert (length (lib_names (se_names s)) <= length (names_of (se_names s)))%nat as H.
      { pose proof (sublist_length _ _ (lib_names_keys (names_of (se_names s)))) as H. rewrite !length_fmap in H. exact H. }
      unfold UINT_MAX, UINT_BITS in Hid. lia.
  - apply Forall_forall. intros e He'. by apply He.
  - split; [by destruct (ss_good _ _ Hs) as [(rs & (Hdone & _) & _) _]; apply Hdone|].
    apply Forall_forall. intros e He'. destruct (He e He') as (_ & H1 & H2). split; [exact H2|lia].
Qed.

Lemma builder_ready device ps tld tld2 n c l cs :
  safe_link (builder_tables n) device ps tld tld2 c l -> capsule_major_version (l_statics l) <> 0 ->
  Z.of_nat (length (st_entries (l_shapes l))) < 2 ^ 32 -> length cs = n -> Forall lib_capsule_fits cs -> Z.of_nat n < 2 ^ 32 ->
  lib_ready Z.of_nat (l_statics l) (l_shapes l) cs /\ TldLibraryBack.library_legal cs Z.of_nat (l_shapes l).
Proof.
  intros [_ [Hv Hmi _ _ _ _] Ht _] Hver Hf <- Hcs Hn.
  assert (forall s, s ∈ shapes_of (l_shapes l) -> safe_shape (builder_tables (length cs)) s) as Hs.
  { intros s (p & Hp)%shapes_of_elem. by eapply (sh_all _ _ Ht). }
  split; [constructor|].
  - split; [destruct Hv; [contradiction|assumption]|exact Hmi].
  - split; [apply (sh_good _ _ Ht)|exact Hf].
  - apply Forall_forall. intros s H. by apply (builder_shape_ok (length cs)), Hs.
  - by split.
  - apply Forall_forall. intros s H. destruct (builder_shape_ok (length cs) s (Hs s H)) as (_ & Hx & _).
    eapply Forall_impl; [exact Hx|]. intros e He. cbn in He. unfold is_unsigned, UINT_MAX, UINT_BITS. lia.
  - apply Forall_forall. intros s H. by apply builder_shape_ok, Hs.
Qed.

(** Writing does not stop, whatever the sizes. *)
Lemma do_lib_count_total s a : exists s' a', shape_entry_do_lib_count s a = Some (s', a') /\ same_shape s s'.
Proof.
  unfold shape_entry_do_lib_count.
  destruct (some_iter_count (name_entry_do_lib_count (se_names s)) 0 (se_names s)) as [k ->].
  { intros b p d E. unfold name_entry_do_lib_count. rewrite E. cbn. eauto. }
  eexists _, _. split; [reflexivity|]. by split_and!.
Qed.

Lemma some_lib_write f s : is_Some (shape_entry_do_lib_write f s).
Proof.
  unfold shape_entry_do_lib_write. destruct (0 <? _); [|auto with total]. apply some_wseq; [auto with total|].
  apply some_iter_write. intros p d E [k Ek]. unfold name_entry_do_lib_write. rewrite E, Ek. cbn.
  destruct (definition d); eauto with total.
Qed.

Lemma library_write_total junk g t cs f :
  4 <= capsule_major_version g -> wf_shapes t -> exists t' m, library_write junk g t cs f = Some (t', m) /\ same_shapes t t'.
Proof.
  intros Hv Ht. unfold library_write.
  destruct (shape_iter_total shape_entry_do_lib_count (shape_table_iter t) do_lib_count_total t 0) as (t' & k & -> & Hs); [by intros p; apply shape_pointers|].
  cbn [mbind option_bind]. assert (wf_shapes t') as Ht' by (by eapply wf_shapes_same).
  match goal with |- context [m ← ?o; _] => assert (is_Some o) as [m ->] end; [|by exists t', m].
  apply some_wseq; [unfold library_write_header; rewrite (proj2 (Z.leb_le _ _)) by lia; auto with total|].
  apply some_wseq; [auto with total|]. apply some_wseq; [apply some_wlist; auto with total|].
  apply some_wseq; [auto with total|]. apply some_shape_iter_write; [exact Ht'|]. intros s. apply some_lib_write.
Qed.

(** ** The library and what is extracted from it *)

(** The arguments that ask for all the capsules of a file. *)
Definition extract_args (file : list Z) : ArgDataT :=
  arg_data_set_files (arg_data_set_extract_all (arg_data_init []) true) [file].

(** What [m] writes is a library, and its extraction gives each of the inputs
    under its name, byte for byte, and nothing else. *)
Definition stored_library (ins : list input) (m : writer unit) : Prop :=
  forall sends name byte, exists w,
    (_ ← m; tdf_writer_close) (tdf_writer_open (takes_all sends) name byte) = (w, Ok tt) /\
    forall junk junk_nstring open_file can_write devices file g reports,
      (forall name, can_write name = true /\ d_room (devices name) = None) -> capsule_major_version g = 0 -> quiet reports ->
      open_file file = Some (Some <$> bytes_in_file w) ->
      exists st, extract_main junk junk_nstring open_file can_write devices (extract_args file) (extract_start g reports) = (st, Ok tt) /\
        l_errors (ex_link st) = reports /\
        forall name data, (name, data) ∈ ins <-> (fun bytes => Some <$> bytes) <$> ex_written st !! name = Some data.

(** The sizes that the format can announce. *)
Definition library_fits (ins : list input) (l : LinkT) : Prop :=
  Z.of_nat (length (st_entries (l_shapes l))) < 2 ^ 32 /\ inputs_fit ins.

Lemma holds_lookup cs ins name data : Forall2 holds cs ins ->
  (name, data) ∈ ins <-> exists n, (name, n) ∈ cs /\ Some <$> n_contents n = data.
Proof.
  intros H. split.
  - intros (k & Hk)%list_elem_of_lookup. destruct (Forall2_lookup_r _ _ _ _ _ H Hk) as ([x n] & Ec & H1 & _ & H3). cbn in *. subst.
    exists n. split; [by eapply list_elem_of_lookup_2|reflexivity].
  - intros (n & (k & Hk)%list_elem_of_lookup & <-). destruct (Forall2_lookup_l _ _ _ _ _ H Hk) as ([x d] & Ei & H1 & _ & H3). cbn in *. subst.
    by eapply list_elem_of_lookup_2.
Qed.

Lemma library_write_junk junk junk' g t cs f : library_write junk g t cs f = library_write junk' g t cs f.
Proof.
  unfold library_write. assert (forall cs, wlist (fun c => Some (write_lib_capsule junk c)) cs = wlist (fun c => Some (write_lib_capsule junk' c)) cs) as ->; [|done].
  clear. intros cs. induction cs as [|c cs IH]; [reflexivity|]. cbn [wlist]. rewrite IH. unfold write_lib_capsule. by rewrite !copy_cstring_eq.
Qed.

Lemma written_stored junk g shapes cs ins t m :
  lib_ready Z.of_nat g shapes cs -> TldLibraryBack.library_legal cs Z.of_nat shapes -> Forall2 holds cs ins -> NoDup cs.*1 ->
  library_write junk g shapes cs Z.of_nat = Some (t, m) -> stored_library ins m.
Proof.
  intros Hready Hleg Hcs Hnd Ew sends name byte.
  assert (forall junk' junk_nstring file g' reports name' byte', capsule_major_version g' = 0 -> exists w l',
    (_ ← m; tdf_writer_close) (tdf_writer_open (takes_all sends) name byte) = (w, Ok tt) /\
    library_read junk' junk_nstring file 0 (with_reader (tdf_reader_open (Some <$> bytes_in_file w) name' byte') (builder_start g' reports)) =
      (l', Ok (Library file (read_capsule file <$> cs) (capsule_major_version g) (capsule_minor_version g) true)) /\ l_errors l' = reports) as Hread.
  { intros junk' junk_nstring file g' reports name' byte' Hg.
    destruct (library_reads_back junk' junk_nstring g shapes cs Z.of_nat file 0 sends name byte name' byte' (builder_start g' reports) Hready Hleg (or_introl Hg) eq_refl)
      as (t1 & m1 & w & l1 & Ew1 & Ec & Er & Es & _). rewrite (library_write_junk junk' junk), Ew in Ew1. injection Ew1 as <- <-. eauto. }
  destruct (Hread (fun _ => 0) (fun _ => nstring_init) [] initial_statics initial_reports [] 0 eq_refl) as (w & _ & Ec & _). exists w. split; [exact Ec|].
  intros junk' junk_nstring open_file can_write devices file g' reports Hw Hg Hq Ho.
  destruct (Hread junk' junk_nstring file g' reports file (u8 (junk' 0%nat)) Hg) as (w1 & l1 & Ec1 & Er & Es). rewrite Ec in Ec1. injection Ec1 as <-.
  assert (forall c, c ∈ cs -> extract_name false (read_capsule file c) = c.1 /\ wf_nstring c.2) as Hok.
  { destruct Hready as [_ _ _ [Hf _] _]. rewrite Forall_forall in Hf. intros c Hc. destruct (Hf c Hc) as [[H1 _] [H2 _]].
    split; [|exact H2]. unfold extract_name, lib_capsule_name. cbn [read_capsule lc_name]. by apply c_chars_terminated. }
  assert (extract_name false <$> (read_capsule file <$> cs) = cs.*1) as Enames.
  { rewrite <- list_fmap_compose. apply list_fmap_ext. intros k c Hc%list_elem_of_lookup_2. by apply Hok. }
  assert (Forall (fun c => wf_nstring (lib_capsule_contents c)) (read_capsule file <$> cs)) as Hwf.
  { apply Forall_fmap, Forall_forall. intros c Hc. by apply Hok. }
  pose proof (extract_all_eq junk' can_write devices Hw false (read_capsule file <$> cs) (Extract l1 [] ∅) Hwf) as Ex.
  destruct (close_link l1) as (r & Ecl). eexists. split; [|split].
  - unfold extract_main, library_extract_all, read_library, ex_in_link, mbind, stM_bind.
    cbn -[library_read library_extract_1 rd mapM_ exit_on_error]. rewrite Ho. cbn -[library_read library_extract_1 rd mapM_ exit_on_error].
    unfold with_reader in Er. cbn -[library_read] in Er. rewrite Er. cbn -[rd library_extract_1 mapM_ exit_on_error].
    rewrite Ex. cbn -[rd all_written exit_on_error]. rewrite Ecl. cbn -[all_written exit_on_error].
    by rewrite exit_quiet by (cbn; by rewrite Es).
  - exact Es.
  - intros nm data. rewrite (holds_lookup cs ins nm data Hcs), fmap_Some. cbn [ex_written]. split.
    + intros (n & Hin & <-). exists (n_contents n). split; [|reflexivity]. apply all_written_lookup; [by rewrite Enames|]. left.
      exists (read_capsule file (nm, n)). split; [by apply list_elem_of_fmap_2|]. by split; [apply (Hok _ Hin)|].
    + intros (bytes & Hl & ->). apply all_written_lookup in Hl as [(x & (c & -> & Hin)%list_elem_of_fmap & En & <-)|[_ Hl]]; [|by rewrite lookup_empty in Hl|by rewrite Enames].
      exists c.2. split; [|reflexivity]. rewrite <- En, (proj1 (Hok c Hin)). by destruct c.
Qed.

(** ** The whole builder *)

Section Main.
Variable junk : nat -> Z.
Variable junk_nstring : nat -> NStringT.
Variable device : Prop.
Variable open_file : list Z -> option (list (option Z)).
Hypothesis files_ok : forall name data, open_file name = Some data -> Forall (fun o => from_option is_byte device o) data.

Context {snames : list NStringT} {tld : nat} {tld2 : option nat}.

Abbreviation builds := (builds device).
Abbreviation safe_link := (fun n => safe_link (builder_tables n) device (seq 0 (length snames)) tld tld2 []).
Abbreviation built := (built junk device (snames := snames) (tld := tld) (tld2 := tld2)).

Lemma built_phases cs ins l : built cs ins l -> safe_link (length cs) l.
Proof.
  intros [(c & [Hl Hu] & Hc) _ _ _]. pose proof (sl_shapes _ _ _ _ _ _ _ Hl) as Ht. rewrite (proj1 (setup_shapes junk l)) in Ht.
  pose proof (index_safe (known (length cs)) junk device (builder_tables (length cs)) l (l_shapes l) (fun H => H)
    (ex_intro _ c (conj (conj Hl Hu) Hc)) (builder_shapes _ _ Ht)) as H. by destruct l.
Qed.

(** The writing, when no error was reported and when one was. *)
Lemma write_builds cs ins num l1 l :
  built cs ins l1 -> (l_serious l1 = true \/ length cs = num /\ versioned junk l1) -> safe_link (length cs) l -> later_link l1 l ->
  builds (builder_write_library junk num cs) l (fun m l' => quiet (l_errors l') /\ (l_serious l' = false -> library_fits ins l' -> stored_library ins m)).
Proof.
  intros [_ _ Hnames Hins] Hnum Hl Hlt. pose proof (later_serious _ _ Hlt) as Hser. destruct Hlt as (_ & _ & _ & Hver & _).
  pose proof (sl_quiet _ _ _ _ _ _ _ Hl) as Hq. unfold builder_write_library.
  eapply builds_bind; [by apply (builds_eq _ _ _ l l (fun a l' => a = l /\ l' = l))|]. intros a l' [-> ->].
  destruct (l_serious l) eqn:Es.
  - unfold TldBuilderSafe.builds, mbind, stM_bind, need. destruct (stored_capsules num cs) as [cs'|]; cbn -[l_serious]; [|by right].
    destruct (library_write _ _ _ _ _) as [[t m]|]; cbn -[l_serious]; [|by right].
    split; [exact Hq|]. unfold l_serious in *. cbn [l_errors]. rewrite Es. discriminate.
  - destruct Hnum as [Hnum|[<- [Hv _]]]; [discriminate (Hser Hnum)|].
    destruct Hins as [Hins|[Hins Hnd]]; [discriminate (Hser Hins)|]. specialize (Hver Hv).
    destruct (stored_all cs ins Hins) as (cs' & Ecs & Hcs' & Hk).
    assert (stored_capsules (length cs) cs = Some cs') as -> by (unfold stored_capsules; by rewrite Nat.ltb_irrefl).
    assert (4 <= capsule_major_version (l_statics l)) as H4 by (destruct (sg_version _ _ _ _ _ (sl_statics _ _ _ _ _ _ _ Hl)); [contradiction|lia]).
    pose proof (gs_wf _ _ (sh_good _ _ (sl_shapes _ _ _ _ _ _ _ Hl))) as Hwf.
    destruct (library_write_total junk (l_statics l) (l_shapes l) cs' Z.of_nat H4 Hwf) as (t & m & Ew & Ht).
    unfold TldBuilderSafe.builds, mbind, stM_bind, need. cbn. rewrite Ew. cbn. split; [exact Hq|]. intros _ [Hf Hi]. cbn in Hf.
    rewrite <- (Forall2_length _ _ _ (proj2 Ht)) in Hf.
    destruct (holds_fits cs' ins _ Hcs' Hi eq_refl) as [Hfit Hlen].
    { rewrite Hk. apply Forall_fmap. eapply Forall_impl; [exact Hnames|]. intros c. apply c_chars_string. }
    assert (length cs' = length cs) as El by (by rewrite (Forall2_length _ _ _ Hcs'), (Forall2_length _ _ _ Hins)).
    destruct (builder_ready device _ tld tld2 (length cs) [] l cs' Hl Hver Hf El Hfit) as [Hready Hleg]; [by rewrite <- El|].
    apply (written_stored junk (l_statics l) (l_shapes l) cs' ins t m Hready Hleg Hcs'); [|exact Ew].
    assert (cs'.*1 = ins.*1) as ->; [|exact Hnd]. clear -Hcs'. induction Hcs' as [|c i cs ins (H & _) _ IH]; [reflexivity|]. cbn. by rewrite H, IH.
Qed.

Lemma main_builds g args reports :
  quiet reports -> unit_sets_checked snames tld tld2 -> capsule_setup junk g unit_table_create = set_up snames tld tld2 ->
  args_ok args -> files args <> [] -> Forall (Forall is_byte) (files args) ->
  builds (builder_main junk junk_nstring open_file args) (builder_start g reports)
    (fun m l => quiet (l_errors l) /\ (l_serious l = false -> library_fits (inputs junk open_file args) l -> stored_library (inputs junk open_file args) m)).
Proof.
  intros Hq Hc Hs Ha Hf Hb. assert (complete (known O) junk device (snames := snames) (tld := tld) (tld2 := tld2) (builder_start g reports)) as Hstart.
  { exists []. split; [|by right]. apply start_linked; [exact Hc|exact Hs|by apply open_stream_safe; constructor|apply no_shapes_safe|exact Hq]. }
  unfold builder_main, builder_build. apply builds_assoc. eapply builds_bind; [by apply read_capsules_builds|]. intros [cs num] l1 [H1 Hnum]. cbn [fst snd] in *.
  pose proof (built_phases cs _ l1 H1) as Hl1. apply builds_assoc. eapply builds_bind; [eapply check_builds, Hl1|]. intros [] l2 [Hl2 Hlt2].
  apply builds_assoc. eapply builds_bind; [eapply suppress_builds; [apply ao_suppresses, Ha|exact Hl2]|]. intros [] l3 [Hl3 Hlt3].
  eapply write_builds; [exact H1|exact Hnum|exact Hl3|by transitivity l2].
Qed.
End Main.


(** The capsules [a] and [b]; [l] is the library that the builder makes of
    [b]. The library of [l] and [a] defines two tags. *)
Definition ex_built_bytes (r : LinkT * result capsule_exn (writer unit)) : list Z :=
  match r with
  | (_, Ok m) => bytes_in_file ((_ ← m; tdf_writer_close) (tdf_writer_open (takes_all at_close) [] 0)).1
  | _ => []
  end.

Definition ex_tags_a : list Z := Eval vm_compute in default [] (tags_capsule [(late_a, Z.lor U_DECD U_DEFD)]).
Definition ex_tags_b : list Z := Eval vm_compute in default [] (tags_capsule [(late_b, Z.lor U_DECD U_DEFD)]).

Definition ex_capsule_files (name : list Z) : option (list (option Z)) :=
  if bool_decide (name = [97]) then Some (Some <$> ex_tags_a)
  else if bool_decide (name = [98]) then Some (Some <$> ex_tags_b) else None.

Definition ex_build_args (libraries files : list (list Z)) : ArgDataT :=
  arg_data_set_files (foldl arg_data_add_library_file (arg_data_init []) libraries) files.

Definition ex_build (open_file : list Z -> option (list (option Z))) (libraries files : list (list Z)) : LinkT * result capsule_exn (writer unit) :=
  builder_main (fun _ => 0) (fun _ => nstring_init) open_file (ex_build_args libraries files) (builder_start initial_statics initial_reports).

Definition ex_library : list Z := Eval vm_compute in ex_built_bytes (ex_build ex_capsule_files [] [[98]]).

Definition ex_all_files (name : list Z) : option (list (option Z)) :=
  if bool_decide (name = [108]) then Some (Some <$> ex_library) else ex_capsule_files name.

(** What is extracted from the library of [l] and [a], and whether an error
    was reported before. *)
Definition ex_extracted : bool * option (list Z) * option (list Z) :=
  let r := ex_build ex_all_files [[108]] [[97]] in
  let st := (extract_main (fun _ => 1) (fun _ => nstring_init) (fun _ => Some (Some <$> ex_built_bytes r)) (fun _ => true) (fun _ => takes_all at_close)
    (extract_args [111]) (extract_start initial_statics initial_reports)).1 in
  (l_serious r.1 || l_serious (ex_link st), ex_written st !! [98], ex_written st !! [97]).

Lemma ex_all_files_ok name data : ex_all_files name = Some data -> Forall (fun o => from_option is_byte False o) data.
Proof.
  assert (forall l, bool_decide (Forall is_byte l) = true -> Forall (fun o => from_option is_byte False o) (Some <$> l)) as H.
  { intros l Hl%bool_decide_eq_true_1. apply Forall_fmap. exact Hl. }
  unfold ex_all_files, ex_capsule_files. repeat case_bool_decide; [..|discriminate]; intros <-%(inj Some); apply H; vm_compute; reflexivity.
Qed.

Lemma ex_build_args_ok : args_ok (ex_build_args [[108]] [[97]]).
Proof. constructor; cbn; constructor. Qed.

Lemma ex_names_bytes : Forall (Forall is_byte) [[97]].
Proof. apply (bool_decide_eq_true_1 _). vm_compute. reflexivity. Qed.

