(* ===== verification/TldPhases.v ===== *)
(** * TldPhases: the phases of the linker

    [phase st m Q] says what a phase of the linker (tld/src/frontend/linker.c)
    does from the state [st], whatever files it reads: it leaves a state that
    satisfies [Q], or it ends the program in one of the ways of [ended]. The
    phase that renames is here, the others in TldLinkerSafe. *)
From stdpp Require Import base list list_numbers numbers.
From Stdlib Require Import ZArith Lia.
From S2P Require Import Prelude Codec ExdsString ExdsError TldNameKey TldIO TldIOSpec HashTable TldNames.
From S2P Require Import TldRename TldNameTable TldShapes TldShapesSpec TldCapsule TldCapsuleSpec TldUsage TldRead TldReadUnits TldLibrary.
From S2P Require Import TldSafeState TldSafeRead TldLibrarySafe TldArgs TldArgsSpec TldResolve TldLinker TldUpdates.

(** A shape of the linker, or of the index of the libraries, has given out
    all its identifiers. *)
Definition out_of_ids (st : ResolveT) : Prop :=
  exists s, (s ∈ st_entries (l_shapes (rv_link st)) \/ s ∈ st_entries (rv_lib_shapes st)) /\ id_count s = UINT_MAX.

(** No header of a capsule has been read. *)
Definition headless (l : LinkT) : Prop := capsule_major_version (l_statics l) = 0 \/ need_setup (l_statics l) = true.

#[export] Instance headless_dec l : Decision (headless l).
Proof. unfold headless. apply _. Defined.

Section Phases.
Variable device : Prop.

(** The ends of the program: a shape out of identifiers, a device that fails,
    and one error too many. No phase exits because of the errors that were
    reported before. *)
Definition ended (st : ResolveT) (e : capsule_exn) : Prop :=
  match e with
  | Stop => out_of_ids st
  | Fatal_error => too_many (l_errors (rv_link st))
  | XX_tdf (XX_bistream_read_error _) => device
  | _ => False
  end.

Definition phase {A} (st : ResolveT) (m : resolve A) (Q : A -> ResolveT -> Prop) : Prop :=
  match m st with
  | (st', Ok a) => Q a st'
  | (st', Throw e) => ended st' e
  end.

Lemma phase_bind {A B} st (m : resolve A) (k : A -> resolve B) Q R :
  phase st m Q -> (forall a st', Q a st' -> phase st' (k a) R) -> phase st (m ≫= k) R.
Proof.
  unfold phase, mbind, stM_bind. intros Hm Hk. destruct (m st) as [st1 [a|e]]; [|exact Hm]. by apply Hk.
Qed.

Lemma phase_impl {A} st (m : resolve A) (Q R : A -> ResolveT -> Prop) :
  (forall a st', Q a st' -> R a st') -> phase st m Q -> phase st m R.
Proof. unfold phase. intros H. destruct (m st) as [st' [a|e]]; auto. Qed.

Lemma phase_ret {A} st (a : A) (Q : A -> ResolveT -> Prop) : Q a st -> phase st (mret a) Q.
Proof. auto. Qed.

Lemma phase_get {A} st (k : ResolveT -> resolve A) Q : phase st (k st) Q -> phase st (st_get ≫= k) Q.
Proof. auto. Qed.

Lemma phase_mapM {A} (f : A -> resolve unit) (P : A -> Prop) (R : ResolveT -> Prop) xs : forall st,
  Forall P xs -> R st -> (forall a st', P a -> R st' -> phase st' (f a) (fun _ => R)) -> phase st (mapM_ f xs) (fun _ => R).
Proof.
  induction xs as [|a xs IH]; intros st Hxs Hst Hf; cbn [mapM_]; [exact Hst|]. inversion Hxs; subst.
  eapply phase_bind; [by apply Hf|]. intros [] st' Hst'. by apply IH.
Qed.

Lemma exit_on_error_phase st (P : ResolveT -> Prop) :
  quiet (l_errors (rv_link st)) -> P st -> phase st (in_link exit_on_error) (fun _ => P).
Proof. intros Hq Hp. unfold phase, in_link. rewrite exit_quiet by exact Hq. by destruct st. Qed.

Lemma phase_need {A B} st (o : option A) a (k : A -> resolve B) Q :
  o = Some a -> phase st (k a) Q -> phase st (in_link (need o) ≫= k) Q.
Proof. intros ->. by destruct st. Qed.
End Phases.

(** ** Renaming the names of a shape *)

Section Rename.
Variable junk : nat -> Z.

Lemma rename_loop_both rs t : rename_loop junk rs t t = (t' ← add_renames junk t rs; Some (t', t')).
Proof.
  revert t. induction rs as [|[from to] rs IH]; intros t; [reflexivity|]. cbn [rename_loop add_renames].
  destruct (name_table_add_rename junk t from to) as [t1|]; [|reflexivity]. apply IH.
Qed.

(** Whether cycles are reported does not matter. *)
Lemma resolve_renames_report fuel : forall t p,
  name_entry_resolve_renames fuel t p false =
  ('(t, r, _) ← name_entry_resolve_renames fuel t p true; Some (t, r, [])).
Proof.
  induction fuel as [|fuel IH]; intros t p; [reflexivity|]. cbn [name_entry_resolve_renames].
  destruct (nt_entries t !! p) as [e|]; [|reflexivity]. cbn [mbind option_bind].
  destruct (ne_type e) as [[q|]| | | |]; try reflexivity. cbn [mbind option_bind]. rewrite IH.
  destruct (name_entry_resolve_renames fuel _ q true) as [[[t1 r] errs]|]; reflexivity.
Qed.

Lemma resolve_all_report ps : forall t,
  resolve_all t ps false = ('(t, _) ← resolve_all t ps true; Some (t, [])).
Proof.
  induction ps as [|p ps IH]; intros t; [reflexivity|]. cbn [resolve_all]. rewrite resolve_renames_report.
  destruct (name_entry_resolve_renames _ t p true) as [[[t' r] errs]|]; [|reflexivity]. cbn [mbind option_bind]. rewrite IH.
  destruct (resolve_all _ ps true) as [[t2 errs1]|]; reflexivity.
Qed.

Lemma add_entry_keys (P : NameKeyT -> Prop) t key ty :
  P (name_key_copy junk key) -> (forall p k, name_entry_key t p = Some k -> P k) ->
  forall p k, name_entry_key (add_entry junk t key ty).1 p = Some k -> P k.
Proof.
  intros Hk Ht p k. unfold name_entry_key. cbn. intros E. destruct (nt_entries t !! p) as [x|] eqn:Ex.
  - rewrite (lookup_app_l_Some _ _ _ _ Ex) in E. cbn in E. apply (Ht p). unfold name_entry_key. by rewrite Ex.
  - apply lookup_ge_None in Ex. rewrite lookup_app_r in E by exact Ex. destruct (p - _)%nat; [|discriminate].
    cbn in E. by injection E as <-.
Qed.

Lemma add_rename_keys (P : NameKeyT -> Prop) t from to t' :
  P (name_key_copy junk from) -> P (name_key_copy junk to) -> (forall p k, name_entry_key t p = Some k -> P k) ->
  name_table_add_rename junk t from to = Some t' -> forall p k, name_entry_key t' p = Some k -> P k.
Proof.
  intros Hf Hto Ht. unfold name_table_add_rename.
  assert (exists t1 pt, match ht_get (nt_contents t) to with Some p => (t, p) | None => name_entry_create_place junk t to end = (t1, pt) /\
    forall p k, name_entry_key t1 p = Some k -> P k) as (t1 & pt & -> & Ht1).
  { destruct (ht_get (nt_contents t) to) as [p|]; [by exists t, p|]. eexists _, _. split; [reflexivity|]. by apply add_entry_keys. }
  destruct (ht_get (nt_contents t1) from) as [pf|].
  - unfold name_entry_make_indirect. destruct (entry_type t1 pf) as [ty|]; [|discriminate]. cbn [mbind option_bind].
    destruct (name_entry_is_place ty); [|discriminate]. intros [= <-] p k. rewrite set_type_keys. apply Ht1.
  - intros [= <-]. by apply add_entry_keys.
Qed.

Lemma add_renames_keys (P : NameKeyT -> Prop) rs : forall t t',
  Forall (fun r => P (name_key_copy junk r.1) /\ P (name_key_copy junk r.2)) rs -> (forall p k, name_entry_key t p = Some k -> P k) ->
  add_renames junk t rs = Some t' -> forall p k, name_entry_key t' p = Some k -> P k.
Proof.
  induction rs as [|[from to] rs IH]; intros t t' Hrs Ht; cbn [add_renames]; [by intros [= <-]|]. inversion Hrs as [|? ? [Hf Hto] Hrs']; subst.
  destruct (name_table_add_rename junk t from to) as [t1|] eqn:E; [|discriminate]. apply IH; [exact Hrs'|].
  by apply (add_rename_keys P t from to).
Qed.

Lemma shape_of_renames tk key rs t :
  ok_nstring key -> (forall k, exists k', target rs k k') -> renames_done rs t -> (forall p, get_direct t p = None) ->
  (forall p k, name_entry_key t p = Some k -> ok_key k) -> safe_shape tk (ShapeEntry key t 0 false [] 0).
Proof.
  intros Hk Hall Hdone Hno Hkeys. constructor; [|exact Hk|exact Hkeys|].
  - split; [exists rs; split; [by apply renamed_shape_ok|auto]|]. intros p d E. cbn in E. rewrite Hno in E. discriminate.
  - intros p d E. cbn in E. rewrite Hno in E. discriminate.
Qed.

(** Every chain of renames ends. *)
Definition no_cycle (rs : list (NameKeyT * NameKeyT)) : Prop := forall k, exists k', target rs k k'.

(** The renames of a shape, in the two tables at once. *)
Lemma rename_shape_ok key rs :
  ok_nstring key -> Forall ok_rename rs -> NoDup rs.*1 -> no_cycle rs ->
  exists t t', rename_loop junk rs name_table_create name_table_create = Some (t, t) /\
    name_table_resolve_renames t true = Some (t', []) /\ name_table_resolve_renames t false = Some (t', []) /\
    forall tk, safe_shape tk (ShapeEntry key t' 0 false [] 0).
Proof.
  intros Hk Hrs Hnd Hall.
  assert (Forall (fun r => wf_key r.1 /\ wf_key r.2) rs) as Hwf.
  { eapply Forall_impl; [|exact Hrs]. intros r [H1 H2]. split; by apply ok_key_wf. }
  destruct (renames_table junk rs Hwf Hnd) as (t & t' & errs & E1 & E2 & Herr & Hdone & Hno & Ht & Ht' & Hc).
  assert (errs = []) as -> by (by apply Herr). exists t, t'. split; [by rewrite rename_loop_both, E1|]. split; [exact E2|]. split.
  { unfold name_table_resolve_renames in *. by rewrite resolve_all_report, E2. }
  intros tk. apply (shape_of_renames tk key rs); auto.
  intros p k E. assert (p < length (nt_entries t'))%nat as Hp.
  { unfold name_entry_key in E. destruct (nt_entries t' !! p) eqn:Ep; [by eapply lookup_lt_Some|discriminate]. }
  destruct (named_exists t' p Ht' Hp) as [k0 Hn]. pose proof (named_key t' k0 p Ht' Hn) as E0. rewrite E in E0. injection E0 as ->.
  assert (name_entry_key t p = Some k0) as E0 by (apply named_key; [exact Ht|]; unfold named in *; by rewrite <- Hc).
  eapply (add_renames_keys ok_key rs name_table_create t); [|discriminate|exact E1|exact E0].
  eapply Forall_impl; [|exact Hrs]. intros r [H1 H2]. rewrite !name_key_copy_id by (by apply ok_key_wf). by split.
Qed.
End Rename.
