(* ===== verification/TldLinkerSafe.v ===== *)
(** * TldLinkerSafe: the linker on any input

    What each phase of the linker (tld/src/frontend/linker.c) keeps of the
    invariant of TldSafeState, on any command line and any files. *)
From stdpp Require Import base list list_numbers numbers.
From Stdlib Require Import ZArith Lia.
From S2P Require Import Prelude Codec ExdsString ExdsError TldNameKey TldIO TldIOSpec HashTable TldNames.
From S2P Require Import TldRename TldNameTable TldShapes TldShapesSpec TldCapsule TldCapsuleSpec TldUsage TldRead TldReadUnits TldReadBack.
From S2P Require Import TldLibrary TldSafeState TldUnitSets TldSafeRead TldSafeLink TldLinked TldLibrarySafe TldArgs TldArgsSpec TldResolve TldResolveSpec TldLinker TldUpdates TldPhases.

(** ** Renaming *)

(** A table while its shapes are made from the renames: [done] are the shapes
    so far. *)
Record renaming (tk : table_kind) (done : list NStringT) (t : ShapeTableT) : Prop := {
  rn_wf : wf_shapes t;
  rn_token : token_entry t = None;
  rn_tag : tag_entry t = None;
  rn_done p s : st_entries t !! p = Some s -> se_key s ∈ done;
  rn_safe p s : st_entries t !! p = Some s -> safe_shape tk s
}.

Lemma renaming_start tk : renaming tk [] shape_table_create.
Proof.
  constructor; [apply shape_table_create_wf|reflexivity|reflexivity|intros p s E; discriminate|].
  intros p s E. discriminate.
Qed.

Lemma renaming_safe tk done t : renaming tk done t -> safe_shapes tk t.
Proof.
  intros [H1 H2 H3 _ H5]. constructor; [|exact H5]. constructor; [exact H1| |congruence|congruence].
  intros p s E. apply (ss_good _ _ (H5 p s E)).
Qed.

Lemma renaming_add junk tk done t key :
  renaming tk done t -> ok_nstring key -> key ∉ done ->
  exists t1 p, shape_table_add junk t key = (t1, p) /\ st_entries t1 !! p = Some (shape_entry_create junk key) /\
    forall s, se_key s = key -> safe_shape tk s -> renaming tk (key :: done) (set_shape t1 p s).
Proof.
  intros [Hwf Htok Htag Hdone Hsafe] [Hk _] Hni.
  assert (shape_table_get t key = None) as Eg.
  { destruct (shape_table_get t key) as [q|] eqn:E; [|reflexivity]. destruct Hni.
    destruct (proj1 (shape_get_entry t key q Hwf Hk) E) as (s & Es & <-). by eapply Hdone. }
  destruct (shape_table_add_new junk t key Hwf Hk Eg) as (Ea & Hwf' & _ & He & _).
  set (t1 := (shape_table_add junk t key).1) in *. set (p := length (st_entries t)) in *.
  assert (st_entries t1 !! p = Some (shape_entry_create junk key)) as Ep.
  { rewrite He. by apply list_lookup_middle. }
  assert (token_entry t1 = None /\ tag_entry t1 = None) as [Et Eg'].
  { unfold t1, shape_table_add. unfold shape_table_get in Eg. rewrite Eg. auto. }
  exists t1, p. split; [exact Ea|]. split; [exact Ep|]. intros s Ek Hs.
  assert (forall q x, st_entries (set_shape t1 p s) !! q = Some x -> x = s \/ st_entries t !! q = Some x) as Hcase.
  { intros q x Hq. cbn in Hq. apply list_lookup_insert_Some in Hq as [(_ & -> & _)|(Hne & Hq)]; [by left|right].
    rewrite He in Hq. apply lookup_app_Some in Hq as [Hq|[Hge Hq]]; [exact Hq|].
    apply list_lookup_singleton_Some in Hq as [Hq _]. unfold p in Hne. lia. }
  constructor; [|exact Et|exact Eg'| |].
  - eapply set_shape_wf; [exact Hwf'|exact Ep|]. cbn. rewrite nstring_copy_id by exact Hk. exact Ek.
  - intros q x Hq. destruct (Hcase q x Hq) as [->|Hq']; [rewrite Ek; left|right; by eapply Hdone].
  - intros q x Hq. destruct (Hcase q x Hq) as [->|Hq']; [exact Hs|by eapply Hsafe].
Qed.

Section RenamePhase.
Variable junk : nat -> Z.
Variable device : Prop.

(** The static variables when the linker starts. *)
Variable g0 : StaticsT.
Variable reports : ReportsT.

Definition control_safe (r : RenameControlEntryT) : Prop := control_ok r /\ no_cycle (rc_names r).

(** The state of the linker while it renames. *)
Record rename_state (done : list NStringT) (st : ResolveT) : Prop := {
  rs_statics : l_statics (rv_link st) = g0;
  rs_table : l_units (rv_link st) = unit_table_create;
  rs_reader : safe_reader device (l_reader (rv_link st));
  rs_none : rv_capsules st = [];
  rs_errors : l_errors (rv_link st) = reports;
  rs_names : renaming linker_tables done (l_shapes (rv_link st));
  rs_index : renaming (library_tables 0) done (rv_lib_shapes st)
}.

Lemma rename_1_eq r st t1 p s lt1 lp ls t t' :
  shape_table_add junk (l_shapes (rv_link st)) (rc_shape r) = (t1, p) -> st_entries t1 !! p = Some s ->
  shape_table_add junk (rv_lib_shapes st) (rc_shape r) = (lt1, lp) -> st_entries lt1 !! lp = Some ls ->
  rename_loop junk (rc_names r) (se_names s) (se_names ls) = Some (t, t) ->
  name_table_resolve_renames t true = Some (t', []) -> name_table_resolve_renames t false = Some (t', []) ->
  let l := rv_link st in
  linker_rename_1 junk r st =
    (Resolve (Link (l_reader l) (l_statics l) (l_units l) (set_shape t1 p (set_names s t')) (l_errors l))
       (set_shape lt1 lp (set_names ls t')) (rv_capsules st) (did_define st), Ok tt).
Proof.
  intros Ea Ep Eb Elp El E1 E2 l. unfold linker_rename_1, in_link, in_libraries, get_shape, put_shape, put_shapes, need, mbind, stM_bind, st_get.
  rewrite Ea, Eb. cbn. rewrite Ep. cbn. rewrite Elp. cbn. rewrite El. cbn. rewrite E1. cbn.
  rewrite E2. reflexivity.
Qed.

Lemma rename_1_phase done r st :
  control_safe r -> rc_shape r ∉ done -> rename_state done st ->
  phase device st (linker_rename_1 junk r) (fun _ => rename_state (rc_shape r :: done)).
Proof.
  intros ((Hk & Hrs & Hnd) & Hcy) Hni [H1 H2 H3 H4 He H5 H6].
  destruct (renaming_add junk _ _ _ _ H5 Hk Hni) as (t1 & p & Ea & Ep & Hn1).
  destruct (renaming_add junk _ _ _ _ H6 Hk Hni) as (lt1 & lp & Eb & Elp & Hn2).
  destruct (rename_shape_ok junk (rc_shape r) (rc_names r) Hk Hrs Hnd Hcy) as (t & t' & El & E1 & E2 & Hsafe).
  unfold phase. rewrite (rename_1_eq r st t1 p _ lt1 lp _ t t' Ea Ep Eb Elp El E1 E2).
  assert (set_names (shape_entry_create junk (rc_shape r)) t' = ShapeEntry (rc_shape r) t' 0 false [] 0) as Es.
  { unfold set_names. cbn. by rewrite nstring_copy_id by apply Hk. }
  constructor; auto; cbn [rv_link l_shapes l_errors rv_lib_shapes]; rewrite Es.
  - by apply Hn1.
  - by apply Hn2.
Qed.

Lemma renames_phase rs : forall done st,
  Forall control_safe rs -> NoDup (rc_shape <$> rs) -> (forall k, k ∈ rc_shape <$> rs -> k ∉ done) -> rename_state done st ->
  phase device st (mapM_ (linker_rename_1 junk) rs) (fun _ st' => exists done', rename_state done' st').
Proof.
  induction rs as [|r rs IH]; intros done st Hrs Hnd Hni Hst; cbn [mapM_]; [apply phase_ret; eauto|].
  inversion Hrs; subst. cbn in Hnd, Hni. inversion Hnd as [|? ? Hr Hnd']; subst.
  eapply phase_bind; [apply (rename_1_phase done); auto; apply Hni; left|].
  intros [] st' Hst'. apply (IH (rc_shape r :: done)); auto. intros k Hin Hk. apply elem_of_cons in Hk as [->|Hk]; [contradiction|].
  by apply (Hni k); [right|].
Qed.
End RenamePhase.

(** ** Reading the capsules *)

Section Linked.
Variable junk : nat -> Z.
Variable junk_nstring : nat -> NStringT.
Variable device : Prop.

(** The unit sets the linker knows. *)
Context {snames : list NStringT} {tld : nat} {tld2 : option nat}.
Variable g0 : StaticsT.
Variable reports : ReportsT.
Hypothesis quiet_start : quiet reports.
Hypothesis checked : unit_sets_checked snames tld tld2.
Hypothesis starts : capsule_setup junk g0 unit_table_create = set_up snames tld tld2.

Abbreviation sets_at := (seq 0 (length snames)).
Abbreviation start_units := (set_up snames tld tld2).2.
Abbreviation safe_link := (safe_link linker_tables device sets_at tld tld2).
Abbreviation linked := (linked (fun _ _ => True) junk device (snames := snames) (tld := tld) (tld2 := tld2)).
Abbreviation complete := (complete (fun _ _ => True) junk device (snames := snames) (tld := tld) (tld2 := tld2)).
Abbreviation versioned := (versioned junk).
Abbreviation link_ends := (link_ends device).
Abbreviation capsule_complete := (fun capsule l => capsule_complete (fun _ _ => True) junk junk_nstring device capsule l (fun _ _ _ _ => I) (fun _ _ _ => I)).

Lemma linked_start st done : rename_state device g0 reports done st -> linked [] (rv_link st).
Proof.
  intros [H1 H2 H3 _ He H5 _]. destruct (rv_link st) as [r g u t b]. cbn in *. subst g u b.
  apply start_linked; auto. by apply (renaming_safe _ done).
Qed.

Variable open_file : list Z -> option (list (option Z)).
Hypothesis files_ok : forall name data, open_file name = Some data -> Forall (fun o => from_option is_byte device o) data.

Lemma open_stream_ok name data byte : open_file name = Some data -> safe_reader device (tdf_reader_open data name byte).
Proof. intros E. apply open_stream_safe. by eapply files_ok. Qed.

Definition capsule_done (l l' : LinkT) : Prop :=
  complete l' /\ (l_serious l' = true \/ versioned l') /\ (versioned l -> versioned l').

Lemma read_capsule_file_ok i name l :
  complete l -> safe_reader device (l_reader l) ->
  link_ends (read_capsule_file junk junk_nstring open_file i name l) (capsule_done l).
Proof.
  intros Hl Hr. unfold read_capsule_file. destruct (open_file name) as [data|] eqn:E.
  - unfold open_stream, mbind, stM_bind. cbn beta iota. set (l1 := Link (tdf_reader_open _ _ _) _ _ _ _).
    assert (complete l1) as Hl1 by (apply complete_reader; [exact Hl|by eapply open_stream_ok|reflexivity]).
    pose proof (capsule_complete i l1 Hl1) as H. assert (versioned l -> versioned l1) as Hv1 by apply versioned_reader.
    destruct (capsule_read junk junk_nstring i l1) as [l2 [b|e]]; [|exact H]. cbn. destruct H as (H & H' & H2 & _). split; [exact H|]. split; [tauto|auto].
  - unfold serious. pose proof (serious_error_later (l_errors l)) as H1. pose proof (serious_error_any (l_errors l)) as H2.
    pose proof (proj1 (serious_error_ends (l_errors l))) as H3. destruct (serious_error (l_errors l)) as [b []]; cbn in *; [by apply H3|].
    split; [by apply complete_reader|]. split; [by left|apply versioned_reader].
Qed.

Lemma read_capsule_files_ok names : forall i l,
  complete l ->
  link_ends (read_capsule_files junk junk_nstring open_file i names l)
    (fun l' => complete l' /\
       (names <> [] \/ l_serious l = true \/ versioned l -> l_serious l' = true \/ versioned l')).
Proof.
  induction names as [|name names IH]; intros i l Hl; cbn [read_capsule_files].
  { cbn. split; [exact Hl|]. tauto. }
  pose proof (read_capsule_file_ok i name l Hl (complete_safe _ _ _ l Hl)) as H. unfold mbind, stM_bind.
  destruct (read_capsule_file _ _ _ i name l) as [l1 [u|e]]; [|exact H]. destruct H as (H1 & H2 & _).
  specialize (IH (S i) l1 H1). destruct (read_capsule_files _ _ _ (S i) names l1) as [l2 [v|e]]; [|exact IH].
  destruct IH as [H3 H4]. split; [exact H3|]. intros _. apply H4. by right.
Qed.

(** ** Loading the libraries *)

(** The state while libraries are loaded, and once they are: the tables of the
    index are of the kind that [tk] gives for its number of capsules. *)
Record indexed (tk : nat -> table_kind) (st : ResolveT) : Prop := {
  ix_link : complete (rv_link st);
  ix_version : l_serious (rv_link st) = true \/ versioned (rv_link st);
  ix_index : safe_shapes (tk (length (rv_capsules st))) (rv_lib_shapes st);
  ix_capsules : Forall lib_capsule_ok (rv_capsules st)
}.

Definition loading : ResolveT -> Prop := indexed library_tables.
Definition searching : ResolveT -> Prop := indexed suppressed_tables.

Lemma open_library_file paths file name data :
  open_library open_file paths file = Some (name, data) -> Forall (fun o => from_option is_byte device o) data.
Proof.
  unfold open_library. destruct (file_name_is_basename file).
  - induction paths as [|path paths IH]; cbn [find_library]; [discriminate|].
    destruct (open_file (file_name_expand path file (Some tl_suffix))) eqn:E; [|exact IH]. intros [= _ <-]. by eapply files_ok.
  - destruct (open_file file) eqn:E; [|discriminate]. intros [= _ <-]. by eapply files_ok.
Qed.

Lemma in_libraries_eq {A} (m : link A) st l' x :
  m (index_of (rv_link st) (rv_lib_shapes st)) = (l', x) ->
  in_libraries m st = (Resolve (link_of (rv_link st) l') (l_shapes l') (rv_capsules st) (did_define st), x).
Proof. intros E. unfold in_libraries. unfold index_of in E. by rewrite E. Qed.

Lemma exhausted_index st l' s b : exhausted l' -> out_of_ids (Resolve s (l_shapes l') st b).
Proof. intros (x & Hx & E). exists x. split; [by right|exact E]. Qed.

(** What was [versioned] stays so, and errors are not forgotten. *)
Lemma version_kept l l' :
  (l_serious l = true -> l_serious l' = true) -> (versioned l -> versioned l') ->
  l_serious l = true \/ versioned l -> l_serious l' = true \/ versioned l'.
Proof. tauto. Qed.

Lemma indexed_max n m : max n (n + m) = (n + m)%nat.
Proof. lia. Qed.

Lemma read_library_phase name data st :
  Forall (fun o => from_option is_byte device o) data -> loading st ->
  phase device st (read_library_file junk junk_nstring (name, data)) (fun _ => loading).
Proof.
  intros Hd [H1 H2 H3 H4]. unfold read_library_file. apply phase_get. cbn [fst snd].
  set (l := rv_link st) in *. set (r := tdf_reader_open data name (u8 (junk 0))).
  set (l1 := Link r (l_statics l) (l_units l) (l_shapes l) (l_errors l)). set (n := length (rv_capsules st)) in *.
  assert (complete l1) as Hc1 by (apply complete_reader; [exact H1|by apply open_stream_safe|reflexivity]).
  assert (l_serious l1 = true \/ versioned l1) as Hv1 by (eapply version_kept; [| |exact H2]; [auto|by apply versioned_reader]).
  pose proof (library_read_ok junk junk_nstring device sets_at tld tld2 n name n (index_of l1 (rv_lib_shapes st))
    (ex_intro _ [] (index_safe (fun _ _ => True) junk device (library_tables n) l1 _ (fun H => H) Hc1 H3)) (le_n _)) as H.
  apply (phase_bind device _ _ _ (fun _ st' => st' = Resolve l1 (rv_lib_shapes st) (rv_capsules st) (did_define st))); [reflexivity|].
  intros [] st1 ->. unfold phase, mbind, stM_bind.
  destruct (library_read junk junk_nstring name _ _) as [l' x] eqn:E.
  rewrite (in_libraries_eq _ (Resolve l1 (rv_lib_shapes st) (rv_capsules st) (did_define st)) _ _ E).
  cbn [rv_link rv_capsules did_define]. destruct x as [lib|e].
  - destruct H as (Hlt & Hcs & _ & _ & (c' & Hl')). destruct (index_back (fun _ _ => True) junk device _ c' l1 _ l' Hc1 Hl' Hlt) as [Hc2 Hv2].
    rewrite indexed_max in Hl'. constructor; cbn [rv_link rv_lib_shapes rv_capsules]; auto.
    + exact (version_kept l1 (link_of l1 l') (later_serious _ _ Hlt) Hv2 Hv1).
    + rewrite length_app. apply Hl'.
    + by apply Forall_app.
  - destruct e as [| |[]| | |]; try contradiction; [exact H|exact H|]. by apply exhausted_index.
Qed.

(** An error that does not end the program. *)
Lemma serious_phase st (Q : unit -> ResolveT -> Prop) :
  (forall b, later_reports (l_errors (rv_link st)) b -> any_error b = true ->
    Q tt (Resolve (with_errors b (rv_link st)) (rv_lib_shapes st) (rv_capsules st) (did_define st))) ->
  phase device st (in_link serious) Q.
Proof.
  intros HQ. unfold phase, in_link, serious. pose proof (serious_error_later (l_errors (rv_link st))) as H1.
  pose proof (serious_error_any (l_errors (rv_link st))) as H2. pose proof (proj1 (serious_error_ends (l_errors (rv_link st)))) as H3.
  destruct (serious_error (l_errors (rv_link st))) as [b []]; cbn in *; [by apply H3|by apply HQ].
Qed.

Lemma load_library_phase paths file st :
  loading st -> phase device st (load_library junk junk_nstring open_file paths file) (fun _ => loading).
Proof.
  intros Hst. unfold load_library. destruct (open_library open_file paths file) as [[name data]|] eqn:E.
  - apply read_library_phase; [by eapply open_library_file|exact Hst].
  - destruct Hst as [H1 H2 H3 H4]. apply serious_phase. intros b Hb Ha.
    constructor; [apply complete_reader; [exact H1|by eapply complete_safe|exact Hb]|by left|exact H3|exact H4].
Qed.

(** ** Suppressing definitions, and looking for them *)

Lemma loading_searching st : loading st -> searching st.
Proof. intros [H1 H2 H3 H4]. constructor; auto. by apply suppressed_shapes. Qed.

(** An operation on the index that reads nothing. *)
Lemma index_phase (m : link unit) st :
  searching st -> stops m ->
  (forall l, TldSafeState.lsafe (suppressed_tables (length (rv_capsules st))) device sets_at tld tld2 [] l m [] (fun _ _ => True)) ->
  phase device st (in_libraries m) (fun _ => searching).
Proof.
  intros [H1 H2 H3 H4] Hst Hm. unfold phase. set (l := index_of (rv_link st) (rv_lib_shapes st)).
  specialize (Hm l (index_safe (fun _ _ => True) junk device (suppressed_tables (length (rv_capsules st))) _ _ (fun H => H) H1 H3)). pose proof (stops_throws m l Hst) as Hs0. clear Hst.
  destruct (m l) as [l' x] eqn:E. rewrite (in_libraries_eq m st l' x E). destruct x as [[]|e].
  - destruct Hm as (Hl' & Hlt & _). destruct (index_back (fun _ _ => True) junk device _ _ _ _ l' H1 Hl' Hlt) as [Hc Hv].
    constructor; auto; [|apply Hl']. exact (version_kept (rv_link st) (link_of (rv_link st) l') (later_serious _ _ Hlt) Hv H2).
  - destruct Hs0 as [->|[-> Hs0]]; [|exact Hs0]. destruct Hm as [_ Hm]. by apply exhausted_index.
Qed.

(** An operation on the linker that reads nothing. *)
Lemma link_phase (m : link unit) st :
  searching st -> stops m ->
  (forall c l, TldSafeState.lsafe linker_tables device sets_at tld tld2 c l m c (fun _ _ => True)) ->
  phase device st (in_link m) (fun _ => searching).
Proof.
  intros [(c & [Hl Hu] & Hc) H2 H3 H4] Hst Hm. unfold phase, in_link. set (l := rv_link st) in *.
  destruct (Hst (l_shapes l) (l_errors l)) as (t & b & x & Em & Hx).
  destruct (capsule_setup junk (l_statics l) (l_units l)) as [g u] eqn:Eg.
  assert (setup junk l = Link (l_reader l) g u (l_shapes l) (l_errors l)) as E by (unfold setup; by rewrite Eg).
  rewrite E in Hl. specialize (Hm c _ Hl). rewrite Em in Hm. assert (m l = (Link (l_reader l) (l_statics l) (l_units l) t b, x)) as -> by (rewrite <- Em; by destruct l).
  assert (setup junk (Link (l_reader l) (l_statics l) (l_units l) t b) = Link (l_reader l) g u t b) as E'.
  { unfold setup. cbn [l_statics l_units]. by rewrite Eg. }
  destruct x as [[]|e].
  - destruct Hm as (Hl' & Hlt & _). pose proof (later_serious _ _ Hlt) as Hs'. rewrite E in Hu.
    constructor; cbn [rv_link rv_lib_shapes rv_capsules]; auto.
    + exists c. unfold linked. rewrite E'. split; [by split|]. destruct Hc as [Hc|Hc]; [left; by apply Hs'|by right].
    + apply (version_kept l); [exact Hs'| |exact H2]. intros [Hv Ev]. split; [exact Hv|]. rewrite E'. rewrite E in Ev.
      pose proof (f_equal l_statics Ev) as G1. pose proof (f_equal l_units Ev) as G2. cbn in G1, G2. by rewrite <- G1, <- G2.
  - destruct Hx as [->|[-> Hx]]; [|exact Hx]. destruct Hm as [_ (s & Hs & Es)]. exists s. split; [by left|exact Es].
Qed.

Lemma suppress_phase args st :
  Forall control_names_ok (suppresses args) -> searching st ->
  phase device st (linker_suppress args) (fun _ => searching).
Proof.
  intros Ha Hst. unfold linker_suppress. eapply phase_bind.
  - apply index_phase; [exact Hst|destruct (arg_data_get_suppress_mult args); auto with stops|]. intros l. apply suppress_mult_safe.
  - intros [] st1 H1. apply (phase_bind device _ _ _ (fun _ => searching)); [|intros [] st2 Hst2; apply exit_on_error_phase; [by eapply complete_quiet, ix_link|exact Hst2]].
    apply index_phase; [exact H1|apply stops_mapM, suppress_stops|]. intros l. by apply suppress_all_safe.
Qed.

Lemma hide_and_keep_phase args st :
  Forall control_names_ok (hides args) -> Forall control_names_ok (keeps args) -> searching st ->
  phase device st (linker_hide_and_keep args) (fun _ => searching).
Proof.
  intros Hh Hk Hst. unfold linker_hide_and_keep. eapply phase_bind.
  - apply link_phase; [exact Hst|destruct (arg_data_get_all_hide_defd args); auto with stops|]. intros c l. apply hide_all_defd_safe.
  - intros [] st1 H1. eapply phase_bind.
    { apply link_phase; [exact H1|apply stops_mapM, hide_stops|]. intros c l. by apply hide_all_safe. }
    intros [] st2 H2. apply (phase_bind device _ _ _ (fun _ => searching)); [|intros [] st3 Hst3; apply exit_on_error_phase; [by eapply complete_quiet, ix_link|exact Hst3]].
    apply link_phase; [exact H2|apply stops_mapM, keep_stops|]. intros c l. by apply keep_all_safe.
Qed.

(** *** The search for definitions *)

Variable first : nat.

Lemma open_string_complete name contents byte l :
  complete l -> ok_nstring contents -> complete (open_string name contents byte l).1.
Proof.
  intros Hl [[Hlen Hb] _]. apply complete_reader; [exact Hl| |reflexivity]. split; [|discriminate].
  split; [exact Hb|]. cbn. unfold nstring_contents, nstring_length. lia.
Qed.

(** No shape, capsule or name of the index goes away. *)
Definition grown (st st' : ResolveT) : Prop :=
  later (l_shapes (rv_link st)) (l_shapes (rv_link st')) /\ length (rv_capsules st') = length (rv_capsules st) /\
  rv_lib_shapes st' = rv_lib_shapes st.

#[local] Instance grown_preorder : PreOrder grown.
Proof.
  split; [intros st; by split|]. intros a b c (A1 & A2 & A3) (B1 & B2 & B3).
  split; [by transitivity (l_shapes (rv_link b))|]. split; congruence.
Qed.

Definition found (st st' : ResolveT) : Prop := searching st' /\ grown st st'.

Lemma load_phase c lc st :
  searching st -> rv_capsules st !! c = Some lc ->
  phase device st (load_lib_capsule junk junk_nstring first c lc) (fun _ => found st).
Proof.
  intros [H1 H2 H3 H4] Hc. pose proof (Forall_lookup_1 _ _ _ _ H4 Hc) as Hlc. unfold load_lib_capsule.
  pose proof (open_string_complete (lib_capsule_full_name lc) (lib_capsule_contents lc) (u8 (junk 0)) _ H1 (proj1 Hlc)) as Ho.
  unfold phase, in_link, mbind, stM_bind. unfold open_string in *. cbn [fst rv_link] in Ho |- *.
  set (l1 := Link (tdf_reader_open_string _ _ _) _ _ _ _) in *. pose proof (capsule_complete (first + c)%nat l1 Ho) as H.
  destruct (capsule_read junk junk_nstring (first + c) l1) as [l2 [b|e]].
  - destruct H as (Hl2 & Hv & _ & Hlt & _). cbn. assert (length (<[c:=lib_capsule_loaded lc]> (rv_capsules st)) = length (rv_capsules st)) as El
      by apply length_insert.
    split; [constructor; cbn [rv_link rv_lib_shapes rv_capsules]; [exact Hl2|tauto|by rewrite El|by apply Forall_insert]|].
    split; [exact Hlt|]. by split.
  - destruct e as [| |[]| | |]; try contradiction; [exact H|exact H|]. destruct H as (s & Hs & Es). exists s. split; [by left|exact Es].
Qed.

(** The names of a shape in the index of libraries with [n] capsules. *)
Definition table_ok (n : nat) (table : option NameTableT) : Prop :=
  match table with
  | Some t => exists s, safe_shape (suppressed_tables n) s /\ se_names s = t
  | None => True
  end.

Lemma candidate_ok table capsules key use :
  table_ok (length capsules) table -> wf_key key ->
  exists o, lib_candidate table capsules key use = Some o /\ forall c lc, o = Some (c, lc) -> capsules !! c = Some lc.
Proof.
  intros Ht Hk. destruct (lib_candidate table capsules key use) as [o|] eqn:E.
  - exists o. split; [reflexivity|]. intros c lc ->. by eapply lib_candidate_unloaded.
  - exfalso. destruct table as [t|]; [|discriminate]. destruct Ht as (s & Hs & <-). cbn [lib_candidate] in E.
    destruct (find_name_ok _ s key Hs Hk) as (o & Eo & Ho). rewrite Eo in E. cbn [mbind option_bind] in E.
    destruct o as [q|]; [|discriminate]. destruct (Ho q eq_refl) as [d Ed]. rewrite Ed in E. cbn [mbind option_bind] in E.
    destruct (lib_definition d) as [c|] eqn:Ec; [|discriminate]. pose proof (ss_legal _ _ Hs q d Ed c Ec) as Hlt.
    destruct (lookup_lt_is_Some_2 capsules c Hlt) as [lc Elc]. rewrite Elc in E. discriminate.
Qed.

Lemma complete_shapes l : complete l -> safe_shapes linker_tables (l_shapes l).
Proof. intros (c & [[_ _ H _ _] _] & _). by rewrite (proj1 (setup_shapes junk l)) in H. Qed.

(** The table of the index is found again in every round. *)
Lemma phase_shape st entry s (k : ShapeEntryT -> resolve bool) Q :
  st_entries (l_shapes (rv_link st)) !! entry = Some s -> phase device st (k s) Q ->
  phase device st (in_link (get_shape entry) ≫= k) Q.
Proof.
  intros Es H. unfold phase. rewrite in_link_bind by apply get_shape_same. rewrite get_shape_value, Es. exact H.
Qed.

Lemma name_resolve_phase table entry s p d st :
  searching st -> table_ok (length (rv_capsules st)) table ->
  st_entries (l_shapes (rv_link st)) !! entry = Some s -> get_direct (se_names s) p = Some d ->
  phase device st (name_entry_resolve_undefined junk junk_nstring first table entry p) (fun _ => found st).
Proof.
  intros Hst Ht Es Ed. unfold name_entry_resolve_undefined. eapply phase_shape; [exact Es|].
  pose proof (sh_all _ _ (complete_shapes _ (ix_link _ _ Hst)) _ _ Es) as Hs.
  eapply phase_need; [unfold name_entry_get_use; by rewrite Ed|].
  assert (exists key, name_entry_key (se_names s) p = Some key) as [key Ek].
  { unfold get_direct, entry_type, name_entry_key in *. destruct (nt_entries (se_names s) !! p); [eauto|discriminate]. }
  eapply phase_need; [exact Ek|]. destruct (_ || _); [apply phase_ret; by split|]. apply phase_get.
  destruct (candidate_ok table (rv_capsules st) key (get_use d) Ht (ok_key_wf _ (ss_keys _ _ Hs _ _ Ek))) as (o & Eo & Ho).
  eapply phase_need; [exact Eo|]. destruct o as [[c lc]|]; [|apply phase_ret; by split].
  eapply phase_bind; [by apply load_phase, Ho|]. intros [] st' Hst'. by apply phase_ret.
Qed.

(** Taking a name off the list of a shape. *)
Definition pop_list (s : ShapeEntryT) (l : list nat) : ShapeEntryT :=
  ShapeEntry (se_key s) (se_names s) (id_count s) (non_empty s) l (num_lib_names s).

Lemma pop_safe s p l : safe_shape linker_tables s -> se_list s = p :: l ->
  safe_shape linker_tables (pop_list s l) /\ later_shape s (pop_list s l) /\ get_direct (se_names s) p <> None.
Proof.
  intros [[(rs & (Hdone & (Hlt & Hinj & Hlist) & Hc) & Htg) Hdef] Hk Hkeys Hlg] El. rewrite El in Hlist.
  inversion Hlist as [|? ? Hp Hlist']; subst. split; [|split; [|exact Hp]].
  - constructor; [|exact Hk|exact Hkeys|exact Hlg]. split; [|exact Hdef]. exists rs. split; [|exact Htg].
    split; [exact Hdone|]. split; [|exact Hc]. by split.
  - split; [|cbn; lia]. split; [reflexivity|]. split; [auto|]. intros; eauto.
Qed.

Lemma complete_put l t : complete l -> safe_shapes linker_tables t -> later (l_shapes l) t -> complete (with_shapes t l).
Proof.
  intros (c & [Hl Hu] & Hc) Ht Hlt. exists c. split; [|exact Hc].
  assert (setup junk (with_shapes t l) = with_shapes t (setup junk l)) as E.
  { unfold setup, with_shapes. cbn. by destruct (capsule_setup junk (l_statics l) (l_units l)). }
  unfold linked. rewrite E. split; [|exact Hu]. apply with_shapes_safe; [exact Hl|exact Ht|]. by rewrite (proj1 (setup_shapes junk l)).
Qed.

Lemma searching_put st entry s s' :
  searching st -> st_entries (l_shapes (rv_link st)) !! entry = Some s ->
  safe_shape linker_tables s' -> later_shape s s' ->
  let st' := Resolve (with_shapes (set_shape (l_shapes (rv_link st)) entry s') (rv_link st)) (rv_lib_shapes st) (rv_capsules st) (did_define st) in
  found st st'.
Proof.
  intros [H1 H2 H3 H4] Es Hs Hlt st'.
  assert (later (l_shapes (rv_link st)) (l_shapes (rv_link st'))) as Hl by (by eapply set_shape_later).
  split; [|by split]. constructor; cbn [rv_link rv_lib_shapes rv_capsules st']; auto.
  - apply complete_put; [exact H1| |exact Hl]. eapply set_shape_safe; [by apply complete_shapes|exact Es|exact Hs|exact Hlt].
  - destruct H2 as [Hs'|[Hv E]]; [by left|]. right. split; [exact Hv|]. unfold setup, with_shapes in *. cbn in *.
    destruct (capsule_setup junk (l_statics (rv_link st)) (l_units (rv_link st))) as [g u]. destruct (rv_link st). cbn in *.
    by injection E as -> ->.
Qed.

Lemma resolve_next_phase table entry s st :
  searching st -> table_ok (length (rv_capsules st)) table -> st_entries (l_shapes (rv_link st)) !! entry = Some s ->
  phase device st (resolve_next junk junk_nstring first table entry) (fun _ => found st).
Proof.
  intros Hst Ht Es. unfold resolve_next. eapply phase_shape; [exact Es|].
  pose proof (sh_all _ _ (complete_shapes _ (ix_link _ _ Hst)) _ _ Es) as Hs.
  unfold shape_entry_get_from_list. destruct (se_list s) as [|p l] eqn:El; [apply phase_ret; by split|]. fold (pop_list s l).
  destruct (pop_safe s p l Hs El) as (Hs' & Hlt & Hp). destruct (get_direct (se_names s) p) as [d|] eqn:Ed; [|congruence].
  pose proof (searching_put st entry s _ Hst Es Hs' Hlt) as Hput. set (st1 := Resolve _ _ _ _) in Hput. destruct Hput as [Hst1 Hg1].
  apply (phase_bind device _ _ _ (fun _ st' => st' = st1)); [reflexivity|]. intros [] st2 ->.
  apply (phase_bind device _ _ _ (fun _ => found st1)).
  - apply (name_resolve_phase table entry (pop_list s l) p d); [exact Hst1| | |exact Ed].
    + exact Ht.
    + cbn. apply list_lookup_insert_eq. by eapply lookup_lt_Some.
  - intros b st2 [Hst2 Hg2]. apply (phase_bind device _ _ _ (fun _ => found st)).
    + assert (found st st2) as H2 by (split; [exact Hst2|by transitivity st1]).
      destruct b; [|exact H2]. destruct H2 as [[A1 A2 A3 A4] A5]. split; [by constructor|exact A5].
    + intros [] st3 H3. by apply phase_ret.
Qed.

(** ** Loops *)

Definition run_phase {A} (st : ResolveT) (m : runM ResolveT capsule_exn A) (Q : A -> ResolveT -> Prop) : Prop :=
  match m st with
  | Some (st', Ok a) => Q a st'
  | Some (st', Throw e) => ended device st' e
  | None => True
  end.

Lemma run_bind {A B} st (m : runM ResolveT capsule_exn A) (k : A -> runM ResolveT capsule_exn B) Q R :
  run_phase st m Q -> (forall a st', Q a st' -> run_phase st' (k a) R) -> run_phase st (m ≫= k) R.
Proof.
  unfold run_phase, mbind, runM_bind. intros Hm Hk. destruct (m st) as [[st1 [a|e]]|]; [by apply Hk|exact Hm|exact I].
Qed.

Lemma run_lift {A} st (m : resolve A) Q : phase device st m Q -> run_phase st (lift m) Q.
Proof. unfold phase, run_phase, lift. by destruct (m st) as [st1 [a|e]]. Qed.

Lemma found_trans st1 st2 st3 : grown st1 st2 -> found st2 st3 -> found st1 st3.
Proof. intros H [H1 H2]. split; [exact H1|by transitivity st2]. Qed.

Lemma resolve_list_phase fuel table entry : forall st s,
  searching st -> table_ok (length (rv_capsules st)) table -> st_entries (l_shapes (rv_link st)) !! entry = Some s ->
  run_phase st (resolve_list junk junk_nstring first fuel table entry) (fun _ => found st).
Proof.
  induction fuel as [|fuel IH]; intros st s Hst Ht Es; [exact I|]. cbn [resolve_list]. eapply run_bind.
  { eapply run_lift, resolve_next_phase; [exact Hst|exact Ht|exact Es]. }
  intros b st1 [Hst1 Hg]. destruct b; [|by split]. pose proof Hg as (Hlt & El & _). destruct (Hlt _ _ Es) as (s1 & Es1 & _).
  unfold run_phase. specialize (IH st1 s1 Hst1 ltac:(by rewrite El) Es1). unfold run_phase in IH.
  destruct (resolve_list _ _ _ fuel table entry st1) as [[st2 [[]|e]]|]; [by eapply found_trans|exact IH|exact I].
Qed.

Lemma lib_table_ok n t key : safe_shapes (suppressed_tables n) t -> table_ok n (lib_table t key).
Proof.
  intros Ht. unfold lib_table. destruct (shape_table_get t key) as [p|]; [|exact I]. cbn [mbind option_bind].
  destruct (st_entries t !! p) as [s|] eqn:E; [|exact I]. cbn. exists s. split; [by apply (sh_all _ _ Ht p)|reflexivity].
Qed.

Lemma shape_resolve_phase fuel entry st s :
  searching st -> st_entries (l_shapes (rv_link st)) !! entry = Some s ->
  run_phase st (shape_entry_resolve_undefined junk junk_nstring first fuel entry) (fun _ => found st).
Proof.
  intros Hst Es. unfold shape_entry_resolve_undefined.
  apply (run_bind st _ _ (fun s' st' => st' = st /\ s' = s)).
  { unfold run_phase, lift. rewrite (in_link_same (get_shape entry) st (get_shape_same entry)), get_shape_value, Es. by split. }
  intros s' st' [-> ->]. apply (run_bind st _ _ (fun a st' => st' = st /\ a = st)); [by split|]. intros a st' [-> ->].
  eapply resolve_list_phase; [exact Hst|apply lib_table_ok, Hst|exact Es].
Qed.

Lemma chain_entry st i j chain k entry :
  searching st -> st_contents (l_shapes (rv_link st)) !! i = Some chain -> chain !! j = Some (k, entry) ->
  exists s, st_entries (l_shapes (rv_link st)) !! entry = Some s.
Proof.
  intros Hst Ei Ej. apply shape_table_iter_lookup; [apply (sh_good _ _ (complete_shapes _ (ix_link _ _ Hst)))|].
  unfold shape_table_iter. apply list_elem_of_fmap. exists (k, entry). split; [reflexivity|]. unfold ht_entries.
  apply list_elem_of_join. exists chain. split; [by eapply list_elem_of_lookup_2|by eapply list_elem_of_lookup_2].
Qed.

Lemma resolve_iter_phase fuel : forall i j st, searching st ->
  run_phase st (resolve_iter junk junk_nstring first fuel i j) (fun _ => found st).
Proof.
  induction fuel as [|fuel IH]; intros i j st Hst; [exact I|]. unfold run_phase. rewrite resolve_iter_unfold. unfold shapes_at.
  destruct (st_contents (l_shapes (rv_link st)) !! i) as [chain|] eqn:Ei; [|by split].
  destruct (chain !! j) as [[k entry]|] eqn:Ej; [|apply IH; exact Hst].
  destruct (chain_entry st i j chain k entry Hst Ei Ej) as [s Es]. pose proof (shape_resolve_phase (S fuel) entry st s Hst Es) as H.
  unfold run_phase in H. destruct (shape_entry_resolve_undefined _ _ _ (S fuel) entry st) as [[st1 [u|e]]|]; [|exact H|exact I].
  destruct H as [Hst1 Hg]. specialize (IH i (S j) st1 Hst1). unfold run_phase in IH.
  destruct (resolve_iter _ _ _ fuel i (S j) st1) as [[st2 [[]|e]]|]; [by eapply found_trans|exact IH|exact I].
Qed.

Lemma resolve_loop_phase fuel : forall st, searching st ->
  run_phase st (resolve_loop junk junk_nstring first fuel) (fun _ => found st).
Proof.
  induction fuel as [|fuel IH]; intros st Hst; [exact I|]. unfold run_phase. rewrite resolve_loop_unfold.
  set (st0 := set_define false st). assert (found st st0) as [Hst0 Hg0] by (destruct Hst; split; [by constructor|by split]).
  pose proof (resolve_iter_phase (S fuel) 0 0 st0 Hst0) as H. unfold run_phase in H.
  destruct (resolve_iter _ _ _ (S fuel) 0 0 st0) as [[st1 [[]|e]]|]; [|exact H|exact I]. destruct H as [Hst1 Hg1].
  destruct (did_define st1); [|by apply (found_trans _ st0)]. specialize (IH st1 Hst1). unfold run_phase in IH.
  destruct (resolve_loop _ _ _ fuel st1) as [[st2 [[]|e]]|]; [|exact IH|exact I].
  apply (found_trans _ st0); [exact Hg0|]. by apply (found_trans _ st1).
Qed.

Lemma resolve_phase fuel st : searching st ->
  run_phase st (linker_resolve_undefined junk junk_nstring first fuel)
    (fun _ => searching).
Proof.
  intros Hst. unfold linker_resolve_undefined. eapply run_bind; [by apply resolve_loop_phase|]. intros [] st1 [Hst1 _].
  apply run_lift, exit_on_error_phase; [by eapply complete_quiet, ix_link|exact Hst1].
Qed.
End Linked.
