(* ===== verification/TldLinkerSpec.v ===== *)
(** * TldLinkerSpec: the linker from its arguments to its output

    The phases of TldLinkerSafe in the order of [linker_main]
    (tld/src/frontend/linker.c): on any arguments and any files the linker
    ends, and either it has reported an error, or what it writes is a capsule
    that the linker reads back without an error. *)
From stdpp Require Import base list list_numbers numbers.
From Stdlib Require Import ZArith Lia Sorted.
From S2P Require Import Prelude Codec ExdsString ExdsError CStdio TldNameKey TldIO TldIOSpec HashTable TldNames.
From S2P Require Import TldRename TldNameTable TldShapes TldShapesSpec TldCapsule TldCapsuleSpec TldWrite TldUsage TldRead TldReadUnits TldReadBack.
From S2P Require Import TldLibrary TldSafeState TldUnitSets TldSafeRead TldSafeLink TldLinked TldLibrarySafe TldLibraryBack TldArgs TldArgsSpec TldResolve TldResolveSpec TldLinker TldUpdates TldPhases TldLinkerSafe.

(** ** What is written is accepted *)

(** A linker with the same unit sets, that has read nothing and has not come to
    the twentieth error, reads what [m] writes and reports no error. *)
Definition accepted (g : StaticsT) (m : writer unit) : Prop :=
  forall junk junk_nstring capsule sends name byte name' byte' reports, room_for 0 reports -> exists w l',
    (_ ← m; tdf_writer_close) (tdf_writer_open (takes_all sends) name byte) = (w, Ok tt) /\
    capsule_read junk junk_nstring capsule
      (with_reader (tdf_reader_open (map Some (bytes_in_file w)) name' byte') (rv_link (linker_start g reports))) = (l', Ok true) /\
    l_errors l' = reports.

(** *** A linker that has no names *)

Lemma renamed_create k : renamed name_table_create k = k.
Proof.
  unfold renamed, find_entry. destruct (ht_get _ k) as [p|]; [|reflexivity]. cbn [mbind option_bind]. unfold entry_type. by destruct p.
Qed.

Lemma name_defined_create k : name_defined name_table_create k = false.
Proof.
  unfold name_defined, name_table_get, find_entry. destruct (ht_get _ k) as [p|]; [|reflexivity].
  cbn [mbind option_bind]. unfold entry_type. by destruct p.
Qed.

Lemma names_in_create key : names_in shape_table_create key = name_table_create.
Proof. unfold names_in. by destruct (shape_table_get _ key) as [[|p]|]. Qed.

(** Distinct names are not defined twice. *)
Lemma redefined_create vs : forall seen,
  NoDup vs.*1 -> (forall v, v ∈ vs -> v.1 ∉ seen) -> redefined name_table_create seen vs = O.
Proof.
  induction vs as [|v vs IH]; intros seen Hnd Hs; [reflexivity|]. cbn [fmap list_fmap] in Hnd. apply list.NoDup_cons in Hnd as [Hv Hnd].
  cbn [redefined]. rewrite renamed_create, name_defined_create, bool_decide_eq_false_2 by (apply Hs; left). cbn [orb].
  destruct (has (get_use v.2) U_DEFD); [rewrite IH; [reflexivity|exact Hnd|]|apply IH; [exact Hnd|intros x Hx; apply Hs; by right]].
  intros x Hx Hin. apply elem_of_cons in Hin as [E|Hin]; [apply Hv; rewrite <- E; by apply list_elem_of_fmap_2|]. by apply (Hs x); [right|].
Qed.

Lemma visible_nodup t : wf_table t -> NoDup (visible t).*1.
Proof.
  intros Ht. eapply sublist_NoDup; [by apply names_of_nodup|]. unfold visible. apply fmap_sublist, sublist_filter.
Qed.

Lemma redefinitions_create sss : Forall (fun s => wf_table (se_names s)) sss -> redefinitions shape_table_create sss = O.
Proof.
  unfold redefinitions. induction 1 as [|s sss Hs _ IH]; [reflexivity|]. cbn [fmap list_fmap].
  change (sum_list (?x :: ?l)) with (x + sum_list l)%nat. rewrite IH, names_in_create, redefined_create; [reflexivity|by apply visible_nodup|].
  intros v _ Hv. inversion Hv.
Qed.

Lemma safe_shape_table tk s : safe_shape tk s -> wf_table (se_names s).
Proof. intros [[(rs & (Hd & _) & _) _] _ _ _]. apply Hd. Qed.

Section Accepted.
Context {snames : list NStringT} {tld : nat} {tld2 : option nat}.
Hypothesis checked : unit_sets_checked snames tld tld2.
Abbreviation sets_at := (seq 0 (length snames)).
Abbreviation start_units := (set_up snames tld tld2).2.
Variable units : UnitTableT.

Definition set_at (p : nat) : UnitEntryT * bool := (entry_at units p, bool_decide (p = tld)).

Lemma filter_sets (ps : list nat) : filter written (set_at <$> ps) = set_at <$> filter (fun p => written (set_at p)) ps.
Proof.
  induction ps as [|p ps IH]; [reflexivity|]. change (set_at <$> p :: ps) with (set_at p :: (set_at <$> ps)).
  rewrite !filter_cons, IH. by destruct (decide (written (set_at p))).
Qed.

Lemma sorted_filter (R : nat -> nat -> Prop) (P : nat -> Prop) `{!forall x, Decision (P x)} l :
  StronglySorted R l -> StronglySorted R (filter P l).
Proof.
  induction 1 as [|x l Hs IH Hx]; [constructor|]. rewrite filter_cons. case_decide; [|exact IH]. constructor; [exact IH|].
  rewrite Forall_forall in *. intros y Hy. apply Hx. apply list_elem_of_In in Hy. apply list_elem_of_In.
  by apply list_elem_of_filter in Hy as [_ Hy].
Qed.

Lemma same_key p : same_entries start_units units -> (p < length snames)%nat ->
  exists e e0, ut_entries units !! p = Some e /\ ut_entries start_units !! p = Some e0 /\ ue_key e = ue_key e0.
Proof.
  intros [_ H] Hp. apply (f_equal (fun l => l !! p)) in H. rewrite !list_lookup_fmap in H.
  destruct (lookup_lt_is_Some_2 snames p Hp) as [k Ek]. pose proof (start_entry (names := snames) (tld := tld) (tld2 := tld2) p) as E0.
  rewrite Ek in E0. cbn [fmap option_fmap option_map] in E0. rewrite E0 in H.
  destruct (ut_entries units !! p) as [e|]; [|discriminate]. cbn in H. injection H as Hk _. eauto.
Qed.

Lemma start_accepts device junk g reports l :
  capsule_setup junk g unit_table_create = set_up snames tld tld2 ->
  safe_link linker_tables device sets_at tld tld2 [] l -> l_units l = units -> same_entries start_units units ->
  accepts (setup junk (rv_link (linker_start g reports))) (capsule_major_version (l_statics l))
    (filter written (unit_entries units tld sets_at)) (filter (fun p => written (set_at p)) sets_at) (shapes_of (l_shapes l)).
Proof.
  intros Es Hl Eu Hsame. pose proof (sl_units _ _ _ _ _ _ _ Hl I) as Hun. rewrite Eu in Hun.
  assert (setup junk (rv_link (linker_start g reports)) =
    Link (tdf_reader_open [] [] 0) (set_up snames tld tld2).1 start_units shape_table_create reports) as ->.
  { unfold setup. cbn [linker_start rv_link l_statics l_units]. rewrite Es. by destruct (set_up snames tld tld2). }
  pose proof (start_statics checked linker_tables) as Hg.
  unfold unit_entries. change (fun p => (entry_at units p, bool_decide (p = tld))) with set_at. rewrite filter_sets.
  assert (forall p, p ∈ filter (fun p => written (set_at p)) sets_at -> (p < length snames)%nat /\ Some p <> tld2 /\
    ok_nstring (ue_key (entry_at units p)) /\ unit_table_get start_units (ue_key (entry_at units p)) = Some p) as Hq.
  { intros p Hp. apply list_elem_of_filter in Hp as [Hw Hp]. assert (p < length snames)%nat as Hlt by (apply elem_of_seq in Hp; lia).
    destruct (same_key p Hsame Hlt) as (e & e0 & Ee & E0 & Ek). split; [exact Hlt|].
    assert (entry_at units p = e) as Ea by (unfold entry_at; by rewrite Ee).
    destruct (su_entries _ _ _ _ _ _ Hun p Hp) as (e' & Ee' & Hok). rewrite Ee in Ee'. injection Ee' as <-. split; [|split].
    - intros Ep. destruct Hw as [Hw|Hw]; cbn in Hw.
      + rewrite Ea in Hw. apply Hw. by apply (su_tld2 _ _ _ _ _ _ Hun p).
      + apply bool_decide_eq_true_1 in Hw as ->. pose proof (proj1 (uc_tld2 _ _ _ checked tld) (eq_sym Ep)) as E2.
        rewrite (uc_tld _ _ _ checked) in E2. discriminate.
    - by rewrite Ea.
    - rewrite Ea, Ek. by apply (start_get checked). }
  constructor; cbn [l_statics l_units l_shapes].
  - by left.
  - split; [|apply sorted_filter, start_sorted]. rewrite <- list_fmap_compose. apply Forall2_fmap_l, Forall_Forall2_diag, Forall_forall.
    intros p Hp%list_elem_of_In. destruct (Hq p Hp) as (_ & H1 & H2 & H3). cbn. split; [exact H2|]. split; [exact H3|].
    rewrite (sg_tld2 _ _ _ _ _ Hg I). exact H1.
  - apply Forall2_fmap_r, Forall_Forall2_diag, Forall_forall. intros p Hp%list_elem_of_In. destruct (Hq p Hp) as (H1 & _). cbn.
    split; [|rewrite start_entry; destruct (lookup_lt_is_Some_2 snames p H1) as [k ->]; by eexists]. rewrite (sg_tld _ _ _ _ _ Hg I).
    rewrite bool_decide_eq_true. split; congruence.
  - apply good_shapes_create.
  - eapply Forall_impl; [|apply (safe_shapes_all _ readable (sl_shapes _ _ _ _ _ _ _ Hl) safe_readable)]. intros s [_ Hid _ _ _ _].
    split; [lia|]. intros x Hx. inversion Hx.
Qed.

Lemma written_accepted device g l t m :
  (forall junk, capsule_setup junk g unit_table_create = set_up snames tld tld2) ->
  safe_link linker_tables device sets_at tld tld2 [] l -> capsule_major_version (l_statics l) <> 0 -> l_units l = units ->
  same_entries start_units units -> fits l -> capsule_write (l_statics l) (l_units l) (l_shapes l) = Some (t, m) -> accepted g m.
Proof.
  intros Es Hl Hv Eu Hu Hf Ew junk junk_nstring capsule sends name byte name' byte' reports Hroom.
  pose proof (safe_link_ready device sets_at tld tld2 [] l (start_sets_fit _ _ _ checked) Hl Hv Hf) as Hready.
  pose proof (safe_link_readable device sets_at tld tld2 l Hl) as Hread. rewrite Eu in Hready, Hread, Ew.
  assert (redefinitions (l_shapes (rv_link (linker_start g reports))) (shapes_of (l_shapes l)) = O) as En.
  { apply redefinitions_create. eapply Forall_impl; [|apply (safe_shapes_all _ (fun s => wf_table (se_names s)) (sl_shapes _ _ _ _ _ _ _ Hl))]; [auto|].
    intros s. apply safe_shape_table. }
  pose proof (capsule_reads_back junk junk_nstring capsule _ _ _ _ _ sends name byte name' byte' (rv_link (linker_start g reports)) _ Hready Hread
    (start_accepts device junk g reports l (Es junk) Hl Eu Hu)) as H. cbv zeta in H. rewrite En, add_errors_0 in H.
  destruct (H Hroom) as (t' & m' & w & l' & Ew' & Ec & Er & Ee & _). rewrite Ew in Ew'. injection Ew' as <- <-. eauto.
Qed.
End Accepted.

Lemma same_shapes_fits l t : same_shapes (l_shapes l) t -> fits (with_shapes t l) -> fits l.
Proof.
  intros Hs [H1 H2 H3]. constructor; [by rewrite (Forall2_length (proj2 Hs))| |exact H3].
  cbn [l_shapes with_shapes] in H2. by rewrite (sum_same _ _ _ (shapes_of_same _ _ Hs)) in H2 by (intros s s' (_ & -> & _); reflexivity).
Qed.

(** Writing does not stop, whatever the sizes. *)
Lemma safe_link_writes device ps tld tld2 c l :
  Z.of_nat (length ps) + 1 < 2 ^ 32 ->
  safe_link linker_tables device ps tld tld2 c l -> capsule_major_version (l_statics l) <> 0 ->
  exists t m, capsule_write (l_statics l) (l_units l) (l_shapes l) = Some (t, m) /\ same_shapes (l_shapes l) t.
Proof.
  intros Hcount [_ [Hv _ _ Hsets Htld _] Ht Hun] Hver. destruct (Hun I) as [_ Hiter _ _ Hent Hu _].
  destruct (Hsets I) as (sets & Es & Ese). eapply capsule_write_total; [lia|apply (sh_good _ _ Ht)|exact Es|exact Ese|by apply Htld|exact Hiter|exact Hcount|].
  intros p Hp. destruct (Hent p Hp) as (e & Ee & _). exists e. split; [exact Ee|].
  split; apply Forall_forall; intros u Hin%list_elem_of_In; destruct (units_of_entry _ _ _ _ Ee Hin) as [i Hi].
  - by eapply safe_unit_ok, Hu.
  - eapply safe_unit_known; [exact Ht|by eapply Hu].
Qed.

(** ** Fuel *)

(** [m] has a result that enough fuel gives. *)
Definition settles {A} (m : nat -> runM ResolveT capsule_exn A) (st : ResolveT) : Prop :=
  exists fuel r, forall f, (fuel <= f)%nat -> m f st = Some r.

Lemma settles_lift {A} (m : resolve A) st : settles (fun _ => lift m) st.
Proof. by exists 0%nat, (m st). Qed.

Lemma settles_bind {A B} (m : nat -> runM ResolveT capsule_exn A) (k : A -> nat -> runM ResolveT capsule_exn B) st :
  settles m st -> (forall a st', settles (k a) st') -> settles (fun f => a ← m f; k a f) st.
Proof.
  intros (f1 & [st1 [a|e]] & H1) Hk.
  - destruct (Hk a st1) as (f2 & r & H2). exists (max f1 f2), r. intros f Hf. unfold mbind, runM_bind.
    rewrite H1 by lia. apply H2. lia.
  - exists f1, (st1, Throw e). intros f Hf. unfold mbind, runM_bind. by rewrite H1.
Qed.

(** ** The whole linker *)

Section Main.
Variable junk : nat -> Z.
Variable junk_nstring : nat -> NStringT.
Variable device : Prop.
Variable open_file : list Z -> option (list (option Z)).
Hypothesis files_ok : forall name data, open_file name = Some data -> Forall (fun o => from_option is_byte device o) data.

Context {snames : list NStringT} {tld : nat} {tld2 : option nat}.
Variable g0 : StaticsT.
Hypothesis checked : unit_sets_checked snames tld tld2.
Hypothesis starts : forall junk, capsule_setup junk g0 unit_table_create = set_up snames tld tld2.
Variable reports : ReportsT.
Hypothesis quiet_start : quiet reports.

Abbreviation complete := (complete (fun _ _ => True) junk device (snames := snames) (tld := tld) (tld2 := tld2)).
Abbreviation loading := (loading junk device (snames := snames) (tld := tld) (tld2 := tld2)).
Abbreviation searching := (searching junk device (snames := snames) (tld := tld) (tld2 := tld2)).

Abbreviation linker_main := (linker_main junk junk_nstring open_file).

Lemma link_settles args st : settles (fun fuel => linker_link junk junk_nstring open_file fuel args) st.
Proof.
  unfold linker_link. do 4 (apply settles_bind; [apply settles_lift|intros [] st']; clear st; rename st' into st).
  apply settles_bind; [|intros [] ?].
  - destruct (resolve_undefined_settles junk junk_nstring (length (files args)) st) as (f & r & H & _). by exists f, r.
  - apply settles_lift.
Qed.

Lemma phase_exit st (m : resolve unit) (P : ResolveT -> Prop) :
  (forall st', P st' -> quiet (l_errors (rv_link st'))) -> phase device st m (fun _ => P) -> phase device st (_ ← m; in_link exit_on_error) (fun _ => P).
Proof. intros Hq Hm. eapply phase_bind; [exact Hm|]. intros [] st1 H1. apply exit_on_error_phase; auto. Qed.

Lemma loading_quiet st : loading st -> quiet (l_errors (rv_link st)).
Proof. intros H. by eapply complete_quiet, ix_link. Qed.

Lemma rename_phase args :
  args_ok args -> Forall (fun r => no_cycle (rc_names r)) (renames args) ->
  phase device (linker_start g0 reports) (linker_rename junk args) (fun _ st => exists done, rename_state device g0 reports done st).
Proof.
  intros [H1 H2 _ _ _] Hcy. unfold linker_rename. apply phase_exit; [intros st [done Hst]; by rewrite (rs_errors _ _ _ _ _ Hst)|].
  apply (renames_phase junk device g0 reports _ []); [|exact H2|intros k _ Hk; inversion Hk|].
  - rewrite Forall_forall in *. intros r Hr. split; auto.
  - constructor; [reflexivity|reflexivity|by apply open_stream_safe; constructor|reflexivity|reflexivity|apply renaming_start|apply renaming_start].
Qed.

Lemma capsules_phase args done st :
  files args <> [] -> rename_state device g0 reports done st ->
  phase device st (linker_read_capsules junk junk_nstring open_file args) (fun _ => loading).
Proof.
  intros Hf Hst. apply phase_exit; [apply loading_quiet|].
  assert (complete (rv_link st)) as Hc by (exists []; split; [by eapply linked_start|by right]).
  pose proof (read_capsule_files_ok junk junk_nstring device open_file files_ok (files args) 0 _ Hc) as H.
  destruct Hst as [_ _ _ H4 _ _ H6]. pose proof (renaming_safe _ _ _ H6) as Hlib.
  unfold phase, in_link. destruct (read_capsule_files _ _ _ 0 (files args) (rv_link st)) as [l' [[]|e]]; cbn in H.
  - destruct H as [H1 H2]. constructor; cbn; [exact H1|apply H2; by left|by rewrite H4|by rewrite H4].
  - destruct e as [| |[]| | |]; try contradiction; [exact H|exact H|]. destruct H as (s & Hin & E). exists s. split; [by left|exact E].
Qed.

Lemma libraries_phase args st :
  loading st -> phase device st (linker_load_libraries junk junk_nstring open_file args) (fun _ => searching).
Proof.
  intros Hst. eapply (phase_impl device _ _ (fun _ => loading)); [intros [] st'; apply loading_searching|].
  apply phase_exit; [apply loading_quiet|]. apply (phase_mapM device _ (fun _ => True)); [by apply Forall_true|exact Hst|].
  intros a st' _ Hst'. by apply load_library_phase.
Qed.

Lemma setup_done l : need_setup (l_statics l) = false -> setup junk l = l.
Proof. intros E. unfold setup, capsule_setup. rewrite E. by destruct l. Qed.

Lemma versioned_not_headless l : versioned junk l -> ~ headless l.
Proof.
  intros [Hv E] [H|H]; [contradiction|]. rewrite <- E in H. unfold setup, capsule_setup in H.
  destruct (need_setup (l_statics l)) eqn:En; [|cbn in H; congruence]. by destruct (setup_loop _ _ _ _) in H.
Qed.

Lemma write_phase st :
  searching st ->
  match linker_write_capsule st with
  | (st', Ok m) => l_serious (rv_link st') = false -> fits (rv_link st') -> accepted g0 m
  | (st', Throw e) => e = Stop /\ headless (rv_link st')
  end.
Proof.
  intros [(c & [Hl Hu] & Hc) Hver _ _]. set (l := rv_link st) in *.
  unfold linker_write_capsule, mbind, stM_bind, st_get, in_link, need. fold l.
  destruct (decide (headless l)) as [Hh|Hh].
  - assert (l_serious l = true) as Hs by (destruct Hver as [Hs|Hv]; [exact Hs|by destruct (versioned_not_headless l Hv)]).
    destruct (capsule_write _ _ _) as [[t m]|]; cbn -[l_serious]; [|by split]. intros H. change (l_serious l = false) in H. congruence.
  - assert (capsule_major_version (l_statics l) <> 0 /\ need_setup (l_statics l) = false) as [Hv Hn].
    { unfold headless in Hh. destruct (need_setup (l_statics l)); [tauto|]. split; [tauto|reflexivity]. }
    rewrite (setup_done l Hn) in Hl, Hu. destruct (safe_link_writes device _ _ _ c l (sf_count _ _ (start_sets_fit _ _ _ checked)) Hl Hv) as (t & m & Ew & Ht). rewrite Ew. cbn -[l_serious].
    intros Hs Hf. fold l in Hf. change (l_serious l = false) in Hs. destruct Hc as [Hc|Hc]; [congruence|]. subst c.
    eapply (written_accepted checked (l_units l) device g0 l t m); [exact starts|exact Hl|exact Hv|reflexivity|exact Hu| |exact Ew]. by eapply same_shapes_fits.
Qed.

(** How the linker may end. *)
Definition outcome (r : ResolveT * result capsule_exn (writer unit)) : Prop :=
  match r with
  | (st, Ok m) => l_serious (rv_link st) = false -> fits (rv_link st) -> accepted g0 m
  | (st, Throw Stop) => out_of_ids st \/ headless (rv_link st)
  | (st, Throw e) => ended device st e
  end.

Lemma linker_link_phase fuel args :
  args_ok args -> files args <> [] -> Forall (fun r => no_cycle (rc_names r)) (renames args) ->
  run_phase device (linker_start g0 reports) (linker_link junk junk_nstring open_file fuel args) (fun _ => searching).
Proof.
  intros Ha Hf Hcy. unfold linker_link. eapply run_bind; [by apply run_lift, rename_phase|]. intros [] st1 [done H1].
  eapply run_bind; [eapply run_lift, capsules_phase; [exact Hf|exact H1]|]. intros [] st2 H2.
  eapply run_bind; [by apply run_lift, libraries_phase|]. intros [] st3 H3.
  eapply run_bind; [eapply run_lift, (suppress_phase _ junk_nstring); [apply ao_suppresses, Ha|exact H3]|]. intros [] st4 H4.
  eapply run_bind; [eapply resolve_phase; exact H4|]. intros [] st5 H5.
  eapply run_lift, (hide_and_keep_phase _ junk_nstring); [apply ao_hides, Ha|apply ao_keeps, Ha|exact H5].
Qed.

(** The linking, and what is written after it. *)
Lemma main_ends args :
  args_ok args -> files args <> [] -> Forall (fun r => no_cycle (rc_names r)) (renames args) ->
  exists fuel r, (forall f, (fuel <= f)%nat -> linker_link junk junk_nstring open_file f args (linker_start g0 reports) = Some r) /\
    match r with
    | (st, Ok _) => quiet (l_errors (rv_link st)) /\ outcome (linker_write_capsule st)
    | (st, Throw e) => ended device st e
    end.
Proof.
  intros Ha Hf Hcy. destruct (link_settles args (linker_start g0 reports)) as (fuel & r & Hr). exists fuel, r. split; [exact Hr|].
  pose proof (linker_link_phase fuel args Ha Hf Hcy) as H. unfold run_phase in H. rewrite Hr in H by reflexivity.
  destruct r as [st [[]|e]]; [|exact H]. split; [by eapply complete_quiet, ix_link|]. pose proof (write_phase st H) as Hw.
  destruct (linker_write_capsule st) as [st' [m|e]]; [exact Hw|]. destruct Hw as [-> Hw]. by right.
Qed.
End Main.

Lemma linker_link_ends junk junk_nstring (device : Prop) open_file args g reports :
  (forall name data, open_file name = Some data -> Forall (fun o => from_option is_byte device o) data) ->
  args_ok args -> files args <> [] -> Forall (fun r => no_cycle (rc_names r)) (renames args) -> known_unit_sets g -> quiet reports ->
  exists fuel r, (forall f, (fuel <= f)%nat -> linker_link junk junk_nstring open_file f args (linker_start g reports) = Some r) /\
    match r with
    | (st, Ok _) => quiet (l_errors (rv_link st)) /\ outcome device g (linker_write_capsule st)
    | (st, Throw e) => ended device st e
    end.
Proof.
  intros Hfiles Ha Hf Hcy Hg Hq. destruct (known_set_up g Hg) as (names & tld & tld2 & Hc & Hs). by apply (main_ends junk junk_nstring device open_file Hfiles g Hc Hs reports Hq).
Qed.


(** A capsule that defines the tag [a], which is renamed to [b] and kept; all
    definitions are hidden. *)
Definition ex_files (name : list Z) : option (list (option Z)) :=
  if bool_decide (name = [97]) then map Some <$> tags_capsule [(late_a, Z.lor U_DECD U_DEFD)] else None.

Definition ex_args : ArgDataT :=
  arg_data_set_files
    (with_renames (with_keeps (arg_data_set_all_hide_defd (arg_data_init []) true)
      [ShapeControlEntry tag_name false [late_b]]) [RenameControlEntry tag_name [(late_a, late_b)]])
    [[97]].

(** What is written, where the linker writes. *)
Definition written_bytes (r : option (ResolveT * result capsule_exn (writer unit))) : option (list Z) :=
  match r with
  | Some (_, Ok m) =>
      match (_ ← m; tdf_writer_close) (tdf_writer_open (takes_all at_close) [] 0) with
      | (w, Ok _) => Some (bytes_in_file w)
      | _ => None
      end
  | _ => None
  end.

Lemma ex_args_ok : args_ok ex_args.
Proof.
  assert (ok_key late_a /\ ok_key late_b) as [Ha Hb].
  { split; repeat constructor; unfold is_byte; cbn; lia. }
  assert (ok_nstring tag_name) as Ht by (split; [apply tag_wf|vm_compute; reflexivity]).
  assert (forall k, ok_key k -> control_names_ok (ShapeControlEntry tag_name false [k])) as Hc.
  { intros k Hk. apply Forall_singleton. by apply ok_key_wf. }
  constructor; cbn.
  - apply Forall_singleton. split; [exact Ht|]. split; [by apply Forall_singleton|]. apply NoDup_singleton.
  - apply NoDup_singleton.
  - apply Forall_nil_2.
  - by apply Forall_singleton, Hc.
  - apply Forall_nil_2.
Qed.

Lemma ex_no_cycle : Forall (fun r => no_cycle (rc_names r)) (renames ex_args).
Proof.
  apply Forall_singleton. intros k.
  assert (forall k0, rename_of [(late_a, late_b)] k0 = None -> target [(late_a, late_b)] k0 k0) as Hstop by (intros k0 E; by apply stands_for_end).
  destruct (decide (k = late_a)) as [->|Hne].
  - exists late_b. eapply stands_for_step; [reflexivity|]. by apply Hstop.
  - exists k. apply Hstop. cbn. by destruct (decide (k = late_a)).
Qed.

Lemma ex_files_ok name data : ex_files name = Some data -> Forall (fun o => from_option is_byte False o) data.
Proof.
  unfold ex_files. destruct (bool_decide (name = [97])); [|discriminate].
  destruct (tags_capsule _) as [b|] eqn:E; [|discriminate]. intros [= <-].
  assert (Forall is_byte b) as Hb.
  { vm_compute in E. injection E as <-. repeat constructor; unfold is_byte; lia. }
  apply Forall_fmap. exact Hb.
Qed.

Definition ex_main : option (ResolveT * result capsule_exn (writer unit)) :=
  linker_main (fun _ => 0) (fun _ => nstring_init) ex_files 20 ex_args (linker_start initial_statics initial_reports).


(** ** Errors that are reported *)

(** A capsule that breaks off in its header, and the one of [ex_files]; no
    other file can be opened. *)
Definition torn_files (name : list Z) : option (list (option Z)) :=
  if bool_decide (name = [98]) then Some (Some <$> [84; 68; 70; 67; 68]) else ex_files name.

(** The arguments with the files [names] and the renames [rs] of tags. *)
Definition error_args (names : list (list Z)) (rs : list (NameKeyT * NameKeyT)) : ArgDataT :=
  arg_data_set_files (with_renames (arg_data_init []) [RenameControlEntry tag_name rs]) names.

Definition error_main (names : list (list Z)) (rs : list (NameKeyT * NameKeyT)) : option (ResolveT * result capsule_exn (writer unit)) :=
  linker_main (fun _ => 0) (fun _ => nstring_init) torn_files 20 (error_args names rs) (linker_start initial_statics initial_reports).

(** Whether an error has been reported, and what is written. *)
Definition error_outcome (r : option (ResolveT * result capsule_exn (writer unit))) : option (bool * option (list Z)) :=
  match r with
  | Some (st, Ok m) => Some (l_serious (rv_link st), written_bytes r)
  | Some (st, Throw Stop) => Some (l_serious (rv_link st), None)
  | _ => None
  end.

