(* ===== verification/TldProgramSpec.v ===== *)
(** * TldProgramSpec: the program on any command line

    How [main] of TldProgram ends: with a status, and a crash only in cases
    that are listed. *)
From Stdlib Require Import ZArith Lia String.
From stdpp Require Import base list list_numbers numbers gmap.
From S2P Require Import Prelude Codec ExdsString ExdsError CStdio TldNameKey TldIO TldIOSpec HashTable TldNames TldShapes TldCapsule TldLibrary TldResolve TldArgs TldMain TldLinker TldBuilder TldExtract.
From S2P Require Import ExdsStream ExdsOStream TldContents TldProgram.
From S2P Require Import TldRename TldShapesSpec TldCapsuleSpec TldSafeState TldUnitSets TldSafeLink TldLibrarySafe TldArgsSpec TldMainSpec TldInputs TldBuilderSafe TldBuilderSpec TldPhases TldLinkerSafe TldLinkerSpec TldExtractSpec TldContentsSpec TldResolveSpec.

(** ** Writing throws the error of the stream only *)

Definition write_safe {A} (m : writer A) : Prop := forall w,
  match (m w).2 with Ok _ => True | Throw e => exists name, e = XX_bostream_write_error name end.

Definition owrite_safe (o : option (writer unit)) : Prop := match o with Some m => write_safe m | None => True end.

Create HintDb write_safe.

Lemma write_safe_bind {A B} (m : writer A) (k : A -> writer B) : write_safe m -> (forall a, write_safe (k a)) -> write_safe (m ≫= k).
Proof.
  intros Hm Hk w. unfold mbind, stM_bind. specialize (Hm w). destruct (m w) as [w1 [a|e]]; [apply Hk|exact Hm].
Qed.

Lemma write_safe_ret {A} (a : A) : write_safe (mret a).
Proof. by intros w. Qed.

(** A step of an operation of several: a hint, a sequence or a case. *)
Ltac write_step := first [solve [auto with write_safe] | apply write_safe_bind; [|intros ?] | case_match].

Lemma write_safe_byte c : write_safe (on_bostream (bostream_write_byte c)).
Proof. intros w. unfold on_bostream, st_zoom, bostream_write_byte. destruct (fwrite _ _) as [f b]. destruct (b && ferror f); cbn; eauto. Qed.

Lemma write_safe_chars l : write_safe (on_bostream (bostream_write_chars l)).
Proof. intros w. unfold on_bostream, st_zoom, bostream_write_chars. destruct (fwrite _ _) as [f b]. destruct (b && ferror f); cbn; eauto. Qed.

Lemma write_safe_set c b : write_safe (set_wbyte c b).
Proof. by intros w. Qed.

Lemma write_safe_close : write_safe (on_bostream bostream_close).
Proof. intros w. unfold on_bostream, st_zoom, bostream_close. destruct (fclose _) as [f []]; cbn; eauto. Qed.

#[export] Hint Resolve write_safe_ret write_safe_byte write_safe_chars write_safe_set write_safe_close : write_safe.

Lemma write_safe_nibble n : write_safe (tdf_write_nibble n).
Proof.
  intros w. unfold tdf_write_nibble. destruct (w_new_byte w); [apply write_safe_set|].
  apply (write_safe_bind (set_wbyte _ _)); auto with write_safe.
Qed.

Lemma write_safe_align : write_safe tdf_write_align.
Proof.
  intros w. unfold tdf_write_align. destruct (w_new_byte w); [exact I|].
  apply (write_safe_bind (on_bostream _)); auto with write_safe.
Qed.

#[export] Hint Resolve write_safe_nibble write_safe_align : write_safe.

Lemma write_safe_int n : write_safe (tdf_write_int n).
Proof.
  unfold tdf_write_int. apply write_safe_bind; [|auto with write_safe]. generalize (count_shift 11 n 0) as k.
  induction k as [|k IH]; cbn [write_digits]; repeat write_step.
Qed.

#[export] Hint Resolve write_safe_int : write_safe.

Lemma write_safe_bytes n : write_safe (tdf_write_bytes n).
Proof. unfold tdf_write_bytes. repeat write_step. Qed.

#[export] Hint Resolve write_safe_bytes : write_safe.

Lemma write_safe_string n : write_safe (tdf_write_string n).
Proof. unfold tdf_write_string. repeat write_step. Qed.

#[export] Hint Resolve write_safe_string : write_safe.

Lemma write_safe_name key : write_safe (tdf_write_name key).
Proof.
  destruct key as [n|l]; cbn [tdf_write_name]; repeat write_step. induction l as [|n l IH]; cbn [tdf_write_components]; repeat write_step.
Qed.

#[export] Hint Resolve write_safe_name : write_safe.

(** *** Operations that may stop *)

Lemma owrite_some m : write_safe m -> owrite_safe (Some m).
Proof. auto. Qed.

Lemma owrite_skip : owrite_safe wskip.
Proof. apply write_safe_ret. Qed.

Lemma owrite_none : owrite_safe None.
Proof. exact I. Qed.

Lemma owrite_seq o1 o2 : owrite_safe o1 -> owrite_safe o2 -> owrite_safe (wseq o1 o2).
Proof. destruct o1 as [m1|], o2 as [m2|]; cbn; auto using write_safe_bind. Qed.

Lemma owrite_bind {A} (o : option A) (k : A -> option (writer unit)) : (forall a, owrite_safe (k a)) -> owrite_safe (o ≫= k).
Proof. by destruct o as [a|]; intros H; [apply H|]. Qed.

Lemma owrite_list {A} (f : A -> option (writer unit)) l : (forall a, owrite_safe (f a)) -> owrite_safe (wlist f l).
Proof. intros Hf. induction l as [|a l IH]; cbn [wlist]; [apply owrite_skip|by apply owrite_seq]. Qed.

Lemma owrite_names f t : (forall p, owrite_safe (f p)) -> owrite_safe (iter_write f t).
Proof.
  intros Hf. unfold iter_write. induction (name_table_iter t) as [|p ps IH]; cbn [foldr]; [apply write_safe_ret|].
  specialize (Hf p). destruct (f p) as [m|]; [|exact I]. destruct (foldr _ _ ps) as [k|]; [|exact I]. cbn in *. by apply write_safe_bind.
Qed.

Lemma owrite_shapes f t : (forall s, owrite_safe (f s)) -> owrite_safe (shape_iter_write f t).
Proof. intros Hf. apply owrite_list. intros p. by apply owrite_bind. Qed.

#[export] Hint Resolve owrite_skip owrite_none : write_safe.

Ltac owrite_step :=
  first [solve [auto with write_safe] | apply owrite_seq | apply owrite_list; intros ? | apply owrite_names; intros ? | apply owrite_shapes; intros ?
        | apply owrite_some; repeat write_step | apply owrite_bind; intros ? | case_match].

Lemma owrite_with {T} (t : T) (o : option (writer unit)) : owrite_safe o ->
  match (m ← o; Some (t, m)) with Some (_, m) => write_safe m | None => True end.
Proof. by destruct o. Qed.

Lemma capsule_write_safe g units shapes :
  match capsule_write g units shapes with Some (_, m) => write_safe m | None => True end.
Proof.
  unfold capsule_write. destruct (set_entries g units) as [sets|]; [|exact I]. cbn [mbind option_bind].
  destruct (count_unit_sets _ _ _ _) as [[k t]|]; [|exact I]. cbn [mbind option_bind].
  destruct (shape_iter _ _ _ _) as [[t' k']|]; [|exact I]. cbn [mbind option_bind].
  apply owrite_with.
  unfold capsule_write_header, unit_entry_write_unit_set, shape_entry_write_shape, shape_entry_write_externs, name_entry_write_name,
    unit_entry_write_tld_unit, unit_entry_write_units, unit_write, shape_entry_write_tld, name_entry_write_tld, shape_entry_write_count, shape_entry_write_links.
  repeat owrite_step.
Qed.

Lemma library_write_safe junk g shapes cs index :
  match library_write junk g shapes cs index with Some (_, m) => write_safe m | None => True end.
Proof.
  unfold library_write. destruct (shape_iter _ _ _ _) as [[t k]|]; [|exact I]. cbn [mbind option_bind].
  apply owrite_with.
  unfold library_write_header, write_lib_capsule, shape_entry_do_lib_write, name_entry_do_lib_write. repeat owrite_step.
Qed.

(** What the closing of the file adds to it. *)
Lemma file_written_safe junk devices name m : write_safe m ->
  match (file_written junk devices name m).2 with Ok _ => True | Throw e => exists name, e = XX_bostream_write_error name end.
Proof.
  intros Hm. unfold file_written. assert (write_safe (_ ← m; tdf_writer_close)) as H by (unfold tdf_writer_close; repeat write_step).
  specialize (H (tdf_writer_open (devices name) name (u8 (junk 0%nat)))).
  by destruct ((_ ← m; tdf_writer_close) (tdf_writer_open (devices name) name (u8 (junk 0%nat)))) as [w [u|e]].
Qed.

(** ** Extraction to any devices *)

(** The ways an extraction goes on or ends once its library is read. *)
Definition extracts {A} (m : extract A) : Prop := forall st,
  match m st with
  | (st', Ok _) => later_reports (l_errors (ex_link st)) (l_errors (ex_link st'))
  | (_, Throw Fatal_error) | (_, Throw (XX_tdf (XX_bostream_write_error _))) => True
  | (_, Throw _) => False
  end.

Lemma extracts_bind {A B} (m : extract A) (k : A -> extract B) : extracts m -> (forall a, extracts (k a)) -> extracts (m ≫= k).
Proof.
  intros Hm Hk st. unfold mbind, stM_bind. specialize (Hm st). destruct (m st) as [st1 [a|e]]; [|exact Hm].
  specialize (Hk a st1). destruct (k a st1) as [st2 [b|e]]; [|exact Hk]. by etransitivity.
Qed.

Lemma extracts_ret {A} (a : A) : extracts (mret a).
Proof. by intros st. Qed.

Lemma extracts_mapM {A} (f : A -> extract unit) l : (forall a, extracts (f a)) -> extracts (mapM_ f l).
Proof. intros Hf. induction l as [|a l IH]; cbn [mapM_]; [apply extracts_ret|]. apply extracts_bind; [apply Hf|auto]. Qed.

Lemma extracts_serious : extracts (ex_in_link serious).
Proof.
  intros st. unfold ex_in_link, serious. pose proof (serious_error_later (l_errors (ex_link st))) as H.
  by destruct (serious_error _) as [b []].
Qed.

Lemma extracts_close : extracts (ex_in_link (rd tdf_reader_close)).
Proof. intros st. unfold ex_in_link. by destruct (close_link (ex_link st)) as (r & ->). Qed.

Lemma extracts_populate path : forall before, extracts (populate_loop before path).
Proof. induction path as [|c path IH]; intros before; cbn [populate_loop]; [apply extracts_ret|]. apply extracts_bind; [by destruct (c =? ch_slash)|auto]. Qed.

Section Extract.
Variable junk : nat -> Z.
Variable junk_nstring : nat -> NStringT.
Variable can_write : list Z -> bool.
Variable devices : list Z -> DeviceT.

Lemma library_extract_1_extracts use_basename c : extracts (library_extract_1 junk can_write devices use_basename c).
Proof.
  unfold library_extract_1. apply extracts_bind; [apply extracts_populate|]. intros _. destruct (can_write _); [|by intros st].
  intros st. unfold write_file. match goal with |- context [file_written _ _ ?n ?m] => pose proof (file_written_safe junk devices n m (write_safe_bytes _)) as H end.
  destruct (file_written _ _ _ _) as [bytes [u|e]]; [reflexivity|]. by destruct H as (name & ->).
Qed.

Lemma extract_capsules_extracts b b' name cs : forall m, extracts (extract_capsules junk can_write devices b b' name cs m).
Proof.
  induction cs as [|c cs IH]; intros m; cbn [extract_capsules]; [apply extracts_ret|]. destruct (extract_matches _ _ _); [|apply IH].
  apply extracts_bind; [apply library_extract_1_extracts|auto].
Qed.

Lemma extract_library_extracts all b b' names lib : extracts (extract_library junk can_write devices all b b' names lib).
Proof.
  unfold extract_library. destruct (lib_complete lib); [|apply extracts_ret]. destruct all; apply extracts_mapM; [intros c; apply library_extract_1_extracts|].
  intros name. apply extracts_bind; [apply extract_capsules_extracts|]. intros []; [apply extracts_ret|apply extracts_serious].
Qed.

(** How an extraction ends. *)
Lemma extract_main_safe (device : Prop) open_file args g reports :
  (forall name data, open_file name = Some data -> Forall (fun o => from_option is_byte device o) data) ->
  files args <> [] -> known_unit_sets g -> quiet reports ->
  match extract_main junk junk_nstring open_file can_write devices args (extract_start g reports) with
  | (_, Ok _) | (_, Throw Fatal_error) | (_, Throw (XX_tdf (XX_bostream_write_error _))) => True
  | (st, Throw Stop) => exhausted (ex_link st)
  | (_, Throw (XX_tdf (XX_bistream_read_error _))) => device
  | (_, Throw _) => False
  end.
Proof.
  intros Hfiles Hf Hg Hq. unfold extract_main. unfold mbind at 1, stM_bind at 1.
  assert (forall b c : bool, (if b then fatal else if c then fatal else mret tt : extract unit) (extract_start g reports) =
    (if b || c then fatal else mret tt : extract unit) (extract_start g reports)) as -> by (by intros [] []).
  destruct (_ || _); [reflexivity|]. cbn [mret stM_ret]. unfold mret, stM_ret. cbn beta iota.
  destruct (files args) as [|file names]; [done|]. destruct (open_file file) as [data|] eqn:Ho.
  - rewrite (opened_extract junk _ file data). unfold mbind at 1, stM_bind at 1. rewrite extract_reads.
    pose proof (library_read_ok junk junk_nstring device [] 0 None 0 file 0 _ (start_index device [] 0 None g data file (u8 (junk 0%nat)) reports Hg Hq (Hfiles _ _ Ho)) (le_n _)) as H.
    destruct (library_read _ _ _ _ _) as [l [lib|e]]; [|by destruct e as [| |[]| | |]].
    destruct H as (Hlater & _). pose proof (extract_library_extracts (arg_data_get_extract_all args) (arg_data_get_extract_basename args)
      (arg_data_get_extract_match_base args) names lib (Extract l [] ∅)) as Hk.
    destruct (extract_library _ _ _ _ _ _ _ _ _) as [st' [u|e]]; [|by destruct e as [| |[]| | |]].
    destruct (extract_close_eq st') as (r & E); [|by rewrite E]. eapply quiet_later; [exact Hk|]. eapply quiet_later; [apply Hlater|exact Hq].
  - unfold mbind, stM_bind, ex_in_link, serious. cbn [extract_start ex_link builder_start l_errors].
    pose proof (serious_error_later reports) as Hl. destruct (serious_error reports) as [b []]; [exact I|].
    rewrite exit_quiet; [exact I|]. by eapply quiet_later.
Qed.
End Extract.

(** ** The whole program *)

(** A shape has given out all its identifiers. *)
Definition ids_run_out (r : EndT) : Prop :=
  exists l s, e_link r = Some l /\ (s ∈ st_entries (l_shapes l) \/ s ∈ st_entries (e_libs r)) /\ id_count s = UINT_MAX.

(** Why a mode can crash: the linker has read no header of a capsule, the
    builder uses what an error left unwritten, and the listing reaches a name
    that is not defined. *)
Definition mode_crash (mode : ModeT) (r : EndT) : Prop :=
  ids_run_out r \/
  match mode with
  | MODE_LINKER => exists l, e_link r = Some l /\ headless l
  | MODE_BUILDER => e_reported r = true
  | MODE_CONTENTS => exists l, e_link r = Some l /\ undefined_name (shapes_of (l_shapes l))
  | MODE_EXTRACT => False
  end.

Section Program.
Variable junk : nat -> Z.
Variable junk_nstring : nat -> NStringT.
Variable open_file : list Z -> option (list (option Z)).
Variable can_write : list Z -> bool.
Variable devices : list Z -> DeviceT.

(** A file that is complete, and what was written to it. *)
Definition output_is (r : EndT) (name : list Z) (m : writer unit) : Prop :=
  exists bytes, file_written junk devices name m = (bytes, Ok tt) /\ e_files r = {[name := bytes]}.

(** What a mode has made when it has succeeded and reported no error. *)
Definition mode_made (st : MainT) (mode : ModeT) (r : EndT) : Prop :=
  let args := main_arg_data st in
  match mode with
  | MODE_LINKER => exists l m, e_link r = Some l /\ output_is r (arg_data_get_output_file args) m /\ (fits l -> accepted (main_statics st) m)
  | MODE_BUILDER => exists l m, e_link r = Some l /\ output_is r (arg_data_get_output_file args) m /\
      (library_fits (inputs junk open_file args) l -> stored_library (inputs junk open_file args) m)
  | MODE_CONTENTS | MODE_EXTRACT => True
  end.

(** How a mode ends: nothing is thrown that [main] does not catch, and there
    is a message whenever the program fails. *)
Definition mode_end (st : MainT) (mode : ModeT) (r : EndT) : Prop :=
  match e_status r with
  | EXIT_SUCCESS => e_reported r = false -> mode_made st mode r
  | EXIT_FAILURE => e_reported r = true
  | Uncaught => False
  | Crashed => mode_crash mode r
  end.

Hypothesis files_ok : forall name data, open_file name = Some data ->
  Forall (fun o => from_option is_byte True o) data /\ Z.of_nat (List.length data) < 2 ^ 32.

(** What the program has after [main_init]. *)
Definition main_ready (st : MainT) : Prop :=
  args_ok (main_arg_data st) /\ known_unit_sets (main_statics st) /\ quiet (main_reports st) /\ files (main_arg_data st) <> [] /\ Forall c_string (files (main_arg_data st)).

Lemma files_bytes name data : open_file name = Some data -> Forall (fun o => from_option is_byte True o) data.
Proof. intros H. by destruct (files_ok name data H). Qed.

(** The writing of the output, by an operation that can only stop. *)
Lemma to_output_end st mode args w l libs (Q : writer unit -> LinkT -> Prop) :
  match w with
  | (l', Ok m) => write_safe m /\ quiet (l_errors l') /\ (l_serious l' = false -> Q m l')
  | (l', Throw e) => e = Stop /\ mode_crash mode (program_end (Crashed, false) l' libs [] ∅ [])
  end ->
  (forall m l' r, e_link r = Some l' -> output_is r (arg_data_get_output_file args) m -> Q m l' -> mode_made st mode r) ->
  mode_end st mode (to_output junk can_write devices args w l libs).
Proof.
  intros Hw Hmade. unfold to_output, mode_end, program_end. destruct (can_write _); [|cbn; by rewrite orb_true_r]. destruct w as [l' [m|e]].
  - destruct Hw as (Hsafe & Hq & HQ). pose proof (file_written_safe junk devices (arg_data_get_output_file args) m Hsafe) as H.
    destruct (file_written junk devices _ m) as [bytes [[]|e]] eqn:Ef.
    + unfold final_status. rewrite Hq. cbn -[l_serious]. rewrite orb_false_r. intros Hser. eapply Hmade; [reflexivity| |by apply HQ]. exists bytes. by split.
    + destruct H as (name & ->). cbn. by rewrite orb_true_r.
  - destruct Hw as [-> Hw]. exact Hw.
Qed.

Lemma run_linker_end st : main_ready st -> Forall (fun r => no_cycle (rc_names r)) (renames (main_arg_data st)) ->
  exists fuel r, (forall f, (fuel <= f)%nat -> run_linker junk junk_nstring open_file can_write devices f st = Some r) /\ mode_end st MODE_LINKER r.
Proof.
  intros (Ha & Hg & Hq & Hf & _) Hcy. destruct (linker_link_ends junk junk_nstring True open_file _ _ (main_reports st) files_bytes Ha Hf Hcy Hg Hq) as (fuel & [rv [[]|e]] & Hr & H).
  - pose proof (fun g u t => capsule_write_safe g u t) as Hsafe.
    destruct (linker_write_capsule rv) as [rv' x] eqn:Ew.
    exists fuel, (to_output junk can_write devices (main_arg_data st) (rv_link rv', x) (rv_link rv) (rv_lib_shapes rv)). split.
    { intros f Hle. unfold run_linker. by rewrite (Hr f Hle), Ew. }
    destruct H as [Hquiet H].
    assert (match x with Ok m => write_safe m | Throw e => e = Stop end /\ rv_lib_shapes rv' = rv_lib_shapes rv /\ l_errors (rv_link rv') = l_errors (rv_link rv)) as (Hx & Hlibs & Herr).
    { unfold linker_write_capsule, mbind, stM_bind, st_get, in_link, need in Ew. specialize (Hsafe (l_statics (rv_link rv)) (l_units (rv_link rv)) (l_shapes (rv_link rv))).
      destruct (capsule_write _ _ _) as [[t m]|]; cbn in Ew; injection Ew as <- <-; by split_and!. }
    apply (to_output_end st _ _ _ _ _ (fun m l => fits l -> accepted (main_statics st) m)).
    + destruct x as [m|e]; [split; [exact Hx|]; split; [by rewrite Herr|exact H]|]. subst e. split; [reflexivity|]. destruct H as [H|H]; [left|right].
      * destruct H as (s & Hs & E). exists (rv_link rv'), s. split; [reflexivity|]. cbn. by rewrite <- Hlibs.
      * by exists (rv_link rv').
    + intros m l r El Ho HQ. by exists l, m.
  - exists fuel, (program_end (handler e) (rv_link rv) (rv_lib_shapes rv) [] ∅ []). split; [intros f Hle; unfold run_linker; by rewrite (Hr f Hle)|].
    unfold mode_end, program_end. destruct e as [| |[]| | |]; try contradiction; cbn; [by rewrite orb_true_r|by rewrite orb_true_r|].
    destruct H as (s & Hs & E). left. by exists (rv_link rv), s.
Qed.

Lemma run_builder_end st : main_ready st -> mode_end st MODE_BUILDER (run_builder junk junk_nstring open_file can_write devices st).
Proof.
  intros (Ha & Hg & Hq & Hf & Hc). destruct (known_set_up _ Hg) as (names & tld & tld2 & Hk & Hs).
  pose proof (main_builds junk junk_nstring True open_file files_bytes (snames := names) (tld := tld) (tld2 := tld2) (main_statics st) (main_arg_data st) (main_reports st) Hq Hk (Hs junk) Ha Hf) as H.
  assert (Forall (Forall is_byte) (files (main_arg_data st))) as Hb by (eapply Forall_impl; [exact Hc|]; intros s; apply c_string_bytes).
  specialize (H Hb). unfold builds, builder_main in H. unfold mbind, stM_bind in H. unfold run_builder.
  destruct (builder_build _ _ _ _ _) as [l [[cs num]|e]]; cbn beta iota in H |- *.
  - apply (to_output_end st _ _ _ _ _ (fun m l => library_fits (inputs junk open_file (main_arg_data st)) l -> stored_library (inputs junk open_file (main_arg_data st)) m)).
    + assert (match (builder_write_library junk num cs l).2 with Ok m => write_safe m | Throw e => e = Stop end) as Hx.
      { unfold builder_write_library, mbind, stM_bind, st_get, need. destruct (stored_capsules num cs) as [cs'|]; [|reflexivity]. cbn.
        pose proof (library_write_safe junk (l_statics l) (l_shapes l) cs' Z.of_nat) as Hw. by destruct (library_write _ _ _ _ _) as [[t m]|]. }
      destruct (builder_write_library junk num cs l) as [l' [m|e]]; [by split|]. cbn in Hx. subst e. split; [reflexivity|].
      destruct H as [(s & Hin & E)|H]; [left|right; cbn; by rewrite orb_false_r]. exists l', s. split; [reflexivity|]. split; [by left|exact E].
    + intros m l' r El Ho HQ. by exists l', m.
  - unfold mode_end, program_end. destruct e as [| |[]| | |]; try contradiction; cbn; [by rewrite orb_true_r|by rewrite orb_true_r|].
    destruct H as [(s & Hin & E)|H]; [left|right; cbn; by rewrite orb_false_r]. exists l, s. split; [reflexivity|]. split; [by left|exact E].
Qed.

Lemma run_extract_end st : main_ready st -> mode_end st MODE_EXTRACT (run_extract junk junk_nstring open_file can_write devices st).
Proof.
  intros (_ & Hg & Hq & Hf & _). unfold run_extract.
  pose proof (extract_main_safe junk junk_nstring can_write devices True open_file (main_arg_data st) (main_statics st) (main_reports st) files_bytes Hf Hg Hq) as H.
  destruct (extract_main _ _ _ _ _ _ _) as [ex [u|e]]; unfold mode_end, program_end; [done|].
  destruct e as [| |[]| | |]; try contradiction; cbn; rewrite ?orb_true_r, ?orb_false_r; auto.
  destruct H as (s & Hin & E). left. exists (ex_link ex), s. split; [reflexivity|]. split; [by left|exact E].
Qed.

Lemma run_contents_end stdout_device st : main_ready st -> mode_end st MODE_CONTENTS (run_contents junk junk_nstring open_file stdout_device st).
Proof.
  intros (_ & Hg & Hq & Hf & _). unfold run_contents.
  destruct (contents_main_outcome junk junk_nstring True open_file (main_arg_data st) (main_statics st) (main_reports st) stdout_device files_bytes Hg Hq) as [H Hexit].
  destruct (contents_main _ _ _ _ _) as [co x]. unfold mode_end, program_end.
  destruct (decide (List.length (files (main_arg_data st)) = 1%nat)) as [E|E].
  2: { pose proof (Hexit E) as Ex. injection Ex as -> ->. cbn. by rewrite orb_true_r. }
  destruct (files (main_arg_data st)) as [|file [|]]; [discriminate| |discriminate].
  specialize (H file eq_refl). unfold contents_outcome in H. destruct (open_file file) as [data|].
  2: { destruct H as (_ & Hl & [->|[-> _]]); cbn; [done|by rewrite orb_true_r]. }
  destruct (library_read _ _ _ _ _) as [l [library|e]].
  - destruct H as (_ & Hun & _ & Esh & _ & H). destruct x as [[]|[e|e]]; cbn in H.
    + done.
    + destruct H as (Ex & _). destruct (listing _ _ _ _ _).2 eqn:Et; [discriminate|]. injection Ex as ->. cbn. right. exists (co_link co).
      split; [reflexivity|]. rewrite Esh. by apply Hun.
    + destruct H as (-> & _). cbn. by rewrite orb_true_r.
  - destruct H as (_ & -> & H). destruct e as [| |[]| | |]; try contradiction; cbn; rewrite ?orb_true_r; auto.
    destruct H as (s & Hin & E'). left. exists (co_link co), s. split; [reflexivity|]. split; [by left|exact E'].
Qed.
End Program.


(** The linker on the capsule of TldLinkerSpec; the name of its tag is kept. *)
Definition ex_run_line : list (list Z) := chars <$> ["-o"; "c"; "--keep"; "tag"; "a"; "a"]%string.

Definition ex_run (files : list Z -> option (list (option Z))) (line : list (list Z)) : option EndT :=
  main (fun _ => 0) (fun _ => nstring_init) files (fun _ => true) (fun _ => takes_all at_close) (takes_all at_close) 20 line.

Lemma ex_files_short name data : ex_files name = Some data -> Forall (fun o => from_option is_byte True o) data /\ Z.of_nat (List.length data) < 2 ^ 32.
Proof.
  intros E. pose proof (ex_files_ok name data E) as H. split; [eapply Forall_impl; [exact H|]; by intros []|].
  unfold ex_files in E. destruct (bool_decide (name = [97])); [|discriminate]. vm_compute in E. injection E as <-. vm_compute. reflexivity.
Qed.

Lemma ex_run_acyclic st : main_init (fun _ => 0) (fun _ => nstring_init) ex_files (fun _ => true) ex_run_line main_start = (st, Ok MODE_LINKER) ->
  Forall (fun r => no_cycle (rc_names r)) (renames (main_arg_data st)).
Proof.
  intros E. assert (renames (main_arg_data st) = []) as ->; [|constructor].
  change st with (st, Ok MODE_LINKER : result main_exn ModeT).1. rewrite <- E. vm_compute. reflexivity.
Qed.

