(* ===== verification/TransFlpt.v ===== *)
(** * TransFlpt: the floating point numbers of the installers

    Models trans/src/common/flpt/flpt.c: numbers of eight digits to the base
    [FBASE], the arithmetic on them, and the array they are kept in. [Ok] is
    the status OKAY with the number that is left in the result; with another
    status it is undefined. The last two elements of a mantissa are never
    written and not modelled. [None] is what C does not define: the use of
    memory outside an array, and a product or quotient whose exponent
    overflows the [int] it is computed in. The other operations are modelled for
    exponents that keep their sum with one and their differences within an
    [int]: all up to 2^31 - 2^15. *)
From stdpp Require Import base list list_numbers numbers.
From Stdlib Require Import ZArith Lia.
From S2P Require Import Prelude.

Inductive flt_status := EXP2BIG | SYNTAX | DIVBY0.

Inductive RoundT := R2NEAR | R2NINF | R2PINF | R2ZERO.

Definition FBASE : Z := 65536.
Definition FBITS : Z := 16.
Definition MANT_SIZE : nat := 8.
Definition E_MIN : Z := -16384.

(** An exponent is an [int]. *)
Definition int_ok (e : Z) : bool := (-2147483648 <=? e) && (e <? 2147483648).

(** The point is after the first digit. *)
Record flt := Flt { mant : list Z; f_sign : Z; f_exp : Z }.

(** Twice as many digits. *)
Record dbl := Dbl { d_mant : list Z; d_sign : Z; d_exp : Z }.

(** Nothing assigns [round_type]. *)
Definition round_type : RoundT := R2NEAR.

Section Flpt.
(** The largest [long], which limits the exponents. *)
Variable LONG_MAX : Z.

Definition E_MAX : Z := LONG_MAX / FBASE.

(** ** Internal functions *)

(** The first digits that differ. *)
Fixpoint digits_cmp (l1 l2 : list Z) : Z :=
  match l1, l2 with
  | d1 :: l1, d2 :: l2 => if d1 =? d2 then digits_cmp l1 l2 else if d1 <? d2 then -1 else 1
  | _, _ => 0
  end.

Definition magnitude_cmp (s1 e1 : Z) (m1 : list Z) (s2 e2 : Z) (m2 : list Z) : Z :=
  if s1 =? 0 then if s2 =? 0 then 0 else -1
  else if s2 =? 0 then 1
  else if negb (e1 =? e2) then if e1 <? e2 then -1 else 1
  else digits_cmp m1 m2.

Definition mag_cmp (f1 f2 : flt) : Z := magnitude_cmp (f_sign f1) (f_exp f1) (mant f1) (f_sign f2) (f_exp f2) (mant f2).

Definition dbl_mag_cmp (d1 d2 : dbl) : Z := magnitude_cmp (d_sign d1) (d_exp d1) (d_mant d1) (d_sign d2) (d_exp d2) (d_mant d2).

(** The loops that carry, from the last digit. *)
Fixpoint add_carry (l : list Z) (c : Z) : list Z * Z :=
  match l with
  | [] => ([], c)
  | d :: l =>
      let '(l, c) := add_carry l c in
      if c =? 0 then (d :: l, 0) else ((c + d) mod FBASE :: l, (c + d) / FBASE)
  end.

(** Whether a digit that is dropped is rounded up. *)
Definition rounds_up (sign ic : Z) : bool :=
  match round_type with
  | R2ZERO => false
  | R2PINF => (sign =? 1) && negb (ic =? 0)
  | R2NINF => (sign =? -1) && negb (ic =? 0)
  | R2NEAR => negb (ic <? FBASE / 2)
  end.

Definition flt_int_round (f : flt) (ic : Z) : flt :=
  if rounds_up (f_sign f) ic then
    let '(l, c) := add_carry (mant f) 1 in
    if c =? 0 then Flt l (f_sign f) (f_exp f)
    else Flt (1 :: replicate (MANT_SIZE - 1) 0) (f_sign f) (f_exp f + 1)
  else f.

Definition dbl2float (d : dbl) : flt :=
  flt_int_round (Flt (take MANT_SIZE (d_mant d)) (d_sign d) (d_exp d)) (nth MANT_SIZE (d_mant d) 0).

Definition flt2double (f : flt) : dbl := Dbl (mant f ++ replicate MANT_SIZE 0) (f_sign f) (f_exp f).

Definition shift_right (d : dbl) (dist : Z) : dbl :=
  Dbl ((fun i => if Z.of_nat i <? dist then 0 else nth (i - Z.to_nat dist) (d_mant d) 0) <$> seq 0 (2 * MANT_SIZE))
    (d_sign d) (d_exp d + dist).

Fixpoint sub_digits (l1 l2 : list Z) : list Z * Z :=
  match l1, l2 with
  | d1 :: l1, d2 :: l2 =>
      let '(l, c) := sub_digits l1 l2 in
      let s := d1 - d2 - c in
      if s <? 0 then (s + FBASE :: l, 1) else (s :: l, 0)
  | _, _ => ([], 0)
  end.

(** The digits are shifted until the first one is not zero. Those of zero would
    be shifted until the exponent is too small. [zeros]: the digits that
    follow. *)
Fixpoint normalise (too_small : Z -> bool) (l : list Z) (zeros : list Z) (e : Z) : result flt_status (list Z * Z) :=
  match l with
  | [] => Throw EXP2BIG
  | d :: l =>
      if d =? 0 then
        if too_small (e - 1) then Throw EXP2BIG else normalise too_small l (0 :: zeros) (e - 1)
      else Ok (d :: l ++ zeros, e)
  end.

Definition flt_zero : flt := Flt (replicate MANT_SIZE 0) 0 0.

(** [e]: the exponent of the result. *)
Definition sub_mantissas (d1 d2 : dbl) (e : Z) : result flt_status flt :=
  let cmp := dbl_mag_cmp d1 d2 in
  if cmp =? 0 then Ok flt_zero
  else
    let '(dp1, dp2) := if cmp =? -1 then (d2, d1) else (d1, d2) in
    match normalise (fun e => e <? E_MIN) (sub_digits (d_mant dp1) (d_mant dp2)).1 [] e with
    | Ok (l, e) => Ok (dbl2float (Dbl l (d_sign dp1) e))
    | Throw s => Throw s
    end.

Fixpoint add_digits (l1 l2 : list Z) : list Z * Z :=
  match l1, l2 with
  | d1 :: l1, d2 :: l2 =>
      let '(l, c) := add_digits l1 l2 in
      let c := c + (d1 + d2) in
      (c mod FBASE :: l, c / FBASE)
  | _, _ => ([], 0)
  end.

Definition add_mantissas (d1 d2 : dbl) (e : Z) : result flt_status flt :=
  if d_sign d1 =? d_sign d2 then
    let '(l, c) := add_digits (d_mant d1) (d_mant d2) in
    if c =? 0 then Ok (dbl2float (Dbl l (d_sign d1) e))
    else if (E_MAX <=? e + 1) || (e + 1 <=? E_MIN) then Throw EXP2BIG
    else Ok (dbl2float (Dbl (c :: take (2 * MANT_SIZE - 1) l) (d_sign d1) (e + 1)))
  else sub_mantissas d1 d2 e.

(** ** The public functions *)

Definition flt_copy (f : flt) : flt := f.

Definition flt_add (f1 f2 : flt) : result flt_status flt :=
  if f_sign f1 =? 0 then Ok (flt_copy f2)
  else if f_sign f2 =? 0 then Ok (flt_copy f1)
  else
    let d1 := flt2double f1 in
    let d2 := flt2double f2 in
    let '(d1, d2) :=
      if d_exp d1 <? d_exp d2 then (shift_right d1 (d_exp d2 - d_exp d1), d2)
      else if d_exp d2 <? d_exp d1 then (d1, shift_right d2 (d_exp d1 - d_exp d2))
      else (d1, d2) in
    add_mantissas d1 d2 (d_exp d1).

Definition flt_sub (f1 f2 : flt) : result flt_status flt := flt_add f1 (Flt (mant f2) (- f_sign f2) (f_exp f2)).

(** A product of two digits is added where it belongs; its carry goes up. *)
Fixpoint acc_add (k : nat) (temp : Z) (acc : list Z) : option (list Z) :=
  if temp =? 0 then Some acc
  else
    let atl := nth k acc 0 + Z.land temp 65535 in
    let acc := <[k := Z.land atl 65535]> acc in
    let temp := u32 (Z.shiftr atl 16 + Z.shiftr temp 16) in
    match k with
    | O => if temp =? 0 then Some acc else None
    | S k => acc_add k temp acc
    end.

(** [i] and [j] in the order of the loops. *)
Definition digit_pairs : list (nat * nat) :=
  i ← reverse (seq 0 MANT_SIZE); j ← reverse (seq 0 MANT_SIZE); [(i, j)].

Definition mul_digits (l1 l2 : list Z) : option (list Z) :=
  foldl (fun acc '(i, j) => acc ← acc; acc_add (i + j + 1) (u32 (nth i l1 0 * nth j l2 0)) acc)
    (Some (replicate (2 * MANT_SIZE) 0)) digit_pairs.

Definition flt_mul (f1 f2 : flt) : option (result flt_status flt) :=
  if (f_sign f1 =? 0) || (f_sign f2 =? 0) then Some (Ok flt_zero)
  else
    let sign := if f_sign f1 =? f_sign f2 then 1 else -1 in
    let e := f_exp f1 + f_exp f2 + 1 in
    if negb (int_ok (f_exp f1 + f_exp f2) && int_ok e) then None
    else if (E_MAX <=? e) || (e <=? E_MIN) then Some (Throw EXP2BIG)
    else
      acc ← mul_digits (mant f1) (mant f2);
      Some (match normalise (fun e => e <=? E_MIN) acc [] e with
            | Ok (l, e) => Ok (dbl2float (Dbl l sign e))
            | Throw s => Throw s
            end).

Definition flt_cmp (f1 f2 : flt) : Z :=
  if f_sign f1 <? f_sign f2 then -1
  else if f_sign f2 <? f_sign f1 then 1
  else
    let ret := mag_cmp f1 f2 in
    if f_sign f1 =? -1 then - ret else ret.

(** To an integer: the digits up to the exponent remain. *)
Definition flt_round (f : flt) : flt :=
  if f_exp f <? -1 then flt_zero
  else if Z.of_nat MANT_SIZE <=? f_exp f + 1 then flt_copy f
  else
    let n := Z.to_nat (f_exp f + 1) in
    let ex := nth n (mant f) 0 in
    let l := take n (mant f) in
    let zeros := replicate (MANT_SIZE - n) 0 in
    if rounds_up (f_sign f) ex then
      let '(l, c) := add_carry l 1 in
      if c =? 0 then Flt (l ++ zeros) (f_sign f) (f_exp f)
      else Flt (1 :: replicate (MANT_SIZE - 1) 0) (f_sign f) (if f_exp f =? -1 then 0 else f_exp f + 1)
    else if f_exp f =? -1 then Flt (l ++ zeros) 0 0 else Flt (l ++ zeros) (f_sign f) (f_exp f).
End Flpt.

(** ** Division *)

Definition u16 (v : Z) : Z := wrap 16 v.

(** The loops that bring the first digits together. *)
Fixpoint bits_above (fuel : nat) (t s n : Z) : option Z :=
  match fuel with
  | O => None
  | S fuel => if s <=? t then bits_above fuel (Z.shiftr t 1) s (n + 1) else Some n
  end.

Fixpoint bits_below (fuel : nat) (t s n : Z) : option Z :=
  match fuel with
  | O => None
  | S fuel => if t <? s then bits_below fuel t (Z.shiftr s 1) (n - 1) else Some n
  end.

(** A digit has sixteen bits. *)
Definition bit_difference (t s : Z) : option Z :=
  if s <=? t then bits_above 17 t s 0 else n ← bits_below 17 t s 0; Some (n + 1).

(** [n] places to the right. [c]: the bits to the left of the digits. *)
Fixpoint shift_digits (n c : Z) (l : list Z) : list Z :=
  match l with
  | [] => []
  | d :: l =>
      let c := u32 (d + Z.shiftl c 16) in
      u16 (Z.shiftr c n) :: shift_digits n (Z.land c (Z.shiftl 1 (n + 1) - 1)) l
  end.

(** The loops from the last digit, with the borrow or carry that is left. *)
Fixpoint subtract_digits (l1 l2 : list Z) : list Z * Z :=
  match l1, l2 with
  | d1 :: l1, d2 :: l2 =>
      let '(l, c) := subtract_digits l1 l2 in
      let c := u32 (d1 - d2 + c) in
      (Z.land c 65535 :: l, if Z.land c 65536 =? 0 then 0 else u32 (-1))
  | _, _ => ([], 0)
  end.

Fixpoint restore_digits (l1 l2 : list Z) : list Z * Z :=
  match l1, l2 with
  | d1 :: l1, d2 :: l2 =>
      let '(l, c) := restore_digits l1 l2 in
      let c := u32 (d1 + d2 + c) in
      (Z.land c 65535 :: l, if Z.land c 65536 =? 0 then 0 else 1)
  | _, _ => ([], 0)
  end.

(** One place to the right, and whether there was anything to shift. *)
Fixpoint halve_digits (c : Z) (l : list Z) : list Z * bool :=
  match l with
  | [] => ([], false)
  | d :: l =>
      let c := u32 (d + Z.shiftl c 16) in
      let '(l, keep_on) := halve_digits (Z.land c 1) l in
      (u16 (Z.shiftr c 1) :: l, negb (c =? 0) || keep_on)
  end.

(** A bit of the quotient in each round, until nothing is left of the divisor. *)
Fixpoint div_loop (fuel : nat) (a1 a2 r : list Z) (bit : Z) (bitpos : nat) (sg : bool) : option (list Z) :=
  match fuel with
  | O => None
  | S fuel =>
      let '(a1, c) := if sg then subtract_digits a1 a2 else restore_digits a1 a2 in
      let sg := if sg then c =? 0 else negb (c =? 0) in
      r ← (if sg then d ← r !! bitpos; Some (<[bitpos := u16 (Z.lor d (Z.shiftl 1 bit))]> r) else Some r);
      let '(bit, bitpos) := if bit =? 0 then (15, S bitpos) else (bit - 1, bitpos) in
      let '(a2, keep_on) := halve_digits 0 a2 in
      if keep_on then div_loop fuel a1 a2 r bit bitpos sg else Some r
  end.

(** The digits of the result, from the last one. *)
Fixpoint line_up (final_shift : Z) (l : list Z) (k : Z) : list Z * Z :=
  match l with
  | [] => ([], k)
  | d :: l =>
      let '(l, k) := line_up final_shift l k in
      let k := u32 (Z.shiftl d final_shift + k) in
      (Z.land k 65535 :: l, Z.shiftr k 16)
  end.

Definition round_and_line_up (final_shift : Z) (r : list Z) : list Z :=
  let last := nth MANT_SIZE r 0 in
  let k := Z.shiftr (Z.land (Z.shiftl last final_shift) 32768) 15 in
  (line_up final_shift (take MANT_SIZE r) (u32 (k + Z.shiftr last (16 - final_shift)))).1.

(** [spare]: what is in the elements of the local array [r] behind the
    [MANT_SIZE + 1] that are set to zero; as many as [MANT_SIZE_MAX] is larger
    than [MANT_SIZE]. *)
Definition flt_div (spare : list Z) (f1 f2 : flt) : option (result flt_status flt) :=
  if negb (int_ok (f_exp f1 - f_exp f2)) then None
  else if f_sign f2 =? 0 then Some (Throw DIVBY0)
  else if f_sign f1 =? 0 then Some (Ok flt_zero)
  else
    let a1 := mant f1 ++ [0] in
    let a2 := mant f2 ++ [0] in
    let r := replicate (MANT_SIZE + 1) 0 ++ spare in
    bit_diff ← bit_difference (nth 0 a1 0) (nth 0 a2 0);
    let a1 := if 0 <? bit_diff then shift_digits bit_diff 0 a1 else a1 in
    let a2 := if 0 <? bit_diff then a2 else if bit_diff <? 0 then shift_digits (- bit_diff) 0 a2 else a2 in
    r ← div_loop (16 * (MANT_SIZE + 1) + 1) a1 a2 r 0 0 true;
    let final_expt := f_exp f1 - f_exp f2 - (if 0 <? bit_diff then 0 else 1) in
    let final_shift := if 0 <? bit_diff then bit_diff else if -16 <? bit_diff then 16 + bit_diff else 0 in
    let l := round_and_line_up final_shift r in
    let '(l, final_expt) := if nth 0 l 0 =? 0 then (drop 1 l ++ [0], final_expt - 1) else (l, final_expt) in
    if int_ok final_expt then Some (Ok (Flt l (if f_sign f1 =? f_sign f2 then 1 else -1) final_expt)) else None.
