(* ===== verification/TransFlptSpec.v ===== *)
(** * TransFlptSpec: the arithmetic of the installers

    The operations of TransFlpt (trans/src/common/flpt/flpt.c) against a
    reference: the exact result, rounded to eight digits. *)
From stdpp Require Import base list list_numbers numbers.
From Stdlib Require Import ZArith Lia.
From S2P Require Import Prelude TransFlpt.

(** ** Digits *)

Definition digit (d : Z) : Prop := 0 <= d < FBASE.

#[export] Instance digit_dec d : Decision (digit d).
Proof. unfold digit. apply _. Defined.

(** The number that digits stand for, the first one being the highest. *)
Fixpoint dval (l : list Z) : Z :=
  match l with
  | [] => 0
  | d :: l => d * FBASE ^ Z.of_nat (length l) + dval l
  end.

(** The [n] digits of a number. *)
Fixpoint digits (n : nat) (v : Z) : list Z :=
  match n with
  | O => []
  | S n => digits n (v / FBASE) ++ [v mod FBASE]
  end.

Lemma base_pos n : 0 < FBASE ^ Z.of_nat n.
Proof. apply Z.pow_pos_nonneg; unfold FBASE; lia. Qed.

Lemma base_S n : FBASE ^ Z.of_nat (S n) = FBASE * FBASE ^ Z.of_nat n.
Proof. rewrite Nat2Z.inj_succ. apply Z.pow_succ_r. lia. Qed.

Lemma base_add n m : FBASE ^ Z.of_nat (n + m) = FBASE ^ Z.of_nat n * FBASE ^ Z.of_nat m.
Proof. rewrite Nat2Z.inj_add. apply Z.pow_add_r; lia. Qed.

Lemma base_half n : FBASE ^ Z.of_nat (S n) / 2 = FBASE / 2 * FBASE ^ Z.of_nat n.
Proof.
  rewrite base_S. change (FBASE / 2) with 32768. replace (FBASE * FBASE ^ Z.of_nat n) with (32768 * FBASE ^ Z.of_nat n * 2) by (unfold FBASE; ring).
  apply Z.div_mul. lia.
Qed.

Lemma dval_app l l' : dval (l ++ l') = dval l * FBASE ^ Z.of_nat (length l') + dval l'.
Proof.
  induction l as [|d l IH]; cbn [app dval]; [lia|]. rewrite IH, length_app, base_add. ring.
Qed.

Lemma dval_bound l : Forall digit l -> 0 <= dval l < FBASE ^ Z.of_nat (length l).
Proof.
  induction 1 as [|d l Hd Hl IH]; cbn [dval length]; [cbn; lia|]. rewrite base_S. unfold digit in Hd. pose proof (base_pos (length l)). nia.
Qed.

Lemma dval_zeros n : dval (replicate n 0) = 0.
Proof. induction n as [|n IH]; [reflexivity|]. cbn [replicate dval]. lia. Qed.

Lemma zeros_digits n : Forall digit (replicate n 0).
Proof. apply Forall_replicate. unfold digit, FBASE. lia. Qed.

Lemma digits_length n v : length (digits n v) = n.
Proof. revert v. induction n as [|n IH]; intros v; cbn [digits]; [reflexivity|]. rewrite length_app, IH. cbn. lia. Qed.

Lemma digits_ok n v : Forall digit (digits n v).
Proof.
  revert v. induction n as [|n IH]; intros v; cbn [digits]; [constructor|]. apply Forall_app. split; [apply IH|].
  constructor; [apply Z.mod_pos_bound; reflexivity|constructor].
Qed.

Lemma dval_digits n v : 0 <= v < FBASE ^ Z.of_nat n -> dval (digits n v) = v.
Proof.
  revert v. induction n as [|n IH]; intros v Hv; cbn [digits]; [cbn in *; lia|]. rewrite base_S in Hv.
  rewrite dval_app, IH by (split; [apply Z.div_pos; unfold FBASE; lia|apply Z.div_lt_upper_bound; [reflexivity|lia]]).
  cbn [length dval]. pose proof (Z.div_mod v FBASE ltac:(discriminate)). lia.
Qed.

(** A number is the number of its digits only. *)
Lemma dval_inj l l' : Forall digit l -> Forall digit l' -> length l = length l' -> dval l = dval l' -> l = l'.
Proof.
  intros Hl. revert l'. induction Hl as [|d l Hd Hl IH]; intros l' Hl' Hlen E; [by destruct l'|].
  destruct Hl' as [|d' l' Hd' Hl']; [discriminate|]. injection Hlen as Hlen. cbn [dval] in E. rewrite <- Hlen in E.
  pose proof (dval_bound l Hl) as H1. pose proof (dval_bound l' Hl') as H2. rewrite <- Hlen in H2.
  assert (d = d') as ->; [|f_equal; apply IH; auto; lia]. unfold digit in *. pose proof (base_pos (length l)). nia.
Qed.

Lemma digits_eq n v l : Forall digit l -> length l = n -> dval l = v -> l = digits n v.
Proof.
  intros Hl Hn Hv. apply dval_inj; [exact Hl|apply digits_ok|by rewrite digits_length|].
  pose proof (dval_bound l Hl). rewrite dval_digits; [exact Hv|]. subst. exact H.
Qed.

Lemma take_val n l : Forall digit l -> (n <= length l)%nat -> dval (take n l) = dval l / FBASE ^ Z.of_nat (length l - n).
Proof.
  intros Hl Hn. pose proof (dval_bound (drop n l) (Forall_drop _ n _ Hl)) as Hd. rewrite length_drop in Hd.
  rewrite <- (take_drop n l) at 2. rewrite dval_app, length_drop.
  rewrite Z.div_add_l by (pose proof (base_pos (length l - n)); lia). rewrite Z.div_small by lia. lia.
Qed.

Lemma head_bound d l : digit d -> d <> 0 -> Forall digit l -> FBASE ^ Z.of_nat (length l) <= dval (d :: l).
Proof. intros Hd H0 Hl. cbn [dval]. pose proof (dval_bound l Hl). unfold digit in Hd. pose proof (base_pos (length l)). nia. Qed.

(** ** The loops *)

Lemma digits_cmp_val l l' : Forall digit l -> Forall digit l' -> length l = length l' ->
  digits_cmp l l' = match (dval l ?= dval l') with Lt => -1 | Eq => 0 | Gt => 1 end.
Proof.
  intros Hl. revert l'. induction Hl as [|d l Hd Hl IH]; intros l' Hl' Hlen; [by destruct l'|].
  destruct Hl' as [|d' l' Hd' Hl']; [discriminate|]. injection Hlen as Hlen. cbn [digits_cmp dval]. rewrite <- Hlen.
  pose proof (dval_bound l Hl) as H1. pose proof (dval_bound l' Hl') as H2. rewrite <- Hlen in H2. unfold digit in *. pose proof (base_pos (length l)).
  destruct (Z.eqb_spec d d') as [->|Hne].
  - rewrite IH by auto. by rewrite (Zcompare_plus_compat (dval l) (dval l')).
  - destruct (Z.ltb_spec d d') as [Hlt|Hge].
    + assert ((_ ?= _) = Lt) as -> by (apply Z.compare_lt_iff; nia). reflexivity.
    + assert ((_ ?= _) = Gt) as -> by (apply Z.compare_gt_iff; nia). reflexivity.
Qed.

Lemma add_carry_ok l c : Forall digit l -> 0 <= c <= FBASE ->
  let '(l', c') := add_carry l c in
  Forall digit l' /\ length l' = length l /\ 0 <= c' <= FBASE /\ dval l' + c' * FBASE ^ Z.of_nat (length l) = dval l + c.
Proof.
  intros Hl Hc. induction Hl as [|d l Hd Hl IH]; cbn [add_carry dval length]; [split_and!; auto; try lia; by constructor|].
  destruct (add_carry l c) as [l' c'] eqn:E. destruct IH as (H1 & H2 & H3 & H4). unfold digit in Hd. rewrite base_S.
  destruct (Z.eqb_spec c' 0) as [->|Hc'].
  - split; [by constructor|]. split; [cbn; lia|]. split; [unfold FBASE; lia|]. cbn [dval]. rewrite H2. lia.
  - pose proof (Z.div_mod (c' + d) FBASE ltac:(discriminate)) as Hdm. pose proof (Z.mod_pos_bound (c' + d) FBASE ltac:(reflexivity)) as Hm.
    split; [constructor; [exact Hm|exact H1]|]. split; [cbn; lia|].
    split; [split; [apply Z.div_pos; unfold FBASE in *; lia|apply Z.div_le_upper_bound; unfold FBASE in *; lia]|].
    cbn [dval]. rewrite H2. nia.
Qed.

Lemma add_digits_ok l l' : Forall digit l -> Forall digit l' -> length l = length l' ->
  let '(r, c) := add_digits l l' in
  Forall digit r /\ length r = length l /\ 0 <= c <= 1 /\ dval r + c * FBASE ^ Z.of_nat (length l) = dval l + dval l'.
Proof.
  intros Hl. revert l'. induction Hl as [|d l Hd Hl IH]; intros l' Hl' Hlen.
  - destruct l'; [|discriminate]. cbn. split_and!; auto; try lia; by constructor.
  - destruct Hl' as [|d' l' Hd' Hl']; [discriminate|]. injection Hlen as Hlen. cbn [add_digits].
    specialize (IH l' Hl' Hlen). destruct (add_digits l l') as [r c]. destruct IH as (H1 & H2 & H3 & H4). unfold digit in *.
    set (x := c + (d + d')). pose proof (Z.div_mod x FBASE ltac:(discriminate)) as Hdm. pose proof (Z.mod_pos_bound x FBASE ltac:(reflexivity)) as Hm.
    split; [constructor; [exact Hm|exact H1]|]. split; [cbn; lia|].
    split; [unfold x, FBASE in *; lia|]. cbn [dval length]. rewrite base_S, H2, <- Hlen. unfold x in *. nia.
Qed.

Lemma sub_digits_ok l l' : Forall digit l -> Forall digit l' -> length l = length l' ->
  let '(r, c) := sub_digits l l' in
  Forall digit r /\ length r = length l /\ 0 <= c <= 1 /\ dval r - c * FBASE ^ Z.of_nat (length l) = dval l - dval l'.
Proof.
  intros Hl. revert l'. induction Hl as [|d l Hd Hl IH]; intros l' Hl' Hlen.
  - destruct l'; [|discriminate]. cbn. split_and!; auto; try lia; by constructor.
  - destruct Hl' as [|d' l' Hd' Hl']; [discriminate|]. injection Hlen as Hlen. cbn [sub_digits].
    specialize (IH l' Hl' Hlen). destruct (sub_digits l l') as [r c]. destruct IH as (H1 & H2 & H3 & H4). unfold digit in *.
    cbn [length]. rewrite base_S.
    destruct (Z.ltb_spec (d - d' - c) 0); (split; [constructor; [unfold FBASE in *; lia|exact H1]|]); (split; [cbn; lia|]); (split; [lia|]);
      cbn [dval]; rewrite H2, <- Hlen; nia.
Qed.

Definition threshold (too_small : Z -> bool) : Prop := forall a b, a <= b -> too_small b = true -> too_small a = true.

Lemma normalise_ok too_small l : threshold too_small -> forall j e, Forall digit l -> dval l <> 0 -> too_small e = false ->
  exists k d l', l = replicate k 0 ++ d :: l' /\ d <> 0 /\
    normalise too_small l (replicate j 0) e =
      if too_small (e - Z.of_nat k) then Throw EXP2BIG else Ok (d :: l' ++ replicate (j + k) 0, e - Z.of_nat k).
Proof.
  intros Ht. induction l as [|d l IH]; intros j e Hl Hv He; [done|]. inversion Hl as [|? ? Hd Hl']; subst. cbn [normalise].
  destruct (Z.eqb_spec d 0) as [->|Hne].
  - cbn [dval] in Hv. assert (dval l <> 0) as Hv' by lia. destruct (too_small (e - 1)) eqn:E1.
    + assert (exists k d l', l = replicate k 0 ++ d :: l' /\ d <> 0) as (k & d & l' & -> & Hd').
      { clear -Hl' Hv'. induction l as [|d l IH]; [done|]. inversion Hl'; subst. destruct (decide (d = 0)) as [->|]; [|by exists 0%nat, d, l].
        destruct IH as (k & d & l' & -> & ?); auto. by exists (S k), d, l'. }
      exists (S k), d, l'. split_and!; auto. by rewrite (Ht _ (e - 1)) by (auto; lia).
    + destruct (IH (S j) (e - 1) Hl' Hv' E1) as (k & d & l' & -> & Hd' & E).
      exists (S k), d, l'. cbn [replicate] in E. rewrite E. split_and!; auto. replace (e - Z.of_nat (S k)) with (e - 1 - Z.of_nat k) by lia.
      by replace (S j + k)%nat with (j + S k)%nat by lia.
  - exists 0%nat, d, l. rewrite Nat.add_0_r, Z.sub_0_r, He. by split_and!.
Qed.

(** ** The reference *)

(** The number [n * FBASE ^ e], rounded to eight digits, and a half away from
    zero. *)
Definition num_digits (a : Z) : Z := Z.log2 a / FBITS + 1.

Definition rounded (n e : Z) : flt :=
  if n =? 0 then flt_zero
  else
    let a := Z.abs n in
    let k := num_digits a in
    let unit := FBASE ^ (k - Z.of_nat MANT_SIZE) in
    let q := if k <=? Z.of_nat MANT_SIZE then a * FBASE ^ (Z.of_nat MANT_SIZE - k) else (a + unit / 2) / unit in
    if q =? FBASE ^ Z.of_nat MANT_SIZE then Flt (1 :: replicate (MANT_SIZE - 1) 0) (Z.sgn n) (e + k)
    else Flt (digits MANT_SIZE q) (Z.sgn n) (e + k - 1).

(** A number as the functions expect it. *)
Record legal (f : flt) : Prop := {
  lg_length : length (mant f) = MANT_SIZE;
  lg_digits : Forall digit (mant f);
  lg_cases : f = flt_zero \/ (f_sign f = 1 \/ f_sign f = -1) /\ nth 0 (mant f) 0 <> 0
}.

(** Its value is [num f * FBASE ^ (f_exp f - 7)]. *)
Definition num (f : flt) : Z := f_sign f * dval (mant f).

Lemma num_digits_ok a k : 0 < a -> FBASE ^ (k - 1) <= a < FBASE ^ k -> 0 < k -> num_digits a = k.
Proof.
  intros Ha [H1 H2] Hk. unfold num_digits, FBITS. change FBASE with (2 ^ 16) in *. rewrite <- !Z.pow_mul_r in * by lia.
  apply Z.log2_le_pow2 in H1; [|exact Ha]. apply Z.log2_lt_pow2 in H2; [|exact Ha].
  assert (Z.log2 a / 16 = k - 1) as ->; [|lia]. symmetry. apply (Z.div_unique _ _ _ (Z.log2 a - 16 * (k - 1))); [left|]; lia.
Qed.

Lemma digits_of_head d l : Forall digit (d :: l) -> d <> 0 -> num_digits (dval (d :: l)) = Z.of_nat (S (length l)).
Proof.
  intros Hl Hd. pose proof (dval_bound _ Hl) as Hb. inversion Hl as [|? ? Hd' Hl']; subst. pose proof (head_bound d l Hd' Hd Hl') as Hh. pose proof (base_pos (length l)).
  apply num_digits_ok; [lia| |lia]. replace (Z.of_nat (S (length l)) - 1) with (Z.of_nat (length l)) by lia. cbn [length] in Hb. lia.
Qed.

(** *** Rounding a double number *)

(** Half a unit is added before the division when the rest is a half or more. *)
Lemma div_half a j : let u := FBASE ^ Z.of_nat (S j) in (a + u / 2) / u = a / u + (if u / 2 <=? a mod u then 1 else 0).
Proof.
  intros u. assert (0 < u) as Hu by apply base_pos.
  assert (u = 2 * (u / 2)) as Hu2 by (unfold u; rewrite base_half, base_S; change (FBASE / 2) with 32768; unfold FBASE; lia).
  pose proof (Z.div_mod a u ltac:(lia)) as Hdm. pose proof (Z.mod_pos_bound a u Hu) as Hm.
  symmetry. destruct (Z.leb_spec (u / 2) (a mod u)).
  - apply (Z.div_unique _ _ _ (a mod u + u / 2 - u)); [left|]; lia.
  - apply (Z.div_unique _ _ _ (a mod u + u / 2)); [left|]; lia.
Qed.

(** Whether it is shows in the first digit of the rest. *)
Lemma half_digit x r : Forall digit (x :: r) -> (FBASE / 2 <=? x) = (FBASE ^ Z.of_nat (S (length r)) / 2 <=? dval (x :: r)).
Proof.
  intros H. inversion H as [|? ? Hx Hr]; subst. pose proof (dval_bound r Hr) as Hb. pose proof (base_pos (length r)). rewrite base_half. change (FBASE / 2) with 32768.
  cbn [dval]. apply Bool.eq_iff_eq_true. rewrite !Z.leb_le. nia.
Qed.

(** The rest after some digits. *)
Lemma drop_val n l : Forall digit l -> (n <= length l)%nat -> dval l mod FBASE ^ Z.of_nat (length l - n) = dval (drop n l).
Proof.
  intros Hl Hn. pose proof (dval_bound (drop n l) (Forall_drop _ n _ Hl)) as Hd. rewrite length_drop in Hd.
  rewrite <- (take_drop n l) at 1. rewrite dval_app, length_drop, Z.add_comm, Z.mod_add by (pose proof (base_pos (length l - n)); lia). by apply Z.mod_small.
Qed.

Lemma rounded_split a s e j : s = 1 \/ s = -1 -> 0 < a -> num_digits a = Z.of_nat (MANT_SIZE + S j) ->
  rounded (s * a) e =
    let q := a / FBASE ^ Z.of_nat (S j) + (if FBASE ^ Z.of_nat (S j) / 2 <=? a mod FBASE ^ Z.of_nat (S j) then 1 else 0) in
    if q =? FBASE ^ Z.of_nat MANT_SIZE then Flt (1 :: replicate (MANT_SIZE - 1) 0) s (e + Z.of_nat (MANT_SIZE + S j))
    else Flt (digits MANT_SIZE q) s (e + Z.of_nat (MANT_SIZE + S j) - 1).
Proof.
  intros Hs Ha Hk. unfold rounded. assert (s * a <> 0) as Hn by lia. apply Z.eqb_neq in Hn. rewrite Hn.
  assert (Z.abs (s * a) = a) as -> by lia. assert (Z.sgn (s * a) = s) as -> by (destruct Hs; subst; lia).
  rewrite Hk. replace (Z.of_nat (MANT_SIZE + S j) - Z.of_nat MANT_SIZE) with (Z.of_nat (S j)) by lia.
  assert ((Z.of_nat (MANT_SIZE + S j) <=? Z.of_nat MANT_SIZE) = false) as -> by (apply Z.leb_gt; lia).
  assert ((a + FBASE ^ Z.of_nat (S j) / 2) / FBASE ^ Z.of_nat (S j) =
    a / FBASE ^ Z.of_nat (S j) + (if FBASE ^ Z.of_nat (S j) / 2 <=? a mod FBASE ^ Z.of_nat (S j) then 1 else 0)) as ->; [|reflexivity].
  apply div_half.
Qed.

Lemma flt_int_round_ok l s e d : Forall digit l -> length l = MANT_SIZE ->
  flt_int_round (Flt l s e) d =
    let q := dval l + (if FBASE / 2 <=? d then 1 else 0) in
    if q =? FBASE ^ Z.of_nat MANT_SIZE then Flt (1 :: replicate (MANT_SIZE - 1) 0) s (e + 1) else Flt (digits MANT_SIZE q) s e.
Proof.
  intros Hl Hn. unfold flt_int_round, rounds_up, round_type. cbn [mant f_sign f_exp]. rewrite Z.leb_antisym.
  pose proof (dval_bound l Hl) as Hb. rewrite Hn in Hb. destruct (d <? FBASE / 2); cbn [negb].
  - assert ((dval l + 0 =? FBASE ^ Z.of_nat MANT_SIZE) = false) as -> by (apply Z.eqb_neq; lia).
    f_equal. apply digits_eq; auto. lia.
  - pose proof (add_carry_ok l 1 Hl ltac:(unfold FBASE; lia)) as Ha. destruct (add_carry l 1) as [r c]. destruct Ha as (H1 & H2 & H3 & H4).
    rewrite Hn in *. pose proof (dval_bound r H1) as Hr. rewrite H2 in Hr. pose proof (base_pos MANT_SIZE).
    destruct (Z.eqb_spec c 0) as [->|Hc].
    + assert ((dval l + 1 =? FBASE ^ Z.of_nat MANT_SIZE) = false) as -> by (apply Z.eqb_neq; lia).
      f_equal. apply digits_eq; auto. lia.
    + assert ((dval l + 1 =? FBASE ^ Z.of_nat MANT_SIZE) = true) as -> by (apply Z.eqb_eq; nia). reflexivity.
Qed.

(** Digits after the ninth do not matter. *)
Lemma dbl2float_ok l s e j : s = 1 \/ s = -1 -> Forall digit l -> length l = (MANT_SIZE + S j)%nat -> nth 0 l 0 <> 0 ->
  dbl2float (Dbl l s e) = rounded (s * dval l) (e + 1 - Z.of_nat (MANT_SIZE + S j)).
Proof.
  intros Hs Hl Hn H0.
  assert (num_digits (dval l) = Z.of_nat (MANT_SIZE + S j)) as Hk.
  { destruct l as [|d l]; [discriminate|]. rewrite digits_of_head by auto. f_equal. exact Hn. }
  assert (0 < dval l) as Hpos.
  { destruct l as [|d l]; [discriminate|]. inversion Hl; subst. pose proof (head_bound d l ltac:(assumption) H0 ltac:(assumption)). pose proof (base_pos (length l)). lia. }
  rewrite (rounded_split _ s _ j) by auto. unfold dbl2float. cbn [d_mant d_sign d_exp].
  rewrite flt_int_round_ok; [|by apply Forall_take|rewrite length_take; lia].
  rewrite take_val by (auto; lia). replace (length l - MANT_SIZE)%nat with (S j) by lia. cbv zeta.
  assert ((FBASE / 2 <=? nth MANT_SIZE l 0) = (FBASE ^ Z.of_nat (S j) / 2 <=? dval l mod FBASE ^ Z.of_nat (S j))) as ->.
  { replace (S j) with (length l - MANT_SIZE)%nat by lia. rewrite drop_val by (auto; lia). destruct (drop MANT_SIZE l) as [|x r] eqn:E.
    { apply (f_equal length) in E. rewrite length_drop in E. cbn in E. lia. }
    assert (nth MANT_SIZE l 0 = x) as ->.
    { rewrite <- (take_drop MANT_SIZE l), E, app_nth2; rewrite length_take; [|lia]. by replace (MANT_SIZE - MANT_SIZE `min` length l)%nat with 0%nat by lia. }
    rewrite (half_digit x r) by (rewrite <- E; by apply Forall_drop). do 4 f_equal. apply (f_equal length) in E. rewrite length_drop in E. cbn in E. lia. }
  repeat case_match; f_equal; lia.
Qed.

(** *** The reference does not depend on the way a number is written *)

Lemma num_digits_scale a j : 0 < a -> num_digits (a * FBASE ^ Z.of_nat j) = num_digits a + Z.of_nat j.
Proof.
  intros Ha. unfold num_digits, FBITS. change FBASE with (2 ^ 16). rewrite <- Z.pow_mul_r by lia. rewrite Z.log2_mul_pow2 by lia.
  rewrite (Z.mul_comm 16), Z.add_comm, Z.div_add_l by lia. lia.
Qed.

Lemma num_digits_pos a : 0 < num_digits a.
Proof. unfold num_digits, FBITS. pose proof (Z.div_pos (Z.log2 a) 16 (Z.log2_nonneg a)). lia. Qed.

Lemma div_round x u : 0 < u -> (x * u + u / 2) / u = x.
Proof. intros Hu. rewrite Z.div_add_l by lia. rewrite Z.div_small; [lia|]. split; [apply Z.div_pos; lia|apply Z.div_lt_upper_bound; lia]. Qed.

Lemma rounded_scale n e j : rounded (n * FBASE ^ Z.of_nat j) e = rounded n (e + Z.of_nat j).
Proof.
  unfold rounded. pose proof (base_pos j) as Hj. destruct (Z.eqb_spec n 0) as [->|Hn]; [reflexivity|].
  assert ((n * FBASE ^ Z.of_nat j =? 0) = false) as -> by (apply Z.eqb_neq; nia).
  rewrite Z.abs_mul, (Z.abs_eq (FBASE ^ _)) by lia. rewrite Z.sgn_mul, (Z.sgn_pos (FBASE ^ _)), Z.mul_1_r by lia.
  rewrite num_digits_scale by lia. set (a := Z.abs n) in *. assert (0 < a) as Ha by (unfold a; lia).
  pose proof (num_digits_pos a) as Hk. set (k := num_digits a) in *. set (m := Z.of_nat MANT_SIZE).
  assert ((if k + Z.of_nat j <=? m then a * FBASE ^ Z.of_nat j * FBASE ^ (m - (k + Z.of_nat j))
    else (a * FBASE ^ Z.of_nat j + FBASE ^ (k + Z.of_nat j - m) / 2) / FBASE ^ (k + Z.of_nat j - m)) =
    (if k <=? m then a * FBASE ^ (m - k) else (a + FBASE ^ (k - m) / 2) / FBASE ^ (k - m))) as ->; [|repeat case_match; f_equal; lia].
  destruct (Z.leb_spec (k + Z.of_nat j) m) as [H1|H1]; destruct (Z.leb_spec k m) as [H2|H2]; try lia.
  - rewrite <- Z.mul_assoc, <- Z.pow_add_r by lia. do 2 f_equal. lia.
  - replace (a * FBASE ^ Z.of_nat j) with (a * FBASE ^ (m - k) * FBASE ^ (k + Z.of_nat j - m)).
    + apply div_round. apply Z.pow_pos_nonneg; unfold FBASE; lia.
    + rewrite <- Z.mul_assoc, <- Z.pow_add_r by lia. do 2 f_equal. lia.
  - assert (FBASE ^ (k + Z.of_nat j - m) = FBASE ^ (k - m) * FBASE ^ Z.of_nat j) as -> by (rewrite <- Z.pow_add_r by lia; f_equal; lia).
    assert (FBASE ^ (k - m) * FBASE ^ Z.of_nat j / 2 = FBASE ^ (k - m) / 2 * FBASE ^ Z.of_nat j) as ->.
    { replace (k - m) with (Z.of_nat (S (Z.to_nat (k - m - 1)))) by lia. rewrite base_half, base_S. change (FBASE / 2) with 32768.
      set (x := FBASE ^ Z.of_nat (Z.to_nat (k - m - 1))). replace (FBASE * x * FBASE ^ Z.of_nat j) with (32768 * x * FBASE ^ Z.of_nat j * 2) by (unfold FBASE; ring).
      apply Z.div_mul. lia. }
    rewrite <- Z.mul_add_distr_r. apply Z.div_mul_cancel_r; [|lia]. apply Z.pow_nonzero; unfold FBASE; lia.
Qed.

(** A number that needs no rounding is its own reference. *)
Lemma rounded_self f : legal f -> rounded (num f) (f_exp f - 7) = f.
Proof.
  intros [Hn Hl [->|[Hs H0]]]; [reflexivity|]. unfold num. destruct f as [l s e]. cbn [mant f_sign f_exp] in *.
  assert (num_digits (dval l) = 8) as Hk.
  { destruct l as [|d l]; [discriminate|]. rewrite digits_of_head by auto. unfold MANT_SIZE in Hn. cbn [length] in Hn. lia. }
  pose proof (dval_bound l Hl) as Hb. rewrite Hn in Hb.
  assert (0 < dval l) as Hpos.
  { destruct (Z.eq_dec (dval l) 0) as [E|]; [rewrite E in Hk; discriminate|lia]. }
  unfold rounded. assert ((s * dval l =? 0) = false) as -> by (apply Z.eqb_neq; lia).
  assert (Z.abs (s * dval l) = dval l) as -> by lia. assert (Z.sgn (s * dval l) = s) as -> by (destruct Hs; subst; lia).
  rewrite Hk. change (8 <=? Z.of_nat MANT_SIZE) with true. cbn iota. change (Z.of_nat MANT_SIZE - 8) with 0. rewrite Z.pow_0_r, Z.mul_1_r.
  assert ((dval l =? FBASE ^ Z.of_nat MANT_SIZE) = false) as -> by (apply Z.eqb_neq; lia).
  f_equal; [symmetry; by apply digits_eq|lia].
Qed.

(** Normalising and rounding sixteen digits. *)
Lemma normalise_rounded too_small l s e : threshold too_small -> too_small e = false -> s = 1 \/ s = -1 ->
  Forall digit l -> length l = (2 * MANT_SIZE)%nat -> dval l <> 0 ->
  match normalise too_small l [] e with Ok (l, e) => Ok (dbl2float (Dbl l s e)) | Throw t => Throw t end =
    if too_small (e - 16 + num_digits (dval l)) then Throw EXP2BIG else Ok (rounded (s * dval l) (e - 15)).
Proof.
  intros Ht He Hs Hl Hn Hv. destruct (normalise_ok too_small l Ht 0 e Hl Hv He) as (k & d & l' & -> & Hd & E). cbn [replicate] in E. rewrite E.
  apply Forall_app in Hl as [_ Hl]. rewrite length_app, length_replicate in Hn. cbn [length] in Hn. unfold MANT_SIZE in Hn.
  rewrite !dval_app, dval_zeros, Z.mul_0_l, Z.add_0_l. rewrite digits_of_head by auto.
  replace (e - 16 + Z.of_nat (S (length l'))) with (e - Z.of_nat k) by lia.
  destruct (too_small (e - Z.of_nat k)); [reflexivity|]. f_equal.
  rewrite (dbl2float_ok _ _ _ 7); [|exact Hs| | |exact Hd].
  - rewrite app_comm_cons, dval_app, dval_zeros, Z.add_0_r, length_replicate. cbn [Nat.add]. rewrite Z.mul_assoc, rounded_scale.
    f_equal. unfold MANT_SIZE. lia.
  - inversion Hl; subst. constructor; [done|]. apply Forall_app. split; [done|apply zeros_digits].
  - cbn [length]. rewrite length_app, length_replicate. unfold MANT_SIZE. lia.
Qed.

(** ** Decisions *)

#[export] Instance flt_eq_dec : EqDecision flt.
Proof. solve_decision. Defined.

#[export] Instance legal_dec f : Decision (legal f).
Proof.
  refine (cast_if (decide (length (mant f) = MANT_SIZE /\ Forall digit (mant f) /\
    (f = flt_zero \/ (f_sign f = 1 \/ f_sign f = -1) /\ nth 0 (mant f) 0 <> 0)))).
  - abstract (destruct_and!; by split).
  - abstract (intros [H1 H2 H3]; auto).
Defined.
