(* ===== verification/TransFlptArith.v ===== *)
(** * TransFlptArith: the results of the arithmetic of the installers

    What [flt_mul], [flt_add], [flt_cmp] and [flt_round]
    (trans/src/common/flpt/flpt.c) return, for all legal numbers: the exact
    result, rounded to eight digits, or the status EXP2BIG. *)
From stdpp Require Import base list list_numbers numbers.
From Stdlib Require Import ZArith Lia.
From S2P Require Import Prelude TransFlpt TransFlptSpec.

Lemma nth_digit k l : Forall digit l -> digit (nth k l 0).
Proof.
  intros Hl. revert k. induction Hl as [|d l Hd Hl IH]; intros [|k]; cbn [nth]; auto; unfold digit, FBASE; lia.
Qed.

Lemma dval_insert k x l : (k < length l)%nat ->
  dval (<[k := x]> l) = dval l + (x - nth k l 0) * FBASE ^ Z.of_nat (length l - 1 - k).
Proof.
  revert k. induction l as [|d l IH]; intros [|k] Hk; cbn in Hk; try lia.
  - cbn [insert list_insert dval nth length]. replace (S (length l) - 1 - 0)%nat with (length l) by lia. ring.
  - change (<[S k := x]> (d :: l)) with (d :: <[k := x]> l). cbn [dval nth]. rewrite IH by lia. rewrite length_insert.
    cbn [length]. replace (S (length l) - 1 - S k)%nat with (length l - 1 - k)%nat by lia. ring.
Qed.

(** ** Multiplication *)

Lemma acc_add_ok k : forall temp acc, Forall digit acc -> (k < length acc)%nat -> 0 <= temp < 2 ^ 32 ->
  dval acc + temp * FBASE ^ Z.of_nat (length acc - 1 - k) < FBASE ^ Z.of_nat (length acc) ->
  exists acc', acc_add k temp acc = Some acc' /\ Forall digit acc' /\ length acc' = length acc /\
    dval acc' = dval acc + temp * FBASE ^ Z.of_nat (length acc - 1 - k).
Proof.
  induction k as [|k IH]; intros temp acc Hacc Hk Ht Hb; cbn [acc_add].
  all: destruct (Z.eqb_spec temp 0) as [->|Hne]; [exists acc; split_and!; auto; lia|].
  all: change 65535 with (Z.ones 16); rewrite !Z.land_ones, !Z.shiftr_div_pow2 by lia; change (2 ^ 16) with FBASE.
  all: set (w := FBASE ^ Z.of_nat (length acc - 1 - _)) in *; assert (0 < w) as Hw by apply base_pos.
  all: match goal with |- context [nth ?j ?l 0] => pose proof (nth_digit j l Hacc) as Ha; set (a := nth j l 0) in * end.
  all: set (atl := a + temp mod FBASE); set (c := atl / FBASE + temp / FBASE).
  all: pose proof (Z.div_mod temp FBASE ltac:(discriminate)) as Hdt; pose proof (Z.mod_pos_bound temp FBASE ltac:(reflexivity)) as Hmt.
  all: pose proof (Z.div_mod atl FBASE ltac:(discriminate)) as Hda; pose proof (Z.mod_pos_bound atl FBASE ltac:(reflexivity)) as Hma.
  all: unfold digit in Ha; assert (0 <= c <= FBASE) as Hc by (unfold c, atl, FBASE in *; lia).
  all: assert (a + temp = atl mod FBASE + FBASE * c) as Hsum by (unfold c; lia).
  all: assert (u32 c = c) as -> by (apply u32_small; unfold FBASE in *; lia).
  all: match goal with |- context [<[?j := ?x]> ?l] => set (acc1 := <[j := x]> l);
    assert (Forall digit acc1) as H1 by (apply Forall_insert; auto);
    assert (length acc1 = length l) as H2 by apply length_insert;
    assert (dval acc1 = dval l + (x - a) * w) as H3 by (apply dval_insert; lia) end.
  - assert (c = 0) as Hc0.
    { assert (dval acc = a * w + dval (drop 1 acc)) as E.
      { unfold a, w. destruct acc as [|d acc]; [cbn in Hk; lia|]. cbn [dval nth drop length]. by replace (S (length acc) - 1 - 0)%nat with (length acc) by lia. }
      pose proof (dval_bound _ (Forall_drop _ 1 _ Hacc)) as Hd.
      assert (FBASE ^ Z.of_nat (length acc) = FBASE * w) as Ew.
      { unfold w. rewrite <- base_S. f_equal. lia. }
      assert (a + temp < FBASE) by nia. unfold FBASE in *. lia. }
    rewrite Hc0 in *. cbn. exists acc1. split_and!; auto. rewrite H3. lia.
  - assert (FBASE ^ Z.of_nat (length acc - 1 - k) = FBASE * w) as Ew.
    { unfold w. rewrite <- base_S. f_equal. lia. }
    assert (dval acc1 + c * (FBASE * w) = dval acc + temp * w) as Htot.
    { rewrite H3. replace temp with (atl mod FBASE + FBASE * c - a) by lia. ring. }
    destruct (IH c acc1) as (acc' & E & H4 & H5 & H6); auto.
    + lia.
    + unfold FBASE in *. lia.
    + rewrite H2, Ew, Htot. exact Hb.
    + exists acc'. split_and!; auto; [congruence|]. rewrite H6, H2, Ew. exact Htot.
Qed.

Definition term (l1 l2 : list Z) (p : nat * nat) : Z := nth p.1 l1 0 * nth p.2 l2 0 * FBASE ^ Z.of_nat (14 - p.1 - p.2).

Definition terms (l1 l2 : list Z) (ps : list (nat * nat)) : Z := foldr (fun p t => term l1 l2 p + t) 0 ps.

Lemma terms_nonneg l1 l2 ps : Forall digit l1 -> Forall digit l2 -> 0 <= terms l1 l2 ps.
Proof.
  intros H1 H2. induction ps as [|p ps IH]; cbn [terms foldr]; [lia|]. fold (terms l1 l2 ps). unfold term.
  pose proof (nth_digit p.1 l1 H1) as Ha. pose proof (nth_digit p.2 l2 H2) as Hb. unfold digit in *. pose proof (base_pos (14 - p.1 - p.2)). nia.
Qed.

Lemma mul_fold l1 l2 ps : Forall digit l1 -> Forall digit l2 -> Forall (fun p => p.1 < MANT_SIZE /\ p.2 < MANT_SIZE)%nat ps ->
  forall acc, Forall digit acc -> length acc = (2 * MANT_SIZE)%nat -> dval acc + terms l1 l2 ps < FBASE ^ Z.of_nat (2 * MANT_SIZE) ->
  exists acc', foldl (fun acc '(i, j) => acc ← acc; acc_add (i + j + 1) (u32 (nth i l1 0 * nth j l2 0)) acc) (Some acc) ps = Some acc' /\
    Forall digit acc' /\ length acc' = (2 * MANT_SIZE)%nat /\ dval acc' = dval acc + terms l1 l2 ps.
Proof.
  intros H1 H2. induction 1 as [|[i j] ps [Hi Hj] Hps IH]; intros acc Hacc Hn Hb; cbn [terms foldr] in *.
  { exists acc. split_and!; auto. lia. }
  fold (terms l1 l2 ps) in *. cbn [fst snd] in Hi, Hj. unfold MANT_SIZE in Hi, Hj.
  pose proof (nth_digit i l1 H1) as Ha. pose proof (nth_digit j l2 H2) as Hc. unfold digit, FBASE in Ha, Hc.
  pose proof (terms_nonneg l1 l2 ps H1 H2) as Hpos.
  assert (u32 (nth i l1 0 * nth j l2 0) = nth i l1 0 * nth j l2 0) as Hu by (apply u32_small; nia).
  assert (nth i l1 0 * nth j l2 0 * FBASE ^ Z.of_nat (length acc - 1 - (i + j + 1)) = term l1 l2 (i, j)) as Et.
  { unfold term. cbn [fst snd]. rewrite Hn. unfold MANT_SIZE. do 3 f_equal. lia. }
  cbn [foldl mbind option_bind]. rewrite Hu.
  destruct (acc_add_ok (i + j + 1) (nth i l1 0 * nth j l2 0) acc) as (acc1 & -> & H3 & H4 & H5); [exact Hacc|rewrite Hn; unfold MANT_SIZE; lia|nia| |].
  { rewrite Et, Hn. lia. }
  destruct (IH acc1) as (acc' & -> & H6 & H7 & H8); [exact H3|congruence|rewrite H5, Et; lia|].
  exists acc'. split_and!; auto. rewrite H8, H5, Et. lia.
Qed.

(** The sum of the products of digits is the product. *)
Lemma terms_product l1 l2 : length l1 = MANT_SIZE -> length l2 = MANT_SIZE -> terms l1 l2 digit_pairs = dval l1 * dval l2.
Proof.
  intros H1 H2. do 9 (destruct l1 as [|? l1]; try discriminate). do 9 (destruct l2 as [|? l2]; try discriminate).
  cbn -[Z.pow Z.mul Z.add FBASE term]. unfold term. cbn [nth fst snd Nat.sub]. rewrite !base_S. change (FBASE ^ Z.of_nat 0) with 1. ring.
Qed.

Lemma mul_digits_ok l1 l2 : Forall digit l1 -> Forall digit l2 -> length l1 = MANT_SIZE -> length l2 = MANT_SIZE ->
  exists acc, mul_digits l1 l2 = Some acc /\ Forall digit acc /\ length acc = (2 * MANT_SIZE)%nat /\ dval acc = dval l1 * dval l2.
Proof.
  intros H1 H2 Hn1 Hn2. pose proof (dval_bound l1 H1) as Hb1. pose proof (dval_bound l2 H2) as Hb2. rewrite Hn1 in Hb1. rewrite Hn2 in Hb2.
  unfold mul_digits. destruct (mul_fold l1 l2 digit_pairs H1 H2 ltac:(apply (bool_decide_unpack _); vm_compute; exact I)
    (replicate (2 * MANT_SIZE) 0) (zeros_digits _) (length_replicate _ _)) as (acc & E & H3 & H4 & H5).
  - rewrite dval_zeros, terms_product by auto. change (2 * MANT_SIZE)%nat with (MANT_SIZE + MANT_SIZE)%nat. rewrite base_add. nia.
  - exists acc. split_and!; auto. by rewrite H5, dval_zeros, terms_product.
Qed.

(** The exponent of a number that is not zero, once normalised. *)
Definition exponent (n e : Z) : Z := e + num_digits (Z.abs n) - 1.

Lemma legal_num f : legal f -> f_sign f <> 0 ->
  (f_sign f = 1 \/ f_sign f = -1) /\ nth 0 (mant f) 0 <> 0 /\ FBASE ^ 7 <= dval (mant f) < FBASE ^ 8.
Proof.
  intros [Hn Hl [->|[Hs H0]]] H; [done|]. split_and!; auto.
  - destruct (mant f) as [|d l]; [discriminate|]. inversion Hl; subst. pose proof (head_bound d l ltac:(assumption) H0 ltac:(assumption)) as Hh.
    unfold MANT_SIZE in Hn. cbn [length] in Hn. by replace (Z.of_nat (length l)) with 7 in Hh by lia.
  - pose proof (dval_bound _ Hl) as Hb. rewrite Hn in Hb. apply Hb.
Qed.

Lemma signed s p : s = 1 \/ s = -1 -> 0 < p -> (s * p =? 0) = false /\ Z.abs (s * p) = p.
Proof. intros Hs Hp. split; [apply Z.eqb_neq; lia|lia]. Qed.

Lemma flt_mul_ok LONG_MAX f1 f2 : legal f1 -> legal f2 ->
  let n := num f1 * num f2 in
  let e := f_exp f1 + f_exp f2 in
  flt_mul LONG_MAX f1 f2 =
    if n =? 0 then Some (Ok flt_zero)
    else if negb (int_ok e && int_ok (e + 1)) then None
    else Some (
      if (E_MAX LONG_MAX <=? e + 1) || (exponent n (e - 14) <=? E_MIN) then Throw EXP2BIG
      else Ok (rounded n (e - 14))).
Proof.
  intros L1 L2. cbv zeta. unfold flt_mul, num. destruct (Z.eqb_spec (f_sign f1) 0) as [->|Hs1]; [reflexivity|].
  destruct (Z.eqb_spec (f_sign f2) 0) as [->|Hs2]; [by rewrite Z.mul_0_r|]. cbn [orb].
  destruct (legal_num f1 L1 Hs1) as (S1 & _ & B1). destruct (legal_num f2 L2 Hs2) as (S2 & _ & B2).
  destruct (mul_digits_ok _ _ (lg_digits _ L1) (lg_digits _ L2) (lg_length _ L1) (lg_length _ L2)) as (acc & E & H3 & H4 & H5).
  set (s := if f_sign f1 =? f_sign f2 then 1 else -1). set (p := dval (mant f1) * dval (mant f2)) in *.
  assert (FBASE ^ 14 <= p < FBASE ^ 16) as Hp.
  { change 14 with (7 + 7). change 16 with (8 + 8). rewrite !Z.pow_add_r by lia. unfold p. pose proof (base_pos 7) as H7. change (Z.of_nat 7) with 7 in H7. nia. }
  pose proof (base_pos 14) as Hb. change (Z.of_nat 14) with 14 in Hb.
  assert (s = 1 \/ s = -1) as Hs by (unfold s; case_match; auto).
  assert (f_sign f1 * dval (mant f1) * (f_sign f2 * dval (mant f2)) = s * p) as ->.
  { unfold s, p. destruct S1 as [-> | ->], S2 as [-> | ->]; cbn [Z.eqb Pos.eqb]; ring. }
  assert (0 < p) as Hp0 by (eapply Z.lt_le_trans; [exact Hb|apply Hp]).
  destruct (signed s p Hs Hp0) as [-> Ea]. unfold exponent. rewrite Ea.
  assert (num_digits p = 15 \/ num_digits p = 16) as Hk.
  { destruct (Z_lt_le_dec p (FBASE ^ 15)); [left|right]; (apply num_digits_ok; [exact Hp0| |reflexivity]).
    - change (15 - 1) with 14. split; [apply Hp|assumption].
    - change (16 - 1) with 15. split; [assumption|apply Hp]. }
  clear Hp Hb B1 B2. destruct (negb _); [reflexivity|].
  destruct (Z.leb_spec (E_MAX LONG_MAX) (f_exp f1 + f_exp f2 + 1)) as [He|He]; [reflexivity|]. cbn [orb].
  destruct (Z.leb_spec (f_exp f1 + f_exp f2 + 1) E_MIN) as [He'|He'].
  { assert ((f_exp f1 + f_exp f2 - 14 + num_digits p - 1 <=? E_MIN) = true) as -> by (apply Z.leb_le; lia). reflexivity. }
  rewrite E. cbn [mbind option_bind]. f_equal.
  rewrite normalise_rounded; auto; [|intros a b Hab Hle; lia|apply Z.leb_gt; lia|rewrite H5; fold p; lia].
  rewrite H5. fold p. replace (f_exp f1 + f_exp f2 + 1 - 16 + num_digits p) with (f_exp f1 + f_exp f2 - 14 + num_digits p - 1) by lia.
  by replace (f_exp f1 + f_exp f2 + 1 - 15) with (f_exp f1 + f_exp f2 - 14) by lia.
Qed.

(** ** Addition *)

(** What an addition with the exact result [n * FBASE ^ e] returns. *)
Definition sum_result (LONG_MAX n e : Z) : result flt_status flt :=
  if n =? 0 then Ok flt_zero
  else if (E_MAX LONG_MAX <=? exponent n e) || (exponent n e <? E_MIN) then Throw EXP2BIG
  else Ok (rounded n e).

Lemma sum_result_scale LONG_MAX n e j : sum_result LONG_MAX (n * FBASE ^ Z.of_nat j) e = sum_result LONG_MAX n (e + Z.of_nat j).
Proof.
  unfold sum_result, exponent. pose proof (base_pos j) as Hj. destruct (Z.eqb_spec n 0) as [->|Hn]; [reflexivity|].
  assert ((n * FBASE ^ Z.of_nat j =? 0) = false) as -> by (apply Z.eqb_neq; nia). rewrite rounded_scale, Z.abs_mul, (Z.abs_eq (FBASE ^ _)) by lia.
  rewrite num_digits_scale by lia. by replace (e + (num_digits (Z.abs n) + Z.of_nat j) - 1) with (e + Z.of_nat j + num_digits (Z.abs n) - 1) by lia.
Qed.

(** Sixteen digits, the sign and the exponent. *)
Record operand (d : dbl) (e : Z) : Prop := {
  op_length : length (d_mant d) = (2 * MANT_SIZE)%nat;
  op_digits : Forall digit (d_mant d);
  op_sign : d_sign d = 1 \/ d_sign d = -1;
  op_exp : d_exp d = e
}.

Definition dnum (d : dbl) : Z := d_sign d * dval (d_mant d).

Lemma dbl2float_app l x s e : (MANT_SIZE < length l)%nat -> dbl2float (Dbl (l ++ x) s e) = dbl2float (Dbl l s e).
Proof. intros Hl. unfold dbl2float. cbn [d_mant d_sign d_exp]. by rewrite take_app_le, app_nth1 by lia. Qed.

Lemma dbl2float_app_ok l x s e : s = 1 \/ s = -1 -> Forall digit l -> Forall digit x -> (MANT_SIZE < length l)%nat -> nth 0 l 0 <> 0 ->
  dbl2float (Dbl l s e) = rounded (s * (dval l * FBASE ^ Z.of_nat (length x) + dval x)) (e + 1 - Z.of_nat (length l + length x)).
Proof.
  intros Hs Hl Hx Hn H0. rewrite <- (dbl2float_app l x) by exact Hn.
  rewrite (dbl2float_ok _ _ _ (length l + length x - S MANT_SIZE)); [|exact Hs|by apply Forall_app|rewrite length_app; lia|by rewrite app_nth1 by lia].
  rewrite dval_app. f_equal. lia.
Qed.

Lemma num_digits_le a k : 0 < a -> a < FBASE ^ k -> 0 <= k -> num_digits a <= k.
Proof.
  intros Ha H Hk. unfold num_digits, FBITS. change FBASE with (2 ^ 16) in H. rewrite <- Z.pow_mul_r in H by lia. apply Z.log2_lt_pow2 in H; [|exact Ha].
  clear -H. pose proof (Z.div_lt_upper_bound (Z.log2 a) 16 k). lia.
Qed.

Lemma head_val l n : Forall digit l -> length l = S n -> nth 0 l 0 <> 0 <-> FBASE ^ Z.of_nat n <= dval l.
Proof.
  intros Hl Hn. destruct l as [|d l]; [discriminate|]. injection Hn as <-. inversion Hl; subst. cbn [nth]. split; [intros ?; by apply head_bound|].
  intros H ->. cbn [dval] in H. pose proof (dval_bound l ltac:(assumption)). lia.
Qed.

Lemma sub_ordered LONG_MAX a b s e : length a = (2 * MANT_SIZE)%nat -> length b = (2 * MANT_SIZE)%nat -> Forall digit a -> Forall digit b ->
  s = 1 \/ s = -1 -> dval b < dval a -> E_MIN <= e < E_MAX LONG_MAX ->
  match normalise (fun e => e <? E_MIN) (sub_digits a b).1 [] e with Ok (l, e) => Ok (dbl2float (Dbl l s e)) | Throw t => Throw t end =
    sum_result LONG_MAX (s * (dval a - dval b)) (e - 15).
Proof.
  intros Hna Hnb Ha Hb Hs Hlt He. pose proof (sub_digits_ok _ _ Ha Hb ltac:(congruence)) as Hsub.
  destruct (sub_digits a b) as [r c]. destruct Hsub as (H1 & H2 & H3 & H4). cbn [fst].
  pose proof (dval_bound _ Ha) as Hba. pose proof (dval_bound _ Hb) as Hbb. pose proof (dval_bound _ H1) as Hbr. rewrite H2 in Hbr.
  assert (c = 0) as -> by (assert (c = 0 \/ c = 1) as [|] by lia; [assumption|subst c; lia]). rewrite Z.mul_0_l, Z.sub_0_r in H4. rewrite <- H4.
  rewrite normalise_rounded; [|intros x y ?; rewrite !Z.ltb_lt; lia|apply Z.ltb_ge; lia|exact Hs|exact H1|congruence|lia].
  unfold sum_result, exponent. destruct (signed s (dval r) Hs ltac:(lia)) as [-> ->].
  assert (num_digits (dval r) <= 16) as Hk by (apply num_digits_le; [lia|rewrite Hna in Hbr; apply Hbr|lia]).
  clear Hba Hbb Hbr. assert ((E_MAX LONG_MAX <=? e - 15 + num_digits (dval r) - 1) = false) as -> by (apply Z.leb_gt; lia). cbn [orb].
  by replace (e - 15 + num_digits (dval r) - 1) with (e - 16 + num_digits (dval r)) by lia.
Qed.

Lemma sub_mantissas_ok LONG_MAX d1 d2 e : operand d1 e -> operand d2 e -> d_sign d1 = - d_sign d2 -> E_MIN <= e < E_MAX LONG_MAX ->
  sub_mantissas d1 d2 e = sum_result LONG_MAX (dnum d1 + dnum d2) (e - 15).
Proof.
  intros [Hn1 Hl1 Hs1 He1] [Hn2 Hl2 Hs2 He2] Hs He. unfold sub_mantissas, dbl_mag_cmp, magnitude_cmp, dnum. rewrite He1, He2, Z.eqb_refl.
  assert ((d_sign d1 =? 0) = false) as -> by (apply Z.eqb_neq; lia). assert ((d_sign d2 =? 0) = false) as -> by (apply Z.eqb_neq; lia).
  cbn [negb]. rewrite digits_cmp_val by (auto; congruence).
  destruct (Z.compare_spec (dval (d_mant d1)) (dval (d_mant d2))) as [E|Hlt|Hgt]; cbn [Z.eqb Pos.eqb].
  - rewrite E, Hs. unfold sum_result. by replace (- d_sign d2 * dval (d_mant d2) + d_sign d2 * dval (d_mant d2)) with 0 by ring.
  - rewrite (sub_ordered LONG_MAX) by auto. f_equal. rewrite Hs. ring.
  - rewrite (sub_ordered LONG_MAX) by auto. f_equal. rewrite Hs. ring.
Qed.

(** The digits of a sum and those that were dropped. *)
Lemma sum_result_digits LONG_MAX l x s e : s = 1 \/ s = -1 -> Forall digit l -> Forall digit x -> (MANT_SIZE < length l)%nat -> nth 0 l 0 <> 0 -> E_MIN <= e ->
  sum_result LONG_MAX (s * (dval l * FBASE ^ Z.of_nat (length x) + dval x)) (e + 1 - Z.of_nat (length l + length x)) =
    if E_MAX LONG_MAX <=? e then Throw EXP2BIG else Ok (dbl2float (Dbl l s e)).
Proof.
  intros Hs Hl Hx Hn H0 He. rewrite (dbl2float_app_ok l x) by auto. rewrite <- dval_app, <- length_app. unfold sum_result, exponent.
  destruct l as [|d l]; [cbn in Hn; lia|].
  assert (Forall digit ((d :: l) ++ x)) as Hlx by (by apply Forall_app). assert (num_digits (dval ((d :: l) ++ x)) = Z.of_nat (length ((d :: l) ++ x))) as Hk.
  { cbn [app] in Hlx |- *. by rewrite digits_of_head. }
  assert (0 < dval ((d :: l) ++ x)) as Hpos.
  { pose proof (dval_bound _ Hlx). destruct (Z.eq_dec (dval ((d :: l) ++ x)) 0) as [E|]; [|lia]. rewrite E, length_app in Hk. change (num_digits 0) with 1 in Hk. unfold MANT_SIZE in Hn. lia. }
  destruct (signed s _ Hs Hpos) as [-> ->]. rewrite Hk. replace (e + 1 - _ + _ - 1) with e by lia.
  assert ((e <? E_MIN) = false) as -> by (apply Z.ltb_ge; exact He). by rewrite orb_false_r.
Qed.

Lemma add_same_ok LONG_MAX d1 d2 e x : operand d1 e -> operand d2 e -> d_sign d1 = d_sign d2 -> E_MIN <= e < E_MAX LONG_MAX ->
  nth 0 (d_mant d1) 0 <> 0 \/ nth 0 (d_mant d2) 0 <> 0 -> Forall digit x ->
  add_mantissas LONG_MAX d1 d2 e =
    sum_result LONG_MAX ((dnum d1 + dnum d2) * FBASE ^ Z.of_nat (length x) + d_sign d1 * dval x) (e - 15 - Z.of_nat (length x)).
Proof.
  intros [Hn1 Hl1 Hs1 He1] [Hn2 Hl2 Hs2 He2] Hs He H0 Hx. unfold add_mantissas, dnum. rewrite <- Hs, Z.eqb_refl.
  pose proof (head_val _ 15 Hl1 Hn1) as Hh1. pose proof (head_val _ 15 Hl2 Hn2) as Hh2.
  set (s := d_sign d1) in *. set (l1 := d_mant d1) in *. set (l2 := d_mant d2) in *. set (u := FBASE ^ Z.of_nat (length x)).
  pose proof (add_digits_ok l1 l2 Hl1 Hl2 ltac:(congruence)) as Ha. destruct (add_digits l1 l2) as [r c]. destruct Ha as (H1 & H2 & H3 & H4).
  pose proof (proj1 (dval_bound l1 Hl1)) as Hb1. pose proof (proj1 (dval_bound l2 Hl2)) as Hb2.
  replace ((s * dval l1 + s * dval l2) * u + s * dval x) with (s * ((dval r + c * FBASE ^ Z.of_nat (length r)) * u + dval x)) by (rewrite H2, H4; ring).
  rewrite Hn1 in H2. destruct (Z.eqb_spec c 0) as [->|Hc].
  - rewrite Z.mul_0_l, Z.add_0_r in *. assert (nth 0 r 0 <> 0) as Hr.
    { apply (head_val _ 15 H1 H2). rewrite H4. destruct H0 as [H0|H0]; [apply Hh1 in H0|apply Hh2 in H0]; clear -H0 Hb1 Hb2; revert H0; generalize (FBASE ^ Z.of_nat 15); lia. }
    unfold u. replace (e - 15 - Z.of_nat (length x)) with (e + 1 - Z.of_nat (length r + length x)) by (rewrite H2; unfold MANT_SIZE; lia).
    rewrite sum_result_digits; [|exact Hs1|exact H1|exact Hx|rewrite H2; unfold MANT_SIZE; lia|exact Hr|lia].
    assert ((E_MAX LONG_MAX <=? e) = false) as -> by (apply Z.leb_gt; lia). reflexivity.
  - assert (c = 1) as -> by lia. replace (dval r + 1 * FBASE ^ Z.of_nat (length r)) with (dval (1 :: r)) by (cbn [dval]; ring).
    unfold u. replace (e - 15 - Z.of_nat (length x)) with (e + 1 + 1 - Z.of_nat (length (1 :: r) + length x)) by (cbn [length]; rewrite H2; unfold MANT_SIZE; lia).
    rewrite sum_result_digits; [|exact Hs1|constructor; [by vm_compute|exact H1]|exact Hx|cbn [length]; rewrite H2; unfold MANT_SIZE; lia|discriminate|lia].
    assert ((e + 1 <=? E_MIN) = false) as -> by (apply Z.leb_gt; lia). rewrite orb_false_r.
    destruct (E_MAX LONG_MAX <=? e + 1); [reflexivity|]. f_equal. rewrite <- (dbl2float_app _ (drop (2 * MANT_SIZE - 1) r)).
    + cbn [app]. by rewrite take_drop.
    + cbn [length]. rewrite length_take, H2. unfold MANT_SIZE. lia.
Qed.

(** The digits of a number that is shifted, with those that are dropped. *)
Definition shifted (f : flt) (n : nat) : list Z := replicate n 0 ++ mant f ++ replicate MANT_SIZE 0.

Lemma shift_right_eq f n : length (mant f) = MANT_SIZE ->
  shift_right (flt2double f) (Z.of_nat n) = Dbl (take (2 * MANT_SIZE) (shifted f n)) (f_sign f) (f_exp f + Z.of_nat n).
Proof.
  intros Hn. unfold shift_right, flt2double. cbn [d_mant d_sign d_exp]. f_equal. unfold shifted. set (l := mant f ++ replicate MANT_SIZE 0).
  assert (length l = (2 * MANT_SIZE)%nat) as Hl by (unfold l; rewrite length_app, length_replicate, Hn; unfold MANT_SIZE; lia).
  apply (nth_ext _ _ 0 0).
  - rewrite length_fmap, length_seq, length_take, length_app, length_replicate, Hl. unfold MANT_SIZE. lia.
  - rewrite length_fmap, length_seq. intros i Hi. rewrite !nth_lookup, list_lookup_fmap, lookup_seq_lt by exact Hi. cbn [fmap option_fmap option_map default].
    rewrite lookup_take_lt by exact Hi. rewrite Nat2Z.id. destruct (Z.ltb_spec (Z.of_nat (0 + i)) (Z.of_nat n)).
    + rewrite lookup_app_l by (rewrite length_replicate; lia). by rewrite lookup_replicate_2 by lia.
    + rewrite lookup_app_r by (rewrite length_replicate; lia). rewrite length_replicate, nth_lookup. reflexivity.
Qed.

Lemma shift_right_0 f : length (mant f) = MANT_SIZE -> shift_right (flt2double f) (Z.of_nat 0) = flt2double f.
Proof.
  intros Hn. rewrite shift_right_eq, Z.add_0_r by exact Hn. unfold flt2double, shifted. f_equal. apply take_ge.
  cbn [replicate app]. rewrite length_app, length_replicate, Hn. unfold MANT_SIZE. lia.
Qed.

Lemma shifted_split f n : length (mant f) = MANT_SIZE -> Forall digit (mant f) ->
  let l := take (2 * MANT_SIZE) (shifted f n) in
  let x := drop (2 * MANT_SIZE) (shifted f n) in
  length l = (2 * MANT_SIZE)%nat /\ length x = n /\ Forall digit l /\ Forall digit x /\
  dval l * FBASE ^ Z.of_nat n + dval x = dval (mant f) * FBASE ^ Z.of_nat MANT_SIZE /\ ((n <= MANT_SIZE)%nat -> dval x = 0).
Proof.
  intros Hn Hl l x. assert (length (shifted f n) = (2 * MANT_SIZE + n)%nat) as Hs by (unfold shifted; rewrite !length_app, !length_replicate, Hn; unfold MANT_SIZE; lia).
  assert (Forall digit (shifted f n)) as Hd by (unfold shifted; rewrite !Forall_app; auto using zeros_digits).
  assert (length x = n) as Hx by (unfold x; rewrite length_drop, Hs; lia). split_and!; auto.
  - unfold l. rewrite length_take, Hs. lia.
  - by apply Forall_take.
  - by apply Forall_drop.
  - rewrite <- Hx at 1. rewrite <- dval_app. unfold l, x. rewrite take_drop. unfold shifted. rewrite !dval_app, !dval_zeros, length_replicate. lia.
  - intros Hle. unfold x, shifted. rewrite app_assoc, drop_app_ge by (rewrite length_app, length_replicate, Hn; unfold MANT_SIZE in *; lia).
    by rewrite drop_replicate, dval_zeros.
Qed.

Lemma flt2double_operand f : legal f -> f_sign f <> 0 -> operand (flt2double f) (f_exp f) /\
  nth 0 (d_mant (flt2double f)) 0 <> 0 /\ dnum (flt2double f) = num f * FBASE ^ Z.of_nat MANT_SIZE.
Proof.
  intros L Hs. destruct (legal_num f L Hs) as (S1 & H0 & _). destruct L as [Hn Hl _]. split_and!.
  - split; auto; unfold flt2double; cbn [d_mant d_sign d_exp].
    + rewrite length_app, length_replicate, Hn. unfold MANT_SIZE. lia.
    + apply Forall_app. split; [exact Hl|apply zeros_digits].
  - unfold flt2double. cbn [d_mant]. rewrite app_nth1 by (rewrite Hn; unfold MANT_SIZE; lia). exact H0.
  - unfold dnum, num, flt2double. cbn [d_mant d_sign]. rewrite dval_app, dval_zeros, length_replicate. ring.
Qed.

Lemma shifted_operand f n : legal f -> f_sign f <> 0 -> exists x,
  operand (shift_right (flt2double f) (Z.of_nat n)) (f_exp f + Z.of_nat n) /\ Forall digit x /\ length x = n /\ ((n <= MANT_SIZE)%nat -> dval x = 0) /\
  dnum (shift_right (flt2double f) (Z.of_nat n)) * FBASE ^ Z.of_nat n + f_sign f * dval x = num f * FBASE ^ Z.of_nat MANT_SIZE.
Proof.
  intros L Hs. destruct (legal_num f L Hs) as (S1 & _ & _). destruct (shifted_split f n (lg_length _ L) (lg_digits _ L)) as (H1 & H2 & H3 & H4 & H5 & H6).
  exists (drop (2 * MANT_SIZE) (shifted f n)). rewrite shift_right_eq by apply L. split_and!; auto.
  - by split.
  - unfold dnum, num. cbn [d_mant d_sign]. rewrite <- !Z.mul_assoc, <- H5. ring.
Qed.

(** The exact result of an addition is [sum_num f1 f2 * FBASE ^ sum_exp f1 f2]. *)
Definition sum_num (f1 f2 : flt) : Z :=
  num f1 * FBASE ^ (f_exp f1 - Z.min (f_exp f1) (f_exp f2)) + num f2 * FBASE ^ (f_exp f2 - Z.min (f_exp f1) (f_exp f2)).

Definition sum_exp (f1 f2 : flt) : Z := Z.min (f_exp f1) (f_exp f2) - 7.

Definition in_range (LONG_MAX : Z) (f : flt) : Prop := E_MIN <= f_exp f < E_MAX LONG_MAX.

(** A number and one that is shifted, in any order. *)
Lemma aligned_ok LONG_MAX f g n (swap : bool) : legal f -> legal g -> f_sign f <> 0 -> f_sign g <> 0 -> f_exp f = f_exp g + Z.of_nat n ->
  in_range LONG_MAX f -> f_sign f = f_sign g \/ (n <= MANT_SIZE)%nat ->
  (let d1 := flt2double f in
   let d2 := shift_right (flt2double g) (Z.of_nat n) in
   if swap then add_mantissas LONG_MAX d2 d1 (f_exp f) else add_mantissas LONG_MAX d1 d2 (f_exp f)) =
  sum_result LONG_MAX (num f * FBASE ^ Z.of_nat n + num g) (f_exp g - 7).
Proof.
  intros Lf Lg Hf Hg He Hr Hc. destruct (flt2double_operand f Lf Hf) as (O1 & H0 & N1). destruct (shifted_operand g n Lg Hg) as (x & O2 & Hx & Hn & Hz & N2).
  rewrite <- He in O2. set (d1 := flt2double f) in *. set (d2 := shift_right _ _) in *. cbv zeta.
  assert (d_sign d1 = f_sign f) as S1 by reflexivity. assert (d_sign d2 = f_sign g) as S2 by reflexivity.
  assert (sum_result LONG_MAX (num f * FBASE ^ Z.of_nat n + num g) (f_exp g - 7) =
    sum_result LONG_MAX ((dnum d1 + dnum d2) * FBASE ^ Z.of_nat n + f_sign g * dval x) (f_exp f - 15 - Z.of_nat n)) as ->.
  { replace ((dnum d1 + dnum d2) * FBASE ^ Z.of_nat n + f_sign g * dval x) with ((num f * FBASE ^ Z.of_nat n + num g) * FBASE ^ Z.of_nat MANT_SIZE).
    - rewrite sum_result_scale. f_equal. rewrite He. unfold MANT_SIZE. lia.
    - rewrite N1, !Z.mul_add_distr_r, <- N2. ring. }
  destruct (Z.eq_dec (f_sign f) (f_sign g)) as [E|Hne].
  - rewrite <- Hn, <- E. destruct swap.
    + rewrite (add_same_ok _ d2 d1 (f_exp f) x) by (auto; congruence). rewrite S2, <- E. f_equal. ring.
    + rewrite (add_same_ok _ d1 d2 (f_exp f) x) by (auto; congruence). by rewrite S1.
  - destruct Hc as [Hc|Hc]; [done|]. rewrite (Hz Hc), Z.mul_0_r, Z.add_0_r, sum_result_scale.
    replace (f_exp f - 15 - Z.of_nat n + Z.of_nat n) with (f_exp f - 15) by lia.
    destruct (legal_num f Lf Hf) as (S & _). destruct (legal_num g Lg Hg) as (S' & _).
    assert (d_sign d1 = - d_sign d2) as Eopp by (rewrite S1, S2; lia).
    unfold add_mantissas. assert ((d_sign d1 =? d_sign d2) = false) as Eb by (apply Z.eqb_neq; lia). destruct swap.
    + rewrite Z.eqb_sym, Eb. rewrite (sub_mantissas_ok LONG_MAX) by (auto; lia). f_equal. ring.
    + rewrite Eb. by rewrite (sub_mantissas_ok LONG_MAX) by (auto; lia).
Qed.

Lemma sum_result_single LONG_MAX f : legal f -> in_range LONG_MAX f -> sum_result LONG_MAX (num f) (f_exp f - 7) = Ok f.
Proof.
  intros L R. unfold sum_result. rewrite rounded_self by exact L. destruct (Z.eq_dec (f_sign f) 0) as [E|Hs].
  { unfold num. rewrite E, Z.mul_0_l. cbn [Z.eqb]. destruct (lg_cases _ L) as [-> |[Hs _]]; [reflexivity|lia]. }
  destruct (legal_num f L Hs) as (S & _ & H). assert (num_digits (dval (mant f)) = 8) as Hk by (apply num_digits_ok; [|exact H|lia]; eapply Z.lt_le_trans; [|apply H]; by vm_compute).
  assert (0 < dval (mant f)) as Hp by (eapply Z.lt_le_trans; [|apply H]; by vm_compute).
  unfold num, exponent. destruct (signed _ _ S Hp) as [-> ->]. rewrite Hk. replace (f_exp f - 7 + 8 - 1) with (f_exp f) by lia.
  destruct R as [R1 R2]. apply Z.ltb_ge in R1. apply Z.leb_gt in R2. by rewrite R1, R2.
Qed.

Lemma sum_zero LONG_MAX f1 f2 : legal f2 -> in_range LONG_MAX f2 -> num f1 = 0 ->
  sum_result LONG_MAX (sum_num f1 f2) (sum_exp f1 f2) = Ok f2 /\ sum_result LONG_MAX (sum_num f2 f1) (sum_exp f2 f1) = Ok f2.
Proof.
  intros L R H. unfold sum_num, sum_exp. rewrite H, !Z.mul_0_l, Z.add_0_r, Z.add_0_l, (Z.min_comm (f_exp f2)).
  assert (sum_result LONG_MAX (num f2 * FBASE ^ (f_exp f2 - f_exp f1 `min` f_exp f2)) (f_exp f1 `min` f_exp f2 - 7) = Ok f2); [|done].
  rewrite <- (Z2Nat.id (f_exp f2 - f_exp f1 `min` f_exp f2)) by lia. rewrite sum_result_scale, Z2Nat.id by lia.
  rewrite <- (sum_result_single LONG_MAX f2) by auto. f_equal. lia.
Qed.

Lemma flt_add_ok LONG_MAX f1 f2 : legal f1 -> legal f2 -> in_range LONG_MAX f1 -> in_range LONG_MAX f2 ->
  0 <= f_sign f1 * f_sign f2 \/ Z.abs (f_exp f1 - f_exp f2) <= Z.of_nat MANT_SIZE ->
  flt_add LONG_MAX f1 f2 = sum_result LONG_MAX (sum_num f1 f2) (sum_exp f1 f2).
Proof.
  intros L1 L2 R1 R2 Hc. unfold flt_add. destruct (Z.eqb_spec (f_sign f1) 0) as [Hs1|Hs1].
  { symmetry. apply sum_zero; auto. unfold num. by rewrite Hs1. }
  destruct (Z.eqb_spec (f_sign f2) 0) as [Hs2|Hs2].
  { symmetry. apply sum_zero; auto. unfold num. by rewrite Hs2. }
  destruct (legal_num f1 L1 Hs1) as (S1 & _). destruct (legal_num f2 L2 Hs2) as (S2 & _).
  assert (f_sign f1 = f_sign f2 \/ Z.abs (f_exp f1 - f_exp f2) <= Z.of_nat MANT_SIZE) as Hc' by (destruct Hc; [left; destruct S1 as [E1|E1], S2 as [E2|E2]; rewrite E1, E2 in *; lia|auto]).
  unfold sum_num, sum_exp. cbn [d_exp flt2double]. destruct (Z.ltb_spec (f_exp f1) (f_exp f2)) as [Hlt|Hge].
  - pose proof (aligned_ok LONG_MAX f2 f1 (Z.to_nat (f_exp f2 - f_exp f1)) true L2 L1 Hs2 Hs1 ltac:(lia) R2 ltac:(destruct Hc'; [left; congruence|right; lia])) as H.
    rewrite Z2Nat.id in H by lia. cbv zeta iota in H. cbn [d_exp shift_right flt2double].
    replace (f_exp f1 + (f_exp f2 - f_exp f1)) with (f_exp f2) by lia. rewrite Z.min_l, Z.sub_diag, Z.pow_0_r, Z.mul_1_r, Z.add_comm by lia. exact H.
  - destruct (Z.ltb_spec (f_exp f2) (f_exp f1)) as [Hlt|Hge2].
    + pose proof (aligned_ok LONG_MAX f1 f2 (Z.to_nat (f_exp f1 - f_exp f2)) false L1 L2 Hs1 Hs2 ltac:(lia) R1 ltac:(destruct Hc'; [left; congruence|right; lia])) as H.
      rewrite Z2Nat.id in H by lia. cbv zeta iota in H. cbn [d_exp flt2double].
      rewrite Z.min_r, Z.sub_diag, Z.pow_0_r, Z.mul_1_r by lia. exact H.
    + assert (f_exp f1 = f_exp f2) as E by lia.
      pose proof (aligned_ok LONG_MAX f1 f2 0 false L1 L2 Hs1 Hs2 ltac:(lia) R1 ltac:(destruct Hc'; [left; congruence|right; lia])) as H.
      cbv zeta iota in H. rewrite shift_right_0 in H by apply L2. cbn [d_exp flt2double] in H |- *. change (Z.of_nat 0) with 0 in H.
      rewrite E, Z.min_id, Z.sub_diag in *. rewrite Z.pow_0_r, !Z.mul_1_r in *. exact H.
Qed.

(** ** The reference is the nearest number *)

Lemma one_legal s e : s = 1 \/ s = -1 -> legal (Flt (1 :: replicate (MANT_SIZE - 1) 0) s e).
Proof. intros Hs. split; [reflexivity|constructor; [by vm_compute|apply zeros_digits]|right; by split]. Qed.

Lemma digits_legal q s e : s = 1 \/ s = -1 -> FBASE ^ 7 <= q < FBASE ^ 8 -> legal (Flt (digits MANT_SIZE q) s e).
Proof.
  intros Hs Hq. split; cbn [mant f_sign].
  - apply digits_length.
  - apply digits_ok.
  - right. split; [exact Hs|]. apply (head_val _ 7 (digits_ok _ _) (digits_length _ _)). rewrite dval_digits; [apply Hq|].
    split; [|apply Hq]. eapply Z.le_trans; [|apply Hq]. by vm_compute.
Qed.

Lemma num_digits_bound a : 0 < a -> FBASE ^ (num_digits a - 1) <= a < FBASE ^ num_digits a.
Proof.
  intros Ha. pose proof (num_digits_pos a) as Hk. change FBASE with (2 ^ 16). rewrite <- !Z.pow_mul_r by lia. pose proof (Z.log2_spec a Ha) as [H1 H2].
  unfold num_digits, FBITS in *. pose proof (Z.div_mod (Z.log2 a) 16 ltac:(lia)) as Hd. pose proof (Z.mod_pos_bound (Z.log2 a) 16 ltac:(lia)) as Hm. split.
  - eapply Z.le_trans; [|exact H1]. apply Z.pow_le_mono_r; lia.
  - eapply Z.lt_le_trans; [exact H2|]. apply Z.pow_le_mono_r; lia.
Qed.

Lemma half_even k : 0 < k -> FBASE ^ k = 2 * (FBASE ^ k / 2).
Proof. intros Hk. replace k with (Z.of_nat (S (Z.to_nat (k - 1)))) by lia. rewrite base_half, base_S. change (FBASE / 2) with 32768. unfold FBASE at 1. ring. Qed.

Lemma half_near a u : 0 < u -> u = 2 * (u / 2) -> 2 * Z.abs ((a + u / 2) / u * u - a) <= u.
Proof.
  intros Hu He. set (h := u / 2) in *. pose proof (Z.div_mod (a + h) u ltac:(lia)) as Hd. pose proof (Z.mod_pos_bound (a + h) u Hu) as Hm. lia.
Qed.

(** The eight digits and the exponent that [rounded] finds. *)
Lemma rounded_case n e : n <> 0 -> let k := num_digits (Z.abs n) in exists q,
  FBASE ^ 7 <= q <= FBASE ^ 8 /\
  (k <= 8 -> q = Z.abs n * FBASE ^ (8 - k)) /\
  (8 < k -> 2 * Z.abs (q * FBASE ^ (k - 8) - Z.abs n) <= FBASE ^ (k - 8)) /\
  rounded n e = if q =? FBASE ^ 8 then Flt (1 :: replicate (MANT_SIZE - 1) 0) (Z.sgn n) (e + k) else Flt (digits MANT_SIZE q) (Z.sgn n) (e + k - 1).
Proof.
  intros Hn k. unfold rounded. apply Z.eqb_neq in Hn as Hb. rewrite Hb. change (Z.of_nat MANT_SIZE) with 8. fold k. set (a := Z.abs n) in *. assert (0 < a) as Ha by lia.
  pose proof (num_digits_pos a : 0 < k) as Hk. pose proof (num_digits_bound a Ha : FBASE ^ (k - 1) <= a < FBASE ^ k) as Hab.
  eexists. split; [|split; [|split; [|reflexivity]]]; destruct (Z.leb_spec k 8) as [Hle|Hlt]; auto; try lia.
  - assert (FBASE ^ 7 = FBASE ^ (k - 1) * FBASE ^ (8 - k)) as -> by (rewrite <- Z.pow_add_r by lia; f_equal; lia).
    assert (FBASE ^ 8 = FBASE ^ k * FBASE ^ (8 - k)) as -> by (rewrite <- Z.pow_add_r by lia; f_equal; lia).
    assert (0 < FBASE ^ (8 - k)) by (apply Z.pow_pos_nonneg; unfold FBASE; lia). split; apply Z.mul_le_mono_nonneg_r; lia.
  - assert (0 < FBASE ^ (k - 8)) as Hu by (apply Z.pow_pos_nonneg; unfold FBASE; lia). set (u := FBASE ^ (k - 8)) in *.
    assert (FBASE ^ (k - 1) = FBASE ^ 7 * u) as E7 by (unfold u; rewrite <- Z.pow_add_r by lia; f_equal; lia).
    assert (FBASE ^ k = FBASE ^ 8 * u) as E8 by (unfold u; rewrite <- Z.pow_add_r by lia; f_equal; lia). rewrite E7, E8 in Hab.
    assert (0 <= u / 2 < u) as Hh by (split; [apply Z.div_pos; lia|apply Z.div_lt; lia]). split.
    + apply Z.div_le_lower_bound; [exact Hu|]. rewrite Z.mul_comm. clear -Hab Hh. lia.
    + assert ((a + u / 2) / u < FBASE ^ 8 + 1); [|lia]. apply Z.div_lt_upper_bound; [exact Hu|]. rewrite Z.mul_add_distr_l, (Z.mul_comm u). clear -Hab Hh. lia.
  - intros _. apply half_near; [apply Z.pow_pos_nonneg; unfold FBASE; lia|apply half_even; lia].
Qed.

Lemma flt_zero_legal : legal flt_zero.
Proof. split; [reflexivity|apply zeros_digits|by left]. Qed.

Lemma rounded_legal n e : legal (rounded n e).
Proof.
  destruct (Z.eq_dec n 0) as [->|Hn]; [split; [reflexivity|apply zeros_digits|by left]|].
  destruct (rounded_case n e Hn) as (q & Hq & _ & _ & ->). assert (Z.sgn n = 1 \/ Z.sgn n = -1) as Hs by lia.
  destruct (Z.eqb_spec q (FBASE ^ 8)) as [->|Hne]; [by apply one_legal|]. apply digits_legal; [exact Hs|]. clear -Hq Hne. lia.
Qed.

(** The reference of the rounding: the number [r] that stands for
    [n * FBASE ^ e] is legal, has its sign, and is off by at most half a unit
    of the last of the eight digits; a number of eight digits is exact. *)
Lemma rounded_near n e : n <> 0 ->
  let r := rounded n e in
  let u := exponent n e - 7 in
  let m := Z.min e u in
  legal r /\ f_sign r = Z.sgn n /\ (f_exp r = exponent n e \/ f_exp r = exponent n e + 1) /\
  2 * Z.abs (num r * FBASE ^ (f_exp r - 7 - m) - n * FBASE ^ (e - m)) <= FBASE ^ (u - m) /\
  (u <= e -> num r * FBASE ^ (f_exp r - 7 - m) = n * FBASE ^ (e - m)).
Proof.
  intros Hn r u m. split; [apply rounded_legal|]. destruct (rounded_case n e Hn) as (q & Hq & Hex & Hnear & Er). fold r in Er. unfold exponent in *.
  set (k := num_digits (Z.abs n)) in *. assert (u = e + k - 8) as Hu by (clear; unfold u; lia).
  assert (0 <= u - m) as Hum by (clear; lia). assert (0 <= e + k - 7 - m) as Hum1 by (clear -Hum Hu; lia).
  assert (f_sign r = Z.sgn n /\ (f_exp r = e + k - 1 \/ f_exp r = e + k - 1 + 1) /\ num r * FBASE ^ (f_exp r - 7 - m) = Z.sgn n * (q * FBASE ^ (u - m))) as (H1 & H2 & ->).
  { rewrite Er. destruct (Z.eqb_spec q (FBASE ^ 8)) as [->|Hne]; unfold num; cbn [f_sign f_exp mant].
    - split_and!; auto; [right; clear; lia|]. change (dval (1 :: replicate (MANT_SIZE - 1) 0)) with (FBASE ^ 7). rewrite <- Z.mul_assoc, <- !Z.pow_add_r; [|discriminate|exact Hum|discriminate|exact Hum1].
      do 2 f_equal. clear -Hu. lia.
    - split_and!; auto. rewrite dval_digits; [|split; [eapply Z.le_trans; [|apply Hq]; by vm_compute|clear -Hq Hne; change (Z.of_nat MANT_SIZE) with 8; lia]].
      rewrite <- Z.mul_assoc. do 3 f_equal. }
  clear Hq. split; [exact H1|]. split; [exact H2|]. assert (n = Z.sgn n * Z.abs n) as En by (clear; lia).
  assert (u <= e -> Z.sgn n * (q * FBASE ^ (u - m)) = n * FBASE ^ (e - m)) as Hexact.
  { intros Hle. rewrite En at 2. rewrite Hex, <- !Z.mul_assoc, <- Z.pow_add_r by (unfold m; lia). do 3 f_equal. unfold m. lia. }
  split; [|exact Hexact]. destruct (Z.le_gt_cases u e) as [Hle|Hgt].
  - rewrite Hexact, Z.sub_diag by exact Hle. cbn [Z.abs Z.mul]. apply Z.pow_nonneg. by vm_compute.
  - replace (e - m) with 0 by (clear -Hgt; unfold m; lia). replace (u - m) with (k - 8) by (unfold m; lia). rewrite Z.pow_0_r, Z.mul_1_r.
    replace (Z.sgn n * (q * FBASE ^ (k - 8)) - n) with (Z.sgn n * (q * FBASE ^ (k - 8) - Z.abs n)) by (rewrite Z.mul_sub_distr_l, <- En; reflexivity).
    rewrite Z.abs_mul. replace (Z.abs (Z.sgn n)) with 1 by (clear -Hn; lia). rewrite Z.mul_1_l. apply Hnear. clear -Hgt Hu. lia.
Qed.

(** ** The results *)

(** C27: the product of two numbers, for all legal numbers and their exponents:
    the exact product, rounded to eight digits, a half away from zero; the
    status EXP2BIG when its exponent is not above [E_MIN], or one more than
    the sum of the exponents is not below [E_MAX]; undefined when the sum, or
    one more, is not an [int], which is possible where [E_MAX] is larger than an
    [int], and only then. No element outside the
    array of the product is ever used, however far a carry goes. The result is
    legal. *)
Theorem flt_mul_rounded LONG_MAX f1 f2 : legal f1 -> legal f2 ->
  let n := num f1 * num f2 in
  let e := f_exp f1 + f_exp f2 in
  flt_mul LONG_MAX f1 f2 = (
    if n =? 0 then Some (Ok flt_zero)
    else if negb (int_ok e && int_ok (e + 1)) then None
    else Some (
      if (E_MAX LONG_MAX <=? e + 1) || (exponent n (e - 14) <=? E_MIN) then Throw EXP2BIG
      else Ok (rounded n (e - 14)))) /\
  forall r, flt_mul LONG_MAX f1 f2 = Some (Ok r) -> legal r.
Proof.
  intros L1 L2 n e. rewrite flt_mul_ok by assumption. fold n e. split; [reflexivity|]. intros r H. repeat case_match; inversion H; subst; auto using flt_zero_legal, rounded_legal.
Qed.

(** C28: the sum of two numbers, for all legal numbers whose exponents are in
    range: the exact sum, rounded to eight digits, a half away from zero; the
    status EXP2BIG when its exponent is out of range; zero when it is zero.
    When the signs differ, the exponents are at most eight apart; see
    [flt_add_misrounds]. The result is
    legal. *)
Theorem flt_add_rounded LONG_MAX f1 f2 : legal f1 -> legal f2 -> in_range LONG_MAX f1 -> in_range LONG_MAX f2 ->
  0 <= f_sign f1 * f_sign f2 \/ Z.abs (f_exp f1 - f_exp f2) <= Z.of_nat MANT_SIZE ->
  flt_add LONG_MAX f1 f2 = sum_result LONG_MAX (sum_num f1 f2) (sum_exp f1 f2) /\
  forall r, flt_add LONG_MAX f1 f2 = Ok r -> legal r.
Proof.
  intros L1 L2 R1 R2 Hc. rewrite flt_add_ok by assumption. split; [reflexivity|]. intros r. unfold sum_result.
  repeat case_match; intros [= <-]; auto using flt_zero_legal, rounded_legal.
Qed.

(** ** Comparison *)

Lemma legal_sign f : legal f -> f_sign f = 0 /\ f = flt_zero \/ (f_sign f = 1 \/ f_sign f = -1) /\ FBASE ^ 7 <= dval (mant f) < FBASE ^ 8.
Proof.
  intros L. destruct (Z.eq_dec (f_sign f) 0) as [E|Hs].
  - left. split; [exact E|]. destruct (lg_cases _ L) as [H|[H _]]; [exact H|lia].
  - right. destruct (legal_num f L Hs) as (H1 & _ & H2). auto.
Qed.

(** The larger exponent wins. *)
Lemma exponent_wins a b e e' : FBASE ^ 7 <= a -> b < FBASE ^ 8 -> e' < e ->
  b * FBASE ^ (e' - Z.min e e') < a * FBASE ^ (e - Z.min e e').
Proof.
  intros Ha Hb He. rewrite Z.min_r, Z.sub_diag, Z.pow_0_r, Z.mul_1_r by lia.
  eapply Z.lt_le_trans; [exact Hb|]. change (FBASE ^ 8) with (FBASE ^ 7 * FBASE). apply Z.mul_le_mono_nonneg; [by vm_compute|exact Ha|by vm_compute|].
  rewrite <- (Z.pow_1_r FBASE) at 1. apply Z.pow_le_mono_r; [by vm_compute|]. clear -He. lia.
Qed.

Lemma sign_of_compare s a b : s = 1 \/ s = -1 ->
  (if s =? -1 then - match (a ?= b) with Lt => -1 | Eq => 0 | Gt => 1 end else match (a ?= b) with Lt => -1 | Eq => 0 | Gt => 1 end) = Z.sgn (s * a - s * b).
Proof. intros Hs. destruct (Z.compare_spec a b); destruct Hs; subst; cbn [Z.eqb Pos.eqb]; lia. Qed.

Lemma mag_cmp_ok f1 f2 : legal f1 -> legal f2 -> f_sign f1 <> 0 -> f_sign f2 <> 0 ->
  let m := Z.min (f_exp f1) (f_exp f2) in
  mag_cmp f1 f2 = match (dval (mant f1) * FBASE ^ (f_exp f1 - m) ?= dval (mant f2) * FBASE ^ (f_exp f2 - m)) with Lt => -1 | Eq => 0 | Gt => 1 end.
Proof.
  intros L1 L2 H1 H2. destruct (legal_num f1 L1 H1) as (_ & _ & B1). destruct (legal_num f2 L2 H2) as (_ & _ & B2).
  unfold mag_cmp, magnitude_cmp. apply Z.eqb_neq in H1, H2. rewrite H1, H2. destruct (Z.eqb_spec (f_exp f1) (f_exp f2)) as [E|Hne]; cbn [negb].
  - rewrite E, Z.min_id, Z.sub_diag, Z.pow_0_r, !Z.mul_1_r. apply digits_cmp_val; [apply L1|apply L2|]. by rewrite (lg_length _ L1), (lg_length _ L2).
  - destruct (Z.ltb_spec (f_exp f1) (f_exp f2)) as [Hlt|Hge].
    + pose proof (exponent_wins _ _ _ _ (proj1 B2) (proj2 B1) Hlt) as H. rewrite Z.min_comm in H. apply Z.compare_lt_iff in H. by rewrite H.
    + assert (f_exp f2 < f_exp f1) as Hgt by (clear -Hne Hge; lia). pose proof (exponent_wins _ _ _ _ (proj1 B1) (proj2 B2) Hgt) as H. apply Z.compare_gt_iff in H. by rewrite H.
Qed.

(** The order of two legal numbers is the order of their values: the sign
    of the exact difference. *)
Theorem flt_cmp_order f1 f2 : legal f1 -> legal f2 ->
  let m := Z.min (f_exp f1) (f_exp f2) in
  flt_cmp f1 f2 = Z.sgn (num f1 * FBASE ^ (f_exp f1 - m) - num f2 * FBASE ^ (f_exp f2 - m)).
Proof.
  intros L1 L2 m. assert (0 < FBASE ^ (f_exp f1 - m) /\ 0 < FBASE ^ (f_exp f2 - m)) as [P1 P2] by (split; apply Z.pow_pos_nonneg; (reflexivity || (unfold m; lia))).
  set (u1 := FBASE ^ (f_exp f1 - m)) in *. set (u2 := FBASE ^ (f_exp f2 - m)) in *.
  assert (forall f, FBASE ^ 7 <= dval (mant f) < FBASE ^ 8 -> 0 < dval (mant f)) as Hpos by (intros f [H _]; eapply Z.lt_le_trans; [|exact H]; by vm_compute).
  unfold flt_cmp, num. destruct (legal_sign f1 L1) as [[E1 ->]|[S1 B1]]; destruct (legal_sign f2 L2) as [[E2 ->]|[S2 B2]].
  - reflexivity.
  - apply Hpos in B2. change (f_sign flt_zero) with 0. rewrite !Z.mul_0_l. destruct S2 as [-> | ->]; cbn [Z.ltb Z.compare]; clear -B2 P2; lia.
  - apply Hpos in B1. change (f_sign flt_zero) with 0. rewrite !Z.mul_0_l. destruct S1 as [-> | ->]; cbn [Z.ltb Z.compare]; clear -B1 P1; lia.
  - destruct (Z.eq_dec (f_sign f1) (f_sign f2)) as [E|Hne].
    + rewrite <- E, Z.ltb_irrefl, <- !Z.mul_assoc. rewrite mag_cmp_ok by (auto; lia). apply (sign_of_compare _ (dval (mant f1) * u1) (dval (mant f2) * u2)). exact S1.
    + apply Hpos in B1, B2. assert (0 < dval (mant f1) * u1) as Q1 by (clear -B1 P1; lia). assert (0 < dval (mant f2) * u2) as Q2 by (clear -B2 P2; lia).
      rewrite <- !Z.mul_assoc. destruct S1 as [E1|E1], S2 as [E2|E2]; rewrite E1, E2 in *; try done; cbn [Z.ltb Z.compare]; clear -Q1 Q2; lia.
Qed.

(** ** Rounding to an integer *)

(** The integer nearest to [v * FBASE ^ (e - 7)], a half away from zero. *)
Definition nearest (v e : Z) : Z := (v + FBASE ^ (7 - e) / 2) / FBASE ^ (7 - e).

Lemma nearest_digits l n : Forall digit l -> length l = MANT_SIZE -> (n < MANT_SIZE)%nat ->
  nearest (dval l) (Z.of_nat n - 1) = dval (take n l) + (if FBASE / 2 <=? nth n l 0 then 1 else 0).
Proof.
  intros Hl Hn Hlt. unfold nearest. replace (7 - (Z.of_nat n - 1)) with (Z.of_nat (S (7 - n))) by (unfold MANT_SIZE in *; lia).
  rewrite div_half. replace (S (7 - n)) with (length l - n)%nat by (unfold MANT_SIZE in *; lia). rewrite <- take_val, drop_val by (auto; lia).
  destruct (drop n l) as [|x r] eqn:E.
  { apply (f_equal length) in E. rewrite length_drop in E. cbn in E. lia. }
  assert (nth n l 0 = x) as ->.
  { rewrite <- (take_drop n l), E, app_nth2; rewrite length_take; [|lia]. by replace (n - n `min` length l)%nat with 0%nat by lia. }
  rewrite (half_digit x r) by (rewrite <- E; by apply Forall_drop). apply (f_equal length) in E. rewrite length_drop in E. cbn [length] in E. by rewrite E.
Qed.

Lemma nearest_small v e : 0 <= v < FBASE ^ 8 -> e < -1 -> nearest v e = 0.
Proof.
  intros Hv He. unfold nearest. replace (7 - e) with (Z.of_nat (S (Z.to_nat (6 - e)))) by lia. set (j := Z.to_nat (6 - e)).
  apply Z.div_small. pose proof (base_pos j) as Hp. rewrite base_half, base_S. change (FBASE / 2) with 32768.
  assert (FBASE ^ 8 <= FBASE ^ Z.of_nat j) as Hj by (apply Z.pow_le_mono_r; [by vm_compute|unfold j; lia]).
  set (p := FBASE ^ 8) in *. set (w := FBASE ^ Z.of_nat j) in *. unfold FBASE. clearbody p w. lia.
Qed.

Lemma int_legal l s n : Forall digit l -> length l = S n -> (n < MANT_SIZE)%nat -> s = 1 \/ s = -1 -> FBASE ^ Z.of_nat n <= dval l ->
  legal (Flt (l ++ replicate (MANT_SIZE - S n) 0) s (Z.of_nat n)) /\
  num (Flt (l ++ replicate (MANT_SIZE - S n) 0) s (Z.of_nat n)) = s * dval l * FBASE ^ (7 - Z.of_nat n).
Proof.
  intros Hl Hn Hlt Hs Hv. split; [split; cbn [mant f_sign]|].
  - rewrite length_app, length_replicate, Hn. lia.
  - apply Forall_app. split; [exact Hl|apply zeros_digits].
  - right. split; [exact Hs|]. rewrite app_nth1 by lia. by apply (head_val l n).
  - unfold num. cbn [mant f_sign]. rewrite dval_app, dval_zeros, length_replicate. replace (7 - Z.of_nat n) with (Z.of_nat (MANT_SIZE - S n)) by (unfold MANT_SIZE in *; lia). ring.
Qed.

(** The digits before the point. *)
Lemma flt_round_digits m s n : Forall digit m -> length m = MANT_SIZE -> s = 1 \/ s = -1 -> nth 0 m 0 <> 0 -> (n < MANT_SIZE)%nat ->
  let r := flt_round (Flt m s (Z.of_nat n - 1)) in
  legal r /\ 0 <= f_exp r <= 7 /\ num r = s * nearest (dval m) (Z.of_nat n - 1) * FBASE ^ (7 - f_exp r).
Proof.
  intros Hl Hn Hs H0 Hn8. unfold flt_round. cbn [mant f_sign f_exp].
  assert ((Z.of_nat n - 1 <? -1) = false) as -> by (apply Z.ltb_ge; lia). assert ((Z.of_nat MANT_SIZE <=? Z.of_nat n - 1 + 1) = false) as -> by (apply Z.leb_gt; lia).
  replace (Z.to_nat (Z.of_nat n - 1 + 1)) with n by lia. rewrite nearest_digits by auto. unfold rounds_up, round_type. rewrite Z.leb_antisym.
  assert (length (take n m) = n) as Ht by (rewrite length_take; lia). pose proof (Forall_take _ n _ Hl) as Hd. pose proof (dval_bound _ Hd) as Hb. rewrite Ht in Hb.
  assert (forall k, n = S k -> FBASE ^ Z.of_nat k <= dval (take n m)) as Hhead.
  { intros k ->. apply head_val; [exact Hd|exact Ht|]. destruct m; [discriminate|exact H0]. }
  assert (7 < 8) as H78 by reflexivity. unfold MANT_SIZE in Hn8.
  destruct (nth n m 0 <? FBASE / 2); cbn [negb].
  - rewrite Z.add_0_r. destruct n as [|n]; [split; [apply flt_zero_legal|]; split; [by vm_compute|]; cbn [take dval]; by rewrite Z.mul_0_r|].
    assert ((Z.of_nat (S n) - 1 =? -1) = false) as -> by (apply Z.eqb_neq; lia). replace (Z.of_nat (S n) - 1) with (Z.of_nat n) by lia.
    destruct (int_legal (take (S n) m) s n Hd Ht ltac:(unfold MANT_SIZE; lia) Hs (Hhead n eq_refl)) as [H1 H2]. cbn [f_exp]. split; [exact H1|]. split; [clear -Hn8; lia|exact H2].
  - pose proof (add_carry_ok _ 1 Hd ltac:(by vm_compute)) as Ha. destruct (add_carry (take n m) 1) as [l c]. destruct Ha as (H1 & H2 & H3 & H4). rewrite Ht in H2, H4.
    pose proof (dval_bound l H1) as Hbl. rewrite H2 in Hbl. destruct (Z.eqb_spec c 0) as [->|Hc].
    + rewrite Z.mul_0_l, Z.add_0_r in H4. destruct n as [|n]; [destruct l; [|discriminate]; cbn in H4; lia|]. replace (Z.of_nat (S n) - 1) with (Z.of_nat n) by lia. rewrite <- H4.
      destruct (int_legal l s n H1 H2 ltac:(unfold MANT_SIZE; lia) Hs ltac:(pose proof (Hhead n eq_refl); lia)) as [H5 H6]. cbn [f_exp]. split; [exact H5|]. split; [clear -Hn8; lia|exact H6].
    + assert (dval (take n m) + 1 = FBASE ^ Z.of_nat n) as ->.
      { pose proof (base_pos n) as Hp. set (u := FBASE ^ Z.of_nat n) in *. clearbody u. nia. }
      assert ((if Z.of_nat n - 1 =? -1 then 0 else Z.of_nat n - 1 + 1) = Z.of_nat n) as -> by (destruct (Z.eqb_spec (Z.of_nat n - 1) (-1)); lia).
      cbn [f_exp]. split; [by apply one_legal|]. split; [clear -Hn8; lia|]. unfold num. cbn [mant f_sign].
      change (dval (1 :: replicate (MANT_SIZE - 1) 0)) with (FBASE ^ 7). rewrite <- Z.mul_assoc, <- Z.pow_add_r by (clear -Hn8; lia). do 2 f_equal. clear -Hn8. lia.
Qed.

(** C29: a legal number rounded to an integer: a number of eight digits or more
    before the point is not changed; from any other comes the integer nearest
    to it, a half away from zero, as a legal number. *)
Theorem flt_round_nearest f : legal f ->
  let r := flt_round f in
  legal r /\ (7 <= f_exp f -> r = f) /\
  (f_exp f < 7 -> 0 <= f_exp r <= 7 /\ num r = f_sign f * nearest (dval (mant f)) (f_exp f) * FBASE ^ (7 - f_exp r)).
Proof.
  intros L r. destruct (legal_sign f L) as [[E ->]|[Hs Hb]].
  { split; [exact L|]. split; [reflexivity|]. intros _. split; [by vm_compute|reflexivity]. }
  destruct (legal_num f L ltac:(clear -Hs; lia)) as (_ & H0 & _).
  destruct f as [m s e]. cbn [mant f_sign f_exp] in *. pose proof (lg_length _ L) as Hn. pose proof (lg_digits _ L) as Hl. cbn [mant] in Hn, Hl.
  unfold r. clear r. destruct (Z.lt_ge_cases e (-1)) as [Hlt|Hge].
  { unfold flt_round. cbn [f_exp]. apply Z.ltb_lt in Hlt as Hb1. rewrite Hb1. split; [apply flt_zero_legal|]. split; [clear -Hlt; lia|]. intros _.
    rewrite nearest_small; [split; [by vm_compute|]; by rewrite Z.mul_0_r| |exact Hlt]. split; [|apply Hb]. eapply Z.le_trans; [|apply Hb]. by vm_compute. }
  destruct (Z.le_gt_cases 7 e) as [Hle|Hlt].
  { unfold flt_round. cbn [f_exp]. apply Z.ltb_ge in Hge. rewrite Hge. assert ((Z.of_nat MANT_SIZE <=? e + 1) = true) as -> by (apply Z.leb_le; clear -Hle; unfold MANT_SIZE; lia).
    split; [exact L|]. split; [reflexivity|]. clear -Hle. lia. }
  assert (exists n, e = Z.of_nat n - 1 /\ (n < MANT_SIZE)%nat) as (n & -> & Hn8) by (exists (Z.to_nat (e + 1)); clear -Hlt Hge; unfold MANT_SIZE; lia).
  destruct (flt_round_digits m s n Hl Hn Hs H0 Hn8) as (H1 & H2 & H3). split; [exact H1|]. split; [clear -Hlt; lia|]. intros _. by split.
Qed.

(** ** Witnesses *)

(** 1.5 and -98304.5. *)
Definition ex_f1 : flt := Flt [1; 32768; 0; 0; 0; 0; 0; 0] 1 0.
Definition ex_f2 : flt := Flt [1; 32768; 32768; 0; 0; 0; 0; 0] (-1) 1.

Lemma ex_f1_legal : legal ex_f1.
Proof. apply (bool_decide_unpack _). vm_compute. exact I. Qed.

Lemma ex_f2_legal : legal ex_f2.
Proof. apply (bool_decide_unpack _). vm_compute. exact I. Qed.

Definition ex_LONG_MAX : Z := 9223372036854775807.

Lemma flt_mul_rounded_witness :
  flt_mul ex_LONG_MAX ex_f1 ex_f2 = Some (Ok (Flt [2; 16384; 49152; 0; 0; 0; 0; 0] (-1) 1)).
Proof. rewrite (proj1 (flt_mul_rounded ex_LONG_MAX ex_f1 ex_f2 ex_f1_legal ex_f2_legal)). vm_compute. reflexivity. Defined.

Lemma flt_add_rounded_witness :
  flt_add ex_LONG_MAX ex_f1 ex_f2 = Ok (Flt [1; 32767; 0; 0; 0; 0; 0; 0] (-1) 1).
Proof.
  rewrite (proj1 (flt_add_rounded ex_LONG_MAX ex_f1 ex_f2 ex_f1_legal ex_f2_legal ltac:(by vm_compute) ltac:(by vm_compute) ltac:(right; by vm_compute))).
  vm_compute. reflexivity.
Defined.

Lemma flt_cmp_order_witness : flt_cmp ex_f1 ex_f2 = 1.
Proof. rewrite (flt_cmp_order ex_f1 ex_f2 ex_f1_legal ex_f2_legal). vm_compute. reflexivity. Defined.

Lemma flt_round_nearest_witness :
  legal (flt_round ex_f2) /\ (7 <= f_exp ex_f2 -> flt_round ex_f2 = ex_f2) /\
  (f_exp ex_f2 < 7 -> 0 <= f_exp (flt_round ex_f2) <= 7 /\
    num (flt_round ex_f2) = f_sign ex_f2 * nearest (dval (mant ex_f2)) (f_exp ex_f2) * FBASE ^ (7 - f_exp (flt_round ex_f2))).
Proof. exact (flt_round_nearest ex_f2 ex_f2_legal). Defined.

Example ex_round : flt_round ex_f2 = Flt [1; 32769; 0; 0; 0; 0; 0; 0] (-1) 1.
Proof. reflexivity. Qed.

(** The digits that the alignment drops can turn the result of a subtraction:
    one less a little more than half a unit of the last digit is one, although
    the number below it is nearer. *)
Example flt_add_misrounds :
  let f1 := Flt [1; 0; 0; 0; 0; 0; 0; 0] 1 0 in
  let f2 := Flt [32768; 0; 0; 0; 0; 0; 0; 1] (-1) (-9) in
  legal f1 /\ legal f2 /\ flt_add ex_LONG_MAX f1 f2 = Ok f1 /\
  sum_result ex_LONG_MAX (sum_num f1 f2) (sum_exp f1 f2) = Ok (Flt (replicate 8 65535) 1 (-1)).
Proof. split; [|split]; [apply (bool_decide_unpack _); vm_compute; exact I..|]. split; vm_compute; reflexivity. Qed.
