(* ===== verification/TransNumbers.v ===== *)
(** * TransNumbers: the array of numbers of the installers

    Models the rest of trans/src/common/flpt/flpt.c that the reader of TDF and
    the 64 bit integers use: the array [flptnos] with its list of free
    elements, numbers from integers and from digits; with f64.c, integers of 64
    bits, and the part of trans/src/common/utility/int64.c for hosts without
    them. [None] is the use of memory outside an array. *)
From stdpp Require Import base list list_numbers numbers.
From Stdlib Require Import ZArith Lia.
From S2P Require Import Prelude TransFlpt.

(** An [int]. *)
Abbreviation s32 := (swrap 32).

Section Numbers.
(** What the memory that is added to the array holds. *)
Variable junk : nat -> flt.

(** ** Memory allocation *)

(** An element that is not in use holds in its exponent the number of the next
    one; [tot_flpts] is the length of the array. *)
Record flpts := Flpts { flptnos : list flt; flptfree : Z; flpt_left : Z }.

Definition initial_flpts : nat := 50.
Definition extra_flpts : nat := 50.

Definition set_exp (f : flt) (e : Z) : flt := Flt (mant f) (f_sign f) e.

Definition get_flpt (r : Z) (s : flpts) : option flt := if r <? 0 then None else flptnos s !! Z.to_nat r.

Definition put_flpt (r : Z) (f : flt) (s : flpts) : option flpts :=
  _ ← get_flpt r s; Some (Flpts (<[Z.to_nat r := f]> (flptnos s)) (flptfree s) (flpt_left s)).

Definition more_flpts (s : flpts) : flpts :=
  let n := length (flptnos s) in
  Flpts (flptnos s ++ junk n :: ((fun i => set_exp (junk i) (Z.of_nat i - 1)) <$> seq (S n) (extra_flpts - 1)))
    (Z.of_nat (n + extra_flpts) - 1) (Z.of_nat extra_flpts).

Definition new_flpt (s : flpts) : option (Z * flpts) :=
  let r := flptfree s in
  f ← get_flpt r s;
  let s := Flpts (flptnos s) (f_exp f) (flpt_left s - 1) in
  Some (r, if flpt_left s =? 0 then more_flpts s else s).

Definition flpt_ret (f : Z) (s : flpts) : option flpts :=
  cell ← get_flpt f s;
  s ← put_flpt f (set_exp cell (flptfree s)) s;
  Some (Flpts (flptnos s) f (flpt_left s + 1)).

(** [fzero_no], [fone_no] and the array. *)
Definition init_flpt : option (Z * Z * flpts) :=
  let cells := (fun i => Flt (replicate MANT_SIZE 0) 0 (Z.of_nat (i - 1))) <$> seq 0 initial_flpts in
  let s := Flpts cells (Z.of_nat initial_flpts - 1) (Z.of_nat initial_flpts) in
  '(fzero_no, s) ← new_flpt s;
  '(fone_no, s) ← new_flpt s;
  s ← put_flpt fzero_no flt_zero s;
  s ← put_flpt fone_no (Flt (1 :: replicate (MANT_SIZE - 1) 0) 1 0) s;
  Some (fzero_no, fone_no, s).

(** ** Comparison *)

Definition cmpflpt (a b : Z) (testno : Z) (s : flpts) : option bool :=
  fa ← get_flpt a s;
  fb ← get_flpt b s;
  let res := flt_cmp fa fb in
  Some (if testno =? 1 then res =? 1
    else if testno =? 2 then negb (res =? -1)
    else if testno =? 3 then res =? -1
    else if testno =? 4 then negb (res =? 1)
    else if testno =? 5 then res =? 0
    else negb (res =? 0)).

(** ** Numbers from integers *)

(** The two halves of [n], without a leading zero. *)
Definition int_digits (n : Z) : list Z :=
  let hi := Z.land (Z.shiftr n 16) 65535 in
  let lo := Z.land n 65535 in
  if hi =? 0 then if lo =? 0 then [] else [lo] else [hi; lo].

Definition floatrep_aux (n sign : Z) (s : flpts) : option (Z * flpts) :=
  '(res, s) ← new_flpt s;
  let fr :=
    if n =? 0 then flt_zero
    else
      let l := int_digits n in
      Flt (l ++ replicate (MANT_SIZE - length l) 0) sign (Z.of_nat (length l) - 1) in
  s ← put_flpt res fr s;
  Some (res, s).

Definition floatrep (n : Z) (s : flpts) : option (Z * flpts) :=
  if n <? 0 then floatrep_aux (s32 (- n)) (-1) s else floatrep_aux n 1 s.

Definition floatrep_unsigned (n : Z) (s : flpts) : option (Z * flpts) := floatrep_aux (s32 n) 1 s.

(** ** Numbers from digits *)

Fixpoint mul_carry (l : list Z) (base : Z) : list Z * Z :=
  match l with
  | [] => ([], 0)
  | d :: l =>
      let '(l, c) := mul_carry l base in
      let c := u32 (d * base + c) in
      (c mod FBASE :: l, c / FBASE)
  end.

(** A digit before the others; the ones up to the new exponent move. *)
Definition push_digit (c : Z) (f : flt) : flt :=
  let e := f_exp f + 1 in
  let i := Z.to_nat (if Z.of_nat MANT_SIZE <=? e then Z.of_nat MANT_SIZE - 1 else e) in
  Flt (c :: take i (mant f) ++ drop (S i) (mant f)) (f_sign f) e.

Definition flpt_newdig (dig : Z) (res : flt) (base : Z) : flt :=
  let sign := if dig =? 0 then f_sign res else 1 in
  let '(l, c) := mul_carry (mant res) base in
  let res := Flt l sign (f_exp res) in
  let res := if c =? 0 then res else push_digit c res in
  if Z.of_nat MANT_SIZE <=? f_exp res then res
  else
    let n := Z.to_nat (f_exp res + 1) in
    let '(l, c) := add_carry (take n (mant res)) dig in
    let res := Flt (l ++ drop n (mant res)) (f_sign res) (f_exp res) in
    if c =? 0 then res else push_digit c res.
End Numbers.

(** ** Integers of 64 bits *)

Record flt64 := Flt64 { big : Z; small : Z }.

Definition lnot32 (v : Z) : Z := u32 (Z.lnot v).

Definition negate64 (a : flt64) : flt64 :=
  let small' := lnot32 (small a) in
  let big' := Z.lnot (big a) in
  Flt64 (if small' =? 4294967295 then s32 (big' + 1) else big') (u32 (small' + 1)).

(** The integer, and whether there was an overflow. *)
Definition flt_to_f64 (f : flt) (sg : bool) : option (flt64 * bool) :=
  let i := f_exp f in
  let d k := mant f !! Z.to_nat k in
  '(res, ov) ← (if (f_sign f =? 0) || (i <? 0) then Some (Flt64 0 0, false)
    else
      small ← d i;
      small ← (if 0 <? i then x ← d (i - 1); Some (u32 (small + Z.shiftl x 16)) else Some small);
      big ← (if 1 <? i then d (i - 2) else Some 0);
      big ← (if 2 <? i then x ← d (i - 3); Some (s32 (big + s32 (Z.shiftl x 16))) else Some big);
      Some (Flt64 big small, (3 <? i) || (sg && (big <? 0))));
  Some (if f_sign f =? -1 then negate64 res else res, ov).

(** The number that is left in the element [r]. *)
Definition f64_number (a : flt64) (sg : bool) : flt :=
  if (big a =? 0) && (small a =? 0) then flt_zero
  else
    let '(a, sign) := if sg && (big a <? 0) then (negate64 a, -1) else (a, 1) in
    let lo := Z.land (small a) 65535 in
    let hi := Z.shiftr (Z.land (small a) 4294901760) 16 in
    let l :=
      if big a =? 0 then if Z.land (small a) 4294901760 =? 0 then [lo] else [hi; lo]
      else if Z.land (big a) (-65536) =? 0 then [Z.land (big a) 65535; hi; lo]
      else [Z.land (Z.shiftr (u32 (big a)) 16) 65535; Z.land (big a) 65535; hi; lo] in
    Flt (l ++ replicate (MANT_SIZE - length l) 0) sign (Z.of_nat (length l) - 1).

Section Int64.
Variable junk : nat -> flt.
Variable LONG_MAX : Z.

Definition f64_to_flt (a : flt64) (sg : bool) (s : flpts) : option (Z * flpts) :=
  '(r, s) ← new_flpt junk s;
  s ← put_flpt r (f64_number a sg) s;
  Some (r, s).

(** The value, and whether it is the number of an element. *)
Definition f64_to_flpt (a : flt64) (sg : bool) (sz : Z) (s : flpts) : option (Z * bool * flpts) :=
  let t := s32 (small a) in
  if sg && (Z.shiftr t 31 =? big a) then Some (t, false, s)
  else if negb sg && (big a =? 0) && ((Z.land (small a) 2147483648 =? 0) || (sz <=? 32)) then Some (t, false, s)
  else '(r, s) ← f64_to_flt a sg s; Some (r, true, s).

Definition int_to_f64 (i : Z) (sg : bool) : flt64 :=
  Flt64 (if sg && (i <? 0) then -1 else 0) (u32 i).

(** An operation on integers of 64 bits through numbers. [Throw] is the error
    that is reported; the element of the result is then undefined. *)
Definition int64_op (op : flt -> flt -> option (result flt_status flt)) (a b : flt64) (sgned : bool) (s : flpts) :
    option (result flt_status (flt64 * flpts)) :=
  '(fresno, s) ← new_flpt junk s;
  '(fa, s) ← f64_to_flt a sgned s;
  '(fb, s) ← f64_to_flt b sgned s;
  xa ← get_flpt fa s;
  xb ← get_flpt fb s;
  status ← op xa xb;
  match status with
  | Throw e => Some (Throw e)
  | Ok fres =>
      s ← put_flpt fresno fres s;
      '(v, _) ← flt_to_f64 fres sgned;
      s ← flpt_ret fresno s;
      s ← flpt_ret fa s;
      s ← flpt_ret fb s;
      Some (Ok (v, s))
  end.

Definition INT64_mult := int64_op (flt_mul LONG_MAX).
Definition INT64_add := int64_op (fun a b => Some (flt_add LONG_MAX a b)).
Definition INT64_subtract := int64_op (fun a b => Some (flt_sub LONG_MAX a b)).

Definition make_INT64 (big small : Z) : flt64 := Flt64 big small.

Definition INT64_increment (arg : flt64) := INT64_add arg (make_INT64 0 1) true.
Definition INT64_decrement (arg : flt64) := INT64_subtract arg (make_INT64 0 1) true.

Definition INT64_or (a b : flt64) : flt64 := Flt64 (Z.lor (big a) (big b)) (Z.lor (small a) (small b)).
Definition INT64_and (a b : flt64) : flt64 := Flt64 (Z.land (big a) (big b)) (Z.land (small a) (small b)).
Definition INT64_not (arg : flt64) : flt64 := Flt64 (Z.lnot (big arg)) (lnot32 (small arg)).

Definition INT64_shift_left (arg : flt64) (shift : Z) (sgned : bool) :=
  let multiplier :=
    if shift <=? 31 then Flt64 0 (u32 (Z.shiftl 1 shift)) else Flt64 (s32 (Z.shiftl 1 (shift - 32))) 0 in
  INT64_mult arg multiplier sgned.

(** [spare]: as in [flt_div]. *)
Definition INT64_divide (spare : list Z) := int64_op (flt_div spare).

Definition INT64_shift_right (spare : list Z) (arg : flt64) (shift : Z) (sgned : bool) :=
  let divisor :=
    if shift <=? 31 then Flt64 0 (u32 (Z.shiftl 1 shift)) else Flt64 (s32 (Z.shiftl 1 (shift - 32))) 0 in
  INT64_divide spare arg divisor sgned.

Definition INT64_eq (a b : flt64) : bool := (small a =? small b) && (big a =? big b).
Definition INT64_leq (a b : flt64) : bool := (big a <? big b) || ((big a =? big b) && (small a <=? small b)).
Definition INT64_lt (a b : flt64) : bool := (big a <? big b) || ((big a =? big b) && (small a <? small b)).
End Int64.

(** On hosts with 64 bits. *)
Definition flt64_to_INT64 (x : flt64) : Z := swrap 64 (small x + Z.shiftl (big x) 32).
