(* ===== verification/TransNumbersSpec.v ===== *)
(** * TransNumbersSpec: integers as numbers of the installers

    The number that stands for an integer [a] is [rounded a 0]: the functions
    of TransNumbers make it from machine integers and from digits, and give
    the integer back modulo 2^64; the array of numbers hands out elements that
    are not in use. *)
From stdpp Require Import base list list_numbers numbers.
From Stdlib Require Import ZArith Lia.
From S2P Require Import Prelude TransFlpt TransFlptSpec TransFlptArith TransNumbers.

(** ** Integers *)

Lemma int_rep f a : legal f -> f_exp f <= 7 -> num f = a * FBASE ^ (7 - f_exp f) -> f = rounded a 0.
Proof.
  intros L He H. rewrite <- (rounded_self f L), H. replace (7 - f_exp f) with (Z.of_nat (Z.to_nat (7 - f_exp f))) by lia.
  rewrite rounded_scale. f_equal. lia.
Qed.

Lemma int_digits_bound a : a <> 0 -> Z.abs a < FBASE ^ 8 -> 1 <= num_digits (Z.abs a) <= 8.
Proof. intros Ha Hb. pose proof (num_digits_pos (Z.abs a)). pose proof (num_digits_le (Z.abs a) 8). lia. Qed.

Lemma int_rep_inv a : a <> 0 -> Z.abs a < FBASE ^ 8 ->
  legal (rounded a 0) /\ f_sign (rounded a 0) = Z.sgn a /\ f_exp (rounded a 0) = num_digits (Z.abs a) - 1 /\
  dval (mant (rounded a 0)) = Z.abs a * FBASE ^ (8 - num_digits (Z.abs a)).
Proof.
  intros Ha Hb. split; [apply rounded_legal|]. pose proof (int_digits_bound a Ha Hb) as Hk. destruct (rounded_case a 0 Ha) as (q & Hq & Hex & _ & ->).
  set (k := num_digits (Z.abs a)) in *. specialize (Hex ltac:(lia)).
  assert (q < FBASE ^ 8) as Hlt.
  { rewrite Hex. replace (FBASE ^ 8) with (FBASE ^ k * FBASE ^ (8 - k)) by (rewrite <- Z.pow_add_r by lia; f_equal; lia).
    apply Z.mul_lt_mono_pos_r; [apply Z.pow_pos_nonneg; [by vm_compute|clear -Hk; lia]|]. apply num_digits_bound. clear -Ha. lia. }
  assert (0 <= q) as H0 by (eapply Z.le_trans; [|apply Hq]; by vm_compute).
  destruct (Z.eqb_spec q (FBASE ^ 8)) as [E|_]; [rewrite E in Hlt; by apply Z.lt_irrefl in Hlt|].
  cbn [f_sign f_exp mant]. split; [reflexivity|]. split; [clear; lia|]. rewrite dval_digits; [exact Hex|]. split; [exact H0|exact Hlt].
Qed.

(** A number of a few digits that stands for an integer. *)
Lemma int_of_digits l s : Forall digit l -> (0 < length l <= MANT_SIZE)%nat -> nth 0 l 0 <> 0 -> s = 1 \/ s = -1 ->
  Flt (l ++ replicate (MANT_SIZE - length l) 0) s (Z.of_nat (length l) - 1) = rounded (s * dval l) 0.
Proof.
  intros Hl Hn H0 Hs. apply int_rep; cbn [f_exp].
  - split; cbn [mant f_sign].
    + rewrite length_app, length_replicate. lia.
    + apply Forall_app. split; [exact Hl|apply zeros_digits].
    + right. split; [exact Hs|]. by rewrite app_nth1 by lia.
  - unfold MANT_SIZE in Hn. lia.
  - unfold num. cbn [mant f_sign]. rewrite dval_app, dval_zeros, length_replicate.
    replace (7 - (Z.of_nat (length l) - 1)) with (Z.of_nat (MANT_SIZE - length l)) by (unfold MANT_SIZE in *; lia). ring.
Qed.

(** The digits of the number that stands for an integer. *)
Lemma int_mant a : a <> 0 -> Z.abs a < FBASE ^ 8 ->
  exists l, (0 < length l <= MANT_SIZE)%nat /\ Forall digit l /\ nth 0 l 0 <> 0 /\ dval l = Z.abs a /\ Z.of_nat (length l) = num_digits (Z.abs a) /\
    rounded a 0 = Flt (l ++ replicate (MANT_SIZE - length l) 0) (Z.sgn a) (Z.of_nat (length l) - 1).
Proof.
  intros Ha Hb. pose proof (int_digits_bound a Ha Hb) as Hk. set (k := Z.to_nat (num_digits (Z.abs a))).
  pose proof (num_digits_bound (Z.abs a) ltac:(lia)) as [H1 H2].
  assert (dval (digits k (Z.abs a)) = Z.abs a) as Ev.
  { apply dval_digits. split; [clear; lia|]. unfold k. rewrite Z2Nat.id by (clear -Hk; lia). exact H2. }
  assert (length (digits k (Z.abs a)) = k) as Hlen by apply digits_length.
  assert (nth 0 (digits k (Z.abs a)) 0 <> 0) as H0.
  { apply (head_val _ (k - 1) (digits_ok _ _)); [rewrite Hlen; unfold k; clear -Hk; lia|]. rewrite Ev.
    replace (Z.of_nat (k - 1)) with (num_digits (Z.abs a) - 1) by (unfold k; clear -Hk; lia). exact H1. }
  exists (digits k (Z.abs a)). rewrite Hlen. split; [unfold k, MANT_SIZE; clear -Hk; lia|]. split; [apply digits_ok|]. split; [exact H0|]. split; [exact Ev|].
  split; [unfold k; clear -Hk; lia|].
  pose proof (int_of_digits (digits k (Z.abs a)) (Z.sgn a) (digits_ok _ _) ltac:(rewrite Hlen; unfold k, MANT_SIZE; clear -Hk; lia) H0 ltac:(clear -Ha; lia)) as E.
  rewrite Hlen, Ev in E. rewrite E. f_equal. clear. lia.
Qed.

(** ** Machine words *)

Lemma s32_range v : -2147483648 <= s32 v < 2147483648.
Proof. unfold swrap. change (2 ^ (32 - 1)) with 2147483648. change (2 ^ 32) with 4294967296. pose proof (Z.mod_pos_bound (v + 2147483648) 4294967296 eq_refl). lia. Qed.

Lemma s32_u32 v : u32 (s32 v) = u32 v.
Proof.
  unfold u32, wrap, UINT_BITS, swrap. change (2 ^ (32 - 1)) with 2147483648. change (2 ^ 32) with 4294967296.
  rewrite Zminus_mod_idemp_l. f_equal. lia.
Qed.

Lemma s32_small v : -2147483648 <= v < 2147483648 -> s32 v = v.
Proof. intros H. unfold swrap. change (2 ^ (32 - 1)) with 2147483648. change (2 ^ 32) with 4294967296. rewrite Z.mod_small; lia. Qed.

Lemma u32_unsigned v : 0 <= u32 v < 4294967296.
Proof. apply (Z.mod_pos_bound v 4294967296). reflexivity. Qed.

(** A signed value from its bits. *)
Lemma u32_signed v : -2147483648 <= v < 2147483648 -> u32 v = if v <? 0 then v + 4294967296 else v.
Proof.
  intros H. unfold u32, wrap, UINT_BITS. change (2 ^ 32) with 4294967296. destruct (Z.ltb_spec v 0).
  - rewrite <- (Z.mod_small (v + 4294967296) 4294967296) by lia. rewrite <- (Z.mod_add v 1 4294967296) by lia. f_equal.
  - apply Z.mod_small. lia.
Qed.

Lemma land_lo v : Z.land v 65535 = v mod 65536.
Proof. change 65535 with (Z.ones 16). by rewrite Z.land_ones by lia. Qed.

Lemma land_hi v : 0 <= v < 4294967296 -> Z.land v 4294901760 = 65536 * (v / 65536).
Proof.
  intros Hv. change 4294901760 with (Z.land (Z.ones 32) (Z.lnot (Z.ones 16))). rewrite Z.land_assoc, Z.land_ones by lia. rewrite Z.mod_small by exact Hv.
  rewrite <- Z.ldiff_land, Z.ldiff_ones_r, Z.shiftl_mul_pow2, Z.shiftr_div_pow2 by lia. change (2 ^ 16) with 65536. lia.
Qed.

Lemma shiftr16 v : Z.shiftr v 16 = v / 65536.
Proof. by rewrite Z.shiftr_div_pow2 by lia. Qed.

(** ** Integers of 64 bits *)

Record wf64 (a : flt64) : Prop := { wf_big : -2147483648 <= big a < 2147483648; wf_small : 0 <= small a < 4294967296 }.

(** The 64 bits. *)
Definition uval (a : flt64) : Z := u32 (big a) * 4294967296 + small a.

(** The integer. *)
Definition val64 (sg : bool) (a : flt64) : Z := (if sg then big a else u32 (big a)) * 4294967296 + small a.

Lemma uval_range a : wf64 a -> 0 <= uval a < 18446744073709551616.
Proof. intros [H1 H2]. unfold uval. pose proof (u32_unsigned (big a)). lia. Qed.

Lemma uval_inj a b : wf64 a -> wf64 b -> uval a = uval b -> a = b.
Proof.
  intros [A1 A2] [B1 B2] H. unfold uval in H. rewrite !u32_signed in H by assumption. destruct a as [x y], b as [x' y']. cbn [big small] in *.
  destruct (Z.ltb_spec x 0), (Z.ltb_spec x' 0); f_equal; lia.
Qed.

Lemma val64_uval sg a : wf64 a -> val64 sg a mod 18446744073709551616 = uval a.
Proof.
  intros H. pose proof (uval_range a H) as Hr. destruct H as [H1 H2]. unfold val64, uval in *. destruct sg; [|by apply Z.mod_small].
  rewrite u32_signed in * by exact H1. destruct (Z.ltb_spec (big a) 0); [|by apply Z.mod_small].
  rewrite <- (Z.mod_add _ 1) by lia. rewrite Z.mod_small; lia.
Qed.

Lemma negate64_ok a : wf64 a -> wf64 (negate64 a) /\ uval (negate64 a) = (- uval a) mod 18446744073709551616.
Proof.
  intros [H1 H2]. unfold negate64, lnot32. rewrite (Z.lnot_eq_pred_opp (small a)), (Z.lnot_eq_pred_opp (big a)).
  assert (u32 (- small a - 1) = 4294967295 - small a) as -> by (unfold u32, wrap, UINT_BITS; change (2 ^ 32) with 4294967296; rewrite <- (Z.mod_add _ 1) by lia; rewrite Z.mod_small; lia).
  unfold uval. rewrite (u32_signed (big a)) by exact H1. destruct (Z.eqb_spec (4294967295 - small a) 4294967295) as [E|E].
  - assert (small a = 0) as -> by lia. cbn [big small]. change (u32 (4294967295 - 0 + 1)) with 0. split; [split; cbn [big small]; [apply s32_range|lia]|].
    rewrite s32_u32. replace (- big a - 1 + 1) with (- big a) by lia. rewrite !Z.add_0_r.
    change 18446744073709551616 with (4294967296 * 4294967296). rewrite <- Z.mul_opp_l, Z.mul_mod_distr_r by lia. f_equal.
    unfold u32, wrap, UINT_BITS. change (2 ^ 32) with 4294967296. destruct (Z.ltb_spec (big a) 0); [|reflexivity].
    rewrite <- (Z.mod_add (- (big a + 4294967296)) 1) by lia. f_equal. lia.
  - cbn [big small]. rewrite (u32_small (4294967295 - small a + 1)) by lia. split; [split; cbn [big small]; lia|].
    rewrite u32_signed by lia. apply (Z.mod_unique _ _ (-1)).
    + left. destruct (Z.ltb_spec (- big a - 1) 0); lia.
    + destruct (Z.ltb_spec (big a) 0), (Z.ltb_spec (- big a - 1) 0); lia.
Qed.

(** ** From an integer of 64 bits to a number and back *)

(** One to four digits that stand for [u]. *)
Lemma few_digits l u s : Forall digit l -> (0 < length l <= 4)%nat -> nth 0 l 0 <> 0 -> s = 1 \/ s = -1 -> dval l = u ->
  Flt (l ++ replicate (MANT_SIZE - length l) 0) s (Z.of_nat (length l) - 1) = rounded (s * u) 0.
Proof. intros Hl Hn H0 Hs <-. apply int_of_digits; auto. unfold MANT_SIZE. lia. Qed.

Lemma digit_mod v : digit (v mod 65536).
Proof. apply (Z.mod_pos_bound v 65536). reflexivity. Qed.

Lemma unsigned_number a s : wf64 a -> uval a <> 0 -> s = 1 \/ s = -1 ->
  (let lo := Z.land (small a) 65535 in
   let hi := Z.shiftr (Z.land (small a) 4294901760) 16 in
   let l :=
     if big a =? 0 then if Z.land (small a) 4294901760 =? 0 then [lo] else [hi; lo]
     else if Z.land (big a) (-65536) =? 0 then [Z.land (big a) 65535; hi; lo]
     else [Z.land (Z.shiftr (u32 (big a)) 16) 65535; Z.land (big a) 65535; hi; lo] in
   Flt (l ++ replicate (MANT_SIZE - length l) 0) s (Z.of_nat (length l) - 1)) = rounded (s * uval a) 0.
Proof.
  intros [H1 H2] H0 Hs. cbv zeta. rewrite (land_hi (small a)), !land_lo, !shiftr16 by exact H2. rewrite (Z.mul_comm 65536 (small a / 65536)), Z.div_mul by lia.
  unfold uval in *. set (U := u32 (big a)) in *. pose proof (u32_unsigned (big a) : 0 <= U < 4294967296) as HU.
  assert (big a mod 65536 = U mod 65536) as ->.
  { unfold U. rewrite u32_signed by exact H1. destruct (Z.ltb_spec (big a) 0); [|reflexivity]. rewrite <- (Z.mod_add (big a) 65536 65536) by lia. reflexivity. }
  assert ((big a =? 0) = (U =? 0)) as ->.
  { unfold U. rewrite u32_signed by exact H1. destruct (Z.ltb_spec (big a) 0); [|reflexivity]. apply Bool.eq_iff_eq_true. rewrite !Z.eqb_eq. lia. }
  assert ((Z.land (big a) (-65536) =? 0) = (U / 65536 =? 0)) as ->.
  { change (-65536) with (Z.lnot (Z.ones 16)). rewrite <- Z.ldiff_land, Z.ldiff_ones_r, Z.shiftl_mul_pow2, shiftr16 by lia. change (2 ^ 16) with 65536.
    unfold U. rewrite u32_signed by exact H1. apply Bool.eq_iff_eq_true. rewrite !Z.eqb_eq. destruct (Z.ltb_spec (big a) 0); Z.div_mod_to_equations; lia. }
  assert (0 <= small a / 65536 < 65536) as Hh by (Z.div_mod_to_equations; lia). assert (0 <= U / 65536 < 65536) as HUh by (Z.div_mod_to_equations; lia).
  rewrite (Z.mod_small (U / 65536)) by exact HUh.
  pose proof (Z.div_mod U 65536 ltac:(lia)) as EU. pose proof (Z.div_mod (small a) 65536 ltac:(lia)) as ES.
  pose proof (digit_mod U) as D1. pose proof (digit_mod (small a)) as D2.
  change (u32 (big a)) with U.
  destruct (Z.eqb_spec U 0) as [EU0|EU0]; [destruct (Z.eqb_spec (small a / 65536 * 65536) 0) as [E|E]|destruct (Z.eqb_spec (U / 65536) 0) as [E|E]];
    apply few_digits; try exact Hs; try (cbn [length]; lia); try (repeat (apply Forall_cons_2; [first [assumption|unfold digit, FBASE; lia]|]); apply Forall_nil_2);
    cbn [nth dval length]; change (Z.of_nat 3) with 3; change (Z.of_nat 2) with 2; change (Z.of_nat 1) with 1; change (Z.of_nat 0) with 0;
    change (FBASE ^ 3) with 281474976710656; change (FBASE ^ 2) with 4294967296; change (FBASE ^ 1) with 65536; change (FBASE ^ 0) with 1; lia.
Qed.

(** The number that is made of an integer of 64 bits stands for it. *)
Lemma f64_number_ok a sg : wf64 a -> f64_number a sg = rounded (val64 sg a) 0.
Proof.
  intros Hw. pose proof Hw as [H1 H2]. unfold f64_number.
  destruct ((big a =? 0) && (small a =? 0)) eqn:E0.
  { bool_to_prop. unfold val64. rewrite H, H0. by destruct sg. }
  assert (uval a <> 0) as Hu.
  { unfold uval. rewrite u32_signed by exact H1. intros E. apply Bool.andb_false_iff in E0. rewrite !Z.eqb_neq in E0. destruct (Z.ltb_spec (big a) 0); lia. }
  pose proof (uval_range a Hw) as Hr. destruct (sg && (big a <? 0)) eqn:Es.
  - apply andb_true_iff in Es as [-> Hneg]. destruct (negate64_ok a Hw) as [Hw' E']. pose proof (uval_range _ Hw') as Hr'.
    assert (uval (negate64 a) = 18446744073709551616 - uval a) as E.
    { rewrite E'. symmetry. apply (Z.mod_unique _ _ (-1)); [left|]; lia. }
    etransitivity; [exact (unsigned_number (negate64 a) (-1) Hw' ltac:(lia) ltac:(by right))|]. f_equal. rewrite E. unfold val64, uval. rewrite u32_signed, Hneg by exact H1. lia.
  - etransitivity; [exact (unsigned_number a 1 Hw Hu ltac:(by left))|]. f_equal. unfold val64, uval. destruct sg; [|lia]. cbn [andb] in Es. rewrite u32_signed, Es by exact H1. lia.
Qed.

Lemma lookup_digit l j : Forall digit l -> (j < length l)%nat -> l !! (length l - 1 - j)%nat = Some (dval l / FBASE ^ Z.of_nat j mod FBASE).
Proof.
  intros Hl Hj. set (n := (length l - j)%nat). assert (dval (take n l) = dval l / FBASE ^ Z.of_nat j) as <-.
  { rewrite take_val by (auto; unfold n; lia). do 2 f_equal. unfold n. lia. }
  assert (length (take n l) = n) as Hn by (rewrite length_take; unfold n; lia).
  rewrite <- (lookup_take_lt l n) by (unfold n; lia). replace (length l - 1 - j)%nat with (n - 1)%nat by (unfold n; lia).
  pose proof (Forall_take _ n _ Hl) as Hd. destruct (take n l) as [|d t _] using rev_ind; [cbn in Hn; unfold n in Hn; lia|].
  rewrite length_app in Hn. cbn [length] in Hn. rewrite lookup_app_r by lia. replace (n - 1 - length t)%nat with 0%nat by lia. cbn.
  apply Forall_app in Hd as [_ Hd]. inversion Hd as [|? ? Hx _]; subst. rewrite dval_app. cbn [dval length]. change (FBASE ^ Z.of_nat 0) with 1. change (FBASE ^ Z.of_nat 1) with FBASE.
  rewrite Z.add_comm, Z.mod_add by discriminate. rewrite Z.mul_1_r, Z.add_0_r, Z.mod_small by exact Hx. reflexivity.
Qed.

(** The 64 bits of a magnitude, from its digits. *)
Definition magnitude64 (a : Z) : flt64 := Flt64 (s32 (a / 4294967296)) (a mod 4294967296).

Lemma magnitude64_ok a : 0 <= a -> wf64 (magnitude64 a) /\ uval (magnitude64 a) = a mod 18446744073709551616.
Proof.
  intros Ha. unfold magnitude64, uval. split; [split; cbn [big small]; [apply s32_range|apply Z.mod_pos_bound; lia]|]. cbn [big small].
  rewrite s32_u32. unfold u32, wrap, UINT_BITS. change (2 ^ 32) with 4294967296. change 18446744073709551616 with (4294967296 * 4294967296).
  rewrite Z.rem_mul_r by lia. lia.
Qed.

Lemma s32_add x y : s32 (x + s32 y) = s32 (x + y).
Proof.
  unfold swrap. change (2 ^ (32 - 1)) with 2147483648. change (2 ^ 32) with 4294967296. f_equal.
  replace (x + ((y + 2147483648) mod 4294967296 - 2147483648) + 2147483648) with (x + (y + 2147483648) mod 4294967296) by lia.
  rewrite Zplus_mod_idemp_r. f_equal. lia.
Qed.

Lemma s32_mod v : s32 (v mod 4294967296) = s32 v.
Proof. unfold swrap. change (2 ^ 32) with 4294967296. by rewrite Zplus_mod_idemp_l. Qed.

Lemma digits_mod32 a : 0 <= a -> a mod 65536 + a / 65536 mod 65536 * 65536 = a mod 4294967296.
Proof. intros Ha. change 4294967296 with (65536 * 65536). rewrite Z.rem_mul_r by lia. lia. Qed.

Lemma flt_to_f64_magnitude l s sg : Forall digit l -> (0 < length l <= MANT_SIZE)%nat -> s = 1 \/ s = -1 ->
  let a := dval l in
  flt_to_f64 (Flt (l ++ replicate (MANT_SIZE - length l) 0) s (Z.of_nat (length l) - 1)) sg =
    Some (if s =? -1 then negate64 (magnitude64 a) else magnitude64 a, (3 <? Z.of_nat (length l) - 1) || (sg && (s32 (a / 4294967296) <? 0))).
Proof.
  intros Hl Hn Hs a. unfold flt_to_f64. cbn [f_exp f_sign mant mbind option_bind].
  assert ((s =? 0) = false) as -> by (apply Z.eqb_neq; lia). assert ((Z.of_nat (length l) - 1 <? 0) = false) as -> by (apply Z.ltb_ge; lia). cbn [orb].
  pose proof (dval_bound l Hl) as Hb. fold a in Hb.
  assert (forall j k, k = Z.of_nat (length l) - 1 - Z.of_nat j -> (j < length l)%nat ->
    (l ++ replicate (MANT_SIZE - length l) 0) !! Z.to_nat k = Some (a / 65536 ^ Z.of_nat j mod 65536)) as Hd.
  { intros j k -> Hj. replace (Z.to_nat (Z.of_nat (length l) - 1 - Z.of_nat j)) with (length l - 1 - j)%nat by lia. rewrite lookup_app_l by lia. by apply (lookup_digit l j). }
  set (e := Z.of_nat (length l) - 1) in *. cbv zeta. rewrite (Hd 0%nat e) by lia. change (65536 ^ Z.of_nat 0) with 1. rewrite Z.div_1_r. cbn [mbind option_bind]. unfold magnitude64.
  assert (65536 ^ Z.of_nat 1 = 65536 /\ 65536 ^ Z.of_nat 2 = 4294967296 /\ 65536 ^ Z.of_nat 3 = 281474976710656) as (P1 & P2 & P3) by (by vm_compute).
  pose proof (digits_mod32 a ltac:(lia)) as E1. pose proof (digits_mod32 (a / 4294967296) ltac:(apply Z.div_pos; lia)) as E2. rewrite Z.div_div in E2 by lia. change (4294967296 * 65536) with 281474976710656 in E2.
  assert (forall x y, u32 (x mod 65536 + Z.shiftl (y mod 65536) 16) = x mod 65536 + y mod 65536 * 65536) as Hu.
  { intros x y. rewrite Z.shiftl_mul_pow2 by lia. change (2 ^ 16) with 65536. apply u32_small. pose proof (Z.mod_pos_bound x 65536 ltac:(lia)). pose proof (Z.mod_pos_bound y 65536 ltac:(lia)). lia. }
  assert (forall n, length l = n -> a < FBASE ^ Z.of_nat n) as Hlt by (intros n <-; apply Hb).
  assert (forall n, length l = n -> e = Z.of_nat n - 1) as He by (intros n <-; reflexivity). assert (0 <= a) as Ha0 by lia. clear Hb.
  destruct (Z.ltb_spec 0 e) as [G0|G0]; [rewrite (Hd 1%nat (e - 1)), P1 by lia; cbn [mbind option_bind]; rewrite Hu, E1|]; cbn [mbind option_bind].
  2:{ assert (length l = 1%nat) as N by lia. specialize (Hlt _ N). rewrite (He _ N). change (FBASE ^ Z.of_nat 1) with 65536 in Hlt.
      cbn [Z.ltb Z.compare Z.of_nat Z.sub Z.add Z.opp Z.pos_sub Pos.of_succ_nat]. rewrite (Z.div_small a 4294967296), !(Z.mod_small a) by lia. by destruct sg. }
  destruct (Z.ltb_spec 1 e) as [G1|G1]; [rewrite (Hd 2%nat (e - 2)), P2 by lia|]; cbn [mbind option_bind].
  2:{ assert (length l = 2%nat) as N by lia. specialize (Hlt _ N). rewrite (He _ N). change (FBASE ^ Z.of_nat 2) with 4294967296 in Hlt.
      rewrite (Z.div_small a 4294967296) by lia. by destruct sg. }
  destruct (Z.ltb_spec 2 e) as [G2|G2]; [rewrite (Hd 3%nat (e - 3)), P3 by lia|]; cbn [mbind option_bind].
  2:{ assert (length l = 3%nat) as N by lia. specialize (Hlt _ N). change (FBASE ^ Z.of_nat 3) with 281474976710656 in Hlt.
      assert (0 <= a / 4294967296 < 65536) as Hq by (split; [apply Z.div_pos; lia|apply Z.div_lt_upper_bound; lia]).
      rewrite (Z.mod_small (a / 4294967296)), s32_small by lia. reflexivity. }
  rewrite s32_add, Z.shiftl_mul_pow2 by lia. change (2 ^ 16) with 65536. rewrite E2, s32_mod. reflexivity.
Qed.

Lemma s32_negative v : (s32 v <? 0) = (2147483648 <=? v mod 4294967296).
Proof.
  rewrite <- (s32_mod v). pose proof (Z.mod_pos_bound v 4294967296 ltac:(lia)) as H. set (x := v mod 4294967296) in *.
  destruct (Z.leb_spec 2147483648 x) as [Hle|Hlt].
  - assert (s32 x = x - 4294967296) as ->; [|apply Z.ltb_lt; lia]. unfold swrap. change (2 ^ (32 - 1)) with 2147483648. change (2 ^ 32) with 4294967296.
    rewrite <- (Z.mod_add _ (-1)) by lia. rewrite Z.mod_small; lia.
  - rewrite s32_small by lia. apply Z.ltb_ge. lia.
Qed.

Definition f64_overflow (v : Z) (sg : bool) : bool :=
  (18446744073709551616 <=? Z.abs v) || (sg && (9223372036854775808 <=? Z.abs v mod 18446744073709551616)).

(** An integer of at most eight digits goes to its 64 bits. *)
Lemma flt_to_f64_ok v sg : Z.abs v < FBASE ^ 8 -> exists a, flt_to_f64 (rounded v 0) sg = Some (a, f64_overflow v sg) /\
  wf64 a /\ uval a = v mod 18446744073709551616.
Proof.
  intros Hv. destruct (Z.eq_dec v 0) as [->|H0].
  { exists (Flt64 0 0). split; [by destruct sg|]. split; [split; cbn; lia|reflexivity]. }
  destruct (int_mant v H0 Hv) as (l & Hn & Hl & Hh & Ea & Hk & ->). assert (Z.sgn v = 1 \/ Z.sgn v = -1) as Hs by (clear -H0; lia).
  rewrite flt_to_f64_magnitude by auto. rewrite Ea. destruct (magnitude64_ok (Z.abs v) ltac:(clear; lia)) as [W E]. set (m := magnitude64 (Z.abs v)) in *.
  assert ((3 <? Z.of_nat (length l) - 1) || (sg && (s32 (Z.abs v / 4294967296) <? 0)) = f64_overflow v sg) as ->.
  { unfold f64_overflow. f_equal.
    - rewrite Hk. pose proof (num_digits_bound (Z.abs v) ltac:(clear -H0; lia)) as [B1 B2]. set (k := num_digits (Z.abs v)) in *.
      apply Bool.eq_iff_eq_true. rewrite Z.ltb_lt, Z.leb_le. change 18446744073709551616 with (FBASE ^ 4). split; intros H.
      + eapply Z.le_trans; [|exact B1]. apply Z.pow_le_mono_r; [by vm_compute|clear -H; lia].
      + destruct (Z.le_gt_cases k 4) as [Hle|Hgt]; [|clear -Hgt; lia]. exfalso. assert (FBASE ^ k <= FBASE ^ 4) as Hp by (apply Z.pow_le_mono_r; [by vm_compute|exact Hle]).
        apply (Z.lt_irrefl (Z.abs v)). eapply Z.lt_le_trans; [exact B2|]. eapply Z.le_trans; [exact Hp|exact H].
    - f_equal. rewrite s32_negative. clear. change 18446744073709551616 with (4294967296 * 4294967296). rewrite Z.rem_mul_r by lia.
      pose proof (Z.mod_pos_bound (Z.abs v) 4294967296 ltac:(lia)). pose proof (Z.mod_pos_bound (Z.abs v / 4294967296) 4294967296 ltac:(lia)).
      apply Bool.eq_iff_eq_true. rewrite !Z.leb_le. lia. }
  destruct (Z.eqb_spec (Z.sgn v) (-1)) as [Hneg|Hpos].
  - destruct (negate64_ok m W) as [W' E']. eexists. split; [reflexivity|]. split; [exact W'|]. rewrite E', E.
    replace (v mod 18446744073709551616) with ((- Z.abs v) mod 18446744073709551616) by (f_equal; clear -Hneg; lia).
    rewrite <- (Z.sub_0_l (Z.abs v mod _)), <- (Z.sub_0_l (Z.abs v)), Zminus_mod_idemp_r. reflexivity.
  - eexists. split; [reflexivity|]. split; [exact W|]. rewrite E. f_equal. clear -Hs Hpos. lia.
Qed.

Lemma val64_bound sg a : wf64 a -> Z.abs (val64 sg a) < FBASE ^ 8.
Proof.
  intros [H1 H2]. assert (Z.abs (val64 sg a) <= 18446744073709551616) as H.
  { unfold val64. pose proof (u32_unsigned (big a)). destruct sg; lia. }
  eapply Z.le_lt_trans; [exact H|by vm_compute].
Qed.

(** An integer of 64 bits that is made a number and converted back is the
    same; an overflow is reported only, and wrongly, for the least signed
    integer. *)
Theorem f64_roundtrip a sg : wf64 a ->
  flt_to_f64 (f64_number a sg) sg = Some (a, sg && (val64 true a =? -9223372036854775808)).
Proof.
  intros Hw. rewrite f64_number_ok by exact Hw. destruct (flt_to_f64_ok (val64 sg a) sg (val64_bound sg a Hw)) as (b & E & Wb & Eb). rewrite E.
  rewrite val64_uval in Eb by exact Hw. apply (uval_inj b a Wb Hw) in Eb as ->. do 2 f_equal. clear E. destruct Hw as [H1 H2].
  unfold f64_overflow, val64. pose proof (u32_unsigned (big a)) as Hu. destruct sg; cbn [andb].
  - assert ((18446744073709551616 <=? Z.abs (big a * 4294967296 + small a)) = false) as -> by (apply Z.leb_gt; lia). cbn [orb].
    rewrite Z.mod_small by lia. apply Bool.eq_iff_eq_true. rewrite Z.leb_le, Z.eqb_eq. lia.
  - rewrite orb_false_r. apply Z.leb_gt. lia.
Qed.

Lemma f64_roundtrip_witness : flt_to_f64 (f64_number (Flt64 (-2) 65535) true) true = Some (Flt64 (-2) 65535, false).
Proof. exact (f64_roundtrip (Flt64 (-2) 65535) true ltac:(split; cbn; lia)). Defined.
