(* ===== verification/TransFlptDiv.v ===== *)
(** * TransFlptDiv: the division of the installers

    flt_div (trans/src/common/flpt/flpt.c) makes a bit of the quotient in each
    round, by adding or subtracting a divisor that is halved and loses its last
    bits. The quotient is off by less than one part in 2^111, and an integer
    when it should be. *)
From stdpp Require Import base list list_numbers numbers.
From Stdlib Require Import ZArith Lia.
From S2P Require Import Prelude TransFlpt TransFlptSpec TransFlptArith TransNumbers TransNumbersSpec.

(** ** The loops over digits *)

Lemma u16_digit v : digit (u16 v).
Proof. apply (Z.mod_pos_bound v (2 ^ 16)). lia. Qed.

Lemma ones_mod c n : 0 <= n -> Z.land c (Z.shiftl 1 n - 1) = c mod 2 ^ n.
Proof. intros Hn. rewrite <- Z.land_ones by exact Hn. reflexivity. Qed.

(** A digit of the number that is shifted. *)
Lemma shifted_digit x n : 0 <= n <= 16 -> u16 (Z.shiftr (u32 x) n) = x / 2 ^ n mod FBASE.
Proof.
  intros Hn. unfold u16, u32, wrap, UINT_BITS. rewrite Z.shiftr_div_pow2 by lia. change FBASE with (2 ^ 16).
  apply Z.bits_inj'. intros i Hi. destruct (Z.lt_ge_cases i 16) as [H|H].
  - rewrite !Z.mod_pow2_bits_low, !Z.div_pow2_bits, Z.mod_pow2_bits_low by lia. reflexivity.
  - by rewrite !Z.mod_pow2_bits_high by lia.
Qed.

Lemma u32_mod x n : 0 <= n <= 32 -> u32 x mod 2 ^ n = x mod 2 ^ n.
Proof.
  intros Hn. unfold u32, wrap, UINT_BITS. apply Z.mod_mod_divide. exists (2 ^ (32 - n)). rewrite <- Z.pow_add_r by lia. f_equal. lia.
Qed.

(** What is carried from a digit to the next ones. *)
Lemma shift_split x w P n j : 0 < P -> 0 <= n -> n <= j -> 0 <= w < P ->
  (x * P + w) / 2 ^ n mod (FBASE * P) = (x / 2 ^ n) mod FBASE * P + (x mod 2 ^ j * P + w) / 2 ^ n mod P.
Proof.
  intros HP Hn Hj Hw. assert (0 < 2 ^ n) as H2 by (apply Z.pow_pos_nonneg; lia). rewrite (Z.mul_comm FBASE), Z.rem_mul_r by (unfold FBASE; lia).
  rewrite Z.div_div, (Z.mul_comm (2 ^ n) P), <- Z.div_div, Z.div_add_l, (Z.div_small w), Z.add_0_r by lia.
  assert ((x * P + w) / 2 ^ n = (x mod 2 ^ j * P + w) / 2 ^ n + 2 ^ (j - n) * (x / 2 ^ j) * P) as ->.
  { rewrite <- Z.div_add by lia. f_equal. rewrite (Z.div_mod x (2 ^ j)) at 1 by (apply Z.pow_nonzero; lia).
    replace (2 ^ j) with (2 ^ (j - n) * 2 ^ n) at 1 by (rewrite <- Z.pow_add_r by lia; f_equal; lia). ring. }
  rewrite Z.mod_add by lia. ring.
Qed.

Lemma shift_digits_ok n l : 0 <= n <= 16 -> Forall digit l -> forall c, 0 <= c ->
  length (shift_digits n c l) = length l /\ Forall digit (shift_digits n c l) /\
  dval (shift_digits n c l) = (c * FBASE ^ Z.of_nat (length l) + dval l) / 2 ^ n mod FBASE ^ Z.of_nat (length l).
Proof.
  intros Hn Hl. induction Hl as [|d l Hd Hl IH]; intros c Hc; cbn [shift_digits length].
  { split_and!; auto. change (FBASE ^ Z.of_nat 0) with 1. by rewrite Z.mod_1_r. }
  rewrite ones_mod, u32_mod by lia. set (x := d + Z.shiftl c 16).
  destruct (IH (x mod 2 ^ (n + 1)) ltac:(apply Z.mod_pos_bound, Z.pow_pos_nonneg; lia)) as (E1 & E2 & E3).
  split; [by rewrite E1|]. split; [constructor; [apply u16_digit|exact E2]|]. cbn [dval]. rewrite E1, E3, shifted_digit, base_S by lia.
  rewrite <- shift_split by (auto using base_pos, dval_bound with lia). do 2 f_equal. unfold x. rewrite Z.shiftl_mul_pow2 by lia. change (2 ^ 16) with FBASE. ring.
Qed.

Lemma shift_digits_val n l : 0 <= n <= 16 -> Forall digit l ->
  length (shift_digits n 0 l) = length l /\ Forall digit (shift_digits n 0 l) /\ dval (shift_digits n 0 l) = dval l / 2 ^ n.
Proof.
  intros Hn Hl. destruct (shift_digits_ok n l Hn Hl 0 ltac:(lia)) as (E1 & E2 & E3). split_and!; auto. rewrite E3, Z.mul_0_l, Z.add_0_l.
  apply Z.mod_small. pose proof (dval_bound l Hl) as Hb. assert (0 < 2 ^ n) by (apply Z.pow_pos_nonneg; lia).
  split; [apply Z.div_pos; lia|]. eapply Z.le_lt_trans; [|apply Hb]. apply Z.div_le_upper_bound; nia.
Qed.

Lemma halve_digits_ok l : Forall digit l -> forall c, 0 <= c <= 1 ->
  let '(l', keep_on) := halve_digits c l in
  length l' = length l /\ Forall digit l' /\
  dval l' = (c * FBASE ^ Z.of_nat (length l) + dval l) / 2 mod FBASE ^ Z.of_nat (length l) /\
  (c = 0 -> keep_on = negb (dval l =? 0)).
Proof.
  intros Hl. induction Hl as [|d l Hd Hl IH]; intros c Hc; cbn [halve_digits length].
  { split_and!; auto. change (FBASE ^ Z.of_nat 0) with 1. by rewrite Z.mod_1_r. }
  change (Z.land ?x 1) with (Z.land x (Z.shiftl 1 1 - 1)). rewrite ones_mod, u32_mod by lia. set (x := d + Z.shiftl c 16).
  pose proof (Z.mod_pos_bound x (2 ^ 1) ltac:(lia)) as Hm. specialize (IH (x mod 2 ^ 1) ltac:(change (2 ^ 1) with 2 in *; lia)).
  destruct (halve_digits (x mod 2 ^ 1) l) as [l' keep_on]. destruct IH as (E1 & E2 & E3 & E4). cbn [length]. split; [by rewrite E1|].
  split; [constructor; [apply u16_digit|exact E2]|]. split.
  - cbn [dval]. rewrite E1, E3, shifted_digit, base_S by lia. change 2 with (2 ^ 1) at 3 4.
    change (x mod 2 ^ 1) with (x mod 2 ^ 1). rewrite <- shift_split by (auto using base_pos, dval_bound with lia). do 2 f_equal. unfold x. rewrite Z.shiftl_mul_pow2 by lia. change (2 ^ 16) with FBASE. ring.
  - intros ->. unfold x. rewrite Z.shiftl_0_l, Z.add_0_r. unfold digit, FBASE in Hd. rewrite u32_small by lia. pose proof (dval_bound l Hl) as Hb. pose proof (base_pos (length l)) as Hp.
    cbn [dval]. destruct (Z.eqb_spec d 0) as [->|Hne]; cbn [negb orb].
    + rewrite E4 by (unfold x; by rewrite Z.shiftl_0_l). by rewrite Z.mul_0_l, Z.add_0_l.
    + symmetry. apply negb_true_iff, Z.eqb_neq. nia.
Qed.

Lemma bit16 x : (Z.land x 65536 =? 0) = negb (Z.odd (x / 65536)).
Proof.
  change 65536 with (2 ^ 16). rewrite <- Z.shiftr_div_pow2, <- Z.testbit_odd by lia. destruct (Z.testbit x 16) eqn:E; cbn [negb].
  - apply Z.eqb_neq. intros H. assert (Z.testbit (Z.land x (2 ^ 16)) 16 = false) as H' by (by rewrite H, Z.bits_0).
    rewrite Z.land_spec, E, Z.pow2_bits_true in H' by lia. discriminate.
  - apply Z.eqb_eq, Z.bits_inj'. intros i Hi. rewrite Z.land_spec, Z.bits_0, Z.pow2_bits_eqb by lia.
    destruct (Z.eqb_spec 16 i) as [<-|]; [by rewrite E|apply andb_false_r].
Qed.

Lemma land_digit x : Z.land x 65535 = x mod FBASE.
Proof. apply (Z.land_ones x 16). lia. Qed.

Lemma subtract_digits_ok l1 : Forall digit l1 -> forall l2, Forall digit l2 -> length l1 = length l2 ->
  let '(l, c) := subtract_digits l1 l2 in
  length l = length l1 /\ Forall digit l /\ (c = 0 \/ c = 4294967295) /\
  dval l = dval l1 - dval l2 + (if c =? 0 then 0 else FBASE ^ Z.of_nat (length l1)).
Proof.
  intros H1. induction H1 as [|d1 l1 Hd1 H1 IH]; intros l2 H2 Hlen; [destruct l2; [|done]; split_and!; auto|].
  destruct H2 as [|d2 l2 Hd2 H2]; [done|]. injection Hlen as Hlen. cbn [subtract_digits]. specialize (IH l2 H2 Hlen).
  destruct (subtract_digits l1 l2) as [l c]. destruct IH as (E1 & E2 & E3 & E4). rewrite land_digit, bit16. cbn [length dval]. rewrite E1, E4, base_S, <- Hlen. unfold digit, FBASE in Hd1, Hd2.
  set (b := if c =? 0 then 0 else 1). assert (u32 (d1 - d2 + c) = u32 (d1 - d2 - b)) as ->.
  { unfold b. destruct E3 as [->| ->]; cbn [Z.eqb]; [f_equal; lia|]. unfold u32, wrap, UINT_BITS. rewrite <- (Z.mod_add (d1 - d2 - 1) 1) by lia. replace (d1 - d2 - 1 + 1 * 2 ^ 32) with (d1 - d2 + 4294967295) by lia. reflexivity. }
  assert ((if c =? 0 then 0 else FBASE ^ Z.of_nat (length l1)) = b * FBASE ^ Z.of_nat (length l1)) as -> by (unfold b; destruct (c =? 0); ring).
  assert (0 <= b <= 1) as Hb by (unfold b; destruct (c =? 0); lia). split; [done|]. split; [constructor; [apply (Z.mod_pos_bound _ FBASE); reflexivity|exact E2]|].
  destruct (Z.leb_spec 0 (d1 - d2 - b)) as [Hle|Hgt].
  - rewrite u32_small by lia. rewrite (Z.div_small _ 65536), (Z.mod_small _ FBASE) by (unfold FBASE; lia). cbn [Z.odd negb Z.eqb]. split; [by left|]. ring.
  - assert (u32 (d1 - d2 - b) = 65535 * 65536 + (d1 - d2 - b + 65536)) as ->.
    { unfold u32, wrap, UINT_BITS. rewrite <- (Z.mod_add _ 1) by lia. rewrite Z.mod_small by lia. lia. }
    rewrite Z.div_add_l, (Z.div_small (d1 - d2 - b + 65536)) by lia. change (Z.odd (65535 + 0)) with true. cbn [negb].
    change (u32 (-1)) with 4294967295. cbn [Z.eqb]. split; [by right|]. assert ((65535 * 65536 + (d1 - d2 - b + 65536)) mod FBASE = d1 - d2 - b + 65536) as ->.
    { symmetry. apply (Z.mod_unique _ _ 65535); [left|]; unfold FBASE; lia. }
    unfold FBASE. ring.
Qed.

Lemma restore_digits_ok l1 : Forall digit l1 -> forall l2, Forall digit l2 -> length l1 = length l2 ->
  let '(l, c) := restore_digits l1 l2 in
  length l = length l1 /\ Forall digit l /\ (c = 0 \/ c = 1) /\ dval l = dval l1 + dval l2 - c * FBASE ^ Z.of_nat (length l1).
Proof.
  intros H1. induction H1 as [|d1 l1 Hd1 H1 IH]; intros l2 H2 Hlen; [destruct l2; [|done]; split_and!; auto|].
  destruct H2 as [|d2 l2 Hd2 H2]; [done|]. injection Hlen as Hlen. cbn [restore_digits]. specialize (IH l2 H2 Hlen).
  destruct (restore_digits l1 l2) as [l c]. destruct IH as (E1 & E2 & E3 & E4). rewrite land_digit, bit16. cbn [length dval]. rewrite E1, E4, base_S, <- Hlen. unfold digit, FBASE in Hd1, Hd2.
  rewrite u32_small by lia. split; [done|]. split; [constructor; [apply (Z.mod_pos_bound _ FBASE); reflexivity|exact E2]|].
  pose proof (Z.div_mod (d1 + d2 + c) 65536 ltac:(lia)) as Hdm. pose proof (Z.mod_pos_bound (d1 + d2 + c) 65536 ltac:(lia)) as Hm.
  change FBASE with 65536 at 1. assert ((d1 + d2 + c) / 65536 = 0 \/ (d1 + d2 + c) / 65536 = 1) as [E|E] by lia; rewrite E in *; cbn [Z.odd negb].
  - split; [by left|]. rewrite Z.mul_0_r in Hdm. cbn in Hdm. nia.
  - split; [by right|]. unfold FBASE. nia.
Qed.

(** ** Bringing the first digits together *)

Lemma pow2_succ k : 0 <= k -> 2 ^ (k + 1) = 2 * 2 ^ k.
Proof. intros Hk. rewrite Z.add_1_r. by apply Z.pow_succ_r. Qed.

Lemma bits_above_ok fuel : forall t s n, 0 <= t < 2 ^ Z.of_nat fuel -> 1 <= s ->
  exists k, bits_above (S fuel) t s n = Some (n + k) /\ 0 <= k <= Z.of_nat fuel /\ t < s * 2 ^ k /\ (1 <= k -> s * 2 ^ (k - 1) <= t).
Proof.
  induction fuel as [|fuel IH]; intros t s n Ht Hs.
  - cbn [bits_above]. change (2 ^ Z.of_nat 0) with 1 in Ht. destruct (Z.leb_spec s t); [lia|]. exists 0. rewrite Z.pow_0_r. split_and!; try lia. f_equal. lia.
  - change (bits_above (S (S fuel)) t s n) with (if s <=? t then bits_above (S fuel) (Z.shiftr t 1) s (n + 1) else Some n). destruct (Z.leb_spec s t) as [Hle|Hgt].
    + rewrite Z.shiftr_div_pow2 by lia. change (2 ^ 1) with 2. rewrite Nat2Z.inj_succ, <- Z.add_1_r, pow2_succ in Ht by lia.
      destruct (IH (t / 2) s (n + 1) ltac:(split; [apply Z.div_pos; lia|apply Z.div_lt_upper_bound; lia]) Hs) as (k & -> & Hk & H1 & H2).
      pose proof (Z.div_mod t 2 ltac:(lia)) as Hd. pose proof (Z.mod_pos_bound t 2 ltac:(lia)) as Hm.
      exists (k + 1). split; [f_equal; lia|]. split; [lia|]. rewrite pow2_succ by lia. split; [nia|]. intros _. replace (k + 1 - 1) with k by lia.
      destruct (Z.eq_dec k 0) as [->|Hk0]; [rewrite Z.pow_0_r; lia|]. replace k with (k - 1 + 1) by lia. rewrite pow2_succ by lia. specialize (H2 ltac:(lia)). nia.
    + exists 0. rewrite Z.pow_0_r. split_and!; try lia. f_equal. lia.
Qed.

Lemma bits_below_ok fuel : forall t s n, 0 <= s < 2 ^ Z.of_nat fuel -> 0 <= t ->
  exists k, bits_below (S fuel) t s n = Some (n - k) /\ 0 <= k <= Z.of_nat fuel /\ s < (t + 1) * 2 ^ k /\ (1 <= k -> (t + 1) * 2 ^ (k - 1) <= s).
Proof.
  induction fuel as [|fuel IH]; intros t s n Hs Ht.
  - cbn [bits_below]. change (2 ^ Z.of_nat 0) with 1 in Hs. destruct (Z.ltb_spec t s); [lia|]. exists 0. rewrite Z.pow_0_r. split_and!; try lia. f_equal. lia.
  - change (bits_below (S (S fuel)) t s n) with (if t <? s then bits_below (S fuel) t (Z.shiftr s 1) (n - 1) else Some n). destruct (Z.ltb_spec t s) as [Hlt|Hle].
    + rewrite Z.shiftr_div_pow2 by lia. change (2 ^ 1) with 2. rewrite Nat2Z.inj_succ, <- Z.add_1_r, pow2_succ in Hs by lia.
      destruct (IH t (s / 2) (n - 1) ltac:(split; [apply Z.div_pos; lia|apply Z.div_lt_upper_bound; lia]) Ht) as (k & -> & Hk & H1 & H2).
      pose proof (Z.div_mod s 2 ltac:(lia)) as Hd. pose proof (Z.mod_pos_bound s 2 ltac:(lia)) as Hm.
      exists (k + 1). split; [f_equal; lia|]. split; [lia|]. rewrite pow2_succ by lia. split; [nia|]. intros _. replace (k + 1 - 1) with k by lia.
      destruct (Z.eq_dec k 0) as [->|Hk0]; [rewrite Z.pow_0_r; lia|]. replace k with (k - 1 + 1) by lia. rewrite pow2_succ by lia. specialize (H2 ltac:(lia)). nia.
    + exists 0. rewrite Z.pow_0_r. split_and!; try lia. f_equal. lia.
Qed.

Lemma bit_difference_ok t s : digit t -> digit s -> 1 <= s ->
  (exists n, bit_difference t s = Some n /\ 1 <= n <= 16 /\ t < s * 2 ^ n /\ s * 2 ^ (n - 1) <= t) \/
  (exists m, bit_difference t s = Some (- m) /\ 0 <= m <= 15 /\ (t + 1) * 2 ^ m <= s /\ s < (t + 1) * 2 ^ (m + 1)).
Proof.
  intros Ht Hs H1. unfold bit_difference. change FBASE with (2 ^ Z.of_nat 16) in *. destruct (Z.leb_spec s t) as [Hle|Hgt].
  - left. destruct (bits_above_ok 16 t s 0 Ht H1) as (k & -> & Hk & E1 & E2). exists k. assert (1 <= k).
    { destruct (Z.eq_dec k 0) as [->|]; [rewrite Z.pow_0_r in E1; lia|lia]. }
    split_and!; auto; lia.
  - right. destruct (bits_below_ok 16 t s 0 Hs ltac:(apply Ht)) as (k & -> & Hk & E1 & E2). cbn [mbind option_bind]. assert (1 <= k).
    { destruct (Z.eq_dec k 0) as [->|]; [rewrite Z.pow_0_r in E1; lia|lia]. }
    exists (k - 1). replace (k - 1 + 1) with k by lia. split_and!; auto; try lia. f_equal. lia.
Qed.

(** ** The bits of the quotient *)

Definition sign_bit (rho : Z) : Z := if 0 <=? rho then 1 else 0.

(** What the bits so far stand for. *)
Definition quotient (N rho : Z) : Z := N - 1 + sign_bit rho.

(** After [i] rounds with the dividend [F] and the divisor [A]: [rho] is what is
    left, and [N / 2^(i-1)] the sum of what was subtracted of the divisor. Each
    round loses less than one of the divisor's last bits. Nothing is lost as
    long as the divisor can be halved. *)
Record steps (F A i rho N : Z) : Prop := {
  st_error : Z.abs (F * 2 ^ (i - 1) - A * N - rho * 2 ^ (i - 1)) <= i * 2 ^ (i - 1);
  st_range : - (A / 2 ^ (i - 1)) - i <= rho <= A / 2 ^ (i - 1) + i;
  st_exact : (2 ^ (i - 1) | A) -> F * 2 ^ (i - 1) = A * N + rho * 2 ^ (i - 1) /\ - (A / 2 ^ (i - 1)) <= rho < A / 2 ^ (i - 1);
  st_prefix : forall j, 1 <= j <= i -> (2 ^ (j - 1) | A) -> quotient N rho / 2 ^ (i - j) = F * 2 ^ (j - 1) / A;
  st_bits : 0 <= quotient N rho < 2 ^ i
}.

Lemma sign_bit_range rho : 0 <= sign_bit rho <= 1.
Proof. unfold sign_bit. destruct (0 <=? rho); lia. Qed.

Lemma steps_first F A : 0 <= F < A -> steps F A 1 (F - A) 1.
Proof.
  intros H. assert (sign_bit (F - A) = 0) as E by (unfold sign_bit; destruct (Z.leb_spec 0 (F - A)); lia).
  split; unfold quotient; rewrite ?E; change (2 ^ (1 - 1)) with 1; rewrite ?Z.div_1_r; try lia.
  intros j Hj _. assert (j = 1) as -> by lia. change (2 ^ (1 - 1)) with 1. rewrite Z.mul_1_r, (Z.div_small F A) by lia. reflexivity.
Qed.

Definition next_rho (A i rho : Z) : Z := if 0 <=? rho then rho - A / 2 ^ i else rho + A / 2 ^ i.
Definition next_N (N rho : Z) : Z := 2 * N + (if 0 <=? rho then 1 else -1).

Lemma quotient_next A i N rho : quotient (next_N N rho) (next_rho A i rho) = 2 * quotient N rho + sign_bit (next_rho A i rho).
Proof. unfold quotient, next_N. unfold sign_bit at 2. destruct (0 <=? rho); lia. Qed.

Lemma quotient_exact F A P N rho : 0 < A -> 0 < P -> F = A * N + rho * P -> - A <= rho * P < A -> quotient N rho = F / A.
Proof.
  intros HA HP -> Hr. unfold quotient, sign_bit. destruct (Z.leb_spec 0 rho).
  - apply (Z.div_unique _ _ _ (rho * P)); [left; nia|lia].
  - apply (Z.div_unique _ _ _ (rho * P + A)); [left; nia|lia].
Qed.

Lemma steps_next F A i rho N : 1 <= i -> 0 < A -> steps F A i rho N -> steps F A (i + 1) (next_rho A i rho) (next_N N rho).
Proof.
  intros Hi HA [H1 H2 H3 H4 H5]. set (P := 2 ^ (i - 1)) in *. assert (0 < P) as HP by (apply Z.pow_pos_nonneg; lia).
  assert (2 ^ i = 2 * P) as E2 by (unfold P; rewrite <- pow2_succ by lia; f_equal; lia).
  set (h := A / 2 ^ i). assert (h = A / P / 2) as Eh by (unfold h; rewrite E2, Z.div_div by lia; f_equal; lia).
  pose proof (Z.div_mod A (2 * P) ltac:(lia)) as Dm. rewrite <- E2 in Dm at 2. fold h in Dm. pose proof (Z.mod_pos_bound A (2 * P) ltac:(lia)) as Dr.
  pose proof (Z.div_mod (A / P) 2 ltac:(lia)) as Hm. rewrite <- Eh in Hm. pose proof (Z.mod_pos_bound (A / P) 2 ltac:(lia)) as Hr.
  assert (0 <= h) as Hh by (unfold h; apply Z.div_pos; lia).
  assert ((2 ^ i | A) -> F * 2 ^ i = A * next_N N rho + next_rho A i rho * 2 ^ i /\ - h <= next_rho A i rho < h) as Hex.
  { intros [z Hz]. rewrite E2 in Hz. assert (A mod (2 * P) = 0) as E0 by (rewrite Hz; apply Z.mod_mul; lia).
    assert (A / P = 2 * z) as Ez by (rewrite Hz; replace (z * (2 * P)) with (2 * z * P) by ring; apply Z.div_mul; lia).
    assert (h = z) as Ehz by (rewrite Eh, Ez, Z.mul_comm; apply Z.div_mul; lia).
    destruct (H3 ltac:(exists (2 * z); lia)) as [E3 R3]. unfold next_rho, next_N. fold h. rewrite E2, Ehz. rewrite Ez in R3. destruct (Z.leb_spec 0 rho); split; nia. }
  split.
  - replace (i + 1 - 1) with i by lia. rewrite E2. unfold next_rho, next_N. fold h. destruct (0 <=? rho); nia.
  - replace (i + 1 - 1) with i by lia. fold h. unfold next_rho. fold h. destruct (Z.leb_spec 0 rho); lia.
  - replace (i + 1 - 1) with i by lia. fold h. exact Hex.
  - intros j Hj Hd. destruct (Z.eq_dec j (i + 1)) as [->|Hne].
    + replace (i + 1 - (i + 1)) with 0 by lia. replace (i + 1 - 1) with i in * by lia. rewrite Z.pow_0_r, Z.div_1_r.
      destruct (Hex Hd) as [E R]. apply (quotient_exact _ _ (2 ^ i)); [exact HA|lia|exact E|].
      destruct Hd as [z Hz]. assert (h = z) as <- by (unfold h; rewrite Hz; apply Z.div_mul; lia). nia.
    + rewrite <- (H4 j) by (auto; lia). rewrite quotient_next. pose proof (sign_bit_range (next_rho A i rho)) as Hb.
      replace (i + 1 - j) with (i - j + 1) by lia. rewrite pow2_succ, <- Z.div_div by (try apply Z.pow_pos_nonneg; lia). f_equal.
      symmetry. apply (Z.div_unique _ _ _ (sign_bit (next_rho A i rho))); [left|]; lia.
  - rewrite quotient_next, pow2_succ by lia. pose proof (sign_bit_range (next_rho A i rho)). lia.
Qed.

(** ** A round of the loop *)

(** A number with a sign in the digits of a dividend. *)
Definition wrapped (rho : Z) (l : list Z) : Prop :=
  length l = (MANT_SIZE + 1)%nat /\ Forall digit l /\ dval l = rho + (if 0 <=? rho then 0 else FBASE ^ 9).

Lemma round_remainder rho A i l1 l2 : wrapped rho l1 -> length l2 = (MANT_SIZE + 1)%nat -> Forall digit l2 -> dval l2 = A / 2 ^ i ->
  let '(l, c) := if 0 <=? rho then subtract_digits l1 l2 else restore_digits l1 l2 in
  wrapped (next_rho A i rho) l /\ (if 0 <=? rho then c =? 0 else negb (c =? 0)) = (0 <=? next_rho A i rho).
Proof.
  unfold next_rho, wrapped. intros (N1 & D1 & V1) N2 D2 <-. pose proof (dval_bound l2 D2) as B2. rewrite N2 in B2.
  change (FBASE ^ Z.of_nat (MANT_SIZE + 1)) with (FBASE ^ 9) in *. assert (length l1 = length l2) as N by congruence. destruct (Z.leb_spec 0 rho) as [Hle|Hgt].
  - pose proof (subtract_digits_ok l1 D1 l2 D2 N) as H. destruct (subtract_digits l1 l2) as [l c]. destruct H as (E1 & E2 & E3 & E4).
    pose proof (dval_bound l E2) as B. rewrite E1, N1 in B. rewrite N1 in E4. change (FBASE ^ Z.of_nat (MANT_SIZE + 1)) with (FBASE ^ 9) in *.
    assert ((c =? 0) = (0 <=? rho - dval l2)) as <-.
    { destruct (Z.leb_spec 0 (rho - dval l2)), (Z.eqb_spec c 0); try reflexivity; lia. }
    split_and!; auto; [congruence|]. rewrite E4, V1. destruct (c =? 0); lia.
  - pose proof (restore_digits_ok l1 D1 l2 D2 N) as H. destruct (restore_digits l1 l2) as [l c]. destruct H as (E1 & E2 & E3 & E4).
    pose proof (dval_bound l E2) as B. rewrite E1, N1 in B. rewrite N1 in E4. change (FBASE ^ Z.of_nat (MANT_SIZE + 1)) with (FBASE ^ 9) in *.
    assert (negb (c =? 0) = (0 <=? rho + dval l2)) as E.
    { destruct (Z.leb_spec 0 (rho + dval l2)), (Z.eqb_spec c 0); cbn [negb]; try reflexivity; lia. }
    split; [|exact E]. split_and!; auto; [congruence|]. rewrite E4, V1, <- E. destruct E3 as [->| ->]; cbn [Z.eqb negb]; lia.
Qed.

Lemma lor_bit x b : 0 <= b -> Z.lor (x * 2 ^ (b + 1)) (Z.shiftl 1 b) = x * 2 ^ (b + 1) + 2 ^ b.
Proof.
  intros Hb. rewrite Z.shiftl_mul_pow2, Z.mul_1_l by exact Hb. assert (Z.land (x * 2 ^ (b + 1)) (2 ^ b) = 0) as H.
  { apply Z.bits_inj'. intros i Hi. rewrite Z.land_spec, Z.bits_0, Z.pow2_bits_eqb by exact Hb. destruct (Z.eqb_spec b i) as [<-|]; [|apply andb_false_r].
    rewrite Z.mul_pow2_bits_low by lia. reflexivity. }
  by rewrite <- Z.lxor_lor, <- Z.add_nocarry_lxor by exact H.
Qed.

(** The next bit of the quotient after [i] rounds. *)
Definition bit_digit (i : Z) : nat := Z.to_nat ((i + 15) / 16).
Definition bit_place (i : Z) : Z := 15 - (i + 15) mod 16.

Lemma bit_next i : 0 <= i -> (if bit_place i =? 0 then (15, S (bit_digit i)) else (bit_place i - 1, bit_digit i)) = (bit_place (i + 1), bit_digit (i + 1)).
Proof.
  intros Hi. unfold bit_place, bit_digit. pose proof (Z.div_mod (i + 15) 16 ltac:(lia)) as D. pose proof (Z.mod_pos_bound (i + 15) 16 ltac:(lia)) as M.
  assert (0 <= (i + 15) / 16) by (apply Z.div_pos; lia). destruct (Z.eqb_spec (15 - (i + 15) mod 16) 0) as [E|E].
  - assert ((i + 1 + 15) / 16 = (i + 15) / 16 + 1 /\ (i + 1 + 15) mod 16 = 0) as [-> ->] by (Z.div_mod_to_equations; lia). f_equal. lia.
  - assert ((i + 1 + 15) / 16 = (i + 15) / 16 /\ (i + 1 + 15) mod 16 = (i + 15) mod 16 + 1) as [-> ->] by (Z.div_mod_to_equations; lia). f_equal. lia.
Qed.

(** The digits of the quotient, of which there are nine. *)
Definition quotient_digits (i q : Z) (l : list Z) : Prop :=
  length l = (MANT_SIZE + 1)%nat /\ Forall digit l /\ dval l = q * 2 ^ 129 / 2 ^ i.

Lemma no_bit i q b : 0 <= i -> 0 <= b <= 1 -> b = 0 \/ 129 <= i -> (2 * q + b) * 2 ^ 129 / 2 ^ (i + 1) = q * 2 ^ 129 / 2 ^ i.
Proof.
  intros Hi Hb H. assert (0 < 2 ^ i) by (apply Z.pow_pos_nonneg; lia). rewrite pow2_succ by lia. destruct H as [->|H].
  - replace ((2 * q + 0) * 2 ^ 129) with (2 * (q * 2 ^ 129)) by ring. apply Z.div_mul_cancel_l; lia.
  - replace i with (129 + (i - 129)) by lia. rewrite Z.pow_add_r by lia. assert (0 < 2 ^ (i - 129)) by (apply Z.pow_pos_nonneg; lia).
    replace (2 * (2 ^ 129 * 2 ^ (i - 129))) with (2 * 2 ^ (i - 129) * 2 ^ 129) by ring. rewrite (Z.mul_comm (2 ^ 129) (2 ^ (i - 129))). rewrite !Z.div_mul_cancel_r by lia.
    rewrite <- Z.div_div by lia. f_equal. symmetry. apply (Z.div_unique _ _ _ b); [left|]; lia.
Qed.

Lemma set_bit i q l : 0 <= i <= 128 -> 0 <= q -> quotient_digits i q l -> exists d,
  l !! bit_digit i = Some d /\ quotient_digits (i + 1) (2 * q + 1) (<[bit_digit i := u16 (Z.lor d (Z.shiftl 1 (bit_place i)))]> l).
Proof.
  intros Hi Hq (N & D & V). unfold bit_digit, bit_place. pose proof (Z.div_mod (i + 15) 16 ltac:(lia)) as Dm. pose proof (Z.mod_pos_bound (i + 15) 16 ltac:(lia)) as M.
  set (k := (i + 15) / 16) in *. set (b := 15 - (i + 15) mod 16). assert (0 <= k <= 8) as Hk by (unfold k; Z.div_mod_to_equations; lia). set (j := Z.to_nat (8 - k)).
  assert (Z.to_nat k = length l - 1 - j)%nat as Ek by (rewrite N; unfold MANT_SIZE, j; lia).
  assert (2 ^ (129 - i) = 2 ^ (b + 1) * FBASE ^ Z.of_nat j) as E2.
  { change FBASE with (2 ^ 16). rewrite <- Z.pow_mul_r, <- Z.pow_add_r by (unfold b; lia). f_equal. unfold b, j. lia. }
  assert (dval l = q * 2 ^ (b + 1) * FBASE ^ Z.of_nat j) as V'.
  { rewrite V. replace (2 ^ 129) with (2 ^ (129 - i) * 2 ^ i) by (rewrite <- Z.pow_add_r by lia; f_equal; lia).
    rewrite Z.mul_assoc, Z.div_mul, E2 by (apply Z.pow_nonzero; lia). ring. }
  pose proof (base_pos j) as Hp. exists (dval l / FBASE ^ Z.of_nat j mod FBASE). rewrite Ek. split; [apply lookup_digit; [exact D|rewrite N; unfold MANT_SIZE, j; lia]|].
  assert (Forall digit l) as D' by exact D. assert (j < length l)%nat as Hjl by (rewrite N; unfold MANT_SIZE, j; lia).
  pose proof (lookup_digit l j D Hjl) as Hd. set (d := dval l / FBASE ^ Z.of_nat j mod FBASE) in *.
  assert (d = q mod 2 ^ (15 - b) * 2 ^ (b + 1)) as Ed.
  { unfold d. rewrite V', Z.div_mul by lia. change FBASE with (2 ^ 16). replace (2 ^ 16) with (2 ^ (15 - b) * 2 ^ (b + 1)) by (rewrite <- Z.pow_add_r by (unfold b; lia); f_equal; lia).
    apply Z.mul_mod_distr_r; apply Z.pow_nonzero; unfold b; lia. }
  assert (u16 (Z.lor d (Z.shiftl 1 b)) = d + 2 ^ b /\ digit (d + 2 ^ b)) as [-> Hdig].
  { rewrite Ed, lor_bit by (unfold b; lia). pose proof (Z.mod_pos_bound q (2 ^ (15 - b)) ltac:(apply Z.pow_pos_nonneg; unfold b; lia)) as Hx. set (x := q mod 2 ^ (15 - b)) in *.
    assert (0 < 2 ^ b) as Hb by (apply Z.pow_pos_nonneg; unfold b; lia). rewrite pow2_succ by (unfold b; lia).
    assert (2 ^ (15 - b) * (2 * 2 ^ b) = 65536) as E by (rewrite <- pow2_succ, <- Z.pow_add_r by (unfold b; lia); replace (15 - b + (b + 1)) with 16 by lia; reflexivity).
    assert (0 <= x * (2 * 2 ^ b) + 2 ^ b < 65536) as R by nia. split; [apply (wrap_small 16); exact R|exact R]. }
  split_and!; [by rewrite length_insert|by apply Forall_insert|]. rewrite dval_insert by lia. erewrite nth_lookup_Some by exact Hd.
  replace (length l - 1 - (length l - 1 - j))%nat with j by lia. rewrite V'.
  replace ((2 * q + 1) * 2 ^ 129) with ((2 * q + 1) * (2 ^ b * FBASE ^ Z.of_nat j) * 2 ^ (i + 1)).
  - rewrite Z.div_mul by (apply Z.pow_nonzero; lia). rewrite pow2_succ by (unfold b; lia). ring.
  - rewrite pow2_succ in E2 by (unfold b; lia). assert (2 ^ 129 = 2 ^ (129 - i) * 2 ^ i) as -> by (rewrite <- Z.pow_add_r by lia; f_equal; lia). rewrite E2, pow2_succ by lia. ring.
Qed.

Lemma round_bit i q rq spare (sg : bool) : 0 <= i <= 144 -> 0 <= q -> quotient_digits i q rq ->
  match (if sg then d ← (rq ++ spare) !! bit_digit i; Some (<[bit_digit i := u16 (Z.lor d (Z.shiftl 1 (bit_place i)))]> (rq ++ spare)) else Some (rq ++ spare)) with
  | Some r => exists rq' spare', r = rq' ++ spare' /\ quotient_digits (i + 1) (2 * q + (if sg then 1 else 0)) rq' /\ length spare' = length spare
  | None => spare = []
  end.
Proof.
  intros Hi Hq Hr. assert (forall b, 0 <= b <= 1 -> b = 0 \/ 129 <= i -> quotient_digits (i + 1) (2 * q + b) rq) as Hsame.
  { intros b Hb H. destruct Hr as (N & D & V). split_and!; auto. rewrite V. symmetry. apply no_bit; lia. }
  destruct sg; [|exists rq, spare; split_and!; auto; apply Hsame; lia]. pose proof Hr as (N & _ & _). destruct (Z.le_gt_cases i 128) as [Hle|Hgt].
  - destruct (set_bit i q rq ltac:(lia) Hq Hr) as (d & Hd & Hset). pose proof (lookup_lt_Some _ _ _ Hd) as Hlt.
    rewrite lookup_app_l, Hd by exact Hlt. cbn [mbind option_bind]. rewrite insert_app_l by exact Hlt. by eexists _, spare.
  - assert (bit_digit i = length rq + 0)%nat as ->.
    { unfold bit_digit. assert ((i + 15) / 16 = 9) as -> by (Z.div_mod_to_equations; lia). rewrite N. reflexivity. }
    rewrite lookup_app_r, Nat.add_comm, Nat.add_sub by lia. destruct spare as [|x spare]; [done|]. cbn [lookup list_lookup mbind option_bind].
    rewrite Nat.add_comm, insert_app_r. eexists rq, _. split; [reflexivity|]. split; [apply Hsame; lia|]. by rewrite length_insert.
Qed.

Definition rounds_done (F A i rho q : Z) : Prop :=
  (i = 0 /\ rho = F /\ q = 0) \/ (1 <= i /\ exists N, steps F A i rho N /\ q = quotient N rho).

Lemma rounds_next F A i rho q : 0 <= F < A -> rounds_done F A i rho q ->
  rounds_done F A (i + 1) (next_rho A i rho) (2 * q + (if 0 <=? next_rho A i rho then 1 else 0)).
Proof.
  intros HF [(-> & -> & ->)|(Hi & N & H & ->)]; right; (split; [lia|]).
  - unfold next_rho. rewrite Z.pow_0_r, Z.div_1_r. destruct (Z.leb_spec 0 F); [|lia]. exists 1. split; [by apply steps_first|].
    unfold quotient, sign_bit. lia.
  - exists (next_N N rho). split; [apply steps_next; auto; lia|]. by rewrite quotient_next.
Qed.

Lemma rounds_range F A i rho q : rounds_done F A i rho q -> 0 <= i /\ 0 <= q.
Proof. intros [(-> & _ & ->)|(Hi & N & H & ->)]; [lia|]. pose proof (st_bits _ _ _ _ _ H). lia. Qed.

(** The loop ends when the divisor is used up. *)
Definition div_done (F A : Z) (spare : list Z) (x : option (list Z)) : Prop :=
  match x with
  | Some r => exists n rho N rq spare', 1 <= n <= 145 /\ steps F A n rho N /\ A / 2 ^ (n - 1) = 0 /\
      r = rq ++ spare' /\ quotient_digits n (quotient N rho) rq
  | None => spare = []
  end.

Lemma div_loop_ok F A fuel : 0 <= F < A -> A < 2 ^ 144 -> forall i rho q l1 l2 rq spare,
  i + Z.of_nat fuel = 145 -> (i = 0 \/ A / 2 ^ (i - 1) <> 0) -> rounds_done F A i rho q -> wrapped rho l1 ->
  length l2 = (MANT_SIZE + 1)%nat -> Forall digit l2 -> dval l2 = A / 2 ^ i -> quotient_digits i q rq ->
  div_done F A spare (div_loop fuel l1 l2 (rq ++ spare) (bit_place i) (bit_digit i) (0 <=? rho)).
Proof.
  intros HF HA. induction fuel as [|fuel IH]; intros i rho q l1 l2 rq spare Hfuel Hmore Hd Hw N2 D2 V2 Hq; pose proof (rounds_range _ _ _ _ _ Hd) as [Hi0 Hq0].
  { destruct Hmore as [->|Hmore]; [lia|]. exfalso. apply Hmore. assert (i = 145) as -> by lia. apply Z.div_small. change (145 - 1) with 144. lia. }
  cbn [div_loop]. pose proof (round_remainder rho A i l1 l2 Hw N2 D2 V2) as Hr. destruct (if 0 <=? rho then subtract_digits l1 l2 else restore_digits l1 l2) as [l1' c].
  destruct Hr as [Hw' ->]. pose proof (round_bit i q rq spare (0 <=? next_rho A i rho) ltac:(lia) Hq0 Hq) as Hb. apply (rounds_next F A i rho q HF) in Hd.
  pose proof (halve_digits_ok l2 D2 0 ltac:(lia)) as Hh. rewrite bit_next by exact Hi0. destruct (halve_digits 0 l2) as [l2' keep_on]. destruct Hh as (N2' & D2' & V2' & ->); [|reflexivity].
  assert (dval l2' = A / 2 ^ (i + 1)) as E2.
  { rewrite V2', Z.mul_0_l, Z.add_0_l, V2, pow2_succ, (Z.mul_comm 2), <- Z.div_div by (try apply Z.pow_nonzero; lia). apply Z.mod_small.
    pose proof (dval_bound l2 D2) as B. rewrite V2 in B. split; [apply Z.div_pos; lia|apply Z.div_lt_upper_bound; lia]. }
  assert (forall n, rounds_done F A (i + 1) (next_rho A i rho) n -> exists N, steps F A (i + 1) (next_rho A i rho) N /\ n = quotient N (next_rho A i rho)) as Hsteps.
  { intros n [(E & _ & _)|(_ & H)]; [lia|exact H]. }
  revert Hb. match goal with |- match ?x with Some _ => _ | None => _ end -> _ => destruct x as [r|] end; intros Hb; [|exact Hb].
  destruct Hb as (rq' & spare' & -> & Hq' & Hs). cbn [mbind option_bind]. destruct (Z.eqb_spec (dval l2) 0) as [E0|E0]; cbn [negb].
  - destruct (Hsteps _ Hd) as (N & HN & EN). exists (i + 1), (next_rho A i rho), N, rq', spare'. rewrite <- EN.
    split_and!; auto; try lia; try apply Hq'. replace (i + 1 - 1) with i by lia. congruence.
  - specialize (IH (i + 1) (next_rho A i rho) _ l1' l2' rq' spare' ltac:(lia) ltac:(right; replace (i + 1 - 1) with i by lia; congruence) Hd Hw' ltac:(congruence) D2' E2 Hq').
    unfold div_done in *. destruct (div_loop _ _ _ _ _ _ _); [exact IH|]. apply nil_length_inv. by rewrite <- Hs, IH.
Qed.

(** ** The digits of the result *)

Lemma line_up_ok fs l k : 0 <= fs <= 16 -> Forall digit l -> 0 <= k < 65536 ->
  let '(l', k') := line_up fs l k in
  length l' = length l /\ Forall digit l' /\ 0 <= k' < 65536 /\ dval l' + k' * FBASE ^ Z.of_nat (length l) = dval l * 2 ^ fs + k.
Proof.
  intros Hf Hl Hk. induction Hl as [|d l Hd Hl IH]; cbn [line_up]; [split_and!; auto; cbn [dval length]; change (FBASE ^ Z.of_nat 0) with 1; lia|].
  destruct (line_up fs l k) as [l' k']. destruct IH as (E1 & E2 & E3 & E4). rewrite land_digit, Z.shiftr_div_pow2, Z.shiftl_mul_pow2 by lia. change (2 ^ 16) with FBASE.
  assert (2 ^ fs <= 2 ^ 16) as H2 by (apply Z.pow_le_mono_r; lia). assert (0 < 2 ^ fs) as H0 by (apply Z.pow_pos_nonneg; lia). change (2 ^ 16) with 65536 in H2. unfold digit, FBASE in Hd.
  assert (0 <= d * 2 ^ fs + k' < 4294967296) as Hr by nia. rewrite u32_small by exact Hr. cbn [length dval]. rewrite E1, base_S.
  split; [done|]. split; [constructor; [apply (Z.mod_pos_bound _ FBASE); reflexivity|exact E2]|].
  split; [split; [apply Z.div_pos; [lia|reflexivity]|apply Z.div_lt_upper_bound; [reflexivity|exact (proj2 Hr)]]|].
  pose proof (Z.div_mod (d * 2 ^ fs + k') FBASE ltac:(discriminate)) as Dm. set (x := (d * 2 ^ fs + k') / FBASE) in *. set (y := (d * 2 ^ fs + k') mod FBASE) in *.
  replace ((d * FBASE ^ Z.of_nat (length l) + dval l) * 2 ^ fs + k) with (d * 2 ^ fs * FBASE ^ Z.of_nat (length l) + (dval l * 2 ^ fs + k)) by ring. rewrite <- E4.
  replace (y * FBASE ^ Z.of_nat (length l) + dval l' + x * (FBASE * FBASE ^ Z.of_nat (length l))) with ((FBASE * x + y) * FBASE ^ Z.of_nat (length l) + dval l') by ring. rewrite <- Dm. ring.
Qed.

Lemma round_bit_up last fs : 0 <= last < 65536 -> 0 <= fs <= 16 ->
  u32 (Z.shiftr (Z.land (Z.shiftl last fs) 32768) 15 + Z.shiftr last (16 - fs)) = (last * 2 ^ fs + 32768) / 65536 /\
  0 <= (last * 2 ^ fs + 32768) / 65536 < 65536.
Proof.
  intros Hl Hf. assert (0 < 2 ^ fs <= 65536) as Hp by (split; [apply Z.pow_pos_nonneg; lia|change 65536 with (2 ^ 16); apply Z.pow_le_mono_r; lia]).
  assert (0 <= (last * 2 ^ fs + 32768) / 65536 < 65536) as Hr by (split; [apply Z.div_pos; nia|apply Z.div_lt_upper_bound; nia]). split; [|exact Hr].
  assert (Z.shiftr (Z.land (Z.shiftl last fs) 32768) 15 + Z.shiftr last (16 - fs) = (last * 2 ^ fs + 32768) / 65536) as ->; [|apply u32_small; lia].
  rewrite Z.shiftr_land. change (Z.shiftr 32768 15) with (Z.ones 1). rewrite Z.land_ones, !Z.shiftr_div_pow2, Z.shiftl_mul_pow2 by lia.
  assert (last / 2 ^ (16 - fs) = last * 2 ^ fs / 65536) as ->.
  { change 65536 with (2 ^ 16). replace (2 ^ 16) with (2 ^ (16 - fs) * 2 ^ fs) by (rewrite <- Z.pow_add_r by lia; f_equal; lia).
    rewrite Z.div_mul_cancel_r; [reflexivity|apply Z.pow_nonzero; lia|lia]. }
  change (2 ^ 15) with 32768. change (2 ^ 1) with 2. set (y := last * 2 ^ fs). clear. Z.div_mod_to_equations. lia.
Qed.

Lemma round_and_line_up_ok fs rq spare : 0 <= fs <= 16 -> length rq = (MANT_SIZE + 1)%nat -> Forall digit rq ->
  (dval rq * 2 ^ fs + 32768) / 65536 < FBASE ^ 8 ->
  length (round_and_line_up fs (rq ++ spare)) = MANT_SIZE /\ Forall digit (round_and_line_up fs (rq ++ spare)) /\
  dval (round_and_line_up fs (rq ++ spare)) = (dval rq * 2 ^ fs + 32768) / 65536.
Proof.
  intros Hf N D Hlt. unfold round_and_line_up. destruct rq as [|last l _] using rev_ind; [done|]. rewrite length_app, Nat.add_comm in N. cbn [length] in N.
  assert (length l = MANT_SIZE) as Nl by (unfold MANT_SIZE in *; lia). apply Forall_app in D as [D Dl]. inversion Dl as [|? ? Hlast _]; subst. clear N Dl.
  rewrite <- app_assoc. rewrite (app_nth2 l) by lia. rewrite Nl, Nat.sub_diag. cbn [app nth]. rewrite (take_app_length' l) by (by rewrite Nl).
  destruct (round_bit_up last fs Hlast Hf) as [-> Hk]. pose proof (line_up_ok fs l _ Hf D Hk) as H. destruct (line_up fs l _) as [l' k']. destruct H as (E1 & E2 & E3 & E4). cbn [fst].
  rewrite dval_app in *. cbn [dval length] in *. change (FBASE ^ Z.of_nat 1) with 65536 in *. change (FBASE ^ Z.of_nat 0) with 1 in *. rewrite Z.mul_1_r, Z.add_0_r in *.
  assert (((dval l * 65536 + last) * 2 ^ fs + 32768) / 65536 = dval l * 2 ^ fs + (last * 2 ^ fs + 32768) / 65536) as E.
  { rewrite <- Z.div_add_l by lia. f_equal. ring. }
  rewrite E in *. rewrite <- E4 in *. rewrite Nl in *. change (Z.of_nat MANT_SIZE) with 8 in *. pose proof (dval_bound l' E2) as B. split_and!; auto.
  assert (k' = 0) as ->; [|lia]. assert (0 < FBASE ^ 8) by reflexivity. nia.
Qed.

(** ** How close the quotient is *)

(** The dividend [X], the divisor [A] and the first 129 bits [W] of the
    quotient. *)
Record divided (X A W : Z) : Prop := {
  dv_low : - (291 * 2 ^ 128) <= X * 2 ^ 128 - A * W;
  dv_high : X * 2 ^ 128 - A * W <= 291 * 2 ^ 128 + A;
  dv_bits : 0 <= W < 2 ^ 128;
  dv_exact : forall j, 0 <= j <= 128 -> (2 ^ j | A) -> (A | X * 2 ^ j) -> X * 2 ^ 128 <= A * W
}.

Lemma quotient_close X A n rho N : 0 <= X < A -> 2 ^ 128 <= A -> n <= 145 -> steps X A n rho N -> A / 2 ^ (n - 1) = 0 -> 1 <= n ->
  divided X A (quotient N rho * 2 ^ 129 / 2 ^ n).
Proof.
  intros HX HA Hn [H1 H2 _ H4 H5] H0 Hn1. rewrite H0 in H2. set (q := quotient N rho) in *. pose proof (sign_bit_range rho) as Hb.
  assert (A < 2 ^ (n - 1)) as Hlt by (apply Z.div_small_iff in H0; [lia|apply Z.pow_nonzero; lia]).
  assert (130 <= n) as Hn2 by (destruct (Z.le_gt_cases 130 n); [done|]; assert (2 ^ (n - 1) <= 2 ^ 128) by (apply Z.pow_le_mono_r; lia); lia).
  set (g := 2 ^ (n - 129)). assert (0 < g) as Hg by (apply Z.pow_pos_nonneg; lia).
  assert (2 ^ (n - 1) = 2 ^ 128 * g) as Ep by (unfold g; rewrite <- Z.pow_add_r by lia; f_equal; lia).
  assert (2 ^ n = g * 2 ^ 129) as En by (unfold g; rewrite <- Z.pow_add_r by lia; f_equal; lia).
  assert (q * 2 ^ 129 / 2 ^ n = q / g) as EW by (rewrite En; apply Z.div_mul_cancel_r; lia).
  assert (q / 2 ^ (n - 1) = 0) as Eq.
  { rewrite (H4 1) by (try lia; exists A; lia). change (2 ^ (1 - 1)) with 1. rewrite Z.mul_1_r. apply Z.div_small. lia. }
  assert (q < 2 ^ (n - 1)) as Hq by (apply Z.div_small_iff in Eq; [lia|apply Z.pow_nonzero; lia]).
  rewrite EW. pose proof (Z.div_mod q g ltac:(lia)) as Dm. pose proof (Z.mod_pos_bound q g Hg) as Hm. set (W := q / g) in *.
  assert (q = N - 1 + sign_bit rho) as EN by reflexivity.
  assert (- (2 * n * 2 ^ (n - 1)) <= X * 2 ^ (n - 1) - A * N <= 2 * n * 2 ^ (n - 1)) as [L U] by nia.
  assert (X * 2 ^ 128 * g = X * 2 ^ (n - 1)) as EX by (rewrite Ep; ring).
  split.
  - apply (Z.mul_le_mono_pos_r _ _ g Hg). nia.
  - apply (Z.mul_le_mono_pos_r _ _ g Hg). nia.
  - split; [apply Z.div_pos; lia|apply Z.div_lt_upper_bound; lia].
  - intros j Hj Hd [z Hz]. specialize (H4 (j + 1) ltac:(lia)). replace (j + 1 - 1) with j in H4 by lia. specialize (H4 Hd). rewrite Hz, Z.div_mul in H4 by lia.
    set (k := 2 ^ (n - (j + 1))) in *. assert (0 < k) as Hk by (apply Z.pow_pos_nonneg; lia).
    assert (k = 2 ^ (128 - j) * g) as Ek by (unfold k, g; rewrite <- Z.pow_add_r by lia; f_equal; lia).
    assert (z * 2 ^ (128 - j) <= W) as HW.
    { apply Z.div_le_lower_bound; [exact Hg|]. pose proof (Z.mul_div_le q k Hk) as Hle. rewrite H4, Ek in Hle. lia. }
    replace (X * 2 ^ 128) with (X * 2 ^ j * 2 ^ (128 - j)) by (rewrite <- Z.mul_assoc, <- Z.pow_add_r by lia; do 2 f_equal; lia). rewrite Hz. nia.
Qed.

(** The eight digits [M] that are kept. *)
Lemma kept_digits X A W fs : 0 < X < A -> A < 4 * X -> 2 ^ 128 <= A -> 1 <= fs <= 16 -> divided X A W ->
  let M := (W * 2 ^ fs + 32768) / 65536 in
  2 ^ 100 <= M < FBASE ^ 8 /\
  2 ^ 111 * Z.abs (M * 65536 * A - X * 2 ^ 128 * 2 ^ fs) < X * 2 ^ 128 * 2 ^ fs /\
  (X * 2 ^ 128 <= A * W -> forall K, K * 65536 * A <= X * 2 ^ 128 * 2 ^ fs -> K <= M).
Proof.
  intros HX HX4 HA Hf [L U [W0 W1] _] M. change (FBASE ^ 8) with (2 ^ 128). set (p := 2 ^ fs) in *. assert (2 <= p <= 65536) as Hp.
  { unfold p. change 65536 with (2 ^ 16). split; [change 2 with (2 ^ 1) at 1|]; apply Z.pow_le_mono_r; lia. }
  pose proof (Z.div_mod (W * p + 32768) 65536 ltac:(lia)) as Dm. fold M in Dm. pose proof (Z.mod_pos_bound (W * p + 32768) 65536 ltac:(lia)) as Hm. set (y := (W * p + 32768) mod 65536) in *.
  assert (2 ^ 124 <= W) as HW.
  { destruct (Z.le_gt_cases (2 ^ 124) W) as [H|H]; [exact H|exfalso]. nia. }
  split; [|split].
  - nia.
  - assert (M * 65536 - W * p = 32768 - y) as EM by lia.
    assert (M * 65536 * A - X * 2 ^ 128 * p = (32768 - y) * A - (X * 2 ^ 128 - A * W) * p) as -> by (rewrite <- EM; ring). nia.
  - intros Hex K HK. apply Z.div_le_lower_bound; [lia|]. assert (K * 65536 * A <= W * p * A) by nia. nia.
Qed.

(** ** The quotient of two numbers *)

(** The digits as the loop starts: the divisor is larger than the dividend, but
    not four times as large. *)
Record lined_up (F1 F2 X A fs delta n m : Z) : Prop := {
  lu_less : 0 < X < A;
  lu_near : A < 4 * X;
  lu_divisor : 2 ^ 128 <= A < 2 ^ 144;
  lu_shift : 1 <= fs <= 16;
  lu_delta : 0 <= delta <= 1;
  lu_ratio : X * F2 * 2 ^ fs = A * F1 * FBASE ^ delta;
  lu_n : 0 <= n <= 16;
  lu_m : 0 <= m <= 15;
  lu_X : X = F1 * 2 ^ (16 - n);
  lu_A : A = F2 * 2 ^ (16 - m)
}.

Lemma pow2_split a b : 0 <= b <= a -> 2 ^ a = 2 ^ b * 2 ^ (a - b).
Proof. intros H. rewrite <- Z.pow_add_r by lia. f_equal. lia. Qed.

Lemma pow2_pos a : 0 <= a -> 0 < 2 ^ a.
Proof. apply Z.pow_pos_nonneg. lia. Qed.

Lemma lined_up_above F1 F2 t s n : 1 <= s -> s < FBASE -> t * 2 ^ 112 <= F1 < (t + 1) * 2 ^ 112 -> s * 2 ^ 112 <= F2 < (s + 1) * 2 ^ 112 ->
  1 <= n <= 16 -> t < s * 2 ^ n -> s * 2 ^ (n - 1) <= t ->
  lined_up F1 F2 (F1 * 2 ^ 16 / 2 ^ n) (F2 * 2 ^ 16) n 0 n 0.
Proof.
  intros Hs Hs' H1 H2 Hn Ht Ht'. pose proof (pow2_pos (n - 1) ltac:(lia)) as P1. pose proof (pow2_pos (16 - n) ltac:(lia)) as P2.
  assert (2 ^ n = 2 * 2 ^ (n - 1)) as En by (rewrite <- pow2_succ by lia; f_equal; lia).
  assert (2 ^ 16 = 2 * 2 ^ (n - 1) * 2 ^ (16 - n)) as E16 by (rewrite (pow2_split 16 n), En by lia; reflexivity).
  assert (F1 * 2 ^ 16 / 2 ^ n = F1 * 2 ^ (16 - n)) as ->.
  { rewrite (pow2_split 16 n) by lia. replace (F1 * (2 ^ n * 2 ^ (16 - n))) with (F1 * 2 ^ (16 - n) * 2 ^ n) by ring. apply Z.div_mul. lia. }
  rewrite En in Ht. set (p := 2 ^ (n - 1)) in *. set (g := 2 ^ (16 - n)) in *. unfold FBASE in Hs'.
  assert (0 < F1 /\ F1 < F2 * (2 * p) /\ F2 * p < 2 * F1) as (B0 & B1 & B2) by nia. assert (2 ^ 16 = 65536) as E16' by reflexivity.
  split; try lia.
  - rewrite E16. nia.
  - rewrite E16. nia.
  - rewrite En, E16. change (FBASE ^ 0) with 1. ring.
Qed.

Lemma lined_up_below F1 F2 t s m : 1 <= t -> s < FBASE -> t * 2 ^ 112 <= F1 < (t + 1) * 2 ^ 112 -> s * 2 ^ 112 <= F2 < (s + 1) * 2 ^ 112 ->
  0 <= m <= 15 -> (t + 1) * 2 ^ m <= s -> s < (t + 1) * 2 ^ (m + 1) ->
  lined_up F1 F2 (F1 * 2 ^ 16) (F2 * 2 ^ 16 / 2 ^ m) (16 - m) 1 0 m.
Proof.
  intros Ht Hs' H1 H2 Hm Hs Hs2. pose proof (pow2_pos m ltac:(lia)) as P1. pose proof (pow2_pos (16 - m) ltac:(lia)) as P2.
  assert (2 ^ 16 = 2 ^ m * 2 ^ (16 - m)) as E16 by (apply pow2_split; lia).
  assert (F2 * 2 ^ 16 / 2 ^ m = F2 * 2 ^ (16 - m)) as ->.
  { rewrite E16. replace (F2 * (2 ^ m * 2 ^ (16 - m))) with (F2 * 2 ^ (16 - m) * 2 ^ m) by ring. apply Z.div_mul. lia. }
  rewrite pow2_succ in Hs2 by lia. set (p := 2 ^ m) in *. set (g := 2 ^ (16 - m)) in *. unfold FBASE in Hs'.
  assert (0 < F1 /\ F1 * p < F2 /\ F2 < 4 * F1 * p) as (B0 & B1 & B2) by nia. assert (2 ^ 16 = 65536) as E16' by reflexivity. assert (2 ^ 112 <= F1) by nia.
  split; rewrite ?Z.sub_0_r; try lia.
  - rewrite E16. nia.
  - rewrite E16. nia.
  - split; [|nia]. assert (2 ^ 128 = 2 ^ 112 * (p * g)) as -> by (rewrite <- E16; reflexivity). nia.
  - fold g. change (FBASE ^ 1) with (2 ^ 16). rewrite E16. ring.
Qed.

(** What is promised of a quotient [r]. The digits are integers here: the value
    of [r] is [dval (mant r) * FBASE ^ (f_exp r - 7)]. *)
Record div_result (f1 f2 r : flt) : Prop := {
  dr_legal : legal r;
  dr_sign : f_sign r = f_sign f1 * f_sign f2;
  dr_exp : 0 <= f_exp f1 - f_exp f2 - f_exp r <= 2;
  dr_close : let F := dval (mant f1) * FBASE ^ (7 + (f_exp f1 - f_exp f2 - f_exp r)) in
    2 ^ 111 * Z.abs (dval (mant r) * dval (mant f2) - F) < F;
  dr_exact : forall a b u v K, dval (mant f1) = a * FBASE ^ u -> dval (mant f2) = b * FBASE ^ v -> 0 <= u <= 7 -> 0 <= v <= 7 -> (b | a) ->
    (FBASE | K) -> K * dval (mant f2) <= dval (mant f1) * FBASE ^ (7 + (f_exp f1 - f_exp f2 - f_exp r)) -> K <= dval (mant r)
}.

Lemma exact_bits F1 F2 X A W fs delta n m a b u v : lined_up F1 F2 X A fs delta n m -> divided X A W ->
  F1 = a * FBASE ^ u -> F2 = b * FBASE ^ v -> 0 <= u <= 7 -> 0 <= v <= 7 -> (b | a) -> X * 2 ^ 128 <= A * W.
Proof.
  intros [_ _ _ _ _ _ Hn Hm EX EA] Hd E1 E2 Hu Hv [z Hz]. change FBASE with (2 ^ 16) in *. rewrite <- Z.pow_mul_r in E1, E2 by lia.
  assert (A = b * 2 ^ (16 * v + 16 - m)) as EA'.
  { rewrite EA, E2, <- Z.mul_assoc, <- Z.pow_add_r by lia. do 2 f_equal. lia. }
  apply (dv_exact _ _ _ Hd (16 * v + 16 - m)); [lia|by exists b|].
  exists (z * 2 ^ (16 * u + 16 - n)). rewrite EX, E1, Hz. rewrite EA'. replace (16 * u + 16 - n) with (16 * u + (16 - n)) by lia. rewrite (Z.pow_add_r 2 (16 * u)) by lia. ring.
Qed.

(** The result, from the digits that are kept: they are shifted when the first
    one is zero. *)
Lemma div_result_ok f1 f2 X A W fs delta n m l : legal f1 -> legal f2 -> f_sign f1 <> 0 -> f_sign f2 <> 0 ->
  lined_up (dval (mant f1)) (dval (mant f2)) X A fs delta n m -> divided X A W ->
  length l = MANT_SIZE -> Forall digit l -> dval l = (W * 2 ^ fs + 32768) / 65536 ->
  let e := f_exp f1 - f_exp f2 - delta in
  let s := if f_sign f1 =? f_sign f2 then 1 else -1 in
  div_result f1 f2 (if nth 0 l 0 =? 0 then Flt (drop 1 l ++ [0]) s (e - 1) else Flt l s e).
Proof.
  intros L1 L2 S1 S2 Hlu Hd N D V e s. destruct (legal_sign f1 L1) as [[E _]|[C1 B1]]; [lia|]. destruct (legal_sign f2 L2) as [[E _]|[C2 B2]]; [lia|].
  assert (s = f_sign f1 * f_sign f2 /\ (s = 1 \/ s = -1)) as [Es Hs] by (unfold s; destruct (Z.eqb_spec (f_sign f1) (f_sign f2)); lia).
  set (F1 := dval (mant f1)) in *. set (F2 := dval (mant f2)) in *. pose proof Hlu as [HX HX4 HA Hf Hdel Hr _ _ _ _].
  destruct (kept_digits X A W fs HX HX4 ltac:(lia) Hf Hd) as ([HM0 HM] & Hclose & Hkeep). rewrite <- V in *. set (M := dval l) in *.
  assert (0 < FBASE ^ delta) as Pd by (apply Z.pow_pos_nonneg; [reflexivity|lia]).
  assert (FBASE ^ (7 + delta) = 2 ^ 112 * FBASE ^ delta) as E7 by (rewrite Z.pow_add_r by lia; reflexivity).
  assert (X * 2 ^ 128 * 2 ^ fs * F2 = 65536 * A * (F1 * FBASE ^ (7 + delta))) as Etop.
  { rewrite E7. change (2 ^ 128) with (65536 * 2 ^ 112). transitivity (X * F2 * 2 ^ fs * (65536 * 2 ^ 112)); [ring|]. rewrite Hr. ring. }
  change (FBASE ^ 7) with (2 ^ 112) in *. assert (0 < 65536 * A) as PA by (clear -HA; lia). assert (0 < F2) as PF2 by (clear -B2; lia).
  assert (2 ^ 111 * Z.abs (M * F2 - F1 * FBASE ^ (7 + delta)) < F1 * FBASE ^ (7 + delta)) as Hc.
  { apply (Z.mul_lt_mono_pos_l (65536 * A)); [exact PA|]. rewrite <- Etop.
    replace (65536 * A * (2 ^ 111 * Z.abs (M * F2 - F1 * FBASE ^ (7 + delta)))) with (2 ^ 111 * Z.abs (65536 * A * (M * F2 - F1 * FBASE ^ (7 + delta)))) by (rewrite Z.abs_mul, (Z.abs_eq (65536 * A)) by (apply Z.lt_le_incl, PA); ring).
    rewrite Z.mul_sub_distr_l, <- Etop. replace (65536 * A * (M * F2) - X * 2 ^ 128 * 2 ^ fs * F2) with ((M * 65536 * A - X * 2 ^ 128 * 2 ^ fs) * F2) by ring.
    rewrite Z.abs_mul, (Z.abs_eq F2), Z.mul_assoc by (apply Z.lt_le_incl, PF2). apply Z.mul_lt_mono_pos_r; [exact PF2|exact Hclose]. }
  assert (forall a b u v K, F1 = a * FBASE ^ u -> F2 = b * FBASE ^ v -> 0 <= u <= 7 -> 0 <= v <= 7 -> (b | a) -> K * F2 <= F1 * FBASE ^ (7 + delta) -> K <= M) as Hx.
  { intros a b u v K E1 E2 Hu Hv Hb HK. apply Hkeep; [exact (exact_bits _ _ _ _ _ _ _ _ _ _ _ _ _ Hlu Hd E1 E2 Hu Hv Hb)|].
    apply (Z.mul_le_mono_pos_r _ _ F2); [exact PF2|]. rewrite Etop. replace (K * 65536 * A * F2) with (65536 * A * (K * F2)) by ring. apply Z.mul_le_mono_nonneg_l; [apply Z.lt_le_incl, PA|exact HK]. }
  destruct l as [|d l]; [discriminate|]. cbn [nth drop]. rewrite skipn_O. inversion D as [|? ? Hdig D']; subst. cbn [length] in N. injection N as N.
  destruct (Z.eqb_spec d 0) as [->|Hd0].
  - assert (dval (l ++ [0]) = M * FBASE) as EM.
    { unfold M. rewrite dval_app. cbn [dval length]. change (FBASE ^ Z.of_nat 1) with FBASE. ring. }
    split; cbn [mant f_sign f_exp].
    + split; cbn [mant f_sign].
      * rewrite length_app, N. reflexivity.
      * apply Forall_app_2; [exact D'|]. constructor; [split; reflexivity|constructor].
      * right. split; [exact Hs|]. apply (head_val _ 7); [apply Forall_app_2; [exact D'|constructor; [split; reflexivity|constructor]]|rewrite length_app, N; reflexivity|].
        rewrite EM. change (FBASE ^ Z.of_nat 7) with (2 ^ 112). unfold FBASE. lia.
    + exact Es.
    + unfold e. lia.
    + rewrite EM. fold F1 F2. replace (7 + (f_exp f1 - f_exp f2 - (e - 1))) with (7 + delta + 1) by (unfold e; lia).
      rewrite (Z.pow_add_r _ (7 + delta)) by lia. change (FBASE ^ 1) with FBASE. replace (M * FBASE * F2 - F1 * (FBASE ^ (7 + delta) * FBASE)) with ((M * F2 - F1 * FBASE ^ (7 + delta)) * FBASE) by ring.
      rewrite Z.abs_mul, !Z.mul_assoc. apply Z.mul_lt_mono_pos_r; [reflexivity|exact Hc].
    + intros a b u v K E1 E2 Hu Hv Hb [z ->]. rewrite EM. fold F1 F2. replace (7 + (f_exp f1 - f_exp f2 - (e - 1))) with (7 + delta + 1) by (unfold e; lia).
      rewrite (Z.pow_add_r _ (7 + delta)) by lia. change (FBASE ^ 1) with FBASE. intros HK. apply Z.mul_le_mono_nonneg_r; [by vm_compute|].
      apply (Hx a b u v); auto. apply (Z.mul_le_mono_pos_r _ _ FBASE); [reflexivity|]. lia.
  - split; cbn [mant f_sign f_exp]; fold F1 F2; replace (f_exp f1 - f_exp f2 - e) with delta by (unfold e; lia).
    + split; cbn [mant f_sign]; [cbn; by rewrite N|exact D|right; by split].
    + exact Es.
    + lia.
    + exact Hc.
    + intros a b u v K E1 E2 Hu Hv Hb _. by apply (Hx a b u v).
Qed.

Lemma first_digit f : legal f -> f_sign f <> 0 -> let t := nth 0 (mant f) 0 in
  digit t /\ 1 <= t /\ t * 2 ^ 112 <= dval (mant f) < (t + 1) * 2 ^ 112 /\
  length (mant f ++ [0]) = (MANT_SIZE + 1)%nat /\ Forall digit (mant f ++ [0]) /\ dval (mant f ++ [0]) = dval (mant f) * 2 ^ 16.
Proof.
  intros [N D [->|[_ Hh]]] Hs; [done|]. destruct (mant f) as [|t l]; [done|]. cbn [nth] in *. inversion D as [|? ? Hd D']; subst. cbn [length] in N. injection N as N.
  pose proof (dval_bound l D') as B. rewrite N in B. split; [exact Hd|]. unfold digit in Hd. split; [lia|]. split; [|split; [|split]].
  - cbn [dval]. rewrite N. change (FBASE ^ Z.of_nat 7) with (2 ^ 112) in *. lia.
  - rewrite length_app. cbn. by rewrite N.
  - apply Forall_app_2; [exact D|]. constructor; [split; reflexivity|constructor].
  - rewrite dval_app. change (dval [0]) with 0. change (FBASE ^ Z.of_nat (length [0])) with (2 ^ 16). lia.
Qed.

Lemma div_loop_start F1 F2 X A fs delta n m l1 l2 spare : lined_up F1 F2 X A fs delta n m ->
  length l1 = (MANT_SIZE + 1)%nat -> Forall digit l1 -> dval l1 = X -> length l2 = (MANT_SIZE + 1)%nat -> Forall digit l2 -> dval l2 = A ->
  match div_loop (16 * (MANT_SIZE + 1) + 1) l1 l2 (replicate (MANT_SIZE + 1) 0 ++ spare) 0 0 true with
  | Some r => exists rq spare', r = rq ++ spare' /\ length rq = (MANT_SIZE + 1)%nat /\ Forall digit rq /\ divided X A (dval rq)
  | None => spare = []
  end.
Proof.
  intros H N1 D1 V1 N2 D2 V2. pose proof (lu_less _ _ _ _ _ _ _ _ H) as HX. pose proof (lu_divisor _ _ _ _ _ _ _ _ H) as HA.
  assert (div_done X A spare (div_loop (16 * (MANT_SIZE + 1) + 1) l1 l2 (replicate (MANT_SIZE + 1) 0 ++ spare) (bit_place 0) (bit_digit 0) (0 <=? X))) as Hd.
  { apply (div_loop_ok X A _ ltac:(lia) ltac:(lia) 0 X 0); auto.
    - by left.
    - split_and!; auto. rewrite V1. destruct (Z.leb_spec 0 X); lia.
    - by rewrite Z.pow_0_r, Z.div_1_r.
    - split_and!; [reflexivity|apply zeros_digits|apply dval_zeros]. }
  change (bit_place 0) with 0 in Hd. change (bit_digit 0) with 0%nat in Hd. assert ((0 <=? X) = true) as E by (apply Z.leb_le; lia). rewrite E in Hd. unfold div_done in Hd.
  destruct (div_loop _ _ _ _ _ _ _) as [r|]; [|exact Hd]. destruct Hd as (k & rho & N & rq & spare' & Hk & Hst & H0 & -> & Nq & Dq & Vq).
  exists rq, spare'. split_and!; auto. rewrite Vq. apply (quotient_close X A k rho N); auto; lia.
Qed.

(** The exponent of the quotient is an [int]. *)
Lemma quotient_exponent f1 f2 r : int_ok (f_exp f1 - f_exp f2) = true -> int_ok (f_exp f1 - f_exp f2 - 2) = true ->
  div_result f1 f2 r -> int_ok (f_exp r) = true.
Proof. unfold int_ok. rewrite !andb_true_iff, !Z.leb_le, !Z.ltb_lt. intros I1 I2 [_ _ E _ _]. lia. Qed.

(** The division of any two legal numbers other than zero. *)
Lemma flt_div_run spare f1 f2 : legal f1 -> legal f2 -> f_sign f1 <> 0 -> f_sign f2 <> 0 ->
  int_ok (f_exp f1 - f_exp f2) = true -> int_ok (f_exp f1 - f_exp f2 - 2) = true ->
  match flt_div spare f1 f2 with
  | Some (Ok r) => div_result f1 f2 r
  | Some (Throw _) => False
  | None => spare = []
  end.
Proof.
  intros L1 L2 S1 S2 I1 I2. unfold flt_div. apply Z.eqb_neq in S1 as B1. apply Z.eqb_neq in S2 as B2. rewrite I1, B1, B2. cbn [negb].
  destruct (first_digit f1 L1 S1) as (T1 & G1 & R1 & N1 & D1 & V1). destruct (first_digit f2 L2 S2) as (T2 & G2 & R2 & N2 & D2 & V2).
  rewrite !app_nth1 by (rewrite (lg_length _ L1) || rewrite (lg_length _ L2); unfold MANT_SIZE; lia).
  set (t := nth 0 (mant f1) 0) in *. set (s := nth 0 (mant f2) 0) in *. set (sg := if f_sign f1 =? f_sign f2 then 1 else -1).
  assert (forall l1 l2 X A fs delta n m, lined_up (dval (mant f1)) (dval (mant f2)) X A fs delta n m ->
    length l1 = (MANT_SIZE + 1)%nat -> Forall digit l1 -> dval l1 = X -> length l2 = (MANT_SIZE + 1)%nat -> Forall digit l2 -> dval l2 = A ->
    match (r ← div_loop (16 * (MANT_SIZE + 1) + 1) l1 l2 (replicate (MANT_SIZE + 1) 0 ++ spare) 0 0 true;
      let l := round_and_line_up fs r in
      let '(l, final_expt) := if nth 0 l 0 =? 0 then (drop 1 l ++ [0], f_exp f1 - f_exp f2 - delta - 1) else (l, f_exp f1 - f_exp f2 - delta) in
      if int_ok final_expt then Some (Ok (Flt l sg final_expt)) else None) : option (result flt_status flt) with
    | Some (Ok r) => div_result f1 f2 r
    | Some (Throw _) => False
    | None => spare = []
    end) as Hrun.
  { intros l1 l2 X A fs delta n m H Nl1 Dl1 Vl1 Nl2 Dl2 Vl2. pose proof (div_loop_start _ _ _ _ _ _ _ _ l1 l2 spare H Nl1 Dl1 Vl1 Nl2 Dl2 Vl2) as Hl.
    destruct (div_loop _ _ _ _ _ _ _) as [r|]; [|exact Hl]. destruct Hl as (rq & spare' & -> & Nr & Dr & Hdv). cbn [mbind option_bind].
    pose proof (lu_shift _ _ _ _ _ _ _ _ H) as Hf. destruct (kept_digits X A (dval rq) fs) as ((_ & HM) & _); try exact Hdv; try exact Hf; try apply H.
    destruct (round_and_line_up_ok fs rq spare' ltac:(lia) Nr Dr HM) as (N & D & V). cbv zeta.
    pose proof (div_result_ok f1 f2 X A (dval rq) fs delta n m _ L1 L2 S1 S2 H Hdv N D V) as Hres. cbv zeta in Hres. fold sg in Hres.
    destruct (nth 0 _ 0 =? 0); (pose proof (quotient_exponent _ _ _ I1 I2 Hres) as Hi; cbn [f_exp] in Hi; rewrite Hi; exact Hres). }
  destruct (bit_difference_ok t s T1 T2 G2) as [(n & -> & Hn & E1 & E2)|(m & -> & Hm & E1 & E2)]; cbn [mbind option_bind].
  - destruct (Z.ltb_spec 0 n) as [_|]; [|lia]. destruct (shift_digits_val n _ ltac:(lia) D1) as (N & D & V).
    apply (Hrun _ _ _ _ _ _ _ _ (lined_up_above _ _ t s n G2 (proj2 T2) R1 R2 Hn E1 E2)); auto; [congruence|by rewrite V, V1].
  - destruct (Z.ltb_spec 0 (- m)); [lia|]. destruct (Z.ltb_spec (-16) (- m)); [|lia]. replace (16 + - m) with (16 - m) by lia.
    pose proof (Hrun (mant f1 ++ [0]) (shift_digits m 0 (mant f2 ++ [0])) _ _ _ _ _ _ (lined_up_below _ _ t s m G1 (proj2 T2) R1 R2 Hm E1 E2)) as H'.
    destruct (shift_digits_val m _ ltac:(lia) D2) as (N & D & V). specialize (H' N1 D1 V1 ltac:(congruence) D ltac:(by rewrite V, V2)).
    destruct (Z.ltb_spec (- m) 0); [by rewrite Z.opp_involutive|]. assert (m = 0) as -> by lia.
    rewrite Z.pow_0_r, Z.div_1_r in V. rewrite (dval_inj _ _ D D2 N V) in H'. exact H'.
Qed.

(** The elements that are not used do not matter. *)
Lemma div_loop_app fuel x : forall l1 l2 r bit bitpos sg r', div_loop fuel l1 l2 r bit bitpos sg = Some r' -> div_loop fuel l1 l2 (r ++ x) bit bitpos sg = Some (r' ++ x).
Proof.
  induction fuel as [|fuel IH]; intros l1 l2 r bit bitpos sg r' H; [done|]. cbn [div_loop] in *.
  destruct (if sg then subtract_digits l1 l2 else restore_digits l1 l2) as [l1' c]. set (sg' := if sg then c =? 0 else negb (c =? 0)) in *.
  destruct (if bit =? 0 then (15, S bitpos) else (bit - 1, bitpos)) as [bit' bitpos']. destruct (halve_digits 0 l2) as [l2' keep_on].
  destruct sg'; cbn [mbind option_bind] in *.
  - destruct (r !! bitpos) as [d|] eqn:E; [|done]. cbn [mbind option_bind] in *. pose proof (lookup_lt_Some _ _ _ E) as Hlt.
    rewrite lookup_app_l, E by exact Hlt. cbn [mbind option_bind]. rewrite insert_app_l by exact Hlt. destruct keep_on; [by apply IH|congruence].
  - destruct keep_on; [by apply IH|congruence].
Qed.

Lemma div_loop_length fuel : forall l1 l2 r bit bitpos sg r', div_loop fuel l1 l2 r bit bitpos sg = Some r' -> length r' = length r.
Proof.
  induction fuel as [|fuel IH]; intros l1 l2 r bit bitpos sg r' H; [done|]. cbn [div_loop] in *.
  destruct (if sg then subtract_digits l1 l2 else restore_digits l1 l2) as [l1' c]. set (sg' := if sg then c =? 0 else negb (c =? 0)) in *.
  destruct (if bit =? 0 then (15, S bitpos) else (bit - 1, bitpos)) as [bit' bitpos']. destruct (halve_digits 0 l2) as [l2' keep_on].
  destruct sg'; cbn [mbind option_bind] in *; [destruct (r !! bitpos) as [d|]; [|done]; cbn [mbind option_bind] in *|]; (destruct keep_on; [apply IH in H; rewrite ?length_insert in H|injection H as <-; rewrite ?length_insert]; auto).
Qed.

Lemma flt_div_app x f1 f2 v : flt_div [] f1 f2 = Some v -> flt_div x f1 f2 = Some v.
Proof.
  unfold flt_div. destruct (negb _); [done|]. destruct (f_sign f2 =? 0); [done|]. destruct (f_sign f1 =? 0); [done|]. destruct (bit_difference _ _) as [n|]; [|done]. cbn [mbind option_bind].
  destruct (div_loop _ _ _ (replicate (MANT_SIZE + 1) 0 ++ []) _ _ _) as [r|] eqn:E; [|done]. pose proof (div_loop_length _ _ _ _ _ _ _ _ E) as N.
  rewrite app_nil_r in *. rewrite length_replicate in N. rewrite (div_loop_app _ x _ _ _ _ _ _ _ E). cbn [mbind option_bind].
  assert (forall fs, round_and_line_up fs (r ++ x) = round_and_line_up fs r) as Hr.
  { intros fs. unfold round_and_line_up. rewrite app_nth1, take_app_le by (rewrite N; lia). reflexivity. }
  by rewrite Hr.
Qed.

Definition ex_one : flt := Flt (1 :: replicate (MANT_SIZE - 1) 0) 1 0.
Definition ex_three : flt := Flt (3 :: replicate (MANT_SIZE - 1) 0) 1 0.

Lemma ex_legal d : digit d -> d <> 0 -> legal (Flt (d :: replicate (MANT_SIZE - 1) 0) 1 0).
Proof. intros Hd H0. split; [reflexivity|constructor; [exact Hd|apply zeros_digits]|right; by split; [left|]]. Qed.

(** C30: the quotient of two numbers, for all legal numbers and their exponents:
    off by less than one part in 2^111, as a legal number, if there is an
    element behind the nine of the quotient's digits; division by zero is
    refused. The difference of the exponents has to be an [int], and so has, for
    a quotient, what is less by two: otherwise the result is not defined. Without such an element, as on the machines whose largest
    mantissa has eight digits, either the result is the same, or the loop
    uses memory outside the array: it does for a third. *)
Theorem flt_div_close spare f1 f2 : legal f1 -> legal f2 ->
  (int_ok (f_exp f1 - f_exp f2) = false -> flt_div spare f1 f2 = None) /\
  (int_ok (f_exp f1 - f_exp f2) = true -> f_sign f2 = 0 -> flt_div spare f1 f2 = Some (Throw DIVBY0)) /\
  (int_ok (f_exp f1 - f_exp f2) = true -> f_sign f2 <> 0 -> f_sign f1 = 0 -> flt_div spare f1 f2 = Some (Ok flt_zero)) /\
  (int_ok (f_exp f1 - f_exp f2) = true -> int_ok (f_exp f1 - f_exp f2 - 2) = true -> f_sign f2 <> 0 -> f_sign f1 <> 0 -> spare <> [] ->
    exists r, flt_div spare f1 f2 = Some (Ok r) /\
    legal r /\ f_sign r = f_sign f1 * f_sign f2 /\
    let k := f_exp f1 - f_exp f2 - f_exp r in
    let exact := num f1 * FBASE ^ (7 + k) in
    0 <= k <= 2 /\ 2 ^ 111 * Z.abs (num r * num f2 - exact) < Z.abs exact) /\
  (forall v, flt_div [] f1 f2 = Some v -> flt_div spare f1 f2 = Some v) /\
  flt_div [] ex_one ex_three = None.
Proof.
  intros L1 L2. split; [|split; [|split; [|split; [|split; [apply flt_div_app|by vm_compute]]]]].
  - intros I1. unfold flt_div. by rewrite I1.
  - intros I1 E. unfold flt_div. by rewrite I1, E.
  - intros I1 E2 E1. unfold flt_div. apply Z.eqb_neq in E2. by rewrite I1, E2, E1.
  - intros I1 I2 S2 S1 Hsp. pose proof (flt_div_run spare f1 f2 L1 L2 S1 S2 I1 I2) as H. destruct (flt_div spare f1 f2) as [[r|]|]; [|done|done].
    destruct H as [Lr Sr Er Hc _]. exists r. split_and!; auto; try lia. unfold num. rewrite Sr.
    destruct (legal_sign f1 L1) as [[E _]|[C1 _]]; [done|]. destruct (legal_sign f2 L2) as [[E _]|[C2 _]]; [done|].
    set (F := dval (mant f1) * FBASE ^ (7 + (f_exp f1 - f_exp f2 - f_exp r))) in *. cbv zeta in Hc. fold F in Hc.
    replace (f_sign f1 * dval (mant f1) * FBASE ^ (7 + (f_exp f1 - f_exp f2 - f_exp r))) with (f_sign f1 * F) by (unfold F; ring).
    set (x := dval (mant r) * dval (mant f2)) in *. replace (f_sign f1 * f_sign f2 * dval (mant r) * (f_sign f2 * dval (mant f2))) with (f_sign f1 * (f_sign f2 * f_sign f2) * x) by (unfold x; ring).
    assert (f_sign f2 * f_sign f2 = 1) as -> by (destruct C2 as [-> | ->]; reflexivity). rewrite Z.mul_1_r, <- Z.mul_sub_distr_l, !(Z.abs_mul (f_sign f1)).
    assert (Z.abs (f_sign f1) = 1) as -> by (destruct C1 as [-> | ->]; reflexivity). rewrite !Z.mul_1_l. lia.
Qed.

Lemma flt_div_close_witness : exists r, flt_div [0] ex_one ex_three = Some (Ok r) /\ mant r = replicate MANT_SIZE 21845 /\ f_exp r = -1.
Proof.
  assert (legal ex_one) as L1 by (apply ex_legal; [by vm_compute|done]). assert (legal ex_three) as L2 by (apply ex_legal; [by vm_compute|done]).
  destruct (flt_div_close [0] ex_one ex_three L1 L2) as (_ & _ & _ & H & _). destruct (H eq_refl eq_refl ltac:(done) ltac:(done) ltac:(done)) as (r & E & _).
  exists r. split; [exact E|]. vm_compute in E. injection E as <-. split; reflexivity.
Defined.
