(* ===== verification/TransNumbersArray.v ===== *)
(** * TransNumbersArray: the array of numbers as a finite map

    The array of TransNumbers with its list of free elements (new_flpt,
    flpt_ret and more_flpts of trans/src/common/flpt/flpt.c) implements a
    finite map from the elements in use to their numbers. *)
From stdpp Require Import base list list_numbers gmap numbers.
From Stdlib Require Import ZArith Lia.
From S2P Require Import Prelude TransFlpt TransNumbers.

Section Array.
Context (junk : nat -> flt).

(** The elements [l] follow each other from [e] on. *)
Fixpoint linked (cells : list flt) (e : Z) (l : list nat) : Prop :=
  match l with
  | [] => True
  | i :: l => e = Z.of_nat i /\ exists f, cells !! i = Some f /\ linked cells (f_exp f) l
  end.

Record free_cells (s : flpts) (l : list nat) : Prop := {
  fc_nodup : NoDup l;
  fc_left : flpt_left s = Z.of_nat (length l);
  fc_some : l <> [];
  fc_linked : linked (flptnos s) (flptfree s) l
}.

(** The map: the elements in use, which are those that are not free. *)
Record represents (s : flpts) (m : gmap nat flt) : Prop := {
  rp_free : exists l, free_cells s l /\ forall i, i ∈ l -> m !! i = None;
  rp_cells : forall i f, m !! i = Some f -> flptnos s !! i = Some f
}.

Lemma linked_ext cells cells' e l : (forall i, i ∈ l -> cells' !! i = cells !! i) -> linked cells e l -> linked cells' e l.
Proof.
  revert e. induction l as [|i l IH]; intros e H; [done|]. intros (He & f & Hf & Hl). split; [exact He|]. exists f.
  split; [rewrite H; [exact Hf|by left]|]. apply IH; [|exact Hl]. intros j Hj. apply H. by right.
Qed.

Lemma linked_lookup cells e l i : linked cells e l -> i ∈ l -> (i < length cells)%nat.
Proof.
  revert e. induction l as [|j l IH]; intros e; [intros _ H; by apply elem_of_nil in H|]. intros (_ & f & Hf & Hl) [->|Hi]%elem_of_cons; [|by eapply IH].
  by eapply lookup_lt_Some.
Qed.

(** The elements that are added, from the last one. *)
Lemma linked_new cells n : forall k e, e = Z.of_nat (n + k) - 1 ->
  (forall i, (n < i < n + k)%nat -> exists f, cells !! i = Some f /\ f_exp f = Z.of_nat i - 1) -> (0 < k -> exists f, cells !! n = Some f)%nat ->
  linked cells e (reverse (seq n k)).
Proof.
  induction k as [|k IH]; intros e He H Hn; [done|]. rewrite seq_S, reverse_app. cbn [reverse app]. split; [lia|].
  destruct k as [|k].
  - destruct (Hn ltac:(lia)) as [f Hf]. exists f. rewrite Nat.add_0_r. by split.
  - destruct (H (n + S k)%nat ltac:(lia)) as (f & Hf & Ef). exists f. split; [exact Hf|]. apply IH; [lia| |intros _; apply Hn; lia].
    intros i Hi. apply H. lia.
Qed.

Lemma get_flpt_nat r s : get_flpt (Z.of_nat r) s = flptnos s !! r.
Proof. unfold get_flpt. rewrite (proj2 (Z.ltb_ge _ _)), Nat2Z.id by lia. reflexivity. Qed.

Lemma more_flpts_free s : free_cells (more_flpts junk s) (reverse (seq (length (flptnos s)) extra_flpts)).
Proof.
  unfold more_flpts. set (n := length (flptnos s)). split; cbn [flptnos flptfree flpt_left].
  - rewrite reverse_Permutation; apply NoDup_seq.
  - by rewrite length_reverse, length_seq.
  - intros E. by apply (f_equal length) in E.
  - apply linked_new; [lia| |].
    + intros i Hi. eexists. rewrite lookup_app_r by lia. fold n. rewrite lookup_cons_ne_0 by lia.
      rewrite list_lookup_fmap, lookup_seq_lt by (unfold extra_flpts in *; lia). cbn [fmap option_fmap option_map]. split; [reflexivity|]. cbn [f_exp set_exp]. lia.
    + intros _. eexists. rewrite lookup_app_r by lia. fold n. by rewrite Nat.sub_diag.
Qed.

Lemma new_flpt_ok s m : represents s m ->
  exists r s' f, new_flpt junk s = Some (Z.of_nat r, s') /\ m !! r = None /\ represents s' (<[r := f]> m).
Proof.
  intros [(l & [Hd Hleft Hne Hl] & Hfree) Hm]. destruct l as [|r l]; [done|]. destruct Hl as (Hr & f & Hf & Hl).
  assert (m !! r = None) as Hmr by (apply Hfree; by left). apply list.NoDup_cons in Hd as [Hrl Hd].
  unfold new_flpt. rewrite Hr, get_flpt_nat, Hf. cbn [mbind option_bind flpt_left]. cbn [length] in Hleft.
  assert (forall cells : list flt, (forall i g, flptnos s !! i = Some g -> cells !! i = Some g) -> forall i g, <[r := f]> m !! i = Some g -> cells !! i = Some g) as Hcells.
  { intros cells Hc i g. destruct (decide (i = r)) as [->|Hir]; [rewrite lookup_insert_eq; intros [= <-]; auto|rewrite lookup_insert_ne by congruence; auto]. }
  destruct (Z.eqb_spec (flpt_left s - 1) 0) as [E|E].
  - eexists r, _, f. split; [reflexivity|]. split; [exact Hmr|]. split.
    + eexists. split; [apply more_flpts_free|]. cbn [flptnos]. intros i Hi. apply elem_of_reverse, elem_of_seq in Hi.
      assert (r < length (flptnos s))%nat by (by eapply lookup_lt_Some). rewrite lookup_insert_ne by lia.
      destruct (m !! i) as [g|] eqn:Eg; [|done]. apply Hm in Eg. apply lookup_lt_Some in Eg. lia.
    + apply Hcells. intros i g Hg. unfold more_flpts. cbn [flptnos]. apply lookup_app_Some. by left.
  - eexists r, _, f. split; [reflexivity|]. split; [exact Hmr|]. split.
    + exists l. split; [|intros i Hi; rewrite lookup_insert_ne by (intros ->; done); apply Hfree; by right].
      split; cbn [flptnos flptfree flpt_left]; [exact Hd|lia| |exact Hl]. intros ->. cbn [length] in *. lia.
    + apply Hcells. auto.
Qed.

Lemma put_flpt_ok s m r f : represents s m -> is_Some (m !! r) -> exists s', put_flpt (Z.of_nat r) f s = Some s' /\ represents s' (<[r := f]> m).
Proof.
  intros [(l & [Hd Hleft Hne Hl] & Hfree) Hm] [g Hg]. unfold put_flpt. rewrite get_flpt_nat, (Hm _ _ Hg). cbn [mbind option_bind]. rewrite Nat2Z.id.
  eexists. split; [reflexivity|]. assert (r ∉ l) as Hr by (intros Hr; by rewrite (Hfree r Hr) in Hg). split; cbn [flptnos].
  - exists l. split; [|intros i Hi; rewrite lookup_insert_ne by (intros ->; done); auto]. split; cbn [flptnos flptfree flpt_left]; auto.
    eapply linked_ext; [|exact Hl]. intros i Hi. rewrite list_lookup_insert_ne; [done|]. by intros ->.
  - intros i h. destruct (decide (i = r)) as [->|Hir].
    + rewrite lookup_insert_eq. intros [= <-]. apply list_lookup_insert_eq. eapply lookup_lt_Some, Hm, Hg.
    + rewrite lookup_insert_ne by congruence. rewrite list_lookup_insert_ne by congruence. apply Hm.
Qed.

Lemma flpt_ret_ok s m r : represents s m -> is_Some (m !! r) -> exists s', flpt_ret (Z.of_nat r) s = Some s' /\ represents s' (delete r m).
Proof.
  intros [(l & [Hd Hleft Hne Hl] & Hfree) Hm] [g Hg]. unfold flpt_ret, put_flpt. rewrite get_flpt_nat, (Hm _ _ Hg). cbn [mbind option_bind].
  rewrite Nat2Z.id. eexists. split; [reflexivity|].
  assert (r ∉ l) as Hr by (intros Hr; by rewrite (Hfree r Hr) in Hg). assert (r < length (flptnos s))%nat as Hlt by (eapply lookup_lt_Some, Hm, Hg).
  split; cbn [flptnos].
  - exists (r :: l). split.
    + split; cbn [flptnos flptfree flpt_left length]; [by apply list.NoDup_cons|lia|done|]. split; [done|]. eexists. split; [by apply list_lookup_insert_eq|].
      cbn [f_exp set_exp]. eapply linked_ext; [|exact Hl]. intros i Hi. rewrite list_lookup_insert_ne; [done|]. by intros ->.
    + intros i [->|Hi]%elem_of_cons; [by rewrite lookup_delete_eq|]. rewrite lookup_delete_ne by (intros ->; done). auto.
  - intros i h Hi. apply lookup_delete_Some in Hi as [Hir Hi]. rewrite list_lookup_insert_ne by congruence. auto.
Qed.

Lemma get_flpt_ok s m r f : represents s m -> m !! r = Some f -> get_flpt (Z.of_nat r) s = Some f.
Proof. intros [_ Hm] H. rewrite get_flpt_nat. auto. Qed.
End Array.

Lemma init_flpt_ok junk : exists s, init_flpt junk = Some (49, 48, s) /\
  represents s (<[49%nat := flt_zero]> (<[48%nat := Flt (1 :: replicate (MANT_SIZE - 1) 0) 1 0]> ∅)).
Proof.
  eexists. split; [reflexivity|]. split.
  - exists (reverse (seq 0 48)). split.
    + split; cbn [flptnos flptfree flpt_left]; [rewrite reverse_Permutation; apply NoDup_seq|reflexivity|discriminate|]. cbn [reverse]. vm_compute. repeat (split; [reflexivity|]; eexists; split; [reflexivity|]). exact I.
    + intros i Hi. apply elem_of_reverse, elem_of_seq in Hi. by rewrite !lookup_insert_ne, lookup_empty by lia.
  - intros i f. rewrite !lookup_insert_Some, lookup_empty. intros [[<- <-]|[_ [[<- <-]|[_ [=]]]]]; reflexivity.
Qed.

(** C31: the array of numbers is a finite map from the elements in use to their
    numbers, however often it grows: a new element is not in use and the
    others keep their numbers; an element in use is read, changed and given
    back without the use of memory outside the array. *)
Theorem flptnos_refines_map junk s m : represents s m ->
  (exists r s' f, new_flpt junk s = Some (Z.of_nat r, s') /\ m !! r = None /\ represents s' (<[r := f]> m)) /\
  (forall r f, m !! r = Some f ->
    get_flpt (Z.of_nat r) s = Some f /\
    (forall g, exists s', put_flpt (Z.of_nat r) g s = Some s' /\ represents s' (<[r := g]> m)) /\
    (exists s', flpt_ret (Z.of_nat r) s = Some s' /\ represents s' (delete r m))).
Proof.
  intros H. split; [by apply new_flpt_ok|]. intros r f Hr. split; [by eapply get_flpt_ok|]. split.
  - intros g. apply put_flpt_ok; [exact H|by eexists].
  - apply flpt_ret_ok; [exact H|by eexists].
Qed.

Lemma flptnos_refines_map_witness : exists s, init_flpt (fun _ => flt_zero) = Some (49, 48, s) /\
  get_flpt 48 s = Some (Flt (1 :: replicate (MANT_SIZE - 1) 0) 1 0) /\
  exists r s' f, new_flpt (fun _ => flt_zero) s = Some (Z.of_nat r, s') /\ r <> 48%nat /\
    represents s' (<[r := f]> (<[49%nat := flt_zero]> (<[48%nat := Flt (1 :: replicate (MANT_SIZE - 1) 0) 1 0]> ∅))).
Proof.
  destruct (init_flpt_ok (fun _ => flt_zero)) as (s & E & H). exists s. split; [exact E|].
  destruct (flptnos_refines_map (fun _ => flt_zero) s _ H) as [(r & s' & f & E1 & Hr & H1) H2]. split.
  - apply (H2 48%nat). reflexivity.
  - exists r, s', f. split; [exact E1|]. split; [intros ->; discriminate Hr|exact H1].
Defined.
