(* ===== verification/TransInt64.v ===== *)
(** * TransInt64: integers of the installers

    A number that is built digit by digit (flpt_newdig of
    trans/src/common/flpt/flpt.c) or from a machine integer (floatrep) stands
    for the integer, as long as it has at most eight digits to the base
    [FBASE]. The operations of trans/src/common/utility/int64.c, which go
    through such numbers, are arithmetic modulo 2^64. *)
From stdpp Require Import base list list_numbers gmap numbers.
From Stdlib Require Import ZArith Lia.
From S2P Require Import Prelude TransFlpt TransFlptSpec TransFlptArith TransNumbers TransNumbersSpec TransFlptDiv TransNumbersArray.

(** The number of some digits. *)
Definition of_digits (l : list Z) (s : Z) : flt := Flt (l ++ replicate (MANT_SIZE - length l) 0) s (Z.of_nat (length l) - 1).

Lemma mul_carry_ok l base : Forall digit l -> 0 <= base <= 32768 ->
  let '(l', c) := mul_carry l base in
  Forall digit l' /\ length l' = length l /\ 0 <= c <= 32768 /\ dval l' + c * FBASE ^ Z.of_nat (length l) = dval l * base.
Proof.
  intros Hl Hb. induction Hl as [|d l Hd Hl IH]; cbn [mul_carry dval length]; [split_and!; auto; lia|].
  destruct (mul_carry l base) as [l' c]. destruct IH as (H1 & H2 & H3 & H4). unfold digit, FBASE in Hd.
  rewrite u32_small by nia. set (x := d * base + c). assert (0 <= x <= 65535 * 32768 + 32768) as Hx by (unfold x; nia).
  pose proof (Z.div_mod x FBASE ltac:(discriminate)) as Hdm. pose proof (Z.mod_pos_bound x FBASE ltac:(reflexivity)) as Hm.
  split; [constructor; [exact Hm|exact H1]|]. split; [cbn; lia|].
  split; [split; [apply Z.div_pos; unfold FBASE; lia|unfold FBASE in *; Z.div_mod_to_equations; lia]|].
  cbn [dval]. rewrite H2, base_S. set (u := FBASE ^ Z.of_nat (length l)) in *.
  transitivity ((x mod FBASE + FBASE * (x / FBASE)) * u + dval l'); [ring|]. rewrite Z.add_comm in Hdm. rewrite <- Hdm.
  transitivity (d * base * u + (dval l' + c * u)); [unfold x; ring|]. rewrite H4. ring.
Qed.

Lemma mul_carry_zeros n base : mul_carry (replicate n 0) base = (replicate n 0, 0).
Proof. induction n as [|n IH]; [reflexivity|]. cbn [replicate mul_carry]. by rewrite IH. Qed.

Lemma mul_carry_app l n base : mul_carry (l ++ replicate n 0) base = ((mul_carry l base).1 ++ replicate n 0, (mul_carry l base).2).
Proof.
  induction l as [|d l IH]; [apply mul_carry_zeros|]. cbn [app mul_carry]. rewrite IH. by destruct (mul_carry l base).
Qed.

Lemma push_digit_ok c l s : (length l < MANT_SIZE)%nat -> push_digit c (of_digits l s) = of_digits (c :: l) s.
Proof.
  intros Hn. unfold push_digit, of_digits. cbn [f_exp f_sign mant length]. unfold MANT_SIZE in *.
  replace (Z.of_nat (length l) - 1 + 1) with (Z.of_nat (length l)) by lia. rewrite (proj2 (Z.leb_gt _ _)), Nat2Z.id by lia.
  rewrite take_app_length, drop_app_ge, drop_replicate by lia. replace (8 - length l - (S (length l) - length l))%nat with (8 - S (length l))%nat by lia.
  f_equal. lia.
Qed.

(** Eight digits are enough for what is carried. *)
Lemma carry_room l c v : Forall digit l -> dval l + c * FBASE ^ Z.of_nat (length l) = v -> 0 < c -> (length l <= MANT_SIZE)%nat -> v < FBASE ^ 8 -> (length l < MANT_SIZE)%nat.
Proof.
  intros Hl E Hc Hn Hv. pose proof (dval_bound l Hl) as Hb. destruct (decide (length l = MANT_SIZE)) as [El|]; [|lia]. exfalso. rewrite El in *.
  change (Z.of_nat MANT_SIZE) with 8 in *. set (u := FBASE ^ 8) in *. clearbody u. clear El. nia.
Qed.

(** The digits after a carry are those of the sum. *)
Lemma push_carry l c s v : Forall digit l -> (0 < length l <= MANT_SIZE)%nat -> 0 <= c < FBASE -> dval l + c * FBASE ^ Z.of_nat (length l) = v -> v < FBASE ^ 8 ->
  FBASE ^ Z.of_nat (length l - 1) <= v ->
  exists l', (if c =? 0 then of_digits l s else push_digit c (of_digits l s)) = of_digits l' s /\ Forall digit l' /\ (0 < length l' <= MANT_SIZE)%nat /\ dval l' = v /\ nth 0 l' 0 <> 0.
Proof.
  intros Hl Hn Hc E Hv Hlow. destruct (Z.eqb_spec c 0) as [->|H0].
  - exists l. rewrite Z.mul_0_l, Z.add_0_r in E. split; [reflexivity|]. split; [exact Hl|]. split; [exact Hn|]. split; [exact E|].
    apply (head_val l (length l - 1)); [exact Hl|lia|by rewrite E].
  - pose proof (carry_room l c v Hl E ltac:(lia) ltac:(lia) Hv) as Hlt. exists (c :: l). rewrite push_digit_ok by exact Hlt. split; [reflexivity|].
    split; [by constructor|]. cbn [length dval]. split; [lia|]. split; [|exact H0]. rewrite <- E. ring.
Qed.

(** A further digit to a base of at most 2^15 multiplies the integer and
    adds to it, as long as eight digits to the base [FBASE] hold the result. *)
Lemma flpt_newdig_integer n dig base : 0 <= n -> 0 <= dig < base -> base <= 32768 -> n * base + dig < FBASE ^ 8 ->
  flpt_newdig dig (rounded n 0) base = rounded (n * base + dig) 0.
Proof.
  intros Hn Hdig Hbase Hv. assert (digit dig) as Dd by (unfold digit, FBASE; lia).
  destruct (Z.eq_dec n 0) as [->|H0].
  { rewrite Z.mul_0_l, Z.add_0_l. unfold flpt_newdig. change (rounded 0 0) with flt_zero. cbn [mant flt_zero f_sign f_exp]. rewrite mul_carry_zeros. cbn [Z.eqb f_exp].
    change (Z.of_nat MANT_SIZE <=? 0) with false. cbn [mant f_sign]. change (Z.to_nat (0 + 1)) with 1%nat. change (take 1 (replicate MANT_SIZE 0)) with [0]. cbn [add_carry].
    destruct (Z.eqb_spec dig 0) as [->|Hne]; [reflexivity|]. unfold digit in Dd. rewrite Z.add_0_r, Z.mod_small, Z.div_small by exact Dd. cbn [Z.eqb].
    pose proof (int_of_digits [dig] 1 ltac:(by constructor) ltac:(cbn; unfold MANT_SIZE; lia) Hne ltac:(by left)) as E.
    replace (1 * dval [dig]) with dig in E by (cbn; lia). exact E. }
  assert (Z.abs n < FBASE ^ 8) as Hb by (rewrite Z.abs_eq by lia; eapply Z.le_lt_trans; [|exact Hv]; nia).
  destruct (int_mant n H0 Hb) as (l & Hlen & Hl & Hh & Ev & _ & ->). rewrite (Z.sgn_pos n) by lia. rewrite Z.abs_eq in Ev by lia. clear Hb.
  unfold flpt_newdig. cbn [mant f_sign f_exp]. rewrite mul_carry_app. pose proof (mul_carry_ok l base Hl ltac:(lia)) as Hm.
  destruct (mul_carry l base) as [l1 c]. destruct Hm as (H1 & H2 & H3 & H4). cbn [fst snd].
  assert ((if dig =? 0 then 1 else 1) = 1) as -> by (by destruct (dig =? 0)). rewrite Ev in H4. rewrite <- H2 in H4 |- *.
  assert (FBASE ^ Z.of_nat (length l1 - 1) <= n) as Hlow by (rewrite H2, <- Ev; apply head_val; [exact Hl|lia|exact Hh]).
  fold (of_digits l1 1). destruct (push_carry l1 c 1 (n * base) H1 ltac:(lia) ltac:(unfold FBASE; lia) H4 ltac:(lia) ltac:(nia)) as (l2 & -> & D2 & N2 & V2 & Z2).
  assert ((Z.of_nat MANT_SIZE <=? f_exp (of_digits l2 1)) = false) as -> by (apply Z.leb_gt; cbn [f_exp of_digits]; lia).
  cbn [f_exp of_digits mant f_sign]. replace (Z.to_nat (Z.of_nat (length l2) - 1 + 1)) with (length l2) by lia. rewrite take_app_length, drop_app_length.
  pose proof (add_carry_ok l2 dig D2 ltac:(unfold FBASE; lia)) as Ha. destruct (add_carry l2 dig) as [l3 c3]. destruct Ha as (H5 & H6 & H7 & H8).
  rewrite <- H6 in *. rewrite V2 in H8. fold (of_digits l3 1).
  assert (FBASE ^ Z.of_nat (length l3 - 1) <= n * base + dig) as Hlow3.
  { rewrite H6. assert (FBASE ^ Z.of_nat (length l2 - 1) <= n * base) as Hm; [|clear -Hm Hdig; lia]. rewrite <- V2. apply head_val; [exact D2|lia|exact Z2]. }
  assert (c3 < FBASE) as Hc3.
  { pose proof (dval_bound l3 H5) as Hb3. pose proof (dval_bound l2 D2) as Hb2. rewrite <- H6, V2 in Hb2. pose proof (base_pos (length l3)) as Hp.
    set (u := FBASE ^ Z.of_nat (length l3)) in *. clear -H8 Hb3 Hb2 Hp Hdig Hbase H7. unfold FBASE in *. clearbody u. nia. }
  destruct (push_carry l3 c3 1 (n * base + dig) H5 ltac:(lia) ltac:(lia) H8 Hv Hlow3) as (l4 & -> & D4 & N4 & V4 & Z4).
  unfold of_digits. rewrite int_of_digits by auto. by rewrite V4, Z.mul_1_l.
Qed.

(** ** From machine integers *)

Lemma floatrep_number n sign : -2147483648 <= n < 2147483648 -> sign = 1 \/ sign = -1 ->
  (if n =? 0 then flt_zero else let l := int_digits n in Flt (l ++ replicate (MANT_SIZE - length l) 0) sign (Z.of_nat (length l) - 1)) = rounded (sign * u32 n) 0.
Proof.
  intros Hn Hs. destruct (Z.eqb_spec n 0) as [->|H0]; [by destruct Hs as [-> | ->]|]. cbv zeta. unfold int_digits. rewrite !land_lo, shiftr16.
  pose proof (u32_unsigned n) as Hr. set (u := u32 n) in *.
  assert (n / 65536 mod 65536 = u / 65536 /\ n mod 65536 = u mod 65536 /\ u <> 0) as (-> & -> & Hu).
  { unfold u. rewrite u32_signed by exact Hn. destruct (Z.ltb_spec n 0).
    - split; [|split; [|lia]].
      + replace (n + 4294967296) with (n + 65536 * 65536) by lia. rewrite Z.div_add by lia. rewrite <- (Z.mod_small (n / 65536 + 65536) 65536) by (Z.div_mod_to_equations; lia).
        rewrite <- (Z.mod_add (n / 65536) 1) by lia. f_equal.
      + rewrite <- (Z.mod_add n 65536) by lia. reflexivity.
    - split; [|split; [reflexivity|exact H0]]. apply Z.mod_small. Z.div_mod_to_equations. lia. }
  clearbody u. clear Hn H0 n. pose proof (Z.div_mod u 65536 ltac:(lia)) as Hd. pose proof (digit_mod u) as D2. assert (digit (u / 65536)) as D1 by (unfold digit, FBASE; Z.div_mod_to_equations; lia).
  destruct (Z.eqb_spec (u / 65536) 0) as [E|E]; [destruct (Z.eqb_spec (u mod 65536) 0) as [E2|E2]; [lia|]|];
    (apply few_digits; [repeat (apply Forall_cons_2; [assumption|]); apply Forall_nil_2|cbn [length]; lia|assumption|exact Hs|]);
    cbn [dval length]; change (Z.of_nat 1) with 1; change (Z.of_nat 0) with 0; change (FBASE ^ 1) with 65536; change (FBASE ^ 0) with 1; lia.
Qed.

Lemma floatrep_aux_ok junk n sign s m : represents s m -> -2147483648 <= n < 2147483648 -> sign = 1 \/ sign = -1 ->
  exists r s', floatrep_aux junk n sign s = Some (Z.of_nat r, s') /\ m !! r = None /\ represents s' (<[r := rounded (sign * u32 n) 0]> m).
Proof.
  intros H Hn Hs. unfold floatrep_aux. rewrite floatrep_number by assumption. destruct (new_flpt_ok junk s m H) as (r & s1 & x & -> & Hr & H1). cbn [mbind option_bind].
  destruct (put_flpt_ok s1 _ r (rounded (sign * u32 n) 0) H1 ltac:(rewrite lookup_insert_eq; by eexists)) as (s2 & -> & H2). cbn [mbind option_bind].
  rewrite insert_insert_eq in H2. by exists r, s2.
Qed.

Lemma floatrep_unsigned_ok junk n s m : represents s m -> 0 <= n < 4294967296 ->
  exists r s', floatrep_unsigned junk n s = Some (Z.of_nat r, s') /\ m !! r = None /\ represents s' (<[r := rounded n 0]> m).
Proof.
  intros H Hn. unfold floatrep_unsigned. destruct (floatrep_aux_ok junk (s32 n) 1 s m H (s32_range n) ltac:(by left)) as (r & s' & E & Hr & H').
  rewrite s32_u32, u32_small, Z.mul_1_l in H' by exact Hn. eauto.
Qed.

(** The number that is made of an [int] stands for it, the least one
    included, and is in an element that was not in use. *)
Theorem floatrep_integer junk n s m : represents s m -> -2147483648 <= n < 2147483648 ->
  exists r s', floatrep junk n s = Some (Z.of_nat r, s') /\ m !! r = None /\ represents s' (<[r := rounded n 0]> m).
Proof.
  intros H Hn. unfold floatrep. destruct (Z.ltb_spec n 0) as [Hlt|Hge].
  - destruct (floatrep_aux_ok junk (s32 (- n)) (-1) s m H (s32_range _) ltac:(by right)) as (r & s' & E & Hr & H').
    rewrite s32_u32, u32_small in H' by lia. replace (-1 * - n) with n in H' by lia. eauto.
  - destruct (floatrep_aux_ok junk n 1 s m H Hn ltac:(by left)) as (r & s' & E & Hr & H'). rewrite u32_small, Z.mul_1_l in H' by lia. eauto.
Qed.

Lemma floatrep_integer_witness : exists s, init_flpt (fun _ => flt_zero) = Some (49, 48, s) /\
  exists r s', floatrep (fun _ => flt_zero) (-2147483648) s = Some (Z.of_nat r, s') /\
    get_flpt (Z.of_nat r) s' = Some (Flt [32768; 0; 0; 0; 0; 0; 0; 0] (-1) 1).
Proof.
  destruct (init_flpt_ok (fun _ => flt_zero)) as (s & E & H). exists s. split; [exact E|].
  destruct (floatrep_integer (fun _ => flt_zero) (-2147483648) s _ H ltac:(lia)) as (r & s' & E1 & Hr & H'). exists r, s'. split; [exact E1|].
  eapply get_flpt_ok; [exact H'|]. rewrite lookup_insert_eq. vm_compute. reflexivity.
Defined.

(** ** Arithmetic on numbers that stand for integers *)

Lemma int_facts a : Z.abs a < FBASE ^ 8 ->
  legal (rounded a 0) /\ 0 <= f_exp (rounded a 0) <= 7 /\ num (rounded a 0) = a * FBASE ^ (7 - f_exp (rounded a 0)).
Proof.
  intros Ha. destruct (Z.eq_dec a 0) as [->|H0]; [split; [apply rounded_legal|split; [by vm_compute|reflexivity]]|].
  pose proof (int_digits_bound a H0 Ha) as Hk. destruct (int_rep_inv a H0 Ha) as (L & Es & Ee & Em). split; [exact L|]. rewrite Ee. split; [clear -Hk; lia|].
  unfold num. rewrite Es, Em, Z.mul_assoc. f_equal; [clear; lia|f_equal; clear; lia].
Qed.

Section Int64.
Context (junk : nat -> flt) (LONG_MAX : Z) (HL : 2147483647 <= LONG_MAX).

Lemma E_MAX_large : 32767 <= E_MAX LONG_MAX.
Proof. unfold E_MAX, FBASE. apply Z.div_le_lower_bound; lia. Qed.

Lemma int_mul a b : Z.abs a < FBASE ^ 8 -> Z.abs b < FBASE ^ 8 ->
  flt_mul LONG_MAX (rounded a 0) (rounded b 0) = Some (Ok (rounded (a * b) 0)).
Proof.
  intros Ha Hb. destruct (int_facts a Ha) as (La & Ea & Na). destruct (int_facts b Hb) as (Lb & Eb & Nb). rewrite flt_mul_ok by assumption. cbv zeta.
  pose proof E_MAX_large as HE. clear Ha Hb. set (ea := f_exp (rounded a 0)) in *. set (eb := f_exp (rounded b 0)) in *.
  assert (num (rounded a 0) * num (rounded b 0) = a * b * FBASE ^ Z.of_nat (Z.to_nat (14 - ea - eb))) as E.
  { rewrite Na, Nb, Z2Nat.id by lia. replace (14 - ea - eb) with (7 - ea + (7 - eb)) by lia. rewrite Z.pow_add_r by lia. ring. }
  rewrite E. pose proof (base_pos (Z.to_nat (14 - ea - eb))) as Hp. destruct (Z.eq_dec (a * b) 0) as [E0|H0]; [by rewrite E0|].
  assert (int_ok (ea + eb) && int_ok (ea + eb + 1) = true) as -> by (unfold int_ok; rewrite !andb_true_iff, !Z.leb_le, !Z.ltb_lt; clear -Ea Eb; lia).
  assert ((a * b * FBASE ^ Z.of_nat (Z.to_nat (14 - ea - eb)) =? 0) = false) as -> by (apply Z.eqb_neq; clear -H0 Hp; nia).
  assert ((E_MAX LONG_MAX <=? ea + eb + 1) = false) as -> by (apply Z.leb_gt; clear -HE Ea Eb; lia).
  assert ((exponent (a * b * FBASE ^ Z.of_nat (Z.to_nat (14 - ea - eb))) (ea + eb - 14) <=? E_MIN) = false) as ->.
  { apply Z.leb_gt. unfold exponent, E_MIN. pose proof (num_digits_pos (Z.abs (a * b * FBASE ^ Z.of_nat (Z.to_nat (14 - ea - eb))))) as Hk. clear -Hk Ea Eb. lia. }
  cbn [orb negb]. do 2 f_equal. rewrite rounded_scale. f_equal. clear -Ea Eb. lia.
Qed.

Lemma int_add_range a : Z.abs a < FBASE ^ 8 -> in_range LONG_MAX (rounded a 0).
Proof. intros Ha. destruct (int_facts a Ha) as (_ & He & _). pose proof E_MAX_large as HE. unfold in_range, E_MIN. clear -He HE. lia. Qed.

Lemma int_add a b : Z.abs a < FBASE ^ 8 -> Z.abs b < FBASE ^ 8 -> num_digits (Z.abs (a + b)) <= 100 ->
  flt_add LONG_MAX (rounded a 0) (rounded b 0) = Ok (rounded (a + b) 0).
Proof.
  intros Ha Hb Hk. pose proof (int_add_range a Ha) as Ra. pose proof (int_add_range b Hb) as Rb.
  destruct (int_facts a Ha) as (La & Ea & Na). destruct (int_facts b Hb) as (Lb & Eb & Nb). pose proof E_MAX_large as HE. clear Ha Hb.
  rewrite flt_add_ok; [|assumption..|right; unfold MANT_SIZE; clear -Ea Eb; lia]. unfold sum_num, sum_exp. rewrite Na, Nb.
  set (ea := f_exp (rounded a 0)) in *. set (eb := f_exp (rounded b 0)) in *. clearbody ea eb. clear Ra Rb Na Nb La Lb.
  replace (a * FBASE ^ (7 - ea) * FBASE ^ (ea - ea `min` eb) + b * FBASE ^ (7 - eb) * FBASE ^ (eb - ea `min` eb)) with ((a + b) * FBASE ^ Z.of_nat (Z.to_nat (7 - ea `min` eb))).
  - rewrite sum_result_scale. replace (ea `min` eb - 7 + Z.of_nat (Z.to_nat (7 - ea `min` eb))) with 0 by lia.
    unfold sum_result. destruct (Z.eqb_spec (a + b) 0) as [E|E]; [by rewrite E|]. unfold exponent, E_MIN. pose proof (num_digits_pos (Z.abs (a + b))) as Hp.
    assert ((E_MAX LONG_MAX <=? 0 + num_digits (Z.abs (a + b)) - 1) = false) as -> by (apply Z.leb_gt; lia).
    assert ((0 + num_digits (Z.abs (a + b)) - 1 <? -16384) = false) as -> by (apply Z.ltb_ge; lia). reflexivity.
  - rewrite <- !Z.mul_assoc, <- !Z.pow_add_r by lia. replace (7 - ea + (ea - ea `min` eb)) with (7 - ea `min` eb) by lia.
    replace (7 - eb + (eb - ea `min` eb)) with (7 - ea `min` eb) by lia. rewrite Z2Nat.id by lia. ring.
Qed.

Lemma int_opp b : Z.abs b < FBASE ^ 8 -> Flt (mant (rounded b 0)) (- f_sign (rounded b 0)) (f_exp (rounded b 0)) = rounded (- b) 0.
Proof.
  intros Hb. destruct (Z.eq_dec b 0) as [->|H0]; [reflexivity|].
  destruct (int_mant b H0 Hb) as (l & Hn & Hl & Hh & Ev & Hk & ->). cbn [mant f_sign f_exp]. rewrite int_of_digits; [|exact Hl|exact Hn|exact Hh|clear -H0; lia].
  rewrite Ev. f_equal. clear. lia.
Qed.
(** The elements for the operands and the result are taken. *)
Lemma int64_operands op s m a b sg : represents s m -> wf64 a -> wf64 b -> exists r ra rb x s',
  let X := rounded (val64 sg a) 0 in
  let Y := rounded (val64 sg b) 0 in
  int64_op junk op a b sg s =
    (status ← op X Y;
     match status with
     | Throw e => Some (Throw e)
     | Ok fres =>
         s ← put_flpt (Z.of_nat r) fres s';
         '(v, _) ← flt_to_f64 fres sg;
         s ← flpt_ret (Z.of_nat r) s;
         s ← flpt_ret (Z.of_nat ra) s;
         s ← flpt_ret (Z.of_nat rb) s;
         Some (Ok (v, s))
     end) /\
  represents s' (<[rb := Y]> (<[ra := X]> (<[r := x]> m))) /\
  m !! r = None /\ m !! ra = None /\ m !! rb = None /\ r <> ra /\ r <> rb /\ ra <> rb.
Proof.
  intros H0 Ha Hb. unfold int64_op, f64_to_flt. rewrite !f64_number_ok by assumption.
  destruct (new_flpt_ok junk s m H0) as (r & s1 & x1 & -> & Hr & H1). cbn [mbind option_bind].
  destruct (new_flpt_ok junk s1 _ H1) as (ra & s2 & x2 & -> & Hra & H2). cbn [mbind option_bind].
  destruct (put_flpt_ok s2 _ ra (rounded (val64 sg a) 0) H2 ltac:(rewrite lookup_insert_eq; by eexists)) as (s3 & -> & H3). cbn [mbind option_bind]. rewrite insert_insert_eq in H3.
  destruct (new_flpt_ok junk s3 _ H3) as (rb & s4 & x4 & -> & Hrb & H4). cbn [mbind option_bind].
  destruct (put_flpt_ok s4 _ rb (rounded (val64 sg b) 0) H4 ltac:(rewrite lookup_insert_eq; by eexists)) as (s5 & -> & H5). cbn [mbind option_bind]. rewrite insert_insert_eq in H5.
  apply lookup_insert_None in Hra as [Hra Hrra]. apply lookup_insert_None in Hrb as [Hrb Hrarb]. apply lookup_insert_None in Hrb as [Hrb Hrrb].
  rewrite (get_flpt_ok s5 _ ra (rounded (val64 sg a) 0) H5) by (by rewrite lookup_insert_ne, lookup_insert_eq). cbn [mbind option_bind].
  rewrite (get_flpt_ok s5 _ rb (rounded (val64 sg b) 0) H5) by (by rewrite lookup_insert_eq). cbn [mbind option_bind].
  exists r, ra, rb, x1, s5. by split_and!.
Qed.

(** They are given back. *)
Lemma int64_op_run op s m a b sg f c ov : represents s m -> wf64 a -> wf64 b ->
  op (rounded (val64 sg a) 0) (rounded (val64 sg b) 0) = Some (Ok f) -> flt_to_f64 f sg = Some (c, ov) ->
  exists s', int64_op junk op a b sg s = Some (Ok (c, s')) /\ represents s' m.
Proof.
  intros H0 Ha Hb Hop Hc. destruct (int64_operands op s m a b sg H0 Ha Hb) as (r & ra & rb & x & s5 & -> & H5 & Hr & Hra & Hrb & N1 & N2 & N3).
  rewrite Hop. cbn [mbind option_bind].
  destruct (put_flpt_ok s5 _ r f H5 ltac:(rewrite !lookup_insert_ne, lookup_insert_eq by congruence; by eexists)) as (s6 & -> & H6). cbn [mbind option_bind].
  rewrite Hc. cbn [mbind option_bind].
  destruct (flpt_ret_ok s6 _ r H6 ltac:(rewrite lookup_insert_eq; by eexists)) as (s7 & -> & H7). cbn [mbind option_bind].
  destruct (flpt_ret_ok s7 _ ra H7 ltac:(rewrite lookup_delete_ne, !lookup_insert_ne, lookup_insert_eq by congruence; by eexists)) as (s8 & -> & H8). cbn [mbind option_bind].
  destruct (flpt_ret_ok s8 _ rb H8 ltac:(rewrite !lookup_delete_ne, !lookup_insert_ne, lookup_insert_eq by congruence; by eexists)) as (s9 & -> & H9). cbn [mbind option_bind].
  exists s9. split; [reflexivity|]. assert (delete rb (delete ra (delete r (<[r:=f]> (<[rb:=rounded (val64 sg b) 0]> (<[ra:=rounded (val64 sg a) 0]> (<[r:=x]> m)))))) = m) as <-; [|exact H9].
  apply map_eq. intros i. destruct (decide (i = rb)) as [->|M1]; [by rewrite lookup_delete_eq|]. rewrite lookup_delete_ne by congruence.
  destruct (decide (i = ra)) as [->|M2]; [by rewrite lookup_delete_eq|]. rewrite lookup_delete_ne by congruence.
  destruct (decide (i = r)) as [->|M3]; [by rewrite lookup_delete_eq|]. by rewrite lookup_delete_ne, !lookup_insert_ne by congruence.
Qed.

Lemma int64_op_ok op s m a b sg v : represents s m -> wf64 a -> wf64 b ->
  op (rounded (val64 sg a) 0) (rounded (val64 sg b) 0) = Some (Ok (rounded v 0)) -> Z.abs v < FBASE ^ 8 ->
  exists c s', int64_op junk op a b sg s = Some (Ok (c, s')) /\ wf64 c /\ uval c = v mod 18446744073709551616 /\ represents s' m.
Proof.
  intros H0 Ha Hb Hop Hv. destruct (flt_to_f64_ok v sg Hv) as (c & Hc & Wc & Ec).
  destruct (int64_op_run op s m a b sg _ c _ H0 Ha Hb Hop Hc) as (s' & E & H). by exists c, s'.
Qed.
End Int64.

Lemma val64_abs sg a : wf64 a -> Z.abs (val64 sg a) < 18446744073709551616.
Proof. intros [H1 H2]. unfold val64. pose proof (u32_unsigned (big a)). destruct sg; lia. Qed.

Lemma int64_mult_ok junk LONG_MAX s m a b sg : 2147483647 <= LONG_MAX -> represents s m -> wf64 a -> wf64 b ->
  exists c s', INT64_mult junk LONG_MAX a b sg s = Some (Ok (c, s')) /\ wf64 c /\ uval c = (uval a * uval b) mod 18446744073709551616 /\ represents s' m.
Proof.
  intros HL Hs Ha Hb. pose proof (val64_abs sg a Ha) as Ba. pose proof (val64_abs sg b Hb) as Bb. rewrite <- !(val64_uval sg), <- Zmult_mod by assumption.
  apply (int64_op_ok junk _ s m a b sg _ Hs Ha Hb); [apply int_mul; auto using val64_bound|].
  rewrite Z.abs_mul. change (FBASE ^ 8) with (18446744073709551616 * 18446744073709551616). clear -Ba Bb. nia.
Qed.

(** A power of two. *)
Lemma multiplier_ok shift : 0 <= shift < 64 ->
  let a := if shift <=? 31 then Flt64 0 (u32 (Z.shiftl 1 shift)) else Flt64 (s32 (Z.shiftl 1 (shift - 32))) 0 in
  wf64 a /\ uval a = 2 ^ shift.
Proof.
  intros H a. unfold a, uval. destruct (Z.leb_spec shift 31) as [Hle|Hgt]; rewrite Z.shiftl_mul_pow2, Z.mul_1_l by lia; cbn [big small].
  - assert (2 ^ shift < 2 ^ 32) as Hp by (apply Z.pow_lt_mono_r; lia). assert (0 < 2 ^ shift) by (apply Z.pow_pos_nonneg; lia). change (2 ^ 32) with 4294967296 in Hp.
    rewrite u32_small by lia. split; [split; cbn; lia|reflexivity].
  - split; [split; cbn [big small]; [apply s32_range|lia]|]. assert (2 ^ (shift - 32) < 2 ^ 32) as Hp by (apply Z.pow_lt_mono_r; lia).
    assert (0 < 2 ^ (shift - 32)) by (apply Z.pow_pos_nonneg; lia). change (2 ^ 32) with 4294967296 in Hp. rewrite s32_u32, u32_small by lia.
    change 4294967296 with (2 ^ 32). rewrite <- Z.pow_add_r by lia. rewrite Z.add_0_r. f_equal. lia.
Qed.

(** C32: the emulated arithmetic on integers of 64 bits, signed and unsigned:
    multiplication, addition, subtraction and left shift never fail, are arithmetic modulo
    2^64, and leave the numbers in use as they were. *)
Theorem INT64_arithmetic junk LONG_MAX s m a b sg : 2147483647 <= LONG_MAX -> represents s m -> wf64 a -> wf64 b ->
  (exists c s', INT64_mult junk LONG_MAX a b sg s = Some (Ok (c, s')) /\ wf64 c /\ uval c = (uval a * uval b) mod 18446744073709551616 /\ represents s' m) /\
  (exists c s', INT64_add junk LONG_MAX a b sg s = Some (Ok (c, s')) /\ wf64 c /\ uval c = (uval a + uval b) mod 18446744073709551616 /\ represents s' m) /\
  (exists c s', INT64_subtract junk LONG_MAX a b sg s = Some (Ok (c, s')) /\ wf64 c /\ uval c = (uval a - uval b) mod 18446744073709551616 /\ represents s' m) /\
  (forall shift, 0 <= shift < 64 ->
    exists c s', INT64_shift_left junk LONG_MAX a shift sg s = Some (Ok (c, s')) /\ wf64 c /\ uval c = Z.shiftl (uval a) shift mod 18446744073709551616 /\ represents s' m).
Proof.
  intros HL Hs Ha Hb. split; [by apply int64_mult_ok|].
  pose proof (val64_abs sg a Ha) as Ba. pose proof (val64_abs sg b Hb) as Bb. pose proof (val64_bound sg a Ha) as Ca. pose proof (val64_bound sg b Hb) as Cb.
  assert (Z.abs (- val64 sg b) < FBASE ^ 8) as Cb' by (by rewrite Z.abs_opp).
  assert (forall v, Z.abs v < 36893488147419103232 -> Z.abs v < FBASE ^ 8 /\ num_digits (Z.abs v) <= 100) as Hsmall.
  { intros v Hv. split; [eapply Z.lt_trans; [exact Hv|by vm_compute]|]. destruct (Z.eq_dec v 0) as [->|H0]; [by vm_compute|].
    eapply Z.le_trans; [apply (num_digits_le _ 5)|]; [clear -H0; lia|eapply Z.lt_trans; [exact Hv|by vm_compute]|by vm_compute|by vm_compute]. }
  destruct (Hsmall (val64 sg a + val64 sg b) ltac:(clear -Ba Bb; lia)) as [S1 S2]. destruct (Hsmall (val64 sg a - val64 sg b) ltac:(clear -Ba Bb; lia)) as [D1 D2].
  split; [|split].
  - rewrite <- !(val64_uval sg), <- Zplus_mod by assumption. apply (int64_op_ok junk _ s m a b sg _ Hs Ha Hb); [|exact S1]. f_equal. by apply int_add.
  - rewrite <- !(val64_uval sg), <- Zminus_mod by assumption. apply (int64_op_ok junk _ s m a b sg _ Hs Ha Hb); [|exact D1].
    f_equal. unfold flt_sub. rewrite int_opp by exact Cb. by apply (int_add LONG_MAX HL (val64 sg a) (- val64 sg b)).
  - intros shift Hsh. destruct (multiplier_ok shift Hsh) as [W E]. rewrite (Z.shiftl_mul_pow2 (uval a)), <- E by apply Hsh. by apply int64_mult_ok.
Qed.

Lemma INT64_arithmetic_witness : exists s, init_flpt (fun _ => flt_zero) = Some (49, 48, s) /\
  exists c s', INT64_mult (fun _ => flt_zero) 2147483647 (Flt64 (-1) 4294967293) (Flt64 0 7) true s = Some (Ok (c, s')) /\
    uval c = 18446744073709551616 - 21.
Proof.
  destruct (init_flpt_ok (fun _ => flt_zero)) as (s & E & H). exists s. split; [exact E|].
  destruct (INT64_arithmetic (fun _ => flt_zero) 2147483647 s _ (Flt64 (-1) 4294967293) (Flt64 0 7) true ltac:(lia) H ltac:(split; cbn; lia) ltac:(split; cbn; lia))
    as [(c & s' & E1 & _ & E2 & _) _].
  exists c, s'. split; [exact E1|]. rewrite E2. vm_compute. reflexivity.
Defined.

(** ** Division *)

(** An integer of 64 bits as a number. *)
Lemma int64_number x : x <> 0 -> Z.abs x < FBASE ^ 4 ->
  0 <= f_exp (rounded x 0) <= 3 /\ f_sign (rounded x 0) = Z.sgn x /\ dval (mant (rounded x 0)) = Z.abs x * FBASE ^ (7 - f_exp (rounded x 0)).
Proof.
  intros Hx0 Bx. assert (Z.abs x < FBASE ^ 8) as B8 by (eapply Z.lt_trans; [exact Bx|by vm_compute]). destruct (int_facts x B8) as (L & He & E).
  assert (f_sign (rounded x 0) = Z.sgn x) as Es by (destruct (int_mant x Hx0 B8) as (l & _ & _ & _ & _ & _ & ->); reflexivity).
  assert (dval (mant (rounded x 0)) = Z.abs x * FBASE ^ (7 - f_exp (rounded x 0))) as Ed by (unfold num in E; rewrite Es in E; clear -E Hx0; nia).
  split; [|by split]. split; [apply He|]. destruct (legal_sign _ L) as [[Z0 _]|[_ [B7 _]]]; [clear -Z0 Es Hx0; lia|].
  destruct (Z.le_gt_cases (f_exp (rounded x 0)) 3) as [H|H]; [exact H|exfalso]. rewrite Ed in B7.
  assert (FBASE ^ (7 - f_exp (rounded x 0)) <= FBASE ^ 3) as H3 by (apply Z.pow_le_mono_r; [reflexivity|clear -H; lia]).
  assert (0 < FBASE ^ (7 - f_exp (rounded x 0))) as H0 by (apply Z.pow_pos_nonneg; [reflexivity|clear -He; lia]).
  change (FBASE ^ 7) with (FBASE ^ 4 * FBASE ^ 3) in B7. clear -B7 Bx H3 H0. nia.
Qed.

(** The integer part of a number that is close to a quotient. *)
Lemma near_quotient M D x y : 0 < D -> 0 < y -> 0 < x < 2 ^ 64 -> 2 ^ 111 * Z.abs (M * y - x * D) < x * D -> ((y | x) -> x / y * D <= M) -> M / D = x / y.
Proof.
  intros HD Hy Hx Hc Hex. pose proof (Z.div_mod x y ltac:(clear -Hy; lia)) as Dm. pose proof (Z.mod_pos_bound x y Hy) as Hm.
  assert (forall d, D <= d -> d <= Z.abs (M * y - x * D) -> False) as Hfar.
  { intros d H1 H2. assert (x * D <= 2 ^ 64 * D) by (apply Z.mul_le_mono_nonneg_r; clear -HD Hx; lia). clear -HD H1 H2 H Hc. lia. }
  destruct (Z.eq_dec (x mod y) 0) as [E0|E0]; [specialize (Hex (proj1 (Z.mod_divide x y ltac:(clear -Hy; lia)) E0))|clear Hex]; set (Q := x / y) in *; clear Hc;
    symmetry; (apply (Z.div_unique _ _ _ (M - Q * D)); [left|clear; lia]); (split; [|destruct (Z.lt_ge_cases M ((Q + 1) * D)) as [H|H]; [clear -H; lia|exfalso]]).
  - clear -Hex. lia.
  - apply (Hfar (M * y - x * D)); [clear -H Dm Hm Hy HD; nia|clear; lia].
  - destruct (Z.le_gt_cases (Q * D) M) as [H|H]; [clear -H; lia|exfalso]. apply (Hfar (x * D - M * y)); [clear -H Dm Hm Hy HD E0; nia|clear; lia].
  - apply (Hfar (M * y - x * D)); [clear -H Dm Hm Hy HD; nia|clear; lia].
Qed.

(** A quotient of integers has the digits of the integer quotient before the
    point. *)
Lemma integer_quotient a b r : a <> 0 -> b <> 0 -> Z.abs a < FBASE ^ 4 -> Z.abs b < FBASE ^ 4 -> div_result (rounded a 0) (rounded b 0) r ->
  f_exp r <= 3 /\ f_sign r = Z.sgn a * Z.sgn b /\ dval (mant r) / FBASE ^ (7 - f_exp r) = Z.abs a / Z.abs b.
Proof.
  intros Ha Hb Ba Bb [Lr Sr Er Hc Hx]. destruct (int64_number a Ha Ba) as (Ea & Sa & Da). destruct (int64_number b Hb Bb) as (Eb & Sb & Db).
  rewrite Sa, Sb in Sr. split; [clear -Er Ea Eb; lia|]. split; [exact Sr|].
  set (ea := f_exp (rounded a 0)) in *. set (eb := f_exp (rounded b 0)) in *. set (M := dval (mant r)) in *. set (er := f_exp r) in *.
  assert (0 < FBASE ^ (7 - er)) as HD by (apply Z.pow_pos_nonneg; [reflexivity|clear -Er Ea Eb; lia]). assert (0 < FBASE ^ (7 - eb)) as HG by (apply Z.pow_pos_nonneg; [reflexivity|clear -Eb; lia]).
  assert (dval (mant (rounded a 0)) * FBASE ^ (7 + (ea - eb - er)) = Z.abs a * FBASE ^ (7 - er) * FBASE ^ (7 - eb)) as EF.
  { rewrite Da, <- !Z.mul_assoc, <- !Z.pow_add_r by (clear -Er Ea Eb; lia). do 2 f_equal. clear. lia. }
  cbv zeta in Hc. rewrite EF, Db in Hc.
  replace (M * (Z.abs b * FBASE ^ (7 - eb)) - Z.abs a * FBASE ^ (7 - er) * FBASE ^ (7 - eb)) with ((M * Z.abs b - Z.abs a * FBASE ^ (7 - er)) * FBASE ^ (7 - eb)) in Hc by ring.
  rewrite Z.abs_mul, (Z.abs_eq (FBASE ^ (7 - eb))), Z.mul_assoc in Hc by (apply Z.lt_le_incl, HG). apply Z.mul_lt_mono_pos_r in Hc; [|exact HG].
  assert (0 < Z.abs b) as Hb0 by (clear -Hb; lia). apply near_quotient; [exact HD|exact Hb0|split; [clear -Ha; lia|exact Ba]|exact Hc|].
  intros Hd. apply (Hx (Z.abs a) (Z.abs b) (7 - ea) (7 - eb)); [exact Da|exact Db|clear -Ea; lia|clear -Eb; lia|exact Hd| |].
  - exists (Z.abs a / Z.abs b * FBASE ^ (6 - er)). rewrite <- Z.mul_assoc, (Z.mul_comm (FBASE ^ _) FBASE), <- Z.pow_succ_r by (clear -Er Ea Eb; lia). do 2 f_equal. clear. lia.
  - rewrite EF, Db. apply Z.mod_divide in Hd; [|clear -Hb0; lia]. pose proof (Z.div_mod (Z.abs a) (Z.abs b) ltac:(clear -Hb0; lia)) as Dm. rewrite Hd, Z.add_0_r in Dm.
    rewrite Dm at 2. apply Z.eq_le_incl. ring.
Qed.

(** The integer part of a number goes to its 64 bits. *)
Lemma flt_to_f64_part r sg : legal r -> f_sign r = 1 \/ f_sign r = -1 -> f_exp r <= 3 ->
  exists c ov, flt_to_f64 r sg = Some (c, ov) /\ wf64 c /\ uval c = (f_sign r * (dval (mant r) / FBASE ^ (7 - f_exp r))) mod 18446744073709551616.
Proof.
  intros L Hs He. pose proof L as [N D _]. pose proof (dval_bound _ D) as B. rewrite N in B. change (FBASE ^ Z.of_nat MANT_SIZE) with (FBASE ^ 8) in B.
  destruct (Z.lt_ge_cases (f_exp r) 0) as [Hneg|Hpos].
  - assert (dval (mant r) / FBASE ^ (7 - f_exp r) = 0) as ->.
    { apply Z.div_small. split; [apply B|]. eapply Z.lt_le_trans; [apply B|]. apply Z.pow_le_mono_r; [reflexivity|lia]. }
    unfold flt_to_f64. apply Z.ltb_lt in Hneg. rewrite Hneg, orb_true_r. cbn [mbind option_bind]. rewrite Z.mul_0_r.
    destruct Hs as [-> | ->]; cbn [Z.eqb Pos.eqb]; eexists _, _; (split; [reflexivity|]); [split; [split; cbn; lia|reflexivity]|].
    apply (negate64_ok (Flt64 0 0)). split; cbn; lia.
  - set (n := Z.to_nat (f_exp r + 1)). assert (length (take n (mant r)) = n) as Nt by (rewrite length_take, N; unfold n, MANT_SIZE; lia).
    assert (flt_to_f64 r sg = flt_to_f64 (Flt (take n (mant r) ++ replicate (MANT_SIZE - length (take n (mant r))) 0) (f_sign r) (Z.of_nat (length (take n (mant r))) - 1)) sg) as ->.
    { rewrite Nt. unfold flt_to_f64. cbn [f_exp f_sign mant]. replace (Z.of_nat n - 1) with (f_exp r) by (unfold n; lia).
      assert (forall k, 0 <= k <= f_exp r -> (take n (mant r) ++ replicate (MANT_SIZE - n) 0) !! Z.to_nat k = mant r !! Z.to_nat k) as Hk.
      { intros k Hk. rewrite lookup_app_l, lookup_take_lt by (rewrite ?Nt; unfold n; lia). reflexivity. }
      rewrite (Hk (f_exp r)) by lia. destruct (Z.ltb_spec 0 (f_exp r)); [rewrite (Hk (f_exp r - 1)) by lia|]; (destruct (Z.ltb_spec 1 (f_exp r)); [rewrite (Hk (f_exp r - 2)) by lia|]);
        (destruct (Z.ltb_spec 2 (f_exp r)); [rewrite (Hk (f_exp r - 3)) by lia|]); reflexivity. }
    rewrite flt_to_f64_magnitude; [|by apply Forall_take|rewrite Nt; unfold n, MANT_SIZE; lia|exact Hs].
    rewrite take_val, N by (auto; rewrite N; unfold n, MANT_SIZE; lia). replace (Z.of_nat (MANT_SIZE - n)) with (7 - f_exp r) by (unfold n, MANT_SIZE; lia).
    set (v := dval (mant r) / FBASE ^ (7 - f_exp r)). assert (0 <= v) as Hv by (apply Z.div_pos; [apply B|apply Z.pow_pos_nonneg; [reflexivity|lia]]).
    destruct (magnitude64_ok v Hv) as [W E]. eexists _, _. split; [reflexivity|]. destruct Hs as [-> | ->]; cbn [Z.eqb Pos.eqb].
    + split; [exact W|]. by rewrite E, Z.mul_1_l.
    + destruct (negate64_ok _ W) as [W' E']. split; [exact W'|]. rewrite E', E. rewrite <- !Z.sub_0_l, Zminus_mod_idemp_r. f_equal.
Qed.

Lemma val64_zero sg a : wf64 a -> val64 sg a = 0 <-> uval a = 0.
Proof.
  intros H. pose proof (val64_uval sg a H) as E. pose proof (val64_abs sg a H) as B. pose proof (uval_range a H) as R. split; intros E0.
  - rewrite E0 in E. by rewrite <- E.
  - rewrite E0 in E. apply Z.mod_divide in E; [|lia]. destruct E as [z Hz]. destruct (Z.eq_dec z 0); [lia|nia].
Qed.

Lemma quot_sign a b : b <> 0 -> Z.sgn a * Z.sgn b * (Z.abs a / Z.abs b) = Z.quot a b.
Proof. intros Hb. rewrite Z.quot_div by exact Hb. ring. Qed.

Lemma int64_exponents x y : Z.abs x < FBASE ^ 4 -> Z.abs y < FBASE ^ 4 ->
  int_ok (f_exp (rounded x 0) - f_exp (rounded y 0)) = true /\ int_ok (f_exp (rounded x 0) - f_exp (rounded y 0) - 2) = true.
Proof.
  intros Bx By. assert (FBASE ^ 4 <= FBASE ^ 8) as H8 by (by vm_compute). destruct (int_facts x ltac:(clear -Bx H8; lia)) as (_ & Ex & _).
  destruct (int_facts y ltac:(clear -By H8; lia)) as (_ & Ey & _). unfold int_ok. rewrite !andb_true_iff, !Z.leb_le, !Z.ltb_lt. clear -Ex Ey. lia.
Qed.

Lemma int64_divide_ok junk spare s m a b sg : spare <> [] -> represents s m -> wf64 a -> wf64 b -> uval b <> 0 ->
  exists c s', INT64_divide junk spare a b sg s = Some (Ok (c, s')) /\ wf64 c /\
    uval c = Z.quot (val64 sg a) (val64 sg b) mod 18446744073709551616 /\ represents s' m.
Proof.
  intros Hsp Hs Wa Wb Hb. assert (val64 sg b <> 0) as Hb0 by (by rewrite val64_zero). pose proof (val64_abs sg a Wa) as Ba. pose proof (val64_abs sg b Wb) as Bb.
  set (x := val64 sg a) in *. set (y := val64 sg b) in *. change 18446744073709551616 with (FBASE ^ 4) in Ba, Bb.
  destruct (int64_exponents x y Ba Bb) as [I1 I2].
  assert (exists f c ov, flt_div spare (rounded x 0) (rounded y 0) = Some (Ok f) /\ flt_to_f64 f sg = Some (c, ov) /\ wf64 c /\ uval c = Z.quot x y mod 18446744073709551616) as (f & c & ov & E1 & E2 & W & E3).
  { destruct (int64_number y Hb0 Bb) as (_ & Sy & _). destruct (Z.eq_dec x 0) as [->|Hx].
    - exists flt_zero, (Flt64 0 0), false. split_and!; [|by destruct sg|split; cbn; lia|by rewrite Z.quot_0_l].
      unfold flt_div. rewrite I1, Sy. assert ((Z.sgn y =? 0) = false) as -> by (apply Z.eqb_neq; clear -Hb0; lia). reflexivity.
    - destruct (int64_number x Hx Ba) as (_ & Sx & _).
      pose proof (flt_div_run spare (rounded x 0) (rounded y 0) (rounded_legal x 0) (rounded_legal y 0) ltac:(rewrite Sx; clear -Hx; lia) ltac:(rewrite Sy; clear -Hb0; lia) I1 I2) as Hr.
      destruct (flt_div spare (rounded x 0) (rounded y 0)) as [[f|]|]; [|done|done]. destruct (integer_quotient x y f Hx Hb0 Ba Bb Hr) as (He & Es & Ev).
      destruct (flt_to_f64_part f sg (dr_legal _ _ _ Hr) ltac:(rewrite Es; clear -Hx Hb0; destruct (Z.lt_trichotomy x 0) as [?|[?|?]], (Z.lt_trichotomy y 0) as [?|[?|?]]; lia) He) as (c & ov & E2 & W & E3).
      exists f, c, ov. split_and!; auto. by rewrite E3, Es, Ev, quot_sign. }
  destruct (int64_op_run junk (flt_div spare) s m a b sg f c ov Hs Wa Wb E1 E2) as (s' & E & H). by exists c, s'.
Qed.


