(* ===== verification/TransReader.v ===== *)
(** * TransReader: the TDF reader of the installers

    Models trans/src/common/reader/basicread.c: a file of TDF is read in
    packets of 256 bytes and words of four, and parts of it are read again
    from memory. [R_memory] is the use of memory outside an array, [R_undefined]
    a result that is left undefined, or a place whose displacement in bits
    overflows an [int]; the other exceptions end the program
    after a message. What is in the buffer after the end of a file is what was
    there before, as it is in the code. *)
From Stdlib Require Import String.
From stdpp Require Import base list list_numbers gmap numbers.
From Stdlib Require Import ZArith Lia.
From S2P Require Import Prelude TransFlpt TransNumbers ExdsString TldCapsule.

Inductive read_error := R_past_end | R_not_capsule | R_later_version | R_earlier_version | R_memory | R_undefined
  | R_illegal_code | R_no_memory | R_too_many_errors.

(** bits per byte, bytes per packet, bits per packet *)
Definition bpby : Z := 8.
Definition cppkt : Z := 256.
Definition bppkt : Z := bpby * cppkt.

Definition MAJOR_VERSION : Z := 4.
Definition MINOR_VERSION : Z := 1.

(** The [n] lowest bits; the array has an element for each [n] up to 32. *)
Definition lsb_mask (n : Z) : Z := Z.ones n.

(** A displacement in bits in the file, or in some characters in memory. *)
Record place := Place { flag : bool; pl_mem : list Z; bits_on : Z }.

(** [crt_ptr] is a displacement in [crt_line], which is the buffer when the
    file is read. *)
Record rd_state := RdState {
  crt_ptr : Z;
  getcode_bitposn : Z;
  crt_bits : Z;
  pkt_index : Z;
  table_flag : bool;
  crt_line : list Z;
  file_pkt : Z;
  fpin : list Z;
  buff : list Z;
  current_place : place;
  bytestream_pickup : place
}.

(** With the numbers of the installer. *)
Record installer := Installer { rd : rd_state; nums : flpts }.

Definition M (A : Type) : Type := stM installer read_error A.

Definition get_rd : M rd_state := fun s => (s, Ok (rd s)).
Definition set_rd (r : rd_state) : M unit := fun s => (Installer r (nums s), Ok tt).
Definition stops {A} (e : read_error) : M A := st_throw e.

(** An operation on the numbers. *)
Definition on_nums {A} (f : flpts -> option (A * flpts)) : M A := fun s =>
  match f (nums s) with Some (a, n) => (Installer (rd s) n, Ok a) | None => (s, Throw R_memory) end.

Definition line (r : rd_state) : list Z := if table_flag r then crt_line r else buff r.

Definition with_bitposn (r : rd_state) (p : Z) : rd_state :=
  RdState (crt_ptr r) p (crt_bits r) (pkt_index r) (table_flag r) (crt_line r) (file_pkt r) (fpin r) (buff r) (current_place r) (bytestream_pickup r).
Definition with_ptr (r : rd_state) (p : Z) : rd_state :=
  RdState p (getcode_bitposn r) (crt_bits r) (pkt_index r) (table_flag r) (crt_line r) (file_pkt r) (fpin r) (buff r) (current_place r) (bytestream_pickup r).
Definition with_pickup (r : rd_state) (p : place) : rd_state :=
  RdState (crt_ptr r) (getcode_bitposn r) (crt_bits r) (pkt_index r) (table_flag r) (crt_line r) (file_pkt r) (fpin r) (buff r) (current_place r) p.

(** ** Bits *)

Definition next_packet (r : rd_state) : rd_state :=
  let data := take (Z.to_nat cppkt) (fpin r) in
  RdState (crt_ptr r) (getcode_bitposn r) (crt_bits r) (pkt_index r + 1) (table_flag r) (crt_line r) (file_pkt r + 1)
    (drop (Z.to_nat cppkt) (fpin r)) (data ++ drop (length data) (buff r)) (current_place r) (bytestream_pickup r).

Definition read_line (complain : bool) : M unit :=
  r ← get_rd;
  if bool_decide (fpin r = []) && complain then stops R_past_end else set_rd (next_packet r).

(** At the end of the buffer the next packet is read. In memory [crt_ptr] is
    never [end_ptr], which points to the buffer. *)
Definition refill : M unit :=
  r ← get_rd;
  if negb (table_flag r) && (crt_ptr r =? cppkt) then
    _ ← read_line true;
    r ← get_rd;
    set_rd (with_ptr r 0)
  else mret tt.

(** The four bytes at [p], the first one being the highest. *)
Definition word_at (l : list Z) (p : Z) : option Z :=
  if p <? 0 then None
  else
    let n := Z.to_nat p in
    a ← l !! n; b ← l !! (n + 1)%nat; c ← l !! (n + 2)%nat; d ← l !! (n + 3)%nat;
    Some (Z.lor (Z.shiftl a 24) (Z.lor (Z.shiftl b 16) (Z.lor (Z.shiftl c 8) d))).

Definition load_word : M unit :=
  r ← get_rd;
  match word_at (line r) (crt_ptr r) with
  | None => stops R_memory
  | Some w =>
      set_rd (RdState (crt_ptr r + 4) (getcode_bitposn r) w (pkt_index r) (table_flag r) (crt_line r) (file_pkt r) (fpin r) (buff r)
        (current_place r) (bytestream_pickup r))
  end.

Definition getcode (np : Z) : M Z :=
  r ← get_rd;
  let p := getcode_bitposn r - np in
  if (np <? 0) || (32 <? np) then stops R_memory
  else if 0 <=? p then
    _ ← set_rd (with_bitposn r p);
    mret (s32 (Z.land (Z.shiftr (crt_bits r) p) (lsb_mask np)))
  else
    let p := getcode_bitposn r in
    let n := np - p in
    let q := s32 (Z.shiftl (Z.land (crt_bits r) (lsb_mask p)) n) in
    let p := 32 - n in
    _ ← refill;
    _ ← load_word;
    r ← get_rd;
    _ ← set_rd (with_bitposn r p);
    mret (q + s32 (Z.land (Z.shiftr (crt_bits r) p) (lsb_mask n))).

(** The bits that can still be read, at most: the fuel of the loops below. *)
Definition bits_left (r : rd_state) : nat :=
  Z.to_nat (getcode_bitposn r + 8 * (Z.of_nat (length (line r)) - crt_ptr r) +
    (if table_flag r then 0 else 8 * cppkt * Z.of_nat (length (fpin r)))).

Fixpoint big_code_loop (fuel : nat) (n res : Z) : M Z :=
  match fuel with
  | O => stops R_undefined
  | S fuel =>
      t ← getcode n;
      if t =? 0 then big_code_loop fuel n (s32 (res + lsb_mask n)) else mret (s32 (res + t))
  end.

Definition get_big_code (n : Z) : M Z := r ← get_rd; big_code_loop (S (bits_left r)) n 0.

(** ** Places *)

(** An [int] that is computed: an overflow is undefined. *)
Definition int_value (v : Z) : M Z := if int_ok v then mret v else stops R_undefined.

Definition keep_place_of (r : rd_state) : place :=
  let bits_on := crt_ptr r * 8 - getcode_bitposn r in
  if table_flag r then Place true (crt_line r) bits_on else Place false [] (bits_on + pkt_index r * bppkt).

Definition keep_place : M place :=
  r ← get_rd;
  _ ← int_value (crt_ptr r * 8);
  _ ← int_value (bits_on (keep_place_of r));
  mret (keep_place_of r).

Fixpoint read_lines (n : nat) : M unit :=
  match n with
  | O => mret tt
  | S n => _ ← read_line false; read_lines n
  end.

Definition set_place (pl : place) : M unit :=
  r ← get_rd;
  let posn := 32 - bits_on pl mod 32 in
  let posn' := if posn =? 32 then 0 else posn in
  _ ← (if negb (flag pl) then
         let new_pi := bits_on pl / bppkt in
         _ ← set_rd (RdState (bits_on pl / 32 * 4 - new_pi * cppkt) posn' (crt_bits r) (file_pkt r) false [] (file_pkt r) (fpin r) (buff r)
               (current_place r) (bytestream_pickup r));
         read_lines (Z.to_nat (new_pi - file_pkt r))
       else
         set_rd (RdState (bits_on pl / 32 * 4) posn' (crt_bits r) (pkt_index r) true (pl_mem pl) (file_pkt r) (fpin r) (buff r)
           pl (bytestream_pickup r)));
  if 0 <? posn' then load_word else mret tt.

Definition add_place (pl : place) (n : Z) : M place :=
  bits_on ← int_value (bits_on pl + n);
  mret (Place (flag pl) (pl_mem pl) bits_on).

Fixpoint read_chars (n : nat) : M (list Z) :=
  match n with
  | O => mret []
  | S n =>
      _ ← refill;
      r ← get_rd;
      match (if crt_ptr r <? 0 then None else buff r !! Z.to_nat (crt_ptr r)) with
      | None => stops R_memory
      | Some c =>
          _ ← set_rd (with_ptr r (crt_ptr r + 1));
          l ← read_chars n;
          mret (c :: l)
      end
  end.

(** The characters are freed with the capsule. *)
Definition new_place (bn : Z) : M place :=
  r ← get_rd;
  if negb (table_flag r) then
    let bits_on := if getcode_bitposn r =? 0 then 0 else 32 - getcode_bitposn r in
    bits ← int_value (bits_on + bn + 31);
    let no_chars := bits / 32 * 4 in
    _ ← set_rd (if 0 <? getcode_bitposn r then with_ptr r (crt_ptr r - 4) else r);
    mem ← read_chars (Z.to_nat no_chars);
    mret (Place true mem bits_on)
  else
    bits ← int_value (crt_ptr r * 8);
    bits_on ← int_value (bits - getcode_bitposn r);
    mret (Place true (pl_mem (current_place r)) bits_on).

(** ** Integers *)

Fixpoint small_loop (fuel : nat) (total : Z) : M Z :=
  match fuel with
  | O => stops R_undefined
  | S fuel =>
      digit ← getcode 4;
      if digit <? 8 then small_loop fuel (s32 (8 * total + digit)) else mret (s32 (8 * total + (digit - 8)))
  end.

Definition small_dtdfint : M Z := r ← get_rd; small_loop (S (bits_left r)) 0.

Definition to_boundary : M unit :=
  r ← get_rd; set_rd (with_bitposn r (getcode_bitposn r - getcode_bitposn r mod 8)).

Definition d_bitstream : M place :=
  length ← small_dtdfint;
  here ← keep_place;
  crt_bitstream ← new_place length;
  pl ← add_place here length;
  _ ← set_place pl;
  mret crt_bitstream.

Definition d_bytestream : M place := r ← get_rd; mret (bytestream_pickup r).

Definition ignore_bytestream : M unit :=
  length ← small_dtdfint;
  _ ← to_boundary;
  here ← keep_place;
  bits ← int_value (length * 8);
  pl ← add_place here bits;
  set_place pl.

Definition start_bytestream : M unit :=
  length ← small_dtdfint;
  _ ← to_boundary;
  here ← keep_place;
  bits ← int_value (length * 8);
  pl ← add_place here bits;
  r ← get_rd;
  set_rd (with_pickup r pl).

Definition end_bytestream : M unit := r ← get_rd; set_place (bytestream_pickup r).

(** [size], [number] and the components, without the zero after them. *)
Record tdfstring := TdfString { size : Z; number : Z; ints : list Z }.

Fixpoint get_codes {S E A} (n : nat) (get : stM S E A) : stM S E (list A) :=
  match n with
  | O => mret []
  | S n => c ← get; l ← get_codes n get; mret (c :: l)
  end.

(** [n + 1] components are allocated, and the last one is written. *)
Definition components (n : Z) (get : M Z) : M (list Z) :=
  if n <? 0 then stops R_memory else get_codes (Z.to_nat n) get.

Definition tdfbool : Type := bool.

Definition d_tdfbool : M tdfbool := b ← getcode 1; mret (negb (b =? 0)).

(** [natint] and [natbig] are the same member of a union. *)
Inductive tdfint := small_nat (n : Z) | big_nat (f : Z).

Definition natint (n : tdfint) : Z := match n with small_nat n => n | big_nat f => f end.

Section Reader.
(** What the memory that is added to the array of numbers holds. *)
Variable junk : nat -> flt.

Definition d_tdfstring : M tdfstring :=
  bits ← small_dtdfint;
  n ← small_dtdfint;
  if bits <=? 8 then l ← components n (c ← getcode bits; mret (u8 c)); mret (TdfString 8 n l)
  else if bits <=? 16 then l ← components n (c ← getcode bits; mret (swrap 16 c)); mret (TdfString 16 n l)
  else if bits <=? 32 then l ← components n (getcode bits); mret (TdfString 32 n l)
  else if bits <=? 64 then
    l ← components n (big ← getcode (bits - 32); small ← getcode 32; on_nums (f64_to_flt junk (Flt64 big (u32 small)) false));
    mret (TdfString 64 n l)
  else stops R_undefined.

Definition d_tdfident : M tdfstring :=
  bits ← small_dtdfint;
  n ← small_dtdfint;
  if n <? 0 then stops R_memory
  else
    _ ← to_boundary;
    l ← get_codes (Z.to_nat n) (c ← getcode bits; mret (if bits <=? 8 then u8 c else if bits <=? 16 then swrap 16 c else c));
    _ ← to_boundary;
    mret (TdfString bits n l).

(** A digit of a number that is too large for an [unsigned int]. *)
Definition newdig (f digit : Z) : M unit :=
  on_nums (fun s => x ← get_flpt f s; s ← put_flpt f (flpt_newdig digit x 8) s; Some (tt, s)).

(** One more digit of the total, or of the number [big] that it has become. *)
Definition tdfint_digit (total : Z) (big : option Z) (digit : Z) : M (Z * option Z) :=
  match big with
  | Some f => _ ← newdig f digit; mret (total, Some f)
  | None =>
      if 536870911 <? total then
        f ← on_nums (floatrep_unsigned junk total);
        _ ← newdig f digit;
        mret (total, Some f)
      else mret (u32 (Z.shiftl total 3 + digit), None)
  end.

Fixpoint tdfint_loop (fuel : nat) (total : Z) (big : option Z) : M tdfint :=
  match fuel with
  | O => stops R_undefined
  | S fuel =>
      digit ← getcode 4;
      let goon := digit <? 8 in
      '(total, big) ← tdfint_digit total big (if goon then digit else digit - 8);
      if goon then tdfint_loop fuel total big
      else mret (match big with None => small_nat (s32 total) | Some f => big_nat f end)
  end.

Definition d_tdfint : M tdfint := r ← get_rd; tdfint_loop (S (bits_left r)) 0 None.

Fixpoint check_magic (l : list Z) : M unit :=
  match l with
  | [] => mret tt
  | p :: l => c ← getcode 8; if c =? p then check_magic l else stops R_not_capsule
  end.

Definition check_magic_no : M unit :=
  _ ← check_magic (chars MAGIC_NUMBER);
  maj ← d_tdfint;
  if MAJOR_VERSION <? natint maj then stops R_later_version
  else if natint maj <? MAJOR_VERSION then stops R_earlier_version
  else
    min ← d_tdfint;
    to_boundary.

(** [f]: the bytes of the file. *)
Definition initreader (f : list Z) : M unit :=
  r ← get_rd;
  _ ← set_rd (RdState (crt_ptr r) 0 (crt_bits r) (-1) false [] (-1) f (buff r) (current_place r) (bytestream_pickup r));
  _ ← read_line true;
  r ← get_rd;
  _ ← set_rd (with_ptr r 0);
  check_magic_no.
End Reader.
