(* ===== verification/TransReaderSpec.v ===== *)
(** * TransReaderSpec: what the TDF reader of the installers reads

    [ahead r] are the bits that the reader has in its word, its line and its
    file, in this order. [upcoming r bs] says that the next ones are [bs]; what
    follows the end of a file may be anything. The operations of TransReader
    consume the formats of TldIOSpec. *)
From stdpp Require Import base list list_numbers gmap numbers.
From Stdlib Require Import ZArith Lia.
From S2P Require Import Prelude Codec TldIOSpec TransFlpt TransFlptSpec TransNumbers TransNumbersSpec TransNumbersArray TransInt64 TransReader.

Record ok_reader (r : rd_state) : Prop := {
  or_posn : 0 <= getcode_bitposn r < 32;
  or_ptr : exists c : nat, crt_ptr r = Z.of_nat (4 * c) /\ (4 * c <= length (line r))%nat;
  or_line : exists n : nat, length (line r) = (4 * n)%nat;
  or_bytes : Forall is_byte (line r) /\ Forall is_byte (fpin r);
  or_buff : length (buff r) = 256%nat /\ Forall is_byte (buff r)
}.

(** The bits after those of the word. *)
Definition beyond (r : rd_state) : list bool :=
  bytes_bits (drop (Z.to_nat (crt_ptr r)) (line r)) ++ (if table_flag r then [] else bytes_bits (fpin r)).

Definition ahead (r : rd_state) : list bool := bits_of_Z (Z.to_nat (getcode_bitposn r)) (crt_bits r) ++ beyond r.

Definition upcoming (r : rd_state) (bs : list bool) : Prop := ok_reader r /\ bs `prefix_of` ahead r.

(** ** Words *)

Lemma word_bits a b c d : is_byte a -> is_byte b -> is_byte c -> is_byte d ->
  let w := Z.lor (Z.shiftl a 24) (Z.lor (Z.shiftl b 16) (Z.lor (Z.shiftl c 8) d)) in
  0 <= w < 4294967296 /\ bits_of_Z 32 w = bytes_bits [a; b; c; d].
Proof.
  intros Ha Hb Hc Hd w. unfold is_byte in *. pose proof (lor_shiftl 8 c d ltac:(lia) ltac:(lia)) as E1. change (2 ^ 8) with 256 in E1.
  pose proof (lor_shiftl 16 b (c * 256 + d) ltac:(lia) ltac:(lia)) as E2. change (2 ^ 16) with 65536 in E2.
  pose proof (lor_shiftl 24 a (b * 65536 + (c * 256 + d)) ltac:(lia) ltac:(lia)) as E3. change (2 ^ 24) with 16777216 in E3.
  split; [unfold w; rewrite E1, E2, E3; lia|]. unfold w.
  pose proof (bits_of_Z_lor 8 24 a (Z.lor (Z.shiftl b 16) (Z.lor (Z.shiftl c 8) d)) ltac:(rewrite E1, E2; change (2 ^ Z.of_nat 24) with 16777216; lia)) as B1.
  pose proof (bits_of_Z_lor 8 16 b (Z.lor (Z.shiftl c 8) d) ltac:(rewrite E1; change (2 ^ Z.of_nat 16) with 65536; lia)) as B2.
  pose proof (bits_of_Z_lor 8 8 c d ltac:(change (2 ^ Z.of_nat 8) with 256; lia)) as B3.
  cbn [bytes_bits flat_map]. rewrite app_nil_r. etransitivity; [exact B1|]. f_equal. etransitivity; [exact B2|]. f_equal. exact B3.
Qed.

(** A field of a word. *)
Lemma word_field w p n : (p + n <= 32)%nat ->
  Z.land (Z.shiftr w (Z.of_nat p)) (lsb_mask (Z.of_nat n)) = Z_of_bits (take n (drop (32 - p - n) (bits_of_Z 32 w))).
Proof.
  intros H. replace (bits_of_Z 32 w) with (bits_of_Z ((32 - p - n) + (n + p)) w) by (f_equal; lia). rewrite bits_of_Z_add.
  rewrite drop_app_ge by (rewrite length_bits_of_Z; lia). rewrite length_bits_of_Z, Nat.sub_diag, drop_0, bits_of_Z_add.
  rewrite take_app_le by (rewrite length_bits_of_Z; lia). rewrite take_ge by (rewrite length_bits_of_Z; lia).
  rewrite Z_of_bits_of_Z. unfold lsb_mask. by rewrite Z.land_ones by lia.
Qed.

(** The lowest bits of a word, by another route. *)
Lemma low_field w p n : (n <= p)%nat -> Z.land (Z.shiftr w (Z.of_nat (p - n))) (lsb_mask (Z.of_nat n)) = Z_of_bits (take n (bits_of_Z p w)).
Proof.
  intros H. replace p with (n + (p - n))%nat at 2 by lia. rewrite bits_of_Z_add. rewrite take_app_le by (rewrite length_bits_of_Z; lia). rewrite take_ge by (rewrite length_bits_of_Z; lia).
  rewrite Z_of_bits_of_Z. unfold lsb_mask. by rewrite Z.land_ones by lia.
Qed.

Lemma drop_low w p n : (n <= p)%nat -> drop n (bits_of_Z p w) = bits_of_Z (p - n) w.
Proof. intros H. replace p with (n + (p - n))%nat at 1 by lia. rewrite bits_of_Z_add. rewrite drop_app_ge by (rewrite length_bits_of_Z; lia). by rewrite length_bits_of_Z, Nat.sub_diag. Qed.

Lemma s32_bits l : (length l < 32)%nat -> s32 (Z_of_bits l) = Z_of_bits l.
Proof.
  intros H. apply s32_small. pose proof (Z_of_bits_bound l) as Hb. assert (2 ^ Z.of_nat (length l) <= 2 ^ 31) as Hp by (apply Z.pow_le_mono_r; lia). change (2 ^ 31) with 2147483648 in Hp. lia.
Qed.

(** ** Positions *)

(** The displacement in bits, of [keep_place]. *)
Definition position (r : rd_state) : Z :=
  crt_ptr r * 8 - getcode_bitposn r + (if table_flag r then 0 else pkt_index r * bppkt).

(** The packet of [F] that is in the buffer, and what follows it. *)
Definition holds (F : list Z) (r : rd_state) : Prop :=
  exists k : nat, file_pkt r = Z.of_nat k /\ pkt_index r = Z.of_nat k /\ fpin r = drop (256 * S k) F /\ take 256 (drop (256 * k) F) `prefix_of` buff r.

(** What is in the file and its buffer. *)
Definition same_file (r r' : rd_state) : Prop := file_pkt r' = file_pkt r /\ fpin r' = fpin r /\ buff r' = buff r.

(** The reader has gone [n] bits on. *)
Record advanced (n : nat) (r r' : rd_state) : Prop := {
  mv_table : table_flag r' = table_flag r;
  mv_line : crt_line r' = crt_line r;
  mv_place : current_place r' = current_place r;
  mv_pickup : bytestream_pickup r' = bytestream_pickup r;
  mv_position : position r' = position r + Z.of_nat n;
  mv_holds F : holds F r -> holds F r';
  mv_file : table_flag r = true -> same_file r r'
}.

(** The word is one of the line. *)
Definition word_in (r : rd_state) : Prop := getcode_bitposn r <= 8 * crt_ptr r.

Record moved (n : nat) (r r' : rd_state) : Prop := {
  mv_advanced : advanced n r r';
  mv_word : word_in r -> word_in r'
}.

Lemma moved_trans n1 n2 r1 r2 r3 : moved n1 r1 r2 -> moved n2 r2 r3 -> moved (n1 + n2) r1 r3.
Proof. intros [[A1 A2 A3 A4 A5 A6 A8] A7] [[B1 B2 B3 B4 B5 B6 B8] B7]. split; [split; [congruence..|lia|auto|]|auto].
  intros Ht. destruct (A8 Ht) as (C1 & C2 & C3). destruct (B8 ltac:(congruence)) as (D1 & D2 & D3). split_and!; congruence.
Qed.

Lemma moved_refl r : moved 0 r r.
Proof. split; [split; unfold same_file; auto; lia|auto]. Qed.

(** ** Reading *)

Lemma bytes_bits_prefix l l' : l `prefix_of` l' -> bytes_bits l `prefix_of` bytes_bits l'.
Proof. intros [k ->]. rewrite bytes_bits_app. by eexists. Qed.

Lemma length_next_packet r : ok_reader r -> length (buff (next_packet r)) = 256%nat.
Proof. intros H. cbn [buff next_packet]. rewrite length_app, length_drop, length_take, (proj1 (or_buff _ H)). change (Z.to_nat cppkt) with 256%nat. lia. Qed.

Lemma next_packet_holds F r : holds F r -> holds F (next_packet r).
Proof.
  intros (k & H1 & H2 & H3 & H4). exists (S k). cbn [next_packet file_pkt pkt_index fpin buff]. rewrite H1, H2, H3. change (Z.to_nat cppkt) with 256%nat.
  split_and!; [lia|lia|rewrite drop_drop; f_equal; lia|by eexists].
Qed.

Lemma beyond_next_packet r : ok_reader r -> table_flag r = false ->
  bytes_bits (fpin r) `prefix_of` bytes_bits (buff (next_packet r)) ++ bytes_bits (fpin (next_packet r)).
Proof.
  intros H Ht. cbn [next_packet buff fpin]. rewrite <- bytes_bits_app. apply bytes_bits_prefix. change (Z.to_nat cppkt) with 256%nat.
  rewrite <- (take_drop 256 (fpin r)) at 1. destruct (decide (length (fpin r) <= 256)%nat) as [Hle|Hgt].
  - rewrite (drop_ge (fpin r)), !app_nil_r by lia. by eexists.
  - rewrite (drop_ge (buff r)), app_nil_r; [done|]. rewrite length_take, (proj1 (or_buff _ H)). lia.
Qed.

Lemma refill_ok s bs : ok_reader (rd s) -> bs `prefix_of` beyond (rd s) -> bs <> [] ->
  exists r', refill s = (Installer r' (nums s), Ok tt) /\ ok_reader r' /\ bs `prefix_of` beyond r' /\
    getcode_bitposn r' = getcode_bitposn (rd s) /\ crt_bits r' = crt_bits (rd s) /\
    crt_ptr r' + 4 <= Z.of_nat (length (line r')) /\ advanced 0 (rd s) r' /\ (bits_left r' <= bits_left (rd s))%nat.
Proof.
  intros H Hbs Hne. destruct s as [r n]. cbn [rd nums] in *. unfold refill, mbind, stM_bind, get_rd. cbn [rd nums]. pose proof H as [Hposn (c & Hc & Hle) (k & Hk) [Hb1 Hb2] [Hbl Hbb]].
  destruct (negb (table_flag r) && (crt_ptr r =? cppkt)) eqn:E.
  - apply andb_true_iff in E as [Ht Hp]. apply negb_true_iff in Ht. apply Z.eqb_eq in Hp. unfold read_line, mbind, stM_bind, get_rd. cbn [rd nums].
    assert (bs `prefix_of` bytes_bits (fpin r)) as Hbs'.
    { unfold beyond in Hbs. rewrite Hp, Ht in Hbs. unfold line in Hbs. rewrite Ht in Hbs. rewrite drop_ge in Hbs by (rewrite Hbl; unfold cppkt; lia). exact Hbs. }
    assert (fpin r <> []) as Hf by (intros Hf; rewrite Hf in Hbs'; apply prefix_nil_inv in Hbs'; done).
    rewrite bool_decide_false by exact Hf. cbn [andb]. unfold set_rd. cbn [rd nums]. eexists. split; [reflexivity|].
    pose proof (length_next_packet r H) as Hl. assert (line (with_ptr (next_packet r) 0) = buff (next_packet r)) as El by (unfold line; cbn [with_ptr table_flag next_packet]; by rewrite Ht).
    assert (ok_reader (with_ptr (next_packet r) 0)) as Hok'.
    { assert (Forall is_byte (buff (next_packet r))) as Hby by (cbn [next_packet buff]; apply Forall_app; split; [by apply Forall_take|by apply Forall_drop]).
      split; [exact Hposn|exists 0%nat; split; [done|lia]|exists 64%nat; by rewrite El|rewrite El; split; [exact Hby|by apply Forall_drop]|by split]. }
    split; [exact Hok'|]. split.
    { etransitivity; [exact Hbs'|]. unfold beyond. rewrite El. cbn [with_ptr crt_ptr table_flag]. change (table_flag (next_packet r)) with (table_flag r). rewrite Ht. change (Z.to_nat 0) with 0%nat. rewrite drop_0. by apply beyond_next_packet. }
    split; [done|]. split; [done|]. split; [rewrite El, Hl; cbn [with_ptr crt_ptr]; lia|]. split.
    { split; try done; [|intros F HF; apply next_packet_holds in HF; exact HF|intros Ht'; congruence]. unfold position. cbn [with_ptr crt_ptr getcode_bitposn table_flag pkt_index next_packet]. rewrite Ht, Hp. unfold bppkt, bpby, cppkt. lia. }
    unfold bits_left. rewrite El, Hl. cbn [with_ptr crt_ptr getcode_bitposn table_flag fpin]. change (table_flag (next_packet r)) with (table_flag r). change (fpin (next_packet r)) with (drop (Z.to_nat cppkt) (fpin r)).
    change (getcode_bitposn (next_packet r)) with (getcode_bitposn r). unfold line. rewrite Ht, Hp, Hbl, length_drop. unfold cppkt. destruct (fpin r); [done|]. cbn [length]. lia.
  - exists r. split; [reflexivity|]. pose proof (mv_advanced _ _ _ (moved_refl r)). split_and!; auto.
    assert (crt_ptr r < Z.of_nat (length (line r))) as Hlt; [|rewrite Hk in *; lia].
    destruct (Z.lt_ge_cases (crt_ptr r) (Z.of_nat (length (line r)))) as [|Hge]; [done|]. exfalso. apply andb_false_iff in E.
    unfold beyond in Hbs. rewrite drop_ge in Hbs by lia. destruct (table_flag r) eqn:Ht; cbn [negb] in E; [by apply prefix_nil_inv in Hbs|].
    destruct E as [E|E]; [discriminate|]. apply Z.eqb_neq in E. unfold line in Hge, Hle. rewrite Ht, Hbl in *. unfold cppkt in E. lia.
Qed.

Lemma load_word_ok s : ok_reader (rd s) -> crt_ptr (rd s) + 4 <= Z.of_nat (length (line (rd s))) ->
  exists w, let r := rd s in
    let r' := RdState (crt_ptr r + 4) (getcode_bitposn r) w (pkt_index r) (table_flag r) (crt_line r) (file_pkt r) (fpin r) (buff r) (current_place r) (bytestream_pickup r) in
    load_word s = (Installer r' (nums s), Ok tt) /\ 0 <= w < 4294967296 /\ bits_of_Z 32 w ++ beyond r' = beyond r.
Proof.
  intros H Hle. destruct s as [r n]. cbn [rd nums] in *. unfold load_word, mbind at 1, stM_bind, get_rd. cbn [rd nums]. destruct (or_ptr _ H) as (c & Hc & _).
  unfold word_at. rewrite (proj2 (Z.ltb_ge _ _)) by lia. set (p := Z.to_nat (crt_ptr r)).
  assert (exists a b d e l, drop p (line r) = a :: b :: d :: e :: l) as (a & b & d & e & l & E).
  { assert (4 <= length (drop p (line r)))%nat as Hl by (rewrite length_drop; unfold p; lia). destruct (drop p (line r)) as [|a [|b [|d [|e l]]]]; cbn in Hl; try lia. eauto 6. }
  pose proof (Forall_drop _ p _ (proj1 (or_bytes _ H))) as Hby. rewrite E in Hby.
  assert (forall i, line r !! (p + i)%nat = (a :: b :: d :: e :: l) !! i) as Hl by (intros i; by rewrite <- E, lookup_drop).
  pose proof (Hl 0%nat) as L0. rewrite Nat.add_0_r in L0. rewrite L0, !Hl. cbn [lookup list_lookup mbind option_bind].
  eexists. split; [reflexivity|]. inversion Hby as [|? ? B1 Hby1]; subst. inversion Hby1 as [|? ? B2 Hby2]; subst. inversion Hby2 as [|? ? B3 Hby3]; subst. inversion Hby3 as [|? ? B4 _]; subst.
  destruct (word_bits a b d e B1 B2 B3 B4) as [Hw Ew]. split; [exact Hw|]. rewrite Ew. unfold beyond. fold p. rewrite E.
  match goal with |- _ ++ bytes_bits (drop _ (line ?x)) ++ _ = _ => change (line x) with (line r); change (table_flag x) with (table_flag r); change (fpin x) with (fpin r) end.
  cbn [crt_ptr]. replace (Z.to_nat (crt_ptr r + 4)) with (p + 4)%nat by (unfold p; lia). rewrite <- drop_drop, E. cbn [drop].
  by rewrite (bytes_bits_app [a; b; d; e] l : bytes_bits (a :: b :: d :: e :: l) = _), <- app_assoc.
Qed.

Lemma s32_unsigned v : 0 <= v < 4294967296 -> s32 v = if v <? 2147483648 then v else v - 4294967296.
Proof.
  intros H. destruct (Z.ltb_spec v 2147483648); [apply s32_small; lia|]. unfold swrap. change (2 ^ (32 - 1)) with 2147483648. change (2 ^ 32) with 4294967296.
  rewrite <- (Z.mod_add _ (-1)) by lia. rewrite Z.mod_small; lia.
Qed.

Lemma s32_split a m b : 0 <= a -> (m <= 31)%nat -> 0 <= b < 2 ^ Z.of_nat m -> a * 2 ^ Z.of_nat m + b < 4294967296 ->
  s32 (a * 2 ^ Z.of_nat m) + s32 b = s32 (a * 2 ^ Z.of_nat m + b).
Proof.
  intros Ha Hm Hb Hv. assert (2147483648 = 2 ^ Z.of_nat (31 - m) * 2 ^ Z.of_nat m) as E by (rewrite <- Z.pow_add_r by lia; replace (Z.of_nat (31 - m) + Z.of_nat m) with 31 by lia; reflexivity).
  set (u := 2 ^ Z.of_nat m) in *. set (h := 2 ^ Z.of_nat (31 - m)) in *. assert (0 < u) by (apply Z.pow_pos_nonneg; lia). assert (0 < h) by (apply Z.pow_pos_nonneg; lia). clearbody u h.
  rewrite (s32_small b) by nia. rewrite !s32_unsigned by nia. destruct (Z.ltb_spec (a * u) 2147483648) as [H1|H1], (Z.ltb_spec (a * u + b) 2147483648) as [H2|H2]; try lia; exfalso.
  assert (a < h) by nia. nia.
Qed.

Lemma take_prefix {A} (l l' : list A) n : l `prefix_of` l' -> (n <= length l)%nat -> take n l = take n l'.
Proof. intros [k ->] Hn. by rewrite take_app_le. Qed.

Lemma drop_prefix {A} (l l' : list A) n : l `prefix_of` l' -> (n <= length l)%nat -> drop n l `prefix_of` drop n l'.
Proof. intros [k ->] Hn. rewrite drop_app_le by exact Hn. by eexists. Qed.

(** A field of at most 32 bits, in the word or across two words. *)
Lemma getcode_ok s bs n : upcoming (rd s) bs -> (n <= length bs)%nat -> (n <= 32)%nat ->
  exists r', getcode (Z.of_nat n) s = (Installer r' (nums s), Ok (s32 (Z_of_bits (take n bs)))) /\
    upcoming r' (drop n bs) /\ moved n (rd s) r' /\ (bits_left r' + n <= bits_left (rd s))%nat.
Proof.
  intros [H Hbs] Hn H32. unfold getcode, mbind, stM_bind, get_rd, set_rd. rewrite (proj2 (Z.ltb_ge _ _)), (proj2 (Z.ltb_ge _ _)) by lia. cbn [orb].
  pose proof (or_posn _ H) as Hposn. set (P := Z.to_nat (getcode_bitposn (rd s))). assert (getcode_bitposn (rd s) = Z.of_nat P) as EP by (unfold P; lia).
  assert (ahead (rd s) = bits_of_Z P (crt_bits (rd s)) ++ beyond (rd s)) as Eah by reflexivity. rewrite Eah in Hbs. rewrite EP.
  destruct (Z.leb_spec 0 (Z.of_nat P - Z.of_nat n)) as [Hle|Hgt].
  - eexists. split; [|split; [split|split]].
    + unfold mret, stM_ret. do 2 f_equal. replace (Z.of_nat P - Z.of_nat n) with (Z.of_nat (P - n)) by lia. cbn [rd]. rewrite low_field by lia. do 2 f_equal.
      rewrite (take_prefix _ _ n Hbs Hn), take_app_le; [reflexivity|]. rewrite length_bits_of_Z. lia.
    + destruct H as [? H2 H3 H4 H5]. split; [cbn [getcode_bitposn with_bitposn]; lia|exact H2|exact H3|exact H4|exact H5].
    + unfold ahead. cbn [with_bitposn getcode_bitposn crt_bits]. change (beyond (with_bitposn _ _)) with (beyond (rd s)). replace (Z.to_nat (Z.of_nat P - Z.of_nat n)) with (P - n)%nat by lia.
      rewrite <- drop_low by lia. rewrite <- drop_app_le by (rewrite length_bits_of_Z; lia). by apply drop_prefix.
    + split; [|unfold word_in; cbn [with_bitposn getcode_bitposn crt_ptr]; lia]. split; try done. unfold position. cbn [with_bitposn getcode_bitposn crt_ptr table_flag pkt_index]. lia.
    + unfold bits_left. cbn [with_bitposn getcode_bitposn crt_ptr table_flag fpin]. change (line (with_bitposn _ _)) with (line (rd s)). rewrite EP. destruct (or_ptr _ H) as (c & -> & Hc). unfold cppkt. destruct (table_flag (rd s)); lia.
  - set (m := (n - P)%nat). assert (Z.of_nat n - Z.of_nat P = Z.of_nat m) as Em by (unfold m; lia). rewrite Em.
    assert (exists bs2, bs = bits_of_Z P (crt_bits (rd s)) ++ bs2 /\ bs2 `prefix_of` beyond (rd s)) as (bs2 & -> & Hbs2).
    { exists (drop P bs). rewrite <- (take_drop P bs) at 1. rewrite (take_prefix _ _ P Hbs) by lia. rewrite take_app_le, take_ge by (rewrite length_bits_of_Z; lia). split; [done|].
      pose proof (drop_prefix _ _ P Hbs ltac:(lia)) as Hd. rewrite drop_app_ge in Hd by (rewrite length_bits_of_Z; lia). rewrite length_bits_of_Z, Nat.sub_diag in Hd. exact Hd. }
    rewrite length_app, length_bits_of_Z in Hn. assert (bs2 <> []) as Hne by (intros ->; cbn in Hn; lia).
    destruct (refill_ok s bs2 H Hbs2 Hne) as (r1 & -> & H1 & Hbs1 & Ep1 & Ew1 & Hp1 & Hm1 & Hl1).
    destruct (load_word_ok (Installer r1 (nums s)) H1 Hp1) as (w & -> & Hw & Ebits). cbn [rd nums] in Ebits |- *. set (r2 := RdState _ _ w _ _ _ _ _ _ _ _) in *.
    replace (32 - Z.of_nat m) with (Z.of_nat (32 - m)) by (unfold m; lia). cbn [getcode_bitposn with_bitposn]. change (crt_bits r2) with w.
    assert (exists tl, bits_of_Z 32 w = take m bs2 ++ tl) as [tl Etl].
    { exists (drop m (bits_of_Z 32 w)). rewrite <- (take_drop m (bits_of_Z 32 w)) at 1. f_equal. symmetry. rewrite (take_prefix _ _ m Hbs1) by (unfold m; lia). rewrite <- Ebits.
      rewrite take_app_le; [done|]. rewrite length_bits_of_Z. unfold m. lia. }
    eexists. split; [|split; [split|split]].
    + unfold mret, stM_ret. do 2 f_equal. rewrite word_field by (unfold m; lia). replace (32 - (32 - m) - m)%nat with 0%nat by (unfold m; lia). rewrite drop_0.
      rewrite Etl, take_app_le, take_take by (rewrite length_take; unfold m; lia). replace (m `min` m)%nat with m by lia.
      assert (Z.land (crt_bits (rd s)) (lsb_mask (Z.of_nat P)) = Z_of_bits (bits_of_Z P (crt_bits (rd s)))) as -> by (rewrite Z_of_bits_of_Z; unfold lsb_mask; by rewrite Z.land_ones by lia).
      rewrite Z.shiftl_mul_pow2 by lia. rewrite take_app_ge by (rewrite length_bits_of_Z; lia). rewrite length_bits_of_Z. fold m. rewrite Z_of_bits_app.
      assert (length (take m bs2) = m) as Hlm by (rewrite length_take; unfold m; lia). rewrite Hlm.
      pose proof (Z_of_bits_bound (bits_of_Z P (crt_bits (rd s)))) as B1. rewrite length_bits_of_Z in B1. pose proof (Z_of_bits_bound (take m bs2)) as B2. rewrite Hlm in B2.
      destruct (decide (P = 0%nat)) as [EP0|HP0].
      * rewrite EP0. cbn [bits_of_Z]. change (Z_of_bits []) with 0. by rewrite !Z.mul_0_l, !Z.add_0_l.
      * apply s32_split; [lia|unfold m; lia|exact B2|].
        assert (2 ^ Z.of_nat P * 2 ^ Z.of_nat m <= 4294967296) as Hpm by (rewrite <- Z.pow_add_r by lia; change 4294967296 with (2 ^ 32); apply Z.pow_le_mono_r; unfold m; lia). nia.
    + destruct H1 as [H1a (c & Hc & Hcl) H1c H1d H1e]. split; [cbn [getcode_bitposn with_bitposn]; unfold m; lia| |exact H1c|exact H1d|exact H1e].
      exists (S c). change (line (with_bitposn r2 _)) with (line r1). cbn [with_bitposn crt_ptr r2]. split; [rewrite Hc; lia|]. destruct H1c as [k Hk]. rewrite Hk in *. lia.
    + rewrite drop_app_ge by (rewrite length_bits_of_Z; lia). rewrite length_bits_of_Z. fold m. unfold ahead. cbn [with_bitposn getcode_bitposn crt_bits r2].
      rewrite Nat2Z.id. rewrite <- drop_low by (unfold m; lia). change (beyond (with_bitposn r2 _)) with (beyond r2). rewrite <- drop_app_le by (rewrite length_bits_of_Z; unfold m; lia). rewrite Ebits.
      apply drop_prefix; [exact Hbs1|unfold m; lia].
    + split; [|intros _; destruct (or_ptr _ H1) as (c & Hc & _); unfold word_in; cbn [with_bitposn r2 getcode_bitposn crt_ptr]; rewrite Hc; unfold m; lia].
      destruct Hm1 as [M1 M2 M3 M4 M5 M6 M7]. split; cbn [with_bitposn r2 table_flag crt_line current_place bytestream_pickup]; auto.
      unfold position in *. cbn [with_bitposn r2 crt_ptr getcode_bitposn table_flag pkt_index]. rewrite Ep1, EP in M5. unfold m. lia.
    + unfold bits_left in *. cbn [with_bitposn r2 crt_ptr getcode_bitposn table_flag fpin]. change (line (with_bitposn r2 _)) with (line r1). rewrite Ep1, EP in *. destruct (table_flag r1); unfold cppkt, m in *; lia.
Qed.

(** ** Formats *)

(** [pos]: the displacement at which the format starts, up to whole bytes. *)
Definition at_format (r : rd_state) (pos : nat) : Prop := (position r) mod 8 = Z.of_nat pos mod 8.

(** [m] reads the format [f] and delivers [a]. *)
Definition ireads {A} (m : M A) (f : format) (a : A) : Prop := forall s pos bs,
  at_format (rd s) pos -> upcoming (rd s) (f pos ++ bs) ->
  exists r', m s = (Installer r' (nums s), Ok a) /\ upcoming r' bs /\ moved (length (f pos)) (rd s) r'.

Lemma moved_at n r r' pos : moved n r r' -> at_format r pos -> at_format r' (pos + n).
Proof. unfold at_format. intros [[_ _ _ _ -> _ _] _] H. rewrite Nat2Z.inj_add, <- (Zplus_mod_idemp_l (position r)), H, Zplus_mod_idemp_l. reflexivity. Qed.

Lemma ireads_ret {A} (a : A) : ireads (mret a) fmt_nil a.
Proof. intros s pos bs _ H. exists (rd s). split; [by destruct s|]. split; [exact H|apply moved_refl]. Qed.

Lemma ireads_bind {A B} (m : M A) (g : A -> M B) f1 f2 a b : ireads m f1 a -> ireads (g a) f2 b -> ireads (x ← m; g x) (fmt_seq f1 f2) b.
Proof.
  intros H1 H2 s pos bs Hp Hu. unfold fmt_seq in *. rewrite <- app_assoc in Hu. destruct (H1 s pos _ Hp Hu) as (r1 & E1 & U1 & M1).
  destruct (H2 (Installer r1 (nums s)) (pos + length (f1 pos))%nat bs (moved_at _ _ _ _ M1 Hp) U1) as (r2 & E2 & U2 & M2).
  exists r2. rewrite (stM_bind_ok _ _ _ _ _ E1). split; [exact E2|]. split; [exact U2|]. rewrite length_app. by eapply moved_trans.
Qed.

Lemma ireads_fmt {A} (m : M A) f g a : (forall pos, f pos = g pos) -> ireads m f a -> ireads m g a.
Proof. intros E H s pos bs Hp Hu. rewrite <- E in *. by apply H. Qed.

(** A field of fewer than 32 bits. *)
Lemma ireads_getcode n v : (n < 32)%nat -> 0 <= v < 2 ^ Z.of_nat n -> ireads (getcode (Z.of_nat n)) (fun _ => bits_of_Z n v) v.
Proof.
  intros Hn Hv s pos bs _ Hu. destruct (getcode_ok s _ n Hu) as (r' & E & U & Hm & _); [rewrite length_app, length_bits_of_Z; lia|lia|].
  exists r'. rewrite take_bits_app in E. rewrite drop_bits_app in U. rewrite length_bits_of_Z. rewrite s32_bits, Z_of_bits_of_Z_small in E by (rewrite ?length_bits_of_Z; assumption). auto.
Qed.

Lemma getcode_4 s d bs : 0 <= d < 16 -> upcoming (rd s) (bits_of_Z 4 d ++ bs) ->
  exists r', getcode 4 s = (Installer r' (nums s), Ok d) /\ upcoming r' bs /\ moved 4 (rd s) r' /\ (bits_left r' < bits_left (rd s))%nat.
Proof.
  intros Hd Hu. destruct (getcode_ok s _ 4 Hu) as (r' & E & U & Hm & Hl); [rewrite length_app, length_bits_of_Z; lia|lia|].
  exists r'. rewrite take_bits_app in E. rewrite drop_bits_app in U. rewrite s32_bits, Z_of_bits_of_Z_small in E by (rewrite ?length_bits_of_Z; (lia || assumption)).
  split; [exact E|]. split; [exact U|]. split; [exact Hm|]. lia.
Qed.

Lemma to_boundary_ok : ireads to_boundary fmt_align tt.
Proof.
  intros s pos bs Hp [H Hbs]. unfold to_boundary, mbind, stM_bind, get_rd, set_rd. eexists. split; [reflexivity|]. set (r := rd s) in *.
  pose proof (or_posn _ H) as Hposn. set (P := getcode_bitposn r) in *. pose proof (Z.div_mod P 8 ltac:(lia)) as Hd. pose proof (Z.mod_pos_bound P 8 ltac:(lia)) as Hmod.
  assert (Z.of_nat (length (fmt_align pos)) = P mod 8) as Elen.
  { unfold fmt_align, pad_bits. rewrite length_replicate. unfold at_format, position in Hp. fold P in Hp. rewrite !Nat2Z.inj_mod, Nat2Z.inj_sub, Nat2Z.inj_mod by (pose proof (Nat.mod_upper_bound pos 8); lia).
    change (Z.of_nat 8) with 8. rewrite <- Hp. rewrite Zminus_mod_idemp_r.
    assert ((8 - (crt_ptr r * 8 - P + (if table_flag r then 0 else pkt_index r * bppkt))) mod 8 = P mod 8) as ->; [|reflexivity].
    destruct (table_flag r); unfold bppkt, bpby, cppkt.
    - replace (8 - (crt_ptr r * 8 - P + 0)) with (P + (1 - crt_ptr r) * 8) by ring. by apply Z.mod_add.
    - replace (8 - (crt_ptr r * 8 - P + pkt_index r * (8 * 256))) with (P + (1 - crt_ptr r - pkt_index r * 256) * 8) by ring. by apply Z.mod_add. }
  split.
  - destruct H as [? H2 H3 H4 H5]. split; [split; [cbn [getcode_bitposn with_bitposn]; lia|exact H2|exact H3|exact H4|exact H5]|].
    unfold ahead in *. cbn [with_bitposn getcode_bitposn crt_bits]. change (beyond (with_bitposn _ _)) with (beyond r). fold P in Hbs.
    replace (Z.to_nat (P - P mod 8)) with (Z.to_nat P - length (fmt_align pos))%nat by lia. rewrite <- drop_low by lia. rewrite <- drop_app_le by (rewrite length_bits_of_Z; lia).
    pose proof (drop_prefix _ _ (length (fmt_align pos)) Hbs ltac:(rewrite length_app; lia)) as Hdp. by rewrite drop_app_length in Hdp.
  - split; [|unfold word_in; cbn [with_bitposn getcode_bitposn crt_ptr]; fold P; lia]. split; try done. unfold position. cbn [with_bitposn getcode_bitposn crt_ptr table_flag pkt_index]. fold P. lia.
Qed.

(** *** Integers *)

Definition digits_value (total : Z) (l : list Z) : Z := fold_left (fun a d => 8 * a + d) l total.

Lemma digits_value_le total l : 0 <= total -> Forall is_digit l -> total <= digits_value total l.
Proof.
  intros Ht Hl. revert total Ht. induction Hl as [|d l Hd Hl IH]; intros total Ht; cbn [digits_value fold_left]; [lia|]. unfold is_digit in Hd.
  fold (digits_value (8 * total + d) l). specialize (IH (8 * total + d) ltac:(lia)). lia.
Qed.

Lemma small_loop_ok l d : Forall is_digit l -> is_digit d -> forall fuel total s bs, upcoming (rd s) (nibble_bits (l ++ [d + 8]) ++ bs) ->
  (bits_left (rd s) < fuel)%nat -> 0 <= total -> digits_value total (l ++ [d]) < 2147483648 ->
  exists r', small_loop fuel total s = (Installer r' (nums s), Ok (digits_value total (l ++ [d]))) /\ upcoming r' bs /\ moved (4 * S (length l)) (rd s) r'.
Proof.
  intros Hl Hd. unfold is_digit in Hd. induction Hl as [|x l Hx Hl IH]; intros fuel total s bs Hu Hf Ht Hv; (destruct fuel as [|fuel]; [lia|]); cbn [small_loop app] in *.
  - unfold nibble_bits in Hu. cbn [flat_map] in Hu. rewrite app_nil_r in Hu. destruct (getcode_4 s (d + 8) bs ltac:(lia) Hu) as (r' & E & U & Hm & _).
    exists r'. rewrite (stM_bind_ok _ _ _ _ _ E). rewrite (proj2 (Z.ltb_ge (d + 8) 8)) by lia. cbn [digits_value fold_left] in *.
    replace (d + 8 - 8) with d by lia. rewrite s32_small by lia. auto.
  - unfold nibble_bits in Hu. cbn [flat_map] in Hu. rewrite <- app_assoc in Hu. unfold is_digit in Hx. destruct (getcode_4 s x _ ltac:(lia) Hu) as (r1 & E & U & Hm & Hlt).
    rewrite (stM_bind_ok _ _ _ _ _ E). rewrite (proj2 (Z.ltb_lt x 8)) by lia. cbn [digits_value fold_left] in *. fold (digits_value (8 * total + x) (l ++ [d])) in *.
    assert (8 * total + x <= digits_value (8 * total + x) (l ++ [d])) as Hle by (apply digits_value_le; [lia|]; apply Forall_app; split; [exact Hl|by constructor]).
    rewrite s32_small by lia. destruct (IH fuel (8 * total + x) (Installer r1 (nums s)) bs U ltac:(cbn [rd]; lia) ltac:(lia) Hv) as (r2 & E2 & U2 & M2).
    exists r2. split; [exact E2|]. split; [exact U2|]. replace (4 * S (length (x :: l)))%nat with (4 + 4 * S (length l))%nat by (cbn [length]; lia). by eapply moved_trans.
Qed.

(** The packets of an integer. *)
Lemma tdfint_packets n : 0 <= n -> exists l d, Forall is_digit l /\ is_digit d /\ tdfint_bits n = nibble_bits (l ++ [d + 8]) /\ digits_value 0 (l ++ [d]) = n /\
  length (tdfint_bits n) = (4 * S (length l))%nat.
Proof.
  intros Hn. exists (octal_init n), (Z.land n 7). pose proof (land7_digit n) as Hd. split; [by apply octal_init_Forall|]. split; [exact Hd|].
  assert (tdfint_bits n = nibble_bits (octal_init n ++ [Z.land n 7 + 8])) as E by (unfold tdfint_bits, tdfint_nibbles; by rewrite lor8).
  split; [exact E|]. split; [|rewrite E, length_nibble_bits, length_app; cbn [length]; lia]. pose proof (octal_value_digits n Hn) as Hv. rewrite octal_digits_eq in Hv by exact Hn. exact Hv.
Qed.

Lemma small_dtdfint_ok n : 0 <= n < 2147483648 -> ireads small_dtdfint (fmt_int n) n.
Proof.
  intros Hn s pos bs _ Hu. unfold fmt_int in *. destruct (tdfint_packets n ltac:(lia)) as (l & d & Hl & Hd & E & Hv & Hlen). rewrite Hlen. rewrite E in Hu.
  destruct (small_loop_ok l d Hl Hd (S (bits_left (rd s))) 0 s bs Hu ltac:(lia) ltac:(lia) ltac:(lia)) as (r' & E1 & U & Hm). rewrite Hv in E1. exists r'. auto.
Qed.

(** ** An instance *)

(** A packet with some bytes at its front. *)
Definition demo_packet (l : list Z) : rd_state :=
  RdState 0 0 0 0 false [] 0 [] (l ++ replicate (256 - length l) 0) (Place false [] 0) (Place false [] 0).

Lemma demo_packet_ok l : (length l <= 256)%nat -> Forall is_byte l -> ok_reader (demo_packet l).
Proof.
  intros Hn Hl. assert (length (line (demo_packet l)) = 256%nat) as E by (cbn; rewrite length_app, length_replicate; lia).
  assert (Forall is_byte (line (demo_packet l))) as Hb by (apply Forall_app; split; [exact Hl|by apply Forall_replicate]).
  split; [cbn; lia|exists 0%nat; split; [reflexivity|lia]|exists 64%nat; by rewrite E|by split|by split].
Qed.
