(* ===== verification/TransReaderInts.v ===== *)
(** * TransReaderInts: integers of any size in the TDF reader

    d_tdfint of trans/src/common/reader/basicread.c reads an integer that fits
    an [unsigned int] as one, and a larger one as a number of the array. Its
    loop and the others of the reader end on whatever is in the file or in the
    memory that is read: a round of a loop takes bits away, and at the end the
    reader stops the program. *)
From stdpp Require Import base list list_numbers gmap numbers.
From Stdlib Require Import ZArith Lia.
From S2P Require Import Prelude Codec TldIOSpec TransFlpt TransFlptSpec TransNumbers TransNumbersSpec TransNumbersArray TransInt64 TransReader TransReaderSpec.

Section Ints.
Context (junk : nat -> flt) (m : gmap nat flt) (final : Z).

(** What the loop has read: [N], of the integer [final]. *)
Definition read_so_far (N : Z) (total : Z) (big : option Z) (n : flpts) : Prop :=
  match big with
  | None => total = N /\ 0 <= N < 4294967296 /\ (4294967296 <= final -> represents n m)
  | Some f => exists k, f = Z.of_nat k /\ 4294967296 <= N /\ m !! k = None /\ represents n (<[k := rounded N 0]> m)
  end.

Lemma newdig_ok N f d r n k : f = Z.of_nat k -> represents n (<[k := rounded N 0]> m) -> 0 <= N -> is_digit d -> 8 * N + d < FBASE ^ 8 ->
  exists n', newdig f d (Installer r n) = (Installer r n', Ok tt) /\ represents n' (<[k := rounded (8 * N + d) 0]> m).
Proof.
  intros -> H HN Hd Hb. unfold is_digit in Hd. unfold newdig, on_nums. cbn [rd nums].
  rewrite (get_flpt_ok n _ k (rounded N 0) H) by apply lookup_insert_eq. cbn [mbind option_bind].
  rewrite (flpt_newdig_integer N d 8) by (try lia; rewrite Z.mul_comm; exact Hb).
  destruct (put_flpt_ok n _ k (rounded (N * 8 + d) 0) H) as (n' & -> & H'); [rewrite lookup_insert_eq; by eexists|].
  exists n'. rewrite insert_insert_eq, (Z.mul_comm N 8) in H'. auto.
Qed.

(** One digit. *)
Lemma tdfint_digit_ok N total big d r n : read_so_far N total big n -> is_digit d -> 8 * N + d <= final -> final < FBASE ^ 8 ->
  exists total' big' n', tdfint_digit junk total big d (Installer r n) = (Installer r n', Ok (total', big')) /\ read_so_far (8 * N + d) total' big' n' /\
    (8 * N + d < 4294967296 -> n' = n).
Proof.
  intros H Hd Hf Hfin. assert (8 * N + d < FBASE ^ 8) as Hb by (eapply Z.le_lt_trans; eassumption). clear Hfin. unfold is_digit in Hd. destruct big as [f|]; cbn [tdfint_digit read_so_far] in *.
  - destruct H as (k & Ef & HN & Hk & H). destruct (newdig_ok N f d r n k Ef H ltac:(clear Hb; lia) Hd Hb) as (n' & E & H'). unfold mbind, stM_bind. rewrite E.
    exists total, (Some f), n'. split; [reflexivity|]. split; [exists k; split_and!; auto; clear Hb; lia|clear Hb; lia].
  - destruct H as (-> & HN & H). destruct (Z.ltb_spec 536870911 N) as [Hlt|Hle].
    + destruct (floatrep_unsigned_ok junk N n m (H ltac:(clear Hb; lia)) HN) as (k & n1 & E1 & Hk & H1). unfold on_nums, mbind, stM_bind. cbn [nums rd]. rewrite E1.
      destruct (newdig_ok N (Z.of_nat k) d r n1 k eq_refl H1 ltac:(clear Hb; lia) Hd Hb) as (n' & -> & H').
      eexists _, _, n'. split; [reflexivity|]. split; [exists k; split_and!; auto; clear Hb; lia|clear Hb; lia].
    + exists (8 * N + d), None, n. rewrite Z.shiftl_mul_pow2, u32_small by (clear Hb; lia). change (2 ^ 3) with 8. rewrite (Z.mul_comm N).
      split; [reflexivity|]. split; [|done]. cbn [read_so_far]. split_and!; auto; clear Hb; lia.
Qed.

Definition tdfint_result (total : Z) (big : option Z) : tdfint := match big with None => small_nat (s32 total) | Some f => big_nat f end.

Lemma tdfint_loop_ok l d : Forall is_digit l -> is_digit d -> forall fuel N total big s bs, upcoming (rd s) (nibble_bits (l ++ [d + 8]) ++ bs) ->
  (bits_left (rd s) < fuel)%nat -> read_so_far N total big (nums s) -> 0 <= N -> digits_value N (l ++ [d]) = final -> final < FBASE ^ 8 ->
  exists r' n' total' big', tdfint_loop junk fuel total big s = (Installer r' n', Ok (tdfint_result total' big')) /\ upcoming r' bs /\
    moved (4 * S (length l)) (rd s) r' /\ read_so_far final total' big' n' /\ (final < 4294967296 -> n' = nums s).
Proof.
  intros Hl Hd. unfold is_digit in Hd. induction Hl as [|x l Hx Hl IH]; intros fuel N total big s bs Hu Hf Hr HN Hv Hb; (destruct fuel as [|fuel]; [lia|]); cbn [tdfint_loop app] in *;
    unfold nibble_bits in Hu; cbn [flat_map] in Hu; rewrite ?app_nil_r, <- ?app_assoc in Hu.
  - destruct (getcode_4 s (d + 8) bs ltac:(lia) Hu) as (r' & E & U & Hm & _). rewrite (stM_bind_ok _ _ _ _ _ E). rewrite (proj2 (Z.ltb_ge (d + 8) 8)) by lia. cbn [digits_value fold_left] in *.
    replace (d + 8 - 8) with d by lia. destruct (tdfint_digit_ok N total big d r' (nums s) Hr Hd ltac:(rewrite Hv; reflexivity) Hb) as (t' & b' & n' & E2 & H2 & H3). cbn zeta. unfold mbind, stM_bind. rewrite E2.
    rewrite Hv in *. exists r', n', t', b'. split_and!; auto.
  - unfold is_digit in Hx. destruct (getcode_4 s x _ ltac:(lia) Hu) as (r1 & E & U & Hm & Hlt). rewrite (stM_bind_ok _ _ _ _ _ E).
    rewrite (proj2 (Z.ltb_lt x 8)) by lia. cbn [digits_value fold_left] in *. fold (digits_value (8 * N + x) (l ++ [d])) in *.
    assert (8 * N + x <= digits_value (8 * N + x) (l ++ [d])) as Hle by (apply digits_value_le; [clear Hb; lia|]; apply Forall_app; split; [exact Hl|by constructor]).
    destruct (tdfint_digit_ok N total big x r1 (nums s) Hr Hx ltac:(rewrite <- Hv; exact Hle) Hb) as (t1 & b1 & n1 & E2 & H2 & H3). cbn zeta. rewrite (stM_bind_ok _ _ _ _ _ E2).
    destruct (IH fuel (8 * N + x) t1 b1 (Installer r1 n1) bs U ltac:(cbn [rd]; clear Hb; lia) H2 ltac:(clear Hb; lia) Hv Hb) as (r2 & n2 & t2 & b2 & E3 & U3 & M3 & H4 & H5).
    exists r2, n2, t2, b2. split; [exact E3|]. split; [exact U3|]. split; [|split; [exact H4|]].
    + replace (4 * S (length (x :: l)))%nat with (4 + 4 * S (length l))%nat by (cbn [length]; clear Hb; lia). by eapply moved_trans.
    + intros Hs. rewrite (H5 Hs). cbn [nums]. apply H3. clear Hb. lia.
Qed.

End Ints.

Lemma d_tdfint_cases junk m n s bs : (4294967296 <= n -> represents (nums s) m) -> 0 <= n < FBASE ^ 8 -> upcoming (rd s) (tdfint_bits n ++ bs) ->
  if n <? 4294967296 then
    exists r', d_tdfint junk s = (Installer r' (nums s), Ok (small_nat (s32 n))) /\ upcoming r' bs /\ moved (length (tdfint_bits n)) (rd s) r'
  else
    exists k r' n', d_tdfint junk s = (Installer r' n', Ok (big_nat (Z.of_nat k))) /\ upcoming r' bs /\ moved (length (tdfint_bits n)) (rd s) r' /\
      m !! k = None /\ represents n' (<[k := rounded n 0]> m).
Proof.
  intros Hm [Hn0 Hn] Hu. destruct (tdfint_packets n Hn0) as (l & d & Hl & Hd & E & Hv & Hlen). rewrite Hlen. rewrite E in Hu.
  destruct (tdfint_loop_ok junk m n l d Hl Hd (S (bits_left (rd s))) 0 0 None s bs Hu ltac:(clear Hn; lia)) as (r' & n' & t' & b' & E1 & U & M1 & H1 & H2).
  { cbn [read_so_far]. split_and!; auto; clear Hn; lia. } { clear Hn; lia. } { exact Hv. } { exact Hn. }
  unfold d_tdfint. unfold mbind at 1, stM_bind, get_rd. rewrite E1. destruct b' as [f|]; cbn [read_so_far tdfint_result] in *.
  - destruct H1 as (k & -> & Hk & H3 & H4). rewrite (proj2 (Z.ltb_ge _ _)) by exact Hk. eauto 10.
  - destruct H1 as (-> & Hk & H3). rewrite (proj2 (Z.ltb_lt n 4294967296)) by (clear Hn; lia). rewrite (H2 (proj2 Hk)). eauto.
Qed.

Lemma d_tdfint_small junk n : 0 <= n < 4294967296 -> ireads (d_tdfint junk) (fmt_int n) (small_nat (s32 n)).
Proof.
  intros Hn s pos bs _ Hu. assert (n < FBASE ^ 8) as Hb by (apply (Z.lt_trans _ 4294967296); [lia|reflexivity]).
  pose proof (d_tdfint_cases junk (gmap_empty) n s bs ltac:(clear Hb; lia) (conj (proj1 Hn) Hb) Hu) as H. rewrite (proj2 (Z.ltb_lt n 4294967296)) in H by (clear Hb; lia). exact H.
Qed.

(** C14: an integer of the file that fits an [unsigned int] is delivered as
    the [int] of its bits, the numbers as they were; a larger one of at most
    eight digits to the base 65536 is delivered in a new element of the array
    of numbers, exactly, the other numbers as they were. The reader is then
    behind the integer. *)
Theorem d_tdfint_exact junk m n s bs : represents (nums s) m -> 0 <= n < FBASE ^ 8 -> upcoming (rd s) (tdfint_bits n ++ bs) ->
  exists r' n', upcoming r' bs /\ moved (length (tdfint_bits n)) (rd s) r' /\
    if n <? 4294967296 then d_tdfint junk s = (Installer r' n', Ok (small_nat (s32 n))) /\ n' = nums s
    else exists k, d_tdfint junk s = (Installer r' n', Ok (big_nat (Z.of_nat k))) /\ m !! k = None /\ represents n' (<[k := rounded n 0]> m).
Proof.
  intros Hm Hn Hu. pose proof (d_tdfint_cases junk m n s bs (fun _ => Hm) Hn Hu) as H. destruct (n <? 4294967296).
  - destruct H as (r' & E & U & M1). eauto 10.
  - destruct H as (k & r' & n' & E & U & M1 & Hk & H). eauto 10.
Qed.

Lemma d_tdfint_exact_witness : exists n, init_flpt (fun _ => flt_zero) = Some (49, 48, n) /\
  exists r' n' k, d_tdfint (fun _ => flt_zero) (Installer (demo_packet [64; 0; 0; 0; 0; 8]) n) = (Installer r' n', Ok (big_nat (Z.of_nat k))) /\
    get_flpt (Z.of_nat k) n' = Some (Flt [8; 0; 0; 0; 0; 0; 0; 0] 1 2).
Proof.
  destruct (init_flpt_ok (fun _ => flt_zero)) as (n & E & H). exists n. split; [exact E|].
  destruct (d_tdfint_exact (fun _ => flt_zero) _ (2 ^ 35) (Installer (demo_packet [64; 0; 0; 0; 0; 8]) n) [] H) as (r' & n' & _ & _ & k & E1 & _ & H1).
  - split; [discriminate|reflexivity].
  - split; [apply demo_packet_ok; [cbn; lia|repeat constructor; unfold is_byte; lia]|]. eexists. vm_compute. reflexivity.
  - exists r', n', k. split; [exact E1|]. eapply get_flpt_ok; [exact H1|]. rewrite lookup_insert_eq. vm_compute. reflexivity.
Defined.

(** [m] leaves a sound reader with at least [n] bits fewer, or stops for
    another reason than the fuel. *)
Definition ends {A} (n : nat) (m : M A) (s : installer) : Prop :=
  match m s with
  | (s', Ok _) => ok_reader (rd s') /\ (bits_left (rd s') + n <= bits_left (rd s))%nat
  | (_, Throw e) => e <> R_undefined
  end.

Lemma ends_bind {A B} n k (m : M A) (g : A -> M B) s : ends n m s ->
  (forall a s', m s = (s', Ok a) -> ok_reader (rd s') -> (bits_left (rd s') + n <= bits_left (rd s))%nat -> ends (k - n) (g a) s') -> ends k (x ← m; g x) s.
Proof.
  unfold ends, mbind, stM_bind. destruct (m s) as [s' [a|e]]; [|done]. intros [H1 H2] H3. specialize (H3 a s' eq_refl H1 H2).
  destruct (g a s') as [s2 [b|e]]; [|done]. destruct H3 as [H3 H4]. split; [exact H3|lia].
Qed.

Lemma refill_cases s : ok_reader (rd s) ->
  refill s = (s, Throw R_past_end) \/
  (refill s = (s, Ok tt) /\ Z.of_nat (length (line (rd s))) <= crt_ptr (rd s)) \/
  exists r', refill s = (Installer r' (nums s), Ok tt) /\ ok_reader r' /\ getcode_bitposn r' = getcode_bitposn (rd s) /\
    crt_ptr r' + 4 <= Z.of_nat (length (line r')) /\ (bits_left r' <= bits_left (rd s))%nat.
Proof.
  intros H. destruct (decide (beyond (rd s) = [])) as [E|E].
  2: { right; right. destruct (refill_ok s (beyond (rd s)) H ltac:(done) E) as (r' & ? & ? & _ & ? & _ & ? & _ & ?). eauto 10. }
  unfold beyond in E. apply app_eq_nil in E as [E1 E2]. destruct (or_ptr _ H) as (c & Hc & Hle). pose proof (or_buff _ H) as [Hl _].
  assert (length (line (rd s)) = 4 * c)%nat as Hlen by (apply (f_equal length) in E1; rewrite length_bytes_bits, length_drop in E1; cbn in E1; lia).
  unfold refill, mbind, stM_bind, get_rd. destruct (table_flag (rd s)) eqn:Ht; cbn [negb andb]; [right; left; split; [done|lia]|].
  left. unfold line in Hlen. rewrite Ht, Hl in Hlen. rewrite (proj2 (Z.eqb_eq _ _)) by (unfold cppkt; lia).
  unfold read_line, mbind, stM_bind, get_rd. assert (fpin (rd s) = []) as -> by (apply (f_equal length) in E2; rewrite length_bytes_bits in E2; destruct (fpin (rd s)); [done|cbn in E2; lia]). reflexivity.
Qed.

Lemma load_word_end s : Z.of_nat (length (line (rd s))) <= crt_ptr (rd s) -> load_word s = (s, Throw R_memory).
Proof.
  intros H. unfold load_word, mbind at 1, stM_bind, get_rd, word_at. rewrite (proj2 (Z.ltb_ge _ _)) by lia. by rewrite (lookup_ge_None_2 _ (Z.to_nat (crt_ptr (rd s)))) by lia.
Qed.

Lemma getcode_ends n s : ok_reader (rd s) -> (n <= 32)%nat -> ends n (getcode (Z.of_nat n)) s.
Proof.
  intros H Hn. pose proof (or_posn _ H) as Hp. destruct (decide (n <= Z.to_nat (getcode_bitposn (rd s)))%nat) as [Hle|Hgt].
  { destruct (getcode_ok s (ahead (rd s)) n ltac:(by split) ltac:(unfold ahead; rewrite length_app, length_bits_of_Z; lia) Hn) as (r' & E & [U _] & _ & Hl).
    unfold ends. rewrite E. by split. }
  unfold ends, getcode, mbind, stM_bind, get_rd, set_rd. rewrite (proj2 (Z.ltb_ge _ _)), (proj2 (Z.ltb_ge _ _)) by lia. cbn [orb].
  rewrite (proj2 (Z.leb_gt _ _)) by lia. destruct (refill_cases s H) as [-> |[[-> Hend]|(r1 & -> & H1 & Ep & Hp1 & Hl1)]]; [done|by rewrite load_word_end by exact Hend|].
  destruct (load_word_ok (Installer r1 (nums s)) H1 Hp1) as (w & -> & _). cbn [rd nums]. set (r2 := RdState _ _ w _ _ _ _ _ _ _ _) in *.
  unfold mret, stM_ret. cbn [rd]. split.
  - destruct H1 as [H1a (c & Hc & Hcl) H1c H1d H1e]. split; [cbn [getcode_bitposn with_bitposn]; lia| |exact H1c|exact H1d|exact H1e].
    exists (S c). change (line (with_bitposn r2 _)) with (line r1). cbn [with_bitposn crt_ptr r2]. split; [rewrite Hc; lia|]. destruct H1c as [k Hk]. rewrite Hk in *. lia.
  - unfold bits_left in *. cbn [with_bitposn r2 crt_ptr getcode_bitposn table_flag fpin]. change (line (with_bitposn r2 _)) with (line r1). rewrite Ep in *. destruct (table_flag r1), (table_flag (rd s)); unfold cppkt in *; lia.
Qed.

Lemma getcode_cases n s : ok_reader (rd s) -> 0 <= n <= 32 -> ends (Z.to_nat n) (getcode n) s.
Proof. intros H Hn. rewrite <- (Z2Nat.id n) at 2 by lia. apply getcode_ends; [exact H|lia]. Qed.

Lemma ends_ret {A} (a : A) s : ok_reader (rd s) -> ends 0 (mret a) s.
Proof. intros H. split; [exact H|lia]. Qed.

Lemma small_loop_ends fuel total s : ok_reader (rd s) -> (bits_left (rd s) < fuel)%nat -> ends 4 (small_loop fuel total) s.
Proof.
  revert total s. induction fuel as [|fuel IH]; intros total s H Hf; [lia|]. cbn [small_loop]. apply (ends_bind 4); [by apply (getcode_cases 4)|].
  intros d s' _ H' Hl. replace (4 - 4)%nat with 0%nat by lia. destruct (d <? 8); [|by apply ends_ret].
  specialize (IH (s32 (8 * total + d)) s' H' ltac:(lia)). unfold ends in *. destruct (small_loop _ _ _) as [s2 [a|e]]; [|done]. destruct IH. split; [done|lia].
Qed.

Lemma big_code_ends n fuel res s : 1 <= n <= 32 -> ok_reader (rd s) -> (bits_left (rd s) < fuel)%nat -> ends 1 (big_code_loop fuel n res) s.
Proof.
  intros Hn. revert res s. induction fuel as [|fuel IH]; intros res s H Hf; [lia|]. cbn [big_code_loop]. apply (ends_bind (Z.to_nat n)); [by apply getcode_cases; [|lia]|].
  intros d s' _ H' Hl. replace (1 - Z.to_nat n)%nat with 0%nat by lia. destruct (d =? 0); [|by apply ends_ret].
  specialize (IH (s32 (res + lsb_mask n)) s' H' ltac:(lia)). unfold ends in *. destruct (big_code_loop _ _ _ _) as [s2 [a|e]]; [|done]. destruct IH. split; [done|lia].
Qed.

Lemma on_nums_ends {A} (f : flpts -> option (A * flpts)) s : ok_reader (rd s) -> ends 0 (on_nums f) s.
Proof. intros H. unfold ends, on_nums. destruct (f (nums s)) as [[a n]|]; [|done]. split; [exact H|cbn; lia]. Qed.

Lemma tdfint_digit_ends junk total big d s : ok_reader (rd s) -> ends 0 (tdfint_digit junk total big d) s.
Proof.
  intros H. unfold tdfint_digit, newdig. destruct big as [f|]; [|destruct (_ <? _); [|by apply ends_ret]]; repeat (apply (ends_bind 0); [by apply on_nums_ends|intros ? ? _ ? _]); by apply ends_ret.
Qed.

Lemma tdfint_loop_ends junk fuel total big s : ok_reader (rd s) -> (bits_left (rd s) < fuel)%nat -> ends 4 (tdfint_loop junk fuel total big) s.
Proof.
  revert total big s. induction fuel as [|fuel IH]; intros total big s H Hf; [lia|]. cbn [tdfint_loop]. apply (ends_bind 4); [by apply (getcode_cases 4)|].
  intros d s' _ H' Hl. replace (4 - 4)%nat with 0%nat by lia. cbn zeta. apply (ends_bind 0); [by apply tdfint_digit_ends|]. intros [t b] s2 _ H2 Hl2.
  replace (0 - 0)%nat with 0%nat by lia. destruct (d <? 8); [|by apply ends_ret].
  specialize (IH t b s2 H2 ltac:(lia)). unfold ends in *. destruct (tdfint_loop _ _ _ _ _) as [s3 [a|e]]; [|done]. destruct IH. split; [done|lia].
Qed.

(** C15: whatever is in the file, and whatever the numbers are, the loops that
    read an integer or a code of at least one bit end: they deliver a value,
    having taken bits away and leaving the reader sound, or the program stops
    because the bits have run out. *)
Theorem reader_loops_end junk s n : ok_reader (rd s) -> 1 <= n <= 32 ->
  ends 4 small_dtdfint s /\ ends 4 (d_tdfint junk) s /\ ends 1 (get_big_code n) s.
Proof.
  intros H Hn. split_and!.
  - apply small_loop_ends; [exact H|lia].
  - apply tdfint_loop_ends; [exact H|lia].
  - apply big_code_ends; [exact Hn|exact H|lia].
Qed.

(** A file of zeros, which an integer never ends in. *)
Lemma reader_loops_end_witness :
  let s := Installer (demo_packet []) (Flpts [] 0 0) in
  (ends 4 small_dtdfint s /\ ends 4 (d_tdfint (fun _ => flt_zero)) s /\ ends 1 (get_big_code 5) s) /\
  (small_dtdfint s).2 = Throw R_past_end.
Proof.
  split; [apply reader_loops_end; [apply demo_packet_ok; [cbn; lia|constructor]|lia]|]. vm_compute. reflexivity.
Defined.
