(* ===== verification/TransReaderPlaces.v ===== *)
(** * TransReaderPlaces: places in the file and in memory

    keep_place, set_place, new_place and the bit and byte streams of
    trans/src/common/reader/basicread.c. [at_file F p r] says that [r] reads
    the file [F] and is before its bit [p]; [at_mem] is the same of some
    characters in memory. *)
From stdpp Require Import base list list_numbers numbers.
From Stdlib Require Import ZArith Lia.
From S2P Require Import Prelude Codec TldIOSpec TransFlpt TransNumbers TransReader TransReaderSpec.

Record at_file (F : list Z) (p : nat) (r : rd_state) : Prop := {
  af_ok : ok_reader r;
  af_word : word_in r;
  af_table : table_flag r = false;
  af_holds : holds F r;
  af_position : position r = Z.of_nat p;
  af_ahead : drop p (bytes_bits F) `prefix_of` ahead r;
  af_in : (p <= 8 * length F)%nat
}.

Record at_mem (l : list Z) (p : nat) (r : rd_state) : Prop := {
  am_ok : ok_reader r;
  am_word : word_in r;
  am_table : table_flag r = true;
  am_line : crt_line r = l;
  am_position : position r = Z.of_nat p;
  am_ahead : drop p (bytes_bits l) `prefix_of` ahead r
}.

Lemma drop_eq_app {A} p (l a b : list A) : drop p l = a ++ b -> drop (p + length a) l = b.
Proof. intros H. rewrite <- drop_drop, H. by rewrite drop_app_length. Qed.

Lemma at_file_moved F p r r' l bs : at_file F p r -> moved (length l) r r' -> upcoming r' bs -> drop p (bytes_bits F) = l ++ bs -> at_file F (p + length l) r'.
Proof.
  intros [H1 H2 H3 H4 H5 H6 H7] [[M1 M2 M3 M4 M5 M6 M7] M8] [U1 U2] E. split; auto; [congruence|lia|by rewrite (drop_eq_app _ _ _ _ E)|].
  apply (f_equal length) in E. rewrite length_drop, length_bytes_bits, length_app in E. lia.
Qed.

(** What reads a format goes on in the file. *)
Lemma file_reads {A} (m : M A) f (a : A) F p s bs : ireads m f a -> at_file F p (rd s) -> drop p (bytes_bits F) = f p ++ bs ->
  exists r', m s = (Installer r' (nums s), Ok a) /\ at_file F (p + length (f p)) r' /\ moved (length (f p)) (rd s) r'.
Proof.
  intros Hm H E. destruct (Hm s p bs) as (r' & E1 & U & Hmv).
  - unfold at_format. by rewrite (af_position _ _ _ H).
  - split; [apply H|]. rewrite <- E. apply H.
  - exists r'. split; [exact E1|]. split; [by eapply at_file_moved|exact Hmv].
Qed.

(** ** The word at a place *)

Lemma load_at s l : ok_reader (rd s) -> (0 < getcode_bitposn (rd s) -> crt_ptr (rd s) + 4 <= Z.of_nat (length (line (rd s)))) ->
  l `prefix_of` beyond (rd s) ->
  let n := if 0 <? getcode_bitposn (rd s) then 32 - getcode_bitposn (rd s) else 0 in n <= Z.of_nat (length l) ->
  exists r', (if 0 <? getcode_bitposn (rd s) then load_word else mret tt) s = (Installer r' (nums s), Ok tt) /\
    ok_reader r' /\ word_in r' /\ drop (Z.to_nat n) l `prefix_of` ahead r' /\
    table_flag r' = table_flag (rd s) /\ crt_line r' = crt_line (rd s) /\ same_file (rd s) r' /\ pkt_index r' = pkt_index (rd s) /\
    current_place r' = current_place (rd s) /\ bytestream_pickup r' = bytestream_pickup (rd s) /\
    crt_ptr r' * 8 - getcode_bitposn r' = crt_ptr (rd s) * 8 + n.
Proof.
  intros H Hp Hl n Hn. pose proof (or_posn _ H) as Hposn. destruct (or_ptr _ H) as (c & Hc & Hcl). destruct (Z.ltb_spec 0 (getcode_bitposn (rd s))) as [Hlt|Hge].
  - destruct (load_word_ok s H (Hp Hlt)) as (w & E & Hw & Eb). cbn zeta in *. set (r' := RdState _ _ w _ _ _ _ _ _ _ _) in *. exists r'. rewrite E. split; [reflexivity|].
    split_and!; try done; [|unfold word_in; cbn [r' crt_ptr getcode_bitposn]; lia| |cbn [r' crt_ptr getcode_bitposn]; unfold n; lia].
    + destruct H as [Ha _ [k Hk] Hd He]. split; [exact Ha| |by exists k|exact Hd|exact He]. exists (S c). change (line r') with (line (rd s)). cbn [r' crt_ptr]. specialize (Hp Hlt). rewrite Hk in *. lia.
    + unfold ahead. cbn [r' getcode_bitposn crt_bits]. fold r'. pose proof (drop_prefix _ _ (Z.to_nat n) Hl ltac:(lia)) as Hd. rewrite <- Eb in Hd.
      rewrite drop_app_le in Hd by (rewrite length_bits_of_Z; unfold n; lia). rewrite drop_low in Hd by (unfold n; lia). unfold n in Hd.
      replace (32 - Z.to_nat (32 - getcode_bitposn (rd s)))%nat with (Z.to_nat (getcode_bitposn (rd s))) in Hd by lia. exact Hd.
  - exists (rd s). destruct s as [r k]. cbn [rd nums] in *. split; [reflexivity|]. split_and!; try done; [unfold word_in; lia| |unfold n; lia].
    unfold ahead. replace (getcode_bitposn r) with 0 by lia. exact Hl.
Qed.

(** ** Places in memory *)

Definition words_mem (l : list Z) : Prop := (exists k : nat, length l = (4 * k)%nat) /\ Forall is_byte l.

Lemma posn_cases p : 0 <= p -> let posn := 32 - p mod 32 in let posn' := if posn =? 32 then 0 else posn in
  0 <= posn' < 32 /\ (if 0 <? posn' then 32 - posn' else 0) = p mod 32 /\ (0 < posn' <-> 0 < p mod 32).
Proof.
  intros Hp. cbn zeta. pose proof (Z.mod_pos_bound p 32 ltac:(lia)). destruct (Z.eqb_spec (32 - p mod 32) 32).
  - rewrite Z.ltb_irrefl. lia.
  - rewrite (proj2 (Z.ltb_lt _ _)) by lia. lia.
Qed.

Lemma set_place_mem l p s : words_mem l -> (p <= 8 * length l)%nat -> ok_reader (rd s) ->
  exists r', set_place (Place true l (Z.of_nat p)) s = (Installer r' (nums s), Ok tt) /\ at_mem l p r' /\ same_file (rd s) r' /\
    current_place r' = Place true l (Z.of_nat p) /\ bytestream_pickup r' = bytestream_pickup (rd s).
Proof.
  intros [[k Hk] Hb] Hp [_ _ _ [_ Hf] Hbuf]. unfold set_place. unfold mbind at 1, stM_bind at 1, get_rd. cbn [flag pl_mem bits_on negb].
  destruct (posn_cases (Z.of_nat p) ltac:(lia)) as (P1 & P2 & P3). cbn zeta in *.
  set (posn' := if 32 - Z.of_nat p mod 32 =? 32 then 0 else 32 - Z.of_nat p mod 32) in *.
  unfold set_rd, mbind, stM_bind. cbn [nums]. set (r0 := RdState _ _ _ _ _ _ _ _ _ _ _).
  pose proof (Z.div_mod (Z.of_nat p) 32 ltac:(lia)) as Hdm. pose proof (Z.mod_pos_bound (Z.of_nat p) 32 ltac:(lia)) as Hm.
  set (q := Z.to_nat (Z.of_nat p / 32)). assert (Z.of_nat p / 32 = Z.of_nat q) as Eq by (unfold q; rewrite Z2Nat.id; [done|apply Z.div_pos; lia]). rewrite Eq in *.
  assert (crt_ptr r0 = Z.of_nat (4 * q)) as Ep by (cbn [r0 crt_ptr]; lia). assert (4 * q <= length l)%nat as Hq by lia.
  assert (ok_reader r0) as H0 by (split; [exact P1|exists q; by split|exists k; exact Hk|by split|exact Hbuf]).
  destruct (load_at (Installer r0 (nums s)) (drop (32 * q) (bytes_bits l))) as (r' & E & U1 & U2 & U3 & U4 & U5 & U6 & U7 & U8 & U9 & U10).
  - exact H0.
  - cbn [rd]. change (getcode_bitposn r0) with posn'. change (line r0) with l. intros Hlt. apply P3 in Hlt. rewrite Ep, Hk in *. lia.
  - cbn [rd]. unfold beyond. change (line r0) with l. rewrite Ep, Nat2Z.id. change (table_flag r0) with true. cbn iota. rewrite app_nil_r.
    replace (32 * q)%nat with (8 * (4 * q))%nat by lia. by rewrite bytes_bits_drop.
  - cbn [rd]. change (getcode_bitposn r0) with posn'. rewrite P2, length_drop, length_bytes_bits. lia.
  - cbn [rd nums] in *. change (getcode_bitposn r0) with posn' in *. exists r'. split; [exact E|]. rewrite P2 in *. rewrite Ep in U10.
    split; [|split; [|split]].
    + split; [exact U1|exact U2|exact U4|exact U5| |].
      * unfold position. rewrite U4. change (table_flag r0) with true. cbn iota. lia.
      * rewrite drop_drop in U3. replace (32 * q + Z.to_nat (Z.of_nat p mod 32))%nat with p in U3 by lia. exact U3.
    + exact U6.
    + exact U8.
    + exact U9.
Qed.

(** ** Places in the file *)

Definition ok_buff (r : rd_state) : Prop := length (buff r) = 256%nat /\ Forall is_byte (buff r) /\ Forall is_byte (fpin r).

Lemma ok_reader_buff r : ok_reader r -> ok_buff r.
Proof. intros [_ _ _ [_ H1] [H2 H3]]. by split_and!. Qed.

Lemma ok_next_packet r : ok_buff r -> ok_buff (next_packet r).
Proof.
  intros (H1 & H2 & H3). split_and!; cbn [next_packet buff fpin].
  - rewrite length_app, length_drop, length_take, H1. change (Z.to_nat cppkt) with 256%nat. lia.
  - apply Forall_app. split; [by apply Forall_take|by apply Forall_drop].
  - by apply Forall_drop.
Qed.

(** All but the packet. *)
Definition same_position (r r' : rd_state) : Prop :=
  crt_ptr r' = crt_ptr r /\ getcode_bitposn r' = getcode_bitposn r /\ table_flag r' = table_flag r /\
  current_place r' = current_place r /\ bytestream_pickup r' = bytestream_pickup r.

Lemma read_lines_ok F n : forall s, holds F (rd s) -> ok_buff (rd s) ->
  exists r', read_lines n s = (Installer r' (nums s), Ok tt) /\ holds F r' /\ ok_buff r' /\ file_pkt r' = file_pkt (rd s) + Z.of_nat n /\ same_position (rd s) r'.
Proof.
  induction n as [|n IH]; intros s H1 H2.
  - exists (rd s). destruct s as [r k]. split; [reflexivity|]. cbn [rd] in *. unfold same_position. split_and!; auto; lia.
  - cbn [read_lines]. unfold read_line, mbind, stM_bind, get_rd, set_rd. rewrite andb_false_r. cbn [rd nums].
    destruct (IH (Installer (next_packet (rd s)) (nums s)) ltac:(by apply next_packet_holds) ltac:(by apply ok_next_packet)) as (r' & E & U1 & U2 & U3 & U4).
    exists r'. split; [exact E|]. split; [exact U1|]. split; [exact U2|]. split; [rewrite U3; cbn [rd next_packet file_pkt]; lia|]. exact U4.
Qed.

(** The bytes from one of the packet on. *)
Lemma file_bytes F k r : file_pkt r = Z.of_nat k -> holds F r -> length (buff r) = 256%nat -> forall c : nat, (c <= 256)%nat ->
  drop (256 * k + c) F `prefix_of` drop c (buff r) ++ fpin r.
Proof.
  intros Ek (k' & H1 & _ & H2 & H3) Hb c Hle. assert (k' = k) as -> by lia.
  rewrite <- drop_drop, H2. replace (256 * S k)%nat with (256 * k + 256)%nat by lia. rewrite <- drop_drop. set (G := drop (256 * k) F) in *.
  destruct (decide (length G <= 256)%nat) as [Hs|Hl].
  - rewrite take_ge in H3 by lia. rewrite (drop_ge G 256), app_nil_r by lia. destruct H3 as [x ->]. destruct (decide (c <= length G)%nat) as [Hcg|Hcg].
    + rewrite drop_app_le by lia. by eexists.
    + rewrite drop_ge by lia. apply prefix_nil.
  - assert (take 256 G = buff r) as <-; [|rewrite <- (take_drop 256 G) at 1; rewrite drop_app_le by (rewrite length_take; lia); reflexivity].
    destruct H3 as [x Hx]. destruct x; [by rewrite app_nil_r in Hx|]. apply (f_equal length) in Hx. rewrite Hb, length_app, length_take in Hx. cbn [length] in Hx. lia.
Qed.

Lemma file_beyond F k r : file_pkt r = Z.of_nat k -> holds F r -> ok_buff r -> table_flag r = false -> forall c : nat, crt_ptr r = Z.of_nat c -> (c <= 256)%nat ->
  bytes_bits (drop (256 * k + c) F) `prefix_of` beyond r.
Proof.
  intros Ek H (Hb & _) Ht c Hc Hle. unfold beyond, line. rewrite Ht, Hc, Nat2Z.id, <- bytes_bits_app. by apply bytes_bits_prefix, file_bytes.
Qed.

(** The packet [k] of [F] is in the buffer. *)
Definition file_part (F : list Z) (k : nat) (r : rd_state) : Prop :=
  file_pkt r = Z.of_nat k /\ fpin r = drop (256 * S k) F /\ take 256 (drop (256 * k) F) `prefix_of` buff r.

Lemma file_part_same F k r r' : same_file r r' -> file_part F k r -> file_part F k r'.
Proof. intros (E1 & E2 & E3) (H1 & H2 & H3). split_and!; congruence. Qed.

Lemma holds_part F k r : holds F r -> file_pkt r = Z.of_nat k -> file_part F k r.
Proof. intros (k' & H1 & _ & H2 & H3) E. assert (k' = k) as -> by lia. by split_and!. Qed.

Lemma set_place_file F k p s : file_part F k (rd s) -> ok_buff (rd s) -> (2048 * k <= p <= 8 * length F)%nat ->
  exists r', set_place (Place false [] (Z.of_nat p)) s = (Installer r' (nums s), Ok tt) /\ at_file F p r' /\
    current_place r' = current_place (rd s) /\ bytestream_pickup r' = bytestream_pickup (rd s).
Proof.
  intros H Hb Hp. pose proof H as [Hk _]. unfold set_place. unfold mbind at 1, stM_bind at 1, get_rd. cbn [flag pl_mem bits_on negb].
  destruct (posn_cases (Z.of_nat p) ltac:(lia)) as (P1 & P2 & P3). cbn zeta in *. set (posn' := if 32 - Z.of_nat p mod 32 =? 32 then 0 else 32 - Z.of_nat p mod 32) in *.
  change bppkt with 2048. change cppkt with 256. pose proof (Z.div_mod (Z.of_nat p) 32 ltac:(lia)) as Hdm. pose proof (Z.mod_pos_bound (Z.of_nat p) 32 ltac:(lia)) as Hm.
  set (j := (p / 2048)%nat). assert (Z.of_nat p / 2048 = Z.of_nat j) as Ej by (unfold j; by rewrite Nat2Z.inj_div). rewrite Ej.
  assert (2048 * j <= p < 2048 * j + 2048)%nat as Hj by (unfold j; pose proof (Nat.div_mod_eq p 2048); pose proof (Nat.mod_upper_bound p 2048); lia).
  set (q := (p / 32)%nat). assert (Z.of_nat p / 32 = Z.of_nat q) as Eq by (unfold q; by rewrite Nat2Z.inj_div). rewrite Eq in *.
  assert (64 * j <= q < 64 * j + 64)%nat as Hq by lia. unfold set_rd, mbind, stM_bind. cbn [nums].
  set (r0 := RdState _ _ _ _ _ _ _ _ _ _ _). assert (holds F r0) as H0 by (destruct H as (A1 & A3 & A4); exists k; by split_and!).
  destruct (read_lines_ok F (j - k) (Installer r0 (nums s)) H0 Hb) as (r1 & E1 & H1 & B1 & K1 & S1 & S2 & S3 & S4 & S5). cbn [rd nums] in *.
  rewrite Hk. replace (Z.to_nat (Z.of_nat j - Z.of_nat k)) with (j - k)%nat by lia. rewrite E1. rewrite <- (S2 : getcode_bitposn r1 = posn').
  assert (file_pkt r1 = Z.of_nat j) as K2 by (rewrite K1; cbn [r0 file_pkt]; rewrite Hk; lia).
  set (c := (4 * (q - 64 * j))%nat). assert (crt_ptr r1 = Z.of_nat c) as Ec by (rewrite S1; cbn [r0 crt_ptr]; unfold c; lia).
  assert (line r1 = buff r1) as El by (unfold line; by rewrite S3). assert (length (line r1) = 256)%nat as Ell by (rewrite El; apply B1).
  assert (ok_reader r1) as O1 by (split; [rewrite S2; exact P1|exists (q - 64 * j)%nat; split; [exact Ec|unfold c in *; lia]|by exists 64%nat|rewrite El; split; apply B1|split; apply B1]).
  destruct (load_at (Installer r1 (nums s)) (drop (32 * q) (bytes_bits F))) as (r' & E & U1 & U2 & U3 & U4 & U5 & U6 & U7 & U8 & U9 & U10).
  - exact O1.
  - cbn [rd]. intros _. rewrite Ell, Ec. unfold c. lia.
  - cbn [rd]. replace (32 * q)%nat with (8 * (256 * j + c))%nat by (unfold c; lia). rewrite bytes_bits_drop. apply (file_beyond F j r1 K2 H1 B1 S3 c Ec). unfold c. lia.
  - cbn [rd]. rewrite (S2 : getcode_bitposn r1 = posn'), P2, length_drop, length_bytes_bits. lia.
  - cbn [rd nums] in *. rewrite (S2 : getcode_bitposn r1 = posn') in *. exists r'. split; [exact E|]. rewrite P2 in *. rewrite Ec in U10. destruct U6 as (V1 & V2 & V3).
    destruct H1 as (j' & A1 & A2 & A3 & A4). assert (j' = j) as -> by lia. split; [|split; [by rewrite U8|by rewrite U9]]. split.
    + exact U1.
    + exact U2.
    + by rewrite U4.
    + exists j. rewrite V1, V2, V3, U7. auto.
    + unfold position. rewrite U4, S3, U7, A2. cbn [r0 table_flag]. unfold bppkt, bpby, cppkt, c in *. lia.
    + rewrite drop_drop in U3. replace (32 * q + Z.to_nat (Z.of_nat p mod 32))%nat with p in U3 by lia. exact U3.
    + lia.
Qed.

Lemma keep_place_file F p r : at_file F p r -> keep_place_of r = Place false [] (Z.of_nat p).
Proof. intros [_ _ Ht _ Hp _ _]. unfold keep_place_of, position in *. rewrite Ht in *. by rewrite Hp. Qed.

(** Displacements in bits that are [int]s. *)
Lemma int_value_ok v s : -2147483648 <= v < 2147483648 -> int_value v s = (s, Ok v).
Proof.
  intros H. unfold int_value, int_ok. destruct (Z.leb_spec (-2147483648) v), (Z.ltb_spec v 2147483648); try lia. reflexivity.
Qed.

Lemma add_place_ok pl n s : -2147483648 <= bits_on pl + n < 2147483648 ->
  add_place pl n s = (s, Ok (Place (flag pl) (pl_mem pl) (bits_on pl + n))).
Proof. intros H. unfold add_place. by rewrite (stM_bind_ok _ _ _ _ _ (int_value_ok _ _ H)). Qed.

(** A file whose bits an [int] can count, with some to spare. *)
Definition small_file (F : list Z) : Prop := Z.of_nat (length F) < 268435448.

Lemma at_file_packet F p r : at_file F p r -> exists k c : nat, file_pkt r = Z.of_nat k /\ pkt_index r = Z.of_nat k /\ crt_ptr r = Z.of_nat (4 * c) /\ (4 * c <= 256)%nat /\ (2048 * k <= p)%nat.
Proof.
  intros [H1 H2 Ht (k & K1 & K2 & _) Hp _ _]. destruct (or_ptr _ H1) as (c & Hc & Hl). pose proof (or_buff _ H1) as [Hb _]. unfold line in Hl. rewrite Ht, Hb in Hl.
  exists k, c. split_and!; auto. unfold position, word_in in *. rewrite Ht, K2 in Hp. unfold bppkt, bpby, cppkt in Hp. lia.
Qed.

Lemma keep_place_ok F p s : small_file F -> at_file F p (rd s) -> keep_place s = (s, Ok (keep_place_of (rd s))).
Proof.
  intros HF H. destruct (at_file_packet F p _ H) as (k & c & _ & _ & Hc & Hc4 & _). pose proof (af_in _ _ _ H). unfold small_file in HF.
  unfold keep_place, mbind at 1, stM_bind at 1, get_rd. rewrite (keep_place_file F p _ H). cbn [bits_on].
  rewrite (stM_bind_ok _ _ _ _ _ (int_value_ok (crt_ptr (rd s) * 8) s ltac:(lia))), (stM_bind_ok _ _ _ _ _ (int_value_ok (Z.of_nat p) s ltac:(lia))).
  reflexivity.
Qed.

(** ** Copies in memory *)

Lemma window {A} (X Y : list A) b n : X `prefix_of` Y -> (b + n <= length X)%nat -> take n (drop b X) = take n (drop b Y).
Proof. intros H Hl. apply take_prefix; [apply drop_prefix; [exact H|lia]|rewrite length_drop; lia]. Qed.

Lemma refill_copy F k c s : file_pkt (rd s) = Z.of_nat k -> holds F (rd s) -> ok_buff (rd s) -> table_flag (rd s) = false -> crt_ptr (rd s) = Z.of_nat c -> (c <= 256)%nat ->
  (c = 256%nat -> (256 * S k < length F)%nat) ->
  exists r' (k' c' : nat), refill s = (Installer r' (nums s), Ok tt) /\ file_pkt r' = Z.of_nat k' /\ holds F r' /\ ok_buff r' /\ table_flag r' = false /\ crt_ptr r' = Z.of_nat c' /\
    (c' < 256)%nat /\ (256 * k' + c' = 256 * k + c)%nat /\ bytestream_pickup r' = bytestream_pickup (rd s).
Proof.
  intros Hk Hh Hb Ht Hc Hle Hmore. unfold refill, mbind, stM_bind, get_rd. rewrite Ht. cbn [negb andb]. destruct (Z.eqb_spec (crt_ptr (rd s)) cppkt) as [E|E].
  - unfold cppkt in E. assert (c = 256%nat) as -> by lia. specialize (Hmore eq_refl). unfold read_line, mbind, stM_bind, get_rd, set_rd.
    rewrite bool_decide_false. 2: { destruct Hh as (k' & K1 & _ & -> & _). intros E0. apply (f_equal length) in E0. rewrite length_drop in E0. cbn [length] in E0. lia. }
    cbn [andb rd nums]. pose proof (next_packet_holds F _ Hh) as Hh'. exists (with_ptr (next_packet (rd s)) 0), (S k), 0%nat. split; [reflexivity|].
    split_and!; try done; try lia; [cbn [with_ptr next_packet file_pkt]; lia|by apply (ok_next_packet (rd s))].
  - exists (rd s), k, c. destruct s as [r m]. cbn [rd nums] in *. unfold cppkt in E. split_and!; auto; lia.
Qed.

Lemma read_chars_ok F n : forall k c s, file_pkt (rd s) = Z.of_nat k -> holds F (rd s) -> ok_buff (rd s) -> table_flag (rd s) = false -> crt_ptr (rd s) = Z.of_nat c -> (c <= 256)%nat ->
  (forall j, (256 * k + c <= 256 * j < 256 * k + c + n)%nat -> (256 * j < length F)%nat) ->
  exists r' l (k' : nat), read_chars n s = (Installer r' (nums s), Ok l) /\ length l = n /\ Forall is_byte l /\ take n (drop (256 * k + c) F) `prefix_of` l /\
    file_pkt r' = Z.of_nat k' /\ holds F r' /\ ok_buff r' /\ (k' = k \/ 256 * k' < 256 * k + c + n)%nat /\ bytestream_pickup r' = bytestream_pickup (rd s).
Proof.
  induction n as [|n IH]; intros k c s Hk Hh Hb Ht Hc Hle Hmore.
  - exists (rd s), [], k. destruct s as [r m]. cbn [rd nums] in *. split_and!; auto.
  - cbn [read_chars]. destruct (refill_copy F k c s Hk Hh Hb Ht Hc Hle) as (r1 & k1 & c1 & E1 & Hk1 & Hh1 & Hb1 & Ht1 & Hc1 & Hle1 & Eq & Hpu).
    { intros ->. apply Hmore. lia. }
    rewrite (stM_bind_ok _ _ _ _ _ E1). unfold mbind at 1, stM_bind at 1, get_rd. cbn [rd]. rewrite Hc1, (proj2 (Z.ltb_ge _ _)), Nat2Z.id by lia.
    destruct Hb1 as (B1 & B2 & B3). destruct (lookup_lt_is_Some_2 (buff r1) c1 ltac:(lia)) as [x Hx]. rewrite Hx. unfold set_rd. unfold mbind at 1, stM_bind at 1. cbn [nums].
    destruct (IH k1 (S c1) (Installer (with_ptr r1 (Z.of_nat c1 + 1)) (nums s)) Hk1 Hh1 ltac:(by split_and!) Ht1) as (r2 & l & k2 & E2 & Hl & Hby & Hpre & Hk2 & Hh2 & Hb2 & Hlt & Hpu2).
    { cbn [rd with_ptr crt_ptr]. lia. } { lia. } { intros j Hj. apply Hmore. lia. }
    rewrite (stM_bind_ok _ _ _ _ _ E2). exists r2, (x :: l), k2. split; [reflexivity|]. split; [cbn [length]; lia|]. split; [constructor; [exact (Forall_lookup_1 _ _ _ _ B2 Hx)|exact Hby]|].
    split; [|split_and!; auto; [lia|cbn [rd with_ptr bytestream_pickup] in Hpu2; congruence]].
    pose proof (file_bytes F k1 r1 Hk1 Hh1 B1 c1 ltac:(lia)) as Hf. rewrite (drop_S _ _ _ Hx) in Hf. rewrite <- Eq. destruct (drop (256 * k1 + c1) F) as [|y D] eqn:ED; [apply prefix_nil|].
    cbn [app] in Hf. pose proof (prefix_cons_inv_1 _ _ _ _ Hf) as ->. cbn [take]. apply prefix_cons. replace (256 * k1 + S c1)%nat with (256 * k1 + c1 + 1)%nat in Hpre by lia.
    rewrite <- drop_drop, ED in Hpre. exact Hpre.
Qed.

(** The copy of some bits that the file has. *)
Lemma new_place_file F p n s : small_file F -> at_file F p (rd s) -> (p + n <= 8 * length F)%nat ->
  exists r' mem (b k : nat), new_place (Z.of_nat n) s = (Installer r' (nums s), Ok (Place true mem (Z.of_nat b))) /\ words_mem mem /\ (b + n <= 8 * length mem)%nat /\
    take n (drop b (bytes_bits mem)) = take n (drop p (bytes_bits F)) /\ (b mod 8 = p mod 8)%nat /\ file_part F k r' /\ ok_buff r' /\ (2048 * k <= p + n)%nat /\
    bytestream_pickup r' = bytestream_pickup (rd s).
Proof.
  intros HF H Hn. unfold small_file in HF. destruct (at_file_packet F p _ H) as (k & w & K1 & K2 & Hw & Hw4 & Hkp). destruct H as [H1 H2 H3 H4 H5 _ _].
  pose proof (or_posn _ H1) as Hposn. unfold position in H5. rewrite H3, K2, Hw in H5. unfold word_in in H2. rewrite Hw in H2. unfold bppkt, bpby, cppkt in H5.
  unfold new_place. unfold mbind at 1, stM_bind at 1, get_rd. rewrite H3. cbn [negb]. set (r := rd s) in *. set (posn := getcode_bitposn r) in *.
  set (b := if posn =? 0 then 0 else 32 - posn). set (c := (if (0 <? posn)%Z then 4 * w - 4 else 4 * w)%nat).
  assert (0 <= b < 32 /\ Z.of_nat p = 8 * Z.of_nat (256 * k + c) + b /\ exists w', c = (4 * w')%nat) as (Hb & Hp & w' & Hw').
  { unfold b, c. destruct (Z.eqb_spec posn 0), (Z.ltb_spec 0 posn); try lia; (split; [lia|split; [lia|]]); [by exists w|exists (w - 1)%nat; lia]. }
  rewrite (stM_bind_ok _ _ _ _ _ (int_value_ok (b + Z.of_nat n + 31) s ltac:(lia))). set (m := ((b + Z.of_nat n + 31) / 32)). assert (32 * m <= b + Z.of_nat n + 31 < 32 * m + 32) as Hm by (unfold m; pose proof (Z.div_mod (b + Z.of_nat n + 31) 32 ltac:(lia)); pose proof (Z.mod_pos_bound (b + Z.of_nat n + 31) 32 ltac:(lia)); lia).
  set (M := (4 * Z.to_nat m)%nat). replace (Z.to_nat (m * 4)) with M by (unfold M; lia). unfold set_rd. unfold mbind at 1, stM_bind at 1.
  set (r1 := if 0 <? posn then with_ptr r (crt_ptr r - 4) else r).
  assert (file_pkt r1 = Z.of_nat k /\ holds F r1 /\ ok_buff r1 /\ table_flag r1 = false /\ crt_ptr r1 = Z.of_nat c /\ bytestream_pickup r1 = bytestream_pickup r) as (A1 & A2 & A3 & A4 & A5 & A6).
  { pose proof (ok_reader_buff _ H1) as HB. unfold r1, c. destruct (Z.ltb_spec 0 posn); split_and!; auto. cbn [with_ptr crt_ptr]. lia. }
  destruct (read_chars_ok F M k c (Installer r1 (nums s)) A1 A2 A3 A4 A5) as (r' & mem & k' & E & L1 & L2 & L3 & L4 & L5 & L6 & L7 & L8).
  { unfold c. destruct (0 <? posn); lia. } { intros j Hj. unfold M in Hj. lia. }
  cbn [nums rd] in *. rewrite (stM_bind_ok _ _ _ _ _ E). exists r', mem, (Z.to_nat b), k'. rewrite Z2Nat.id by lia. split; [reflexivity|].
  split; [split; [exists (Z.to_nat m); exact L1|exact L2]|]. split; [rewrite L1; unfold M; lia|]. split; [|split; [|split_and!; auto; [by apply holds_part|unfold M in L7; lia|congruence]]].
  2: { assert (p = Z.to_nat b + (256 * k + c) * 8)%nat as -> by lia. symmetry. apply Nat.Div0.mod_add. }
  assert (length F - (256 * k + c) >= 0)%nat by lia.
  rewrite <- (window (bytes_bits (take M (drop (256 * k + c) F)))); [|by apply bytes_bits_prefix|rewrite length_bytes_bits, length_take, length_drop; unfold M; lia].
  rewrite (window _ (bytes_bits (drop (256 * k + c) F))); [|apply bytes_bits_prefix, prefix_take|rewrite length_bytes_bits, length_take, length_drop; unfold M; lia].
  rewrite <- bytes_bits_drop, drop_drop. do 2 f_equal. lia.
Qed.

Lemma at_file_part F p r : at_file F p r -> exists k, file_part F k r /\ (2048 * k <= p)%nat.
Proof. intros H. destruct (at_file_packet F p r H) as (k & _ & K1 & _ & _ & _ & Hk). exists k. split; [apply holds_part; [apply H|exact K1]|exact Hk]. Qed.

(** ** Streams *)

(** After a jump forward in the file. *)
Lemma skip_file F p n s : small_file F -> at_file F p (rd s) -> (p + n <= 8 * length F)%nat ->
  exists r', (pl ← add_place (keep_place_of (rd s)) (Z.of_nat n); set_place pl) s = (Installer r' (nums s), Ok tt) /\ at_file F (p + n) r' /\
    bytestream_pickup r' = bytestream_pickup (rd s).
Proof.
  intros HF H Hn. unfold small_file in HF. rewrite (keep_place_file F p _ H), (stM_bind_ok _ _ _ _ _ (add_place_ok (Place false [] (Z.of_nat p)) (Z.of_nat n) s ltac:(cbn; lia))). cbn [flag pl_mem bits_on].
  rewrite <- Nat2Z.inj_add. destruct (at_file_part F p _ H) as (k & Hk & Hp). destruct (set_place_file F k (p + n) s Hk (ok_reader_buff _ (af_ok _ _ _ H)) ltac:(lia)) as (r' & E & U1 & _ & U2). eauto.
Qed.

(** From any place back to one that is not before the packet in the buffer. *)
Lemma return_file F k p r s : at_file F p r -> file_part F k (rd s) -> ok_buff (rd s) -> (2048 * k <= p)%nat ->
  exists r', set_place (keep_place_of r) s = (Installer r' (nums s), Ok tt) /\ at_file F p r'.
Proof.
  intros H Hk Hb Hp. rewrite (keep_place_file F p _ H). destruct (set_place_file F k p s Hk Hb) as (r' & E & U1 & _); [split; [exact Hp|apply (af_in _ _ _ H)]|]. eauto.
Qed.

Lemma d_bitstream_ok F p s n stream rest : small_file F -> at_file F p (rd s) -> drop p (bytes_bits F) = tdfint_bits n ++ stream ++ rest -> Z.of_nat (length stream) = n -> n < 2147483648 ->
  exists r' mem b, d_bitstream s = (Installer r' (nums s), Ok (Place true mem (Z.of_nat b))) /\ at_file F (p + length (tdfint_bits n) + length stream) r' /\
    words_mem mem /\ (b + length stream <= 8 * length mem)%nat /\ take (length stream) (drop b (bytes_bits mem)) = stream /\
    (b mod 8 = (p + length (tdfint_bits n)) mod 8)%nat.
Proof.
  intros HF H E Hn Hs. destruct (file_reads _ _ n F p s (stream ++ rest) (small_dtdfint_ok n ltac:(lia)) H E) as (r1 & E1 & H1 & _). unfold fmt_int in *.
  set (q := (p + length (tdfint_bits n))%nat) in *. assert (drop q (bytes_bits F) = stream ++ rest) as Eq by (by apply drop_eq_app).
  assert (q + length stream <= 8 * length F)%nat as Hq by (apply (f_equal length) in Eq; rewrite length_drop, length_bytes_bits, length_app in Eq; pose proof (af_in _ _ _ H1); lia).
  destruct (new_place_file F q (length stream) (Installer r1 (nums s)) HF H1 Hq) as (r2 & mem & b & k & E2 & M1 & M2 & M3 & M4 & M5 & M6 & M7 & M8). cbn [rd nums] in *.
  rewrite Hn in E2. unfold d_bitstream. rewrite (stM_bind_ok _ _ _ _ _ E1). rewrite (stM_bind_ok _ _ _ _ _ (keep_place_ok F q (Installer r1 (nums s)) HF H1)). cbn [rd]. unfold small_file in HF.
  rewrite (stM_bind_ok _ _ _ _ _ E2). rewrite (keep_place_file F q _ H1), (stM_bind_ok _ _ _ _ _ (add_place_ok (Place false [] (Z.of_nat q)) n _ ltac:(cbn; lia))). cbn [flag pl_mem bits_on].
  rewrite <- Hn, <- Nat2Z.inj_add. destruct (set_place_file F k (q + length stream) (Installer r2 (nums s)) M5 M6 ltac:(lia)) as (r3 & E3 & H3 & _).
  cbn [nums] in E3. rewrite (stM_bind_ok _ _ _ _ _ E3). exists r3, mem, b. split; [reflexivity|]. split; [exact H3|]. split; [exact M1|]. split; [exact M2|].
  split; [|exact M4]. by rewrite M3, Eq, take_app_length.
Qed.

(** C13: a stream of bits in a file of less than 2^28 - 8 bytes, whose bits an
    [int] counts, is copied: the reader is then behind it.
    From wherever the reader is sent, it can be set to the copy, where the
    bits of the stream follow, with the alignment they have in the file, and it
    can be sent back to where it was in the file. *)
Theorem d_bitstream_exact F p s n stream rest : small_file F -> at_file F p (rd s) -> drop p (bytes_bits F) = tdfint_bits n ++ stream ++ rest ->
  Z.of_nat (length stream) = n -> n < 2147483648 ->
  let q := (p + length (tdfint_bits n))%nat in
  exists r' pl, d_bitstream s = (Installer r' (nums s), Ok pl) /\ at_file F (q + length stream) r' /\
    forall s2, same_file r' (rd s2) -> ok_reader (rd s2) ->
      (exists r3, set_place pl s2 = (Installer r3 (nums s2), Ok tt) /\ upcoming r3 stream /\ at_format r3 q /\ table_flag r3 = true /\ same_file r' r3) /\
      (exists r3, set_place (keep_place_of r') s2 = (Installer r3 (nums s2), Ok tt) /\ at_file F (q + length stream) r3).
Proof.
  intros HF H E Hn Hs q. destruct (d_bitstream_ok F p s n stream rest HF H E Hn Hs) as (r' & mem & b & E1 & H1 & M1 & M2 & M3 & M4). fold q in H1, M4.
  exists r', (Place true mem (Z.of_nat b)). split; [exact E1|]. split; [exact H1|]. intros s2 Hf Ho. split.
  - destruct (set_place_mem mem b s2 M1 ltac:(lia) Ho) as (r3 & E3 & [U1 U2 U3 U4 U5 U6] & S1 & _). exists r3. split; [exact E3|]. split; [|split; [|split; [exact U3|]]].
    + split; [exact U1|]. etransitivity; [|exact U6]. rewrite <- M3 at 1. apply prefix_take.
    + unfold at_format. rewrite U5. change 8 with (Z.of_nat 8). rewrite <- !Nat2Z.inj_mod. by rewrite M4.
    + destruct Hf as (? & ? & ?), S1 as (? & ? & ?). split_and!; congruence.
  - destruct (at_file_part F _ _ H1) as (k & Hk & Hp). apply (return_file F k _ r' s2 H1); [by eapply file_part_same|by apply ok_reader_buff|exact Hp].
Qed.

Lemma bytestream_head F p s n contents rest : at_file F p (rd s) -> 0 <= n < 2147483648 ->
  drop p (bytes_bits F) = tdfint_bits n ++ fmt_align (p + length (tdfint_bits n))%nat ++ bytes_bits contents ++ rest ->
  let q := (p + length (tdfint_bits n) + length (fmt_align (p + length (tdfint_bits n))%nat))%nat in
  exists r1 r2, small_dtdfint s = (Installer r1 (nums s), Ok n) /\ to_boundary (Installer r1 (nums s)) = (Installer r2 (nums s), Ok tt) /\ at_file F q r2 /\
    drop q (bytes_bits F) = bytes_bits contents ++ rest.
Proof.
  intros H Hn E q. destruct (file_reads _ _ n F p s _ (small_dtdfint_ok n Hn) H E) as (r1 & E1 & H1 & _).
  destruct (file_reads _ _ tt F _ (Installer r1 (nums s)) _ to_boundary_ok H1 (drop_eq_app _ _ _ _ E)) as (r2 & E2 & H2 & _).
  exists r1, r2. split; [exact E1|]. split; [exact E2|]. split; [exact H2|]. apply (drop_eq_app _ _ _ _ (drop_eq_app _ _ _ _ E)).
Qed.

(** A stream of bytes is passed over, to the bit behind it; or it is
    started, whatever is then read from it, or from memory, and ended, which
    sends the reader to the same place. *)
Theorem bytestream_exact F p s n contents rest : small_file F -> at_file F p (rd s) -> 0 <= n < 2147483648 -> Z.of_nat (length contents) = n ->
  drop p (bytes_bits F) = tdfint_bits n ++ fmt_align (p + length (tdfint_bits n))%nat ++ bytes_bits contents ++ rest ->
  let q := (p + length (tdfint_bits n) + length (fmt_align (p + length (tdfint_bits n))%nat))%nat in
  (exists r', ignore_bytestream s = (Installer r' (nums s), Ok tt) /\ at_file F (q + 8 * length contents) r') /\
  (exists r', start_bytestream s = (Installer r' (nums s), Ok tt) /\ at_file F q r' /\
    forall s2 k, bytestream_pickup (rd s2) = bytestream_pickup r' -> file_part F k (rd s2) -> (2048 * k <= q + 8 * length contents)%nat -> ok_buff (rd s2) ->
      exists r2, end_bytestream s2 = (Installer r2 (nums s2), Ok tt) /\ at_file F (q + 8 * length contents) r2).
Proof.
  intros HF H Hn Hc E q. destruct (bytestream_head F p s n contents rest H Hn E) as (r1 & r2 & E1 & E2 & H2 & Eq). fold q in H2, Eq.
  assert (q + 8 * length contents <= 8 * length F)%nat as Hq.
  { apply (f_equal length) in Eq. rewrite length_drop, length_app, !length_bytes_bits in Eq. pose proof (af_in _ _ _ H2). lia. }
  assert (n * 8 = Z.of_nat (8 * length contents)) as En by lia. pose proof HF as HF'. unfold small_file in HF'. split.
  - unfold ignore_bytestream. rewrite (stM_bind_ok _ _ _ _ _ E1), (stM_bind_ok _ _ _ _ _ E2). rewrite (stM_bind_ok _ _ _ _ _ (keep_place_ok F q (Installer r2 (nums s)) HF H2)). cbn [rd].
    rewrite En, (stM_bind_ok _ _ _ _ _ (int_value_ok (Z.of_nat (8 * length contents)) _ ltac:(lia))). destruct (skip_file F q (8 * length contents) (Installer r2 (nums s)) HF H2 Hq) as (r3 & E3 & H3 & _). cbn [rd nums] in E3. rewrite E3. eauto.
  - unfold start_bytestream. rewrite (stM_bind_ok _ _ _ _ _ E1), (stM_bind_ok _ _ _ _ _ E2). rewrite (stM_bind_ok _ _ _ _ _ (keep_place_ok F q (Installer r2 (nums s)) HF H2)). cbn [rd].
    rewrite En, (stM_bind_ok _ _ _ _ _ (int_value_ok (Z.of_nat (8 * length contents)) _ ltac:(lia))), (keep_place_file F q _ H2),
      (stM_bind_ok _ _ _ _ _ (add_place_ok (Place false [] (Z.of_nat q)) (Z.of_nat (8 * length contents)) _ ltac:(cbn; lia))).
    unfold mbind, stM_bind, get_rd, set_rd. cbn [rd nums].
    eexists. split; [reflexivity|]. split; [destruct H2 as [[? ? ? ? ?] H2b H2c H2d H2e H2f H2g]; split; auto; by split|].
    intros s2 k Hpu Hk Hle Hb. unfold end_bytestream. unfold mbind, stM_bind, get_rd. rewrite Hpu. cbn [with_pickup bytestream_pickup].
    cbn [flag pl_mem bits_on]. rewrite <- Nat2Z.inj_add.
    destruct (set_place_file F k (q + 8 * length contents) s2 Hk Hb ltac:(lia)) as (r3 & E3 & H3 & _). eauto.
Qed.

(** ** Instances *)

Lemma demo_at_file l : (length l <= 256)%nat -> Forall is_byte l -> at_file l 0 (demo_packet l).
Proof.
  intros Hn Hl. pose proof (demo_packet_ok l Hn Hl) as H. assert (l `prefix_of` buff (demo_packet l)) as Hp by by eexists.
  split; [exact H|unfold word_in; cbn; lia|reflexivity| |reflexivity| |lia].
  - exists 0%nat. split_and!; [reflexivity|reflexivity|by rewrite drop_ge by lia|by rewrite drop_0, take_ge by lia].
  - unfold ahead, beyond. cbn [demo_packet getcode_bitposn crt_ptr table_flag fpin]. change (Z.to_nat 0) with 0%nat. cbn [bits_of_Z app]. rewrite drop_0, drop_0, app_nil_r.
    by apply bytes_bits_prefix.
Qed.

Lemma d_bitstream_exact_witness :
  let s := Installer (demo_packet [219; 0]) (Flpts [] 0 0) in
  exists r' pl r3, d_bitstream s = (Installer r' (nums s), Ok pl) /\
    set_place pl (Installer r' (nums s)) = (Installer r3 (nums s), Ok tt) /\ upcoming r3 [true; false; true; true; false].
Proof.
  intros s. destruct (d_bitstream_exact [219; 0] 0 s 5 [true; false; true; true; false] (replicate 7 false)) as (r' & pl & E & H & H2).
  - by vm_compute.
  - apply demo_at_file; [cbn; lia|repeat constructor; unfold is_byte; lia].
  - reflexivity.
  - reflexivity.
  - lia.
  - exists r', pl. destruct (H2 (Installer r' (nums s)) ltac:(by split_and!) (af_ok _ _ _ H)) as [(r3 & E3 & U & _) _]. exists r3. auto.
Defined.

Lemma bytestream_exact_witness :
  let s := Installer (demo_packet [160; 7; 9; 1]) (Flpts [] 0 0) in
  (exists r', ignore_bytestream s = (Installer r' (nums s), Ok tt) /\ at_file [160; 7; 9; 1] 24 r') /\
  exists r' r2, start_bytestream s = (Installer r' (nums s), Ok tt) /\ end_bytestream (Installer r' (nums s)) = (Installer r2 (nums s), Ok tt) /\ at_file [160; 7; 9; 1] 24 r2.
Proof.
  intros s. destruct (bytestream_exact [160; 7; 9; 1] 0 s 2 [7; 9] (bytes_bits [1])) as [H1 (r' & E & H2 & H3)].
  - by vm_compute.
  - apply demo_at_file; [cbn; lia|repeat constructor; unfold is_byte; lia].
  - lia.
  - reflexivity.
  - reflexivity.
  - split; [exact H1|]. destruct (at_file_part _ _ _ H2) as (k & Hk & Hle). cbn in Hle.
    destruct (H3 (Installer r' (nums s)) k eq_refl Hk ltac:(cbn; lia) (ok_reader_buff _ (af_ok _ _ _ H2))) as (r2 & E2 & H4). exists r', r2. auto.
Defined.
