(* ===== verification/TransFormats.v ===== *)
(** * TransFormats: identifiers and the header of a capsule

    d_tdfident and initreader of trans/src/common/reader/basicread.c read what
    the writers of TldIOSpec write. [qreads] is [ireads] for what starts and
    ends after a whole number of packets of four bits. *)
From Stdlib Require Import String.
From stdpp Require Import base list list_numbers gmap numbers.
From Stdlib Require Import ZArith Lia.
From S2P Require Import Prelude Codec ExdsString TldNameKey TldIOSpec TldCapsule TransFlpt TransNumbers TransNumbersSpec TransReader TransReaderSpec TransReaderInts TransReaderPlaces.

Definition quad (n : nat) : Prop := (n mod 4 = 0)%nat.

Lemma quad_add a b : quad a -> quad b -> quad (a + b).
Proof. unfold quad. intros Ha Hb. by rewrite Nat.Div0.add_mod, Ha, Hb. Qed.

Definition qreads {A} (m : M A) (f : format) (a : A) : Prop := forall s pos bs,
  quad pos -> at_format (rd s) pos -> upcoming (rd s) (f pos ++ bs) ->
  quad (length (f pos)) /\ exists r', m s = (Installer r' (nums s), Ok a) /\ upcoming r' bs /\ moved (length (f pos)) (rd s) r'.

Lemma qreads_ireads {A} (m : M A) f (a : A) : (forall pos, quad pos -> quad (length (f pos))) -> ireads m f a -> qreads m f a.
Proof. intros Hf H s pos bs Hq Hp Hu. split; [by apply Hf|by apply H]. Qed.

Lemma qreads_ret {A} (a : A) : qreads (mret a) fmt_nil a.
Proof. apply qreads_ireads; [done|apply ireads_ret]. Qed.

Lemma qreads_bind {A B} (m : M A) (g : A -> M B) f1 f2 a b : qreads m f1 a -> qreads (g a) f2 b -> qreads (x ← m; g x) (fmt_seq f1 f2) b.
Proof.
  intros H1 H2 s pos bs Hq Hp Hu. unfold fmt_seq in *. rewrite <- app_assoc in Hu. destruct (H1 s pos _ Hq Hp Hu) as (Q1 & r1 & E1 & U1 & M1).
  destruct (H2 (Installer r1 (nums s)) (pos + length (f1 pos))%nat bs ltac:(by apply quad_add) (moved_at _ _ _ _ M1 Hp) U1) as (Q2 & r2 & E2 & U2 & M2).
  rewrite length_app. split; [by apply quad_add|]. exists r2. rewrite (stM_bind_ok _ _ _ _ _ E1). split; [exact E2|]. split; [exact U2|]. by eapply moved_trans.
Qed.

Lemma qreads_fmt {A} (m : M A) f g (a : A) : (forall pos, quad pos -> f pos = g pos) -> qreads m f a -> qreads m g a.
Proof. intros E H s pos bs Hq Hp Hu. rewrite <- (E pos Hq) in *. by apply H. Qed.

Lemma qreads_map {A B} (m : M A) f a (g : A -> B) : qreads m f a -> qreads (x ← m; mret (g x)) f (g a).
Proof.
  intros H. eapply qreads_fmt; [|eapply qreads_bind; [exact H|apply qreads_ret]]. intros pos _. unfold fmt_seq, fmt_nil. by rewrite app_nil_r.
Qed.

Lemma quad_int n : 0 <= n -> quad (length (tdfint_bits n)).
Proof. intros H. destruct (tdfint_packets n H) as (l & d & _ & _ & _ & _ & ->). unfold quad. rewrite Nat.mul_comm. apply Nat.Div0.mod_mul. Qed.

Lemma quad_align pos : quad pos -> quad (length (fmt_align pos)).
Proof.
  unfold quad, fmt_align, pad_bits. rewrite length_replicate. intros H. pose proof (Nat.div_mod_eq pos 4) as E. rewrite H, Nat.add_0_r in E. rewrite E.
  assert (4 * (pos / 4) = 4 * ((pos / 4) mod 2) + (pos / 4 / 2) * 8)%nat as -> by (pose proof (Nat.div_mod_eq (pos / 4) 2); lia).
  rewrite Nat.Div0.mod_add. pose proof (Nat.mod_upper_bound (pos / 4) 2 ltac:(lia)). destruct ((pos / 4) mod 2)%nat as [|[|?]]; [reflexivity|reflexivity|lia].
Qed.

Lemma qreads_int n : 0 <= n < 2147483648 -> qreads small_dtdfint (fmt_int n) n.
Proof. intros H. apply qreads_ireads; [intros; apply quad_int; lia|by apply small_dtdfint_ok]. Qed.

Lemma qreads_tdfint junk n : 0 <= n < 4294967296 -> qreads (d_tdfint junk) (fmt_int n) (small_nat (s32 n)).
Proof. intros H. apply qreads_ireads; [intros; apply quad_int; lia|by apply d_tdfint_small]. Qed.

Lemma qreads_align : qreads to_boundary fmt_align tt.
Proof. apply qreads_ireads; [apply quad_align|apply to_boundary_ok]. Qed.

(** Items, one after the other. *)
Lemma qreads_list {A B} (get : M B) (f : A -> format) (g : A -> B) l : (forall a, a ∈ l -> qreads get (f a) (g a)) ->
  qreads (get_codes (length l) get) (fmt_list f l) (g <$> l).
Proof.
  induction l as [|a l IH]; intros H; [apply qreads_ret|]. cbn [length get_codes fmt_list foldr fmap list_fmap].
  eapply qreads_bind; [apply H; by left|]. apply (qreads_map (get_codes (length l) get) _ (g <$> l) (cons (g a))). apply IH. intros b Hb. apply H. by right.
Qed.

(** ** Identifiers *)

(** The string of some bytes. *)
Definition tdf_string (l : list Z) : tdfstring := TdfString 8 (Z.of_nat (length l)) l.

Lemma raw_list l pos : fmt_list (fun c _ => bits_of_Z 8 c) l pos = bytes_bits l.
Proof. revert pos. induction l as [|c l IH]; intros pos; [reflexivity|]. cbn [fmt_list foldr]. unfold fmt_seq. rewrite bytes_bits_cons. f_equal. apply IH. Qed.

Lemma qreads_codes l : Forall is_byte l -> qreads (get_codes (length l) (c ← getcode 8; mret (u8 c))) (fmt_raw l) l.
Proof.
  intros H. eapply qreads_fmt; [intros pos _; apply (raw_list l pos)|]. rewrite <- (list_fmap_id l) at 3. apply (qreads_list _ (fun c _ => bits_of_Z 8 c) id). intros c Hc.
  pose proof (proj1 (Forall_forall _ _) H c (proj1 (list_elem_of_In _ _) Hc)) as Hby. clear H Hc. 
  assert (qreads (getcode 8) (fun _ => bits_of_Z 8 c) c) as E.
  { apply qreads_ireads; [intros; by rewrite length_bits_of_Z|]. apply (ireads_getcode 8); [lia|exact Hby]. }
  apply (qreads_map (getcode 8) _ c u8) in E. rewrite (u8_small c Hby) in E. exact E.
Qed.

Definition ok_ident (l : list Z) : Prop := Forall is_byte l /\ Z.of_nat (length l) < 2147483648.

Lemma align_aligned pos n : fmt_align (pos + length (fmt_align pos) + 8 * n)%nat = [].
Proof.
  unfold fmt_align. pose proof (pad_aligned pos) as E. rewrite pad_bits_mod8 by exact E. unfold pad_bits. by rewrite Nat.mul_comm, Nat.Div0.mod_mul.
Qed.

Lemma qreads_ident l : ok_ident l -> qreads d_tdfident (fmt_string l) (tdf_string l).
Proof.
  intros [Hb Hl]. eapply qreads_fmt; [|unfold d_tdfident; eapply qreads_bind; [apply (qreads_int 8); lia|]; eapply qreads_bind; [apply (qreads_int (Z.of_nat (length l))); lia|];
    rewrite (proj2 (Z.ltb_ge _ _)), Nat2Z.id by lia; eapply qreads_bind; [apply qreads_align|]; eapply qreads_bind; [apply (qreads_codes l Hb)|]; eapply qreads_bind; [apply qreads_align|]; apply qreads_ret].
  intros pos _. unfold fmt_string, fmt_bytes, fmt_seq, fmt_nil, fmt_raw. cbn zeta. rewrite length_bytes_bits, !app_nil_r.
  by rewrite align_aligned, app_nil_r.
Qed.

(** ** The header *)

Lemma next_packet_start F r : ok_buff r -> Forall is_byte F ->
  let r0 := RdState (crt_ptr r) 0 (crt_bits r) (-1) false [] (-1) F (buff r) (current_place r) (bytestream_pickup r) in
  at_file F 0 (with_ptr (next_packet r0) 0).
Proof.
  intros (Hb1 & Hb2 & _) HF r0. set (r1 := with_ptr (next_packet r0) 0). assert (ok_buff r0) as H0 by (split_and!; auto). pose proof (ok_next_packet r0 H0) as (B1 & B2 & B3).
  assert (holds F r1) as Hh.
  { exists 0%nat. split_and!; [reflexivity|reflexivity|reflexivity|]. rewrite drop_0. by eexists. }
  assert (ok_reader r1) as Hok by (split; [cbn; lia|exists 0%nat; split; [reflexivity|lia]|exists 64%nat; exact B1|by split|by split]).
  split; [exact Hok|unfold word_in; cbn; lia|reflexivity|exact Hh|reflexivity| |lia].
  unfold ahead. change (bits_of_Z (Z.to_nat (getcode_bitposn r1)) (crt_bits r1)) with ([] : list bool). cbn [app]. rewrite drop_0.
  pose proof (file_beyond F 0 r1 eq_refl Hh ltac:(by split_and!) eq_refl 0%nat eq_refl ltac:(lia)) as Hx. exact Hx.
Qed.

Lemma check_magic_ok l : Forall is_byte l -> qreads (check_magic l) (fmt_raw l) tt.
Proof.
  intros H. eapply qreads_fmt; [intros pos _; apply (raw_list l pos)|]. induction H as [|c l Hc H IH]; [apply qreads_ret|]. cbn [check_magic fmt_list foldr].
  eapply qreads_bind; [apply qreads_ireads; [intros; by rewrite length_bits_of_Z|apply (ireads_getcode 8 c); [lia|exact Hc]]|].
  rewrite Z.eqb_refl. exact IH.
Qed.

Definition fmt_versions (major minor : Z) : format :=
  fmt_seq (fmt_raw (chars MAGIC_NUMBER)) (fmt_seq (fmt_int major) (fmt_seq (fmt_int minor) fmt_align)).

Lemma magic_bytes : Forall is_byte (chars MAGIC_NUMBER).
Proof. apply (bool_decide_eq_true_1 _). vm_compute. reflexivity. Qed.

(** [initreader] reads the front packet and then checks it. *)
Lemma initreader_start junk F s : ok_buff (rd s) -> Forall is_byte F -> F <> [] ->
  exists r0, initreader junk F s = check_magic_no junk (Installer r0 (nums s)) /\ at_file F 0 r0.
Proof.
  intros Hb HF Hne. eexists. split; [|by apply (next_packet_start F (rd s))].
  unfold initreader, read_line, mbind, stM_bind, get_rd, set_rd. cbn [rd nums fpin]. rewrite bool_decide_false by exact Hne. reflexivity.
Qed.

Lemma qreads_file {A} (m : M A) f (a : A) F p s bs : qreads m f a -> quad p -> at_file F p (rd s) -> drop p (bytes_bits F) = f p ++ bs ->
  exists r', m s = (Installer r' (nums s), Ok a) /\ at_file F (p + length (f p)) r' /\ quad (p + length (f p)).
Proof.
  intros Hm Hq H E. destruct (Hm s p bs Hq) as (Q & r' & E1 & U & Mv).
  - unfold at_format. by rewrite (af_position _ _ _ H).
  - split; [apply H|]. rewrite <- E. apply H.
  - exists r'. split; [exact E1|]. split; [by eapply at_file_moved|by apply quad_add].
Qed.

Lemma quad_raw l : quad (length (bytes_bits l)).
Proof. unfold quad. rewrite length_bytes_bits. replace (8 * length l)%nat with (2 * length l * 4)%nat by lia. apply Nat.Div0.mod_mul. Qed.

Lemma check_magic_fails ps l : forall s bs, Forall is_byte l -> length l = length ps -> l <> ps -> upcoming (rd s) (bytes_bits l ++ bs) ->
  (check_magic ps s).2 = Throw R_not_capsule.
Proof.
  revert ps. induction l as [|c l IH]; intros [|p ps] s bs Hl Hn Hne Hu; try discriminate; [done|]. inversion Hl as [|? ? Hc Hl']; subst. cbn [check_magic].
  rewrite bytes_bits_cons, <- app_assoc in Hu. destruct (ireads_getcode 8 c ltac:(lia) Hc s (Z.to_nat (position (rd s) mod 8)) _ ltac:(unfold at_format; rewrite Z2Nat.id by (apply Z.mod_pos_bound; lia); by rewrite Z.mod_mod) Hu) as (r' & E & U & _).
  change (Z.of_nat 8) with 8 in E. rewrite (stM_bind_ok _ _ _ _ _ E). destruct (Z.eqb_spec c p) as [->|H]; [|done]. apply (IH ps (Installer r' (nums s)) bs Hl'); [cbn in Hn; lia|congruence|exact U].
Qed.

(** The decision on the versions. *)
Lemma check_magic_no_ok junk F s major minor bs : at_file F 0 (rd s) -> 0 <= major < 2147483648 -> 0 <= minor < 4294967296 ->
  bytes_bits F = fmt_versions major minor 0%nat ++ bs ->
  if MAJOR_VERSION <? major then (check_magic_no junk s).2 = Throw R_later_version
  else if major <? MAJOR_VERSION then (check_magic_no junk s).2 = Throw R_earlier_version
  else exists r', check_magic_no junk s = (Installer r' (nums s), Ok tt) /\ at_file F (length (fmt_versions major minor 0%nat)) r' /\ quad (length (fmt_versions major minor 0%nat)).
Proof.
  intros H Hma Hmi E. unfold fmt_versions in E. unfold fmt_seq at 1 in E. rewrite <- app_assoc in E.
  destruct (qreads_file _ _ tt F 0 s _ (check_magic_ok _ magic_bytes) eq_refl H E) as (r1 & E1 & H1 & Q1). set (p1 := (0 + length (fmt_raw (chars MAGIC_NUMBER) 0))%nat) in *.
  assert (drop p1 (bytes_bits F) = fmt_seq (fmt_int major) (fmt_seq (fmt_int minor) fmt_align) p1 ++ bs) as Ep1 by (by apply (drop_eq_app 0)).
  unfold check_magic_no. rewrite (stM_bind_ok _ _ _ _ _ E1). pose proof Ep1 as Ep1'. unfold fmt_seq at 1 in Ep1'. rewrite <- app_assoc in Ep1'.
  destruct (qreads_file _ _ _ F p1 (Installer r1 (nums s)) _ (qreads_tdfint junk major ltac:(lia)) Q1 H1 Ep1') as (r2 & E2 & H2 & Q2).
  rewrite (stM_bind_ok _ _ _ _ _ E2). cbn [natint]. rewrite s32_small by lia. destruct (MAJOR_VERSION <? major); [done|]. destruct (major <? MAJOR_VERSION); [done|].
  assert (qreads (min ← d_tdfint junk; to_boundary) (fmt_seq (fmt_int minor) fmt_align) tt) as Hr by (eapply qreads_bind; [by apply qreads_tdfint; lia|apply qreads_align]).
  destruct (qreads_file _ _ _ F _ (Installer r2 (nums s)) bs Hr Q2 H2 ltac:(by apply drop_eq_app)) as (r3 & E3 & H3 & Q3). cbn [nums] in *. exists r3. split; [exact E3|].
  assert (length (fmt_versions major minor 0) = p1 + length (fmt_int major p1) + length (fmt_seq (fmt_int minor) fmt_align (p1 + length (fmt_int major p1))))%nat as ->; [|by split].
  unfold fmt_versions. unfold fmt_seq at 1 2. rewrite !length_app. unfold p1. cbn [Nat.add]. lia.
Qed.

Lemma initreader_magic junk F s l F' : ok_buff (rd s) -> Forall is_byte F -> F = l ++ F' -> length l = 4%nat -> l <> chars MAGIC_NUMBER ->
  (initreader junk F s).2 = Throw R_not_capsule.
Proof.
  intros Hb HF -> Hl Hne. destruct (initreader_start junk (l ++ F') s Hb HF ltac:(by destruct l)) as (r0 & -> & H0).
  pose proof (check_magic_fails (chars MAGIC_NUMBER) l (Installer r0 (nums s)) (bytes_bits F')) as H. unfold check_magic_no, mbind, stM_bind.
  destruct (check_magic (chars MAGIC_NUMBER) (Installer r0 (nums s))) as [s' x]. cbn [snd] in H. apply Forall_app in HF as [HF _]. rewrite H; [done|exact HF|by rewrite Hl|exact Hne|].
  split; [apply H0|]. rewrite <- bytes_bits_app. pose proof (af_ahead _ _ _ H0) as Ha. by rewrite drop_0 in Ha.
Qed.

(** C16: a file whose first four bytes are not the magic number is refused; of
    the others, those of a later major version and those of an earlier one, with
    the message of each; a capsule of the same major version is accepted, with
    the reader at the bit behind its header, the numbers as they were. *)
Theorem initreader_versions junk F s : ok_buff (rd s) -> Forall is_byte F ->
  (forall l F', F = l ++ F' -> length l = 4%nat -> l <> chars MAGIC_NUMBER -> (initreader junk F s).2 = Throw R_not_capsule) /\
  (forall major minor bs, 0 <= major < 2147483648 -> 0 <= minor < 4294967296 -> bytes_bits F = fmt_versions major minor 0%nat ++ bs ->
    if MAJOR_VERSION <? major then (initreader junk F s).2 = Throw R_later_version
    else if major <? MAJOR_VERSION then (initreader junk F s).2 = Throw R_earlier_version
    else exists r', initreader junk F s = (Installer r' (nums s), Ok tt) /\ at_file F (length (fmt_versions major minor 0%nat)) r').
Proof.
  intros Hb HF. split; [intros; by eapply initreader_magic|]. intros major minor bs Hma Hmi E.
  destruct (initreader_start junk F s Hb HF) as (r0 & -> & H0); [by intros ->|].
  pose proof (check_magic_no_ok junk F (Installer r0 (nums s)) major minor bs H0 Hma Hmi E) as H. destruct (MAJOR_VERSION <? major); [exact H|]. destruct (major <? MAJOR_VERSION); [exact H|].
  destruct H as (r' & E1 & H1 & _). eauto.
Qed.

Lemma initreader_versions_witness :
  let s := Installer (demo_packet []) (Flpts [] 0 0) in
  (initreader (fun _ => flt_zero) (chars "TDFL" ++ [201]) s).2 = Throw R_not_capsule /\
  (initreader (fun _ => flt_zero) (chars "TDFC" ++ [217]) s).2 = Throw R_later_version /\
  exists r', initreader (fun _ => flt_zero) (chars "TDFC" ++ [201]) s = (Installer r' (nums s), Ok tt) /\ at_file (chars "TDFC" ++ [201]) 40 r'.
Proof.
  assert (ok_buff (demo_packet [])) as Hb by (apply ok_reader_buff, demo_packet_ok; [cbn; lia|constructor]). split; [|split].
  - destruct (initreader_versions (fun _ => flt_zero) (chars "TDFL" ++ [201]) (Installer (demo_packet []) (Flpts [] 0 0)) Hb ltac:(apply (bool_decide_eq_true_1 _); vm_compute; reflexivity)) as [H _].
    apply (H (chars "TDFL") [201]); [reflexivity|reflexivity|discriminate].
  - destruct (initreader_versions (fun _ => flt_zero) (chars "TDFC" ++ [217]) (Installer (demo_packet []) (Flpts [] 0 0)) Hb ltac:(apply (bool_decide_eq_true_1 _); vm_compute; reflexivity)) as [_ H].
    apply (H 5 1 []); [lia|lia|]. vm_compute. reflexivity.
  - destruct (initreader_versions (fun _ => flt_zero) (chars "TDFC" ++ [201]) (Installer (demo_packet []) (Flpts [] 0 0)) Hb ltac:(apply (bool_decide_eq_true_1 _); vm_compute; reflexivity)) as [_ H].
    apply (H 4 1 []); [lia|lia|]. vm_compute. reflexivity.
Defined.
