(* ===== verification/TransCapsule.v ===== *)
(** * TransCapsule: the front part of a capsule, as the installers read it

    Models what trans/src/common/main/main.c (translate) does before the units:
    the names of the groups of units, the kinds of linkable entities with their
    numbers, the tables that start_make_capsule makes and the external names
    that are entered in them (trans/src/common/reader/decoder.c and
    read_fns.c, with diagnostics as in diag3). The fields of a table's entries that
    stay zero are left out. *)
From Stdlib Require Import String.
From stdpp Require Import base list list_numbers gmap numbers.
From Stdlib Require Import ZArith Lia.
From S2P Require Import Prelude TransFlpt TransNumbers ExdsString ExdsError TldCapsule TransReader.

Definition e_string_extern : Z := 1.
Definition e_unique_extern : Z := 2.
Definition e_chain_extern : Z := 3.

Record capsule_link := CapsuleLink { cl_id : tdfstring; cl_n : tdfint }.

(** [ext.isstring] says which one it is. *)
Inductive external := string_extern (id : tdfstring) | unique_extern (u : list tdfstring).

(** All zero. *)
Definition f_dummy_external : external := unique_extern [].

Inductive link_type := UNKNOWN_TYPE | TOK_TYPE | TAG_TYPE | AL_TYPE | DIAGTAG_TYPE | DGTAG_TYPE.

Record tok_define := TokDefine {
  tok_name : option (list Z);
  tok_special : bool;
  valpresent : bool;
  tok_unit_number : Z;
  defined : bool;
  tok_index : Z;
  is_capsule_token : bool;
  recursive : bool
}.

Record dec := Dec { dec_name : option (list Z); outermost : bool; extnamed : bool; have_def : bool; processed : bool; isweak : bool }.

Inductive aldef_state := ALDEF_NONE | ALDEF_VAL | ALDEF_JOINAB | ALDEF_JOINA.

Inductive diag_type_key :=
| DIAG_TYPE_UNINIT | DIAG_TYPE_ARRAY | DIAG_TYPE_BITFIELD | DIAG_TYPE_ENUM | DIAG_TYPE_FLOAT | DIAG_TYPE_LOC | DIAG_TYPE_PROC | DIAG_TYPE_PTR
| DIAG_TYPE_STRUCT | DIAG_TYPE_NULL | DIAG_TYPE_UNION | DIAG_TYPE_VARIETY | DIAG_TYPE_INITED.

Record diag_tagdef := DiagTagdef { ext_name : option (list Z); d_type_key : diag_type_key }.

(** [outref]: the label, when it is a string. *)
Record dgtag_struct := Dgtag { outref : option (list Z) }.

Record front := Front {
  fr_in : installer;
  crt_capsule_groups : list tdfstring;
  crt_capsule_linking : list capsule_link;
  capsule_toktab : list tok_define;
  capsule_tagtab : list dec;
  capsule_altab : list aldef_state;
  capsule_diag_tagtab : list diag_tagdef;
  capsule_dgtab : list dgtag_struct;
  crt_extern_link_type : link_type;
  number_errors : Z
}.

Definition C (A : Type) : Type := stM front read_error A.

Definition with_in (i : installer) (s : front) : front :=
  Front i (crt_capsule_groups s) (crt_capsule_linking s) (capsule_toktab s) (capsule_tagtab s) (capsule_altab s) (capsule_diag_tagtab s) (capsule_dgtab s)
    (crt_extern_link_type s) (number_errors s).
Definition with_toktab (t : list tok_define) (s : front) : front :=
  Front (fr_in s) (crt_capsule_groups s) (crt_capsule_linking s) t (capsule_tagtab s) (capsule_altab s) (capsule_diag_tagtab s) (capsule_dgtab s)
    (crt_extern_link_type s) (number_errors s).
Definition with_tagtab (t : list dec) (s : front) : front :=
  Front (fr_in s) (crt_capsule_groups s) (crt_capsule_linking s) (capsule_toktab s) t (capsule_altab s) (capsule_diag_tagtab s) (capsule_dgtab s)
    (crt_extern_link_type s) (number_errors s).
Definition with_diag_tagtab (t : list diag_tagdef) (s : front) : front :=
  Front (fr_in s) (crt_capsule_groups s) (crt_capsule_linking s) (capsule_toktab s) (capsule_tagtab s) (capsule_altab s) t (capsule_dgtab s)
    (crt_extern_link_type s) (number_errors s).
Definition with_dgtab (t : list dgtag_struct) (s : front) : front :=
  Front (fr_in s) (crt_capsule_groups s) (crt_capsule_linking s) (capsule_toktab s) (capsule_tagtab s) (capsule_altab s) (capsule_diag_tagtab s) t
    (crt_extern_link_type s) (number_errors s).
Definition with_link_type (t : link_type) (s : front) : front :=
  Front (fr_in s) (crt_capsule_groups s) (crt_capsule_linking s) (capsule_toktab s) (capsule_tagtab s) (capsule_altab s) (capsule_diag_tagtab s) (capsule_dgtab s)
    t (number_errors s).

Definition get_front : C front := fun s => (s, Ok s).
Definition put_front (s : front) : C unit := fun _ => (s, Ok tt).

(** An operation of the reader. *)
Definition on_reader {A} (m : M A) : C A := st_zoom fr_in with_in m.

(** An error of severity [ERR_INTERNAL], which the program survives. *)
Definition internal_error : C unit := fun s =>
  let n := number_errors s + 1 in
  (Front (fr_in s) (crt_capsule_groups s) (crt_capsule_linking s) (capsule_toktab s) (capsule_tagtab s) (capsule_altab s) (capsule_diag_tagtab s) (capsule_dgtab s)
     (crt_extern_link_type s) n, if Z.of_nat maximum_errors <=? n then Throw R_too_many_errors else Ok tt).

(** ** Strings *)

(** The characters before the first zero. *)
Fixpoint until_zero (l : list Z) : list Z :=
  match l with
  | [] => []
  | c :: l => if c =? 0 then [] else c :: until_zero l
  end.

Definition strcpy_at (p : nat) (cs res : list Z) : option (list Z) :=
  if (length res <? p + length cs)%nat then None else Some (take p res ++ cs ++ drop (p + length cs) res).

Section Capsule.
Variable junk : nat -> flt.
(** The order of the bytes of a [short] and of an [int]. *)
Variable big_endian : bool.
(** The tokens that are special to the machine. *)
Variable machine_toks : list Z -> bool.
Variables (do_alloca replace_arith_type : bool) (name_prefix : list Z).

(** The [n] bytes of a component. *)
Definition host_bytes (n : nat) (c : Z) : list Z :=
  let l := (fun i => u8 (Z.shiftr c (8 * Z.of_nat i))) <$> seq 0 n in if big_endian then reverse l else l.

(** [ints.chars], whatever the size is. *)
Definition char_bytes (t : tdfstring) : list Z :=
  if size t <=? 8 then ints t else flat_map (host_bytes (if size t <=? 16 then 2 else 4)) (ints t).

Definition to_chars (t : tdfstring) : list Z := until_zero (char_bytes t).

Fixpoint copy_uniques (us : list tdfstring) (l : nat) (res : list Z) : option (list Z) :=
  match us with
  | [] => Some res
  | t :: us =>
      res ← strcpy_at l (to_chars t ++ [0]) res;
      let l := (l + Z.to_nat (number t * (size t / 8)))%nat in
      res ← strcpy_at l [85] res;
      copy_uniques us (S l) res
  end.

Definition external_to_string (ext : external) : option (list Z) :=
  match ext with
  | string_extern id => Some (to_chars id)
  | unique_extern u =>
      let l := (length u + sum_list_with (fun t => Z.to_nat (number t * (size t / 8))) u)%nat in
      res ← copy_uniques u 0 (replicate (l + 1) 0);
      Some (until_zero res)
  end.

Definition add_prefix (s : list Z) : list Z := name_prefix ++ s.

(** ** Lists *)

Definition d_tdfident_list : M (list tdfstring) :=
  n ← small_dtdfint;
  if n <? 0 then stops R_no_memory else get_codes (Z.to_nat n) d_tdfident.

Definition d_capsule_link : M capsule_link :=
  p0 ← d_tdfident;
  p1 ← d_tdfint junk;
  mret (CapsuleLink p0 p1).

Definition d_capsule_link_list : M (list capsule_link) :=
  n ← small_dtdfint;
  if n <? 0 then stops R_no_memory else get_codes (Z.to_nat n) d_capsule_link.

(** ** The tables *)

Definition c_streq (s : list Z) (name : string) : bool := bool_decide (s = chars name).

Fixpoint find_index (linking : list capsule_link) (name : string) : option capsule_link :=
  match linking with
  | [] => None
  | m :: linking => if c_streq (to_chars (cl_id m)) name then Some m else find_index linking name
  end.

Definition capsule_no_of (linking : list capsule_link) (name : string) : Z :=
  match find_index linking name with None => 0 | Some m => natint (cl_n m) end.

Definition links_type (s : list Z) : link_type :=
  if c_streq s "token" then TOK_TYPE
  else if c_streq s "tag" then TAG_TYPE
  else if c_streq s "alignment" then AL_TYPE
  else if c_streq s "diagtag" then DIAGTAG_TYPE
  else if c_streq s "dgtag" then DGTAG_TYPE
  else UNKNOWN_TYPE.

(** A new table. *)
Definition rf_xcalloc {A} (n : Z) (entry : nat -> A) : C (list A) :=
  if n <? 0 then fun s => (s, Throw R_no_memory) else mret (entry <$> seq 0 (Z.to_nat n)).

(** The entries of the tables as they are made; there is no unit yet. *)
Definition new_token (i : nat) : tok_define := TokDefine None false false (-1) false (Z.of_nat i) true false.
Definition new_tag : dec := Dec None false false false false false.

Definition start_make_capsule (prop_names : list tdfstring) (linking : list capsule_link) : C unit :=
  toktab ← rf_xcalloc (capsule_no_of linking "token") new_token;
  tagtab ← rf_xcalloc (capsule_no_of linking "tag") (fun _ => new_tag);
  altab ← rf_xcalloc (capsule_no_of linking "alignment") (fun _ => ALDEF_NONE);
  diag_tagtab ← rf_xcalloc (capsule_no_of linking "diagtag") (fun _ => DiagTagdef None DIAG_TYPE_INITED);
  dgtab ← rf_xcalloc (capsule_no_of linking "dgtag") (fun _ => Dgtag None);
  s ← get_front;
  put_front (Front (fr_in s) prop_names linking toktab tagtab altab diag_tagtab dgtab (crt_extern_link_type s) (number_errors s)).

(** ** External names *)

Definition d_external : C external :=
  code ← on_reader (get_big_code 2);
  if code =? e_string_extern then
    _ ← on_reader to_boundary;
    p0 ← on_reader d_tdfident;
    mret (string_extern p0)
  else if code =? e_unique_extern then
    _ ← on_reader to_boundary;
    p0 ← on_reader d_tdfident_list;
    mret (unique_extern p0)
  else if code =? e_chain_extern then
    _ ← on_reader to_boundary;
    p0 ← on_reader d_tdfident;
    p1 ← on_reader (d_tdfint junk);
    _ ← internal_error;
    mret f_dummy_external
  else fun s => (s, Throw R_illegal_code).

Definition change_at {A} (i : Z) (f : A -> A) (l : list A) : option (list A) :=
  if i <? 0 then None else x ← l !! Z.to_nat i; Some (<[Z.to_nat i := f x]> l).

(** Changes a table, with the name. *)
Definition enter (f : front -> list Z -> option front) (ext : external) : C unit := fun s =>
  match (name ← external_to_string ext; f s name) with Some s => (s, Ok tt) | None => (s, Throw R_memory) end.

Definition special_token (s : list Z) : bool :=
  machine_toks s ||
  (replace_arith_type && (c_streq s "~arith_type" || c_streq s "~promote" || c_streq s "~sign_promote" || c_streq s "~convert")) ||
  (do_alloca && c_streq s "~alloca").

Definition f_make_tokextern (internal : tdfint) (ext : external) : C unit :=
  enter (fun s name =>
    t ← change_at (natint internal) (fun t =>
      TokDefine (Some name) (tok_special t || special_token name) (valpresent t) (tok_unit_number t) (defined t) (tok_index t) (is_capsule_token t) (recursive t))
      (capsule_toktab s);
    Some (with_toktab t s)) ext.

Definition f_make_tagextern (internal : tdfint) (ext : external) : C unit :=
  enter (fun s name =>
    t ← change_at (natint internal) (fun d => Dec (Some (add_prefix name)) true true (have_def d) (processed d) (isweak d)) (capsule_tagtab s);
    Some (with_tagtab t s)) ext.

(** The external is taken for a string without a look at [isstring]. *)
Definition f_make_diagtagextern (internal : tdfint) (ext : external) : C unit :=
  match ext with
  | string_extern _ =>
      enter (fun s name =>
        t ← change_at (natint internal) (fun d => DiagTagdef (Some name) (d_type_key d)) (capsule_diag_tagtab s);
        Some (with_diag_tagtab t s)) ext
  | unique_extern _ => fun s => (s, Throw R_undefined)
  end.

Definition f_make_dgtagextern (internal : tdfint) (ext : external) : C unit :=
  enter (fun s name =>
    t ← change_at (natint internal) (fun _ => Dgtag (Some name)) (capsule_dgtab s);
    Some (with_dgtab t s)) ext.

Definition f_make_linkextern (internal : tdfint) (ext : external) : C unit :=
  s ← get_front;
  match crt_extern_link_type s with
  | TOK_TYPE => f_make_tokextern internal ext
  | TAG_TYPE => f_make_tagextern internal ext
  | AL_TYPE => mret tt
  | DIAGTAG_TYPE => f_make_diagtagextern internal ext
  | DGTAG_TYPE => f_make_dgtagextern internal ext
  | UNKNOWN_TYPE => internal_error
  end.

Definition d_linkextern : C unit :=
  p0 ← on_reader (d_tdfint junk);
  p1 ← d_external;
  f_make_linkextern p0 p1.

Definition d_extern_link : C unit :=
  n ← on_reader small_dtdfint;
  _ ← get_codes (Z.to_nat n) d_linkextern;
  mret tt.

(** The kind of the entities of the list [i], if there is such a kind. *)
Definition set_link_type (i : nat) : C unit :=
  s ← get_front;
  match crt_capsule_linking s !! i with
  | Some m => put_front (with_link_type (links_type (to_chars (cl_id m))) s)
  | None => mret tt
  end.

(** The rounds from [i] on. *)
Fixpoint extern_links (n i : nat) : C unit :=
  match n with
  | O => mret tt
  | S n =>
      _ ← d_extern_link;
      _ ← set_link_type (S i);
      extern_links n (S i)
  end.

Definition d_extern_link_list : C unit :=
  n ← on_reader small_dtdfint;
  _ ← set_link_type 0;
  extern_links (Z.to_nat n) 0.

(** A capsule up to its groups of units. *)
Definition d_capsule_front : C unit :=
  p0 ← on_reader d_tdfident_list;
  p1 ← on_reader d_capsule_link_list;
  _ ← start_make_capsule p0 p1;
  d_extern_link_list.

Definition start_flpt : M unit := fun s =>
  match init_flpt junk with Some (_, _, n) => (Installer (rd s) n, Ok tt) | None => (s, Throw R_memory) end.

(** The start of a translation: [f] are the bytes of the file. *)
Definition translate_front (f : list Z) : C unit :=
  _ ← on_reader (initreader junk f);
  _ ← on_reader start_flpt;
  d_capsule_front.
End Capsule.
