(* ===== verification/TransCapsuleSpec.v ===== *)
(** * TransCapsuleSpec: the front part of a capsule enters its names

    external_to_string of trans/src/common/reader/read_fns.c makes a string of
    an external name: a unique name is copied component by component.
    [csteps m f a s s']: the operation [m] of TransCapsule reads the format [f]
    from wherever it is, delivers [a] and takes the rest of the state from [s]
    to [s']. The names of a shape, in the formats of TldShapesSpec, are entered in
    the table of the shape. *)
From Stdlib Require Import String.
From stdpp Require Import base list list_numbers numbers.
From Stdlib Require Import ZArith Lia.
From S2P Require Import Prelude Codec ExdsString TldNameKey TldIOSpec TldNames TldShapes TldShapesSpec TldCapsule.
From S2P Require Import TransFlpt TransNumbers TransNumbersSpec TransReader TransReaderSpec TransReaderInts TransFormats TransCapsule.

(** The external name that the reader makes of a key of the linker. *)
Definition external_of (k : NameKeyT) : external :=
  match k with
  | KT_STRING s => string_extern (tdf_string (n_contents s))
  | KT_UNIQUE l => unique_extern ((fun s => tdf_string (n_contents s)) <$> l)
  end.

(** The string that the installer knows the entity by. *)
Definition installer_name (k : NameKeyT) : list Z :=
  match k with
  | KT_STRING s => until_zero (n_contents s)
  | KT_UNIQUE l => until_zero (flat_map (fun s => n_contents s ++ [85]) l)
  end.

Lemma until_zero_length l : (length (until_zero l) <= length l)%nat.
Proof. induction l as [|c l IH]; [done|]. cbn. destruct (c =? 0); cbn; lia. Qed.

(** Either there is no zero, or what follows it does not matter. *)
Lemma until_zero_cases l : (until_zero l = l /\ forall x, until_zero (l ++ x) = l ++ until_zero x) \/ ((length (until_zero l) < length l)%nat /\ forall x, until_zero (l ++ x) = until_zero l).
Proof.
  induction l as [|c l IH]; [by left|]. cbn. destruct (c =? 0); [right; split; [cbn; lia|done]|].
  destruct IH as [[E H]|[E H]]; [left|right]; split; try (intros x; by rewrite H); [by rewrite E|cbn; lia].
Qed.

(** The string with zeros up to the length of [l]. *)
Definition padded (l : list Z) : list Z := until_zero l ++ replicate (length l - length (until_zero l)) 0.

Lemma length_padded l : length (padded l) = length l.
Proof. unfold padded. rewrite length_app, length_replicate. pose proof (until_zero_length l). lia. Qed.

Lemma until_zero_fixed l : until_zero (until_zero l) = until_zero l.
Proof. induction l as [|c l IH]; [done|]. cbn. destruct (c =? 0) eqn:E; [done|]. cbn. by rewrite E, IH. Qed.

Lemma until_zero_padded l x y : until_zero x = until_zero y -> until_zero (padded l ++ x) = until_zero (l ++ y).
Proof.
  intros H. unfold padded. destruct (until_zero_cases l) as [[E Hl]|[E Hl]].
  - rewrite E, Nat.sub_diag, app_nil_r, !Hl. by rewrite H.
  - rewrite Hl. destruct (length l - length (until_zero l))%nat eqn:En; [lia|]. cbn [replicate]. rewrite <- app_assoc. cbn [app].
    destruct (until_zero_cases (until_zero l)) as [[_ Hc]|[Hc _]]; [|by rewrite until_zero_fixed in Hc; lia].
    rewrite Hc. cbn. apply app_nil_r.
Qed.

Lemma strcpy_at_end P cs k : (length cs <= k)%nat -> strcpy_at (length P) cs (P ++ replicate k 0) = Some (P ++ cs ++ replicate (k - length cs) 0).
Proof.
  intros H. unfold strcpy_at. rewrite length_app, length_replicate. rewrite (proj2 (Nat.ltb_ge _ _)) by lia.
  rewrite take_app_length, drop_app_ge by lia. by replace (length P + length cs - length P)%nat with (length cs) by lia; rewrite drop_replicate.
Qed.

Section Strings.
Context (big_endian : bool).

Lemma to_chars_tdf l : to_chars big_endian (tdf_string l) = until_zero l.
Proof. reflexivity. Qed.

Lemma copy_uniques_ok us : forall P k, (sum_list_with (fun l => S (length l)) us <= k)%nat ->
  copy_uniques big_endian (tdf_string <$> us) (length P) (P ++ replicate (S k) 0) =
    Some (P ++ flat_map (fun l => padded l ++ [85]) us ++ replicate (S k - sum_list_with (fun l => S (length l)) us) 0).
Proof.
  induction us as [|l us IH]; intros P k H; cbn [fmap list_fmap copy_uniques flat_map sum_list_with] in *; [by rewrite Nat.sub_0_r|].
  rewrite to_chars_tdf. pose proof (until_zero_length l) as Hc. rewrite strcpy_at_end by (rewrite length_app; cbn [length]; lia). cbn [mbind option_bind].
  cbn [size number tdf_string]. change (8 / 8) with 1. rewrite Z.mul_1_r, Nat2Z.id.
  assert (P ++ (until_zero l ++ [0]) ++ replicate (S k - length (until_zero l ++ [0])) 0 = (P ++ padded l) ++ replicate (S k - length l) 0) as ->.
  { rewrite <- !app_assoc. f_equal. unfold padded. rewrite <- app_assoc. f_equal. rewrite length_app. cbn [length]. change ([0]) with (replicate 1 0). rewrite <- !replicate_add. f_equal. lia. }
  assert (length P + length l = length (P ++ padded l))%nat as -> by (by rewrite length_app, length_padded).
  rewrite strcpy_at_end by (cbn [length]; lia). cbn [mbind option_bind length].
  replace (S (length (P ++ padded l))) with (length (P ++ padded l ++ [85])) by (rewrite !length_app; cbn [length]; lia).
  replace (S k - length l - 1)%nat with (S (k - S (length l))) by lia. rewrite (app_assoc (P ++ padded l)), <- (app_assoc P (padded l)).
  rewrite IH by lia. f_equal. rewrite <- !app_assoc. do 4 f_equal. f_equal. lia.
Qed.

Lemma external_to_string_ok k : external_to_string big_endian (external_of k) = Some (installer_name k).
Proof.
  destruct k as [s|l]; cbn [external_of external_to_string installer_name]; [reflexivity|].
  assert ((fun s => tdf_string (n_contents s)) <$> l = tdf_string <$> (n_contents <$> l)) as -> by (by rewrite <- list_fmap_compose).
  set (us := n_contents <$> l).
  assert (length (tdf_string <$> us) + sum_list_with (fun t => Z.to_nat (number t * (size t / 8))) (tdf_string <$> us) = sum_list_with (fun l => S (length l)) us)%nat as ->.
  { clear. induction us as [|x us IH]; [reflexivity|]. cbn [fmap list_fmap sum_list_with length] in *. cbn [size number tdf_string]. change (8 / 8) with 1. rewrite Z.mul_1_r, Nat2Z.id. lia. }
  set (k := sum_list_with _ us). rewrite Nat.add_1_r. change (replicate (S k) 0) with ([] ++ replicate (S k) 0). change 0%nat with (length ([] : list Z)) at 1.
  rewrite copy_uniques_ok by done. cbn [mbind option_bind app]. fold k. replace (S k - k)%nat with 1%nat by lia. f_equal.
  assert (flat_map (fun s => n_contents s ++ [85]) l = flat_map (fun c => c ++ [85]) us) as -> by (unfold us; clear; induction l as [|s l IH]; [done|]; cbn; by rewrite IH).
  clear k. induction us as [|c us IH]; [reflexivity|]. cbn [flat_map]. rewrite <- !app_assoc. apply until_zero_padded. cbn [app until_zero Z.eqb]. by rewrite IH.
Qed.
End Strings.

(** The state with another reader. *)
Definition with_rd (r : rd_state) (s : front) : front := with_in (Installer r (nums (fr_in s))) s.

Definition csteps {A} (m : C A) (f : format) (a : A) (s s' : front) : Prop := forall r pos bs,
  quad pos -> at_format r pos -> upcoming r (f pos ++ bs) ->
  quad (length (f pos)) /\ exists r', m (with_rd r s) = (with_rd r' s', Ok a) /\ upcoming r' bs /\ moved (length (f pos)) r r'.

Lemma csteps_reading {A} (m : M A) f a s : qreads m f a -> csteps (on_reader m) f a s s.
Proof.
  intros H r pos bs Hq Hp Hu. destruct (H (Installer r (nums (fr_in s))) pos bs Hq Hp Hu) as (Q & r' & E & U & Mv). split; [exact Q|]. exists r'.
  unfold on_reader, st_zoom. cbn [with_rd with_in fr_in]. rewrite E. auto.
Qed.

Lemma csteps_pure {A} (m : C A) a s s' : (forall r, m (with_rd r s) = (with_rd r s', Ok a)) -> csteps m fmt_nil a s s'.
Proof. intros H r pos bs Hq Hp Hu. split; [done|]. exists r. rewrite H. split; [done|]. split; [exact Hu|apply moved_refl]. Qed.

Lemma csteps_bind {A B} (m : C A) (g : A -> C B) f1 f2 a b s s1 s2 : csteps m f1 a s s1 -> csteps (g a) f2 b s1 s2 -> csteps (x ← m; g x) (fmt_seq f1 f2) b s s2.
Proof.
  intros H1 H2 r pos bs Hq Hp Hu. unfold fmt_seq in *. rewrite <- app_assoc in Hu. destruct (H1 r pos _ Hq Hp Hu) as (Q1 & r1 & E1 & U1 & M1).
  destruct (H2 r1 (pos + length (f1 pos))%nat bs ltac:(by apply quad_add) (moved_at _ _ _ _ M1 Hp) U1) as (Q2 & r2 & E2 & U2 & M2).
  rewrite length_app. split; [by apply quad_add|]. exists r2. rewrite (stM_bind_ok _ _ _ _ _ E1). split; [exact E2|]. split; [exact U2|]. by eapply moved_trans.
Qed.

Lemma csteps_fmt {A} (m : C A) f g a s s' : (forall pos, quad pos -> f pos = g pos) -> csteps m f a s s' -> csteps m g a s s'.
Proof. intros E H r pos bs Hq Hp Hu. rewrite <- (E pos Hq) in *. by apply H. Qed.

Lemma fmt_seq_nil f pos : fmt_seq f fmt_nil pos = f pos.
Proof. unfold fmt_seq, fmt_nil. apply app_nil_r. Qed.

(** An operation after which only the state changes. *)
Lemma csteps_then {A B} (m : C A) (g : A -> C B) f a b s s1 s2 : csteps m f a s s1 -> (forall r, g a (with_rd r s1) = (with_rd r s2, Ok b)) -> csteps (x ← m; g x) f b s s2.
Proof. intros H1 H2. eapply csteps_fmt; [intros pos _; apply fmt_seq_nil|]. eapply csteps_bind; [exact H1|by apply csteps_pure]. Qed.

Lemma csteps_before {A B} (m : C A) (g : A -> C B) f a b s s1 s2 : (forall r, m (with_rd r s) = (with_rd r s1, Ok a)) -> csteps (g a) f b s1 s2 -> csteps (x ← m; g x) f b s s2.
Proof. intros H1 H2. eapply csteps_fmt; [|eapply csteps_bind; [apply csteps_pure, H1|exact H2]]. intros pos _. unfold fmt_seq, fmt_nil. cbn. by rewrite Nat.add_0_r. Qed.

(** ** External names *)

Lemma big_code_small c : 1 <= c < 4 -> ireads (get_big_code 2) (fun _ => bits_of_Z 2 c) c.
Proof.
  intros Hc s pos bs Hp Hu. destruct (ireads_getcode 2 c ltac:(lia) ltac:(cbn; lia) s pos bs Hp Hu) as (r' & E & U & Mv). exists r'. split; [|by split].
  unfold get_big_code. unfold mbind at 1, stM_bind, get_rd. cbn [big_code_loop]. change (Z.of_nat 2) with 2 in E. rewrite (stM_bind_ok _ _ _ _ _ E).
  rewrite (proj2 (Z.eqb_neq _ _)) by lia. unfold mret, stM_ret. by rewrite s32_small by lia.
Qed.

Lemma align_2 pos : quad pos -> fmt_align (pos + 2)%nat = [false; false] ++ fmt_align (pos + 4)%nat.
Proof.
  unfold quad, fmt_align, pad_bits. intros H. pose proof (Nat.div_mod_eq pos 4) as E. rewrite H, Nat.add_0_r in E. rewrite E.
  assert (4 * (pos / 4) = 4 * ((pos / 4) mod 2) + (pos / 4 / 2) * 8)%nat as -> by (pose proof (Nat.div_mod_eq (pos / 4) 2); lia).
  rewrite <- (Nat.add_assoc _ _ 2), (Nat.add_comm _ 2), <- (Nat.add_assoc _ _ 4), (Nat.add_comm _ 4), !Nat.add_assoc, !Nat.Div0.mod_add.
  pose proof (Nat.mod_upper_bound (pos / 4) 2 ltac:(lia)). destruct ((pos / 4) mod 2)%nat as [|[|?]]; [reflexivity|reflexivity|lia].
Qed.

(** The code of an external, in two bits, and the rest of its byte. *)
Lemma external_code c r n pos bs : c = 1 \/ c = 2 -> quad pos -> at_format r pos -> upcoming r (fmt_seq (fmt_nibble (4 * c)) fmt_align pos ++ bs) ->
  exists r1 r2, get_big_code 2 (Installer r n) = (Installer r1 n, Ok c) /\ to_boundary (Installer r1 n) = (Installer r2 n, Ok tt) /\
    upcoming r2 bs /\ moved (length (fmt_seq (fmt_nibble (4 * c)) fmt_align pos)) r r2 /\ quad (length (fmt_seq (fmt_nibble (4 * c)) fmt_align pos)).
Proof.
  intros Hc Hq Hp Hu. assert (fmt_seq (fmt_nibble (4 * c)) fmt_align pos = bits_of_Z 2 c ++ fmt_align (pos + 2)%nat) as E.
  { unfold fmt_seq, fmt_nibble. rewrite length_bits_of_Z, align_2 by exact Hq. by destruct Hc as [-> | ->]. }
  rewrite E, <- app_assoc in Hu. destruct (big_code_small c ltac:(lia) (Installer r n) pos _ Hp Hu) as (r1 & E1 & U1 & M1). cbn [rd nums] in *. rewrite length_bits_of_Z in M1.
  destruct (to_boundary_ok (Installer r1 n) (pos + 2)%nat bs (moved_at _ _ _ _ M1 Hp) U1) as (r2 & E2 & U2 & M2). cbn [rd nums] in *.
  exists r1, r2. split; [exact E1|]. split; [exact E2|]. split; [exact U2|]. split; [rewrite E, length_app, length_bits_of_Z; by eapply moved_trans|].
  unfold fmt_seq, fmt_nibble. rewrite length_app, !length_bits_of_Z. apply quad_add; [done|]. by apply quad_align, quad_add.
Qed.

(** What fits the [int]s of the installer. *)
Definition short_key (k : NameKeyT) : Prop :=
  match k with
  | KT_STRING s => ok_ident (n_contents s)
  | KT_UNIQUE l => Z.of_nat (length l) < 2147483648 /\ Forall (fun s => ok_ident (n_contents s)) l
  end.

Lemma qreads_idents l : Z.of_nat (length l) < 2147483648 -> Forall (fun s => ok_ident (n_contents s)) l ->
  qreads d_tdfident_list (fmt_seq (fmt_int (Z.of_nat (length l))) (fmt_list (fun s => fmt_string (n_contents s)) l)) ((fun s => tdf_string (n_contents s)) <$> l).
Proof.
  intros Hl Hs. unfold d_tdfident_list. eapply qreads_bind; [apply qreads_int; lia|]. rewrite (proj2 (Z.ltb_ge _ _)), Nat2Z.id by lia.
  apply qreads_list. intros s Hin. apply qreads_ident. exact (proj1 (Forall_forall _ _) Hs s (proj1 (list_elem_of_In _ _) Hin)).
Qed.

Lemma csteps_code c (k : Z -> C external) (g : C external) f e s : c = 1 \/ c = 2 -> k c = (_ ← on_reader to_boundary; g) -> csteps g f e s s ->
  csteps (code ← on_reader (get_big_code 2); k code) (fmt_seq (fmt_nibble (4 * c)) (fmt_seq fmt_align f)) e s s.
Proof.
  intros Hc Hk Hg r pos bs Hq Hp Hu. set (h := fmt_seq (fmt_nibble (4 * c)) fmt_align).
  assert (fmt_seq (fmt_nibble (4 * c)) (fmt_seq fmt_align f) pos = h pos ++ f (pos + length (h pos))%nat) as E.
  { unfold h, fmt_seq. by rewrite length_app, Nat.add_assoc, <- app_assoc. }
  rewrite E, <- app_assoc in Hu. destruct (external_code c r (nums (fr_in s)) pos _ Hc Hq Hp Hu) as (r1 & r2 & E1 & E2 & U2 & M2 & Q2). fold h in M2, Q2.
  destruct (Hg r2 (pos + length (h pos))%nat bs ltac:(by apply quad_add) (moved_at _ _ _ _ M2 Hp) U2) as (Q3 & r3 & E3 & U3 & M3).
  rewrite E, length_app. split; [by apply quad_add|]. exists r3. split; [|split; [exact U3|by eapply moved_trans]].
  assert (on_reader (get_big_code 2) (with_rd r s) = (with_rd r1 s, Ok c)) as F1 by (unfold on_reader, st_zoom; cbn [with_rd with_in fr_in]; by rewrite E1).
  assert (on_reader to_boundary (with_rd r1 s) = (with_rd r2 s, Ok tt)) as F2 by (unfold on_reader, st_zoom; cbn [with_rd with_in fr_in]; by rewrite E2).
  rewrite (stM_bind_ok _ _ _ _ _ F1), Hk, (stM_bind_ok _ _ _ _ _ F2). exact E3.
Qed.

Lemma csteps_external junk k s : short_key k -> csteps (d_external junk) (fmt_name k) (external_of k) s s.
Proof.
  destruct k as [n|l]; cbn [short_key fmt_name external_of]; intros Hk.
  - unfold d_external. eapply (csteps_code 1); [by left|reflexivity|]. eapply csteps_then; [by apply csteps_reading, qreads_ident|reflexivity].
  - destruct Hk as [Hl Hs]. unfold d_external. eapply (csteps_code 2); [by right|reflexivity|]. eapply csteps_then; [by apply csteps_reading, qreads_idents|reflexivity].
Qed.

(** ** The names in the tables *)

Section Names.
Context (junk : nat -> flt) (big_endian : bool) (machine_toks : list Z -> bool) (do_alloca replace_arith_type : bool) (name_prefix : list Z).

Abbreviation special := (special_token machine_toks do_alloca replace_arith_type).
Abbreviation linkextern := (d_linkextern junk big_endian machine_toks do_alloca replace_arith_type name_prefix).

Lemma change_at_alter {A} (f : A -> A) (l : list A) i : 0 <= i < Z.of_nat (length l) -> change_at i f l = Some (alter f (Z.to_nat i) l).
Proof.
  intros H. unfold change_at. rewrite (proj2 (Z.ltb_ge _ _)) by lia. destruct (lookup_lt_is_Some_2 l (Z.to_nat i) ltac:(lia)) as [x E]. rewrite E. cbn [mbind option_bind]. f_equal.
  apply list_eq. intros j. destruct (decide (j = Z.to_nat i)) as [->|Hne].
  - rewrite list_lookup_insert_eq by (by eapply lookup_lt_Some). by rewrite list_lookup_alter_eq, E.
  - by rewrite list_lookup_insert_ne, list_lookup_alter_ne.
Qed.

Definition enter_token (k : NameKeyT) (t : tok_define) : tok_define :=
  TokDefine (Some (installer_name k)) (tok_special t || special (installer_name k)) (valpresent t) (tok_unit_number t) (defined t) (tok_index t) (is_capsule_token t) (recursive t).
Definition enter_tag (k : NameKeyT) (d : dec) : dec := Dec (Some (add_prefix name_prefix (installer_name k))) true true (have_def d) (processed d) (isweak d).
Definition enter_diagtag (k : NameKeyT) (d : diag_tagdef) : diag_tagdef := DiagTagdef (Some (installer_name k)) (d_type_key d).
Definition enter_dgtag (k : NameKeyT) (d : dgtag_struct) : dgtag_struct := Dgtag (Some (installer_name k)).

(** A name in its element of a table. *)
Definition enter_at {A} (f : NameKeyT -> A -> A) (l : list A) (v : NameKeyT * DirectT) : list A := alter (f v.1) (Z.to_nat (id v.2)) l.

Definition name_effect (s : front) (v : NameKeyT * DirectT) : front :=
  match crt_extern_link_type s with
  | TOK_TYPE => with_toktab (enter_at enter_token (capsule_toktab s) v) s
  | TAG_TYPE => with_tagtab (enter_at enter_tag (capsule_tagtab s) v) s
  | DIAGTAG_TYPE => with_diag_tagtab (enter_at enter_diagtag (capsule_diag_tagtab s) v) s
  | DGTAG_TYPE => with_dgtab (enter_at enter_dgtag (capsule_dgtab s) v) s
  | AL_TYPE | UNKNOWN_TYPE => s
  end.

Definition table_length (s : front) (t : link_type) : nat :=
  match t with
  | TOK_TYPE => length (capsule_toktab s)
  | TAG_TYPE => length (capsule_tagtab s)
  | AL_TYPE => length (capsule_altab s)
  | DIAGTAG_TYPE => length (capsule_diag_tagtab s)
  | DGTAG_TYPE => length (capsule_dgtab s)
  | UNKNOWN_TYPE => 0
  end.

Definition is_string (k : NameKeyT) : Prop := match k with KT_STRING _ => True | KT_UNIQUE _ => False end.

(** What a name of a table of [n] elements needs. *)
Record fits_table (t : link_type) (n : nat) (v : NameKeyT * DirectT) : Prop := {
  ft_key : short_key v.1;
  ft_id : 0 <= id v.2 < 2147483648 /\ id v.2 < Z.of_nat n;
  ft_string : t = DIAGTAG_TYPE -> is_string v.1
}.

Lemma name_effect_type s v : crt_extern_link_type (name_effect s v) = crt_extern_link_type s.
Proof. unfold name_effect. destruct (crt_extern_link_type s) eqn:E; exact E. Qed.

Lemma name_effect_length s v t : table_length (name_effect s v) t = table_length s t.
Proof. unfold name_effect. destruct (crt_extern_link_type s), t; try reflexivity; apply length_alter. Qed.

Lemma make_linkextern_ok r s v : fits_table (crt_extern_link_type s) (table_length s (crt_extern_link_type s)) v ->
  f_make_linkextern big_endian machine_toks do_alloca replace_arith_type name_prefix (small_nat (s32 (id v.2))) (external_of v.1) (with_rd r s) = (with_rd r (name_effect s v), Ok tt).
Proof.
  intros [_ [Hid Hlt] Hs]. unfold f_make_linkextern, name_effect. unfold mbind, stM_bind, get_front. change (crt_extern_link_type (with_rd r s)) with (crt_extern_link_type s).
  rewrite s32_small by lia. destruct (crt_extern_link_type s) eqn:Et; cbn [table_length] in Hlt; [lia| | |reflexivity| |].
  all: unfold f_make_tokextern, f_make_tagextern, f_make_diagtagextern, f_make_dgtagextern; cbn [natint].
  4: by unfold enter; rewrite external_to_string_ok; cbn [mbind option_bind with_rd with_in capsule_dgtab]; rewrite change_at_alter by lia.
  3: destruct v as [[n|l] d]; [|by destruct (Hs eq_refl)]; cbn [external_of fst snd] in *.
  1, 2: by unfold enter; rewrite external_to_string_ok; cbn [mbind option_bind with_rd with_in capsule_toktab capsule_tagtab]; rewrite change_at_alter by lia.
  pose proof (external_to_string_ok big_endian (KT_STRING n)) as E. cbn [external_of] in E. unfold enter. rewrite E. cbn [mbind option_bind with_rd with_in capsule_diag_tagtab]. by rewrite change_at_alter by lia.
Qed.

Lemma csteps_linkextern s v : fits_table (crt_extern_link_type s) (table_length s (crt_extern_link_type s)) v -> csteps linkextern (fmt_extern v) tt s (name_effect s v).
Proof.
  intros H. unfold d_linkextern, fmt_extern. pose proof H as [Hk [Hid _] _]. eapply csteps_bind; [apply csteps_reading, qreads_tdfint; lia|].
  eapply csteps_then; [by apply csteps_external|]. intros r. by apply make_linkextern_ok.
Qed.

Lemma csteps_names l : forall s, Forall (fits_table (crt_extern_link_type s) (table_length s (crt_extern_link_type s))) l ->
  csteps (get_codes (length l) linkextern) (fmt_list fmt_extern l) (replicate (length l) tt) s (foldl name_effect s l).
Proof.
  induction l as [|v l IH]; intros s H; cbn [length get_codes fmt_list foldr replicate foldl]; [by apply csteps_pure|]. inversion H as [|? ? Hv Hl]; subst.
  eapply csteps_bind; [by apply csteps_linkextern|]. eapply csteps_then; [apply IH|reflexivity].
  rewrite name_effect_type, name_effect_length. exact Hl.
Qed.

(** ** The shapes *)

Definition kind_of (sh : ShapeEntryT) : link_type := links_type (until_zero (n_contents (se_key sh))).

Definition shape_effect (s : front) (sh : ShapeEntryT) : front := foldl name_effect (with_link_type (kind_of sh) s) (visible (se_names sh)).

Record fits_front (n : nat) (sh : ShapeEntryT) : Prop := {
  ff_count : Z.of_nat (length (visible (se_names sh))) < 2147483648;
  ff_names : Forall (fits_table (kind_of sh) n) (visible (se_names sh))
}.

Lemma csteps_extern_link s sh : fits_front (table_length s (kind_of sh)) sh ->
  csteps (d_extern_link junk big_endian machine_toks do_alloca replace_arith_type name_prefix) (fmt_externs sh) tt (with_link_type (kind_of sh) s) (shape_effect s sh).
Proof.
  intros [Hc Hn]. unfold d_extern_link, fmt_externs. eapply csteps_bind; [apply csteps_reading, qreads_int; lia|]. rewrite Nat2Z.id.
  eapply csteps_then; [apply csteps_names|reflexivity]. cbn [with_link_type crt_extern_link_type]. destruct (kind_of sh); exact Hn.
Qed.

Definition link_of (sh : ShapeEntryT) : capsule_link := CapsuleLink (tdf_string (n_contents (se_key sh))) (small_nat (s32 (id_count sh))).

Lemma foldl_name_effect {A} (f : front -> A) l s : (forall s v, f (name_effect s v) = f s) -> f (foldl name_effect s l) = f s.
Proof. intros H. revert s. induction l as [|v l IH]; intros s; [done|]. cbn [foldl]. by rewrite IH, H. Qed.

Lemma shape_effect_linking s sh : crt_capsule_linking (shape_effect s sh) = crt_capsule_linking s.
Proof. unfold shape_effect. rewrite foldl_name_effect; [done|]. intros s' v. unfold name_effect. by destruct (crt_extern_link_type s'). Qed.

Lemma shape_effect_length s sh t : table_length (shape_effect s sh) t = table_length s t.
Proof. unfold shape_effect. rewrite (foldl_name_effect (fun s => table_length s t)); [by destruct t|]. intros. apply name_effect_length. Qed.

(** The state before the first of some shapes. *)
Definition start_shapes (s : front) (l : list ShapeEntryT) : front := match l with [] => s | sh :: _ => with_link_type (kind_of sh) s end.

Lemma set_link_type_ok r s all l i : crt_capsule_linking s = link_of <$> all -> drop i all = l -> set_link_type big_endian i (with_rd r s) = (with_rd r (start_shapes s l), Ok tt).
Proof.
  intros H Hl. unfold set_link_type, mbind, stM_bind, get_front. change (crt_capsule_linking (with_rd r s)) with (crt_capsule_linking s). rewrite H, list_lookup_fmap.
  assert (all !! i = head l) as -> by (rewrite <- Hl; rewrite <- (Nat.add_0_r i) at 1; rewrite <- lookup_drop; by destruct (drop i all)).
  destruct l as [|sh l]; reflexivity.
Qed.

Lemma csteps_extern_links all l : forall s i, crt_capsule_linking s = link_of <$> all -> drop i all = l -> Forall (fun sh => fits_front (table_length s (kind_of sh)) sh) l ->
  csteps (extern_links junk big_endian machine_toks do_alloca replace_arith_type name_prefix (length l) i) (fmt_list fmt_externs l) tt (start_shapes s l) (foldl shape_effect s l).
Proof.
  induction l as [|sh l IH]; intros s i Hall Hd Hf; cbn [length extern_links fmt_list foldr start_shapes foldl]; [by apply csteps_pure|].
  inversion Hf as [|? ? Hsh Hf']; subst. eapply csteps_bind; [by apply csteps_extern_link|].
  assert (drop (S i) all = l) as Hd' by (rewrite <- (Nat.add_1_r i), <- drop_drop, Hd; reflexivity).
  assert (crt_capsule_linking (shape_effect s sh) = link_of <$> all) as Hall' by (by rewrite shape_effect_linking).
  eapply csteps_before; [intros r; by apply (set_link_type_ok r (shape_effect s sh) all l (S i))|].
  apply IH; [exact Hall'|exact Hd'|]. eapply Forall_impl; [|exact Hf']. intros x Hx. by rewrite shape_effect_length.
Qed.

Lemma csteps_extern_link_list s l : crt_capsule_linking s = link_of <$> l -> Z.of_nat (length l) < 2147483648 -> Forall (fun sh => fits_front (table_length s (kind_of sh)) sh) l ->
  csteps (d_extern_link_list junk big_endian machine_toks do_alloca replace_arith_type name_prefix) (fmt_seq (fmt_int (Z.of_nat (length l))) (fmt_list fmt_externs l)) tt s (foldl shape_effect s l).
Proof.
  intros Hall Hn Hf. unfold d_extern_link_list. eapply csteps_bind; [apply csteps_reading, qreads_int; lia|].
  eapply csteps_before; [intros r; by apply (set_link_type_ok r s l l 0)|]. rewrite Nat2Z.id. by apply (csteps_extern_links l l s 0).
Qed.
End Names.
