(* ===== verification/TransLinked.v ===== *)
(** * TransLinked: the installers read what the linker writes

    The linker (TldCapsule) and the installers (TransCapsule) have readers of
    their own for the same format. The tables of the installer after the front
    part of a capsule are given in terms of its shapes: the table of a kind has
    an entry for each identifier of the shape, with the name that the shape has
    for the identifier. The front part of a capsule that the linker writes
    makes these tables. *)
From Stdlib Require Import String.
From stdpp Require Import base list list_numbers numbers.
From Stdlib Require Import ZArith Lia.
From S2P Require Import Prelude Codec ExdsString CStdio TldNameKey TldIO TldIOSpec HashTable TldNames TldShapes TldShapesSpec TldCapsule TldCapsuleSpec TldReadBack.
From S2P Require Import TransFlpt TransNumbers TransNumbersSpec TransNumbersArray TransReader TransReaderSpec TransReaderInts TransReaderPlaces TransFormats TransCapsule TransCapsuleSpec.

#[export] Instance link_type_dec : EqDecision link_type.
Proof. solve_decision. Defined.

(** ** Kinds and shapes *)

Definition type_name (t : link_type) : string :=
  match t with
  | TOK_TYPE => "token" | TAG_TYPE => "tag" | AL_TYPE => "alignment" | DIAGTAG_TYPE => "diagtag" | DGTAG_TYPE => "dgtag" | UNKNOWN_TYPE => ""
  end%string.

Lemma c_streq_type x t : t <> UNKNOWN_TYPE -> c_streq x (type_name t) = bool_decide (links_type x = t).
Proof.
  intros Ht. unfold links_type, c_streq. destruct t; [done|..]; cbn [type_name]; repeat (case_bool_decide; subst; try done).
Qed.

Definition shape_name (sh : ShapeEntryT) : list Z := until_zero (n_contents (se_key sh)).

(** The shape of a kind. *)
Fixpoint shape_of (t : link_type) (l : list ShapeEntryT) : option ShapeEntryT :=
  match l with
  | [] => None
  | sh :: l => if decide (kind_of sh = t) then Some sh else shape_of t l
  end.

Lemma find_index_shape be t l : t <> UNKNOWN_TYPE -> find_index be (link_of <$> l) (type_name t) = link_of <$> shape_of t l.
Proof.
  intros Ht. induction l as [|sh l IH]; [done|]. cbn [fmap list_fmap find_index shape_of link_of cl_id]. rewrite to_chars_tdf, c_streq_type by exact Ht.
  fold (kind_of sh). case_bool_decide; case_decide; try done.
Qed.

Definition kind_total (t : link_type) (l : list ShapeEntryT) : Z := match shape_of t l with Some sh => id_count sh | None => 0 end.

(** What the installer needs of a shape. *)
Record installable (sh : ShapeEntryT) : Prop := {
  in_key : ok_ident (n_contents (se_key sh));
  in_ids : 0 <= id_count sh < 2147483648;
  in_unknown : kind_of sh = UNKNOWN_TYPE -> visible (se_names sh) = [];
  in_front : fits_front (Z.to_nat (id_count sh)) sh;
  in_distinct : NoDup ((fun v => Z.to_nat (id v.2)) <$> visible (se_names sh))
}.

Lemma capsule_no_of_shape be t l : t <> UNKNOWN_TYPE -> Forall installable l -> capsule_no_of be (link_of <$> l) (type_name t) = kind_total t l /\ 0 <= kind_total t l.
Proof.
  intros Ht Hl. unfold capsule_no_of, kind_total. rewrite find_index_shape by exact Ht. destruct (shape_of t l) as [sh|] eqn:E; [|done]. cbn [fmap option_fmap option_map link_of cl_n natint].
  assert (sh ∈ l) as Hin. { revert E. clear. induction l as [|x l IH]; [done|]. cbn [shape_of]. case_decide; [intros [= ->]; by left|intros; right; auto]. }
  pose proof (in_ids _ (proj1 (Forall_forall _ _) Hl sh (proj1 (list_elem_of_In _ _) Hin))) as Hi. split; [apply s32_small; lia|lia].
Qed.

Lemma shape_of_elem l sh : NoDup (shape_name <$> l) -> sh ∈ l -> kind_of sh <> UNKNOWN_TYPE -> shape_of (kind_of sh) l = Some sh.
Proof.
  intros Hnd Hin Hk. induction l as [|x l IH]; [by apply elem_of_nil in Hin|]. cbn [shape_of]. cbn [fmap list_fmap] in Hnd. apply list.NoDup_cons in Hnd as [Hx Hnd].
  apply elem_of_cons in Hin as [->|Hin]; [by rewrite decide_True|]. rewrite decide_False; [by apply IH|]. intros E. apply Hx. apply list_elem_of_fmap. exists sh. split; [|exact Hin].
  pose proof (c_streq_type (shape_name x) (kind_of sh) Hk) as E1. pose proof (c_streq_type (shape_name sh) (kind_of sh) Hk) as E2. unfold c_streq in E1, E2.
  rewrite (bool_decide_true (links_type (shape_name x) = _)) in E1 by exact E. rewrite (bool_decide_true (links_type (shape_name sh) = _)) in E2 by reflexivity.
  apply bool_decide_eq_true_1 in E1, E2. congruence.
Qed.

(** ** The tables as they are made *)

Section Front.
Context (junk : nat -> flt) (big_endian : bool) (machine_toks : list Z -> bool) (do_alloca replace_arith_type : bool) (name_prefix : list Z).

Abbreviation shape_effects := (foldl (shape_effect machine_toks do_alloca replace_arith_type name_prefix)).

Definition new_table {A} (t : link_type) (l : list ShapeEntryT) (entry : nat -> A) : list A := entry <$> seq 0 (Z.to_nat (kind_total t l)).

Definition fresh_front (s : front) (groups : list tdfstring) (l : list ShapeEntryT) : front :=
  Front (fr_in s) groups (link_of <$> l) (new_table TOK_TYPE l new_token) (new_table TAG_TYPE l (fun _ => new_tag)) (new_table AL_TYPE l (fun _ => ALDEF_NONE))
    (new_table DIAGTAG_TYPE l (fun _ => DiagTagdef None DIAG_TYPE_INITED)) (new_table DGTAG_TYPE l (fun _ => Dgtag None)) (crt_extern_link_type s) (number_errors s).

Lemma start_make_capsule_ok r s groups l : Forall installable l ->
  start_make_capsule big_endian groups (link_of <$> l) (with_rd r s) = (with_rd r (fresh_front s groups l), Ok tt).
Proof.
  intros Hl. unfold start_make_capsule, rf_xcalloc.
  destruct (capsule_no_of_shape big_endian TOK_TYPE l ltac:(done) Hl) as [E1 H1], (capsule_no_of_shape big_endian TAG_TYPE l ltac:(done) Hl) as [E2 H2],
    (capsule_no_of_shape big_endian AL_TYPE l ltac:(done) Hl) as [E3 H3], (capsule_no_of_shape big_endian DIAGTAG_TYPE l ltac:(done) Hl) as [E4 H4],
    (capsule_no_of_shape big_endian DGTAG_TYPE l ltac:(done) Hl) as [E5 H5]. cbn [type_name] in *.
  rewrite E1, E2, E3, E4, E5. rewrite !(proj2 (Z.ltb_ge _ _)) by assumption. reflexivity.
Qed.

Lemma fresh_length s groups l t : t <> UNKNOWN_TYPE -> table_length (fresh_front s groups l) t = Z.to_nat (kind_total t l).
Proof. intros Ht. destruct t; [done|..]; cbn [table_length fresh_front capsule_toktab capsule_tagtab capsule_altab capsule_diag_tagtab capsule_dgtab]; unfold new_table; by rewrite length_fmap, length_seq. Qed.

Lemma fresh_fits s groups l : NoDup (shape_name <$> l) -> Forall installable l -> Forall (fun sh => fits_front (table_length (fresh_front s groups l) (kind_of sh)) sh) l.
Proof.
  intros Hnd Hl. apply Forall_forall. intros sh Hin. pose proof (proj1 (Forall_forall _ _) Hl sh Hin) as [_ _ Hu [Hc Hn] _]. apply list_elem_of_In in Hin.
  destruct (decide (kind_of sh = UNKNOWN_TYPE)) as [E|E].
  - split; [exact Hc|]. rewrite (Hu E). constructor.
  - rewrite fresh_length by exact E. unfold kind_total. rewrite shape_of_elem by assumption. by split.
Qed.

Lemma qreads_capsule_links l : Z.of_nat (length l) < 2147483648 -> Forall installable l ->
  qreads (d_capsule_link_list junk) (fmt_seq (fmt_int (Z.of_nat (length l))) (fmt_list fmt_shape l)) (link_of <$> l).
Proof.
  intros Hn Hl. unfold d_capsule_link_list. eapply qreads_bind; [apply qreads_int; lia|]. rewrite (proj2 (Z.ltb_ge _ _)), Nat2Z.id by lia.
  apply qreads_list. intros sh Hin. pose proof (proj1 (Forall_forall _ _) Hl sh (proj1 (list_elem_of_In _ _) Hin)) as [Hk Hi _ _ _].
  unfold d_capsule_link, fmt_shape. eapply qreads_bind; [by apply qreads_ident|]. apply (qreads_map (d_tdfint junk) _ _ (CapsuleLink _)). apply qreads_tdfint. lia.
Qed.

(** The front part of a capsule: the names of the unit sets, the shapes and the external names. *)
Definition fmt_front (names : list NStringT) (l : list ShapeEntryT) : format :=
  fmt_seq (fmt_seq (fmt_int (Z.of_nat (length names))) (fmt_list (fun s => fmt_string (n_contents s)) names))
  (fmt_seq (fmt_seq (fmt_int (Z.of_nat (length l))) (fmt_list fmt_shape l))
           (fmt_seq (fmt_int (Z.of_nat (length l))) (fmt_list fmt_externs l))).

Lemma csteps_front names l s : Z.of_nat (length names) < 2147483648 -> Forall (fun n => ok_ident (n_contents n)) names ->
  Z.of_nat (length l) < 2147483648 -> NoDup (shape_name <$> l) -> Forall installable l ->
  csteps (d_capsule_front junk big_endian machine_toks do_alloca replace_arith_type name_prefix) (fmt_front names l) tt s
    (shape_effects (fresh_front s ((fun n => tdf_string (n_contents n)) <$> names) l) l).
Proof.
  intros Hn Hs Hl Hnd Hi. unfold d_capsule_front, fmt_front. eapply csteps_bind; [by apply csteps_reading, qreads_idents|].
  eapply csteps_bind; [by apply csteps_reading, qreads_capsule_links|]. eapply csteps_before; [intros r; by apply start_make_capsule_ok|].
  apply csteps_extern_link_list; [reflexivity|exact Hl|by apply fresh_fits].
Qed.

(** ** The entries *)

(** The name of an element. *)
Fixpoint key_at (l : list (NameKeyT * DirectT)) (i : nat) : option NameKeyT :=
  match l with
  | [] => None
  | v :: l => if decide (Z.to_nat (id v.2) = i) then Some v.1 else key_at l i
  end.

Lemma key_at_none l i : i ∉ ((fun v => Z.to_nat (id v.2)) <$> l) -> key_at l i = None.
Proof. induction l as [|v l IH]; [done|]. cbn [fmap list_fmap key_at]. rewrite not_elem_of_cons. intros [H1 H2]. rewrite decide_False by congruence. by apply IH. Qed.

Lemma enter_all {A} (e : NameKeyT -> A -> A) l : NoDup ((fun v => Z.to_nat (id v.2)) <$> l) -> forall tab i,
  foldl (enter_at e) tab l !! i = (fun x => match key_at l i with Some k => e k x | None => x end) <$> tab !! i.
Proof.
  induction l as [|v l IH]; intros Hnd tab i; cbn [foldl key_at]; [by destruct (tab !! i)|]. cbn [fmap list_fmap] in Hnd. apply list.NoDup_cons in Hnd as [Hv Hnd]. rewrite (IH Hnd).
  unfold enter_at. destruct (decide (Z.to_nat (id v.2) = i)) as [E|E].
  - rewrite key_at_none by (by rewrite <- E). rewrite <- E, list_lookup_alter_eq. by destruct (tab !! _).
  - by rewrite list_lookup_alter_ne.
Qed.

Definition names_of_kind (t : link_type) (l : list ShapeEntryT) : list (NameKeyT * DirectT) :=
  flat_map (fun sh => if decide (kind_of sh = t) then visible (se_names sh) else []) l.

(** What happens to a table. *)
Lemma table_effects {A} (get : front -> list A) (t : link_type) (e : NameKeyT -> A -> A) :
  (forall s v, get (name_effect machine_toks do_alloca replace_arith_type name_prefix s v) = if decide (crt_extern_link_type s = t) then enter_at e (get s) v else get s) ->
  (forall s t, get (with_link_type t s) = get s) -> forall l s, get (shape_effects s l) = foldl (enter_at e) (get s) (names_of_kind t l).
Proof.
  intros H1 H2. induction l as [|sh l IH]; intros s; [done|]. cbn [foldl names_of_kind flat_map]. rewrite foldl_app. fold (names_of_kind t l). rewrite IH. f_equal.
  unfold shape_effect. rewrite <- (H2 s (kind_of sh)). assert (crt_extern_link_type (with_link_type (kind_of sh) s) = kind_of sh) as Ek by done.
  revert Ek. generalize (with_link_type (kind_of sh) s) as s0. induction (visible (se_names sh)) as [|v vs IHv]; intros s0 Ek; cbn [foldl]; [by case_decide|].
  rewrite IHv by (by rewrite name_effect_type). rewrite H1, Ek. by case_decide.
Qed.

Lemma names_of_kind_elem l sh : NoDup (shape_name <$> l) -> sh ∈ l -> kind_of sh <> UNKNOWN_TYPE -> names_of_kind (kind_of sh) l = visible (se_names sh).
Proof.
  intros Hnd Hin Hk. induction l as [|x l IH]; [by apply elem_of_nil in Hin|]. cbn [names_of_kind flat_map]. fold (names_of_kind (kind_of sh) l).
  pose proof Hnd as Hnd'. cbn [fmap list_fmap] in Hnd. apply list.NoDup_cons in Hnd as [Hx Hnd].
  assert (forall y, y ∈ x :: l -> kind_of y = kind_of sh -> y = sh) as Huniq.
  { intros y Hy E. pose proof (shape_of_elem _ _ Hnd' Hin Hk) as F1. pose proof (shape_of_elem _ y Hnd' Hy ltac:(congruence)) as F2. rewrite E in F2. congruence. }
  apply elem_of_cons in Hin as [<-|Hin].
  - rewrite decide_True by done. assert (names_of_kind (kind_of sh) l = []) as ->; [|apply app_nil_r]. clear -Hx Huniq. unfold names_of_kind.
    assert (forall y, y ∈ l -> kind_of y <> kind_of sh) as Hne. { intros y Hy E. apply Hx. apply list_elem_of_fmap. exists y. split; [|exact Hy]. by rewrite (Huniq y ltac:(by right) E). }
    clear Hx Huniq. induction l as [|y l IH]; [done|]. cbn [flat_map]. rewrite decide_False by (apply Hne; by left). apply IH. intros z Hz. apply Hne. by right.
  - rewrite decide_False; [by apply IH|]. intros E. pose proof (Huniq x ltac:(by left) E) as ->. apply Hx. apply list_elem_of_fmap. by exists sh.
Qed.

(** An entry of the table of a kind, with its name. *)
Definition token_entry (i : nat) (k : option NameKeyT) : tok_define :=
  TokDefine (installer_name <$> k) (match k with Some k => special_token machine_toks do_alloca replace_arith_type (installer_name k) | None => false end) false (-1) false (Z.of_nat i) true false.
Definition tag_entry (k : option NameKeyT) : dec :=
  match k with None => new_tag | Some k => Dec (Some (add_prefix name_prefix (installer_name k))) true true false false false end.

Definition table_for {A} (tab : list A) (sh : ShapeEntryT) (entry : nat -> option NameKeyT -> A) : Prop :=
  length tab = Z.to_nat (id_count sh) /\ forall i, (i < length tab)%nat -> tab !! i = Some (entry i (key_at (visible (se_names sh)) i)).

(** The table of the shape. *)
Definition describes (s : front) (sh : ShapeEntryT) : Prop :=
  match kind_of sh with
  | TOK_TYPE => table_for (capsule_toktab s) sh token_entry
  | TAG_TYPE => table_for (capsule_tagtab s) sh (fun _ => tag_entry)
  | AL_TYPE => table_for (capsule_altab s) sh (fun _ _ => ALDEF_NONE)
  | DIAGTAG_TYPE => table_for (capsule_diag_tagtab s) sh (fun _ k => DiagTagdef (installer_name <$> k) DIAG_TYPE_INITED)
  | DGTAG_TYPE => table_for (capsule_dgtab s) sh (fun _ k => Dgtag (installer_name <$> k))
  | UNKNOWN_TYPE => True
  end.

Lemma table_described {A} t l sh (new : nat -> A) (e : NameKeyT -> A -> A) entry :
  t = kind_of sh -> t <> UNKNOWN_TYPE -> NoDup (shape_name <$> l) -> Forall installable l -> sh ∈ l ->
  (forall i k, match k with Some k => e k (new i) | None => new i end = entry i k) ->
  table_for (foldl (enter_at e) (new_table t l new) (names_of_kind t l)) sh entry.
Proof.
  intros -> Ht Hnd Hl Hin He. rewrite names_of_kind_elem by assumption. pose proof (proj1 (Forall_forall _ _) Hl sh (proj1 (list_elem_of_In _ _) Hin)) as [_ _ _ _ Hd].
  assert (forall vs (tab : list A), length (foldl (enter_at e) tab vs) = length tab) as Hlen by (induction vs as [|v vs IH]; intros tab; [done|]; cbn [foldl]; rewrite IH; apply length_alter).
  unfold table_for. rewrite Hlen. unfold new_table, kind_total. rewrite shape_of_elem by assumption. rewrite length_fmap, length_seq. split; [done|]. intros i Hi.
  rewrite enter_all by exact Hd. rewrite list_lookup_fmap, lookup_seq_lt by exact Hi. cbn. by rewrite He.
Qed.

Lemma shape_effects_same {A} (f : front -> A) l s :
  (forall s v, f (name_effect machine_toks do_alloca replace_arith_type name_prefix s v) = f s) -> (forall s t, f (with_link_type t s) = f s) -> f (shape_effects s l) = f s.
Proof. intros H1 H2. revert s. induction l as [|sh l IH]; intros s; [done|]. cbn [foldl]. rewrite IH. unfold shape_effect. by rewrite foldl_name_effect. Qed.

Lemma front_described s groups l : NoDup (shape_name <$> l) -> Forall installable l -> let s' := shape_effects (fresh_front s groups l) l in
  crt_capsule_groups s' = groups /\ crt_capsule_linking s' = link_of <$> l /\ number_errors s' = number_errors s /\ fr_in s' = fr_in s /\
  Forall (describes s') l /\ (forall t, shape_of t l = None -> table_length s' t = 0%nat).
Proof.
  intros Hnd Hl s'. assert (forall t, table_length s' t = table_length (fresh_front s groups l) t) as Hlen.
  { intros t. unfold s'. rewrite (shape_effects_same (fun s => table_length s t)); [|intros; apply name_effect_length|intros ? []; by destruct t]. by destruct t. }
  split; [|split; [|split; [|split; [|split]]]].
  - unfold s'. rewrite shape_effects_same; [done| |done]. intros s0 v. unfold name_effect. by destruct (crt_extern_link_type s0).
  - unfold s'. rewrite shape_effects_same; [done| |done]. intros s0 v. unfold name_effect. by destruct (crt_extern_link_type s0).
  - unfold s'. rewrite shape_effects_same; [done| |done]. intros s0 v. unfold name_effect. by destruct (crt_extern_link_type s0).
  - unfold s'. rewrite shape_effects_same; [done| |done]. intros s0 v. unfold name_effect. by destruct (crt_extern_link_type s0).
  - apply Forall_forall. intros sh Hin. apply list_elem_of_In in Hin. unfold describes. destruct (kind_of sh) eqn:Ek; [done|..]; unfold s'.
    + rewrite (table_effects capsule_toktab TOK_TYPE (enter_token machine_toks do_alloca replace_arith_type)); [|by intros s0 v; unfold name_effect; destruct (crt_extern_link_type s0)|done].
      by apply table_described; [..|intros i []].
    + rewrite (table_effects capsule_tagtab TAG_TYPE (enter_tag name_prefix)); [|by intros s0 v; unfold name_effect; destruct (crt_extern_link_type s0)|done].
      by apply table_described; [..|intros i []].
    + rewrite (shape_effects_same capsule_altab); [|by intros s0 v; unfold name_effect; destruct (crt_extern_link_type s0)|done].
      split; cbn [capsule_altab fresh_front]; unfold new_table, kind_total; rewrite <- Ek, shape_of_elem by (congruence || assumption); rewrite length_fmap, length_seq; [done|].
      intros i Hi. by rewrite list_lookup_fmap, lookup_seq_lt.
    + rewrite (table_effects capsule_diag_tagtab DIAGTAG_TYPE enter_diagtag); [|by intros s0 v; unfold name_effect; destruct (crt_extern_link_type s0)|done].
      by apply table_described; [..|intros i []].
    + rewrite (table_effects capsule_dgtab DGTAG_TYPE enter_dgtag); [|by intros s0 v; unfold name_effect; destruct (crt_extern_link_type s0)|done].
      by apply table_described; [..|intros i []].
  - intros t Ht. rewrite Hlen. destruct (decide (t = UNKNOWN_TYPE)) as [->|Hne]; [done|]. rewrite fresh_length by exact Hne. unfold kind_total. by rewrite Ht.
Qed.
End Front.

(** What the installer needs of the linker's state, beyond what the linker
    needs to write it: the version, sizes that fit an [int], shapes of
    different kinds, and names of the kinds that the installer knows. *)
Record for_installer (g : StaticsT) (units : UnitTableT) (shapes : ShapeTableT) (ps : list nat) : Prop := {
  fi_major : capsule_major_version g = 4;
  fi_sets : Z.of_nat (length ps) < 2147483648 /\ forall p, p ∈ ps -> Z.of_nat (length (n_contents (ue_key (entry_at units p)))) < 2147483648;
  fi_shapes : Forall installable (shapes_of shapes) /\ Z.of_nat (length (shapes_of shapes)) < 2147483648;
  fi_keys : NoDup (shape_name <$> shapes_of shapes)
}.

Lemma installable_same s s' : same_shape s s' -> installable s -> installable s'.
Proof.
  intros (E1 & E2 & E3 & _) [H1 H2 H3 [H4 H5] H6]. assert (kind_of s' = kind_of s) as Ek by (unfold kind_of; by rewrite E1).
  split; rewrite ?E1, ?E2, ?E3, ?Ek; auto. split; rewrite ?E2, ?Ek; auto.
Qed.

Lemma live_names t t' : same_shapes t t' -> NoDup (shape_name <$> shapes_of t) -> NoDup (shape_name <$> live t').
Proof.
  intros H Hnd. apply (sublist_NoDup _ (shape_name <$> shapes_of t')); [|apply fmap_sublist, sublist_filter].
  apply shapes_of_same in H. assert (shape_name <$> shapes_of t' = shape_name <$> shapes_of t) as ->; [|exact Hnd].
  clear Hnd. induction H as [|s s' l l' (E & _) H IH]; [done|]. cbn [fmap list_fmap]. f_equal; [unfold shape_name; by rewrite E|exact IH].
Qed.

Lemma live_length_same t t' : same_shapes t t' -> (length (live t') <= length (shapes_of t))%nat.
Proof. intros H. rewrite (Forall2_length (shapes_of_same _ _ H)). unfold live. apply length_filter. Qed.

Lemma fmt_seq_at f f' g g' pos : f pos = f' pos -> fmt_eq g g' -> fmt_seq f g pos = fmt_seq f' g' pos.
Proof. intros H1 H2. unfold fmt_seq. by rewrite H1, H2. Qed.

Definition fmt_unit_sets (t : ShapeTableT) (sets : list (UnitEntryT * bool)) : format :=
  fmt_seq (fmt_int (Z.of_nat (length sets))) (fmt_list (fmt_unit_set t) sets).

Lemma fmt_capsule_parts g es t : let sets := filter written es in
  fmt_capsule g es t 0%nat = fmt_seq (fmt_versions (capsule_major_version g) (capsule_minor_version g))
    (fmt_seq (fmt_front ((fun e => ue_key e.1) <$> sets) (live t)) (fmt_unit_sets t sets)) 0%nat.
Proof.
  intros sets. unfold fmt_capsule. fold sets. match goal with |- fmt_seq _ ?f _ = fmt_seq _ ?g _ => assert (fmt_eq f g) as E end.
  { unfold fmt_front, fmt_unit_sets. rewrite !fmt_seq_assoc, length_fmap, fmt_list_fmap. reflexivity. }
  by apply fmt_seq_at.
Qed.


(** ** The capsule of TldCapsuleSpec *)

(** The installer before it reads. *)
Definition ex_front : front := Front (Installer (demo_packet []) (Flpts [] 0 0)) [] [] [] [] [] [] [] UNKNOWN_TYPE 0.

Lemma ex_installable : Forall installable (shapes_of ex_shapes).
Proof.
  assert (shapes_of ex_shapes = [ex_entry]) as -> by (vm_compute; reflexivity). constructor; [|constructor].
  assert (visible (se_names ex_entry) = [(KT_STRING ex_tag, Direct 0 7 None None); (KT_UNIQUE [ex_tag; NString 0 []], Direct 2 10 None None)]) as E by (vm_compute; reflexivity).
  assert (kind_of ex_entry = TAG_TYPE) as Ek by reflexivity. assert (ok_ident (n_contents ex_tag)) as Ht by (split; [apply (bool_decide_eq_true_1 _); vm_compute; reflexivity|reflexivity]).
  split; [exact Ht|cbn; lia|by rewrite Ek| |rewrite E; apply (bool_decide_eq_true_1 _); vm_compute; reflexivity].
  split; [rewrite E; reflexivity|]. rewrite E, Ek. constructor; [|constructor; [|constructor]]; (split; [|cbn; lia|discriminate]); [exact Ht|].
  split; [reflexivity|]. constructor; [exact Ht|constructor; [split; [constructor|reflexivity]|constructor]].
Qed.

Lemma ex_for_installer : for_installer ex_statics ex_units ex_shapes (seq 0 12).
Proof.
  split; [reflexivity| |split; [exact ex_installable|vm_compute; reflexivity]|apply (bool_decide_eq_true_1 _); vm_compute; reflexivity].
  split; [reflexivity|]. intros p Hp. apply elem_of_seq in Hp. do 12 (destruct p as [|p]; [vm_compute; reflexivity|]). lia.
Qed.


(** What comes out, by running both programs. *)
Example ex_installer_tags :
  (t ← capsule_write ex_statics ex_units ex_shapes;
   let w := (_ ← t.2; tdf_writer_close) (tdf_writer_open (takes_all at_close) [] 0) in
   Some (capsule_tagtab (translate_front (fun _ => flt_zero) false (fun _ => false) true false [95] (bytes_in_file w.1) ex_front).1))
  = Some [Dec (Some (chars "_tag")) true true false false false; new_tag; Dec (Some (chars "_tagUU")) true true false false false].
Proof. vm_compute. reflexivity. Qed.
